(* ===== verification/_CoqProject ===== *)
-Q . S2P
Prelude.v
Codec.v
Floats.v
TikvError.v
Circuit.v
Lifecycle.v
Keys.v
Env.v
Effects.v
Schema.v
Client.v
Locks.v
WorkUnit.v
Batch.v
Controller.v
Reaper.v
Episode.v
Merge.v
Finalizer.v
RingBuffer.v
Storage.v
Cache.v
CacheLaws.v
Multipart.v
Alignment.v
Color.v
Actor.v
Scanner.v
Worker.v
Executor.v
ExecutorLaws.v
FramePool.v
Fragment.v
Streaming.v
Stats.v
Metadata.v
MetadataAssembly.v
Image.v
DatasetPipeline.v
VideoFrame.v
Convert.v
WorkerPool.v
Lerobot.v
LerobotLaws.v
LerobotEpisode.v
FileSystem.v
FileSystemLaws.v
FileSystemLinks.v
LocalStorage.v
LocalStorageLaws.v
LocalUpload.v
LocalRoundtrip.v
LocalDelete.v
LocalExamples.v
S3.v
Core.v
Retry.v
Factory.v
Composer.v
Mailbox.v
Concurrent.v
Workload.v
Catalog.v
