(* ===== verification/Prelude.v ===== *)
(** * Roboflow: verification of the control plane and of the core of the data plane

    Roboflow converts robotics recordings into LeRobot datasets.  A user submits a
    batch; its input files become work units; workers in many pods claim the units,
    convert the files and stage the output; a finalizer merges it.  The pods share no
    memory: everything they agree on is in a TiKV store.  Inside a pod, messages are
    aligned to frames, frames are handed between threads and converted for the
    encoder, and results are uploaded to object storage through a cache.

    Paths below: [D/] is crates/roboflow-distributed/src, [S/] crates/
    roboflow-storage/src, [X/] crates/roboflow-executor/src, [F/] crates/
    roboflow-dataset/src/formats, [V/] crates/roboflow-media/src/video, [I/] crates/
    roboflow-media/src, [P/] crates/roboflow-pipeline/src and [C/] crates/
    roboflow-core/src.

    ** The parts and how they interact

    - [D/tikv/client.rs] talks to the store through transactions and snapshots,
      guarded by the circuit breaker of [D/tikv/circuit.rs], with keys from
      [D/tikv/key.rs] and [D/batch/key.rs] and records from [D/tikv/schema.rs].
    - [D/tikv/locks.rs] builds leases on the client's lock operations.
    - [D/batch/controller.rs] accepts batches, moves them through the phases of
      [D/batch/status.rs], and hands out, completes and fails work units
      ([D/batch/work_unit.rs]).
    - [D/scanner.rs], under a leader lock, lists the sources of a batch and queues a
      unit per file.
    - [D/worker/] claims units within the limit of [D/slot_pool.rs], gives them to a
      processor, reports the outcome and beats; [D/heartbeat.rs] is the background
      task that writes heartbeats, [D/shutdown.rs] the flag it stops on.
    - [D/reaper.rs] takes units back from workers whose heartbeat has stopped.
    - [D/episode/allocator.rs] hands out episode indices by compare-and-swap.
    - [D/merge/] and [D/finalizer/] merge the staged output of a settled batch and
      settle the batch.
    - [F/alignment/] groups messages into frames; [F/common/ring_buffer.rs] hands
      frames from a capture thread to an encoder thread; [V/arena.rs] is a pool of frame
      memory; [V/simd/] converts RGB to the planes an encoder wants; [V/fragment.rs] encodes
      a video in fragments and [V/composer.rs] joins them; [V/concurrent.rs] and
      [V/workload/] encode several videos at once, a thread for each.
    - [P/executor.rs] turns messages into frames and cuts them into episodes of a writer;
      [F/lerobot/] is the writer: a table per episode, a video per camera and episode,
      metadata files.  [I/image/] recognises and decodes images, [V/frame.rs] is what the
      encoder gets, [V/decode.rs] and [V/convert.rs] are pools of worker threads.
    - [D/metadata/] registers tasks and features, takes the metadata of episodes and
      assembles the files of a dataset; [D/stats/] collects the statistics of episodes;
      [D/catalog/] keeps records of episodes, segments and uploads.
    - [S/url.rs] names objects, [S/cached/] reads and writes them through a local
      cache, [S/multipart.rs] and [S/multipart_parallel.rs] upload large files,
      [S/streaming.rs] reads an object in chunks; [S/local.rs] keeps objects as files below
      a root, [S/s3.rs] in an object store, [S/streaming_upload.rs] uploads to both in chunks;
      [S/factory.rs] chooses a backend for a URL with the values of the environment and of
      [S/config_file.rs], and [S/retry.rs] retries the operations of one.
    - [C/error.rs], [C/registry.rs] and [C/retry.rs] are the errors, registries and the
      retry loop that the other crates share.
    - [X/] orders stages by their dependencies and runs them, and runs frames through
      a transformer and a processor.

    ** Files

    - [Prelude]: results (Rust's [Result], with a panic as a third outcome), machine
      integers, time in nanoseconds, record update, and the string operations the
      code uses, with their lemmas.
    - [Codec]: the serialisation crates as a type class; [Wire] is a concrete codec.
    - [TikvError], [Circuit], [Lifecycle] ([D/state/mod.rs], the phases and the unit
      states), [Keys], [Schema], [WorkUnit], [Batch] ([D/batch/spec.rs], [status.rs]):
      the data and the pure operations, a Module per Rust struct with the names of the
      source.  Clock readings are arguments.
    - [Env]: what the client uses of [tikv_client], [chrono] and [tokio] as the class
      [TransactionClient], with the documented behaviour as [TransactionClientLaws]:
      reads see the committed store, a commit applies all buffered writes or (with an
      error) all or none of them, the clock does not run back.  Any call may fail.
      [HealthyRuns] describes executions without failures; [Sim] is a concrete store
      with a clock and a list of faults, on which the witnesses run.
    - [Effects]: the monad of the operations (a [World] is the environment and the
      client's breaker) and a weakest-precondition calculus with its tactics.
      [Actor] extends it with the private state of one actor.
    - [Client] ([D/tikv/client.rs]), [Locks], [Controller], [Reaper], [Episode],
      [Merge], [Finalizer], [Scanner], [Worker] (also the heartbeat manager, the slot
      pool and the shutdown flag): the operations, each the whole function of the
      source with every call, early return and error, then what they do to the store.
    - [RingBuffer]: the operations as functions, and in [Spsc] the two threads as a
      step relation, with an abstract queue that they refine.
    - [FramePool] ([V/arena.rs]): the methods, and the accesses of any number of threads.
    - [Alignment] ([F/alignment/]), [Color] ([V/simd/]: modules [scalar], [avx2], [neon] and
      the dispatch [simd]), [Fragment] ([V/fragment.rs]), [Storage] (URLs and errors),
      [Cache] and [CacheLaws] ([S/cached/]), [Multipart], [Streaming].
    - [Executor] and [ExecutorLaws] ([X/]): pipelines, slots, scheduler, spawning
      executor, frames under a policy.
    - [Stats] ([D/stats/], in single precision), [Metadata] and [MetadataAssembly]
      ([D/metadata/]): operations on the store, as the other files of the control plane.
    - [Image] ([I/frame.rs], [I/image/format.rs]), [VideoFrame] ([V/frame.rs], the payload
      search of [I/image/decode.rs], the frame buffers of [V/dataset_encode.rs]), [Convert]
      (the converters of [V/convert.rs]), [WorkerPool] (the pools of [V/decode.rs] and
      [V/convert.rs] as a step relation of workers and owner, and decoding).
    - [DatasetPipeline] ([P/executor.rs]): the executor over any [FormatWriter], a class;
      [Lerobot] ([F/lerobot/]) is an instance of it, a writer over a file system whose
      operations can fail; [LerobotLaws] is about its columns and paths, [LerobotEpisode]
      about whole episodes.
    - [FileSystem]: the file system as [std::fs] and [std::path] show it, with
      [FileSystemLaws]: what calls change, as frames that compose, and [FileSystemLinks]: when
      symbolic links make no difference.  [LocalStorage]
      ([S/local.rs], [S/streaming_upload.rs]) on top of it; [LocalStorageLaws] confines its
      operations, [LocalUpload], [LocalRoundtrip] and [LocalDelete] say what they do,
      [LocalExamples] has the examples and flaws.  [S3] is [S/s3.rs].
    - [Floats]: double precision.  [Core] ([C/error.rs], [C/registry.rs]); [Retry]
      ([C/retry.rs], [S/retry.rs]); [Factory] ([S/factory.rs], [S/config_file.rs]);
      [Composer] ([V/composer.rs]), with FFmpeg as the class [Muxer].
    - [Mailbox]: a thread with an unbounded channel, and why its result depends only on
      what it was sent; [Concurrent] ([V/concurrent.rs]) and [Workload] ([V/workload/]) are
      owners of such threads.
    - [Catalog] ([D/catalog/]): operations on the store, with an abstract catalogue.

    Each theorem that is part of the interface carries a number C1 to C40 and, where it
    has hypotheses, a lemma ending in [_witness] that instantiates it.

    ** What the theorems show

    - Work units: no unit is granted to two workers (C1); a unit is attempted at most
      [max_attempts] times (C17); a round of a worker completes or fails the unit it
      claimed (C16) and a worker stays within its limit ([worker_within_limit]); only units of dead
      workers are reclaimed (C37), and one that beats is not reaped ([beating_worker_not_reaped]).
    - Batches: submission is atomic (C35); discovery queues a unit per file ([source_files_queued]), ends
      ([discovery_completes]) and never touches a stored unit (C15); what a reconciliation of a running
      batch concludes ([reconcile_running_outcome]), which phases it can produce ([reconcile_respects_lifecycle]), that a failing
      round loses no batch from the index ([reconcile_all_keeps_index]); a merge completes its batch (C36) and
      merge permits are conserved under contention ([semaphore_permits_conserved]).
    - Coordination: locks exclude each other for their TTL (C2) and blocking
      acquisition ends ([acquire_blocking_outcome]); episode indices are handed out once (C3); a put is
      applied or reported ([put_effect]); the breaker opens exactly after consecutive failures
      (C34); what a checkpoint records after any run, and
      when it panics (C39).
    - Ring buffer: in every interleaving it is a queue (C4), and no slot is accessed by
      both threads ([ring_accesses_safe]).  Frame pool: no slot has two holders, and none is lost
      (C21).  Fragments: the output shows the frames given, in order
      (C25), and joining videos concatenates them (C26).
    - Alignment: the buffer stays sorted and aligned (C12) and bounded (C40); frames are
      neither lost nor duplicated ([frames_conserved]).
    - Colour: the three implementations agree up to the rounding of the mean chroma
      (C5), they compute the transform ([conversion_is_transform]) and reject what they cannot convert
      ([conversion_outcome]).
    - Storage: URLs survive printing (C38); uploads store the file (C7), recover from
      transient errors ([upload_recovers]), give up cleanly ([exhausted_part_aborts]), in parallel as in sequence ([parallel_upload_equivalent]);
      the cache returns the remote object ([read_through]), evicts by its policy ([eviction_follows_policy]) and its
      size covers its entries ([cache_size_covers_entries]); the chunked reader is a cursor over the object
      (C27) and reads all of it ([stream_reads_object]).
      Without links in its way, local storage never changes anything outside its root (C11), its streaming
      upload is atomic whatever fails (C10), files are read back as written
      (C29), a prefix is deleted whole and alone (C28); the S3 writer stores
      what fits its buffer ([s3_writer_stores]).  Retrying ends with the result of its last attempt
      (C9) and hides passing faults where repeating is harmless (C8); when the factory makes an S3
      backend, and which ([factory_s3_outcome]).
    - Executor: what building a pipeline yields (C19), that stages run after what they
      depend on (C18), and that a pipeline of succeeding tasks completes (C20).

    - Dataset: the calls of the pipeline to its writer are well bracketed (C13), and its
      buffer has no effect as long as nothing fails (C14); an episode is stored whole, whatever the flush limits
      (C6), and its columns carry the last known values ([columns_hold_last_values]).
    - Media: a stage of workers delivers one result per command in order (C22), its
      shutdown returns exactly when the results fit (C23), every conversion path shows
      the same picture (C30); streams and cameras encoded at once come out as
      each alone (C24, [concurrent_is_sequential]); preparing images loses none ([frame_buffer_accounts_images]); headers
      give the dimensions ([jpeg_dimensions_found], [png_dimensions_found]).
    - Metadata: the collector in TiKV refines the one in memory (C32); registered tasks
      have indices of their own ([register_task_outcome]), and episodes list those they were submitted
      with ([submitted_tasks_resolve]); validation accepts the complete datasets (C33).
      The catalogue is three maps (C31).

    Other theorems state flaws of the code; they carry no number.  "With every
    call answered" in a comment is the hypothesis [ready]; a statement without it holds
    whatever fails.

    ** Modelling decisions

    - Integers are in [Z]; additions the release build wraps are [u32_add] and
      [u64_add], saturating and checked ones are themselves.
    - Operations of the control plane run one after the other; other pods act between
      operations.  Where the interleaving inside an operation is the point, it is
      modelled: the allocator's read and its compare-and-swap are separate steps
      ([alloc_step]), the semaphore's loads and exchanges too ([sem_step]), and the two
      phases of a merge claim.  The ring buffer's threads interleave at every load,
      store and slot access, and those of the frame pool at every atomic access, under
      sequential consistency.  Threads with a mailbox interleave at every send and
      receive.  The upload workers of the
      cache run between its methods.  Releases of executor slots run when a schedule
      says so.
    - Third-party code is a class or an argument: [object_store], [rayon], the hasher,
      the decoders of messages and images, tasks, stages, processors.  The order in
      which a [HashMap] is iterated is a parameter.  The file system of the LeRobot writer
      and of the cache answers from lists of outcomes; that of [FileSystem] is a tree of names,
      inodes and symbolic links, and each call fails when the next outcome says so.  There are no hard
      links.
    - Symbolic links lead [LocalStorage] outside its root (the examples [link_leads_outside] and
      [delete_follows_links]).  C11, C28 and C29 therefore ask that no link is at the
      root or prefix, below it or on the way to it, and hold with any links elsewhere; C10, whose
      temporary files are a parameter, is about trees without links.
    - A fault of a retried operation comes before or after the operation took effect (C8); a late
      fault is hidden only for operations whose repetition changes nothing and answers the same, which those of a
      delete are not ([late_fault_of_delete]).
    - FFmpeg may refuse or fail any call of the composer.  A source is read up to its first read error, which the
      composer takes for its end: C26 states what is joined then, C25 and C6 ask that
      sources are readable to their end where they promise every frame.
    - [tikv_client] checks transactions that are dropped unfinished, by default with a panic.  The
      pool of the catalogue drops one at every failed read, so the check is part of that model
      ([drop_check]).  [Client] is modelled with the check off: its [cas] and [transactional_claim] also leave
      transactions open, and there the result that the code returns is the result of the model.
    - The bytes of a converted picture depend on the processor, as those of [V/simd/] do: C30 compares the
      paths on one processor, and each with the scalar reference up to the rounding of the chroma.
    - Floating point is exact arithmetic where the code only compares or scales
      ([Cache] rounds nine tenths of a limit to the nearest double), and [SpecFloat] in [Floats] and what
      uses it, in [Stats] and in [Lerobot]; figures that only inform are left
      out.  An access outside a buffer through a raw pointer is a result of its own
      ([Color]).
    - Loops of the source are structural recursion over what they iterate.  Loops with
      fuel: [LockManager.acquire_loop] one round more than [max_acquire_attempts],
      which [acquire_blocking_outcome] proves enough; [TiKVEpisodeAllocator.alloc_loop] the ten attempts of
      the source; [Pipeline.drain] and the waves of the executors the number of
      stages, which C19 and C20 prove enough; the loops of a colour conversion the
      number of rows or columns ([conversion_is_transform]), eviction one round more than there are entries
      ([eviction_follows_policy]), the binary search of the alignment buffer its length (C12), reading an object to its end one read more than it
      has bytes ([stream_reads_object]); [jpeg_scan] the number of bytes ([jpeg_dimensions_outcome]), [complete_frames] one round more
      than there are buffered timestamps ([complete_frames_enough]), [collect_files] and [remove_empty_dirs] the depth of the tree
      (C28); [register_loop] has no bound in
      the source, its rounds are an argument.  The non-terminating service loops ([run]) are modelled by their bodies.
    - Random jitter, fresh UUIDs and the debug form of durations in messages are
      arguments.  Log output and most metrics counters are left out.

    ** Not modelled

    Connecting to the cluster and most reading of environment variables;
    floating-point progress figures; the range checks of [chrono] arithmetic; the
    parquet executor and the storage factory (parameters of [Merge]), metadata assembly
    and statistics as seen by [Finalizer] (parameters there; they are modelled in
    files of their own); the transfers of whole files of [S/s3.rs], which call
    what is modelled in [Multipart] and [Streaming]; the readers of recordings; image and
    video codecs and FFmpeg (classes or arguments); the parsing of LeRobot configurations,
    metadata files written to a remote store; the command line, which is mostly database
    access and printing.  The readers belong to another crate. *)
From Stdlib Require Export ZArith Lia.
From Stdlib Require Export Ascii.
From Stdlib Require String.
From stdpp Require Export base sorting relations option strings gmap.
From stdpp Require Export list.
Export list.

#[global] Open Scope Z_scope.

(** ** Results *)

(** A Rust computation returns a value, an error, or panics. *)
Inductive result (E A : Type) : Type :=
| Ok (a : A)
| Err (e : E)
| Panic (msg : string).
Arguments Ok {E A} a.
Arguments Err {E A} e.
Arguments Panic {E A} msg.

#[global] Instance result_ret E : MRet (result E) := fun A a => Ok a.
#[global] Instance result_bind E : MBind (result E) := fun A B f m =>
  match m with Ok a => f a | Err e => Err e | Panic s => Panic s end.

Definition is_Ok {E A} (r : result E A) : bool :=
  match r with Ok _ => true | _ => false end.

(** Computations that return or panic. *)
Abbreviation panics := (result Empty_set).

(** [Result::map_err]. *)
Definition map_err {E E' A} (f : E -> E') (r : result E A) : result E' A :=
  match r with Ok a => Ok a | Err e => Err (f e) | Panic s => Panic s end.

Lemma pair_of_fst {A B} (x : A * B) a : x.1 = a -> x = (a, x.2).
Proof. by destruct x; intros <-. Qed.

(** ** Machine integers

    Unsigned integers are [Z] values in [0, 2^w).  The release profile of the
    workspace does not set [overflow-checks], so a bare [+] wraps. *)
Definition u32_mod : Z := 2 ^ 32.
Definition u64_mod : Z := 2 ^ 64.
Definition u32_max : Z := u32_mod - 1.
Definition u64_max : Z := u64_mod - 1.
Definition i64_max : Z := 2 ^ 63 - 1.
Definition i64_min : Z := - 2 ^ 63.

Definition as_u32 (x : Z) : Z := x mod u32_mod.
Definition as_u64 (x : Z) : Z := x mod u64_mod.
Definition as_i64 (x : Z) : Z := (x + 2 ^ 63) mod u64_mod - 2 ^ 63.
Definition u32_add (a b : Z) : Z := as_u32 (a + b).
Definition u64_add (a b : Z) : Z := as_u64 (a + b).
(** [u32::saturating_sub] and [u64::saturating_sub]. *)
Definition saturating_sub (a b : Z) : Z := Z.max 0 (a - b).
(** [u64::saturating_add], [u64::saturating_mul]. *)
Definition saturating_add64 (a b : Z) : Z := Z.min u64_max (a + b).
Definition saturating_mul64 (a b : Z) : Z := Z.min u64_max (a * b).
(** [u64::checked_add]. *)
Definition checked_add64 (a b : Z) : option Z :=
  if a + b <=? u64_max then Some (a + b) else None.
(** [2_u64.pow(n)], wrapping. *)
Definition pow2_u64 (n : Z) : Z := as_u64 (2 ^ n).

Definition is_u32 (x : Z) : Prop := 0 <= x < u32_mod.
Definition is_u64 (x : Z) : Prop := 0 <= x < u64_mod.

Lemma as_u32_range x : is_u32 (as_u32 x).
Proof. apply Z.mod_pos_bound. reflexivity. Qed.

Lemma as_u64_range x : is_u64 (as_u64 x).
Proof. apply Z.mod_pos_bound. reflexivity. Qed.

Lemma as_u32_id x : is_u32 x -> as_u32 x = x.
Proof. apply Z.mod_small. Qed.

Lemma as_u64_id x : is_u64 x -> as_u64 x = x.
Proof. apply Z.mod_small. Qed.

Lemma as_i64_id x : i64_min <= x <= i64_max -> as_i64 x = x.
Proof. intros [? ?]. unfold as_i64. rewrite Z.mod_small; unfold u64_mod, i64_min, i64_max in *; lia. Qed.

Lemma u32_add_small a b : 0 <= a -> 0 <= b -> a + b < u32_mod -> u32_add a b = a + b.
Proof. intros. apply as_u32_id. split; lia. Qed.

Lemma u64_add_small a b : 0 <= a -> 0 <= b -> a + b < u64_mod -> u64_add a b = a + b.
Proof. intros. apply as_u64_id. split; lia. Qed.

Lemma checked_add64_Some a b c : checked_add64 a b = Some c -> c = a + b /\ c <= u64_max.
Proof.
  unfold checked_add64. destruct (Z.leb_spec (a + b) u64_max); [|done].
  intros [= <-]. done.
Qed.

(** ** Time

    A [DateTime<Utc>] and a [Duration] are nanosecond counts. *)
Definition ns_per_s : Z := 1000000000.
Definition ns_per_ms : Z := 1000000.
Definition secs (n : Z) : Z := n * ns_per_s.
Definition millis (n : Z) : Z := n * ns_per_ms.
(** [Duration::as_secs] and [Duration::subsec_millis]. *)
Definition as_secs (d : Z) : Z := d / ns_per_s.
Definition subsec_millis (d : Z) : Z := (d mod ns_per_s) / ns_per_ms.
(** [chrono::Duration::num_seconds] truncates toward zero. *)
Definition num_seconds (d : Z) : Z := Z.quot d ns_per_s.

(** ** Record update *)

(** [Settable R] gives the eta expansion of the record [R]; the setter of a
    field is found by replacing that field's projection in it. *)
Class Settable (R : Type) := eta_of : R -> R.
Class Setter {R E : Type} (proj : R -> E) := set_field : (E -> E) -> R -> R.
Arguments set_field {R E} proj {_} f r.

Ltac solve_setter :=
  match goal with
  | |- @Setter ?R ?E ?proj =>
      let i := constr:(_ : Settable R) in
      let e := eval red in i in
      exact (fun (f : E -> E) (r : R) =>
        ltac:(let b := eval cbv beta delta [eta_of] in (e r) in
              lazymatch b with
              | context C [proj r] => let b' := context C [f (proj r)] in exact b'
              end))
  end.
#[global] Hint Extern 1 (Setter _) => solve_setter : typeclass_instances.

#[warnings="-postfix-notation-not-level-1"]
Notation "r <| p := v |>" := (set_field p (fun _ => v) r)
  (at level 12, left associativity, p at level 9, v at level 99).

(** ** Byte strings

    A Rust [String] and a [Vec<u8>] are both [string] here: a sequence of
    bytes.  [String::from_utf8_lossy] is the identity on the keys the code
    builds, which come from Rust strings. *)

Definition slash : ascii := "/"%char.
Definition byte_ff : ascii := ascii_of_nat 255.

(** [str::strip_prefix]. *)
Fixpoint strip_prefix (p s : string) : option string :=
  match p, s with
  | "", _ => Some s
  | String a p', String b s' => if Ascii.eqb a b then strip_prefix p' s' else None
  | String _ _, "" => None
  end%string.

(** [str::starts_with]. *)
Definition starts_with (s p : string) : bool :=
  match strip_prefix p s with Some _ => true | None => false end.

(** [str::trim_start_matches(p)] for a non-empty [p]: the prefix is removed as often
    as it occurs, at most once per character. *)
Fixpoint trim_start_rounds (p s : string) (fuel : nat) : string :=
  match fuel, strip_prefix p s with
  | S fuel', Some s' => trim_start_rounds p s' fuel'
  | _, _ => s
  end.
Definition trim_start_matches (p s : string) : string := trim_start_rounds p s (String.length s).

(** [str::trim_start_matches(c)]. *)
Fixpoint trim_start_char (c : ascii) (s : string) : string :=
  match s with
  | String a s' => if Ascii.eqb a c then trim_start_char c s' else s
  | "" => ""
  end%string.

(** [str::trim_end_matches(c)]. *)
Fixpoint trim_end_char (c : ascii) (s : string) : string :=
  match s with
  | String a s' =>
      match trim_end_char c s' with
      | "" => if Ascii.eqb a c then "" else String a ""
      | r => String a r
      end
  | "" => ""
  end%string.

(** [str::split_once(c)]. *)
Fixpoint split_once (c : ascii) (s : string) : option (string * string) :=
  match s with
  | "" => None
  | String a s' =>
      if Ascii.eqb a c then Some (""%string, s')
      else match split_once c s' with
           | Some (x, y) => Some (String a x, y)
           | None => None
           end
  end%string.

(** The byte [c] does not occur in [s]. *)
Fixpoint free_of (c : ascii) (s : string) : bool :=
  match s with
  | "" => true
  | String a s' => negb (Ascii.eqb a c) && free_of c s'
  end%string.
Abbreviation slash_free := (free_of slash).

(** [s.split(c).next_back()], the text after the last [c]. *)
Fixpoint last_segment (c : ascii) (s : string) : string :=
  match s with
  | "" => ""
  | String a s' =>
      if Ascii.eqb a c then last_segment c s'
      else if free_of c s' then s else last_segment c s'
  end%string.

(** [str::contains(sub)]. *)
Fixpoint contains (sub s : string) : bool :=
  starts_with s sub ||
  match s with "" => false | String _ s' => contains sub s' end%string.

Lemma ascii_eqb_refl (a : ascii) : Ascii.eqb a a = true.
Proof. apply Ascii.eqb_refl. Qed.

Lemma strip_prefix_app p s : strip_prefix p (p +:+ s) = Some s.
Proof. induction p; simpl; [done|]. by rewrite ascii_eqb_refl. Qed.

Lemma strip_prefix_Some p s t : strip_prefix p s = Some t -> s = p +:+ t.
Proof.
  revert s. induction p as [|a p IH]; intros s; simpl; [by intros [= ->]|].
  destruct s as [|b s]; [done|].
  destruct (Ascii.eqb_spec a b) as [->|]; [|done].
  intros ->%IH. done.
Qed.

Lemma starts_with_app p s : starts_with (p +:+ s) p = true.
Proof. unfold starts_with. by rewrite strip_prefix_app. Qed.

Lemma starts_with_iff s p : starts_with s p = true <-> exists t, s = p +:+ t.
Proof.
  unfold starts_with. split.
  - destruct (strip_prefix p s) as [t|] eqn:E; [|done].
    intros _. exists t. by apply strip_prefix_Some.
  - intros [t ->]. by rewrite strip_prefix_app.
Qed.

Lemma free_of_app c a b : free_of c (a +:+ b) = free_of c a && free_of c b.
Proof. induction a as [|x a IH]; simpl; [done|]. rewrite IH. by destruct (Ascii.eqb x c). Qed.

Lemma split_once_app c a b :
  free_of c a = true -> split_once c (a +:+ String c b) = Some (a, b).
Proof.
  induction a as [|x a IH]; simpl; intros H; [by rewrite ascii_eqb_refl|].
  apply andb_true_iff in H as [Hx Ha]. apply negb_true_iff in Hx. rewrite Hx.
  by rewrite IH.
Qed.

Lemma last_segment_free c s : free_of c s = true -> last_segment c s = s.
Proof.
  destruct s as [|a s]; simpl; [done|]. intros [Ha Hs]%andb_true_iff.
  apply negb_true_iff in Ha. by rewrite Ha, Hs.
Qed.

Lemma last_segment_app c a b :
  free_of c b = true -> last_segment c (a +:+ String c b) = b.
Proof.
  intros Hb. induction a as [|x a IH]; simpl.
  - rewrite ascii_eqb_refl. by apply last_segment_free.
  - rewrite IH. destruct (Ascii.eqb x c); [done|].
    rewrite free_of_app. simpl. rewrite ascii_eqb_refl. simpl.
    by rewrite andb_false_r.
Qed.

Lemma trim_start_char_free c s : free_of c s = true -> trim_start_char c s = s.
Proof.
  destruct s as [|a s]; simpl; [done|]. intros [Ha _]%andb_true_iff.
  apply negb_true_iff in Ha. by rewrite Ha.
Qed.

Lemma free_of_cancel c a b x y :
  free_of c a = true -> free_of c b = true ->
  a +:+ String c x = b +:+ String c y -> a = b /\ x = y.
Proof.
  intros Ha Hb E. apply (f_equal (split_once c)) in E.
  rewrite !split_once_app in E by done. by injection E.
Qed.

Lemma free_of_no_sep c a b y : free_of c a = true -> a <> b +:+ String c y.
Proof.
  intros Ha ->. rewrite free_of_app in Ha. simpl in Ha.
  rewrite ascii_eqb_refl in Ha. simpl in Ha. by rewrite andb_false_r in Ha.
Qed.

Lemma string_app_cons c (a b : string) : String c a +:+ b = String c (a +:+ b).
Proof. reflexivity. Qed.

Lemma string_app_nil_l (b : string) : "" +:+ b = b.
Proof. reflexivity. Qed.

Lemma string_app_assoc (a b c : string) : (a +:+ b) +:+ c = a +:+ (b +:+ c).
Proof. induction a as [|x a IH]; [done|]. by rewrite !string_app_cons, IH. Qed.

Lemma string_app_nil_r (a : string) : a +:+ "" = a.
Proof. induction a as [|x a IH]; [done|]. by rewrite string_app_cons, IH. Qed.

Lemma string_app_inv_l (p a b : string) : p +:+ a = p +:+ b -> a = b.
Proof. apply String.app_inj. Qed.

(** *** The lexicographic byte order of a key scan *)

Lemma string_compare_app p a b : String.compare (p +:+ a) (p +:+ b) = String.compare a b.
Proof.
  induction p as [|x p IH]; [done|]. rewrite !string_app_cons. simpl.
  unfold Ascii.compare. by rewrite N.compare_refl.
Qed.

Lemma string_leb_refl s : String.leb s s = true.
Proof.
  unfold String.leb. destruct (String.compare s s) eqn:E; [done..|].
  pose proof (String.compare_antisym s s) as H. rewrite E in H. done.
Qed.

Lemma string_leb_total a b : String.leb a b = true \/ String.leb b a = true.
Proof.
  unfold String.leb. rewrite (String.compare_antisym b a).
  destruct (String.compare a b); simpl; auto.
Qed.

Lemma string_compare_cons a x b y :
  String.compare (String a x) (String b y) =
  match N.compare (N_of_ascii a) (N_of_ascii b) with
  | Eq => String.compare x y | r => r end.
Proof. simpl. unfold Ascii.compare. by destruct (N.compare _ _). Qed.

Lemma string_leb_trans a b c :
  String.leb a b = true -> String.leb b c = true -> String.leb a c = true.
Proof.
  unfold String.leb. revert b c.
  induction a as [|x a IH]; intros [|y b] [|z c]; try done.
  rewrite !string_compare_cons.
  destruct (N.compare_spec (N_of_ascii x) (N_of_ascii y)) as [Exy|Lxy|Gxy]; [..|done];
  destruct (N.compare_spec (N_of_ascii y) (N_of_ascii z)) as [Eyz|Lyz|Gyz]; try done;
  destruct (N.compare_spec (N_of_ascii x) (N_of_ascii z)); try done; try lia.
  apply IH.
Qed.

(** [lo <= k < hi], the keys a scan of [lo..hi] visits. *)
Definition in_range (lo hi k : string) : bool := String.leb lo k && String.ltb k hi.

Lemma in_range_prefix p x k : in_range p (p +:+ x) k = true -> exists s, k = p +:+ s.
Proof.
  unfold in_range. intros [Hlo Hhi]%andb_true_iff.
  unfold String.leb in Hlo. unfold String.ltb in Hhi. revert k Hlo Hhi.
  induction p as [|c p IH]; intros k Hlo Hhi; [by exists k|].
  destruct k as [|d k]; [done|]. rewrite string_app_cons in Hhi.
  rewrite string_compare_cons in Hlo, Hhi.
  destruct (N.compare_spec (N_of_ascii c) (N_of_ascii d)) as [E|L|G];
  destruct (N.compare_spec (N_of_ascii d) (N_of_ascii c)); try done; try lia.
  apply (f_equal ascii_of_N) in E. rewrite !ascii_N_embedding in E. subst d.
  destruct (IH k) as [s ->]; [done..|]. by exists s.
Qed.

(** A key in the range [p .. p ++ 0xFF) of a prefix scan is [p] followed by a
    suffix that does not start with the byte 0xFF. *)
Lemma in_prefix_range_iff p k :
  in_range p (p +:+ String byte_ff "") k = true <->
  exists s, k = p +:+ s /\ String.ltb s (String byte_ff "") = true.
Proof.
  split.
  - intros H. destruct (in_range_prefix _ _ _ H) as [s ->]. exists s. split; [done|].
    apply andb_true_iff in H as [_ H]. unfold String.ltb in *.
    by rewrite string_compare_app in H.
  - intros (s & -> & H). unfold in_range. apply andb_true_iff. split.
    + unfold String.leb. rewrite <- (string_app_nil_r p) at 1.
      rewrite string_compare_app. by destruct s.
    + unfold String.ltb in *. by rewrite string_compare_app.
Qed.

Lemma ltb_byte_ff s : free_of byte_ff s = true -> String.ltb s (String byte_ff "") = true.
Proof.
  destruct s as [|a s]; [done|]. simpl. intros [Ha _]%andb_true_iff.
  apply negb_true_iff, Ascii.eqb_neq in Ha.
  unfold String.ltb. rewrite string_compare_cons.
  assert (N_of_ascii a < 256)%N as Hb by apply N_ascii_bounded.
  assert (N_of_ascii byte_ff = 255%N) as -> by reflexivity.
  destruct (N.compare_spec (N_of_ascii a) 255%N) as [E|E|E]; [|done|lia].
  exfalso. apply Ha. rewrite <- (ascii_N_embedding a), E. reflexivity.
Qed.

(** ** Hash maps *)

(** The order in which a [HashMap] is iterated: some order of its entries. *)
Class HashOrder (K : Type) `{Countable K} := {
  hash_iter : forall {A : Type}, gmap K A -> list (K * A);
  hash_iter_perm : forall A (m : gmap K A), hash_iter m ≡ₚ map_to_list m }.

(** The order of [map_to_list]. *)
Definition list_order (K : Type) `{Countable K} : HashOrder K.
Proof. by refine {| hash_iter A m := map_to_list m |}. Defined.
