(* ===== verification/Codec.v ===== *)
(** * Serialisation interface

    The control plane stores Rust structs in TiKV as bytes, with [bincode]
    (work units, statuses, locks, heartbeats, checkpoints, merge states),
    [serde_yaml_ng] (batch specs) and [serde_json] (episode counters).  Those
    crates are parameters of the model: a [Codec] per stored type, and
    [LawfulCodec] for the behaviour the code relies on, that an owned value
    serialises and that decoding its bytes gives the value back.  [Wire] is a
    concrete family of such codecs, used to instantiate the parameter. *)
From S2P Require Import Prelude.

Class Codec (A : Type) := {
  encode : A -> string + string;  (** [inl] is the error's text *)
  decode : string -> string + A
}.

Class LawfulCodec (A : Type) `{Codec A} := {
  encode_total : forall x : A, exists b, encode x = inr b;
  decode_encode : forall (x : A) b, encode x = inr b -> decode b = inr x
}.

Lemma encode_inj `{LawfulCodec A} (x y : A) b : encode x = inr b -> encode y = inr b -> x = y.
Proof. intros Hx%decode_encode Hy%decode_encode. congruence. Qed.

(** ** Self-delimiting wire formats *)
Module Wire.

Class Wire (A : Type) := {
  put : A -> string -> string;
  get : string -> option (A * string);
  get_put : forall x s, get (put x s) = Some (x, s)
}.

#[export] Instance codec_of_wire A `{Wire A} : Codec A | 100 := {
  encode x := inr (put x "");
  decode s := match get s with Some (x, ""%string) => inr x | _ => inl "trailing bytes"%string end
}.

#[export] Instance lawful_of_wire A `{Wire A} : LawfulCodec A | 100.
Proof.
  split; simpl.
  - intros x. by eexists.
  - intros x b [= <-]. by rewrite get_put.
Qed.

Definition wire_iso {A B} `{Wire B} (f : A -> B) (g : B -> A) (gf : forall x, g (f x) = x) : Wire A.
Proof.
  refine {| put x s := put (f x) s;
            get s := match get s with Some (y, r) => Some (g y, r) | None => None end |}.
  intros x s. by rewrite get_put, gf.
Defined.

Fixpoint put_positive (p : positive) (s : string) : string :=
  match p with
  | xI p' => String "1" (put_positive p' s)
  | xO p' => String "0" (put_positive p' s)
  | xH => String "." s
  end.

Fixpoint get_positive (s : string) : option (positive * string) :=
  match s with
  | String c s' =>
      if Ascii.eqb c "." then Some (1%positive, s')
      else match get_positive s' with
           | Some (p, r) => Some (if Ascii.eqb c "1" then p~1 else p~0, r)%positive
           | None => None
           end
  | EmptyString => None
  end.

#[export] Instance wire_positive : Wire positive.
Proof.
  refine {| put := put_positive; get := get_positive |}.
  induction x as [p IH|p IH|]; intros s; simpl; [by rewrite IH..|done].
Defined.

#[export] Instance wire_unit : Wire unit.
Proof. by refine {| put _ s := s; get s := Some (tt, s) |}; intros [] s. Defined.

#[export] Instance wire_bool : Wire bool.
Proof.
  refine {| put b s := String (if b : bool then "t" else "f")%char s;
            get s := match s with String c r => Some (Ascii.eqb c "t", r) | EmptyString => None end |}.
  by intros [] s.
Defined.

#[export] Instance wire_option A `{Wire A} : Wire (option A).
Proof.
  refine {| put o s := match o with Some x => put true (put x s) | None => put false s end;
            get s := match get s with
                     | Some (true, r) => match get r with Some (x, r') => Some (Some x, r') | None => None end
                     | Some (false, r) => Some (None, r)
                     | None => None end |}.
  intros [x|] s; rewrite get_put; [by rewrite get_put|done].
Defined.

#[export] Instance wire_prod A B `{Wire A, Wire B} : Wire (A * B).
Proof.
  refine {| put p s := put p.1 (put p.2 s);
            get s := match get s with
                     | Some (x, r) => match get r with Some (y, r') => Some ((x, y), r') | None => None end
                     | None => None end |}.
  intros [x y] s. by rewrite !get_put.
Defined.

#[export] Instance wire_Z : Wire Z.
Proof.
  refine (wire_iso (fun z => match z with Z0 => None | Zpos p => Some (true, p) | Zneg p => Some (false, p) end)
                   (fun o => match o with None => Z0 | Some (true, p) => Zpos p | Some (false, p) => Zneg p end) _).
  by intros [].
Defined.

#[export] Instance wire_nat : Wire nat := wire_iso Z.of_nat Z.to_nat Nat2Z.id.

Fixpoint get_n {A} `{Wire A} (n : nat) (s : string) : option (list A * string) :=
  match n with
  | O => Some ([], s)
  | S n' => match get s with
            | Some (x, r) => match get_n n' r with Some (l, r') => Some (x :: l, r') | None => None end
            | None => None end
  end.

#[export] Instance wire_list A `{Wire A} : Wire (list A).
Proof.
  refine {| put l s := put (length l) (foldr put s l);
            get s := match get s with Some (n, r) => get_n n r | None => None end |}.
  intros l s. rewrite get_put. induction l as [|x l IH]; simpl; [done|].
  by rewrite get_put, IH.
Defined.

#[export] Instance wire_ascii : Wire ascii.
Proof.
  refine {| put c s := String c s;
            get s := match s with String c r => Some (c, r) | EmptyString => None end |}.
  done.
Defined.

#[export] Instance wire_string : Wire string :=
  wire_iso String.list_ascii_of_string String.string_of_list_ascii String.string_of_list_ascii_of_string.

#[export] Instance wire_gmap V `{Wire V} : Wire (gmap string V) :=
  wire_iso map_to_list list_to_map (fun m => list_to_map_to_list m).

End Wire.
