(* ===== verification/Floats.v ===== *)
(** * Double precision

    What the code uses of [f64], on the numbers of [SpecFloat]: conversions from and to
    integers, arithmetic that rounds to nearest, and comparison of values. *)
From Corelib Require Import SpecFloat.
From S2P Require Import Prelude.
Local Open Scope Z_scope.

Abbreviation f64 := spec_float.

(** [x as f64] of an unsigned integer, [*], [/] and [>=] on doubles. *)
Definition f64_of (n : Z) : f64 := binary_normalize 53 1024 n 0 false.
Definition f64_mul (x y : f64) : f64 := SFmul 53 1024 x y.
Definition f64_div (x y : f64) : f64 := SFdiv 53 1024 x y.
Definition f64_ge (x y : f64) : bool := SFleb y x.

(** [x as u64]: towards zero, saturating; 0 for what is not a number. *)
Definition truncated (m : positive) (e : Z) : Z := if 0 <=? e then Zpos m * 2 ^ e else Zpos m / 2 ^ (- e).
Definition f64_to_u64 (x : f64) : Z :=
  match x with
  | S754_zero _ | S754_nan | S754_infinity true | S754_finite true _ _ => 0
  | S754_infinity false => u64_max
  | S754_finite false m e => Z.min u64_max (truncated m e)
  end.

(** [x < y], by the values: finite numbers are compared after scaling to the smaller
    exponent. *)
Definition signed_at (e : Z) (x : f64) : Z :=
  match x with
  | S754_finite s m ex => (if s then -1 else 1) * (Zpos m * 2 ^ (ex - e))
  | _ => 0
  end.
Definition exponent (x : f64) : Z := match x with S754_finite _ _ e => e | _ => 0 end.
Definition f64_lt (x y : f64) : bool :=
  match x, y with
  | S754_nan, _ | _, S754_nan => false
  | S754_infinity false, _ => false
  | S754_infinity true, S754_infinity true => false
  | S754_infinity true, _ => true
  | _, S754_infinity true => false
  | _, S754_infinity false => true
  | _, _ => let e := Z.min 0 (Z.min (exponent x) (exponent y)) in signed_at e x <? signed_at e y
  end.

(** [f64::clamp], whose assertion holds for the bounds of the code. *)
Definition f64_clamp (x lo hi : f64) : f64 :=
  let x := if f64_lt x lo then lo else x in
  if f64_lt hi x then hi else x.

(** ** Integers up to 2^53 are exact *)

Lemma digits_double p d : Zpos (digits2_pos (Pos.iter xO p d)) = Zpos (digits2_pos p) + Zpos d.
Proof.
  induction d as [|d IH] using Pos.peano_ind; [cbn; lia|].
  rewrite Pos.iter_succ. cbn [digits2_pos]. rewrite !Pos2Z.inj_succ, IH. lia.
Qed.

Lemma iter_double p d : Zpos (Pos.iter xO p d) = Zpos p * 2 ^ Zpos d.
Proof.
  induction d as [|d IH] using Pos.peano_ind; [cbn; lia|].
  rewrite Pos.iter_succ, Pos2Z.inj_succ, Z.pow_succ_r by lia. change (Zpos (xO (Pos.iter xO p d))) with (2 * Zpos (Pos.iter xO p d)).
  rewrite IH. lia.
Qed.

Lemma digits_pow p : 2 ^ (Zpos (digits2_pos p) - 1) <= Zpos p.
Proof.
  induction p as [p IH|p IH|]; cbn [digits2_pos]; [..|cbn; lia];
    rewrite Pos2Z.inj_succ; replace (Z.succ (Zpos (digits2_pos p)) - 1) with (Z.succ (Zpos (digits2_pos p) - 1)) by lia;
    rewrite Z.pow_succ_r by lia; lia.
Qed.

(** A number with at most 53 binary digits needs no rounding. *)
Lemma round_aux_exact m e : fexp 53 1024 (Zpos (digits2_pos m) + e) = e -> e <= 971 ->
  binary_round_aux 53 1024 false (Zpos m) e loc_Exact = S754_finite false m e.
Proof.
  intros Hf He. unfold binary_round_aux, shr_fexp. cbn [shr_record_of_loc Zdigits2]. rewrite Hf, Z.sub_diag. cbn [shr].
  cbn [shr_m loc_of_shr_record round_nearest_even shr_record_of_loc Zdigits2]. rewrite Hf, Z.sub_diag. cbn.
  change (1024 - 53) with 971. by rewrite (proj2 (Z.leb_le e 971) He).
Qed.

Lemma f64_of_exact n : 0 < n < 2 ^ 53 -> exists m e, f64_of n = S754_finite false m e /\ e <= 0 /\ Zpos m = n * 2 ^ (- e).
Proof.
  intros [Hpos Hn]. destruct n as [|n|n]; try lia. pose proof (digits_pow n) as Hd.
  assert (Zpos (digits2_pos n) <= 53) as Hd53.
  { destruct (Z.le_gt_cases (Zpos (digits2_pos n)) 53) as [|Hgt]; [done|]. pose proof (Z.pow_le_mono_r 2 53 (Zpos (digits2_pos n) - 1)). lia. }
  unfold f64_of, binary_normalize, binary_round, shl_align.
  assert (forall d, 1 <= d <= 53 -> fexp 53 1024 d = d - 53) as Hfexp by (intros d ?; unfold fexp, emin; lia).
  rewrite Z.add_0_r, Hfexp, Z.sub_0_r by lia. destruct (Zpos (digits2_pos n) - 53) as [|d|d] eqn:Ed; [|lia|].
  - exists n, 0. split; [|cbn; lia]. apply round_aux_exact; [|lia]. rewrite Z.add_0_r, Hfexp; lia.
  - exists (Pos.iter xO n d), (Zneg d). split; [|split; [lia|apply iter_double]].
    apply round_aux_exact; [|lia]. rewrite digits_double. replace (Zpos (digits2_pos n) + Zpos d + Zneg d) with (Zpos (digits2_pos n)) by lia.
    rewrite Hfexp; lia.
Qed.

Lemma pow2_split a b : 0 <= a -> 0 <= b -> 2 ^ (a + b) = 2 ^ a * 2 ^ b.
Proof. intros. by apply Z.pow_add_r. Qed.

Lemma pow2_pos a : 0 <= a -> 0 < 2 ^ a.
Proof. apply Z.pow_pos_nonneg. lia. Qed.

Lemma truncated_le m e n k : 0 <= k -> 0 <= e + k -> Zpos m * 2 ^ (e + k) <= n * 2 ^ k -> truncated m e <= n.
Proof.
  intros Hk Hek H. unfold truncated. destruct (Z.leb_spec 0 e) as [He|He].
  - apply (Z.mul_le_mono_pos_r _ _ (2 ^ k)); [by apply pow2_pos|]. by rewrite <- Z.mul_assoc, <- pow2_split.
  - apply Z.div_le_upper_bound; [apply pow2_pos; lia|]. apply (Z.mul_le_mono_pos_r _ _ (2 ^ (e + k))); [by apply pow2_pos|].
    rewrite (Z.mul_comm _ n), <- Z.mul_assoc, <- pow2_split by lia. by replace (- e + (e + k)) with k by lia.
Qed.

(** A number up to an integer is truncated to at most that integer. *)
Lemma below_exact n : 0 <= n < 2 ^ 53 -> f64_to_u64 (f64_of n) <= n /\ f64_lt (f64_of n) (S754_infinity false) = true /\
  forall m e, f64_lt (f64_of n) (S754_finite false m e) = false -> truncated m e <= n.
Proof.
  intros Hn. destruct (decide (n = 0)) as [->|Hn0].
  { split; [done|]. split; [done|]. intros m e. cbn -[Z.pow Z.mul]. intros Hlt%Z.ltb_ge.
    pose proof (Z.pow_pos_nonneg 2 (e - Z.min 0 (Z.min 0 e))). nia. }
  destruct (f64_of_exact n ltac:(lia)) as (m&e&->&He&Hm). split; [|split; [done|]].
  - cbn [f64_to_u64]. etrans; [apply Z.le_min_r|]. apply (truncated_le m e n (- e)); [lia..|].
    rewrite Hm, Z.add_opp_diag_r. lia.
  - intros mx ex El. unfold f64_lt in El. cbn [exponent signed_at] in El. set (e0 := Z.min 0 (Z.min e ex)) in *. apply Z.ltb_ge in El.
    rewrite !Z.mul_1_l, Hm, <- Z.mul_assoc, <- pow2_split in El by lia. replace (- e + (e - e0)) with (- e0) in El by lia.
    apply (truncated_le mx ex n (- e0)); [lia..|done].
Qed.

Lemma f64_to_u64_range x : 0 <= f64_to_u64 x <= u64_max.
Proof.
  assert (0 <= u64_max) as Hu by (cbv; congruence). destruct x as [s|s| |s m e]; [..|destruct s]; try (cbn; lia).
  - destruct s; cbn; lia.
  - cbn [f64_to_u64]. split; [|apply Z.le_min_l]. apply Z.min_glb; [done|]. unfold truncated.
    case_match; [|apply Z.div_pos]; pose proof (Z.pow_nonneg 2 e); lia || (apply Z.pow_pos_nonneg; lia) || nia.
Qed.

(** Clamping to the interval from 0 to an integer gives at most that integer. *)
Lemma clamp_to_u64 x n : 0 <= n < 2 ^ 53 -> 0 <= f64_to_u64 (f64_clamp x (S754_zero false) (f64_of n)) <= n.
Proof.
  intros Hn. split; [apply f64_to_u64_range|]. destruct (below_exact n Hn) as (H1&H2&H3). unfold f64_clamp.
  set (x1 := if f64_lt x (S754_zero false) then _ else x). destruct (f64_lt (f64_of n) x1) eqn:El; [done|].
  clearbody x1. destruct x1 as [s|[]| |[] m e]; try (cbn; lia); [congruence|]. cbn [f64_to_u64]. etrans; [apply Z.le_min_r|]. by apply H3.
Qed.

(** ** A factor of at most one *)

Lemma shr_1_floor r : 0 <= shr_m r -> shr_m (shr_1 r) = shr_m r / 2.
Proof.
  destruct r as [[|p|p] rr rs]; cbn [shr_m]; intros H; [done| |lia]. unfold shr_1.
  destruct p as [p|p|]; cbn [shr_m]; [|by rewrite Pos2Z.inj_xO, Z.mul_comm, Z.div_mul|done].
  rewrite Pos2Z.inj_xI, Z.add_comm, (Z.mul_comm 2), Z.div_add by done. done.
Qed.

Lemma iter_pos_nat {A} (f : A -> A) p x : SpecFloat.iter_pos f p x = Nat.iter (Pos.to_nat p) f x.
Proof.
  revert x. induction p as [p IH|p IH|]; intros x; cbn [SpecFloat.iter_pos]; [..|done]; rewrite !IH, <- Nat.iter_add.
  - replace (Pos.to_nat p~1) with (Pos.to_nat p + Pos.to_nat p + 1)%nat by lia. by rewrite (Nat.iter_add _ 1).
  - f_equal. lia.
Qed.

(** Shifting right divides; it leaves no trace when nothing but zeros are shifted out. *)
Lemma shr_floor r e k : 0 <= shr_m r -> 0 < k ->
  shr_m (shr r e k).1 = shr_m r / 2 ^ k /\ (shr r e k).2 = e + k /\
  (forall c, r = Build_shr_record (c * 2 ^ k) false false -> 0 <= c -> (shr r e k).1 = Build_shr_record c false false).
Proof.
  intros Hr Hk. destruct k as [|k|k]; [lia| |lia]. unfold shr. cbn [fst snd]. rewrite iter_pos_nat, <- (positive_nat_Z k).
  generalize (Pos.to_nat k) as n. clear k Hk. intros n. split; [|split; [done|]].
  - induction n as [|n IH]; [by rewrite Z.div_1_r|]. rewrite Nat.iter_succ, shr_1_floor, IH.
    + rewrite Nat2Z.inj_succ, Z.pow_succ_r, Z.div_div, (Z.mul_comm 2) by (try apply Z.pow_nonzero; lia). done.
    + rewrite IH. apply Z.div_pos; [done|apply pow2_pos; lia].
  - intros c -> Hc. clear Hr. revert c Hc. induction n as [|n IH]; intros c Hc; [cbn; by rewrite Z.mul_1_r|].
    rewrite Nat.iter_succ, Nat2Z.inj_succ, Z.pow_succ_r, Z.mul_assoc, IH by lia.
    destruct c as [|c|c]; [done| |lia]. by rewrite (Z.mul_comm (Zpos c) 2).
Qed.

(** [m * 2 ^ e <= c]. *)
Definition at_most (m e c : Z) : Prop := exists k, 0 <= k /\ 0 <= e + k /\ m * 2 ^ (e + k) <= c * 2 ^ k.

Lemma at_most_exponent m e c : 0 < m -> 0 <= c < 2 ^ 53 -> at_most m e c -> Z.log2 m + e < 53.
Proof.
  intros Hm Hc (k&Hk&Hek&Hle). destruct (Z.lt_ge_cases (Z.log2 m + e) 53) as [|Hge]; [done|]. exfalso.
  pose proof (Z.log2_spec m Hm) as [Hlog _]. pose proof (Z.log2_nonneg m).
  assert (2 ^ (53 + k) <= c * 2 ^ k) as H1.
  { etrans; [|exact Hle]. etrans; [apply (Z.pow_le_mono_r 2 _ (Z.log2 m + (e + k))); lia|]. rewrite pow2_split by lia.
    apply Z.mul_le_mono_nonneg_r; [apply Z.pow_nonneg; lia|done]. }
  rewrite pow2_split in H1 by lia. pose proof (pow2_pos k Hk). nia.
Qed.

(** The last step of rounding: a mantissa and an exponent become a number. *)
Lemma packed_le m e c : 0 <= c < 2 ^ 53 -> at_most m e c ->
  f64_to_u64 (match m with
              | Z0 => S754_zero false
              | Zpos p => if e <=? 1024 - 53 then S754_finite false p e else S754_infinity false
              | Zneg _ => S754_nan
              end) <= c.
Proof.
  intros Hc Ha. destruct m as [|p|p]; [cbn; lia| |cbn; lia]. destruct (Z.leb_spec e (1024 - 53)).
  - cbn [f64_to_u64]. etrans; [apply Z.le_min_r|]. destruct Ha as (k&?&?&?). by apply (truncated_le p e c k).
  - apply at_most_exponent in Ha; [|lia|done]. pose proof (Z.log2_nonneg (Zpos p)). lia.
Qed.

Lemma zdigits_log2 p : 0 < p -> Zdigits2 p = Z.log2 p + 1.
Proof.
  destruct p as [|p|p]; [lia| |lia]. intros _. cbn [Zdigits2]. induction p as [p IH|p IH|]; cbn [digits2_pos]; [..|done];
    rewrite Pos2Z.inj_succ, IH; [rewrite Pos2Z.inj_xI, Z.log2_succ_double by lia|rewrite Pos2Z.inj_xO, Z.log2_double by lia]; lia.
Qed.

(** Both steps of [binary_round_aux] shift; the first may round up. *)
Lemma shr_fexp_cases m e : 0 <= m -> exists k, 0 <= k /\ (shr_fexp 53 1024 m e loc_Exact).2 = e + k /\
  shr_m (shr_fexp 53 1024 m e loc_Exact).1 = m / 2 ^ k /\
  (0 < k -> e + k = fexp 53 1024 (Zdigits2 m + e)) /\
  (forall c, m = c * 2 ^ k -> (shr_fexp 53 1024 m e loc_Exact).1 = Build_shr_record c false false).
Proof.
  intros Hm. unfold shr_fexp. cbn [shr_record_of_loc]. set (k := fexp 53 1024 (Zdigits2 m + e) - e).
  destruct (Z.le_gt_cases k 0) as [Hk|Hk].
  - exists 0. rewrite Z.add_0_r, Z.pow_0_r, Z.div_1_r. split; [lia|].
    assert (shr (Build_shr_record m false false) e k = (Build_shr_record m false false, e)) as -> by (destruct k; [done|lia|done]).
    split_and!; try done; try lia. intros c ->. by rewrite Z.mul_1_r.
  - exists k. destruct (shr_floor (Build_shr_record m false false) e k Hm Hk) as (H1&H2&H3). split_and!; try done; try lia.
    intros c E. apply H3; [by rewrite E|]. pose proof (pow2_pos k). nia.
Qed.

(** A number that is at most an integer of 53 bits is not rounded above it. *)
Lemma round_aux_le p e c : 0 < p -> 0 <= c < 2 ^ 53 -> at_most p e c ->
  f64_to_u64 (binary_round_aux 53 1024 false p e loc_Exact) <= c.
Proof.
  intros Hp Hc Ha. pose proof (at_most_exponent p e c Hp Hc Ha) as Hlog. unfold binary_round_aux.
  destruct (shr_fexp_cases p e ltac:(lia)) as (k&Hk&He1&Hm1&Hfe&Hex).
  destruct (shr_fexp 53 1024 p e loc_Exact) as [r1 e1]. cbn [fst snd] in *. subst e1.
  set (R := round_nearest_even (shr_m r1) (loc_of_shr_record r1)).
  assert (0 <= R /\ at_most R (e + k) c) as [HR HaR].
  { assert (0 <= p / 2 ^ k) by (apply Z.div_pos; [lia|by apply pow2_pos]).
    assert (shr_m r1 <= R <= shr_m r1 + 1) as HR.
    { unfold R, round_nearest_even. repeat case_match; lia. }
    split; [lia|]. destruct (decide (k = 0)) as [Ek|Hk0].
    { rewrite Ek, Z.add_0_r. unfold R. rewrite (Hex p) by (rewrite Ek; lia). done. }
    specialize (Hfe ltac:(lia)). rewrite zdigits_log2 in Hfe by done.
    assert (e + k <= 0) as He1 by (rewrite Hfe; unfold fexp, emin; lia).
    exists (- (e + k)). split_and!; [lia..|]. rewrite Z.add_opp_diag_r, Z.pow_0_r, Z.mul_1_r. set (C := c * 2 ^ (- (e + k))).
    assert (p <= C * 2 ^ k) as HpC.
    { destruct Ha as (k0&Hk00&Hek0&Hle). unfold C. rewrite <- Z.mul_assoc, <- pow2_split by lia. replace (- (e + k) + k) with (- e) by lia.
      apply (Z.mul_le_mono_pos_r _ _ (2 ^ (e + k0))); [by apply pow2_pos|]. rewrite <- Z.mul_assoc, <- pow2_split by lia.
      by replace (- e + (e + k0)) with k0 by lia. }
    destruct (decide (p = C * 2 ^ k)) as [E|E].
    - unfold R. rewrite (Hex C E). cbn. lia.
    - assert (p / 2 ^ k < C); [|lia]. apply Z.div_lt_upper_bound; [by apply pow2_pos|lia]. }
  destruct (shr_fexp_cases R (e + k) HR) as (k2&Hk2&He2&Hm2&_). destruct (shr_fexp 53 1024 R (e + k) loc_Exact) as [r2 e2].
  cbn [fst snd] in *. subst e2. apply packed_le; [done|]. destruct HaR as (K&HK&HeK&HleK). exists K. split_and!; [lia..|].
  replace (e + k + k2 + K) with (k2 + (e + k + K)) by lia. rewrite pow2_split, Z.mul_assoc by lia. etrans; [|exact HleK].
  apply Z.mul_le_mono_nonneg_r; [apply Z.pow_nonneg; lia|]. rewrite Hm2, Z.mul_comm. apply Z.mul_div_le. by apply pow2_pos.
Qed.

(** A number of milliseconds times a factor that is not above one. *)
Lemma mul_factor_le c x : 0 <= c < 2 ^ 53 -> f64_lt (f64_of 1) x = false -> 0 <= f64_to_u64 (f64_mul (f64_of c) x) <= c.
Proof.
  intros Hc Hx. split; [apply f64_to_u64_range|]. destruct (decide (c = 0)) as [->|Hc0]; [by destruct x as [|[]| |[]]|].
  destruct (f64_of_exact c ltac:(lia)) as (m&e&->&He&Hm). destruct x as [s|[]| |[] mx ex]; try done; try (cbn; lia).
  - cbn [f64_mul SFmul xorb]. unfold binary_round_aux. repeat case_match; cbn; lia.
  - unfold f64_mul. cbn [SFmul xorb]. apply round_aux_le; [lia|done|].
    change (f64_of 1) with (S754_finite false 4503599627370496 (-52)) in Hx. unfold f64_lt in Hx. cbn [exponent signed_at] in Hx.
    apply Z.ltb_ge in Hx. set (e0 := Z.min 0 (Z.min (-52) ex)) in *. rewrite !Z.mul_1_l in Hx.
    change 4503599627370496 with (2 ^ 52) in Hx. rewrite <- pow2_split in Hx by lia. replace (52 + (-52 - e0)) with (- e0) in Hx by lia.
    exists (- e - e0). split_and!; [lia..|]. rewrite Pos2Z.inj_mul, Hm. replace (e + ex + (- e - e0)) with (ex - e0) by lia.
    replace (- e - e0) with (- e + - e0) by lia. rewrite pow2_split by lia. pose proof (pow2_pos (- e)). nia.
Qed.
