(* ===== verification/TikvError.v ===== *)
(** * TiKV errors (crates/roboflow-distributed/src/tikv/error.rs)

    The error type every coordination operation returns, and the two
    classifications the retry loops and the circuit breaker use. *)
From stdpp Require Import pretty.
From S2P Require Import Prelude.

Module TikvError.

(** [enum TikvError]. *)
Inductive t : Type :=
| ConnectionFailed (msg : string)
| TransactionAborted (msg : string)
| KeyNotFound (msg : string)
| Serialization (msg : string)
| Deserialization (msg : string)
| CasFailed (expected got : Z)
| LockAcquisitionFailed (msg : string)
| InvalidConfig (msg : string)
| Timeout (msg : string)
| WriteConflict
| ClientError (msg : string)
| Retryable (attempt max : Z) (message : string)
| Other (msg : string)
| CircuitOpen (failures : Z).

(** [TikvError::is_retryable]. *)
Definition is_retryable (e : t) : bool :=
  match e with
  | WriteConflict => true
  | Retryable _ _ _ => true
  | Timeout _ => true
  | ConnectionFailed _ => true
  | TransactionAborted msg =>
      contains "WriteConflict" msg || contains "Write Conflict" msg
      || contains "key_version" msg
  | ClientError msg =>
      contains "WriteConflict" msg || contains "Write Conflict" msg
      || contains "key_version" msg
      || contains "PessimisticLock" msg || contains "PessimisticRetry" msg
  | LockAcquisitionFailed _ => true
  | _ => false
  end.

(** [TikvError::is_write_conflict]. *)
Definition is_write_conflict (e : t) : bool :=
  match e with
  | WriteConflict => true
  | ClientError msg | TransactionAborted msg =>
      contains "WriteConflict" msg || contains "key_version" msg
  | _ => false
  end.

(** [TikvError::retryable]. *)
Definition retryable (attempt max : Z) (message : string) : t := Retryable attempt max message.

(** [Display for TikvError]. *)
Definition to_string (e : t) : string :=
  match e with
  | ConnectionFailed m => "TiKV connection failed: " +:+ m
  | TransactionAborted m => "Transaction aborted: " +:+ m
  | KeyNotFound m => "Key not found: " +:+ m
  | Serialization m => "Serialization failed: " +:+ m
  | Deserialization m => "Deserialization failed: " +:+ m
  | CasFailed expected got =>
      "CAS operation failed: expected version " +:+ pretty expected +:+ ", got " +:+ pretty got
  | LockAcquisitionFailed m => "Failed to acquire lock: " +:+ m
  | InvalidConfig m => "Invalid configuration: " +:+ m
  | Timeout m => "Operation timed out: " +:+ m
  | WriteConflict => "Write conflict detected - operation should be retried"
  | ClientError m => "TiKV client error: " +:+ m
  | Retryable attempt max m =>
      "Retryable error (attempt " +:+ pretty attempt +:+ "/" +:+ pretty max +:+ "): " +:+ m
  | Other m => m
  | CircuitOpen failures => "Circuit breaker is open (failures: " +:+ pretty failures +:+ ") - rejecting call"
  end.

(** Every error the write loops retry is one the lock loops retry too. *)
Lemma write_conflict_retryable e : is_write_conflict e = true -> is_retryable e = true.
Proof.
  destruct e; simpl; try done.
  - intros [->| ->]%orb_true_iff; rewrite ?orb_true_r; done.
  - intros [->| ->]%orb_true_iff; rewrite ?orb_true_r; done.
Qed.

End TikvError.
