(* ===== verification/Circuit.v ===== *)
(** * Circuit breaker (crates/roboflow-distributed/src/tikv/circuit.rs)

    The breaker's atomics are the fields of [CircuitInner.t]; a method that
    reads the clock takes the reading [now] of [now_timestamp], in seconds.
    Atomic operations of one client are sequential here: interleavings of two
    tasks inside one breaker method are not modelled. *)
From S2P Require Import Prelude TikvError.

Module CircuitState.

(** [enum CircuitState]. *)
Inductive t : Type := Closed | Open | HalfOpen.

(** [new_state as u8]. *)
Definition as_u8 (s : t) : Z := match s with Closed => 0 | Open => 1 | HalfOpen => 2 end.

(** [CircuitState::from_u8]. *)
Definition from_u8 (v : Z) : option t :=
  match v with 0 => Some Closed | 1 => Some Open | 2 => Some HalfOpen | _ => None end.

#[global] Instance t_eq_dec : EqDecision t.
Proof. solve_decision. Defined.

Lemma from_as_u8 s : from_u8 (as_u8 s) = Some s.
Proof. by destruct s. Qed.

End CircuitState.

Module CircuitConfig.

(** [struct CircuitConfig]; durations are nanosecond counts. *)
Record t : Type := mk {
  failure_threshold : Z;
  success_threshold : Z;
  open_timeout : Z;
  half_open_max_calls : Z;
  half_open_timeout : Z
}.

#[global] Instance t_eta : Settable t := fun r =>
  mk (failure_threshold r) (success_threshold r) (open_timeout r)
     (half_open_max_calls r) (half_open_timeout r).

(** [CircuitConfig::default]. *)
Definition default : t := {|
  failure_threshold := 5;
  success_threshold := 3;
  open_timeout := secs 30;
  half_open_max_calls := 10;
  half_open_timeout := secs 5
|}.

Definition with_failure_threshold (threshold : Z) (c : t) : t :=
  c <| failure_threshold := threshold |>.

Definition with_open_timeout (timeout : Z) (c : t) : t :=
  c <| open_timeout := timeout |>.

Definition with_success_threshold (threshold : Z) (c : t) : t :=
  c <| success_threshold := threshold |>.

End CircuitConfig.

Module CircuitInner.

(** [struct CircuitInner]. *)
Record t : Type := mk {
  state : Z;
  failures : Z;
  successes : Z;
  half_open_calls : Z;
  last_state_change : Z;
  config : CircuitConfig.t
}.

#[global] Instance t_eta : Settable t := fun r =>
  mk (state r) (failures r) (successes r) (half_open_calls r)
     (last_state_change r) (config r).

(** [CircuitInner::new]. *)
Definition new (now : Z) (cfg : CircuitConfig.t) : t := {|
  state := CircuitState.as_u8 CircuitState.Closed;
  failures := 0;
  successes := 0;
  half_open_calls := 0;
  last_state_change := now;
  config := cfg
|}.

(** [CircuitInner::get_state]. *)
Definition get_state (b : t) : CircuitState.t :=
  default CircuitState.Closed (CircuitState.from_u8 (state b)).

(** [CircuitInner::set_state]. *)
Definition set_state (now : Z) (new_state : CircuitState.t) (b : t) : t :=
  let b := b <| state := CircuitState.as_u8 new_state |> <| last_state_change := now |> in
  match new_state with
  | CircuitState.Closed => b <| failures := 0 |> <| successes := 0 |> <| half_open_calls := 0 |>
  | CircuitState.Open => b <| successes := 0 |>
  | CircuitState.HalfOpen => b <| half_open_calls := 0 |>
  end.

#[global] Arguments set_state now new_state b : simpl never.

(** [CircuitInner::should_attempt_reset]. *)
Definition should_attempt_reset (now : Z) (b : t) : bool :=
  CircuitConfig.open_timeout (config b) <=? secs (saturating_sub now (last_state_change b)).

(** [CircuitInner::half_open_expired]. *)
Definition half_open_expired (now : Z) (b : t) : bool :=
  CircuitConfig.half_open_timeout (config b) <=? secs (saturating_sub now (last_state_change b)).

(** [CircuitInner::increment_failures]: the new count and the new state. *)
Definition increment_failures (b : t) : Z * t :=
  (u64_add (failures b) 1, b <| failures := u64_add (failures b) 1 |>).

Definition increment_successes (b : t) : Z * t :=
  (u64_add (successes b) 1, b <| successes := u64_add (successes b) 1 |>).

Definition increment_half_open_calls (b : t) : Z * t :=
  (u64_add (half_open_calls b) 1, b <| half_open_calls := u64_add (half_open_calls b) 1 |>).

End CircuitInner.

Module CircuitBreaker.
Import CircuitInner.

(** [CircuitBreaker::new]. *)
Definition new (now : Z) : t := CircuitInner.new now CircuitConfig.default.

(** [CircuitBreaker::is_call_permitted]. *)
Definition is_call_permitted (now : Z) (b : t) : bool * t :=
  match get_state b with
  | CircuitState.Closed => (true, b)
  | CircuitState.Open =>
      if should_attempt_reset now b then (true, set_state now CircuitState.HalfOpen b)
      else (false, b)
  | CircuitState.HalfOpen =>
      if half_open_expired now b then (false, set_state now CircuitState.Open b)
      else if CircuitConfig.half_open_max_calls (config b) <=? half_open_calls b
      then (false, set_state now CircuitState.Open b)
      else (true, b)
  end.

(** [CircuitBreaker::record_success]. *)
Definition record_success (now : Z) (b : t) : t :=
  match get_state b with
  | CircuitState.Closed => b <| failures := 0 |>
  | CircuitState.HalfOpen =>
      let '(n, b) := increment_successes b in
      if CircuitConfig.success_threshold (config b) <=? n
      then set_state now CircuitState.Closed b else b
  | CircuitState.Open => b
  end.

(** [CircuitBreaker::record_failure]. *)
Definition record_failure (now : Z) (b : t) : t :=
  let '(n, b) := increment_failures b in
  match get_state b with
  | CircuitState.Closed =>
      if CircuitConfig.failure_threshold (config b) <=? n
      then set_state now CircuitState.Open b else b
  | CircuitState.HalfOpen => set_state now CircuitState.Open b
  | CircuitState.Open => b
  end.

(** [CircuitBreaker::call]: [now] is the clock when the call starts, [now']
    when the operation [f] has returned. *)
Definition call {A} (now now' : Z) (f : unit -> result TikvError.t A) (b : t)
  : result TikvError.t A * t :=
  let '(permitted, b) := is_call_permitted now b in
  if negb permitted then (Err (TikvError.CircuitOpen (as_u32 (failures b))), b)
  else
    let b := if decide (get_state b = CircuitState.HalfOpen)
             then (increment_half_open_calls b).2 else b in
    match f tt with
    | Ok r => (Ok r, record_success now' b)
    | Err err =>
        (Err err,
         if TikvError.is_retryable err
            || match err with TikvError.ConnectionFailed _ => true | _ => false end
         then record_failure now' b else b)
    | Panic s => (Panic s, b)
    end.

(** [CircuitBreaker::reset]. *)
Definition reset (now : Z) (b : t) : t := set_state now CircuitState.Closed b.

(** [CircuitBreaker::trip]. *)
Definition trip (now : Z) (b : t) : t := set_state now CircuitState.Open b.

End CircuitBreaker.

(** ** Correctness *)
Section Breaker.
Import CircuitInner CircuitBreaker.

(** The thresholds of a usable configuration are positive [u32] values. *)
Definition config_ok (c : CircuitConfig.t) : Prop :=
  1 <= CircuitConfig.failure_threshold c < u32_mod /\
  1 <= CircuitConfig.success_threshold c < u32_mod.

(** The operations of the breaker, with their clock readings. *)
Inductive op : Type :=
| OPermit (now : Z)
| OSuccess (now : Z)
| OFailure (now : Z)
| OReset (now : Z)
| OTrip (now : Z).

Definition apply_op (b : t) (o : op) : t :=
  match o with
  | OPermit now => (is_call_permitted now b).2
  | OSuccess now => record_success now b
  | OFailure now => record_failure now b
  | OReset now => reset now b
  | OTrip now => trip now b
  end.

(** Well-formedness of the counters in each state. *)
Definition breaker_ok (b : t) : Prop :=
  match CircuitState.from_u8 (state b) with
  | Some CircuitState.Closed =>
      0 <= failures b < CircuitConfig.failure_threshold (config b) /\
      successes b = 0 /\ half_open_calls b = 0
  | Some CircuitState.Open => successes b = 0
  | Some CircuitState.HalfOpen => 0 <= successes b < CircuitConfig.success_threshold (config b)
  | None => False
  end.

Arguments breaker_ok b : simpl never.

Lemma get_state_Some b s : CircuitState.from_u8 (state b) = Some s -> get_state b = s.
Proof. unfold get_state. by intros ->. Qed.

Lemma set_state_get now s b : get_state (set_state now s b) = s.
Proof. by destruct s. Qed.

Lemma set_state_config now s b : config (set_state now s b) = config b.
Proof. by destruct s. Qed.

Lemma set_state_ok now s b :
  config_ok (config b) -> (s = CircuitState.HalfOpen -> successes b = 0) ->
  breaker_ok (set_state now s b).
Proof.
  intros [[] []] Hs. destruct s; unfold breaker_ok, set_state; cbn; [lia|done|].
  rewrite Hs by done. lia.
Qed.

Lemma record_failure_config now b : config (record_failure now b) = config b.
Proof.
  unfold record_failure. cbn.
  destruct (get_state _); [destruct (_ <=? _)|..]; rewrite ?set_state_config; done.
Qed.

Lemma record_success_config now b : config (record_success now b) = config b.
Proof.
  unfold record_success. cbn.
  destruct (get_state _); [..|destruct (_ <=? _)]; rewrite ?set_state_config; done.
Qed.

Lemma is_call_permitted_config now b : config (is_call_permitted now b).2 = config b.
Proof.
  unfold is_call_permitted.
  destruct (get_state b); [done|..];
    repeat match goal with |- context [if ?c then _ else _] => destruct c end;
    cbn; rewrite ?set_state_config; done.
Qed.

Lemma apply_op_config b o : config (apply_op b o) = config b.
Proof.
  destruct o; [apply is_call_permitted_config|apply record_success_config
    |apply record_failure_config|apply set_state_config|apply set_state_config].
Qed.

Lemma apply_op_ok b o : config_ok (config b) -> breaker_ok b -> breaker_ok (apply_op b o).
Proof.
  intros Hc Hb. pose proof Hc as [[Hf1 Hf2] [Hs1 Hs2]].
  assert (u32_mod < u64_mod) by reflexivity.
  unfold breaker_ok in Hb.
  destruct (CircuitState.from_u8 (state b)) as [s|] eqn:Es; [|done].
  pose proof (get_state_Some _ _ Es) as Hg.
  destruct o as [now|now|now|now|now]; cbn;
    try (apply set_state_ok; [done|]; intros E; discriminate E).
  - unfold is_call_permitted. rewrite Hg. destruct s.
    + cbn. unfold breaker_ok. by rewrite Es.
    + destruct (should_attempt_reset now b); cbn;
        [by apply set_state_ok|unfold breaker_ok; by rewrite Es].
    + destruct (half_open_expired now b); cbn; [by apply set_state_ok|].
      destruct (_ <=? _); cbn; [by apply set_state_ok|].
      unfold breaker_ok. by rewrite Es.
  - unfold record_success. rewrite Hg. destruct s; cbn.
    + unfold breaker_ok. cbn. rewrite Es. lia.
    + unfold breaker_ok. by rewrite Es.
    + rewrite u64_add_small by lia.
      destruct (Z.leb_spec (CircuitConfig.success_threshold (config b)) (successes b + 1)).
      * by apply set_state_ok.
      * unfold breaker_ok. cbn. rewrite Es. lia.
  - unfold record_failure. cbn.
    change (get_state (b <| failures := u64_add (failures b) 1 |>)) with (get_state b).
    rewrite Hg. destruct s.
    + rewrite u64_add_small by lia.
      destruct (Z.leb_spec (CircuitConfig.failure_threshold (config b)) (failures b + 1)).
      * by apply set_state_ok.
      * unfold breaker_ok. cbn. rewrite Es. lia.
    + unfold breaker_ok. cbn. by rewrite Es.
    + by apply set_state_ok.
Qed.

(** The breaker's counters stay consistent with its state under every
    sequence of operations: closed with fewer failures than the threshold and no
    half-open counts, open with no successes, half-open with fewer successes
    than the closing threshold, and the state byte always one of the three. *)
Theorem breaker_invariant cfg t0 (ops : list op) :
  config_ok cfg -> breaker_ok (foldl apply_op (CircuitInner.new t0 cfg) ops).
Proof.
  intros Hc.
  assert (breaker_ok (CircuitInner.new t0 cfg)) as H0.
  { destruct Hc as [[] []]. unfold breaker_ok. cbn. lia. }
  assert (config_ok (config (CircuitInner.new t0 cfg))) as H1 by done.
  revert H0 H1. generalize (CircuitInner.new t0 cfg).
  induction ops as [|o ops IH]; intros b Hb Hcb; [done|]. cbn. apply IH.
  - by apply apply_op_ok.
  - by rewrite apply_op_config.
Qed.

(** *** Opening *)

(** Outcomes of calls, with the time each is recorded; [true] is a success. *)
Definition record (b : t) (o : Z * bool) : t :=
  if o.2 then record_success o.1 b else record_failure o.1 b.

Lemma record_open b os :
  get_state b = CircuitState.Open -> get_state (foldl record b os) = CircuitState.Open.
Proof.
  revert b. induction os as [|[now o] os IH]; intros b Hb; [done|]. cbn. apply IH.
  unfold record. cbn. destruct o.
  - unfold record_success. by rewrite Hb.
  - unfold record_failure. cbn.
    change (get_state (b <| failures := u64_add (failures b) 1 |>)) with (get_state b).
    by rewrite Hb.
Qed.

Lemma run_after_success (n thr : nat) (a b l : list bool) :
  (n < thr)%nat -> replicate n false ++ true :: l = a ++ replicate thr false ++ b ->
  exists a', l = a' ++ replicate thr false ++ b.
Proof.
  intros Hn E.
  assert (Hlen : (n < length a)%nat).
  { destruct (le_lt_dec (length a) n) as [Hle|]; [exfalso|lia].
    assert ((replicate n false ++ true :: l) !! n = Some true) as H1.
    { rewrite lookup_app_r by (rewrite length_replicate; lia).
      by rewrite length_replicate, Nat.sub_diag. }
    rewrite E, lookup_app_r in H1 by lia.
    rewrite lookup_app_l in H1 by (rewrite length_replicate; lia).
    rewrite lookup_replicate_2 in H1 by lia. done. }
  exists (drop (S n) a). apply (f_equal (drop (S n))) in E.
  rewrite drop_app_ge in E by (rewrite length_replicate; lia).
  rewrite length_replicate in E. replace (S n - n)%nat with 1%nat in E by lia.
  cbn in E. rewrite drop_0 in E. rewrite E. rewrite drop_app_le by lia. done.
Qed.

Lemma replicate_S_snoc (n : nat) (l : list bool) :
  replicate n false ++ false :: l = replicate (S n) false ++ l.
Proof. induction n as [|n IH]; [done|]. cbn. by rewrite IH. Qed.

Lemma record_opens_iff (os : list (Z * bool)) b (n thr : nat) :
  get_state b = CircuitState.Closed ->
  CircuitConfig.failure_threshold (config b) = Z.of_nat thr ->
  Z.of_nat thr < u32_mod -> failures b = Z.of_nat n -> (n < thr)%nat ->
  get_state (foldl record b os) = CircuitState.Open <->
  exists a c, replicate n false ++ os.*2 = a ++ replicate thr false ++ c.
Proof.
  revert b n. induction os as [|[now o] os IH]; intros b n Hst Hthr Hmax Hf Hn; cbn.
  - rewrite app_nil_r, Hst. split; [done|]. intros (a & c & E).
    apply (f_equal length) in E. rewrite !length_app, !length_replicate in E. lia.
  - assert (u32_mod < u64_mod) by reflexivity.
    destruct o.
    + unfold record at 1. cbn. unfold record_success. rewrite Hst.
      rewrite (IH (b <| failures := 0 |>) 0%nat) by (done || lia). cbn. split.
      * intros (a & c & ->). exists (replicate n false ++ true :: a), c.
        by rewrite <- app_assoc.
      * intros (a & c & E). destruct (run_after_success _ _ _ _ _ Hn E) as [a' ->].
        by exists a', c.
    + unfold record at 1. cbn. unfold record_failure. cbn.
      change (get_state (b <| failures := u64_add (failures b) 1 |>)) with (get_state b).
      rewrite Hst, Hthr, Hf, u64_add_small by lia. rewrite replicate_S_snoc.
      destruct (Z.leb_spec (Z.of_nat thr) (Z.of_nat n + 1)).
      * replace (S n) with thr by lia. split; intros _; [by exists [], os.*2|].
        apply record_open. by rewrite set_state_get.
      * apply IH; cbn; try done; lia.
Qed.

(** *** Recovery *)

(** Successive successful [call]s at the given times. *)
Definition succeed_at (b : t) (now : Z) : t := (call now now (fun _ => Ok tt) b).2.

Lemma half_open_successes (ts : list Z) b (k thr : nat) :
  get_state b = CircuitState.HalfOpen ->
  successes b = Z.of_nat k -> half_open_calls b = Z.of_nat k ->
  CircuitConfig.success_threshold (config b) = Z.of_nat thr ->
  Z.of_nat thr < u32_mod ->
  Z.of_nat thr <= CircuitConfig.half_open_max_calls (config b) ->
  Forall (fun now => half_open_expired now b = false) ts ->
  (k < thr)%nat -> (k + length ts)%nat = thr ->
  get_state (foldl succeed_at b ts) = CircuitState.Closed /\
  failures (foldl succeed_at b ts) = 0.
Proof.
  revert b k. induction ts as [|now ts IH]; intros b k Hst Hk Hc Hthr Hm Hmax Hts Hlt Hlen;
    [cbn in Hlen; lia|].
  inversion_clear Hts as [|? ? Hnow Hrest].
  assert (u32_mod < u64_mod) by reflexivity.
  assert (Hcall : succeed_at b now =
    record_success now (b <| half_open_calls := Z.of_nat (S k) |>)).
  { unfold succeed_at, call, is_call_permitted. rewrite Hst, Hnow, Hc.
    destruct (Z.leb_spec (CircuitConfig.half_open_max_calls (config b)) (Z.of_nat k)); [lia|].
    cbn. rewrite decide_True by done. cbn.
    rewrite Hc, u64_add_small by lia.
    by replace (Z.of_nat (S k)) with (Z.of_nat k + 1) by lia. }
  cbn [foldl]. rewrite Hcall. clear Hcall.
  unfold record_success.
  change (get_state (b <| half_open_calls := Z.of_nat (S k) |>)) with (get_state b).
  rewrite Hst. cbn [length] in Hlen. cbn. rewrite Hk, Hthr, u64_add_small by lia.
  destruct (Z.leb_spec (Z.of_nat thr) (Z.of_nat k + 1)).
  - destruct ts; [|cbn in Hlen; lia]. done.
  - apply (IH _ (S k)); cbn; try done; try lia.
Qed.

(** Fail fast.  While the breaker is open and [open_timeout] has not
    elapsed since it opened, [call] rejects with [CircuitOpen] carrying the
    failure count, does not run the operation (the result is the same for every
    operation [f]) and leaves the breaker unchanged. *)
Theorem open_breaker_fails_fast {A} now now' (f : unit -> result TikvError.t A) b :
  get_state b = CircuitState.Open ->
  secs (saturating_sub now (last_state_change b)) < CircuitConfig.open_timeout (config b) ->
  call now now' f b = (Err (TikvError.CircuitOpen (as_u32 (failures b))), b).
Proof.
  intros Hst Ht. unfold call, is_call_permitted, should_attempt_reset. rewrite Hst.
  destruct (Z.leb_spec (CircuitConfig.open_timeout (config b))
              (secs (saturating_sub now (last_state_change b)))); [lia|done].
Qed.

(** C34: the breaker opens exactly when it should.  From a fresh breaker, any
    sequence of recorded outcomes leaves it open if and only if the sequence
    contains [failure_threshold] consecutive failures. *)
Theorem breaker_opens_iff_consecutive_failures cfg t0 (os : list (Z * bool)) (thr : nat) :
  config_ok cfg -> CircuitConfig.failure_threshold cfg = Z.of_nat thr ->
  get_state (foldl record (CircuitInner.new t0 cfg) os) = CircuitState.Open <->
  exists a c, os.*2 = a ++ replicate thr false ++ c.
Proof.
  intros [[H1 H2] _] Hthr. rewrite (record_opens_iff os _ 0%nat thr); [done|..];
    cbn; try done; lia.
Qed.

(** Recovery.  Once [open_timeout] has elapsed, [success_threshold]
    successful calls made before [half_open_timeout] runs out close the breaker
    and reset its failure count, provided the half-open quota admits them. *)
Theorem breaker_recovers b t1 (ts : list Z) (thr : nat) :
  config_ok (config b) -> breaker_ok b -> get_state b = CircuitState.Open ->
  should_attempt_reset t1 b = true ->
  CircuitConfig.success_threshold (config b) = Z.of_nat thr ->
  Z.of_nat thr <= CircuitConfig.half_open_max_calls (config b) ->
  length ts = thr ->
  Forall (fun now => secs (saturating_sub now t1) < CircuitConfig.half_open_timeout (config b)) ts ->
  let b1 := (is_call_permitted t1 b).2 in
  (is_call_permitted t1 b).1 = true /\
  get_state (foldl succeed_at b1 ts) = CircuitState.Closed /\
  failures (foldl succeed_at b1 ts) = 0.
Proof.
  intros [_ [Hs1 Hs2]] Hok Hst Hreset Hthr Hmax Hlen Hts b1. subst b1.
  assert (successes b = 0) as Hsucc.
  { unfold breaker_ok in Hok. unfold get_state in Hst.
    destruct (CircuitState.from_u8 (state b)) as [[]|]; done. }
  unfold is_call_permitted. rewrite Hst, Hreset. split; [done|].
  apply (half_open_successes ts _ 0%nat thr); unfold set_state; cbn; try done; try lia.
  eapply Forall_impl; [exact Hts|]. intros now Hnow. unfold half_open_expired. cbn in *.
  apply Z.leb_gt. exact Hnow.
Qed.

Lemma config_ok_default : config_ok CircuitConfig.default.
Proof. unfold config_ok, u32_mod. cbn. lia. Qed.

(** Witness: the default configuration, three failures and a reset. *)
Lemma breaker_invariant_witness :
  breaker_ok (foldl apply_op (CircuitInner.new 0 CircuitConfig.default)
                [OFailure 1; OPermit 2; OFailure 3; OTrip 4; OPermit 40; OSuccess 41]).
Proof. apply breaker_invariant. apply config_ok_default. Defined.

Lemma open_breaker_fails_fast_witness :
  let b := trip 100 (CircuitBreaker.new 0) in
  call 110 111 (fun _ => Ok tt) b = (Err (TikvError.CircuitOpen 0), b).
Proof. apply open_breaker_fails_fast; reflexivity. Defined.

Lemma breaker_opens_witness :
  let os := [(1, false); (2, true); (3, false); (4, false); (5, false); (6, false); (7, false)] in
  get_state (foldl record (CircuitInner.new 0 CircuitConfig.default) os) = CircuitState.Open.
Proof.
  intros os.
  refine (proj2 (breaker_opens_iff_consecutive_failures CircuitConfig.default 0 os 5
    config_ok_default eq_refl) _).
  exists [false; true], []. reflexivity.
Defined.

Lemma breaker_recovers_witness :
  let b := trip 100 (CircuitBreaker.new 0) in
  let b1 := (is_call_permitted 130 b).2 in
  get_state (foldl succeed_at b1 [130; 131; 132]) = CircuitState.Closed.
Proof.
  intros b b1.
  refine (proj1 (proj2 (breaker_recovers b 130 [130; 131; 132] 3
    config_ok_default eq_refl eq_refl eq_refl eq_refl _ eq_refl _))).
  - vm_compute. discriminate.
  - do 3 (apply List.Forall_cons; [vm_compute; reflexivity|]). apply List.Forall_nil.
Defined.

End Breaker.
