(* ===== verification/Lifecycle.v ===== *)
(** * State lifecycles (crates/roboflow-distributed/src/state/mod.rs)

    The trait [StateLifecycle] as a class, its provided method [transition_to],
    and its instances [BatchPhase] (batch/status.rs) and [WorkUnitStatus]
    (batch/work_unit.rs). *)
From S2P Require Import Prelude.

(** [enum StateTransitionError]. *)
Inductive StateTransitionError : Type :=
| TerminalState (current : string)
| InvalidTransition (from to : string).

(** [trait StateLifecycle]; [debug] is the [{:?}] text the trait requires. *)
Class StateLifecycle (A : Type) := {
  sl_is_terminal : A -> bool;
  sl_is_claimable : A -> bool;
  sl_can_transition_to : A -> A -> bool;
  sl_debug : A -> string
}.

(** [StateLifecycle::transition_to]: the new state, or the error. *)
Definition sl_transition_to `{StateLifecycle A} (self target : A) : result StateTransitionError A :=
  if sl_is_terminal self then Err (TerminalState (sl_debug self))
  else if negb (sl_can_transition_to self target)
  then Err (InvalidTransition (sl_debug self) (sl_debug target))
  else Ok target.

(** What the trait's documentation promises of an implementation: a terminal
    state has no transition to another state, a self-transition is idempotent,
    and a terminal state is never claimable. *)
Class LifecycleLaws (A : Type) `{StateLifecycle A} := {
  terminal_absorbing : forall a b, sl_is_terminal a = true -> sl_can_transition_to a b = true -> a = b;
  self_transition : forall a, sl_can_transition_to a a = true;
  terminal_not_claimable : forall a, sl_is_terminal a = true -> sl_is_claimable a = false
}.

Module BatchPhase.

(** [enum BatchPhase]. *)
Inductive t : Type :=
| Pending | Discovering | Running | Merging | Complete | Failed | Cancelled
| Suspending | Suspended.

#[global] Instance t_eq_dec : EqDecision t.
Proof. solve_decision. Defined.

(** [BatchPhase::is_terminal]. *)
Definition is_terminal (p : t) : bool :=
  match p with Complete | Failed | Cancelled => true | _ => false end.

(** [BatchPhase::is_active]. *)
Definition is_active (p : t) : bool :=
  match p with Discovering | Running | Merging => true | _ => false end.

(** [Display for BatchPhase]; the derived [Debug] gives the same text. *)
Definition display (p : t) : string :=
  match p with
  | Pending => "Pending" | Discovering => "Discovering" | Running => "Running"
  | Merging => "Merging" | Complete => "Complete" | Failed => "Failed"
  | Cancelled => "Cancelled" | Suspending => "Suspending" | Suspended => "Suspended"
  end.

(** [StateLifecycle::is_claimable for BatchPhase]. *)
Definition is_claimable (p : t) : bool := false.

(** [StateLifecycle::can_transition_to for BatchPhase]. *)
Definition can_transition_to (self target : t) : bool :=
  if decide (self = target) then true
  else match self with
       | Pending => match target with Discovering | Failed | Cancelled => true | _ => false end
       | Discovering => match target with Running | Failed | Cancelled => true | _ => false end
       | Running => match target with Merging | Failed | Suspending | Cancelled => true | _ => false end
       | Merging => match target with Complete | Failed => true | _ => false end
       | Suspending => match target with Suspended | Failed | Cancelled => true | _ => false end
       | Suspended => match target with Running | Failed | Cancelled => true | _ => false end
       | Complete | Failed | Cancelled => false
       end.

#[global] Instance lifecycle : StateLifecycle t := {
  sl_is_terminal := is_terminal;
  sl_is_claimable := is_claimable;
  sl_can_transition_to := can_transition_to;
  sl_debug := display
}.

#[global] Instance lifecycle_laws : LifecycleLaws t.
Proof. split; [by intros [] []|by intros []|by intros []]. Qed.

Lemma display_inj a b : display a = display b -> a = b.
Proof. by destruct a, b. Qed.

Lemma display_slash_free p : slash_free (display p) = true.
Proof. by destruct p. Qed.

End BatchPhase.

Module WorkUnitStatus.

(** [enum WorkUnitStatus]. *)
Inductive t : Type := Pending | Processing | Complete | Failed | Dead | Cancelled.

#[global] Instance t_eq_dec : EqDecision t.
Proof. solve_decision. Defined.

(** [WorkUnitStatus::is_terminal]. *)
Definition is_terminal (s : t) : bool :=
  match s with Complete | Dead | Cancelled => true | _ => false end.

(** [WorkUnitStatus::is_claimable]. *)
Definition is_claimable (s : t) : bool :=
  match s with Pending | Failed => true | _ => false end.

(** [Display for WorkUnitStatus]. *)
Definition display (s : t) : string :=
  match s with
  | Pending => "Pending" | Processing => "Processing" | Complete => "Complete"
  | Failed => "Failed" | Dead => "Dead" | Cancelled => "Cancelled"
  end.

(** [StateLifecycle::can_transition_to for WorkUnitStatus]. *)
Definition can_transition_to (self target : t) : bool :=
  if decide (self = target) then true
  else match self with
       | Pending => match target with Processing | Failed | Cancelled => true | _ => false end
       | Processing => match target with Complete | Failed | Dead | Cancelled => true | _ => false end
       | Failed => match target with Processing | Cancelled => true | _ => false end
       | Complete | Dead | Cancelled => false
       end.

#[global] Instance lifecycle : StateLifecycle t := {
  sl_is_terminal := is_terminal;
  sl_is_claimable := is_claimable;
  sl_can_transition_to := can_transition_to;
  sl_debug := display
}.

#[global] Instance lifecycle_laws : LifecycleLaws t.
Proof. split; [by intros [] []|by intros []|by intros []]. Qed.

End WorkUnitStatus.

(** ** Histories *)
Section Histories.
Context {A : Type} {HL : StateLifecycle A}.

(** [history init past a]: state [a] is reached from [init] by accepted calls of
    [transition_to]; [past] lists the states visited before [a], latest first. *)
Inductive history (init : A) : list A -> A -> Prop :=
| history_init : history init [] init
| history_step past a b :
    history init past a -> sl_transition_to a b = Ok b -> history init (a :: past) b.

Lemma transition_Ok_iff a b c :
  sl_transition_to a b = Ok c <->
  sl_is_terminal a = false /\ sl_can_transition_to a b = true /\ c = b.
Proof.
  unfold sl_transition_to. destruct (sl_is_terminal a); [naive_solver|].
  destruct (sl_can_transition_to a b); naive_solver.
Qed.

(** A lifecycle's past holds no terminal state: the first terminal state of a
    history is its last. *)
Lemma history_past_not_terminal x past a y :
  history x past a -> y ∈ past -> sl_is_terminal y = false.
Proof.
  intros Hh. induction Hh as [|past a' b' Hh IH Ht]; [by intros ?%elem_of_nil|].
  apply transition_Ok_iff in Ht as (Ht & _ & _). intros [->|Hy]%elem_of_cons; auto.
Qed.

End Histories.

(** What a batch in phase [p] has been through, as a decidable check. *)
Definition phase_requires (p : BatchPhase.t) : list BatchPhase.t :=
  match p with
  | BatchPhase.Discovering => [BatchPhase.Pending]
  | BatchPhase.Running | BatchPhase.Suspending | BatchPhase.Suspended =>
      [BatchPhase.Pending; BatchPhase.Discovering]
  | BatchPhase.Merging => [BatchPhase.Pending; BatchPhase.Discovering; BatchPhase.Running]
  | BatchPhase.Complete =>
      [BatchPhase.Pending; BatchPhase.Discovering; BatchPhase.Running; BatchPhase.Merging]
  | _ => []
  end.

Lemma phase_requires_step a b q :
  sl_transition_to a b = Ok b -> q ∈ phase_requires b -> a = b \/ q = a \/ q ∈ phase_requires a.
Proof. destruct a, b; try discriminate; intros _; simpl; set_solver. Qed.

(** A batch is never complete without having been merged.  In every history
    of accepted transitions from [Pending], a batch in phase [Complete] has been
    in [Pending], [Discovering], [Running] and [Merging] before (and every other
    phase likewise has its predecessors behind it), and no earlier phase was
    terminal. *)
Theorem batch_phase_history past p :
  history BatchPhase.Pending past p ->
  (forall q, q ∈ phase_requires p -> q ∈ past) /\
  (forall q, q ∈ past -> BatchPhase.is_terminal q = false).
Proof.
  intros Hh. split; [|intros q; apply (history_past_not_terminal _ _ _ _ Hh)].
  induction Hh as [|past a b Hh IH Ht]; [by intros q ?%elem_of_nil|]. intros q Hq.
  rewrite elem_of_cons.
  destruct (phase_requires_step a b q Ht Hq) as [->|[->|]]; auto.
Qed.

Lemma batch_phase_history_witness :
  BatchPhase.Merging ∈ [BatchPhase.Merging; BatchPhase.Running; BatchPhase.Discovering; BatchPhase.Pending].
Proof.
  assert (history BatchPhase.Pending
    [BatchPhase.Merging; BatchPhase.Running; BatchPhase.Discovering; BatchPhase.Pending]
    BatchPhase.Complete) as Hh by (repeat constructor).
  apply (proj1 (batch_phase_history _ _ Hh)). simpl. rewrite !elem_of_cons. auto.
Defined.
