(* ===== verification/Keys.v ===== *)
(** * TiKV keys (crates/roboflow-distributed/src/tikv/key.rs, batch/key.rs)

    Every record of the control plane lives under a key built by [KeyBuilder]:
    the prefix [/roboflow/v1] and parts joined by ['/'].  The theorems say when
    two keys differ, and which keys a prefix scan visits. *)
From S2P Require Import Prelude Lifecycle.

(** [KEY_PREFIX] (tikv/config.rs). *)
Definition KEY_PREFIX : string := "/roboflow/v1/".

Module KeyBuilder.

(** [struct KeyBuilder]. *)
Record t : Type := mk { parts : list string }.

Definition new : t := mk [].

(** [KeyBuilder::push]. *)
Definition push (part : string) (k : t) : t := mk (parts k ++ [part]).

(** [KeyBuilder::build_with_prefix]. *)
Definition build_with_prefix (prefix : string) (k : t) : string :=
  foldl (fun key part => key +:+ String slash "" +:+ part) prefix (parts k).

(** [KeyBuilder::build]. *)
Definition build (k : t) : string :=
  build_with_prefix (trim_end_char slash KEY_PREFIX) k.

(** [str::ends_with(c)]. *)
Definition ends_with_char (c : ascii) (s : string) : bool :=
  negb (bool_decide (trim_end_char c s = s)).

(** [KeyBuilder::as_str]. *)
Definition as_str (k : t) : string :=
  (foldl (fun '(i, key) part =>
     let key := if (0 <? i)%nat || negb (ends_with_char slash key)
                then key +:+ String slash "" else key in
     (S i, key +:+ part)) (0%nat, trim_end_char slash KEY_PREFIX) (parts k)).2.

End KeyBuilder.

(** [KeyBuilder::new().push(p1)...push(pn).build()]. *)
Definition key_of (ps : list string) : string := KeyBuilder.build (foldl (fun k p => KeyBuilder.push p k) KeyBuilder.new ps).

Module JobKeys.
Definition record (file_hash : string) : string := key_of ["jobs"; file_hash]%string.
Definition prefix : string := KEY_PREFIX +:+ "jobs/".
End JobKeys.

Module LockKeys.
Definition lock (resource : string) : string := key_of ["locks"; resource]%string.
Definition prefix : string := KEY_PREFIX +:+ "locks/".
End LockKeys.

Module StateKeys.
Definition checkpoint (file_hash : string) : string := key_of ["state"; file_hash]%string.
Definition prefix : string := KEY_PREFIX +:+ "state/".
End StateKeys.

Module HeartbeatKeys.
Definition heartbeat (pod_id : string) : string := key_of ["heartbeat"; pod_id]%string.
Definition prefix : string := KEY_PREFIX +:+ "heartbeat/".
End HeartbeatKeys.

Module ConfigKeys.
Definition config (config_hash : string) : string := key_of ["configs"; config_hash]%string.
Definition prefix : string := KEY_PREFIX +:+ "configs/".
End ConfigKeys.

Module SystemKeys.
Definition scanner_lock : string := key_of ["system"; "scanner_lock"]%string.
End SystemKeys.

Module BatchKeys.
Definition spec (batch_id : string) : string := key_of ["batch"; "specs"; batch_id]%string.
Definition status (batch_id : string) : string := key_of ["batch"; "statuses"; batch_id]%string.
Definition specs_prefix : string := key_of ["batch"; "specs"]%string.
Definition statuses_prefix : string := key_of ["batch"; "statuses"]%string.
End BatchKeys.

Module WorkUnitKeys.
Definition unit (batch_id unit_id : string) : string :=
  key_of ["batch"; "workunits"; batch_id; unit_id]%string.
Definition batch_prefix (batch_id : string) : string := key_of ["batch"; "workunits"; batch_id]%string.
Definition prefix : string := key_of ["batch"; "workunits"]%string.
Definition pending (batch_id unit_id : string) : string :=
  key_of ["batch"; "pending"; batch_id; unit_id]%string.
Definition pending_prefix : string := key_of ["batch"; "pending"]%string.
Definition pending_batch_prefix (batch_id : string) : string :=
  key_of ["batch"; "pending"; batch_id]%string.
End WorkUnitKeys.

Module BatchIndexKeys.
Definition phase (p : BatchPhase.t) (batch_id : string) : string :=
  key_of ["batch"; "index"; "phase"; BatchPhase.display p; batch_id]%string.
Definition phase_prefix (p : BatchPhase.t) : string :=
  key_of ["batch"; "index"; "phase"; BatchPhase.display p]%string.
(** [i32::to_string] of the priority is the argument [priority_text]. *)
Definition priority (priority_text batch_id : string) : string :=
  key_of ["batch"; "index"; "priority"; priority_text; batch_id]%string.
Definition priority_prefix (priority_text : string) : string :=
  key_of ["batch"; "index"; "priority"; priority_text]%string.
Definition submitter (submitter batch_id : string) : string :=
  key_of ["batch"; "index"; "submitter"; submitter; batch_id]%string.
Definition submitter_prefix (submitter : string) : string :=
  key_of ["batch"; "index"; "submitter"; submitter]%string.
Definition namespace (namespace batch_id : string) : string :=
  key_of ["batch"; "index"; "namespace"; namespace; batch_id]%string.
Definition namespace_prefix (namespace : string) : string :=
  key_of ["batch"; "index"; "namespace"; namespace]%string.
End BatchIndexKeys.

(** ** The shape of a built key *)

(** ["/p1/p2.../pn"]. *)
Fixpoint joined (ps : list string) : string :=
  match ps with [] => "" | p :: ps' => String slash (p +:+ joined ps') end.

Definition root : string := "/roboflow/v1".

Lemma build_with_prefix_joined prefix ps :
  KeyBuilder.build_with_prefix prefix (KeyBuilder.mk ps) = prefix +:+ joined ps.
Proof.
  unfold KeyBuilder.build_with_prefix. cbn. revert prefix.
  induction ps as [|p ps IH]; intros prefix; cbn; [by rewrite string_app_nil_r|].
  rewrite IH, !string_app_assoc. done.
Qed.

Lemma key_of_joined ps : key_of ps = root +:+ joined ps.
Proof.
  unfold key_of, KeyBuilder.build.
  assert (forall k, KeyBuilder.parts (foldl (fun k p => KeyBuilder.push p k) k ps) = KeyBuilder.parts k ++ ps) as H.
  { induction ps as [|p ps IH]; intros k; cbn; [by rewrite app_nil_r|].
    rewrite IH. cbn. by rewrite <- app_assoc. }
  destruct (foldl _ _ _) as [qs] eqn:E. specialize (H KeyBuilder.new). rewrite E in H. cbn in H.
  subst qs. rewrite build_with_prefix_joined. reflexivity.
Qed.

Lemma joined_inj ps qs :
  Forall (fun p => slash_free p = true) ps -> Forall (fun q => slash_free q = true) qs ->
  joined ps = joined qs -> ps = qs.
Proof.
  intros Hp. revert qs. induction Hp as [|p ps Hp Hps IH]; intros qs Hq;
    destruct Hq as [|q qs Hq Hqs]; cbn; try done.
  intros [= E].
  destruct ps as [|p' ps], qs as [|q' qs]; cbn in E.
  - rewrite !string_app_nil_r in E. by subst.
  - rewrite string_app_nil_r in E. by apply free_of_no_sep in E.
  - rewrite string_app_nil_r in E. symmetry in E. by apply free_of_no_sep in E.
  - apply free_of_cancel in E as [-> E]; [|done..]. f_equal. apply IH; [done|].
    cbn. by rewrite E.
Qed.

Lemma key_of_inj ps qs :
  Forall (fun p => slash_free p = true) ps -> Forall (fun q => slash_free q = true) qs ->
  key_of ps = key_of qs -> ps = qs.
Proof.
  rewrite !key_of_joined. intros Hp Hq E. apply string_app_inv_l in E. by apply joined_inj.
Qed.

Lemma joined_app ps qs : joined (ps ++ qs) = joined ps +:+ joined qs.
Proof. induction ps as [|p ps IH]; cbn; [done|]. by rewrite IH, !string_app_cons, string_app_assoc. Qed.

Lemma key_of_app ps qs : key_of (ps ++ qs) = key_of ps +:+ joined qs.
Proof. by rewrite !key_of_joined, joined_app, string_app_assoc. Qed.

(** Keys under different constant parts differ, whatever the ids are. *)
Ltac key_neq :=
  let E := fresh "E" in
  intros E; unfold BatchKeys.spec, BatchKeys.status, WorkUnitKeys.unit, WorkUnitKeys.pending,
    BatchIndexKeys.phase, LockKeys.lock, HeartbeatKeys.heartbeat in E;
  rewrite !key_of_joined in E; cbv in E; discriminate E.

Create HintDb keys.
#[export] Hint Extern 1 (_ <> _) => key_neq : keys.

Lemma status_ne_unit b c u : BatchKeys.status b <> WorkUnitKeys.unit c u.
Proof. key_neq. Qed.

Lemma status_ne_spec b c : BatchKeys.status b <> BatchKeys.spec c.
Proof. key_neq. Qed.

Lemma status_ne_phase b p c : BatchKeys.status b <> BatchIndexKeys.phase p c.
Proof. key_neq. Qed.

Lemma spec_ne_phase b p c : BatchKeys.spec b <> BatchIndexKeys.phase p c.
Proof. key_neq. Qed.

Lemma pending_ne_unit b u c v : WorkUnitKeys.pending b u <> WorkUnitKeys.unit c v.
Proof. key_neq. Qed.

Lemma phase_ne_unit p b c v : BatchIndexKeys.phase p b <> WorkUnitKeys.unit c v.
Proof. key_neq. Qed.

Lemma status_inj b c : BatchKeys.status b = BatchKeys.status c -> b = c.
Proof.
  unfold BatchKeys.status. rewrite !key_of_joined. intros E%string_app_inv_l. cbn in E.
  injection E as E. by rewrite !string_app_nil_r in E.
Qed.

Lemma phase_inj p q b c :
  BatchIndexKeys.phase p b = BatchIndexKeys.phase q c -> p = q /\ b = c.
Proof.
  unfold BatchIndexKeys.phase. rewrite !key_of_joined. intros E%string_app_inv_l. cbn in E.
  injection E as E. apply free_of_cancel in E as [Ep Ec]; [|apply BatchPhase.display_slash_free..].
  rewrite !string_app_nil_r in Ec. split; [by apply BatchPhase.display_inj|done].
Qed.

Lemma unit_inj b u c v :
  slash_free b = true -> slash_free c = true ->
  WorkUnitKeys.unit b u = WorkUnitKeys.unit c v -> b = c /\ u = v.
Proof.
  intros Hb Hc. unfold WorkUnitKeys.unit. rewrite !key_of_joined. intros E%string_app_inv_l.
  cbn in E. injection E as E. apply free_of_cancel in E as [-> E]; [|done..].
  by rewrite !string_app_nil_r in E.
Qed.

Lemma pending_inj b u c v :
  slash_free b = true -> slash_free c = true ->
  WorkUnitKeys.pending b u = WorkUnitKeys.pending c v -> b = c /\ u = v.
Proof.
  intros Hb Hc. unfold WorkUnitKeys.pending. rewrite !key_of_joined. intros E%string_app_inv_l.
  cbn in E. injection E as E. apply free_of_cancel in E as [-> E]; [|done..].
  by rewrite !string_app_nil_r in E.
Qed.

(** ** Prefix scans *)

(** The upper bound [TikvClient::scan] puts on a prefix: the byte 0xFF appended. *)
Definition scan_end (prefix : string) : string := prefix +:+ String byte_ff "".

Lemma scan_visits_iff p k :
  free_of byte_ff k = true -> in_range p (scan_end p) k = true <-> starts_with k p = true.
Proof.
  intros Hk. unfold scan_end. rewrite in_prefix_range_iff, starts_with_iff. split.
  - intros (s & -> & _). by exists s.
  - intros [s ->]. exists s. split; [done|]. apply ltb_byte_ff.
    rewrite free_of_app in Hk. by apply andb_true_iff in Hk as [_ ?].
Qed.

Lemma starts_with_app_l p a b : starts_with (p +:+ a) (p +:+ b) = starts_with a b.
Proof.
  induction p as [|c p IH]; [done|]. rewrite !string_app_cons.
  unfold starts_with in *. cbn. by rewrite ascii_eqb_refl.
Qed.

Lemma starts_with_sep a b x :
  slash_free b = true -> starts_with (a +:+ String slash x) b = true <-> starts_with a b = true.
Proof.
  revert a. induction b as [|c b IH]; intros a Hb; [by destruct a|].
  cbn in Hb. apply andb_true_iff in Hb as [Hc Hb]. apply negb_true_iff, Ascii.eqb_neq in Hc.
  destruct a as [|d a]; rewrite ?string_app_cons; unfold starts_with in *; cbn.
  - rewrite string_app_nil_l. cbn. destruct (Ascii.eqb_spec c slash); [done|]. reflexivity.
  - destruct (Ascii.eqb c d); [|reflexivity]. by apply IH.
Qed.

(** What [reconcile_running]'s scan of a batch reads.  The scan of
    [WorkUnitKeys::batch_prefix(b)] visits the key of a unit of batch [c] exactly
    when [b] is a string prefix of [c]: its own units always, and those of every
    batch whose id extends [b], because the prefix lacks the trailing ['/'] its
    documentation shows. *)
Theorem batch_prefix_scan_visits b c u :
  slash_free b = true -> free_of byte_ff (WorkUnitKeys.unit c u) = true ->
  in_range (WorkUnitKeys.batch_prefix b) (scan_end (WorkUnitKeys.batch_prefix b))
           (WorkUnitKeys.unit c u) = true
  <-> starts_with c b = true.
Proof.
  intros Hb Hff. rewrite scan_visits_iff by done.
  unfold WorkUnitKeys.batch_prefix, WorkUnitKeys.unit.
  change ["batch"; "workunits"; b]%string with (["batch"; "workunits"]%string ++ [b]).
  change ["batch"; "workunits"; c; u]%string with (["batch"; "workunits"]%string ++ [c; u]).
  rewrite !key_of_app, starts_with_app_l. cbn [joined].
  rewrite string_app_nil_r. unfold starts_with at 1. cbn -[String.append].
  rewrite string_app_nil_r. apply (starts_with_sep c b u Hb).
Qed.

Lemma as_str_tail ps i key :
  (0 < i)%nat ->
  (foldl (fun '(i, key) part =>
     let key := if (0 <? i)%nat || negb (KeyBuilder.ends_with_char slash key)
                then key +:+ String slash "" else key in
     (S i, key +:+ part)) (i, key) ps).2 = key +:+ joined ps.
Proof.
  revert i key. induction ps as [|p ps IH]; intros i key Hi; cbn -[String.append Nat.ltb];
    [by rewrite string_app_nil_r|].
  destruct (Nat.ltb_spec 0 i) as [_|]; [|lia]. cbn [orb]. rewrite IH by lia.
  by rewrite !string_app_assoc.
Qed.

(** Keys are faithful to their parts.  Two keys built from parts without
    ['/'] are equal only when the parts are equal, so records of different
    namespaces or ids never share a key; and the display form [as_str] is the
    key itself. *)
Theorem key_builder_injective (ps qs : list string) :
  Forall (fun p => slash_free p = true) ps -> Forall (fun q => slash_free q = true) qs ->
  KeyBuilder.build (KeyBuilder.mk ps) = KeyBuilder.build (KeyBuilder.mk qs) ->
  ps = qs /\ KeyBuilder.as_str (KeyBuilder.mk ps) = KeyBuilder.build (KeyBuilder.mk ps).
Proof.
  intros Hp Hq E. split.
  - unfold KeyBuilder.build in E. rewrite !build_with_prefix_joined in E.
    apply string_app_inv_l in E. by apply joined_inj.
  - unfold KeyBuilder.build. rewrite build_with_prefix_joined.
    unfold KeyBuilder.as_str. destruct ps as [|p ps]; [reflexivity|].
    cbn -[String.append trim_end_char KeyBuilder.ends_with_char KEY_PREFIX].
    change (KeyBuilder.ends_with_char slash (trim_end_char slash KEY_PREFIX)) with false.
    cbn [negb]. rewrite as_str_tail by lia. by rewrite !string_app_assoc.
Qed.

Lemma batch_prefix_scan_visits_witness :
  in_range (WorkUnitKeys.batch_prefix "jobs:run")
           (scan_end (WorkUnitKeys.batch_prefix "jobs:run"))
           (WorkUnitKeys.unit "jobs:run-2" "u1") = true.
Proof. apply (batch_prefix_scan_visits "jobs:run" "jobs:run-2" "u1"); reflexivity. Defined.

Lemma key_builder_injective_witness :
  KeyBuilder.as_str (KeyBuilder.mk ["batch"; "specs"; "jobs:a"]%string) = BatchKeys.spec "jobs:a".
Proof.
  refine (proj2 (key_builder_injective ["batch"; "specs"; "jobs:a"]%string
    ["batch"; "specs"; "jobs:a"]%string _ _ eq_refl)); repeat constructor.
Defined.
