(* ===== verification/Env.v ===== *)
(** * The outside world: the TiKV transaction client and the clock

    [tikv_client::TransactionClient] and the wall clock are parameters of the
    model.  [TransactionClient S] gives the operations the code calls, over an
    abstract state [S]; every remote call returns either the text of its error
    or a value.  [TransactionClientLaws] states the documented behaviour the
    code relies on (the comment at the top of tikv/client.rs): a snapshot at a
    fresh timestamp reads the committed state, a transaction reads its own
    writes over the committed state, writes stay in the transaction until
    [commit] applies them all, a failed commit applied all or none of them, and
    nothing else writes while one operation runs (a pessimistic transaction
    holds the rows it read).  Concurrency between clients is the interleaving
    of whole operations on one [S].  [Sim] is a concrete instance with a
    programmable list of failures. *)
From S2P Require Import Prelude.

(** A buffered write: a value, or a deletion. *)
Definition write : Type := string * option string.

Definition apply_write (m : gmap string string) (w : write) : gmap string string :=
  match w.2 with Some v => <[w.1 := v]> m | None => delete w.1 m end.

Definition apply_writes (ws : list write) (m : gmap string string) : gmap string string :=
  foldl apply_write m ws.

(** Key order of scan results. *)
Definition key_le (a b : string * string) : Prop := String.leb a.1 b.1 = true.

#[global] Instance key_le_dec a b : Decision (key_le a b).
Proof. unfold key_le. apply _. Defined.

(** The first [limit] entries of [m] with [lo <= key < hi], in key order. *)
Definition kv_scan (lo hi : string) (limit : Z) (m : gmap string string) : list (string * string) :=
  take (Z.to_nat limit)
    (merge_sort key_le (filter (fun e => in_range lo hi e.1 = true) (map_to_list m))).

Class TransactionClient (S : Type) := {
  Txn : Type;
  (** ghost: the committed data, a lower bound of every later clock reading,
      and the buffered writes of a transaction *)
  committed : S -> gmap string string;
  clock : S -> Z;
  buffered : Txn -> list write;
  (** [Utc::now()] in nanoseconds, and [tokio::time::sleep] *)
  utc_now : S -> Z * S;
  sleep : Z -> S -> S;
  current_timestamp : S -> (string + unit) * S;
  snapshot_get : string -> S -> (string + option string) * S;
  snapshot_scan : string -> string -> Z -> S -> (string + list (string * string)) * S;
  begin_optimistic : S -> (string + Txn) * S;
  begin_pessimistic : S -> (string + Txn) * S;
  txn_get : Txn -> string -> S -> (string + option string) * S;
  txn_put : Txn -> string -> string -> S -> (string + Txn) * S;
  txn_delete : Txn -> string -> S -> (string + Txn) * S;
  txn_commit : Txn -> S -> (string + unit) * S;
  txn_rollback : Txn -> S -> (string + unit) * S
}.

Section Laws.
Context {S : Type} `{TransactionClient S}.

(** A call that writes nothing; the clock does not go back. *)
Definition quiet (s s' : S) : Prop := committed s' = committed s /\ clock s <= clock s'.

(** A call that writes nothing and, when it succeeds, returns [v]. *)
Definition reads {A} (op : S -> (string + A) * S) (v : A) (s : S) : Prop :=
  forall r s', op s = (r, s') -> quiet s s' /\ forall a, r = inr a -> a = v.

(** A call that writes nothing and, when it succeeds, returns a transaction
    with the buffer [ws]. *)
Definition buffers (op : S -> (string + Txn) * S) (ws : list write) (s : S) : Prop :=
  forall r s', op s = (r, s') -> quiet s s' /\ forall t, r = inr t -> buffered t = ws.

#[global] Instance quiet_preorder : PreOrder quiet.
Proof.
  split; [intros s; split; [done|lia]|].
  intros x y z [E1 C1] [E2 C2]. split; [congruence|lia].
Qed.

End Laws.

Class TransactionClientLaws (S : Type) `{TransactionClient S} := {
  law_now : forall s t s', utc_now s = (t, s') -> quiet s s' /\ clock s <= t <= clock s';
  law_sleep : forall d s, quiet s (sleep d s);
  law_timestamp : forall s, reads current_timestamp tt s;
  law_snapshot_get : forall k s, reads (snapshot_get k) (committed s !! k) s;
  law_snapshot_scan : forall lo hi n s,
    reads (snapshot_scan lo hi n) (kv_scan lo hi n (committed s)) s;
  law_begin_optimistic : forall s, buffers begin_optimistic [] s;
  law_begin_pessimistic : forall s, buffers begin_pessimistic [] s;
  law_txn_get : forall t k s, reads (txn_get t k) (apply_writes (buffered t) (committed s) !! k) s;
  law_txn_put : forall t k v s, buffers (txn_put t k v) (buffered t ++ [(k, Some v)]) s;
  law_txn_delete : forall t k s, buffers (txn_delete t k) (buffered t ++ [(k, None)]) s;
  law_txn_commit : forall t s r s', txn_commit t s = (r, s') ->
    clock s <= clock s' /\
    (committed s' = apply_writes (buffered t) (committed s) \/
     (committed s' = committed s /\ exists e, r = inl e));
  law_txn_rollback : forall t s r s', txn_rollback t s = (r, s') -> quiet s s'
}.

(** Executions in which the cluster answers every call. *)
Class HealthyRuns (S : Type) `{TransactionClient S} := {
  healthy : S -> Prop;
  healthy_now : forall s, healthy s -> healthy (utc_now s).2;
  healthy_sleep : forall d s, healthy s -> healthy (sleep d s);
  healthy_timestamp : forall s, healthy s ->
    (exists a, (current_timestamp s).1 = inr a) /\ healthy (current_timestamp s).2;
  healthy_snapshot_get : forall k s, healthy s ->
    (exists a, (snapshot_get k s).1 = inr a) /\ healthy (snapshot_get k s).2;
  healthy_snapshot_scan : forall lo hi n s, healthy s ->
    (exists a, (snapshot_scan lo hi n s).1 = inr a) /\ healthy (snapshot_scan lo hi n s).2;
  healthy_begin_optimistic : forall s, healthy s ->
    (exists a, (begin_optimistic s).1 = inr a) /\ healthy (begin_optimistic s).2;
  healthy_begin_pessimistic : forall s, healthy s ->
    (exists a, (begin_pessimistic s).1 = inr a) /\ healthy (begin_pessimistic s).2;
  healthy_txn_get : forall t k s, healthy s ->
    (exists a, (txn_get t k s).1 = inr a) /\ healthy (txn_get t k s).2;
  healthy_txn_put : forall t k v s, healthy s ->
    (exists a, (txn_put t k v s).1 = inr a) /\ healthy (txn_put t k v s).2;
  healthy_txn_delete : forall t k s, healthy s ->
    (exists a, (txn_delete t k s).1 = inr a) /\ healthy (txn_delete t k s).2;
  healthy_txn_commit : forall t s, healthy s ->
    (exists a, (txn_commit t s).1 = inr a) /\ healthy (txn_commit t s).2;
  healthy_txn_rollback : forall t s, healthy s -> healthy (txn_rollback t s).2
}.

(** ** Scans *)

#[global] Instance key_le_total : Total key_le.
Proof. intros a b. apply string_leb_total. Qed.

#[global] Instance key_le_trans : Transitive key_le.
Proof. intros a b c. apply string_leb_trans. Qed.

Lemma elem_of_kv_scan lo hi n m k v :
  (k, v) ∈ kv_scan lo hi n m -> m !! k = Some v /\ in_range lo hi k = true.
Proof.
  unfold kv_scan. intros H.
  assert ((k, v) ∈ merge_sort key_le (filter (fun e => in_range lo hi e.1 = true) (map_to_list m))) as H'.
  { apply list_elem_of_lookup in H as [i Hi]. apply lookup_take_Some in Hi as [Hi _].
    apply list_elem_of_lookup. by exists i. }
  rewrite (merge_sort_Permutation key_le) in H'.
  apply list_elem_of_filter in H' as [Hr H']. by apply elem_of_map_to_list in H'.
Qed.

(** With room for every matching entry, a scan returns exactly those. *)
Lemma elem_of_kv_scan_all lo hi n m k v :
  (length (filter (fun e => in_range lo hi e.1 = true) (map_to_list m)) <= Z.to_nat n)%nat ->
  (k, v) ∈ kv_scan lo hi n m <-> m !! k = Some v /\ in_range lo hi k = true.
Proof.
  intros Hn. split; [apply elem_of_kv_scan|]. intros [Hk Hr].
  unfold kv_scan. rewrite take_ge by (by rewrite merge_sort_Permutation).
  rewrite merge_sort_Permutation. apply list_elem_of_filter. split; [done|].
  by apply elem_of_map_to_list.
Qed.

Lemma kv_scan_sorted lo hi n m : StronglySorted key_le (kv_scan lo hi n m).
Proof.
  unfold kv_scan. pose proof (StronglySorted_merge_sort key_le
    (filter (fun e => in_range lo hi e.1 = true) (map_to_list m))) as Hs.
  revert Hs. generalize (merge_sort key_le (filter (fun e => in_range lo hi e.1 = true) (map_to_list m))).
  induction (Z.to_nat n) as [|k IH]; intros l Hs; [constructor|].
  destruct l as [|x l]; [constructor|]. inversion_clear Hs as [|? ? Hs' Hx].
  cbn. constructor; [by apply IH|]. by apply Forall_take.
Qed.

(** ** Writes *)

Lemma apply_writes_app ws ws' m : apply_writes (ws ++ ws') m = apply_writes ws' (apply_writes ws m).
Proof. apply foldl_app. Qed.

(** The value a list of writes gives to a key: that of its last write. *)
Lemma lookup_apply_writes ws m k :
  apply_writes ws m !! k =
  match list.last (filter (fun e => e.1 = k) ws) with Some (_, o) => o | None => m !! k end.
Proof.
  induction ws as [|[j o] ws IH] using rev_ind; [done|].
  rewrite apply_writes_app, filter_app, filter_cons, filter_nil. cbn [apply_writes foldl fst].
  unfold apply_write. cbn [fst snd]. case_decide as Hj; [subst j|].
  - rewrite last_snoc. destruct o; [apply lookup_insert_eq|apply lookup_delete_eq].
  - rewrite app_nil_r. etrans; [|exact IH].
    destruct o; [by apply lookup_insert_ne|by apply lookup_delete_ne].
Qed.

Lemma apply_writes_idem ws m : apply_writes ws (apply_writes ws m) = apply_writes ws m.
Proof.
  apply map_eq. intros k. rewrite !lookup_apply_writes.
  by destruct (list.last _) as [[j o]|].
Qed.

(** ** A concrete cluster *)
Module Sim.

(** One entry of [faults] is consumed per remote call: [None] answers it,
    [Some (e, false)] fails it with the text [e], [Some (e, true)] fails it after
    a commit took effect.  When the list is empty every call is answered.  Each
    clock reading takes one nanosecond. *)
Record t : Type := mk {
  store : gmap string string;
  time : Z;
  faults : list (option (string * bool))
}.

#[global] Instance t_eta : Settable t := fun r => mk (store r) (time r) (faults r).

Definition quiet_world (m : gmap string string) (now : Z) : t := mk m now [].

(** Runs a call with the value [v] that writes nothing. *)
Definition answer {A} (v : A) (s : t) : (string + A) * t :=
  match faults s with
  | [] => (inr v, s)
  | None :: fs => (inr v, s <| faults := fs |>)
  | Some (e, _) :: fs => (inl e, s <| faults := fs |>)
  end.

Definition commit (ws : list write) (s : t) : (string + unit) * t :=
  match faults s with
  | [] => (inr tt, s <| store := apply_writes ws (store s) |>)
  | None :: fs => (inr tt, s <| store := apply_writes ws (store s) |> <| faults := fs |>)
  | Some (e, false) :: fs => (inl e, s <| faults := fs |>)
  | Some (e, true) :: fs =>
      (inl e, s <| store := apply_writes ws (store s) |> <| faults := fs |>)
  end.

#[export] Instance client : TransactionClient t := {
  Txn := list write;
  committed := store;
  clock := time;
  buffered ws := ws;
  utc_now s := (time s, s <| time := time s + 1 |>);
  sleep d s := s <| time := time s + Z.max 0 d |>;
  current_timestamp s := answer tt s;
  snapshot_get k s := answer (store s !! k) s;
  snapshot_scan lo hi n s := answer (kv_scan lo hi n (store s)) s;
  begin_optimistic s := answer [] s;
  begin_pessimistic s := answer [] s;
  txn_get ws k s := answer (apply_writes ws (store s) !! k) s;
  txn_put ws k v s := answer (ws ++ [(k, Some v)]) s;
  txn_delete ws k s := answer (ws ++ [(k, None)]) s;
  txn_commit ws s := commit ws s;
  txn_rollback ws s := answer tt s
}.

Lemma answer_reads {A} (v : A) s r s' :
  answer v s = (r, s') -> quiet s s' /\ forall a, r = inr a -> a = v.
Proof.
  unfold answer, quiet. cbn. destruct (faults s) as [|[[e b]|] fs];
    intros [= <- <-]; (split; [split; cbn; [done|lia]|]); intros a [=]; done.
Qed.

#[export] Instance client_laws : TransactionClientLaws t.
Proof.
  split.
  - intros s x s' [= <- <-]. unfold quiet. cbn. repeat split; lia.
  - intros d s. unfold quiet. cbn. repeat split; lia.
  - intros s r s'. apply answer_reads.
  - intros k s r s'. apply answer_reads.
  - intros lo hi n s r s'. apply answer_reads.
  - intros s r s'. apply answer_reads.
  - intros s r s'. apply answer_reads.
  - intros ws k s r s'. apply answer_reads.
  - intros ws k v s r s'. apply answer_reads.
  - intros ws k s r s'. apply answer_reads.
  - intros ws s r s'. cbn. unfold commit. destruct (faults s) as [|[[e []]|] fs];
      intros [= <- <-]; cbn; split; eauto; lia.
  - intros ws s r s' H. by apply answer_reads in H as [H _].
Qed.

#[export] Instance client_healthy : HealthyRuns t.
Proof.
  refine {| healthy s := faults s = [] |}.
  1,2: done.
  9: { intros ws s E. cbn. unfold commit. rewrite E. cbn. by eauto. }
  9: { intros ws s E. cbn. unfold answer. by rewrite E. }
  all: intros *; cbn; unfold answer; intros E; rewrite E; by eauto.
Defined.

End Sim.
