(* ===== verification/Effects.v ===== *)
(** * Effects of the control plane

    An operation of a client runs in a [World]: the environment (cluster and
    clock) and the client's circuit breaker.  [M S E A] is the state and error
    monad the operations are written in; [?] in the source is its bind. *)
From S2P Require Import Prelude TikvError Circuit Env.

Record World (S : Type) : Type := mkWorld { env : S; breaker : CircuitInner.t }.
Arguments mkWorld {S} env breaker.
Arguments env {S} w.
Arguments breaker {S} w.

#[global] Instance World_eta S : Settable (World S) := fun w => mkWorld (env w) (breaker w).

Definition M (S E A : Type) : Type := World S -> result E A * World S.

#[global] Instance M_ret S E : MRet (M S E) := fun A a w => (Ok a, w).
#[global] Instance M_bind S E : MBind (M S E) := fun A B f m w =>
  match m w with
  | (Ok a, w') => f a w'
  | (Err e, w') => (Err e, w')
  | (Panic s, w') => (Panic s, w')
  end.

Section Effects.
Context {S : Type} `{TransactionClient S}.

Definition throw {E A} (e : E) : M S E A := fun w => (Err e, w).
Definition panic {E A} (msg : string) : M S E A := fun w => (Panic msg, w).

(** The result of [m] as a value, for a [match] on it. *)
Definition try_ {E E' A} (m : M S E A) : M S E' (result E A) := fun w =>
  match m w with
  | (Panic s, w') => (Panic s, w')
  | (r, w') => (Ok r, w')
  end.

(** [let _ = m.await]: errors are dropped. *)
Definition ignore {E E' A} (m : M S E A) : M S E' unit := r ← try_ m; mret tt.

(** [.map_err(f)?] on a monadic value, and [?] on a plain [Result]. *)
Definition map_err_m {E E' A} (f : E -> E') (m : M S E A) : M S E' A := fun w =>
  let '(r, w') := m w in (map_err f r, w').
Definition lift {E A} (r : result E A) : M S E A := fun w => (r, w).
Definition of_sum {E A} (f : string -> E) (r : string + A) : M S E A :=
  match r with inl e => throw (f e) | inr a => mret a end.

(** [Utc::now()]. *)
Definition now {E} : M S E Z := fun w =>
  let '(t, s) := utc_now (env w) in (Ok t, w <| env := s |>).

(** [tokio::time::sleep]. *)
Definition sleep_for {E} (d : Z) : M S E unit := fun w => (Ok tt, w <| env := sleep d (env w) |>).

(** [now_timestamp()] of tikv/circuit.rs: whole seconds since the epoch. *)
Definition now_timestamp {E} : M S E Z := t ← now; mret (if t <? 0 then 0 else as_secs t).

(** A remote call whose error becomes [TikvError::ClientError]. *)
Definition rpc {A} (op : S -> (string + A) * S) : M S TikvError.t A := fun w =>
  let '(r, s) := op (env w) in
  (match r with inl e => Err (TikvError.ClientError e) | inr a => Ok a end, w <| env := s |>).

(** Methods of the client's circuit breaker. *)
Definition with_breaker {E A} (f : CircuitInner.t -> A * CircuitInner.t) : M S E A := fun w =>
  let '(a, b) := f (breaker w) in (Ok a, w <| breaker := b |>).

Definition cb_is_call_permitted {E} : M S E bool :=
  t ← now_timestamp; with_breaker (CircuitBreaker.is_call_permitted t).
Definition cb_record_success {E} : M S E unit :=
  t ← now_timestamp; with_breaker (fun b => (tt, CircuitBreaker.record_success t b)).
Definition cb_record_failure {E} : M S E unit :=
  t ← now_timestamp; with_breaker (fun b => (tt, CircuitBreaker.record_failure t b)).
Definition cb_failure_count {E} : M S E Z :=
  with_breaker (fun b => (CircuitInner.failures b, b)).

(** A remote call whose error is also recorded as a breaker failure. *)
Definition rpc_cb {A} (op : S -> (string + A) * S) : M S TikvError.t A :=
  r ← try_ (rpc op);
  match r with
  | Ok a => mret a
  | Err e => cb_record_failure;; throw e
  | Panic s => panic s
  end.

End Effects.

(** ** Reasoning about operations

    [wp m Q w]: run in [w], the operation [m] ends in a result and a world that
    satisfy [Q].  [calm] relates worlds between which nothing was written;
    [ready] worlds are those of a healthy cluster and a closed breaker, in which
    no call fails for an outside reason.  One specification covers both kinds of
    run: its error cases carry [~ ready w]. *)
Section Wp.
Context {S : Type} `{TransactionClientLaws S} `{!HealthyRuns S}.

Definition wp {E A} (m : M S E A) (Q : result E A -> World S -> Prop) (w : World S) : Prop :=
  Q (m w).1 (m w).2.

Definition ready (w : World S) : Prop :=
  healthy (env w) /\ CircuitInner.get_state (breaker w) = CircuitState.Closed.

Definition kv (w : World S) : gmap string string := committed (env w).

(** Time passes and readiness is kept. *)
Definition later (w w' : World S) : Prop :=
  clock (env w) <= clock (env w') /\ (ready w -> ready w').

(** ... and nothing was written. *)
Definition calm (w w' : World S) : Prop := kv w' = kv w /\ later w w'.

#[global] Instance later_preorder : PreOrder later.
Proof.
  split; [intros w; by split|]. intros x y z [C1 R1] [C2 R2]. split; [lia|auto].
Qed.

#[global] Instance calm_preorder : PreOrder calm.
Proof.
  split; [intros w; by split|]. intros x y z [E1 L1] [E2 L2].
  split; [congruence|by etrans].
Qed.

Lemma calm_later w w' : calm w w' -> later w w'.
Proof. by intros []. Qed.

Lemma later_ready w w' : later w w' -> ready w -> ready w'.
Proof. intros [_ H2]. exact H2. Qed.

Lemma later_not_ready w w' : later w w' -> ~ ready w' -> ~ ready w.
Proof. intros [_ H2] Hn ?. auto. Qed.

Lemma wp_mono {E A} (m : M S E A) (P Q : result E A -> World S -> Prop) w :
  wp m P w -> (forall r w', P r w' -> Q r w') -> wp m Q w.
Proof. unfold wp. auto. Qed.

Lemma wp_elim {E A} (m : M S E A) Q w r w' : wp m Q w -> m w = (r, w') -> Q r w'.
Proof. unfold wp. intros HQ Em. by rewrite Em in HQ. Qed.

Lemma wp_ret {E A} (a : A) (Q : result E A -> _) w : Q (Ok a) w -> wp (mret a) Q w.
Proof. done. Qed.

Lemma wp_throw {E A} (e : E) (Q : result E A -> _) w : Q (Err e) w -> wp (throw e) Q w.
Proof. done. Qed.

Lemma wp_lift {E A} (r : result E A) Q w : Q r w -> wp (lift r) Q w.
Proof. done. Qed.

Lemma wp_panic {E A} s (Q : result E A -> _) w : Q (Panic s) w -> wp (panic s) Q w.
Proof. done. Qed.

Lemma wp_bind {E A B} (m : M S E A) (f : A -> M S E B) Q w :
  wp m (fun r w' => match r with
                    | Ok a => wp (f a) Q w'
                    | Err e => Q (Err e) w'
                    | Panic s => Q (Panic s) w' end) w ->
  wp (m ≫= f) Q w.
Proof. unfold wp, mbind, M_bind. by destruct (m w) as [[|e|s] w']. Qed.

Lemma wp_try {E E' A} (m : M S E A) (Q : result E' (result E A) -> _) w :
  wp m (fun r w' => match r with Panic s => Q (Panic s) w' | _ => Q (Ok r) w' end) w ->
  wp (try_ m) Q w.
Proof. unfold wp, try_. by destruct (m w) as [[|e|s] w']. Qed.

Lemma wp_map_err {E E' A} (f : E -> E') (m : M S E A) Q w :
  wp m (fun r w' => Q (map_err f r) w') w -> wp (map_err_m f m) Q w.
Proof. unfold wp, map_err_m. by destruct (m w) as [[|e|s] w']. Qed.

Lemma wp_ignore {E E' A} (m : M S E A) (Q : result E' unit -> _) w :
  wp m (fun r w' => match r with Panic s => Q (Panic s) w' | _ => Q (Ok tt) w' end) w ->
  wp (ignore m) Q w.
Proof. intros Hm. apply wp_bind, wp_try. eapply wp_mono; [exact Hm|]. by intros []. Qed.

Lemma wp_of_sum {E A} (f : string -> E) (r : string + A) Q w :
  Q (match r with inl e => Err (f e) | inr a => Ok a end) w -> wp (of_sum f r) Q w.
Proof. by destruct r. Qed.

Lemma quiet_calm (w : World S) s :
  quiet (env w) s -> (healthy (env w) -> healthy s) -> calm w (w <| env := s |>).
Proof.
  intros [Hq Hc] Hh. split; [exact Hq|]. split; [exact Hc|].
  intros [Hr1 Hr2]. split; [exact (Hh Hr1)|exact Hr2].
Qed.

Lemma wp_now {E} (Q : result E Z -> _) w :
  (forall t w', calm w w' -> clock (env w) <= t <= clock (env w') ->
     breaker w' = breaker w -> Q (Ok t) w') ->
  wp now Q w.
Proof.
  intros HQ. unfold wp, now. pose proof (law_now (env w)) as Hl.
  pose proof (healthy_now (env w)) as Hh.
  destruct (utc_now (env w)) as [t s] eqn:E'. destruct (Hl t s eq_refl) as [Hq Hc]. cbn in *.
  apply HQ; [by apply quiet_calm|exact Hc|done].
Qed.

Lemma wp_sleep {E} d (Q : result E unit -> _) w :
  (forall w', calm w w' -> Q (Ok tt) w') -> wp (sleep_for d) Q w.
Proof.
  intros HQ. apply HQ. apply quiet_calm; [apply law_sleep|apply healthy_sleep].
Qed.

Lemma wp_now_timestamp {E} (Q : result E Z -> _) w :
  (forall t w', calm w w' -> breaker w' = breaker w -> Q (Ok t) w') -> wp now_timestamp Q w.
Proof. intros HQ. apply wp_bind, wp_now. intros t w' Hc _ Hb. apply wp_ret. by apply HQ. Qed.

Lemma wp_with_breaker {E A} (f : CircuitInner.t -> A * CircuitInner.t) (Q : result E A -> _) w :
  Q (Ok (f (breaker w)).1) (w <| breaker := (f (breaker w)).2 |>) -> wp (with_breaker f) Q w.
Proof. unfold wp, with_breaker. by destruct (f (breaker w)). Qed.

(** A remote call that reads [v]. *)
Lemma wp_rpc_reads {A} (op : S -> (string + A) * S) v Q w :
  reads op v (env w) ->
  (healthy (env w) -> (exists a, (op (env w)).1 = inr a) /\ healthy (op (env w)).2) ->
  (forall w', calm w w' -> breaker w' = breaker w -> Q (Ok v) w') ->
  (forall e w', calm w w' -> ~ ready w -> Q (Err (TikvError.ClientError e)) w') ->
  wp (rpc op) Q w.
Proof.
  intros Hr Hh HOk HErr. unfold wp, rpc. destruct (op (env w)) as [r s] eqn:Eop.
  destruct (Hr _ _ Eop) as [Hq Hv]. cbn in Hh |- *. destruct r as [e|a].
  - assert (~ healthy (env w)) as Hnh by (intros [[a [=]] _]%Hh).
    apply HErr; [by apply quiet_calm|]. by intros [? _].
  - rewrite (Hv a eq_refl). apply HOk; [|done]. apply quiet_calm; [done|]. intros ?%Hh. tauto.
Qed.

(** A remote call that returns a transaction with the buffer [ws]. *)
Lemma wp_rpc_buffers (op : S -> (string + Txn) * S) ws Q w :
  buffers op ws (env w) ->
  (healthy (env w) -> (exists a, (op (env w)).1 = inr a) /\ healthy (op (env w)).2) ->
  (forall t w', calm w w' -> buffered t = ws -> breaker w' = breaker w -> Q (Ok t) w') ->
  (forall e w', calm w w' -> ~ ready w -> Q (Err (TikvError.ClientError e)) w') ->
  wp (rpc op) Q w.
Proof.
  intros Hr Hh HOk HErr. unfold wp, rpc. destruct (op (env w)) as [r s] eqn:Eop.
  destruct (Hr _ _ Eop) as [Hq Hv]. cbn in Hh |- *. destruct r as [e|t].
  - assert (~ healthy (env w)) as Hnh by (intros [[a [=]] _]%Hh).
    apply HErr; [by apply quiet_calm|]. by intros [? _].
  - apply HOk; [|by apply Hv|done]. apply quiet_calm; [done|]. intros ?%Hh. tauto.
Qed.

(** A commit applies the buffer; a failed one applied all of it or nothing. *)
Lemma wp_rpc_commit t (Q : result TikvError.t unit -> _) w :
  (forall w', later w w' -> kv w' = apply_writes (buffered t) (kv w) ->
     breaker w' = breaker w -> Q (Ok tt) w') ->
  (forall e w', later w w' -> ~ ready w ->
     kv w' = apply_writes (buffered t) (kv w) \/ kv w' = kv w ->
     Q (Err (TikvError.ClientError e)) w') ->
  wp (rpc (txn_commit t)) Q w.
Proof.
  intros HOk HErr. unfold wp, rpc. destruct (txn_commit t (env w)) as [r s] eqn:Ec.
  destruct (law_txn_commit t _ _ _ Ec) as [Hc Hkv].
  pose proof (healthy_txn_commit t (env w)) as Hh. rewrite Ec in Hh. cbn in Hh |- *.
  assert (later w (w <| env := s |>)) as Hl.
  { split; [exact Hc|]. intros [Hr1 Hr2]. split; [by apply Hh|exact Hr2]. }
  destruct r as [e|[]].
  - apply HErr; [done| |destruct Hkv as [?|[? _]]; [left|right]; done].
    intros [[[a [=]] _]%Hh _].
  - apply HOk; [done| |done]. by destruct Hkv as [?|[_ [e [=]]]].
Qed.

Lemma wp_rpc_rollback t (Q : result TikvError.t unit -> _) w :
  (forall r w', calm w w' -> match r with Panic _ => False | _ => True end -> Q r w') ->
  wp (rpc (txn_rollback t)) Q w.
Proof.
  intros HQ. unfold wp, rpc. pose proof (healthy_txn_rollback t (env w)) as Hh.
  destruct (txn_rollback t (env w)) as [r s] eqn:Ec.
  apply HQ; [|by destruct r]. apply quiet_calm; [by eapply law_txn_rollback|exact Hh].
Qed.

(** The breaker of a ready world permits the call and stays closed. *)
Lemma wp_cb_permitted {E} (Q : result E bool -> _) w :
  (forall b w', calm w w' -> (b = false -> ~ ready w) -> Q (Ok b) w') ->
  wp cb_is_call_permitted Q w.
Proof.
  intros HQ. apply wp_bind, wp_now_timestamp. intros t w' [Hkv [Hc Hr]] Hb.
  apply wp_with_breaker, HQ.
  - split; [exact Hkv|]. split; [exact Hc|]. intros Hw. destruct (Hr Hw) as [Hh Hs].
    split; [exact Hh|]. cbn. unfold CircuitBreaker.is_call_permitted. by rewrite Hs.
  - intros Hf Hw. destruct (Hr Hw) as [_ Hs]. revert Hf.
    unfold CircuitBreaker.is_call_permitted. by rewrite Hs.
Qed.

Lemma wp_cb_record_success {E} (Q : result E unit -> _) w :
  (forall w', calm w w' -> Q (Ok tt) w') -> wp cb_record_success Q w.
Proof.
  intros HQ. apply wp_bind, wp_now_timestamp. intros t w' [Hkv [Hc Hr]] Hb.
  apply wp_with_breaker, HQ. split; [exact Hkv|]. split; [exact Hc|]. intros Hw.
  destruct (Hr Hw) as [Hh Hs]. split; [exact Hh|]. cbn.
  unfold CircuitBreaker.record_success. rewrite Hs. exact Hs.
Qed.

(** Recording a failure writes nothing; the breaker may open. *)
Lemma wp_cb_record_failure {E} (Q : result E unit -> _) w :
  (forall w', kv w' = kv w -> clock (env w) <= clock (env w') -> Q (Ok tt) w') ->
  wp cb_record_failure Q w.
Proof.
  intros HQ. apply wp_bind, wp_now_timestamp. intros t w' [Hkv [Hc Hr]] Hb.
  by apply wp_with_breaker, HQ.
Qed.

Lemma wp_cb_failure_count {E} (Q : result E Z -> _) w :
  (forall n, Q (Ok n) w) -> wp cb_failure_count Q w.
Proof. intros HQ. apply wp_with_breaker. cbn. destruct w. apply HQ. Qed.

(** [rpc_cb] adds the breaker's bookkeeping to a call. *)
Lemma wp_rpc_cb {A} (op : S -> (string + A) * S) Q w :
  wp (rpc op) (fun r w' => match r with
    | Err e => forall w'', kv w'' = kv w' -> clock (env w') <= clock (env w'') -> Q (Err e) w''
    | _ => Q r w' end) w ->
  wp (rpc_cb op) Q w.
Proof.
  intros Hm. apply wp_bind, wp_try. eapply wp_mono; [exact Hm|].
  intros [a|e|s] w' HQ; [exact HQ| |exact HQ].
  apply wp_bind, wp_cb_record_failure. intros w'' ? ?. apply wp_throw. by apply HQ.
Qed.

(** An outcome that an outside fault explains: nothing was written. *)
Definition faulted (w w' : World S) : Prop := calm w w' /\ ~ ready w.

Lemma faulted_intro w w' :
  kv w' = kv w -> clock (env w) <= clock (env w') -> ~ ready w -> faulted w w'.
Proof. intros. split; [|done]. split; [done|]. by split. Qed.

(** A write that succeeded, and one whose fault leaves its fate unknown. *)
Definition wrote (f : gmap string string -> gmap string string) (w w' : World S) : Prop :=
  later w w' /\ kv w' = f (kv w).
Definition unsure (f : gmap string string -> gmap string string) (w w' : World S) : Prop :=
  later w w' /\ ~ ready w /\ (kv w' = kv w \/ kv w' = f (kv w)).

Lemma unsure_intro f w w' :
  clock (env w) <= clock (env w') -> ~ ready w -> kv w' = kv w \/ kv w' = f (kv w) -> unsure f w w'.
Proof. intros. by repeat split. Qed.

End Wp.

(** Closes [later w w'], [calm w w'] and [~ ready w] through the worlds in between. *)
Ltac later_chain :=
  lazymatch goal with
  | |- later ?a ?a => reflexivity
  | |- later ?a _ =>
      match goal with
      | H : calm a _ |- _ => etrans; [exact (calm_later _ _ H)|]; clear H; later_chain
      | H : later a _ |- _ => etrans; [exact H|]; clear H; later_chain
      end
  end.
Ltac calm_chain :=
  lazymatch goal with
  | |- calm ?a ?a => reflexivity
  | |- calm ?a _ =>
      match goal with
      | H : calm a _ |- _ => etrans; [exact H|]; clear H; calm_chain
      | H : faulted a _ |- _ => etrans; [exact (proj1 H)|]; clear H; calm_chain
      end
  end.
Ltac world :=
  lazymatch goal with
  | |- later _ _ => later_chain
  | |- calm _ _ => calm_chain
  | |- faulted _ _ => split; [calm_chain|world]
  | |- ~ ready ?w =>
      match goal with
      | H : ~ ready ?w' |- _ => apply (later_not_ready w w'); [later_chain|exact H]
      | H : faulted ?w' _ |- _ => apply (later_not_ready w w'); [later_chain|exact (proj2 H)]
      end
  | |- ready ?w =>
      match goal with H : ready ?w' |- _ => apply (later_ready w' w); [later_chain|exact H] end
  end.

(** The equalities between stores and the order of clocks that hypotheses give. *)
Ltac world_facts :=
  repeat match goal with
  | H : faulted _ _ |- _ => destruct H
  | H : calm _ _ |- _ => destruct H
  | H : later _ _ |- _ => destruct H
  end.
(** Evaluates [apply_writes] on the buffers the hypotheses give. *)
Ltac buffers_norm :=
  repeat match goal with
  | H : buffered ?t = _, H' : context [buffered ?t] |- _ =>
      lazymatch H' with H => fail | _ => rewrite H in H' end
  | H : buffered ?t = _ |- context [buffered ?t] => rewrite H
  end;
  cbn [app apply_writes foldl apply_write fst snd] in *.
Ltac read_eq := world_facts; buffers_norm; unfold kv in *; congruence.
Ltac kv_eq :=
  world_facts; buffers_norm;
  repeat match goal with H : kv ?w = _ |- context [kv ?w] => rewrite H end; reflexivity.
Ltac fault :=
  lazymatch goal with
  | |- faulted _ _ => apply faulted_intro; [world_facts; congruence|world_facts; lia|world]
  | |- unsure _ _ _ =>
      apply unsure_intro; [world_facts; lia|world|world_facts; first
        [ match goal with H : kv _ = _ \/ kv _ = kv _ |- _ =>
            destruct H; [right; kv_eq|left; kv_eq] end
        | left; kv_eq ]]
  end.

(** Proves a property of the outcome of the run [E : m w = (r, w')] by [wp]. *)
Ltac wp_run E :=
  lazymatch type of E with
  | ?m ?w = (?r, ?w') =>
      pattern r, w'; refine (wp_elim m _ w r w' _ E); cbv beta; clear E
  end.

(** The same when the result [r] is known: the property may assume it. *)
Ltac wp_run_eq E :=
  lazymatch type of E with
  | ?m ?w = (?r, ?w') =>
      let r' := fresh "r" in let Er := fresh "Er" in
      remember r as r' eqn:Er in E; revert Er; wp_run E
  end.

(** One step through an operation; leaves the cases of a remote call. *)
Ltac wp_step :=
  lazymatch goal with
  | |- wp (mbind _ _) _ _ => apply wp_bind
  | |- wp (mret _) _ _ => apply wp_ret
  | |- wp (throw _) _ _ => apply wp_throw
  | |- wp (panic _) _ _ => apply wp_panic
  | |- wp (lift _) _ _ => apply wp_lift
  | |- wp (try_ _) _ _ => apply wp_try
  | |- wp (ignore _) _ _ => apply wp_ignore
  | |- wp (map_err_m _ _) _ _ => apply wp_map_err
  | |- wp (of_sum _ _) _ _ => apply wp_of_sum
  | |- wp now _ _ => apply wp_now; intros ? ? ? ? ?
  | |- wp (sleep_for _) _ _ => apply wp_sleep; intros ? ?
  | |- wp cb_is_call_permitted _ _ => apply wp_cb_permitted; intros [] ? ? ?
  | |- wp cb_record_success _ _ => apply wp_cb_record_success; intros ? ?
  | |- wp cb_failure_count _ _ => apply wp_cb_failure_count; intros ?
  | |- wp (rpc_cb _) _ _ => apply wp_rpc_cb
  | |- wp (rpc current_timestamp) _ _ =>
      eapply wp_rpc_reads; [apply law_timestamp|apply healthy_timestamp|intros ? ? ?|intros ? ? ? ?]
  | |- wp (rpc (snapshot_get _)) _ _ =>
      eapply wp_rpc_reads; [apply law_snapshot_get|apply healthy_snapshot_get|intros ? ? ?|intros ? ? ? ?]
  | |- wp (rpc (snapshot_scan _ _ _)) _ _ =>
      eapply wp_rpc_reads; [apply law_snapshot_scan|apply healthy_snapshot_scan|intros ? ? ?|intros ? ? ? ?]
  | |- wp (rpc (txn_get _ _)) _ _ =>
      eapply wp_rpc_reads; [apply law_txn_get|apply healthy_txn_get|intros ? ? ?|intros ? ? ? ?]
  | |- wp (rpc begin_optimistic) _ _ =>
      eapply wp_rpc_buffers; [apply law_begin_optimistic|apply healthy_begin_optimistic
        |intros ? ? ? ? ?|intros ? ? ? ?]
  | |- wp (rpc begin_pessimistic) _ _ =>
      eapply wp_rpc_buffers; [apply law_begin_pessimistic|apply healthy_begin_pessimistic
        |intros ? ? ? ? ?|intros ? ? ? ?]
  | |- wp (rpc (txn_put _ _ _)) _ _ =>
      eapply wp_rpc_buffers; [apply law_txn_put|apply healthy_txn_put|intros ? ? ? ? ?|intros ? ? ? ?]
  | |- wp (rpc (txn_delete _ _)) _ _ =>
      eapply wp_rpc_buffers; [apply law_txn_delete|apply healthy_txn_delete
        |intros ? ? ? ? ?|intros ? ? ? ?]
  | |- wp (rpc (txn_commit _)) _ _ => apply wp_rpc_commit; [intros ? ? ? ?|intros ? ? ? ? ?]
  | |- wp (rpc (txn_rollback _)) _ _ => apply wp_rpc_rollback; intros [] ? ? ?
  end.
