(* ===== verification/Schema.v ===== *)
(** * Coordination records (crates/roboflow-distributed/src/tikv/schema.rs, tikv/checkpoint.rs)

    Locks, heartbeats, checkpoints with their multipart uploads, and stored
    configurations.  A method that reads [Utc::now()] takes the reading [now];
    one reading serves a whole synchronous method. *)
From S2P Require Import Prelude Codec.

(** Integer division of the source; a zero divisor panics. *)
Definition div_u64 {E} (a b : Z) : result E Z :=
  if b =? 0 then Panic "attempt to divide by zero" else Ok (a / b).

Module ConfigRecord.

(** [struct ConfigRecord]. *)
Record t : Type := mk { hash : string; content : string; created_at : Z }.

(** [ConfigRecord::new]; [sha256_hex] is the [sha2] crate's digest in hex. *)
Definition new (sha256_hex : string -> string) (now : Z) (content : string) : t :=
  {| hash := sha256_hex content; content := content; created_at := now |}.

End ConfigRecord.

Module LockRecord.

(** [struct LockRecord]. *)
Record t : Type := mk {
  resource : string;
  owner : string;
  version : Z;
  expires_at : Z;
  acquired_at : Z
}.

#[global] Instance t_eta : Settable t := fun r =>
  mk (resource r) (owner r) (version r) (expires_at r) (acquired_at r).

(** [LockRecord::new]. *)
Definition new (now : Z) (resource owner : string) (ttl_seconds : Z) : t := {|
  resource := resource;
  owner := owner;
  version := 1;
  expires_at := now + secs ttl_seconds;
  acquired_at := now
|}.

(** [LockRecord::is_expired]. *)
Definition is_expired (now : Z) (l : t) : bool := expires_at l <? now.

(** [LockRecord::is_expired_with_grace]. *)
Definition is_expired_with_grace (now grace_seconds : Z) (l : t) : bool :=
  expires_at l - secs grace_seconds <? now.

(** [LockRecord::extend]. *)
Definition extend (now ttl_seconds : Z) (l : t) : t :=
  l <| expires_at := now + secs ttl_seconds |> <| version := u64_add (version l) 1 |>.

(** [LockRecord::is_owned_by]. *)
Definition is_owned_by (pod_id : string) (l : t) : bool := bool_decide (owner l = pod_id).

(** [LockRecord::fencing_token]. *)
Definition fencing_token (l : t) : Z := version l.

(** A concrete codec. *)
Definition wire : Wire.Wire t.
Proof.
  refine (Wire.wire_iso (fun l => (resource l, owner l, version l, expires_at l, acquired_at l))
    (fun '(a, b, c, d, e) => mk a b c d e) _); [|by intros []].
  repeat apply Wire.wire_prod; (apply Wire.wire_string || apply Wire.wire_Z).
Defined.

End LockRecord.

Module WorkerStatus.
(** [enum WorkerStatus]. *)
Inductive t : Type := Idle | Busy | Draining | Unhealthy.
End WorkerStatus.

Module HeartbeatRecord.

(** [struct HeartbeatRecord]; [metadata] is the JSON text it is stored as. *)
Record t : Type := mk {
  pod_id : string;
  last_heartbeat : Z;
  status : WorkerStatus.t;
  active_jobs : Z;
  total_processed : Z;
  capabilities : list string;
  metadata : option string
}.

#[global] Instance t_eta : Settable t := fun r =>
  mk (pod_id r) (last_heartbeat r) (status r) (active_jobs r) (total_processed r)
     (capabilities r) (metadata r).

(** [HeartbeatRecord::new]. *)
Definition new (now : Z) (pod_id : string) : t := {|
  pod_id := pod_id;
  last_heartbeat := now;
  status := WorkerStatus.Idle;
  active_jobs := 0;
  total_processed := 0;
  capabilities := [];
  metadata := None
|}.

(** [HeartbeatRecord::beat]. *)
Definition beat (now : Z) (h : t) : t := h <| last_heartbeat := now |>.

(** [HeartbeatRecord::is_stale]. *)
Definition is_stale (now timeout_seconds : Z) (h : t) : bool :=
  secs timeout_seconds <? now - last_heartbeat h.

(** [HeartbeatRecord::increment_active]. *)
Definition increment_active (h : t) : t :=
  h <| active_jobs := u32_add (active_jobs h) 1 |> <| status := WorkerStatus.Busy |>.

(** [HeartbeatRecord::decrement_active]. *)
Definition decrement_active (h : t) : t :=
  let h := if 0 <? active_jobs h then h <| active_jobs := active_jobs h - 1 |> else h in
  if active_jobs h =? 0 then h <| status := WorkerStatus.Idle |> else h.

(** [HeartbeatRecord::increment_processed]. *)
Definition increment_processed (h : t) : t :=
  h <| total_processed := u64_add (total_processed h) 1 |>.

Definition status_code (s : WorkerStatus.t) : Z :=
  match s with WorkerStatus.Idle => 0 | WorkerStatus.Busy => 1
             | WorkerStatus.Draining => 2 | WorkerStatus.Unhealthy => 3 end.
Definition status_of_code (z : Z) : WorkerStatus.t :=
  match z with 0 => WorkerStatus.Idle | 1 => WorkerStatus.Busy
             | 2 => WorkerStatus.Draining | _ => WorkerStatus.Unhealthy end.

(** A concrete codec. *)
Definition wire : Wire.Wire t.
Proof.
  refine (Wire.wire_iso
    (fun h => (pod_id h, last_heartbeat h, status_code (status h), active_jobs h,
               total_processed h, capabilities h, metadata h))
    (fun '(a, b, c, d, e, f, g) => mk a b (status_of_code c) d e f g) _);
    [|by intros [? ? [] ? ? ? ?]].
  repeat apply Wire.wire_prod;
    (apply Wire.wire_string || apply Wire.wire_Z || apply Wire.wire_list, Wire.wire_string
     || apply Wire.wire_option, Wire.wire_string).
Defined.

End HeartbeatRecord.

Module UploadedPart.
(** [struct UploadedPart]. *)
Record t : Type := mk { part_num : Z; etag : string; size : Z }.
End UploadedPart.

Module VideoUploadState.

(** [struct VideoUploadState]. *)
Record t : Type := mk {
  camera_id : string;
  upload_id : string;
  parts : list UploadedPart.t;
  last_keyframe_offset : Z
}.

#[global] Instance t_eta : Settable t := fun r =>
  mk (camera_id r) (upload_id r) (parts r) (last_keyframe_offset r).

(** [VideoUploadState::new]. *)
Definition new (camera_id : string) : t :=
  {| camera_id := camera_id; upload_id := ""; parts := []; last_keyframe_offset := 0 |}.

(** [VideoUploadState::is_active]. *)
Definition is_active (v : t) : bool := negb (bool_decide (upload_id v = ""%string)).

(** [VideoUploadState::next_part_number]. *)
Definition next_part_number (v : t) : Z := as_u32 (Z.of_nat (length (parts v)) + 1).

(** [VideoUploadState::add_part]. *)
Definition add_part (part_num : Z) (etag : string) (size : Z) (v : t) : t :=
  v <| parts := parts v ++ [UploadedPart.mk part_num etag size] |>.

(** [VideoUploadState::uploaded_bytes]. *)
Definition uploaded_bytes (v : t) : Z :=
  foldl (fun acc p => u64_add acc (UploadedPart.size p)) 0 (parts v).

End VideoUploadState.

Module ParquetUploadState.

(** [struct ParquetUploadState]. *)
Record t : Type := mk {
  upload_id : string;
  parts : list UploadedPart.t;
  rows_written : Z;
  buffer_state : option string
}.

#[global] Instance t_eta : Settable t := fun r =>
  mk (upload_id r) (parts r) (rows_written r) (buffer_state r).

(** [ParquetUploadState::new]. *)
Definition new (upload_id : string) : t :=
  {| upload_id := upload_id; parts := []; rows_written := 0; buffer_state := None |}.

(** [ParquetUploadState::next_part_number]. *)
Definition next_part_number (v : t) : Z := as_u32 (Z.of_nat (length (parts v)) + 1).

(** [ParquetUploadState::add_part]. *)
Definition add_part (part_num : Z) (etag : string) (size : Z) (v : t) : t :=
  v <| parts := parts v ++ [UploadedPart.mk part_num etag size] |>.

(** [ParquetUploadState::uploaded_bytes]. *)
Definition uploaded_bytes (v : t) : Z :=
  foldl (fun acc p => u64_add acc (UploadedPart.size p)) 0 (parts v).

End ParquetUploadState.

Module CheckpointState.

(** [struct CheckpointState]. *)
Record t : Type := mk {
  job_id : string;
  batch_id : string;
  pod_id : string;
  byte_offset : Z;
  last_frame : Z;
  episode_idx : Z;
  chunk_idx : Z;
  episodes_per_chunk : Z;
  total_frames : Z;
  video_uploads : list VideoUploadState.t;
  parquet_upload : option ParquetUploadState.t;
  updated_at : Z;
  version : Z
}.

#[global] Instance t_eta : Settable t := fun r =>
  mk (job_id r) (batch_id r) (pod_id r) (byte_offset r) (last_frame r) (episode_idx r)
     (chunk_idx r) (episodes_per_chunk r) (total_frames r) (video_uploads r)
     (parquet_upload r) (updated_at r) (version r).

Definition default_episodes_per_chunk : Z := 500.

(** [CheckpointState::with_batch_and_videos]. *)
Definition with_batch_and_videos (now : Z) (job_id batch_id pod_id : string)
  (total_frames episodes_per_chunk : Z) (camera_ids : list string) : t := {|
  job_id := job_id;
  batch_id := batch_id;
  pod_id := pod_id;
  byte_offset := 0;
  last_frame := 0;
  episode_idx := 0;
  chunk_idx := 0;
  episodes_per_chunk := episodes_per_chunk;
  total_frames := total_frames;
  video_uploads := VideoUploadState.new <$> camera_ids;
  parquet_upload := None;
  updated_at := now;
  version := 1
|}.

(** [CheckpointState::new], [with_batch] and [with_videos]. *)
Definition new (now : Z) (job_id pod_id : string) (total_frames : Z) : t :=
  with_batch_and_videos now job_id "" pod_id total_frames default_episodes_per_chunk [].
Definition with_batch (now : Z) (job_id batch_id pod_id : string)
  (total_frames episodes_per_chunk : Z) : t :=
  with_batch_and_videos now job_id batch_id pod_id total_frames episodes_per_chunk [].
Definition with_videos (now : Z) (job_id pod_id : string) (total_frames : Z)
  (camera_ids : list string) : t :=
  with_batch_and_videos now job_id "" pod_id total_frames default_episodes_per_chunk camera_ids.

(** [CheckpointState::update]; the error text formats the two frame numbers. *)
Definition update (fmt : Z -> Z -> string) (now frame byte_offset' : Z) (c : t) : result string t :=
  if total_frames c <? frame then Err (fmt frame (total_frames c))
  else Ok (c <| last_frame := frame |> <| byte_offset := byte_offset' |>
             <| updated_at := now |> <| version := u64_add (version c) 1 |>).

(** [CheckpointState::update_episode]. *)
Definition update_episode (now episode : Z) (c : t) : result string t :=
  q ← div_u64 episode (episodes_per_chunk c);
  mret (c <| episode_idx := episode |> <| chunk_idx := as_u32 q |>
          <| updated_at := now |> <| version := u64_add (version c) 1 |>).

(** [CheckpointState::set_distributed_context]. *)
Definition set_distributed_context (now : Z) (batch : string) (episode_index epc : Z) (c : t)
  : result string t :=
  q ← div_u64 episode_index epc;
  mret (c <| batch_id := batch |> <| episode_idx := episode_index |>
          <| episodes_per_chunk := epc |> <| chunk_idx := as_u32 q |>
          <| updated_at := now |> <| version := u64_add (version c) 1 |>).

(** [CheckpointState::validate_episode_consistency]. *)
Definition validate_episode_consistency (c : t) : result string bool :=
  q ← div_u64 (episode_idx c) (episodes_per_chunk c);
  mret (chunk_idx c =? as_u32 q).

(** Applies [f] to the first element that satisfies [p], as through the
    reference [iter_mut().find(p)] returns; [None] when there is none. *)
Fixpoint update_first {A} (p : A -> bool) (f : A -> A) (l : list A) : option (list A) :=
  match l with
  | [] => None
  | x :: l' => if p x then Some (f x :: l')
               else match update_first p f l' with Some l'' => Some (x :: l'') | None => None end
  end.

(** [CheckpointState::video_state_mut], followed by the update [f] through the
    reference it returns. *)
Definition video_state_mut (camera : string) (f : VideoUploadState.t -> VideoUploadState.t) (c : t)
  : result string t :=
  let is_cam v := bool_decide (VideoUploadState.camera_id v = camera) in
  let c := if negb (existsb is_cam (video_uploads c))
           then c <| video_uploads := video_uploads c ++ [VideoUploadState.new camera] |>
                  <| version := u64_add (version c) 1 |>
           else c in
  match update_first is_cam f (video_uploads c) with
  | Some vs => Ok (c <| video_uploads := vs |>)
  | None => Panic "camera_id just added"
  end.

(** [CheckpointState::video_state]. *)
Definition video_state (camera : string) (c : t) : option VideoUploadState.t :=
  List.find (fun v => bool_decide (VideoUploadState.camera_id v = camera)) (video_uploads c).

(** [CheckpointState::set_parquet_upload]. *)
Definition set_parquet_upload (st : ParquetUploadState.t) (c : t) : t :=
  c <| parquet_upload := Some st |> <| version := u64_add (version c) 1 |>.

(** [CheckpointState::is_complete]. *)
Definition is_complete (c : t) : bool := total_frames c <=? last_frame c.

(** A concrete codec. *)
Definition wire : Wire.Wire t.
Proof.
  assert (Wire.Wire UploadedPart.t) as Wp.
  { refine (Wire.wire_iso (fun p => (UploadedPart.part_num p, UploadedPart.etag p, UploadedPart.size p))
      (fun '(a, b, c) => UploadedPart.mk a b c) _); [|by intros []].
    repeat apply Wire.wire_prod; (apply Wire.wire_string || apply Wire.wire_Z). }
  assert (Wire.Wire VideoUploadState.t) as Wv.
  { refine (Wire.wire_iso (fun v => (VideoUploadState.camera_id v, VideoUploadState.upload_id v,
        VideoUploadState.parts v, VideoUploadState.last_keyframe_offset v))
      (fun '(a, b, c, d) => VideoUploadState.mk a b c d) _); [|by intros []].
    repeat apply Wire.wire_prod;
      (apply Wire.wire_string || apply Wire.wire_Z || apply Wire.wire_list, Wp). }
  assert (Wire.Wire ParquetUploadState.t) as Wq.
  { refine (Wire.wire_iso (fun v => (ParquetUploadState.upload_id v, ParquetUploadState.parts v,
        ParquetUploadState.rows_written v, ParquetUploadState.buffer_state v))
      (fun '(a, b, c, d) => ParquetUploadState.mk a b c d) _); [|by intros []].
    repeat apply Wire.wire_prod;
      (apply Wire.wire_string || apply Wire.wire_Z || apply Wire.wire_list, Wp
       || apply Wire.wire_option, Wire.wire_string). }
  refine (Wire.wire_iso
    (fun c => (job_id c, batch_id c, pod_id c, byte_offset c, last_frame c, episode_idx c,
       chunk_idx c, episodes_per_chunk c, total_frames c, video_uploads c, parquet_upload c,
       updated_at c, version c))
    (fun '(a, b, c, d, e, f, g, h, i, j, k, l, m) => mk a b c d e f g h i j k l m) _);
    [|by intros []].
  repeat apply Wire.wire_prod;
    (apply Wire.wire_string || apply Wire.wire_Z || apply Wire.wire_list, Wv
     || apply Wire.wire_option, Wq).
Defined.

End CheckpointState.

Module CheckpointConfig.

(** [struct CheckpointConfig]. *)
Record t : Type := mk {
  checkpoint_interval_frames : Z;
  checkpoint_interval_seconds : Z;
  checkpoint_async : bool
}.

Definition default : t := mk 100 10 true.

(** [CheckpointConfig::should_checkpoint]. *)
Definition should_checkpoint (frames_since_last time_since_last : Z) (c : t) : bool :=
  (checkpoint_interval_frames c <=? frames_since_last)
  || (checkpoint_interval_seconds c <=? as_secs time_since_last).

End CheckpointConfig.

(** ** Checkpoints stay consistent *)
Section Checkpoint.
Import CheckpointState.

(** The mutations of a checkpoint. *)
Inductive ckpt_op : Type :=
| CUpdate (now frame offset : Z)
| CEpisode (now episode : Z)
| CContext (now : Z) (batch : string) (episode epc : Z)
| CVideo (camera : string) (f : VideoUploadState.t -> VideoUploadState.t)
| CParquet (st : ParquetUploadState.t).

Definition run_ckpt_op (fmt : Z -> Z -> string) (o : ckpt_op) (c : t) : result string t :=
  match o with
  | CUpdate now frame off => update fmt now frame off c
  | CEpisode now e => update_episode now e c
  | CContext now b e epc => set_distributed_context now b e epc c
  | CVideo cam f => video_state_mut cam f c
  | CParquet st => Ok (set_parquet_upload st c)
  end.

(** What the types of the arguments give, and that a caller changes the upload of a camera
    through the reference of [video_state_mut], not the camera's name. *)
Definition ckpt_op_ok (o : ckpt_op) : Prop :=
  match o with
  | CUpdate _ frame _ => 0 <= frame
  | CEpisode _ e => 0 <= e
  | CContext _ _ e epc => 0 <= e /\ 0 <= epc
  | CVideo _ f => forall v, VideoUploadState.camera_id (f v) = VideoUploadState.camera_id v
  | CParquet _ => True
  end.

(** A worker's run: rejected updates leave the checkpoint as it was, a panic ends it. *)
Definition ckpt_step (fmt : Z -> Z -> string) (r : result string t) (o : ckpt_op) : result string t :=
  match r with
  | Ok c => match run_ckpt_op fmt o c with Err _ => Ok c | r' => r' end
  | _ => r
  end.
Definition run_ckpt (fmt : Z -> Z -> string) (c : t) (ops : list ckpt_op) : result string t :=
  foldl (ckpt_step fmt) (Ok c) ops.

Definition cameras (c : t) : list string := VideoUploadState.camera_id <$> video_uploads c.

(** What a list of mutations says of a checkpoint of [frames] frames: the last frame that was
    accepted, the last episode, and the last number of episodes per chunk. *)
Definition op_frame (frames : Z) (o : ckpt_op) : option Z :=
  match o with CUpdate _ f _ => if f <=? frames then Some f else None | _ => None end.
Definition op_episode (o : ckpt_op) : option Z :=
  match o with CEpisode _ e => Some e | CContext _ _ e _ => Some e | _ => None end.
Definition op_chunk (o : ckpt_op) : option Z := match o with CContext _ _ _ epc => Some epc | _ => None end.
Definition op_camera (o : ckpt_op) : option string := match o with CVideo cam _ => Some cam | _ => None end.
Definition op_counted (frames : Z) (o : ckpt_op) : bool :=
  match o with CUpdate _ f _ => f <=? frames | CVideo _ _ => false | _ => true end.
Definition latest {A B} (g : A -> option B) (d : B) (l : list A) : B := default d (last (omap g l)).

(** An episode is set while a chunk has no episodes. *)
Definition zero_chunk (epc : Z) (ops : list ckpt_op) : Prop :=
  exists l1 o l2, ops = l1 ++ o :: l2 /\ is_Some (op_episode o) /\ latest op_chunk epc (l1 ++ [o]) = 0.

Record recorded (frames epc : Z) (cams : list string) (ops : list ckpt_op) (c : t) : Prop := {
  rec_frames : total_frames c = frames;
  rec_frame : last_frame c = latest (op_frame frames) 0 ops;
  rec_episode : episode_idx c = latest op_episode 0 ops;
  rec_epc : episodes_per_chunk c = latest op_chunk epc ops;
  rec_chunk : validate_episode_consistency c =
    (if latest op_chunk epc ops =? 0 then Panic "attempt to divide by zero" else Ok true);
  rec_cameras : exists added, cameras c = cams ++ added /\ NoDup added /\ (forall x, x ∈ added -> x ∉ cams) /\
    (forall x, x ∈ cameras c <-> x ∈ cams \/ x ∈ omap op_camera ops) /\
    version c = 1 + Z.of_nat (length (List.filter (op_counted frames) ops)) + Z.of_nat (length added) }.

Lemma latest_snoc {A B} (g : A -> option B) d l x : latest g d (l ++ [x]) = match g x with Some y => y | None => latest g d l end.
Proof. unfold latest. rewrite omap_app. cbn. destruct (g x) as [y|]; cbn; [by rewrite last_snoc|by rewrite app_nil_r]. Qed.

Lemma latest_range {A B} (g : A -> option B) (P : B -> Prop) d l : P d -> Forall (fun x => forall y, g x = Some y -> P y) l -> P (latest g d l).
Proof.
  intros Hd. induction l as [|x l IH] using rev_ind; [done|]. rewrite Forall_app, Forall_singleton, latest_snoc. intros [Hl Hx].
  destruct (g x); auto.
Qed.

Lemma div_u64_pos {E} a b : 0 < b -> div_u64 (E:=E) a b = Ok (a / b).
Proof. intros. unfold div_u64. destruct (Z.eqb_spec b 0); [lia|done]. Qed.

Lemma consistency_intro c : chunk_idx c = as_u32 (episode_idx c / episodes_per_chunk c) ->
  validate_episode_consistency c = (if episodes_per_chunk c =? 0 then Panic "attempt to divide by zero" else Ok true).
Proof.
  intros E. unfold validate_episode_consistency, div_u64. destruct (episodes_per_chunk c =? 0); [done|]. cbn. by rewrite E, Z.eqb_refl.
Qed.

Lemma update_first_cameras cam f vs vs' :
  (forall v, VideoUploadState.camera_id (f v) = VideoUploadState.camera_id v) ->
  update_first (fun v => bool_decide (VideoUploadState.camera_id v = cam)) f vs = Some vs' ->
  VideoUploadState.camera_id <$> vs' = VideoUploadState.camera_id <$> vs.
Proof.
  intros Hf. revert vs'. induction vs as [|v vs IH]; intros vs'; cbn; [done|].
  case_bool_decide; [intros [= <-]; cbn; by rewrite Hf|].
  destruct (update_first _ f vs) as [l|]; [|done]. intros [= <-]. cbn. by rewrite IH.
Qed.

Lemma update_first_found cam f vs :
  cam ∈ (VideoUploadState.camera_id <$> vs) ->
  exists vs', update_first (fun v => bool_decide (VideoUploadState.camera_id v = cam)) f vs = Some vs'.
Proof.
  induction vs as [|v vs IH]; cbn; [by intros ?%elem_of_nil|].
  case_bool_decide as E; [by eexists|]. intros [?|Hin]%elem_of_cons; [congruence|].
  destruct (IH Hin) as [vs' ->]. by eexists.
Qed.

Lemma existsb_cameras cam (vs : list VideoUploadState.t) :
  existsb (fun v => bool_decide (VideoUploadState.camera_id v = cam)) vs = true <->
  cam ∈ (VideoUploadState.camera_id <$> vs).
Proof.
  rewrite existsb_exists, list_elem_of_fmap. split.
  - intros (v & Hin & Hv). apply bool_decide_eq_true in Hv. exists v.
    split; [done|]. by apply list_elem_of_In.
  - intros (v & -> & Hin). exists v. split; [by apply list_elem_of_In|].
    by apply bool_decide_eq_true.
Qed.

(** [video_state_mut] always finds its camera, and only adds it when missing. *)
Lemma video_state_mut_Ok cam f c :
  (forall v, VideoUploadState.camera_id (f v) = VideoUploadState.camera_id v) ->
  exists c', video_state_mut cam f c = Ok c' /\
    cameras c' = (if bool_decide (cam ∈ cameras c) then cameras c else cameras c ++ [cam]) /\
    exists n vs, c' = c <| video_uploads := vs |> <| version := n |> /\
      n = (if bool_decide (cam ∈ cameras c) then version c else u64_add (version c) 1).
Proof.
  intros Hf. unfold video_state_mut.
  destruct (existsb _ (video_uploads c)) eqn:E; cbn [negb].
  - apply existsb_cameras in E. destruct (update_first_found cam f _ E) as [vs' Hvs].
    rewrite Hvs. eexists. split; [done|]. split.
    + rewrite bool_decide_true by done. unfold cameras. cbn. by eapply update_first_cameras.
    + exists (version c), vs'. split; [by destruct c|by rewrite bool_decide_true].
  - apply not_true_iff_false in E. rewrite existsb_cameras in E.
    destruct (update_first_found cam f (video_uploads c ++ [VideoUploadState.new cam])) as [vs' Hvs].
    { rewrite fmap_app, elem_of_app. right. cbn. by left. }
    cbn. rewrite Hvs. eexists. split; [done|]. split.
    + rewrite bool_decide_false by done. unfold cameras. cbn.
      rewrite (update_first_cameras _ _ _ _ Hf Hvs), fmap_app. done.
    + exists (u64_add (version c) 1), vs'. split; [by destruct c|by rewrite bool_decide_false].
Qed.

Lemma zero_chunk_snoc epc ops o : zero_chunk epc (ops ++ [o]) <->
  zero_chunk epc ops \/ is_Some (op_episode o) /\ latest op_chunk epc (ops ++ [o]) = 0.
Proof.
  split.
  - intros (l1&o'&l2&E&Ho&Hl). destruct l2 as [|x l2 _] using rev_ind.
    + apply app_inj_tail in E as [-> ->]. by right.
    + rewrite app_comm_cons, app_assoc in E. apply app_inj_tail in E as [-> ->]. left. by exists l1, o', l2.
  - intros [(l1&o'&l2&->&Ho&Hl)|[Ho Hl]]; [|by exists ops, o, []].
    exists l1, o', (l2 ++ [o]). split; [by rewrite <-app_assoc|done].
Qed.

Section Recorded.
Context (fmt : Z -> Z -> string) {frames epc : Z} {cams : list string} {ops : list ckpt_op} {c : t}.
Context (Hrec : recorded frames epc cams ops c).

(** A mutation that leaves the cameras and counts as a version if it is counted. *)
Lemma recorded_counted o c' : op_camera o = None -> cameras c' = cameras c ->
  version c' = version c + (if op_counted frames o then 1 else 0) -> total_frames c' = frames ->
  last_frame c' = match op_frame frames o with Some f => f | None => last_frame c end ->
  episode_idx c' = match op_episode o with Some e => e | None => episode_idx c end ->
  episodes_per_chunk c' = match op_chunk o with Some n => n | None => episodes_per_chunk c end ->
  validate_episode_consistency c' = (if episodes_per_chunk c' =? 0 then Panic "attempt to divide by zero" else Ok true) ->
  recorded frames epc cams (ops ++ [o]) c'.
Proof.
  intros Ho Hcam Hv Hf Hl He Hn Hc. destruct Hrec as [Rf Rl Re Rn Rc (added&Ea&Hnd&Hnew&Hall&Rv)].
  split; rewrite ?latest_snoc; try congruence.
  - rewrite Hl. by destruct (op_frame frames o).
  - rewrite He. by destruct (op_episode o).
  - rewrite Hn. by destruct (op_chunk o).
  - rewrite Hc, Hn, Rn. by destruct (op_chunk o).
  - exists added. rewrite Hcam, omap_app. cbn. rewrite Ho, app_nil_r. split_and!; try done.
    rewrite Hv, Rv, List.filter_app, length_app. cbn. destruct (op_counted frames o); cbn; lia.
Qed.

Lemma recorded_video cam f c' :
  (forall v, VideoUploadState.camera_id (f v) = VideoUploadState.camera_id v) -> version c + 1 < u64_mod -> 1 <= version c ->
  video_state_mut cam f c = Ok c' -> recorded frames epc cams (ops ++ [CVideo cam f]) c' /\ version c' <= version c + 1.
Proof.
  intros Hf Hv Hv1 E. destruct (video_state_mut_Ok cam f c Hf) as (c''&E'&Hcam&n&vs&Ec&Hn). rewrite E in E'. injection E' as <-.
  assert (u64_add (version c) 1 = version c + 1) as Hadd by (apply u64_add_small; lia).
  destruct Hrec as [Rf Rl Re Rn Rc (added&Ea&Hnd&Hnew&Hall&Rv)].
  assert (version c' = if bool_decide (cam ∈ cameras c) then version c else version c + 1) as Hver.
  { rewrite Ec. cbn. rewrite Hn, Hadd. done. }
  split; [|rewrite Hver; case_bool_decide; lia]. rewrite Ec in Hcam, Hver |- *. cbn in Hcam, Hver.
  split; cbn; rewrite ?latest_snoc; cbn; try done.
  change (cameras _) with (VideoUploadState.camera_id <$> vs).
  rewrite Hcam, omap_app, List.filter_app, length_app. cbn. rewrite Nat.add_0_r. case_bool_decide as Hin.
  - exists added. split_and!; try done; [|lia].
    intros x. rewrite Hall, elem_of_app, list_elem_of_singleton. apply Hall in Hin. naive_solver.
  - exists (added ++ [cam]). rewrite Ea in *. rewrite <-app_assoc. split_and!; try done.
    + apply list.NoDup_app. split_and!; [done| |apply NoDup_singleton]. set_solver.
    + set_solver.
    + intros x. specialize (Hall x). rewrite !elem_of_app in *. cbn. tauto.
    + rewrite length_app. cbn. lia.
Qed.

Lemma recorded_step o : ckpt_op_ok o -> version c + 1 < u64_mod -> 1 <= version c ->
  match ckpt_step fmt (Ok c) o with
  | Ok c' => recorded frames epc cams (ops ++ [o]) c' /\ version c <= version c' <= version c + 1 /\
             ~ (is_Some (op_episode o) /\ latest op_chunk epc (ops ++ [o]) = 0)
  | Err _ => False
  | Panic _ => is_Some (op_episode o) /\ latest op_chunk epc (ops ++ [o]) = 0
  end.
Proof.
  intros Ho Hv Hv1. assert (u64_add (version c) 1 = version c + 1) as Hadd by (apply u64_add_small; lia).
  pose proof (rec_frames _ _ _ _ _ Hrec) as Rf. pose proof (rec_epc _ _ _ _ _ Hrec) as Rn.
  assert (validate_episode_consistency c = if episodes_per_chunk c =? 0 then Panic "attempt to divide by zero" else Ok true) as Rc.
  { rewrite Rn. apply Hrec. }
  destruct o as [now frame off|now e|now b e n|cam f|st]; cbn [ckpt_step run_ckpt_op]; rewrite latest_snoc; cbn [op_chunk op_episode].
  - unfold update. rewrite Rf. destruct (Z.ltb_spec frames frame); (split; [|split; [cbn; rewrite ?Hadd; lia|by intros [[? [=]] _]]]);
      apply recorded_counted; cbn; rewrite ?Hadd; try done; destruct (Z.leb_spec frame frames); (done || lia).
  - unfold update_episode, div_u64. rewrite Rn. destruct (Z.eqb_spec (latest op_chunk epc ops) 0) as [E|E]; cbn; [by split; [eexists|]|].
    split; [|split; [rewrite Hadd; lia|by intros [_ ?]]].
    apply recorded_counted; cbn; rewrite ?Hadd; try done.
    etrans; [apply consistency_intro; cbn; by rewrite Rn|done].
  - unfold set_distributed_context, div_u64. destruct (Z.eqb_spec n 0) as [E|E]; cbn; [by split; [eexists|]|].
    split; [|split; [rewrite Hadd; lia|by intros [_ ?]]].
    apply recorded_counted; cbn; rewrite ?Hadd; try done. by etrans; [apply consistency_intro|].
  - destruct (video_state_mut_Ok cam f c Ho) as (c'&E&_&n&vs&Ec&Hn). rewrite E.
    destruct (recorded_video cam f c' Ho Hv Hv1 E) as [Hr' Hv']. split; [done|].
    split; [|by intros [[? [=]] _]]. split; [|done]. rewrite Ec. cbn. rewrite Hn. case_bool_decide; lia.
  - split; [|split; [cbn; rewrite Hadd; lia|by intros [[? [=]] _]]]. apply recorded_counted; cbn; rewrite ?Hadd; try done; lia.
Qed.
End Recorded.

Lemma recorded_fresh now job batch pod frames epc cams :
  recorded frames epc cams [] (with_batch_and_videos now job batch pod frames epc cams).
Proof.
  assert (cameras (with_batch_and_videos now job batch pod frames epc cams) = cams) as E.
  { unfold cameras. cbn. rewrite <-list_fmap_compose. unfold compose. cbn. by rewrite list_fmap_id. }
  split; [done..| |].
  - apply (consistency_intro (with_batch_and_videos now job batch pod frames epc cams)). done.
  - exists []. rewrite E, app_nil_r. split_and!; try done; [constructor|by intros x ?%elem_of_nil|]. intros x. cbn. rewrite elem_of_nil. tauto.
Qed.

Lemma run_recorded fmt now job batch pod frames epc cams ops :
  Forall ckpt_op_ok ops -> Z.of_nat (length ops) + 2 < u64_mod ->
  match run_ckpt fmt (with_batch_and_videos now job batch pod frames epc cams) ops with
  | Ok c => recorded frames epc cams ops c /\ 1 <= version c <= 1 + Z.of_nat (length ops) /\ ~ zero_chunk epc ops
  | Err _ => False
  | Panic _ => zero_chunk epc ops
  end.
Proof.
  unfold run_ckpt. induction ops as [|o ops IH] using rev_ind; intros Hops Hlen.
  - cbn [foldl]. split_and!; [apply recorded_fresh|done|done|]. by intros ([|]&?&?&?&_).
  - apply Forall_app in Hops as [Hops Ho]. rewrite Forall_singleton in Ho. rewrite length_app in Hlen. cbn in Hlen.
    specialize (IH Hops ltac:(lia)). rewrite foldl_snoc. destruct (foldl _ _ ops) as [c|e|m].
    + destruct IH as (Hr&Hv&Hz). pose proof (recorded_step fmt Hr o Ho ltac:(lia) ltac:(lia)) as Hs.
      destruct (ckpt_step fmt (Ok c) o) as [c'|e|m]; rewrite ?length_app; cbn [length].
      * destruct Hs as (Hr'&Hv'&Hz'). split_and!; [done|lia|lia|]. rewrite zero_chunk_snoc. tauto.
      * done.
      * apply zero_chunk_snoc. by right.
    + done.
    + apply zero_chunk_snoc. by left.
Qed.

(** C39: what any run of fewer than 2^64 - 2 mutations makes of a fresh checkpoint, for any number of episodes
    per chunk and any cameras.  The run panics exactly when [update_episode] or [set_distributed_context] sets
    an episode while the number of episodes per chunk is 0.  Otherwise the checkpoint holds the frame of the
    last accepted [update], which is not above the total, and the last episode and number of episodes per
    chunk that were set; [validate_episode_consistency] answers true, and panics when that number
    is 0.  Its cameras are those given at the start (two states for one that is given twice), followed by
    one state for each other camera asked for, and its version is 1 plus the accepted mutations,
    [video_state_mut] counting only when it adds a camera. *)
Theorem checkpoint_invariant fmt now job batch pod frames epc cams (ops : list ckpt_op) :
  0 <= frames -> Forall ckpt_op_ok ops -> Z.of_nat (length ops) + 2 < u64_mod ->
  match run_ckpt fmt (with_batch_and_videos now job batch pod frames epc cams) ops with
  | Ok c => ~ zero_chunk epc ops /\ last_frame c <= total_frames c /\ recorded frames epc cams ops c
  | Err _ => False
  | Panic _ => zero_chunk epc ops
  end.
Proof.
  intros Hfr Hops Hlen. pose proof (run_recorded fmt now job batch pod frames epc cams ops Hops Hlen) as Hr.
  destruct (run_ckpt _ _ ops) as [c|e|m]; [|done..]. destruct Hr as (Hr&_&Hz). split_and!; [done| |done].
  rewrite (rec_frame _ _ _ _ _ Hr), (rec_frames _ _ _ _ _ Hr). apply latest_range; [done|]. apply Forall_forall. intros [] _ y; cbn; try done.
  destruct (Z.leb_spec frame frames); [|done]. intros [= <-]. lia.
Qed.

Definition sample_ops : list ckpt_op :=
  [CUpdate 1 50 4096; CUpdate 2 500 0; CEpisode 3 1234; CVideo "cam1" (VideoUploadState.add_part 1 "etag" 7);
   CVideo "cam1" (VideoUploadState.add_part 2 "etag" 7)].

Lemma checkpoint_invariant_witness :
  exists c, run_ckpt (fun _ _ => ""%string) (with_batch_and_videos 0 "job" "batch" "pod" 100 500 ["cam0"]%string) sample_ops = Ok c /\
    recorded 100 500 ["cam0"]%string sample_ops c /\
    last_frame c = 50 /\ chunk_idx c = 2 /\ version c = 4 /\ cameras c = ["cam0"; "cam1"]%string.
Proof.
  pose proof (checkpoint_invariant (fun _ _ => ""%string) 0 "job" "batch" "pod" 100 500 ["cam0"]%string sample_ops
    ltac:(done) ltac:(repeat constructor; cbn; lia || done) ltac:(done)) as Hi.
  destruct (run_ckpt _ _ _) as [c|e|m] eqn:E; [|vm_compute in E; congruence..].
  exists c. split; [done|]. split; [apply Hi|]. vm_compute in E. injection E as <-. done.
Defined.

(** A checkpoint made with no episodes per chunk: reading it back panics, and so does setting an episode. *)
Theorem empty_chunk_panics fmt now job batch pod frames e :
  let c := with_batch now job batch pod frames 0 in
  validate_episode_consistency c = Panic "attempt to divide by zero" /\
  run_ckpt fmt c [CEpisode now e] = Panic "attempt to divide by zero".
Proof. done. Qed.

(** A camera given twice has two states, of which [video_state] only ever shows the first. *)
Example camera_given_twice :
  cameras (with_videos 0 "job" "pod" 100 ["cam"; "cam"]%string) = ["cam"; "cam"]%string.
Proof. reflexivity. Qed.

End Checkpoint.
