(* ===== verification/Client.v ===== *)
(** * The TiKV client (crates/roboflow-distributed/src/tikv/client.rs, tikv/config.rs)

    Reads use a fresh snapshot, writes an optimistic transaction with retries on
    write conflicts, read-then-write operations a pessimistic transaction.  The
    first part transcribes the operations; the second gives each a
    specification over the committed data, for faulty and healthy runs alike. *)
From S2P Require Import Prelude Codec TikvError Circuit Keys Env Effects Schema.

Module TikvConfig.

(** [struct TikvConfig]. *)
Record t : Type := mk {
  pd_endpoints : list string;
  connection_timeout : Z;
  operation_timeout : Z;
  transaction_timeout : Z;
  key_prefix : string;
  ca_path : option string;
  cert_path : option string;
  key_path : option string;
  default_lock_ttl_secs : Z;
  lock_acquire_timeout : Z;
  max_retries : Z;
  retry_base_delay_ms : Z
}.

#[global] Instance t_eta : Settable t := fun r =>
  mk (pd_endpoints r) (connection_timeout r) (operation_timeout r) (transaction_timeout r)
     (key_prefix r) (ca_path r) (cert_path r) (key_path r) (default_lock_ttl_secs r)
     (lock_acquire_timeout r) (max_retries r) (retry_base_delay_ms r).

(** [TikvConfig::default] where no environment variable is set. *)
Definition default_unset : t := {|
  pd_endpoints := ["host.docker.internal:2379"%string];
  connection_timeout := secs 10;
  operation_timeout := secs 30;
  transaction_timeout := secs 60;
  key_prefix := KEY_PREFIX;
  ca_path := None; cert_path := None; key_path := None;
  default_lock_ttl_secs := 60;
  lock_acquire_timeout := secs 10;
  max_retries := 10;
  retry_base_delay_ms := 50
|}.

(** [TikvConfig::with_key_prefix]. *)
Definition with_key_prefix (prefix : string) (c : t) : t :=
  let prefix := if starts_with prefix "/" then prefix else String slash prefix in
  let prefix := if KeyBuilder.ends_with_char slash prefix then prefix
                else prefix +:+ String slash "" in
  c <| key_prefix := prefix |>.

(** [TikvConfig::is_tls_enabled]. *)
Definition is_tls_enabled (c : t) : bool :=
  bool_decide (is_Some (ca_path c)) || bool_decide (is_Some (cert_path c))
  || bool_decide (is_Some (key_path c)).

End TikvConfig.

Module TikvClient.

(** [struct TikvClient]; [inner] says whether the transaction client is there,
    and the breaker is part of the [World]. *)
Record t : Type := mk { config : TikvConfig.t; inner : bool }.

Section Ops.
Context {S : Type} `{TransactionClient S}.
Abbreviation Tikv := (M S TikvError.t).

(** [self.inner.as_ref().ok_or_else(..)?]. *)
Definition require_inner (c : t) : Tikv unit :=
  if inner c then mret tt else throw (TikvError.ConnectionFailed "TiKV client not initialized").

(** The breaker check at the top of [get], [put_once] and [delete_once]. *)
Definition require_permitted : Tikv unit :=
  permitted ← cb_is_call_permitted;
  if permitted : bool then mret tt
  else n ← cb_failure_count; throw (TikvError.CircuitOpen (as_u32 n)).

(** [TikvClient::get]. *)
Definition get (c : t) (key : string) : Tikv (option string) :=
  require_permitted;;
  require_inner c;;
  rpc_cb current_timestamp;;
  result ← rpc_cb (snapshot_get key);
  cb_record_success;;
  mret result.

(** The loop [for attempt in 0..=max_retries] of [put], [delete], [batch_put],
    [acquire_lock] and [release_lock]: [retry_on] is the error class it retries. *)
Fixpoint retry_loop {A} (retry_on : TikvError.t -> bool) (max_retries base_delay_ms : Z)
  (op : Tikv A) (attempts : list Z) : Tikv A :=
  match attempts with
  | [] => panic "retry loop always returns via Ok or Err"
  | attempt :: rest =>
      r ← try_ op;
      match r with
      | Ok a => mret a
      | Err e =>
          if negb (retry_on e) then throw e
          else if attempt <? max_retries
          then sleep_for (millis (saturating_mul64 base_delay_ms (pow2_u64 attempt)));;
               retry_loop retry_on max_retries base_delay_ms op rest
          else throw e
      | Panic s => panic s
      end
  end.

Definition with_retries {A} (retry_on : TikvError.t -> bool) (c : t) (op : Tikv A) : Tikv A :=
  let max_retries := TikvConfig.max_retries (config c) in
  let base_delay_ms := TikvConfig.retry_base_delay_ms (config c) in
  retry_loop retry_on max_retries base_delay_ms op (seqZ 0 (max_retries + 1)).

(** [TikvClient::put_once]. *)
Definition put_once (c : t) (key value : string) : Tikv unit :=
  require_permitted;;
  require_inner c;;
  txn ← rpc_cb begin_optimistic;
  txn ← rpc_cb (txn_put txn key value);
  rpc_cb (txn_commit txn);;
  cb_record_success.

(** [TikvClient::put]. *)
Definition put (c : t) (key value : string) : Tikv unit :=
  with_retries TikvError.is_write_conflict c (put_once c key value).

(** [TikvClient::delete_once]. *)
Definition delete_once (c : t) (key : string) : Tikv unit :=
  require_permitted;;
  require_inner c;;
  txn ← rpc_cb begin_optimistic;
  txn ← rpc_cb (txn_delete txn key);
  rpc_cb (txn_commit txn);;
  cb_record_success.

(** [TikvClient::delete]. *)
Definition delete (c : t) (key : string) : Tikv unit :=
  with_retries TikvError.is_write_conflict c (delete_once c key).

(** [TikvClient::scan]. *)
Definition scan (c : t) (prefix : string) (limit : Z) : Tikv (list (string * string)) :=
  require_inner c;;
  rpc current_timestamp;;
  rpc (snapshot_scan prefix (scan_end prefix) limit).

(** [TikvClient::batch_get]. *)
Fixpoint get_all (keys : list string) (results : list (option string))
  : Tikv (list (option string)) :=
  match keys with
  | [] => mret results
  | key :: keys' => value ← rpc (snapshot_get key); get_all keys' (results ++ [value])
  end.

Definition batch_get (c : t) (keys : list string) : Tikv (list (option string)) :=
  require_inner c;;
  rpc current_timestamp;;
  get_all keys [].

(** [TikvClient::batch_put_once]. *)
Fixpoint put_all (txn : Txn) (pairs : list (string * string)) : Tikv Txn :=
  match pairs with
  | [] => mret txn
  | (key, value) :: pairs' => txn ← rpc (txn_put txn key value); put_all txn pairs'
  end.

Definition batch_put_once (c : t) (pairs : list (string * string)) : Tikv unit :=
  require_inner c;;
  txn ← rpc begin_optimistic;
  txn ← put_all txn pairs;
  rpc (txn_commit txn).

(** [TikvClient::batch_put]. *)
Definition batch_put (c : t) (pairs : list (string * string)) : Tikv unit :=
  with_retries TikvError.is_write_conflict c (batch_put_once c pairs).

(** [TikvClient::cas]; [json_version] is [serde_json]'s reading of the field
    ["version"] as a [u64]. *)
Definition cas (json_version : string -> option Z) (c : t) (key : string)
  (expected_version : Z) (new_value : string) : Tikv bool :=
  require_inner c;;
  txn ← rpc begin_pessimistic;
  existing ← rpc (txn_get txn key);
  match existing with
  | Some existing_data =>
      match json_version existing_data with
      | Some version =>
          if version =? expected_version
          then txn ← rpc (txn_put txn key new_value); rpc (txn_commit txn);; mret true
          else throw (TikvError.CasFailed expected_version version)
      | None => throw (TikvError.Deserialization "No version field in value")
      end
  | None =>
      if expected_version =? 0
      then txn ← rpc (txn_put txn key new_value); rpc (txn_commit txn);; mret true
      else mret false
  end.

(** [TikvClient::transactional_claim]. *)
Definition transactional_claim (c : t) (work_unit_key pending_key : string)
  (claim_processor : string -> M S string (option string)) : Tikv (option string) :=
  require_inner c;;
  txn ← rpc begin_pessimistic;
  current ← rpc (txn_get txn work_unit_key);
  match current with
  | Some data =>
      r ← try_ (claim_processor data);
      match r with
      | Ok (Some new_data) =>
          txn ← rpc (txn_put txn work_unit_key new_data);
          txn ← rpc (txn_delete txn pending_key);
          rpc (txn_commit txn);;
          mret (Some new_data)
      | Ok None => rpc (txn_commit txn);; mret None
      | Err e => throw (TikvError.Other ("Claim processor failed: " +:+ e))
      | Panic s => panic s
      end
  | None =>
      txn ← rpc (txn_delete txn pending_key);
      rpc (txn_commit txn);;
      mret None
  end.

(** The end of [acquire_lock_once] and [release_lock_once]: commit what the body
    buffered, or roll back and return the body's error. *)
Definition finish {A} (txn : Txn) (body : Tikv (A * Txn)) : Tikv A :=
  body_result ← try_ body;
  match body_result with
  | Ok (a, txn) => rpc (txn_commit txn);; mret a
  | Err e => ignore (rpc (txn_rollback txn));; throw e
  | Panic s => panic s
  end.

(** [TikvClient::acquire_lock_once]. *)
Definition acquire_lock_once `{Codec LockRecord.t} (c : t) (resource owner : string)
  (ttl_seconds : Z) : Tikv bool :=
  require_inner c;;
  let key := LockKeys.lock resource in
  txn ← rpc begin_pessimistic;
  finish txn (
    current ← rpc (txn_get txn key);
    match current with
    | Some data =>
        existing ← of_sum TikvError.Deserialization (decode data);
        if LockRecord.is_owned_by owner existing then
          t ← now;
          let lock := LockRecord.extend t ttl_seconds existing in
          new_data ← of_sum TikvError.Serialization (encode lock);
          txn ← rpc (txn_put txn key new_data);
          mret (true, txn)
        else
          t ← now;
          if negb (LockRecord.is_expired t existing) then mret (false, txn)
          else
            t' ← now;
            let lock := LockRecord.new t' resource owner ttl_seconds in
            data ← of_sum TikvError.Serialization (encode lock);
            txn ← rpc (txn_put txn key data);
            mret (true, txn)
    | None =>
        t ← now;
        let lock := LockRecord.new t resource owner ttl_seconds in
        data ← of_sum TikvError.Serialization (encode lock);
        txn ← rpc (txn_put txn key data);
        mret (true, txn)
    end).

(** [TikvClient::acquire_lock]. *)
Definition acquire_lock `{Codec LockRecord.t} (c : t) (resource owner : string)
  (ttl_seconds : Z) : Tikv bool :=
  with_retries TikvError.is_retryable c (acquire_lock_once c resource owner ttl_seconds).

(** [TikvClient::release_lock_once]. *)
Definition release_lock_once `{Codec LockRecord.t} (c : t) (resource owner : string) : Tikv bool :=
  require_inner c;;
  let key := LockKeys.lock resource in
  txn ← rpc begin_pessimistic;
  finish txn (
    current ← rpc (txn_get txn key);
    match current with
    | Some data =>
        existing ← of_sum TikvError.Deserialization (decode (A:=LockRecord.t) data);
        if LockRecord.is_owned_by owner existing
        then txn ← rpc (txn_delete txn key); mret (true, txn)
        else mret (false, txn)
    | None => mret (false, txn)
    end).

(** [TikvClient::release_lock]. *)
Definition release_lock `{Codec LockRecord.t} (c : t) (resource owner : string) : Tikv bool :=
  with_retries TikvError.is_retryable c (release_lock_once c resource owner).

(** Stores and reads back one record. *)
Definition put_record {A} `{Codec A} (c : t) (key : string) (x : A) : Tikv unit :=
  data ← of_sum TikvError.Serialization (encode x);
  put c key data.

Definition get_record {A} `{Codec A} (c : t) (key : string) : Tikv (option A) :=
  data ← get c key;
  match data with
  | Some bytes => x ← of_sum TikvError.Deserialization (decode bytes); mret (Some x)
  | None => mret None
  end.

(** [TikvClient::update_heartbeat], [get_heartbeat]. *)
Definition update_heartbeat `{Codec HeartbeatRecord.t} (c : t) (pod_id : string)
  (heartbeat : HeartbeatRecord.t) : Tikv unit :=
  put_record c (HeartbeatKeys.heartbeat pod_id) heartbeat.
Definition get_heartbeat `{Codec HeartbeatRecord.t} (c : t) (pod_id : string)
  : Tikv (option HeartbeatRecord.t) :=
  get_record c (HeartbeatKeys.heartbeat pod_id).

(** The loop of [TikvClient::get_stale_heartbeats]. *)
Fixpoint stale_pods `{Codec HeartbeatRecord.t} (timeout_seconds : Z)
  (results : list (string * string)) (acc : list string) : Tikv (list string) :=
  match results with
  | [] => mret acc
  | (_, value) :: results' =>
      match decode (A:=HeartbeatRecord.t) value with
      | inr record =>
          t ← now;
          if HeartbeatRecord.is_stale t timeout_seconds record
          then stale_pods timeout_seconds results' (acc ++ [HeartbeatRecord.pod_id record])
          else stale_pods timeout_seconds results' acc
      | inl _ => stale_pods timeout_seconds results' acc
      end
  end.

(** [TikvClient::get_stale_heartbeats]. *)
Definition get_stale_heartbeats `{Codec HeartbeatRecord.t} (c : t) (timeout_seconds limit : Z)
  : Tikv (list string) :=
  results ← scan c HeartbeatKeys.prefix limit;
  stale_pods timeout_seconds results [].

(** [TikvClient::update_checkpoint], [get_checkpoint]. *)
Definition update_checkpoint `{Codec CheckpointState.t} (c : t) (state : CheckpointState.t)
  : Tikv unit :=
  put_record c (StateKeys.checkpoint (CheckpointState.job_id state)) state.
Definition get_checkpoint `{Codec CheckpointState.t} (c : t) (job_id : string)
  : Tikv (option CheckpointState.t) :=
  get_record c (StateKeys.checkpoint job_id).

(** [TikvClient::put_config], [get_config]. *)
Definition put_config `{Codec ConfigRecord.t} (c : t) (config : ConfigRecord.t) : Tikv unit :=
  put_record c (ConfigKeys.config (ConfigRecord.hash config)) config.
Definition get_config `{Codec ConfigRecord.t} (c : t) (hash : string)
  : Tikv (option ConfigRecord.t) :=
  get_record c (ConfigKeys.config hash).

(** [TikvClient::acquire_scanner_lock], [release_scanner_lock]. *)
Definition acquire_scanner_lock `{Codec LockRecord.t} (c : t) (pod_id : string) (ttl_seconds : Z)
  : Tikv bool :=
  acquire_lock c "scanner_lock" pod_id ttl_seconds.
Definition release_scanner_lock `{Codec LockRecord.t} (c : t) (pod_id : string) : Tikv bool :=
  release_lock c "scanner_lock" pod_id.

End Ops.
End TikvClient.

(** ** What the operations do to the committed data *)
Section Specs.
Import TikvClient.
Context {S : Type} `{TransactionClientLaws S} `{!HealthyRuns S}.
Context (c : TikvClient.t) (Hinner : inner c = true).
Context (Hretries : 0 <= TikvConfig.max_retries (config c)).

Lemma wp_require_inner (Q : result TikvError.t unit -> World S -> Prop) w : Q (Ok tt) w -> wp (require_inner c) Q w.
Proof. intros. unfold require_inner. by rewrite Hinner. Qed.

Lemma wp_require_permitted (Q : result TikvError.t unit -> World S -> Prop) w :
  (forall w', calm w w' -> Q (Ok tt) w') -> (forall e w', faulted w w' -> Q (Err e) w') ->
  wp require_permitted Q w.
Proof.
  intros HOk HErr. unfold require_permitted. repeat wp_step; [by apply HOk|].
  apply HErr. split; [done|auto].
Qed.

(** [get] returns the committed value, or fails and writes nothing. *)
Lemma wp_get k (Q : result TikvError.t (option string) -> World S -> Prop) w :
  (forall w', calm w w' -> Q (Ok (kv w !! k)) w') -> (forall e w', faulted w w' -> Q (Err e) w') ->
  wp (get c k) Q w.
Proof.
  intros HOk HErr. unfold get. wp_step. apply wp_require_permitted; [intros w1 H1|exact HErr].
  wp_step. apply wp_require_inner. repeat wp_step; try (intros; apply HErr; fault).
  replace (committed (env _) !! k) with (kv w !! k); [apply HOk; world|].
  world_facts. unfold kv in *. congruence.
Qed.

(** The retry loop: an error leaves a state of [I] in which the operation can be
    run again, and the last error is the result. *)
Lemma wp_retry_loop {A} retry_on maxr base (op : M S TikvError.t A) (Q : result TikvError.t A -> World S -> Prop)
  (I : World S -> Prop) (attempts : list Z) w :
  attempts <> [] -> list.last attempts = Some maxr ->
  (forall w1 w2, I w1 -> calm w1 w2 -> I w2) ->
  (forall w1, I w1 -> wp op (fun r w2 => match r with Err _ => I w2 /\ Q r w2 | _ => Q r w2 end) w1) ->
  I w -> wp (retry_loop retry_on maxr base op attempts) Q w.
Proof.
  intros Hne Hlast Hcalm Hop. revert w. induction attempts as [|a rest IH]; intros w Hw; [done|].
  cbn [retry_loop]. wp_step. wp_step. eapply wp_mono; [exact (Hop w Hw)|].
  intros [x|e|s] w' HQ; [exact HQ| |exact HQ]. destruct HQ as [HI HQ].
  destruct (retry_on e); cbn [negb]; [|exact HQ].
  destruct (Z.ltb_spec a maxr); [|exact HQ]. wp_step. wp_step.
  destruct rest as [|b rest]; [injection Hlast; lia|].
  apply IH; [done|done|eauto].
Qed.

Lemma wp_with_retries {A} retry_on (op : M S TikvError.t A) (Q : result TikvError.t A -> World S -> Prop)
  (I : World S -> Prop) w :
  (forall w1 w2, I w1 -> calm w1 w2 -> I w2) ->
  (forall w1, I w1 -> wp op (fun r w2 => match r with Err _ => I w2 /\ Q r w2 | _ => Q r w2 end) w1) ->
  I w -> wp (with_retries retry_on c op) Q w.
Proof.
  intros Hcalm Hop Hw. unfold with_retries.
  set (n := TikvConfig.max_retries (config c)) in *.
  assert (seqZ 0 (n + 1) = seqZ 0 n ++ [n]) as E.
  { rewrite (seqZ_app 0 n 1) by lia. f_equal. }
  eapply wp_retry_loop; [| |exact Hcalm|exact Hop|exact Hw].
  - rewrite E. by destruct (seqZ 0 n).
  - rewrite E. apply last_snoc.
Qed.

(** A write with retries has the effect of one write, because it is idempotent. *)
Lemma wp_retry_write retry_on (op : M S TikvError.t unit) (f : gmap string string -> gmap string string)
  (Q : result TikvError.t unit -> World S -> Prop) w :
  (forall m, f (f m) = f m) ->
  (forall w1 Q1, (forall w', wrote f w1 w' -> Q1 (Ok tt) w' : Prop) ->
     (forall e w', unsure f w1 w' -> Q1 (Err e) w') -> wp op Q1 w1) ->
  (forall w', wrote f w w' -> Q (Ok tt) w') -> (forall e w', unsure f w w' -> Q (Err e) w') ->
  wp (with_retries retry_on c op) Q w.
Proof.
  intros Hidem Hop HOk HErr.
  apply (wp_with_retries _ _ _ (fun w1 => later w w1 /\ (kv w1 = kv w \/ kv w1 = f (kv w)))).
  - intros w1 w2 [Hl Hk] Hc. split; [world|]. destruct Hc as [-> _]. done.
  - intros w1 [Hl Hk]. apply Hop.
    + intros w' [Hl' Hk']. apply HOk. split; [world|]. destruct Hk as [Hk|Hk]; rewrite Hk', Hk; auto.
    + intros e w' (Hl' & Hn & Hk').
      assert (kv w' = kv w \/ kv w' = f (kv w)) as Hk2.
      { destruct Hk as [Hk|Hk]; rewrite Hk in Hk'; [done|]. rewrite Hidem in Hk'. naive_solver. }
      split; [split; [world|done]|]. apply HErr. split; [world|]. split; [world|done].
  - split; [reflexivity|by left].
Qed.

Lemma wp_put_once k v (Q : result TikvError.t unit -> World S -> Prop) w :
  (forall w', wrote <[k := v]> w w' -> Q (Ok tt) w') ->
  (forall e w', unsure <[k := v]> w w' -> Q (Err e) w') ->
  wp (put_once c k v) Q w.
Proof.
  intros HOk HErr. unfold put_once. wp_step. apply wp_require_permitted; [intros w1 H1|].
  2: { intros e w' Hf. apply HErr. fault. }
  wp_step. apply wp_require_inner. repeat wp_step.
  all: try (intros; apply HErr; fault).
  apply HOk. split; [world|kv_eq].
Qed.

Lemma wp_put k v (Q : result TikvError.t unit -> World S -> Prop) w :
  (forall w', wrote <[k := v]> w w' -> Q (Ok tt) w') ->
  (forall e w', unsure <[k := v]> w w' -> Q (Err e) w') ->
  wp (put c k v) Q w.
Proof.
  intros. apply (wp_retry_write _ _ <[k := v]>); [|by intros; apply wp_put_once|done|done].
  intros m. apply insert_insert_eq.
Qed.

Lemma wp_delete_once k (Q : result TikvError.t unit -> World S -> Prop) w :
  (forall w', wrote (base.delete k) w w' -> Q (Ok tt) w') ->
  (forall e w', unsure (base.delete k) w w' -> Q (Err e) w') ->
  wp (delete_once c k) Q w.
Proof.
  intros HOk HErr. unfold delete_once. wp_step. apply wp_require_permitted; [intros w1 H1|].
  2: { intros e w' Hf. apply HErr. fault. }
  wp_step. apply wp_require_inner. repeat wp_step; try (intros; apply HErr; fault).
  apply HOk. split; [world|kv_eq].
Qed.

Lemma wp_delete k (Q : result TikvError.t unit -> World S -> Prop) w :
  (forall w', wrote (base.delete k) w w' -> Q (Ok tt) w') ->
  (forall e w', unsure (base.delete k) w w' -> Q (Err e) w') ->
  wp (delete c k) Q w.
Proof.
  intros. apply (wp_retry_write _ _ (base.delete k)); [|by intros; apply wp_delete_once|done|done].
  intros m. apply delete_delete_eq.
Qed.

(** [scan] returns the entries of the range in key order. *)
Lemma wp_scan p n (Q : result TikvError.t (list (string * string)) -> World S -> Prop) w :
  (forall w', calm w w' -> Q (Ok (kv_scan p (scan_end p) n (kv w))) w') ->
  (forall e w', faulted w w' -> Q (Err e) w') ->
  wp (scan c p n) Q w.
Proof.
  intros HOk HErr. unfold scan. wp_step. apply wp_require_inner.
  repeat wp_step; try (apply HErr; fault).
  match goal with |- Q (Ok (kv_scan _ _ _ ?m)) _ => replace m with (kv w) end; [apply HOk; world|].
  world_facts. unfold kv in *. congruence.
Qed.

Lemma wp_get_all ks acc (Q : result TikvError.t (list (option string)) -> World S -> Prop) w :
  (forall w', calm w w' -> Q (Ok (acc ++ ((fun k => kv w !! k) <$> ks))) w') ->
  (forall e w', faulted w w' -> Q (Err e) w') ->
  wp (get_all ks acc) Q w.
Proof.
  revert acc w. induction ks as [|k ks IH]; intros acc w HOk HErr; cbn [get_all].
  - wp_step. specialize (HOk w). rewrite app_nil_r in HOk. by apply HOk.
  - repeat wp_step; [|apply HErr; fault].
    apply IH; [|intros e w2 Hf; apply HErr; fault]. intros w2 Hc.
    rewrite <- app_assoc. cbn [app].
    match goal with H : calm w ?w1 |- _ =>
      replace (kv w1) with (kv w) by (by world_facts); apply HOk; world end.
Qed.

Lemma wp_batch_get ks (Q : result TikvError.t (list (option string)) -> World S -> Prop) w :
  (forall w', calm w w' -> Q (Ok ((fun k => kv w !! k) <$> ks)) w') ->
  (forall e w', faulted w w' -> Q (Err e) w') ->
  wp (batch_get c ks) Q w.
Proof.
  intros HOk HErr. unfold batch_get. wp_step. apply wp_require_inner.
  repeat wp_step; [|apply HErr; fault].
  apply wp_get_all; [|intros e w2 Hf; apply HErr; fault]. intros w2 Hc. cbn [app].
  match goal with H : calm w ?w1 |- _ =>
    replace (kv w1) with (kv w) by (by world_facts); apply HOk; world end.
Qed.

(** The writes of a batch. *)
Definition puts (pairs : list (string * string)) : list write :=
  (fun '(k, v) => (k, Some v)) <$> pairs.

Lemma wp_put_all txn pairs (Q : result TikvError.t Txn -> World S -> Prop) w :
  (forall t w', calm w w' -> buffered t = buffered txn ++ puts pairs -> Q (Ok t) w') ->
  (forall e w', faulted w w' -> Q (Err e) w') ->
  wp (put_all txn pairs) Q w.
Proof.
  revert txn w. induction pairs as [|[k v] pairs IH]; intros txn w HOk HErr; cbn [put_all].
  - wp_step. apply HOk; [done|]. by rewrite app_nil_r.
  - repeat wp_step; [|apply HErr; fault].
    apply IH; [|intros e w2 Hf; apply HErr; fault]. intros t2 w2 Hc Hb. apply HOk; [world|].
    rewrite Hb. match goal with H : buffered _ = _ ++ [_] |- _ => rewrite H end.
    by rewrite <- app_assoc.
Qed.

Lemma wp_batch_put_once pairs (Q : result TikvError.t unit -> World S -> Prop) w :
  (forall w', wrote (apply_writes (puts pairs)) w w' -> Q (Ok tt) w') ->
  (forall e w', unsure (apply_writes (puts pairs)) w w' -> Q (Err e) w') ->
  wp (batch_put_once c pairs) Q w.
Proof.
  intros HOk HErr. unfold batch_put_once. wp_step. apply wp_require_inner.
  repeat wp_step; [|apply HErr; fault].
  apply wp_put_all; [|intros e w2 Hf; apply HErr; fault]. intros t2 w2 Hc Hb.
  repeat wp_step; [apply HOk; split; [world|kv_eq]|apply HErr; fault].
Qed.

Lemma wp_batch_put pairs (Q : result TikvError.t unit -> World S -> Prop) w :
  (forall w', wrote (apply_writes (puts pairs)) w w' -> Q (Ok tt) w') ->
  (forall e w', unsure (apply_writes (puts pairs)) w w' -> Q (Err e) w') ->
  wp (batch_put c pairs) Q w.
Proof.
  intros. apply (wp_retry_write _ _ (apply_writes (puts pairs)));
    [apply apply_writes_idem|by intros; apply wp_batch_put_once|done|done].
Qed.

(** The stored version is the expected one (0 for a missing key). *)
Definition cas_matches (jv : string -> option Z) (k : string) (expected : Z) (m : gmap string string) : bool :=
  match m !! k with
  | Some d => match jv d with Some n => n =? expected | None => false end
  | None => expected =? 0
  end.

(** [cas] writes exactly when the versions match. *)
Lemma wp_cas jv k expected v (Q : result TikvError.t bool -> World S -> Prop) w :
  (if cas_matches jv k expected (kv w)
   then (forall w', wrote <[k := v]> w w' -> Q (Ok true) w') /\
        (forall e w', unsure <[k := v]> w w' -> Q (Err e) w')
   else (forall r w', calm w w' -> r <> Ok true ->
           match r with Panic _ => False | _ => True end -> Q r w')) ->
  wp (cas jv c k expected v) Q w.
Proof.
  intros Hd. unfold cas_matches in Hd.
  assert (forall e w', faulted w w' -> Q (Err e) w') as HErr.
  { intros e w1 [Hc Hn]. destruct (match _ with Some _ => _ | None => _ end); [|by apply Hd].
    destruct Hd as [_ HE]. apply HE. apply unsure_intro; [world_facts; done|done|left; kv_eq]. }
  unfold cas. wp_step. apply wp_require_inner.
  do 2 (wp_step; wp_step; [|apply HErr; fault]).
  match goal with |- context [apply_writes (buffered ?t) (committed (env ?w1)) !! k] =>
    replace (apply_writes (buffered t) (committed (env w1)) !! k) with (kv w !! k) by read_eq end.
  destruct (kv w !! k) as [d|]; [destruct (jv d) as [n|]; [destruct (n =? expected)|]
    |destruct (expected =? 0)]; repeat wp_step; try (apply HErr; fault);
    try (apply Hd; [world|done|done]);
    (destruct Hd as [HOk HE]; first [apply HOk; split; [world|kv_eq] | apply HE; fault]).
Qed.

(** [transactional_claim]: what the processor decides is committed together with
    the removal of the pending entry; a missing unit only loses its entry. *)
Lemma wp_transactional_claim uk pk proc (Q : result TikvError.t (option string) -> World S -> Prop) w :
  (forall data w1, kv w !! uk = Some data -> calm w w1 ->
     wp (proc data) (fun r w2 => match r with
       | Ok (Some new) => calm w1 w2 /\
           let f m := base.delete pk (<[uk := new]> m) in
           (forall w', later w2 w' -> wrote f w w' -> Q (Ok (Some new)) w') /\
           (forall e w', unsure f w w' -> Q (Err e) w')
       | Ok None => calm w1 w2 /\ forall w', calm w w' -> Q (Ok None) w'
       | Err e => Q (Err (TikvError.Other ("Claim processor failed: " +:+ e))) w2
       | Panic s => Q (Panic s) w2
       end) w1) ->
  (kv w !! uk = None -> (forall w', wrote (base.delete pk) w w' -> Q (Ok None) w') /\
     (forall e w', unsure (base.delete pk) w w' -> Q (Err e) w')) ->
  (forall e w', faulted w w' -> Q (Err e) w') ->
  wp (transactional_claim c uk pk proc) Q w.
Proof.
  intros Hsome Hnone HErr. unfold transactional_claim. wp_step. apply wp_require_inner.
  do 2 (wp_step; wp_step; [|apply HErr; fault]).
  match goal with |- context [apply_writes (buffered ?t) (committed (env ?w1)) !! uk] =>
    replace (apply_writes (buffered t) (committed (env w1)) !! uk) with (kv w !! uk) by read_eq end.
  destruct (kv w !! uk) as [data|].
  - wp_step. wp_step. eapply wp_mono; [apply Hsome; [done|world]|].
    intros [[new|]|e|msg] w2 HQ; [destruct HQ as (Hc & HOk & HE)|destruct HQ as (Hc & HOk)|exact HQ..].
    + repeat wp_step; try (apply HErr; fault).
      * apply HOk; [world|]. split; [world|kv_eq].
      * apply HE. fault.
    + repeat wp_step.
      * apply HOk. split; [kv_eq|world].
      * apply HErr. apply faulted_intro; [|world_facts; lia|world].
        match goal with Hd : kv _ = _ \/ _ |- _ => destruct Hd; kv_eq end.
  - destruct (Hnone eq_refl) as [HOk HE]. repeat wp_step; try (apply HErr; fault).
    + apply HOk. split; [world|kv_eq].
    + apply HE. fault.
Qed.

(** Records are stored under their encoding. *)
Lemma wp_put_record {A} `{LawfulCodec A} k (x : A) b (Q : result TikvError.t unit -> World S -> Prop) w :
  encode x = inr b ->
  (forall w', wrote <[k := b]> w w' -> Q (Ok tt) w') ->
  (forall e w', unsure <[k := b]> w w' -> Q (Err e) w') ->
  wp (put_record c k x) Q w.
Proof. intros Hb HOk HErr. unfold put_record. do 2 wp_step. rewrite Hb. by apply wp_put. Qed.

Lemma wp_get_record {A} `{Codec A} k (Q : result TikvError.t (option A) -> World S -> Prop) w :
  (forall w', calm w w' ->
     match kv w !! k with
     | None => Q (Ok None) w'
     | Some b => match decode b with inr x => Q (Ok (Some x)) w'
                 | inl e => Q (Err (TikvError.Deserialization e)) w' end
     end) ->
  (forall e w', faulted w w' -> Q (Err e) w') ->
  wp (get_record c k) Q w.
Proof.
  intros HOk HErr. unfold get_record. wp_step. apply wp_get; [|exact HErr].
  intros w' Hc. specialize (HOk w' Hc). destruct (kv w !! k) as [b|]; [|by wp_step].
  do 2 wp_step. destruct (decode b); [done|by wp_step].
Qed.

End Specs.

(** ** Properties of the client *)
Section Properties.
Import TikvClient.
Context {S : Type} `{TransactionClientLaws S} `{!HealthyRuns S}.

(** A client as [TikvClient::new] makes it. *)
Definition client_ok (c : TikvClient.t) : Prop :=
  inner c = true /\ 0 <= TikvConfig.max_retries (config c).

(** A put is applied once or reported.  Whatever the cluster answers, [put]
    returns and does not reach its [unreachable!]; on [Ok] the store is the old one
    with the key set, on an error the key is set or untouched and nothing else
    changed, and there is no error in a world where every call is answered and the
    breaker is closed. *)
Theorem put_effect c k v (w : World S) r w' :
  client_ok c -> put c k v w = (r, w') ->
  match r with
  | Ok _ => kv w' = <[k := v]> (kv w)
  | Err _ => ~ ready w /\ (kv w' = kv w \/ kv w' = <[k := v]> (kv w))
  | Panic _ => False
  end.
Proof.
  intros [Hi Hr] E. wp_run E.
  apply wp_put; [done..| |]; intros; unfold wrote, unsure in *; tauto.
Qed.

(** A checkpoint survives a restart.  With every call answered and the
    breaker closed, [update_checkpoint] succeeds, and [get_checkpoint] of the same
    job, by any other client, then returns exactly the checkpoint written. *)
Theorem checkpoint_round_trip `{LawfulCodec CheckpointState.t} c c' st (w : World S) :
  client_ok c -> client_ok c' -> ready w ->
  exists w1, update_checkpoint c st w = (Ok tt, w1) /\ ready w1 /\
  forall b, CircuitInner.get_state b = CircuitState.Closed ->
    (get_checkpoint c' (CheckpointState.job_id st) (mkWorld (env w1) b)).1 = Ok (Some st).
Proof.
  intros [Hi Hr] [Hi' Hr'] Hw.
  destruct (encode_total st) as [b Hb].
  destruct (update_checkpoint c st w) as [r w1] eqn:E. exists w1.
  assert (r = Ok tt /\ wrote <[StateKeys.checkpoint (CheckpointState.job_id st) := b]> w w1) as [-> [Hl Hkv]].
  { wp_run E. unfold update_checkpoint. eapply wp_put_record; [done..| |].
    - by intros w' Hf.
    - by intros e w' (_ & Hn & _). }
  split; [done|]. split; [world|]. intros b' Hb'.
  assert (ready (mkWorld (env w1) b')) as Hw' by (split; [|exact Hb']; by apply Hl).
  change (wp (get_checkpoint c' (CheckpointState.job_id st)) (fun r _ => r = Ok (Some st)) (mkWorld (env w1) b')).
  apply wp_get_record; [done..| |by intros e w' [_ ?]].
  intros w' _. unfold kv in *. cbn. rewrite Hkv, lookup_insert_eq. by rewrite (decode_encode _ _ Hb).
Qed.

(** Compare-and-swap has one winner.  When a [cas] that expects version [e]
    has succeeded with a value of another version, every later [cas] by any client
    that still expects [e], on the store the winner left, does not succeed and does
    not change the store, whatever the cluster answers. *)
Theorem cas_one_winner jv c c' k e v v' (w w1 : World S) b r w2 :
  client_ok c -> client_ok c' -> jv v <> Some e ->
  cas jv c k e v w = (Ok true, w1) ->
  cas jv c' k e v' (mkWorld (env w1) b) = (r, w2) ->
  r <> Ok true /\ kv w2 = kv w1.
Proof.
  intros [Hi Hr] [Hi' Hr'] Hv E1 E2.
  assert (kv w1 = <[k := v]> (kv w)) as Hk.
  { wp_run_eq E1. apply wp_cas; [done|]. destruct (cas_matches _ _ _ _).
    - split; [by intros w' [_ ?] _|done].
    - intros r1 w' _ Hne _ ->. done. }
  change (kv w1) with (kv (mkWorld (env w1) b)). wp_run E2. apply wp_cas; [done|].
  unfold cas_matches. change (kv (mkWorld (env w1) b)) with (kv w1). rewrite Hk, lookup_insert_eq.
  assert (match jv v with Some n => n =? e | None => false end = false) as ->.
  { destruct (jv v) as [n|]; [|done]. destruct (Z.eqb_spec n e) as [->|]; done. }
  intros r1 w' [Hk' _] Hne _. split; [done|]. rewrite <- Hk. exact Hk'.
Qed.

(** The number of calls counted in the half-open state. *)
Definition half_open_count (w : World S) : Z := CircuitInner.half_open_calls (breaker w).

(** Operations that leave that count at zero. *)
Definition uncounted {E A} (m : M S E A) : Prop :=
  forall w, half_open_count w = 0 -> half_open_count (m w).2 = 0.

Lemma uncounted_bind {E A B} (m : M S E A) (f : A -> M S E B) :
  uncounted m -> (forall a, uncounted (f a)) -> uncounted (m ≫= f).
Proof.
  intros Hm Hf w Hw. specialize (Hm w Hw). unfold mbind, M_bind.
  destruct (m w) as [[a|e|s] w']; [by apply Hf|done..].
Qed.

Lemma uncounted_try {E E' A} (m : M S E A) : uncounted m -> uncounted (try_ (E':=E') m).
Proof.
  intros Hm w Hw. specialize (Hm w Hw). unfold try_. by destruct (m w) as [[a|e|s] w'].
Qed.

Lemma uncounted_now {E} : uncounted (now (E:=E)).
Proof. intros w Hw. unfold now. by destruct (utc_now (env w)). Qed.

Lemma uncounted_rpc {A} (op : S -> (string + A) * S) : uncounted (rpc op).
Proof. intros w Hw. unfold rpc. by destruct (op (env w)). Qed.

Lemma uncounted_breaker {E A} (f : CircuitInner.t -> A * CircuitInner.t) :
  (forall b, CircuitInner.half_open_calls b = 0 -> CircuitInner.half_open_calls (f b).2 = 0) ->
  uncounted (with_breaker (E:=E) f).
Proof.
  intros Hf w Hw. unfold with_breaker. specialize (Hf _ Hw). by destruct (f (breaker w)).
Qed.

Lemma set_state_half_open t st b :
  CircuitInner.half_open_calls b = 0 -> CircuitInner.half_open_calls (CircuitInner.set_state t st b) = 0.
Proof. by destruct st. Qed.

Ltac head_of t := lazymatch t with ?f _ => head_of f | _ => t end.
Ltac uncounted_tac :=
  repeat lazymatch goal with
  | |- uncounted (mbind _ _) => apply uncounted_bind; [|intros ?]
  | |- uncounted (try_ _) => apply uncounted_try
  | |- uncounted now => apply uncounted_now
  | |- uncounted (rpc _) => apply uncounted_rpc
  | |- uncounted (match ?x with _ => _ end) => destruct x
  | |- uncounted (mret _) => by intros w Hw
  | |- uncounted (throw _) => by intros w Hw
  | |- uncounted (panic _) => by intros w Hw
  | |- uncounted (sleep_for _) => by intros w Hw
  | |- uncounted (with_breaker _) => apply uncounted_breaker; intros b Hb
  | |- uncounted ?m => let h := head_of m in unfold h
  end.

Lemma uncounted_permitted {E} : uncounted (cb_is_call_permitted (E:=E)).
Proof.
  uncounted_tac. unfold CircuitBreaker.is_call_permitted.
  repeat case_match; cbn; try done; by apply set_state_half_open.
Qed.

Lemma uncounted_success {E} : uncounted (cb_record_success (E:=E)).
Proof.
  uncounted_tac. cbn. unfold CircuitBreaker.record_success. cbn.
  repeat case_match; cbn; try done; by apply set_state_half_open.
Qed.

Lemma uncounted_failure {E} : uncounted (cb_record_failure (E:=E)).
Proof.
  uncounted_tac. cbn. unfold CircuitBreaker.record_failure. cbn.
  repeat case_match; cbn; try done; by apply set_state_half_open.
Qed.

Lemma uncounted_retry {A} retry_on maxr base (op : M S TikvError.t A) attempts :
  uncounted op -> uncounted (retry_loop retry_on maxr base op attempts).
Proof.
  intros Hop. induction attempts as [|a rest IH]; cbn [retry_loop]; [by intros w Hw|].
  apply uncounted_bind; [by apply uncounted_try|]. intros [x|e|s]; [by intros w Hw| |by intros w Hw].
  destruct (negb _); [by intros w Hw|]. destruct (a <? maxr); [|by intros w Hw].
  apply uncounted_bind; [by intros w Hw|done].
Qed.

Lemma uncounted_require_permitted : uncounted require_permitted.
Proof.
  apply uncounted_bind; [apply uncounted_permitted|]. intros []; [by intros w Hw|].
  uncounted_tac. done.
Qed.

Lemma uncounted_require_inner c : uncounted (require_inner c).
Proof. uncounted_tac. Qed.

Lemma uncounted_rpc_cb {A} (op : S -> (string + A) * S) : uncounted (rpc_cb op).
Proof.
  apply uncounted_bind; [uncounted_tac|]. intros [a|e|s]; [by intros w Hw| |by intros w Hw].
  apply uncounted_bind; [apply uncounted_failure|by intros _ w Hw].
Qed.

(** The half-open call limit does not apply to the client.  [get], [put] and
    [delete] check the breaker with [is_call_permitted] and never count a probe, so
    starting from a new breaker the count of half-open calls stays zero through
    them, and [half_open_max_calls] (unless it is zero) never rejects one. *)
Theorem client_never_counts_probes c (w : World S) k v :
  half_open_count w = 0 ->
  half_open_count (get c k w).2 = 0 /\ half_open_count (put c k v w).2 = 0 /\
  half_open_count (delete c k w).2 = 0.
Proof.
  intros Hw.
  split; [|split]; (refine (_ w Hw)); unfold get, put, delete, with_retries;
    try apply uncounted_retry; unfold put_once, delete_once;
    repeat (first [apply uncounted_require_permitted | apply uncounted_require_inner
      | apply uncounted_rpc_cb | apply uncounted_success
      | apply uncounted_bind; [|intros ?] | by intros w1 Hw1]).
Qed.

End Properties.

(** ** Witnesses on a concrete cluster *)
Section Witnesses.
Import TikvClient Sim.

Definition sim_client : TikvClient.t := TikvClient.mk TikvConfig.default_unset true.
Definition sim_world (m : gmap string string) (fs : list (option (string * bool))) : World Sim.t :=
  mkWorld (Sim.mk m 0 fs) (CircuitBreaker.new 0).

Lemma sim_client_ok : client_ok sim_client.
Proof. split; [done|]. vm_compute. discriminate. Qed.

Lemma sim_world_ready m : ready (sim_world m []).
Proof. by split. Qed.

(** The first commit is reported as a write conflict after it took effect. *)
Lemma put_effect_witness :
  let w := sim_world ∅ [None; None; Some ("WriteConflict"%string, true)] in
  (put sim_client "k" "v" w).1 = Ok tt /\
  kv (put sim_client "k" "v" w).2 = <["k"%string := "v"%string]> (kv w).
Proof.
  intros w.
  pose proof (put_effect sim_client "k" "v" w _ _ sim_client_ok (surjective_pairing _)) as Hp.
  destruct (put sim_client "k" "v" w) as [[[]|e|s] w'] eqn:E; cbn in Hp |- *;
    [by split|vm_compute in E; discriminate E|done].
Defined.

Lemma checkpoint_round_trip_witness :
  let cod := Wire.codec_of_wire _ (H := CheckpointState.wire) in
  let st := CheckpointState.new 7 "job" "pod" 100 in
  exists w1, update_checkpoint sim_client st (sim_world ∅ []) = (Ok tt, w1) /\
    (get_checkpoint sim_client "job" (mkWorld (env w1) (CircuitBreaker.new 5))).1 = Ok (Some st).
Proof.
  intros cod st.
  pose proof (Wire.lawful_of_wire _ (H := CheckpointState.wire)) as Hlaw.
  destruct (checkpoint_round_trip sim_client sim_client st (sim_world ∅ [])
    sim_client_ok sim_client_ok (sim_world_ready ∅)) as (w1 & E & _ & Hg).
  exists w1. split; [exact E|]. by apply Hg.
Defined.

Lemma cas_one_winner_witness :
  let jv s := if String.eqb s "v2" then Some 2 else Some 1 in
  let w := sim_world {[ "k"%string := "v1"%string ]} [] in
  let w1 := (cas jv sim_client "k" 1 "v2" w).2 in
  (cas jv sim_client "k" 1 "other" (mkWorld (env w1) (CircuitBreaker.new 0))).1 <> Ok true.
Proof.
  intros jv w w1.
  refine (proj1 (cas_one_winner jv sim_client sim_client "k" 1 "v2" "other" w w1
    (CircuitBreaker.new 0) _ _ sim_client_ok sim_client_ok _ _ (surjective_pairing _))).
  - vm_compute. discriminate.
  - apply pair_of_fst. vm_compute. reflexivity.
Defined.

Lemma client_never_counts_probes_witness :
  half_open_count (put sim_client "k" "v"
    (mkWorld (Sim.quiet_world ∅ (secs 100)) (CircuitBreaker.trip 1 (CircuitBreaker.new 0)))).2 = 0.
Proof.
  refine (proj1 (proj2 (client_never_counts_probes sim_client _ "k" "v" _))). reflexivity.
Defined.

End Witnesses.
