(* ===== verification/Locks.v ===== *)
(** * Distributed locks (crates/roboflow-distributed/src/tikv/locks.rs)

    [LockManager] and [LockGuard] over the client's [acquire_lock] and
    [release_lock].  The theorems are about the one record a lock is: who can
    replace it, when, and what a holder can rely on while others interleave. *)
From S2P Require Import Prelude Codec TikvError Circuit Keys Env Effects Schema Client.

(** [Duration] arithmetic: the product by a [u32] panics beyond [Duration::MAX]. *)
Definition duration_mul {E} (d k : Z) : result E Z :=
  if d * k <? secs u64_mod then Ok (d * k) else Panic "overflow when multiplying duration by scalar".

(** [ttl.as_secs().saturating_add(..).try_into().unwrap_or(i64::MAX)]. *)
Definition ttl_secs_of (ttl : Z) : Z :=
  let s := saturating_add64 (as_secs ttl) (if 0 <? subsec_millis ttl then 1 else 0) in
  if s <=? i64_max then s else i64_max.

Module LockManagerConfig.

(** [struct LockManagerConfig]. *)
Record t : Type := mk {
  default_ttl : Z;
  renewal_interval : Z;
  backoff_base_delay : Z;
  max_acquire_attempts : Z
}.

#[global] Instance t_eta : Settable t := fun r =>
  mk (default_ttl r) (renewal_interval r) (backoff_base_delay r) (max_acquire_attempts r).

Definition default : t := mk (secs 300) (secs 120) (millis 50) 20.

Definition with_default_ttl (ttl : Z) (c : t) : t := c <| default_ttl := ttl |>.
Definition with_renewal_interval (interval : Z) (c : t) : t := c <| renewal_interval := interval |>.
Definition with_backoff_delay (delay : Z) (c : t) : t := c <| backoff_base_delay := delay |>.
Definition with_max_acquire_attempts (attempts : Z) (c : t) : t :=
  c <| max_acquire_attempts := attempts |>.

End LockManagerConfig.

Module LockGuard.

(** [struct LockGuard]; [renewing] says whether the renewal task runs. *)
Record t : Type := mk {
  client : TikvClient.t;
  resource : string;
  owner : string;
  ttl_secs : Z;
  released : bool;
  renewing : bool
}.

#[global] Instance t_eta : Settable t := fun r =>
  mk (client r) (resource r) (owner r) (ttl_secs r) (released r) (renewing r).

(** [LockGuard::new]: the renewal task starts when [auto_renew] is set. *)
Definition new (client : TikvClient.t) (resource owner : string) (ttl_secs : Z) (auto_renew : bool) : t := {|
  client := client;
  resource := resource;
  owner := owner;
  ttl_secs := ttl_secs;
  released := false;
  renewing := auto_renew
|}.

Section Ops.
Context {S : Type} `{TransactionClient S} `{Codec LockRecord.t}.
Abbreviation Tikv := (M S TikvError.t).

(** One round of the renewal task after its tick: the guard it leaves, with
    [renewing] cleared where the task's loop breaks. *)
Definition renewal_tick (g : t) : Tikv t :=
  if released g then mret (g <| renewing := false |>)
  else
    renewed ← try_ (TikvClient.acquire_lock (client g) (resource g) (owner g) (ttl_secs g));
    match renewed with
    | Ok true => mret g
    | Ok false => mret (g <| renewing := false |>)
    | Err _ => mret g
    | Panic s => panic s
    end.

(** [LockGuard::is_valid]. *)
Definition is_valid (g : t) : bool := negb (released g).

(** [LockGuard::do_release]. *)
Definition do_release (g : t) : Tikv (bool * t) :=
  let g := g <| renewing := false |> in
  released ← TikvClient.release_lock (client g) (resource g) (owner g);
  mret (released, g).

(** [LockGuard::release]. *)
Definition release (g : t) : Tikv (bool * t) := do_release (g <| released := true |>).

(** [LockGuard::renew]. *)
Definition renew (g : t) : Tikv bool :=
  TikvClient.acquire_lock (client g) (resource g) (owner g) (ttl_secs g).

(** [LockGuard::fencing_token]. *)
Definition fencing_token (g : t) : Tikv (option Z) :=
  data ← TikvClient.get (client g) (LockKeys.lock (resource g));
  match data with
  | Some bytes =>
      lock ← of_sum TikvError.Deserialization (decode (A:=LockRecord.t) bytes);
      if LockRecord.is_owned_by (owner g) lock then
        t ← now;
        if negb (LockRecord.is_expired t lock) then mret (Some (LockRecord.fencing_token lock))
        else mret None
      else mret None
  | None => mret None
  end.

(** [Drop for LockGuard]: the cleanup task it spawns when a runtime is there. *)
Definition drop (runtime : bool) (g : t) : Tikv t :=
  if released g then mret g
  else
    let g := g <| released := true |> <| renewing := false |> in
    if runtime then ignore (TikvClient.release_lock (client g) (resource g) (owner g));; mret g
    else mret g.

End Ops.
End LockGuard.

Module LockManager.

(** [struct LockManager]. *)
Record t : Type := mk {
  client : TikvClient.t;
  owner : string;
  config : LockManagerConfig.t
}.

Definition new (client : TikvClient.t) (owner : string) : t := mk client owner LockManagerConfig.default.
Definition with_config (client : TikvClient.t) (owner : string) (config : LockManagerConfig.t) : t :=
  mk client owner config.

Section Ops.
Context {S : Type} `{TransactionClient S} `{Codec LockRecord.t}.
Abbreviation Tikv := (M S TikvError.t).

(** [LockManager::try_acquire]. *)
Definition try_acquire (m : t) (resource : string) (ttl : Z) : Tikv (option LockGuard.t) :=
  let ttl_secs := ttl_secs_of ttl in
  acquired ← TikvClient.acquire_lock (client m) resource (owner m) ttl_secs;
  if acquired : bool then mret (Some (LockGuard.new (client m) resource (owner m) ttl_secs false))
  else mret None.

Definition try_acquire_default (m : t) (resource : string) : Tikv (option LockGuard.t) :=
  try_acquire m resource (LockManagerConfig.default_ttl (config m)).

(** The loop of [LockManager::acquire_blocking].  [fuel] bounds the rounds;
    [jitter attempt bound] is [fastrand::u64(0..bound)] in that round, and the
    two texts are the [format!]ed messages. *)
Fixpoint acquire_loop (jitter : Z -> Z -> Z) (timeout_msg attempts_msg : string)
  (m : t) (resource : string) (ttl_secs timeout started attempt : Z) (fuel : nat)
  : Tikv LockGuard.t :=
  match fuel with
  | O => panic "out of fuel"
  | Datatypes.S fuel' =>
      t ← now;
      if timeout <=? t - started then throw (TikvError.LockAcquisitionFailed timeout_msg)
      else
        acquired ← TikvClient.acquire_lock (client m) resource (owner m) ttl_secs;
        if acquired : bool
        then mret (LockGuard.new (client m) resource (owner m) ttl_secs false)
        else
          let attempt := u32_add attempt 1 in
          if LockManagerConfig.max_acquire_attempts (config m) <=? attempt
          then throw (TikvError.LockAcquisitionFailed attempts_msg)
          else
            delay ← lift (duration_mul (LockManagerConfig.backoff_base_delay (config m))
                            (as_u32 (2 ^ saturating_sub attempt 1)));
            let delay := Z.min delay (secs 5) in
            let jitter_ms := Z.max (delay / ns_per_ms / 4) 1 in
            sleep_for (delay + millis (jitter attempt jitter_ms));;
            acquire_loop jitter timeout_msg attempts_msg m resource ttl_secs timeout started attempt fuel'
  end.

(** [LockManager::acquire_blocking]; a round that does not end the loop raises
    [attempt], so [max_acquire_attempts] rounds (and at least one) are enough. *)
Definition acquire_blocking (jitter : Z -> Z -> Z) (timeout_msg attempts_msg : string)
  (m : t) (resource : string) (ttl timeout : Z) : Tikv LockGuard.t :=
  started ← now;
  acquire_loop jitter timeout_msg attempts_msg m resource (ttl_secs_of ttl) timeout started 0
    (Datatypes.S (Z.to_nat (LockManagerConfig.max_acquire_attempts (config m)))).

(** [LockManager::acquire_blocking_default]. *)
Definition acquire_blocking_default (jitter : Z -> Z -> Z) (timeout_msg attempts_msg : string)
  (m : t) (resource : string) : Tikv LockGuard.t :=
  acquire_blocking jitter timeout_msg attempts_msg m resource
    (LockManagerConfig.default_ttl (config m)) (secs 30).

(** [LockManager::acquire_with_renewal]. *)
Definition acquire_with_renewal (busy_msg : string) (m : t) (resource : string) (ttl : Z)
  : Tikv LockGuard.t :=
  let ttl_secs := ttl_secs_of ttl in
  acquired ← TikvClient.acquire_lock (client m) resource (owner m) ttl_secs;
  if negb acquired then throw (TikvError.LockAcquisitionFailed busy_msg)
  else mret (LockGuard.new (client m) resource (owner m) ttl_secs true).

(** [LockManager::acquire_with_renewal_default]. *)
Definition acquire_with_renewal_default (busy_msg : string) (m : t) (resource : string) : Tikv LockGuard.t :=
  acquire_with_renewal busy_msg m resource (LockManagerConfig.default_ttl (config m)).

(** [LockManager::is_locked]. *)
Definition is_locked (m : t) (resource : string) : Tikv bool :=
  data ← TikvClient.get (client m) (LockKeys.lock resource);
  match data with
  | Some bytes =>
      lock ← of_sum TikvError.Deserialization (decode (A:=LockRecord.t) bytes);
      t ← now; mret (negb (LockRecord.is_expired t lock))
  | None => mret false
  end.

(** [LockManager::get_owner]. *)
Definition get_owner (m : t) (resource : string) : Tikv (option string) :=
  data ← TikvClient.get (client m) (LockKeys.lock resource);
  match data with
  | Some bytes =>
      lock ← of_sum TikvError.Deserialization (decode (A:=LockRecord.t) bytes);
      t ← now;
      if LockRecord.is_expired t lock then mret None else mret (Some (LockRecord.owner lock))
  | None => mret None
  end.

(** [LockManager::is_expired]. *)
Definition is_expired (m : t) (resource : string) : Tikv bool :=
  data ← TikvClient.get (client m) (LockKeys.lock resource);
  match data with
  | Some bytes =>
      lock ← of_sum TikvError.Deserialization (decode (A:=LockRecord.t) bytes);
      t ← now; mret (LockRecord.is_expired t lock)
  | None => mret false
  end.

(** [LockManager::release]. *)
Definition release (m : t) (resource : string) : Tikv bool :=
  TikvClient.release_lock (client m) resource (owner m).

(** [LockManager::renew]. *)
Definition renew (m : t) (resource : string) (ttl : Z) : Tikv bool :=
  TikvClient.acquire_lock (client m) resource (owner m) (ttl_secs_of ttl).

(** [LockManager::steal]. *)
Definition steal (m : t) (resource : string) (ttl : Z) : Tikv bool :=
  data ← TikvClient.get (client m) (LockKeys.lock resource);
  can_steal ← match data with
    | Some bytes =>
        lock ← of_sum TikvError.Deserialization (decode (A:=LockRecord.t) bytes);
        t ← now; mret (LockRecord.is_expired t lock)
    | None => mret true
    end;
  if can_steal : bool
  then TikvClient.acquire_lock (client m) resource (owner m) (ttl_secs_of ttl)
  else mret false.

End Ops.
End LockManager.

(** ** What acquiring and releasing do to the lock's record *)
Section Specs.
Import TikvClient.
Context {S : Type} `{TransactionClientLaws S} `{!HealthyRuns S} `{LawfulCodec LockRecord.t}.
Context (c : TikvClient.t) (Hc : client_ok c) (res o : string).

Local Abbreviation key := (LockKeys.lock res).

(** The stored lock, if the key is there and its bytes decode. *)
Definition lock_in (res : string) (m : gmap string string) : option LockRecord.t :=
  match m !! LockKeys.lock res with
  | Some b => match decode b with inr l => Some l | inl _ => None end
  | None => None
  end.

Definition corrupt (w : World S) : Prop := exists b e, kv w !! key = Some b /\ decode (A:=LockRecord.t) b = inl e.

(** [o] may take the lock at time [t]: it is free, its own, or expired. *)
Definition available (t : Z) (w : World S) : Prop :=
  kv w !! key = None \/
  exists l, lock_in res (kv w) = Some l /\ (LockRecord.owner l = o \/ LockRecord.expires_at l < t).

(** The version of the record [acquire_lock_once] writes. *)
Definition next_version (w : World S) : Z :=
  match lock_in res (kv w) with
  | Some l => if LockRecord.is_owned_by o l then u64_add (LockRecord.version l) 1 else 1
  | None => 1
  end.

(** [w'] is [w] with the lock's record replaced by one of [o] that expires [ttl]
    seconds after a time of the call. *)
Definition grabbed (ttl : Z) (w w' : World S) : Prop :=
  exists l b t,
    encode l = inr b /\ kv w' = <[key := b]> (kv w) /\ LockRecord.owner l = o /\
    LockRecord.expires_at l = t + secs ttl /\ clock (env w) <= t <= clock (env w') /\
    available t w /\ (ready w -> LockRecord.version l = next_version w).

(** The record is another owner's and has not expired. *)
Definition busy (w : World S) : Prop :=
  exists l, lock_in res (kv w) = Some l /\ LockRecord.owner l <> o /\ clock (env w) <= LockRecord.expires_at l.

Lemma wp_finish {A} txn (body : M S TikvError.t (A * Txn)) (Q : result TikvError.t A -> World S -> Prop) w :
  wp body (fun r w1 => match r with
    | Ok (a, t) =>
        (forall w', later w1 w' -> kv w' = apply_writes (buffered t) (kv w1) -> Q (Ok a) w') /\
        (forall e w', later w1 w' -> ~ ready w1 ->
           kv w' = apply_writes (buffered t) (kv w1) \/ kv w' = kv w1 -> Q (Err e) w')
    | Err e => forall w', calm w1 w' -> Q (Err e) w'
    | Panic s => Q (Panic s) w1
    end) w ->
  wp (finish txn body) Q w.
Proof.
  intros Hb. unfold finish. wp_step. wp_step. eapply wp_mono; [exact Hb|].
  intros [[a t]|e|s] w1 HQ; [destruct HQ as [HOk HErr]| |exact HQ]; repeat wp_step; auto; try done.
Qed.

Lemma grabbed_intro ttl (w w1 w2 : World S) txn l b t :
  encode l = inr b -> buffered txn = [(key, Some b)] -> calm w w1 -> later w1 w2 ->
  kv w2 = apply_writes (buffered txn) (kv w1) ->
  LockRecord.owner l = o -> LockRecord.expires_at l = t + secs ttl ->
  clock (env w) <= t <= clock (env w1) -> available t w ->
  LockRecord.version l = next_version w -> grabbed ttl w w2.
Proof.
  intros Hb Ht Hc1 Hl Hkv Ho He Hclk Ha Hv. exists l, b, t.
  world_facts. buffers_norm. split; [done|]. split; [congruence|]. split; [done|]. split; [done|]. split; [lia|auto].
Qed.

(** The body's last steps: the record [l] is buffered and will be committed. *)
Lemma wp_write_lock ttl (w w1 : World S) txn l t (Q : result TikvError.t bool -> World S -> Prop) :
  (forall w', later w w' -> grabbed ttl w w' -> Q (Ok true) w') ->
  (forall e w', later w w' -> ~ ready w -> kv w' = kv w \/ grabbed ttl w w' -> Q (Err e) w') ->
  buffered txn = [] -> calm w w1 -> LockRecord.owner l = o ->
  LockRecord.expires_at l = t + secs ttl -> clock (env w) <= t <= clock (env w1) ->
  available t w -> LockRecord.version l = next_version w ->
  wp (data ← of_sum TikvError.Serialization (encode l);
      txn ← rpc (txn_put txn key data); mret (true, txn))
    (fun r w1 => match r with
      | Ok (a, t) =>
          (forall w', later w1 w' -> kv w' = apply_writes (buffered t) (kv w1) -> Q (Ok a) w') /\
          (forall e w', later w1 w' -> ~ ready w1 ->
             kv w' = apply_writes (buffered t) (kv w1) \/ kv w' = kv w1 -> Q (Err e) w')
      | Err e => forall w', calm w1 w' -> Q (Err e) w'
      | Panic s => Q (Panic s) w1
      end) w1.
Proof.
  intros HOk HErr Hb0 Hcalm Ho He Hclk Ha Hv. destruct (encode_total l) as [b Hb].
  do 2 wp_step. rewrite Hb.
  assert (forall txn' w2 w3, calm w1 w2 -> buffered txn' = buffered txn ++ [(key, Some b)] -> later w2 w3 ->
    kv w3 = apply_writes (buffered txn') (kv w2) -> grabbed ttl w w3) as Hg.
  { intros txn' w2 w3 Hc2 Hbuf Hl3 Hk3. rewrite Hb0 in Hbuf.
    apply (grabbed_intro ttl w w2 w3 txn' l b t); try done; [world|world_facts; lia]. }
  repeat wp_step.
  - split.
    + intros w3 Hl3 Hk3. apply HOk; [world|by eapply Hg].
    + intros e w3 Hl3 Hn3 [Hk3|Hk3]; (apply HErr; [world|world|]);
        [right; by eapply Hg|left; kv_eq].
  - intros w3 Hc3. apply HErr; [world|world|left; kv_eq].
Qed.

(** One attempt: the lock was available and is now [o]'s, or it is busy and
    nothing changed; an error comes from a fault or a corrupt record. *)
Lemma wp_acquire_lock_once ttl (Q : result TikvError.t bool -> World S -> Prop) w :
  (forall w', later w w' -> grabbed ttl w w' -> Q (Ok true) w') ->
  (busy w -> forall w', calm w w' -> Q (Ok false) w') ->
  (forall e w', later w w' -> ~ ready w \/ corrupt w -> kv w' = kv w \/ grabbed ttl w w' -> Q (Err e) w') ->
  wp (acquire_lock_once c res o ttl) Q w.
Proof.
  intros HOk Hbusy HErr. destruct Hc as [Hi _]. unfold acquire_lock_once.
  wp_step. apply wp_require_inner; [done|]. wp_step. wp_step; [|apply HErr; [world|left; world|left; kv_eq]].
  apply wp_finish. wp_step. wp_step; [|intros; apply HErr; [world|left; world|left; kv_eq]].
  match goal with |- context [apply_writes (buffered ?t) (committed (env ?w1)) !! key] =>
    replace (apply_writes (buffered t) (committed (env w1)) !! key) with (kv w !! key) by read_eq end.
  assert (forall e w', later w w' -> ~ ready w -> kv w' = kv w \/ grabbed ttl w w' -> Q (Err e) w')
    as HErr' by auto.
  destruct (kv w !! key) as [data|] eqn:Ek.
  - do 2 wp_step. destruct (decode data) as [err|l] eqn:Ed.
    { intros w2 Hc2. apply HErr; [world|right; by exists data, err|left; kv_eq]. }
    assert (lock_in res (kv w) = Some l) as Hin by (unfold lock_in; by rewrite Ek, Ed).
    destruct (LockRecord.is_owned_by o l) eqn:Eo.
    + do 2 wp_step. eapply wp_write_lock; try done; [world|by apply bool_decide_eq_true in Eo|world_facts; lia| |].
      * right. exists l. split; [done|]. left. by apply bool_decide_eq_true in Eo.
      * unfold next_version. by rewrite Hin, Eo.
    + apply bool_decide_eq_false in Eo. do 2 wp_step.
      match goal with |- context [LockRecord.is_expired ?t1 l] => destruct (LockRecord.is_expired t1 l) eqn:Ex end; cbn [negb].
      * do 2 wp_step. apply Z.ltb_lt in Ex.
        eapply wp_write_lock; try done; [world|world_facts; lia| |].
        -- right. exists l. split; [done|]. right. world_facts. lia.
        -- unfold next_version. rewrite Hin. unfold LockRecord.is_owned_by. by rewrite bool_decide_false.
      * apply Z.ltb_ge in Ex. wp_step. split; [intros w2 Hl2 Hk2|intros e w2 Hl2 Hn2 Hk2].
        -- apply Hbusy; [exists l; split; [done|split; [done|world_facts; lia]]|].
           split; [kv_eq|world].
        -- apply HErr; [world|left; world|left]. destruct Hk2; kv_eq.
  - do 2 wp_step. eapply wp_write_lock; try done; [world|world_facts; lia|by left|].
    unfold next_version, lock_in. by rewrite Ek.
Qed.

Lemma grabbed_not_corrupt ttl w w' : grabbed ttl w w' -> ~ corrupt w.
Proof.
  intros (l & b & t & _ & _ & _ & _ & _ & Ha & _) (b' & e & Hk & Hd).
  destruct Ha as [Hn|(l' & Hl & _)]; [congruence|]. unfold lock_in in Hl. by rewrite Hk, Hd in Hl.
Qed.

Lemma grabbed_lock_in ttl w w' : grabbed ttl w w' ->
  exists l, lock_in res (kv w') = Some l /\ LockRecord.owner l = o.
Proof.
  intros (l & b & t & Hb & Hk & Ho & _). exists l. split; [|done].
  unfold lock_in. by rewrite Hk, lookup_insert_eq, (decode_encode _ _ Hb).
Qed.

(** Facts about the lock's record depend on the store and the clock only. *)
Lemma grabbed_same_kv ttl w w1 w2 :
  kv w1 = kv w -> later w w1 -> grabbed ttl w1 w2 -> (ready w -> ready w1) -> grabbed ttl w w2.
Proof.
  intros E Hl (l & b & t & Hb & Hk & Ho & He & Hclk & Ha & Hv) Hr. exists l, b, t.
  rewrite E in Hk. unfold available, next_version in *. rewrite E in Ha, Hv.
  world_facts. repeat split; try done; [lia..|auto].
Qed.

(** A second grab over the first: a retry after a commit that was reported as
    failed but took effect. *)
Lemma grabbed_again ttl w w1 w2 :
  grabbed ttl w w1 -> ~ ready w -> later w w1 -> grabbed ttl w1 w2 -> later w1 w2 -> grabbed ttl w w2.
Proof.
  intros (l & b & t & Hb & Hk & Ho & He & Hclk & Ha & Hv) Hn Hl
    (l2 & b2 & t2 & Hb2 & Hk2 & Ho2 & He2 & Hclk2 & Ha2 & Hv2) Hl2.
  exists l2, b2, t2. rewrite Hk2, Hk, insert_insert_eq. world_facts.
  repeat split; try done; try lia.
  destruct Ha as [Ha|(l' & Hin & Hor)]; [by left|right; exists l'; split; [done|]].
  destruct Hor; [by left|right; lia].
Qed.

(** [acquire_lock], with its retries. *)
Lemma wp_acquire_lock ttl (Q : result TikvError.t bool -> World S -> Prop) w :
  (forall w', later w w' -> grabbed ttl w w' -> Q (Ok true) w') ->
  (busy w -> forall w', calm w w' -> Q (Ok false) w') ->
  (forall e w', later w w' -> ~ ready w \/ corrupt w -> kv w' = kv w \/ grabbed ttl w w' -> Q (Err e) w') ->
  wp (acquire_lock c res o ttl) Q w.
Proof.
  intros HOk Hbusy HErr. pose proof Hc as [Hi Hr].
  apply (wp_with_retries c Hr _ _ _
    (fun w1 => later w w1 /\ (kv w1 = kv w \/ (grabbed ttl w w1 /\ ~ ready w)))).
  - intros w1 w2 [Hl Hg] Hcalm. split; [world|]. destruct Hg as [Hg|[Hg Hn]]; [left; kv_eq|right].
    split; [|done]. destruct Hg as (l & b & t & ? & ? & ? & ? & ? & ? & ?). exists l, b, t.
    destruct Hcalm as [-> [? _]]. repeat split; try done; lia.
  - intros w1 [Hl Hg]. destruct Hg as [Hg|[Hg Hn]].
    + apply wp_acquire_lock_once.
      * intros w' Hl' Hg'. apply HOk; [world|]. eapply grabbed_same_kv; [done..|]. intros. world.
      * intros Hb w' Hcalm. apply Hbusy; [|split; [kv_eq|world]]. destruct Hb as (l & Hin & Ho & He).
        exists l. rewrite Hg in Hin. world_facts. repeat split; try done; lia.
      * intros e w' Hl' Hc' Hk'.
        assert (~ ready w \/ corrupt w) as Hc2.
        { destruct Hc' as [?|(b & err & Hk & Hd)]; [left; world|right; exists b, err].
          rewrite Hg in Hk. done. }
        assert (kv w' = kv w \/ grabbed ttl w w') as Hk2.
        { destruct Hk' as [Hk'|Hk']; [left; kv_eq|right]. eapply grabbed_same_kv; [done..|]. intros. world. }
        split; [split; [world|]|apply HErr; [world|done|done]].
        destruct Hk2 as [?|Hgr]; [by left|right; split; [done|]].
        destruct Hc2 as [?|Hcor]; [done|]. by destruct (grabbed_not_corrupt _ _ _ Hgr).
    + destruct (grabbed_lock_in _ _ _ Hg) as (l & Hin & Ho). apply wp_acquire_lock_once.
      * intros w' Hl' Hg'. apply HOk; [world|]. by eapply grabbed_again.
      * intros (l' & Hin' & Ho' & _). congruence.
      * intros e w' Hl' Hc' Hk'.
        assert (grabbed ttl w w') as Hg2.
        { destruct Hk' as [Hk'|Hk']; [|by eapply grabbed_again].
          destruct Hg as (l1 & b & t & ? & Hk & ? & ? & ? & ? & ?). exists l1, b, t.
          rewrite Hk', Hk. world_facts. repeat split; try done; lia. }
        split; [split; [world|by right]|]. apply HErr; [world|by left|by right].
  - split; [reflexivity|by left].
Qed.

(** [o] holds the record, expired or not. *)
Definition owns (w : World S) : Prop :=
  exists l, lock_in res (kv w) = Some l /\ LockRecord.owner l = o.

(** The store without the lock's record, which was [o]'s. *)
Definition released_from (w w' : World S) : Prop := owns w /\ kv w' = base.delete key (kv w).

Lemma wp_release_lock_once (Q : result TikvError.t bool -> World S -> Prop) w :
  (forall w', later w w' -> released_from w w' -> Q (Ok true) w') ->
  (~ owns w -> forall w', calm w w' -> Q (Ok false) w') ->
  (forall e w', later w w' -> ~ ready w \/ corrupt w -> kv w' = kv w \/ released_from w w' -> Q (Err e) w') ->
  wp (release_lock_once c res o) Q w.
Proof.
  intros HOk Hno HErr. destruct Hc as [Hi _].
  assert (forall txn w1 w2, calm w w1 -> later w1 w2 -> buffered txn = [] -> ~ owns w ->
    (kv w2 = apply_writes (buffered txn) (kv w1) -> Q (Ok false) w2)) as Hnot.
  { intros txn w1 w2 Hc1 Hl2 Hb Hn Hk2. apply Hno; [done|]. split; [kv_eq|world]. }
  unfold release_lock_once.
  wp_step. apply wp_require_inner; [done|]. wp_step. wp_step; [|apply HErr; [world|left; world|left; kv_eq]].
  apply wp_finish. wp_step. wp_step; [|intros; apply HErr; [world|left; world|left; kv_eq]].
  match goal with |- context [apply_writes (buffered ?t) (committed (env ?w1)) !! key] =>
    replace (apply_writes (buffered t) (committed (env w1)) !! key) with (kv w !! key) by read_eq end.
  destruct (kv w !! key) as [data|] eqn:Ek.
  - do 2 wp_step. destruct (decode data) as [err|l] eqn:Ed.
    { intros w2 Hc2. apply HErr; [world|right; by exists data, err|left; kv_eq]. }
    assert (lock_in res (kv w) = Some l) as Hin by (unfold lock_in; by rewrite Ek, Ed).
    destruct (LockRecord.is_owned_by o l) eqn:Eo; [apply bool_decide_eq_true in Eo|apply bool_decide_eq_false in Eo].
    + assert (owns w) as How by (by exists l). repeat wp_step.
      * split; [intros w2 Hl2 Hk2; apply HOk; [world|split; [done|kv_eq]]|].
        intros e w2 Hl2 Hn2 Hk2. apply HErr; [world|left; world|].
        destruct Hk2; [right; split; [done|kv_eq]|left; kv_eq].
      * intros w2 Hc2. apply HErr; [world|left; world|left; kv_eq].
    + assert (~ owns w) as How by (intros (l' & Hin' & Ho'); congruence). wp_step. split.
      * intros w2 Hl2 Hk2. eapply Hnot; [|exact Hl2|done|done|exact Hk2]; world.
      * intros e w2 Hl2 Hn2 Hk2. apply HErr; [world|left; world|left]. destruct Hk2; kv_eq.
  - assert (~ owns w) as How.
    { intros (l' & Hin' & _). unfold lock_in in Hin'. by rewrite Ek in Hin'. }
    wp_step. split.
    + intros w2 Hl2 Hk2. eapply Hnot; [|exact Hl2|done|done|exact Hk2]; world.
    + intros e w2 Hl2 Hn2 Hk2. apply HErr; [world|left; world|left]. destruct Hk2; kv_eq.
Qed.

Lemma released_not_corrupt w w' : released_from w w' -> ~ corrupt w.
Proof.
  intros [(l & Hl & _) _] (b & e & Hk & Hd). unfold lock_in in Hl. by rewrite Hk, Hd in Hl.
Qed.

(** [release_lock]: a retry after a commit that was reported as failed finds the
    record gone and answers [false]. *)
Lemma wp_release_lock (Q : result TikvError.t bool -> World S -> Prop) w :
  (forall w', later w w' -> released_from w w' -> Q (Ok true) w') ->
  (~ owns w -> forall w', calm w w' -> Q (Ok false) w') ->
  (forall r w', later w w' -> ~ ready w \/ corrupt w -> kv w' = kv w \/ released_from w w' ->
     match r with Ok b => b = false /\ released_from w w' | Err _ => True | Panic _ => False end -> Q r w') ->
  wp (release_lock c res o) Q w.
Proof.
  intros HOk Hno Helse. pose proof Hc as [Hi Hr].
  apply (wp_with_retries c Hr _ _ _
    (fun w1 => later w w1 /\ (kv w1 = kv w \/ (released_from w w1 /\ ~ ready w)))).
  - intros w1 w2 [Hl Hg] Hcalm. split; [world|]. destruct Hg as [Hg|[[Hg Hk] Hn]]; [left; kv_eq|right].
    split; [split; [done|kv_eq]|done].
  - intros w1 [Hl [Hg|[[Hg Hk] Hn]]]; apply wp_release_lock_once.
    + intros w' Hl' [How Hk']. apply HOk; [world|]. unfold released_from, owns in *.
      rewrite Hg in How. split; [done|kv_eq].
    + intros How w' Hcalm. unfold owns in *. rewrite Hg in How. apply Hno; [done|]. split; [kv_eq|world].
    + intros e w' Hl' Hc' Hk'.
      assert (~ ready w \/ corrupt w) as Hc2.
      { destruct Hc' as [?|(b & err & Hk & Hd)]; [left; world|right; exists b, err].
        rewrite Hg in Hk. done. }
      assert (kv w' = kv w \/ released_from w w') as Hk2.
      { unfold released_from, owns in *. rewrite Hg in Hk'. done. }
      split; [split; [world|]|apply Helse; [world|done|done|done]].
      destruct Hk2 as [?|Hrl]; [by left|right; split; [done|]].
      destruct Hc2 as [?|Hcor]; [done|]. by destruct (released_not_corrupt _ _ Hrl).
    + intros w' Hl' [(l & Hin & _) _]. exfalso. unfold lock_in in Hin.
      by rewrite Hk, lookup_delete_eq in Hin.
    + intros _ w' Hcalm. apply Helse; [world|by left| |]; [right|split; [done|]];
        (split; [done|kv_eq]).
    + intros e w' Hl' Hc' Hk'.
      assert (released_from w w') as Hrl.
      { split; [done|]. destruct Hk' as [Hk'|[(l & Hin & _) _]]; [kv_eq|exfalso].
        unfold lock_in in Hin. by rewrite Hk, lookup_delete_eq in Hin. }
      split; [split; [world|by right]|]. apply Helse; [world|by left|by right|done].
  - split; [reflexivity|by left].
Qed.

End Specs.

(** ** Locks under interleaving *)
Section Exclusion.
Import TikvClient.
Context {S : Type} `{TransactionClientLaws S} `{!HealthyRuns S} `{LawfulCodec LockRecord.t}.
Context (res : string).

(** What a step of the system does to the lock. *)
Inductive lock_event : Type :=
| EAcquire (o : string) (r : result TikvError.t bool)
| ERelease (o : string) (r : result TikvError.t bool)
| EOther.

(** The owner a step acts for. *)
Definition acts_for (o : string) (e : lock_event) : Prop :=
  match e with EAcquire o' _ | ERelease o' _ => o' = o | EOther => False end.

(** A step: some client, with its own breaker, runs a whole [acquire_lock] or
    [release_lock], or something happens that leaves the lock's record alone. *)
Inductive lock_step : S -> lock_event -> S -> Prop :=
| step_acquire c b s o ttl r w' :
    client_ok c -> acquire_lock c res o ttl (mkWorld s b) = (r, w') ->
    lock_step s (EAcquire o r) (env w')
| step_release c b s o r w' :
    client_ok c -> release_lock c res o (mkWorld s b) = (r, w') ->
    lock_step s (ERelease o r) (env w')
| step_other s s' :
    committed s' !! LockKeys.lock res = committed s !! LockKeys.lock res -> clock s <= clock s' ->
    lock_step s EOther s'.

Inductive lock_steps : S -> list lock_event -> S -> Prop :=
| steps_nil s : lock_steps s [] s
| steps_cons s e s1 es s2 : lock_step s e s1 -> lock_steps s1 es s2 -> lock_steps s (e :: es) s2.

Lemma lock_step_clock s e s' : lock_step s e s' -> clock s <= clock s'.
Proof.
  intros Hs. destruct Hs as [c b s o ttl r w' Hc E|c b s o r w' Hc E|s s' _ Hclk]; [| |done].
  - change (clock (env (mkWorld s b)) <= clock (env w')). wp_run E.
    apply wp_acquire_lock; [done| | |]; intros; world_facts; done.
  - change (clock (env (mkWorld s b)) <= clock (env w')). wp_run E.
    apply wp_release_lock; [done| | |]; intros; world_facts; done.
Qed.

Lemma lock_steps_clock s es s' : lock_steps s es s' -> clock s <= clock s'.
Proof. induction 1 as [|s e s1 es s2 Hs _ IH]; [done|]. apply lock_step_clock in Hs. lia. Qed.

Lemma lock_in_update (l : LockRecord.t) b (m : gmap string string) :
  m !! LockKeys.lock res = Some b -> decode b = inr l -> lock_in res m = Some l.
Proof. intros Hb Hd. unfold lock_in. by rewrite Hb, Hd. Qed.

(** A step of another owner that ends before [l] expires. *)
Lemma lock_step_excluded s e s' b l :
  lock_step s e s' -> committed s !! LockKeys.lock res = Some b -> decode b = inr l ->
  ~ acts_for (LockRecord.owner l) e -> clock s' <= LockRecord.expires_at l ->
  committed s' !! LockKeys.lock res = Some b /\
  (forall o, e <> EAcquire o (Ok true)) /\ (forall o, e <> ERelease o (Ok true)).
Proof.
  intros Hs Hb Hd Ho Hexp. pose proof (lock_in_update _ _ _ Hb Hd) as Hin.
  destruct Hs as [c br s o ttl r w' Hc E|c br s o r w' Hc E|s s' Hk _]; [| |by rewrite Hk].
  - assert (forall w' : World S, grabbed res o ttl (mkWorld s br) w' ->
      clock (env w') <= LockRecord.expires_at l -> False) as Hng.
    { intros w1 (l1 & b1 & t & _ & _ & _ & _ & Hclk & Ha & _) He.
      destruct Ha as [Hn|(l2 & Hin2 & Hor)]; unfold kv in *; cbn in *; [congruence|].
      assert (l2 = l) as -> by congruence. destruct Hor; [by apply Ho|lia]. }
    change (clock (env w') <= LockRecord.expires_at l) in Hexp.
    assert (kv w' = kv (mkWorld s br) /\ r <> Ok true) as [Hk Hr].
    { revert Hexp. wp_run E. apply wp_acquire_lock; [done| | |].
      - intros w1 _ Hg He. by destruct (Hng w1).
      - intros _ w1 [Hk _] _. done.
      - intros e w1 _ _ [Hk|Hg] He; [done|by destruct (Hng w1)]. }
    unfold kv in Hk. rewrite Hk. naive_solver.
  - assert (forall w' : World S, released_from res o (mkWorld s br) w' -> False) as Hnr.
    { intros w1 [(l2 & Hin2 & Ho2) _]. unfold kv in Hin2. cbn in Hin2.
      assert (l2 = l) as -> by congruence. by apply Ho. }
    assert (kv w' = kv (mkWorld s br) /\ r <> Ok true) as [Hk Hr].
    { clear Hexp. wp_run E. apply wp_release_lock; [done| | |].
      - intros w1 _ Hg. by destruct (Hnr w1).
      - intros _ w1 [Hk _]. done.
      - intros r1 w1 _ _ [Hk|Hg] Hr1; [|by destruct (Hnr w1)]. split; [done|].
        intros ->. by destruct Hr1. }
    unfold kv in Hk. rewrite Hk. naive_solver.
Qed.

Lemma lock_steps_excluded s es s' b l :
  lock_steps s es s' -> committed s !! LockKeys.lock res = Some b -> decode b = inr l ->
  Forall (fun e => ~ acts_for (LockRecord.owner l) e) es -> clock s' <= LockRecord.expires_at l ->
  committed s' !! LockKeys.lock res = Some b /\
  Forall (fun e => (forall o, e <> EAcquire o (Ok true)) /\ (forall o, e <> ERelease o (Ok true))) es.
Proof.
  intros Hs. induction Hs as [|s e s1 es s2 Hs Hss IH]; intros Hb Hd Ho Hexp; [by split|].
  inversion_clear Ho. pose proof (lock_steps_clock _ _ _ Hss).
  destruct (lock_step_excluded s e s1 b l) as [Hb1 He]; [done..|lia|].
  destruct (IH Hb1) as [Hb2 Hes]; [done..|]. split; [done|]. by constructor.
Qed.

(** Rounding a TTL to seconds never shortens it, and adds less than a second. *)
Lemma ttl_secs_of_bounds ttl :
  0 <= ttl -> ttl < secs i64_max -> ttl mod ns_per_ms = 0 ->
  ttl <= secs (ttl_secs_of ttl) < ttl + secs 1.
Proof.
  intros H0' Hmax Hms. unfold ttl_secs_of, saturating_add64, as_secs, subsec_millis, secs in *.
  set (q := ttl / ns_per_s). set (r := ttl mod ns_per_s).
  assert (ttl = ns_per_s * q + r) as Ettl by (apply Z.div_mod; discriminate).
  assert (0 <= r < ns_per_s) as Hr by (apply Z.mod_pos_bound; reflexivity).
  assert (r = ns_per_ms * (r / ns_per_ms)) as Er.
  { apply Z_div_exact_full_2; [discriminate|].
    replace r with (ns_per_ms * (ttl / ns_per_ms - 1000 * q)); [by rewrite Z.mul_comm, Z_mod_mult|].
    apply Z_div_exact_full_2 in Hms; [|discriminate]. unfold ns_per_s, ns_per_ms in *. lia. }
  assert (0 <= q < i64_max) as Hq.
  { split; [by apply Z.div_pos|]. apply Z.div_lt_upper_bound; [reflexivity|]. lia. }
  assert (i64_max < u64_max) by reflexivity.
  destruct (Z.ltb_spec 0 (r / ns_per_ms)); rewrite Z.min_r by lia;
    (match goal with |- context [?x <=? i64_max] => destruct (Z.leb_spec x i64_max) end); unfold ns_per_s, ns_per_ms in *; lia.
Qed.

Lemma try_acquire_grabbed (m : LockManager.t) ttl (w : World S) g w1 :
  client_ok (LockManager.client m) -> LockManager.try_acquire m res ttl w = (Ok (Some g), w1) ->
  later w w1 /\ grabbed res (LockManager.owner m) (ttl_secs_of ttl) w w1.
Proof.
  intros Hc E. wp_run_eq E. unfold LockManager.try_acquire. wp_step.
  apply wp_acquire_lock; [done|..]; intros; [by wp_step|by wp_step|done].
Qed.

(** C2: a lock has one holder.  When [try_acquire] with a TTL of whole
    milliseconds has returned a guard, then through every interleaving of whole
    lock operations of other owners and clients, healthy or failing, that ends
    within the TTL (counted from before the call), the record is still the
    holder's, and no other owner acquired or released the lock. *)
Theorem lock_mutual_exclusion (m : LockManager.t) ttl (w : World S) g w1 es s' :
  client_ok (LockManager.client m) -> 0 <= ttl < secs i64_max -> ttl mod ns_per_ms = 0 ->
  LockManager.try_acquire m res ttl w = (Ok (Some g), w1) ->
  lock_steps (env w1) es s' -> Forall (fun e => ~ acts_for (LockManager.owner m) e) es ->
  clock s' <= clock (env w) + ttl ->
  (exists l, lock_in res (committed s') = Some l /\ LockRecord.owner l = LockManager.owner m /\
             LockRecord.is_expired (clock s') l = false) /\
  Forall (fun e => (forall o, e <> EAcquire o (Ok true)) /\ (forall o, e <> ERelease o (Ok true))) es.
Proof.
  intros Hc Httl Hms E Hs Ho Hclk.
  destruct (try_acquire_grabbed m ttl w g w1 Hc E) as [Hl (l & b & t & Hb & Hk & Hol & He & Ht & _)].
  pose proof (ttl_secs_of_bounds ttl ltac:(lia) ltac:(lia) Hms) as Hb2.
  assert (committed (env w1) !! LockKeys.lock res = Some b) as Hb1.
  { unfold kv in Hk. by rewrite Hk, lookup_insert_eq. }
  pose proof (decode_encode _ _ Hb) as Hd. rewrite <- Hol in Ho |- *.
  destruct (lock_steps_excluded (env w1) es s' b l) as [Hb' Hes]; [done..|lia|].
  split; [|done]. exists l. split; [by eapply lock_in_update|]. split; [done|].
  apply Z.ltb_ge. lia.
Qed.

(** Only the owner releases.  A [release_lock] by anyone but the owner of the
    record does not change the store, whatever the cluster answers, and never
    reports success; with every call answered it returns [false]. *)
Theorem release_needs_ownership c o (w : World S) l r w' :
  client_ok c -> lock_in res (kv w) = Some l -> LockRecord.owner l <> o ->
  release_lock c res o w = (r, w') ->
  kv w' = kv w /\ r <> Ok true /\ (ready w -> r = Ok false).
Proof.
  intros Hc Hin Ho E.
  assert (~ owns res o w) as Hno by (intros (l' & Hin' & ?); congruence).
  wp_run E. apply wp_release_lock; [done| | |].
  - intros w1 _ [? _]. done.
  - intros _ w1 [Hk _]. done.
  - intros r1 w1 _ Hc1 [Hk|[? _]] Hr; [|done]. split; [done|]. split.
    + intros ->. by destruct Hr.
    + intros Hw. destruct Hc1 as [|(b & e & Hb & Hd)]; [done|]. unfold lock_in in Hin.
      by rewrite Hb, Hd in Hin.
Qed.

(** Acquisition is decided by the record.  With every call answered and the
    record readable, [acquire_lock] returns [true] and stores the caller's record
    when the lock is free, its own or expired before the call, and [false] without
    a change when another owner's record does not expire before the call ends. *)
Theorem acquire_lock_decided c o ttl (w : World S) r w' :
  client_ok c -> ready w -> ~ corrupt res w -> acquire_lock c res o ttl w = (r, w') ->
  (available res o (clock (env w)) w -> r = Ok true /\ grabbed res o ttl w w') /\
  ((exists l, lock_in res (kv w) = Some l /\ LockRecord.owner l <> o /\
      clock (env w') <= LockRecord.expires_at l) -> r = Ok false /\ kv w' = kv w).
Proof.
  intros Hc Hw Hcor E. wp_run E. apply wp_acquire_lock; [done| | |].
  - intros w1 Hl Hg. split; [done|]. intros (l & Hin & Ho & He). exfalso.
    destruct Hg as (l1 & b & t & _ & _ & _ & _ & Ht & Ha & _).
    destruct Ha as [Hn|(l2 & Hin2 & Hor)]; [unfold lock_in in Hin; by rewrite Hn in Hin|].
    assert (l2 = l) as -> by congruence. destruct Hor; [done|lia].
  - intros (l & Hin & Ho & He) w1 [Hk _]. split; [|done]. intros [Hn|(l2 & Hin2 & Hor)]; exfalso.
    + unfold lock_in in Hin. by rewrite Hn in Hin.
    + assert (l2 = l) as -> by congruence. destruct Hor; [done|lia].
  - intros e w1 _ [?|?]; done.
Qed.

(** Fencing tokens go back.  When an expired lock of another owner is taken
    over (every call answered), the new record's token is 1, whatever the token of
    the previous holder was; the documentation of [fencing_token] promises
    monotonically increasing tokens. *)
Theorem fencing_token_resets c o ttl (w : World S) l w' :
  client_ok c -> ready w -> lock_in res (kv w) = Some l -> LockRecord.owner l <> o ->
  acquire_lock c res o ttl w = (Ok true, w') ->
  exists l', lock_in res (kv w') = Some l' /\ LockRecord.fencing_token l' = 1.
Proof.
  intros Hc Hw Hin Ho E. wp_run_eq E. apply wp_acquire_lock; [done| |done|done].
  intros w1 Hl (l1 & b & t & Hb & Hk & _ & _ & _ & _ & Hv) _. exists l1. split.
  - unfold lock_in. by rewrite Hk, lookup_insert_eq, (decode_encode _ _ Hb).
  - unfold LockRecord.fencing_token. rewrite Hv by done. unfold next_version. rewrite Hin.
    unfold LockRecord.is_owned_by. by rewrite bool_decide_false.
Qed.

Lemma duration_mul_Ok {E} d k : 0 <= d < secs (2 ^ 32) -> is_u32 k -> duration_mul (E:=E) d k = Ok (d * k).
Proof.
  intros Hd Hk. unfold duration_mul. destruct (Z.ltb_spec (d * k) (secs u64_mod)) as [|Hge]; [done|].
  exfalso. unfold is_u32, secs, ns_per_s, u32_mod, u64_mod in *. nia.
Qed.

(** What a blocking acquisition started in [w] may end in. *)
Definition blocking_outcome (o : string) (ttl : Z) (w : World S) (r : result TikvError.t LockGuard.t)
  (w' : World S) : Prop :=
  match r with
  | Ok g => LockGuard.owner g = o /\ LockGuard.is_valid g = true /\
      exists w0, calm w w0 /\ grabbed res o ttl w0 w'
  | Err (TikvError.LockAcquisitionFailed _) => True
  | Err _ => ~ ready w \/ corrupt res w
  | Panic _ => False
  end.

Lemma acquire_loop_outcome jitter tm am (m : LockManager.t) ttl timeout started fuel : forall attempt (w w0 : World S),
  client_ok (LockManager.client m) ->
  0 <= LockManagerConfig.backoff_base_delay (LockManager.config m) < secs (2 ^ 32) ->
  LockManagerConfig.max_acquire_attempts (LockManager.config m) < u32_mod ->
  0 <= attempt -> calm w w0 -> (0 < fuel)%nat ->
  LockManagerConfig.max_acquire_attempts (LockManager.config m) <= attempt + Z.of_nat fuel ->
  attempt < Z.max 1 (LockManagerConfig.max_acquire_attempts (LockManager.config m)) ->
  wp (LockManager.acquire_loop jitter tm am m res ttl timeout started attempt fuel)
     (blocking_outcome (LockManager.owner m) ttl w) w0.
Proof.
  induction fuel as [|fuel IH]; intros attempt w w0 Hc Hb Hmax H0' Hcalm Hf Hfuel Hatt; [lia|].
  cbn [LockManager.acquire_loop]. do 2 wp_step. destruct (timeout <=? _); [by wp_step|].
  wp_step. apply wp_acquire_lock; [done|..].
  - intros w1 Hl Hg. wp_step. split; [done|]. split; [done|].
    match goal with H : calm w0 ?w2 |- _ => exists w2 end. split; [world|done].
  - intros _ w1 Hc1. rewrite u32_add_small; [|lia|lia|unfold u32_mod in *; lia].
    destruct (Z.leb_spec (LockManagerConfig.max_acquire_attempts (LockManager.config m)) (attempt + 1)); [by wp_step|].
    do 2 wp_step. rewrite duration_mul_Ok by (done || apply as_u32_range). do 2 wp_step.
    apply IH; try done; try lia. world.
  - intros e w1 Hl Hor _. cbn.
    assert (~ ready w \/ corrupt res w) as Hor'.
    { destruct Hor as [?|(b & err & Hk & Hd)]; [left; world|right; exists b, err].
      split; [|done]. rewrite <- Hk. f_equal. kv_eq. }
    by destruct e.
Qed.

(** Blocking acquisition ends.  [acquire_blocking] with a backoff base below
    2^32 seconds always returns: it never exhausts the rounds the model gives it
    and never overflows its delay, and the result is a valid guard for a lock that
    was available and is now the caller's, a [LockAcquisitionFailed], or an error
    that a fault or an unreadable record explains. *)
Theorem acquire_blocking_outcome jitter tm am (m : LockManager.t) ttl timeout (w : World S) r w' :
  client_ok (LockManager.client m) ->
  0 <= LockManagerConfig.backoff_base_delay (LockManager.config m) < secs (2 ^ 32) ->
  0 <= LockManagerConfig.max_acquire_attempts (LockManager.config m) < u32_mod ->
  LockManager.acquire_blocking jitter tm am m res ttl timeout w = (r, w') ->
  blocking_outcome (LockManager.owner m) (ttl_secs_of ttl) w r w'.
Proof.
  intros Hc Hb Hmax E. wp_run E. unfold LockManager.acquire_blocking. do 2 wp_step.
  apply acquire_loop_outcome; try done; lia.
Qed.

End Exclusion.

(** ** Witnesses *)
Section Witnesses.
Import TikvClient Sim.

Local Instance sim_lock_codec : Codec LockRecord.t := Wire.codec_of_wire _ (H := LockRecord.wire).
Local Instance sim_lock_lawful : LawfulCodec LockRecord.t := Wire.lawful_of_wire _ (H := LockRecord.wire).

Definition manager (o : string) : LockManager.t := LockManager.new sim_client o.

(** The store with one lock record. *)
Definition locked (l : LockRecord.t) : gmap string string :=
  match encode l with inr b => {[ LockKeys.lock (LockRecord.resource l) := b ]} | inl _ => ∅ end.

(** [a] holds the lock for ten seconds; [b] tries, and its release is refused. *)
Lemma lock_mutual_exclusion_witness :
  let w := sim_world ∅ [] in
  let g := LockGuard.new sim_client "r" "a" 10 false in
  let w1 := (LockManager.try_acquire (manager "a") "r" (secs 10) w).2 in
  let e1 := acquire_lock sim_client "r" "b" 10 (mkWorld (env w1) (CircuitBreaker.new 0)) in
  exists l, lock_in "r" (committed (env e1.2)) = Some l /\ LockRecord.owner l = "a"%string.
Proof.
  intros w g w1 e1.
  destruct (lock_mutual_exclusion "r" (manager "a") (secs 10) w g w1
    [EAcquire "b" e1.1] (env e1.2)) as [(l & Hl & Ho & _) _].
  - apply sim_client_ok.
  - by vm_compute.
  - reflexivity.
  - apply pair_of_fst. vm_compute. reflexivity.
  - eapply steps_cons; [|apply steps_nil].
    refine (step_acquire "r" sim_client (CircuitBreaker.new 0) (env w1) "b" 10 e1.1 e1.2
      sim_client_ok (surjective_pairing e1)).
  - constructor; [discriminate|constructor].
  - vm_compute. discriminate.
  - exists l. split; [exact Hl|exact Ho].
Defined.

Lemma release_needs_ownership_witness :
  let w := sim_world (locked (LockRecord.new 0 "r" "a" 10)) [] in
  (release_lock sim_client "r" "b" w).1 = Ok false.
Proof.
  intros w.
  refine (proj2 (proj2 (release_needs_ownership "r" sim_client "b" w (LockRecord.new 0 "r" "a" 10)
    _ _ sim_client_ok _ _ (surjective_pairing _))) (sim_world_ready _)).
  - vm_compute. reflexivity.
  - discriminate.
Defined.

Lemma acquire_lock_decided_witness :
  let w := sim_world ∅ [] in (acquire_lock sim_client "r" "a" 10 w).1 = Ok true.
Proof.
  intros w.
  refine (proj1 (proj1 (acquire_lock_decided "r" sim_client "a" 10 w _ _ sim_client_ok
    (sim_world_ready _) _ (surjective_pairing _)) _)).
  - intros (b & e & Hk & _). discriminate Hk.
  - left. reflexivity.
Defined.

(** A lock extended to token 7 expired at -1; the next holder's token is 1. *)
Lemma fencing_token_resets_witness :
  let l := LockRecord.mk "r" "a" 7 (-1) (-100) in
  let w := sim_world (locked l) [] in
  exists l', lock_in "r" (kv (acquire_lock sim_client "r" "b" 10 w).2) = Some l' /\
    LockRecord.fencing_token l' < LockRecord.fencing_token l.
Proof.
  intros l w.
  destruct (fencing_token_resets "r" sim_client "b" 10 w l (acquire_lock sim_client "r" "b" 10 w).2)
    as (l' & Hl & Ht).
  - apply sim_client_ok.
  - apply sim_world_ready.
  - vm_compute. reflexivity.
  - discriminate.
  - apply pair_of_fst. vm_compute. reflexivity.
  - exists l'. split; [exact Hl|]. rewrite Ht. reflexivity.
Defined.

Lemma acquire_blocking_outcome_witness :
  blocking_outcome "r" "a" 10 (sim_world ∅ [])
    (LockManager.acquire_blocking (fun _ _ => 0) "" "" (manager "a") "r" (secs 10) (secs 30) (sim_world ∅ [])).1
    (LockManager.acquire_blocking (fun _ _ => 0) "" "" (manager "a") "r" (secs 10) (secs 30) (sim_world ∅ [])).2.
Proof.
  refine (acquire_blocking_outcome "r" (fun _ _ => 0) "" "" (manager "a") (secs 10) (secs 30)
    (sim_world ∅ []) _ _ sim_client_ok _ _ (surjective_pairing _)); vm_compute; split; congruence.
Defined.

End Witnesses.
