(* ===== verification/WorkUnit.v ===== *)
(** * Work units (crates/roboflow-distributed/src/batch/work_unit.rs)

    The unit of work a worker claims, its status changes, and the bound on its
    attempts. *)
From S2P Require Import Prelude Codec Lifecycle.

Module WorkFile.

(** [struct WorkFile]. *)
Record t : Type := mk {
  url : string;
  size : Z;
  modified_at : option Z;
  checksum : option string
}.

#[global] Instance t_eta : Settable t := fun r =>
  mk (url r) (size r) (modified_at r) (checksum r).

(** [WorkFile::new], [with_modified_time], [with_checksum]. *)
Definition new (url : string) (size : Z) : t := mk url size None None.
Definition with_modified_time (modified : Z) (f : t) : t := f <| modified_at := Some modified |>.
Definition with_checksum (sum : string) (f : t) : t := f <| checksum := Some sum |>.

End WorkFile.

(** [enum WorkUnitError]. *)
Inductive WorkUnitError : Type :=
| NotClaimable (id : string) (status : WorkUnitStatus.t)
| MaxAttemptsExceeded (id : string) (max_attempts : Z)
| Serialization (msg : string).

Module WorkUnit.

(** [struct WorkUnit]. *)
Record t : Type := mk {
  id : string;
  batch_id : string;
  files : list WorkFile.t;
  output_path : string;
  config_hash : string;
  status : WorkUnitStatus.t;
  owner : option string;
  attempts : Z;
  max_attempts : Z;
  created_at : Z;
  updated_at : Z;
  error : option string;
  priority : Z
}.

#[global] Instance t_eta : Settable t := fun r =>
  mk (id r) (batch_id r) (files r) (output_path r) (config_hash r) (status r) (owner r)
     (attempts r) (max_attempts r) (created_at r) (updated_at r) (error r) (priority r).

Definition default_max_attempts : Z := 3.

(** [WorkUnit::with_id]; [created updated] are its two readings of the clock. *)
Definition with_id (created updated : Z) (id batch_id : string) (files : list WorkFile.t)
  (output_path config_hash : string) : t := {|
  id := id;
  batch_id := batch_id;
  files := files;
  output_path := output_path;
  config_hash := config_hash;
  status := WorkUnitStatus.Pending;
  owner := None;
  attempts := 0;
  max_attempts := default_max_attempts;
  created_at := created;
  updated_at := updated;
  error := None;
  priority := 0
|}.

(** [WorkUnit::new]; [uuid] is the text of [Uuid::new_v4()]. *)
Definition new (uuid : string) (created updated : Z) (batch_id : string) (files : list WorkFile.t)
  (output_path config_hash : string) : t :=
  with_id created updated uuid batch_id files output_path config_hash.

(** [WorkUnit::is_claimable]. *)
Definition is_claimable (u : t) : bool :=
  WorkUnitStatus.is_claimable (status u) && (attempts u <? max_attempts u).

(** [WorkUnit::claim]. *)
Definition claim (now : Z) (worker_id : string) (u : t) : result WorkUnitError t :=
  if negb (is_claimable u) then Err (NotClaimable (id u) (status u))
  else if max_attempts u <=? attempts u then Err (MaxAttemptsExceeded (id u) (max_attempts u))
  else Ok (u <| status := WorkUnitStatus.Processing |> <| owner := Some worker_id |>
             <| attempts := u32_add (attempts u) 1 |> <| updated_at := now |>).

(** [WorkUnit::complete]. *)
Definition complete (now : Z) (u : t) : t :=
  u <| status := WorkUnitStatus.Complete |> <| owner := None |> <| updated_at := now |>.

(** [WorkUnit::fail]. *)
Definition fail (now : Z) (err : string) (u : t) : t :=
  u <| status := if max_attempts u <=? attempts u then WorkUnitStatus.Dead else WorkUnitStatus.Failed |>
    <| owner := None |> <| error := Some err |> <| updated_at := now |>.

(** [WorkUnit::cancel]. *)
Definition cancel (now : Z) (u : t) : t :=
  u <| status := WorkUnitStatus.Cancelled |> <| owner := None |> <| updated_at := now |>.

(** [WorkUnit::total_size]: the release build's [sum] wraps. *)
Definition total_size (u : t) : Z := foldl (fun acc f => u64_add acc (WorkFile.size f)) 0 (files u).

(** [WorkUnit::file_count], [is_single_file], [primary_source]. *)
Definition file_count (u : t) : nat := length (files u).
Definition is_single_file (u : t) : bool := (length (files u) =? 1)%nat.
Definition primary_source (u : t) : option string :=
  match files u with [] => None | f :: _ => Some (WorkFile.url f) end.

(** [WorkUnit::summary] and [struct WorkUnitSummary]. *)
Record Summary : Type := mkSummary {
  s_id : string;
  s_batch_id : string;
  s_status : WorkUnitStatus.t;
  s_file_count : nat;
  s_total_size : Z;
  s_attempts : Z
}.
Definition summary (u : t) : Summary := {|
  s_id := id u;
  s_batch_id := batch_id u;
  s_status := status u;
  s_file_count := length (files u);
  s_total_size := total_size u;
  s_attempts := attempts u
|}.

Definition status_code (s : WorkUnitStatus.t) : Z :=
  match s with
  | WorkUnitStatus.Pending => 0 | WorkUnitStatus.Processing => 1 | WorkUnitStatus.Complete => 2
  | WorkUnitStatus.Failed => 3 | WorkUnitStatus.Dead => 4 | WorkUnitStatus.Cancelled => 5
  end.
Definition status_of_code (z : Z) : WorkUnitStatus.t :=
  match z with
  | 0 => WorkUnitStatus.Pending | 1 => WorkUnitStatus.Processing | 2 => WorkUnitStatus.Complete
  | 3 => WorkUnitStatus.Failed | 4 => WorkUnitStatus.Dead | _ => WorkUnitStatus.Cancelled
  end.

(** A concrete codec. *)
Definition wire : Wire.Wire t.
Proof.
  assert (Wire.Wire WorkFile.t) as Wf.
  { refine (Wire.wire_iso (fun f => (WorkFile.url f, WorkFile.size f, WorkFile.modified_at f, WorkFile.checksum f))
      (fun '(a, b, c, d) => WorkFile.mk a b c d) _); [|by intros []].
    repeat apply Wire.wire_prod; (apply Wire.wire_string || apply Wire.wire_Z
      || apply Wire.wire_option, Wire.wire_Z || apply Wire.wire_option, Wire.wire_string). }
  refine (Wire.wire_iso
    (fun u => (id u, batch_id u, files u, output_path u, config_hash u, status_code (status u),
       owner u, attempts u, max_attempts u, created_at u, updated_at u, error u, priority u))
    (fun '(a, b, c, d, e, f, g, h, i, j, k, l, m) => mk a b c d e (status_of_code f) g h i j k l m) _);
    [|by intros [? ? ? ? ? [] ? ? ? ? ? ? ?]].
  repeat apply Wire.wire_prod;
    (apply Wire.wire_string || apply Wire.wire_Z || apply Wire.wire_list, Wf
     || apply Wire.wire_option, Wire.wire_string).
Defined.

End WorkUnit.

(** ** Attempts are bounded *)
Section Attempts.
Import WorkUnit.

(** The changes a unit goes through, each with the clock it reads. *)
Inductive unit_op : Type :=
| UClaim (now : Z) (worker : string)
| UComplete (now : Z)
| UFail (now : Z) (err : string)
| UCancel (now : Z).

(** The unit after an operation; a refused claim leaves it as it was. *)
Definition unit_step (u : t) (o : unit_op) : t :=
  match o with
  | UClaim now w => match claim now w u with Ok u' => u' | _ => u end
  | UComplete now => complete now u
  | UFail now e => fail now e u
  | UCancel now => cancel now u
  end.

(** The number of claims that were granted. *)
Fixpoint granted (u : t) (ops : list unit_op) : Z :=
  match ops with
  | [] => 0
  | o :: ops' =>
      (match o with UClaim now w => if is_Ok (claim now w u) then 1 else 0 | _ => 0 end)
      + granted (unit_step u o) ops'
  end.

(** An owner exactly while processing; a failed unit has attempts left, a dead
    one has none. *)
Definition unit_ok (u : t) : Prop :=
  (is_Some (owner u) <-> status u = WorkUnitStatus.Processing) /\
  0 <= attempts u <= max_attempts u /\ max_attempts u < u32_mod /\
  (status u = WorkUnitStatus.Failed -> attempts u < max_attempts u) /\
  (status u = WorkUnitStatus.Dead -> attempts u = max_attempts u).

Lemma claim_Ok_iff now w u u' :
  claim now w u = Ok u' <->
  is_claimable u = true /\
  u' = u <| status := WorkUnitStatus.Processing |> <| owner := Some w |>
         <| attempts := u32_add (attempts u) 1 |> <| updated_at := now |>.
Proof.
  unfold claim. destruct (is_claimable u) eqn:E; cbn [negb]; [|naive_solver].
  apply andb_true_iff in E as [_ E]. apply Z.ltb_lt in E.
  destruct (Z.leb_spec (max_attempts u) (attempts u)); [lia|]. naive_solver.
Qed.

(** The second error of [claim] is unreachable. *)
Lemma claim_Err now w u e : claim now w u = Err e -> e = NotClaimable (id u) (status u).
Proof.
  unfold claim. destruct (is_claimable u) eqn:E; cbn [negb]; [|by intros [= <-]].
  apply andb_true_iff in E as [_ E]. apply Z.ltb_lt in E.
  destruct (Z.leb_spec (max_attempts u) (attempts u)); [lia|done].
Qed.

Lemma claim_no_panic now w u s : claim now w u <> Panic s.
Proof. unfold claim. repeat case_match; done. Qed.

Lemma claim_unit_ok now w u u' :
  unit_ok u -> claim now w u = Ok u' ->
  unit_ok u' /\ attempts u' = attempts u + 1 /\ max_attempts u' = max_attempts u.
Proof.
  intros (Ho & Ha & Hm & Hf & Hd) [Hc ->]%claim_Ok_iff.
  apply andb_true_iff in Hc as [_ Hlt]. apply Z.ltb_lt in Hlt.
  assert (u32_add (attempts u) 1 = attempts u + 1) as E by (apply u32_add_small; lia).
  unfold unit_ok. cbn. rewrite E. repeat split; try done; try lia.
Qed.

Lemma unit_step_ok u o : unit_ok u ->
  unit_ok (unit_step u o) /\ max_attempts (unit_step u o) = max_attempts u /\
  attempts (unit_step u o) =
    attempts u + match o with UClaim now w => if is_Ok (claim now w u) then 1 else 0 | _ => 0 end.
Proof.
  intros Hu. destruct o as [now w|now|now e|now]; cbn [unit_step].
  - destruct (claim now w u) as [u'|e|s] eqn:E; cbn [is_Ok]; [|split; [done|split; [done|lia]]..].
    destruct (claim_unit_ok now w u u' Hu E) as (? & ? & ?). split; [done|]. split; [done|lia].
  - destruct Hu as (Ho & Ha & Hm & _). unfold unit_ok. cbn.
    repeat split; try done; try lia; by intros [? ?].
  - destruct Hu as (Ho & Ha & Hm & _). unfold unit_ok. cbn.
    destruct (Z.leb_spec (max_attempts u) (attempts u)); repeat split; try done; try lia; by intros [? ?].
  - destruct Hu as (Ho & Ha & Hm & _). unfold unit_ok. cbn.
    repeat split; try done; try lia; by intros [? ?].
Qed.

(** C17: a unit is attempted at most [max_attempts] times.  Through any sequence of
    claims, completions, failures and cancellations of a new unit, [attempts] is
    the number of claims that were granted, it never exceeds [max_attempts] (nor
    wraps), the unit has an owner exactly while it is processing, a failed unit has
    attempts left and a dead one has none. *)
Theorem work_unit_attempts_bounded t1 t2 uid bid fs out cfg m (ops : list unit_op) :
  0 <= m < u32_mod ->
  let u0 := with_id t1 t2 uid bid fs out cfg <| max_attempts := m |> in
  let u := foldl unit_step u0 ops in
  unit_ok u /\ attempts u = granted u0 ops /\ granted u0 ops <= m.
Proof.
  intros Hm u0. assert (unit_ok u0) as H0.
  { unfold unit_ok. cbn. repeat split; try done; try lia. }
  assert (forall us u, unit_ok u ->
    unit_ok (foldl unit_step u us) /\ max_attempts (foldl unit_step u us) = max_attempts u /\
    attempts (foldl unit_step u us) = attempts u + granted u us) as Hgen.
  { induction us as [|o us IH]; intros u Hu; cbn [foldl granted]; [split; [done|split; [done|lia]]|].
    destruct (unit_step_ok u o Hu) as (Hu1 & Hm1 & Ha1). destruct (IH _ Hu1) as (Hu2 & Hm2 & Ha2).
    split; [done|]. split; [congruence|]. rewrite Ha2, Ha1. lia. }
  destruct (Hgen ops u0 H0) as (Hu & Hmax & Ha). split; [done|].
  destruct Hu as (_ & Hle & _). rewrite Hmax, Ha in Hle. cbn in Ha, Hle. split; [exact Ha|]. lia.
Qed.

Lemma work_unit_attempts_bounded_witness :
  let u0 := with_id 0 0 "u" "jobs:b" [] "out" "cfg" <| max_attempts := 2 |> in
  granted u0 [UClaim 1 "w1"; UFail 2 "e"; UClaim 3 "w2"; UClaim 3 "w3"; UFail 4 "e"; UClaim 5 "w1"] <= 2.
Proof.
  refine (proj2 (proj2 (work_unit_attempts_bounded 0 0 "u" "jobs:b" [] "out" "cfg" 2 _ _))).
  vm_compute. split; congruence.
Defined.

End Attempts.
