(* ===== verification/Batch.v ===== *)
(** * Batch specifications and statuses (batch/spec.rs, batch/status.rs, batch/mod.rs of
    crates/roboflow-distributed/src)

    The desired state a user submits, the observed state the controller keeps,
    and the id that ties them together.  The floating-point progress reports are
    not modelled; a progress value is kept as the operands of its quotient. *)
From S2P Require Import Prelude Codec Lifecycle.

Definition API_VERSION : string := "roboflow/v1".
Definition KIND_BATCH_JOB : string := "BatchJob".

Module SourceUrl.
(** [struct SourceUrl]. *)
Record t : Type := mk { url : string; filter : option string; max_size : option Z }.
End SourceUrl.

Module PartitionStrategy.
(** [enum PartitionStrategy]. *)
Inductive t : Type := FileBased | SizeBased | TimeBased.
End PartitionStrategy.

Module WorkUnitConfig.
(** [struct WorkUnitConfig] and its default. *)
Record t : Type := mk {
  partition_strategy : PartitionStrategy.t;
  max_files_per_unit : Z;
  max_bytes_per_unit : Z
}.
Definition default : t := mk PartitionStrategy.FileBased 1 (5 * 1024 * 1024 * 1024).
End WorkUnitConfig.

Module BatchMetadata.
(** [struct BatchMetadata]. *)
Record t : Type := mk {
  name : string;
  display_name : option string;
  namespace : string;
  submitted_by : option string;
  labels : gmap string string;
  annotations : gmap string string;
  created_at : Z
}.
#[global] Instance t_eta : Settable t := fun r =>
  mk (name r) (display_name r) (namespace r) (submitted_by r) (labels r) (annotations r) (created_at r).
End BatchMetadata.

Module BatchJobSpec.
(** [struct BatchJobSpec]. *)
Record t : Type := mk {
  sources : list SourceUrl.t;
  output : string;
  config : string;
  parallelism : Z;
  completions : option Z;
  max_retries : Z;
  backoff_limit : Z;
  ttl_seconds : Z;
  priority : Z;
  work_unit_config : WorkUnitConfig.t;
  episodes_per_chunk : Z
}.
#[global] Instance t_eta : Settable t := fun r =>
  mk (sources r) (output r) (config r) (parallelism r) (completions r) (max_retries r)
     (backoff_limit r) (ttl_seconds r) (priority r) (work_unit_config r) (episodes_per_chunk r).
(** [BatchJobSpec::default]. *)
Definition default : t :=
  mk [] "" "default" 100 None 3 10 86400 0 WorkUnitConfig.default 500.
End BatchJobSpec.

(** [enum BatchSpecError]. *)
Inductive BatchSpecError : Type :=
| InvalidName (msg : string)
| Validation (msg : string)
| InvalidUrl (url reason : string)
| SpecSerialization (msg : string).

Module BatchSpec.

(** [struct BatchSpec]. *)
Record t : Type := mk {
  api_version : string;
  kind : string;
  metadata : BatchMetadata.t;
  spec : BatchJobSpec.t
}.

#[global] Instance t_eta : Settable t := fun r => mk (api_version r) (kind r) (metadata r) (spec r).

(** [BatchSpec::new]. *)
Definition new (now : Z) (name : string) (sources : list string) (output : string) : t := {|
  api_version := API_VERSION;
  kind := KIND_BATCH_JOB;
  metadata := BatchMetadata.mk name None "jobs" None ∅ ∅ now;
  spec := BatchJobSpec.mk ((fun url => SourceUrl.mk url None None) <$> sources) output "default"
            100 None 3 10 86400 0 WorkUnitConfig.default 500
|}.

(** [BatchSpec::validate_source_url], [validate_output_url]. *)
Definition validate_source_url (url : string) : result BatchSpecError unit :=
  if negb (starts_with url "s3://") && negb (starts_with url "file://")
  then Err (InvalidUrl url "invalid scheme (must be s3:// or file://)") else Ok tt.
Definition validate_output_url (url : string) : result BatchSpecError unit :=
  if negb (starts_with url "s3://") && negb (starts_with url "file://")
  then Err (InvalidUrl url "invalid scheme (must be s3:// or file://)") else Ok tt.

(** The loop over the sources. *)
Fixpoint validate_sources (sources : list SourceUrl.t) : result BatchSpecError unit :=
  match sources with
  | [] => Ok tt
  | s :: rest => validate_source_url (SourceUrl.url s);; validate_sources rest
  end.

(** [BatchSpec::validate]. *)
Definition validate (s : t) : result BatchSpecError unit :=
  if bool_decide (BatchMetadata.name (metadata s) = ""%string)
  then Err (InvalidName "name cannot be empty")
  else if bool_decide (BatchJobSpec.sources (spec s) = [])
  then Err (Validation "at least one source URL is required")
  else
    validate_sources (BatchJobSpec.sources (spec s));;
    validate_output_url (BatchJobSpec.output (spec s));;
    Ok tt.

(** [BatchSpec::key]. *)
Definition key (s : t) : string :=
  BatchMetadata.namespace (metadata s) +:+ ":" +:+ BatchMetadata.name (metadata s).

Definition strategy_code (p : PartitionStrategy.t) : Z :=
  match p with PartitionStrategy.FileBased => 0 | PartitionStrategy.SizeBased => 1 | PartitionStrategy.TimeBased => 2 end.
Definition strategy_of_code (z : Z) : PartitionStrategy.t :=
  match z with 0 => PartitionStrategy.FileBased | 1 => PartitionStrategy.SizeBased | _ => PartitionStrategy.TimeBased end.

(** A concrete codec. *)
Definition wire : Wire.Wire t.
Proof.
  assert (Wire.Wire SourceUrl.t) as Ws.
  { refine (Wire.wire_iso (fun x => (SourceUrl.url x, SourceUrl.filter x, SourceUrl.max_size x))
      (fun '(a, b, c) => SourceUrl.mk a b c) _); [|by intros []].
    repeat apply Wire.wire_prod; (apply Wire.wire_string || apply Wire.wire_option, Wire.wire_string
      || apply Wire.wire_option, Wire.wire_Z). }
  assert (Wire.Wire WorkUnitConfig.t) as Wc.
  { refine (Wire.wire_iso (fun x => (strategy_code (WorkUnitConfig.partition_strategy x),
        WorkUnitConfig.max_files_per_unit x, WorkUnitConfig.max_bytes_per_unit x))
      (fun '(a, b, c) => WorkUnitConfig.mk (strategy_of_code a) b c) _); [|by intros [[] ? ?]].
    repeat apply Wire.wire_prod; apply Wire.wire_Z. }
  assert (Wire.Wire BatchMetadata.t) as Wm.
  { refine (Wire.wire_iso (fun x => (BatchMetadata.name x, BatchMetadata.display_name x,
        BatchMetadata.namespace x, BatchMetadata.submitted_by x, BatchMetadata.labels x,
        BatchMetadata.annotations x, BatchMetadata.created_at x))
      (fun '(a, b, c, d, e, f, g) => BatchMetadata.mk a b c d e f g) _); [|by intros []].
    repeat apply Wire.wire_prod; (apply Wire.wire_string || apply Wire.wire_Z
      || apply Wire.wire_option, Wire.wire_string || apply Wire.wire_gmap, Wire.wire_string). }
  assert (Wire.Wire BatchJobSpec.t) as Wj.
  { refine (Wire.wire_iso (fun x => (BatchJobSpec.sources x, BatchJobSpec.output x, BatchJobSpec.config x,
        BatchJobSpec.parallelism x, BatchJobSpec.completions x, BatchJobSpec.max_retries x,
        BatchJobSpec.backoff_limit x, BatchJobSpec.ttl_seconds x, BatchJobSpec.priority x,
        BatchJobSpec.work_unit_config x, BatchJobSpec.episodes_per_chunk x))
      (fun '(a, b, c, d, e, f, g, h, i, j, k) => BatchJobSpec.mk a b c d e f g h i j k) _); [|by intros []].
    repeat apply Wire.wire_prod; (apply Wire.wire_string || apply Wire.wire_Z || exact Wc
      || apply Wire.wire_option, Wire.wire_Z || apply Wire.wire_list, Ws). }
  refine (Wire.wire_iso (fun x => (api_version x, kind x, metadata x, spec x))
    (fun '(a, b, c, d) => mk a b c d) _); [|by intros []].
  repeat apply Wire.wire_prod; (apply Wire.wire_string || exact Wm || exact Wj).
Defined.

End BatchSpec.

(** [batch_id_from_spec]. *)
Definition batch_id_from_spec (s : BatchSpec.t) : string :=
  BatchMetadata.namespace (BatchSpec.metadata s) +:+ ":" +:+ BatchMetadata.name (BatchSpec.metadata s).

Module DiscoveryStatus.

(** [struct DiscoveryStatus]; [progress] keeps the operands of the quotient. *)
Record t : Type := mk {
  sources_scanned : Z;
  total_sources : Z;
  files_found : Z;
  last_error : option string;
  progress : option (Z * Z)
}.

#[global] Instance t_eta : Settable t := fun r =>
  mk (sources_scanned r) (total_sources r) (files_found r) (last_error r) (progress r).

(** [DiscoveryStatus::new]; the progress is 0.0. *)
Definition new (total : Z) : t := mk 0 total 0 None None.

(** [DiscoveryStatus::update_progress]. *)
Definition update_progress (d : t) : t :=
  if 0 <? total_sources d then d <| progress := Some (sources_scanned d, total_sources d) |> else d.

(** [DiscoveryStatus::increment_scanned], [add_files]. *)
Definition increment_scanned (d : t) : t :=
  update_progress (d <| sources_scanned := u32_add (sources_scanned d) 1 |>).
Definition add_files (count : Z) (d : t) : t :=
  update_progress (d <| files_found := u32_add (files_found d) count |>).

End DiscoveryStatus.

Module FailedWorkUnit.
(** [struct FailedWorkUnit]. *)
Record t : Type := mk {
  id : string;
  source_file : string;
  error : string;
  retries : Z;
  failed_at : Z
}.
End FailedWorkUnit.

Module BatchStatus.

(** [struct BatchStatus]. *)
Record t : Type := mk {
  phase : BatchPhase.t;
  files_total : Z;
  files_completed : Z;
  files_failed : Z;
  files_active : Z;
  work_units_total : Z;
  work_units_completed : Z;
  work_units_failed : Z;
  work_units_active : Z;
  started_at : option Z;
  completed_at : option Z;
  error : option string;
  updated_at : Z;
  discovery_status : option DiscoveryStatus.t;
  failed_work_units : list FailedWorkUnit.t
}.

#[global] Instance t_eta : Settable t := fun r =>
  mk (phase r) (files_total r) (files_completed r) (files_failed r) (files_active r)
     (work_units_total r) (work_units_completed r) (work_units_failed r) (work_units_active r)
     (started_at r) (completed_at r) (error r) (updated_at r) (discovery_status r)
     (failed_work_units r).

(** [BatchStatus::new]. *)
Definition new (now : Z) : t :=
  mk BatchPhase.Pending 0 0 0 0 0 0 0 0 None None None now None [].

(** [BatchStatus::with_phase]. *)
Definition with_phase (now : Z) (p : BatchPhase.t) : t := new now <| phase := p |>.

(** [BatchStatus::should_fail], [is_complete]. *)
Definition should_fail (backoff_limit : Z) (s : t) : bool := backoff_limit <? work_units_failed s.
Definition is_complete (s : t) : bool :=
  (0 <? work_units_total s)
  && (u32_add (work_units_completed s) (work_units_failed s) =? work_units_total s).

(** [BatchStatus::transition_to]; the readings of the clock inside one call are
    one [now]. *)
Definition transition_to (now : Z) (p : BatchPhase.t) (s : t) : t :=
  let s := s <| phase := p |> <| updated_at := now |> in
  match p with
  | BatchPhase.Discovering | BatchPhase.Running =>
      match started_at s with None => s <| started_at := Some now |> | Some _ => s end
  | BatchPhase.Complete | BatchPhase.Failed | BatchPhase.Cancelled =>
      match completed_at s with None => s <| completed_at := Some now |> | Some _ => s end
  | _ => s
  end.

(** [BatchStatus::record_completion]. *)
Definition record_completion (now count : Z) (s : t) : t :=
  s <| work_units_completed := u32_add (work_units_completed s) count |>
    <| files_completed := u32_add (files_completed s) count |>
    <| files_active := saturating_sub (files_active s) count |>
    <| work_units_active := saturating_sub (work_units_active s) count |>
    <| updated_at := now |>.

(** [BatchStatus::record_failure]. *)
Definition record_failure (now : Z) (unit : FailedWorkUnit.t) (s : t) : t :=
  s <| work_units_failed := u32_add (work_units_failed s) 1 |>
    <| files_failed := u32_add (files_failed s) 1 |>
    <| files_active := saturating_sub (files_active s) 1 |>
    <| work_units_active := saturating_sub (work_units_active s) 1 |>
    <| failed_work_units := failed_work_units s ++ [unit] |>
    <| updated_at := now |>.

(** [BatchStatus::increment_active]. *)
Definition increment_active (now count : Z) (s : t) : t :=
  s <| work_units_active := u32_add (work_units_active s) count |>
    <| files_active := u32_add (files_active s) count |> <| updated_at := now |>.

(** [BatchStatus::set_files_total], [set_work_units_total]. *)
Definition set_files_total (now total : Z) (s : t) : t :=
  s <| files_total := total |> <| updated_at := now |>.
Definition set_work_units_total (now total : Z) (s : t) : t :=
  s <| work_units_total := total |> <| updated_at := now |>.

(** [BatchStatus::elapsed]. *)
Definition elapsed (now : Z) (s : t) : option Z :=
  match started_at s with
  | Some start => if 0 <? num_seconds (now - start) then Some (now - start) else None
  | None => None
  end.

Definition phase_code (p : BatchPhase.t) : Z :=
  match p with
  | BatchPhase.Pending => 0 | BatchPhase.Discovering => 1 | BatchPhase.Running => 2
  | BatchPhase.Merging => 3 | BatchPhase.Complete => 4 | BatchPhase.Failed => 5
  | BatchPhase.Cancelled => 6 | BatchPhase.Suspending => 7 | BatchPhase.Suspended => 8
  end.
Definition phase_of_code (z : Z) : BatchPhase.t :=
  match z with
  | 0 => BatchPhase.Pending | 1 => BatchPhase.Discovering | 2 => BatchPhase.Running
  | 3 => BatchPhase.Merging | 4 => BatchPhase.Complete | 5 => BatchPhase.Failed
  | 6 => BatchPhase.Cancelled | 7 => BatchPhase.Suspending | _ => BatchPhase.Suspended
  end.

(** A concrete codec. *)
Definition wire : Wire.Wire t.
Proof.
  assert (Wire.Wire DiscoveryStatus.t) as Wd.
  { refine (Wire.wire_iso (fun d => (DiscoveryStatus.sources_scanned d, DiscoveryStatus.total_sources d,
        DiscoveryStatus.files_found d, DiscoveryStatus.last_error d, DiscoveryStatus.progress d))
      (fun '(a, b, c, d, e) => DiscoveryStatus.mk a b c d e) _); [|by intros []].
    repeat apply Wire.wire_prod; (apply Wire.wire_Z || apply Wire.wire_option, Wire.wire_string
      || apply Wire.wire_option, Wire.wire_prod; apply Wire.wire_Z). }
  assert (Wire.Wire FailedWorkUnit.t) as Wf.
  { refine (Wire.wire_iso (fun f => (FailedWorkUnit.id f, FailedWorkUnit.source_file f,
        FailedWorkUnit.error f, FailedWorkUnit.retries f, FailedWorkUnit.failed_at f))
      (fun '(a, b, c, d, e) => FailedWorkUnit.mk a b c d e) _); [|by intros []].
    repeat apply Wire.wire_prod; (apply Wire.wire_string || apply Wire.wire_Z). }
  refine (Wire.wire_iso
    (fun s => (phase_code (phase s), files_total s, files_completed s, files_failed s, files_active s,
       work_units_total s, work_units_completed s, work_units_failed s, work_units_active s,
       started_at s, completed_at s, error s, updated_at s, discovery_status s, failed_work_units s))
    (fun '(a, b, c, d, e, f, g, h, i, j, k, l, m, n, o) =>
       mk (phase_of_code a) b c d e f g h i j k l m n o) _);
    [|by intros [[] ? ? ? ? ? ? ? ? ? ? ? ? ? ?]].
  repeat apply Wire.wire_prod;
    (apply Wire.wire_Z || apply Wire.wire_option, Wire.wire_Z || apply Wire.wire_option, Wire.wire_string
     || apply Wire.wire_option, Wd || apply Wire.wire_list, Wf).
Defined.

End BatchStatus.

(** [Display for BatchSpecError]. *)
Definition spec_error_text (e : BatchSpecError) : string :=
  match e with
  | InvalidName m => "invalid name: " +:+ m
  | Validation m => "validation error: " +:+ m
  | InvalidUrl u r => "invalid URL '" +:+ u +:+ "': " +:+ r
  | SpecSerialization m => "serialization error: " +:+ m
  end.

(** ** Validation and identity *)
Section Spec.

(** A URL scheme the system can read and write. *)
Definition supported_url (url : string) : Prop :=
  (exists p, url = "s3://" +:+ p) \/ (exists p, url = "file://" +:+ p).

Lemma validate_source_url_iff url :
  match BatchSpec.validate_source_url url with
  | Ok _ => supported_url url | Err _ => ~ supported_url url | Panic _ => False end.
Proof.
  unfold BatchSpec.validate_source_url, supported_url.
  pose proof (starts_with_iff url "s3://") as H1. pose proof (starts_with_iff url "file://") as H2.
  destruct (starts_with url "s3://"), (starts_with url "file://"); cbn; intuition discriminate.
Qed.

Lemma validate_sources_iff sources :
  match BatchSpec.validate_sources sources with
  | Ok _ => Forall (fun s => supported_url (SourceUrl.url s)) sources
  | Err _ => ~ Forall (fun s => supported_url (SourceUrl.url s)) sources
  | Panic _ => False
  end.
Proof.
  induction sources as [|s rest IH]; cbn [BatchSpec.validate_sources]; [done|].
  pose proof (validate_source_url_iff (SourceUrl.url s)) as Hs.
  destruct (BatchSpec.validate_source_url (SourceUrl.url s)) as [[]|e|p]; cbn; [|by intros [? _]%Forall_cons|done].
  destruct (BatchSpec.validate_sources rest); [by constructor|by intros [_ ?]%Forall_cons|done].
Qed.

Lemma validate_never_panics s : match BatchSpec.validate s with Panic _ => False | _ => True end.
Proof.
  unfold BatchSpec.validate. do 2 (case_bool_decide; [done|]).
  pose proof (validate_sources_iff (BatchJobSpec.sources (BatchSpec.spec s))) as Hs.
  destruct (BatchSpec.validate_sources _) as [[]|e|p]; cbn; [|done..].
  unfold BatchSpec.validate_output_url. by destruct (_ && _).
Qed.

(** What an accepted specification guarantees.  [validate] never panics, and
    it accepts exactly the specifications with a non-empty name, at least one
    source, and [s3://] or [file://] URLs for every source and the output. *)
Theorem validate_iff (s : BatchSpec.t) :
  match BatchSpec.validate s with
  | Ok _ => True | Err _ => False | Panic _ => False end <->
  BatchMetadata.name (BatchSpec.metadata s) <> ""%string /\
  BatchJobSpec.sources (BatchSpec.spec s) <> [] /\
  Forall (fun u => supported_url (SourceUrl.url u)) (BatchJobSpec.sources (BatchSpec.spec s)) /\
  supported_url (BatchJobSpec.output (BatchSpec.spec s)).
Proof.
  unfold BatchSpec.validate. case_bool_decide; [naive_solver|]. case_bool_decide; [naive_solver|].
  pose proof (validate_sources_iff (BatchJobSpec.sources (BatchSpec.spec s))) as Hs.
  destruct (BatchSpec.validate_sources _) as [[]|e|p]; cbn; [|naive_solver|done].
  pose proof (validate_source_url_iff (BatchJobSpec.output (BatchSpec.spec s))) as Ho.
  unfold BatchSpec.validate_source_url in Ho. unfold BatchSpec.validate_output_url.
  destruct (_ && _); cbn; naive_solver.
Qed.

(** A batch id names one batch.  With namespaces without [':'], two
    specifications have the same id only when namespace and name agree, and the id
    is the specification's [key]. *)
Theorem batch_id_unique (s1 s2 : BatchSpec.t) :
  free_of ":" (BatchMetadata.namespace (BatchSpec.metadata s1)) = true ->
  free_of ":" (BatchMetadata.namespace (BatchSpec.metadata s2)) = true ->
  batch_id_from_spec s1 = batch_id_from_spec s2 ->
  BatchMetadata.namespace (BatchSpec.metadata s1) = BatchMetadata.namespace (BatchSpec.metadata s2) /\
  BatchMetadata.name (BatchSpec.metadata s1) = BatchMetadata.name (BatchSpec.metadata s2) /\
  batch_id_from_spec s1 = BatchSpec.key s2.
Proof.
  intros H1 H2 E. pose proof E as E'. unfold batch_id_from_spec in E'.
  apply free_of_cancel in E' as [? ?]; [|done..]. by rewrite E.
Qed.

Lemma batch_id_unique_witness :
  batch_id_from_spec (BatchSpec.new 0 "run" ["s3://in"]%string "s3://out") =
  BatchSpec.key (BatchSpec.new 5 "run" ["file://x"]%string "s3://o2").
Proof. refine (proj2 (proj2 (batch_id_unique _ _ _ _ _))); reflexivity. Defined.

End Spec.
