(* ===== verification/Controller.v ===== *)
(** * The batch controller (batch/controller.rs and batch/mod.rs of
    crates/roboflow-distributed/src)

    Submission, reconciliation of a batch's status with its work units, and the
    claim, completion and failure of work units by workers. *)
From stdpp Require Import pretty.
From S2P Require Import Prelude Codec TikvError Circuit Lifecycle Keys Env Effects Schema Client WorkUnit Batch.

(** Decimal text of a number, as [format!] prints it. *)
Definition dec (n : Z) : string := pretty n.

(** [update_phase_index] (batch/mod.rs). *)
Definition update_phase_index {S} `{TransactionClient S} (tikv : TikvClient.t) (batch_id : string)
  (old_phase new_phase : BatchPhase.t) : M S TikvError.t unit :=
  if decide (old_phase = new_phase) then mret tt
  else
    TikvClient.put tikv (BatchIndexKeys.phase new_phase batch_id) "";;
    TikvClient.delete tikv (BatchIndexKeys.phase old_phase batch_id).

Module ControllerConfig.
(** [struct ControllerConfig] and its default. *)
Record t : Type := mk {
  reconcile_interval : Z;
  max_batches_per_loop : Z;
  max_work_units_per_batch : Z;
  discovery_timeout : Z
}.
Definition default : t := mk (secs 5) 100 1000 (secs 300).
End ControllerConfig.

Module BatchSummary.
(** [struct BatchSummary]. *)
Record t : Type := mk {
  id : string;
  name : string;
  namespace : string;
  phase : BatchPhase.t;
  files_total : Z;
  files_completed : Z;
  files_failed : Z;
  created_at : Z;
  started_at : option Z;
  completed_at : option Z
}.
End BatchSummary.

Module BatchController.

(** [struct BatchController]. *)
Record t : Type := mk { client : TikvClient.t; config : ControllerConfig.t }.

Definition with_client (c : TikvClient.t) : t := mk c ControllerConfig.default.

Section Ops.
Context {S : Type} `{TransactionClient S}.
Context `{Codec BatchSpec.t, Codec BatchStatus.t, Codec WorkUnit.t}.
Abbreviation Tikv := (M S TikvError.t).

(** [BatchController::save_status]. *)
Definition save_status (c : t) (batch_id : string) (status : BatchStatus.t) : Tikv unit :=
  TikvClient.put_record (client c) (BatchKeys.status batch_id) status.

(** The counters of [reconcile_running]'s scan. *)
Record Tally : Type := mkTally {
  completed : Z;
  failed : Z;
  processing : Z;
  failed_units : list FailedWorkUnit.t
}.

#[global] Instance Tally_eta : Settable Tally := fun r =>
  mkTally (completed r) (failed r) (processing r) (failed_units r).

(** The body of its loop. *)
Definition tally_entry (acc : Tally) (entry : string * string) : Tally :=
  match decode (A:=WorkUnit.t) entry.2 with
  | inr unit =>
      match WorkUnit.status unit with
      | WorkUnitStatus.Complete => acc <| completed := u32_add (completed acc) 1 |>
      | WorkUnitStatus.Failed | WorkUnitStatus.Dead =>
          let error := default "Unknown error"%string (WorkUnit.error unit) in
          let source_file := default "unknown"%string (WorkUnit.primary_source unit) in
          acc <| failed := u32_add (failed acc) 1 |>
              <| failed_units := failed_units acc ++
                   [FailedWorkUnit.mk (WorkUnit.id unit) source_file error (WorkUnit.attempts unit)
                                      (WorkUnit.updated_at unit)] |>
      | WorkUnitStatus.Processing => acc <| processing := u32_add (processing acc) 1 |>
      | _ => acc
      end
  | inl _ => acc
  end.

Definition tally (work_units : list (string * string)) : Tally :=
  foldl tally_entry (mkTally 0 0 0 []) work_units.

(** [BatchController::reconcile_running]. *)
Definition reconcile_running (c : t) (spec : BatchSpec.t) (status : BatchStatus.t)
  : Tikv BatchStatus.t :=
  let batch_id := batch_id_from_spec spec in
  work_units ← TikvClient.scan (client c) (WorkUnitKeys.batch_prefix batch_id) 10000;
  let n := tally work_units in
  let scan_total := u32_add (u32_add (completed n) (failed n)) (processing n) in
  status ←
    (if 0 <? scan_total
     then t1 ← now; t2 ← now;
          mret (BatchStatus.set_files_total t2 scan_total
                  (BatchStatus.set_work_units_total t1 scan_total status))
     else mret status);
  let status := status
    <| BatchStatus.work_units_completed := completed n |>
    <| BatchStatus.work_units_failed := failed n |>
    <| BatchStatus.work_units_active := processing n |>
    <| BatchStatus.files_completed := completed n |>
    <| BatchStatus.files_failed := failed n |>
    <| BatchStatus.files_active := processing n |>
    <| BatchStatus.failed_work_units := failed_units n |> in
  status ←
    (if bool_decide (BatchStatus.phase status = BatchPhase.Failed)
        && (failed n =? 0) && ((0 <? completed n) || (0 <? processing n))
     then t ← now;
          mret (BatchStatus.transition_to t BatchPhase.Running
                  (status <| BatchStatus.error := None |>
                          <| BatchStatus.failed_work_units := [] |>
                          <| BatchStatus.completed_at := None |>))
     else mret status);
  if BatchStatus.should_fail (BatchJobSpec.backoff_limit (BatchSpec.spec spec)) status then
    t ← now;
    let status := BatchStatus.transition_to t BatchPhase.Failed status in
    mret (status <| BatchStatus.error :=
      Some ("Backoff limit exceeded: " +:+ dec (BatchStatus.work_units_failed status)
            +:+ " work units failed") |>)
  else if BatchStatus.is_complete status && (0 <? BatchStatus.work_units_failed status) then
    t ← now;
    let status := BatchStatus.transition_to t BatchPhase.Failed status in
    mret (status <| BatchStatus.error :=
      Some (dec (BatchStatus.work_units_failed status) +:+ " of "
            +:+ dec (BatchStatus.work_units_total status) +:+ " work units failed") |>)
  else mret status.

(** [BatchController::reconcile_discovering]. *)
Definition reconcile_discovering (c : t) (spec : BatchSpec.t) (status : BatchStatus.t)
  : Tikv BatchStatus.t :=
  let status := match BatchStatus.discovery_status status with
    | None => status <| BatchStatus.discovery_status :=
        Some (DiscoveryStatus.new (as_u32 (Z.of_nat (length (BatchJobSpec.sources (BatchSpec.spec spec)))))) |>
    | Some _ => status
    end in
  t ← now;
  let age_secs := Z.abs (num_seconds (BatchStatus.updated_at status - t)) in
  let timeout_secs := as_secs (ControllerConfig.discovery_timeout (config c)) in
  if timeout_secs <? age_secs then
    t' ← now;
    mret (BatchStatus.transition_to t' BatchPhase.Failed status
            <| BatchStatus.error :=
                 Some ("Discovery timeout: exceeded " +:+ dec timeout_secs +:+ " seconds") |>)
  else mret status.

(** [BatchController::reconcile_phase]. *)
Definition reconcile_phase (c : t) (spec : BatchSpec.t) (status : BatchStatus.t)
  : Tikv BatchStatus.t :=
  match BatchStatus.phase status with
  | BatchPhase.Pending =>
      match BatchSpec.validate spec with
      | Err e =>
          t ← now;
          mret (BatchStatus.transition_to t BatchPhase.Failed status
                  <| BatchStatus.error := Some ("Validation failed: " +:+ spec_error_text e) |>)
      | Panic s => panic s
      | Ok _ =>
          t ← now;
          mret (BatchStatus.transition_to t BatchPhase.Discovering status
                  <| BatchStatus.discovery_status :=
                       Some (DiscoveryStatus.new (as_u32 (Z.of_nat (length (BatchJobSpec.sources (BatchSpec.spec spec)))))) |>)
      end
  | BatchPhase.Discovering => reconcile_discovering c spec status
  | BatchPhase.Running | BatchPhase.Failed => reconcile_running c spec status
  | BatchPhase.Merging => mret status
  | BatchPhase.Complete | BatchPhase.Cancelled => mret status
  | BatchPhase.Suspending | BatchPhase.Suspended => mret status
  end.

(** [BatchController::reconcile_batch]. *)
Definition reconcile_batch (c : t) (spec_data : string) : Tikv unit :=
  spec ← of_sum (fun e => TikvError.Deserialization ("batch spec: " +:+ e)) (decode (A:=BatchSpec.t) spec_data);
  let batch_id := batch_id_from_spec spec in
  data ← TikvClient.get (client c) (BatchKeys.status batch_id);
  status ← match data with
    | Some data => of_sum (fun e => TikvError.Deserialization ("batch status: " +:+ e))
                     (decode (A:=BatchStatus.t) data)
    | None => t ← now; mret (BatchStatus.new t)
    end;
  match BatchStatus.phase status with
  | BatchPhase.Complete | BatchPhase.Cancelled => mret tt
  | old_phase =>
      new_status ← reconcile_phase c spec status;
      save_status c batch_id new_status;;
      if decide (old_phase = BatchStatus.phase new_status) then mret tt
      else update_phase_index (client c) batch_id old_phase (BatchStatus.phase new_status)
  end.

(** [BatchController::reconcile_batch_id]. *)
Definition reconcile_batch_id (c : t) (batch_id : string) : Tikv unit :=
  spec_data ← TikvClient.get (client c) (BatchKeys.spec batch_id);
  match spec_data with
  | Some data => reconcile_batch c data
  | None => throw (TikvError.Other ("Spec not found for batch_id " +:+ batch_id))
  end.

(** The phases [reconcile_all] scans, in its order. *)
Definition active_phases : list BatchPhase.t :=
  [BatchPhase.Pending; BatchPhase.Discovering; BatchPhase.Running; BatchPhase.Merging;
   BatchPhase.Suspending; BatchPhase.Suspended; BatchPhase.Failed].

(** Its first loop: the ids in the phase indexes. *)
Fixpoint collect_batch_ids (c : t) (phases : list BatchPhase.t) (batch_ids : list string)
  : Tikv (list string) :=
  match phases with
  | [] => mret batch_ids
  | phase :: rest =>
      results ← TikvClient.scan (client c) (BatchIndexKeys.phase_prefix phase) 1000;
      let batch_ids := batch_ids ++ ((fun e => last_segment slash e.1) <$> results) in
      if ControllerConfig.max_batches_per_loop (config c) <=? Z.of_nat (length batch_ids)
      then mret batch_ids
      else collect_batch_ids c rest batch_ids
  end.

(** Its second loop: the ids whose reconciliation failed. *)
Fixpoint reconcile_each (c : t) (batch_ids failed_batches : list string) : Tikv (list string) :=
  match batch_ids with
  | [] => mret failed_batches
  | batch_id :: rest =>
      spec_data ← TikvClient.get (client c) (BatchKeys.spec batch_id);
      match spec_data with
      | None => reconcile_each c rest failed_batches
      | Some data =>
          r ← try_ (reconcile_batch c data);
          match r with
          | Ok _ => reconcile_each c rest failed_batches
          | Err _ => reconcile_each c rest (failed_batches ++ [batch_id])
          | Panic s => panic s
          end
      end
  end.

(** [failed_batches.join(", ")]. *)
Definition join (sep : string) (l : list string) : string :=
  match l with
  | [] => ""
  | x :: l' => foldl (fun acc y => acc +:+ sep +:+ y) x l'
  end.

(** [BatchController::reconcile_all]. *)
Definition reconcile_all (c : t) : Tikv unit :=
  batch_ids ← collect_batch_ids c active_phases [];
  failed_batches ← reconcile_each c batch_ids [];
  match failed_batches with
  | [] => mret tt
  | _ => throw (TikvError.Other ("Failed to reconcile " +:+ dec (Z.of_nat (length failed_batches))
                  +:+ " batch(es): " +:+ join ", " failed_batches))
  end.

(** One round of [BatchController::run]. *)
Definition run_iteration (c : t) : Tikv unit :=
  ignore (reconcile_all c);;
  sleep_for (ControllerConfig.reconcile_interval (config c)).

(** [BatchController::submit_batch]. *)
Definition submit_batch (c : t) (spec : BatchSpec.t) : Tikv string :=
  let batch_id := batch_id_from_spec spec in
  lift (map_err (fun e => TikvError.Other ("Validation failed: " +:+ spec_error_text e))
          (BatchSpec.validate spec));;
  t ← now;
  let status := BatchStatus.new t in
  spec_data ← of_sum (fun e => TikvError.Serialization ("yaml: " +:+ e)) (encode spec);
  status_data ← of_sum TikvError.Serialization (encode status);
  TikvClient.batch_put (client c)
    [(BatchKeys.spec batch_id, spec_data); (BatchKeys.status batch_id, status_data);
     (BatchIndexKeys.phase BatchPhase.Pending batch_id, ""%string)];;
  mret batch_id.

(** [BatchController::get_batch_status], [get_batch_spec]. *)
Definition get_batch_status (c : t) (batch_id : string) : Tikv (option BatchStatus.t) :=
  TikvClient.get_record (client c) (BatchKeys.status batch_id).
Definition get_batch_spec (c : t) (batch_id : string) : Tikv (option BatchSpec.t) :=
  TikvClient.get_record (client c) (BatchKeys.spec batch_id).

(** The loop of [BatchController::list_batches]. *)
Fixpoint summarise (c : t) (specs : list (string * string)) (summaries : list BatchSummary.t)
  : Tikv (list BatchSummary.t) :=
  match specs with
  | [] => mret summaries
  | (key, _) :: rest =>
      let batch_id := last_segment slash key in
      status ← get_batch_status c batch_id;
      match status with
      | None => summarise c rest summaries
      | Some status =>
          spec ← get_batch_spec c batch_id;
          match spec with
          | None => summarise c rest summaries
          | Some spec =>
              let md := BatchSpec.metadata spec in
              summarise c rest (summaries ++ [
                {| BatchSummary.id := batch_id;
                   BatchSummary.name := default (BatchMetadata.name md) (BatchMetadata.display_name md);
                   BatchSummary.namespace := BatchMetadata.namespace md;
                   BatchSummary.phase := BatchStatus.phase status;
                   BatchSummary.files_total := BatchStatus.files_total status;
                   BatchSummary.files_completed := BatchStatus.files_completed status;
                   BatchSummary.files_failed := BatchStatus.files_failed status;
                   BatchSummary.created_at := BatchMetadata.created_at md;
                   BatchSummary.started_at := BatchStatus.started_at status;
                   BatchSummary.completed_at := BatchStatus.completed_at status |}])
          end
      end
  end.

(** [BatchController::list_batches]. *)
Definition list_batches (c : t) : Tikv (list BatchSummary.t) :=
  specs ← TikvClient.scan (client c) BatchKeys.specs_prefix 1000;
  summarise c specs [].

(** [BatchController::cancel_batch]. *)
Definition cancel_batch (c : t) (batch_id : string) : Tikv bool :=
  status ← get_batch_status c batch_id;
  match status with
  | None => mret false
  | Some status =>
      if negb (BatchPhase.is_active (BatchStatus.phase status))
         && negb (bool_decide (BatchStatus.phase status = BatchPhase.Pending))
      then mret false
      else
        let old_phase := BatchStatus.phase status in
        t ← now;
        save_status c batch_id (BatchStatus.transition_to t BatchPhase.Cancelled status);;
        update_phase_index (client c) batch_id old_phase BatchPhase.Cancelled;;
        mret true
  end.

(** The batch and unit ids a pending key names, as [claim_work_unit] parses it. *)
Definition pending_target (pending_key : string) : option (string * string) :=
  match strip_prefix WorkUnitKeys.pending_prefix pending_key with
  | Some s => split_once slash (trim_start_char slash s)
  | None => None
  end.

(** The closure [claim_work_unit] passes to [transactional_claim]. *)
Definition claim_processor (worker_id : string) (data : string) : M S string (option string) :=
  unit ← of_sum id (decode (A:=WorkUnit.t) data);
  t ← now;
  match WorkUnit.claim t worker_id unit with
  | Ok unit => new_data ← of_sum id (encode unit); mret (Some new_data)
  | _ => mret None
  end.

(** [BatchController::claim_work_unit]. *)
Definition claim_work_unit (c : t) (worker_id : string) : Tikv (option WorkUnit.t) :=
  pending ← TikvClient.scan (client c) WorkUnitKeys.pending_prefix 1;
  match pending with
  | [] => mret None
  | (pending_key, _) :: _ =>
      match pending_target pending_key with
      | None => mret None
      | Some (batch_id, unit_id) =>
          result ← TikvClient.transactional_claim (client c) (WorkUnitKeys.unit batch_id unit_id)
                     pending_key (claim_processor worker_id);
          match result with
          | None => mret None
          | Some data =>
              unit ← of_sum (fun e => TikvError.Deserialization ("work unit: " +:+ e))
                       (decode (A:=WorkUnit.t) data);
              mret (Some unit)
          end
      end
  end.

(** [BatchController::complete_work_unit]. *)
Definition complete_work_unit (c : t) (batch_id unit_id : string) : Tikv bool :=
  let key := WorkUnitKeys.unit batch_id unit_id in
  data ← TikvClient.get (client c) key;
  match data with
  | None => mret false
  | Some data =>
      unit ← of_sum TikvError.Deserialization (decode (A:=WorkUnit.t) data);
      t ← now;
      new_data ← of_sum TikvError.Serialization (encode (WorkUnit.complete t unit));
      TikvClient.put (client c) key new_data;;
      mret true
  end.

(** [BatchController::fail_work_unit]. *)
Definition fail_work_unit (c : t) (batch_id unit_id error : string) : Tikv bool :=
  let key := WorkUnitKeys.unit batch_id unit_id in
  data ← TikvClient.get (client c) key;
  match data with
  | None => mret false
  | Some data =>
      unit ← of_sum TikvError.Deserialization (decode (A:=WorkUnit.t) data);
      t ← now;
      let unit := WorkUnit.fail t error unit in
      new_data ← of_sum TikvError.Serialization (encode unit);
      TikvClient.put (client c) key new_data;;
      if decide (WorkUnit.status unit = WorkUnitStatus.Failed)
      then TikvClient.put (client c) (WorkUnitKeys.pending batch_id unit_id) batch_id;; mret true
      else mret true
  end.

End Ops.
End BatchController.

(** ** Claims *)
Section Claims.
Import BatchController.
Context {S : Type} `{TransactionClientLaws S} `{!HealthyRuns S}.
Context `{Codec BatchSpec.t, Codec BatchStatus.t} `{LawfulCodec WorkUnit.t}.

(** The key a unit belongs under. *)
Definition unit_key (u : WorkUnit.t) : string := WorkUnitKeys.unit (WorkUnit.batch_id u) (WorkUnit.id u).

(** The unit stored under a key. *)
Definition unit_at (k : string) (m : gmap string string) : option WorkUnit.t :=
  match m !! k with
  | Some b => match decode b with inr u => Some u | inl _ => None end
  | None => None
  end.

(** The pending entry [claim_work_unit] looks at, and the unit it names. *)
Definition head_target (m : gmap string string) : option (string * string) :=
  match kv_scan WorkUnitKeys.pending_prefix (scan_end WorkUnitKeys.pending_prefix) 1 m with
  | (pk, _) :: _ =>
      match pending_target pk with Some (b, i) => Some (pk, WorkUnitKeys.unit b i) | None => None end
  | [] => None
  end.

(** The unit named by the first pending entry is claimed for [worker] as [u], and
    its entry removed. *)
Definition claims (worker : string) (m m' : gmap string string) (u : WorkUnit.t) : Prop :=
  exists pk uk u0 t b,
    head_target m = Some (pk, uk) /\ unit_at uk m = Some u0 /\
    WorkUnit.claim t worker u0 = Ok u /\ encode u = inr b /\ m' = base.delete pk (<[uk := b]> m).

(** The first pending entry names no unit and is removed. *)
Definition drops_stale (m m' : gmap string string) : Prop :=
  exists pk uk, head_target m = Some (pk, uk) /\ m !! uk = None /\ m' = base.delete pk m.

Context (c : BatchController.t) (Hc : client_ok (client c)).

Lemma wp_claim_work_unit worker (Q : result TikvError.t (option WorkUnit.t) -> World S -> Prop) w :
  (forall u w', later w w' -> claims worker (kv w) (kv w') u -> Q (Ok (Some u)) w') ->
  (forall w', later w w' -> kv w' = kv w \/ drops_stale (kv w) (kv w') -> Q (Ok None) w') ->
  (forall e w', later w w' ->
     kv w' = kv w \/ drops_stale (kv w) (kv w') \/ (exists u, claims worker (kv w) (kv w') u) ->
     Q (Err e) w') ->
  wp (claim_work_unit c worker) Q w.
Proof.
  intros HSome HNone HErr. pose proof Hc as [Hi _]. unfold claim_work_unit. wp_step.
  apply wp_scan; [done| |intros e w1 [Hc1 _]; apply HErr; [world|left; by destruct Hc1]].
  intros w1 Hc1. destruct (kv_scan _ _ 1 (kv w)) as [|[pk v] rest] eqn:Escan.
  { wp_step. apply HNone; [world|left; by destruct Hc1]. }
  destruct (pending_target pk) as [[b i]|] eqn:Et.
  2: { wp_step. apply HNone; [world|left; by destruct Hc1]. }
  assert (head_target (kv w) = Some (pk, WorkUnitKeys.unit b i)) as Hhead.
  { unfold head_target. by rewrite Escan, Et. }
  assert (kv w1 = kv w) as Ekv by (by destruct Hc1).
  wp_step. apply wp_transactional_claim; [done|..].
  - intros data w2 Hdata Hc2. rewrite Ekv in Hdata. unfold claim_processor.
    do 2 wp_step. destruct (decode data) as [err|u0] eqn:Ed.
    { apply HErr; [world|left; kv_eq]. }
    assert (unit_at (WorkUnitKeys.unit b i) (kv w) = Some u0) as Hat.
    { unfold unit_at. by rewrite Hdata, Ed. }
    do 2 wp_step.
    match goal with |- context [WorkUnit.claim ?t1 worker u0] => destruct (WorkUnit.claim t1 worker u0) as [u|e|s] eqn:Ecl end.
    2,3: wp_step; split; [world|]; intros w4 Hc4; wp_step; apply HNone; [world|left; kv_eq].
    do 2 wp_step. destruct (encode_total u) as [bytes Hb]. rewrite Hb.
    wp_step. split; [world|]. split.
    + intros w4 Hl4 [Hl4' Hk4]. do 2 wp_step. rewrite (decode_encode _ _ Hb). wp_step.
      apply HSome; [world|]. repeat eexists; try done. rewrite Hk4, Ekv. done.
    + intros e w4 (Hl4 & _ & Hk4). apply HErr; [world|]. destruct Hk4 as [Hk4|Hk4]; [left; kv_eq|right; right].
      repeat eexists; try done. rewrite Hk4, Ekv. done.
  - intros Hdata. rewrite Ekv in Hdata. split.
    + intros w4 [Hl4 Hk4]. wp_step. apply HNone; [world|right]. repeat eexists; try done. by rewrite Hk4, Ekv.
    + intros e w4 (Hl4 & _ & Hk4). apply HErr; [world|]. rewrite Ekv in Hk4.
      destruct Hk4; [by left|right; left]. by repeat eexists.
  - intros e w4 [Hc4 _]. apply HErr; [world|left; kv_eq].
Qed.

(** Every stored unit is under its own key. *)
Definition units_wf (m : gmap string string) : Prop :=
  forall b i u, unit_at (WorkUnitKeys.unit b i) m = Some u -> WorkUnitKeys.unit b i = unit_key u.

Lemma pending_prefix_ne_unit x b i : WorkUnitKeys.pending_prefix +:+ x <> WorkUnitKeys.unit b i.
Proof.
  intros E. unfold WorkUnitKeys.pending_prefix, WorkUnitKeys.unit in E. rewrite !key_of_joined in E.
  cbv in E. discriminate E.
Qed.

Lemma head_target_keys m pk uk :
  head_target m = Some (pk, uk) ->
  (exists b i, uk = WorkUnitKeys.unit b i /\ pending_target pk = Some (b, i)) /\
  is_Some (m !! pk) /\ forall b i, pk <> WorkUnitKeys.unit b i.
Proof.
  unfold head_target. destruct (kv_scan _ _ _ _) as [|[k v] rest] eqn:E; [done|].
  destruct (pending_target k) as [[b i]|] eqn:Et; [|done]. intros [= -> <-].
  assert ((pk, v) ∈ kv_scan WorkUnitKeys.pending_prefix (scan_end WorkUnitKeys.pending_prefix) 1 m) as Hin.
  { rewrite E. by left. }
  apply elem_of_kv_scan in Hin as [Hm Hr]. apply in_range_prefix in Hr as [x ->].
  split; [by exists b, i|]. split; [by exists v|]. intros b' i'. apply pending_prefix_ne_unit.
Qed.

Lemma unit_at_delete pk b i m :
  (forall b i, pk <> WorkUnitKeys.unit b i) ->
  unit_at (WorkUnitKeys.unit b i) (base.delete pk m) = unit_at (WorkUnitKeys.unit b i) m.
Proof. intros Hne. unfold unit_at. by rewrite lookup_delete_ne by done. Qed.

Lemma unit_at_insert uk u bytes b i m :
  encode u = inr bytes ->
  unit_at (WorkUnitKeys.unit b i) (<[uk := bytes]> m) =
  if decide (uk = WorkUnitKeys.unit b i) then Some u else unit_at (WorkUnitKeys.unit b i) m.
Proof.
  intros Hb. unfold unit_at. case_decide as E.
  - by rewrite E, lookup_insert_eq, (decode_encode _ _ Hb).
  - by rewrite lookup_insert_ne.
Qed.

Lemma claim_same_key now w u u' : WorkUnit.claim now w u = Ok u' -> unit_key u' = unit_key u.
Proof. intros [_ ->]%claim_Ok_iff. done. Qed.

(** The effect of a claim on the stored units. *)
Lemma claims_effect worker m m' u :
  units_wf m -> claims worker m m' u ->
  units_wf m' /\
  (exists u0, unit_at (unit_key u) m = Some u0 /\ WorkUnit.is_claimable u0 = true /\
              WorkUnit.attempts u = u32_add (WorkUnit.attempts u0) 1) /\
  unit_at (unit_key u) m' = Some u /\
  WorkUnit.status u = WorkUnitStatus.Processing /\ WorkUnit.owner u = Some worker /\
  (forall b i, WorkUnitKeys.unit b i <> unit_key u ->
     unit_at (WorkUnitKeys.unit b i) m' = unit_at (WorkUnitKeys.unit b i) m).
Proof.
  intros Hwf (pk & uk & u0 & t & bytes & Hhead & Hat & Hcl & Hb & ->).
  destruct (head_target_keys _ _ _ Hhead) as ((b & i & -> & _) & _ & Hne).
  assert (WorkUnitKeys.unit b i = unit_key u) as Ekey.
  { rewrite (claim_same_key _ _ _ _ Hcl). by apply Hwf. }
  assert (forall b' i', unit_at (WorkUnitKeys.unit b' i') (base.delete pk (<[WorkUnitKeys.unit b i := bytes]> m)) =
    if decide (WorkUnitKeys.unit b i = WorkUnitKeys.unit b' i') then Some u
    else unit_at (WorkUnitKeys.unit b' i') m) as Hget.
  { intros. rewrite unit_at_delete by done. by apply unit_at_insert. }
  split.
  { intros b' i' u' Hu'. rewrite Hget in Hu'. case_decide as E; [|by apply Hwf].
    injection Hu' as <-. congruence. }
  rewrite <- Ekey. apply claim_Ok_iff in Hcl as [Hcl ->].
  split; [by exists u0|]. split; [rewrite Hget; by rewrite decide_True|]. split; [done|]. split; [done|].
  intros b' i' Hk. rewrite Hget. by rewrite decide_False.
Qed.

Lemma drops_stale_effect m m' b i :
  drops_stale m m' -> unit_at (WorkUnitKeys.unit b i) m' = unit_at (WorkUnitKeys.unit b i) m.
Proof.
  intros (pk & uk & Hhead & _ & ->). apply unit_at_delete. by apply head_target_keys in Hhead as (_ & _ & ?).
Qed.

End Claims.

(** ** Claims under interleaving *)
Section ClaimRuns.
Import BatchController.
Context {S : Type} `{TransactionClientLaws S} `{!HealthyRuns S}.
Context `{Codec BatchSpec.t, Codec BatchStatus.t} `{LawfulCodec WorkUnit.t}.

(** A run of [claim_work_unit] calls of any workers through any clients, with the
    units granted to them.  Calls may fail at any point; a call that failed after
    its commit took effect grants nothing. *)
Inductive claim_run : S -> list WorkUnit.t -> S -> Prop :=
| claim_run_nil s : claim_run s [] s
| claim_run_cons c b worker s r w' us s' :
    client_ok (client c) -> claim_work_unit c worker (mkWorld s b) = (r, w') ->
    claim_run (env w') us s' ->
    claim_run s (match r with Ok (Some u) => u :: us | _ => us end) s'.

(** What one call may do to the store. *)
Lemma claim_call_cases c b worker s r (w' : World S) :
  client_ok (client c) -> claim_work_unit c worker (mkWorld s b) = (r, w') ->
  match r with
  | Ok (Some u) => claims worker (committed s) (kv w') u
  | _ => kv w' = committed s \/ drops_stale (committed s) (kv w') \/ exists u, claims worker (committed s) (kv w') u
  end.
Proof.
  intros Hc E. wp_run E. apply wp_claim_work_unit; [done|..].
  - intros u w1 _ Hcl. exact Hcl.
  - intros w1 _ [Hk|Hk]; [by left|right; by left].
  - intros e w1 _ Hk. exact Hk.
Qed.

(** Once a unit is processing, no call grants it. *)
Lemma processing_not_granted s us s' b i u0 :
  claim_run s us s' -> units_wf (committed s) ->
  unit_at (WorkUnitKeys.unit b i) (committed s) = Some u0 ->
  WorkUnit.status u0 = WorkUnitStatus.Processing ->
  Forall (fun u => unit_key u <> WorkUnitKeys.unit b i) us /\ units_wf (committed s').
Proof.
  intros Hrun. induction Hrun as [s|c br worker s r w' us s' Hc E Hrun IH]; intros Hwf Hat Hst; [done|].
  pose proof (claim_call_cases _ _ _ _ _ _ Hc E) as Hcase.
  assert (forall u, claims worker (committed s) (kv w') u ->
    unit_key u <> WorkUnitKeys.unit b i /\ units_wf (kv w') /\
    unit_at (WorkUnitKeys.unit b i) (kv w') = Some u0) as Hclaim.
  { intros u Hcl. destruct (claims_effect _ _ _ _ Hwf Hcl) as (Hwf' & (u1 & Hu1 & Hcl1 & _) & _ & _ & _ & Hoth).
    assert (unit_key u <> WorkUnitKeys.unit b i) as Hne.
    { intros Ek. rewrite Ek, Hat in Hu1. injection Hu1 as <-. unfold WorkUnit.is_claimable in Hcl1.
      by rewrite Hst in Hcl1. }
    split; [done|]. split; [done|]. rewrite Hoth by done. exact Hat. }
  assert (units_wf (kv w') /\ unit_at (WorkUnitKeys.unit b i) (kv w') = Some u0) as [Hwf' Hat'].
  { destruct r as [[u|]|e|x]; [by apply (Hclaim u)|..];
      (destruct Hcase as [->|[Hd|[u Hu]]]; [done| |by apply (Hclaim u)]);
      (split; [intros b' i' u' Hu'; rewrite (drops_stale_effect _ _ _ _ Hd) in Hu'; by apply Hwf
              |by rewrite (drops_stale_effect _ _ _ _ Hd)]). }
  destruct (IH Hwf' Hat' Hst) as [Hus Hwf2]. split; [|done].
  destruct r as [[u|]|e|x]; [|done..]. constructor; [by apply Hclaim|done].
Qed.

(** C1: no unit is granted twice.  In every run of [claim_work_unit] calls by any
    workers and clients, with any failures between and inside the calls, the units
    granted are pairwise different (units being stored under their own keys), and
    each is granted processing and owned by a worker. *)
Theorem claims_never_overlap s us s' :
  units_wf (committed s) -> claim_run s us s' ->
  NoDup (unit_key <$> us) /\
  Forall (fun u => WorkUnit.status u = WorkUnitStatus.Processing /\ is_Some (WorkUnit.owner u)) us.
Proof.
  intros Hwf Hrun. induction Hrun as [s|c br worker s r w' us s' Hc E Hrun IH]; [split; constructor|].
  pose proof (claim_call_cases _ _ _ _ _ _ Hc E) as Hcase.
  assert (units_wf (kv w')) as Hwf'.
  { destruct r as [[u|]|e|x]; [by eapply claims_effect|..];
      (destruct Hcase as [->|[Hd|[u Hu]]]; [done| |by eapply claims_effect]);
      intros b' i' u' Hu'; rewrite (drops_stale_effect _ _ _ _ Hd) in Hu'; by apply Hwf. }
  destruct (IH Hwf') as [Hnd Hall]. destruct r as [[u|]|e|x]; [|done..].
  destruct (claims_effect _ _ _ _ Hwf Hcase) as (_ & _ & Hat & Hst & Hown & _).
  destruct (processing_not_granted _ _ _ (WorkUnit.batch_id u) (WorkUnit.id u) u Hrun Hwf' Hat Hst) as [Hne _].
  cbn. split.
  - constructor; [|done]. intros Hin. apply list_elem_of_fmap in Hin as (u2 & Ek & Hu2).
    rewrite Forall_forall in Hne. by apply (Hne u2).
  - constructor; [|done]. split; [done|]. rewrite Hown. by eexists.
Qed.

End ClaimRuns.

(** ** Failing, completing and requeueing *)
Section Outcomes.
Import BatchController.
Context {S : Type} `{TransactionClientLaws S} `{!HealthyRuns S}.
Context `{Codec BatchSpec.t, Codec BatchStatus.t} `{LawfulCodec WorkUnit.t}.
Context (c : BatchController.t) (Hc : client_ok (client c)).

(** A pending entry names its unit.  For a non-empty batch id without ['/'],
    the key under which a unit is queued is parsed back to its batch and unit id. *)
Theorem pending_key_round_trip b i :
  b <> ""%string -> slash_free b = true -> pending_target (WorkUnitKeys.pending b i) = Some (b, i).
Proof using.
  intros Hne Hb. unfold pending_target, WorkUnitKeys.pending.
  change ["batch"; "pending"; b; i]%string with (["batch"; "pending"]%string ++ [b; i]).
  rewrite key_of_app. unfold WorkUnitKeys.pending_prefix. rewrite strip_prefix_app.
  cbn [joined]. rewrite string_app_nil_r. cbn [trim_start_char]. rewrite ascii_eqb_refl.
  destruct b as [|a b]; [done|]. cbn in Hb. apply andb_true_iff in Hb as [Ha Hb].
  rewrite string_app_cons. cbn [trim_start_char]. apply negb_true_iff in Ha. rewrite Ha.
  rewrite <- string_app_cons. apply split_once_app. cbn. by rewrite Ha, Hb.
Qed.

(** The store after a failure was recorded. *)
Definition failed_store (b i : string) (u : WorkUnit.t) (bytes : string) (m : gmap string string)
  : gmap string string :=
  let m := <[WorkUnitKeys.unit b i := bytes]> m in
  if decide (WorkUnit.status u = WorkUnitStatus.Failed) then <[WorkUnitKeys.pending b i := b]> m else m.

Lemma wp_complete_work_unit b i (Q : result TikvError.t bool -> World S -> Prop) w :
  (kv w !! WorkUnitKeys.unit b i = None -> forall w', calm w w' -> Q (Ok false) w') ->
  (forall u t bytes w', unit_at (WorkUnitKeys.unit b i) (kv w) = Some u ->
     encode (WorkUnit.complete t u) = inr bytes -> wrote <[WorkUnitKeys.unit b i := bytes]> w w' ->
     Q (Ok true) w') ->
  (forall e w', later w w' -> ~ ready w \/ (is_Some (kv w !! WorkUnitKeys.unit b i) /\ unit_at (WorkUnitKeys.unit b i) (kv w) = None) ->
     Q (Err e) w') ->
  wp (complete_work_unit c b i) Q w.
Proof.
  intros HNone HOk HErr. destruct Hc as [Hi Hr]. unfold complete_work_unit. wp_step.
  apply wp_get; [done| |intros e w1 [Hc1 Hn]; apply HErr; [world|by left]].
  intros w1 Hc1. destruct (kv w !! WorkUnitKeys.unit b i) as [data|] eqn:Ek; [|wp_step; by apply HNone].
  do 2 wp_step. destruct (decode data) as [err|u] eqn:Ed.
  { apply HErr; [world|right]. split; [by eexists|]. unfold unit_at. by rewrite Ek, Ed. }
  assert (unit_at (WorkUnitKeys.unit b i) (kv w) = Some u) as Hat by (unfold unit_at; by rewrite Ek, Ed).
  do 4 wp_step. match goal with Ht : clock _ <= ?x <= _ |- _ => rename x into tn end.
  destruct (encode_total (WorkUnit.complete tn u)) as [bytes Hb]. rewrite Hb.
  wp_step. apply wp_put; [done|done| |].
  - intros w3 [Hl3 Hk3]. wp_step. eapply HOk; [done|done|]. split; [world|kv_eq].
  - intros e w3 (Hl3 & Hn3 & _). apply HErr; [world|left; world].
Qed.

Lemma wp_fail_work_unit b i err (Q : result TikvError.t bool -> World S -> Prop) w :
  (kv w !! WorkUnitKeys.unit b i = None -> forall w', calm w w' -> Q (Ok false) w') ->
  (forall u t bytes w', unit_at (WorkUnitKeys.unit b i) (kv w) = Some u ->
     encode (WorkUnit.fail t err u) = inr bytes ->
     wrote (failed_store b i (WorkUnit.fail t err u) bytes) w w' -> Q (Ok true) w') ->
  (forall e w', later w w' -> ~ ready w \/ (is_Some (kv w !! WorkUnitKeys.unit b i) /\ unit_at (WorkUnitKeys.unit b i) (kv w) = None) ->
     Q (Err e) w') ->
  wp (fail_work_unit c b i err) Q w.
Proof.
  intros HNone HOk HErr. destruct Hc as [Hi Hr]. unfold fail_work_unit. wp_step.
  apply wp_get; [done| |intros e w1 [Hc1 Hn]; apply HErr; [world|by left]].
  intros w1 Hc1. destruct (kv w !! WorkUnitKeys.unit b i) as [data|] eqn:Ek; [|wp_step; by apply HNone].
  do 2 wp_step. destruct (decode data) as [derr|u] eqn:Ed.
  { apply HErr; [world|right]. split; [by eexists|]. unfold unit_at. by rewrite Ek, Ed. }
  assert (unit_at (WorkUnitKeys.unit b i) (kv w) = Some u) as Hat by (unfold unit_at; by rewrite Ek, Ed).
  do 4 wp_step. match goal with Ht : clock _ <= ?x <= _ |- _ => rename x into tn end.
  destruct (encode_total (WorkUnit.fail tn err u)) as [bytes Hb]. rewrite Hb.
  wp_step. apply wp_put; [done|done| |].
  - intros w3 [Hl3 Hk3]. destruct (decide (WorkUnit.status (WorkUnit.fail tn err u) = WorkUnitStatus.Failed)) as [Hf|Hf].
    + wp_step. apply wp_put; [done|done| |].
      * intros w4 [Hl4 Hk4]. wp_step. eapply HOk; [done|done|]. split; [world|].
        unfold failed_store. rewrite decide_True by done. kv_eq.
      * intros e w4 (Hl4 & Hn4 & _). apply HErr; [world|left; world].
    + wp_step. eapply HOk; [done|done|]. split; [world|].
      unfold failed_store. rewrite decide_False by done. kv_eq.
  - intros e w3 (Hl3 & Hn3 & _). apply HErr; [world|left; world].
Qed.

(** A failed unit is retried, then given up.  With every call answered,
    [fail_work_unit] of a stored unit returns [true]; a unit with attempts left is
    stored claimable and queued under its pending key (which names it), one without
    is stored dead, and not queued. *)
Theorem failed_unit_requeued b i err u (w : World S) r w' :
  ready w -> unit_at (WorkUnitKeys.unit b i) (kv w) = Some u ->
  fail_work_unit c b i err w = (r, w') ->
  r = Ok true /\
  exists u', unit_at (WorkUnitKeys.unit b i) (kv w') = Some u' /\ WorkUnit.owner u' = None /\
    if WorkUnit.attempts u <? WorkUnit.max_attempts u
    then WorkUnit.is_claimable u' = true /\ kv w' !! WorkUnitKeys.pending b i = Some b
    else WorkUnit.status u' = WorkUnitStatus.Dead /\
         kv w' !! WorkUnitKeys.pending b i = kv w !! WorkUnitKeys.pending b i.
Proof.
  intros Hw Hu E. wp_run E. apply wp_fail_work_unit.
  - intros Hn. unfold unit_at in Hu. by rewrite Hn in Hu.
  - intros u1 t bytes w1 Hu1 Hb [Hl Hk]. rewrite Hu in Hu1. injection Hu1 as <-.
    split; [done|]. exists (WorkUnit.fail t err u). rewrite Hk. unfold failed_store.
    assert (unit_at (WorkUnitKeys.unit b i) (<[WorkUnitKeys.unit b i:=bytes]> (kv w)) = Some (WorkUnit.fail t err u)) as Hat.
    { rewrite (unit_at_insert _ _ _ _ _ _ Hb). by rewrite decide_True. }
    assert (WorkUnit.status (WorkUnit.fail t err u) =
      if WorkUnit.max_attempts u <=? WorkUnit.attempts u then WorkUnitStatus.Dead else WorkUnitStatus.Failed)
      as Est by reflexivity.
    assert (WorkUnitKeys.pending b i <> WorkUnitKeys.unit b i) as Hne by apply pending_ne_unit.
    destruct (Z.ltb_spec (WorkUnit.attempts u) (WorkUnit.max_attempts u)) as [Hlt|Hge].
    + rewrite (proj2 (Z.leb_gt _ _) Hlt) in Est. rewrite decide_True by done.
      split; [unfold unit_at in *; by rewrite lookup_insert_ne|]. split; [done|].
      split; [|apply lookup_insert_eq]. unfold WorkUnit.is_claimable. rewrite Est. by apply Z.ltb_lt.
    + rewrite (proj2 (Z.leb_le _ _) Hge) in Est. rewrite decide_False by (by rewrite Est).
      split; [exact Hat|]. split; [done|]. split; [done|]. by apply lookup_insert_ne.
  - intros e w1 _ [?|[_ ?]]; [done|congruence].
Qed.

(** Completion is not guarded by the status.  With every call answered,
    [complete_work_unit] stores any unit as complete, also one that was cancelled or
    dead, although [can_transition_to] has no transition out of those. *)
Theorem completion_overwrites_terminal b i u (w : World S) r w' :
  ready w -> unit_at (WorkUnitKeys.unit b i) (kv w) = Some u ->
  complete_work_unit c b i w = (r, w') ->
  r = Ok true /\
  exists u', unit_at (WorkUnitKeys.unit b i) (kv w') = Some u' /\
    WorkUnit.status u' = WorkUnitStatus.Complete /\ WorkUnit.owner u' = None /\
    WorkUnit.attempts u' = WorkUnit.attempts u.
Proof.
  intros Hw Hu E. wp_run E. apply wp_complete_work_unit.
  - intros Hn. unfold unit_at in Hu. by rewrite Hn in Hu.
  - intros u1 t bytes w1 Hu1 Hb [Hl Hk]. rewrite Hu in Hu1. injection Hu1 as <-.
    split; [done|]. exists (WorkUnit.complete t u). rewrite Hk. split; [|done].
    rewrite (unit_at_insert _ _ _ _ _ _ Hb). by rewrite decide_True.
  - intros e w1 _ [?|[_ ?]]; [done|congruence].
Qed.

End Outcomes.

(** ** Reconciliation *)
Section Reconcile.
Import BatchController.
Context {S : Type} `{TransactionClientLaws S} `{!HealthyRuns S}.
Context `{LawfulCodec BatchSpec.t, LawfulCodec BatchStatus.t, LawfulCodec WorkUnit.t}.
Context (c : BatchController.t) (Hc : client_ok (client c)).

(** The units of a scan, and how many have a status. *)
Definition scanned (l : list (string * string)) : list WorkUnit.t :=
  omap (fun e => match decode e.2 with inr u => Some u | inl _ => None end) l.
Definition count (P : WorkUnitStatus.t -> bool) (us : list WorkUnit.t) : Z :=
  Z.of_nat (length (filter (fun u => P (WorkUnit.status u) = true) us)).

Definition is_complete_status (s : WorkUnitStatus.t) : bool :=
  match s with WorkUnitStatus.Complete => true | _ => false end.
Definition is_failed_status (s : WorkUnitStatus.t) : bool :=
  match s with WorkUnitStatus.Failed | WorkUnitStatus.Dead => true | _ => false end.
Definition is_processing_status (s : WorkUnitStatus.t) : bool :=
  match s with WorkUnitStatus.Processing => true | _ => false end.

Lemma count_cons P u us : count P (u :: us) = (if P (WorkUnit.status u) then 1 else 0) + count P us.
Proof.
  unfold count. rewrite filter_cons. destruct (P (WorkUnit.status u)) eqn:E.
  - rewrite decide_True by done. cbn [length]. lia.
  - rewrite decide_False by congruence. lia.
Qed.

Lemma count_nonneg P us : 0 <= count P us.
Proof. unfold count. lia. Qed.

Lemma count_app P us us' : count P (us ++ us') = count P us + count P us'.
Proof. unfold count. rewrite filter_app, length_app. lia. Qed.

(** The counters stay in range, and [k] entries were counted so far. *)
Definition tally_ok (k : Z) (n : Tally) : Prop :=
  0 <= completed n /\ 0 <= failed n /\ 0 <= processing n /\
  completed n + failed n + processing n <= k /\ Z.of_nat (length (failed_units n)) = failed n.

Lemma tally_entry_counts k acc e :
  tally_ok k acc -> k + 1 < u32_mod ->
  let n := tally_entry acc e in
  tally_ok (k + 1) n /\
  completed n = completed acc + count is_complete_status (scanned [e]) /\
  failed n = failed acc + count is_failed_status (scanned [e]) /\
  processing n = processing acc + count is_processing_status (scanned [e]).
Proof.
  intros (Hn1 & Hn2 & Hn3 & Hn4 & Hn5) Hk.
  assert (scanned [e] = match decode e.2 with inr u => [u] | inl _ => [] end) as ->.
  { unfold scanned. cbn. by destruct (decode e.2). }
  assert (forall x, 0 <= x <= k -> u32_add x 1 = x + 1) as Hadd by (intros; apply u32_add_small; lia).
  unfold tally_entry, tally_ok. destruct (decode e.2) as [err|u]; [unfold count; cbn; repeat split; lia|].
  rewrite !count_cons. unfold is_complete_status, is_failed_status, is_processing_status, count.
  destruct (WorkUnit.status u); cbn -[u32_add Z.add]; rewrite ?Hadd by lia;
    rewrite ?length_app; cbn [length]; rewrite ?Nat2Z.inj_add; repeat split; lia.
Qed.

Lemma scanned_app l l' : scanned (l ++ l') = scanned l ++ scanned l'.
Proof. apply omap_app. Qed.

Lemma tally_counts l :
  Z.of_nat (length l) < u32_mod ->
  tally_ok (Z.of_nat (length l)) (tally l) /\
  completed (tally l) = count is_complete_status (scanned l) /\
  failed (tally l) = count is_failed_status (scanned l) /\
  processing (tally l) = count is_processing_status (scanned l).
Proof.
  unfold tally. induction l as [|e l IH] using rev_ind; intros Hlen; [by repeat split|].
  rewrite length_app, Nat2Z.inj_add in *. cbn [length] in *.
  destruct IH as (Hok & E1 & E2 & E3); [lia|]. rewrite foldl_app. cbn [foldl].
  destruct (tally_entry_counts _ _ e Hok) as (Hok' & F1 & F2 & F3); [lia|].
  rewrite scanned_app, !count_app, F1, F2, F3, E1, E2, E3. done.
Qed.

Lemma transition_phase t p st : BatchStatus.phase (BatchStatus.transition_to t p st) = p.
Proof. unfold BatchStatus.transition_to. destruct p; cbn; try done; by case_match. Qed.

Lemma transition_counts t p st :
  BatchStatus.work_units_total (BatchStatus.transition_to t p st) = BatchStatus.work_units_total st /\
  BatchStatus.work_units_completed (BatchStatus.transition_to t p st) = BatchStatus.work_units_completed st /\
  BatchStatus.work_units_failed (BatchStatus.transition_to t p st) = BatchStatus.work_units_failed st /\
  BatchStatus.work_units_active (BatchStatus.transition_to t p st) = BatchStatus.work_units_active st.
Proof. unfold BatchStatus.transition_to. destruct p; cbn; try done; by case_match. Qed.

(** The units [reconcile_running] counts. *)
Definition counted (spec : BatchSpec.t) (m : gmap string string) : list WorkUnit.t :=
  let p := WorkUnitKeys.batch_prefix (batch_id_from_spec spec) in
  scanned (kv_scan p (scan_end p) 10000 m).

(** The status [reconcile_running] makes of [st] and the counts. *)
Definition running_outcome (spec : BatchSpec.t) (us : list WorkUnit.t) (st st' : BatchStatus.t) : Prop :=
  let nc := count is_complete_status us in
  let nf := count is_failed_status us in
  let np := count is_processing_status us in
  BatchStatus.work_units_completed st' = nc /\
  BatchStatus.work_units_failed st' = nf /\
  BatchStatus.work_units_active st' = np /\
  BatchStatus.work_units_total st' =
    (if 0 <? nc + nf + np then nc + nf + np else BatchStatus.work_units_total st) /\
  BatchStatus.phase st' =
    (if (BatchJobSpec.backoff_limit (BatchSpec.spec spec) <? nf)
        || (BatchStatus.is_complete st' && (0 <? nf)) then BatchPhase.Failed
     else if bool_decide (BatchStatus.phase st = BatchPhase.Failed) && (nf =? 0) && (0 <? nc + np)
     then BatchPhase.Running
     else BatchStatus.phase st).

Lemma is_complete_counts st1 st2 :
  BatchStatus.work_units_total st1 = BatchStatus.work_units_total st2 ->
  BatchStatus.work_units_completed st1 = BatchStatus.work_units_completed st2 ->
  BatchStatus.work_units_failed st1 = BatchStatus.work_units_failed st2 ->
  BatchStatus.is_complete st1 = BatchStatus.is_complete st2.
Proof. unfold BatchStatus.is_complete. by intros -> -> ->. Qed.

Lemma wp_reconcile_running spec st (Q : result TikvError.t BatchStatus.t -> World S -> Prop) w :
  (forall st' w', calm w w' -> running_outcome spec (counted spec (kv w)) st st' -> Q (Ok st') w') ->
  (forall e w', faulted w w' -> Q (Err e) w') ->
  wp (reconcile_running c spec st) Q w.
Proof.
  intros HOk HErr. destruct Hc as [Hi Hr]. unfold reconcile_running. wp_step.
  apply wp_scan; [done| |exact HErr]. intros w1 Hc1.
  set (l := kv_scan _ _ _ _).
  assert (Z.of_nat (length l) < u32_mod) as Hlen.
  { unfold l, kv_scan. rewrite length_take. unfold u32_mod. lia. }
  destruct (tally_counts l Hlen) as ((P1 & P2 & P3 & P4 & _) & E1 & E2 & E3).
  assert (u32_add (u32_add (completed (tally l)) (failed (tally l))) (processing (tally l)) =
    completed (tally l) + failed (tally l) + processing (tally l)) as Esum.
  { rewrite (u32_add_small (completed (tally l))) by lia. apply u32_add_small; lia. }
  rewrite Esum. change (counted spec (kv w)) with (scanned l) in HOk. unfold running_outcome in HOk.
  cbn zeta in HOk. rewrite <- E1, <- E2, <- E3 in HOk. clear E1 E2 E3 Esum Hlen.
  generalize dependent (tally l). intros n HOk P1 P2 P3 P4. clear P4 l. wp_step.
  eapply (wp_mono _ (fun r w2 => exists st1, r = Ok st1 /\ calm w w2 /\
    BatchStatus.phase st1 = BatchStatus.phase st /\
    BatchStatus.work_units_total st1 =
      (if 0 <? completed n + failed n + processing n
       then completed n + failed n + processing n else BatchStatus.work_units_total st))).
  { destruct (0 <? _); repeat wp_step; eexists; (split; [done|]; split; [world|done]). }
  intros r w2 (st1 & -> & Hc2 & Hph & Htot). clear Hc1.
  set (st2 := st1 <| BatchStatus.work_units_completed := _ |> <| BatchStatus.work_units_failed := _ |>
    <| BatchStatus.work_units_active := _ |> <| BatchStatus.files_completed := _ |>
    <| BatchStatus.files_failed := _ |> <| BatchStatus.files_active := _ |>
    <| BatchStatus.failed_work_units := _ |>).
  wp_step. eapply (wp_mono _ (fun r w3 => exists st3, r = Ok st3 /\ calm w w3 /\
    BatchStatus.work_units_total st3 = BatchStatus.work_units_total st2 /\
    BatchStatus.work_units_completed st3 = completed n /\ BatchStatus.work_units_failed st3 = failed n /\
    BatchStatus.work_units_active st3 = processing n /\
    BatchStatus.phase st3 =
      if bool_decide (BatchStatus.phase st = BatchPhase.Failed) && (failed n =? 0) && (0 <? completed n + processing n)
      then BatchPhase.Running else BatchStatus.phase st)).
  { change (BatchStatus.phase st2) with (BatchStatus.phase st1). rewrite Hph.
    replace ((0 <? completed n) || (0 <? processing n)) with (0 <? completed n + processing n)
      by (destruct (Z.ltb_spec 0 (completed n)), (Z.ltb_spec 0 (processing n)),
            (Z.ltb_spec 0 (completed n + processing n)); lia || done).
    destruct (_ && _ && _); repeat wp_step; eexists; (split; [done|]; split; [world|]); [|by rewrite <- Hph].
    rewrite transition_phase.
    match goal with |- context [BatchStatus.transition_to ?t ?p ?x] =>
      destruct (transition_counts t p x) as (-> & -> & -> & ->) end. done. }
  intros r w3 (st3 & -> & Hc3 & T3 & C3 & F3 & A3 & Ph3). clear Hc2.
  assert (forall t err w4, calm w w4 ->
    (BatchJobSpec.backoff_limit (BatchSpec.spec spec) <? failed n)
      || (BatchStatus.is_complete st3 && (0 <? failed n)) = true ->
    Q (Ok (BatchStatus.transition_to t BatchPhase.Failed st3 <| BatchStatus.error := err |>)) w4) as Hfail.
  { intros t err w4 Hc4 Hcond. apply HOk; [done|].
    destruct (transition_counts t BatchPhase.Failed st3) as (Et & Ec & Ef & Ea).
    pose proof (transition_phase t BatchPhase.Failed st3) as Ep.
    set (st4 := BatchStatus.transition_to t BatchPhase.Failed st3 <| BatchStatus.error := err |>).
    change (BatchStatus.work_units_total st4 = BatchStatus.work_units_total st3) in Et.
    change (BatchStatus.work_units_completed st4 = BatchStatus.work_units_completed st3) in Ec.
    change (BatchStatus.work_units_failed st4 = BatchStatus.work_units_failed st3) in Ef.
    change (BatchStatus.work_units_active st4 = BatchStatus.work_units_active st3) in Ea.
    change (BatchStatus.phase st4 = BatchPhase.Failed) in Ep.
    rewrite (is_complete_counts st4 st3 Et Ec Ef), Hcond, Et, Ec, Ef, Ea, Ep.
    by repeat split; rewrite ?T3. }
  unfold BatchStatus.should_fail. rewrite F3.
  destruct (BatchJobSpec.backoff_limit (BatchSpec.spec spec) <? failed n) eqn:Elim.
  { repeat wp_step. apply Hfail; [world|]. done. }
  destruct (BatchStatus.is_complete st3 && (0 <? failed n)) eqn:Ecomp.
  { repeat wp_step. apply Hfail; [world|]. done. }
  wp_step. apply HOk; [done|]. rewrite ?Ecomp. cbn [orb]. by repeat split; rewrite ?T3.
Qed.

(** What [reconcile_running] concludes.  With every call answered, it writes
    nothing and returns a status whose counts are those of the completed, failed (or
    dead) and processing units of the scan and whose total is their sum; the batch
    fails when the failures exceed the backoff limit or when nothing is processing
    and something failed.  Pending and cancelled units are in no count: the status is
    complete as soon as no scanned unit is processing, however many are pending. *)
Theorem reconcile_running_outcome spec st (w : World S) r w' :
  ready w -> reconcile_running c spec st w = (r, w') ->
  exists st', r = Ok st' /\ kv w' = kv w /\ running_outcome spec (counted spec (kv w)) st st' /\
    (0 < count is_complete_status (counted spec (kv w)) + count is_failed_status (counted spec (kv w))
         + count is_processing_status (counted spec (kv w)) ->
     BatchStatus.is_complete st' = (count is_processing_status (counted spec (kv w)) =? 0)).
Proof.
  intros Hw E. wp_run E. apply wp_reconcile_running; [|by intros e w1 [_ ?]].
  intros st' w1 [Hk _] Ho. exists st'. split; [done|]. split; [done|]. split; [done|].
  intros Hpos. destruct Ho as (C & F & _ & T & _). unfold BatchStatus.is_complete. rewrite C, F, T.
  rewrite (proj2 (Z.ltb_lt _ _) Hpos), (proj2 (Z.ltb_lt _ _) Hpos). cbn [andb].
  set (nc := count is_complete_status _) in *. set (nf := count is_failed_status _) in *.
  assert (0 <= nc) by apply count_nonneg. assert (0 <= nf) by apply count_nonneg.
  assert (nc + nf <= 10000) as Hle.
  { subst nc nf. unfold counted.
    match goal with |- context [kv_scan ?p ?q ?k ?m] =>
      pose proof (tally_counts (kv_scan p q k m)) as Ht;
      assert (Z.of_nat (length (kv_scan p q k m)) <= 10000) as Hl by (unfold kv_scan; rewrite length_take; lia) end.
    destruct Ht as ((? & ? & ? & ? & _) & <- & <- & _); [unfold u32_mod; lia|]. lia. }
  rewrite u32_add_small by (unfold u32_mod; lia).
  destruct (Z.eqb_spec (nc + nf) (nc + nf + count is_processing_status (counted spec (kv w))));
    destruct (Z.eqb_spec (count is_processing_status (counted spec (kv w))) 0); lia || done.
Qed.

(** A phase change by the controller: the same phase, a transition of the lifecycle
    to [Discovering] or [Failed], or the revival of a failed batch. *)
Definition controller_step (p q : BatchPhase.t) : Prop :=
  q = p \/
  (BatchPhase.can_transition_to p q = true /\ (q = BatchPhase.Discovering \/ q = BatchPhase.Failed)) \/
  (p = BatchPhase.Failed /\ q = BatchPhase.Running).

Lemma wp_reconcile_phase spec st (Q : result TikvError.t BatchStatus.t -> World S -> Prop) w :
  (forall st' w', calm w w' -> controller_step (BatchStatus.phase st) (BatchStatus.phase st') -> Q (Ok st') w') ->
  (forall e w', faulted w w' -> Q (Err e) w') ->
  wp (reconcile_phase c spec st) Q w.
Proof.
  intros HOk HErr. unfold reconcile_phase.
  assert (wp (mret st) Q w) as Hid.
  { wp_step. apply HOk; [done|]. by left. }
  assert (forall st', BatchStatus.phase st = BatchPhase.Running \/ BatchStatus.phase st = BatchPhase.Failed ->
    running_outcome spec (counted spec (kv w)) st st' ->
    controller_step (BatchStatus.phase st) (BatchStatus.phase st')) as Hrun.
  { intros st' Hp (_ & _ & _ & _ & ->). unfold controller_step.
    destruct Hp as [-> | ->]; repeat case_match; cbn; auto. }
  destruct (BatchStatus.phase st) eqn:Ep; try exact Hid.
  - pose proof (validate_never_panics spec) as Hv.
    destruct (BatchSpec.validate spec) as [[]|e|s]; [| |done]; do 2 wp_step; wp_step; (apply HOk; [world|right; left]); unfold BatchStatus.transition_to; cbn; repeat case_match; cbn; auto.
  - unfold reconcile_discovering. do 2 wp_step. destruct (_ <? _); repeat wp_step; (apply HOk; [world|]).
    + right; left. unfold BatchStatus.transition_to.
      destruct (BatchStatus.discovery_status st); cbn; repeat case_match; cbn; auto.
    + left. by destruct (BatchStatus.discovery_status st).
  - apply wp_reconcile_running; [|exact HErr]. intros. apply HOk; [done|]. apply Hrun; auto.
  - apply wp_reconcile_running; [|exact HErr]. intros. apply HOk; [done|]. apply Hrun; auto.
Qed.

(** The controller follows the lifecycle, except that it revives failed
    batches.  Whatever the cluster answers, [reconcile_phase] writes nothing, does
    not panic, fails only on a fault, and the phase it returns is the old one, one
    that [can_transition_to] allows ([Discovering] or [Failed]), or [Running] for a
    batch that had [Failed], which the lifecycle declares terminal. *)
Theorem reconcile_respects_lifecycle spec st (w : World S) r w' :
  reconcile_phase c spec st w = (r, w') ->
  kv w' = kv w /\
  match r with
  | Ok st' => controller_step (BatchStatus.phase st) (BatchStatus.phase st')
  | Err _ => ~ ready w
  | Panic _ => False
  end.
Proof.
  intros E. wp_run E. apply wp_reconcile_phase.
  - intros st' w1 [Hk _] Hs. done.
  - intros e w1 [[Hk _] Hn]. done.
Qed.

(** *** The phase index *)

(** [reconcile_all] finds the batch [b]. *)
Definition indexed (b : string) (m : gmap string string) : Prop :=
  exists p, p ∈ active_phases /\ is_Some (m !! BatchIndexKeys.phase p b).

Definition keeps_index (m m' : gmap string string) : Prop := forall b, indexed b m -> indexed b m'.

#[local] Instance keeps_index_preorder : PreOrder keeps_index.
Proof. split; [by intros m b|]. intros m1 m2 m3 H12 H23 b ?. auto. Qed.

Lemma keeps_index_insert k v m : keeps_index m (<[k := v]> m).
Proof.
  intros b (p & Hp & Hm). exists p. split; [done|]. rewrite lookup_insert_is_Some'. by right.
Qed.

Lemma keeps_index_move p q b m :
  p <> q -> q ∈ active_phases -> is_Some (m !! BatchIndexKeys.phase q b) ->
  keeps_index m (base.delete (BatchIndexKeys.phase p b) m).
Proof.
  intros Hpq Hq Hm b' (p' & Hp' & Hm').
  destruct (decide (BatchIndexKeys.phase p b = BatchIndexKeys.phase p' b')) as [E|E].
  - apply phase_inj in E as [-> ->]. exists q. split; [done|].
    rewrite lookup_delete_ne; [done|]. by intros [? _]%phase_inj.
  - exists p'. split; [done|]. by rewrite lookup_delete_ne.
Qed.

Lemma wp_update_phase_index b p q (Q : result TikvError.t unit -> World S -> Prop) w :
  p <> q -> q ∈ active_phases ->
  (forall w', wrote (fun m => base.delete (BatchIndexKeys.phase p b) (<[BatchIndexKeys.phase q b := ""%string]> m)) w w' ->
     keeps_index (kv w) (kv w') -> Q (Ok tt) w') ->
  (forall e w', later w w' -> ~ ready w -> keeps_index (kv w) (kv w') -> Q (Err e) w') ->
  wp (update_phase_index (client c) b p q) Q w.
Proof.
  intros Hpq Hq HOk HErr. destruct Hc as [Hi Hr]. unfold update_phase_index.
  rewrite decide_False by done. wp_step. apply wp_put; [done|done| |].
  2: { intros e w1 (Hl & Hn & Hk). apply HErr; [world|world|].
       destruct Hk as [-> | ->]; [done|apply keeps_index_insert]. }
  intros w1 [Hl1 Hk1].
  assert (keeps_index (kv w) (base.delete (BatchIndexKeys.phase p b) (<[BatchIndexKeys.phase q b := ""%string]> (kv w)))) as Hkeep.
  { etrans; [apply keeps_index_insert|]. eapply (keeps_index_move p q); [done..|].
    rewrite lookup_insert_eq. by eexists. }
  apply wp_delete; [done|done| |].
  - intros w2 [Hl2 Hk2]. apply HOk; [split; [world|kv_eq]|]. by rewrite Hk2, Hk1.
  - intros e w2 (Hl2 & Hn2 & Hk2). apply HErr; [world|world|].
    destruct Hk2 as [-> | ->]; rewrite Hk1; [apply keeps_index_insert|done].
Qed.

Lemma controller_step_active p q :
  p <> BatchPhase.Complete -> p <> BatchPhase.Cancelled -> controller_step p q -> q ∈ active_phases.
Proof.
  unfold active_phases. intros H1' H2' [->|[[_ [->| ->]]|[_ ->]]]; [destruct p; try done|..]; set_solver.
Qed.

(** Nothing [reconcile_batch] does, or fails to do, loses a batch. *)
Lemma wp_reconcile_batch data (Q : result TikvError.t unit -> World S -> Prop) w :
  (forall r w', match r with Panic _ => False | _ => True end -> keeps_index (kv w) (kv w') -> Q r w') ->
  wp (reconcile_batch c data) Q w.
Proof.
  intros HQ. pose proof Hc as [Hi Hr]. unfold reconcile_batch. do 2 wp_step.
  destruct (decode data) as [err|spec]; [by apply HQ|]. wp_step.
  apply wp_get; [done| |intros e w1 [[Hk _] _]; apply HQ; [done|by rewrite Hk]].
  intros w1 [Hk1 Hl1]. wp_step.
  apply (wp_mono _ (fun r w2 => kv w2 = kv w /\ match r with Panic _ => False | _ => True end)).
  { destruct (kv w !! _) as [sd|]; [wp_step; by destruct (decode sd)|].
    repeat wp_step. split; [kv_eq|done]. }
  intros [st|e|s] w2 [Hk2 Hp2]; [|apply HQ; [done|by rewrite Hk2]|done].
  assert (forall p, BatchStatus.phase st = p -> p <> BatchPhase.Complete -> p <> BatchPhase.Cancelled ->
    wp (new_status ← reconcile_phase c spec st;
        save_status c (batch_id_from_spec spec) new_status;;
        if decide (p = BatchStatus.phase new_status) then mret tt
        else update_phase_index (client c) (batch_id_from_spec spec) p (BatchStatus.phase new_status)) Q w2) as Hmain.
  { intros p Hp Hne1 Hne2. wp_step.
    apply wp_reconcile_phase; [|intros e w3 [[Hk3 _] _]; apply HQ; [done|rewrite Hk3, Hk2; done]].
    intros st' w3 [Hk3 Hl3] Hstep. rewrite Hp in Hstep. wp_step.
    destruct (encode_total st') as [bytes Hb].
    assert (keeps_index (kv w) (<[BatchKeys.status (batch_id_from_spec spec) := bytes]> (kv w3))) as Hkeep.
    { rewrite Hk3, Hk2. apply keeps_index_insert. }
    eapply wp_put_record; [done..| |].
    - intros w4 [Hl4 Hk4]. destruct (decide _) as [|Hneq]; [wp_step; apply HQ; [done|by rewrite Hk4]|].
      apply wp_update_phase_index; [done|by eapply controller_step_active| |].
      + intros w5 _ Hk5. apply HQ; [done|]. etrans; [|exact Hk5]. by rewrite Hk4.
      + intros e w5 _ _ Hk5. apply HQ; [done|]. etrans; [|exact Hk5]. by rewrite Hk4.
    - intros e w4 (_ & _ & [Hk4|Hk4]); (apply HQ; [done|]); rewrite Hk4; [by rewrite Hk3, Hk2|done]. }
  destruct (BatchStatus.phase st) eqn:Ep; try (by apply Hmain); wp_step; apply HQ; try done; by rewrite Hk2.
Qed.

Lemma wp_collect_batch_ids phases acc (Q : result TikvError.t (list string) -> World S -> Prop) w :
  (forall r w', match r with Panic _ => False | _ => True end -> kv w' = kv w -> Q r w') ->
  wp (collect_batch_ids c phases acc) Q w.
Proof.
  destruct Hc as [Hi Hr]. revert acc w. induction phases as [|p rest IH]; intros acc w HQ; cbn [collect_batch_ids].
  - wp_step. by apply HQ.
  - wp_step. apply wp_scan; [done| |intros e w1 [[Hk _] _]; by apply HQ].
    intros w1 [Hk1 _]. destruct (_ <=? _); [wp_step; by apply HQ|].
    apply IH. intros r w2 Hr2 Hk2. apply HQ; [done|congruence].
Qed.

Lemma wp_reconcile_each ids acc (Q : result TikvError.t (list string) -> World S -> Prop) w :
  (forall r w', match r with Panic _ => False | _ => True end -> keeps_index (kv w) (kv w') -> Q r w') ->
  wp (reconcile_each c ids acc) Q w.
Proof.
  pose proof Hc as [Hi Hr]. revert acc w. induction ids as [|b rest IH]; intros acc w HQ; cbn [reconcile_each].
  - wp_step. by apply HQ.
  - wp_step. apply wp_get; [done| |intros e w1 [[Hk _] _]; apply HQ; [done|by rewrite Hk]].
    intros w1 [Hk1 _]. destruct (kv w !! _) as [data|].
    2: { apply IH. intros r w2 Hp2 Hk2. apply HQ; [done|by rewrite <- Hk1]. }
    do 2 wp_step. apply wp_reconcile_batch. intros [[]|e|x] w2 Hp2 Hk2; [| |done];
      (apply IH; intros r w3 Hp3 Hk3; apply HQ; [done|]; rewrite <- Hk1; by etrans).
Qed.

(** Reconciliation loses no batch.  Whatever fails during a [reconcile_all],
    and at whatever call, a batch that the phase index listed under an active phase
    before is listed under an active phase after, so the next round finds it; the
    round itself never panics. *)
Theorem reconcile_all_keeps_index (w : World S) r w' b :
  reconcile_all c w = (r, w') ->
  (indexed b (kv w) -> indexed b (kv w')) /\ match r with Panic _ => False | _ => True end.
Proof.
  intros E. wp_run E. unfold reconcile_all. wp_step.
  apply wp_collect_batch_ids. intros [ids|e|x] w1 Hp1 Hk1; [|by rewrite Hk1|done].
  wp_step. apply wp_reconcile_each. intros [fs|e|x] w2 Hp2 Hk2; rewrite Hk1 in Hk2; [|by split; [apply Hk2|]|done].
  destruct fs; wp_step; (split; [apply Hk2|done]).
Qed.

(** C35: submission is atomic.  Whatever the cluster answers, [submit_batch] of a
    specification leaves the store as it was, or holds the specification, a
    [Pending] status and the [Pending] index entry together, and it returns the id
    only in the latter case; an invalid specification is rejected without a write;
    with every call answered a valid one is accepted. *)
Theorem submit_batch_atomic spec (w : World S) r w' :
  submit_batch c spec w = (r, w') ->
  let b := batch_id_from_spec spec in
  let stored m := exists sd st sb,
    encode spec = inr sd /\ encode st = inr sb /\ BatchStatus.phase st = BatchPhase.Pending /\
    m !! BatchKeys.spec b = Some sd /\ m !! BatchKeys.status b = Some sb /\
    is_Some (m !! BatchIndexKeys.phase BatchPhase.Pending b) in
  match r with
  | Ok b' => b' = b /\ BatchSpec.validate spec = Ok tt /\ stored (kv w')
  | Err _ => (kv w' = kv w \/ stored (kv w')) /\
             (ready w -> kv w' = kv w /\ BatchSpec.validate spec <> Ok tt)
  | Panic _ => False
  end.
Proof.
  intros E b stored. pose proof Hc as [Hi Hr].
  assert (forall st sd sb m, encode spec = inr sd -> encode st = inr sb -> BatchStatus.phase st = BatchPhase.Pending ->
    stored (apply_writes (puts [(BatchKeys.spec b, sd); (BatchKeys.status b, sb);
      (BatchIndexKeys.phase BatchPhase.Pending b, ""%string)]) m)) as Hst.
  { intros st sd sb m Hsd Hsb Hph. exists sd, st, sb. split; [done|]. split; [done|]. split; [done|].
    pose proof (status_ne_spec b b). pose proof (status_ne_phase b BatchPhase.Pending b).
    pose proof (spec_ne_phase b BatchPhase.Pending b).
    change (apply_writes _ m) with (<[BatchIndexKeys.phase BatchPhase.Pending b := ""%string]>
      (<[BatchKeys.status b := sb]> (<[BatchKeys.spec b := sd]> m))).
    split; [|split].
    - rewrite lookup_insert_ne by congruence. rewrite lookup_insert_ne by congruence. apply lookup_insert_eq.
    - rewrite lookup_insert_ne by congruence. apply lookup_insert_eq.
    - rewrite lookup_insert_eq. by eexists. }
  wp_run E. unfold submit_batch. do 2 wp_step.
  pose proof (validate_never_panics spec) as Hv.
  destruct (BatchSpec.validate spec) as [[]|e|x]; cbn [map_err]; [|by split; [left|]|done].
  do 2 wp_step. match goal with Ht : clock _ <= ?x <= _ |- _ => rename x into tn end.
  destruct (encode_total spec) as [sd Hsd]. destruct (encode_total (BatchStatus.new tn)) as [sb Hsb].
  do 2 wp_step. rewrite Hsd. do 2 wp_step. rewrite Hsb. wp_step.
  apply wp_batch_put; [done|done| |].
  - intros w2 [Hl2 Hk2]. wp_step. split; [done|]. split; [done|]. rewrite Hk2. by eapply Hst.
  - intros e w2 (Hl2 & Hn2 & Hk2). assert (~ ready w) as Hnr by world. split; [|done].
    destruct Hk2 as [Hk2|Hk2]; [left; kv_eq|right; rewrite Hk2]. by eapply Hst.
Qed.

(** The status stored for a batch. *)
Definition status_at (b : string) (m : gmap string string) : option BatchStatus.t :=
  match m !! BatchKeys.status b with
  | Some d => match decode d with inr st => Some st | inl _ => None end
  | None => None
  end.

Lemma status_at_insert b st bytes m :
  encode st = inr bytes -> status_at b (<[BatchKeys.status b := bytes]> m) = Some st.
Proof. intros Hb. unfold status_at. by rewrite lookup_insert_eq, (decode_encode _ _ Hb). Qed.

(** The store in which [b] has moved from phase [p] to the status [st]. *)
Lemma moved_store b p st bytes m :
  encode st = inr bytes -> p <> BatchStatus.phase st ->
  let m' := base.delete (BatchIndexKeys.phase p b)
    (<[BatchIndexKeys.phase (BatchStatus.phase st) b := ""%string]> (<[BatchKeys.status b := bytes]> m)) in
  status_at b m' = Some st /\ is_Some (m' !! BatchIndexKeys.phase (BatchStatus.phase st) b) /\
  m' !! BatchIndexKeys.phase p b = None.
Proof.
  intros Hb Hp m'. subst m'.
  assert (forall q, BatchIndexKeys.phase q b <> BatchKeys.status b) as Hne.
  { intros q Eq. symmetry in Eq. by apply status_ne_phase in Eq. }
  split; [|split].
  - unfold status_at. rewrite lookup_delete_ne, lookup_insert_ne by apply Hne. by apply status_at_insert.
  - rewrite lookup_delete_ne by (by intros [? _]%phase_inj). rewrite lookup_insert_eq. by eexists.
  - apply lookup_delete_eq.
Qed.

(** A submitted batch starts discovery.  With every call answered, one
    [reconcile_batch_id] of a batch whose valid specification is stored with a
    [Pending] status succeeds, stores the status [Discovering] with a start time, and
    moves the batch's index entry from [Pending] to [Discovering]. *)
Theorem submitted_batch_discovers spec sd st (w : World S) r w' :
  let b := batch_id_from_spec spec in
  ready w -> encode spec = inr sd -> kv w !! BatchKeys.spec b = Some sd ->
  status_at b (kv w) = Some st -> BatchStatus.phase st = BatchPhase.Pending ->
  BatchSpec.validate spec = Ok tt -> reconcile_batch_id c b w = (r, w') ->
  r = Ok tt /\
  (exists st', status_at b (kv w') = Some st' /\ BatchStatus.phase st' = BatchPhase.Discovering /\
     is_Some (BatchStatus.started_at st')) /\
  is_Some (kv w' !! BatchIndexKeys.phase BatchPhase.Discovering b) /\
  kv w' !! BatchIndexKeys.phase BatchPhase.Pending b = None.
Proof.
  intros b Hw Hsd Hk Hst Hph Hval E. pose proof Hc as [Hi Hr]. wp_run E. unfold reconcile_batch_id. wp_step.
  apply wp_get; [done| |by intros e w1 [_ ?]]. intros w1 Hc1. rewrite Hk.
  assert (ready w1) as Hw1 by world. assert (kv w1 = kv w) as Ek1 by kv_eq.
  unfold reconcile_batch. do 2 wp_step. rewrite (decode_encode _ _ Hsd). wp_step.
  apply wp_get; [done| |by intros e w2 [_ ?]]. intros w2 Hc2. rewrite Ek1. fold b.
  unfold status_at in Hst. destruct (kv w !! BatchKeys.status b) as [d|]; [|done].
  do 2 wp_step. destruct (decode d) as [err|st0]; [done|]. injection Hst as ->.
  rewrite Hph. wp_step. unfold reconcile_phase. rewrite Hph, Hval. do 3 wp_step.
  match goal with |- context [save_status c b ?x] => set (st1 := x) end.
  destruct (encode_total st1) as [bytes Hb].
  assert (BatchStatus.phase st1 = BatchPhase.Discovering /\ is_Some (BatchStatus.started_at st1)) as [Hp1 Hs1].
  { unfold st1, BatchStatus.transition_to. cbn. destruct (BatchStatus.started_at st) eqn:Es; cbn; rewrite ?Es; by eauto. }
  wp_step. eapply wp_put_record; [done..| |].
  2: { intros e w4 (_ & Hn4 & _). exfalso. apply Hn4. world. }
  intros w4 [Hl4 Hk4]. rewrite decide_False by (by rewrite Hp1). rewrite Hp1.
  apply wp_update_phase_index; [done|unfold active_phases; set_solver| |].
  2: { intros e w5 _ Hn5 _. exfalso. apply Hn5. world. }
  intros w5 [Hl5 Hk5] _. rewrite Hk5, Hk4, <- Hp1.
  match goal with |- context [<[BatchKeys.status b := bytes]> ?m] =>
    destruct (moved_store b BatchPhase.Pending st1 bytes m) as (Hm1 & Hm2 & Hm3); [done|by rewrite Hp1|] end.
  split; [done|]. split; [by exists st1|]. by split.
Qed.

(** Cancellation.  With every call answered, [cancel_batch] of a batch in
    [Pending] or an active phase returns [true], stores the status [Cancelled] with a
    completion time and moves the index entry; in every other phase it returns
    [false] and writes nothing.  [Merging] is among the phases it cancels, although
    [can_transition_to] has no transition from [Merging] to [Cancelled]. *)
Theorem cancel_batch_outcome b st (w : World S) r w' :
  ready w -> status_at b (kv w) = Some st -> cancel_batch c b w = (r, w') ->
  if BatchPhase.is_active (BatchStatus.phase st) || bool_decide (BatchStatus.phase st = BatchPhase.Pending)
  then r = Ok true /\
    (exists st', status_at b (kv w') = Some st' /\ BatchStatus.phase st' = BatchPhase.Cancelled /\
       is_Some (BatchStatus.completed_at st')) /\
    is_Some (kv w' !! BatchIndexKeys.phase BatchPhase.Cancelled b) /\
    kv w' !! BatchIndexKeys.phase (BatchStatus.phase st) b = None
  else r = Ok false /\ kv w' = kv w.
Proof.
  intros Hw Hst E. pose proof Hc as [Hi Hr]. wp_run E. unfold cancel_batch, get_batch_status. wp_step.
  apply wp_get_record; [done| |by intros e w1 [_ ?]]. intros w1 Hc1.
  unfold status_at in Hst. destruct (kv w !! BatchKeys.status b) as [d|] eqn:Ed; [|done].
  destruct (decode d) as [err|st0]; [done|]. injection Hst as ->.
  rewrite <- negb_orb. destruct (_ || _) eqn:Econd; cbn [negb]; [|wp_step; split; [done|kv_eq]].
  do 2 wp_step. match goal with |- context [save_status c b ?x] => set (st1 := x) end.
  destruct (encode_total st1) as [bytes Hb].
  assert (BatchStatus.phase st1 = BatchPhase.Cancelled /\ is_Some (BatchStatus.completed_at st1)) as [Hp1 Hs1].
  { unfold st1, BatchStatus.transition_to. cbn. destruct (BatchStatus.completed_at st) eqn:Es; cbn; rewrite ?Es; by eauto. }
  assert (BatchStatus.phase st <> BatchPhase.Cancelled) as Hne by (intros Ep; by rewrite Ep in Econd).
  wp_step. eapply wp_put_record; [done..| |].
  2: { intros e w4 (_ & Hn4 & _). exfalso. apply Hn4. world. }
  intros w4 [Hl4 Hk4]. wp_step. unfold update_phase_index. rewrite decide_False by done. wp_step.
  apply wp_put; [done|done| |intros e w5 (_ & Hn5 & _); exfalso; apply Hn5; world].
  intros w5 [Hl5 Hk5].
  apply wp_delete; [done|done| |intros e w6 (_ & Hn6 & _); exfalso; apply Hn6; world].
  intros w6 [Hl6 Hk6]. wp_step. rewrite Hk6, Hk5, Hk4, <- Hp1.
  match goal with |- context [<[BatchKeys.status b := bytes]> ?m] =>
    destruct (moved_store b (BatchStatus.phase st) st1 bytes m) as (Hm1 & Hm2 & Hm3); [done|by rewrite Hp1|] end.
  split; [done|]. split; [by exists st1|]. by split.
Qed.

End Reconcile.

(** ** Witnesses *)
Section Witnesses.
Import BatchController Sim.

Local Instance sim_spec_codec : Codec BatchSpec.t := Wire.codec_of_wire _ (H := BatchSpec.wire).
Local Instance sim_spec_lawful : LawfulCodec BatchSpec.t := Wire.lawful_of_wire _ (H := BatchSpec.wire).
Local Instance sim_status_codec : Codec BatchStatus.t := Wire.codec_of_wire _ (H := BatchStatus.wire).
Local Instance sim_status_lawful : LawfulCodec BatchStatus.t := Wire.lawful_of_wire _ (H := BatchStatus.wire).
Local Instance sim_unit_codec : Codec WorkUnit.t := Wire.codec_of_wire _ (H := WorkUnit.wire).
Local Instance sim_unit_lawful : LawfulCodec WorkUnit.t := Wire.lawful_of_wire _ (H := WorkUnit.wire).

Definition sim_controller : BatchController.t := with_client sim_client.

Definition sim_unit (i : string) : WorkUnit.t := WorkUnit.with_id 0 0 i "jobs:b" [] "out" "cfg".
Definition sim_spec : BatchSpec.t := BatchSpec.new 0 "b" ["s3://in/*.bag"]%string "s3://out".

(** A store that holds the given units, all of them queued. *)
Definition queued (us : list WorkUnit.t) : gmap string string :=
  foldl (fun m u => match encode u with
                    | inr d => <[WorkUnitKeys.pending (WorkUnit.batch_id u) (WorkUnit.id u) := WorkUnit.batch_id u]>
                                 (<[unit_key u := d]> m)
                    | inl _ => m end) ∅ us.

Lemma queued_one_wf : units_wf (queued [sim_unit "u1"]).
Proof.
  intros b i u Hu. unfold unit_at in Hu. cbn [queued foldl] in Hu.
  destruct (encode_total (sim_unit "u1")) as [d Hd]. rewrite Hd in Hu.
  rewrite lookup_insert_ne in Hu by apply pending_ne_unit.
  destruct (decide (unit_key (sim_unit "u1") = WorkUnitKeys.unit b i)) as [Ek|Ek].
  - rewrite <- Ek, lookup_insert_eq, (decode_encode _ _ Hd) in Hu. injection Hu as <-. by rewrite Ek.
  - by rewrite lookup_insert_ne, lookup_empty in Hu.
Qed.

(** Two workers race for one queued unit: one of them gets it. *)
Lemma claims_never_overlap_witness :
  let s := Sim.quiet_world (queued [sim_unit "u1"]) 5 in
  let w1 := mkWorld s (CircuitBreaker.new 0) in
  let c1 := claim_work_unit sim_controller "a" w1 in
  let c2 := claim_work_unit sim_controller "b" (mkWorld (env c1.2) (CircuitBreaker.new 0)) in
  exists us, claim_run s us (env c2.2) /\ length us = 1%nat /\ NoDup (unit_key <$> us).
Proof.
  intros s w1 c1 c2.
  assert (claim_run s (match c1.1 with Ok (Some u) => u :: (match c2.1 with Ok (Some u2) => [u2] | _ => [] end)
                       | _ => match c2.1 with Ok (Some u2) => [u2] | _ => [] end end) (env c2.2)) as Hrun.
  { refine (claim_run_cons sim_controller (CircuitBreaker.new 0) "a" s c1.1 c1.2 _ (env c2.2)
      sim_client_ok (surjective_pairing c1) _).
    exact (claim_run_cons sim_controller (CircuitBreaker.new 0) "b" (env c1.2) c2.1 c2.2 [] (env c2.2)
      sim_client_ok (surjective_pairing c2) (claim_run_nil _)). }
  eexists. split; [exact Hrun|]. split; [vm_compute; reflexivity|].
  exact (proj1 (claims_never_overlap s _ _ queued_one_wf Hrun)).
Defined.

Lemma pending_key_round_trip_witness :
  pending_target (WorkUnitKeys.pending "jobs:b" "u1") = Some ("jobs:b", "u1")%string.
Proof. apply pending_key_round_trip; [discriminate|reflexivity]. Defined.

Definition stored_unit (u : WorkUnit.t) : gmap string string :=
  match encode u with inr d => {[ unit_key u := d ]} | inl _ => ∅ end.

Lemma failed_unit_requeued_witness :
  let u := sim_unit "u1" <| WorkUnit.attempts := 1 |> <| WorkUnit.status := WorkUnitStatus.Processing |> in
  let w := sim_world (stored_unit u) [] in
  (fail_work_unit sim_controller "jobs:b" "u1" "boom" w).1 = Ok true.
Proof.
  intros u w.
  refine (proj1 (failed_unit_requeued sim_controller sim_client_ok "jobs:b" "u1" "boom" u w _ _
    (sim_world_ready _) _ (surjective_pairing _))).
  vm_compute. reflexivity.
Defined.

Lemma completion_overwrites_terminal_witness :
  let u := sim_unit "u1" <| WorkUnit.status := WorkUnitStatus.Cancelled |> in
  let w := sim_world (stored_unit u) [] in
  (complete_work_unit sim_controller "jobs:b" "u1" w).1 = Ok true.
Proof.
  intros u w.
  refine (proj1 (completion_overwrites_terminal sim_controller sim_client_ok "jobs:b" "u1" u w _ _
    (sim_world_ready _) _ (surjective_pairing _))).
  vm_compute. reflexivity.
Defined.

(** One unit done, one still queued: the status is complete. *)
Lemma reconcile_running_outcome_witness :
  let done_ := sim_unit "u1" <| WorkUnit.status := WorkUnitStatus.Complete |> in
  let m := queued [done_; sim_unit "u2"] in
  let w := sim_world m [] in
  exists st', (reconcile_running sim_controller sim_spec (BatchStatus.with_phase 0 BatchPhase.Running) w).1 = Ok st'
    /\ BatchStatus.is_complete st' = true.
Proof.
  intros done_ m w.
  destruct (reconcile_running_outcome sim_controller sim_client_ok sim_spec
    (BatchStatus.with_phase 0 BatchPhase.Running) w _ _ (sim_world_ready _) (surjective_pairing _))
    as (st' & E & _ & _ & Hcomp).
  exists st'. split; [exact E|]. rewrite Hcomp; vm_compute; reflexivity.
Defined.

Lemma reconcile_respects_lifecycle_witness :
  let w := sim_world ∅ [] in
  kv (reconcile_phase sim_controller sim_spec (BatchStatus.new 0) w).2 = kv w.
Proof.
  intros w. refine (proj1 (reconcile_respects_lifecycle sim_controller sim_client_ok sim_spec
    (BatchStatus.new 0) w _ _ (surjective_pairing _))).
Defined.

Definition submitted : gmap string string := kv (submit_batch sim_controller sim_spec (sim_world ∅ [])).2.

Lemma submit_batch_atomic_witness :
  is_Some (submitted !! BatchIndexKeys.phase BatchPhase.Pending "jobs:b").
Proof.
  assert ((submit_batch sim_controller sim_spec (sim_world ∅ [])).1 = Ok "jobs:b"%string) as E
    by (vm_compute; reflexivity).
  destruct (submit_batch_atomic sim_controller sim_client_ok sim_spec (sim_world ∅ []) _ _
    (pair_of_fst _ _ E)) as (_ & _ & sd & st & sb & _ & _ & _ & _ & _ & Hi).
  exact Hi.
Defined.

(** The second call of the round fails: the batch is still indexed. *)
Lemma reconcile_all_keeps_index_witness :
  let w := sim_world submitted [None; Some ("region error"%string, false)] in
  indexed "jobs:b" (kv (reconcile_all sim_controller w).2).
Proof.
  intros w. refine (proj1 (reconcile_all_keeps_index sim_controller sim_client_ok w _ _ "jobs:b"
    (surjective_pairing _)) _).
  exists BatchPhase.Pending. split; [left|]. vm_compute. by eexists.
Defined.

Lemma submitted_batch_discovers_witness :
  (reconcile_batch_id sim_controller "jobs:b" (sim_world submitted [])).1 = Ok tt.
Proof.
  refine (proj1 (submitted_batch_discovers sim_controller sim_client_ok sim_spec _ (BatchStatus.new 0)
    (sim_world submitted []) _ _ (sim_world_ready _) eq_refl _ _ eq_refl eq_refl (surjective_pairing _)));
    vm_compute; reflexivity.
Defined.

Lemma cancel_batch_outcome_witness :
  (cancel_batch sim_controller "jobs:b" (sim_world submitted [])).1 = Ok true.
Proof.
  refine (proj1 (cancel_batch_outcome sim_controller sim_client_ok "jobs:b" (BatchStatus.new 0)
    (sim_world submitted []) _ _ (sim_world_ready _) _ (surjective_pairing _))).
  vm_compute. reflexivity.
Defined.

End Witnesses.
