(* ===== verification/Reaper.v ===== *)
(** * The zombie reaper (crates/roboflow-distributed/src/reaper.rs)

    Finds the units of workers whose heartbeat has gone stale and marks them
    failed in a transaction. *)
From S2P Require Import Prelude Codec TikvError Circuit Lifecycle Keys Env Effects Schema Client WorkUnit Batch Controller.

Module ReaperConfig.
(** [struct ReaperConfig] and its default. *)
Record t : Type := mk {
  interval : Z;
  stale_threshold : Z;
  max_reclaims_per_iteration : nat;
  max_work_unit_scan : Z
}.
Definition default : t := mk (secs 60) (secs 300) 10 1000.
End ReaperConfig.

(** [enum ReclaimResult]. *)
Inductive ReclaimResult : Type := Reclaimed | NotStale | NotProcessing | Failed | Skipped.

Module ZombieReaper.

(** [struct ZombieReaper]; the metrics counters are the log of the calls below
    and are not kept. *)
Record t : Type := mk { tikv : TikvClient.t; config : ReaperConfig.t }.

Section Ops.
Context {S : Type} `{TransactionClient S}.
Context `{Codec HeartbeatRecord.t, Codec WorkUnit.t}.
Abbreviation Tikv := (M S TikvError.t).

Definition stale_threshold_secs (z : t) : Z := as_secs (ReaperConfig.stale_threshold (config z)).

(** [ZombieReaper::find_stale_workers]; its loop is the client's. *)
Definition find_stale_workers (z : t) : Tikv (list string) :=
  results ← TikvClient.scan (tikv z) HeartbeatKeys.prefix 1000;
  TikvClient.stale_pods (stale_threshold_secs z) results [].

(** The condition of [find_orphaned_work_units]'s loop. *)
Definition orphan_of (stale_workers : list string) (value : string) : option (string * string * string) :=
  match decode (A:=WorkUnit.t) value with
  | inr unit =>
      match WorkUnit.status unit, WorkUnit.owner unit with
      | WorkUnitStatus.Processing, Some owner =>
          if bool_decide (owner ∈ stale_workers)
          then Some (WorkUnit.id unit, WorkUnit.batch_id unit, owner) else None
      | _, _ => None
      end
  | inl _ => None
  end.

(** [ZombieReaper::find_orphaned_work_units]: unit id, batch id and owner. *)
Definition find_orphaned_work_units (z : t) : Tikv (list (string * string * string)) :=
  stale_workers ← find_stale_workers z;
  match stale_workers with
  | [] => mret []
  | _ =>
      results ← TikvClient.scan (tikv z) WorkUnitKeys.prefix
                  (ReaperConfig.max_work_unit_scan (config z));
      mret (omap (fun e => orphan_of stale_workers e.2) results)
  end.

(** The closure [reclaim_work_unit] passes to [transactional_claim]. *)
Definition reclaim_processor (owner : string) (data : string) : M S string (option string) :=
  unit ← of_sum id (decode (A:=WorkUnit.t) data);
  if negb (bool_decide (WorkUnit.status unit = WorkUnitStatus.Processing)) then mret None
  else if negb (bool_decide (WorkUnit.owner unit = Some owner)) then mret None
  else
    t ← now;
    new_data ← of_sum id (encode (WorkUnit.fail t "Worker died during processing" unit));
    mret (Some new_data).

(** [ZombieReaper::reclaim_work_unit]. *)
Definition reclaim_work_unit (z : t) (batch_id unit_id owner : string) : Tikv ReclaimResult :=
  heartbeat ← TikvClient.get (tikv z) (HeartbeatKeys.heartbeat owner);
  recovered ← match heartbeat with
    | Some data =>
        match decode (A:=HeartbeatRecord.t) data with
        | inr record => t ← now; mret (negb (HeartbeatRecord.is_stale t (stale_threshold_secs z) record))
        | inl _ => mret false
        end
    | None => mret false
    end;
  if recovered : bool then mret NotStale
  else
    result ← try_ (TikvClient.transactional_claim (tikv z) (WorkUnitKeys.unit batch_id unit_id) ""
                     (reclaim_processor owner));
    match result with
    | Ok (Some _) => mret Reclaimed
    | Ok None => mret Skipped
    | Err _ => mret Failed
    | Panic s => panic s
    end.

(** The loop of [ZombieReaper::run_iteration]. *)
Fixpoint reclaim_each (z : t) (orphans : list (string * string * string)) (reclaimed_count : Z) : Tikv Z :=
  match orphans with
  | [] => mret reclaimed_count
  | (unit_id, batch_id, owner) :: rest =>
      r ← reclaim_work_unit z batch_id unit_id owner;
      match r with
      | Reclaimed => reclaim_each z rest (reclaimed_count + 1)
      | _ => reclaim_each z rest reclaimed_count
      end
  end.

(** [ZombieReaper::run_iteration]. *)
Definition run_iteration (z : t) : Tikv Z :=
  orphaned_units ← find_orphaned_work_units z;
  match orphaned_units with
  | [] => mret 0
  | _ => reclaim_each z (take (ReaperConfig.max_reclaims_per_iteration (config z)) orphaned_units) 0
  end.

(** One round of the loop of [ZombieReaper::run] that no shutdown interrupts. *)
Definition run_round (z : t) : Tikv unit :=
  ignore (run_iteration z);;
  sleep_for (ReaperConfig.interval (config z)).

End Ops.
End ZombieReaper.

(** ** Reclamation *)
Section Reclaim.
Import ZombieReaper.
Context {S : Type} `{TransactionClientLaws S} `{!HealthyRuns S}.
Context `{LawfulCodec HeartbeatRecord.t, LawfulCodec WorkUnit.t}.
Context (z : ZombieReaper.t) (Hc : client_ok (tikv z)).

(** The owner's heartbeat is missing, unreadable, or stale at some time of the call. *)
Definition owner_gone (owner : string) (w w' : World S) : Prop :=
  match kv w !! HeartbeatKeys.heartbeat owner with
  | Some d =>
      match decode d with
      | inr h => exists t, clock (env w) <= t <= clock (env w') /\
                   HeartbeatRecord.is_stale t (stale_threshold_secs z) h = true
      | inl _ => True
      end
  | None => True
  end.

(** The unit [u] of [owner] is stored failed, and nothing else changed. *)
Definition reclaimed (b i owner : string) (w w' : World S) : Prop :=
  exists u t bytes,
    unit_at (WorkUnitKeys.unit b i) (kv w) = Some u /\
    WorkUnit.status u = WorkUnitStatus.Processing /\ WorkUnit.owner u = Some owner /\
    encode (WorkUnit.fail t "Worker died during processing" u) = inr bytes /\
    kv w' = base.delete ""%string (<[WorkUnitKeys.unit b i := bytes]> (kv w)).

Lemma wp_reclaim_work_unit b i owner (Q : result TikvError.t ReclaimResult -> World S -> Prop) w :
  (forall w', later w w' -> owner_gone owner w w' -> reclaimed b i owner w w' -> Q (Ok Reclaimed) w') ->
  (forall r w', later w w' -> r = NotStale \/ r = Skipped -> kv w' = kv w \/ kv w' = base.delete ""%string (kv w) -> Q (Ok r) w') ->
  (forall w', later w w' ->
     kv w' = kv w \/ kv w' = base.delete ""%string (kv w) \/ (owner_gone owner w w' /\ reclaimed b i owner w w') ->
     Q (Ok Failed) w') ->
  (forall e w', faulted w w' -> Q (Err e) w') ->
  wp (reclaim_work_unit z b i owner) Q w.
Proof.
  intros HRec HNo HFail HErr. pose proof Hc as [Hi _]. unfold reclaim_work_unit. wp_step.
  apply wp_get; [done| |exact HErr]. intros w1 Hc1. wp_step.
  apply (wp_mono _ (fun r w2 => calm w w2 /\ exists x : bool, r = Ok x /\ (x = false -> owner_gone owner w w2))).
  { unfold owner_gone. destruct (kv w !! _) as [d|]; [|by wp_step; split; [world|eexists]].
    destruct (decode d) as [err|h]; [by wp_step; split; [world|eexists]|].
    repeat wp_step. split; [world|]. eexists. split; [done|]. intros Hx%negb_false_iff. eexists.
    split; [|exact Hx]. world_facts. lia. }
  intros r w2 (Hc2 & x & -> & Hgone). clear Hc1. destruct x; [wp_step; apply HNo; [world|by left|left; kv_eq]|].
  specialize (Hgone eq_refl).
  assert (forall w', later w2 w' -> owner_gone owner w w') as Hgone'.
  { intros w' Hl. unfold owner_gone in *. repeat case_match; try done.
    destruct Hgone as (t & Ht & Hs). exists t. split; [world_facts; lia|done]. }
  assert (kv w2 = kv w) as Ek by kv_eq.
  do 2 wp_step. apply wp_transactional_claim; [done|..].
  - intros data w3 Hdata Hc3. rewrite Ek in Hdata. unfold reclaim_processor. do 2 wp_step.
    destruct (decode data) as [err|u] eqn:Ed; [wp_step; apply HFail; [world|left; kv_eq]|].
    case_bool_decide as Hst; cbn [negb]; [|wp_step; split; [done|]; intros w4 Hc4; wp_step; apply HNo; [world|by right|left; kv_eq]].
    case_bool_decide as Ho; cbn [negb]; [|wp_step; split; [done|]; intros w4 Hc4; wp_step; apply HNo; [world|by right|left; kv_eq]].
    do 2 wp_step. match goal with Ht : clock (env w3) <= ?y <= _ |- _ => rename y into tn end.
    destruct (encode_total (WorkUnit.fail tn "Worker died during processing" u)) as [bytes Hb].
    do 2 wp_step. rewrite Hb. wp_step. split; [world|].
    assert (unit_at (WorkUnitKeys.unit b i) (kv w) = Some u) as Hat by (unfold unit_at; by rewrite Hdata, Ed).
    split.
    + intros w5 Hl5 [Hl5' Hk5]. wp_step. apply HRec; [world|by apply Hgone'|].
      exists u, tn, bytes. rewrite Ek in Hk5. done.
    + intros e w5 (Hl5 & _ & Hk5). wp_step. apply HFail; [world|]. rewrite Ek in Hk5.
      destruct Hk5 as [Hk5|Hk5]; [by left|right; right]. split; [by apply Hgone'|]. by exists u, tn, bytes.
  - intros _. split.
    + intros w3 [Hl3 Hk3]. wp_step. apply HNo; [world|by right|right]. by rewrite Hk3, Ek.
    + intros e w3 (Hl3 & _ & Hk3). wp_step. apply HFail; [world|]. rewrite Ek in Hk3. tauto.
  - intros e w3 [Hc3 _]. wp_step. apply HFail; [world|left; kv_eq].
Qed.

Lemma empty_ne_unit b i : WorkUnitKeys.unit b i <> ""%string.
Proof. unfold WorkUnitKeys.unit. rewrite key_of_joined. discriminate. Qed.

Lemma unit_at_delete_empty b i m :
  unit_at (WorkUnitKeys.unit b i) (base.delete ""%string m) = unit_at (WorkUnitKeys.unit b i) m.
Proof. unfold unit_at. by rewrite lookup_delete_ne by (intros E; by apply (empty_ne_unit b i)). Qed.

Lemma reclaimed_units b i owner w w' :
  reclaimed b i owner w w' ->
  exists u t,
    unit_at (WorkUnitKeys.unit b i) (kv w) = Some u /\
    WorkUnit.status u = WorkUnitStatus.Processing /\ WorkUnit.owner u = Some owner /\
    unit_at (WorkUnitKeys.unit b i) (kv w') = Some (WorkUnit.fail t "Worker died during processing" u) /\
    (forall b' i', WorkUnitKeys.unit b' i' <> WorkUnitKeys.unit b i ->
       unit_at (WorkUnitKeys.unit b' i') (kv w') = unit_at (WorkUnitKeys.unit b' i') (kv w)).
Proof.
  intros (u & t & bytes & Hat & Hst & Ho & Hb & Hk). exists u, t. rewrite Hk.
  split; [done|]. split; [done|]. split; [done|]. split.
  - rewrite unit_at_delete_empty, (unit_at_insert _ _ _ _ _ _ Hb). by rewrite decide_True.
  - intros b' i' Hne. rewrite unit_at_delete_empty, (unit_at_insert _ _ _ _ _ _ Hb). by rewrite decide_False.
Qed.

(** C37: only the units of dead workers are reclaimed.  Whatever the cluster
    answers, [reclaim_work_unit] leaves every stored unit as it is, or the named
    unit was processing for the given owner, whose heartbeat was missing,
    unreadable or stale during the call, and is now failed (dead, if it has no
    attempt left) with no owner, every other unit being unchanged. *)
Theorem reclaim_only_dead_owners b i owner (w : World S) r w' :
  reclaim_work_unit z b i owner w = (r, w') ->
  (forall b' i', unit_at (WorkUnitKeys.unit b' i') (kv w') = unit_at (WorkUnitKeys.unit b' i') (kv w)) \/
  (owner_gone owner w w' /\
   exists u t,
    unit_at (WorkUnitKeys.unit b i) (kv w) = Some u /\
    WorkUnit.status u = WorkUnitStatus.Processing /\ WorkUnit.owner u = Some owner /\
    unit_at (WorkUnitKeys.unit b i) (kv w') = Some (WorkUnit.fail t "Worker died during processing" u) /\
    (forall b' i', WorkUnitKeys.unit b' i' <> WorkUnitKeys.unit b i ->
       unit_at (WorkUnitKeys.unit b' i') (kv w') = unit_at (WorkUnitKeys.unit b' i') (kv w))).
Proof.
  intros E. wp_run E. apply wp_reclaim_work_unit.
  - intros w1 _ Hg Hr. right. split; [done|]. by apply reclaimed_units.
  - intros r1 w1 _ _ [-> | ->]; left; intros; [done|apply unit_at_delete_empty].
  - intros w1 _ [-> |[-> |[Hg Hr]]]; [left; done|left; intros; apply unit_at_delete_empty|right].
    split; [done|]. by apply reclaimed_units.
  - intros e w1 [[Hk _] _]. left. intros. by rewrite Hk.
Qed.

(** No pending entry names the unit. *)
Definition unqueued (uk : string) (m : gmap string string) : Prop :=
  forall pk b i, is_Some (m !! pk) -> BatchController.pending_target pk = Some (b, i) -> WorkUnitKeys.unit b i <> uk.

Lemma pending_target_unit b i : BatchController.pending_target (WorkUnitKeys.unit b i) = None.
Proof.
  unfold BatchController.pending_target.
  destruct (strip_prefix _ _) as [x|] eqn:E; [|done]. apply strip_prefix_Some in E.
  by destruct (pending_prefix_ne_unit x b i).
Qed.

Lemma unqueued_step uk b i bytes k m :
  unqueued uk m -> unqueued uk (base.delete k (<[WorkUnitKeys.unit b i := bytes]> m)).
Proof.
  intros Hu pk b' i' Hpk Ht. destruct (decide (pk = k)) as [->|Hne]; [by rewrite lookup_delete_eq in Hpk; destruct Hpk|].
  rewrite lookup_delete_ne in Hpk by done.
  destruct (decide (pk = WorkUnitKeys.unit b i)) as [->|Hne2]; [by rewrite pending_target_unit in Ht|].
  rewrite lookup_insert_ne in Hpk by done. by eapply Hu.
Qed.

Lemma unqueued_delete uk k m : unqueued uk m -> unqueued uk (base.delete k m).
Proof.
  intros Hu pk b' i' Hpk Ht. destruct (decide (pk = k)) as [->|Hne]; [by rewrite lookup_delete_eq in Hpk; destruct Hpk|].
  rewrite lookup_delete_ne in Hpk by done. by eapply Hu.
Qed.

Lemma unqueued_claims `{Codec BatchSpec.t, Codec BatchStatus.t} worker m m' u uk :
  units_wf m -> unqueued uk m -> claims worker m m' u -> unqueued uk m' /\ unit_key u <> uk.
Proof.
  intros Hwf Hu Hcl. pose proof Hcl as (pk & uk' & u0 & t & bytes & Hhead & Hat & Hclaim & Hb & ->).
  destruct (head_target_keys _ _ _ Hhead) as ((b & i & -> & Ht) & Hpk & _).
  split; [by apply unqueued_step|].
  rewrite (claim_same_key _ _ _ _ Hclaim), <- (Hwf b i u0 Hat). by eapply Hu.
Qed.

(** A unit that is not queued is never granted, by any run of claims. *)
Lemma unqueued_never_granted `{Codec BatchSpec.t, Codec BatchStatus.t} s us s' uk :
  claim_run s us s' -> units_wf (committed s) -> unqueued uk (committed s) ->
  Forall (fun u => unit_key u <> uk) us.
Proof.
  intros Hrun. induction Hrun as [s|c br worker s r w' us s' Hcl E Hrun IH]; intros Hwf Hu; [done|].
  pose proof (claim_call_cases _ _ _ _ _ _ Hcl E) as Hcase.
  assert (units_wf (kv w') /\ unqueued uk (kv w')) as [Hwf' Hu'].
  { destruct r as [[u|]|e|x]; [split; [by eapply claims_effect|by eapply unqueued_claims]|..];
      (destruct Hcase as [->|[Hd|[u Hu2]]]; [done| |split; [by eapply claims_effect|by eapply unqueued_claims]]);
      (split; [intros b' i' u' Hu'; rewrite (drops_stale_effect _ _ _ _ Hd) in Hu'; by apply Hwf|]);
      destruct Hd as (pk & uk' & _ & _ & ->); by apply unqueued_delete. }
  specialize (IH Hwf' Hu'). destruct r as [[u|]|e|x]; [|done..].
  constructor; [|done]. exact (proj2 (unqueued_claims worker _ _ _ _ Hwf Hu Hcase)).
Qed.

(** A reclaimed unit is stranded.  The reaper marks the unit failed but does
    not queue it again: when [reclaim_work_unit] has reclaimed a unit that no
    pending entry names (none does while it is processing), every later run of
    claims, by any workers, grants other units only. *)
Theorem reclaimed_unit_never_granted `{Codec BatchSpec.t, Codec BatchStatus.t} b i owner (w w1 : World S) us s' :
  units_wf (kv w) -> unqueued (WorkUnitKeys.unit b i) (kv w) ->
  reclaim_work_unit z b i owner w = (Ok Reclaimed, w1) ->
  claim_run (env w1) us s' ->
  Forall (fun u => unit_key u <> WorkUnitKeys.unit b i) us.
Proof.
  intros Hwf Hu E Hrun.
  assert (reclaimed b i owner w w1) as Hr.
  { wp_run_eq E. apply wp_reclaim_work_unit; try done. intros r1 w2 _ [-> | ->]; done. }
  eapply unqueued_never_granted; [exact Hrun|..].
  - pose proof (reclaimed_units _ _ _ _ _ Hr) as (u & t & Hat & _ & _ & Hat' & Hoth).
    intros b' i' u' Hu'. destruct (decide (WorkUnitKeys.unit b' i' = WorkUnitKeys.unit b i)) as [Ek|Ek].
    + change (committed (env w1)) with (kv w1) in Hu'. rewrite Ek, Hat' in Hu'. injection Hu' as <-.
      rewrite Ek. exact (Hwf b i u Hat).
    + change (committed (env w1)) with (kv w1) in Hu'. rewrite Hoth in Hu' by done. by apply Hwf.
  - destruct Hr as (u & t & bytes & _ & _ & _ & _ & Hk). unfold kv in Hk. rewrite Hk. by apply unqueued_step.
Qed.

End Reclaim.

(** ** Witnesses *)
Section Witnesses.
Import ZombieReaper Sim.

Local Instance sim_spec_codec : Codec BatchSpec.t := Wire.codec_of_wire _ (H := BatchSpec.wire).
Local Instance sim_status_codec : Codec BatchStatus.t := Wire.codec_of_wire _ (H := BatchStatus.wire).
Local Instance sim_unit_codec : Codec WorkUnit.t := Wire.codec_of_wire _ (H := WorkUnit.wire).
Local Instance sim_unit_lawful : LawfulCodec WorkUnit.t := Wire.lawful_of_wire _ (H := WorkUnit.wire).
Local Instance sim_heartbeat_codec : Codec HeartbeatRecord.t := Wire.codec_of_wire _ (H := HeartbeatRecord.wire).
Local Instance sim_heartbeat_lawful : LawfulCodec HeartbeatRecord.t := Wire.lawful_of_wire _ (H := HeartbeatRecord.wire).

Definition sim_reaper : ZombieReaper.t := ZombieReaper.mk sim_client ReaperConfig.default.

(** A unit that the vanished worker ["w"] was processing. *)
Definition orphan : WorkUnit.t :=
  sim_unit "u1" <| WorkUnit.status := WorkUnitStatus.Processing |> <| WorkUnit.owner := Some "w"%string |>
    <| WorkUnit.attempts := 1 |>.
Definition orphan_store : gmap string string :=
  match encode orphan with inr d => {[ unit_key orphan := d ]} | inl _ => ∅ end.

Lemma orphan_store_lookup k d : orphan_store !! k = Some d -> k = unit_key orphan /\ decode d = inr orphan.
Proof.
  unfold orphan_store. destruct (encode_total orphan) as [d' Hd]. rewrite Hd.
  intros [<- <-]%lookup_singleton_Some. split; [done|]. by apply decode_encode.
Qed.

Lemma reclaim_only_dead_owners_witness :
  let w := sim_world orphan_store [] in
  let w' := (reclaim_work_unit sim_reaper "jobs:b" "u1" "w" w).2 in
  unit_at (WorkUnitKeys.unit "jobs:b" "u1") (kv w') = unit_at (WorkUnitKeys.unit "jobs:b" "u1") (kv w) \/
  owner_gone sim_reaper "w" w w'.
Proof.
  intros w w'.
  destruct (reclaim_only_dead_owners sim_reaper sim_client_ok "jobs:b" "u1" "w" w _ w' (surjective_pairing _))
    as [Hs|[Hg _]]; [left; apply Hs|right; exact Hg].
Defined.

(** The next worker asks in vain. *)
Lemma reclaimed_unit_never_granted_witness :
  let w := sim_world orphan_store [] in
  let w1 := (reclaim_work_unit sim_reaper "jobs:b" "u1" "w" w).2 in
  let c1 := BatchController.claim_work_unit sim_controller "x" (mkWorld (env w1) (CircuitBreaker.new 0)) in
  Forall (fun u => unit_key u <> WorkUnitKeys.unit "jobs:b" "u1")
    (match c1.1 with Ok (Some u) => [u] | _ => [] end).
Proof.
  intros w w1 c1.
  refine (reclaimed_unit_never_granted sim_reaper sim_client_ok "jobs:b" "u1" "w" w w1 _ (env c1.2) _ _ _
    (claim_run_cons sim_controller (CircuitBreaker.new 0) "x" (env w1) c1.1 c1.2 [] (env c1.2)
       sim_client_ok (surjective_pairing c1) (claim_run_nil _))).
  - intros b i u Hu. unfold unit_at in Hu.
    destruct (kv w !! WorkUnitKeys.unit b i) as [d|] eqn:E; [|discriminate Hu].
    apply orphan_store_lookup in E as [-> Hd]. rewrite Hd in Hu. injection Hu as <-. reflexivity.
  - intros pk b i [d Hd] Ht. apply orphan_store_lookup in Hd as [-> _].
    unfold unit_key in Ht. rewrite pending_target_unit in Ht. discriminate Ht.
  - apply pair_of_fst. vm_compute. reflexivity.
Defined.

End Witnesses.
