(* ===== verification/Episode.v ===== *)
(** * Episode allocation (crates/roboflow-distributed/src/episode/allocator.rs)

    Episode indices of a batch come from one counter in TiKV, advanced by
    compare-and-swap.  [json_version] reads the field the client's [cas] compares;
    [CounterJson] states what the code relies on of [serde_json], that this is the
    [version] of an encoded counter. *)
From stdpp Require Import pretty.
From S2P Require Import Prelude Codec TikvError Circuit Keys Env Effects Schema Client.

(** [enum EpisodeAllocatorError]. *)
Inductive EpisodeAllocatorError : Type :=
| Tikv (e : TikvError.t)
| Overflow (max_episodes : Z)
| NotInitialized (batch_id : string)
| BatchExceedsLimit (requested current max : Z).

Module EpisodeAllocation.

(** [struct EpisodeAllocation]. *)
Record t : Type := mk { episode_index : Z; chunk_index : Z; chunk_offset : Z }.

(** [EpisodeAllocation::new]. *)
Definition new {E} (episode_index episodes_per_chunk : Z) : result E t :=
  if episodes_per_chunk =? 0 then Panic "attempt to divide by zero"
  else Ok {| episode_index := episode_index;
             chunk_index := as_u32 (episode_index / episodes_per_chunk);
             chunk_offset := as_u32 (episode_index mod episodes_per_chunk) |}.

(** [{:0width}] of an unsigned number. *)
Definition padded (width : nat) (n : Z) : string :=
  let s := pretty n in
  String.concat "" (replicate (width - String.length s) "0"%string) +:+ s.

(** [EpisodeAllocation::video_path], [parquet_path]. *)
Definition video_path (camera_name : string) (a : t) : string :=
  "videos/chunk-" +:+ padded 3 (chunk_index a) +:+ "/" +:+ camera_name
  +:+ "/episode_" +:+ padded 6 (episode_index a) +:+ ".mp4".
Definition parquet_path (a : t) : string :=
  "data/chunk-" +:+ padded 3 (chunk_index a) +:+ "/episode_" +:+ padded 6 (episode_index a) +:+ ".parquet".

End EpisodeAllocation.

(** [chunk_index_from_episode]. *)
Definition chunk_index_from_episode {E} (episode_index episodes_per_chunk : Z) : result E Z :=
  q ← div_u64 episode_index episodes_per_chunk; mret (as_u32 q).

Module EpisodeCounter.
(** [struct EpisodeCounter]. *)
Record t : Type := mk { next_episode : Z; version : Z }.
Definition new : t := mk 0 0.
#[global] Instance t_eq_dec : EqDecision t.
Proof. solve_decision. Defined.

(** A concrete codec. *)
Definition wire : Wire.Wire t.
Proof.
  refine (Wire.wire_iso (fun c => (next_episode c, version c)) (fun '(a, b) => mk a b) _); [|by intros []].
  apply Wire.wire_prod; apply Wire.wire_Z.
Defined.
End EpisodeCounter.

(** [(start..start + count).map(|idx| EpisodeAllocation::new(idx, epc)).collect()]. *)
Fixpoint allocations {E} (epc start : Z) (count : nat) : result E (list EpisodeAllocation.t) :=
  match count with
  | O => Ok []
  | S n => a ← EpisodeAllocation.new start epc; rest ← allocations epc (start + 1) n; mret (a :: rest)
  end.

Module TiKVEpisodeAllocator.

(** [struct TiKVEpisodeAllocator]. *)
Record t : Type := mk {
  client : TikvClient.t;
  batch_id : string;
  episodes_per_chunk : Z;
  max_episodes : Z;
  counter_key : string
}.

#[global] Instance t_eta : Settable t := fun r =>
  mk (client r) (batch_id r) (episodes_per_chunk r) (max_episodes r) (counter_key r).

(** [TiKVEpisodeAllocator::new], [with_max_episodes]. *)
Definition new (client : TikvClient.t) (batch_id : string) (episodes_per_chunk : Z) : t := {|
  client := client;
  batch_id := batch_id;
  episodes_per_chunk := episodes_per_chunk;
  max_episodes := as_u64 (u32_max * episodes_per_chunk);
  counter_key := "/batch/" +:+ batch_id +:+ "/episode_counter"
|}.
Definition with_max_episodes (max : Z) (a : t) : t := a <| max_episodes := max |>.

Section Ops.
Context {S : Type} `{TransactionClient S} `{Codec EpisodeCounter.t}.
Context (json_version : string -> option Z).
Abbreviation Alloc := (M S EpisodeAllocatorError).

(** [?] on a [TikvError] converts it. *)
Definition tikv {A} (m : M S TikvError.t A) : Alloc A := map_err_m Tikv m.

(** [TiKVEpisodeAllocator::ensure_initialized]. *)
Definition ensure_initialized (a : t) : Alloc unit :=
  existing ← tikv (TikvClient.get (client a) (counter_key a));
  match existing with
  | None =>
      value ← tikv (of_sum TikvError.Serialization (encode EpisodeCounter.new));
      ignore (TikvClient.cas json_version (client a) (counter_key a) 0 value)
  | Some _ => mret tt
  end.

(** What [cas_allocate] computes from the bytes it read: the first index, the
    version to expect and the value to write. *)
Definition alloc_request (a : t) (count : Z) (existing : string)
  : result EpisodeAllocatorError (Z * Z * string) :=
  match decode (A:=EpisodeCounter.t) existing with
  | inl e => Err (Tikv (TikvError.Deserialization e))
  | inr counter =>
      match checked_add64 (EpisodeCounter.next_episode counter) count with
      | None => Err (Overflow (max_episodes a))
      | Some new_next =>
          if max_episodes a <? new_next then Err (Overflow (max_episodes a))
          else
            let counter' := EpisodeCounter.mk new_next (u64_add (EpisodeCounter.version counter) 1) in
            match encode counter' with
            | inl e => Err (Tikv (TikvError.Serialization e))
            | inr new_value =>
                Ok (EpisodeCounter.next_episode counter,
                    as_u64 (EpisodeCounter.version counter' - 1), new_value)
            end
      end
  end.

(** [TiKVEpisodeAllocator::cas_allocate]. *)
Definition cas_allocate (a : t) (count : Z) : Alloc Z :=
  ensure_initialized a;;
  existing ← tikv (TikvClient.get (client a) (counter_key a));
  match existing with
  | None => throw (NotInitialized (batch_id a))
  | Some existing =>
      req ← lift (alloc_request a count existing);
      let '(allocated_start, expected, new_value) := req in
      success ← tikv (TikvClient.cas json_version (client a) (counter_key a) expected new_value);
      if success : bool then mret allocated_start
      else throw (Tikv (TikvError.CasFailed expected (u64_add expected 1)))
  end.

Definition is_cas_failed (e : EpisodeAllocatorError) : bool :=
  match e with Tikv (TikvError.CasFailed _ _) => true | _ => false end.

(** The retry loop of [allocate] and [allocate_batch]: [attempts] failures so far,
    of at most ten. *)
Fixpoint alloc_loop (a : t) (count : Z) (attempts : Z) (fuel : nat) : Alloc Z :=
  match fuel with
  | O => panic "out of fuel"
  | Datatypes.S fuel' =>
      r ← try_ (cas_allocate a count);
      match r with
      | Ok start => mret start
      | Err e =>
          if is_cas_failed e then
            let attempts := attempts + 1 in
            if 10 <=? attempts then throw (Tikv (TikvError.CasFailed 0 0))
            else sleep_for (millis (Z.shiftl 1 (Z.min (attempts - 1) 6)));;
                 alloc_loop a count attempts fuel'
          else throw e
      | Panic s => panic s
      end
  end.

(** [TiKVEpisodeAllocator::allocate]. *)
Definition allocate (a : t) : Alloc EpisodeAllocation.t :=
  start ← alloc_loop a 1 0 10;
  lift (EpisodeAllocation.new start (episodes_per_chunk a)).

(** [TiKVEpisodeAllocator::allocate_batch]. *)
Definition allocate_batch (a : t) (count : nat) : Alloc (list EpisodeAllocation.t) :=
  match count with
  | O => mret []
  | _ =>
      start ← alloc_loop a (Z.of_nat count) 0 10;
      lift (allocations (episodes_per_chunk a) start count)
  end.

(** [TiKVEpisodeAllocator::allocated_count]. *)
Definition allocated_count (a : t) : Alloc Z :=
  existing ← tikv (TikvClient.get (client a) (counter_key a));
  match existing with
  | Some data =>
      counter ← tikv (of_sum TikvError.Deserialization (decode (A:=EpisodeCounter.t) data));
      mret (EpisodeCounter.next_episode counter)
  | None => mret 0
  end.

End Ops.
End TiKVEpisodeAllocator.

Module LocalEpisodeAllocator.

(** [struct LocalEpisodeAllocator]. *)
Record t : Type := mk { counter : Z; episodes_per_chunk : Z; max_episodes : Z }.

#[global] Instance t_eta : Settable t := fun r => mk (counter r) (episodes_per_chunk r) (max_episodes r).

(** [LocalEpisodeAllocator::new]. *)
Definition new (episodes_per_chunk : Z) : t := mk 0 episodes_per_chunk (as_u64 (u32_max * episodes_per_chunk)).
Definition with_max_episodes (max : Z) (a : t) : t := a <| max_episodes := max |>.

(** [LocalEpisodeAllocator::allocate]. *)
Definition allocate (a : t) : result EpisodeAllocatorError EpisodeAllocation.t * t :=
  let episode_index := counter a in
  let a := a <| counter := u64_add (counter a) 1 |> in
  (if max_episodes a <=? episode_index then Err (Overflow (max_episodes a))
   else EpisodeAllocation.new episode_index (episodes_per_chunk a), a).

(** [LocalEpisodeAllocator::allocate_batch]. *)
Definition allocate_batch (count : nat) (a : t) : result EpisodeAllocatorError (list EpisodeAllocation.t) * t :=
  match count with
  | O => (Ok [], a)
  | _ =>
      let start := counter a in
      let a := a <| counter := u64_add (counter a) (Z.of_nat count) |> in
      (if max_episodes a <? u64_add start (Z.of_nat count)
       then Err (BatchExceedsLimit (Z.of_nat count) start (max_episodes a))
       else allocations (episodes_per_chunk a) start count, a)
  end.

(** [LocalEpisodeAllocator::allocated_count]. *)
Definition allocated_count (a : t) : Z := counter a.

End LocalEpisodeAllocator.

(** ** Indices and chunks *)
Section Chunks.

(** An allocation says where its episode is.  For a positive chunk size and
    every index an allocator made by [new] can hand out (below its maximum), the
    chunk index is not truncated, the offset is within the chunk, the two give the
    index back, and [chunk_index_from_episode] agrees. *)
Theorem episode_allocation_round_trip {E} c b epc e :
  0 < epc < u32_mod -> 0 <= e < TiKVEpisodeAllocator.max_episodes (TiKVEpisodeAllocator.new c b epc) ->
  exists a, EpisodeAllocation.new (E:=E) e epc = Ok a /\
    EpisodeAllocation.chunk_index a * epc + EpisodeAllocation.chunk_offset a = e /\
    0 <= EpisodeAllocation.chunk_offset a < epc /\ 0 <= EpisodeAllocation.chunk_index a < u32_max /\
    chunk_index_from_episode (E:=E) e epc = Ok (EpisodeAllocation.chunk_index a).
Proof.
  intros Hepc He. cbn in He.
  assert (as_u64 (u32_max * epc) = u32_max * epc) as Emax.
  { apply as_u64_id. unfold is_u64, u32_max, u32_mod, u64_mod in *. nia. }
  rewrite Emax in He. unfold EpisodeAllocation.new, chunk_index_from_episode, div_u64.
  destruct (Z.eqb_spec epc 0); [lia|]. eexists. split; [done|]. cbn.
  pose proof (Z.div_mod e epc ltac:(lia)) as Hdm. pose proof (Z.mod_pos_bound e epc ltac:(lia)) as Hm.
  assert (0 <= e / epc < u32_max) as Hq.
  { split; [apply Z.div_pos; lia|]. apply Z.div_lt_upper_bound; lia. }
  rewrite !as_u32_id by (unfold is_u32, u32_max in *; lia). repeat split; try lia.
Qed.

Lemma episode_allocation_round_trip_witness :
  exists a, EpisodeAllocation.new (E:=unit) 99500 500 = Ok a /\
    EpisodeAllocation.chunk_index a * 500 + EpisodeAllocation.chunk_offset a = 99500.
Proof.
  destruct (episode_allocation_round_trip (E:=unit) sim_client "b" 500 99500) as (a & Ea & Hr & _);
    [vm_compute; split; congruence|vm_compute; split; congruence|].
  exists a. split; [exact Ea|exact Hr].
Defined.

End Chunks.

(** ** Indices are handed out once *)
Section Unique.
Import TiKVEpisodeAllocator.
Context {S : Type} `{TransactionClientLaws S} `{!HealthyRuns S} `{LawfulCodec EpisodeCounter.t}.
Context (json_version : string -> option Z).

(** [serde_json] reads back the version of a counter it wrote. *)
Class CounterJson := json_version_encode : forall cnt b,
  encode cnt = inr b -> is_u64 (EpisodeCounter.version cnt) -> json_version b = Some (EpisodeCounter.version cnt).
Context `{!CounterJson} (key : string).

(** A configuration: the cluster, and every value the counter's key has had, any of
    which some worker may have read and still be working with. *)
Definition remember (s : S) (seen : list string) : list string :=
  match committed s !! key with Some v => v :: seen | None => seen end.

(** A step of the workers of a batch: the initialising [cas], the [cas] of an
    allocation of [count] indices computed from a value read at any earlier time,
    or anything that does not write the key.  A step that is told its [cas]
    succeeded grants the range it computed. *)
Inductive alloc_step : S * list string -> list (Z * Z) -> S * list string -> Prop :=
| step_init c br s seen v0 r w' :
    client_ok c -> encode EpisodeCounter.new = inr v0 ->
    TikvClient.cas json_version c key 0 v0 (mkWorld s br) = (r, w') ->
    alloc_step (s, seen) [] (env w', remember (env w') seen)
| step_alloc a br s seen existing count start expected value r w' :
    client_ok (client a) -> counter_key a = key -> 1 <= count -> existing ∈ seen ->
    alloc_request a count existing = Ok (start, expected, value) ->
    TikvClient.cas json_version (client a) key expected value (mkWorld s br) = (r, w') ->
    alloc_step (s, seen) (match r with Ok true => [(start, count)] | _ => [] end)
               (env w', remember (env w') seen)
| step_else s seen s' :
    committed s' !! key = committed s !! key ->
    alloc_step (s, seen) [] (s', remember s' seen).

(** Steps from a fresh counter, with the granted ranges, latest first. *)
Inductive alloc_run (s0 : S) : nat -> S * list string -> list (Z * Z) -> Prop :=
| run_start : committed s0 !! key = None -> alloc_run s0 0 (s0, []) []
| run_step n x gs g x' :
    alloc_run s0 n x gs -> alloc_step x g x' -> alloc_run s0 (Datatypes.S n) x' (g ++ gs).

(** The indices of a list of ranges. *)
Definition indices (gs : list (Z * Z)) : list Z := gs ≫= (fun '(start, count) => seqZ start count).

(** The counter [cur] dominates every value seen, and a seen value with its version
    is it; the ranges granted lie below [cur], without overlap. *)
Definition counter_inv (n : nat) (x : S * list string) (gs : list (Z * Z)) : Prop :=
  (committed x.1 !! key = None /\ x.2 = [] /\ gs = []) \/
  exists cur b,
    committed x.1 !! key = Some b /\ encode cur = inr b /\
    0 <= EpisodeCounter.next_episode cur /\ 0 <= EpisodeCounter.version cur <= Z.of_nat n /\
    (EpisodeCounter.version cur = 0 -> cur = EpisodeCounter.new) /\
    Forall (fun v => exists cv, encode cv = inr v /\
      0 <= EpisodeCounter.version cv <= EpisodeCounter.version cur /\
      (EpisodeCounter.version cv = EpisodeCounter.version cur -> cv = cur)) x.2 /\
    NoDup (indices gs) /\ Forall (fun i => 0 <= i < EpisodeCounter.next_episode cur) (indices gs).

Lemma remember_inv n (s s' : S) seen gs :
  counter_inv n (s, seen) gs -> committed s' !! key = committed s !! key ->
  counter_inv (Datatypes.S n) (s', remember s' seen) gs.
Proof.
  intros Hinv Ek. unfold remember, counter_inv in *. cbn [fst snd] in *. rewrite Ek.
  destruct Hinv as [(En & -> & ->)|(cur & b & Eb & Hb & H1' & H2' & H0' & H3' & H4' & H5')].
  - left. by rewrite En.
  - right. exists cur, b. rewrite Eb. repeat split; try done; [lia..|]. constructor; [|done].
    exists cur. split; [done|]. split; [lia|done].
Qed.

(** The counter replaced by one with the next version. *)
Lemma advance_inv n (s s' : S) seen gs cur cur' b b' :
  committed s !! key = Some b -> encode cur = inr b ->
  0 <= EpisodeCounter.next_episode cur -> 0 <= EpisodeCounter.version cur <= Z.of_nat n ->
  Forall (fun v => exists cv, encode cv = inr v /\
      0 <= EpisodeCounter.version cv <= EpisodeCounter.version cur /\
      (EpisodeCounter.version cv = EpisodeCounter.version cur -> cv = cur)) seen ->
  committed s' !! key = Some b' -> encode cur' = inr b' ->
  EpisodeCounter.version cur' = EpisodeCounter.version cur + 1 ->
  EpisodeCounter.next_episode cur <= EpisodeCounter.next_episode cur' ->
  NoDup (indices gs) -> Forall (fun i => 0 <= i < EpisodeCounter.next_episode cur') (indices gs) ->
  counter_inv (Datatypes.S n) (s', remember s' seen) gs.
Proof.
  intros Eb Hb Hn Hv Hseen Eb' Hb' Hv' Hn' Hnd Hall. right. exists cur', b'. cbn [fst snd].
  unfold remember. rewrite Eb'. repeat split; try done; [lia..|]. constructor.
  - exists cur'. split; [done|]. split; [lia|done].
  - eapply Forall_impl; [exact Hseen|]. intros v (cv & Hcv & Hr & _). exists cv. split; [done|]. split; lia.
Qed.

Lemma alloc_request_Ok a count existing start expected value cx :
  encode cx = inr existing -> 0 <= EpisodeCounter.version cx -> EpisodeCounter.version cx + 1 < u64_mod ->
  alloc_request a count existing = Ok (start, expected, value) ->
  start = EpisodeCounter.next_episode cx /\ expected = EpisodeCounter.version cx /\
  (start + count <= max_episodes a /\ start + count <= u64_max) /\
  encode (EpisodeCounter.mk (start + count) (EpisodeCounter.version cx + 1)) = inr value.
Proof.
  intros Hx H0' Hv. unfold alloc_request. rewrite (decode_encode _ _ Hx).
  destruct (checked_add64 _ count) as [nn|] eqn:Ea; [|done].
  apply checked_add64_Some in Ea as [-> Hmax].
  destruct (Z.ltb_spec (max_episodes a) (EpisodeCounter.next_episode cx + count)); [done|].
  rewrite (u64_add_small (EpisodeCounter.version cx) 1) by lia.
  destruct (encode (EpisodeCounter.mk (EpisodeCounter.next_episode cx + count) (EpisodeCounter.version cx + 1)))
    as [e|v] eqn:Ev; [done|]. intros Eq. injection Eq as <- <- <-. cbn in *.
  rewrite as_u64_id by (unfold is_u64; lia). split; [done|]. split; [lia|]. split; [split; lia|done].
Qed.

Lemma indices_app g gs : indices (g ++ gs) = indices g ++ indices gs.
Proof. apply bind_app. Qed.

(** A new range above everything granted. *)
Lemma grant_range start count gs :
  1 <= count -> 0 <= start -> NoDup (indices gs) -> Forall (fun i => 0 <= i < start) (indices gs) ->
  NoDup (indices ([(start, count)] ++ gs)) /\
  Forall (fun i => 0 <= i < start + count) (indices ([(start, count)] ++ gs)).
Proof.
  intros Hc Hs Hnd Hall. rewrite indices_app. unfold indices at 1 3. cbn. rewrite app_nil_r.
  rewrite Forall_forall in Hall. split.
  - apply NoDup_app. split; [apply NoDup_seqZ|]. split; [|done].
    intros x Hx Hx2. apply elem_of_seqZ in Hx. apply Hall in Hx2. lia.
  - apply Forall_forall. intros x [Hx|Hx]%elem_of_app; [apply elem_of_seqZ in Hx; lia|apply Hall in Hx; lia].
Qed.

(** What one [cas] does to the key. *)
Lemma cas_key_cases c expected v s br r (w' : World S) :
  client_ok c -> TikvClient.cas json_version c key expected v (mkWorld s br) = (r, w') ->
  (committed (env w') !! key = committed s !! key /\ r <> Ok true) \/
  (cas_matches json_version key expected (committed s) = true /\ committed (env w') !! key = Some v).
Proof.
  intros [Hi _] E. change (committed (env w')) with (kv w'). wp_run E.
  apply wp_cas; [done|]. change (kv (mkWorld s br)) with (committed s).
  destruct (cas_matches _ _ _ _) eqn:Em.
  - split.
    + intros w1 [_ Hk]. right. split; [done|]. rewrite Hk. apply lookup_insert_eq.
    + intros e w1 (_ & _ & [Hk|Hk]); [left; split; [by rewrite Hk|done]|right].
      split; [done|]. rewrite Hk. apply lookup_insert_eq.
  - intros r1 w1 [Hk _] Hne _. left. split; [by rewrite Hk|done].
Qed.

Lemma alloc_step_inv n x gs g x' :
  counter_inv n x gs -> Z.of_nat n + 1 < u64_mod -> alloc_step x g x' -> counter_inv (Datatypes.S n) x' (g ++ gs).
Proof.
  intros Hinv Hn Hstep. destruct Hstep as
    [c br s seen v0 r w' Hc Hv0 E|a br s seen existing count start expected value r w' Hc Hkey Hcount Hin Hreq E
    |s seen s' Ek]; [| |by apply remember_inv with s].
  - apply (cas_key_cases c) in E; [|done]. cbn [app].
    destruct E as [[Ek _]|[Hm Ek]]; [by apply remember_inv with s|].
    pose proof Hinv as Hinv'. unfold counter_inv in Hinv'. cbn [fst snd] in Hinv'.
    destruct Hinv' as [(En & -> & ->)|(cur & b & Eb & Hb & H1' & H2' & H0' & _)].
    + right. exists EpisodeCounter.new, v0. cbn [fst snd]. unfold remember. rewrite Ek.
      repeat split; try done; cbn; try lia; [|apply NoDup_nil_2].
      constructor; [|done]. exists EpisodeCounter.new. cbn. repeat split; done || lia.
    + unfold cas_matches in Hm. rewrite Eb, (json_version_encode cur b) in Hm by (done || unfold is_u64; lia).
      apply Z.eqb_eq, H0' in Hm. subst cur. apply remember_inv with s; [done|]. congruence.
  - apply (cas_key_cases (client a)) in E; [|done].
    destruct E as [[Ek Hr]|[Hm Ek]].
    { replace (match r with Ok true => _ | _ => _ end) with (@nil (Z * Z)) by (by destruct r as [[]| |]).
      by apply remember_inv with s. }
    unfold counter_inv in Hinv. cbn [fst snd] in Hinv.
    destruct Hinv as [(_ & -> & _)|(cur & b & Eb & Hb & H1' & H2' & H0' & H3' & H4' & H5')];
      [by apply elem_of_nil in Hin|].
    pose proof H3' as Hall. rewrite Forall_forall in Hall.
    destruct (Hall existing Hin) as (cx & Hcx & Hvx & Heq).
    destruct (alloc_request_Ok a count existing start expected value cx) as (-> & -> & _ & Hval); [done|lia|lia|done|].
    unfold cas_matches in Hm. rewrite Eb, (json_version_encode cur b) in Hm by (done || unfold is_u64; lia).
    apply Z.eqb_eq in Hm. symmetry in Hm. apply Heq in Hm. subst cx.
    destruct (grant_range (EpisodeCounter.next_episode cur) count gs) as [Hnd Hlt]; [done..|].
    eapply (advance_inv n s (env w') seen _ cur _ b value); try done; cbn; try lia.
    + destruct r as [[]| |]; try done; by destruct Hnd.
    + destruct r as [[]| |]; [exact Hlt|..]; (eapply Forall_impl; [exact H5'|]; cbn; lia).
Qed.

Lemma get_keeps c k (w : World S) r w' :
  client_ok c -> TikvClient.get c k w = (r, w') ->
  committed (env w') = committed (env w) /\ (forall v, r = Ok v -> v = committed (env w) !! k).
Proof.
  intros [Hi _] E. wp_run E. apply wp_get; [done|..].
  - intros w1 [Hk _]. split; [exact Hk|]. by intros v [= <-].
  - intros e w1 [[Hk _] _]. by split; [exact Hk|].
Qed.

(** A call of [ensure_initialized] is a sequence of steps that grants nothing. *)
Lemma ensure_initialized_steps a s0 n seen gs (w : World S) r w' :
  client_ok (client a) -> counter_key a = key -> alloc_run s0 n (env w, seen) gs ->
  ensure_initialized json_version a w = (r, w') ->
  exists k seen', (k <= 2)%nat /\ alloc_run s0 (k + n) (env w', seen') gs.
Proof.
  intros Hok Hkey Hrun E. unfold ensure_initialized, tikv, map_err_m, mbind, M_bind in E.
  destruct (TikvClient.get (client a) (counter_key a) w) as [rg w1] eqn:Eg.
  destruct (get_keeps _ _ _ _ _ Hok Eg) as [Hk _].
  assert (alloc_run s0 (1 + n) (env w1, remember (env w1) seen) gs) as Hrun1.
  { apply (run_step s0 n (env w, seen) gs []); [done|]. apply step_else. by rewrite Hk. }
  assert (forall w2, w2 = w1 -> exists k seen', (k <= 2)%nat /\ alloc_run s0 (k + n) (env w2, seen') gs) as Hdone.
  { intros w2 ->. exists 1%nat, (remember (env w1) seen). split; [lia|done]. }
  destruct rg as [[b|]|e|m]; cbn in E; [by apply Hdone; injection E| |by apply Hdone; injection E..].
  destruct (encode EpisodeCounter.new) as [e|v0] eqn:Ev; cbn in E; [by apply Hdone; injection E|].
  unfold ignore, try_, mbind, M_bind in E.
  destruct (TikvClient.cas json_version (client a) (counter_key a) 0 v0 w1) as [rc w2] eqn:Ec.
  exists 2%nat, (remember (env w2) (remember (env w1) seen)). split; [lia|].
  replace (env w') with (env w2) by (destruct rc; by injection E as _ <-).
  apply (run_step s0 (1 + n) _ gs [] _ Hrun1). rewrite Hkey in Ec. destruct w1 as [s1 b1].
  by eapply step_init.
Qed.

(** A whole [cas_allocate] is a sequence of steps, and it grants the range from the
    index it returns, so the runs below include those made of whole calls. *)
Lemma cas_allocate_steps a count s0 n seen gs (w : World S) r w' :
  client_ok (client a) -> counter_key a = key -> 1 <= count -> alloc_run s0 n (env w, seen) gs ->
  cas_allocate json_version a count w = (r, w') ->
  exists k seen', (k <= 4)%nat /\
    alloc_run s0 (k + n) (env w', seen') (match r with Ok start => [(start, count)] | _ => [] end ++ gs).
Proof.
  intros Hok Hkey Hcount Hrun E. unfold cas_allocate in E. unfold mbind at 1, M_bind at 1 in E.
  destruct (ensure_initialized json_version a w) as [ri w1] eqn:Ei.
  destruct (ensure_initialized_steps a s0 n seen gs w ri w1 Hok Hkey Hrun Ei) as (k & seen1 & Hk & Hrun1).
  destruct ri as [[]|e|m]; [|injection E as <- <-; exists k, seen1; split; [lia|done]..].
  unfold tikv, map_err_m, mbind, M_bind in E.
  destruct (TikvClient.get (client a) (counter_key a) w1) as [rg w2] eqn:Eg.
  destruct (get_keeps _ _ _ _ _ Hok Eg) as [Hkv Hrd].
  assert (alloc_run s0 (1 + k + n) (env w2, remember (env w2) seen1) gs) as Hrun2.
  { apply (run_step s0 (k + n) (env w1, seen1) gs []); [done|]. apply step_else. by rewrite Hkv. }
  assert ((forall x, r <> Ok x) -> w' = w2 -> exists k seen', (k <= 4)%nat /\ alloc_run s0 (k + n) (env w', seen')
      (match r with Ok start => [(start, count)] | _ => [] end ++ gs)) as Hstop.
  { intros Hr ->. exists (1 + k)%nat, (remember (env w2) seen1). split; [lia|].
    by destruct r as [x| |]; [destruct (Hr x)|..]. }
  destruct rg as [[b|]|e|m]; cbn in E; [|injection E as <- <-; by apply Hstop..].
  unfold lift in E. destruct (alloc_request a count b) as [[[start expected] value]|e|m] eqn:Er;
    [|injection E as <- <-; by apply Hstop..].
  destruct (TikvClient.cas json_version (client a) (counter_key a) expected value w2) as [rc w3] eqn:Ec.
  exists (2 + k)%nat, (remember (env w3) (remember (env w2) seen1)). split; [lia|].
  assert (alloc_step (env w2, remember (env w2) seen1) (match rc with Ok true => [(start, count)] | _ => [] end)
    (env w3, remember (env w3) (remember (env w2) seen1))) as Hstep.
  { destruct w2 as [s2 b2]. rewrite Hkey in Ec. eapply step_alloc; [done|done|done| |exact Er|exact Ec].
    unfold remember at 1. cbn in Hkv |- *. rewrite Hkv, <- Hkey, <- (Hrd _ eq_refl). apply elem_of_cons. by left. }
  pose proof (run_step s0 _ _ _ _ _ Hrun2 Hstep) as Hrun3.
  destruct rc as [[]|e|m]; injection E as <- <-; exact Hrun3.
Qed.

(** C3: no two workers get the same episode.  Start from a batch without a
    counter, and let any number of workers run: reading the counter at any time,
    computing their request from what they read, however stale, and sending their
    [cas], with calls failing at any point (whole calls of [cas_allocate] are such
    steps, by [cas_allocate_steps]).  After any number of steps below 2^64 - 1
    the episode indices of all the ranges granted are pairwise different. *)
Theorem episodes_allocated_once s0 n s seen gs :
  alloc_run s0 n (s, seen) gs -> Z.of_nat n < u64_max -> NoDup (indices gs).
Proof.
  intros Hrun Hn.
  assert (forall x, alloc_run s0 n x gs -> counter_inv n x gs) as Hinv.
  { clear Hrun s seen. intros x Hrun. induction Hrun as [Hnone|n x gs g x' Hrun IH Hstep].
    - left. done.
    - eapply alloc_step_inv; [apply IH; unfold u64_max in *; lia|unfold u64_max in *; lia|done]. }
  destruct (Hinv _ Hrun) as [(_ & _ & ->)|(cur & b & _ & _ & _ & _ & _ & _ & Hnd & _)]; [constructor|done].
Qed.

End Unique.

(** ** What an allocation returns *)
Section Outcome.
Import TiKVEpisodeAllocator.
Context {S : Type} `{TransactionClientLaws S} `{!HealthyRuns S} `{LawfulCodec EpisodeCounter.t}.
Context (json_version : string -> option Z) `{!CounterJson json_version}.

(** The counter a store holds: the stored one, or a new one. *)
Definition counter_is (a : t) (m : gmap string string) (cur : EpisodeCounter.t) : Prop :=
  match m !! counter_key a with
  | Some b => encode cur = inr b
  | None => cur = EpisodeCounter.new
  end.

Lemma wp_ensure_initialized a cur (Q : result EpisodeAllocatorError unit -> World S -> Prop) w :
  client_ok (client a) -> ready w -> counter_is a (kv w) cur ->
  (forall w', ready w' ->
     (exists b, kv w' !! counter_key a = Some b /\ encode cur = inr b) -> Q (Ok tt) w') ->
  wp (ensure_initialized json_version a) Q w.
Proof.
  intros [Hi _] Hw Hcur HQ. unfold ensure_initialized, tikv, counter_is in *. do 2 wp_step.
  apply wp_get; [done| |by intros e w' []]. intros w1 Hc1. cbn.
  destruct (kv w !! counter_key a) as [b|] eqn:Ek.
  - wp_step. apply HQ; [world|]. exists b. split; [|done]. world_facts. congruence.
  - destruct (encode_total EpisodeCounter.new) as [v0 Hv0]. do 3 wp_step. rewrite Hv0. cbn. wp_step.
    apply wp_cas; [done|]. unfold cas_matches.
    replace (kv w1 !! counter_key a) with (@None string) by (world_facts; congruence). cbn.
    split; [|intros e w2 (_ & Hn & _); destruct Hn; world].
    intros w2 [Hl Hk]. apply HQ; [world|]. exists v0. rewrite Hk. subst cur. split; [apply lookup_insert_eq|done].
Qed.

(** One round in a ready world with nobody in between: it succeeds, or the limit
    is reached. *)
Lemma wp_cas_allocate a count cur (Q : result EpisodeAllocatorError Z -> World S -> Prop) w :
  client_ok (client a) -> ready w -> counter_is a (kv w) cur ->
  0 <= EpisodeCounter.version cur -> EpisodeCounter.version cur + 1 < u64_mod ->
  let next := EpisodeCounter.next_episode cur in
  (forall w', ready w' -> next + count <= max_episodes a /\ next + count <= u64_max ->
     counter_is a (kv w') (EpisodeCounter.mk (next + count) (EpisodeCounter.version cur + 1)) ->
     Q (Ok next) w') ->
  (forall w', ready w' -> counter_is a (kv w') cur ->
     max_episodes a < next + count \/ u64_max < next + count -> Q (Err (Overflow (max_episodes a))) w') ->
  wp (cas_allocate json_version a count) Q w.
Proof.
  intros Hok Hw Hcur H0' Hv next HOk HOver. unfold cas_allocate. wp_step.
  apply wp_ensure_initialized with cur; [done..|]. intros w1 Hw1 (b & Ek & Hb).
  unfold tikv. do 2 wp_step. destruct Hok as [Hi Hr]. apply wp_get; [done| |by intros e w' []].
  intros w2 Hc2. cbn. rewrite Ek. do 2 wp_step.
  assert (kv w2 !! counter_key a = Some b) as Ek2 by (world_facts; congruence).
  assert (ready w2) as Hw2 by world.
  destruct (alloc_request a count b) as [[[start expected] value]|e|s] eqn:Er.
  - destruct (alloc_request_Ok a count b start expected value cur) as (-> & -> & Hle & Hval); [done..|].
    do 2 wp_step. apply wp_cas; [done|]. unfold cas_matches. rewrite Ek2, (json_version_encode _ cur b), Z.eqb_refl
      by (done || unfold is_u64; lia).
    split; [|by intros e w3 (_ & [] & _)]. intros w3 [Hl Hk]. cbn. wp_step.
    apply HOk; [world|done|]. unfold counter_is. by rewrite Hk, lookup_insert_eq.
  - unfold alloc_request in Er. rewrite (decode_encode _ _ Hb) in Er.
    assert (counter_is a (kv w2) cur) as Hc by (unfold counter_is; by rewrite Ek2).
    destruct (checked_add64 _ count) as [nn|] eqn:Ea.
    + apply checked_add64_Some in Ea as [-> _].
      destruct (Z.ltb_spec (max_episodes a) (EpisodeCounter.next_episode cur + count)).
      * injection Er as <-. apply HOver; [done..|by left].
      * destruct (encode_total (EpisodeCounter.mk (EpisodeCounter.next_episode cur + count)
          (u64_add (EpisodeCounter.version cur) 1))) as [v Ev]. by rewrite Ev in Er.
    + injection Er as <-. apply HOver; [done..|right].
      unfold checked_add64 in Ea. destruct (Z.leb_spec (EpisodeCounter.next_episode cur + count) u64_max); [done|].
      subst next. lia.
  - unfold alloc_request in Er. rewrite (decode_encode _ _ Hb) in Er.
    destruct (checked_add64 _ count); [|done]. destruct (Z.ltb _ _); [done|].
    match type of Er with context [encode ?x] => destruct (encode x) end; discriminate Er.
Qed.

Lemma allocations_indices {E} epc start count :
  epc <> 0 -> exists l, allocations (E:=E) epc start count = Ok l /\
    (EpisodeAllocation.episode_index <$> l) = seqZ start (Z.of_nat count).
Proof.
  intros Hepc. revert start. induction count as [|n IH]; intros start; [by exists []|].
  destruct (IH (start + 1)) as (l & El & Hl). cbn. unfold EpisodeAllocation.new.
  destruct (Z.eqb_spec epc 0); [done|]. cbn. rewrite El. cbn. eexists. split; [done|].
  cbn. rewrite Hl, (seqZ_cons start (Z.of_nat (Datatypes.S n))) by lia. f_equal.
  f_equal; lia.
Qed.

(** What [allocate_batch] returns when no other worker interferes and no call
    fails.  With the counter at [cur] (or not yet created), a request for [count]
    episodes that fits under the limit returns the [count] consecutive indices from
    [next_episode], and [allocated_count] afterwards is their end; one that does not
    fit is refused with [Overflow] and leaves the counter as it was. *)
Theorem allocate_batch_outcome a (count : nat) cur (w : World S) :
  client_ok (client a) -> ready w -> counter_is a (kv w) cur ->
  episodes_per_chunk a <> 0 -> (0 < count)%nat ->
  0 <= EpisodeCounter.version cur -> EpisodeCounter.version cur + 1 < u64_mod ->
  let last := EpisodeCounter.next_episode cur + Z.of_nat count in
  exists r w', allocate_batch json_version a count w = (r, w') /\
    if (last <=? max_episodes a) && (last <=? u64_max)
    then exists l, r = Ok l /\
           (EpisodeAllocation.episode_index <$> l) = seqZ (EpisodeCounter.next_episode cur) (Z.of_nat count) /\
           (allocated_count a w').1 = Ok last
    else r = Err (Overflow (max_episodes a)) /\
         (allocated_count a w').1 = Ok (EpisodeCounter.next_episode cur).
Proof.
  intros Hok Hw Hcur Hepc Hcount H0' Hv last.
  assert (forall w' c, ready w' -> counter_is a (kv w') c ->
    (allocated_count a w').1 = Ok (EpisodeCounter.next_episode c)) as Hread.
  { intros w1 c Hw1 Hc1. change (wp (allocated_count a) (fun r _ => r = Ok (EpisodeCounter.next_episode c)) w1).
    unfold allocated_count, tikv, counter_is in *. do 2 wp_step.
    apply wp_get; [apply Hok| |by intros e w2 []]. intros w2 _. cbn.
    destruct (kv w1 !! counter_key a); [|by subst]. do 3 wp_step. by rewrite (decode_encode _ _ Hc1). }
  destruct (allocate_batch json_version a count w) as [r w'] eqn:E. exists r, w'. split; [done|].
  unfold allocate_batch in E. destruct count as [|n]; [lia|]. cbv beta iota in E.
  set (cnt := Datatypes.S n) in *. wp_run E. wp_step. cbn [alloc_loop]. do 2 wp_step.
  apply wp_cas_allocate with cur; [done..| |].
  - intros w1 Hw1 Hle Hc1. do 2 wp_step.
    destruct (allocations_indices (E:=EpisodeAllocatorError) (episodes_per_chunk a)
      (EpisodeCounter.next_episode cur) cnt) as (l & -> & Hl); [done|].
    destruct (Z.leb_spec last (max_episodes a)), (Z.leb_spec last u64_max); try (cbn; lia).
    exists l. split; [done|]. split; [done|]. by rewrite (Hread w1 _ Hw1 Hc1).
  - intros w1 Hw1 Hc1 Hover.
    destruct (Z.leb_spec last (max_episodes a)), (Z.leb_spec last u64_max); cbn; try lia;
      (split; [done|by apply Hread]).
Qed.

End Outcome.

(** ** Witnesses on a concrete cluster *)
Section Witnesses.
Import Sim TiKVEpisodeAllocator.

Local Instance sim_codec : Codec EpisodeCounter.t := Wire.codec_of_wire _ (H := EpisodeCounter.wire).
Local Instance sim_lawful : LawfulCodec EpisodeCounter.t := Wire.lawful_of_wire _ (H := EpisodeCounter.wire).

Definition sim_version (b : string) : option Z :=
  match decode (A:=EpisodeCounter.t) b with inr c => Some (EpisodeCounter.version c) | inl _ => None end.

Lemma sim_version_reads : CounterJson sim_version.
Proof. intros cnt b Hb _. unfold sim_version. by rewrite (decode_encode _ _ Hb). Qed.

Definition sim_alloc : t := new sim_client "b" 500.
Definition sim_bytes (c : EpisodeCounter.t) : string := match encode c with inr b => b | inl e => e end.

(** A worker's [cas], and the configuration it leaves. *)
Definition sim_cas (expected : Z) (v : string) (x : Sim.t * list string) :=
  TikvClient.cas sim_version sim_client (counter_key sim_alloc) expected v (mkWorld x.1 (CircuitBreaker.new 0)).
Definition sim_next (expected : Z) (v : string) (x : Sim.t * list string) : Sim.t * list string :=
  let s := env (sim_cas expected v x).2 in (s, remember (counter_key sim_alloc) s x.2).

Lemma sim_step x existing count start expected v r :
  1 <= count -> existing ∈ x.2 -> alloc_request sim_alloc count existing = Ok (start, expected, v) ->
  (sim_cas expected v x).1 = r ->
  alloc_step sim_version (counter_key sim_alloc) x
    (match r with Ok true => [(start, count)] | _ => [] end) (sim_next expected v x).
Proof.
  intros Hc Hin Hreq Hr. destruct x as [s seen].
  exact (step_alloc sim_version (counter_key sim_alloc) sim_alloc (CircuitBreaker.new 0) s seen existing count
    start expected v r _ sim_client_ok eq_refl Hc Hin Hreq (pair_of_fst _ _ Hr)).
Qed.

(** Two workers read the new counter; the first [cas] grants 0..3, the stale one is
    refused, and a worker that reads again gets 3..5. *)
Lemma episodes_allocated_once_witness : NoDup (indices [(3, 2); (0, 3)]).
Proof.
  pose (v0 := sim_bytes (EpisodeCounter.mk 0 0)). pose (v1 := sim_bytes (EpisodeCounter.mk 3 1)).
  pose (x0 := (env (sim_world ∅ []), @nil string)). pose (x1 := sim_next 0 v0 x0). pose (x2 := sim_next 0 v1 x1).
  pose (x3 := sim_next 0 (sim_bytes (EpisodeCounter.mk 9 1)) x2).
  pose (x4 := sim_next 1 (sim_bytes (EpisodeCounter.mk 5 2)) x3).
  assert (alloc_run sim_version (counter_key sim_alloc) x0.1 1 x1 []) as R1.
  { refine (run_step _ _ _ 0 x0 [] [] x1 _ (step_init _ _ sim_client (CircuitBreaker.new 0) x0.1 [] v0 _ _
      sim_client_ok eq_refl (surjective_pairing _))).
    apply run_start. vm_compute. reflexivity. }
  assert (alloc_run sim_version (counter_key sim_alloc) x0.1 2 x2 [(0, 3)]) as R2.
  { refine (run_step _ _ _ 1 x1 [] [(0, 3)] x2 R1 (sim_step x1 v0 3 0 0 v1 (Ok true) _ _ _ _));
      [done|vm_compute; set_solver|vm_compute; reflexivity|vm_compute; reflexivity]. }
  assert (alloc_run sim_version (counter_key sim_alloc) x0.1 3 x3 [(0, 3)]) as R3.
  { refine (run_step _ _ _ 2 x2 [(0, 3)] [] x3 R2 (sim_step x2 v0 9 0 0 _ (Err (TikvError.CasFailed 0 1)) _ _ _ _));
      [done|vm_compute; set_solver|vm_compute; reflexivity|vm_compute; reflexivity]. }
  assert (alloc_run sim_version (counter_key sim_alloc) x0.1 4 x4 [(3, 2); (0, 3)]) as R4.
  { refine (run_step _ _ _ 3 x3 [(0, 3)] [(3, 2)] x4 R3 (sim_step x3 v1 2 3 1 _ (Ok true) _ _ _ _));
      [done|vm_compute; set_solver|vm_compute; reflexivity|vm_compute; reflexivity]. }
  refine (episodes_allocated_once sim_version (H3 := sim_version_reads) (counter_key sim_alloc) x0.1 4 x4.1 x4.2
    [(3, 2); (0, 3)] _ _); [exact R4|vm_compute; reflexivity].
Defined.

Lemma allocate_batch_outcome_witness :
  exists r w', allocate_batch sim_version sim_alloc 3 (sim_world ∅ []) = (r, w') /\
    (allocated_count sim_alloc w').1 = Ok 3.
Proof.
  destruct (allocate_batch_outcome sim_version (CounterJson0 := sim_version_reads) sim_alloc 3 EpisodeCounter.new
    (sim_world ∅ [])) as (r & w' & E & Hr);
    [exact sim_client_ok|apply sim_world_ready|reflexivity|done|lia|done|done|].
  destruct Hr as (l & _ & _ & Hc). exists r, w'. split; [exact E|exact Hc].
Defined.

End Witnesses.
