(* ===== verification/Merge.v ===== *)
(** * Merging staged output (merge/schema.rs and merge/coordinator.rs of
    crates/roboflow-distributed/src)

    Workers register their staged output in a [MergeState]; when all units of a
    batch are settled, one finalizer claims the merge, runs the executor and
    completes the batch.  The executor (polars, the file system and the storage
    backend) is the parameter [execute]; the storage factory is [create_storage]. *)
From stdpp Require Import pretty.
From S2P Require Import Prelude Codec TikvError Circuit Lifecycle Keys Env Effects Schema Client WorkUnit Batch Controller.

Module MergeStatus.
(** [enum MergeStatus]. *)
Inductive t : Type := Pending | InProgress | Complete | Failed.
#[global] Instance t_eq_dec : EqDecision t.
Proof. solve_decision. Defined.
End MergeStatus.

Module MergeState.

(** [struct MergeState]. *)
Record t : Type := mk {
  job_id : string;
  status : MergeStatus.t;
  expected_workers : Z;
  completed_workers : Z;
  staging_paths : gmap string string;
  total_frames : Z;
  merged_frames : Z;
  output_path : string;
  created_at : Z;
  updated_at : Z;
  error : option string;
  merge_worker : option string
}.

#[global] Instance t_eta : Settable t := fun r =>
  mk (job_id r) (status r) (expected_workers r) (completed_workers r) (staging_paths r) (total_frames r)
     (merged_frames r) (output_path r) (created_at r) (updated_at r) (error r) (merge_worker r).

(** [MergeState::new]. *)
Definition new (now : Z) (job_id : string) (expected_workers : Z) (output_path : string) : t := {|
  job_id := job_id;
  status := MergeStatus.Pending;
  expected_workers := expected_workers;
  completed_workers := 0;
  staging_paths := ∅;
  total_frames := 0;
  merged_frames := 0;
  output_path := output_path;
  created_at := now;
  updated_at := now;
  error := None;
  merge_worker := None
|}.

(** [MergeState::is_ready], [is_complete], [is_failed]. *)
Definition is_ready (s : t) : bool :=
  (expected_workers s <=? completed_workers s) && bool_decide (status s = MergeStatus.Pending).
Definition is_complete (s : t) : bool := bool_decide (status s = MergeStatus.Complete).
Definition is_failed (s : t) : bool := bool_decide (status s = MergeStatus.Failed).

(** [MergeState::add_worker]. *)
Definition add_worker (now : Z) (worker_id staging_path : string) (frame_count : Z) (s : t) : t :=
  let s := s <| staging_paths := <[worker_id := staging_path]> (staging_paths s) |> in
  s <| completed_workers := Z.of_nat (size (staging_paths s)) |>
    <| total_frames := u64_add (total_frames s) frame_count |>
    <| updated_at := now |>.

(** [MergeState::start_merge]. *)
Definition start_merge (now : Z) (worker : string) (s : t) : result string t :=
  if is_ready s
  then Ok (s <| status := MergeStatus.InProgress |> <| merge_worker := Some worker |> <| updated_at := now |>)
  else Err "Cannot start merge: not all workers complete"%string.

(** [MergeState::complete], [fail]. *)
Definition complete (now : Z) (s : t) : t := s <| status := MergeStatus.Complete |> <| updated_at := now |>.
Definition fail (now : Z) (e : string) (s : t) : t :=
  s <| status := MergeStatus.Failed |> <| error := Some e |> <| updated_at := now |>.

Definition status_code (s : MergeStatus.t) : Z :=
  match s with MergeStatus.Pending => 0 | MergeStatus.InProgress => 1 | MergeStatus.Complete => 2
  | MergeStatus.Failed => 3 end.
Definition status_of_code (z : Z) : MergeStatus.t :=
  match z with 0 => MergeStatus.Pending | 1 => MergeStatus.InProgress | 2 => MergeStatus.Complete
  | _ => MergeStatus.Failed end.

(** A concrete codec. *)
Definition wire : Wire.Wire t.
Proof.
  refine (Wire.wire_iso
    (fun s => (job_id s, status_code (status s), expected_workers s, completed_workers s,
       map_to_list (staging_paths s), total_frames s, merged_frames s, output_path s, created_at s,
       updated_at s, error s, merge_worker s))
    (fun '(a, b, c, d, e, f, g, h, i, j, k, l) =>
       mk a (status_of_code b) c d (list_to_map e) f g h i j k l) _).
  2: { intros [? [] ? ? m ? ? ? ? ? ? ?]; cbn; by rewrite (list_to_map_to_list m). }
  repeat apply Wire.wire_prod;
    (apply Wire.wire_string || apply Wire.wire_Z || apply Wire.wire_option, Wire.wire_string
     || apply Wire.wire_list, Wire.wire_prod; apply Wire.wire_string).
Defined.

End MergeState.

Module MergeSemaphoreInner.
(** [struct MergeSemaphoreInner]: the shared counter of permits. *)
Record t : Type := mk { max_permits : Z; available : Z }.
#[global] Instance t_eta : Settable t := fun r => mk (max_permits r) (available r).

Definition new (max_permits : Z) : t := mk max_permits (as_u32 max_permits).

(** [try_acquire] run without contention; [sem_step] below has its loop. *)
Definition try_acquire (s : t) : bool * t :=
  if 0 <? available s then (true, s <| available := available s - 1 |>) else (false, s).

(** [MergeSemaphoreInner::release]. *)
Definition release (s : t) : t :=
  if available s <? as_u32 (max_permits s) then s <| available := available s + 1 |> else s.

Definition available_permits (s : t) : Z := available s.
End MergeSemaphoreInner.

Module MergeSemaphoreMetrics.
(** [struct MergeSemaphoreMetrics]. *)
Record t : Type := mk {
  available_permits : Z;
  queue_depth : Z;
  total_attempts : Z;
  successful_merges : Z
}.
#[global] Instance t_eta : Settable t := fun r =>
  mk (available_permits r) (queue_depth r) (total_attempts r) (successful_merges r).
End MergeSemaphoreMetrics.

Module MergeSemaphore.

(** [struct MergeSemaphore].  The metrics and the queue are for observation; each
    [try_lock] on them is taken to succeed. *)
Record t : Type := mk {
  inner : MergeSemaphoreInner.t;
  pending : list (string * Z);
  metrics : MergeSemaphoreMetrics.t
}.

#[global] Instance t_eta : Settable t := fun r => mk (inner r) (pending r) (metrics r).

Definition new (max_permits : Z) : t :=
  mk (MergeSemaphoreInner.new max_permits) [] (MergeSemaphoreMetrics.mk max_permits 0 0 0).
Definition DEFAULT_MAX_CONCURRENT_MERGES : Z := 3.
Definition with_defaults : t := new DEFAULT_MAX_CONCURRENT_MERGES.

(** [MergeSemaphore::try_acquire]; [true] when a permit is handed out. *)
Definition try_acquire (s : t) : bool * t :=
  let s := s <| metrics := metrics s <| MergeSemaphoreMetrics.total_attempts :=
    u64_add (MergeSemaphoreMetrics.total_attempts (metrics s)) 1 |> |> in
  let '(ok, i) := MergeSemaphoreInner.try_acquire (inner s) in
  (ok, s <| inner := i |>
         <| metrics := metrics s <| MergeSemaphoreMetrics.available_permits :=
              if ok : bool then MergeSemaphoreInner.available_permits i else 0 |> |>).

(** [Drop for MergePermit]. *)
Definition drop_permit (s : t) : t := s <| inner := MergeSemaphoreInner.release (inner s) |>.

(** [MergeSemaphore::enqueue_pending], [dequeue_pending], [record_success]. *)
Definition set_depth (s : t) : t :=
  s <| metrics := metrics s <| MergeSemaphoreMetrics.queue_depth := Z.of_nat (length (pending s)) |> |>.
Definition enqueue_pending (now : Z) (batch_id : string) (s : t) : t :=
  set_depth (s <| pending := pending s ++ [(batch_id, now)] |>).
Definition dequeue_pending (batch_id : string) (s : t) : t :=
  set_depth (s <| pending := filter (fun e => e.1 <> batch_id) (pending s) |>).
Definition record_success (s : t) : t :=
  s <| metrics := metrics s <| MergeSemaphoreMetrics.successful_merges :=
         u64_add (MergeSemaphoreMetrics.successful_merges (metrics s)) 1 |> |>.

End MergeSemaphore.

(** [enum MergeResult] of merge/coordinator.rs. *)
Module MergeResult.
Inductive t : Type :=
| NotFound
| NotClaimed
| NotReady
| Success (output_path : string) (total_frames : Z)
| Failed (error : string).
End MergeResult.

Module MergeCoordinator.

(** [struct MergeCoordinator]: the client; the shared semaphore is an argument of
    the operation that uses it, and the storage side is [create_storage] and [execute]. *)
Record t : Type := mk { tikv : TikvClient.t }.

(** [MergeCoordinator::merge_state_key]. *)
Definition merge_state_key (job_id : string) : string := "/roboflow/v1/merge/" +:+ job_id.

Section Ops.
Context {S : Type} `{TransactionClient S}.
Context `{Codec BatchStatus.t, Codec MergeState.t}.
Context (create_storage : string -> string + unit) (execute : MergeState.t -> M S TikvError.t Z).
Abbreviation Tikv := (M S TikvError.t).

Definition read_state (data : string) : Tikv MergeState.t :=
  of_sum (fun e => TikvError.Serialization ("Failed to deserialize merge state: " +:+ e)) (decode data).

(** [MergeCoordinator::save_merge_state]. *)
Definition save_merge_state (c : t) (job_id : string) (state : MergeState.t) : Tikv unit :=
  merge_data ← of_sum (fun e => TikvError.Serialization ("Failed to serialize merge state: " +:+ e))
                 (encode state);
  TikvClient.put (tikv c) (merge_state_key job_id) merge_data.

(** [MergeCoordinator::register_staging_complete]. *)
Definition register_staging_complete (c : t) (job_id worker_id staging_path : string) (frame_count : Z)
  : Tikv unit :=
  data ← TikvClient.get (tikv c) (merge_state_key job_id);
  state ← match data with
    | Some data => read_state data
    | None => t ← now; mret (MergeState.new t job_id 1 "")
    end;
  t ← now;
  save_merge_state c job_id (MergeState.add_worker t worker_id staging_path frame_count state).

(** [MergeCoordinator::try_acquire_merge_permit]. *)
Definition try_acquire_merge_permit (job_id : string) (sem : MergeSemaphore.t)
  : Tikv (result TikvError.t unit * MergeSemaphore.t) :=
  match MergeSemaphore.try_acquire sem with
  | (true, sem) => mret (Ok tt, MergeSemaphore.dequeue_pending job_id sem)
  | (false, sem) =>
      t ← now;
      mret (Err (TikvError.Other "No merge permits available"), MergeSemaphore.enqueue_pending t job_id sem)
  end.

Definition read_status (data : string) : Tikv BatchStatus.t :=
  of_sum (fun e => TikvError.Deserialization ("batch status: " +:+ e)) (decode data).

(** [MergeCoordinator::get_batch_status]. *)
Definition get_batch_status (c : t) (job_id : string) : Tikv (option BatchStatus.t) :=
  data ← TikvClient.get (tikv c) (BatchKeys.status job_id);
  match data with
  | Some data => status ← read_status data; mret (Some status)
  | None => mret None
  end.

(** [MergeCoordinator::is_batch_claimable]. *)
Definition is_batch_claimable (status : BatchStatus.t) : bool :=
  bool_decide (BatchStatus.phase status = BatchPhase.Running).

(** [MergeCoordinator::transition_to_merging]. *)
Definition transition_to_merging (c : t) (status_key : string) (current_status : BatchStatus.t) : Tikv unit :=
  t ← now;
  new_data ← of_sum TikvError.Serialization
    (encode (BatchStatus.transition_to t BatchPhase.Merging current_status));
  TikvClient.put (tikv c) status_key new_data;;
  update_phase_index (tikv c) (trim_start_matches "/roboflow/v1/batch/" status_key)
    BatchPhase.Running BatchPhase.Merging.

(** [MergeCoordinator::verify_cas_won]. *)
Definition verify_cas_won (c : t) (status_key : string) (current_status : BatchStatus.t) : Tikv bool :=
  verify_data ← TikvClient.get (tikv c) status_key;
  mret (match verify_data with Some _ => true | None => false end).

(** [MergeCoordinator::get_or_create_merge_state]. *)
Definition get_or_create_merge_state (c : t) (job_id : string) (expected_workers : Z) (output_path : string)
  : Tikv MergeState.t :=
  data ← TikvClient.get (tikv c) (merge_state_key job_id);
  match data with
  | Some data =>
      state ← read_state data;
      mret (state <| MergeState.expected_workers := expected_workers |>
                  <| MergeState.output_path := output_path |>)
  | None => t ← now; mret (MergeState.new t job_id expected_workers output_path)
  end.

(** [MergeCoordinator::ensure_merge_ready], with the updated state. *)
Definition ensure_merge_ready (state : MergeState.t) (expected_workers : Z) (output_path : string)
  : Tikv (bool * MergeState.t) :=
  if MergeState.is_ready state then mret (true, state)
  else if (MergeState.completed_workers state =? 0) && (expected_workers =? 1)
  then t ← now; mret (true, MergeState.add_worker t "direct" output_path 0 state)
  else mret (false, state).

(** [MergeCoordinator::rollback_to_running]. *)
Definition rollback_to_running (c : t) (status_key : string) : Tikv unit :=
  ignore (TikvClient.delete (tikv c) status_key).

(** [MergeCoordinator::execute_merge]. *)
Definition execute_merge (state : MergeState.t) : Tikv Z :=
  of_sum (fun e => TikvError.Other ("Failed to create storage: " +:+ e))
    (create_storage (MergeState.output_path state));;
  map_err_m (fun e => TikvError.Other ("Merge execution failed: " +:+ TikvError.to_string e)) (execute state).

(** The status a finished merge changes. *)
Definition load_status (c : t) (job_id : string) : Tikv BatchStatus.t :=
  data ← TikvClient.get (tikv c) (BatchKeys.status job_id);
  match data with
  | Some d => read_status d
  | None => throw (TikvError.KeyNotFound ("Batch status not found: " +:+ job_id))
  end.

(** The last part of both: the merge state, if there is one, is updated. *)
Definition update_merge_state (c : t) (job_id : string) (f : Z -> MergeState.t -> MergeState.t) : Tikv unit :=
  merge_data ← TikvClient.get (tikv c) (merge_state_key job_id);
  match merge_data with
  | Some merge_data =>
      state ← of_sum (fun e => TikvError.Serialization ("merge state: " +:+ e)) (decode merge_data);
      t ← now;
      data ← of_sum TikvError.Serialization (encode (f t state));
      ignore (TikvClient.put (tikv c) (merge_state_key job_id) data)
  | None => mret tt
  end.

(** [MergeCoordinator::fail_merge_with_status]. *)
Definition fail_merge_with_status (c : t) (job_id error : string) : Tikv unit :=
  status ← load_status c job_id;
  t ← now;
  new_data ← of_sum TikvError.Serialization
    (encode (BatchStatus.transition_to t BatchPhase.Failed status <| BatchStatus.error := Some error |>));
  TikvClient.put (tikv c) (BatchKeys.status job_id) new_data;;
  ignore (update_phase_index (tikv c) job_id (BatchStatus.phase status) BatchPhase.Failed);;
  update_merge_state c job_id (fun t => MergeState.fail t error).

(** [MergeCoordinator::complete_merge_with_status]. *)
Definition complete_merge_with_status (c : t) (job_id : string) (total_frames : Z) (output_path : string)
  : Tikv unit :=
  status ← load_status c job_id;
  t ← now;
  new_data ← of_sum TikvError.Serialization
    (encode (BatchStatus.transition_to t BatchPhase.Complete status));
  TikvClient.put (tikv c) (BatchKeys.status job_id) new_data;;
  ignore (update_phase_index (tikv c) job_id BatchPhase.Merging BatchPhase.Complete);;
  update_merge_state c job_id (fun t state =>
    MergeState.complete t (state <| MergeState.total_frames := total_frames |>)).

(** [MergeCoordinator::prepare_and_execute_merge]; [uuid] is the fresh id of the
    merge worker. *)
Definition prepare_and_execute_merge (c : t) (uuid job_id : string) (expected_workers : Z)
  (output_path status_key : string) : Tikv MergeResult.t :=
  state ← get_or_create_merge_state c job_id expected_workers output_path;
  ready ← ensure_merge_ready state expected_workers output_path;
  match ready with
  | (false, _) => rollback_to_running c status_key;; mret MergeResult.NotReady
  | (true, state) =>
      t ← now;
      match MergeState.start_merge t ("merge-" +:+ uuid) state with
      | Err e => ignore (fail_merge_with_status c job_id e);; mret (MergeResult.Failed e)
      | Panic s => panic s
      | Ok state =>
          save_merge_state c job_id state;;
          frames ← try_ (execute_merge state);
          match frames with
          | Err e =>
              ignore (fail_merge_with_status c job_id (TikvError.to_string e));;
              mret (MergeResult.Failed (TikvError.to_string e))
          | Panic s => panic s
          | Ok actual_frames =>
              done ← try_ (complete_merge_with_status c job_id actual_frames (MergeState.output_path state));
              match done with
              | Ok _ => mret (MergeResult.Success (MergeState.output_path state) actual_frames)
              | Err e => mret (MergeResult.Failed (TikvError.to_string e))
              | Panic s => panic s
              end
          end
      end
  end.

(** The phases of [try_claim_merge] that run under the permit. *)
Definition claim_merge (c : t) (uuid job_id : string) (expected_workers : Z) (output_path : string)
  : Tikv MergeResult.t :=
  current_status ← get_batch_status c job_id;
  match current_status with
  | None => mret MergeResult.NotFound
  | Some current_status =>
      if negb (is_batch_claimable current_status) then mret MergeResult.NotClaimed
      else if negb (BatchStatus.is_complete current_status) then mret MergeResult.NotReady
      else
        let status_key := BatchKeys.status job_id in
        transition_to_merging c status_key current_status;;
        won ← verify_cas_won c status_key current_status;
        if negb won then mret MergeResult.NotClaimed
        else prepare_and_execute_merge c uuid job_id expected_workers output_path status_key
  end.

(** [MergeCoordinator::try_claim_merge]: its result, and the semaphore after the
    permit is dropped. *)
Definition try_claim_merge (c : t) (uuid job_id : string) (expected_workers : Z) (output_path : string)
  (sem : MergeSemaphore.t) : Tikv (result TikvError.t MergeResult.t * MergeSemaphore.t) :=
  permit ← try_acquire_merge_permit job_id sem;
  match permit with
  | (Err e, sem) => mret (Err e, sem)
  | (Panic s, sem) => mret (Panic s, sem)
  | (Ok _, sem) =>
      r ← try_ (claim_merge c uuid job_id expected_workers output_path);
      let sem := match r with Ok (MergeResult.Success _ _) => MergeSemaphore.record_success sem | _ => sem end in
      mret (r, MergeSemaphore.drop_permit sem)
  end.

(** [MergeCoordinator::get_merge_state], [is_merge_complete]. *)
Definition get_merge_state (c : t) (job_id : string) : Tikv (option MergeState.t) :=
  data ← TikvClient.get (tikv c) (merge_state_key job_id);
  match data with
  | Some data => state ← read_state data; mret (Some state)
  | None => mret None
  end.
Definition is_merge_complete (c : t) (job_id : string) : Tikv bool :=
  state ← get_merge_state c job_id;
  mret (match state with Some state => MergeState.is_complete state | None => false end).

End Ops.
End MergeCoordinator.

(** ** The semaphore under contention

    Threads share the counter.  [try_acquire] loads it, then tries to swap the
    value it saw for one less; [compare_exchange_weak] may fail even when the value
    is still the same, and gives the value it found. *)
Section Semaphore.
Context (max_permits : Z).

Inductive Thread : Type := Idle | Loaded (current : Z) | Holding.

#[global] Instance Thread_eq_dec : EqDecision Thread.
Proof. solve_decision. Defined.

Inductive sem_step : Z * list Thread -> Z * list Thread -> Prop :=
| sem_load a ts i :
    ts !! i = Some Idle -> sem_step (a, ts) (a, <[i := Loaded a]> ts)
| sem_swap a ts i :
    ts !! i = Some (Loaded a) -> 0 < a -> sem_step (a, ts) (a - 1, <[i := Holding]> ts)
| sem_retry a ts i cur :
    ts !! i = Some (Loaded cur) -> 0 < cur -> sem_step (a, ts) (a, <[i := Loaded a]> ts)
| sem_refuse a ts i cur :
    ts !! i = Some (Loaded cur) -> ~ 0 < cur -> sem_step (a, ts) (a, <[i := Idle]> ts)
| sem_release a ts i :
    ts !! i = Some Holding ->
    sem_step (a, ts) (MergeSemaphoreInner.available (MergeSemaphoreInner.release
                        (MergeSemaphoreInner.mk max_permits a)), <[i := Idle]> ts).

(** How many permits are out. *)
Definition holds (t : Thread) : Z := match t with Holding => 1 | _ => 0 end.
Definition held (ts : list Thread) : Z := foldr (fun t n => holds t + n) 0 ts.

Lemma held_insert ts i t t' : ts !! i = Some t -> held (<[i := t']> ts) = held ts - holds t + holds t'.
Proof.
  revert i. induction ts as [|x ts IH]; intros [|i] Hi; try done; cbn in *.
  - injection Hi as ->. lia.
  - rewrite IH by done. fold (held ts). lia.
Qed.

Lemma held_nonneg ts : 0 <= held ts.
Proof. unfold held. induction ts as [|[]]; cbn; lia. Qed.

Lemma held_idle n : held (replicate n Idle) = 0.
Proof. by induction n. Qed.

Lemma sem_step_conserves a ts a' ts' :
  sem_step (a, ts) (a', ts') -> 0 <= a -> a + held ts = as_u32 max_permits ->
  0 <= a' /\ a' + held ts' = as_u32 max_permits.
Proof.
  intros Hs. remember (a, ts) as x eqn:Ex. remember (a', ts') as x' eqn:Ex'.
  destruct Hs as [b us i Hi|b us i Hi Hb|b us i cur Hi _|b us i cur Hi _|b us i Hi];
    injection Ex as -> ->; injection Ex' as <- <-; intros Ha Hsum;
    rewrite (held_insert _ _ _ _ Hi); cbn [holds]; try lia.
  unfold MergeSemaphoreInner.release. cbn.
  assert (1 <= held ts); [|destruct (Z.ltb_spec a (as_u32 max_permits)); cbn; lia].
  pose proof (held_insert _ _ _ Idle Hi) as Hh. cbn in Hh.
  pose proof (held_nonneg (<[i := Idle]> ts)). lia.
Qed.

(** Permits are conserved.  Whatever the interleaving of any number of threads
    that acquire and drop permits, spurious failures of the weak exchange included,
    the counter and the permits held add up to the limit, so never more than the
    limit are held and none is ever lost. *)
Theorem semaphore_permits_conserved n a ts :
  rtc sem_step (MergeSemaphoreInner.available (MergeSemaphoreInner.new max_permits), replicate n Idle) (a, ts) ->
  0 <= a /\ a + held ts = as_u32 max_permits /\ held ts <= as_u32 max_permits.
Proof.
  intros Hr.
  assert (forall x y, rtc sem_step x y -> 0 <= x.1 -> x.1 + held x.2 = as_u32 max_permits ->
    0 <= y.1 /\ y.1 + held y.2 = as_u32 max_permits) as Hinv.
  { induction 1 as [x|[b us] [b' us'] z Hs _ IH]; intros H1 H2; [done|].
    destruct (sem_step_conserves _ _ _ _ Hs H1 H2). by apply IH. }
  apply Hinv in Hr; cbn [fst snd] in *.
  - destruct Hr. lia.
  - apply as_u32_range.
  - rewrite held_idle. apply Z.add_0_r.
Qed.

(** The uncontended [try_acquire] is one such run. *)
Lemma try_acquire_is_run a ts i :
  ts !! i = Some Idle -> 0 <= a ->
  let '(ok, s') := MergeSemaphoreInner.try_acquire (MergeSemaphoreInner.mk max_permits a) in
  rtc sem_step (a, ts) (MergeSemaphoreInner.available s', <[i := if ok : bool then Holding else Idle]> ts).
Proof.
  intros Hi Ha. unfold MergeSemaphoreInner.try_acquire. cbn.
  assert (i < length ts)%nat as Hlt by (by apply lookup_lt_Some in Hi).
  destruct (Z.ltb_spec 0 a); cbn.
  - eapply rtc_l; [by apply sem_load|]. apply rtc_once.
    rewrite <- (list_insert_insert_eq ts i Holding (Loaded a)). apply sem_swap; [by apply list_lookup_insert_eq|done].
  - eapply rtc_l; [by apply sem_load|]. apply rtc_once.
    rewrite <- (list_insert_insert_eq ts i Idle (Loaded a)).
    eapply sem_refuse; [by apply list_lookup_insert_eq|lia].
Qed.

End Semaphore.

Lemma semaphore_permits_conserved_witness :
  0 <= 0 /\ 0 + held [Holding; Loaded 0] = as_u32 1 /\ held [Holding; Loaded 0] <= as_u32 1.
Proof.
  apply (semaphore_permits_conserved 1 2).
  eapply rtc_l; [apply (sem_load 1 _ _ 0); reflexivity|].
  eapply rtc_l; [apply (sem_swap 1 _ _ 0); reflexivity|].
  eapply rtc_l; [apply (sem_load 1 _ _ 1); reflexivity|]. apply rtc_refl.
Defined.

(** ** Operations of a ready world *)
Section Ready.
Context {S : Type} `{TransactionClientLaws S} `{!HealthyRuns S}.
Context (k : TikvClient.t) (Hk : client_ok k).

Lemma ready_get key (Q : result TikvError.t (option string) -> World S -> Prop) w :
  ready w -> (forall w', ready w' -> kv w' = kv w -> Q (Ok (kv w !! key)) w') -> wp (TikvClient.get k key) Q w.
Proof.
  intros Hw HQ. apply wp_get; [apply Hk| |by intros e w' []].
  intros w' Hc. apply HQ; [world|apply Hc].
Qed.

Lemma ready_put key v (Q : result TikvError.t unit -> World S -> Prop) w :
  ready w -> (forall w', ready w' -> kv w' = <[key := v]> (kv w) -> Q (Ok tt) w') ->
  wp (TikvClient.put k key v) Q w.
Proof.
  intros Hw HQ. apply wp_put; [apply Hk..| |by intros e w' (_ & [] & _)].
  intros w' [Hl He]. apply HQ; [world|exact He].
Qed.

Lemma ready_delete key (Q : result TikvError.t unit -> World S -> Prop) w :
  ready w -> (forall w', ready w' -> kv w' = base.delete key (kv w) -> Q (Ok tt) w') ->
  wp (TikvClient.delete k key) Q w.
Proof.
  intros Hw HQ. apply wp_delete; [apply Hk..| |by intros e w' (_ & [] & _)].
  intros w' [Hl He]. apply HQ; [world|exact He].
Qed.

Lemma ready_now {E} (Q : result E Z -> World S -> Prop) w :
  ready w -> (forall t w', ready w' -> kv w' = kv w -> Q (Ok t) w') -> wp now Q w.
Proof. intros Hw HQ. apply wp_now. intros t w' Hc _ _. apply HQ; [world|apply Hc]. Qed.

Lemma ready_update_phase_index b p q (Q : result TikvError.t unit -> World S -> Prop) w :
  p <> q -> ready w ->
  (forall w', ready w' ->
     kv w' = base.delete (BatchIndexKeys.phase p b) (<[BatchIndexKeys.phase q b := ""%string]> (kv w)) ->
     Q (Ok tt) w') ->
  wp (update_phase_index k b p q) Q w.
Proof.
  intros Hpq Hw HQ. unfold update_phase_index. rewrite decide_False by done. wp_step.
  apply ready_put; [done|]. intros w1 Hw1 E1. apply ready_delete; [done|].
  intros w2 Hw2 E2. apply HQ; [done|congruence].
Qed.

End Ready.

(** ** Claiming and completing a merge *)
Section Claim.
Import MergeCoordinator.
Context {S : Type} `{TransactionClientLaws S} `{!HealthyRuns S}.
Context `{LawfulCodec BatchStatus.t, LawfulCodec MergeState.t}.
Context (create_storage : string -> string + unit) (execute : MergeState.t -> M S TikvError.t Z).
Context (c : MergeCoordinator.t) (Hc : client_ok (tikv c)).

(** The merge state a store holds for a job. *)
Definition merge_at (job : string) (m : gmap string string) : option MergeState.t :=
  match m !! merge_state_key job with
  | Some d => match decode d with inr st => Some st | inl _ => None end
  | None => None
  end.

(** The name under which [transition_to_merging] moves a batch in the phase index. *)
Definition index_name (job : string) : string := "statuses/" +:+ job.

Lemma trim_status_key job : trim_start_matches "/roboflow/v1/batch/" (BatchKeys.status job) = index_name job.
Proof.
  unfold BatchKeys.status. rewrite key_of_joined. cbn. unfold index_name, trim_start_matches. cbn.
  by rewrite string_app_nil_r.
Qed.

Lemma index_name_ne job : index_name job <> job.
Proof.
  intros E%(f_equal String.length).
  assert (String.length (index_name job) = 9 + String.length job)%nat as E9 by reflexivity. lia.
Qed.

Lemma merge_ne_status j b : merge_state_key j <> BatchKeys.status b.
Proof. unfold BatchKeys.status. rewrite key_of_joined. done. Qed.

Lemma merge_ne_phase j p b : merge_state_key j <> BatchIndexKeys.phase p b.
Proof. unfold BatchIndexKeys.phase. rewrite key_of_joined. done. Qed.

Lemma phase_ne_name p q a b : a <> b -> BatchIndexKeys.phase p a <> BatchIndexKeys.phase q b.
Proof. by intros Hab [_ E]%phase_inj. Qed.

Lemma phase_ne_phase p q a b : p <> q -> BatchIndexKeys.phase p a <> BatchIndexKeys.phase q b.
Proof. by intros Hpq [E _]%phase_inj. Qed.

(** Lookups in a store the merge has written. *)
Ltac key_ne :=
  lazymatch goal with
  | |- merge_state_key _ <> BatchKeys.status _ => apply merge_ne_status
  | |- BatchKeys.status _ <> merge_state_key _ => apply not_eq_sym; apply merge_ne_status
  | |- merge_state_key _ <> BatchIndexKeys.phase _ _ => apply merge_ne_phase
  | |- BatchIndexKeys.phase _ _ <> merge_state_key _ => apply not_eq_sym; apply merge_ne_phase
  | |- BatchKeys.status _ <> BatchIndexKeys.phase _ _ => apply status_ne_phase
  | |- BatchIndexKeys.phase _ _ <> BatchKeys.status _ => apply not_eq_sym; apply status_ne_phase
  | |- BatchIndexKeys.phase ?p _ <> BatchIndexKeys.phase ?q _ =>
      first [apply phase_ne_phase; discriminate | apply phase_ne_name; apply index_name_ne
        | apply phase_ne_name; apply not_eq_sym; apply index_name_ne]
  end.
#[local] Opaque BatchKeys.status BatchIndexKeys.phase merge_state_key.
Ltac look :=
  repeat first [rewrite lookup_insert_eq | rewrite lookup_delete_eq
    | rewrite lookup_insert_ne by key_ne | rewrite lookup_delete_ne by key_ne].

(** A store's status as bytes. *)
Lemma status_at_bytes job m st :
  status_at job m = Some st -> exists b, m !! BatchKeys.status job = Some b /\ decode b = inr st.
Proof.
  unfold status_at. destruct (m !! _) as [b|]; [|done]. destruct (decode b) eqn:Ed; [done|].
  intros [= ->]. by exists b.
Qed.

(** The store after phase 4: the status is [Merging], the index of another name moved. *)
Definition claimed (job b : string) (m : gmap string string) : gmap string string :=
  base.delete (BatchIndexKeys.phase BatchPhase.Running (index_name job))
    (<[BatchIndexKeys.phase BatchPhase.Merging (index_name job) := ""%string]>
      (<[BatchKeys.status job := b]> m)).

Lemma ready_transition_to_merging job st (Q : result TikvError.t unit -> World S -> Prop) w :
  ready w ->
  (forall t b w', ready w' -> encode (BatchStatus.transition_to t BatchPhase.Merging st) = inr b ->
     kv w' = claimed job b (kv w) -> Q (Ok tt) w') ->
  wp (transition_to_merging c (BatchKeys.status job) st) Q w.
Proof.
  intros Hw HQ. unfold transition_to_merging. wp_step. apply ready_now; [done|]. intros t w1 Hw1 E1.
  destruct (encode_total (BatchStatus.transition_to t BatchPhase.Merging st)) as [b Hb].
  do 2 wp_step. rewrite Hb. wp_step. apply ready_put; [done..|]. intros w2 Hw2 E2.
  rewrite trim_status_key. apply ready_update_phase_index; [done..|]. intros w3 Hw3 E3.
  apply (HQ t b); [done..|]. unfold claimed. by rewrite E3, E2, E1.
Qed.

Lemma ready_verify_cas_won job st b m (Q : result TikvError.t bool -> World S -> Prop) w :
  ready w -> kv w = claimed job b m -> (forall w', ready w' -> kv w' = kv w -> Q (Ok true) w') ->
  wp (verify_cas_won c (BatchKeys.status job) st) Q w.
Proof.
  intros Hw Ew HQ. unfold verify_cas_won. wp_step. apply ready_get; [done..|]. intros w1 Hw1 E1.
  rewrite Ew. unfold claimed. look. by apply HQ.
Qed.

(** Up to phase 5, for a batch that is running and whose units are settled. *)
Lemma ready_claim_merge uuid job out n st (Q : result TikvError.t MergeResult.t -> World S -> Prop) w :
  ready w -> status_at job (kv w) = Some st -> BatchStatus.phase st = BatchPhase.Running ->
  BatchStatus.is_complete st = true ->
  (forall t b w', ready w' -> encode (BatchStatus.transition_to t BatchPhase.Merging st) = inr b ->
     kv w' = claimed job b (kv w) ->
     wp (prepare_and_execute_merge create_storage execute c uuid job n out (BatchKeys.status job)) Q w') ->
  wp (claim_merge create_storage execute c uuid job n out) Q w.
Proof.
  intros Hw Hst Hp Hcomp HQ. apply status_at_bytes in Hst as (b0 & Eb0 & Hd0).
  unfold claim_merge, get_batch_status. do 2 wp_step. apply ready_get; [done..|]. intros w1 Hw1 E1.
  rewrite Eb0. unfold read_status. do 2 wp_step. rewrite Hd0. wp_step.
  unfold is_batch_claimable. rewrite bool_decide_true, Hcomp by done. cbn [negb]. wp_step.
  apply ready_transition_to_merging; [done|]. intros t b w2 Hw2 Hb E2. wp_step.
  apply (ready_verify_cas_won job st b (kv w1)); [done..|]. intros w3 Hw3 E3. cbn [negb].
  apply (HQ t b); [done..|]. by rewrite E3, E2, E1.
Qed.

(** With a permit available, [try_claim_merge] is [claim_merge] under the permit. *)
Lemma ready_try_claim_merge uuid job out n sem (Q : result TikvError.t _ -> World S -> Prop) w :
  0 < MergeSemaphoreInner.available (MergeSemaphore.inner sem)
    <= as_u32 (MergeSemaphoreInner.max_permits (MergeSemaphore.inner sem)) ->
  wp (claim_merge create_storage execute c uuid job n out) (fun r w' =>
    match r with
    | Panic s => Q (Panic s) w'
    | _ => forall sem', MergeSemaphore.inner sem' = MergeSemaphore.inner sem -> Q (Ok (r, sem')) w'
    end) w ->
  wp (try_claim_merge create_storage execute c uuid job n out sem) Q w.
Proof.
  intros Hav HQ. destruct sem as [[mx av] q mt]. cbn in Hav. unfold try_claim_merge, try_acquire_merge_permit.
  unfold MergeSemaphore.try_acquire, MergeSemaphoreInner.try_acquire. cbn.
  destruct (Z.ltb_spec 0 av); [|lia]. do 4 wp_step. eapply wp_mono; [exact HQ|].
  assert (forall sem1 : MergeSemaphore.t, MergeSemaphore.inner sem1 = MergeSemaphoreInner.mk mx (av - 1) ->
    MergeSemaphore.inner (MergeSemaphore.drop_permit sem1) = MergeSemaphoreInner.mk mx av) as Hdrop.
  { intros [i q1 mt1] Hi. cbn in Hi. subst i. unfold MergeSemaphore.drop_permit, MergeSemaphoreInner.release. cbn.
    destruct (Z.ltb_spec (av - 1) (as_u32 mx)); [|lia]. unfold set_field. cbn. f_equal. lia. }
  intros [r|e|s] w' Hr; [|by apply Hr, Hdrop|done]. apply Hr, Hdrop. by destruct r.
Qed.

(** Without a permit it fails. *)
Lemma ready_no_permit uuid job out n sem (Q : result TikvError.t _ -> World S -> Prop) w :
  ready w -> MergeSemaphoreInner.available (MergeSemaphore.inner sem) = 0 ->
  (forall sem' w', ready w' -> kv w' = kv w ->
     Q (Ok (Err (TikvError.Other "No merge permits available"), sem')) w') ->
  wp (try_claim_merge create_storage execute c uuid job n out sem) Q w.
Proof.
  intros Hw Hav HQ. destruct sem as [[mx av] q mt]. cbn in Hav. subst av.
  unfold try_claim_merge, try_acquire_merge_permit, MergeSemaphore.try_acquire, MergeSemaphoreInner.try_acquire.
  wp_step. apply wp_bind, ready_now; [done|]. intros t w1 Hw1 E1. do 2 wp_step. by apply HQ.
Qed.

(** A batch whose merge is retried loses its status.  When the merge state of a
    running, settled batch is left from an earlier attempt (it is in progress,
    complete or failed, with its workers registered), [try_claim_merge] answers
    [NotReady] and its roll-back has deleted the batch's status. *)
Theorem merge_retry_erases_status uuid job out n st ms sem (w : World S) :
  ready w -> status_at job (kv w) = Some st -> BatchStatus.phase st = BatchPhase.Running ->
  BatchStatus.is_complete st = true ->
  merge_at job (kv w) = Some ms -> MergeState.status ms <> MergeStatus.Pending ->
  MergeState.completed_workers ms <> 0 ->
  0 < MergeSemaphoreInner.available (MergeSemaphore.inner sem)
    <= as_u32 (MergeSemaphoreInner.max_permits (MergeSemaphore.inner sem)) ->
  exists sem' w', try_claim_merge create_storage execute c uuid job n out sem w
      = (Ok (Ok MergeResult.NotReady, sem'), w') /\
    status_at job (kv w') = None /\ get_batch_status c job w' = (Ok None, (get_batch_status c job w').2).
Proof.
  intros Hw Hst Hp Hcomp Hms Hpend Hcw Hav.
  destruct (try_claim_merge create_storage execute c uuid job n out sem w) as [r w'] eqn:E.
  assert (exists sem', r = Ok (Ok MergeResult.NotReady, sem') /\ ready w' /\ kv w' !! BatchKeys.status job = None)
    as (sem' & -> & Hw' & Hnone).
  { wp_run E. apply ready_try_claim_merge; [done|]. apply ready_claim_merge with st; [done..|]. intros t b w1 Hw1 Hb E1.
    unfold prepare_and_execute_merge, get_or_create_merge_state. do 2 wp_step. apply ready_get; [done..|].
    intros w2 Hw2 E2. rewrite E1. unfold claimed. look. unfold merge_at in Hms.
    destruct (kv w !! merge_state_key job) as [d|]; [|done]. destruct (decode d) as [|ms'] eqn:Ed; [done|].
    injection Hms as ->. unfold read_state. do 2 wp_step. rewrite Ed. wp_step. unfold ensure_merge_ready, MergeState.is_ready.
    cbn [MergeState.status MergeState.completed_workers MergeState.expected_workers]. cbn.
    rewrite (bool_decide_false (MergeState.status ms = MergeStatus.Pending)), andb_false_r by done.
    destruct (Z.eqb_spec (MergeState.completed_workers ms) 0); [done|]. cbn [andb]. do 2 wp_step.
    unfold rollback_to_running. do 2 wp_step. apply ready_delete; [done..|]. intros w3 Hw3 E3. wp_step.
    intros sem' _. exists sem'. split; [done|]. split; [done|]. rewrite E3. look. done. }
  exists sem', w'. split; [done|]. split; [by unfold status_at; rewrite Hnone|].
  apply pair_of_fst. change (wp (get_batch_status c job) (fun r _ => r = Ok None) w').
  unfold get_batch_status. wp_step. apply ready_get; [done..|]. intros w1 _ _. by rewrite Hnone.
Qed.

(** The rest of [complete_merge_with_status] and [fail_merge_with_status] on a stored
    merge state. *)
Lemma ready_update_merge_state job f ms b (Q : result TikvError.t unit -> World S -> Prop) w :
  ready w -> kv w !! merge_state_key job = Some b -> decode b = inr ms ->
  (forall t b' w', ready w' -> encode (f t ms) = inr b' -> kv w' = <[merge_state_key job := b']> (kv w) ->
     Q (Ok tt) w') ->
  wp (update_merge_state c job f) Q w.
Proof.
  intros Hw Ek Hd HQ. unfold update_merge_state. wp_step. apply ready_get; [done..|]. intros w1 Hw1 E1.
  rewrite Ek. do 2 wp_step. rewrite Hd. wp_step. apply ready_now; [done|]. intros t w2 Hw2 E2.
  destruct (encode_total (f t ms)) as [b' Hb']. do 2 wp_step. rewrite Hb'. wp_step.
  apply ready_put; [done..|]. intros w3 Hw3 E3. apply (HQ t b'); [done..|]. by rewrite E3, E2, E1.
Qed.

Lemma ready_complete_merge job st b ms mb frames out (Q : result TikvError.t unit -> World S -> Prop) w :
  ready w -> kv w !! BatchKeys.status job = Some b -> decode b = inr st ->
  kv w !! merge_state_key job = Some mb -> decode mb = inr ms ->
  (forall t b' t' mb' w', ready w' -> encode (BatchStatus.transition_to t BatchPhase.Complete st) = inr b' ->
     encode (MergeState.complete t' (ms <| MergeState.total_frames := frames |>)) = inr mb' ->
     kv w' = <[merge_state_key job := mb']>
       (base.delete (BatchIndexKeys.phase BatchPhase.Merging job)
         (<[BatchIndexKeys.phase BatchPhase.Complete job := ""%string]> (<[BatchKeys.status job := b']> (kv w)))) ->
     Q (Ok tt) w') ->
  wp (complete_merge_with_status c job frames out) Q w.
Proof.
  intros Hw Ek Hd Em Hm HQ. unfold complete_merge_with_status, load_status, read_status. do 2 wp_step.
  apply ready_get; [done..|]. intros w1 Hw1 E1. rewrite Ek. wp_step. rewrite Hd. wp_step.
  apply ready_now; [done|]. intros t w2 Hw2 E2.
  destruct (encode_total (BatchStatus.transition_to t BatchPhase.Complete st)) as [b' Hb'].
  do 2 wp_step. rewrite Hb'. wp_step. apply ready_put; [done..|]. intros w3 Hw3 E3. do 2 wp_step.
  apply ready_update_phase_index; [done..|]. intros w4 Hw4 E4.
  apply (ready_update_merge_state job _ ms mb); [done| |done|].
  - rewrite E4, E3, E2, E1. look. done.
  - intros t' mb' w5 Hw5 Hmb E5. apply (HQ t b' t' mb'); [done..|]. by rewrite E5, E4, E3, E2, E1.
Qed.

(** A first merge of a job with one expected worker. *)
Lemma ready_prepare_direct uuid job out frames st b (Q : result TikvError.t MergeResult.t -> World S -> Prop) w :
  ready w -> kv w !! merge_state_key job = None ->
  kv w !! BatchKeys.status job = Some b -> decode b = inr st -> create_storage out = inr tt ->
  (forall ms w1, ready w1 -> MergeState.output_path ms = out ->
     MergeState.staging_paths ms = {[ "direct"%string := out ]} ->
     exists w2, execute ms w1 = (Ok frames, w2) /\ ready w2 /\ kv w2 = kv w1) ->
  (forall t b' t' mb' ms m1 w', ready w' ->
     encode (BatchStatus.transition_to t BatchPhase.Complete st) = inr b' ->
     encode (MergeState.complete t' (ms <| MergeState.total_frames := frames |>)) = inr mb' ->
     kv w' = <[merge_state_key job := mb']> (base.delete (BatchIndexKeys.phase BatchPhase.Merging job)
       (<[BatchIndexKeys.phase BatchPhase.Complete job := ""%string]> (<[BatchKeys.status job := b']>
         (<[merge_state_key job := m1]> (kv w))))) ->
     Q (Ok (MergeResult.Success out frames)) w') ->
  wp (prepare_and_execute_merge create_storage execute c uuid job 1 out (BatchKeys.status job)) Q w.
Proof.
  intros Hw Hnone Ek Hd Hcs Hex HQ. unfold prepare_and_execute_merge, get_or_create_merge_state. do 2 wp_step.
  apply ready_get; [done..|]. intros w1 Hw1 E1. rewrite Hnone. wp_step. apply ready_now; [done|].
  intros t1 w2 Hw2 E2. wp_step. unfold ensure_merge_ready, MergeState.is_ready. cbn.
  wp_step. wp_step. apply ready_now; [done|]. intros t2 w3 Hw3 E3. do 2 wp_step. apply ready_now; [done|].
  intros t3 w4 Hw4 E4. unfold MergeState.start_merge, MergeState.is_ready. cbn.
  rewrite (map_size_insert_None (M:=gmap string)), map_size_empty, bool_decide_true by done.
  change ((1 <=? Z.of_nat 1) && true) with true. cbv iota.
  match goal with |- wp (save_merge_state _ _ ?x ≫= _) _ _ => set (ms := x) end.
  destruct (encode_total ms) as [m1 Hm1]. unfold save_merge_state. do 3 wp_step. rewrite Hm1.
  apply ready_put; [done..|]. intros w5 Hw5 E5. do 2 wp_step. unfold execute_merge. do 2 wp_step.
  change (MergeState.output_path ms) with out. rewrite Hcs. wp_step. unfold wp at 1.
  destruct (Hex ms w5) as (w6 & -> & Hw6 & E6); [done|done|apply insert_empty|]. cbn. wp_step. wp_step.
  apply (ready_complete_merge job st b ms m1); [done|..|done| |by apply decode_encode|].
  - rewrite E6, E5, E4, E3, E2, E1. look. done.
  - rewrite E6, E5. look. done.
  - intros t b' t' mb' w7 Hw7 Hb' Hmb' E7. wp_step. apply (HQ t b' t' mb' ms m1); [done..|].
    by rewrite E7, E6, E5, E4, E3, E2, E1.
Qed.

(** C36: a merge completes its batch.  With every call answered and a permit free,
    [try_claim_merge] of a running batch whose units are settled, with no merge state
    yet and one worker expected, runs the executor on the output path and, when it
    reports [frames], answers [Success], returns the permit, and leaves the status
    [Complete] with its counters and the merge state [Complete] with the frames.
    In the phase index the batch is added under [Complete], but its [Running] entry
    is not removed: the move to [Merging] is recorded for another name. *)
Theorem merge_completes uuid job out frames st sem (w : World S) :
  ready w -> status_at job (kv w) = Some st -> BatchStatus.phase st = BatchPhase.Running ->
  BatchStatus.is_complete st = true -> kv w !! merge_state_key job = None ->
  create_storage out = inr tt ->
  (forall ms w1, ready w1 -> MergeState.output_path ms = out ->
     MergeState.staging_paths ms = {[ "direct"%string := out ]} ->
     exists w2, execute ms w1 = (Ok frames, w2) /\ ready w2 /\ kv w2 = kv w1) ->
  0 < MergeSemaphoreInner.available (MergeSemaphore.inner sem)
    <= as_u32 (MergeSemaphoreInner.max_permits (MergeSemaphore.inner sem)) ->
  exists sem' w', try_claim_merge create_storage execute c uuid job 1 out sem w
      = (Ok (Ok (MergeResult.Success out frames), sem'), w') /\
    MergeSemaphore.inner sem' = MergeSemaphore.inner sem /\
    (exists st', status_at job (kv w') = Some st' /\ BatchStatus.phase st' = BatchPhase.Complete /\
       BatchStatus.work_units_completed st' = BatchStatus.work_units_completed st /\
       BatchStatus.work_units_failed st' = BatchStatus.work_units_failed st) /\
    (exists ms, merge_at job (kv w') = Some ms /\ MergeState.is_complete ms = true /\
       MergeState.total_frames ms = frames) /\
    kv w' !! BatchIndexKeys.phase BatchPhase.Complete job = Some ""%string /\
    kv w' !! BatchIndexKeys.phase BatchPhase.Running job = kv w !! BatchIndexKeys.phase BatchPhase.Running job.
Proof.
  intros Hw Hst Hp Hcomp Hnone Hcs Hex Hav.
  destruct (try_claim_merge create_storage execute c uuid job 1 out sem w) as [r w'] eqn:E.
  enough (exists sem', r = Ok (Ok (MergeResult.Success out frames), sem') /\
    MergeSemaphore.inner sem' = MergeSemaphore.inner sem /\
    exists t1 t2 t3 b b' mb' ms m1,
      encode (BatchStatus.transition_to t2 BatchPhase.Complete (BatchStatus.transition_to t1 BatchPhase.Merging st)) = inr b' /\
      encode (MergeState.complete t3 (ms <| MergeState.total_frames := frames |>)) = inr mb' /\
      kv w' = <[merge_state_key job := mb']> (base.delete (BatchIndexKeys.phase BatchPhase.Merging job)
         (<[BatchIndexKeys.phase BatchPhase.Complete job := ""%string]> (<[BatchKeys.status job := b']>
           (<[merge_state_key job := m1]> (claimed job b (kv w)))))))
    as (sem' & -> & Hsem & t1 & t2 & t3 & b & b' & mb' & ms & m1 & Hb' & Hmb' & Ekv).
  - exists sem', w'. split; [done|]. split; [done|]. unfold status_at, merge_at. rewrite Ekv. unfold claimed.
    split; [|split; [|split]].
    + eexists. look. rewrite (decode_encode _ _ Hb'). split; [done|].
      unfold BatchStatus.transition_to. by destruct (BatchStatus.completed_at st) eqn:Ec; cbn; rewrite Ec.
    + eexists. look. rewrite (decode_encode _ _ Hmb'). split; [done|]. done.
    + look. done.
    + look. done.
  - wp_run E. apply ready_try_claim_merge; [done|]. apply ready_claim_merge with st; [done..|].
    intros t b w1 Hw1 Hb E1. apply (ready_prepare_direct uuid job out frames
      (BatchStatus.transition_to t BatchPhase.Merging st) b); [done|..|done|done|].
    + rewrite E1. unfold claimed. look. done.
    + rewrite E1. unfold claimed. look. done.
    + by apply decode_encode.
    + intros t2 b' t3 mb' ms m1 w2 Hw2 Hb' Hmb' E2 sem' Hsem. exists sem'. split; [done|]. split; [done|].
      exists t, t2, t3, b, b', mb', ms, m1. rewrite E2, E1. done.
Qed.

(** Phases 4 and 5 from any ready world. *)
Lemma claim_wins job st (w : World S) :
  ready w -> exists w1 w2,
    transition_to_merging c (BatchKeys.status job) st w = (Ok tt, w1) /\
    verify_cas_won c (BatchKeys.status job) st w1 = (Ok true, w2) /\ ready w2.
Proof.
  intros Hw.
  destruct (transition_to_merging c (BatchKeys.status job) st w) as [r w1] eqn:E.
  assert (r = Ok tt /\ ready w1 /\ exists b, kv w1 = claimed job b (kv w)) as (-> & Hw1 & b & E1).
  { wp_run E. apply ready_transition_to_merging; [done|]. intros t b w2 Hw2 _ E2.
    split; [done|]. split; [done|]. by exists b. }
  destruct (verify_cas_won c (BatchKeys.status job) st w1) as [r w2] eqn:E2.
  assert (r = Ok true /\ ready w2) as [-> Hw2].
  { wp_run E2. by apply (ready_verify_cas_won job st b (kv w)). }
  exists w1, w2. split; [done|]. by split.
Qed.

End Claim.

Section Race.
Import MergeCoordinator.
Context {S : Type} `{TransactionClientLaws S} `{!HealthyRuns S} `{LawfulCodec BatchStatus.t}.

(** The claim excludes nobody.  Two finalizers that have both read the running
    status [st] each write [Merging] and each are told by [verify_cas_won] that they
    won, the second even when it starts after the first has been told so. *)
Theorem merge_claim_not_exclusive c c' job st br (w : World S) :
  client_ok (tikv c) -> client_ok (tikv c') -> ready w -> CircuitInner.get_state br = CircuitState.Closed ->
  let key := BatchKeys.status job in
  exists w1 w2 w3 w4,
    transition_to_merging c key st w = (Ok tt, w1) /\ verify_cas_won c key st w1 = (Ok true, w2) /\
    transition_to_merging c' key st (mkWorld (env w2) br) = (Ok tt, w3) /\
    verify_cas_won c' key st w3 = (Ok true, w4).
Proof.
  intros Hc Hc' Hw Hbr key. destruct (claim_wins c Hc job st w Hw) as (w1 & w2 & E1 & E2 & Hw2).
  destruct (claim_wins c' Hc' job st (mkWorld (env w2) br)) as (w3 & w4 & E3 & E4 & _).
  { split; [apply Hw2|exact Hbr]. }
  by exists w1, w2, w3, w4.
Qed.

End Race.

(** ** Witnesses on a concrete cluster *)
Section Witnesses.
Import MergeCoordinator Sim.

Local Instance merge_status_codec : Codec BatchStatus.t := Wire.codec_of_wire _ (H := BatchStatus.wire).
Local Instance merge_status_lawful : LawfulCodec BatchStatus.t := Wire.lawful_of_wire _ (H := BatchStatus.wire).
Local Instance merge_state_codec : Codec MergeState.t := Wire.codec_of_wire _ (H := MergeState.wire).
Local Instance merge_state_lawful : LawfulCodec MergeState.t := Wire.lawful_of_wire _ (H := MergeState.wire).

Definition sim_coordinator : MergeCoordinator.t := MergeCoordinator.mk sim_client.
Definition sim_settled : BatchStatus.t :=
  BatchStatus.with_phase 0 BatchPhase.Running
    <| BatchStatus.work_units_total := 2 |> <| BatchStatus.work_units_completed := 2 |>.
Definition text {A} `{Codec A} (x : A) : string := match encode x with inr b => b | inl e => e end.
Definition sim_failed_merge : MergeState.t :=
  MergeState.fail 0 "disk full" (MergeState.add_worker 0 "direct" "s3://out" 0 (MergeState.new 0 "jobs:b" 1 "s3://out")).

Lemma merge_completes_witness :
  let w := sim_world {[ BatchKeys.status "jobs:b" := text sim_settled ]} [] in
  exists sem' w', try_claim_merge (fun _ => inr tt) (fun _ => mret 7) sim_coordinator "u" "jobs:b" 1 "s3://out"
      MergeSemaphore.with_defaults w = (Ok (Ok (MergeResult.Success "s3://out" 7), sem'), w') /\
    exists ms, merge_at "jobs:b" (kv w') = Some ms /\ MergeState.is_complete ms = true /\ MergeState.total_frames ms = 7.
Proof.
  intros w.
  destruct (merge_completes (fun _ => inr tt) (fun _ => mret 7) sim_coordinator sim_client_ok "u" "jobs:b" "s3://out" 7
    sim_settled MergeSemaphore.with_defaults w) as (sem' & w' & E & _ & _ & Hm & _).
  - apply sim_world_ready.
  - vm_compute. reflexivity.
  - reflexivity.
  - reflexivity.
  - vm_compute. reflexivity.
  - reflexivity.
  - intros ms w1 Hw1 _ _. exists w1. split; [exact eq_refl|]. split; [exact Hw1|exact eq_refl].
  - vm_compute. split; congruence.
  - exists sem', w'. split; [exact E|exact Hm].
Defined.

(** A merge that failed once and whose batch is running again. *)
Lemma merge_retry_erases_status_witness :
  let w := sim_world {[ BatchKeys.status "jobs:b" := text sim_settled;
                        merge_state_key "jobs:b" := text sim_failed_merge ]} [] in
  exists sem' w', try_claim_merge (fun _ => inr tt) (fun _ => mret 7) sim_coordinator "u" "jobs:b" 1 "s3://out"
      MergeSemaphore.with_defaults w = (Ok (Ok MergeResult.NotReady, sem'), w') /\
    status_at "jobs:b" (kv w') = None.
Proof.
  intros w.
  destruct (merge_retry_erases_status (fun _ => inr tt) (fun _ => mret 7) sim_coordinator sim_client_ok "u" "jobs:b"
    "s3://out" 1 sim_settled sim_failed_merge MergeSemaphore.with_defaults w) as (sem' & w' & E & Hn & _).
  - apply sim_world_ready.
  - vm_compute. reflexivity.
  - reflexivity.
  - reflexivity.
  - vm_compute. reflexivity.
  - vm_compute. discriminate.
  - vm_compute. discriminate.
  - vm_compute. split; congruence.
  - exists sem', w'. split; [exact E|exact Hn].
Defined.

Lemma merge_claim_not_exclusive_witness :
  let w := sim_world {[ BatchKeys.status "jobs:b" := text sim_settled ]} [] in
  exists w2 w4, (verify_cas_won sim_coordinator (BatchKeys.status "jobs:b") sim_settled w2).1 = Ok true /\
    (verify_cas_won sim_coordinator (BatchKeys.status "jobs:b") sim_settled w4).1 = Ok true.
Proof.
  intros w.
  destruct (merge_claim_not_exclusive sim_coordinator sim_coordinator "jobs:b" sim_settled (CircuitBreaker.new 0) w
    sim_client_ok sim_client_ok (sim_world_ready _) eq_refl) as (w1 & w2 & w3 & w4 & _ & E2 & _ & E4).
  exists w1, w3. split; [exact (f_equal fst E2)|exact (f_equal fst E4)].
Defined.

End Witnesses.
