(* ===== verification/Finalizer.v ===== *)
(** * The finalizer (finalizer/mod.rs and finalizer/config.rs of
    crates/roboflow-distributed/src)

    A loop that looks for a running batch whose files are all accounted for, claims
    its merge and settles the batch.  The metadata assembler and the statistics
    collector are optional parameters. *)
From S2P Require Import Prelude Codec TikvError Circuit Lifecycle Keys Env Effects Schema Client WorkUnit Batch Controller Merge.

Module FinalizerConfig.
(** [struct FinalizerConfig] and its default; [dataset_config] is that of the
    assembler. *)
Record t : Type := mk { poll_interval : Z; merge_timeout : Z }.
Definition default : t := mk (secs 30) (secs 600).
End FinalizerConfig.

Module Finalizer.

(** [struct Finalizer].  [assemble] is [assemble_and_write] of the configured storage
    and dataset, by batch and output; [delete_batch_stats] that of the collector. *)
Record t (S : Type) : Type := mk {
  pod_id : string;
  tikv : TikvClient.t;
  batch_controller : BatchController.t;
  merge_coordinator : MergeCoordinator.t;
  config : FinalizerConfig.t;
  assemble : option (string -> string -> M S TikvError.t unit);
  delete_batch_stats : option (string -> M S TikvError.t unit)
}.
Arguments mk {S}.
Arguments pod_id {S}.
Arguments tikv {S}.
Arguments batch_controller {S}.
Arguments merge_coordinator {S}.
Arguments config {S}.
Arguments assemble {S}.
Arguments delete_batch_stats {S}.

Section Ops.
Context {S : Type} `{TransactionClient S}.
Context `{Codec BatchSpec.t, Codec BatchStatus.t, Codec MergeState.t}.
Context (create_storage : string -> string + unit) (execute : MergeState.t -> M S TikvError.t Z).
Abbreviation Tikv := (M S TikvError.t).

(** All files of a running batch are done. *)
Definition awaiting (batch : BatchSummary.t) : bool :=
  let total_done := u32_add (BatchSummary.files_completed batch) (BatchSummary.files_failed batch) in
  bool_decide (BatchSummary.phase batch = BatchPhase.Running)
  && (BatchSummary.files_total batch <=? total_done) && (0 <? BatchSummary.files_total batch).

(** The loop of [Finalizer::find_batch_awaiting_finalization]. *)
Fixpoint first_awaiting (f : t S) (batches : list BatchSummary.t)
  : Tikv (option (BatchSummary.t * BatchSpec.t)) :=
  match batches with
  | [] => mret None
  | batch :: rest =>
      if awaiting batch then
        spec ← try_ (BatchController.get_batch_spec (batch_controller f) (BatchSummary.id batch));
        match spec with
        | Ok (Some spec) => mret (Some (batch, spec))
        | Ok None | Err _ => first_awaiting f rest
        | Panic s => panic s
        end
      else first_awaiting f rest
  end.

(** [Finalizer::find_batch_awaiting_finalization]. *)
Definition find_batch_awaiting_finalization (f : t S) : Tikv (option (BatchSummary.t * BatchSpec.t)) :=
  batches ← try_ (BatchController.list_batches (batch_controller f));
  match batches with
  | Ok batches => first_awaiting f batches
  | Err _ => mret None
  | Panic s => panic s
  end.

(** The status both [mark] operations change. *)
Definition load_status (f : t S) (batch_id : string) : Tikv BatchStatus.t :=
  data ← TikvClient.get (tikv f) (BatchKeys.status batch_id);
  match data with
  | Some d => of_sum (fun e => TikvError.Deserialization ("batch status: " +:+ e)) (decode d)
  | None => throw (TikvError.Other "Batch status not found")
  end.

(** [Finalizer::mark_batch_complete]. *)
Definition mark_batch_complete (f : t S) (batch_id : string) : Tikv unit :=
  status ← load_status f batch_id;
  t ← now;
  new_data ← of_sum TikvError.Serialization (encode (BatchStatus.transition_to t BatchPhase.Complete status));
  TikvClient.put (tikv f) (BatchKeys.status batch_id) new_data;;
  update_phase_index (tikv f) batch_id (BatchStatus.phase status) BatchPhase.Complete.

(** [Finalizer::mark_batch_failed]. *)
Definition mark_batch_failed (f : t S) (batch_id error : string) : Tikv unit :=
  status ← load_status f batch_id;
  t ← now;
  new_data ← of_sum TikvError.Serialization
    (encode (BatchStatus.transition_to t BatchPhase.Failed status <| BatchStatus.error := Some error |>));
  TikvClient.put (tikv f) (BatchKeys.status batch_id) new_data;;
  update_phase_index (tikv f) batch_id (BatchStatus.phase status) BatchPhase.Failed.

(** What [Finalizer::finalize_batch] does with the outcome of the merge. *)
Definition settle (f : t S) (batch_id : string) (merge_result : MergeResult.t) : Tikv bool :=
  match merge_result with
  | MergeResult.Success _ _ =>
      match delete_batch_stats f with Some delete => ignore (delete batch_id) | None => mret tt end;;
      mark_batch_complete f batch_id;;
      mret true
  | MergeResult.NotFound | MergeResult.NotClaimed | MergeResult.NotReady => mret false
  | MergeResult.Failed error => throw (TikvError.Other ("Merge failed: " +:+ error))
  end.

(** [Finalizer::finalize_batch], with the semaphore after it. *)
Definition finalize_batch (f : t S) (uuid : string) (batch : BatchSummary.t) (spec : BatchSpec.t)
  (sem : MergeSemaphore.t) : Tikv (result TikvError.t bool * MergeSemaphore.t) :=
  let output_path := BatchJobSpec.output (BatchSpec.spec spec) in
  match assemble f with
  | Some assemble_and_write => ignore (assemble_and_write (BatchSummary.id batch) output_path)
  | None => mret tt
  end;;
  merged ← MergeCoordinator.try_claim_merge create_storage execute (merge_coordinator f) uuid
    (BatchSummary.id batch) 1 output_path sem;
  match merged with
  | (Ok merge_result, sem) => r ← try_ (settle f (BatchSummary.id batch) merge_result); mret (r, sem)
  | (Err e, sem) => mret (Err e, sem)
  | (Panic s, sem) => panic s
  end.

(** One round of [Finalizer::run], with the semaphore after it. *)
Definition run_iteration (f : t S) (uuid : string) (sem : MergeSemaphore.t) : Tikv MergeSemaphore.t :=
  found ← find_batch_awaiting_finalization f;
  sem ← match found with
    | Some (batch, spec) =>
        r ← finalize_batch f uuid batch spec sem;
        match r with
        | (Ok _, sem) => mret sem
        | (Err e, sem) =>
            ignore (mark_batch_failed f (BatchSummary.id batch) ("Finalization failed: " +:+ TikvError.to_string e));;
            mret sem
        | (Panic s, sem) => panic s
        end
    | None => mret sem
    end;
  sleep_for (FinalizerConfig.poll_interval (config f));;
  mret sem.

End Ops.
End Finalizer.

(** ** Backpressure *)
Section Backpressure.
Import Finalizer.
Context {S : Type} `{TransactionClientLaws S} `{!HealthyRuns S}.
Context `{LawfulCodec BatchSpec.t, LawfulCodec BatchStatus.t, LawfulCodec MergeState.t}.
Context (create_storage : string -> string + unit) (execute : MergeState.t -> M S TikvError.t Z).
Context (fin : Finalizer.t S) (Hfin : client_ok (tikv fin)).

Lemma ready_mark_batch_failed id msg st (Q : result TikvError.t unit -> World S -> Prop) w :
  ready w -> status_at id (kv w) = Some st -> BatchStatus.phase st <> BatchPhase.Failed ->
  (forall t b w', ready w' ->
     encode (BatchStatus.transition_to t BatchPhase.Failed st <| BatchStatus.error := Some msg |>) = inr b ->
     kv w' = base.delete (BatchIndexKeys.phase (BatchStatus.phase st) id)
               (<[BatchIndexKeys.phase BatchPhase.Failed id := ""%string]> (<[BatchKeys.status id := b]> (kv w))) ->
     Q (Ok tt) w') ->
  wp (mark_batch_failed fin id msg) Q w.
Proof.
  intros Hw Hst Hp HQ. apply status_at_bytes in Hst as (b0 & Eb0 & Hd0).
  unfold mark_batch_failed, load_status. do 2 wp_step. apply ready_get; [done..|]. intros w1 Hw1 E1.
  rewrite Eb0. wp_step. rewrite Hd0. wp_step. apply ready_now; [done|]. intros t w2 Hw2 E2.
  destruct (encode_total (BatchStatus.transition_to t BatchPhase.Failed st <| BatchStatus.error := Some msg |>))
    as [b Hb].
  do 2 wp_step. rewrite Hb. wp_step. apply ready_put; [done..|]. intros w3 Hw3 E3.
  apply ready_update_phase_index; [done..|]. intros w4 Hw4 E4. apply (HQ t b); [done..|].
  by rewrite E4, E3, E2, E1.
Qed.

(** Backpressure fails the batch.  When a round finds a running batch awaiting
    finalization and no merge permit is free, then with every call answered the
    batch is not left for a later round but marked [Failed], with the error
    [Finalization failed: No merge permits available], and moved to the [Failed]
    index. *)
Theorem backpressure_fails_batch uuid sem batch spec st (w w1 : World S) :
  let id := BatchSummary.id batch in
  find_batch_awaiting_finalization fin w = (Ok (Some (batch, spec)), w1) -> ready w1 ->
  status_at id (kv w1) = Some st -> BatchStatus.phase st = BatchPhase.Running ->
  assemble fin = None -> MergeSemaphoreInner.available (MergeSemaphore.inner sem) = 0 ->
  exists sem' w', run_iteration create_storage execute fin uuid sem w = (Ok sem', w') /\
    (exists st', status_at id (kv w') = Some st' /\ BatchStatus.phase st' = BatchPhase.Failed /\
       BatchStatus.error st' = Some "Finalization failed: No merge permits available"%string) /\
    is_Some (kv w' !! BatchIndexKeys.phase BatchPhase.Failed id) /\
    kv w' !! BatchIndexKeys.phase BatchPhase.Running id = None.
Proof.
  intros id Efind Hw Hst Hp Hnone Hav.
  destruct (run_iteration create_storage execute fin uuid sem w) as [r w'] eqn:E.
  enough (exists sem' t b, r = Ok sem' /\
    encode (BatchStatus.transition_to t BatchPhase.Failed st
      <| BatchStatus.error := Some "Finalization failed: No merge permits available"%string |>) = inr b /\
    kv w' = base.delete (BatchIndexKeys.phase BatchPhase.Running id)
      (<[BatchIndexKeys.phase BatchPhase.Failed id := ""%string]> (<[BatchKeys.status id := b]> (kv w1))))
    as (sem' & t & b & -> & Hb & Ekv).
  - exists sem', w'. split; [done|]. rewrite Ekv.
    match type of Hb with encode ?x = _ =>
      assert (BatchStatus.phase x = BatchPhase.Failed) as Hph by exact (transition_phase t BatchPhase.Failed st);
      pose proof (moved_store id BatchPhase.Running x b (kv w1) Hb) as Hmoved
    end.
    rewrite Hph in Hmoved. destruct Hmoved as (Hs & Hi & Hr); [done|].
    split; [|by split]. eexists. split; [exact Hs|]. by split.
  - unfold run_iteration in E. unfold mbind at 1, M_bind at 1 in E. rewrite Efind in E.
    wp_run E. unfold finalize_batch. rewrite Hnone. do 5 wp_step.
    apply ready_no_permit; [done..|]. intros sem1 w2 Hw2 E2. do 3 wp_step.
    apply ready_mark_batch_failed with st; [done|by rewrite E2|by rewrite Hp|].
    intros t b w3 Hw3 Hb E3. do 2 wp_step. apply wp_sleep. intros w4 Hc4. wp_step. exists sem1, t, b.
    split; [done|]. split; [exact Hb|]. destruct Hc4 as [-> _]. by rewrite E3, E2, Hp.
Qed.

End Backpressure.

(** ** A witness on a concrete cluster *)
Section Witnesses.
Import Finalizer Sim.

Local Instance fin_spec_codec : Codec BatchSpec.t := Wire.codec_of_wire _ (H := BatchSpec.wire).
Local Instance fin_spec_lawful : LawfulCodec BatchSpec.t := Wire.lawful_of_wire _ (H := BatchSpec.wire).
Local Instance fin_status_codec : Codec BatchStatus.t := Wire.codec_of_wire _ (H := BatchStatus.wire).
Local Instance fin_status_lawful : LawfulCodec BatchStatus.t := Wire.lawful_of_wire _ (H := BatchStatus.wire).
Local Instance fin_state_codec : Codec MergeState.t := Wire.codec_of_wire _ (H := MergeState.wire).
Local Instance fin_state_lawful : LawfulCodec MergeState.t := Wire.lawful_of_wire _ (H := MergeState.wire).

Definition sim_finalizer : Finalizer.t Sim.t :=
  Finalizer.mk "pod" sim_client sim_controller sim_coordinator FinalizerConfig.default None None.
Definition sim_done : BatchStatus.t := sim_settled <| BatchStatus.files_total := 2 |> <| BatchStatus.files_completed := 2 |>.
Definition fin_world : World Sim.t :=
  sim_world {[ BatchKeys.spec "jobs:b" := text sim_spec; BatchKeys.status "jobs:b" := text sim_done ]} [].
Definition sim_summary : BatchSummary.t :=
  {| BatchSummary.id := "jobs:b"; BatchSummary.name := "b"; BatchSummary.namespace := "jobs";
     BatchSummary.phase := BatchPhase.Running; BatchSummary.files_total := 2; BatchSummary.files_completed := 2;
     BatchSummary.files_failed := 0; BatchSummary.created_at := 0; BatchSummary.started_at := None;
     BatchSummary.completed_at := None |}.

Lemma backpressure_fails_batch_witness :
  exists sem' w', run_iteration (fun _ => inr tt) (fun _ => mret 7) sim_finalizer "u" (MergeSemaphore.new 0) fin_world
      = (Ok sem', w') /\
    exists st', status_at "jobs:b" (kv w') = Some st' /\ BatchStatus.phase st' = BatchPhase.Failed.
Proof.
  destruct (backpressure_fails_batch (fun _ => inr tt) (fun _ => mret 7) sim_finalizer sim_client_ok "u"
    (MergeSemaphore.new 0) sim_summary sim_spec sim_done fin_world (find_batch_awaiting_finalization sim_finalizer fin_world).2)
    as (sem' & w' & E & (st' & Hs & Hp & _) & _).
  - apply pair_of_fst. vm_compute. reflexivity.
  - vm_compute. split; reflexivity.
  - vm_compute. reflexivity.
  - reflexivity.
  - reflexivity.
  - reflexivity.
  - exists sem', w'. split; [exact E|]. exists st'. split; [exact Hs|exact Hp].
Defined.

End Witnesses.
