(* ===== verification/RingBuffer.v ===== *)
(** * The frame ring buffer

    [FrameRingBuffer] of crates/roboflow-dataset/src/formats/common/ring_buffer.rs: a
    bounded buffer between the thread that captures frames and the thread that
    encodes them.  The indices and the closed flag are shared ([Arc<AtomicUsize>]),
    the slots belong to one value of the type; a handle is therefore modelled by its
    slots, and the atomics are a state of their own that a clone shares.

    The first part is the code as functions.  The second part interleaves a producer
    and a consumer at the granularity of the single loads, stores and slot accesses
    of [try_push] and [try_pop], and proves that they implement a bounded first-in
    first-out queue. *)
From S2P Require Import Prelude.

(** [usize::next_power_of_two], which wraps to 0 in a release build. *)
Definition next_power_of_two (n : Z) : Z := as_u64 (2 ^ Z.log2_up n).
(** [usize::wrapping_sub]. *)
Definition wrapping_sub (a b : Z) : Z := as_u64 (a - b).

Module RingBufferError.
Inductive t := Full | Empty | Closed | Timeout.

Definition fmt (e : t) : string :=
  match e with
  | Full => "Ring buffer is full"
  | Empty => "Ring buffer is empty"
  | Closed => "Ring buffer is closed"
  | Timeout => "Ring buffer operation timed out"
  end.
End RingBufferError.

Module RingBufferSnapshot.
Record t := mk { capacity : Z; len : Z; is_empty : bool; is_full : bool; is_closed : bool }.
End RingBufferSnapshot.

(** The three atomics behind [Arc]s. *)
Module Atomics.
Record t := mk { write_idx : Z; read_idx : Z; closed : Z }.
#[global] Instance t_eta : Settable t := fun r => mk (write_idx r) (read_idx r) (closed r).
End Atomics.

Module FrameRingBuffer.
Section Frames.
(** [VideoFrame] of crates/roboflow-media. *)
Context {VideoFrame : Type}.
Import Atomics.

(** [buffer] holds the contents of the slots. *)
Record t := mk { buffer : list (option VideoFrame); capacity : Z; mask : Z }.

(** A handle and the atomics it points to. *)
Definition Ring : Type := t * Atomics.t.

Definition fresh_slots (capacity : Z) : list (option VideoFrame) :=
  replicate (Z.to_nat capacity) None.

Definition new (capacity : Z) : result RingBufferError.t Ring :=
  if negb (0 <? capacity) then Panic "Ring buffer capacity must be > 0"
  else
    let capacity := next_power_of_two capacity in
    let mask := wrapping_sub capacity 1 in
    Ok (mk (fresh_slots capacity) capacity mask, Atomics.mk 0 0 0).

Definition len (at_ : Atomics.t) : Z := wrapping_sub (write_idx at_) (read_idx at_).
Definition is_empty (at_ : Atomics.t) : bool := len at_ =? 0.
Definition is_full (rb : Ring) : bool := len rb.2 =? capacity rb.1.
Definition close (rb : Ring) : Ring := (rb.1, rb.2 <| closed := 1 |>).
Definition is_closed (at_ : Atomics.t) : bool := negb (closed at_ =? 0).

(** The slot of an index; [self.buffer[i]] panics out of range. *)
Definition slot_of (b : t) (idx : Z) : nat := Z.to_nat (Z.land idx (mask b)).
Definition set_slot (b : t) (idx : Z) (v : option VideoFrame) : t :=
  mk (<[slot_of b idx := v]> (buffer b)) (capacity b) (mask b).

Definition try_push (frame : VideoFrame) (rb : Ring) : result RingBufferError.t unit * Ring :=
  let '(b, at_) := rb in
  if is_closed at_ then (Err RingBufferError.Closed, rb)
  else
    let write := write_idx at_ in
    let read := read_idx at_ in
    if capacity b <=? wrapping_sub write read then (Err RingBufferError.Full, rb)
    else
      match buffer b !! slot_of b write with
      | None => (Panic "index out of bounds", rb)
      | Some _ => (Ok tt, (set_slot b write (Some frame), at_ <| write_idx := u64_add write 1 |>))
      end.

Definition try_pop (rb : Ring) : result RingBufferError.t (option VideoFrame) * Ring :=
  let '(b, at_) := rb in
  let read := read_idx at_ in
  let write := write_idx at_ in
  if read =? write then (Ok None, rb)
  else
    match buffer b !! slot_of b read with
    | None => (Panic "index out of bounds", rb)
    | Some frame => (Ok frame, (set_slot b read None, at_ <| read_idx := u64_add read 1 |>))
    end.

Definition snapshot (rb : Ring) : RingBufferSnapshot.t :=
  RingBufferSnapshot.mk (capacity rb.1) (len rb.2) (is_empty rb.2) (is_full rb) (is_closed rb.2).

(** A clone has new slots and the same atomics. *)
Definition clone (b : t) : t := mk (fresh_slots (capacity b)) (capacity b) (mask b).

(** *** The blocking operations

    A round of a loop is what the other threads did to the ring before it, and the
    time the round finds elapsed; [None] is a loop that is still spinning when the
    rounds given are over. *)
Definition Round : Type := (Ring -> Ring) * Z.

Fixpoint push_with_timeout (frame : VideoFrame) (timeout : Z) (rounds : list Round) (rb : Ring)
  : option (result RingBufferError.t unit) * Ring :=
  match rounds with
  | [] => (None, rb)
  | (others, elapsed) :: rounds' =>
      let rb := others rb in
      if is_closed rb.2 then (Some (Err RingBufferError.Closed), rb)
      else
        match try_push frame rb with
        | (Ok tt, rb') => (Some (Ok tt), rb')
        | (Panic m, rb') => (Some (Panic m), rb')
        | (Err _, rb') =>
            if timeout <=? elapsed then (Some (Err RingBufferError.Timeout), rb')
            else push_with_timeout frame timeout rounds' rb'
        end
  end.

Fixpoint pop_with_timeout (timeout : Z) (rounds : list Round) (rb : Ring)
  : option (result RingBufferError.t VideoFrame) * Ring :=
  match rounds with
  | [] => (None, rb)
  | (others, elapsed) :: rounds' =>
      let rb := others rb in
      if is_closed rb.2 && is_empty rb.2 then (Some (Err RingBufferError.Closed), rb)
      else
        match try_pop rb with
        | (Ok (Some frame), rb') => (Some (Ok frame), rb')
        | (Panic m, rb') => (Some (Panic m), rb')
        | (Ok None, rb') | (Err _, rb') =>
            if timeout <=? elapsed then (Some (Err RingBufferError.Timeout), rb')
            else pop_with_timeout timeout rounds' rb'
        end
  end.
End Frames.
Arguments t : clear implicits.
Arguments Ring : clear implicits.
Arguments Round : clear implicits.
End FrameRingBuffer.

(** ** A producer and a consumer

    The program points of [try_push] and [try_pop]: a thread stands before the load,
    store or slot access it names, with the values it has loaded. *)
Module Spsc.
Section Frames.
Context {VideoFrame : Type}.
Import Atomics FrameRingBuffer.

Inductive producer :=
| PIdle
| PLoadWrite (f : VideoFrame)
| PLoadRead (f : VideoFrame) (write : Z)
| PStore (f : VideoFrame) (write : Z)
| PPublish (f : VideoFrame) (write : Z).

Inductive consumer :=
| CIdle
| CLoadWrite (read : Z)
| CTake (read : Z)
| CPublish (read : Z) (frame : option VideoFrame).

Record State := mkState { ring : Ring VideoFrame; prod : producer; cons : consumer }.
#[global] Instance State_eta : Settable State := fun r => mkState (ring r) (prod r) (cons r).

(** What an observer of the two threads sees: a push passes or fails the check of
    [closed], is published or finds the buffer full; a pop delivers what it took or
    finds the buffer empty; somebody closes the buffer. *)
Inductive event :=
| Entered (f : VideoFrame)
| Refused (f : VideoFrame)
| Pushed (f : VideoFrame)
| WasFull (f : VideoFrame)
| Popped (frame : option VideoFrame)
| WasEmpty
| Shut.

(** One access of [try_push]; an idle producer starts to push [frame].  [None] is an
    index out of range. *)
Definition produce (frame : VideoFrame) (s : State) : option (option event * State) :=
  let '(b, at_) := ring s in
  match prod s with
  | PIdle =>
      if is_closed at_ then Some (Some (Refused frame), s)
      else Some (Some (Entered frame), s <| prod := PLoadWrite frame |>)
  | PLoadWrite f => Some (None, s <| prod := PLoadRead f (write_idx at_) |>)
  | PLoadRead f write =>
      if capacity b <=? wrapping_sub write (read_idx at_)
      then Some (Some (WasFull f), s <| prod := PIdle |>)
      else Some (None, s <| prod := PStore f write |>)
  | PStore f write =>
      match buffer b !! slot_of b write with
      | None => None
      | Some _ => Some (None, s <| ring := (set_slot b write (Some f), at_) |> <| prod := PPublish f write |>)
      end
  | PPublish f write =>
      Some (Some (Pushed f), s <| ring := (b, at_ <| write_idx := u64_add write 1 |>) |> <| prod := PIdle |>)
  end.

(** One access of [try_pop]. *)
Definition consume (s : State) : option (option event * State) :=
  let '(b, at_) := ring s in
  match cons s with
  | CIdle => Some (None, s <| cons := CLoadWrite (read_idx at_) |>)
  | CLoadWrite read =>
      if read =? write_idx at_ then Some (Some WasEmpty, s <| cons := CIdle |>)
      else Some (None, s <| cons := CTake read |>)
  | CTake read =>
      match buffer b !! slot_of b read with
      | None => None
      | Some frame => Some (None, s <| ring := (set_slot b read None, at_) |> <| cons := CPublish read frame |>)
      end
  | CPublish read frame =>
      Some (Some (Popped frame), s <| ring := (b, at_ <| read_idx := u64_add read 1 |>) |> <| cons := CIdle |>)
  end.

Inductive step : State -> option event -> State -> Prop :=
| step_produce f s l s' : produce f s = Some (l, s') -> step s l s'
| step_consume s l s' : consume s = Some (l, s') -> step s l s'
| step_close s : step s (Some Shut) (s <| ring := close (ring s) |>).

(** A run with the events seen, in order. *)
Inductive run (s0 : State) : list event -> State -> Prop :=
| run_nil : run s0 [] s0
| run_tau tr s s' : run s0 tr s -> step s None s' -> run s0 tr s'
| run_event tr s e s' : run s0 tr s -> step s (Some e) s' -> run s0 (tr ++ [e]) s'.

(** Both threads idle on a ring. *)
Definition idle (rb : Ring VideoFrame) : State := mkState rb PIdle CIdle.

(** *** The abstract queue

    A push that was entered before the queue was shut may still go through. *)
Record Queue := mkQueue { items : list VideoFrame; shut : bool; entered : option VideoFrame }.

Inductive queue_step (cap : Z) : Queue -> event -> Queue -> Prop :=
| q_enter f l : queue_step cap (mkQueue l false None) (Entered f) (mkQueue l false (Some f))
| q_refuse f l : queue_step cap (mkQueue l true None) (Refused f) (mkQueue l true None)
| q_push f l c : Z.of_nat (length l) < cap ->
    queue_step cap (mkQueue l c (Some f)) (Pushed f) (mkQueue (l ++ [f]) c None)
| q_full f l c : Z.of_nat (length l) = cap ->
    queue_step cap (mkQueue l c (Some f)) (WasFull f) (mkQueue l c None)
| q_pop f l c a : queue_step cap (mkQueue (f :: l) c a) (Popped (Some f)) (mkQueue l c a)
| q_empty c a : queue_step cap (mkQueue [] c a) WasEmpty (mkQueue [] c a)
| q_shut l c a : queue_step cap (mkQueue l c a) Shut (mkQueue l true a).

Inductive queue_run (cap : Z) (q0 : Queue) : list event -> Queue -> Prop :=
| queue_nil : queue_run cap q0 [] q0
| queue_event tr q e q' : queue_run cap q0 tr q -> queue_step cap q e q' -> queue_run cap q0 (tr ++ [e]) q'.

Definition empty_queue : Queue := mkQueue [] false None.

(** *** Slots *)

(** A ring of [2^k] slots. *)
Record ring_ok (k : Z) (b : t VideoFrame) : Prop := {
  ok_k : 0 <= k <= 63;
  ok_capacity : capacity b = 2 ^ k;
  ok_mask : mask b = 2 ^ k - 1;
  ok_length : length (buffer b) = Z.to_nat (2 ^ k) }.

Lemma pow2_divides k : 0 <= k <= 63 -> (2 ^ k | u64_mod).
Proof.
  intros [H1 H2]. exists (2 ^ (64 - k)). rewrite <-Z.pow_add_r by lia. unfold u64_mod. f_equal. lia.
Qed.

Lemma slot_of_mod k b x : ring_ok k b -> slot_of b x = Z.to_nat (x mod 2 ^ k).
Proof.
  intros [Hk _ Hm _]. unfold slot_of. rewrite Hm.
  replace (2 ^ k - 1) with (Z.ones k) by (rewrite Z.ones_equiv; lia).
  by rewrite Z.land_ones by lia.
Qed.

Lemma mod_as_u64 k x : 0 <= k <= 63 -> as_u64 x mod 2 ^ k = x mod 2 ^ k.
Proof.
  intros Hk. destruct (pow2_divides k Hk) as [m Hm]. unfold as_u64. rewrite Hm.
  rewrite Z.mul_comm. pose proof (Z.pow_pos_nonneg 2 k). 
  assert (0 < m) by (assert (0 < m * 2 ^ k) by (rewrite <-Hm; reflexivity); nia).
  rewrite Z.rem_mul_r by lia. 
  rewrite Z.mul_comm, Z.mod_add by lia. apply Z.mod_mod. lia.
Qed.

Lemma slot_in_range k b x : ring_ok k b -> is_Some (buffer b !! slot_of b x).
Proof.
  intros Hok. apply lookup_lt_is_Some. rewrite (slot_of_mod k) by done. destruct Hok as [Hk _ _ ->].
  pose proof (Z.mod_pos_bound x (2 ^ k) ltac:(apply Z.pow_pos_nonneg; lia)). lia.
Qed.

(** Indices less than a lap apart have different slots. *)
Lemma slot_ne k b x y : ring_ok k b -> 0 < y - x < 2 ^ k -> slot_of b x <> slot_of b y.
Proof.
  intros Hok Hd. rewrite !(slot_of_mod k) by done. destruct Hok as [Hk _ _ _].
  assert (0 < 2 ^ k) as Hp by lia. intros E.
  pose proof (Z.mod_pos_bound x _ Hp). pose proof (Z.mod_pos_bound y _ Hp).
  assert ((y - x) mod 2 ^ k = 0) as E'.
  { rewrite Zminus_mod. replace (x mod 2 ^ k) with (y mod 2 ^ k) by lia.
    by rewrite Z.sub_diag, Z.mod_0_l by lia. }
  rewrite Z.mod_small in E' by lia. lia.
Qed.

Lemma slot_as_u64 k b x : ring_ok k b -> slot_of b (as_u64 x) = slot_of b x.
Proof. intros Hok. rewrite !(slot_of_mod k) by done. rewrite mod_as_u64; [done|apply Hok]. Qed.

Lemma set_slot_ok k b x v : ring_ok k b -> ring_ok k (set_slot b x v).
Proof. intros [? ? ? Hl]. split; try done. cbn. by rewrite length_insert. Qed.

Lemma slot_of_set_slot (b : t VideoFrame) x v y : slot_of (set_slot b x v) y = slot_of b y.
Proof. done. Qed.

(** The distance of two indices less than a lap apart survives wrapping. *)
Lemma wrapping_distance r n : 0 <= n < u64_mod -> wrapping_sub (as_u64 (r + n)) r = n.
Proof.
  intros Hn. unfold wrapping_sub, as_u64. rewrite Zminus_mod_idemp_l.
  replace (r + n - r) with n by lia. by apply Z.mod_small.
Qed.

(** *** The simulation

    [q] is what the ring in state [s] holds: the items lie in the slots from the read
    index on, and each thread's loaded values still hold. *)
Definition contents (b : t VideoFrame) (r : Z) (from : nat) (l : list VideoFrame) : Prop :=
  forall i f, (from <= i)%nat -> l !! i = Some f -> buffer b !! slot_of b (r + Z.of_nat i) = Some (Some f).

Definition producer_at (b : t VideoFrame) (w cap : Z) (q : Queue) (p : producer) : Prop :=
  match p with
  | PIdle => entered q = None
  | PLoadWrite f => entered q = Some f
  | PLoadRead f write => entered q = Some f /\ write = w
  | PStore f write => entered q = Some f /\ write = w /\ Z.of_nat (length (items q)) < cap
  | PPublish f write => entered q = Some f /\ write = w /\ Z.of_nat (length (items q)) < cap /\
      buffer b !! slot_of b write = Some (Some f)
  end.

Definition consumer_at (r : Z) (q : Queue) (c : consumer) : Prop :=
  match c with
  | CIdle => True
  | CLoadWrite read => read = r
  | CTake read => read = r /\ items q <> []
  | CPublish read frame => read = r /\ exists f, frame = Some f /\ head (items q) = Some f
  end.

(** The first item that is still in its slot. *)
Definition taken (c : consumer) : nat := match c with CPublish _ _ => 1 | _ => 0 end.

Record simulates (k : Z) (s : State) (q : Queue) : Prop := {
  sim_ok : ring_ok k (ring s).1;
  sim_write : write_idx (ring s).2 = as_u64 (read_idx (ring s).2 + Z.of_nat (length (items q)));
  sim_read : is_u64 (read_idx (ring s).2);
  sim_len : Z.of_nat (length (items q)) <= 2 ^ k;
  sim_shut : shut q = is_closed (ring s).2;
  sim_contents : contents (ring s).1 (read_idx (ring s).2) (taken (cons s)) (items q);
  sim_prod : producer_at (ring s).1 (write_idx (ring s).2) (2 ^ k) q (prod s);
  sim_cons : consumer_at (read_idx (ring s).2) q (cons s) }.

Lemma pow2_63 k : 0 <= k <= 63 -> 0 < 2 ^ k <= 2 ^ 63.
Proof. intros. split; [apply Z.pow_pos_nonneg; lia|apply Z.pow_le_mono_r; lia]. Qed.

(** The length the code computes is the length of the queue. *)
Lemma simulates_len k s q : simulates k s q -> len (ring s).2 = Z.of_nat (length (items q)).
Proof.
  intros Hs. unfold len. rewrite (sim_write _ _ _ Hs). apply wrapping_distance.
  pose proof (sim_len _ _ _ Hs). pose proof (pow2_63 k (ok_k _ _ (sim_ok _ _ _ Hs))).
  unfold u64_mod. change (2 ^ 64) with (2 * 2 ^ 63). lia.
Qed.

(** The indices agree exactly when the queue is empty. *)
Lemma simulates_empty k s q : simulates k s q ->
  (read_idx (ring s).2 =? write_idx (ring s).2) = bool_decide (items q = []).
Proof.
  intros Hs. pose proof (simulates_len k s q Hs) as Hl. unfold len in Hl.
  destruct (Z.eqb_spec (read_idx (ring s).2) (write_idx (ring s).2)) as [E|E].
  - rewrite E in Hl. unfold wrapping_sub in Hl. rewrite Z.sub_diag in Hl. change (as_u64 0) with 0 in Hl.
    destruct (items q); [done|]. cbn in Hl. lia.
  - destruct (items q) eqn:Ei; [|done]. exfalso. apply E.
    rewrite (sim_write _ _ _ Hs), Ei. cbn. rewrite Z.add_0_r. symmetry. apply as_u64_id, (sim_read _ _ _ Hs).
Qed.

(** Writing the slot behind the last item touches no item. *)
Lemma contents_store k b r n from l v : ring_ok k b -> 
  (length l <= n)%nat -> Z.of_nat n < 2 ^ k -> contents b r from l ->
  contents (set_slot b (r + Z.of_nat n) v) r from l.
Proof.
  intros Hok Hn Hk Hc i f Hi Hl. rewrite slot_of_set_slot. cbn [buffer set_slot].
  rewrite list_lookup_insert_ne; [by apply Hc|].
  apply not_eq_sym, (slot_ne k); [done|]. apply lookup_lt_Some in Hl. lia.
Qed.

(** Taking the first item touches no other. *)
Lemma contents_take k b r l v : ring_ok k b -> Z.of_nat (length l) <= 2 ^ k ->
  contents b r 0 l -> contents (set_slot b r v) r 1 l.
Proof.
  intros Hok Hk Hc i f Hi Hl. rewrite slot_of_set_slot. cbn [buffer set_slot].
  rewrite list_lookup_insert_ne; [apply Hc; [lia|done]|].
  apply (slot_ne k); [done|]. apply lookup_lt_Some in Hl. lia.
Qed.

Lemma contents_cons k b r f l : ring_ok k b -> contents b r 1 (f :: l) -> contents b (as_u64 (r + 1)) 0 l.
Proof.
  intros Hok Hc i g _ Hl. rewrite <-(Hc (S i) g) by (done || lia). f_equal.
  rewrite <-(slot_as_u64 k b (as_u64 _ + _)), <-(slot_as_u64 k b (r + _)) by done.
  f_equal. unfold as_u64. rewrite Zplus_mod_idemp_l. f_equal. lia.
Qed.

Lemma contents_app b r from f l : contents b r from l ->
  buffer b !! slot_of b (r + Z.of_nat (length l)) = Some (Some f) -> contents b r from (l ++ [f]).
Proof.
  intros Hc Hb i g Hi Hl. apply lookup_app_Some in Hl as [Hl|[Hle Hl]]; [by apply Hc|].
  apply list_lookup_singleton_Some in Hl as [Hz <-]. by replace i with (length l) by lia.
Qed.

Ltac sim_split := unfold set_field; cbn; split; cbn; try done; try congruence.

(** Each access of the producer is a step of the queue, or none. *)
Lemma produce_simulates k f s q : simulates k s q ->
  exists l s', produce f s = Some (l, s') /\ 
    exists q', simulates k s' q' /\ match l with None => q' = q | Some e => queue_step (2 ^ k) q e q' end.
Proof.
  intros Hs. destruct s as [[b at_] p c], q as [l sh ad].
  pose proof (simulates_len _ _ _ Hs) as Hlen.
  destruct Hs as [Hok Hw Hr Hle Hsh Hct Hp Hc]. cbn in *. unfold produce. cbn.
  destruct p as [|f'|f' w|f' w|f' w]; cbn in Hp.
  - subst ad. destruct (is_closed at_) eqn:Ec; eexists _, _; (split; [done|]); eexists.
    + split; [|subst sh; apply q_refuse]. by sim_split.
    + split; [|subst sh; apply q_enter]. by sim_split.
  - eexists _, _; (split; [done|]). eexists; split; [|done]. by sim_split.
  - destruct Hp as [-> ->]. unfold len in Hlen. rewrite Hlen, (ok_capacity _ _ Hok).
    destruct (Z.leb_spec (2 ^ k) (Z.of_nat (length l))); eexists _, _; (split; [done|]); eexists.
    + split; [|apply q_full; lia]. by sim_split.
    + split; [|done]. by sim_split.
  - destruct Hp as (-> & -> & Hlt). destruct (slot_in_range k b (write_idx at_) Hok) as [v Ev]. rewrite Ev.
    eexists _, _; (split; [done|]). eexists; split; [|done].
    pose proof (set_slot_ok k b (write_idx at_) (Some f') Hok).
    sim_split.
    + unfold set_slot. rewrite Hw, (slot_as_u64 k b) by done. by apply (contents_store k).
    + repeat split; try done. unfold slot_of; cbn. apply list_lookup_insert_eq. by eapply lookup_lt_Some.
  - destruct Hp as (-> & -> & Hlt & Hb). eexists _, _; (split; [done|]). eexists; split; [|by apply q_push].
    sim_split.
    + rewrite length_app. cbn. rewrite Hw. unfold u64_add, as_u64. rewrite Zplus_mod_idemp_l. f_equal. lia.
    + rewrite length_app. cbn. lia.
    + apply contents_app; [done|]. rewrite <-(slot_as_u64 k) by done. by rewrite <-Hw.
    + destruct c as [|?|?|??]; cbn in *; [done..| |].
      * destruct Hc as [-> Hne]. split; [done|]. by destruct l.
      * destruct Hc as (-> & g & -> & Hh). split; [done|]. exists g. by destruct l.
Qed.

(** Each access of the consumer is a step of the queue, or none. *)
Lemma consume_simulates k s q : simulates k s q ->
  exists l s', consume s = Some (l, s') /\
    exists q', simulates k s' q' /\ match l with None => q' = q | Some e => queue_step (2 ^ k) q e q' end.
Proof.
  intros Hs. pose proof (simulates_empty _ _ _ Hs) as Hem. destruct s as [[b at_] p c], q as [l sh ad].
  destruct Hs as [Hok Hw Hr Hle Hsh Hct Hp Hc]. cbn in *. unfold consume. cbn.
  destruct c as [|r|r|r fr]; cbn in Hc, Hct.
  - eexists _, _; (split; [done|]). eexists; split; [|done]. by sim_split.
  - subst r. rewrite Hem. destruct (bool_decide_reflect (l = [])) as [->|Hne];
      eexists _, _; (split; [done|]); eexists.
    + split; [|apply q_empty]. by sim_split.
    + split; [|done]. by sim_split.
  - destruct Hc as [-> Hne]. destruct l as [|f l]; [done|].
    pose proof (Hct 0%nat f ltac:(lia) eq_refl) as Ef. rewrite Z.add_0_r in Ef. rewrite Ef.
    eexists _, _; (split; [done|]). eexists; split; [|done].
    pose proof (set_slot_ok k b (read_idx at_) None Hok).
    sim_split.
    + by apply (contents_take k).
    + destruct p as [|?|??|??|? w]; cbn in *; try done. destruct Hp as (-> & -> & Hlt & Hb).
      repeat split; try done. unfold slot_of at 1; cbn. fold (slot_of b (write_idx at_)).
      rewrite list_lookup_insert_ne; [done|]. rewrite Hw, (slot_as_u64 k) by done. apply (slot_ne k); [done|lia].
    + split; [done|]. by exists f.
  - destruct Hc as (-> & f & -> & Hh). destruct l as [|g l]; [done|]. injection Hh as ->.
    eexists _, _; (split; [done|]). eexists; split; [|apply q_pop].
    sim_split.
    + rewrite Hw. cbn. unfold u64_add, as_u64. rewrite Zplus_mod_idemp_l. f_equal. lia.
    + apply as_u64_range.
    + cbn in Hle. lia.
    + by apply (contents_cons k) with f.
    + destruct p as [|?|??|??|? w]; cbn in *; try done.
      * destruct Hp as (-> & -> & Hlt). repeat split; lia || done.
      * destruct Hp as (-> & -> & Hlt & Hb). repeat split; lia || done.
Qed.

Lemma close_simulates k s q : simulates k s q ->
  simulates k (s <| ring := close (ring s) |>) (mkQueue (items q) true (entered q)).
Proof. intros []. destruct s as [[b at_] p c]. sim_split. Qed.

Lemma step_simulates k s l s' q : simulates k s q -> step s l s' ->
  exists q', simulates k s' q' /\ match l with None => q' = q | Some e => queue_step (2 ^ k) q e q' end.
Proof.
  intros Hs Hst. destruct Hst as [f s l s' E|s l s' E|s].
  - destruct (produce_simulates k f s q Hs) as (l' & s'' & E' & Hq). by simplify_eq.
  - destruct (consume_simulates k s q Hs) as (l' & s'' & E' & Hq). by simplify_eq.
  - eexists. split; [by apply close_simulates|]. destruct q. constructor.
Qed.

Lemma run_simulates k s0 q0 tr s : simulates k s0 q0 -> run s0 tr s ->
  exists q, queue_run (2 ^ k) q0 tr q /\ simulates k s q.
Proof.
  intros H0 Hr. induction Hr as [|tr s s' _ IH Hst|tr s e s' _ IH Hst].
  - exists q0. split; [constructor|done].
  - destruct IH as (q & Hq & Hs). destruct (step_simulates _ _ _ _ _ Hs Hst) as (q' & Hs' & ->). by exists q.
  - destruct IH as (q & Hq & Hs). destruct (step_simulates _ _ _ _ _ Hs Hst) as (q' & Hs' & Hq').
    exists q'. split; [by econstructor|done].
Qed.

Lemma next_power_of_two_pow n : 0 < n <= 2 ^ 63 ->
  next_power_of_two n = 2 ^ Z.log2_up n /\ 0 <= Z.log2_up n <= 63 /\ n <= next_power_of_two n.
Proof.
  intros Hn. assert (0 <= Z.log2_up n <= 63) as Hk.
  { split; [apply Z.log2_up_nonneg|]. rewrite <-(Z.log2_up_pow2 63) by lia. apply Z.log2_up_le_mono. lia. }
  assert (next_power_of_two n = 2 ^ Z.log2_up n) as E.
  { apply as_u64_id. pose proof (pow2_63 _ Hk). split; [lia|]. unfold u64_mod.
    change (2 ^ 64) with (2 * 2 ^ 63). lia. }
  rewrite E. split_and!; [done|lia|lia|].
  destruct (Z.eq_dec n 1) as [->|]; [done|]. apply Z.log2_up_spec. lia.
Qed.

(** A new ring is an empty queue. *)
Lemma new_simulates n rb : 0 < n <= 2 ^ 63 -> new n = Ok rb ->
  simulates (Z.log2_up n) (idle rb) empty_queue /\ capacity rb.1 = 2 ^ Z.log2_up n.
Proof.
  intros Hn. destruct (next_power_of_two_pow n Hn) as (E & Hk & _). unfold new.
  destruct (Z.ltb_spec 0 n); [|lia]. intros [= <-]. pose proof (pow2_63 _ Hk). cbn. rewrite E.
  split; [|done]. split; cbn; try done; try lia.
  split; cbn; [done|done| |unfold fresh_slots; by rewrite length_replicate].
  apply as_u64_id. split; [lia|]. unfold u64_mod. change (2 ^ 64) with (2 * 2 ^ 63). lia.
Qed.

(** *** Sequential calls

    Run alone, the accesses of a thread make up the functions above. *)
Fixpoint complete_push (fuel : nat) (f : VideoFrame) (s : State) : option (event * State) :=
  match fuel, produce f s with
  | S fuel', Some (None, s') | S fuel', Some (Some (Entered _), s') => complete_push fuel' f s'
  | S fuel', Some (Some e, s') => Some (e, s')
  | _, _ => None
  end.

Fixpoint complete_pop (fuel : nat) (s : State) : option (event * State) :=
  match fuel, consume s with
  | S fuel', Some (None, s') => complete_pop fuel' s'
  | S fuel', Some (Some e, s') => Some (e, s')
  | _, _ => None
  end.

Lemma try_push_accesses f rb c :
  complete_push 5 f (mkState rb PIdle c) =
    match try_push f rb with
    | (Ok _, rb') => Some (Pushed f, mkState rb' PIdle c)
    | (Err RingBufferError.Closed, rb') => Some (Refused f, mkState rb' PIdle c)
    | (Err _, rb') => Some (WasFull f, mkState rb' PIdle c)
    | (Panic _, _) => None
    end.
Proof.
  destruct rb as [b at_]. cbn. unfold produce at 1. cbn. destruct (is_closed at_); [done|]. cbn.
  unfold produce at 1. cbn. destruct (_ <=? _); [done|]. cbn. unfold produce at 1. cbn.
  by destruct (buffer b !! _).
Qed.

Lemma try_pop_accesses rb p :
  complete_pop 4 (mkState rb p CIdle) =
    match try_pop rb with
    | (Ok fr, rb') =>
        Some (if read_idx rb.2 =? write_idx rb.2 then WasEmpty else Popped fr, mkState rb' p CIdle)
    | (_, _) => None
    end.
Proof.
  destruct rb as [b at_]. cbn. unfold consume at 1. cbn. destruct (_ =? _); [done|]. cbn.
  unfold consume at 1. cbn. by destruct (buffer b !! _).
Qed.

(** *** Running schedules *)
Inductive action := DoPush (f : VideoFrame) | DoPop | DoClose.

Definition act (a : action) (s : State) : option (option event * State) :=
  match a with
  | DoPush f => produce f s
  | DoPop => consume s
  | DoClose => Some (Some Shut, s <| ring := close (ring s) |>)
  end.

Fixpoint exec (acts : list action) (tr : list event) (s : State) : option (list event * State) :=
  match acts with
  | [] => Some (tr, s)
  | a :: acts' =>
      match act a s with
      | None => None
      | Some (None, s') => exec acts' tr s'
      | Some (Some e, s') => exec acts' (tr ++ [e]) s'
      end
  end.

Lemma exec_run s0 acts tr s tr' s' : run s0 tr s -> exec acts tr s = Some (tr', s') -> run s0 tr' s'.
Proof.
  revert tr s. induction acts as [|a acts IH]; intros tr s Hr; cbn; [by intros [= <- <-]|].
  destruct (act a s) as [[l s1]|] eqn:E; [|done].
  assert (step s l s1) as Hst.
  { destruct a; cbn in E; [by eapply step_produce|by eapply step_consume|]. injection E as <- <-. apply step_close. }
  destruct l as [e|]; intros H; (eapply IH; [|exact H]); [by eapply run_event|by eapply run_tau].
Qed.

(** *** What the observer can rely on *)

(** The frames published, and what the pops delivered. *)
Definition pushed (tr : list event) : list VideoFrame :=
  omap (fun e => match e with Pushed f => Some f | _ => None end) tr.
Definition popped (tr : list event) : list (option VideoFrame) :=
  omap (fun e => match e with Popped fr => Some fr | _ => None end) tr.

Lemma queue_run_fifo cap tr q : 0 <= cap -> queue_run cap empty_queue tr q ->
  Some <$> pushed tr = popped tr ++ (Some <$> items q) /\ Z.of_nat (length (items q)) <= cap.
Proof.
  intros Hcap Hr. induction Hr as [|tr q e q' _ [IH Hl] Hst]; [done|].
  unfold pushed, popped in *. rewrite !omap_app, fmap_app, IH.
  destruct Hst; cbn in *; rewrite ?app_nil_r; split; try done; try lia;
    rewrite ?fmap_app, ?length_app, <-?app_assoc; cbn; done || lia.
Qed.

(** C4: refinement.  A ring made by [new], used by one producer and one consumer
    whose accesses interleave in any way (with anybody closing it), behaves as a
    bounded first-in first-out queue whose bound is the requested capacity rounded up
    to a power of two: every sequence of outcomes it shows is one the queue can show.
    The indices may wrap around. *)
Theorem ring_refines_queue n rb tr s :
  0 < n <= 2 ^ 63 -> new n = Ok rb -> run (idle rb) tr s ->
  n <= next_power_of_two n /\
  exists q, queue_run (next_power_of_two n) empty_queue tr q /\
    len (ring s).2 = Z.of_nat (length (items q)) /\ is_closed (ring s).2 = shut q.
Proof.
  intros Hn Hnew Hr. destruct (new_simulates n rb Hn Hnew) as [H0 _].
  destruct (next_power_of_two_pow n Hn) as (-> & _ & Hle). split; [done|].
  destruct (run_simulates _ _ _ _ _ H0 Hr) as (q & Hq & Hs). exists q.
  split_and!; [done|by eapply simulates_len|symmetry; apply Hs].
Qed.

(** The consumer receives exactly the frames published, in order, each once:
    what was popped, followed by what is in the buffer, is what was pushed, and no
    pop delivers an empty slot; the buffer never holds more than its capacity. *)
Theorem ring_fifo n rb tr s :
  0 < n <= 2 ^ 63 -> new n = Ok rb -> run (idle rb) tr s ->
  exists rest, Some <$> pushed tr = popped tr ++ (Some <$> rest) /\
    len (ring s).2 = Z.of_nat (length rest) /\ len (ring s).2 <= next_power_of_two n.
Proof.
  intros Hn Hnew Hr. destruct (new_simulates n rb Hn Hnew) as [H0 _].
  destruct (next_power_of_two_pow n Hn) as (-> & Hk & _).
  destruct (run_simulates _ _ _ _ _ H0 Hr) as (q & Hq & Hs). exists (items q).
  rewrite (simulates_len _ _ _ Hs). pose proof (pow2_63 _ Hk).
  destruct (queue_run_fifo (2 ^ Z.log2_up n) tr q ltac:(lia) Hq). done.
Qed.

(** The slots the two threads are about to access. *)
Definition writes (s : State) : option nat :=
  match prod s with PStore _ w => Some (slot_of (ring s).1 w) | _ => None end.
Definition takes (s : State) : option nat :=
  match cons s with CTake r => Some (slot_of (ring s).1 r) | _ => None end.

(** The accesses to the slots, which the source makes through an [UnsafeCell],
    are safe: in no interleaving do the two threads stand before an access to the
    same slot, and no access is out of range. *)
Theorem ring_accesses_safe n rb tr s :
  0 < n <= 2 ^ 63 -> new n = Ok rb -> run (idle rb) tr s ->
  (forall i j, writes s = Some i -> takes s = Some j -> i <> j) /\
  (forall f, is_Some (produce f s)) /\ is_Some (consume s).
Proof.
  intros Hn Hnew Hr. destruct (new_simulates n rb Hn Hnew) as [H0 _].
  destruct (run_simulates _ _ _ _ _ H0 Hr) as (q & Hq & Hs). split_and!.
  - destruct Hs as [Hok Hw _ _ _ _ Hp Hc]. unfold writes, takes. intros i j.
    destruct (prod s); try done. destruct (cons s); try done. intros [= <-] [= <-]. cbn in Hp, Hc.
    destruct Hp as (_ & -> & Hlt), Hc as [-> Hne]. rewrite Hw, (slot_as_u64 _ _ _ Hok).
    apply not_eq_sym, (slot_ne _ _ _ _ Hok). destruct (items q); [done|]. cbn in *. lia.
  - intros f. destruct (produce_simulates _ f _ _ Hs) as (l & s' & -> & _). eauto.
  - destruct (consume_simulates _ _ _ Hs) as (l & s' & -> & _). eauto.
Qed.

End Frames.
Arguments State : clear implicits.
Arguments Queue : clear implicits.
Arguments event : clear implicits.
Arguments action : clear implicits.
End Spsc.

(** ** Blocking calls and clones *)
Section Blocking.
Context {VideoFrame : Type}.
Import Atomics FrameRingBuffer.
Implicit Types (rb : Ring VideoFrame) (b : FrameRingBuffer.t VideoFrame).

(** A blocking push ends at the latest in the first round that finds the timeout
    elapsed, and never reports [Full]: a buffer that stays full is a [Timeout]. *)
Theorem push_with_timeout_ends (frame : VideoFrame) timeout rounds rb :
  Exists (fun r => timeout <= r.2) rounds ->
  exists r rb', push_with_timeout frame timeout rounds rb = (Some r, rb') /\
    r <> Err RingBufferError.Full /\ r <> Err RingBufferError.Empty.
Proof.
  revert rb. induction rounds as [|[others el] rounds IH]; intros rb Hex; [by apply Exists_nil in Hex|].
  cbn. destruct (is_closed (others rb).2); [by eexists _, _|].
  destruct (try_push frame (others rb)) as [[[]|e|m] rb']; [by eexists _, _| |by eexists _, _].
  destruct (Z.leb_spec timeout el); [by eexists _, _|].
  apply IH. apply Exists_cons in Hex as [Hx|Hx]; [cbn in Hx; lia|done].
Qed.

(** A clone is not a second handle on the same buffer: it has its own slots, but
    moves the shared read index.  A frame pushed through the original is lost when
    the clone pops: the clone gets nothing, and afterwards neither does the original. *)
Theorem clone_loses_frames k b at_ f b1 at1 :
  Spsc.ring_ok k b -> try_push f (b, at_) = (Ok tt, (b1, at1)) -> write_idx at_ = read_idx at_ ->
  is_u64 (read_idx at_) ->
  exists c' at2, try_pop (clone b1, at1) = (Ok None, (c', at2)) /\
    read_idx at2 = write_idx at2 /\ try_pop (b1, at2) = (Ok None, (b1, at2)) /\
    try_pop (b1, at1) <> (Ok None, (b1, at1)).
Proof.
  intros Hok Hp Hw Hu. cbn in Hp. destruct (is_closed at_); [done|]. destruct (_ <=? _); [done|].
  destruct (buffer b !! slot_of b (write_idx at_)) eqn:Eb; [|done]. injection Hp as <- <-.
  assert ((read_idx at_ =? u64_add (write_idx at_) 1) = false) as Hne.
  { apply Z.eqb_neq. rewrite Hw. unfold u64_add, as_u64. intros E. unfold is_u64, u64_mod in *.
    destruct (Z.eq_dec (read_idx at_ + 1) (2 ^ 64)) as [E'|]; [rewrite E', Z_mod_same_full in E; lia|].
    rewrite Z.mod_small in E; lia. }
  unfold try_pop, set_field. cbn. rewrite Hne.
  destruct Hok as [Hk Hcap Hm Hl].
  assert (slot_of (clone (set_slot b (write_idx at_) (Some f))) (read_idx at_) < Z.to_nat (2 ^ k))%nat as Hlt.
  { destruct (Spsc.slot_in_range k b (read_idx at_)) as [v Ev]; [by split|].
    apply lookup_lt_Some in Ev. by rewrite Hl in Ev. }
  unfold fresh_slots. rewrite Hcap, lookup_replicate_2 by done.
  eexists _, _. split; [done|]. cbn. rewrite Hw, Z.eqb_refl. split_and!; try done.
  unfold slot_of at 1. cbn. fold (slot_of b (read_idx at_)). rewrite <-Hw, list_lookup_insert_eq; [done|].
  by eapply lookup_lt_Some.
Qed.

End Blocking.

(** ** Witnesses *)
Section Witnesses.
Import FrameRingBuffer Spsc.

Definition sim_ring : Ring nat := match new (VideoFrame := nat) 2 with Ok rb => rb | _ => (mk [] 0 0, Atomics.mk 0 0 0) end.

(** Two frames are pushed while the consumer takes the first, a third finds the
    buffer full, and the buffer is closed. *)
Definition sim_schedule : list (action nat) :=
  replicate 5 (DoPush 7%nat) ++ [DoPop; DoPop] ++ replicate 5 (DoPush 8%nat) ++ [DoPop] ++
  replicate 3 (DoPush 9%nat) ++ [DoPop; DoClose; DoPush 9%nat] ++ replicate 2 DoPop.

Definition sim_trace : list (event nat) :=
  [Entered 7; Pushed 7; Entered 8; Pushed 8; Entered 9; WasFull 9; Popped (Some 7); Shut; Refused 9]%nat.

Definition sim_final : State nat := match exec sim_schedule [] (idle sim_ring) with Some x => x.2 | None => idle sim_ring end.

Lemma sim_ring_run : run (idle sim_ring) sim_trace sim_final.
Proof. apply (exec_run _ sim_schedule [] (idle sim_ring)); [constructor|vm_compute; reflexivity]. Qed.

Lemma ring_refines_queue_witness :
  exists q, queue_run 2 empty_queue sim_trace q /\ Atomics.write_idx (ring sim_final).2 = 2.
Proof.
  destruct (ring_refines_queue 2 sim_ring sim_trace sim_final) as (_ & q & Hq & _);
    [done|reflexivity|exact sim_ring_run|]. exists q. split; [exact Hq|vm_compute; reflexivity].
Defined.

Lemma ring_fifo_witness : exists rest, [Some 7; Some 8]%nat = [Some 7%nat] ++ (Some <$> rest).
Proof.
  destruct (ring_fifo 2 sim_ring sim_trace sim_final) as (rest & Hr & _); [done|reflexivity|exact sim_ring_run|].
  exists rest. exact Hr.
Defined.

Lemma ring_accesses_safe_witness : takes sim_final = Some 1%nat /\ is_Some (consume sim_final).
Proof.
  split; [vm_compute; reflexivity|].
  destruct (ring_accesses_safe 2 sim_ring sim_trace sim_final) as (_ & _ & H);
    [done|reflexivity|exact sim_ring_run|exact H].
Defined.

(** A full ring and a consumer that pops in the second round. *)
Definition sim_full : Ring nat := (try_push 2%nat (try_push 1%nat sim_ring).2).2.

Lemma push_with_timeout_ends_witness : exists r rb',
  push_with_timeout 3%nat (millis 5) [(fun rb => rb, 0); (fun rb => (try_pop rb).2, millis 9)] sim_full = (Some r, rb')
  /\ r = Ok tt.
Proof.
  destruct (push_with_timeout_ends 3%nat (millis 5)
    [(fun rb => rb, 0); (fun rb => (try_pop rb).2, millis 9)] sim_full) as (r & rb' & E & _).
  - right. left. vm_compute. discriminate.
  - exists r, rb'. split; [exact E|]. vm_compute in E. by injection E.
Defined.

Lemma clone_loses_frames_witness : exists c' at2,
  try_pop (clone (try_push 7%nat sim_ring).2.1, (try_push 7%nat sim_ring).2.2) = (Ok None, (c', at2)).
Proof.
  destruct (clone_loses_frames 1 sim_ring.1 sim_ring.2 7%nat (try_push 7%nat sim_ring).2.1 (try_push 7%nat sim_ring).2.2)
    as (c' & at2 & E & _); [split; done || lia|vm_compute; reflexivity|reflexivity|vm_compute; split; discriminate || reflexivity|].
  exists c', at2. exact E.
Defined.
End Witnesses.
