(* ===== verification/Storage.v ===== *)
(** * Storage errors and URLs

    [StorageError] of crates/roboflow-storage/src/error.rs and [StorageUrl] of
    crates/roboflow-storage/src/url.rs: parsing, printing, and when printing is undone
    by parsing.  A [PathBuf] is the byte string it was made from. *)
From S2P Require Import Prelude.
Local Open Scope Z_scope.
Local Open Scope string_scope.

Module StorageError.
Inductive t :=
| NotFound (s : string)
| PermissionDenied (s : string)
| AlreadyExists (s : string)
| InvalidPath (s : string)
| NetworkError (s : string)
| Timeout (s : string)
| Io (s : string)
| Cloud (s : string)
| Other (s : string).

#[global] Instance t_eq : EqDecision t.
Proof. solve_decision. Defined.

Definition fmt (e : t) : string :=
  match e with
  | NotFound s => "object not found: " +:+ s
  | PermissionDenied s => "permission denied: " +:+ s
  | AlreadyExists s => "object already exists: " +:+ s
  | InvalidPath s => "invalid path: " +:+ s
  | NetworkError s => "network error: " +:+ s
  | Timeout s => "operation timed out: " +:+ s
  | Io s => "I/O error: " +:+ s
  | Cloud s => "cloud storage error: " +:+ s
  | Other s => s
  end.

Definition not_found := NotFound.
Definition permission_denied := PermissionDenied.
Definition invalid_path := InvalidPath.
Definition timeout := Timeout.
Definition network := NetworkError.
Definition other := Other.

Definition is_retryable (e : t) : bool :=
  match e with NetworkError _ | Timeout _ | Cloud _ => true | _ => false end.
End StorageError.

(** [StorageResult<T>]. *)
Abbreviation StorageResult := (result StorageError.t).

(** ** White space

    [str::trim] removes the characters with the Unicode property [White_Space]; these
    are their UTF-8 encodings. *)
Definition bytes_of (l : list nat) : string := String.string_of_list_ascii (ascii_of_nat <$> l).

Definition white_spaces : list string :=
  bytes_of <$>
  concat [[[9]; [10]; [11]; [12]; [13]; [32]; [194; 133]; [194; 160]; [225; 154; 128]];
          (fun i => [226; 128; 128 + i]) <$> seq 0 11;
          [[226; 128; 168]; [226; 128; 169]; [226; 128; 175]; [226; 129; 159]; [227; 128; 128]]]%nat.

Fixpoint string_rev (s : string) : string :=
  match s with "" => "" | String a s' => string_rev s' +:+ String a "" end.

(** The string after one of the given prefixes. *)
Fixpoint strip_one (ps : list string) (s : string) : option string :=
  match ps with
  | [] => None
  | p :: ps' => match strip_prefix p s with Some s' => Some s' | None => strip_one ps' s end
  end.

Fixpoint strip_all (ps : list string) (fuel : nat) (s : string) : string :=
  match fuel, strip_one ps s with
  | S fuel', Some s' => strip_all ps fuel' s'
  | _, _ => s
  end.

Definition trim_start (s : string) : string := strip_all white_spaces (String.length s) s.
Definition trim_end (s : string) : string :=
  string_rev (strip_all (string_rev <$> white_spaces) (String.length s) (string_rev s)).
Definition trim (s : string) : string := trim_end (trim_start s).

(** No white space at the start, at the end. *)
Definition starts_clean (s : string) : bool := bool_decide (strip_one white_spaces s = None).
Definition ends_clean (s : string) : bool :=
  bool_decide (strip_one (string_rev <$> white_spaces) (string_rev s) = None).

(** [s.find(p)] with the text before and after the match. *)
Fixpoint split_on (p s : string) : option (string * string) :=
  match strip_prefix p s with
  | Some rest => Some ("", rest)
  | None =>
      match s with
      | "" => None
      | String a s' => match split_on p s' with Some (x, y) => Some (String a x, y) | None => None end
      end
  end.

(** [str::split(c)]. *)
Fixpoint split_char (c : ascii) (s : string) : list string :=
  match s with
  | "" => [""]
  | String a s' =>
      if Ascii.eqb a c then "" :: split_char c s'
      else match split_char c s' with
           | [] => [String a ""]
           | x :: xs => String a x :: xs
           end
  end.

(** ** Data

    The length of a byte string, and the concatenation of chunks. *)
Definition str_len (s : string) : Z := Z.of_nat (String.length s).
Arguments str_len : simpl never.

Lemma str_len_nonneg x : 0 <= str_len x.
Proof. unfold str_len. lia. Qed.

Fixpoint joined (cs : list string) : string :=
  match cs with [] => "" | c :: cs' => c +:+ joined cs' end.

Lemma str_len_app a b : str_len (a +:+ b) = str_len a + str_len b.
Proof. unfold str_len. induction a as [|x a IH]; [done|]. rewrite string_app_cons. cbn -[Z.of_nat]. lia. Qed.

Lemma substring_all x : String.substring 0 (String.length x) x = x.
Proof. induction x as [|a x IH]; cbn; [done|]. by rewrite IH. Qed.

Lemma substring_split n x : String.substring 0 n x +:+ String.substring n (String.length x - n) x = x.
Proof.
  revert x. induction n as [|n IH]; intros x.
  - rewrite Nat.sub_0_r, substring_all. by destruct x.
  - destruct x as [|a x]; [done|]. cbn [String.substring String.length]. rewrite string_app_cons.
    change (S (String.length x) - S n)%nat with (String.length x - n)%nat. by rewrite IH.
Qed.

Lemma string_length_app a b : String.length (a +:+ b) = (String.length a + String.length b)%nat.
Proof. pose proof (str_len_app a b). unfold str_len in *. lia. Qed.

(** ** A monad for code with state and storage errors *)
Definition SM (St A : Type) : Type := St -> StorageResult A * St.
#[global] Instance SM_ret St : MRet (SM St) := fun A a s => (Ok a, s).
#[global] Instance SM_bind St : MBind (SM St) := fun A B f m s =>
  match m s with
  | (Ok a, s') => f a s'
  | (Err e, s') => (Err e, s')
  | (Panic m, s') => (Panic m, s')
  end.
Definition sm_throw {St A} (e : StorageError.t) : SM St A := fun s => (Err e, s).
Definition sm_get {St} : SM St St := fun s => (Ok s, s).
Definition sm_modify {St} (f : St -> St) : SM St unit := fun s => (Ok tt, f s).

(** The outcome of a system call; a failed write may have written a part. *)
Inductive outcome := Done | Failed (error : string) (written : nat).

Module StorageUrl.
Inductive t :=
| Local (path : string)
| S3 (bucket key : string) (endpoint region : option string).

#[global] Instance t_eq : EqDecision t.
Proof. solve_decision. Defined.

Definition is_local (u : t) : bool := match u with Local _ => true | S3 _ _ _ _ => false end.
Definition is_remote (u : t) : bool := negb (is_local u).
Definition path (u : t) : string := match u with Local p => p | S3 _ key _ _ => key end.
Definition bucket (u : t) : option string := match u with Local _ => None | S3 b _ _ _ => Some b end.
Definition local (p : string) : t := Local p.
Definition s3 (bucket key : string) : t := S3 bucket key None None.

(** One query parameter; a parameter without [=] is ignored. *)
Definition query_param (acc : option string * option string) (param : string) : option string * option string :=
  match split_once "=" param with
  | Some (key, value) =>
      if String.eqb key "endpoint" then (Some value, acc.2)
      else if String.eqb key "region" then (acc.1, Some value)
      else acc
  | None => acc
  end.

Definition parse_s3_url (rest : string) : StorageResult t :=
  let '(path, query) :=
    match split_once "?" rest with Some (p, q) => (p, Some q) | None => (rest, None) end in
  let '(bucket, key) :=
    match split_once "/" path with Some (b, k) => (b, k) | None => (path, "") end in
  if String.eqb bucket "" then Err (StorageError.invalid_path "S3 URL missing bucket name")
  else
    let '(endpoint, region) :=
      match query with
      | Some q => foldl query_param (None, None) (split_char "&" q)
      | None => (None, None)
      end in
    Ok (S3 bucket key endpoint region).

(** The path of a file URL; [&rest[9..]] keeps the slash after [localhost]. *)
Definition file_path (rest : string) : string :=
  match strip_prefix "localhost/" rest with
  | Some after => "/" +:+ ("/" +:+ after)
  | None => if starts_with rest "/" then rest else "/" +:+ rest
  end.

Definition from_str (s : string) : StorageResult t :=
  let s := trim s in
  match split_on "://" s with
  | Some (scheme, rest) =>
      if String.eqb scheme "file" then Ok (Local (file_path rest))
      else if String.eqb scheme "s3" then parse_s3_url rest
      else Err (StorageError.invalid_path ("unsupported URL scheme: " +:+ scheme))
  | None =>
      if starts_with s "s3:" then
        Err (StorageError.invalid_path
          ("malformed cloud URL '" +:+ s +:+ "': use s3://bucket/path (double slash required)"))
      else Ok (Local s)
  end.

Definition query_string (endpoint region : option string) : string :=
  match endpoint, region with
  | None, None => ""
  | Some ep, None => "?endpoint=" +:+ ep
  | None, Some r => "?region=" +:+ r
  | Some ep, Some r => "?endpoint=" +:+ ep +:+ "&region=" +:+ r
  end.

Definition fmt (u : t) : string :=
  match u with
  | Local path => "file://" +:+ path
  | S3 bucket key endpoint region => "s3://" +:+ bucket +:+ "/" +:+ key +:+ query_string endpoint region
  end.
End StorageUrl.

(** ** Lemmas on the string operations *)
Lemma string_rev_app a b : string_rev (a +:+ b) = string_rev b +:+ string_rev a.
Proof.
  induction a as [|x a IH]; [by rewrite string_app_nil_l; cbn [string_rev]; rewrite string_app_nil_r|].
  rewrite string_app_cons. cbn [string_rev]. by rewrite IH, string_app_assoc.
Qed.

Lemma string_rev_involutive s : string_rev (string_rev s) = s.
Proof. induction s as [|x s IH]; [done|]. cbn [string_rev]. by rewrite string_rev_app, IH. Qed.

Lemma strip_all_clean ps fuel s : strip_one ps s = None -> strip_all ps fuel s = s.
Proof. destruct fuel; cbn; [done|]. by intros ->. Qed.

Lemma trim_clean s : starts_clean s = true -> ends_clean s = true -> trim s = s.
Proof.
  unfold starts_clean, ends_clean, trim, trim_start, trim_end. rewrite !bool_decide_eq_true.
  intros Hs He. rewrite !strip_all_clean by (done || by rewrite strip_all_clean). apply string_rev_involutive.
Qed.

Lemma split_once_free c s : free_of c s = true -> split_once c s = None.
Proof.
  induction s as [|a s IH]; cbn; [done|]. intros [Ha Hs]%andb_true_iff.
  apply negb_true_iff in Ha. by rewrite Ha, IH.
Qed.

Lemma split_once_None c s : split_once c s = None -> free_of c s = true.
Proof.
  induction s as [|a s IH]; cbn; [done|]. destruct (Ascii.eqb a c); [done|].
  destruct (split_once c s) as [[]|]; [done|]. by intros ->%IH.
Qed.

Lemma split_once_Some c s a b : split_once c s = Some (a, b) -> s = a +:+ String c b /\ free_of c a = true.
Proof.
  revert a. induction s as [|x s IH]; cbn; intros a; [done|].
  destruct (Ascii.eqb_spec x c) as [->|Hne]; [by intros [= <- <-]|].
  destruct (split_once c s) as [[a' b']|]; [|done]. intros [= <- <-].
  destruct (IH a' eq_refl) as [-> Hf]. split; [done|]. cbn. rewrite Hf.
  by destruct (Ascii.eqb_spec x c).
Qed.

Lemma split_char_free c s : free_of c s = true -> split_char c s = [s].
Proof.
  induction s as [|a s IH]; cbn; [done|]. intros [Ha Hs]%andb_true_iff.
  apply negb_true_iff in Ha. by rewrite Ha, IH.
Qed.

Lemma split_char_app c a b : free_of c a = true -> split_char c (a +:+ String c b) = a :: split_char c b.
Proof.
  induction a as [|x a IH]; [by rewrite string_app_nil_l; cbn; rewrite ascii_eqb_refl|].
  rewrite string_app_cons. cbn. intros [Hx Ha]%andb_true_iff. apply negb_true_iff in Hx.
  by rewrite Hx, IH.
Qed.

Lemma split_char_elem c s x : x ∈ split_char c s -> free_of c x = true.
Proof.
  revert x. induction s as [|a s IH]; cbn; intros x; [by intros ->%list_elem_of_singleton|].
  destruct (Ascii.eqb_spec a c) as [->|Hne].
  - intros [->|Hx]%elem_of_cons; [done|by apply IH].
  - assert (negb (Ascii.eqb a c) = true) as Ha by by destruct (Ascii.eqb_spec a c).
    destruct (split_char c s) as [|y ys].
    + intros ->%list_elem_of_singleton. cbn. by rewrite Ha.
    + intros [->|Hx]%elem_of_cons; [|apply IH; by right]. cbn. rewrite Ha. apply IH. left.
Qed.

(** ** Printing and parsing *)
Section Url.
Import StorageUrl.

Definition opt_free (c : ascii) (o : option string) : bool :=
  match o with Some s => free_of c s | None => true end.

(** What the grammar of the URLs can express. *)
Definition expressible (u : t) : bool :=
  match u with
  | Local p => starts_with p "/"
  | S3 b k e r =>
      negb (String.eqb b "") && free_of "/" b && free_of "?" b && free_of "?" k &&
      opt_free "&" e && opt_free "&" r
  end.

Lemma query_param_endpoint acc v : query_param acc ("endpoint=" +:+ v) = (Some v, acc.2).
Proof. reflexivity. Qed.
Lemma query_param_region acc v : query_param acc ("region=" +:+ v) = (acc.1, Some v).
Proof. reflexivity. Qed.

Lemma parse_query e r : opt_free "&" e = true -> opt_free "&" r = true -> query_string e r <> "" ->
  exists q, query_string e r = String "?" q /\ foldl query_param (None, None) (split_char "&" q) = (e, r).
Proof.
  intros He Hr Hne. destruct e as [e|], r as [r|]; cbn [query_string opt_free] in *.
  - exists ("endpoint=" +:+ e +:+ "&region=" +:+ r). split; [done|].
    assert ("endpoint=" +:+ e +:+ "&region=" +:+ r = ("endpoint=" +:+ e) +:+ String "&" ("region=" +:+ r)) as ->
      by done.
    rewrite split_char_app by by rewrite free_of_app, He. rewrite split_char_free by by rewrite free_of_app, Hr.
    cbn [foldl]. by rewrite query_param_endpoint, query_param_region.
  - exists ("endpoint=" +:+ e). split; [done|]. rewrite split_char_free by by rewrite free_of_app, He.
    cbn [foldl]. by rewrite query_param_endpoint.
  - exists ("region=" +:+ r). split; [done|]. rewrite split_char_free by by rewrite free_of_app, Hr.
    cbn [foldl]. by rewrite query_param_region.
  - done.
Qed.

Lemma parse_s3_print b k e r : expressible (S3 b k e r) = true ->
  parse_s3_url (b +:+ "/" +:+ k +:+ query_string e r) = Ok (S3 b k e r).
Proof.
  cbn. rewrite !andb_true_iff, negb_true_iff. intros (((((Hb & Hb1) & Hb2) & Hk) & He) & Hr).
  assert (forall x, b +:+ "/" +:+ x = b +:+ String "/" x) as Eb by done.
  assert (free_of "?" (b +:+ String "/" k) = true) as Hf.
  { rewrite free_of_app, Hb2. cbn. done. }
  unfold parse_s3_url. destruct (decide (query_string e r = "")) as [E|Hne].
  - rewrite E, string_app_nil_r, Eb, (split_once_free "?") by done. rewrite split_once_app, Hb by done.
    by destruct e, r.
  - destruct (parse_query e r He Hr Hne) as (q & -> & Eq).
    assert (b +:+ "/" +:+ k +:+ String "?" q = (b +:+ String "/" k) +:+ String "?" q) as ->.
    { rewrite string_app_assoc. done. }
    rewrite split_once_app by done. rewrite split_once_app, Hb by done. by rewrite Eq.
Qed.

Lemma query_params_free e r l acc :
  Forall (fun x => free_of "&" x = true) l -> opt_free "&" acc.1 = true -> opt_free "&" acc.2 = true ->
  foldl query_param acc l = (e, r) -> opt_free "&" e = true /\ opt_free "&" r = true.
Proof.
  revert acc. induction l as [|x l IH]; intros acc Hl H1 H2; cbn; [by intros ->|].
  inversion_clear Hl as [|? ? Hx Hl']. intros E. apply (IH _ Hl') in E; [done|..];
    unfold query_param; destruct (split_once "=" x) as [[key value]|] eqn:Es; try done;
    apply split_once_Some in Es as [-> _]; rewrite free_of_app in Hx; apply andb_true_iff in Hx as [_ Hv];
    cbn in Hv; repeat (destruct (String.eqb _ _)); done.
Qed.

(** What was parsed as an S3 URL is expressible. *)
Lemma parse_s3_expressible rest u : parse_s3_url rest = Ok u -> is_remote u = true /\ expressible u = true.
Proof.
  unfold parse_s3_url.
  destruct (match split_once "?" rest with Some (p, q) => (p, Some q) | None => (rest, None) end) as [p q] eqn:Eq.
  assert (free_of "?" p = true) as Hp.
  { destruct (split_once "?" rest) as [[p' q']|] eqn:E; injection Eq as <- <-;
      [by apply split_once_Some in E as []|by apply split_once_None]. }
  destruct (match split_once "/" p with Some (b, k) => (b, k) | None => (p, "") end) as [b k] eqn:Eb.
  assert (free_of "/" b = true /\ free_of "?" b = true /\ free_of "?" k = true) as (H1 & H2 & H3).
  { destruct (split_once "/" p) as [[b' k']|] eqn:E; injection Eb as <- <-.
    - apply split_once_Some in E as [-> Hb]. rewrite free_of_app in Hp. cbn in Hp.
      apply andb_true_iff in Hp as [? ?]. done.
    - by apply split_once_None in E. }
  destruct (String.eqb b "") eqn:Hb; [done|].
  destruct (match q with Some q => _ | None => _ end) as [e r] eqn:Er. intros [= <-]. split; [done|].
  assert (opt_free "&" e = true /\ opt_free "&" r = true) as [He Hr].
  { destruct q as [q|]; [|by injection Er as <- <-].
    apply (query_params_free e r (split_char "&" q) (None, None)); try done.
    apply Forall_forall. apply split_char_elem. }
  cbn. by rewrite Hb, H1, H2, H3, He, Hr.
Qed.

(** The text of a URL starts with its scheme. *)
Lemma fmt_starts_clean u : starts_clean (fmt u) = true.
Proof. by destruct u; vm_compute. Qed.

Lemma print_parse u :
  expressible u = true -> ends_clean (fmt u) = true -> from_str (fmt u) = Ok u.
Proof.
  intros Hu He. unfold from_str. rewrite trim_clean by (apply fmt_starts_clean || done).
  destruct u as [p|b k e r]; cbn [fmt].
  - change (split_on "://" ("file://" +:+ p)) with (Some ("file", p)). cbn in Hu. cbn. unfold file_path.
    rewrite Hu. apply starts_with_iff in Hu as [p' ->]. reflexivity.
  - change (split_on "://" ("s3://" +:+ ?x)) with (Some ("s3", x)). by apply parse_s3_print.
Qed.

(** C38: round trip.  A URL that the grammar can express (a local path that is absolute; a bucket
    without [/] and [?], a key without [?], an endpoint and a region without [&]) and
    whose text does not end in white space is what its text parses to. *)
Theorem url_print_parse u :
  expressible u = true -> ends_clean (fmt u) = true -> from_str (fmt u) = Ok u.
Proof. apply print_parse. Qed.

(** Every S3 URL the parser accepts can be printed and parsed again, unless its
    text ends in white space, which [trim] removes. *)
Theorem url_parse_print s u :
  from_str s = Ok u -> is_remote u = true -> ends_clean (fmt u) = true -> from_str (fmt u) = Ok u.
Proof.
  intros Hp Hr He. apply print_parse; [|done]. unfold from_str in Hp.
  destruct (split_on "://" (trim s)) as [[scheme rest]|].
  - destruct (String.eqb scheme "file"); [by injection Hp as <-|].
    destruct (String.eqb scheme "s3"); [|done]. by apply parse_s3_expressible in Hp as [].
  - destruct (starts_with _ _); [done|]. by injection Hp as <-.
Qed.

(** A relative local path does not survive: its text parses to an absolute path. *)
Theorem relative_path_becomes_absolute p :
  starts_with p "/" = false -> starts_with p "localhost/" = false -> ends_clean (fmt (Local p)) = true ->
  from_str (fmt (Local p)) = Ok (Local ("/" +:+ p)).
Proof.
  intros H1 H2 He. unfold from_str. rewrite trim_clean by (apply fmt_starts_clean || done). cbn [fmt].
  change (split_on "://" ("file://" +:+ p)) with (Some ("file", p)). cbn. unfold file_path.
  rewrite H1. unfold starts_with in H2. by destruct (strip_prefix "localhost/" p).
Qed.
End Url.

(** ** Witnesses *)
Section Witnesses.
Import StorageUrl.

Definition sim_url : t := S3 "datasets" "run/1" (Some "http://minio:9000") (Some "us-east-1").

Lemma url_print_parse_witness :
  from_str "s3://datasets/run/1?endpoint=http://minio:9000&region=us-east-1" = Ok sim_url.
Proof. apply (url_print_parse sim_url); vm_compute; reflexivity. Defined.

Lemma url_parse_print_witness :
  from_str "s3://datasets/run/1?endpoint=http://minio:9000&region=us-east-1" = Ok sim_url.
Proof.
  refine (url_parse_print " s3://datasets/run/1?region=us-east-1&x&endpoint=http://minio:9000 " sim_url _ _ _);
    vm_compute; reflexivity.
Defined.

Lemma relative_path_becomes_absolute_witness : from_str "file://data/in.bag" = Ok (Local "/data/in.bag").
Proof. apply (relative_path_becomes_absolute "data/in.bag"); vm_compute; reflexivity. Defined.

(** Other inputs, as the tests of the source have them. *)
Example parse_localhost : from_str "file://localhost/tmp/f" = Ok (Local "//tmp/f").
Proof. vm_compute. reflexivity. Qed.
Example parse_unsupported :
  from_str "ftp://server/f" = Err (StorageError.InvalidPath "unsupported URL scheme: ftp").
Proof. vm_compute. reflexivity. Qed.
Example parse_no_bucket : from_str "s3:///f" = Err (StorageError.InvalidPath "S3 URL missing bucket name").
Proof. vm_compute. reflexivity. Qed.
End Witnesses.
