(* ===== verification/Cache.v ===== *)
(** * The cached storage

    crates/roboflow-storage/src/cached: [eviction.rs], [upload.rs] and [storage.rs].
    [CachedStorage] serves reads from files in a local directory, downloads what is
    missing, and uploads what is written in the background.

    The local file system is a map from paths to contents, together with the outcomes
    of the coming system calls; the remote store is any implementation of the [Storage]
    trait.  Clock readings are arguments. *)
From S2P Require Import Prelude Storage.
Local Open Scope string_scope.
Local Open Scope Z_scope.

(** ** The trait [Storage], as far as the cache uses it

    A reader yields chunks and ends, possibly with an error; [Writer] is the value
    behind [Box<dyn Write>], whose errors are [std::io::Error]s. *)
Record Stream := mkStream { chunks : list string; broken : option string }.

Class StorageOps (R : Type) := {
  Writer : Type;
  reader : string -> R -> StorageResult Stream * R;
  writer : string -> R -> StorageResult Writer * R;
  write_all : Writer -> string -> R -> (string + Writer) * R;
  flush_writer : Writer -> R -> (string + unit) * R;
  exists_ : string -> R -> bool;
  size : string -> R -> StorageResult Z * R;
  delete : string -> R -> StorageResult unit * R;
  copy : string -> string -> R -> StorageResult unit * R }.

(** ** Entries, statistics, tasks *)
Module EvictionPolicy.
Inductive t := Lru | Lfu | Fifo.
Definition default : t := Lru.
Definition fmt (p : t) : string := match p with Lru => "LRU" | Lfu => "LFU" | Fifo => "FIFO" end.
End EvictionPolicy.

(** [Iterator::min_by_key]: the first of the elements with the least key. *)
Fixpoint min_by_key {A} (key : A -> Z) (l : list A) : option A :=
  match l with
  | [] => None
  | x :: l' =>
      match min_by_key key l' with
      | Some y => if key x <=? key y then Some x else Some y
      | None => Some x
      end
  end.

Module CacheEntryMeta.
Record t := mk { path : string; size : Z; last_accessed : Z; created_at : Z; access_count : Z }.

Definition select_eviction_candidate (entries : list t) (policy : EvictionPolicy.t) : option (string * Z) :=
  match entries with
  | [] => None
  | _ =>
      (fun e => (path e, size e)) <$>
      match policy with
      | EvictionPolicy.Lru => min_by_key last_accessed entries
      | EvictionPolicy.Lfu => min_by_key access_count entries
      | EvictionPolicy.Fifo => min_by_key created_at entries
      end
  end.
End CacheEntryMeta.

Module CacheEntry.
Record t := mk { path : string; size : Z; last_accessed : Z; created_at : Z; access_count : Z;
                 pending_upload : bool }.
#[global] Instance t_eta : Settable t := fun r =>
  mk (path r) (size r) (last_accessed r) (created_at r) (access_count r) (pending_upload r).

Definition new (path : string) (size now : Z) : t := mk path size now now 1 false.
Definition record_access (e : t) : t := e <| access_count := u64_add (access_count e) 1 |>.
End CacheEntry.

Module CacheStats.
Record t := mk { cache_hits : Z; cache_misses : Z; total_cached_bytes : Z; cached_file_count : Z;
                 pending_uploads : Z; uploads_completed : Z; uploads_failed : Z; bytes_uploaded : Z }.
#[global] Instance t_eta : Settable t := fun r =>
  mk (cache_hits r) (cache_misses r) (total_cached_bytes r) (cached_file_count r) (pending_uploads r)
     (uploads_completed r) (uploads_failed r) (bytes_uploaded r).
Definition default : t := mk 0 0 0 0 0 0 0 0.
End CacheStats.

Module UploadTask.
Record t := mk { local_path : string; remote_path : string; size : Z }.
End UploadTask.

Module CacheConfig.
Record t := mk { cache_directory : string; max_cache_size : Z; upload_concurrency : Z; upload_buffer_size : Z;
                 eviction_policy : EvictionPolicy.t; delete_after_upload : bool; max_pending_uploads : Z;
                 shutdown_timeout_secs : Z }.
#[global] Instance t_eta : Settable t := fun r =>
  mk (cache_directory r) (max_cache_size r) (upload_concurrency r) (upload_buffer_size r) (eviction_policy r)
     (delete_after_upload r) (max_pending_uploads r) (shutdown_timeout_secs r).

Definition new (dir : string) : t :=
  mk dir (50 * 1024 * 1024 * 1024) 4 (8 * 1024 * 1024) EvictionPolicy.default false 100 30.
Definition with_max_cache_size (n : Z) (c : t) : t := c <| max_cache_size := n |>.
Definition with_upload_concurrency (n : Z) (c : t) : t := c <| upload_concurrency := Z.max n 1 |>.
Definition with_upload_buffer_size (n : Z) (c : t) : t := c <| upload_buffer_size := Z.max n 1024 |>.
Definition with_eviction_policy (p : EvictionPolicy.t) (c : t) : t := c <| eviction_policy := p |>.
Definition with_delete_after_upload (b : bool) (c : t) : t := c <| delete_after_upload := b |>.
Definition with_max_pending_uploads (n : Z) (c : t) : t := c <| max_pending_uploads := Z.max n 1 |>.
Definition with_shutdown_timeout_secs (n : Z) (c : t) : t := c <| shutdown_timeout_secs := Z.max n 1 |>.
End CacheConfig.

(** ** Floating point

    [(n as f64 * 0.9) as u64] for a [u64]: conversion and product are rounded to 53
    significant bits, ties to even; [0.9] is 8106479329266893 / 2^53. *)
Definition round53 (p : Z) : Z :=
  let bits := Z.log2 p + 1 in
  if bits <=? 53 then p
  else
    let s := bits - 53 in
    let q := p / 2 ^ s in
    let r := p mod 2 ^ s in
    let half := 2 ^ (s - 1) in
    (if (half <? r) || ((half =? r) && Z.odd q) then q + 1 else q) * 2 ^ s.
Definition nine_tenths (n : Z) : Z := round53 (round53 n * 8106479329266893) / 2 ^ 53.

(** ** The local file system

    Each fallible system call takes the next outcome; when none is left, calls
    succeed.  A failed write may have written a part. *)
Record FileSystem := mkFs { files : gmap string string; outcomes : list outcome }.
#[global] Instance FileSystem_eta : Settable FileSystem := fun r => mkFs (files r) (outcomes r).

Definition next_outcome (fs : FileSystem) : outcome * FileSystem :=
  match outcomes fs with
  | [] => (Done, fs)
  | o :: os => (o, fs <| outcomes := os |>)
  end.

(** A call without effect on the files of the cache ([create_dir_all], [metadata]). *)
Definition fs_call (fs : FileSystem) : (string + unit) * FileSystem :=
  match next_outcome fs with
  | (Done, fs) => (inr tt, fs)
  | (Failed e _, fs) => (inl e, fs)
  end.
(** [File::create]. *)
Definition fs_create (p : string) (fs : FileSystem) : (string + unit) * FileSystem :=
  match next_outcome fs with
  | (Done, fs) => (inr tt, fs <| files := <[p := ""]> (files fs) |>)
  | (Failed e _, fs) => (inl e, fs)
  end.
(** [write_all] at the end of an open file. *)
Definition fs_append (p data : string) (fs : FileSystem) : (string + unit) * FileSystem :=
  let old := default "" (files fs !! p) in
  match next_outcome fs with
  | (Done, fs) => (inr tt, fs <| files := <[p := old +:+ data]> (files fs) |>)
  | (Failed e n, fs) => (inl e, fs <| files := <[p := old +:+ String.substring 0 n data]> (files fs) |>)
  end.
(** [fs::remove_file] of an existing file. *)
Definition fs_remove (p : string) (fs : FileSystem) : (string + unit) * FileSystem :=
  match next_outcome fs with
  | (Done, fs) => (inr tt, fs <| files := base.delete p (files fs) |>)
  | (Failed e _, fs) => (inl e, fs)
  end.
(** [fs::copy] of an existing file. *)
Definition fs_copy (p q : string) (fs : FileSystem) : (string + unit) * FileSystem :=
  let data := default "" (files fs !! p) in
  match next_outcome fs with
  | (Done, fs) => (inr tt, fs <| files := <[q := data]> (files fs) |>)
  | (Failed e n, fs) => (inl e, fs <| files := <[q := String.substring 0 n data]> (files fs) |>)
  end.
(** [File::open] and reading the file to its end; [inl None] is a missing file. *)
Definition fs_read (p : string) (fs : FileSystem) : (option string + string) * FileSystem :=
  match files fs !! p with
  | None => (inl None, fs)
  | Some data =>
      match next_outcome fs with
      | (Done, fs) => (inr data, fs)
      | (Failed e _, fs) => (inl (Some e), fs)
      end
  end.
Definition fs_exists (p : string) (fs : FileSystem) : bool := bool_decide (is_Some (files fs !! p)).


(** ** [CachedStorage] *)
Module CachedStorage.
Section Ops.
Context {R : Type} `{StorageOps R}.

(** [upload_queue] is the channel to the upload workers. *)
Record t := mk {
  config : CacheConfig.t;
  entries : gmap string CacheEntry.t;
  cache_size : Z;
  upload_queue : list UploadTask.t;
  stats : CacheStats.t;
  shutdown : Z;
  fs : FileSystem;
  remote : R }.
#[global] Instance t_eta : Settable t := fun r =>
  mk (config r) (entries r) (cache_size r) (upload_queue r) (stats r) (shutdown r) (fs r) (remote r).

(** The order in which [HashMap::iter] visits the entries. *)
Variable iter_order : gmap string CacheEntry.t -> list (string * CacheEntry.t).

Definition new (r : R) (config : CacheConfig.t) (fsys : FileSystem) : StorageResult t :=
  match fs_call fsys with
  | (inl e, _) => Err (StorageError.Other ("Failed to create cache directory: " +:+ e))
  | (inr _, fsys) => Ok (mk config ∅ 0 [] CacheStats.default 0 fsys r)
  end.

(** [path_str.replace(['/', '\\'], "::")]. *)
Fixpoint flatten (s : string) : string :=
  match s with
  | "" => ""
  | String a s' =>
      if Ascii.eqb a "/" || Ascii.eqb a "\" then String ":" (String ":" (flatten s')) else String a (flatten s')
  end.
(** [Path::join] with a relative path. *)
Definition join (dir name : string) : string :=
  if String.eqb dir "" then name
  else if String.eqb (String.substring (String.length dir - 1) 1 dir) "/" then dir +:+ name
  else dir +:+ "/" +:+ name.

Definition cache_path (s : t) (path : string) : string := join (CacheConfig.cache_directory (config s)) (flatten path).
Definition is_cached (s : t) (path : string) : bool := fs_exists (cache_path s path) (fs s).

(** *** Calls *)
Definition fs_op {A E} (err : E -> StorageError.t) (op : FileSystem -> (E + A) * FileSystem) : SM t A := fun s =>
  match op (fs s) with
  | (inl e, fsys) => (Err (err e), s <| fs := fsys |>)
  | (inr a, fsys) => (Ok a, s <| fs := fsys |>)
  end.
Definition remote_op {A} (op : R -> StorageResult A * R) : SM t A := fun s =>
  let '(r, rem) := op (remote s) in (r, s <| remote := rem |>).
Definition with_stats (f : CacheStats.t -> CacheStats.t) (s : t) : t := s <| stats := f (stats s) |>.

(** *** Eviction *)
Definition policy_key (p : EvictionPolicy.t) (e : CacheEntry.t) : Z :=
  match p with
  | EvictionPolicy.Lru => CacheEntry.last_accessed e
  | EvictionPolicy.Lfu => CacheEntry.access_count e
  | EvictionPolicy.Fifo => CacheEntry.created_at e
  end.

Definition evict_candidate (p : EvictionPolicy.t) (es : gmap string CacheEntry.t) : option string :=
  fst <$> min_by_key (fun '(_, e) => policy_key p e)
            (filter (fun '(_, e) => CacheEntry.pending_upload e = false) (iter_order es)).

(** The file of an evicted entry is removed if it can be. *)
Definition remove_cached_file (path : string) (s : t) : t :=
  if fs_exists (cache_path s path) (fs s) then s <| fs := (fs_remove (cache_path s path) (fs s)).2 |> else s.

Definition evict_one (path : string) (e : CacheEntry.t) (s : t) : t :=
  let s := s <| entries := base.delete path (entries s) |> in
  let s := remove_cached_file path s in
  let s := s <| cache_size := as_u64 (cache_size s - CacheEntry.size e) |> in
  with_stats (fun st => st <| CacheStats.total_cached_bytes := cache_size s |>
                           <| CacheStats.cached_file_count := saturating_sub (CacheStats.cached_file_count st) 1 |>) s.

(** The loop; a round evicts an entry or ends it. *)
Fixpoint evict_loop (fuel : nat) (target_size : Z) (s : t) : t :=
  match fuel with
  | O => s
  | S fuel' =>
      if cache_size s <=? target_size then s
      else if bool_decide (entries s = ∅) then s
      else
        match evict_candidate (CacheConfig.eviction_policy (config s)) (entries s) with
        | None => s
        | Some path =>
            match entries s !! path with
            | None => evict_loop fuel' target_size s
            | Some e => evict_loop fuel' target_size (evict_one path e s)
            end
        end
  end.

Definition evict (s : t) : t :=
  evict_loop (S (base.size (entries s))) (nine_tenths (CacheConfig.max_cache_size (config s))) s.

(** *** Bookkeeping *)
Definition add_to_cache (path : string) (sz now : Z) (s : t) : t :=
  let s := s <| entries := <[path := CacheEntry.new (cache_path s path) sz now]> (entries s) |> in
  let new_size := u64_add (cache_size s) sz in
  let s := s <| cache_size := new_size |> in
  let s := with_stats (fun st => st <| CacheStats.total_cached_bytes := new_size |>
                                   <| CacheStats.cached_file_count := u64_add (CacheStats.cached_file_count st) 1 |>) s in
  if CacheConfig.max_cache_size (config s) <? new_size then evict s else s.

Definition record_access (path : string) (now : Z) (s : t) : t :=
  match entries s !! path with
  | None => s
  | Some e => s <| entries := <[path := CacheEntry.record_access (e <| CacheEntry.last_accessed := now |>)]> (entries s) |>
  end.

Definition set_pending (b : bool) (path : string) (s : t) : t :=
  match entries s !! path with
  | None => s
  | Some e => s <| entries := <[path := e <| CacheEntry.pending_upload := b |>]> (entries s) |>
  end.

(** [queue_upload] in its three steps: the task is sent, the entry marked, the
    statistics updated.  The receiver lives as long as the storage, so the send does
    not fail. *)
Definition send_task (task : UploadTask.t) (s : t) : t := s <| upload_queue := (upload_queue s ++ [task])%list |>.
Definition count_pending (s : t) : t :=
  with_stats (fun st => st <| CacheStats.pending_uploads := u64_add (CacheStats.pending_uploads st) 1 |>) s.
Definition queue_upload (local_path remote_path : string) (sz : Z) (s : t) : t :=
  count_pending (set_pending true remote_path (send_task (UploadTask.mk local_path remote_path sz) s)).

(** *** The trait's methods *)
Definition open_error (path : string) (e : option string) : StorageError.t :=
  match e with None => StorageError.not_found path | Some e => StorageError.Io e end.
Definition io_error (e : option string) : StorageError.t :=
  StorageError.Io (default "No such file or directory (os error 2)" e).

(** The copying loop of a download: what the stream yields is written, until it ends;
    a read error is reported after what was read before. *)
Fixpoint download_loop (cp : string) (cs : list string) (end_ : option string) (total : Z) : SM t Z :=
  match cs with
  | [] =>
      match end_ with
      | Some e => sm_throw (StorageError.Other ("Failed to read from remote: " +:+ e))
      | None => mret total
      end
  | c :: cs' =>
      if String.eqb c "" then mret total
      else
        fs_op (fun e => StorageError.Other ("Failed to write to cache file: " +:+ e)) (fs_append cp c);;
        download_loop cp cs' end_ (u64_add total (str_len c))
  end.

Definition reader (path : string) (now : Z) : SM t string :=
  s ← sm_get;
  let cp := cache_path s path in
  if is_cached s path then
    sm_modify (record_access path now);;
    sm_modify (with_stats (fun st => st <| CacheStats.cache_hits := u64_add (CacheStats.cache_hits st) 1 |>));;
    fs_op (open_error path) (fs_read cp)
  else
    sm_modify (with_stats (fun st => st <| CacheStats.cache_misses := u64_add (CacheStats.cache_misses st) 1 |>));;
    fs_op (fun e => StorageError.Other ("Failed to create cache directory: " +:+ e)) fs_call;;
    stream ← remote_op (Cache.reader path);
    fs_op (fun e => StorageError.Other ("Failed to create cache file: " +:+ e)) (fs_create cp);;
    total ← download_loop cp (chunks stream) (broken stream) 0;
    sm_modify (add_to_cache path total now);;
    fs_op io_error (fs_read cp).

Definition exists_ (path : string) (s : t) : bool := is_cached s path || Cache.exists_ path (remote s).

Definition size (path : string) : SM t Z :=
  s ← sm_get;
  if is_cached s path then
    fs_op (open_error path) (fun fsys =>
      match files fsys !! cache_path s path with
      | None => (inl None, fsys)
      | Some data => let '(r, fsys) := fs_call fsys in
                     (match r with inl e => inl (Some e) | inr _ => inr (str_len data) end, fsys)
      end)
  else remote_op (Cache.size path).

Definition delete (path : string) : SM t unit :=
  sm_modify (fun s =>
    match entries s !! path with
    | None => s
    | Some e => s <| entries := base.delete path (entries s) |>
                  <| cache_size := as_u64 (cache_size s - CacheEntry.size e) |>
    end);;
  sm_modify (remove_cached_file path);;
  remote_op (Cache.delete path).

Definition copy (from to : string) (now : Z) : SM t unit :=
  s ← sm_get;
  let from_cache := cache_path s from in
  let to_cache := cache_path s to in
  if fs_exists from_cache (fs s) then
    fs_op (fun e => StorageError.Other ("Failed to copy in cache: " +:+ e)) (fs_copy from_cache to_cache);;
    s ← sm_get;
    let '(r, fsys) := fs_call (fs s) in
    sm_modify (fun s => s <| fs := fsys |>);;
    let sz := match r with inl _ => 0 | inr _ => str_len (default "" (files fsys !! to_cache)) end in
    sm_modify (add_to_cache to sz now);;
    sm_modify (queue_upload to_cache to sz)
  else remote_op (Cache.copy from to).

(** [flush]: the readings of the clock, one per round, tell how long it has waited;
    [None] is a wait that is not over. *)
Fixpoint flush (rounds : list ((t -> t) * Z)) (s : t) : option (StorageResult unit) * t :=
  match rounds with
  | [] => (None, s)
  | (others, elapsed) :: rounds' =>
      let s := others s in
      if CacheStats.pending_uploads (stats s) =? 0 then (Some (Ok tt), s)
      else if secs (CacheConfig.shutdown_timeout_secs (config s)) <=? elapsed then
        (Some (Err (StorageError.timeout "Cache flush timeout - uploads still pending")), s)
      else flush rounds' s
  end.

(** *** The upload workers *)
(** [?] on a [std::io::Error] makes it [StorageError::Io]. *)
Definition io_op {A} (op : R -> (string + A) * R) : SM t A := fun s =>
  let '(r, rem) := op (remote s) in
  (match r with inl e => Err (StorageError.Io e) | inr a => Ok a end, s <| remote := rem |>).

(** The copying loop of an upload; [cs] is the file in the pieces its reads yield. *)
Fixpoint upload_loop (w : Writer) (cs : list string) : SM t Writer :=
  match cs with
  | [] => mret w
  | c :: cs' => w ← io_op (write_all w c); upload_loop w cs'
  end.

(** [file.read] fills the 64 KiB buffer. *)
Definition BUFFER_SIZE : nat := Z.to_nat (64 * 1024).
Fixpoint pieces (fuel : nat) (data : string) : list string :=
  match fuel with
  | O => []
  | S fuel' =>
      if String.eqb data "" then []
      else String.substring 0 BUFFER_SIZE data ::
           pieces fuel' (String.substring BUFFER_SIZE (String.length data - BUFFER_SIZE) data)
  end.

Definition upload_single_file (task : UploadTask.t) (delete_after_upload : bool) : SM t unit :=
  data ← fs_op (fun e => StorageError.Other ("Failed to open cached file: " +:+
                 default "No such file or directory (os error 2)" e)) (fs_read (UploadTask.local_path task));
  w ← remote_op (writer (UploadTask.remote_path task));
  w ← upload_loop w (pieces (S (String.length data)) data);
  io_op (flush_writer w);;
  if delete_after_upload then sm_modify (fun s => s <| fs := (fs_remove (UploadTask.local_path task) (fs s)).2 |>)
  else mret tt.

(** What a worker records after an upload. *)
Definition upload_finished (task : UploadTask.t) (ok : bool) (st : CacheStats.t) : CacheStats.t :=
  let st := if ok then st <| CacheStats.uploads_completed := u64_add (CacheStats.uploads_completed st) 1 |>
                          <| CacheStats.bytes_uploaded := u64_add (CacheStats.bytes_uploaded st) (UploadTask.size task) |>
            else st <| CacheStats.uploads_failed := u64_add (CacheStats.uploads_failed st) 1 |> in
  st <| CacheStats.pending_uploads := saturating_sub (CacheStats.pending_uploads st) 1 |>.

(** One round of [run_upload_worker]: [true] when the worker goes on.  With no task
    the receive times out. *)
Definition worker_round (s : t) : bool * t :=
  match upload_queue s with
  | [] => (shutdown s =? 0, s)
  | task :: rest =>
      let s := s <| upload_queue := rest |> in
      if negb (shutdown s =? 0) then (false, s)
      else
        let '(r, s) := upload_single_file task (CacheConfig.delete_after_upload (config s)) s in
        let s := set_pending false (UploadTask.remote_path task) s in
        (true, with_stats (upload_finished task (is_Ok r)) s)
  end.

(** [Drop]: shutdown is signalled, then pending uploads are awaited. *)
Definition drop (rounds : list ((t -> t) * Z)) (s : t) : option (StorageResult unit) * t :=
  flush rounds (s <| shutdown := 1 |>).

End Ops.
Arguments t : clear implicits.
End CachedStorage.

(** ** [CachedWriter]

    [buffered] is what the [BufWriter] holds back. *)
Module CachedWriter.
Section Ops.
Context {R : Type} `{StorageOps R}.
Import CachedStorage.

Record t := mk { buffered : string; local_path : string; remote_path : string; max_buffer_size : Z;
                 uploaded : bool; flushed : bool }.
#[global] Instance t_eta : Settable t := fun r =>
  mk (buffered r) (local_path r) (remote_path r) (max_buffer_size r) (uploaded r) (flushed r).

(** The capacity of the [BufWriter]. *)
Definition CAPACITY : Z := 64 * 1024.

(** [CachedStorage::writer], with [CachedWriter::new]. *)
Definition writer (path : string) : SM (CachedStorage.t R) t :=
  fs_op (fun e => StorageError.Other ("Failed to create cache directory: " +:+ e)) fs_call;;
  s ← sm_get;
  let cp := cache_path s path in
  fs_op (fun e => StorageError.Other ("Failed to create cache file " +:+ cp +:+ ": " +:+ e)) (fs_create cp);;
  mret (mk "" cp path (CacheConfig.upload_buffer_size (config s)) false false).

(** An operation of the writer on its own fields and the file system; errors are
    [std::io::Error]s. *)
Definition W (A : Type) : Type := t * CachedStorage.t R -> (string + A) * (t * CachedStorage.t R).
#[global] Instance W_ret : MRet W := fun A a s => (inr a, s).
#[global] Instance W_bind : MBind W := fun A B f m s =>
  match m s with (inl e, s') => (inl e, s') | (inr a, s') => f a s' end.

(** [BufWriter::flush]: what is held back goes to the file. *)
Definition flush_buf : W unit := fun '(w, s) =>
  if String.eqb (buffered w) "" then (inr tt, (w, s))
  else
    match fs_append (local_path w) (buffered w) (fs s) with
    | (inl e, fsys) => (inl e, (w, s <| fs := fsys |>))
    | (inr _, fsys) => (inr tt, (w <| buffered := "" |>, s <| fs := fsys |>))
    end.

(** [flush_buf] under a condition on the writer. *)
Definition flush_if (c : t -> bool) : W unit := fun ws => if c ws.1 then flush_buf ws else (inr tt, ws).

(** Data that are not held back. *)
Definition write_through (data : string) : W Z := fun '(w, s) =>
  match fs_append (local_path w) data (fs s) with
  | (inl e, fsys) => (inl e, (w, s <| fs := fsys |>))
  | (inr _, fsys) => (inr (str_len data), (w, s <| fs := fsys |>))
  end.
Definition hold_back (data : string) : W Z := fun '(w, s) =>
  (inr (str_len data), (w <| buffered := buffered w +:+ data |>, s)).

(** [BufWriter::write]: what does not fit is made room for, large data go to the file. *)
Definition buf_write (data : string) : W Z :=
  flush_if (fun w => CAPACITY <? str_len (buffered w) + str_len data);;
  (if CAPACITY <=? str_len data then write_through data else hold_back data).

Definition write (data : string) : W Z :=
  written ← buf_write data;
  flush_if (fun w => max_buffer_size w <? str_len (buffered w));;
  mret written.

(** The task is sent with the size of the file. *)
Definition send_upload : W unit := fun '(w, s) =>
  let '(r, fsys) := fs_call (fs s) in
  let sz := match r with inl _ => 0 | inr _ => str_len (default "" (files fsys !! local_path w)) end in
  (inr tt, (w <| uploaded := true |>, send_task (UploadTask.mk (local_path w) (remote_path w) sz) (s <| fs := fsys |>))).

(** [m] unless the writer satisfies [c]. *)
Definition unless (c : t -> bool) (m : W unit) : W unit := fun ws => if c ws.1 then (inr tt, ws) else m ws.

Definition queue_upload : W unit := unless uploaded (flush_buf;; send_upload).

(** [let _ = ...]. *)
Definition ignore {A} (m : W A) : W unit := fun s => (inr tt, (m s).2).
Definition set_flushed : W unit := fun '(w, s) => (inr tt, (w <| flushed := true |>, s)).

Definition flush : W unit := flush_buf;; unless flushed (ignore queue_upload;; set_flushed).

(** After [Drop], the [BufWriter] is dropped, which flushes it. *)
Definition drop : W unit :=
  unless flushed (ignore flush);; unless uploaded (ignore queue_upload);; ignore flush_buf.
End Ops.
End CachedWriter.
