(* ===== verification/CacheLaws.v ===== *)
(** * What the cached storage guarantees

    Eviction follows the policy and ends; the recorded size never falls below the size
    of the entries; a download is served from then on; and where these break: a
    download that fails halfway, paths with the same cache file, files that do not fit,
    uploads that nobody waits for. *)
From S2P Require Import Prelude Storage Cache.
Local Open Scope string_scope.
Local Open Scope Z_scope.

(** ** Least elements *)
Section MinByKey.
Context {A : Type} (key : A -> Z).

Lemma min_by_key_elem l x : min_by_key key l = Some x -> x ∈ l.
Proof.
  revert x. induction l as [|y l IH]; cbn; intros x; [done|].
  destruct (min_by_key key l) as [z|]; [|intros [= ->]; left].
  destruct (_ <=? _); intros [= <-]; [left|right; by apply IH].
Qed.

Lemma min_by_key_least l x y : min_by_key key l = Some x -> y ∈ l -> key x <= key y.
Proof.
  revert x. induction l as [|z l IH]; cbn; intros x; [done|].
  destruct (min_by_key key l) as [m|] eqn:E.
  - destruct (Z.leb_spec (key z) (key m)); intros [= <-] [->|Hy]%elem_of_cons; try lia;
      specialize (IH m eq_refl Hy); lia.
  - intros [= <-] [->|Hy]%elem_of_cons; [lia|]. by destruct l; cbn in E; [apply elem_of_nil in Hy|destruct (min_by_key key l); try destruct (_ <=? _)].
Qed.

Lemma min_by_key_None l : min_by_key key l = None -> l = [].
Proof. destruct l as [|x l]; cbn; [done|]. destruct (min_by_key key l); [by destruct (_ <=? _)|done]. Qed.
End MinByKey.

(** The candidate for eviction is an entry of least age or use, as the policy says. *)
Theorem eviction_candidate_least entries policy p n :
  CacheEntryMeta.select_eviction_candidate entries policy = Some (p, n) ->
  exists e, e ∈ entries /\ CacheEntryMeta.path e = p /\ CacheEntryMeta.size e = n /\
    forall e', e' ∈ entries ->
      match policy with
      | EvictionPolicy.Lru => CacheEntryMeta.last_accessed e <= CacheEntryMeta.last_accessed e'
      | EvictionPolicy.Lfu => CacheEntryMeta.access_count e <= CacheEntryMeta.access_count e'
      | EvictionPolicy.Fifo => CacheEntryMeta.created_at e <= CacheEntryMeta.created_at e'
      end.
Proof.
  destruct entries as [|x l]; [done|]. unfold CacheEntryMeta.select_eviction_candidate. set (es := x :: l).
  destruct policy; intros (e & E & [= -> ->])%fmap_Some; exists e;
    (split; [by eapply min_by_key_elem|]); do 2 (split; [done|]);
    intros e' He'; exact (min_by_key_least _ _ _ _ E He').
Qed.

(** ** Sizes *)
Section Cache.
Context {R : Type} `{StorageOps R}.
Import CachedStorage.
Context (iter_order : gmap string CacheEntry.t -> list (string * CacheEntry.t)).
Context (iter_perm : forall es, iter_order es ≡ₚ map_to_list es).
Implicit Types (s : CachedStorage.t R) (es : gmap string CacheEntry.t).

Abbreviation evict := (evict iter_order).
Abbreviation add_to_cache := (add_to_cache iter_order).

Definition entries_total es : Z := map_fold (fun _ e acc => CacheEntry.size e + acc) 0 es.

Lemma entries_total_insert es p e : es !! p = None ->
  entries_total (<[p := e]> es) = CacheEntry.size e + entries_total es.
Proof. intros Hp. unfold entries_total. rewrite map_fold_insert_L; [done| |done]. intros. lia. Qed.

Lemma entries_total_delete es p e : es !! p = Some e ->
  entries_total es = CacheEntry.size e + entries_total (base.delete p es).
Proof.
  intros Hp. rewrite <-(insert_delete_id es p e Hp) at 1. apply entries_total_insert, lookup_delete_eq.
Qed.

(** Sizes of entries are lengths of files. *)
Definition sizes_ok es : Prop := map_Forall (fun _ e => 0 <= CacheEntry.size e) es.

Lemma entries_total_nonneg es : sizes_ok es -> 0 <= entries_total es.
Proof.
  unfold sizes_ok. induction es as [|p e es Hp IH] using map_ind; [done|].
  intros [He Hes]%map_Forall_insert; [|done]. rewrite entries_total_insert by done. specialize (IH Hes). lia.
Qed.

Lemma entries_total_le es p e : sizes_ok es -> es !! p = Some e -> CacheEntry.size e <= entries_total es.
Proof.
  intros Hes Hp. rewrite (entries_total_delete es p e Hp).
  pose proof (entries_total_nonneg (base.delete p es) (map_Forall_delete _ _ _ Hes)). lia.
Qed.

(** The recorded size covers the entries. *)
Record accounted s : Prop := {
  acc_sizes : sizes_ok (entries s);
  acc_total : entries_total (entries s) <= cache_size s;
  acc_u64 : cache_size s < u64_mod }.

(** ** Eviction *)
Lemma evict_candidate_elem p es path : evict_candidate iter_order p es = Some path ->
  exists e, es !! path = Some e /\ CacheEntry.pending_upload e = false /\
    forall path' e', es !! path' = Some e' -> CacheEntry.pending_upload e' = false -> policy_key p e <= policy_key p e'.
Proof.
  unfold evict_candidate. intros ([path0 e] & E & ->)%fmap_Some. exists e.
  pose proof (min_by_key_elem _ _ _ E) as Hin. apply list_elem_of_filter in Hin as [Hp Hin].
  rewrite iter_perm in Hin. apply elem_of_map_to_list in Hin. split_and!; [done|done|].
  intros path' e' He' Hp'.
  apply (min_by_key_least _ _ _ (path', e') E). apply list_elem_of_filter. split; [done|].
  rewrite iter_perm. by apply elem_of_map_to_list.
Qed.

Lemma evict_candidate_None p es : evict_candidate iter_order p es = None ->
  forall path e, es !! path = Some e -> CacheEntry.pending_upload e = true.
Proof.
  unfold evict_candidate. intros E%fmap_None%min_by_key_None path e He.
  destruct (CacheEntry.pending_upload e) eqn:Ep; [done|]. exfalso.
  assert ((path, e) ∈ filter (fun '(_, e) => CacheEntry.pending_upload e = false) (iter_order es)) as Hin.
  { apply list_elem_of_filter. split; [done|]. rewrite iter_perm. by apply elem_of_map_to_list. }
  rewrite E in Hin. by apply elem_of_nil in Hin.
Qed.

Lemma remove_cached_file_eq path s :
  exists fsys, remove_cached_file path s = s <| fs := fsys |> /\
    (outcomes (fs s) = [] -> outcomes fsys = [] /\ files fsys = base.delete (cache_path s path) (files (fs s))).
Proof.
  unfold remove_cached_file, fs_exists. case_bool_decide as Hf.
  - eexists. split; [done|]. intros Ho. unfold fs_remove, next_outcome. rewrite Ho. done.
  - exists (fs s). destruct s. split; [done|]. cbn. intros ->. split; [done|].
    rewrite delete_id; [done|]. by apply eq_None_not_Some.
Qed.

(** What one round of the loop leaves. *)
Lemma evict_one_eq path e s :
  config (evict_one path e s) = config s /\ entries (evict_one path e s) = base.delete path (entries s) /\
  cache_size (evict_one path e s) = as_u64 (cache_size s - CacheEntry.size e) /\
  (outcomes (fs s) = [] -> outcomes (fs (evict_one path e s)) = [] /\
     files (fs (evict_one path e s)) = base.delete (cache_path s path) (files (fs s))).
Proof.
  unfold evict_one. destruct (remove_cached_file_eq path (s <| entries := base.delete path (entries s) |>)) as (fsys & -> & Hf).
  unfold with_stats. cbn. split_and!; try done.
Qed.

(** The loop, round by round. *)
Inductive evicts (target : Z) (p : EvictionPolicy.t) : CachedStorage.t R -> CachedStorage.t R -> Prop :=
| evicts_done s : cache_size s <= target -> evicts target p s s
| evicts_stuck s : (forall path e, entries s !! path = Some e -> CacheEntry.pending_upload e = true) -> evicts target p s s
| evicts_one s s' path e : entries s !! path = Some e -> CacheEntry.pending_upload e = false ->
    target < cache_size s ->
    (forall path' e', entries s !! path' = Some e' -> CacheEntry.pending_upload e' = false -> policy_key p e <= policy_key p e') ->
    evicts target p (evict_one path e s) s' -> evicts target p s s'.

Lemma evict_loop_evicts fuel target s : (base.size (entries s) < fuel)%nat ->
  evicts target (CacheConfig.eviction_policy (config s)) s (evict_loop iter_order fuel target s).
Proof.
  revert s. induction fuel as [|fuel IH]; intros s Hf; [lia|]. cbn.
  destruct (Z.leb_spec (cache_size s) target); [by constructor|].
  case_bool_decide as He; [apply evicts_stuck; intros path e; by rewrite He, lookup_empty|].
  destruct (evict_candidate iter_order _ (entries s)) as [path|] eqn:Ec;
    [|apply evicts_stuck; by apply (evict_candidate_None _ _ Ec)].
  destruct (evict_candidate_elem _ _ _ Ec) as (e & He' & Hp & Hmin). rewrite He'.
  destruct (evict_one_eq path e s) as (Hcfg & Hent & _).
  eapply evicts_one; [done..|]. rewrite <-Hcfg. apply IH. rewrite Hent.
  pose proof (map_size_delete_Some path (entries s)). rewrite map_size_delete_Some by eauto.
  assert (base.size (entries s) <> 0)%nat by (rewrite map_size_ne_0_lookup; eauto). lia.
Qed.

Lemma evict_evicts s :
  evicts (nine_tenths (CacheConfig.max_cache_size (config s))) (CacheConfig.eviction_policy (config s)) s (evict s).
Proof. apply evict_loop_evicts. lia. Qed.

Lemma evicts_sub target p s s' : evicts target p s s' -> entries s' ⊆ entries s.
Proof.
  induction 1 as [| |s s' path e He Hp Ht Hm Hs IH]; [done|done|]. etrans; [exact IH|].
  destruct (evict_one_eq path e s) as (_ & -> & _). apply delete_subseteq.
Qed.

Lemma evicts_end target p s s' : evicts target p s s' ->
  cache_size s' <= target \/ forall path e, entries s' !! path = Some e -> CacheEntry.pending_upload e = true.
Proof. induction 1; eauto. Qed.

(** Eviction ends with the recorded size at most nine tenths of the limit, or with
    nothing left to evict; it removes no entry whose upload is pending, and what it
    removes was, under the policy, at most as recent (or as often used, or as young)
    as everything it leaves. *)
Theorem eviction_follows_policy s :
  let p := CacheConfig.eviction_policy (config s) in
  (cache_size (evict s) <= nine_tenths (CacheConfig.max_cache_size (config s)) \/
   forall path e, entries (evict s) !! path = Some e -> CacheEntry.pending_upload e = true) /\
  entries (evict s) ⊆ entries s /\
  forall path e, entries s !! path = Some e -> entries (evict s) !! path = None ->
    CacheEntry.pending_upload e = false /\
    forall path' e', entries (evict s) !! path' = Some e' -> CacheEntry.pending_upload e' = false ->
      policy_key p e <= policy_key p e'.
Proof.
  intros p. subst p. pose proof (evict_evicts s) as Hev. revert Hev.
  generalize (evict s) as s', (nine_tenths (CacheConfig.max_cache_size (config s))) as target,
    (CacheConfig.eviction_policy (config s)) as p. intros s' target p Hev.
  pose proof (evicts_sub _ _ _ _ Hev) as Hsub. split; [|split; [done|]].
  - by eapply evicts_end.
  - induction Hev as [| |s s' q eq_ He Hp Ht Hm Hs IH]; [congruence|congruence|].
    intros path e Hpath Hgone. destruct (evict_one_eq q eq_ s) as (_ & Hent & _).
    destruct (decide (path = q)) as [->|Hne].
    + assert (e = eq_) as -> by congruence. split; [done|]. intros path' e' He' Hp'.
      apply (Hm path'); [|done]. by eapply lookup_weaken.
    + apply (IH (evicts_sub _ _ _ _ Hs) path); [|done]. by rewrite Hent, lookup_delete_ne.
Qed.
(** ** Accounting *)

(** Operations that touch neither the entries nor their size. *)
Definition same_books s s' : Prop :=
  entries s' = entries s /\ cache_size s' = cache_size s /\ config s' = config s.

#[local] Instance same_books_preorder : PreOrder same_books.
Proof. split; [done|]. intros ? ? ? (? & ? & ?) (? & ? & ?). unfold same_books. split_and!; congruence. Qed.

Lemma accounted_same s s' : same_books s s' -> accounted s -> accounted s'.
Proof. intros (He & Hc & _) [? ? ?]. split; by rewrite ?He, ?Hc. Qed.

Lemma fs_op_books {A E} (err : E -> StorageError.t) op s : same_books s (fs_op (A := A) err op s).2.
Proof. unfold fs_op. by destruct (op (fs s)) as [[|] ?]. Qed.

Lemma remote_op_books {A} (op : R -> StorageResult A * R) s : same_books s (remote_op op s).2.
Proof. unfold remote_op. by destruct (op (remote s)). Qed.

Lemma io_op_books {A} (op : R -> (string + A) * R) s : same_books s (io_op op s).2.
Proof. unfold io_op. by destruct (op (remote s)). Qed.

Lemma bind_books {A B} (m : SM (CachedStorage.t R) A) (k : A -> SM (CachedStorage.t R) B) s :
  same_books s (m s).2 -> (forall a s1, m s = (Ok a, s1) -> same_books s1 (k a s1).2) ->
  same_books s ((m ≫= k) s).2.
Proof.
  unfold mbind, SM_bind. destruct (m s) as [[a|e|msg] s1]; cbn; [|done..].
  intros H1 H2. etrans; [exact H1|by apply H2].
Qed.

Lemma upload_loop_books w cs s : same_books s (upload_loop w cs s).2.
Proof.
  revert w s. induction cs as [|c cs IH]; intros w s; [done|]. apply bind_books; [apply io_op_books|]. intros; apply IH.
Qed.

Lemma upload_single_file_books task b s : same_books s (upload_single_file task b s).2.
Proof.
  unfold upload_single_file. apply bind_books; [apply fs_op_books|]. intros data s1 _.
  apply bind_books; [apply remote_op_books|]. intros w s2 _.
  apply bind_books; [apply upload_loop_books|]. intros w' s3 _.
  apply bind_books; [apply io_op_books|]. intros _ s4 _. by destruct b.
Qed.

(** Changing an entry but for its size. *)
Lemma accounted_alter s path e e' : accounted s -> entries s !! path = Some e ->
  CacheEntry.size e' = CacheEntry.size e -> accounted (s <| entries := <[path := e']> (entries s) |>).
Proof.
  intros [Hs Ht Hu] He Hz. split; cbn; [| |done].
  - apply map_Forall_insert_2; [|done]. rewrite Hz. exact (Hs _ _ He).
  - rewrite <-insert_delete_eq, entries_total_insert, Hz by apply lookup_delete_eq.
    by rewrite <-(entries_total_delete _ _ _ He).
Qed.

Lemma record_access_accounted path now s : accounted s -> accounted (record_access path now s).
Proof. intros Hs. unfold record_access. destruct (entries s !! path) eqn:E; [|done]. by eapply accounted_alter. Qed.

Lemma set_pending_accounted b path s : accounted s -> accounted (set_pending b path s).
Proof. intros Hs. unfold set_pending. destruct (entries s !! path) eqn:E; [|done]. by eapply accounted_alter. Qed.

(** Removing an entry with its size. *)
Lemma accounted_remove s s' path e : accounted s -> entries s !! path = Some e ->
  entries s' = base.delete path (entries s) -> cache_size s' = as_u64 (cache_size s - CacheEntry.size e) ->
  accounted s' /\ cache_size s' = cache_size s - CacheEntry.size e.
Proof.
  intros [Hs Ht Hu] He Hent Hsz. pose proof (entries_total_le _ _ _ Hs He). pose proof (Hs _ _ He) as Hpos; cbn in Hpos.
  rewrite as_u64_id in Hsz by (split; lia). rewrite (entries_total_delete _ _ _ He) in Ht. split; [|done].
  split; rewrite ?Hent, ?Hsz; [by apply map_Forall_delete|lia|lia].
Qed.

Lemma evicts_accounted target p s s' : evicts target p s s' -> accounted s -> accounted s' /\ cache_size s' <= cache_size s.
Proof.
  induction 1 as [| |s s' path e He Hp Ht Hm Hs IH]; [done|done|]. intros Hacc.
  destruct (evict_one_eq path e s) as (_ & Hent & Hsz & _).
  destruct (accounted_remove _ _ _ _ Hacc He Hent Hsz) as [Ha Hc]. destruct (IH Ha). split; [done|].
  pose proof (acc_sizes _ Hacc _ _ He). cbn in *. lia.
Qed.

(** The books after [add_to_cache], before a possible eviction. *)
Lemma add_to_cache_cases path sz now s :
  exists s1, entries s1 = <[path := CacheEntry.new (cache_path s path) sz now]> (entries s) /\
    cache_size s1 = u64_add (cache_size s) sz /\ config s1 = config s /\ fs s1 = fs s /\ remote s1 = remote s /\
    upload_queue s1 = upload_queue s /\ shutdown s1 = shutdown s /\
    add_to_cache path sz now s =
      if CacheConfig.max_cache_size (config s) <? u64_add (cache_size s) sz then evict s1 else s1.
Proof.
  unfold CachedStorage.add_to_cache. cbv zeta. set (s1 := with_stats _ _). exists s1. split_and!; reflexivity.
Qed.

Lemma accounted_add s s1 path e : accounted s -> 0 <= CacheEntry.size e ->
  cache_size s + CacheEntry.size e < u64_mod -> entries s1 = <[path := e]> (entries s) ->
  cache_size s1 = u64_add (cache_size s) (CacheEntry.size e) -> accounted s1.
Proof.
  intros [Hs Ht Hu] H0 Hsz Hent Hc. pose proof (entries_total_nonneg _ Hs).
  rewrite u64_add_small in Hc by lia. split; rewrite ?Hent, ?Hc; [by apply map_Forall_insert_2| |lia].
  rewrite <-insert_delete_eq, entries_total_insert by apply lookup_delete_eq.
  destruct (entries s !! path) as [e0|] eqn:E; [|rewrite delete_id by done; lia].
  rewrite (entries_total_delete _ _ _ E) in Ht. pose proof (Hs _ _ E) as He0; cbn in He0. lia.
Qed.

Lemma add_to_cache_accounted path sz now s : accounted s -> 0 <= sz -> cache_size s + sz < u64_mod ->
  accounted (add_to_cache path sz now s).
Proof.
  intros Hs H0 Hsz. destruct (add_to_cache_cases path sz now s) as (s1 & He & Hc & _ & _ & _ & _ & _ & ->).
  assert (accounted s1) by (eapply (accounted_add s s1 path); [done| | |exact He|exact Hc]; done).
  destruct (_ <? _); [|done]. eapply evicts_accounted; [|done]. apply evict_evicts.
Qed.

(** *** Downloads *)
Fixpoint stream_len (cs : list string) : Z :=
  match cs with [] => 0 | c :: cs' => str_len c + stream_len cs' end.

Lemma stream_len_nonneg cs : 0 <= stream_len cs.
Proof. induction cs as [|c cs IH]; cbn; [done|]. pose proof (str_len_nonneg c). lia. Qed.

Lemma download_loop_books cp cs end_ total s : same_books s (download_loop cp cs end_ total s).2.
Proof.
  revert total s. induction cs as [|c cs IH]; intros total s; cbn; [by destruct end_|].
  destruct (String.eqb c ""); [done|]. apply bind_books; [apply fs_op_books|]. intros; apply IH.
Qed.

Lemma download_loop_total cp cs end_ total s n s' :
  download_loop cp cs end_ total s = (Ok n, s') -> 0 <= total -> total + stream_len cs < u64_mod ->
  total <= n <= total + stream_len cs.
Proof.
  revert total s. induction cs as [|c cs IH]; intros total s; cbn.
  { destruct end_; [done|]. intros [= <- <-]. lia. }
  pose proof (stream_len_nonneg cs). pose proof (str_len_nonneg c).
  destruct (String.eqb c ""); [intros [= <- <-]; lia|].
  unfold mbind, SM_bind. destruct (fs_op _ _ s) as [[a|e|m] s1]; [|done..]. intros E Hpos Hlt.
  rewrite u64_add_small in E by lia. apply IH in E; lia.
Qed.

(** The length of the object behind a path, when its stream can be opened. *)
Definition remote_len (path : string) (r : R) : Z :=
  match (Cache.reader path r).1 with Ok st => stream_len (chunks st) | _ => 0 end.

(** A predicate kept by each part is kept by the whole. *)
Definition keeps {A} (I : CachedStorage.t R -> Prop) (m : SM (CachedStorage.t R) A) : Prop := forall s, I s -> I (m s).2.

Lemma keeps_bind {A B} I (m : SM (CachedStorage.t R) A) (k : A -> SM (CachedStorage.t R) B) :
  keeps I m -> (forall a, keeps I (k a)) -> keeps I (m ≫= k).
Proof.
  intros Hm Hk s Hs. unfold mbind, SM_bind. specialize (Hm s Hs). destruct (m s) as [[a|e|msg] s1]; [|done..].
  by apply Hk.
Qed.

Lemma keeps_fs_op {A E} (err : E -> StorageError.t) (op : FileSystem -> (E + A) * FileSystem) : keeps accounted (fs_op err op).
Proof. intros s. apply accounted_same, fs_op_books. Qed.
Lemma keeps_remote_op {A} (op : R -> StorageResult A * R) : keeps accounted (remote_op op).
Proof. intros s. apply accounted_same, remote_op_books. Qed.
Lemma keeps_modify f : (forall s, accounted s -> accounted (f s)) -> keeps accounted (sm_modify f).
Proof. intros Hf s. apply Hf. Qed.
Lemma keeps_with_stats f s : accounted s -> accounted (with_stats f s).
Proof. by apply accounted_same. Qed.

Lemma send_task_accounted task s : accounted s -> accounted (send_task task s).
Proof. by apply accounted_same. Qed.

(** The part of a cache miss up to the end of the download. *)
Definition download (path cp : string) : SM (CachedStorage.t R) Z :=
  fs_op (fun e => StorageError.Other ("Failed to create cache directory: " +:+ e)) fs_call;;
  stream ← remote_op (Cache.reader path);
  fs_op (fun e => StorageError.Other ("Failed to create cache file: " +:+ e)) (fs_create cp);;
  download_loop cp (chunks stream) (broken stream) 0.

Lemma download_books path cp s : same_books s (download path cp s).2.
Proof.
  unfold download. apply bind_books; [apply fs_op_books|]. intros _ s1 _.
  apply bind_books; [apply remote_op_books|]. intros stream s2 _.
  apply bind_books; [apply fs_op_books|]. intros _ s3 _. apply download_loop_books.
Qed.

Lemma download_total path cp s n s' : download path cp s = (Ok n, s') -> remote_len path (remote s) < u64_mod ->
  0 <= n <= remote_len path (remote s).
Proof.
  unfold download, remote_len, fs_op, remote_op, mbind, SM_bind.
  destruct (fs_call (fs s)) as [[|] fsys]; [done|]. cbn.
  destruct (Cache.reader path (remote s)) as [[st| |] r]; [|done..]. cbn.
  destruct (fs_create cp fsys) as [[|] fsys']; [done|]. intros E Hlt.
  apply download_loop_total in E; lia.
Qed.

Lemma reader_miss path now s : is_cached s path = false ->
  reader iter_order path now s =
    (total ← download path (cache_path s path);
     sm_modify (add_to_cache path total now);; fs_op io_error (fs_read (cache_path s path)))
    (with_stats (fun st => st <| CacheStats.cache_misses := u64_add (CacheStats.cache_misses st) 1 |>) s).
Proof.
  intros Hc. unfold reader, download, sm_get, sm_modify, mbind, SM_bind. rewrite Hc.
  set (s1 := with_stats _ s). destruct (fs_op _ fs_call s1) as [[|?|?] s2]; [|done..].
  destruct (remote_op _ s2) as [[|?|?] s3]; [|done..]. by destruct (fs_op _ (fs_create _) s3) as [[|?|?] s4].
Qed.

Lemma reader_accounted path now s : accounted s -> cache_size s + remote_len path (remote s) < u64_mod ->
  accounted (reader iter_order path now s).2.
Proof.
  intros Hs Hlen. destruct (is_cached s path) eqn:Hc.
  { unfold reader, sm_get, mbind at 1, SM_bind. rewrite Hc. unfold sm_modify.
    apply keeps_fs_op. apply keeps_with_stats. by apply record_access_accounted. }
  rewrite reader_miss by done. unfold mbind at 1, SM_bind. set (s1 := with_stats _ s).
  assert (accounted s1) as Hs1 by by apply keeps_with_stats.
  pose proof (download_books path (cache_path s path) s1) as B.
  destruct (download _ _ s1) as [[n|e|m] s2] eqn:E; cbn in B.
  2,3: by apply (accounted_same s1 s2).
  pose proof (acc_total _ Hs). pose proof (entries_total_nonneg _ (acc_sizes _ Hs)).
  apply download_total in E; [|cbn; lia]. cbn in E. apply keeps_fs_op. apply add_to_cache_accounted; [|lia|].
  - by apply (accounted_same s1).
  - destruct B as (_ & -> & _). cbn. lia.
Qed.

Lemma delete_accounted path s : accounted s -> accounted (delete path s).2.
Proof.
  apply keeps_bind; [|intros _; apply keeps_bind; [|intros _; apply keeps_remote_op]]; apply keeps_modify; intros s1 Hs.
  - destruct (entries s1 !! path) as [e|] eqn:E; [|done]. by eapply accounted_remove.
  - destruct (remove_cached_file_eq path s1) as (fsys & -> & _). by apply (accounted_same s1).
Qed.

Lemma copy_accounted from to now s : accounted s ->
  cache_size s + str_len (default "" (files (fs s) !! cache_path s from)) < u64_mod ->
  accounted (copy iter_order from to now s).2.
Proof.
  intros Hs Hlen. unfold copy, sm_get. unfold mbind at 1, SM_bind. destruct (fs_exists _ _); [|by apply keeps_remote_op].
  unfold mbind at 1. pose proof (fs_op_books (A := unit) (fun e => StorageError.Other ("Failed to copy in cache: " +:+ e))
    (fs_copy (cache_path s from) (cache_path s to)) s) as B.
  destruct (fs_op _ _ s) as [[a|e|m] s1] eqn:E; cbn in B; [|by apply (accounted_same s)..].
  assert (files (fs s1) !! cache_path s to = Some (default "" (files (fs s) !! cache_path s from))) as Hf.
  { unfold fs_op, fs_copy in E. destruct (next_outcome (fs s)) as [[|] fsys]; [|done]. injection E as _ <-.
    cbn. apply lookup_insert_eq. }
  unfold mbind at 1, SM_bind. destruct (fs_call (fs s1)) as [r fsys] eqn:Ec.
  assert (files fsys = files (fs s1)) as Hfs.
  { unfold fs_call, next_outcome in Ec. by destruct (outcomes (fs s1)) as [|[|]]; simplify_eq. }
  unfold sm_modify, mbind, SM_bind. cbn -[CachedStorage.add_to_cache]. unfold queue_upload.
  apply keeps_with_stats, set_pending_accounted, send_task_accounted.
  rewrite Hfs, Hf. cbn -[CachedStorage.add_to_cache]. destruct B as (He & Hc & Hcfg).
  pose proof (str_len_nonneg (default "" (files (fs s) !! cache_path s from))).
  apply add_to_cache_accounted; [by apply (accounted_same s)|destruct r; lia|]. cbn. rewrite Hc. destruct r; lia.
Qed.

Lemma worker_round_accounted s : accounted s -> accounted (worker_round s).2.
Proof.
  intros Hs. unfold worker_round. destruct (upload_queue s) as [|task rest]; [done|].
  set (s1 := s <| upload_queue := rest |>). assert (accounted s1) as Hs1 by by apply (accounted_same s).
  destruct (negb _); [done|].
  pose proof (upload_single_file_books task (CacheConfig.delete_after_upload (config s1)) s1) as B.
  destruct (upload_single_file _ _ s1) as [r s2]. cbn in *.
  apply keeps_with_stats, set_pending_accounted. by apply (accounted_same s1 s2).
Qed.

(** What can happen to a cached storage: calls of its methods, rounds of its workers,
    and whatever leaves its books alone (writers, statistics, the remote store).  The
    recorded size must not overflow 64 bits. *)
Inductive cache_step s : CachedStorage.t R -> Prop :=
| step_reader path now : cache_size s + remote_len path (remote s) < u64_mod ->
    cache_step s (reader iter_order path now s).2
| step_delete path : cache_step s (delete path s).2
| step_copy from to now : cache_size s + str_len (default "" (files (fs s) !! cache_path s from)) < u64_mod ->
    cache_step s (copy iter_order from to now s).2
| step_worker : cache_step s (worker_round s).2
| step_other s' : same_books s s' -> cache_step s s'.

(** Invariant.  However the methods and the upload workers interleave, the
    recorded cache size is at least the sum of the sizes of the entries, so that
    eviction never stops too early. *)
Theorem cache_size_covers_entries r cfg fsys s0 s :
  new r cfg fsys = Ok s0 -> rtc cache_step s0 s -> entries_total (entries s) <= cache_size s < u64_mod.
Proof.
  intros Hnew Hrun. assert (accounted s0) as H0.
  { unfold new in Hnew. destruct (fs_call fsys) as [[|] ?]; [done|]. injection Hnew as <-. split; cbn; done. }
  assert (forall s1 s2, rtc cache_step s1 s2 -> accounted s1 -> accounted s2) as Hinv.
  { induction 1 as [|x y z Hst _ IH]; [done|]. intros Hx. apply IH.
    destruct Hst; [by apply reader_accounted|by apply delete_accounted|by apply copy_accounted|
      by apply worker_round_accounted|by apply (accounted_same x)]. }
  by destruct (Hinv _ _ Hrun H0).
Qed.

(** ** Reading through the cache *)
Lemma stream_len_joined cs : stream_len cs = str_len (joined cs).
Proof. induction cs as [|c cs IH]; [done|]. cbn. by rewrite str_len_app, IH. Qed.

(** A disk on which calls succeed. *)
Definition calm_disk s : Prop := outcomes (fs s) = [].

Lemma download_loop_calm cp cs end_ total s old : calm_disk s -> files (fs s) !! cp = Some old ->
  Forall (fun c => c <> "") cs -> 0 <= total -> total + stream_len cs < u64_mod ->
  exists s', download_loop cp cs end_ total s =
      (match end_ with
       | None => Ok (total + stream_len cs)
       | Some e => Err (StorageError.Other ("Failed to read from remote: " +:+ e))
       end, s') /\
    calm_disk s' /\ files (fs s') = <[cp := old +:+ joined cs]> (files (fs s)).
Proof.
  revert s total old. induction cs as [|c cs IH]; intros s total old Hd Hf Hne H0 Hlt.
  - exists s. cbn. rewrite string_app_nil_r, insert_id by done. split; [|done].
    destruct end_; [done|]. by rewrite Z.add_0_r.
  - inversion_clear Hne as [|? ? Hc Hcs]. cbn. pose proof (stream_len_nonneg cs). pose proof (str_len_nonneg c).
    destruct (String.eqb_spec c ""); [done|]. cbn in Hlt.
    unfold mbind, SM_bind. unfold fs_op at 1. unfold fs_append, next_outcome. rewrite Hd, Hf. cbn [default from_option id].
    rewrite u64_add_small by lia.
    destruct (IH (s <| fs := fs s <| files := <[cp := old +:+ c]> (files (fs s)) |> |>) (total + str_len c) (old +:+ c))
      as (s' & E & Hd' & Hf'); [done|cbn; apply lookup_insert_eq|done|lia|lia|].
    exists s'. split_and!; [|done|].
    + rewrite E. destruct end_; [done|]. by rewrite Z.add_assoc.
    + rewrite Hf'. cbn. by rewrite insert_insert_eq, string_app_assoc.
Qed.

Lemma download_calm path cp s st rem : calm_disk s -> Cache.reader path (remote s) = (Ok st, rem) ->
  Forall (fun c => c <> "") (chunks st) -> stream_len (chunks st) < u64_mod ->
  exists s', download path cp s =
      (match broken st with
       | None => Ok (stream_len (chunks st))
       | Some e => Err (StorageError.Other ("Failed to read from remote: " +:+ e))
       end, s') /\
    calm_disk s' /\ files (fs s') = <[cp := joined (chunks st)]> (files (fs s)).
Proof.
  intros Hd Hr Hne Hlt. unfold download, fs_op, remote_op, fs_call, fs_create, next_outcome, mbind, SM_bind.
  rewrite Hd. cbn. rewrite Hr. cbn. rewrite Hd. cbn.
  destruct (download_loop_calm cp (chunks st) (broken st) 0
    (s <| fs := fs s |> <| remote := rem |> <| fs := fs s <| files := <[cp := ""]> (files (fs s)) |> |>) "")
    as (s' & E & Hd' & Hf); [done|cbn; apply lookup_insert_eq|done|lia|lia|].
  exists s'. split_and!; [exact E|done|]. rewrite Hf. cbn. by rewrite insert_insert_eq.
Qed.

Lemma reader_hit path now s data : calm_disk s -> files (fs s) !! cache_path s path = Some data ->
  (reader iter_order path now s).1 = Ok data.
Proof.
  intros Hd Hf. unfold reader, sm_get, mbind at 1, SM_bind.
  assert (is_cached s path = true) as -> by (apply bool_decide_eq_true; rewrite Hf; eauto).
  unfold sm_modify, fs_op, mbind, SM_bind. cbn.
  assert (fs (record_access path now s) = fs s) as -> by by unfold record_access; destruct (entries s !! path).
  unfold fs_read, next_outcome. rewrite Hf, Hd. done.
Qed.

(** [path] was downloaded from [st] without error and fits into the cache. *)
Lemma read_fills path now s st rem : calm_disk s -> is_cached s path = false ->
  Cache.reader path (remote s) = (Ok st, rem) -> broken st = None -> Forall (fun c => c <> "") (chunks st) ->
  0 <= cache_size s -> CacheConfig.max_cache_size (config s) < u64_mod ->
  cache_size s + stream_len (chunks st) <= CacheConfig.max_cache_size (config s) ->
  exists s', reader iter_order path now s = (Ok (joined (chunks st)), s') /\ calm_disk s' /\
    files (fs s') !! cache_path s path = Some (joined (chunks st)) /\ config s' = config s /\
    entries s' !! path = Some (CacheEntry.new (cache_path s path) (stream_len (chunks st)) now) /\
    cache_size s' = cache_size s + stream_len (chunks st).
Proof.
  intros Hd Hc Hr Hb Hne Hpos Hmax Hfit. pose proof (stream_len_nonneg (chunks st)).
  rewrite reader_miss by done. unfold mbind at 1, SM_bind. set (s1 := with_stats _ s).
  destruct (download_calm path (cache_path s path) s1 st rem) as (s2 & E & Hd2 & Hf2); [done|done|done|lia|].
  rewrite E, Hb. pose proof (download_books path (cache_path s path) s1) as (Be & Bc & Bg). rewrite E in Be, Bc, Bg.
  cbn in Be, Bc, Bg.
  destruct (add_to_cache_cases path (stream_len (chunks st)) now s2) as (s3 & He & Hsz & Hcfg & Hfs & _ & _ & _ & Eadd).
  rewrite Bc, Bg in Eadd. rewrite Bc, u64_add_small in Hsz by lia. rewrite u64_add_small in Eadd by lia.
  destruct (Z.ltb_spec (CacheConfig.max_cache_size (config s)) (cache_size s + stream_len (chunks st))); [lia|].
  unfold sm_modify, mbind, SM_bind. rewrite Eadd.
  assert (files (fs s3) !! cache_path s path = Some (joined (chunks st))) as Hf3.
  { rewrite Hfs, Hf2. apply lookup_insert_eq. }
  assert (fs_op (A := string) io_error (fs_read (cache_path s path)) s3 = (Ok (joined (chunks st)), s3)) as ->.
  { unfold fs_op, fs_read, next_outcome. rewrite Hf3, Hfs, Hd2. rewrite <-Hfs. by destruct s3. }
  exists s3. unfold calm_disk. rewrite Hfs in *. split_and!; try done.
  - by rewrite Hcfg.
  - rewrite He. unfold cache_path. rewrite Bg. apply lookup_insert_eq.
Qed.

(** A read that misses the cache and fits returns the remote object; from then on
    the path is served from the cache with the same contents, whatever happens to the
    remote store. *)
Theorem read_through path now s st rem :
  calm_disk s -> is_cached s path = false ->
  Cache.reader path (remote s) = (Ok st, rem) -> broken st = None -> Forall (fun c => c <> "") (chunks st) ->
  0 <= cache_size s -> CacheConfig.max_cache_size (config s) < u64_mod ->
  cache_size s + stream_len (chunks st) <= CacheConfig.max_cache_size (config s) ->
  exists s', reader iter_order path now s = (Ok (joined (chunks st)), s') /\
    is_Some (entries s' !! path) /\
    forall later rem', (reader iter_order path later (s' <| remote := rem' |>)).1 = Ok (joined (chunks st)).
Proof.
  intros Hd Hc Hr Hb Hne Hpos Hmax Hfit.
  destruct (read_fills path now s st rem) as (s' & E & Hd' & Hf & Hcfg & He & _); [done..|].
  exists s'. split_and!; [done|by rewrite He|]. intros later rem'. apply reader_hit; [done|].
  unfold cache_path in *. cbn. by rewrite Hcfg.
Qed.

(** Paths whose separators are flattened to the same text share a cache file: once
    one of them has been read, the other is answered with its contents. *)
Theorem colliding_paths_share_contents path q now s st rem :
  calm_disk s -> is_cached s path = false -> flatten q = flatten path ->
  Cache.reader path (remote s) = (Ok st, rem) -> broken st = None -> Forall (fun c => c <> "") (chunks st) ->
  0 <= cache_size s -> CacheConfig.max_cache_size (config s) < u64_mod ->
  cache_size s + stream_len (chunks st) <= CacheConfig.max_cache_size (config s) ->
  (reader iter_order q now (reader iter_order path now s).2).1 = Ok (joined (chunks st)).
Proof.
  intros Hd Hc Hq Hr Hb Hne Hpos Hmax Hfit.
  destruct (read_fills path now s st rem) as (s' & -> & Hd' & Hf & Hcfg & He & _); [done..|].
  apply reader_hit; [done|]. unfold cache_path in *. cbn. by rewrite Hcfg, Hq.
Qed.

(** A download that breaks off is reported, but leaves its file behind, and the
    next read of the path succeeds with the truncated contents. *)
Theorem broken_download_served path now later s st rem e :
  calm_disk s -> is_cached s path = false ->
  Cache.reader path (remote s) = (Ok st, rem) -> broken st = Some e -> Forall (fun c => c <> "") (chunks st) ->
  stream_len (chunks st) < u64_mod ->
  exists s', reader iter_order path now s = (Err (StorageError.Other ("Failed to read from remote: " +:+ e)), s') /\
    entries s' = entries s /\ (reader iter_order path later s').1 = Ok (joined (chunks st)).
Proof.
  intros Hd Hc Hr Hb Hne Hlt. rewrite reader_miss by done. unfold mbind at 1, SM_bind. set (s1 := with_stats _ s).
  destruct (download_calm path (cache_path s path) s1 st rem) as (s2 & E & Hd2 & Hf2); [done..|].
  pose proof (download_books path (cache_path s path) s1) as (Be & _ & Bg). rewrite E, Hb in *. cbn in Be, Bg.
  exists s2. split_and!; [done|done|]. apply reader_hit; [done|]. unfold cache_path. rewrite Bg, Hf2. apply lookup_insert_eq.
Qed.

(** *** Objects that do not fit *)
Lemma evicts_calm target p s s' : evicts target p s s' -> calm_disk s ->
  calm_disk s' /\ config s' = config s /\ files (fs s') ⊆ files (fs s) /\
  forall path, is_Some (entries s !! path) -> entries s' !! path = None -> files (fs s') !! cache_path s path = None.
Proof.
  induction 1 as [s Hd|s Hd|s s' q e He Hp Ht Hm Hs IH]; intros Hc;
    [split_and!; try done; intros ? [? ?]; congruence..|].
  destruct (evict_one_eq q e s) as (Hcfg & Hent & _ & Hfs). destruct (Hfs Hc) as [Hc1 Hf1].
  destruct (IH Hc1) as (Hd' & Hcfg' & Hsub & Hgone). rewrite Hf1 in Hsub.
  split_and!; [done|congruence|etrans; [exact Hsub|apply delete_subseteq]|].
  intros path Hpath Hnone. destruct (decide (path = q)) as [->|Hne].
  - apply (lookup_weaken_None _ (base.delete (cache_path s q) (files (fs s)))); [|done]. apply lookup_delete_eq.
  - assert (cache_path s path = cache_path (evict_one q e s) path) as -> by (unfold cache_path; by rewrite Hcfg).
    apply Hgone; [|done]. by rewrite Hent, lookup_delete_ne.
Qed.

(** An object larger than nine tenths of the limit that takes the cache over its
    limit cannot be read at all: it is evicted between its download and the moment
    it is opened. *)
Theorem oversized_object_unreadable path now s st rem :
  calm_disk s -> accounted s -> is_cached s path = false ->
  Cache.reader path (remote s) = (Ok st, rem) -> broken st = None -> Forall (fun c => c <> "") (chunks st) ->
  cache_size s + stream_len (chunks st) < u64_mod ->
  CacheConfig.max_cache_size (config s) < cache_size s + stream_len (chunks st) ->
  nine_tenths (CacheConfig.max_cache_size (config s)) < stream_len (chunks st) ->
  exists s', reader iter_order path now s = (Err (StorageError.Io "No such file or directory (os error 2)"), s') /\
    entries s' !! path = None.
Proof.
  intros Hd Hacc Hc Hr Hb Hne Hlt Hover Hbig. pose proof (stream_len_nonneg (chunks st)).
  pose proof (entries_total_nonneg _ (acc_sizes _ Hacc)). pose proof (acc_total _ Hacc).
  rewrite reader_miss by done. unfold mbind at 1, SM_bind. set (s1 := with_stats _ s).
  destruct (download_calm path (cache_path s path) s1 st rem) as (s2 & E & Hd2 & Hf2); [done|done|done|lia|].
  rewrite E, Hb. pose proof (download_books path (cache_path s path) s1) as (Be & Bc & Bg). rewrite E in Be, Bc, Bg.
  cbn in Be, Bc, Bg.
  destruct (add_to_cache_cases path (stream_len (chunks st)) now s2) as (s3 & He & Hsz & Hcfg & Hfs & _ & _ & _ & Eadd).
  rewrite Bc, Bg, u64_add_small in Eadd by lia. destruct (Z.ltb_spec (CacheConfig.max_cache_size (config s)) (cache_size s + stream_len (chunks st))); [|lia].
  assert (accounted s3) as Hacc3.
  { eapply (accounted_add s2 s3 path); [|..|exact He|exact Hsz]; [by apply (accounted_same s)|cbn; lia|cbn; lia]. }
  pose proof (evict_evicts s3) as Hev. rewrite Hcfg, Bg in Hev.
  destruct (evicts_calm _ _ _ _ Hev) as (Hd4 & Hcfg4 & _ & Hgone); [by unfold calm_disk; rewrite Hfs|].
  destruct (evicts_accounted _ _ _ _ Hev Hacc3) as [[Hs4 Ht4 _] _].
  assert (entries (evict s3) !! path = None) as Hnone.
  { destruct (entries (evict s3) !! path) as [e|] eqn:E4; [exfalso|done].
    pose proof (lookup_weaken _ _ _ _ E4 (evicts_sub _ _ _ _ Hev)) as E3. rewrite He, lookup_insert_eq in E3.
    injection E3 as <-. pose proof (entries_total_le _ _ _ Hs4 E4) as Hle. cbn [CacheEntry.size CacheEntry.new] in Hle.
    destruct (evicts_end _ _ _ _ Hev) as [Hend|Hend]; [lia|]. by specialize (Hend _ _ E4). }
  unfold sm_modify, mbind, SM_bind. rewrite Eadd.
  assert (files (fs (evict s3)) !! cache_path s path = None) as Hf4.
  { assert (cache_path s path = cache_path s3 path) as -> by (unfold cache_path; by rewrite Hcfg, Bg).
    apply Hgone; [|done]. rewrite He, lookup_insert_eq. eauto. }
  assert (fs_op (A := string) io_error (fs_read (cache_path s path)) (evict s3) =
    (Err (StorageError.Io "No such file or directory (os error 2)"), evict s3)) as ->.
  { unfold fs_op, fs_read. rewrite Hf4. by destruct (evict s3). }
  by exists (evict s3).
Qed.

End Cache.

(** ** Uploads *)

(** What the trait promises of a writer: it collects what is written, and a flush
    makes it the contents of its object. *)
Class StorageLaws (R : Type) `{StorageOps R} := {
  w_path : Writer -> string;
  w_data : Writer -> string;
  object : string -> R -> option string;
  writer_new p r w r' : Cache.writer p r = (Ok w, r') -> w_path w = p /\ w_data w = "";
  write_all_data w d r w' r' : write_all w d r = (inr w', r') -> w_path w' = w_path w /\ w_data w' = w_data w +:+ d;
  flush_object w r r' : flush_writer w r = (inr tt, r') -> object (w_path w) r' = Some (w_data w) }.

(** Reading a file buffer by buffer yields the whole file. *)
Lemma joined_pieces fuel data : (String.length data < fuel)%nat -> joined (CachedStorage.pieces fuel data) = data.
Proof.
  revert data. induction fuel as [|fuel IH]; intros data Hf; [lia|]. cbn [CachedStorage.pieces].
  destruct (String.eqb_spec data "") as [->|Hne]; [done|]. cbn [joined].
  pose proof (substring_split CachedStorage.BUFFER_SIZE data) as Hsp.
  rewrite IH; [done|]. apply (f_equal String.length) in Hsp. rewrite string_length_app in Hsp.
  assert (0 < String.length (String.substring 0 CachedStorage.BUFFER_SIZE data))%nat; [|lia].
  destruct data as [|a data]; [done|]. unfold CachedStorage.BUFFER_SIZE.
  replace (Z.to_nat (64 * 1024)) with (S (Z.to_nat (64 * 1024 - 1))) by lia. cbn. lia.
Qed.

Section Uploads.
Context {R : Type} `{StorageLaws R}.
Import CachedStorage.
Implicit Types (s : CachedStorage.t R).

Lemma upload_loop_data w cs s w' s' : upload_loop w cs s = (Ok w', s') ->
  w_path w' = w_path w /\ w_data w' = w_data w +:+ joined cs.
Proof.
  revert w s. induction cs as [|c cs IH]; intros w s; cbn.
  - intros [= <- <-]. by rewrite string_app_nil_r.
  - unfold mbind, SM_bind, io_op. destruct (write_all w c (remote s)) as [[e|w1] r] eqn:E; [done|].
    apply write_all_data in E as [E1 E2]. intros (? & ->)%IH. rewrite E2, string_app_assoc. split; [congruence|done].
Qed.

Lemma upload_single_file_object task b s s' data :
  upload_single_file task b s = (Ok tt, s') -> files (fs s) !! UploadTask.local_path task = Some data ->
  object (UploadTask.remote_path task) (remote s') = Some data.
Proof.
  intros E Hf. unfold upload_single_file, mbind, SM_bind in E. unfold fs_op at 1, fs_read in E. rewrite Hf in E.
  destruct (next_outcome (fs s)) as [[|] fsys]; [|done].
  unfold remote_op in E. destruct (Cache.writer _ _) as [[w| |] r] eqn:Ew; [|done..].
  apply writer_new in Ew as [Ep Ed].
  destruct (upload_loop w _ _) as [[w'| |] s2] eqn:El; [|done..]. apply upload_loop_data in El as [Ep' Ed'].
  unfold io_op in E. destruct (flush_writer w' (remote s2)) as [[e|[]] r'] eqn:Ef; [done|].
  apply flush_object in Ef. rewrite Ep', Ep, Ed', Ed, string_app_nil_l, joined_pieces in Ef by lia.
  by destruct b; injection E as <-.
Qed.

Lemma set_pending_frame b p s :
  stats (set_pending b p s) = stats s /\ remote (set_pending b p s) = remote s /\
  upload_queue (set_pending b p s) = upload_queue s /\ shutdown (set_pending b p s) = shutdown s.
Proof. unfold set_pending. by destruct (entries s !! p). Qed.

(** What an upload leaves alone. *)
Definition same_queue s s' : Prop :=
  stats s' = stats s /\ upload_queue s' = upload_queue s /\ shutdown s' = shutdown s.

Lemma upload_single_file_frame task b s : same_queue s (upload_single_file task b s).2.
Proof.
  unfold upload_single_file, mbind, SM_bind, fs_op. destruct (fs_read _ _) as [[|data] fsys]; [done|].
  unfold remote_op. destruct (Cache.writer _ _) as [[w| |] r]; [|done..].
  match goal with |- context [upload_loop w ?l ?s0] => set (cs := l); set (s1 := s0) end.
  assert (same_queue s s1) as Hs1 by done. revert Hs1. generalize s1, w. generalize cs. clear.
  induction cs as [|c cs IH]; intros s1 w Hs1; cbn.
  - unfold io_op. destruct (flush_writer w (remote s1)) as [[|[]] r]; [done|]. by destruct b.
  - unfold mbind, SM_bind. unfold io_op at 1. destruct (write_all w c (remote s1)) as [[|w1] r]; [done|].
    by apply IH.
Qed.

(** A worker that takes a task either delivers the cached file, whole, to the
    remote object and counts the upload, or counts a failure; both end the pending
    upload. *)
Theorem worker_delivers task rest s data :
  upload_queue s = task :: rest -> shutdown s = 0 -> files (fs s) !! UploadTask.local_path task = Some data ->
  let '(go_on, s') := worker_round s in
  go_on = true /\
  CacheStats.pending_uploads (stats s') = saturating_sub (CacheStats.pending_uploads (stats s)) 1 /\
  ((object (UploadTask.remote_path task) (remote s') = Some data /\
    CacheStats.uploads_completed (stats s') = u64_add (CacheStats.uploads_completed (stats s)) 1) \/
   CacheStats.uploads_failed (stats s') = u64_add (CacheStats.uploads_failed (stats s)) 1).
Proof.
  intros Hq Hs Hf. unfold worker_round. rewrite Hq. set (s1 := s <| upload_queue := rest |>).
  assert (shutdown s1 = 0) as -> by done. cbn [negb Z.eqb].
  destruct (upload_single_file_frame task (CacheConfig.delete_after_upload (config s1)) s1) as [Hst _].
  pose proof (upload_single_file_object task (CacheConfig.delete_after_upload (config s1)) s1) as Hobj.
  destruct (upload_single_file _ _ s1) as [r s2]. cbn [snd] in Hst.
  destruct (set_pending_frame false (UploadTask.remote_path task) s2) as (Est & Erem & _).
  unfold with_stats, set_field. cbn. rewrite Est, Erem, Hst. cbn.
  split; [done|]. destruct r as [[]|e|m]; cbn; (split; [done|]); [|by right..]. left. split; [|done].
  by apply (Hobj s2 data).
Qed.

(** The send of [queue_upload] precedes its bookkeeping.  A worker that finishes in
    between leaves the upload counted as pending, and the entry marked, for ever:
    nothing is queued, so nothing will count it down, and no flush succeeds. *)
Theorem queue_upload_race task s rounds :
  upload_queue s = [] -> shutdown s = 0 -> CacheStats.pending_uploads (stats s) = 0 ->
  Forall (fun r => forall x, r.1 x = (worker_round x).2) rounds ->
  let s1 := (worker_round (send_task task s)).2 in
  let s2 := count_pending (set_pending true (UploadTask.remote_path task) s1) in
  upload_queue s2 = [] /\ CacheStats.pending_uploads (stats s2) = 1 /\
  (flush rounds s2).1 <> Some (Ok tt) /\
  forall e, entries s2 !! UploadTask.remote_path task = Some e -> CacheEntry.pending_upload e = true.
Proof.
  intros Hq Hs Hp Hr s1 s2. assert (upload_queue s1 = [] /\ CacheStats.pending_uploads (stats s1) = 0) as [Hq1 Hp1].
  { subst s1. unfold worker_round, send_task. cbn. rewrite Hq. cbn. rewrite Hs. cbn.
    set (s0 := s <| upload_queue := [task] |> <| upload_queue := [] |>).
    destruct (upload_single_file_frame task (CacheConfig.delete_after_upload (config s)) s0) as (Hst & Hqu & _).
    destruct (upload_single_file _ _ s0) as [r s3]. cbn in Hst, Hqu.
    destruct (set_pending_frame false (UploadTask.remote_path task) s3) as (Est & _ & Equ & _).
    cbn. rewrite Est, Equ, Hqu, Hst. split; [done|]. unfold upload_finished. destruct (is_Ok r); cbn; by rewrite Hp. }
  destruct (set_pending_frame true (UploadTask.remote_path task) s1) as (Est & _ & Equ & _).
  assert (upload_queue s2 = []) as Hq2 by (subst s2; cbn; congruence).
  assert (CacheStats.pending_uploads (stats s2) = 1) as Hp2.
  { subst s2. cbn. by rewrite Est, Hp1. }
  split_and!; [done|done| |].
  - clearbody s2. clear -Hq2 Hp2 Hr. induction rounds as [|[others el] rounds IH]; [done|].
    inversion_clear Hr as [|? ? Ho Hr']. cbn in Ho.
    assert (others s2 = s2) as E by (rewrite Ho; unfold worker_round; by rewrite Hq2).
    cbn. rewrite E, Hp2. cbn. destruct (_ <=? _); [done|]. by apply IH.
  - subst s2. unfold count_pending, with_stats, set_pending. cbn.
    destruct (entries s1 !! UploadTask.remote_path task) eqn:E; cbn; [|congruence].
    rewrite lookup_insert_eq. by intros e [= <-].
Qed.
End Uploads.

(** ** Writers *)
Section Writers.
Context {R : Type} `{StorageOps R}.
Import CachedStorage CachedWriter.
Implicit Types (s : CachedStorage.t R) (ws : CachedWriter.t * CachedStorage.t R).

(** A writer for [path] at the cache file [lp] to which [content] has been written,
    in a storage that is otherwise as [s0]; [q] is what it has queued. *)
Record writing s0 (path lp content : string) (q : list UploadTask.t) ws : Prop := {
  wr_lp : local_path ws.1 = lp;
  wr_path : remote_path ws.1 = path;
  wr_calm : outcomes (fs ws.2) = [];
  wr_data : exists c0, files (fs ws.2) !! lp = Some c0 /\ c0 +:+ buffered ws.1 = content;
  wr_queue : upload_queue ws.2 = (upload_queue s0 ++ q)%list;
  wr_stats : stats ws.2 = stats s0;
  wr_shutdown : shutdown ws.2 = shutdown s0;
  wr_remote : remote ws.2 = remote s0;
  wr_uploaded : q = [] <-> uploaded ws.1 = false }.

(** [m] succeeds on a writing writer and leaves one. *)
Definition goes_on {A} s0 path lp content content' q q' (m : W A) (Q : CachedWriter.t -> Prop) : Prop :=
  forall ws, writing s0 path lp content q ws -> exists a ws', m ws = (inr a, ws') /\
    writing s0 path lp content' q' ws' /\ flushed ws'.1 = flushed ws.1 /\ Q ws'.1.

Lemma flush_buf_goes_on s0 path lp content q :
  goes_on s0 path lp content content q q flush_buf (fun w => buffered w = "").
Proof.
  intros [w s] [Hlp Hp Hc (c0 & Hf & Hd) Hq Hst Hsh Hr Hu]. cbn in *. unfold flush_buf.
  destruct (String.eqb_spec (buffered w) "") as [E|E]; [by exists tt, (w, s); split_and!; try done; split; eauto|].
  unfold fs_append, next_outcome. rewrite Hc, Hlp, Hf. cbn. eexists _, _. split; [done|].
  split_and!; try done. split; cbn; try done. exists content. rewrite lookup_insert_eq, string_app_nil_r. by subst.
Qed.

Lemma flush_if_goes_on s0 path lp content q c :
  goes_on s0 path lp content content q q (flush_if c) (fun w => True).
Proof.
  intros ws Hws. unfold flush_if. destruct (c ws.1); [|by exists tt, ws].
  destruct (flush_buf_goes_on s0 path lp content q ws Hws) as (a & ws' & ? & ? & ? & ?). by exists a, ws'.
Qed.

Lemma write_through_goes_on s0 path lp content data q ws : writing s0 path lp content q ws -> buffered ws.1 = "" ->
  exists a ws', write_through data ws = (inr a, ws') /\ writing s0 path lp (content +:+ data) q ws' /\
    flushed ws'.1 = flushed ws.1.
Proof.
  destruct ws as [w s]. intros [Hlp Hp Hc (c0 & Hf & Hd) Hq Hst Hsh Hr Hu] Hb. cbn in *. unfold write_through.
  unfold fs_append, next_outcome. rewrite Hc, Hlp, Hf. cbn. eexists _, _. split; [done|]. split; [|done].
  rewrite Hb, string_app_nil_r in Hd. split; cbn; try done. exists (c0 +:+ data). subst.
  by rewrite lookup_insert_eq, Hb, string_app_nil_r.
Qed.

Lemma hold_back_goes_on s0 path lp content data q ws : writing s0 path lp content q ws ->
  exists a ws', hold_back data ws = (inr a, ws') /\ writing s0 path lp (content +:+ data) q ws' /\
    flushed ws'.1 = flushed ws.1.
Proof.
  destruct ws as [w s]. intros [Hlp Hp Hc (c0 & Hf & Hd) Hq Hst Hsh Hr Hu]. cbn in *. eexists _, _. split; [done|].
  split; [|done]. split; cbn; try done. exists c0. split; [done|]. by rewrite <-Hd, string_app_assoc.
Qed.

(** A write appends to the contents, wherever they are held. *)
Lemma write_goes_on s0 path lp content data q ws : writing s0 path lp content q ws ->
  exists a ws', write data ws = (inr a, ws') /\ writing s0 path lp (content +:+ data) q ws' /\
    flushed ws'.1 = flushed ws.1.
Proof.
  intros Hws. unfold write, buf_write, mbind, W_bind.
  assert (exists a ws1, flush_if (fun w => CAPACITY <? str_len (buffered w) + str_len data) ws = (inr a, ws1) /\
    writing s0 path lp content q ws1 /\ flushed ws1.1 = flushed ws.1 /\
    (CAPACITY <= str_len data -> buffered ws1.1 = "")) as (a & ws1 & -> & Hws1 & Hfl1 & Hb1).
  { unfold flush_if. destruct (Z.ltb_spec CAPACITY (str_len (buffered ws.1) + str_len data)).
    - destruct (flush_buf_goes_on s0 path lp content q ws Hws) as (a & ws' & ? & ? & ? & ?). by exists a, ws'.
    - exists tt, ws. split_and!; try done. intros Hle. pose proof (str_len_nonneg (buffered ws.1)).
      destruct (buffered ws.1); [done|]. unfold str_len in *. cbn in *. lia. }
  assert (exists b ws2, (if CAPACITY <=? str_len data then write_through data else hold_back data) ws1 = (inr b, ws2) /\
    writing s0 path lp (content +:+ data) q ws2 /\ flushed ws2.1 = flushed ws1.1) as (b & ws2 & -> & Hws2 & Hfl2).
  { destruct (Z.leb_spec CAPACITY (str_len data)); [apply write_through_goes_on; auto|by apply hold_back_goes_on]. }
  destruct (flush_if_goes_on s0 path lp (content +:+ data) q (fun w => max_buffer_size w <? str_len (buffered w)) ws2 Hws2)
    as (u & ws3 & -> & Hws3 & Hfl3 & _).
  exists b, ws3. split_and!; [done|done|congruence].
Qed.

Lemma queue_upload_goes_on s0 path lp content ws : writing s0 path lp content [] ws ->
  exists ws', queue_upload ws = (inr tt, ws') /\ buffered ws'.1 = "" /\
    writing s0 path lp content [UploadTask.mk lp path (str_len content)] ws'.
Proof.
  intros Hws. unfold queue_upload, unless. rewrite (proj1 (wr_uploaded _ _ _ _ _ _ Hws) eq_refl).
  unfold mbind, W_bind. destruct (flush_buf_goes_on s0 path lp content [] ws Hws) as (a & [w s] & -> & Hw & _ & Hb).
  destruct Hw as [Hlp Hp Hc (c0 & Hf & Hd) Hq Hst Hsh Hr Hu]. cbn in *. rewrite Hb, string_app_nil_r in Hd. subst c0.
  unfold send_upload, fs_call, next_outcome. rewrite Hc, Hlp, Hf, Hp. cbn. eexists. split_and!; [done|done|].
  split; cbn; try done; [|by rewrite app_nil_r in Hq; rewrite Hq].
  exists content. by rewrite Hb, string_app_nil_r.
Qed.

Lemma flush_goes_on s0 path lp content ws : writing s0 path lp content [] ws -> flushed ws.1 = false ->
  exists ws', CachedWriter.flush ws = (inr tt, ws') /\ buffered ws'.1 = "" /\ uploaded ws'.1 = true /\
    writing s0 path lp content [UploadTask.mk lp path (str_len content)] ws'.
Proof.
  intros Hws Hfl. unfold CachedWriter.flush, mbind, W_bind.
  destruct (flush_buf_goes_on s0 path lp content [] ws Hws) as (a & ws2 & -> & Hws2 & Hfl2 & _).
  unfold unless. rewrite Hfl2, Hfl. unfold ignore.
  destruct (queue_upload_goes_on _ _ _ _ ws2 Hws2) as ([w3 s3] & -> & Hb3 & Hws3). cbn.
  assert (uploaded w3 = true) as Hup.
  { destruct (uploaded w3) eqn:E; [done|]. by apply (wr_uploaded _ _ _ _ _ _ Hws3) in E. }
  eexists. split_and!; [done|done|done|]. by destruct Hws3.
Qed.

Lemma drop_goes_on s0 path lp content ws : writing s0 path lp content [] ws -> flushed ws.1 = false ->
  exists ws', CachedWriter.drop ws = (inr tt, ws') /\ buffered ws'.1 = "" /\
    writing s0 path lp content [UploadTask.mk lp path (str_len content)] ws'.
Proof.
  intros Hws Hfl. destruct (flush_goes_on _ _ _ _ ws Hws Hfl) as ([w s] & E & Hb & Hup & Hws').
  unfold CachedWriter.drop, mbind, W_bind. unfold unless at 1. rewrite Hfl. unfold ignore at 1. rewrite E. cbn [fst snd].
  unfold unless. cbn [fst] in *. rewrite Hup. unfold ignore, flush_buf. rewrite Hb. cbn. by exists (w, s).
Qed.

(** What is written through the cache and closed is in the cache file and queued
    with its size, but it is not counted as pending: dropping the storage then
    reports that all is flushed, and the workers, told to stop, throw the task away.
    The data never reach the remote store. *)
Theorem written_data_lost_on_drop path data s :
  outcomes (fs s) = [] -> upload_queue s = [] -> CacheStats.pending_uploads (stats s) = 0 ->
  exists w s1 ws2, writer path s = (Ok w, s1) /\ (write data;; CachedWriter.drop) (w, s1) = (inr tt, ws2) /\
    let task := UploadTask.mk (cache_path s path) path (str_len data) in
    upload_queue ws2.2 = [task] /\ files (fs ws2.2) !! cache_path s path = Some data /\
    exists s3, CachedStorage.drop [(id, 0)] ws2.2 = (Some (Ok tt), s3) /\
      (worker_round s3).1 = false /\ upload_queue (worker_round s3).2 = [] /\ remote (worker_round s3).2 = remote s.
Proof.
  intros Hc Hq Hp.
  assert (exists w s1, writer path s = (Ok w, s1) /\ flushed w = false /\
    writing s path (cache_path s path) "" [] (w, s1)) as (w & s1 & Ew & Hfl & Hws).
  { unfold writer, fs_op, mbind, SM_bind, fs_call, fs_create, next_outcome, sm_get. rewrite Hc. cbn. rewrite Hc. cbn.
    eexists _, _. split; [done|]. split; [done|]. split; cbn; try done; [|by rewrite app_nil_r].
    exists "". split; [apply lookup_insert_eq|done]. }
  destruct (write_goes_on s path (cache_path s path) "" data [] (w, s1) Hws) as (n & ws1 & Ewr & Hws1 & Hfl1).
  rewrite string_app_nil_l in Hws1. cbn in Hfl1. rewrite Hfl in Hfl1.
  destruct (drop_goes_on _ _ _ _ ws1 Hws1 Hfl1) as ([w2 s2] & Ed & Hb & Hws2).
  exists w, s1, (w2, s2). split; [done|]. unfold mbind, W_bind. rewrite Ewr, Ed.
  destruct Hws2 as [_ _ _ (c0 & Hf & Hd) Hq2 Hst _ Hr _]. cbn in *. rewrite Hq in Hq2. rewrite Hb, string_app_nil_r in Hd.
  subst c0. split_and!; try done. unfold CachedStorage.drop. cbn. rewrite Hst, Hp. eexists. split; [done|].
  unfold worker_round. cbn. rewrite Hq2. done.
Qed.
End Writers.

(** ** Witnesses

    A remote store that holds its objects as the streams they are read in. *)
Module SimRemote.
Definition t : Type := gmap string Stream.

#[global] Instance ops : StorageOps t := {
  Writer := string * string;
  reader p r := (match r !! p with Some st => Ok st | None => Err (StorageError.NotFound p) end, r);
  writer p r := (Ok (p, ""), r);
  write_all w d r := (inr (w.1, w.2 +:+ d), r);
  flush_writer w r := (inr tt, <[w.1 := mkStream [w.2] None]> r);
  exists_ p r := bool_decide (is_Some (r !! p));
  size p r := (match r !! p with Some st => Ok (str_len (joined (chunks st))) | None => Err (StorageError.NotFound p) end, r);
  delete p r := (Ok tt, base.delete p r);
  copy p q r := (match r !! p with Some st => Ok tt | None => Err (StorageError.NotFound p) end,
                 match r !! p with Some st => <[q := st]> r | None => r end) }.

#[global] Instance laws : StorageLaws t.
Proof.
  refine {| w_path := fst; w_data := snd; object p (r : t) := (fun st => joined (chunks st)) <$> r !! p |}.
  - by intros p r w r' [= <- <-].
  - by intros w d r w' r' [= <- <-].
  - intros [p d] r r' [= <-]. cbn. unfold t in r.
    assert ((<[p := mkStream [d] None]> r : gmap string Stream) !! p = Some (mkStream [d] None)) as E
      by apply lookup_insert_eq.
    setoid_rewrite E. cbn. by rewrite string_app_nil_r.
Defined.
End SimRemote.

Section Witnesses.
Import CachedStorage.

Definition sim_objects : SimRemote.t :=
  <["a/b" := mkStream ["rec"; "ording"] None]>
  (<["cut" := mkStream ["half"] (Some "connection reset")]>
  (<["big" := mkStream ["0123456789ab"] None]> ∅)).

Definition sim_cache (max : Z) : CachedStorage.t SimRemote.t :=
  mk (CacheConfig.with_max_cache_size max (CacheConfig.new "/cache")) ∅ 0 [] CacheStats.default 0 (mkFs ∅ []) sim_objects.

Lemma map_to_list_order (es : gmap string CacheEntry.t) : map_to_list es ≡ₚ map_to_list es.
Proof. reflexivity. Qed.

Lemma eviction_candidate_least_witness : exists e, e ∈
  [CacheEntryMeta.mk "x" 1 5 2 1; CacheEntryMeta.mk "y" 2 3 4 9] /\ CacheEntryMeta.path e = "y".
Proof.
  destruct (eviction_candidate_least [CacheEntryMeta.mk "x" 1 5 2 1; CacheEntryMeta.mk "y" 2 3 4 9]
    EvictionPolicy.Lru "y" 2 eq_refl) as (e & He & Hp & _). by exists e.
Defined.

(** Two entries are evicted, the older ones, although the oldest of all is kept
    because its upload is pending. *)
Definition sim_crowded : CachedStorage.t SimRemote.t :=
  sim_cache 10 <| entries :=
    <["p" := CacheEntry.mk "p" 4 1 1 1 true]> (<["q" := CacheEntry.mk "q" 4 2 2 1 false]>
    (<["r" := CacheEntry.mk "r" 4 3 3 1 false]> ∅)) |> <| cache_size := 12 |>.

Lemma eviction_follows_policy_witness :
  entries (evict map_to_list sim_crowded) !! "q" = None /\ is_Some (entries (evict map_to_list sim_crowded) !! "p") /\
  is_Some (entries (evict map_to_list sim_crowded) !! "r") /\
  cache_size (evict map_to_list sim_crowded) <= nine_tenths 10.
Proof.
  split_and!; [reflexivity|eexists; reflexivity|eexists; reflexivity|].
  destruct (eviction_follows_policy map_to_list map_to_list_order sim_crowded) as [[H|H] _]; [exact H|].
  specialize (H "r" (CacheEntry.mk "r" 4 3 3 1 false) eq_refl). discriminate.
Defined.

Lemma cache_size_covers_entries_witness :
  entries_total (entries (delete "a/b" (reader map_to_list "a/b" 5 (sim_cache 100)).2).2) <=
    cache_size (delete "a/b" (reader map_to_list "a/b" 5 (sim_cache 100)).2).2 < u64_mod.
Proof.
  refine (cache_size_covers_entries map_to_list map_to_list_order sim_objects (config (sim_cache 100)) (mkFs ∅ [])
    (sim_cache 100) _ eq_refl _).
  eapply rtc_l; [apply (step_reader map_to_list (sim_cache 100) "a/b" 5); vm_compute; reflexivity|].
  eapply rtc_l; [apply step_delete|]. apply rtc_refl.
Defined.

Lemma read_through_witness : exists s',
  reader map_to_list "a/b" 5 (sim_cache 100) = (Ok "recording", s') /\
  (reader map_to_list "a/b" 6 (s' <| remote := ∅ |>)).1 = Ok "recording".
Proof.
  destruct (read_through map_to_list "a/b" 5 (sim_cache 100) (mkStream ["rec"; "ording"] None) sim_objects)
    as (s' & E & _ & Hl);
    [reflexivity|reflexivity|reflexivity|reflexivity|repeat constructor; discriminate|done|done|vm_compute; discriminate|].
  exists s'. split; [exact E|apply (Hl 6 ∅)].
Defined.

Lemma colliding_paths_share_contents_witness :
  (reader map_to_list "a::b" 5 (reader map_to_list "a/b" 5 (sim_cache 100)).2).1 = Ok "recording".
Proof.
  refine (colliding_paths_share_contents map_to_list "a/b" "a::b" 5 (sim_cache 100) (mkStream ["rec"; "ording"] None)
    sim_objects _ _ _ _ _ _ _ _ _);
    [reflexivity|reflexivity|reflexivity|reflexivity|reflexivity|repeat constructor; discriminate|done|done|vm_compute; discriminate].
Defined.

Lemma broken_download_served_witness : exists s',
  reader map_to_list "cut" 5 (sim_cache 100) =
    (Err (StorageError.Other "Failed to read from remote: connection reset"), s') /\
  (reader map_to_list "cut" 6 s').1 = Ok "half".
Proof.
  destruct (broken_download_served map_to_list "cut" 5 6 (sim_cache 100) (mkStream ["half"] (Some "connection reset"))
    sim_objects "connection reset") as (s' & E & _ & Hl);
    [reflexivity|reflexivity|reflexivity|reflexivity|repeat constructor; discriminate|done|].
  exists s'. split; [exact E|exact Hl].
Defined.

Lemma oversized_object_unreadable_witness : exists s',
  reader map_to_list "big" 5 (sim_cache 10) = (Err (StorageError.Io "No such file or directory (os error 2)"), s').
Proof.
  destruct (oversized_object_unreadable map_to_list map_to_list_order "big" 5 (sim_cache 10)
    (mkStream ["0123456789ab"] None) sim_objects) as (s' & E & _);
    [reflexivity|by split|reflexivity|reflexivity|reflexivity|repeat constructor; discriminate|done|done|done|].
  exists s'. exact E.
Defined.

Definition sim_task : UploadTask.t := UploadTask.mk "/cache/x" "x" 3.
Definition sim_uploading : CachedStorage.t SimRemote.t :=
  sim_cache 100 <| upload_queue := [sim_task] |> <| fs := mkFs (<["/cache/x" := "abc"]> ∅) [] |>.

Lemma worker_delivers_witness : (worker_round sim_uploading).1 = true /\
  CacheStats.pending_uploads (stats (worker_round sim_uploading).2) = 0.
Proof.
  pose proof (worker_delivers sim_task [] sim_uploading "abc" eq_refl eq_refl eq_refl) as H.
  destruct (worker_round sim_uploading) as [g s']. destruct H as (Hg & Hp & _). split; [exact Hg|exact Hp].
Defined.

Lemma queue_upload_race_witness :
  CacheStats.pending_uploads (stats (count_pending (set_pending true "x"
    (worker_round (send_task sim_task (sim_uploading <| upload_queue := [] |>))).2))) = 1.
Proof.
  refine (proj1 (proj2 (queue_upload_race sim_task (sim_uploading <| upload_queue := [] |>) [] eq_refl eq_refl eq_refl _))).
  constructor.
Defined.

Lemma written_data_lost_on_drop_witness : exists w s1 ws2, CachedWriter.writer "x" (sim_cache 100) = (Ok w, s1) /\
  (CachedWriter.write "abc" ≫= fun _ => CachedWriter.drop) (w, s1) = (inr tt, ws2) /\
  upload_queue ws2.2 = [UploadTask.mk "/cache/x" "x" 3].
Proof.
  destruct (written_data_lost_on_drop "x" "abc" (sim_cache 100) eq_refl eq_refl eq_refl) as (w & s1 & ws2 & E1 & E2 & E3 & _).
  exists w, s1, ws2. split; [exact E1|]. split; [exact E2|exact E3].
Defined.
End Witnesses.
