(* ===== verification/Multipart.v ===== *)
(** * Multipart uploads

    crates/roboflow-storage/src/multipart.rs (one part after the other, with retries)
    and multipart_parallel.rs (parts handed to [object_store::WriteMultipart], which
    uploads them concurrently).  The [object_store] crate is a class with the
    documented behaviour of its uploads as laws.  A reader is a file with the outcomes of
    its coming calls. *)
From stdpp Require Import pretty.
From S2P Require Import Prelude Storage.
Local Open Scope string_scope.
Local Open Scope Z_scope.

(** ** [object_store] *)

(** A multipart upload: parts are put in order, then completed or aborted. *)
Class MultipartOps (U : Type) := {
  put_part : string -> U -> (string + unit) * U;
  complete : U -> (string + unit) * U;
  abort : U -> (string + unit) * U }.

(** [parts] are the parts the store acknowledged, in the order they were put; a
    completed upload is the object they make up.  [open_] is an upload that was
    neither completed nor aborted. *)
Class MultipartLaws (U : Type) `{MultipartOps U} := {
  parts : U -> list string;
  stored : U -> option string;
  put_part_ok d u u' : put_part d u = (inr tt, u') -> parts u' = (parts u ++ [d])%list;
  put_part_err d u e u' : put_part d u = (inl e, u') -> parts u' = parts u;
  complete_ok u u' : complete u = (inr tt, u') -> stored u' = Some (joined (parts u)) }.

(** [WriteMultipart]: writes are accepted at once; [finish] waits for the uploads. *)
Class WriteMultipartOps (V : Type) := {
  wm_write : string -> V -> V;
  wm_finish : V -> (string + unit) * V;
  wm_abort : V -> (string + unit) * V }.

Class WriteMultipartLaws (V : Type) `{WriteMultipartOps V} := {
  wm_written : V -> string;
  wm_stored : V -> option string;
  wm_write_appends d v : wm_written (wm_write d v) = wm_written v +:+ d;
  wm_finish_ok v v' : wm_finish v = (inr tt, v') -> wm_stored v' = Some (wm_written v) }.

(** ** Files *)
Record File := mkFile { content : string; file_outcomes : list outcome }.
#[global] Instance File_eta : Settable File := fun r => mkFile (content r) (file_outcomes r).

Definition file_call (f : File) : (string + unit) * File :=
  match file_outcomes f with
  | [] => (inr tt, f)
  | Done :: os => (inr tt, f <| file_outcomes := os |>)
  | Failed e _ :: os => (inl e, f <| file_outcomes := os |>)
  end.

(** [seek(End(0))]. *)
Definition file_size (f : File) : (string + Z) * File :=
  match file_call f with (inr _, f) => (inr (str_len (content f)), f) | (inl e, f) => (inl e, f) end.
(** [read_exact] of [n] bytes after a seek to [offset]. *)
Definition read_at (offset n : Z) (f : File) : (string + string) * File :=
  match file_call f with
  | (inl e, f) => (inl e, f)
  | (inr _, f) =>
      if offset + n <=? str_len (content f)
      then (inr (String.substring (Z.to_nat offset) (Z.to_nat n) (content f)), f)
      else (inl "failed to fill whole buffer", f)
  end.
(** [read_to_end] from the start. *)
Definition read_to_end (f : File) : (string + string) * File :=
  match file_call f with (inr _, f) => (inr (content f), f) | (inl e, f) => (inl e, f) end.

(** [usize::div_ceil] by a positive number. *)
Definition div_ceil (a b : Z) : Z := (a + b - 1) / b.

Definition MIN_PART_SIZE : Z := 5 * 1024 * 1024.
Definition MAX_PART_SIZE : Z := 5 * 1024 * 1024 * 1024.

Module MultipartConfig.
Record t := mk { part_size : Z; max_concurrent_parts : Z; threshold : Z; max_retries : Z; part_timeout_secs : Z }.
#[global] Instance t_eta : Settable t := fun r =>
  mk (part_size r) (max_concurrent_parts r) (threshold r) (max_retries r) (part_timeout_secs r).

Definition default : t := mk (64 * 1024 * 1024) 4 (100 * 1024 * 1024) 3 300.
Definition new : t := default.

Definition with_part_size (n : Z) (c : t) : StorageResult t :=
  if (MIN_PART_SIZE <=? n) && (n <=? MAX_PART_SIZE) then Ok (c <| part_size := n |>)
  else Panic "part_size must be between 5242880 and 5368709120 bytes".
Definition with_max_concurrent_parts (n : Z) (c : t) : StorageResult t :=
  if (0 <? n) && (n <=? 10) then Ok (c <| max_concurrent_parts := n |>)
  else Panic "max_concurrent_parts must be between 1 and 10".
Definition with_threshold (n : Z) (c : t) : StorageResult t :=
  if 5 * 1024 * 1024 <=? n then Ok (c <| threshold := n |>) else Panic "threshold must be at least 5MB".
Definition with_max_retries (n : Z) (c : t) : t := c <| max_retries := n |>.
Definition with_part_timeout_secs (n : Z) (c : t) : t := c <| part_timeout_secs := n |>.

(** A part size of 0, which only a literal can have, divides by zero. *)
Definition part_count (c : t) (file_size : Z) : StorageResult Z :=
  if file_size =? 0 then Ok 0
  else if part_size c =? 0 then Panic "attempt to divide by zero"
  else Ok (div_ceil file_size (part_size c)).
End MultipartConfig.

(** [avg_bytes_per_sec] is left out: a floating-point quotient. *)
Module MultipartStats.
Record t := mk { total_bytes : Z; total_parts : Z; retried_parts : Z; total_duration : Z }.
#[global] Instance t_eta : Settable t := fun r =>
  mk (total_bytes r) (total_parts r) (retried_parts r) (total_duration r).
Definition new (total_bytes total_parts total_duration : Z) : t := mk total_bytes total_parts 0 total_duration.
Definition with_retried_parts (n : Z) (s : t) : t := s <| retried_parts := n |>.
End MultipartStats.

(** What an upload works on: the upload, the file, and the calls of the progress
    callback. *)
Record Job (U : Type) := mkJob { upload : U; file : File; parts_completed : Z; progress : list (Z * Z) }.
Arguments mkJob {U} upload file parts_completed progress.
Arguments upload {U} j : rename.
Arguments file {U} j : rename.
Arguments parts_completed {U} j : rename.
Arguments progress {U} j : rename.
#[global] Instance Job_eta U : Settable (Job U) := fun r =>
  mkJob (upload r) (file r) (parts_completed r) (progress r).

Definition read_op {U A} (op : File -> (string + A) * File) : SM (Job U) A := fun j =>
  match op (file j) with
  | (inl e, f) => (Err (StorageError.Io e), j <| file := f |>)
  | (inr a, f) => (Ok a, j <| file := f |>)
  end.
Definition report {U} (uploaded total : Z) : SM (Job U) unit :=
  sm_modify (fun j => j <| progress := (progress j ++ [(uploaded, total)])%list |>).
(** An operation of the upload, with the text its error is wrapped in. *)
Definition upload_op {U A} (msg : string) (op : U -> (string + A) * U) : SM (Job U) A := fun j =>
  match op (upload j) with
  | (inl e, u) => (Err (StorageError.Cloud (msg +:+ e)), j <| upload := u |>)
  | (inr a, u) => (Ok a, j <| upload := u |>)
  end.

(** The bytes of part [part_index], as both uploaders read them. *)
Definition read_part {U} (part_size file_size part_index : Z) : SM (Job U) string :=
  let offset := as_u64 (part_index * part_size) in
  let remaining := saturating_sub file_size offset in
  let to_read := Z.min part_size remaining in
  read_op file_call;;
  read_op (read_at offset to_read).

(** What the callback is told after a part. *)
Definition uploaded_after (part_size file_size part_index : Z) : Z :=
  Z.min (as_u64 ((part_index + 1) * part_size)) file_size.

Module MultipartUploader.
Section Ops.
Context {U : Type} `{MultipartOps U}.

Definition upload_part (data : string) : SM (Job U) unit :=
  upload_op "Failed to upload part: " (put_part data);;
  sm_modify (fun j => j <| parts_completed := u32_add (parts_completed j) 1 |>).

(** The attempts for one part: how many retries were needed, or the last error when
    the attempts ([attempts] of them, [max_retries] + 1 in all) are used up. *)
Fixpoint upload_with_retry (attempts : nat) (data : string) (retry_count : Z) (last_error : option StorageError.t)
  : SM (Job U) (Z + option StorageError.t) := fun j =>
  match attempts with
  | O => (Ok (inr last_error), j)
  | S attempts' =>
      match upload_part data j with
      | (Ok _, j') => (Ok (inl retry_count), j')
      | (Panic m, j') => (Panic m, j')
      | (Err e, j') => upload_with_retry attempts' data (retry_count + 1) (Some e) j'
      end
  end.

Fixpoint upload_parts (cfg : MultipartConfig.t) (fsize : Z) (indices : list Z) (retried : Z) : SM (Job U) Z :=
  match indices with
  | [] => mret retried
  | i :: indices' =>
      data ← read_part (MultipartConfig.part_size cfg) fsize i;
      outcome ← upload_with_retry (Z.to_nat (MultipartConfig.max_retries cfg + 1)) data 0 None;
      match outcome with
      | inr last_error =>
          sm_modify (fun j => j <| upload := (abort (upload j)).2 |>);;
          sm_throw (default (StorageError.Cloud ("Part " +:+ pretty (i + 1) +:+ " failed after " +:+
            pretty (MultipartConfig.max_retries cfg) +:+ " retries (no error captured)")) last_error)
      | inl retry_count =>
          report (uploaded_after (MultipartConfig.part_size cfg) fsize i) fsize;;
          upload_parts cfg fsize indices' (if 0 <? retry_count then u32_add retried 1 else retried)
      end
  end.

Definition complete_internal (total_bytes total_parts duration : Z) : SM (Job U) MultipartStats.t :=
  upload_op "Failed to complete multipart upload: " complete;;
  mret (MultipartStats.new total_bytes total_parts duration).

Definition upload_small (fsize duration : Z) : SM (Job U) MultipartStats.t :=
  data ← read_op read_to_end;
  report fsize fsize;;
  upload_part data;;
  complete_internal fsize 1 duration.

Definition upload_from_reader (cfg : MultipartConfig.t) (duration : Z) : SM (Job U) MultipartStats.t :=
  fsize ← read_op file_size;
  read_op file_call;;
  if fsize <? MultipartConfig.threshold cfg then upload_small fsize duration
  else
    part_count ← (fun j => (MultipartConfig.part_count cfg fsize, j));
    retried ← upload_parts cfg fsize (seqZ 0 part_count) 0;
    stats ← complete_internal fsize (as_u32 part_count) duration;
    mret (if 0 <? retried then MultipartStats.with_retried_parts retried stats else stats).
End Ops.
End MultipartUploader.

Module ParallelUploadConfig.
Record t := mk { part_size : Z; concurrency : Z; max_retries : Z; threshold : Z }.
#[global] Instance t_eta : Settable t := fun r => mk (part_size r) (concurrency r) (max_retries r) (threshold r).
Definition default : t := mk (64 * 1024 * 1024) 4 3 (100 * 1024 * 1024).
Definition new : t := default.

Definition with_part_size (n : Z) (c : t) : StorageResult t :=
  if (MIN_PART_SIZE <=? n) && (n <=? MAX_PART_SIZE) then Ok (c <| part_size := n |>)
  else Panic "part_size must be between 5242880 and 5368709120 bytes".
Definition with_concurrency (n : Z) (c : t) : StorageResult t :=
  if (1 <=? n) && (n <=? 16) then Ok (c <| concurrency := n |>) else Panic "concurrency must be between 1 and 16".
Definition with_max_retries (n : Z) (c : t) : t := c <| max_retries := n |>.
Definition with_threshold (n : Z) (c : t) : StorageResult t :=
  if 5 * 1024 * 1024 <=? n then Ok (c <| threshold := n |>) else Panic "threshold must be at least 5MB".
Definition part_count (c : t) (file_size : Z) : StorageResult Z :=
  if file_size =? 0 then Ok 0
  else if part_size c =? 0 then Panic "attempt to divide by zero"
  else Ok (div_ceil file_size (part_size c)).
End ParallelUploadConfig.

Module ParallelMultipartStats.
Record t := mk { total_bytes : Z; total_parts : Z; retried_parts : Z; total_duration : Z; concurrency : Z }.
Definition new (total_bytes total_parts total_duration concurrency : Z) : t :=
  mk total_bytes total_parts 0 total_duration concurrency.
End ParallelMultipartStats.

Module ParallelMultipartUploader.
Section Ops.
Context {V : Type} `{WriteMultipartOps V}.

Fixpoint write_parts (part_size fsize : Z) (indices : list Z) : SM (Job V) unit :=
  match indices with
  | [] => mret tt
  | i :: indices' =>
      data ← read_part part_size fsize i;
      sm_modify (fun j => j <| upload := wm_write data (upload j) |>);;
      report (uploaded_after part_size fsize i) fsize;;
      write_parts part_size fsize indices'
  end.

Definition upload_small (concurrency fsize duration : Z) : SM (Job V) ParallelMultipartStats.t :=
  data ← read_op read_to_end;
  report fsize fsize;;
  sm_modify (fun j => j <| upload := wm_write data (upload j) |>);;
  upload_op "Failed to complete multipart upload: " wm_finish;;
  mret (ParallelMultipartStats.new fsize 1 duration concurrency).

(** [concurrency] is that of the configuration the uploader was created with. *)
Definition upload_from_reader (concurrency : Z) (cfg : ParallelUploadConfig.t) (duration : Z)
  : SM (Job V) ParallelMultipartStats.t :=
  fsize ← read_op file_size;
  read_op file_call;;
  if fsize <? ParallelUploadConfig.threshold cfg then upload_small concurrency fsize duration
  else
    part_count ← (fun j => (ParallelUploadConfig.part_count cfg fsize, j));
    write_parts (ParallelUploadConfig.part_size cfg) fsize (seqZ 0 part_count);;
    upload_op "Failed to complete multipart upload: " wm_finish;;
    mret (ParallelMultipartStats.new fsize (as_u32 part_count) duration concurrency).
End Ops.
End ParallelMultipartUploader.

(** ** Parts of a file *)
Lemma substring_nil n x : String.substring n 0 x = "".
Proof. revert n. induction x as [|a x IH]; intros [|n]; cbn; done. Qed.

Lemma substring_app a b c x :
  String.substring a (b + c) x = String.substring a b x +:+ String.substring (a + b) c x.
Proof.
  revert a b. induction x as [|y x IH]; intros a b.
  - by destruct a, b, c.
  - destruct a as [|a]; [|apply IH]. destruct b as [|b]; [by rewrite substring_nil|].
    cbn. rewrite string_app_cons. f_equal. apply (IH 0%nat b).
Qed.

Lemma substring_length a b x : (a + b <= String.length x)%nat -> String.length (String.substring a b x) = b.
Proof.
  revert a b. induction x as [|y x IH]; intros a b; cbn; [destruct a, b; cbn; lia|].
  destruct a as [|a]; [destruct b as [|b]; [done|]|]; cbn; intros Hle; [f_equal; apply IH; lia|apply IH; lia].
Qed.

(** Part [i] of [x] in parts of [ps] bytes. *)
Definition part_at (ps : Z) (x : string) (i : Z) : string :=
  String.substring (Z.to_nat (i * ps)) (Z.to_nat (Z.min ps (str_len x - i * ps))) x.
Definition parts_of (ps : Z) (x : string) : list string :=
  part_at ps x <$> seqZ 0 (div_ceil (str_len x) ps).

Lemma div_ceil_spec a b : 0 <= a -> 0 < b -> 0 <= div_ceil a b /\ a <= div_ceil a b * b < a + b.
Proof.
  intros Ha Hb. unfold div_ceil. pose proof (Z.div_mod (a + b - 1) b ltac:(lia)).
  pose proof (Z.mod_pos_bound (a + b - 1) b ltac:(lia)). split; [apply Z.div_pos; lia|lia].
Qed.

Lemma parts_joined_app a b : joined (a ++ b)%list = joined a +:+ joined b.
Proof. induction a as [|x a IH]; [done|]. cbn. by rewrite IH, string_app_assoc. Qed.

(** The first [k] parts are the first bytes. *)
Lemma joined_first_parts ps x k : 0 < ps -> (Z.of_nat k) * ps < str_len x + ps ->
  joined (part_at ps x <$> seqZ 0 (Z.of_nat k)) = String.substring 0 (Z.to_nat (Z.min (Z.of_nat k * ps) (str_len x))) x.
Proof.
  intros Hps. pose proof (str_len_nonneg x). induction k as [|k IH]; intros Hk.
  { cbn. pose proof (substring_nil 0 x) as E. replace (Z.to_nat (Z.min _ _)) with 0%nat by lia. by rewrite E. }
  rewrite Nat2Z.inj_succ in *. replace (Z.succ (Z.of_nat k)) with (Z.of_nat k + 1) by lia.
  rewrite seqZ_app by lia. rewrite fmap_app, parts_joined_app, IH by lia. cbn [seqZ]. rewrite Z.add_0_l.
  change (seqZ (Z.of_nat k) 1) with [0 + Z.of_nat k]. cbn [fmap list_fmap joined]. rewrite Z.add_0_l, string_app_nil_r.
  unfold part_at. rewrite (Z.min_l (Z.of_nat k * ps)) by lia.
  rewrite <-(substring_app 0). f_equal. lia.
Qed.

Lemma joined_parts_of ps x : 0 < ps -> joined (parts_of ps x) = x.
Proof.
  intros Hps. pose proof (str_len_nonneg x). destruct (div_ceil_spec (str_len x) ps) as [Hc Hb]; [lia|done|].
  unfold parts_of. rewrite <-(Z2Nat.id (div_ceil _ _)) by done. rewrite joined_first_parts; [|done|lia].
  rewrite Z2Nat.id, Z.min_r by lia. unfold str_len. rewrite Nat2Z.id. apply substring_all.
Qed.

(** All parts but the last are [ps] bytes long, and the last is not empty. *)
Lemma parts_of_sizes ps x i d : 0 < ps -> parts_of ps x !! i = Some d ->
  0 < str_len d <= ps /\ ((S i < length (parts_of ps x))%nat -> str_len d = ps).
Proof.
  intros Hps. pose proof (str_len_nonneg x). destruct (div_ceil_spec (str_len x) ps) as [Hc Hb]; [lia|done|].
  unfold parts_of. rewrite list_lookup_fmap, length_fmap, length_seqZ.
  intros (j & [-> Hj]%lookup_seqZ & ->)%fmap_Some.
  assert (str_len (part_at ps x (0 + Z.of_nat i)) = Z.min ps (str_len x - Z.of_nat i * ps)) as ->.
  { rewrite Z.add_0_l. unfold part_at. unfold str_len at 1. rewrite substring_length; [nia|]. unfold str_len in *. nia. }
  split; [nia|]. intros Hl. nia.
Qed.

(** ** The sequential uploader *)
Section Sequential.
Context {U : Type} `{MultipartLaws U}.
Import MultipartUploader.
Implicit Types (j : Job U) (cfg : MultipartConfig.t).

(** The file is read, never written. *)
Lemma file_call_content f r f' : file_call f = (r, f') -> content f' = content f.
Proof. unfold file_call. destruct (file_outcomes f) as [|[|]]; intros; by simplify_eq. Qed.

Lemma read_op_spec {W A} (op : File -> (string + A) * File) a (j j' : Job W) :
  read_op op j = (Ok a, j') -> exists f', op (file j) = (inr a, f') /\ j' = j <| file := f' |>.
Proof. unfold read_op. destruct (op (file j)) as [[e|b] f']; intros [= -> <-]. by exists f'. Qed.

(** What [read_part] returns is the part; only the file's state changes. *)
Lemma read_part_spec {W} ps fsize i d (j j' : Job W) :
  read_part ps fsize i j = (Ok d, j') -> 0 < ps -> fsize = str_len (content (file j)) -> fsize < u64_mod ->
  0 <= i -> i * ps <= fsize ->
  d = part_at ps (content (file j)) i /\ exists f', j' = j <| file := f' |> /\ content f' = content (file j).
Proof.
  unfold read_part, mbind, SM_bind. intros E Hps Hf Hlt Hi Hle.
  destruct (read_op file_call j) as [[[]|e|m] j1] eqn:E1; [|done..].
  apply read_op_spec in E1 as (f1 & E1 & ->). apply file_call_content in E1 as C1.
  apply read_op_spec in E as (f2 & E2 & ->). unfold read_at in E2. cbn in E2.
  destruct (file_call f1) as [[?|?] f3] eqn:E3; [done|]. apply file_call_content in E3 as C3.
  rewrite as_u64_id in E2 by (split; nia). unfold saturating_sub in E2. rewrite Z.max_r in E2 by lia.
  destruct (_ <=? _) in E2; [|done]. injection E2 as <- <-. rewrite C3, C1. unfold part_at. rewrite <-Hf.
  split; [done|]. exists f3. by rewrite C3, C1.
Qed.

(** A part that is put in the end is put once. *)
Lemma upload_with_retry_parts attempts d k le j o j' :
  upload_with_retry attempts d k le j = (Ok o, j') ->
  file j' = file j /\ progress j' = progress j /\
  match o with
  | inl n => parts (upload j') = (parts (upload j) ++ [d])%list /\ k <= n < k + Z.of_nat attempts
  | inr _ => parts (upload j') = parts (upload j)
  end.
Proof.
  revert k le j. induction attempts as [|attempts IH]; intros k le j; cbn; [by intros [= <- <-]|].
  unfold upload_part, mbind, SM_bind, upload_op.
  destruct (put_part d (upload j)) as [[e|[]] u] eqn:E.
  - apply put_part_err in E. intros Eu. apply IH in Eu as (Hf & Hp & Ho). cbn in *. split_and!; try done.
    destruct o; [|congruence]. destruct Ho as [-> ?]. rewrite E. split; [done|lia].
  - apply put_part_ok in E. cbn. intros [= <- <-]. cbn. split_and!; try done. lia.
Qed.

Lemma upload_parts_spec cfg fsize ix retried j r j' :
  upload_parts cfg fsize ix retried j = (Ok r, j') ->
  0 < MultipartConfig.part_size cfg -> fsize = str_len (content (file j)) -> fsize < u64_mod ->
  Forall (fun i => 0 <= i /\ i * MultipartConfig.part_size cfg <= fsize) ix ->
  content (file j') = content (file j) /\
  parts (upload j') = (parts (upload j) ++ (part_at (MultipartConfig.part_size cfg) (content (file j)) <$> ix))%list /\
  progress j' = (progress j ++ ((fun i => (uploaded_after (MultipartConfig.part_size cfg) fsize i, fsize)) <$> ix))%list.
Proof.
  revert retried j. induction ix as [|i ix IH]; intros retried j; cbn.
  { intros [= <- <-] _ _ _ _. by rewrite !app_nil_r. }
  unfold mbind, SM_bind. intros E Hps Hf Hlt [[Hi Hile] Hix]%Forall_cons.
  destruct (read_part _ _ _ j) as [[d|?|?] j1] eqn:E1; [|done..].
  apply read_part_spec in E1 as (-> & f1 & -> & C1); [|done..].
  destruct (upload_with_retry _ _ _ _ _) as [[[n|le]|?|?] j2] eqn:E2; [| |done..].
  2: { unfold sm_modify, sm_throw in E. done. }
  apply upload_with_retry_parts in E2 as (F2 & P2 & Hparts & _). cbn in F2, P2, Hparts.
  unfold report, sm_modify in E. apply IH in E; [|done|cbn; rewrite F2; cbn; congruence|done|done].
  cbn in E. rewrite F2, P2, Hparts, C1 in E. by rewrite <-!app_assoc in E.
Qed.

Lemma seqZ_parts ps n : 0 < ps -> 0 <= n -> Forall (fun i => 0 <= i /\ i * ps <= n) (seqZ 0 (div_ceil n ps)).
Proof. intros Hps Hn. apply Forall_forall. intros i [? Hi]%elem_of_seqZ. pose proof (div_ceil_spec n ps Hn Hps). nia. Qed.

(** What a large file is cut into, or the whole file when it is small. *)
Definition cut (threshold ps : Z) (x : string) : list string :=
  if str_len x <? threshold then [x] else parts_of ps x.
Definition calls (threshold ps : Z) (x : string) : list (Z * Z) :=
  if str_len x <? threshold then [(str_len x, str_len x)]
  else (fun i => (uploaded_after ps (str_len x) i, str_len x)) <$> seqZ 0 (div_ceil (str_len x) ps).

Lemma upload_from_reader_spec cfg duration j stats j' :
  upload_from_reader cfg duration j = (Ok stats, j') ->
  0 < MultipartConfig.part_size cfg -> str_len (content (file j)) < u64_mod ->
  let x := content (file j) in
  let ps := cut (MultipartConfig.threshold cfg) (MultipartConfig.part_size cfg) x in
  stored (upload j') = Some (joined (parts (upload j) ++ ps)%list) /\
  MultipartStats.total_bytes stats = str_len x /\ MultipartStats.total_parts stats = as_u32 (Z.of_nat (length ps)) /\
  progress j' = (progress j ++ calls (MultipartConfig.threshold cfg) (MultipartConfig.part_size cfg) x)%list.
Proof.
  intros E Hps Hlt x ps. unfold upload_from_reader, mbind, SM_bind in E.
  destruct (read_op file_size j) as [[n|?|?] j1] eqn:E1; [|done..]. apply read_op_spec in E1 as (f1 & E1 & ->).
  unfold file_size in E1. destruct (file_call (file j)) as [[?|?] f1'] eqn:C1; [done|]. injection E1 as <- ->.
  apply file_call_content in C1. rewrite C1 in E.
  destruct (read_op file_call _) as [[[]|?|?] j2] eqn:E2; [|done..]. apply read_op_spec in E2 as (f2 & E2 & ->).
  apply file_call_content in E2. cbn in E2. assert (content f2 = x) as Hx by (unfold x; congruence). clear E2 C1.
  subst ps. unfold cut, calls. fold x in E, Hlt. destruct (str_len x <? MultipartConfig.threshold cfg) eqn:Hth.
  - unfold upload_small, mbind, SM_bind in E.
    destruct (read_op read_to_end _) as [[d|?|?] j3] eqn:E3; [|done..]. apply read_op_spec in E3 as (f3 & E3 & ->).
    unfold read_to_end in E3. cbn in E3. destruct (file_call f2) as [[?|?] f3'] eqn:C3; [done|].
    injection E3 as <- ->. apply file_call_content in C3. unfold report, sm_modify in E.
    unfold upload_part, complete_internal, upload_op, mbind, SM_bind, sm_modify in E. cbn in E.
    rewrite C3, Hx in E.
    destruct (put_part x (upload j)) as [[?|[]] up1] eqn:Ep; [done|]. apply put_part_ok in Ep. cbn in E.
    destruct (complete up1) as [[?|[]] up2] eqn:Ec; [done|]. apply complete_ok in Ec. injection E as <- <-. cbn.
    by rewrite <-Ep.
  - unfold MultipartConfig.part_count in E. pose proof (str_len_nonneg x).
    destruct (Z.eqb_spec (MultipartConfig.part_size cfg) 0); [lia|].
    assert ((if str_len x =? 0 then @Ok StorageError.t Z 0 else Ok (div_ceil (str_len x) (MultipartConfig.part_size cfg)))
      = Ok (div_ceil (str_len x) (MultipartConfig.part_size cfg))) as Ecount.
    { destruct (Z.eqb_spec (str_len x) 0) as [->|]; [|done]. unfold div_ceil. rewrite Z.div_small by lia. done. }
    rewrite Ecount in E. clear Ecount.
    destruct (upload_parts _ _ _ _ _) as [[r|?|?] j3] eqn:E3; [|done..].
    apply upload_parts_spec in E3 as (_ & Hparts & Hprog); [|done|cbn; congruence|done|by apply seqZ_parts].
    cbn in Hparts, Hprog. rewrite Hx in Hparts.
    unfold complete_internal, upload_op, mbind, SM_bind in E.
    destruct (complete (upload j3)) as [[?|[]] up2] eqn:Ec; [done|]. apply complete_ok in Ec. injection E as <- <-. cbn.
    rewrite Ec, Hparts, Hprog. destruct (div_ceil_spec (str_len x) (MultipartConfig.part_size cfg)) as [Hc _]; [lia|done|].
    unfold parts_of. rewrite length_fmap, length_seqZ, Z2Nat.id by done.
    by destruct (0 <? r).
Qed.
End Sequential.

(** ** The parallel uploader *)
Section Parallel.
Context {V : Type} `{WriteMultipartLaws V}.
Import ParallelMultipartUploader.
Implicit Types (j : Job V) (cfg : ParallelUploadConfig.t).

Lemma write_parts_spec ps fsize ix j j' :
  write_parts ps fsize ix j = (Ok tt, j') -> 0 < ps -> fsize = str_len (content (file j)) -> fsize < u64_mod ->
  Forall (fun i => 0 <= i /\ i * ps <= fsize) ix ->
  wm_written (upload j') = wm_written (upload j) +:+ joined (part_at ps (content (file j)) <$> ix) /\
  progress j' = (progress j ++ ((fun i => (uploaded_after ps fsize i, fsize)) <$> ix))%list.
Proof.
  revert j. induction ix as [|i ix IH]; intros j; cbn.
  { intros [= <-] _ _ _ _. by rewrite app_nil_r, string_app_nil_r. }
  unfold mbind, SM_bind. intros E Hps Hf Hlt [[Hi Hile] Hix]%Forall_cons.
  destruct (read_part _ _ _ j) as [[d|?|?] j1] eqn:E1; [|done..].
  apply read_part_spec in E1 as (-> & f1 & -> & C1); [|done..].
  unfold report, sm_modify in E. apply IH in E as [Ew Ep]; [|done|cbn; congruence|done|done].
  cbn in Ew, Ep. rewrite Ew, Ep, C1, wm_write_appends, string_app_assoc. by rewrite <-!app_assoc.
Qed.

Lemma parallel_upload_spec conc cfg duration j stats j' :
  upload_from_reader conc cfg duration j = (Ok stats, j') ->
  0 < ParallelUploadConfig.part_size cfg -> str_len (content (file j)) < u64_mod ->
  let x := content (file j) in
  let ps := cut (ParallelUploadConfig.threshold cfg) (ParallelUploadConfig.part_size cfg) x in
  wm_stored (upload j') = Some (wm_written (upload j) +:+ x) /\
  ParallelMultipartStats.total_bytes stats = str_len x /\
  ParallelMultipartStats.total_parts stats = as_u32 (Z.of_nat (length ps)) /\
  progress j' = (progress j ++ calls (ParallelUploadConfig.threshold cfg) (ParallelUploadConfig.part_size cfg) x)%list.
Proof.
  intros E Hps Hlt x ps. unfold upload_from_reader, mbind, SM_bind in E.
  destruct (read_op file_size j) as [[n|?|?] j1] eqn:E1; [|done..]. apply read_op_spec in E1 as (f1 & E1 & ->).
  unfold file_size in E1. destruct (file_call (file j)) as [[?|?] f1'] eqn:C1; [done|]. injection E1 as <- ->.
  apply file_call_content in C1. rewrite C1 in E.
  destruct (read_op file_call _) as [[[]|?|?] j2] eqn:E2; [|done..]. apply read_op_spec in E2 as (f2 & E2 & ->).
  apply file_call_content in E2. cbn in E2. assert (content f2 = x) as Hx by (unfold x; congruence). clear E2 C1.
  subst ps. unfold cut, calls. fold x in E, Hlt. destruct (str_len x <? ParallelUploadConfig.threshold cfg) eqn:Hth.
  - unfold upload_small, mbind, SM_bind in E.
    destruct (read_op read_to_end _) as [[d|?|?] j3] eqn:E3; [|done..]. apply read_op_spec in E3 as (f3 & E3 & ->).
    unfold read_to_end in E3. cbn in E3. destruct (file_call f2) as [[?|?] f3'] eqn:C3; [done|].
    injection E3 as <- ->. apply file_call_content in C3. unfold report, sm_modify, upload_op in E. cbn in E.
    rewrite C3, Hx in E.
    destruct (wm_finish _) as [[?|[]] up2] eqn:Ec; [done|]. apply wm_finish_ok in Ec. injection E as <- <-. cbn.
    by rewrite Ec, wm_write_appends.
  - unfold ParallelUploadConfig.part_count in E. pose proof (str_len_nonneg x).
    destruct (Z.eqb_spec (ParallelUploadConfig.part_size cfg) 0); [lia|].
    assert ((if str_len x =? 0 then @Ok StorageError.t Z 0 else Ok (div_ceil (str_len x) (ParallelUploadConfig.part_size cfg)))
      = Ok (div_ceil (str_len x) (ParallelUploadConfig.part_size cfg))) as Ecount.
    { destruct (Z.eqb_spec (str_len x) 0) as [->|]; [|done]. unfold div_ceil. rewrite Z.div_small by lia. done. }
    rewrite Ecount in E. clear Ecount.
    destruct (write_parts _ _ _ _) as [[[]|?|?] j3] eqn:E3; [|done..].
    apply write_parts_spec in E3 as (Hw & Hprog); [|done|cbn; congruence|done|by apply seqZ_parts].
    cbn in Hw, Hprog. rewrite Hx in Hw. fold (parts_of (ParallelUploadConfig.part_size cfg) x) in Hw.
    rewrite joined_parts_of in Hw by done. unfold upload_op in E.
    destruct (wm_finish (upload j3)) as [[?|[]] up2] eqn:Ec; [done|]. apply wm_finish_ok in Ec. injection E as <- <-. cbn.
    rewrite Ec, Hw, Hprog. destruct (div_ceil_spec (str_len x) (ParallelUploadConfig.part_size cfg)) as [Hc _]; [lia|done|].
    unfold parts_of. rewrite length_fmap, length_seqZ, Z2Nat.id by done. done.
Qed.
End Parallel.

(** ** What an upload achieves *)
Section Results.
Context {U : Type} `{MultipartLaws U} {V : Type} `{WriteMultipartLaws V}.

Lemma joined_cut threshold ps x : 0 < ps -> joined (cut threshold ps x) = x.
Proof. intros Hps. unfold cut. destruct (_ <? _); [cbn; apply string_app_nil_r|by apply joined_parts_of]. Qed.

(** C7: an upload that reports success has stored exactly the file, whatever parts had
    to be retried, and its statistics give the file's length and number of parts. *)
Theorem upload_stores_file cfg duration (j j' : Job U) stats :
  MultipartUploader.upload_from_reader cfg duration j = (Ok stats, j') ->
  0 < MultipartConfig.part_size cfg -> str_len (content (file j)) < u64_mod -> parts (upload j) = [] ->
  stored (upload j') = Some (content (file j)) /\
  MultipartStats.total_bytes stats = str_len (content (file j)) /\
  MultipartStats.total_parts stats =
    as_u32 (Z.of_nat (length (cut (MultipartConfig.threshold cfg) (MultipartConfig.part_size cfg) (content (file j))))).
Proof.
  intros E Hps Hlt Hp. destruct (upload_from_reader_spec cfg duration j stats j' E Hps Hlt) as (Hs & Hb & Hn & _).
  rewrite Hp, app_nil_l, joined_cut in Hs by done. done.
Qed.

(** Equivalence.  The parallel uploader and the sequential one store the same
    object, report the same totals and call the progress callback alike, when both
    succeed on the same file with the same part size and threshold. *)
Theorem parallel_upload_equivalent cfg pcfg conc d1 d2 (j1 j1' : Job U) (j2 j2' : Job V) s1 s2 :
  MultipartUploader.upload_from_reader cfg d1 j1 = (Ok s1, j1') ->
  ParallelMultipartUploader.upload_from_reader conc pcfg d2 j2 = (Ok s2, j2') ->
  content (file j1) = content (file j2) ->
  MultipartConfig.part_size cfg = ParallelUploadConfig.part_size pcfg ->
  MultipartConfig.threshold cfg = ParallelUploadConfig.threshold pcfg ->
  0 < MultipartConfig.part_size cfg -> str_len (content (file j1)) < u64_mod ->
  parts (upload j1) = [] -> wm_written (upload j2) = "" -> progress j1 = progress j2 ->
  stored (upload j1') = wm_stored (upload j2') /\
  MultipartStats.total_bytes s1 = ParallelMultipartStats.total_bytes s2 /\
  MultipartStats.total_parts s1 = ParallelMultipartStats.total_parts s2 /\
  progress j1' = progress j2'.
Proof.
  intros E1 E2 Hx Hps Hth Hpos Hlt Hp Hw Hprog.
  destruct (upload_from_reader_spec cfg d1 j1 s1 j1' E1 Hpos Hlt) as (Hs & Hb & Hn & Hc).
  rewrite Hx in Hlt. rewrite Hps in Hpos. destruct (parallel_upload_spec conc pcfg d2 j2 s2 j2' E2 Hpos Hlt) as (Hs' & Hb' & Hn' & Hc').
  rewrite Hp, app_nil_l, joined_cut in Hs by by rewrite Hps. rewrite Hw in Hs'.
  rewrite Hs, Hs', Hb, Hb', Hn, Hn', Hc, Hc', Hx, Hps, Hth, Hprog. done.
Qed.

(** Bounds.  A part size accepted by [with_part_size] cuts a file at least as
    large as the threshold into parts that object stores accept: all but the last
    have the configured size, at least 5 MiB and at most 5 GiB, and the last one is
    not empty. *)
Theorem parts_have_legal_sizes c cfg n x i d :
  MultipartConfig.with_part_size n c = Ok cfg ->
  parts_of (MultipartConfig.part_size cfg) x !! i = Some d ->
  0 < str_len d <= MAX_PART_SIZE /\
  ((S i < length (parts_of (MultipartConfig.part_size cfg) x))%nat -> MIN_PART_SIZE <= str_len d).
Proof.
  unfold MultipartConfig.with_part_size. intros E Hd.
  destruct (Z.leb_spec MIN_PART_SIZE n), (Z.leb_spec n MAX_PART_SIZE); cbn in E; try done. injection E as <-.
  cbn in *. assert (0 < n) by (unfold MIN_PART_SIZE in *; lia).
  destruct (parts_of_sizes n x i d) as [Hs Hl]; [done..|]. split; [lia|]. intros Hi. rewrite (Hl Hi). lia.
Qed.

(** *** Retries *)

(** A part is accepted after at most [m] failures. *)
Fixpoint recovers (m : nat) (d : string) (u : U) : bool :=
  match put_part d u with
  | (inr _, _) => true
  | (inl _, u') => match m with O => false | S m' => recovers m' d u' end
  end.

Lemma upload_with_retry_recovers m d k le (j : Job U) : recovers m d (upload j) = true ->
  exists n j', MultipartUploader.upload_with_retry (S m) d k le j = (Ok (inl n), j').
Proof.
  revert k le j. induction m as [|m IH]; intros k le j Hr; cbn [recovers] in Hr;
    cbn [MultipartUploader.upload_with_retry]; unfold MultipartUploader.upload_part, upload_op, mbind, SM_bind;
    destruct (put_part d (upload j)) as [[e|[]] u]; [done|by eexists _, _| |by eexists _, _].
  exact (IH (k + 1) (Some (StorageError.Cloud ("Failed to upload part: " +:+ e))) (j <| upload := u |>) Hr).
Qed.

Lemma upload_parts_succeed cfg ix retried (j : Job U) :
  0 < MultipartConfig.part_size cfg -> 0 <= MultipartConfig.max_retries cfg ->
  (forall d u, recovers (Z.to_nat (MultipartConfig.max_retries cfg)) d u = true) ->
  file_outcomes (file j) = [] -> str_len (content (file j)) < u64_mod ->
  Forall (fun i => 0 <= i /\ i * MultipartConfig.part_size cfg <= str_len (content (file j))) ix ->
  exists r j', MultipartUploader.upload_parts cfg (str_len (content (file j))) ix retried j = (Ok r, j').
Proof.
  intros Hps Hmax Hrec. set (x := content (file j)). assert (content (file j) = x) as Hx by done. clearbody x.
  revert retried j Hx. induction ix as [|i ix IH]; intros retried j Hx Hf Hlt Hix; cbn; [by eexists _, _|].
  apply Forall_cons in Hix as [[Hi Hile] Hix]. pose proof (str_len_nonneg x).
  assert (read_part (MultipartConfig.part_size cfg) (str_len x) i j = (Ok (part_at (MultipartConfig.part_size cfg) x i), j)) as E1.
  { unfold read_part, read_op, read_at, file_call, mbind, SM_bind. rewrite Hf. cbn. rewrite Hf, Hx.
    rewrite as_u64_id by (split; nia). unfold saturating_sub. rewrite Z.max_r by lia.
    destruct (Z.leb_spec (i * MultipartConfig.part_size cfg +
      Z.min (MultipartConfig.part_size cfg) (str_len x - i * MultipartConfig.part_size cfg)) (str_len x)); [|lia].
    unfold part_at. by destruct j. }
  unfold mbind, SM_bind. rewrite E1.
  replace (Z.to_nat (MultipartConfig.max_retries cfg + 1)) with (S (Z.to_nat (MultipartConfig.max_retries cfg))) by lia.
  destruct (upload_with_retry_recovers (Z.to_nat (MultipartConfig.max_retries cfg))
    (part_at (MultipartConfig.part_size cfg) x i) 0 None j (Hrec _ _)) as (n & j2 & E2).
  rewrite E2. apply upload_with_retry_parts in E2 as (F2 & _). unfold report, sm_modify.
  apply IH; cbn; try done; by rewrite F2.
Qed.

(** Liveness.  If every part is accepted within [max_retries] retries, the file
    can be read and the upload completed, the upload succeeds. *)
Theorem upload_recovers cfg duration (j : Job U) :
  0 < MultipartConfig.part_size cfg -> 0 <= MultipartConfig.max_retries cfg ->
  (forall d u, recovers (Z.to_nat (MultipartConfig.max_retries cfg)) d u = true) ->
  (forall u, (complete u).1 = inr tt) ->
  file_outcomes (file j) = [] -> str_len (content (file j)) < u64_mod ->
  MultipartConfig.threshold cfg <= str_len (content (file j)) ->
  exists stats j', MultipartUploader.upload_from_reader cfg duration j = (Ok stats, j').
Proof.
  intros Hps Hmax Hrec Hcomp Hf Hlt Hth. unfold MultipartUploader.upload_from_reader, mbind, SM_bind.
  assert (read_op file_size j = (Ok (str_len (content (file j))), j)) as ->.
  { unfold read_op, file_size, file_call. rewrite Hf. by destruct j. }
  assert (read_op file_call j = (Ok tt, j)) as ->.
  { unfold read_op, file_call. rewrite Hf. by destruct j. }
  destruct (Z.ltb_spec (str_len (content (file j))) (MultipartConfig.threshold cfg)); [lia|].
  pose proof (str_len_nonneg (content (file j))).
  assert (exists n, MultipartConfig.part_count cfg (str_len (content (file j))) = Ok n /\
    Forall (fun i => 0 <= i /\ i * MultipartConfig.part_size cfg <= str_len (content (file j))) (seqZ 0 n)) as (n & -> & Hix).
  { unfold MultipartConfig.part_count. destruct (_ =? 0); [by exists 0|].
    destruct (Z.eqb_spec (MultipartConfig.part_size cfg) 0); [lia|]. eexists. split; [done|by apply seqZ_parts]. }
  destruct (upload_parts_succeed cfg (seqZ 0 n) 0 j Hps Hmax Hrec Hf Hlt Hix) as (r & j2 & ->).
  unfold MultipartUploader.complete_internal, upload_op, mbind, SM_bind. specialize (Hcomp (upload j2)).
  destruct (complete (upload j2)) as [? u]. cbn in Hcomp. subst. by eexists _, _.
Qed.

(** A part that fails on every attempt fails the upload, with the error of its last
    attempt, and the multipart upload is aborted, so that no parts are left behind. *)
Theorem exhausted_part_aborts cfg fsize i ix retried (j j1 j2 : Job U) d e :
  read_part (MultipartConfig.part_size cfg) fsize i j = (Ok d, j1) ->
  MultipartUploader.upload_with_retry (Z.to_nat (MultipartConfig.max_retries cfg + 1)) d 0 None j1 = (Ok (inr (Some e)), j2) ->
  exists m u, MultipartUploader.upload_parts cfg fsize (i :: ix) retried j = (Err e, j2 <| upload := (abort (upload j2)).2 |>) /\
    e = StorageError.Cloud ("Failed to upload part: " +:+ m) /\ put_part d u = (inl m, upload j2).
Proof.
  intros E1 E2. cbn. unfold mbind, SM_bind. rewrite E1, E2.
  assert (forall n k le j, MultipartUploader.upload_with_retry n d k le j = (Ok (inr (Some e)), j2) ->
    (n = 0%nat /\ le = Some e /\ j = j2) \/
    exists m u, e = StorageError.Cloud ("Failed to upload part: " +:+ m) /\ put_part d u = (inl m, upload j2)) as Hlast.
  { clear. induction n as [|n IH]; intros k le j; cbn; [intros [= -> ->]; by left|].
    unfold MultipartUploader.upload_part, upload_op, mbind, SM_bind.
    destruct (put_part d (upload j)) as [[m|[]] u] eqn:Ep; [|done]. cbn.
    intros [(-> & [= <-] & <-)|Hr]%IH; right; [|done]. exists m, (upload j). by rewrite Ep. }
  apply Hlast in E2 as [(_ & ? & _)|(m & u & -> & Hu)]; [done|]. by exists m, u.
Qed.
End Results.

(** ** Witnesses

    A store that refuses every other part, and one whose uploads always succeed. *)
Module Flaky.
Record t := mk { acked : list string; object : option string; next_fails : bool }.

#[global] Instance ops : MultipartOps t := {
  put_part d u := if next_fails u then (inl "503", mk (acked u) (object u) false)
                  else (inr tt, mk (acked u ++ [d])%list (object u) true);
  complete u := (inr tt, mk (acked u) (Some (joined (acked u))) (next_fails u));
  abort u := (inr tt, mk [] None (next_fails u)) }.

#[global] Instance laws : MultipartLaws t.
Proof.
  refine {| parts := acked; stored := object |}; cbn.
  - intros d u u'. by destruct (next_fails u); intros [= <-].
  - intros d u e u'. by destruct (next_fails u); intros [= <- <-].
  - by intros u u' [= <-].
Defined.
End Flaky.

Module Steady.
Record t := mk { written : string; object : option string }.

#[global] Instance ops : WriteMultipartOps t := {
  wm_write d v := mk (written v +:+ d) (object v);
  wm_finish v := (inr tt, mk (written v) (Some (written v)));
  wm_abort v := (inr tt, mk "" None) }.

#[global] Instance laws : WriteMultipartLaws t.
Proof. refine {| wm_written := written; wm_stored := object |}; cbn; [done|]. by intros v v' [= <-]. Defined.
End Steady.

Section Witnesses.
Definition sim_mcfg : MultipartConfig.t := MultipartConfig.mk 4 4 6 1 300.
Definition sim_pcfg : ParallelUploadConfig.t := ParallelUploadConfig.mk 4 2 3 6.
Definition sim_file : File := mkFile "0123456789" [].
Definition sim_job : Job Flaky.t := mkJob (Flaky.mk [] None true) sim_file 0 [].
Definition sim_pjob : Job Steady.t := mkJob (Steady.mk "" None) sim_file 0 [].
Definition sim_upload := MultipartUploader.upload_from_reader sim_mcfg 7 sim_job.
Definition sim_pupload := ParallelMultipartUploader.upload_from_reader 2 sim_pcfg 7 sim_pjob.

Lemma upload_stores_file_witness : Flaky.object (upload sim_upload.2) = Some "0123456789".
Proof.
  refine (proj1 (upload_stores_file sim_mcfg 7 sim_job sim_upload.2 (MultipartStats.mk 10 3 3 7) _ _ _ _));
    vm_compute; reflexivity.
Defined.

Lemma parallel_upload_equivalent_witness :
  Flaky.object (upload sim_upload.2) = Steady.object (upload sim_pupload.2) /\ progress sim_upload.2 = [(4, 10); (8, 10); (10, 10)].
Proof.
  split; [|vm_compute; reflexivity].
  refine (proj1 (parallel_upload_equivalent sim_mcfg sim_pcfg 2 7 7 sim_job sim_upload.2 sim_pjob sim_pupload.2
    (MultipartStats.mk 10 3 3 7) (ParallelMultipartStats.mk 10 3 0 7 2) _ _ _ _ _ _ _ _ _ _)); vm_compute; reflexivity.
Defined.

Lemma parts_have_legal_sizes_witness : 0 < str_len "abc" <= MAX_PART_SIZE.
Proof.
  refine (proj1 (parts_have_legal_sizes MultipartConfig.default (MultipartConfig.default <| MultipartConfig.part_size := MIN_PART_SIZE |>)
    MIN_PART_SIZE "abc" 0 "abc" _ _)); vm_compute; reflexivity.
Defined.

Lemma upload_recovers_witness : exists stats j', sim_upload = (Ok stats, j').
Proof.
  refine (upload_recovers sim_mcfg 7 sim_job _ _ _ _ _ _ _); try (vm_compute; reflexivity || discriminate).
  intros d [a o []]; reflexivity.
Defined.

(** Without retries the first part is refused. *)
Lemma exhausted_part_aborts_witness : exists m u,
  MultipartUploader.upload_parts (sim_mcfg <| MultipartConfig.max_retries := 0 |>) 10 [0; 1; 2] 0 sim_job =
    (Err (StorageError.Cloud "Failed to upload part: 503"), mkJob (Flaky.mk [] None false) sim_file 0 []) /\
  put_part "0123" u = (inl m, Flaky.mk [] None false).
Proof.
  destruct (exhausted_part_aborts (sim_mcfg <| MultipartConfig.max_retries := 0 |>) 10 0 [1; 2] 0 sim_job sim_job
    (mkJob (Flaky.mk [] None false) sim_file 0 []) "0123" (StorageError.Cloud "Failed to upload part: 503"))
    as (m & u & E & _ & Hu); [vm_compute; reflexivity|vm_compute; reflexivity|].
  exists m, u. split; [exact E|exact Hu].
Defined.
End Witnesses.
