(* ===== verification/Alignment.v ===== *)
(** * Frame alignment

    crates/roboflow-dataset/src/formats/alignment: messages of several topics are
    collected into frames at the rate of the dataset.  [FrameAlignmentBuffer] keeps the
    frames that wait for messages sorted by timestamp; [FrameAligner] passes finished
    frames to a processor.

    What a message contributes to a frame (decoded image, numeric values) is a
    parameter: it comes from the [robocodec] values and the image decoders.  Wall-clock
    diagnostics are left out. *)
From S2P Require Import Prelude.
Local Open Scope string_scope.
Local Open Scope list_scope.
Local Open Scope Z_scope.

Definition NANOS : Z := 1000000000.

(** ** Configuration and criteria *)
Module StreamingConfig.
Record t := mk { fps : Z; completion_window_ns : Z; feature_requirements : gmap string Z }.
#[global] Instance t_eta : Settable t := fun r => mk (fps r) (completion_window_ns r) (feature_requirements r).

(** [1_000_000_000u64 / fps as u64]. *)
Definition interval_of (fps : Z) : panics Z :=
  if fps =? 0 then Panic "attempt to divide by zero" else Ok (NANOS / fps).
Definition default_completion_window (fps : Z) : panics Z :=
  match interval_of fps with Ok i => Ok (i * 3) | Err e => Err e | Panic m => Panic m end.
Definition with_fps (fps : Z) : panics t :=
  match default_completion_window fps with Ok w => Ok (mk fps w ∅) | Err e => Err e | Panic m => Panic m end.
Definition frame_interval_ns (c : t) : panics Z := interval_of (fps c).
Definition with_completion_window (w : Z) (c : t) : t := c <| completion_window_ns := w |>.
Definition require_feature (f : string) (n : Z) (c : t) : t :=
  c <| feature_requirements := <[f := n]> (feature_requirements c) |>.
End StreamingConfig.

(** [min_completeness] is stored and never read. *)
Module FrameCompletionCriteria.
Record t := mk { features : gmap string Z }.
Definition new : t := mk ∅.
Definition require_feature (f : string) (n : Z) (c : t) : t := mk (<[f := n]> (features c)).

(** The number of elements of the set equal to [f]. *)
Definition count_of (f : string) (received : gset string) : Z := if decide (f ∈ received) then 1 else 0.

Definition is_complete (c : t) (received : gset string) : bool :=
  if negb (forallb (fun '(f, min_count) => negb (count_of f received <? min_count)) (map_to_list (features c))) then false
  else if negb (bool_decide (features c = ∅)) && bool_decide (received = ∅) then false
  else if bool_decide (features c = ∅) && negb (bool_decide (received = ∅)) then true
  else if bool_decide (features c = ∅) && bool_decide (received = ∅) then false
  else true.
Definition required_feature_count (c : t) : nat := size (features c).
End FrameCompletionCriteria.

Module AlignmentStats.
Record t := mk { frames_processed : Z; normal_completions : Z; force_completions : Z; peak_buffer_size : Z }.
#[global] Instance t_eta : Settable t := fun r =>
  mk (frames_processed r) (normal_completions r) (force_completions r) (peak_buffer_size r).
Definition new : t := mk 0 0 0 0.
Definition record_normal_completion (s : t) : t :=
  s <| normal_completions := u64_add (normal_completions s) 1 |> <| frames_processed := u64_add (frames_processed s) 1 |>.
Definition record_force_completion (s : t) : t :=
  s <| force_completions := u64_add (force_completions s) 1 |> <| frames_processed := u64_add (frames_processed s) 1 |>.
Definition update_peak_buffer (n : Z) (s : t) : t :=
  if peak_buffer_size s <? n then s <| peak_buffer_size := n |> else s.
End AlignmentStats.

(** ** Binary search

    [slice::binary_search_by_key] of the standard library: [inl] an index with the
    key, or [inr] where the key belongs. *)
Section BinarySearch.
Context {A : Type} (key : A -> Z).

Fixpoint search_base (fuel : nat) (l : list A) (k : Z) (base size : nat) : nat :=
  match fuel with
  | O => base
  | S fuel' =>
      if (size <=? 1)%nat then base
      else
        let half := (size / 2)%nat in
        let mid := (base + half)%nat in
        let base := match l !! mid with
                    | Some x => if k <? key x then base else mid
                    | None => base
                    end in
        search_base fuel' l k base (size - half)
  end.

Definition binary_search (l : list A) (k : Z) : nat + nat :=
  match l with
  | [] => inr 0%nat
  | _ =>
      let base := search_base (length l) l k 0 (length l) in
      match l !! base with
      | None => inr base
      | Some x =>
          if key x =? k then inl base
          else if key x <? k then inr (S base) else inr base
      end
  end.
End BinarySearch.

(** ** Frames *)
Section Frames.
(** [ImageData], the numeric vectors and the timestamped message's payload. *)
Context {ImageData Values Message : Type}.

Record AlignedFrame := mkFrame {
  frame_index : Z; frame_timestamp : Z;
  images : gmap string ImageData; states : gmap string Values; actions : gmap string Values }.
#[global] Instance AlignedFrame_eta : Settable AlignedFrame := fun r =>
  mkFrame (frame_index r) (frame_timestamp r) (images r) (states r) (actions r).
Definition new_frame (index ts : Z) : AlignedFrame := mkFrame index ts ∅ ∅ ∅.

Record PartialFrame := mkPartial {
  timestamp : Z; index : Z; frame : AlignedFrame; received_features : gset string; eligible_timestamp : Z }.
#[global] Instance PartialFrame_eta : Settable PartialFrame := fun r =>
  mkPartial (timestamp r) (index r) (frame r) (received_features r) (eligible_timestamp r).
Definition new_partial (index ts eligible : Z) : PartialFrame := mkPartial ts index (new_frame index ts) ∅ eligible.
Definition add_feature (f : string) (p : PartialFrame) : PartialFrame :=
  p <| received_features := {[f]} ∪ received_features p |>.

Record TimestampedMessage := mkMsg { log_time : Z; message : Message }.

(** What a message with a feature name contributes. *)
Context (image_of : Message -> string -> option ImageData) (values_of : Message -> string -> option Values).

Record FrameAlignmentBuffer := mkBuffer {
  active_frames : list PartialFrame;
  config : StreamingConfig.t;
  completion_criteria : FrameCompletionCriteria.t;
  stats : AlignmentStats.t;
  next_frame_index : Z;
  current_timestamp : Z }.
#[global] Instance FrameAlignmentBuffer_eta : Settable FrameAlignmentBuffer := fun r =>
  mkBuffer (active_frames r) (config r) (completion_criteria r) (stats r) (next_frame_index r) (current_timestamp r).

Definition build_completion_criteria (c : StreamingConfig.t) : FrameCompletionCriteria.t :=
  FrameCompletionCriteria.mk (StreamingConfig.feature_requirements c).
Definition with_completion_criteria (c : StreamingConfig.t) (k : FrameCompletionCriteria.t) : FrameAlignmentBuffer :=
  mkBuffer [] c k AlignmentStats.new 0 0.
Definition new (c : StreamingConfig.t) : FrameAlignmentBuffer := with_completion_criteria c (build_completion_criteria c).

(** Rounding to the nearest boundary; a rate above 10^9 has interval 0. *)
Definition align_to_frame_boundary (c : StreamingConfig.t) (ts : Z) : panics Z :=
  match StreamingConfig.frame_interval_ns c with
  | Ok interval =>
      let half_interval := saturating_add64 interval 1 / 2 in
      if interval =? 0 then Panic "attempt to divide by zero"
      else Ok (saturating_add64 ts half_interval / interval * interval)
  | Err e => Err e
  | Panic m => Panic m
  end.

(** The buffer with a frame for the timestamp, and where it is. *)
Definition find_or_create_frame (ts : Z) (b : FrameAlignmentBuffer) : nat * FrameAlignmentBuffer :=
  match binary_search timestamp (active_frames b) ts with
  | inl idx => (idx, b)
  | inr idx =>
      let frame_idx := next_frame_index b in
      let eligible := saturating_add64 ts (StreamingConfig.completion_window_ns (config b)) in
      (idx, b <| next_frame_index := default u64_max (checked_add64 frame_idx 1) |>
              <| active_frames := take idx (active_frames b) ++ new_partial frame_idx ts eligible :: drop idx (active_frames b) |>)
  end.

(** Steps 4 to 6 of [process_message]. *)
Definition add_message (m : Message) (feature : string) (p : PartialFrame) : PartialFrame :=
  let p := add_feature feature p in
  let p := match image_of m feature with
           | Some d => p <| frame := frame p <| images := <[feature := d]> (images (frame p)) |> |>
           | None => p
           end in
  match values_of m feature with
  | None => p
  | Some v =>
      if starts_with feature "action."
      then p <| frame := frame p <| actions := <[feature := v]> (actions (frame p)) |> |>
      else p <| frame := frame p <| states := <[feature := v]> (states (frame p)) |> |>
  end.

Definition data_complete (b : FrameAlignmentBuffer) (p : PartialFrame) : bool :=
  FrameCompletionCriteria.is_complete (completion_criteria b) (received_features p).
Definition ready_to_emit (b : FrameAlignmentBuffer) (p : PartialFrame) : bool :=
  data_complete b p || (eligible_timestamp p <=? current_timestamp b).

(** A finished frame is numbered by its place among those emitted with it. *)
Definition emit (b : FrameAlignmentBuffer) (p : PartialFrame) (completed : list AlignedFrame)
  : list AlignedFrame * FrameAlignmentBuffer :=
  (completed ++ [frame p <| frame_index := Z.of_nat (length completed) |>],
   b <| stats := if data_complete b p then AlignmentStats.record_normal_completion (stats b)
                 else AlignmentStats.record_force_completion (stats b) |>).

(** The indices of the frames to remove, in order. *)
Fixpoint indices_from (n : nat) (f : PartialFrame -> bool) (l : list PartialFrame) : list nat :=
  match l with
  | [] => []
  | p :: l' => if f p then n :: indices_from (S n) f l' else indices_from (S n) f l'
  end.

Fixpoint remove_all (idxs : list nat) (completed : list AlignedFrame) (b : FrameAlignmentBuffer)
  : list AlignedFrame * FrameAlignmentBuffer :=
  match idxs with
  | [] => (completed, b)
  | i :: idxs' =>
      match active_frames b !! i with
      | None => (completed, b)
      | Some p =>
          let b := b <| active_frames := delete i (active_frames b) |> in
          let '(completed, b) := emit b p completed in
          remove_all idxs' completed b
      end
  end.

Definition check_completions (b : FrameAlignmentBuffer) : list AlignedFrame * FrameAlignmentBuffer :=
  let to_remove := indices_from 0 (ready_to_emit b) (active_frames b) in
  let '(completed, b) := remove_all (rev to_remove) [] b in
  (completed, b <| stats := AlignmentStats.update_peak_buffer (Z.of_nat (length (active_frames b))) (stats b) |>).

Definition process_message (msg : TimestampedMessage) (feature : string) (b : FrameAlignmentBuffer)
  : panics (list AlignedFrame * FrameAlignmentBuffer) :=
  let b := b <| current_timestamp := log_time msg |> in
  match align_to_frame_boundary (config b) (log_time msg) with
  | Ok aligned_ts =>
      let '(i, b) := find_or_create_frame aligned_ts b in
      let b := b <| active_frames := alter (add_message (message msg) feature) i (active_frames b) |> in
      Ok (check_completions b)
  | Err e => Err e
  | Panic m => Panic m
  end.

Fixpoint flush_all (ps : list PartialFrame) (completed : list AlignedFrame) (b : FrameAlignmentBuffer)
  : list AlignedFrame * FrameAlignmentBuffer :=
  match ps with
  | [] => (completed, b)
  | p :: ps' => let '(completed, b) := emit b p completed in flush_all ps' completed b
  end.

Definition flush (b : FrameAlignmentBuffer) : list AlignedFrame * FrameAlignmentBuffer :=
  flush_all (active_frames b) [] (b <| active_frames := [] |>).

Definition len (b : FrameAlignmentBuffer) : nat := length (active_frames b).
Definition is_empty (b : FrameAlignmentBuffer) : bool := match active_frames b with [] => true | _ => false end.
End Frames.
Arguments AlignedFrame : clear implicits.
Arguments PartialFrame : clear implicits.
Arguments FrameAlignmentBuffer : clear implicits.
Arguments TimestampedMessage : clear implicits.

(** ** Binary search finds what linear search finds *)
Section Search.
Context {A : Type} (key : A -> Z).

(** Strictly increasing keys. *)
Definition ordered (l : list A) : Prop :=
  forall i j x y, l !! i = Some x -> l !! j = Some y -> (i < j)%nat -> key x < key y.

Lemma search_base_spec fuel l k base size :
  (size <= fuel)%nat -> (1 <= size)%nat -> (base + size <= length l)%nat ->
  (base = 0%nat \/ exists x, l !! base = Some x /\ key x <= k) ->
  (forall i x, (base + size <= i)%nat -> l !! i = Some x -> k < key x) -> ordered l ->
  let b := search_base key fuel l k base size in
  (b < length l)%nat /\ (b = 0%nat \/ exists x, l !! b = Some x /\ key x <= k) /\
  forall i x, (b < i)%nat -> l !! i = Some x -> k < key x.
Proof.
  revert base size. induction fuel as [|fuel IH]; intros base size Hf Hs Hlen Hbase Habove Hord; cbn [search_base]; [lia|].
  destruct (Nat.leb_spec size 1) as [Hle|Hgt].
  { split_and!; [lia|done|]. intros i x Hi. apply Habove. lia. }
  pose proof (Nat.div_mod size 2 ltac:(lia)). pose proof (Nat.mod_upper_bound size 2 ltac:(lia)).
  destruct (lookup_lt_is_Some_2 l (base + size / 2)) as [y Hy]; [lia|]. rewrite Hy.
  destruct (Z.ltb_spec k (key y)).
  - apply IH; try done; [lia..|]. intros i x Hi Hx.
    destruct (decide (i = (base + size / 2)%nat)) as [->|]; [congruence|].
    pose proof (Hord (base + size / 2)%nat i y x Hy Hx ltac:(lia)). lia.
  - apply IH; try done; [lia..| |].
    + right. by exists y.
    + intros i x Hi. apply Habove. lia.
Qed.

(** What [slice::binary_search] is documented to return. *)
Lemma binary_search_spec l k : ordered l ->
  match binary_search key l k with
  | inl i => exists x, l !! i = Some x /\ key x = k
  | inr i => (i <= length l)%nat /\ (forall j x, (j < i)%nat -> l !! j = Some x -> key x < k) /\
             (forall j x, (i <= j)%nat -> l !! j = Some x -> k < key x)
  end.
Proof.
  intros Hord. unfold binary_search. destruct l as [|z l'] eqn:El; [split_and!; [done|done|by intros]|].
  rewrite <-El in *. assert (1 <= length l)%nat by (subst; cbn; lia). clear El z l'.
  destruct (search_base_spec (length l) l k 0 (length l)) as (Hb & Hbase & Habove);
    [lia|lia|done|by left| |done|]; [intros i x Hi Hx; apply lookup_lt_Some in Hx; lia|].
  set (b := search_base key (length l) l k 0 (length l)) in *.
  destruct (lookup_lt_is_Some_2 l b Hb) as [x Hx]. rewrite Hx.
  destruct (Z.eqb_spec (key x) k); [by exists x|].
  destruct (Z.ltb_spec (key x) k) as [Hlt|Hge].
  - split_and!; [lia| |intros j y Hj; apply Habove; lia]. intros j y Hj Hy.
    destruct (decide (j = b)) as [->|]; [congruence|]. pose proof (Hord j b y x Hy Hx ltac:(lia)). lia.
  - destruct Hbase as [Hb0|(x' & Hx' & Hk)]; [|simplify_eq; lia]. rewrite Hb0 in *.
    split_and!; [lia|lia|]. intros j y Hj Hy.
    destruct (decide (j = 0)%nat) as [->|]; [simplify_eq; lia|]. apply (Habove j y); [lia|done].
Qed.

(** Linear search: the first element with the key, or the number of smaller ones. *)
Fixpoint linear_search (l : list A) (k : Z) (n : nat) : nat + nat :=
  match l with
  | [] => inr n
  | x :: l' => if key x =? k then inl n else if k <? key x then inr n else linear_search l' k (S n)
  end.

(** Where a key is, or belongs. *)
Definition found_at (l : list A) (k : Z) (r : nat + nat) : Prop :=
  match r with
  | inl i => exists x, l !! i = Some x /\ key x = k
  | inr i => (i <= length l)%nat /\ (forall j x, (j < i)%nat -> l !! j = Some x -> key x < k) /\
             (forall j x, (i <= j)%nat -> l !! j = Some x -> k < key x)
  end.

Lemma ordered_tail x l : ordered (x :: l) -> ordered l.
Proof. intros Ho i j y z Hy Hz Hij. apply (Ho (S i) (S j)); done || lia. Qed.

Lemma ordered_head x l i y : ordered (x :: l) -> l !! i = Some y -> key x < key y.
Proof. intros Ho Hy. apply (Ho 0%nat (S i)); done || lia. Qed.

Lemma ordered_cons x l : (forall y, y ∈ l -> key x < key y) -> ordered l -> ordered (x :: l).
Proof.
  intros Hx Ho [|i] [|j] y z Hy Hz Hij; simplify_eq/=; [lia| |lia|].
  - apply Hx. by eapply list_elem_of_lookup_2.
  - apply (Ho i j); done || lia.
Qed.

Lemma ordered_elem x l y : ordered (x :: l) -> y ∈ l -> key x < key y.
Proof. intros Ho [i Hi]%list_elem_of_lookup_1. by eapply ordered_head. Qed.

Lemma ordered_filter f l : ordered l -> ordered (List.filter f l).
Proof.
  induction l as [|x l IH]; cbn; [done|]. intros Ho. specialize (IH (ordered_tail _ _ Ho)).
  destruct (f x); [|done]. apply ordered_cons; [|done]. intros y Hy%list_elem_of_In%filter_In.
  destruct Hy as [Hy _]. apply (ordered_elem x l); [done|]. by apply list_elem_of_In.
Qed.

Lemma ordered_app l l' : ordered l -> ordered l' -> (forall x y, x ∈ l -> y ∈ l' -> key x < key y) -> ordered (l ++ l').
Proof.
  induction l as [|x l IH]; intros Ho Ho' Hx; [done|]. apply ordered_cons.
  - intros y [Hy|Hy]%elem_of_app; [by eapply ordered_elem|]. apply Hx; [left|done].
  - apply IH; [by eapply ordered_tail|done|]. intros y z Hy Hz. apply Hx; [by right|done].
Qed.

(** Replacing an element by one with the same key. *)
Lemma ordered_alter g i l : (forall x, key (g x) = key x) -> ordered l -> ordered (alter g i l).
Proof.
  intros Hg Ho. assert (forall j y, alter g i l !! j = Some y -> exists x, l !! j = Some x /\ key y = key x) as Hl.
  { intros j y. destruct (decide (i = j)) as [->|]; [|rewrite list_lookup_alter_ne by done; eauto].
    rewrite list_lookup_alter_eq. intros (x & Hx & ->)%fmap_Some. eauto. }
  intros j j' x y (x' & Hx & ->)%Hl (y' & Hy & ->)%Hl. by apply Ho.
Qed.

Lemma linear_search_spec l k n : ordered l ->
  exists r, linear_search l k n = (match r with inl i => inl (n + i)%nat | inr i => inr (n + i)%nat end) /\ found_at l k r.
Proof.
  revert n. induction l as [|x l IH]; intros n Ho; cbn.
  - exists (inr 0%nat). rewrite Nat.add_0_r. split; [done|]. split_and!; by intros || done.
  - destruct (Z.eqb_spec (key x) k); [exists (inl 0%nat); rewrite Nat.add_0_r; split; [done|by exists x]|].
    destruct (Z.ltb_spec k (key x)).
    + exists (inr 0%nat). rewrite Nat.add_0_r. split; [done|]. split_and!; [cbn; lia|lia|].
      intros [|j] y _ Hy; [by simplify_eq/=|]. pose proof (ordered_head _ _ _ _ Ho Hy). lia.
    + destruct (IH (S n) (ordered_tail _ _ Ho)) as (r & -> & Hr). destruct r as [i|i].
      * exists (inl (S i)). split; [f_equal; lia|exact Hr].
      * exists (inr (S i)). split; [f_equal; lia|]. destruct Hr as (Hi & Hlt & Hgt). split_and!; [cbn; lia| |].
        -- intros [|j] y Hj Hy; [simplify_eq/=; lia|]. apply (Hlt j y); [lia|done].
        -- intros [|j] y Hj Hy; [lia|]. apply (Hgt j y); [lia|done].
Qed.

Lemma found_at_unique l k r r' : ordered l -> found_at l k r -> found_at l k r' -> r = r'.
Proof.
  intros Ho. assert (forall i j, (exists x, l !! i = Some x /\ key x = k) -> found_at l k (inr j) -> False) as Hcross.
  { intros i j (x & Hx & Hk) (_ & Hlt & Hgt). destruct (decide (i < j)%nat) as [Hij|Hij];
      [specialize (Hlt _ _ Hij Hx)|specialize (Hgt i x ltac:(lia) Hx)]; lia. }
  assert (forall i j, found_at l k (inr i) -> found_at l k (inr j) -> (i < j)%nat -> False) as Hord.
  { intros i j (Hi & _ & Hgt) (Hj & Hlt & _) Hij. destruct (lookup_lt_is_Some_2 l i) as [x Hx]; [lia|].
    specialize (Hgt i x ltac:(lia) Hx). specialize (Hlt i x Hij Hx). lia. }
  destruct r as [i|i], r' as [j|j]; intros Hi Hj.
  - destruct Hi as (x & Hx & Hkx), Hj as (y & Hy & Hky). f_equal.
    destruct (Nat.lt_trichotomy i j) as [Hij|[|Hij]]; [|done|].
    + pose proof (Ho _ _ _ _ Hx Hy Hij). lia.
    + pose proof (Ho _ _ _ _ Hy Hx Hij). lia.
  - destruct (Hcross i j Hi Hj).
  - destruct (Hcross j i Hj Hi).
  - f_equal. destruct (Nat.lt_trichotomy i j) as [Hij|[|Hij]]; [|done|]; exfalso; eauto.
Qed.

(** Equivalence.  On a list with increasing keys the binary search returns what a
    scan from the front returns: the place of the key, or where it belongs. *)
Theorem binary_search_is_linear l k : ordered l -> binary_search key l k = linear_search l k 0.
Proof.
  intros Ho. destruct (linear_search_spec l k 0 Ho) as (r & -> & Hr).
  rewrite (found_at_unique l k (binary_search key l k) r Ho); [by destruct r| |done].
  apply (binary_search_spec l k Ho).
Qed.
End Search.

(** ** The buffer *)
Section Buffer.
Context {ImageData Values Message : Type}.
Context (image_of : Message -> string -> option ImageData) (values_of : Message -> string -> option Values).
Implicit Types (b : FrameAlignmentBuffer ImageData Values) (p : PartialFrame ImageData Values).
Abbreviation process_message := (process_message image_of values_of).

(** Finished frames, numbered from [n]. *)
Definition number (n : nat) (ps : list (PartialFrame ImageData Values)) : list (AlignedFrame ImageData Values) :=
  imap (fun i p => frame p <| frame_index := Z.of_nat (n + i) |>) ps.

Lemma number_app n ps qs : number n (ps ++ qs) = number n ps ++ number (n + length ps) qs.
Proof.
  unfold number. rewrite imap_app. f_equal. apply imap_ext. intros i p _. cbn. by rewrite Nat.add_assoc.
Qed.

Lemma number_cons n p ps : number n (p :: ps) = frame p <| frame_index := Z.of_nat n |> :: number (S n) ps.
Proof.
  unfold number. rewrite imap_cons, Nat.add_0_r. f_equal. apply imap_ext. intros i q _. cbn. by rewrite Nat.add_succ_r.
Qed.

Lemma length_number n ps : length (number n ps) = length ps.
Proof. apply length_imap. Qed.

(** What emitting frames does besides: the statistics. *)
Definition same_setup b b' : Prop :=
  config b' = config b /\ completion_criteria b' = completion_criteria b /\
  next_frame_index b' = next_frame_index b /\ current_timestamp b' = current_timestamp b.

Lemma indices_from_app n f (l l' : list (PartialFrame ImageData Values)) :
  indices_from n f (l ++ l') = indices_from n f l ++ indices_from (n + length l) f l'.
Proof.
  revert n. induction l as [|p l IH]; intros n; cbn; [by rewrite Nat.add_0_r|].
  rewrite IH. replace (S n + length l)%nat with (n + S (length l))%nat by lia. by destruct (f p).
Qed.

(** Removing from the end what satisfies [f]. *)
Lemma remove_all_spec f l rest completed b : active_frames b = l ++ rest ->
  exists b', remove_all (rev (indices_from 0 f l)) completed b =
      (completed ++ number (length completed) (rev (List.filter f l)), b') /\
    active_frames b' = List.filter (fun p => negb (f p)) l ++ rest /\ same_setup b b' /\
    AlignmentStats.frames_processed (stats b') =
      Nat.iter (length (List.filter f l)) (fun n => u64_add n 1) (AlignmentStats.frames_processed (stats b)).
Proof.
  revert rest completed b. induction l as [|p l IH] using rev_ind; intros rest completed b Hb.
  { exists b. cbn. rewrite app_nil_r. done. }
  rewrite indices_from_app, rev_app_distr, !List.filter_app. rewrite <-app_assoc in Hb. cbn [indices_from List.filter].
  destruct (f p) eqn:Ef; cbn [negb].
  - rewrite Nat.add_0_l. cbn [rev app remove_all]. rewrite Hb, lookup_app_r, Nat.sub_diag by lia. cbn [lookup list_lookup app].
    unfold emit. cbn zeta.
    match goal with |- context [remove_all _ ?c ?b0] =>
      destruct (IH rest c b0) as (b' & -> & Ha & (C1 & C2 & C3 & C4) & Hst) end.
    { apply delete_middle. }
    exists b'. rewrite app_nil_r, (rev_app_distr (List.filter f l)). cbn [rev app]. split_and!; try done.
    + rewrite number_cons, <-app_assoc, length_app. cbn [length]. by rewrite Nat.add_1_r.
    + rewrite Hst, length_app. cbn [length]. rewrite Nat.add_1_r, Nat.iter_succ_r. f_equal.
      unfold set_field; cbn. by destruct (data_complete _ p).
  - cbn [rev app]. destruct (IH (p :: rest) completed b) as (b' & -> & Ha & Hs & Hst); [done|]. exists b'.
    rewrite !app_nil_r. rewrite <-app_assoc. done.
Qed.

Lemma check_completions_spec b :
  exists b', check_completions b = (number 0 (rev (List.filter (ready_to_emit b) (active_frames b))), b') /\
    active_frames b' = List.filter (fun p => negb (ready_to_emit b p)) (active_frames b) /\ same_setup b b' /\
    AlignmentStats.frames_processed (stats b') =
      Nat.iter (length (List.filter (ready_to_emit b) (active_frames b))) (fun n => u64_add n 1)
        (AlignmentStats.frames_processed (stats b)).
Proof.
  unfold check_completions. destruct (remove_all_spec (ready_to_emit b) (active_frames b) [] [] b) as (b' & E & Ha & Hs & Hst);
    [by rewrite app_nil_r|]. rewrite E. cbn [app length]. eexists. split; [done|]. rewrite app_nil_r in Ha. split_and!; try done.
  cbn. rewrite <-Hst. unfold AlignmentStats.update_peak_buffer. by destruct (_ <? _).
Qed.

Lemma add_message_frame m f p :
  timestamp (add_message image_of values_of m f p) = timestamp p /\
  eligible_timestamp (add_message image_of values_of m f p) = eligible_timestamp p /\
  received_features (add_message image_of values_of m f p) = {[f]} ∪ received_features p /\
  frame_timestamp (frame (add_message image_of values_of m f p)) = frame_timestamp (frame p).
Proof.
  unfold add_message. destruct (image_of m f), (values_of m f); try destruct (starts_with f "action."); done.
Qed.

(** *** The invariant *)
Definition window b : Z := StreamingConfig.completion_window_ns (config b).

(** A waiting frame: at a boundary, eligible after the window, marked with its time. *)
Record frame_ok interval w p : Prop := {
  fo_boundary : (interval | timestamp p);
  fo_nonneg : 0 <= timestamp p;
  fo_eligible : eligible_timestamp p = saturating_add64 (timestamp p) w;
  fo_time : frame_timestamp (frame p) = timestamp p }.

Record buffer_ok interval b : Prop := {
  bo_ordered : ordered timestamp (active_frames b);
  bo_frames : Forall (frame_ok interval (window b)) (active_frames b) }.

Lemma find_or_create_spec interval ts b : buffer_ok interval b -> (interval | ts) -> 0 <= ts ->
  exists i b1 p, find_or_create_frame ts b = (i, b1) /\ buffer_ok interval b1 /\
    active_frames b1 !! i = Some p /\ timestamp p = ts /\
    config b1 = config b /\ completion_criteria b1 = completion_criteria b /\
    current_timestamp b1 = current_timestamp b /\ stats b1 = stats b /\
    ((b1 = b) \/
     (active_frames b1 = take i (active_frames b) ++ p :: drop i (active_frames b) /\
      received_features p = ∅ /\ Forall (fun q => timestamp q <> ts) (active_frames b) /\
      next_frame_index b1 = default u64_max (checked_add64 (next_frame_index b) 1))).
Proof.
  intros [Ho Hf] Hd Hts. unfold find_or_create_frame. pose proof (binary_search_spec timestamp _ ts Ho) as Hs.
  destruct (binary_search timestamp (active_frames b) ts) as [i|i].
  - destruct Hs as (p & Hp & Ht). exists i, b, p. split_and!; try done. by left.
  - destruct Hs as (Hi & Hlt & Hgt). set (p := new_partial _ _ _).
    assert (forall q, q ∈ take i (active_frames b) -> timestamp q < ts) as Hbefore.
    { intros q [j Hj]%list_elem_of_lookup_1. apply lookup_take_Some in Hj as [Hj Hji]. by apply (Hlt j). }
    assert (forall q, q ∈ drop i (active_frames b) -> ts < timestamp q) as Hafter.
    { intros q [j Hj]%list_elem_of_lookup_1. rewrite lookup_drop in Hj. apply (Hgt (i + j)%nat); [lia|done]. }
    eexists _, _, p. split; [done|]. split_and!; try done.
    + split; cbn.
      * apply ordered_app.
        -- intros j j' x y (Hx & ?)%lookup_take_Some (Hy & ?)%lookup_take_Some. by apply Ho.
        -- apply ordered_cons; [exact Hafter|]. intros j j' x y. rewrite !lookup_drop. intros Hx Hy Hjj.
           apply (Ho (i + j)%nat (i + j')%nat); done || lia.
        -- intros x y Hx [->|Hy]%elem_of_cons; [by apply Hbefore|]. specialize (Hbefore x Hx). specialize (Hafter y Hy). lia.
      * apply Forall_app. split; [by apply Forall_take|]. constructor; [by split|by apply Forall_drop].
    + cbn. rewrite lookup_app_r by (rewrite length_take; lia). rewrite length_take, Nat.min_l, Nat.sub_diag by lia. done.
    + right. split_and!; try done. rewrite <-(take_drop i (active_frames b)). apply Forall_app.
      split; apply Forall_forall; intros q Hq; [specialize (Hbefore q Hq)|specialize (Hafter q Hq)]; lia.
Qed.

(** *** Processing a message *)

(** The buffer with the message in its frame, before completions are checked. *)
Definition with_message (msg : TimestampedMessage Message) (f : string) (ts : Z) b : FrameAlignmentBuffer ImageData Values :=
  let '(i, b1) := find_or_create_frame ts (b <| current_timestamp := log_time msg |>) in
  b1 <| active_frames := alter (add_message image_of values_of (message msg) f) i (active_frames b1) |>.

Lemma process_message_eq msg f b ts : align_to_frame_boundary (config b) (log_time msg) = Ok ts ->
  process_message msg f b = Ok (check_completions (with_message msg f ts b)).
Proof.
  intros E. unfold Alignment.process_message, with_message. cbn [config set_field]. unfold set_field at 1. cbn. rewrite E.
  by destruct (find_or_create_frame _ _).
Qed.

Lemma with_message_spec interval msg f ts b : buffer_ok interval b -> (interval | ts) -> 0 <= ts ->
  let b1 := with_message msg f ts b in
  buffer_ok interval b1 /\ config b1 = config b /\ completion_criteria b1 = completion_criteria b /\
  current_timestamp b1 = log_time msg /\ stats b1 = stats b /\
  (exists p, p ∈ active_frames b1 /\ timestamp p = ts /\ f ∈ received_features p) /\
  (forall p, p ∈ active_frames b1 -> timestamp p = ts \/ p ∈ active_frames b) /\
  ((length (active_frames b1) = length (active_frames b) /\ next_frame_index b1 = next_frame_index b) \/
   (length (active_frames b1) = S (length (active_frames b)) /\
    next_frame_index b1 = default u64_max (checked_add64 (next_frame_index b) 1))).
Proof.
  intros Hok Hd Hts. unfold with_message.
  destruct (find_or_create_spec interval ts (b <| current_timestamp := log_time msg |>)) as
    (i & b1 & p & E & [Ho Hf] & Hp & Ht & Hcfg & Hcr & Hcur & Hst & Hcase); [by destruct Hok|done|done|].
  rewrite E. cbn zeta. set (g := add_message image_of values_of (message msg) f).
  assert (forall q, timestamp (g q) = timestamp q) as Hg by (intros q; apply add_message_frame).
  assert (forall q, q ∈ alter g i (active_frames b1) -> q = g p \/ q ∈ active_frames b1) as Hin.
  { intros q [j Hj]%list_elem_of_lookup_1. destruct (decide (i = j)) as [->|Hne].
    - rewrite list_lookup_alter_eq, Hp in Hj. left. by injection Hj.
    - rewrite list_lookup_alter_ne in Hj by done. right. by eapply list_elem_of_lookup_2. }
  split_and!; cbn; try done.
  - split; cbn; [by apply ordered_alter|]. apply Forall_forall. intros q Hq. rewrite Forall_forall in Hf.
    destruct (Hin q Hq) as [->|Hq']; [|by apply Hf].
    destruct (Hf p) as [F1 F2 F3 F4]; [by eapply list_elem_of_lookup_2|]. unfold g. 
    destruct (add_message_frame (message msg) f p) as (T1 & T2 & _ & T4). split; rewrite ?T1, ?T2, ?T4; done.
  - exists (g p). split_and!; [|by rewrite Hg|].
    + apply (list_elem_of_lookup_2 _ i). by rewrite list_lookup_alter_eq, Hp.
    + unfold g. rewrite (proj1 (proj2 (proj2 (add_message_frame (message msg) f p)))). set_solver.
  - intros q Hq. destruct (Hin q Hq) as [->|Hq']; [left; by rewrite Hg|].
    destruct Hcase as [->|(Ha & _ & _ & _)]; [by right|]. rewrite Ha in Hq'. apply elem_of_app in Hq' as [Hq'|Hq'].
    + right. rewrite <-(take_drop i (active_frames b)). apply elem_of_app. by left.
    + apply elem_of_cons in Hq' as [->|Hq']; [by left|]. right.
      rewrite <-(take_drop i (active_frames b)). apply elem_of_app. by right.
  - rewrite length_alter. destruct Hcase as [->|(Ha & _ & _ & Hn)]; [by left|]. right. split; [|done].
    rewrite Ha, length_app. cbn. rewrite length_take, length_drop.
    apply lookup_lt_Some in Hp. rewrite Ha, length_app in Hp. cbn in Hp. rewrite length_take, length_drop in Hp. lia.
Qed.

(** *** Rounding *)
Definition interval (c : StreamingConfig.t) : Z := NANOS / StreamingConfig.fps c.
(** A frame rate the code can handle. *)
Definition rate_ok (c : StreamingConfig.t) : Prop := 1 <= StreamingConfig.fps c <= NANOS.

Lemma interval_pos c : rate_ok c -> 0 < interval c <= NANOS.
Proof.
  intros [H1 H2]. unfold interval. split; [apply Z.div_str_pos; lia|].
  apply Z.div_le_upper_bound; [lia|]. unfold NANOS in *. lia.
Qed.

Lemma frame_interval_Ok c : rate_ok c -> StreamingConfig.frame_interval_ns c = Ok (interval c).
Proof.
  intros [H1 H2]. unfold StreamingConfig.frame_interval_ns, StreamingConfig.interval_of.
  by destruct (Z.eqb_spec (StreamingConfig.fps c) 0); [lia|].
Qed.

Lemma align_Ok c ts : rate_ok c -> 0 <= ts -> ts + NANOS <= u64_max ->
  exists a, align_to_frame_boundary c ts = Ok a /\ (interval c | a) /\ 0 <= a /\
    a <= ts + (interval c + 1) / 2 < a + interval c.
Proof.
  intros Hr H0 Hmax. pose proof (interval_pos c Hr) as Hi. unfold align_to_frame_boundary. rewrite frame_interval_Ok by done.
  destruct (Z.eqb_spec (interval c) 0); [lia|]. eexists. split; [done|].
  assert (NANOS < u64_max) by reflexivity. pose proof (Z.div_mod (interval c + 1) 2 ltac:(lia)).
  pose proof (Z.mod_pos_bound (interval c + 1) 2 ltac:(lia)).
  unfold saturating_add64. rewrite (Z.min_r _ (interval c + 1)) by lia. rewrite Z.min_r by lia.
  set (h := (interval c + 1) / 2) in *.
  pose proof (Z.div_mod (ts + h) (interval c) ltac:(lia)). pose proof (Z.mod_pos_bound (ts + h) (interval c) ltac:(lia)).
  split_and!; [by exists ((ts + h) / interval c)| |lia|lia].
  apply Z.mul_nonneg_nonneg; [apply Z.div_pos|]; lia.
Qed.

(** A timestamp is moved to the boundary nearest to it: the result is a multiple
    of the frame interval, at most half an interval away (rounded up), and a
    timestamp halfway between two boundaries goes to the later one. *)
Theorem alignment_is_nearest c ts :
  rate_ok c -> 0 <= ts -> ts + NANOS <= u64_max ->
  exists a, align_to_frame_boundary c ts = Ok a /\ (interval c | a) /\
    2 * (a - ts) <= interval c + 1 /\ 2 * (ts - a) < interval c.
Proof.
  intros Hr H0 Hmax. pose proof (interval_pos c Hr). destruct (align_Ok c ts Hr H0 Hmax) as (a & E & Hd & _ & Hb).
  exists a. split_and!; try done.
  - pose proof (Z.div_mod (interval c + 1) 2 ltac:(lia)). pose proof (Z.mod_pos_bound (interval c + 1) 2 ltac:(lia)). lia.
  - pose proof (Z.div_mod (interval c + 1) 2 ltac:(lia)). pose proof (Z.mod_pos_bound (interval c + 1) 2 ltac:(lia)). lia.
Qed.

(** *** Runs *)

(** The messages processed so far, up to time [t], and the frames each returned. *)
Inductive aligning (c : StreamingConfig.t) (k : FrameCompletionCriteria.t)
  : Z -> list (list (AlignedFrame ImageData Values)) -> FrameAlignmentBuffer ImageData Values -> Prop :=
| aligning_start : aligning c k 0 [] (with_completion_criteria c k)
| aligning_step t outs b msg f out b' :
    aligning c k t outs b -> 0 <= log_time msg -> log_time msg + NANOS <= u64_max ->
    process_message msg f b = Ok (out, b') -> aligning c k (log_time msg) (outs ++ [out]) b'.

Record aligning_inv c k t (outs : list (list (AlignedFrame ImageData Values))) b : Prop := {
  ai_ok : buffer_ok (interval c) b;
  ai_config : config b = c;
  ai_criteria : completion_criteria b = k;
  ai_time : current_timestamp b = t;
  ai_waiting : Forall (fun p => ready_to_emit b p = false) (active_frames b) }.

Lemma forall_filter_not f (l : list (PartialFrame ImageData Values)) :
  Forall (fun p => f p = false) (List.filter (fun p => negb (f p)) l).
Proof. apply Forall_forall. intros p [_ Hp]%list_elem_of_In%filter_In. by apply negb_true_iff. Qed.

Lemma process_message_inv c k t outs b msg f out b' : rate_ok c ->
  aligning_inv c k t outs b -> 0 <= log_time msg -> log_time msg + NANOS <= u64_max ->
  process_message msg f b = Ok (out, b') ->
  exists ts b1, align_to_frame_boundary c (log_time msg) = Ok ts /\ b1 = with_message msg f ts b /\ buffer_ok (interval c) b1 /\
    check_completions b1 = (out, b') /\ config b1 = c /\ completion_criteria b1 = k /\
    current_timestamp b1 = log_time msg /\ aligning_inv c k (log_time msg) (outs ++ [out]) b'.
Proof.
  intros Hr [Hok Hcfg Hcr Ht Hw] H0 Hmax E. destruct (align_Ok c (log_time msg) Hr H0 Hmax) as (ts & Ea & Hd & Hts & _).
  rewrite <-Hcfg in Ea. rewrite (process_message_eq msg f b ts Ea) in E. injection E as E. rewrite Hcfg in Ea.
  destruct (with_message_spec (interval c) msg f ts b Hok Hd Hts) as ([Ho Hf] & C1 & C2 & C3 & _).
  exists ts, (with_message msg f ts b). rewrite C1, C2, Hcfg, Hcr. split_and!; try done.
  destruct (check_completions_spec (with_message msg f ts b)) as (b2 & E2 & Ha & (D1 & D2 & D3 & D4) & _).
  rewrite E in E2. injection E2 as -> <-. split.
  - split; [rewrite Ha; by apply ordered_filter|]. rewrite Ha. unfold window in *. rewrite D1.
    apply Forall_forall. intros p [Hp _]%list_elem_of_In%filter_In. rewrite Forall_forall in Hf.
    apply Hf. by apply list_elem_of_In.
  - congruence.
  - congruence.
  - congruence.
  - rewrite Ha. eapply Forall_impl; [apply forall_filter_not|]. intros p Hp. cbn beta in *.
    unfold ready_to_emit, data_complete in *. by rewrite D2, D4.
Qed.

Lemma aligning_invariant c k t outs b : rate_ok c -> aligning c k t outs b -> aligning_inv c k t outs b.
Proof.
  intros Hr. induction 1 as [|t outs b msg f out b' _ IH H0 Hmax E]; [by split|].
  destruct (process_message_inv c k t outs b msg f out b' Hr IH H0 Hmax E) as (? & ? & ? & ? & ? & ? & ? & ? & ? & ?). done.
Qed.

(** C12: invariant.  Whatever messages arrive, in whatever order, the frames that wait
    are sorted by timestamp, no two for the same time, each at a multiple of the frame
    interval, and none of them is finished: neither has it all the features required,
    nor has its window passed. *)
Theorem buffer_stays_aligned c k t outs b :
  rate_ok c -> aligning c k t outs b ->
  ordered timestamp (active_frames b) /\
  Forall (fun p => (interval c | timestamp p)) (active_frames b) /\
  Forall (fun p => FrameCompletionCriteria.is_complete k (received_features p) = false /\ t < eligible_timestamp p)
    (active_frames b).
Proof.
  intros Hr Hrun. destruct (aligning_invariant c k t outs b Hr Hrun) as [[Ho Hf] Hcfg Hcr Ht Hw].
  split_and!; [done| |].
  - eapply Forall_impl; [exact Hf|]. by intros p [].
  - eapply Forall_impl; [exact Hw|]. intros p. unfold ready_to_emit, data_complete. rewrite Hcr, Ht.
    intros [H1 H2]%orb_false_iff. split; [done|]. lia.
Qed.

(** *** Counting frames *)
Lemma filter_lengths f (l : list (PartialFrame ImageData Values)) :
  (length (List.filter f l) + length (List.filter (fun p => negb (f p)) l))%nat = length l.
Proof. induction l as [|p l IH]; cbn; [done|]. destruct (f p); cbn; lia. Qed.

Lemma iter_add n x : 0 <= x -> x + Z.of_nat n < u64_mod -> Nat.iter n (fun y => u64_add y 1) x = x + Z.of_nat n.
Proof.
  induction n as [|n IH]; intros H0 Hlt; [cbn; lia|]. rewrite Nat.iter_succ, IH, u64_add_small by lia. lia.
Qed.

(** Frames emitted and waiting are the frames created, at most one per message. *)
Lemma aligning_counts c k t outs b : rate_ok c -> aligning c k t outs b -> Z.of_nat (length outs) < u64_max ->
  next_frame_index b = Z.of_nat (length (concat outs) + length (active_frames b)) /\
  (length (concat outs) + length (active_frames b) <= length outs)%nat /\
  AlignmentStats.frames_processed (stats b) = Z.of_nat (length (concat outs)).
Proof.
  intros Hr. induction 1 as [|t outs b msg f out b' Hrun IH H0 Hmax E]; [done|]. rewrite length_app. cbn [length].
  intros Hlen. destruct IH as (Hn & Hle & Hst); [lia|].
  pose proof (aligning_invariant _ _ _ _ _ Hr Hrun) as Hinv. pose proof (ai_config _ _ _ _ _ Hinv) as Hcfg.
  destruct (process_message_inv _ _ _ _ _ _ _ _ _ Hr Hinv H0 Hmax E) as (ts & b1 & Ea & Eb1 & _ & Ec & _).
  destruct (align_Ok c (log_time msg) Hr H0 Hmax) as (ts' & Ea' & Hd & Hts & _). rewrite Ea in Ea'. injection Ea' as <-.
  destruct (with_message_spec (interval c) msg f ts b (ai_ok _ _ _ _ _ Hinv) Hd Hts) as (_ & _ & _ & _ & Hs1 & _ & _ & Hcase).
  rewrite <-Eb1 in Hs1, Hcase.
  destruct (check_completions_spec b1) as (b2 & E2 & Ha & (_ & _ & D3 & _) & Hst2). rewrite Ec in E2. injection E2 as -> <-.
  pose proof (filter_lengths (ready_to_emit b1) (active_frames b1)) as Hfl. rewrite <-Ha in Hfl.
  rewrite concat_app, length_app. cbn [concat]. rewrite app_nil_r, length_number, length_rev, D3, Hst2, Hs1, Hst.
  assert (u64_max < u64_mod) by done.
  assert (default u64_max (checked_add64 (next_frame_index b) 1) = next_frame_index b + 1) as Hadd.
  { unfold checked_add64. rewrite Hn. destruct (Z.leb_spec (Z.of_nat (length (concat outs) + length (active_frames b)) + 1) u64_max); [done|lia]. }
  rewrite iter_add by lia. destruct Hcase as [[Hl Hnx]|[Hl Hnx]]; rewrite Hnx, ?Hadd, Hn; split_and!; lia.
Qed.

(** No frame is lost or emitted twice: the frames created are those emitted and
    those waiting, the statistics count the emitted ones, and [flush] emits the rest,
    in order of time. *)
Theorem frames_conserved c k t outs b :
  rate_ok c -> aligning c k t outs b -> Z.of_nat (length outs) < u64_max ->
  next_frame_index b = Z.of_nat (length (concat outs) + length (active_frames b)) /\
  AlignmentStats.frames_processed (stats b) = Z.of_nat (length (concat outs)) /\
  exists b', flush b = (number 0 (active_frames b), b') /\ active_frames b' = [].
Proof.
  intros Hr Hrun Hlen. destruct (aligning_counts c k t outs b Hr Hrun Hlen) as (H1 & _ & H3). split_and!; [done|done|].
  unfold flush. assert (forall ps completed b0, exists b', flush_all ps completed b0 =
    (completed ++ number (length completed) ps, b') /\ active_frames b' = active_frames b0) as Hfa.
  { induction ps as [|p ps IH]; intros completed b0; cbn [flush_all emit]; [exists b0; cbn; by rewrite app_nil_r|].
    match goal with |- context [flush_all ps ?c1 ?b1] => destruct (IH c1 b1) as (b' & -> & Ha) end.
    exists b'. split; [|done]. rewrite number_cons, <-app_assoc, length_app. cbn [length]. by rewrite Nat.add_1_r. }
  destruct (Hfa (active_frames b) [] (b <| active_frames := [] |>)) as (b' & -> & Ha). by exists b'.
Qed.

(** Frames finished by the same message come out latest first, and are numbered
    from 0 in that order, whatever was emitted before. *)
Theorem completions_reversed c k t outs b msg f out b' :
  rate_ok c -> aligning c k t outs b -> 0 <= log_time msg -> log_time msg + NANOS <= u64_max ->
  process_message msg f b = Ok (out, b') ->
  (forall i fr, out !! i = Some fr -> frame_index fr = Z.of_nat i) /\
  (forall i j x y, out !! i = Some x -> out !! j = Some y -> (i < j)%nat -> frame_timestamp y < frame_timestamp x).
Proof.
  intros Hr Hrun H0 Hmax E. pose proof (aligning_invariant _ _ _ _ _ Hr Hrun) as Hinv.
  destruct (process_message_inv _ _ _ _ _ _ _ _ _ Hr Hinv H0 Hmax E) as (ts & b1 & _ & _ & [Ho Hf] & Ec & _).
  destruct (check_completions_spec b1) as (b2 & E2 & _). rewrite Ec in E2. injection E2 as -> _.
  set (l := List.filter (ready_to_emit b1) (active_frames b1)).
  assert (ordered timestamp l) as Hol by by apply ordered_filter.
  assert (forall p, p ∈ l -> frame_timestamp (frame p) = timestamp p) as Hft.
  { intros p [Hp _]%list_elem_of_In%filter_In. rewrite Forall_forall in Hf. apply (fo_time _ _ _ (Hf p ltac:(by apply list_elem_of_In))). }
  assert (forall i fr, number 0 (rev l) !! i = Some fr -> exists p, rev l !! i = Some p /\
    frame_index fr = Z.of_nat i /\ frame_timestamp fr = timestamp p) as Hlk.
  { intros i fr. unfold number. rewrite list_lookup_imap. intros (p & Hp & ->)%fmap_Some. exists p. split; [done|]. split; [done|].
    apply Hft. apply list_elem_of_lookup_2 in Hp. apply list_elem_of_In in Hp. apply list_elem_of_In. by apply in_rev. }
  split.
  - intros i fr (p & _ & ? & _)%Hlk. done.
  - intros i j x y (p & Hp & _ & ->)%Hlk (q & Hq & _ & ->)%Hlk Hij.
    rewrite rev_alt in Hp, Hq. change (rev_append l []) with (reverse l) in Hp, Hq.
    assert (j < length l)%nat by (apply lookup_lt_Some in Hq; by rewrite length_reverse in Hq).
    rewrite reverse_lookup in Hp, Hq by lia. apply (Hol (length l - S j)%nat (length l - S i)%nat q p Hq Hp). lia.
Qed.

(** *** Memory *)

(** Runs in which the log times do not go back. *)
Inductive aligning_in_order (c : StreamingConfig.t) (k : FrameCompletionCriteria.t)
  : Z -> list (list (AlignedFrame ImageData Values)) -> FrameAlignmentBuffer ImageData Values -> Prop :=
| in_order_start : aligning_in_order c k 0 [] (with_completion_criteria c k)
| in_order_step t outs b msg f out b' :
    aligning_in_order c k t outs b -> t <= log_time msg -> log_time msg + NANOS <= u64_max ->
    process_message msg f b = Ok (out, b') -> aligning_in_order c k (log_time msg) (outs ++ [out]) b'.

Lemma in_order_aligning c k t outs b : aligning_in_order c k t outs b -> aligning c k t outs b /\ 0 <= t.
Proof. induction 1 as [|? ? ? ? ? ? ? ? [IH Ht]]; [by split; [constructor|]|]. split; [econstructor; eauto; lia|lia]. Qed.

Lemma in_order_recent c k t outs b : rate_ok c -> aligning_in_order c k t outs b ->
  Forall (fun p => timestamp p <= t + (interval c + 1) / 2) (active_frames b).
Proof.
  intros Hr. induction 1 as [|t outs b msg f out b' Hrun IH Ht Hmax E]; [constructor|].
  apply in_order_aligning in Hrun as [Hrun H0]. pose proof (aligning_invariant _ _ _ _ _ Hr Hrun) as Hinv.
  assert (0 <= log_time msg) as Hlog by lia.
  destruct (process_message_inv _ _ _ _ _ _ _ _ _ Hr Hinv Hlog Hmax E) as (ts & b1 & Ea & Eb1 & _ & Ec & _).
  destruct (align_Ok c (log_time msg) Hr ltac:(lia) Hmax) as (ts' & Ea' & Hd & Hts & Hb). rewrite Ea in Ea'. injection Ea' as <-.
  destruct (with_message_spec (interval c) msg f ts b (ai_ok _ _ _ _ _ Hinv) Hd Hts) as (_ & _ & _ & _ & _ & _ & Hin & _).
  rewrite <-Eb1 in Hin. destruct (check_completions_spec b1) as (b2 & E2 & Ha & _). rewrite Ec in E2. injection E2 as _ <-.
  rewrite Ha. apply Forall_forall. intros p [Hp _]%list_elem_of_In%filter_In. apply list_elem_of_In in Hp.
  destruct (Hin p Hp) as [->|Hold]; [lia|]. rewrite Forall_forall in IH. specialize (IH p Hold). lia.
Qed.

(** Distinct multiples of [d] are [d] apart. *)
Lemma ordered_spread d (l : list (PartialFrame ImageData Values)) i x y : 0 < d -> ordered timestamp l ->
  Forall (fun p => (d | timestamp p)) l -> l !! 0%nat = Some x -> l !! i = Some y -> timestamp x + Z.of_nat i * d <= timestamp y.
Proof.
  intros Hd Ho Hdiv Hx. revert y. induction i as [|i IH]; intros y Hy; [simplify_eq; lia|].
  destruct (lookup_lt_is_Some_2 l i) as [z Hz]; [apply lookup_lt_Some in Hy; lia|].
  specialize (IH z Hz). pose proof (Ho i (S i) z y Hz Hy ltac:(lia)).
  rewrite Forall_lookup in Hdiv. destruct (Hdiv _ _ Hz) as [a Ha], (Hdiv _ _ Hy) as [e He]. cbn beta in *.
  assert (a < e) by nia. assert ((a + 1) * d <= e * d) by (apply Z.mul_le_mono_nonneg_r; lia).
  rewrite Nat2Z.inj_succ. lia.
Qed.

(** C40: bounds.  When messages arrive in order of time, the buffer never holds more
    frames than fit into the completion window and half an interval: its footprint
    does not depend on the length of the recording. *)
Theorem buffer_bounded c k t outs b :
  rate_ok c -> 0 <= StreamingConfig.completion_window_ns c -> t + StreamingConfig.completion_window_ns c + NANOS <= u64_max ->
  aligning_in_order c k t outs b ->
  Z.of_nat (length (active_frames b)) <= (StreamingConfig.completion_window_ns c + (interval c + 1) / 2) / interval c + 1.
Proof.
  intros Hr Hw Hmax Hrun. pose proof (interval_pos c Hr) as Hi. pose proof (in_order_recent _ _ _ _ _ Hr Hrun) as Hrec.
  apply in_order_aligning in Hrun as [Hrun H0].
  destruct (aligning_invariant c k t outs b Hr Hrun) as [[Ho Hf] Hcfg Hcr Ht Hwait].
  set (h := (interval c + 1) / 2) in *. set (w := StreamingConfig.completion_window_ns c) in *.
  assert (0 <= h) by (apply Z.div_pos; lia).
  pose proof (Z.div_mod (w + h) (interval c) ltac:(lia)). pose proof (Z.mod_pos_bound (w + h) (interval c) ltac:(lia)).
  destruct (active_frames b) as [|x l] eqn:El; [cbn; pose proof (Z.div_pos (w + h) (interval c)); lia|]. rewrite <-El in *.
  assert (active_frames b !! 0%nat = Some x) as Hx by by rewrite El.
  destruct (lookup_lt_is_Some_2 (active_frames b) (length l)) as [y Hy]; [rewrite El; cbn; lia|].
  assert (Forall (fun p => (interval c | timestamp p)) (active_frames b)) as Hdiv by (eapply Forall_impl; [exact Hf|]; by intros p []).
  pose proof (ordered_spread (interval c) (active_frames b) (length l) x y ltac:(lia) Ho Hdiv Hx Hy) as Hs.
  rewrite Forall_lookup in Hrec, Hf, Hwait. specialize (Hrec _ _ Hy). specialize (Hwait _ _ Hx). destruct (Hf _ _ Hx) as [_ Hpos He _].
  unfold ready_to_emit in Hwait. apply orb_false_iff in Hwait as [_ Hwait]. rewrite He, Ht in Hwait. unfold window in Hwait.
  rewrite Hcfg in Hwait. fold w in Hwait. apply Z.leb_gt in Hwait. cbn beta in Hrec.
  assert (timestamp x + w <= u64_max) as Hsat.
  { assert (h <= NANOS) by (apply Z.div_le_upper_bound; lia). nia. }
  unfold saturating_add64 in Hwait. rewrite Z.min_r in Hwait by lia.
  rewrite El. cbn [length]. rewrite Nat2Z.inj_succ. apply Z.add_le_mono_r. apply Z.div_le_lower_bound; lia.
Qed.

(** *** Criteria *)
Lemma criteria_complete_iff k received :
  FrameCompletionCriteria.is_complete k received = true <->
  received <> ∅ /\ forall f n, FrameCompletionCriteria.features k !! f = Some n -> n <= (if decide (f ∈ received) then 1 else 0).
Proof.
  unfold FrameCompletionCriteria.is_complete.
  assert (forallb (fun '(f, min_count) => negb (FrameCompletionCriteria.count_of f received <? min_count))
    (map_to_list (FrameCompletionCriteria.features k)) = true <->
    forall f n, FrameCompletionCriteria.features k !! f = Some n -> n <= (if decide (f ∈ received) then 1 else 0)) as Hall.
  { rewrite forallb_forall. split.
    - intros H f n Hf. specialize (H (f, n)). cbn in H. unfold FrameCompletionCriteria.count_of in H.
      apply elem_of_map_to_list, list_elem_of_In, H, negb_true_iff, Z.ltb_ge in Hf. done.
    - intros H [f n] Hf%list_elem_of_In%elem_of_map_to_list. apply negb_true_iff, Z.ltb_ge. by apply H. }
  destruct (forallb _ _) eqn:Ef; cbn [negb].
  - assert (forall f n, FrameCompletionCriteria.features k !! f = Some n -> n <= (if decide (f ∈ received) then 1 else 0)) as H
      by by apply Hall.
    case_bool_decide as Hk; case_bool_decide as Hr; cbn; split; try done; intros [Hne _]; done.
  - split; [done|]. intros [_ H%Hall]. done.
Qed.

(** When a frame counts as complete: it has a feature, and every required one.  A
    feature is counted at most once, so a requirement of two or more can never be met. *)
Theorem completeness_counts_once k received :
  (FrameCompletionCriteria.is_complete k received = true <->
   received <> ∅ /\ forall f n, FrameCompletionCriteria.features k !! f = Some n -> n <= (if decide (f ∈ received) then 1 else 0)) /\
  (forall f n, FrameCompletionCriteria.features k !! f = Some n -> 2 <= n -> FrameCompletionCriteria.is_complete k received = false).
Proof.
  split; [apply criteria_complete_iff|]. intros f n Hf Hn. apply not_true_iff_false. rewrite criteria_complete_iff.
  intros [_ H]. specialize (H f n Hf). destruct (decide (f ∈ received)); lia.
Qed.

(** Without required features nothing is ever aligned: every message makes a frame
    of its own, which is emitted at once, so that messages for the same time end up in
    different frames. *)
Theorem unconfigured_buffer_does_not_align c t outs b :
  rate_ok c -> aligning c FrameCompletionCriteria.new t outs b ->
  active_frames b = [] /\ Forall (fun out => length out = 1%nat) outs.
Proof.
  intros Hr. induction 1 as [|t outs b msg f out b' Hrun [IH IHo] H0 Hmax E]; [done|].
  pose proof (aligning_invariant _ _ _ _ _ Hr Hrun) as Hinv.
  destruct (process_message_inv _ _ _ _ _ _ _ _ _ Hr Hinv H0 Hmax E) as (ts & b1 & Ea & Eb1 & _ & Ec & _ & Hcr & _).
  destruct (align_Ok c (log_time msg) Hr H0 Hmax) as (ts' & Ea' & Hd & Hts & _). rewrite Ea in Ea'. injection Ea' as <-.
  destruct (with_message_spec (interval c) msg f ts b (ai_ok _ _ _ _ _ Hinv) Hd Hts)
    as (_ & _ & _ & _ & _ & (p & Hp & _ & Hfp) & _ & Hcase). rewrite <-Eb1 in Hp, Hcase. rewrite IH in Hcase. cbn in Hcase.
  assert (active_frames b1 = [p]) as Hb1.
  { destruct (active_frames b1) as [|q [|q' l]]; [by apply elem_of_nil in Hp| |destruct Hcase as [[] | []]; cbn in *; lia].
    by apply list_elem_of_singleton in Hp as ->. }
  assert (ready_to_emit b1 p = true) as Hready.
  { unfold ready_to_emit, data_complete. rewrite Hcr. apply orb_true_iff. left. apply criteria_complete_iff. split; [set_solver|].
    intros f' n Hn. cbn in Hn. by rewrite lookup_empty in Hn. }
  destruct (check_completions_spec b1) as (b2 & E2 & Ha & _). rewrite Ec in E2. injection E2 as -> <-.
  rewrite Hb1 in Ha |- *. cbn in Ha |- *. rewrite Hready in Ha |- *. split; [done|].
  apply Forall_app. split; [done|]. by repeat constructor.
Qed.
End Buffer.

(** ** The aligner *)
Module ProcessorStats.
Record t := mk { frames_processed : Z; frames_errored : Z; frames_skipped : Z }.
#[global] Instance t_eta : Settable t := fun r => mk (frames_processed r) (frames_errored r) (frames_skipped r).
Definition new : t := mk 0 0 0.
Definition record_success (s : t) : t := s <| frames_processed := u64_add (frames_processed s) 1 |>.
Definition record_error (s : t) : t := s <| frames_errored := u64_add (frames_errored s) 1 |>.
Definition record_skip (s : t) : t := s <| frames_skipped := u64_add (frames_skipped s) 1 |>.
Definition total_frames (s : t) : Z := u64_add (u64_add (frames_processed s) (frames_errored s)) (frames_skipped s).
End ProcessorStats.

Section Aligner.
Context {ImageData Values Message : Type}.
Context (image_of : Message -> string -> option ImageData) (values_of : Message -> string -> option Values).

Record ProcessedFrame := mkProcessed {
  processed_frame : AlignedFrame ImageData Values; task_index : option Z; should_write : bool }.
Definition new_processed (fr : AlignedFrame ImageData Values) : ProcessedFrame := mkProcessed fr None true.

(** The trait [FrameProcessor]; errors are [RoboflowError]s, kept as their text. *)
Class FrameProcessor (P : Type) := {
  process : AlignedFrame ImageData Values -> P -> result string ProcessedFrame * P;
  processor_finalize : P -> result string ProcessorStats.t * P }.

(** [PassthroughProcessor]. *)
#[global] Instance PassthroughProcessor : FrameProcessor ProcessorStats.t := {
  process fr s := (Ok (new_processed fr), ProcessorStats.record_success s);
  processor_finalize s := (Ok s, ProcessorStats.new) }.

Context {P : Type} `{FrameProcessor P}.

Record FrameAligner := mkAligner {
  buffer : FrameAlignmentBuffer ImageData Values;
  processor : P;
  alignment_stats : AlignmentStats.t;
  processor_stats : ProcessorStats.t;
  topic_mappings : gmap string string }.
#[global] Instance FrameAligner_eta : Settable FrameAligner := fun r =>
  mkAligner (buffer r) (processor r) (alignment_stats r) (processor_stats r) (topic_mappings r).

Definition new_aligner (c : StreamingConfig.t) (p : P) : FrameAligner :=
  mkAligner (new c) p AlignmentStats.new ProcessorStats.new ∅.
Definition with_topic_mapping (topic feature : string) (a : FrameAligner) : FrameAligner :=
  a <| topic_mappings := <[topic := feature]> (topic_mappings a) |>.

(** [topic.replace('/', ".")]. *)
Fixpoint dots (s : string) : string :=
  match s with "" => "" | String a s' => String (if Ascii.eqb a "/" then "." else a)%char (dots s') end.
Definition get_feature_name (a : FrameAligner) (topic : string) : string :=
  match topic_mappings a !! topic with
  | Some mapped => mapped
  | None => let s := dots topic in if starts_with s "." then trim_start_char "." s else s
  end.

Fixpoint process_completed_frames (frames : list (AlignedFrame ImageData Values)) (a : FrameAligner)
  : list ProcessedFrame * FrameAligner :=
  match frames with
  | [] => ([], a)
  | fr :: frames' =>
      let '(r, p) := process fr (processor a) in
      let a := a <| processor := p |> in
      match r with
      | Ok pf =>
          let a := a <| processor_stats := if should_write pf then ProcessorStats.record_success (processor_stats a)
                                           else ProcessorStats.record_skip (processor_stats a) |> in
          let '(out, a) := process_completed_frames frames' a in (pf :: out, a)
      | _ => process_completed_frames frames' (a <| processor_stats := ProcessorStats.record_error (processor_stats a) |>)
      end
  end.

Definition aligner_process (msg : TimestampedMessage Message) (feature : string) (a : FrameAligner)
  : panics (list ProcessedFrame * FrameAligner) :=
  match process_message image_of values_of msg feature (buffer a) with
  | Ok (completed, b) => Ok (process_completed_frames completed (a <| buffer := b |>))
  | Err e => Err e
  | Panic m => Panic m
  end.

Definition aligner_flush (a : FrameAligner) : list ProcessedFrame * FrameAligner :=
  let '(completed, b) := flush (buffer a) in process_completed_frames completed (a <| buffer := b |>).

(** The statistics returned, and the aligner. *)
Definition aligner_finalize (a : FrameAligner) : result string (AlignmentStats.t * ProcessorStats.t) * FrameAligner :=
  let '(r, p) := processor_finalize (processor a) in
  (match r with Ok s => Ok (alignment_stats a, s) | Err e => Err e | Panic m => Panic m end, a <| processor := p |>).

Lemma process_completed_stats frames a :
  alignment_stats (process_completed_frames frames a).2 = alignment_stats a /\
  buffer (process_completed_frames frames a).2 = buffer a.
Proof.
  revert a. induction frames as [|fr frames IH]; intros a; cbn; [done|].
  destruct (process fr (processor a)) as [[pf|e|m] p]; [|by rewrite (proj1 (IH _)), (proj2 (IH _))..].
  match goal with |- context [process_completed_frames frames ?a0] => specialize (IH a0) end.
  destruct (process_completed_frames frames _) as [out a']. done.
Qed.

(** Any use of an aligner. *)
Inductive aligner_step : FrameAligner -> FrameAligner -> Prop :=
| aligner_message msg f a out a' : aligner_process msg f a = Ok (out, a') -> aligner_step a a'
| aligner_flushed a : aligner_step a (aligner_flush a).2.

(** The statistics that [finalize] returns say that no frame was aligned, whatever
    was: it returns a counter that nothing updates, not that of the buffer. *)
Theorem finalize_reports_no_alignment c p a st a' :
  rtc aligner_step (new_aligner c p) a -> aligner_finalize a = (Ok st, a') -> st.1 = AlignmentStats.new.
Proof.
  intros Hrun E. assert (alignment_stats a = AlignmentStats.new) as Ha.
  { change AlignmentStats.new with (alignment_stats (new_aligner c p)). clear E. 
    induction Hrun as [|x y z Hst _ IH]; [done|]. rewrite IH. destruct Hst as [msg f x out y E|x].
    - unfold aligner_process in E. destruct (process_message _ _ _ _ _) as [[completed b]|e|m]; [|done..].
      injection E as E. pose proof (process_completed_stats completed (x <| buffer := b |>)) as [Hs _]. by rewrite E in Hs.
    - unfold aligner_flush. destruct (flush (buffer x)) as [completed b].
      exact (proj1 (process_completed_stats completed (x <| buffer := b |>))). }
  unfold aligner_finalize in E. destruct (processor_finalize (processor a)) as [[s|?|?] p']; [|done..].
  injection E as <- _. done.
Qed.
End Aligner.

(** ** Witnesses *)
Section Witnesses.
(** Messages are what they contribute: an image or values. *)
Definition sim_image (m : nat + nat) (_ : string) : option nat := match m with inl n => Some n | inr _ => None end.
Definition sim_values (m : nat + nat) (_ : string) : option nat := match m with inl _ => None | inr n => Some n end.

Definition sim_config : StreamingConfig.t :=
  StreamingConfig.require_feature "cam" 1 (StreamingConfig.require_feature "state" 1 (StreamingConfig.mk 10 300000000 ∅)).
Definition sim_criteria : FrameCompletionCriteria.t := build_completion_criteria sim_config.

Definition sim_send (t : Z) (f : string) (m : nat + nat) (b : FrameAlignmentBuffer nat nat)
  : list (AlignedFrame nat nat) * FrameAlignmentBuffer nat nat :=
  match process_message sim_image sim_values (mkMsg t m) f b with Ok x => x | _ => ([], b) end.

Definition sim_b0 : FrameAlignmentBuffer nat nat := with_completion_criteria sim_config sim_criteria.
Definition sim_b1 := (sim_send 60000000 "cam" (inl 1%nat) sim_b0).2.
Definition sim_b2 := (sim_send 210000000 "cam" (inl 2%nat) sim_b1).2.

Lemma sim_rate : rate_ok sim_config.
Proof. vm_compute. split; discriminate. Qed.

Lemma sim_in_order : aligning_in_order sim_image sim_values sim_config sim_criteria 210000000 [[]; []] sim_b2.
Proof.
  refine (in_order_step _ _ _ _ 60000000 [[]] sim_b1 (mkMsg 210000000 (inl 2%nat)) "cam" [] sim_b2 _ _ _ _);
    [|vm_compute; discriminate|vm_compute; discriminate|vm_compute; reflexivity].
  refine (in_order_step _ _ _ _ 0 [] sim_b0 (mkMsg 60000000 (inl 1%nat)) "cam" [] sim_b1 _ _ _ _);
    [constructor|vm_compute; discriminate|vm_compute; discriminate|vm_compute; reflexivity].
Qed.

Lemma sim_aligning : aligning sim_image sim_values sim_config sim_criteria 210000000 [[]; []] sim_b2.
Proof. apply in_order_aligning, sim_in_order. Qed.

Lemma binary_search_is_linear_witness : binary_search id [2; 3; 5; 7] 6 = inr 3%nat.
Proof.
  rewrite (binary_search_is_linear id [2; 3; 5; 7] 6); [reflexivity|].
  intros [|[|[|[|i]]]] [|[|[|[|j]]]] x y Hx Hy Hij; cbn in Hx, Hy; simplify_eq; lia || (cbn; lia).
Defined.

Lemma alignment_is_nearest_witness : exists a, align_to_frame_boundary sim_config 260000000 = Ok a /\ 2 * (a - 260000000) <= 100000001.
Proof.
  destruct (alignment_is_nearest sim_config 260000000 sim_rate) as (a & E & _ & H & _);
    [vm_compute; discriminate|vm_compute; discriminate|]. exists a. split; [exact E|exact H].
Defined.

Lemma buffer_stays_aligned_witness : ordered timestamp (active_frames sim_b2) /\ length (active_frames sim_b2) = 2%nat.
Proof.
  split; [exact (proj1 (buffer_stays_aligned sim_image sim_values sim_config sim_criteria 210000000 [[]; []] sim_b2 sim_rate sim_aligning))|].
  vm_compute. reflexivity.
Defined.

Lemma frames_conserved_witness : next_frame_index sim_b2 = 2.
Proof.
  destruct (frames_conserved sim_image sim_values sim_config sim_criteria 210000000 [[]; []] sim_b2 sim_rate sim_aligning)
    as [H _]; [vm_compute; reflexivity|]. exact H.
Defined.

(** A late message finishes both frames: the later one comes first. *)
Lemma completions_reversed_witness :
  frame_timestamp <$> (sim_send 600000000 "state" (inr 3%nat) sim_b2).1 = [200000000; 100000000] /\
  forall i fr, (sim_send 600000000 "state" (inr 3%nat) sim_b2).1 !! i = Some fr -> frame_index fr = Z.of_nat i.
Proof.
  split; [vm_compute; reflexivity|].
  refine (proj1 (completions_reversed sim_image sim_values sim_config sim_criteria 210000000 [[]; []] sim_b2
    (mkMsg 600000000 (inr 3%nat)) "state" _ (sim_send 600000000 "state" (inr 3%nat) sim_b2).2 sim_rate sim_aligning _ _ _));
    [vm_compute; discriminate|vm_compute; discriminate|vm_compute; reflexivity].
Defined.

Lemma buffer_bounded_witness : Z.of_nat (length (active_frames sim_b2)) <= 4.
Proof.
  refine (buffer_bounded sim_image sim_values sim_config sim_criteria 210000000 [[]; []] sim_b2 sim_rate _ _ sim_in_order);
    vm_compute; discriminate.
Defined.

Definition sim_plain : StreamingConfig.t := StreamingConfig.mk 10 300000000 ∅.
Definition sim_p1 := sim_send 60000000 "cam" (inl 1%nat) (with_completion_criteria sim_plain FrameCompletionCriteria.new).

Lemma unconfigured_buffer_does_not_align_witness : active_frames sim_p1.2 = [].
Proof.
  refine (proj1 (unconfigured_buffer_does_not_align sim_image sim_values sim_plain 60000000 ([] ++ [sim_p1.1]) sim_p1.2 _ _));
    [vm_compute; split; discriminate|].
  refine (aligning_step _ _ _ _ 0 [] _ (mkMsg 60000000 (inl 1%nat)) "cam" sim_p1.1 sim_p1.2 _ _ _ _);
    [constructor|vm_compute; discriminate|vm_compute; discriminate|vm_compute; reflexivity].
Defined.

Definition sim_aligner : FrameAligner (ImageData := nat) (Values := nat) (P := ProcessorStats.t) := new_aligner sim_plain ProcessorStats.new.
Definition sim_aligned : FrameAligner (ImageData := nat) (Values := nat) (P := ProcessorStats.t) :=
  match aligner_process sim_image sim_values (mkMsg 60000000 (inl 1%nat)) "cam" sim_aligner with Ok x => x.2 | _ => sim_aligner end.

Lemma finalize_reports_no_alignment_witness :
  AlignmentStats.frames_processed (stats (buffer sim_aligned)) = 1 /\
  exists st a', aligner_finalize sim_aligned = (Ok st, a') /\ st.1 = AlignmentStats.new.
Proof.
  split; [vm_compute; reflexivity|].
  exists (AlignmentStats.new, ProcessorStats.mk 1 0 0), (aligner_finalize sim_aligned).2.
  split; [vm_compute; reflexivity|].
  refine (finalize_reports_no_alignment sim_image sim_values sim_plain ProcessorStats.new sim_aligned
    (AlignmentStats.new, ProcessorStats.mk 1 0 0) (aligner_finalize sim_aligned).2 _ _); [|vm_compute; reflexivity].
  eapply rtc_l; [|apply rtc_refl].
  refine (aligner_message sim_image sim_values (mkMsg 60000000 (inl 1%nat)) "cam" sim_aligner
    (match aligner_process sim_image sim_values (mkMsg 60000000 (inl 1%nat)) "cam" sim_aligner with Ok x => x.1 | _ => [] end)
    sim_aligned _). vm_compute. reflexivity.
Defined.

Example feature_name : get_feature_name sim_aligner "/camera/front" = "camera.front".
Proof. vm_compute. reflexivity. Qed.
End Witnesses.
