(* ===== verification/Color.v ===== *)
(** * Colour conversion

    crates/roboflow-media/src/video/simd: RGB24 frames are converted to YUV420P or
    NV12 before they are encoded, by scalar code (scalar.rs), with AVX2 intrinsics
    (avx2.rs) or by loops written for NEON (neon.rs); mod.rs checks the sizes and
    picks an implementation for the processor.

    A buffer is the list of its bytes.  A vector register is the list of its lanes,
    in the width the next instruction gives them.  Indexing a slice out of range
    panics; an access through a raw pointer out of range is undefined behaviour,
    which is a result of its own, so that memory safety can be stated.  Sizes and
    offsets are [usize] and wrap, samples are [i32] and wrap. *)
From S2P Require Import Prelude.
From stdpp Require Import pretty.
#[local] Open Scope Z_scope.

(** Why a conversion ends without a result: undefined behaviour, a loop that uses up
    its fuel, or an error ([RoboflowError::other]). *)
Inductive stop := Undefined | Diverges | Other (msg : string).
Abbreviation K := (result stop).

(** ** Integers and buffers *)
Declare Scope machine_scope.
Delimit Scope machine_scope with machine.

Definition as_i32 (x : Z) : Z := (x + 2 ^ 31) mod 2 ^ 32 - 2 ^ 31.
Definition as_u8 (x : Z) : Z := x mod 256.
Definition clamp (lo hi x : Z) : Z := Z.min hi (Z.max lo x).
Notation "a *i b" := (as_i32 (a * b)) (at level 40, left associativity) : machine_scope.
Notation "a +i b" := (as_i32 (a + b)) (at level 50, left associativity) : machine_scope.
Notation "a *u b" := (as_u64 (a * b)) (at level 40, left associativity) : machine_scope.
Notation "a +u b" := (as_u64 (a + b)) (at level 50, left associativity) : machine_scope.
Notation "a -u b" := (as_u64 (a - b)) (at level 50, left associativity) : machine_scope.
Open Scope machine_scope.

Abbreviation Plane := (list Z).

(** [p[i]] and [p[i] = v]. *)
Definition index (p : Plane) (i : Z) : K Z :=
  match p !! Z.to_nat i with Some v => Ok v | None => Panic "index out of bounds" end.
Definition store (p : Plane) (i v : Z) : K Plane :=
  if (Z.to_nat i <? length p)%nat then Ok (<[Z.to_nat i := v]> p) else Panic "index out of bounds".

(** [*ptr.add(i)] for the pointer to the first byte of [p]. *)
Definition peek (p : Plane) (i : Z) : K Z :=
  match p !! Z.to_nat i with Some v => Ok v | None => Err Undefined end.

(** A write of several bytes at [i]; [otherwise] when they do not fit. *)
Definition blit (otherwise : K Plane) (p : Plane) (i : Z) (vs : list Z) : K Plane :=
  if (Z.to_nat i + length vs <=? length p)%nat then Ok (list_inserts (Z.to_nat i) vs p) else otherwise.

(** [vec![0u8; n]]. *)
Definition zeroes (n : Z) : Plane := replicate (Z.to_nat n) 0.

(** [for i in lo..hi]. *)
Fixpoint for_range {S} (n : nat) (i : Z) (body : Z -> S -> K S) (s : S) : K S :=
  match n with O => Ok s | S n' => s' ← body i s; for_range n' (i + 1) body s' end.
Definition for_ {S} (lo hi : Z) (body : Z -> S -> K S) (s : S) : K S :=
  for_range (Z.to_nat (hi - lo)) lo body s.

(** [while x < limit { body; x += step }], with the final [x]. *)
Fixpoint while_lt {S} (fuel : nat) (limit step x : Z) (body : Z -> S -> K S) (s : S) : K (Z * S) :=
  if x <? limit then
    match fuel with
    | O => Err Diverges
    | S fuel' => s' ← body x s; while_lt fuel' limit step (x +u step) body s'
    end
  else Ok (x, s).

(** ** The coefficients, the same in the three files *)
Definition Y_R : Z := 77.
Definition Y_G : Z := 150.
Definition Y_B : Z := 29.
Definition U_R : Z := -43.
Definition U_G : Z := -85.
Definition U_B : Z := 128.
Definition V_R : Z := 128.
Definition V_G : Z := -107.
Definition V_B : Z := -21.

(** One sample of a pixel: the luma and the two chroma samples in [i32] arithmetic. *)
Definition y_val (r g b : Z) : Z := Z.shiftr (Y_R *i r +i Y_G *i g +i Y_B *i b +i 128) 8.
Definition u_val (r g b : Z) : Z := Z.shiftr (U_R *i r +i U_G *i g +i U_B *i b +i 128) 8 +i 128.
Definition v_val (r g b : Z) : Z := Z.shiftr (V_R *i r +i V_G *i g +i V_B *i b +i 128) 8 +i 128.

(** [x.clamp(0, 255) as u8]. *)
Definition to_byte (x : Z) : Z := as_u8 (clamp 0 255 x).

(** The three bytes at [offset]. *)
Definition load_pixel (rgb_data : Plane) (offset : Z) : K (Z * Z * Z) :=
  r ← index rgb_data offset;
  g ← index rgb_data (offset +u 1);
  b ← index rgb_data (offset +u 2);
  Ok (r, g, b).

Module scalar.
(** The two inner loops: a 2x2 block of pixels gives four luma bytes and four samples
    of each chroma, which are kept apart by the pixel's place in the block. *)
Definition block_pixel (rgb_data : Plane) (width block_y block_x dy dx : Z)
    (s : Plane * Plane * Plane) : K (Plane * Plane * Plane) :=
  let '(y_plane, u_sum, v_sum) := s in
  let y := block_y *u 2 +u dy in
  let x := block_x *u 2 +u dx in
  let pixel_offset := (y *u width +u x) *u 3 in
  '(r, g, b) ← load_pixel rgb_data pixel_offset;
  y_plane ← store y_plane (y *u width +u x) (to_byte (y_val r g b));
  let block_idx := Z.lor (Z.shiftl (Z.land y 1) 1) (Z.land x 1) in
  u ← index u_sum block_idx;
  u_sum ← store u_sum block_idx (u +i u_val r g b);
  v ← index v_sum block_idx;
  v_sum ← store v_sum block_idx (v +i v_val r g b);
  Ok (y_plane, u_sum, v_sum).

Definition block (rgb_data : Plane) (width block_y block_x : Z) (y_plane : Plane)
  : K (Plane * Plane * Plane) :=
  for_ 0 2 (fun dy => for_ 0 2 (fun dx => block_pixel rgb_data width block_y block_x dy dx))
    (y_plane, zeroes 4, zeroes 4).

(** [(sum[0] + sum[1] + sum[2] + sum[3]) / 4] as a byte. *)
Definition average (sum : Plane) : K Z :=
  s0 ← index sum 0; s1 ← index sum 1; s2 ← index sum 2; s3 ← index sum 3;
  Ok (to_byte (Z.quot (s0 +i s1 +i s2 +i s3) 4)).

Definition rgb_to_yuv420p_scalar (rgb_data : Plane) (width height : Z)
    (planes : Plane * Plane * Plane) : K (Plane * Plane * Plane) :=
  for_ 0 (height / 2) (fun block_y =>
    for_ 0 (width / 2) (fun block_x '(y_plane, u_plane, v_plane) =>
      '(y_plane, u_sum, v_sum) ← block rgb_data width block_y block_x y_plane;
      let uv_offset := block_y *u (width / 2) +u block_x in
      u ← average u_sum;
      u_plane ← store u_plane uv_offset u;
      v ← average v_sum;
      v_plane ← store v_plane uv_offset v;
      Ok (y_plane, u_plane, v_plane))) planes.

Definition rgb_to_nv12_scalar (rgb_data : Plane) (width height : Z)
    (planes : Plane * Plane) : K (Plane * Plane) :=
  for_ 0 (height / 2) (fun block_y =>
    for_ 0 (width / 2) (fun block_x '(y_plane, uv_plane) =>
      '(y_plane, u_sum, v_sum) ← block rgb_data width block_y block_x y_plane;
      let uv_offset := (block_y *u (width / 2) +u block_x) *u 2 in
      u ← average u_sum;
      uv_plane ← store uv_plane uv_offset u;
      v ← average v_sum;
      uv_plane ← store uv_plane (uv_offset +u 1) v;
      Ok (y_plane, uv_plane))) planes.
End scalar.

(** ** The loops that the AVX2 and the NEON code share

    Both files go over the luma plane row by row, eight pixels at a time ([eight])
    and the rest one by one, and over the chroma planes block by block. *)
Module rows.
Definition luma_rest (rgb_data : Plane) (row_offset y_row_offset x : Z) (y_plane : Plane) : K Plane :=
  '(r, g, b) ← load_pixel rgb_data (row_offset +u x *u 3);
  store y_plane (y_row_offset +u x) (to_byte (y_val r g b)).

Definition luma (eight : Plane -> Z -> Plane -> Z -> K Plane) (rgb_data : Plane) (width height : Z)
    (y_plane : Plane) : K Plane :=
  let width_minus_8 := width -u width mod 8 in
  for_ 0 height (fun y y_plane =>
    let row_offset := y *u width *u 3 in
    let y_row_offset := y *u width in
    '(x, y_plane) ← while_lt (Z.to_nat width) width_minus_8 8 0
      (fun x y_plane => eight rgb_data (row_offset +u x *u 3) y_plane (y_row_offset +u x)) y_plane;
    '(_, y_plane) ← while_lt (Z.to_nat width) width 1 x
      (fun x => luma_rest rgb_data row_offset y_row_offset x) y_plane;
    Ok y_plane) y_plane.

Definition chroma_pixel (rgb_data : Plane) (width block_y block_x dy dx : Z) (s : Z * Z) : K (Z * Z) :=
  let '(u_sum, v_sum) := s in
  let py := block_y *u 2 +u dy in
  let px := block_x *u 2 +u dx in
  '(r, g, b) ← load_pixel rgb_data ((py *u width +u px) *u 3);
  Ok (u_sum +i u_val r g b, v_sum +i v_val r g b).

Definition chroma_sums (rgb_data : Plane) (width block_y block_x : Z) : K (Z * Z) :=
  for_ 0 2 (fun dy => for_ 0 2 (fun dx => chroma_pixel rgb_data width block_y block_x dy dx)) (0, 0).

(** [((sum + 2) / 4).clamp(0, 255) as u8]. *)
Definition average (sum : Z) : Z := to_byte (Z.quot (sum +i 2) 4).

Definition chroma_yuv420p (rgb_data : Plane) (width height : Z) (planes : Plane * Plane)
  : K (Plane * Plane) :=
  for_ 0 (height / 2) (fun block_y =>
    for_ 0 (width / 2) (fun block_x '(u_plane, v_plane) =>
      '(u_sum, v_sum) ← chroma_sums rgb_data width block_y block_x;
      let uv_offset := block_y *u (width / 2) +u block_x in
      u_plane ← store u_plane uv_offset (average u_sum);
      v_plane ← store v_plane uv_offset (average v_sum);
      Ok (u_plane, v_plane))) planes.

Definition chroma_nv12 (rgb_data : Plane) (width height : Z) (uv_plane : Plane) : K Plane :=
  for_ 0 (height / 2) (fun block_y =>
    for_ 0 (width / 2) (fun block_x uv_plane =>
      '(u_sum, v_sum) ← chroma_sums rgb_data width block_y block_x;
      let uv_offset := (block_y *u (width / 2) +u block_x) *u 2 in
      uv_plane ← store uv_plane uv_offset (average u_sum);
      store uv_plane (uv_offset +u 1) (average v_sum))) uv_plane.
End rows.

(** ** Intrinsics

    The instructions avx2.rs uses, on lists of lanes. *)
Module x86_64.
Definition sat (lo hi x : Z) : Z := clamp lo hi x.
Definition set1_epi32 (v : Z) : list Z := replicate 8 (as_i32 v).
Definition mullo_epi32 (a b : list Z) : list Z := zip_with (fun x y => x *i y) a b.
Definition add_epi32 (a b : list Z) : list Z := zip_with (fun x y => x +i y) a b.
Definition srai_epi32 (a : list Z) (n : Z) : list Z := (fun x => Z.shiftr x n) <$> a.
Definition max_epi32 : list Z -> list Z -> list Z := zip_with Z.max.
Definition min_epi32 : list Z -> list Z -> list Z := zip_with Z.min.
(** The two 128-bit halves are packed separately. *)
Definition packs_epi32 (a b : list Z) : list Z :=
  sat (-32768) 32767 <$> (take 4 a ++ take 4 b ++ drop 4 a ++ drop 4 b).
Definition packus_epi16 (a b : list Z) : list Z :=
  sat 0 255 <$> (take 8 a ++ take 8 b ++ drop 8 a ++ drop 8 b).
Definition castsi256_si128 (a : list Z) : list Z := take 16 a.
Definition extracti128_si256 (a : list Z) (half : nat) : list Z := take 16 (drop (16 * half) a).
(** A shift left by [n] bytes moves byte [i] to byte [i + n]. *)
Definition slli_si128 (a : list Z) (n : nat) : list Z := take 16 (replicate n 0 ++ a).
Definition or_si128 (a b : list Z) : list Z := zip_with Z.lor a b.
(** The register with all bits zero, seen as [n] lanes. *)
Definition setzero (n : nat) : list Z := replicate n 0.
(** The lower 64 bits are written through a raw pointer. *)
Definition storel_epi64 (p : Plane) (i : Z) (a : list Z) : K Plane := blit (Err Undefined) p i (take 8 a).
End x86_64.

Module avx2.
Import x86_64.

(** Eight pixels from a raw pointer, as three vectors of eight [i32] lanes. *)
Definition load_rgb_values (rgb_data : Plane) (rgb_ptr : Z) : K (list Z * list Z * list Z) :=
  px ← mapM (fun i =>
    r ← peek rgb_data (rgb_ptr + i * 3);
    g ← peek rgb_data (rgb_ptr + (i * 3 + 1));
    b ← peek rgb_data (rgb_ptr + (i * 3 + 2));
    Ok (r, g, b)) (seqZ 0 8);
  Ok (px.*1.*1, px.*1.*2, px.*2).

Definition rgb8_to_y_avx2 (r g b : list Z) : list Z :=
  let y_r := set1_epi32 Y_R in
  let y_g := set1_epi32 Y_G in
  let y_b := set1_epi32 Y_B in
  let r_contrib := mullo_epi32 r y_r in
  let g_contrib := mullo_epi32 g y_g in
  let b_contrib := mullo_epi32 b y_b in
  let y_sum := add_epi32 (add_epi32 r_contrib g_contrib) b_contrib in
  let rounding := set1_epi32 128 in
  let y_rounded := add_epi32 y_sum rounding in
  srai_epi32 y_rounded 8.

Definition pack_and_clamp_epi32 (v : list Z) : list Z :=
  let max_val := set1_epi32 255 in
  let clamped := min_epi32 (max_epi32 v (setzero 8)) max_val in
  let packed16 := packs_epi32 clamped (setzero 8) in
  let packed8 := packus_epi16 packed16 (setzero 16) in
  let lo := castsi256_si128 packed8 in
  let hi := extracti128_si256 packed8 1 in
  let hi_shifted := slli_si128 hi 4 in
  or_si128 lo hi_shifted.

Definition eight (rgb_data : Plane) (offset : Z) (y_plane : Plane) (y_offset : Z) : K Plane :=
  '(r, g, b) ← load_rgb_values rgb_data offset;
  let y_vals := rgb8_to_y_avx2 r g b in
  let y_packed := pack_and_clamp_epi32 y_vals in
  storel_epi64 y_plane y_offset y_packed.

Definition rgb_to_yuv420p_avx2 (rgb_data : Plane) (width height : Z)
    (planes : Plane * Plane * Plane) : K (Plane * Plane * Plane) :=
  let '(y_plane, u_plane, v_plane) := planes in
  y_plane ← rows.luma eight rgb_data width height y_plane;
  '(u_plane, v_plane) ← rows.chroma_yuv420p rgb_data width height (u_plane, v_plane);
  Ok (y_plane, u_plane, v_plane).

Definition rgb_to_nv12_avx2 (rgb_data : Plane) (width height : Z)
    (planes : Plane * Plane) : K (Plane * Plane) :=
  let '(y_plane, uv_plane) := planes in
  y_plane ← rows.luma eight rgb_data width height y_plane;
  uv_plane ← rows.chroma_nv12 rgb_data width height uv_plane;
  Ok (y_plane, uv_plane).
End avx2.

Module neon.
Definition compute_y_values_8 (rgb_data : Plane) (rgb_ptr : Z) : K (list Z) :=
  px ← mapM (fun i =>
    r ← peek rgb_data (rgb_ptr + i * 3);
    g ← peek rgb_data (rgb_ptr + (i * 3 + 1));
    b ← peek rgb_data (rgb_ptr + (i * 3 + 2));
    Ok (r, g, b)) (seqZ 0 8);
  Ok ((fun '(r, g, b) => to_byte (y_val r g b)) <$> px).

(** The store is [copy_from_slice] into a range of the slice, which panics out of range. *)
Definition eight (rgb_data : Plane) (offset : Z) (y_plane : Plane) (y_offset : Z) : K Plane :=
  y_vals ← compute_y_values_8 rgb_data offset;
  blit (Panic "range end index out of range") y_plane y_offset y_vals.

Definition rgb_to_yuv420p_neon (rgb_data : Plane) (width height : Z)
    (planes : Plane * Plane * Plane) : K (Plane * Plane * Plane) :=
  let '(y_plane, u_plane, v_plane) := planes in
  y_plane ← rows.luma eight rgb_data width height y_plane;
  '(u_plane, v_plane) ← rows.chroma_yuv420p rgb_data width height (u_plane, v_plane);
  Ok (y_plane, u_plane, v_plane).

Definition rgb_to_nv12_neon (rgb_data : Plane) (width height : Z)
    (planes : Plane * Plane) : K (Plane * Plane) :=
  let '(y_plane, uv_plane) := planes in
  y_plane ← rows.luma eight rgb_data width height y_plane;
  uv_plane ← rows.chroma_nv12 rgb_data width height uv_plane;
  Ok (y_plane, uv_plane).
End neon.

(** ** The choice of an implementation *)
Module ConversionStrategy.
Inductive t := Avx512 | Avx2 | Sse2 | Neon | Scalar.

Definition name (s : t) : string :=
  match s with
  | Avx512 => "AVX-512"
  | Avx2 => "AVX2"
  | Sse2 => "SSE2"
  | Neon => "NEON"
  | Scalar => "Scalar"
  end.

(** What a binary is compiled for, and what the processor it runs on has. *)
Inductive Arch := X86_64 (target_avx512f target_sse2 has_avx2 : bool) | Aarch64 | OtherArch.

Definition optimal (a : Arch) : t :=
  match a with
  | X86_64 true _ _ => Avx512
  | X86_64 false _ true => Avx2
  | X86_64 false sse2 false => if sse2 then Sse2 else Scalar
  | Aarch64 => Neon
  | OtherArch => Scalar
  end.
End ConversionStrategy.
Import ConversionStrategy.

Module simd.
Section Machine.
Context (arch : Arch).

(** The dispatch, [cfg(target_arch)] first. *)
Definition choose {A} (on_avx2 on_neon on_scalar : A) : A :=
  match arch, optimal arch with
  | X86_64 _ _ _, (Avx2 | Avx512) => on_avx2
  | Aarch64, Neon => on_neon
  | _, _ => on_scalar
  end.

Definition convert_yuv420p : Plane -> Z -> Z -> Plane * Plane * Plane -> K (Plane * Plane * Plane) :=
  choose avx2.rgb_to_yuv420p_avx2 neon.rgb_to_yuv420p_neon scalar.rgb_to_yuv420p_scalar.
Definition convert_nv12 : Plane -> Z -> Z -> Plane * Plane -> K (Plane * Plane) :=
  choose avx2.rgb_to_nv12_avx2 neon.rgb_to_nv12_neon scalar.rgb_to_nv12_scalar.

Definition len (p : Plane) : Z := Z.of_nat (length p).
Definition fail {A} (msg : string) : K A := Err (Other msg).

Definition check_dimensions (format : string) (width height : Z) : K unit :=
  if negb (width mod 2 =? 0) || negb (height mod 2 =? 0) then
    fail ("Width and height must be even for " +:+ format +:+ " conversion")
  else if (width =? 0) || (height =? 0) then fail "Width and height must be non-zero"
  else Ok tt.

Definition rgb_to_yuv420p (rgb_data : Plane) (width height : Z) : K (Plane * Plane * Plane) :=
  let expected_size := width *u height *u 3 in
  if negb (len rgb_data =? expected_size) then
    fail ("RGB data size mismatch: expected " +:+ pretty expected_size +:+ " bytes, got " +:+ pretty (len rgb_data))
  else
    check_dimensions "YUV420P" width height;;
    convert_yuv420p rgb_data width height
      (zeroes (width *u height), zeroes (width / 2 *u (height / 2)), zeroes (width / 2 *u (height / 2))).

Definition rgb_to_nv12 (rgb_data : Plane) (width height : Z) : K (Plane * Plane) :=
  let expected_size := width *u height *u 3 in
  if negb (len rgb_data =? expected_size) then
    fail ("RGB data size mismatch: expected " +:+ pretty expected_size +:+ " bytes, got " +:+ pretty (len rgb_data))
  else
    check_dimensions "NV12" width height;;
    convert_nv12 rgb_data width height (zeroes (width *u height), zeroes (width / 2 *u (height / 2) *u 2)).

(** The new length, and the buffer. *)
Definition rgb_to_nv12_in_place (buffer : Plane) (width height : Z) : K (Z * Plane) :=
  let rgb_size := width *u height *u 3 in
  if len buffer <? rgb_size then
    fail ("Buffer too small: expected at least " +:+ pretty rgb_size +:+ " bytes, got " +:+ pretty (len buffer))
  else
    check_dimensions "NV12" width height;;
    let y_size := width *u height in
    let uv_size := width / 2 *u (height / 2) *u 2 in
    let nv12_size := y_size +u uv_size in
    let rgb_data := take (Z.to_nat rgb_size) buffer in
    '(y_plane, uv_plane) ← convert_nv12 rgb_data width height (zeroes y_size, zeroes uv_size);
    buffer ← blit (Panic "range end index out of range") buffer 0 y_plane;
    buffer ← blit (Panic "range end index out of range") buffer y_size uv_plane;
    Ok (nv12_size, buffer).

(** Every frame is checked first, then every frame is converted. *)
Fixpoint check_frames (expected_size i : Z) (rgb_frames : list Plane) : K unit :=
  match rgb_frames with
  | [] => Ok tt
  | rgb_data :: rgb_frames' =>
      if negb (len rgb_data =? expected_size) then
        fail ("Frame " +:+ pretty i +:+ " size mismatch: expected " +:+ pretty expected_size +:+
              " bytes, got " +:+ pretty (len rgb_data))
      else check_frames expected_size (i + 1) rgb_frames'
  end.

Definition rgb_batch_to_nv12 (rgb_frames : list Plane) (width height : Z) : K (list (Plane * Plane)) :=
  match rgb_frames with
  | [] => Ok []
  | _ =>
      check_frames (width *u height *u 3) 0 rgb_frames;;
      check_dimensions "NV12" width height;;
      mapM (fun rgb_data => convert_nv12 rgb_data width height
              (zeroes (width *u height), zeroes (width / 2 *u (height / 2) *u 2))) rgb_frames
  end.

Definition rgb_batch_to_yuv420p (rgb_frames : list Plane) (width height : Z)
  : K (list (Plane * Plane * Plane)) :=
  match rgb_frames with
  | [] => Ok []
  | _ =>
      check_frames (width *u height *u 3) 0 rgb_frames;;
      check_dimensions "YUV420P" width height;;
      mapM (fun rgb_data => convert_yuv420p rgb_data width height
              (zeroes (width *u height), zeroes (width / 2 *u (height / 2)), zeroes (width / 2 *u (height / 2)))) rgb_frames
  end.
End Machine.
End simd.

(** ** Reference

    The transform on mathematical integers, with the planes as tables of it. *)
Definition is_byte (b : Z) : Prop := 0 <= b < 256.
Definition luma (r g b : Z) : Z := Z.shiftr (77 * r + 150 * g + 29 * b + 128) 8.
Definition chroma_u (r g b : Z) : Z := Z.shiftr (-43 * r - 85 * g + 128 * b + 128) 8 + 128.
Definition chroma_v (r g b : Z) : Z := Z.shiftr (128 * r - 107 * g - 21 * b + 128) 8 + 128.

(** The sample of the pixel in column [x] of row [y]. *)
Definition sample (c : Z -> Z -> Z -> Z) (data : Plane) (w x y : Z) : Z :=
  let o := (y * w + x) * 3 in
  c (data !!! Z.to_nat o) (data !!! Z.to_nat (o + 1)) (data !!! Z.to_nat (o + 2)).

(** The sum of the samples of a 2x2 block. *)
Definition block_sum (c : Z -> Z -> Z -> Z) (data : Plane) (w bx by' : Z) : Z :=
  sample c data w (2 * bx) (2 * by') + sample c data w (2 * bx + 1) (2 * by') +
  sample c data w (2 * bx) (2 * by' + 1) + sample c data w (2 * bx + 1) (2 * by' + 1).

(** The average of a block, rounded down or to the nearest, as a byte. *)
Definition mean_down (s : Z) : Z := Z.min 255 (s / 4).
Definition mean_nearest (s : Z) : Z := Z.min 255 ((s + 2) / 4).

Definition table (w h : Z) (f : Z -> Z -> Z) : Plane := (fun i => f (i mod w) (i / w)) <$> seqZ 0 (w * h).

Definition y_table (data : Plane) (w h : Z) : Plane := table w h (sample luma data w).
Definition chroma_table (mean : Z -> Z) (c : Z -> Z -> Z -> Z) (data : Plane) (w h : Z) : Plane :=
  table (w / 2) (h / 2) (fun bx by' => mean (block_sum c data w bx by')).
(** The two chroma planes interleaved. *)
Definition uv_table (mean : Z -> Z) (data : Plane) (w h : Z) : Plane :=
  table (w / 2 * 2) (h / 2) (fun x by' =>
    mean (block_sum (if x mod 2 =? 0 then chroma_u else chroma_v) data w (x / 2) by')).

(** A frame of even dimensions whose size does not overflow. *)
Record image (data : Plane) (w h : Z) : Prop := {
  im_w : 0 < w; im_h : 0 < h;
  im_w_even : w mod 2 = 0; im_h_even : h mod 2 = 0;
  im_len : Z.of_nat (length data) = w * h * 3;
  im_fits : w * h * 3 < u64_mod;
  im_bytes : Forall is_byte data }.

(** ** Arithmetic *)
Lemma as_i32_id x : -2 ^ 31 <= x < 2 ^ 31 -> as_i32 x = x.
Proof. intros H. unfold as_i32. rewrite Z.mod_small; lia. Qed.

Ltac unwrap_i32 :=
  repeat match goal with
  | |- context [as_i32 ?e] =>
      lazymatch e with context [as_i32 _] => fail | _ => rewrite (as_i32_id e) by lia end
  end.

Ltac unwrap :=
  repeat match goal with
  | |- context [as_u64 ?e] =>
      lazymatch e with context [as_u64 _] => fail | _ => rewrite (as_u64_id e) by (unfold is_u64; lia) end
  end.

Lemma y_val_luma r g b : is_byte r -> is_byte g -> is_byte b -> to_byte (y_val r g b) = luma r g b /\ 0 <= luma r g b < 256.
Proof.
  unfold is_byte, y_val, luma, Y_R, Y_G, Y_B. intros Hr Hg Hb. unwrap_i32.
  set (s := 77 * r + 150 * g + 29 * b + 128). assert (0 <= Z.shiftr s 8 < 256).
  { rewrite Z.shiftr_div_pow2 by lia. split; [apply Z.div_pos|apply Z.div_lt_upper_bound]; lia. }
  unfold to_byte, as_u8, clamp. rewrite Z.max_r, Z.min_r, Z.mod_small by lia. done.
Qed.

Lemma shiftr8_bounds s lo hi : lo * 256 <= s -> s < (hi + 1) * 256 -> lo <= Z.shiftr s 8 <= hi.
Proof.
  intros. rewrite Z.shiftr_div_pow2 by lia. change (2 ^ 8) with 256.
  pose proof (Z.div_mod s 256 ltac:(lia)). pose proof (Z.mod_pos_bound s 256 ltac:(lia)). lia.
Qed.

Lemma u_val_chroma r g b : is_byte r -> is_byte g -> is_byte b -> u_val r g b = chroma_u r g b /\ 1 <= chroma_u r g b <= 256.
Proof.
  unfold is_byte, u_val, chroma_u, U_R, U_G, U_B. intros Hr Hg Hb. unwrap_i32.
  replace (-43 * r + -85 * g + 128 * b + 128) with (-43 * r - 85 * g + 128 * b + 128) by lia.
  pose proof (shiftr8_bounds (-43 * r - 85 * g + 128 * b + 128) (-127) 128 ltac:(lia) ltac:(lia)).
  unwrap_i32. lia.
Qed.

Lemma v_val_chroma r g b : is_byte r -> is_byte g -> is_byte b -> v_val r g b = chroma_v r g b /\ 1 <= chroma_v r g b <= 256.
Proof.
  unfold is_byte, v_val, chroma_v, V_R, V_G, V_B. intros Hr Hg Hb. unwrap_i32.
  replace (128 * r + -107 * g + -21 * b + 128) with (128 * r - 107 * g - 21 * b + 128) by lia.
  pose proof (shiftr8_bounds (128 * r - 107 * g - 21 * b + 128) (-127) 128 ltac:(lia) ltac:(lia)).
  unwrap_i32. lia.
Qed.

Lemma to_byte_mean s : 0 <= s <= 1024 -> to_byte (Z.quot s 4) = mean_down s.
Proof.
  intros Hs. unfold to_byte, as_u8, clamp, mean_down. rewrite Z.quot_div_nonneg by lia.
  assert (0 <= s / 4) by (apply Z.div_pos; lia).
  rewrite Z.max_r by lia. apply Z.mod_small. lia.
Qed.

Lemma rows_average s : 0 <= s <= 1024 -> rows.average s = mean_nearest s.
Proof.
  intros Hs. unfold rows.average. unwrap_i32. unfold to_byte, as_u8, clamp, mean_nearest.
  rewrite Z.quot_div_nonneg by lia. assert (0 <= (s + 2) / 4) by (apply Z.div_pos; lia).
  rewrite Z.max_r by lia. apply Z.mod_small. lia.
Qed.

(** ** Loops *)
Lemma for_rule {S} (I : Z -> S -> Prop) lo hi body s :
  lo <= hi -> I lo s ->
  (forall i s, lo <= i < hi -> I i s -> exists s', body i s = Ok s' /\ I (i + 1) s') ->
  exists s', for_ lo hi body s = Ok s' /\ I hi s'.
Proof.
  intros Hle H0 Hstep. unfold for_. remember (Z.to_nat (hi - lo)) as n eqn:En. revert lo s Hle H0 Hstep En.
  induction n as [|n IH]; intros lo s Hle H0 Hstep En; cbn.
  - exists s. split; [done|]. by replace hi with lo by lia.
  - destruct (Hstep lo s ltac:(lia) H0) as (s' & -> & H1). cbn. apply IH; [lia|done| |lia].
    intros i s0 Hi. apply Hstep. lia.
Qed.

Lemma for_two {S} (body : Z -> S -> K S) s : for_ 0 2 body s = s' ← body 0 s; body 1 s'.
Proof.
  unfold for_. change (Z.to_nat (2 - 0)) with 2%nat. cbn [for_range]. change (0 + 1) with 1.
  unfold mbind, result_bind. destruct (body 0 s) as [s'| |]; [|done..]. by destruct (body 1 s').
Qed.

Lemma while_rule {S} (I : Z -> S -> Prop) fuel limit step x body s :
  0 < step -> 0 <= x -> limit + step < u64_mod -> limit - x <= Z.of_nat fuel -> I x s ->
  (forall x s, 0 <= x < limit -> I x s -> exists s', body x s = Ok s' /\ I (x + step) s') ->
  exists x' s', while_lt fuel limit step x body s = Ok (x', s') /\ limit <= x' /\ I x' s'.
Proof.
  intros Hstep. revert x s. induction fuel as [|fuel IH]; intros x s Hx Hl Hf H0 Hb; cbn;
    (destruct (Z.ltb_spec x limit); [|by exists x, s]); [lia|].
  destruct (Hb x s ltac:(lia) H0) as (s' & -> & H1). cbn. unwrap. apply IH; try done; lia.
Qed.

(** ** Planes

    [grid p w h D f]: the plane [p] of [h] rows of [w] bytes holds [f] at the places
    where [D]. *)
Definition grid (p : Plane) (w h : Z) (D : Z -> Z -> Prop) (f : Z -> Z -> Z) : Prop :=
  Z.of_nat (length p) = w * h /\
  forall x y, 0 <= x < w -> 0 <= y < h -> D x y -> p !! Z.to_nat (y * w + x) = Some (f x y).

Lemma cell_bound w h x y : 0 <= x < w -> 0 <= y < h -> 0 <= y * w /\ y * w + x < w * h.
Proof. intros. nia. Qed.

Lemma cell_inj w x y x' y' : 0 <= x < w -> 0 <= x' < w -> y * w + x = y' * w + x' -> x = x' /\ y = y'.
Proof. intros. assert (y = y') by nia. subst. lia. Qed.

Lemma grid_zeroes w h f : 0 <= w * h -> grid (zeroes (w * h)) w h (fun _ _ => False) f.
Proof. intros. split; [unfold zeroes; rewrite length_replicate; lia|done]. Qed.

Lemma grid_weaken p w h (D D' : Z -> Z -> Prop) f :
  grid p w h D f -> (forall x y, 0 <= x < w -> 0 <= y < h -> D' x y -> D x y) -> grid p w h D' f.
Proof. intros [Hl H] HD. split; auto. Qed.

Lemma index_ok p i v : p !! Z.to_nat i = Some v -> index p i = Ok v.
Proof. unfold index. by intros ->. Qed.

Lemma store_ok p i v : (Z.to_nat i < length p)%nat -> store p i v = Ok (<[Z.to_nat i := v]> p).
Proof. intros H. unfold store. by destruct (Nat.ltb_spec (Z.to_nat i) (length p)); [|lia]. Qed.

Lemma grid_store p w h D f x y v :
  grid p w h D f -> 0 <= x < w -> 0 <= y < h -> v = f x y ->
  exists p', store p (y * w + x) v = Ok p' /\ grid p' w h (fun x' y' => D x' y' \/ (x' = x /\ y' = y)) f.
Proof.
  intros [Hl H] Hx Hy ->. pose proof (cell_bound w h x y Hx Hy). rewrite store_ok by lia.
  eexists. split; [done|]. split; [by rewrite length_insert|].
  intros x' y' Hx' Hy' HD. destruct (decide (x' = x /\ y' = y)) as [[-> ->]|Hne].
  - apply list_lookup_insert_eq. lia.
  - pose proof (cell_bound w h x' y' Hx' Hy'). rewrite list_lookup_insert_ne.
    + apply H; [done..|]. by destruct HD.
    + intros E. apply Hne. apply (cell_inj w); lia.
Qed.

Lemma grid_blit otherwise p w h D f x y vs :
  grid p w h D f -> 0 <= x -> x + 8 <= w -> 0 <= y < h -> vs = (fun j => f (x + j) y) <$> seqZ 0 8 ->
  exists p', blit otherwise p (y * w + x) vs = Ok p' /\
    grid p' w h (fun x' y' => D x' y' \/ (x <= x' < x + 8 /\ y' = y)) f.
Proof.
  intros [Hl H] Hx Hx8 Hy ->. pose proof (cell_bound w h x y ltac:(lia) Hy).
  pose proof (cell_bound w h (x + 7) y ltac:(lia) Hy).
  assert (length ((fun j => f (x + j) y) <$> seqZ 0 8) = 8%nat) as Hlen by by rewrite length_fmap, length_seqZ.
  unfold blit. rewrite Hlen. destruct (Nat.leb_spec (Z.to_nat (y * w + x) + 8) (length p)); [|lia].
  eexists. split; [done|]. split; [by rewrite length_inserts|].
  intros x' y' Hx' Hy' HD. pose proof (cell_bound w h x' y' Hx' Hy').
  destruct (decide (x <= x' < x + 8 /\ y' = y)) as [[Hin ->]|Hne].
  - rewrite list_lookup_inserts by (rewrite ?Hlen; lia).
    rewrite list_lookup_fmap, lookup_seqZ_lt by lia. cbn. do 2 f_equal. lia.
  - destruct HD as [HD|]; [|done].
    destruct (decide (y' * w + x' < y * w + x)).
    + rewrite list_lookup_inserts_lt by lia. by apply H.
    + rewrite list_lookup_inserts_ge; [by apply H|]. rewrite Hlen.
      assert (y' = y -> x + 8 <= x') by lia. assert (y' <> y -> y * w + w <= y' * w + x') by nia. lia.
Qed.

Lemma blit_at otherwise l1 l2 l3 p i vs :
  p = l1 ++ l2 ++ l3 -> i = Z.of_nat (length l1) -> length l2 = length vs -> blit otherwise p i vs = Ok (l1 ++ vs ++ l3).
Proof.
  intros -> -> Hl. unfold blit. rewrite Nat2Z.id, !length_app.
  destruct (Nat.leb_spec (length l1 + length vs) (length l1 + (length l2 + length l3))); [|lia]. f_equal.
  rewrite <-(Nat.add_0_r (length l1)), list_inserts_app_r. f_equal. by apply list_inserts_0_r.
Qed.

Lemma lookup_table w h f x y : 0 <= x < w -> 0 <= y < h -> table w h f !! Z.to_nat (y * w + x) = Some (f x y).
Proof.
  intros Hx Hy. pose proof (cell_bound w h x y Hx Hy). unfold table.
  rewrite list_lookup_fmap, lookup_seqZ_lt by lia. csimpl.
  replace (0 + _) with (x + y * w) by lia. rewrite Z.mod_add, Z.div_add, Z.mod_small, Z.div_small by lia. done.
Qed.

(** A plane that is right everywhere is the table. *)
Lemma grid_table p w h (D : Z -> Z -> Prop) f :
  0 < w -> 0 <= h -> grid p w h D f -> (forall x y, 0 <= x < w -> 0 <= y < h -> D x y) -> p = table w h f.
Proof.
  intros Hw Hh [Hl H] HD. apply list_eq. intros i.
  destruct (decide (i < length p)%nat) as [Hi|Hi].
  - pose proof (Z.div_mod (Z.of_nat i) w ltac:(lia)) as E.
    pose proof (Z.mod_pos_bound (Z.of_nat i) w ltac:(lia)).
    assert (0 <= Z.of_nat i / w < h) by (split; [apply Z.div_pos|apply Z.div_lt_upper_bound]; lia).
    replace i with (Z.to_nat (Z.of_nat i / w * w + Z.of_nat i mod w)) by lia.
    rewrite H, lookup_table by auto. done.
  - rewrite !lookup_ge_None_2; [done| |lia]. unfold table. rewrite length_fmap, length_seqZ. lia.
Qed.

(** ** Vectors *)
Lemma mapM_ok {A B} (f : A -> K B) (g : A -> B) l : (forall a, a ∈ l -> f a = Ok (g a)) -> mapM f l = Ok (g <$> l).
Proof.
  induction l as [|a l IH]; intros H; [done|]. cbn. rewrite H by left. cbn. rewrite IH; [done|].
  intros a' Ha. apply H. by right.
Qed.

Lemma to_byte_clamp x : to_byte x = clamp 0 255 x.
Proof. unfold to_byte, as_u8, clamp. apply Z.mod_small. lia. Qed.

Lemma rgb8_to_y_lanes (px : list (Z * Z * Z)) :
  length px = 8%nat ->
  avx2.rgb8_to_y_avx2 px.*1.*1 px.*1.*2 px.*2 = (fun p => y_val p.1.1 p.1.2 p.2) <$> px.
Proof.
  intros Hl. assert (forall r g b, Z.shiftr (r *i as_i32 Y_R +i g *i as_i32 Y_G +i b *i as_i32 Y_B +i as_i32 128) 8 = y_val r g b) as Hy.
  { intros r g b. unfold y_val, Y_R, Y_G, Y_B. rewrite (as_i32_id 77), (as_i32_id 150), (as_i32_id 29), (as_i32_id 128) by lia.
    by rewrite (Z.mul_comm r), (Z.mul_comm g), (Z.mul_comm b). }
  do 8 (destruct px as [|[[? ?] ?] px]; [done|]). destruct px; [|done]. clear Hl.
  unfold avx2.rgb8_to_y_avx2, x86_64.srai_epi32, x86_64.add_epi32, x86_64.mullo_epi32, x86_64.set1_epi32. csimpl.
  by rewrite !Hy.
Qed.

Lemma pack_lanes v : length v = 8%nat -> take 8 (avx2.pack_and_clamp_epi32 v) = clamp 0 255 <$> v.
Proof.
  intros Hl. do 8 (destruct v as [|? v]; [done|]). destruct v; [|done]. clear Hl.
  unfold avx2.pack_and_clamp_epi32, x86_64.or_si128, x86_64.slli_si128, x86_64.extracti128_si256,
    x86_64.castsi256_si128, x86_64.packus_epi16, x86_64.packs_epi32, x86_64.min_epi32, x86_64.max_epi32,
    x86_64.setzero, x86_64.set1_epi32. csimpl.
  assert (forall x, x86_64.sat 0 255 (x86_64.sat (-32768) 32767 (Z.min (Z.max x 0) (as_i32 255))) = clamp 0 255 x) as Hs.
  { intros x. unfold x86_64.sat, clamp. rewrite (as_i32_id 255) by lia. lia. }
  rewrite !Hs, !Z.lor_0_r. done.
Qed.

(** ** The loops compute the tables *)
Section Image.
Context {data : Plane} {w h : Z} (Him : image data w h).

Lemma dims_le : w <= w * h /\ h <= w * h /\ w * h * 3 < u64_mod /\ 0 < w /\ 0 < h.
Proof. destruct Him. split_and!; nia. Qed.

Lemma halves : w / 2 * 2 = w /\ h / 2 * 2 = h.
Proof.
  destruct Him as [_ _ Hw Hh _ _ _].
  pose proof (Z.div_mod w 2 ltac:(lia)). pose proof (Z.div_mod h 2 ltac:(lia)). lia.
Qed.

Lemma half_cells : w / 2 * (h / 2) * 2 <= w * h /\ 0 <= w / 2 * (h / 2).
Proof. pose proof halves. pose proof dims_le. nia. Qed.

Lemma byte_at i : 0 <= i < w * h * 3 -> exists v, data !! Z.to_nat i = Some v /\ is_byte v /\ data !!! Z.to_nat i = v.
Proof.
  intros Hi. destruct (lookup_lt_is_Some_2 data (Z.to_nat i)) as [v Hv]; [pose proof (im_len _ _ _ Him); lia|].
  exists v. split_and!; [done| |by apply list_lookup_total_correct].
  eapply Forall_lookup_1; [apply Him|done].
Qed.

Lemma pixel_at x y : 0 <= x < w -> 0 <= y < h ->
  exists r g b, is_byte r /\ is_byte g /\ is_byte b /\ (forall c, sample c data w x y = c r g b) /\
    data !! Z.to_nat ((y * w + x) * 3) = Some r /\ data !! Z.to_nat ((y * w + x) * 3 + 1) = Some g /\
    data !! Z.to_nat ((y * w + x) * 3 + 2) = Some b.
Proof.
  intros Hx Hy. pose proof (cell_bound w h x y Hx Hy).
  destruct (byte_at ((y * w + x) * 3)) as (r & Er & Hr & Tr); [lia|].
  destruct (byte_at ((y * w + x) * 3 + 1)) as (g & Eg & Hg & Tg); [lia|].
  destruct (byte_at ((y * w + x) * 3 + 2)) as (b & Eb & Hb & Tb); [lia|].
  exists r, g, b. split_and!; try done. intros c. unfold sample. by rewrite Tr, Tg, Tb.
Qed.

Lemma load_pixel_ok x y : 0 <= x < w -> 0 <= y < h ->
  exists r g b, load_pixel data ((y * w + x) * 3) = Ok (r, g, b) /\
    is_byte r /\ is_byte g /\ is_byte b /\ forall c, sample c data w x y = c r g b.
Proof.
  intros Hx Hy. pose proof (cell_bound w h x y Hx Hy). pose proof dims_le.
  destruct (pixel_at x y Hx Hy) as (r & g & b & Hr & Hg & Hb & Hs & Er & Eg & Eb).
  exists r, g, b. split; [|done]. unfold load_pixel, index. rewrite Er. cbn. unwrap. rewrite Eg. cbn. rewrite Eb. done.
Qed.

Lemma luma_bounds x y : 0 <= x < w -> 0 <= y < h -> 0 <= sample luma data w x y < 256.
Proof.
  intros Hx Hy. destruct (pixel_at x y Hx Hy) as (r & g & b & Hr & Hg & Hb & -> & _). by apply y_val_luma.
Qed.

Definition is_chroma (c : Z -> Z -> Z -> Z) : Prop := c = chroma_u \/ c = chroma_v.

Lemma chroma_bounds c : is_chroma c ->
  forall x y, 0 <= x < w -> 0 <= y < h -> 1 <= sample c data w x y <= 256.
Proof.
  intros Hc x y Hx Hy. destruct (pixel_at x y Hx Hy) as (r & g & b & Hr & Hg & Hb & -> & _).
  destruct Hc as [-> | ->]; [by apply u_val_chroma|by apply v_val_chroma].
Qed.

Lemma block_sum_bounds c bx by' : is_chroma c -> 0 <= bx < w / 2 -> 0 <= by' < h / 2 ->
  0 <= block_sum c data w bx by' <= 1024.
Proof.
  intros Hc Hx Hy. pose proof halves. pose proof (chroma_bounds c Hc) as Hs. unfold block_sum. pose proof (Hs (2 * bx) (2 * by') ltac:(lia) ltac:(lia)).
  pose proof (Hs (2 * bx + 1) (2 * by') ltac:(lia) ltac:(lia)).
  pose proof (Hs (2 * bx) (2 * by' + 1) ltac:(lia) ltac:(lia)).
  pose proof (Hs (2 * bx + 1) (2 * by' + 1) ltac:(lia) ltac:(lia)). lia.
Qed.

(** *** Scalar code *)

(** What has been done when the block in column [bx] of row [by'] is next. *)
Definition blocks_done (bx by' x y : Z) : Prop := y / 2 < by' \/ (y / 2 = by' /\ x / 2 < bx).

Lemma block_pixel_ok bx by' dy dx D p us vs u v :
  0 <= bx < w / 2 -> 0 <= by' < h / 2 -> (dy = 0 \/ dy = 1) -> (dx = 0 \/ dx = 1) ->
  grid p w h D (sample luma data w) ->
  us !! Z.to_nat (2 * dy + dx) = Some u -> 0 <= u <= 1024 ->
  vs !! Z.to_nat (2 * dy + dx) = Some v -> 0 <= v <= 1024 ->
  exists p', scalar.block_pixel data w by' bx dy dx (p, us, vs) =
      Ok (p', <[Z.to_nat (2 * dy + dx) := u + sample chroma_u data w (2 * bx + dx) (2 * by' + dy)]> us,
              <[Z.to_nat (2 * dy + dx) := v + sample chroma_v data w (2 * bx + dx) (2 * by' + dy)]> vs) /\
    grid p' w h (fun x y => D x y \/ (x = 2 * bx + dx /\ y = 2 * by' + dy)) (sample luma data w).
Proof.
  intros Hx Hy Hdy Hdx Hg Hu Hu' Hv Hv'. pose proof dims_le. pose proof halves.
  pose proof (cell_bound w h (2 * bx + dx) (2 * by' + dy) ltac:(lia) ltac:(lia)).
  unfold scalar.block_pixel. unwrap.
  replace (by' * 2 + dy) with (2 * by' + dy) by lia. replace (bx * 2 + dx) with (2 * bx + dx) by lia.
  destruct (load_pixel_ok (2 * bx + dx) (2 * by' + dy)) as (r & g & b & -> & Hr & Hgb & Hb & Hs); [lia..|].
  cbn -[Z.mul Z.add Z.lor Z.shiftl Z.land].
  destruct (grid_store p w h D (sample luma data w) (2 * bx + dx) (2 * by' + dy) (to_byte (y_val r g b)))
    as (p' & -> & Hp'); [done|lia..|rewrite Hs; by apply y_val_luma|].
  cbn -[Z.mul Z.add Z.lor Z.shiftl Z.land].
  replace (Z.lor _ _) with (2 * dy + dx).
  2: { replace (Z.land (2 * by' + dy) 1) with dy; [replace (Z.land (2 * bx + dx) 1) with dx|].
       - by destruct Hdy as [-> | ->], Hdx as [-> | ->].
       - change 1 with (Z.ones 1). rewrite Z.land_ones by lia. change (2 ^ 1) with 2.
         rewrite Z.add_comm, Z.mul_comm, Z.mod_add, Z.mod_small; lia.
       - change 1 with (Z.ones 1). rewrite Z.land_ones by lia. change (2 ^ 1) with 2.
         rewrite Z.add_comm, Z.mul_comm, Z.mod_add, Z.mod_small; lia. }
  pose proof (lookup_lt_Some _ _ _ Hu). pose proof (lookup_lt_Some _ _ _ Hv).
  destruct (u_val_chroma r g b Hr Hgb Hb) as [-> ?]. destruct (v_val_chroma r g b Hr Hgb Hb) as [-> ?].
  rewrite (index_ok us _ u), (index_ok vs _ v) by done. cbn -[Z.mul Z.add store].
  rewrite !store_ok by done. cbn -[Z.mul Z.add]. unwrap_i32. rewrite !Hs. by exists p'.
Qed.
(** The average of the four sums is that of the block. *)
Lemma average_ok c bx by' :
  (forall x y, 0 <= x < w -> 0 <= y < h -> 1 <= sample c data w x y <= 256) ->
  0 <= bx < w / 2 -> 0 <= by' < h / 2 ->
  scalar.average [0 + sample c data w (2 * bx + 0) (2 * by' + 0); 0 + sample c data w (2 * bx + 1) (2 * by' + 0);
                  0 + sample c data w (2 * bx + 0) (2 * by' + 1); 0 + sample c data w (2 * bx + 1) (2 * by' + 1)] =
    Ok (mean_down (block_sum c data w bx by')).
Proof.
  intros Hs Hx Hy. pose proof halves.
  pose proof (Hs (2 * bx) (2 * by') ltac:(lia) ltac:(lia)).
  pose proof (Hs (2 * bx + 1) (2 * by') ltac:(lia) ltac:(lia)).
  pose proof (Hs (2 * bx) (2 * by' + 1) ltac:(lia) ltac:(lia)).
  pose proof (Hs (2 * bx + 1) (2 * by' + 1) ltac:(lia) ltac:(lia)).
  unfold scalar.average, index. change (Z.to_nat 0) with 0%nat. change (Z.to_nat 1) with 1%nat.
  change (Z.to_nat 2) with 2%nat. change (Z.to_nat 3) with 3%nat. cbn -[Z.add Z.mul sample Z.quot].
  rewrite !Z.add_0_l, !Z.add_0_r. unwrap_i32. rewrite to_byte_mean by lia. done.
Qed.

Ltac pixel Hx Hy p' H' :=
  match goal with
  | |- context [scalar.block_pixel _ _ ?by' ?bx ?dy ?dx (?p, ?us, ?vs)] =>
      match goal with
      | Hg : grid p w h _ _ |- _ =>
          edestruct (block_pixel_ok bx by' dy dx _ p us vs 0 0 Hx Hy ltac:(lia) ltac:(lia) Hg)
            as (p' & -> & H'); [reflexivity|lia|reflexivity|lia|]; cbn [mbind result_bind]
      end
  end.

Lemma block_ok bx by' p :
  0 <= bx < w / 2 -> 0 <= by' < h / 2 -> grid p w h (blocks_done bx by') (sample luma data w) ->
  exists p' us vs, scalar.block data w by' bx p = Ok (p', us, vs) /\
    grid p' w h (blocks_done (bx + 1) by') (sample luma data w) /\
    scalar.average us = Ok (mean_down (block_sum chroma_u data w bx by')) /\
    scalar.average vs = Ok (mean_down (block_sum chroma_v data w bx by')).
Proof.
  intros Hx Hy Hg. unfold scalar.block. rewrite for_two.
  assert (exists D0, grid p w h D0 (sample luma data w) /\ forall x y, blocks_done bx by' x y -> D0 x y)
    as (D0 & HD0 & Hsub) by eauto. clear Hg.
  rewrite for_two. pixel Hx Hy p1 H1. pixel Hx Hy p2 H2.
  rewrite for_two. pixel Hx Hy p3 H3. pixel Hx Hy p4 H4.
  eexists p4, _, _. split; [done|]. split_and!.
  - apply (grid_weaken _ _ _ _ _ _ H4). unfold blocks_done in *. intros x y Hx' Hy' HD.
    pose proof (Z.div_mod x 2 ltac:(lia)). pose proof (Z.mod_pos_bound x 2 ltac:(lia)).
    pose proof (Z.div_mod y 2 ltac:(lia)). pose proof (Z.mod_pos_bound y 2 ltac:(lia)).
    destruct (decide (y / 2 < by' \/ (y / 2 = by' /\ x / 2 < bx))); [do 4 left; by apply Hsub|].
    assert (x = 2 * bx + x mod 2 /\ y = 2 * by' + y mod 2) as [Ex Ey] by lia.
    assert (x mod 2 = 0 \/ x mod 2 = 1) as [Mx|Mx] by lia; assert (y mod 2 = 0 \/ y mod 2 = 1) as [My|My] by lia;
      rewrite Mx in Ex; rewrite My in Ey; tauto.
  - apply average_ok; [apply chroma_bounds; by left|done..].
  - apply average_ok; [apply chroma_bounds; by right|done..].
Qed.
(** *** The loop over the blocks *)
Lemma blocks_rule {S} (I : Z -> Z -> S -> Prop) (body : Z -> Z -> S -> K S) s :
  I 0 0 s ->
  (forall bx by' s, 0 <= bx < w / 2 -> 0 <= by' < h / 2 -> I bx by' s -> exists s', body by' bx s = Ok s' /\ I (bx + 1) by' s') ->
  (forall by' s, 0 <= by' < h / 2 -> I (w / 2) by' s -> I 0 (by' + 1) s) ->
  exists s', for_ 0 (h / 2) (fun by' => for_ 0 (w / 2) (body by')) s = Ok s' /\ I 0 (h / 2) s'.
Proof.
  intros Hinit Hstep Hline. pose proof dims_le. pose proof halves. apply (for_rule (fun by' => I 0 by')); [lia|done|].
  intros by' s0 Hy Hs. destruct (for_rule (fun bx => I bx by') 0 (w / 2) (body by') s0) as (s' & E & Hs');
    [lia|done|auto|]. eauto.
Qed.

(** Row by row: everything before column [x0] of row [y0]. *)
Definition rows_done (x0 y0 x y : Z) : Prop := y < y0 \/ (y = y0 /\ x < x0).

Lemma rows_next p w' h' f by' x0 : grid p w' h' (rows_done x0 by') f -> w' <= x0 -> grid p w' h' (rows_done 0 (by' + 1)) f.
Proof. intros Hg Hx. apply (grid_weaken _ _ _ _ _ _ Hg). unfold rows_done. intros x y ? ? ?. lia. Qed.

Lemma rows_full p w' h' f : 0 < w' -> 0 <= h' -> grid p w' h' (rows_done 0 h') f -> p = table w' h' f.
Proof. intros Hw Hh Hg. apply (grid_table _ _ _ _ _ Hw Hh Hg). unfold rows_done. lia. Qed.

Lemma rows_start n w' h' f : 0 <= w' * h' -> n = w' * h' -> grid (zeroes n) w' h' (rows_done 0 0) f.
Proof. intros Hn ->. apply (grid_weaken _ _ _ _ _ _ (grid_zeroes w' h' f Hn)). unfold rows_done. lia. Qed.

Lemma rows_store p w' h' f x y v :
  grid p w' h' (rows_done x y) f -> 0 <= x < w' -> 0 <= y < h' -> v = f x y ->
  exists p', store p (y * w' + x) v = Ok p' /\ grid p' w' h' (rows_done (x + 1) y) f.
Proof.
  intros Hg Hx Hy Hv. destruct (grid_store _ _ _ _ _ _ _ _ Hg Hx Hy Hv) as (p' & E & Hg').
  exists p'. split; [done|]. apply (grid_weaken _ _ _ _ _ _ Hg'). unfold rows_done. lia.
Qed.

Lemma blocks_next p f by' : grid p w h (blocks_done (w / 2) by') f -> grid p w h (blocks_done 0 (by' + 1)) f.
Proof.
  intros Hg. pose proof halves. apply (grid_weaken _ _ _ _ _ _ Hg). unfold blocks_done. intros x y ? ? ?.
  assert (x / 2 < w / 2) by (apply Z.div_lt_upper_bound; lia).
  pose proof (Z.div_pos x 2 ltac:(lia) ltac:(lia)). lia.
Qed.

Lemma blocks_full p f : grid p w h (blocks_done 0 (h / 2)) f -> p = table w h f.
Proof.
  intros Hg. pose proof dims_le. pose proof halves. eapply grid_table; [lia|lia|exact Hg|].
  unfold blocks_done. intros x y ? ?. left. apply Z.div_lt_upper_bound; lia.
Qed.

Lemma blocks_start f : grid (zeroes (w * h)) w h (blocks_done 0 0) f.
Proof.
  pose proof dims_le. apply (grid_weaken _ _ _ _ _ _ (grid_zeroes w h f ltac:(lia))). unfold blocks_done.
  intros x y ? ?. pose proof (Z.div_pos x 2 ltac:(lia) ltac:(lia)). pose proof (Z.div_pos y 2 ltac:(lia) ltac:(lia)). lia.
Qed.

(** The chroma table as a function of the block, and of the place in the NV12 plane. *)
Abbreviation chroma_f mean c := (fun bx by' => mean (block_sum c data w bx by')).
Abbreviation uv_f mean := (fun x by' => mean (block_sum (if x mod 2 =? 0 then chroma_u else chroma_v) data w (x / 2) by')).

Lemma uv_f_even (mean : Z -> Z) bx by' : uv_f mean (2 * bx) by' = mean (block_sum chroma_u data w bx by').
Proof.
  replace (2 * bx) with (0 + bx * 2) by lia. rewrite Z.mod_add, Z.div_add by lia. done.
Qed.
Lemma uv_f_odd (mean : Z -> Z) bx by' : uv_f mean (2 * bx + 1) by' = mean (block_sum chroma_v data w bx by').
Proof.
  replace (2 * bx + 1) with (1 + bx * 2) by lia. rewrite Z.mod_add, Z.div_add by lia. done.
Qed.

(** Where a block is stored. *)
Lemma uv_offset bx by' : 0 <= bx < w / 2 -> 0 <= by' < h / 2 -> by' *u (w / 2) +u bx = by' * (w / 2) + bx.
Proof.
  intros Hx Hy. pose proof dims_le. pose proof half_cells. pose proof (cell_bound (w / 2) (h / 2) bx by' Hx Hy). by unwrap.
Qed.
Lemma uv_offset2 bx by' : 0 <= bx < w / 2 -> 0 <= by' < h / 2 ->
  (by' * (w / 2) + bx) *u 2 = by' * (w / 2 * 2) + 2 * bx /\
  (by' * (w / 2 * 2) + 2 * bx) +u 1 = by' * (w / 2 * 2) + (2 * bx + 1).
Proof.
  intros Hx Hy. pose proof dims_le. pose proof half_cells. pose proof (cell_bound (w / 2) (h / 2) bx by' Hx Hy).
  unwrap. lia.
Qed.

Lemma scalar_yuv420p :
  scalar.rgb_to_yuv420p_scalar data w h
    (zeroes (w * h), zeroes (w / 2 * (h / 2)), zeroes (w / 2 * (h / 2))) =
  Ok (y_table data w h, chroma_table mean_down chroma_u data w h, chroma_table mean_down chroma_v data w h).
Proof.
  pose proof half_cells. pose proof dims_le. pose proof halves. unfold scalar.rgb_to_yuv420p_scalar.
  edestruct (blocks_rule (fun bx by' '(p, u, v) => grid p w h (blocks_done bx by') (sample luma data w) /\
    grid u (w / 2) (h / 2) (rows_done bx by') (chroma_f mean_down chroma_u) /\
    grid v (w / 2) (h / 2) (rows_done bx by') (chroma_f mean_down chroma_v))) as ([[p u] v] & -> & Hp & Hu & Hv).
  - split_and!; [apply blocks_start|apply rows_start; lia..].
  - intros bx by' [[p u] v] Hx Hy (Hp & Hu & Hv).
    destruct (block_ok bx by' p Hx Hy Hp) as (p' & us & vs & -> & Hp' & Eu & Ev). cbn [mbind result_bind].
    rewrite Eu, Ev, uv_offset by done. cbn [mbind result_bind].
    edestruct (rows_store u) as (u' & -> & Hu'); [done..|]. cbn [mbind result_bind].
    edestruct (rows_store v) as (v' & -> & Hv'); [done..|]. cbn [mbind result_bind]. by eexists (_, _, _).
  - intros by' [[p u] v] Hy (Hp & Hu & Hv). split_and!; [by apply blocks_next|by eapply rows_next..].
  - unfold y_table, chroma_table. rewrite (blocks_full _ _ Hp). do 2 f_equal; [f_equal|]; apply rows_full; done || lia.
Qed.

Lemma scalar_nv12 :
  scalar.rgb_to_nv12_scalar data w h (zeroes (w * h), zeroes (w / 2 * (h / 2) * 2)) =
  Ok (y_table data w h, uv_table mean_down data w h).
Proof.
  pose proof half_cells. pose proof dims_le. pose proof halves. unfold scalar.rgb_to_nv12_scalar.
  edestruct (blocks_rule (fun bx by' '(p, uv) => grid p w h (blocks_done bx by') (sample luma data w) /\
    grid uv (w / 2 * 2) (h / 2) (rows_done (2 * bx) by') (uv_f mean_down))) as ([p uv] & -> & Hp & Huv).
  - split; [apply blocks_start|apply rows_start; lia].
  - intros bx by' [p uv] Hx Hy (Hp & Huv).
    destruct (block_ok bx by' p Hx Hy Hp) as (p' & us & vs & -> & Hp' & Eu & Ev). cbn [mbind result_bind].
    destruct (uv_offset2 bx by' Hx Hy) as [O1 O2].
    rewrite Eu, Ev, uv_offset, O1, O2 by done. cbn [mbind result_bind].
    edestruct (rows_store uv) as (uv1 & -> & Hu1); [done|lia|done|symmetry; apply (uv_f_even mean_down)|]. cbn [mbind result_bind].
    edestruct (rows_store uv1) as (uv2 & -> & Hu2); [done|lia|done|symmetry; apply (uv_f_odd mean_down)|]. cbn [mbind result_bind].
    eexists (_, _). split; [done|]. split; [done|]. by replace (2 * (bx + 1)) with (2 * bx + 1 + 1) by lia.
  - intros by' [p uv] Hy (Hp & Huv). split; [by apply blocks_next|]. eapply rows_next; [done|lia].
  - unfold y_table, uv_table. rewrite (blocks_full _ _ Hp). do 2 f_equal. apply rows_full; done || lia.
Qed.
(** *** The loops over rows *)

(** What the luma loop needs of a step of eight pixels. *)
Definition stores_eight (eight : Plane -> Z -> Plane -> Z -> K Plane) : Prop :=
  forall x y p, 0 <= x -> x + 8 <= w -> 0 <= y < h -> grid p w h (rows_done x y) (sample luma data w) ->
    exists p', eight data ((y * w + x) * 3) p (y * w + x) = Ok p' /\ grid p' w h (rows_done (x + 8) y) (sample luma data w).

Definition triple (x y : Z) : Z * Z * Z :=
  let o := (y * w + x) * 3 in
  (data !!! Z.to_nat o, data !!! Z.to_nat (o + 1), data !!! Z.to_nat (o + 2)).

Lemma triple_ok x y : 0 <= x < w -> 0 <= y < h ->
  exists r g b, triple x y = (r, g, b) /\ sample luma data w x y = to_byte (y_val r g b) /\
    peek data ((y * w + x) * 3) = Ok r /\ peek data ((y * w + x) * 3 + 1) = Ok g /\ peek data ((y * w + x) * 3 + 2) = Ok b.
Proof.
  intros Hx Hy. destruct (pixel_at x y Hx Hy) as (r & g & b & Hr & Hg & Hb & Hs & Er & Eg & Eb).
  exists r, g, b. unfold triple, peek. rewrite Hs, Er, Eg, Eb.
  rewrite (list_lookup_total_correct _ _ _ Er), (list_lookup_total_correct _ _ _ Eg), (list_lookup_total_correct _ _ _ Eb).
  split_and!; try done. symmetry. by apply y_val_luma.
Qed.

Lemma load_eight x y : 0 <= x -> x + 8 <= w -> 0 <= y < h ->
  mapM (fun i =>
    r ← peek data ((y * w + x) * 3 + i * 3);
    g ← peek data ((y * w + x) * 3 + (i * 3 + 1));
    b ← peek data ((y * w + x) * 3 + (i * 3 + 2));
    Ok (r, g, b)) (seqZ 0 8) = Ok ((fun i => triple (x + i) y) <$> seqZ 0 8).
Proof.
  intros Hx Hw Hy. apply mapM_ok. intros i Hi%elem_of_seqZ.
  destruct (triple_ok (x + i) y ltac:(lia) Hy) as (r & g & b & -> & _ & Er & Eg & Eb).
  replace ((y * w + x) * 3 + i * 3) with ((y * w + (x + i)) * 3) by lia. rewrite Er. cbn [mbind result_bind].
  replace ((y * w + x) * 3 + (i * 3 + 1)) with ((y * w + (x + i)) * 3 + 1) by lia. rewrite Eg. cbn [mbind result_bind].
  replace ((y * w + x) * 3 + (i * 3 + 2)) with ((y * w + (x + i)) * 3 + 2) by lia. by rewrite Eb.
Qed.

Lemma luma_eight x y : 0 <= x -> x + 8 <= w -> 0 <= y < h ->
  (fun p => to_byte (y_val p.1.1 p.1.2 p.2)) <$> ((fun i => triple (x + i) y) <$> seqZ 0 8) =
  (fun i => sample luma data w (x + i) y) <$> seqZ 0 8.
Proof.
  intros Hx Hw Hy. rewrite <-list_fmap_compose. apply list_fmap_ext. intros j i Hi%list_elem_of_lookup_2%elem_of_seqZ.
  destruct (triple_ok (x + i) y ltac:(lia) Hy) as (r & g & b & E & Hs & _). unfold compose. by rewrite E, Hs.
Qed.

Lemma rows_blit otherwise p x y vs :
  grid p w h (rows_done x y) (sample luma data w) -> 0 <= x -> x + 8 <= w -> 0 <= y < h ->
  vs = (fun i => sample luma data w (x + i) y) <$> seqZ 0 8 ->
  exists p', blit otherwise p (y * w + x) vs = Ok p' /\ grid p' w h (rows_done (x + 8) y) (sample luma data w).
Proof.
  intros Hg Hx Hw Hy Hvs. destruct (grid_blit otherwise _ _ _ _ _ _ _ _ Hg Hx Hw Hy Hvs) as (p' & E & Hg').
  exists p'. split; [done|]. apply (grid_weaken _ _ _ _ _ _ Hg'). unfold rows_done. lia.
Qed.

Lemma avx2_eight : stores_eight avx2.eight.
Proof.
  intros x y p Hx Hw Hy Hg. unfold avx2.eight, avx2.load_rgb_values. rewrite load_eight by done.
  cbn [mbind result_bind]. rewrite rgb8_to_y_lanes by done. unfold x86_64.storel_epi64.
  rewrite pack_lanes by done. apply rows_blit; [done..|]. rewrite <-luma_eight by done.
  rewrite <-!list_fmap_compose. apply list_fmap_ext. intros _ i _. unfold compose. by rewrite to_byte_clamp.
Qed.

Lemma neon_eight : stores_eight neon.eight.
Proof.
  intros x y p Hx Hw Hy Hg. unfold neon.eight, neon.compute_y_values_8. rewrite load_eight by done.
  cbn [mbind result_bind]. apply rows_blit; [done..|]. rewrite <-luma_eight by done.
  apply list_fmap_ext. by intros _ [[r g] b] _.
Qed.

Lemma luma_rest_ok x y p : 0 <= x < w -> 0 <= y < h -> grid p w h (rows_done x y) (sample luma data w) ->
  exists p', rows.luma_rest data (y * w * 3) (y * w) x p = Ok p' /\ grid p' w h (rows_done (x + 1) y) (sample luma data w).
Proof.
  intros Hx Hy Hg. pose proof dims_le. pose proof (cell_bound w h x y Hx Hy). unfold rows.luma_rest. unwrap.
  replace (y * w * 3 + x * 3) with ((y * w + x) * 3) by lia.
  destruct (load_pixel_ok x y Hx Hy) as (r & g & b & -> & Hr & Hgb & Hb & Hs). cbn [mbind result_bind].
  apply rows_store; [done..|]. rewrite Hs. by apply y_val_luma.
Qed.

Lemma luma_rows eight : stores_eight eight -> rows.luma eight data w h (zeroes (w * h)) = Ok (y_table data w h).
Proof.
  intros He. pose proof dims_le as (Hw & Hh & Hf & Hw0 & Hh0). pose proof halves.
  assert (w + 8 < u64_mod) by nia.
  pose proof (Z.mod_pos_bound w 8 ltac:(lia)) as Hm. pose proof (Z.mod_le w 8 ltac:(lia) ltac:(lia)).
  unfold rows.luma. rewrite (as_u64_id (w - w mod 8)) by (unfold is_u64; lia).
  edestruct (for_rule (fun y p => grid p w h (rows_done 0 y) (sample luma data w)) 0 h) as (p & -> & Hp).
  - lia.
  - apply rows_start; lia.
  - intros y p Hy Hp. cbv beta zeta. pose proof (cell_bound w h 0 y ltac:(lia) Hy).
    rewrite (as_u64_id (y * w)) by (unfold is_u64; lia). rewrite (as_u64_id (y * w * 3)) by (unfold is_u64; lia).
    destruct (while_rule (fun x p => grid p w h (rows_done x y) (sample luma data w) /\ (8 | x) /\ x <= w - w mod 8)
      (Z.to_nat w) (w - w mod 8) 8 0
      (fun x y_plane => eight data (y * w * 3 +u x *u 3) y_plane (y * w +u x)) p)
      as (x1 & p1 & -> & Hx1 & Hp1 & _ & Hle).
    1-4: lia. 1: split_and!; [done|apply Z.divide_0_r|lia].
    { intros x q Hx (Hq & [k ->] & _). pose proof (Z.div_mod w 8 ltac:(lia)).
      pose proof (cell_bound w h (k * 8) y ltac:(lia) Hy). unwrap.
      replace (y * w * 3 + k * 8 * 3) with ((y * w + k * 8) * 3) by lia.
      destruct (He (k * 8) y q) as (q' & -> & Hq'); [lia..|done|]. exists q'. split_and!; [done|done| |lia].
      exists (k + 1). lia. }
    cbn [mbind result_bind].
    destruct (while_rule (fun x p => grid p w h (rows_done x y) (sample luma data w)) (Z.to_nat w) w 1 x1
      (fun x => rows.luma_rest data (y * w * 3) (y * w) x) p1) as (x2 & p2 & -> & Hx2 & Hp2); [lia..|done| |].
    { intros x q Hx Hq. by apply luma_rest_ok. }
    cbn [mbind result_bind]. exists p2. split; [done|]. by eapply rows_next.
  - unfold y_table. f_equal. apply rows_full; done || lia.
Qed.

Lemma chroma_pixel_ok bx by' dy dx u v :
  0 <= bx < w / 2 -> 0 <= by' < h / 2 -> (dy = 0 \/ dy = 1) -> (dx = 0 \/ dx = 1) -> 0 <= u <= 1024 -> 0 <= v <= 1024 ->
  rows.chroma_pixel data w by' bx dy dx (u, v) =
  Ok (u + sample chroma_u data w (2 * bx + dx) (2 * by' + dy), v + sample chroma_v data w (2 * bx + dx) (2 * by' + dy)).
Proof.
  intros Hx Hy Hdy Hdx Hu Hv. pose proof dims_le. pose proof halves.
  pose proof (cell_bound w h (2 * bx + dx) (2 * by' + dy) ltac:(lia) ltac:(lia)).
  unfold rows.chroma_pixel. unwrap.
  replace (by' * 2 + dy) with (2 * by' + dy) by lia. replace (bx * 2 + dx) with (2 * bx + dx) by lia.
  destruct (load_pixel_ok (2 * bx + dx) (2 * by' + dy)) as (r & g & b & -> & Hr & Hgb & Hb & Hs); [lia..|].
  cbn [mbind result_bind]. destruct (u_val_chroma r g b Hr Hgb Hb) as [-> ?]. destruct (v_val_chroma r g b Hr Hgb Hb) as [-> ?].
  unwrap_i32. by rewrite !Hs.
Qed.

Lemma chroma_sums_ok bx by' : 0 <= bx < w / 2 -> 0 <= by' < h / 2 ->
  rows.chroma_sums data w by' bx = Ok (block_sum chroma_u data w bx by', block_sum chroma_v data w bx by').
Proof.
  intros Hx Hy. pose proof halves. unfold rows.chroma_sums.
  assert (forall c, is_chroma c -> forall dx dy, (dx = 0 \/ dx = 1) -> (dy = 0 \/ dy = 1) ->
    1 <= sample c data w (2 * bx + dx) (2 * by' + dy) <= 256) as Hb by (intros; apply chroma_bounds; lia || done).
  pose proof (Hb chroma_u (or_introl eq_refl)) as Hu. pose proof (Hb chroma_v (or_intror eq_refl)) as Hv.
  pose proof (Hu 0 0 ltac:(lia) ltac:(lia)). pose proof (Hu 1 0 ltac:(lia) ltac:(lia)). pose proof (Hu 0 1 ltac:(lia) ltac:(lia)).
  pose proof (Hv 0 0 ltac:(lia) ltac:(lia)). pose proof (Hv 1 0 ltac:(lia) ltac:(lia)). pose proof (Hv 0 1 ltac:(lia) ltac:(lia)).
  rewrite !for_two, chroma_pixel_ok by lia. cbn [mbind result_bind]. rewrite chroma_pixel_ok by lia. cbn [mbind result_bind].
  rewrite for_two, chroma_pixel_ok by lia. cbn [mbind result_bind]. rewrite chroma_pixel_ok by lia.
  unfold block_sum. rewrite !Z.add_0_l, !Z.add_0_r. done.
Qed.

Lemma chroma_planes :
  rows.chroma_yuv420p data w h (zeroes (w / 2 * (h / 2)), zeroes (w / 2 * (h / 2))) =
  Ok (chroma_table mean_nearest chroma_u data w h, chroma_table mean_nearest chroma_v data w h).
Proof.
  pose proof half_cells. pose proof dims_le. pose proof halves. unfold rows.chroma_yuv420p.
  edestruct (blocks_rule (fun bx by' '(u, v) =>
    grid u (w / 2) (h / 2) (rows_done bx by') (chroma_f mean_nearest chroma_u) /\
    grid v (w / 2) (h / 2) (rows_done bx by') (chroma_f mean_nearest chroma_v))) as ([u v] & -> & Hu & Hv).
  - split; apply rows_start; lia.
  - intros bx by' [u v] Hx Hy (Hu & Hv). rewrite chroma_sums_ok, uv_offset by done. cbn [mbind result_bind].
    rewrite !rows_average by (apply block_sum_bounds; by (left + right) || done).
    edestruct (rows_store u) as (u' & -> & Hu'); [done..|]. cbn [mbind result_bind].
    edestruct (rows_store v) as (v' & -> & Hv'); [done..|]. cbn [mbind result_bind]. by eexists (_, _).
  - intros by' [u v] Hy (Hu & Hv). split; by eapply rows_next.
  - unfold chroma_table. do 2 f_equal; apply rows_full; done || lia.
Qed.

Lemma chroma_interleaved :
  rows.chroma_nv12 data w h (zeroes (w / 2 * (h / 2) * 2)) = Ok (uv_table mean_nearest data w h).
Proof.
  pose proof half_cells. pose proof dims_le. pose proof halves. unfold rows.chroma_nv12.
  edestruct (blocks_rule (fun bx by' uv =>
    grid uv (w / 2 * 2) (h / 2) (rows_done (2 * bx) by') (uv_f mean_nearest))) as (uv & -> & Huv).
  - apply rows_start; lia.
  - intros bx by' uv Hx Hy Huv. cbv beta zeta. rewrite chroma_sums_ok by done. cbn [mbind result_bind].
    destruct (uv_offset2 bx by' Hx Hy) as [O1 O2]. rewrite uv_offset, O1, O2 by done.
    rewrite !rows_average by (apply block_sum_bounds; by (left + right) || done).
    edestruct (rows_store uv) as (uv1 & -> & Hu1); [done|lia|done|symmetry; apply (uv_f_even mean_nearest)|]. cbn [mbind result_bind].
    edestruct (rows_store uv1) as (uv2 & -> & Hu2); [done|lia|done|symmetry; apply (uv_f_odd mean_nearest)|].
    exists uv2. split; [done|]. by replace (2 * (bx + 1)) with (2 * bx + 1 + 1) by lia.
  - intros by' uv Hy Huv. eapply rows_next; [done|lia].
  - unfold uv_table. f_equal. apply rows_full; done || lia.
Qed.
End Image.

(** ** The public functions *)

(** How the implementation chosen for a machine rounds. *)
Definition mean (arch : Arch) : Z -> Z := simd.choose arch mean_nearest mean_nearest mean_down.

Lemma size_unwrap w h : 0 <= w -> 0 <= h -> w * h * 3 < u64_mod -> w *u h = w * h /\ w * h *u 3 = w * h * 3.
Proof. intros. assert (0 <= w * h) by nia. unwrap. done. Qed.

Section Public.
Context {data : Plane} {w h : Z} (Him : image data w h) (arch : Arch).

Lemma convert_yuv420p_ok :
  simd.convert_yuv420p arch data w h (zeroes (w * h), zeroes (w / 2 * (h / 2)), zeroes (w / 2 * (h / 2))) =
  Ok (y_table data w h, chroma_table (mean arch) chroma_u data w h, chroma_table (mean arch) chroma_v data w h).
Proof.
  assert (avx2.rgb_to_yuv420p_avx2 data w h (zeroes (w * h), zeroes (w / 2 * (h / 2)), zeroes (w / 2 * (h / 2))) =
    Ok (y_table data w h, chroma_table mean_nearest chroma_u data w h, chroma_table mean_nearest chroma_v data w h)) as Ea.
  { unfold avx2.rgb_to_yuv420p_avx2. rewrite (luma_rows Him) by apply avx2_eight, Him. cbn [mbind result_bind].
    by rewrite (chroma_planes Him). }
  assert (neon.rgb_to_yuv420p_neon data w h (zeroes (w * h), zeroes (w / 2 * (h / 2)), zeroes (w / 2 * (h / 2))) =
    Ok (y_table data w h, chroma_table mean_nearest chroma_u data w h, chroma_table mean_nearest chroma_v data w h)) as En.
  { unfold neon.rgb_to_yuv420p_neon. rewrite (luma_rows Him) by apply neon_eight, Him. cbn [mbind result_bind].
    by rewrite (chroma_planes Him). }
  pose proof (scalar_yuv420p Him). unfold simd.convert_yuv420p, mean. by destruct arch as [[|] [|] [|]| |].
Qed.

Lemma convert_nv12_ok :
  simd.convert_nv12 arch data w h (zeroes (w * h), zeroes (w / 2 * (h / 2) * 2)) =
  Ok (y_table data w h, uv_table (mean arch) data w h).
Proof.
  assert (avx2.rgb_to_nv12_avx2 data w h (zeroes (w * h), zeroes (w / 2 * (h / 2) * 2)) =
    Ok (y_table data w h, uv_table mean_nearest data w h)) as Ea.
  { unfold avx2.rgb_to_nv12_avx2. rewrite (luma_rows Him) by apply avx2_eight, Him. cbn [mbind result_bind].
    by rewrite (chroma_interleaved Him). }
  assert (neon.rgb_to_nv12_neon data w h (zeroes (w * h), zeroes (w / 2 * (h / 2) * 2)) =
    Ok (y_table data w h, uv_table mean_nearest data w h)) as En.
  { unfold neon.rgb_to_nv12_neon. rewrite (luma_rows Him) by apply neon_eight, Him. cbn [mbind result_bind].
    by rewrite (chroma_interleaved Him). }
  pose proof (scalar_nv12 Him). unfold simd.convert_nv12, mean. by destruct arch as [[|] [|] [|]| |].
Qed.

(** The sizes the functions compute do not wrap, and the checks pass. *)
Lemma image_sizes :
  w *u h = w * h /\ w * h *u 3 = w * h * 3 /\ w / 2 *u (h / 2) = w / 2 * (h / 2) /\
  w / 2 * (h / 2) *u 2 = w / 2 * (h / 2) * 2 /\ simd.len data = w * h * 3 /\
  w * h +u w / 2 * (h / 2) * 2 = w * h + w / 2 * (h / 2) * 2.
Proof.
  pose proof (half_cells Him). pose proof (dims_le Him). destruct Him as [? ? ? ? Hl ? ?].
  unwrap. unfold simd.len. lia.
Qed.

Lemma dimensions_ok format : simd.check_dimensions format w h = Ok tt.
Proof.
  unfold simd.check_dimensions. destruct Him as [Hw Hh -> -> _ _ _]. cbn.
  destruct (Z.eqb_spec w 0); [lia|]. destruct (Z.eqb_spec h 0); [lia|done].
Qed.

Lemma yuv420p_ok :
  simd.rgb_to_yuv420p arch data w h =
  Ok (y_table data w h, chroma_table (mean arch) chroma_u data w h, chroma_table (mean arch) chroma_v data w h).
Proof.
  destruct image_sizes as (E1 & E2 & E3 & _ & E5 & _). unfold simd.rgb_to_yuv420p.
  rewrite E1, E2, E3, E5, Z.eqb_refl, dimensions_ok. cbn [negb mbind result_bind]. apply convert_yuv420p_ok.
Qed.

Lemma nv12_ok : simd.rgb_to_nv12 arch data w h = Ok (y_table data w h, uv_table (mean arch) data w h).
Proof.
  destruct image_sizes as (E1 & E2 & E3 & E4 & E5 & _). unfold simd.rgb_to_nv12.
  rewrite E1, E2, E3, E4, E5, Z.eqb_refl, dimensions_ok. cbn [negb mbind result_bind]. apply convert_nv12_ok.
Qed.
End Public.

Lemma length_table w h f : 0 <= w * h -> Z.of_nat (length (table w h f)) = w * h.
Proof. intros. unfold table. rewrite length_fmap, length_seqZ. lia. Qed.

(** Bytes of two planes that differ by at most one. *)
Definition close (p q : Plane) : Prop := Forall2 (fun a b => Z.abs (a - b) <= 1) p q.

Lemma table_Forall2 (R : Z -> Z -> Prop) w h f g :
  0 < w -> (forall x y, 0 <= x < w -> 0 <= y < h -> R (f x y) (g x y)) -> Forall2 R (table w h f) (table w h g).
Proof.
  intros Hw HR. unfold table. apply Forall2_fmap, Forall_Forall2_diag, Forall_forall. intros i Hi%elem_of_seqZ.
  apply HR; [by apply Z.mod_pos_bound|]. split; [apply Z.div_pos|apply Z.div_lt_upper_bound]; lia.
Qed.

Lemma means_close a a' s : Z.abs (mean a s - mean a' s) <= 1.
Proof.
  assert (forall s, mean_down s <= mean_nearest s <= mean_down s + 1) as H.
  { intros n. unfold mean_down, mean_nearest. pose proof (Z.div_le_mono n (n + 2) 4 ltac:(lia) ltac:(lia)).
    pose proof (Z.div_le_mono (n + 2) (n + 1 * 4) 4 ltac:(lia) ltac:(lia)) as H2. rewrite Z.div_add in H2 by lia. lia. }
  unfold mean. specialize (H s). destruct a as [[|] [|] [|]| |], a' as [[|] [|] [|]| |]; cbn; lia.
Qed.

Lemma chroma_close a a' c data w h : 1 < w -> close (chroma_table (mean a) c data w h) (chroma_table (mean a') c data w h).
Proof.
  intros Hw. apply table_Forall2; [apply Z.div_str_pos; lia|]. intros. apply means_close.
Qed.

(** C5: all implementations agree.  Whatever the machine, a frame of even dimensions whose
    size does not overflow is converted; the luma plane is the same on every machine,
    byte for byte, and the chroma bytes of two machines differ by at most one. *)
Theorem implementations_agree arch arch' data w h :
  image data w h ->
  exists y u v u' v' uv uv',
    simd.rgb_to_yuv420p arch data w h = Ok (y, u, v) /\ simd.rgb_to_yuv420p arch' data w h = Ok (y, u', v') /\
    simd.rgb_to_nv12 arch data w h = Ok (y, uv) /\ simd.rgb_to_nv12 arch' data w h = Ok (y, uv') /\
    close u u' /\ close v v' /\ close uv uv'.
Proof.
  intros Him. rewrite !(yuv420p_ok Him), !(nv12_ok Him). pose proof (halves Him). pose proof (dims_le Him).
  do 7 eexists. split_and!; try done; [apply chroma_close; lia..|].
  apply table_Forall2; [lia|]. intros. apply means_close.
Qed.

(** The conversion is the transform.  Every luma byte is the weighted sum of its pixel, every
    chroma byte the mean of the four samples of its block, and the planes have the sizes documented; the
    accesses through raw pointers all lie inside the buffers. *)
Theorem conversion_is_transform arch data w h :
  image data w h ->
  exists y u v, simd.rgb_to_yuv420p arch data w h = Ok (y, u, v) /\
    simd.len y = w * h /\ simd.len u = w / 2 * (h / 2) /\ simd.len v = w / 2 * (h / 2) /\
    (forall i j, 0 <= i < w -> 0 <= j < h -> y !! Z.to_nat (j * w + i) = Some (sample luma data w i j)) /\
    (forall i j, 0 <= i < w / 2 -> 0 <= j < h / 2 ->
      u !! Z.to_nat (j * (w / 2) + i) = Some (mean arch (block_sum chroma_u data w i j)) /\
      v !! Z.to_nat (j * (w / 2) + i) = Some (mean arch (block_sum chroma_v data w i j))).
Proof.
  intros Him. rewrite (yuv420p_ok Him). pose proof (dims_le Him). pose proof (half_cells Him).
  do 3 eexists. split; [done|]. unfold simd.len, chroma_table, y_table. rewrite !length_table by lia.
  split_and!; [done..| |]; intros i j Hi Hj; [by apply lookup_table|].
  by rewrite !(lookup_table _ _ _ i j Hi Hj).
Qed.

(** ** The two formats *)
Fixpoint interleave (u v : Plane) : Plane :=
  match u, v with
  | a :: u', b :: v' => a :: b :: interleave u' v'
  | _, _ => []
  end.

Lemma lookup_interleave u v n : length u = length v ->
  interleave u v !! (2 * n)%nat = u !! n /\ interleave u v !! (2 * n + 1)%nat = v !! n.
Proof.
  revert v n. induction u as [|a u IH]; intros [|b v] n Hl; [done..|]. injection Hl as Hl. destruct n as [|n]; [done|].
  replace (2 * S n)%nat with (S (S (2 * n))) by lia. exact (IH v n Hl).
Qed.

Lemma length_interleave u v : length u = length v -> length (interleave u v) = (2 * length u)%nat.
Proof. revert v. induction u as [|a u IH]; intros [|b v] Hl; try done. injection Hl as Hl. cbn. rewrite IH by done. lia. Qed.

Lemma uv_interleaved m data w h : 1 < w -> 0 <= h ->
  uv_table m data w h = interleave (chroma_table m chroma_u data w h) (chroma_table m chroma_v data w h).
Proof.
  intros Hw Hh. assert (0 < w / 2) by (apply Z.div_str_pos; lia). pose proof (Z.div_pos h 2 Hh ltac:(lia)).
  assert (length (chroma_table m chroma_u data w h) = length (chroma_table m chroma_v data w h)) as Hl
    by (unfold chroma_table, table; by rewrite !length_fmap).
  symmetry. eapply (grid_table _ _ _ (fun _ _ => True)); [lia|done| |done].
  split; [rewrite length_interleave by done; unfold chroma_table; rewrite Nat2Z.inj_mul, length_table; nia|].
  intros x y Hx Hy _. pose proof (Z.div_mod x 2 ltac:(lia)) as E. pose proof (Z.mod_pos_bound x 2 ltac:(lia)).
  assert (0 <= x / 2 < w / 2) as Hx2 by lia. pose proof (cell_bound (w / 2) (h / 2) (x / 2) y Hx2 Hy).
  destruct (lookup_interleave _ _ (Z.to_nat (y * (w / 2) + x / 2)) Hl) as [Hu Hv].
  destruct (Z.eqb_spec (x mod 2) 0).
  - replace (Z.to_nat _) with (2 * Z.to_nat (y * (w / 2) + x / 2))%nat by lia. rewrite Hu. by apply lookup_table.
  - replace (Z.to_nat _) with (2 * Z.to_nat (y * (w / 2) + x / 2) + 1)%nat by lia. rewrite Hv. by apply lookup_table.
Qed.

(** The two formats carry the same picture: on the same machine NV12 is YUV420P with the two chroma
    planes interleaved, and converting in place leaves it at the start of the buffer, with
    the length of it returned and the rest of the buffer untouched. *)
Theorem nv12_interleaves_yuv420p arch data w h rest :
  image data w h -> 
  exists y u v, simd.rgb_to_yuv420p arch data w h = Ok (y, u, v) /\
    simd.rgb_to_nv12 arch data w h = Ok (y, interleave u v) /\
    simd.rgb_to_nv12_in_place arch (data ++ rest) w h =
      Ok (w * h + w * h / 2, y ++ interleave u v ++ drop (Z.to_nat (w * h + w * h / 2)) (data ++ rest)).
Proof.
  intros Him. pose proof (dims_le Him). pose proof (halves Him). pose proof (half_cells Him).
  destruct (image_sizes Him) as (E1 & E2 & E3 & E4 & E5 & E6).
  assert (w * h / 2 = w / 2 * (h / 2) * 2) as Eh.
  { symmetry. apply Z.div_unique_exact; [lia|]. nia. }
  exists (y_table data w h), (chroma_table (mean arch) chroma_u data w h), (chroma_table (mean arch) chroma_v data w h).
  rewrite (yuv420p_ok Him), (nv12_ok Him), uv_interleaved by lia. split_and!; [done..|].
  unfold simd.rgb_to_nv12_in_place. rewrite E1, E2, E3, E4, E6, (dimensions_ok Him).
  assert (simd.len (data ++ rest) = w * h * 3 + simd.len rest) as El.
  { rewrite <-E5. unfold simd.len. rewrite length_app. lia. }
  assert (0 <= simd.len rest) by (unfold simd.len; lia).
  rewrite El. destruct (Z.ltb_spec (w * h * 3 + simd.len rest) (w * h * 3)); [lia|]. cbn [mbind result_bind].
  rewrite take_app_length' by (unfold simd.len in *; lia). rewrite (convert_nv12_ok Him). cbn [mbind result_bind].
  rewrite uv_interleaved by lia. set (uv := interleave _ _). set (y := y_table _ _ _).
  assert (length y = Z.to_nat (w * h)) as Hy by (pose proof (length_table w h (sample luma data w)); unfold y, y_table; lia).
  assert (length uv = Z.to_nat (w / 2 * (h / 2) * 2)) as Huv.
  { unfold uv. rewrite <-uv_interleaved by lia. unfold uv_table.
    match goal with |- length (table ?a ?b ?f) = _ => pose proof (length_table a b f) end. nia. }
  unfold simd.len in *. rewrite (blit_at _ [] (take (Z.to_nat (w * h)) (data ++ rest)) (drop (Z.to_nat (w * h)) (data ++ rest)));
    [|by rewrite app_nil_l, take_drop|done|rewrite length_take, length_app; lia].
  cbn [mbind result_bind app].
  rewrite (blit_at _ y (take (Z.to_nat (w / 2 * (h / 2) * 2)) (drop (Z.to_nat (w * h)) (data ++ rest)))
    (drop (Z.to_nat (w / 2 * (h / 2) * 2)) (drop (Z.to_nat (w * h)) (data ++ rest))));
    [|by rewrite take_drop|by rewrite Hy, Z2Nat.id by lia|rewrite length_take, length_drop, length_app; lia].
  cbn [mbind result_bind]. rewrite drop_drop, Eh. do 3 f_equal. f_equal. f_equal. lia.
Qed.

(** ** Errors and batches *)
Lemma check_frames_ok n i frames : Forall (fun f => simd.len f = n) frames -> simd.check_frames n i frames = Ok tt.
Proof.
  intros H. revert i. induction H as [|f frames <- _ IH]; intros i; [done|]. cbn. rewrite Z.eqb_refl. apply IH.
Qed.

(** Converting a batch is converting its frames one by one. *)
Theorem batch_converts_each arch frames w h :
  Forall (fun data => image data w h) frames ->
  simd.rgb_batch_to_nv12 arch frames w h = mapM (fun data => simd.rgb_to_nv12 arch data w h) frames /\
  simd.rgb_batch_to_yuv420p arch frames w h = mapM (fun data => simd.rgb_to_yuv420p arch data w h) frames /\
  is_Ok (simd.rgb_batch_to_nv12 arch frames w h) = true /\ is_Ok (simd.rgb_batch_to_yuv420p arch frames w h) = true.
Proof.
  intros Hf. destruct frames as [|data frames]; [done|].
  assert (forall d, d ∈ data :: frames -> image d w h) as Him by by apply Forall_forall.
  pose proof (Him data ltac:(left)) as H0. destruct (image_sizes H0) as (E1 & E2 & E3 & E4 & _).
  assert (simd.check_frames (w * h * 3) 0 (data :: frames) = Ok tt) as Ec.
  { apply check_frames_ok, Forall_forall. intros d Hd. by apply image_sizes, Him. }
  unfold simd.rgb_batch_to_nv12, simd.rgb_batch_to_yuv420p.
  rewrite E1, E2, E3, E4, Ec, !(dimensions_ok H0). cbn [mbind result_bind].
  rewrite !(mapM_ok _ (fun d => (y_table d w h, uv_table (mean arch) d w h)));
    [|intros d Hd; by apply nv12_ok, Him|intros d Hd; by apply convert_nv12_ok, Him].
  rewrite !(mapM_ok _ (fun d => (y_table d w h, chroma_table (mean arch) chroma_u d w h, chroma_table (mean arch) chroma_v d w h)));
    [done|intros d Hd; by apply yuv420p_ok, Him|intros d Hd; by apply convert_yuv420p_ok, Him].
Qed.

Lemma checked_image format data w h :
  Forall is_byte data -> 0 <= w -> 0 <= h -> w * h * 3 < u64_mod ->
  simd.len data = w * h * 3 -> simd.check_dimensions format w h = Ok tt -> image data w h.
Proof.
  intros Hb Hw Hh Hf Hl. unfold simd.check_dimensions.
  destruct (Z.eqb_spec (w mod 2) 0); [|done]. destruct (Z.eqb_spec (h mod 2) 0); [|done]. cbn.
  destruct (Z.eqb_spec w 0); [done|]. destruct (Z.eqb_spec h 0); [done|]. intros _. split; done || lia.
Qed.

Lemma check_dimensions_fails format w h : simd.check_dimensions format w h = Ok tt \/
  exists msg, simd.check_dimensions format w h = Err (Other msg).
Proof. unfold simd.check_dimensions. destruct (_ || _); [eauto|]. destruct (_ || _); eauto. Qed.

(** For every buffer and all dimensions whose size does not overflow, the conversions
    either convert a frame of the right size or return an error: they do not panic, do
    not loop, and never access memory outside the buffers. *)
Theorem conversion_outcome arch data w h :
  Forall is_byte data -> 0 <= w -> 0 <= h -> w * h * 3 < u64_mod ->
  match simd.rgb_to_yuv420p arch data w h with
  | Ok _ => image data w h | Err (Other _) => ~ image data w h | _ => False
  end /\
  match simd.rgb_to_nv12 arch data w h with
  | Ok _ => image data w h | Err (Other _) => ~ image data w h | _ => False
  end.
Proof.
  intros Hb Hw Hh Hf. destruct (size_unwrap w h Hw Hh Hf) as [E1 E2].
  assert (forall format, image data w h -> simd.len data = w * h * 3 /\ simd.check_dimensions format w h = Ok tt) as Himp.
  { intros format Him. split; [apply (image_sizes Him)|exact (dimensions_ok Him format)]. }
  destruct (Z.eqb_spec (simd.len data) (w * h * 3)) as [Hl|Hl].
  2: { unfold simd.rgb_to_yuv420p, simd.rgb_to_nv12. rewrite E1, E2. apply Z.eqb_neq in Hl as Hl'. rewrite Hl'.
       split; intros Him; apply Hl, (Himp EmptyString Him). }
  split.
  - destruct (check_dimensions_fails "YUV420P" w h) as [Ec|[msg Ec]].
    + pose proof (checked_image _ data w h Hb Hw Hh Hf Hl Ec) as Him. by rewrite (yuv420p_ok Him).
    + unfold simd.rgb_to_yuv420p. rewrite E1, E2, Hl, Z.eqb_refl, Ec. cbn. intros Him.
      destruct (Himp "YUV420P" Him) as [_ Ec']. congruence.
  - destruct (check_dimensions_fails "NV12" w h) as [Ec|[msg Ec]].
    + pose proof (checked_image _ data w h Hb Hw Hh Hf Hl Ec) as Him. by rewrite (nv12_ok Him).
    + unfold simd.rgb_to_nv12. rewrite E1, E2, Hl, Z.eqb_refl, Ec. cbn. intros Him.
      destruct (Himp "NV12" Him) as [_ Ec']. congruence.
Qed.

Lemma for_first {S} lo hi (body : Z -> S -> K S) s : lo < hi -> for_ lo hi body s = s' ← body lo s; for_ (lo + 1) hi body s'.
Proof.
  intros H. unfold for_. replace (Z.to_nat (hi - lo)) with (Datatypes.S (Z.to_nat (hi - (lo + 1)))) by lia. done.
Qed.

(** A size that overflows passes the check.  With both dimensions 2^33 the expected size wraps
    to zero, so that an empty buffer is accepted and all planes are empty; the AVX2 code
    then reads outside the buffer, in a function that is not marked unsafe. *)
Theorem overflowing_size_is_undefined arch :
  optimal arch = Avx2 -> simd.rgb_to_yuv420p arch [] (2 ^ 33) (2 ^ 33) = Err Undefined.
Proof.
  intros Ha. assert (exists a b, arch = X86_64 false a b) as (a & b & ->) by (destruct arch as [[] [] []| |]; by eauto).
  assert (b = true) as -> by (by destruct a, b). unfold simd.rgb_to_yuv420p.
  replace (2 ^ 33 *u 2 ^ 33) with 0 by done. replace (2 ^ 33 / 2 *u (2 ^ 33 / 2)) with 0 by done.
  replace (simd.len [] =? 0 *u 3) with true by done. replace (simd.check_dimensions _ _ _) with (Ok (E:=stop) tt) by done.
  cbn [negb mbind result_bind]. change (simd.convert_yuv420p _) with avx2.rgb_to_yuv420p_avx2.
  unfold avx2.rgb_to_yuv420p_avx2, rows.luma. rewrite for_first by lia.
  replace (2 ^ 33 -u 2 ^ 33 mod 8) with (2 ^ 33) by done.
  replace (Z.to_nat (2 ^ 33)) with (S (Z.to_nat (2 ^ 33 - 1))) by lia. cbn [while_lt].
  replace (0 <? 2 ^ 33) with true by done. done.
Qed.

(** ** Witnesses *)

(** Two pixels with a chroma sample of 129 and two with one of 128. *)
Definition sim_frame : Plane := [0; 0; 1; 0; 0; 1; 0; 0; 0; 0; 0; 0].
Definition sim_avx2 : Arch := X86_64 false true true.

Lemma sim_image : image sim_frame 2 2.
Proof. split; try done. unfold is_byte. repeat (apply Forall_cons; split; [lia|]). constructor. Qed.

Lemma implementations_agree_witness :
  exists y u v u' v' uv uv',
    simd.rgb_to_yuv420p sim_avx2 sim_frame 2 2 = Ok (y, u, v) /\ simd.rgb_to_yuv420p OtherArch sim_frame 2 2 = Ok (y, u', v') /\
    simd.rgb_to_nv12 sim_avx2 sim_frame 2 2 = Ok (y, uv) /\ simd.rgb_to_nv12 OtherArch sim_frame 2 2 = Ok (y, uv') /\
    close u u' /\ close v v' /\ close uv uv'.
Proof. apply (implementations_agree sim_avx2 OtherArch sim_frame 2 2). exact sim_image. Defined.

(** They are not equal. *)
Example rounding_differs :
  simd.rgb_to_yuv420p sim_avx2 sim_frame 2 2 = Ok ([0; 0; 0; 0], [129], [128]) /\
  simd.rgb_to_yuv420p OtherArch sim_frame 2 2 = Ok ([0; 0; 0; 0], [128], [128]).
Proof. split; vm_compute; reflexivity. Qed.

Lemma conversion_is_transform_witness :
  exists y u v, simd.rgb_to_yuv420p sim_avx2 sim_frame 2 2 = Ok (y, u, v) /\
    simd.len y = 2 * 2 /\ simd.len u = 2 / 2 * (2 / 2) /\ simd.len v = 2 / 2 * (2 / 2) /\
    (forall i j, 0 <= i < 2 -> 0 <= j < 2 -> y !! Z.to_nat (j * 2 + i) = Some (sample luma sim_frame 2 i j)) /\
    (forall i j, 0 <= i < 2 / 2 -> 0 <= j < 2 / 2 ->
      u !! Z.to_nat (j * (2 / 2) + i) = Some (mean sim_avx2 (block_sum chroma_u sim_frame 2 i j)) /\
      v !! Z.to_nat (j * (2 / 2) + i) = Some (mean sim_avx2 (block_sum chroma_v sim_frame 2 i j))).
Proof. apply (conversion_is_transform sim_avx2 sim_frame 2 2). exact sim_image. Defined.

Lemma nv12_interleaves_yuv420p_witness :
  exists y u v, simd.rgb_to_yuv420p Aarch64 sim_frame 2 2 = Ok (y, u, v) /\
    simd.rgb_to_nv12 Aarch64 sim_frame 2 2 = Ok (y, interleave u v) /\
    simd.rgb_to_nv12_in_place Aarch64 (sim_frame ++ [7]) 2 2 =
      Ok (2 * 2 + 2 * 2 / 2, y ++ interleave u v ++ drop (Z.to_nat (2 * 2 + 2 * 2 / 2)) (sim_frame ++ [7])).
Proof. apply (nv12_interleaves_yuv420p Aarch64 sim_frame 2 2 [7]). exact sim_image. Defined.

Lemma batch_converts_each_witness :
  simd.rgb_batch_to_nv12 sim_avx2 [sim_frame; sim_frame] 2 2 =
    mapM (fun data => simd.rgb_to_nv12 sim_avx2 data 2 2) [sim_frame; sim_frame] /\
  simd.rgb_batch_to_yuv420p sim_avx2 [sim_frame; sim_frame] 2 2 =
    mapM (fun data => simd.rgb_to_yuv420p sim_avx2 data 2 2) [sim_frame; sim_frame] /\
  is_Ok (simd.rgb_batch_to_nv12 sim_avx2 [sim_frame; sim_frame] 2 2) = true /\
  is_Ok (simd.rgb_batch_to_yuv420p sim_avx2 [sim_frame; sim_frame] 2 2) = true.
Proof. apply (batch_converts_each sim_avx2 [sim_frame; sim_frame] 2 2). by repeat (apply Forall_cons; split; [exact sim_image|]). Defined.

Lemma conversion_outcome_witness :
  match simd.rgb_to_yuv420p sim_avx2 sim_frame 2 2 with
  | Ok _ => image sim_frame 2 2 | Err (Other _) => ~ image sim_frame 2 2 | _ => False
  end /\
  match simd.rgb_to_nv12 sim_avx2 sim_frame 2 2 with
  | Ok _ => image sim_frame 2 2 | Err (Other _) => ~ image sim_frame 2 2 | _ => False
  end.
Proof. apply (conversion_outcome sim_avx2 sim_frame 2 2); [exact (im_bytes _ _ _ sim_image)|lia|lia|reflexivity]. Defined.

Lemma overflowing_size_is_undefined_witness : simd.rgb_to_yuv420p sim_avx2 [] (2 ^ 33) (2 ^ 33) = Err Undefined.
Proof. apply (overflowing_size_is_undefined sim_avx2). reflexivity. Defined.
