(* ===== verification/Actor.v ===== *)
(** * Actors: operations with state of their own

    The scanner and the worker keep state beside the cluster: counters in atomics,
    the storage they read, the slots they hand out.  [Act X S E A] is an operation
    over such a private state [X] and the [World]; like a field behind [&self] the
    state outlives an error.  [perform] runs an operation of the control plane,
    [awp] is the weakest precondition, with [act_step] to walk through a body. *)
From S2P Require Import Prelude TikvError Circuit Env Effects.

Definition Act (X S E A : Type) : Type := X -> World S -> (result E A * X) * World S.

#[global] Instance Act_ret X S E : MRet (Act X S E) := fun A a x w => ((Ok a, x), w).
#[global] Instance Act_bind X S E : MBind (Act X S E) := fun A B f m x w =>
  match m x w with
  | ((Ok a, x'), w') => f a x' w'
  | ((Err e, x'), w') => ((Err e, x'), w')
  | ((Panic s, x'), w') => ((Panic s, x'), w')
  end.

Section Act.
Context {X S E : Type}.

(** An operation on the world alone. *)
Definition perform {A} (m : M S E A) : Act X S E A := fun x w => let '(r, w') := m w in ((r, x), w').

(** An operation on the private state alone. *)
Definition act_state {A} (f : X -> result E A * X) : Act X S E A := fun x w => (f x, w).
Definition modify (f : X -> X) : Act X S E unit := act_state (fun x => (Ok tt, f x)).
Definition asks {A} (f : X -> A) : Act X S E A := act_state (fun x => (Ok (f x), x)).
Definition raise {A} (e : E) : Act X S E A := act_state (fun x => (Err e, x)).

(** The result as a value, for a [match] on it. *)
Definition attempt {E' A} (m : Act X S E A) : Act X S E' (result E A) := fun x w =>
  match m x w with
  | ((Panic s, x'), w') => ((Panic s, x'), w')
  | ((r, x'), w') => ((Ok r, x'), w')
  end.

(** ** Reasoning *)
Definition awp {A} (m : Act X S E A) (Q : result E A -> X -> World S -> Prop) (x : X) (w : World S) : Prop :=
  Q (m x w).1.1 (m x w).1.2 (m x w).2.

Lemma awp_elim {A} (m : Act X S E A) Q x w r x' w' : awp m Q x w -> m x w = ((r, x'), w') -> Q r x' w'.
Proof. unfold awp. intros HQ Em. by rewrite Em in HQ. Qed.

Lemma awp_mono {A} (m : Act X S E A) (P Q : result E A -> X -> World S -> Prop) x w :
  awp m P x w -> (forall r x' w', P r x' w' -> Q r x' w') -> awp m Q x w.
Proof. unfold awp. auto. Qed.

Lemma awp_ret {A} (a : A) (Q : result E A -> X -> World S -> Prop) x w : Q (Ok a) x w -> awp (mret a) Q x w.
Proof. done. Qed.

Lemma awp_bind {A B} (m : Act X S E A) (f : A -> Act X S E B) Q x w :
  awp m (fun r x' w' => match r with
                        | Ok a => awp (f a) Q x' w'
                        | Err e => Q (Err e) x' w'
                        | Panic s => Q (Panic s) x' w' end) x w ->
  awp (m ≫= f) Q x w.
Proof. unfold awp, mbind, Act_bind. by destruct (m x w) as [[[|e|s] x'] w']. Qed.

Lemma awp_perform `{TransactionClientLaws S} `{!HealthyRuns S} {A} (m : M S E A) Q x w :
  wp m (fun r w' => Q r x w') w -> awp (perform m) Q x w.
Proof. unfold awp, wp, perform. by destruct (m w). Qed.

Lemma awp_state {A} (f : X -> result E A * X) (Q : result E A -> X -> World S -> Prop) x w :
  Q (f x).1 (f x).2 w -> awp (act_state f) Q x w.
Proof. done. Qed.

Lemma awp_modify f (Q : result E unit -> X -> World S -> Prop) x w : Q (Ok tt) (f x) w -> awp (modify f) Q x w.
Proof. done. Qed.

Lemma awp_asks {A} (f : X -> A) (Q : result E A -> X -> World S -> Prop) x w :
  Q (Ok (f x)) x w -> awp (asks f) Q x w.
Proof. done. Qed.

Lemma awp_raise {A} e (Q : result E A -> X -> World S -> Prop) x w : Q (Err e) x w -> awp (raise e) Q x w.
Proof. done. Qed.

End Act.

Lemma awp_attempt {X S E E' A} (m : Act X S E A) (Q : result E' (result E A) -> X -> World S -> Prop) x w :
  awp m (fun r x' w' => match r with Panic s => Q (Panic s) x' w' | _ => Q (Ok r) x' w' end) x w ->
  awp (attempt m) Q x w.
Proof. unfold awp, attempt. by destruct (m x w) as [[[|e|s] x'] w']. Qed.

(** One step through a body; leaves operations of the world as [wp] goals. *)
Ltac act_step :=
  cbv beta iota zeta;
  lazymatch goal with
  | |- awp (mbind _ _) _ _ _ => apply awp_bind
  | |- awp (mret _) _ _ _ => apply awp_ret
  | |- awp (attempt _) _ _ _ => apply awp_attempt
  | |- awp (perform _) _ _ _ => apply awp_perform
  | |- awp (modify _) _ _ _ => apply awp_modify
  | |- awp (asks _) _ _ _ => apply awp_asks
  | |- awp (raise _) _ _ _ => apply awp_raise
  | |- awp (act_state _) _ _ _ => apply awp_state
  end.

(** Proves a property of the outcome of [Ev : m x w = ((r, x'), w')]. *)
Ltac act_run Ev :=
  lazymatch type of Ev with
  | ?m ?x ?w = ((?r, ?x'), ?w') =>
      pattern r, x', w'; refine (awp_elim m _ x w r x' w' _ Ev); cbv beta; clear Ev
  end.
