(* ===== verification/Scanner.v ===== *)
(** * The scanner (scanner.rs of crates/roboflow-distributed/src)

    The leader among the scanner pods takes the batches that the phase index lists as
    pending or discovering, lists the files of their sources, and stores one work unit
    and one queue entry per new file.  The storage behind a source is a class; the
    hash that names a work unit ([DefaultHasher], whose algorithm the standard library
    leaves unspecified) is the parameter [file_hash].  [ObjectMetadata] is that of
    crates/roboflow-storage/src/metadata.rs. *)
From S2P Require Import Prelude Codec TikvError Circuit Lifecycle Keys Env Effects Schema Client Locks WorkUnit Batch Controller Merge Storage Actor.
Local Open Scope Z_scope.

Module ObjectMetadata.
(** [struct ObjectMetadata]; [last_modified] in nanoseconds. *)
Record t : Type := mk {
  path : string;
  size : Z;
  last_modified : option Z;
  content_type : option string;
  is_dir : bool
}.
#[global] Instance t_eta : Settable t := fun r =>
  mk (path r) (size r) (last_modified r) (content_type r) (is_dir r).

Definition new (path : string) (size : Z) : t := mk path size None None false.
Definition dir (path : string) : t := mk path 0 None None true.
Definition with_last_modified (time : Z) (m : t) : t := m <| last_modified := Some time |>.
Definition with_content_type (ctype : string) (m : t) : t := m <| content_type := Some ctype |>.
End ObjectMetadata.

Definition DEFAULT_SCAN_INTERVAL_SECS : Z := 60.
Definition DEFAULT_BATCH_SIZE : Z := 100.
Definition DEFAULT_LOCK_TTL_SECS : Z := 300.

(** [str::parse] to an unsigned integer with the greatest value [bound]. *)
Definition digit (c : ascii) : option Z :=
  let n := Z.of_nat (nat_of_ascii c) in if (48 <=? n) && (n <=? 57) then Some (n - 48) else None.
Fixpoint parse_digits (bound acc : Z) (s : string) : option Z :=
  match s with
  | EmptyString => Some acc
  | String c s' =>
      match digit c with
      | Some d => if acc * 10 + d <=? bound then parse_digits bound (acc * 10 + d) s' else None
      | None => None
      end
  end.
Definition parse_unsigned (bound : Z) (s : string) : option Z :=
  match s with
  | EmptyString | String "+" EmptyString => None
  | String c s' => if Ascii.eqb c "+" then parse_digits bound 0 s' else parse_digits bound 0 s
  end.

Module ScannerConfig.
(** [struct ScannerConfig]. *)
Record t : Type := mk {
  batch_namespace : string;
  scan_interval : Z;
  batch_size : Z;
  max_batches_per_cycle : Z
}.
#[global] Instance t_eta : Settable t := fun r =>
  mk (batch_namespace r) (scan_interval r) (batch_size r) (max_batches_per_cycle r).

Definition default : t := mk "jobs" (secs DEFAULT_SCAN_INTERVAL_SECS) DEFAULT_BATCH_SIZE 10.
Definition new (namespace : string) : t := default <| batch_namespace := namespace |>.

(** [ScannerConfig::from_env]; [var] is [env::var(..).ok()]. *)
Definition number_from (var : string -> option string) (name : string) (or : Z) : Z :=
  match var name ≫= parse_unsigned u64_max with Some n => n | None => or end.
Definition from_env (var : string -> option string) : t := {|
  batch_namespace := match var "SCANNER_BATCH_NAMESPACE"%string with Some s => s | None => "jobs" end;
  scan_interval := secs (number_from var "SCANNER_SCAN_INTERVAL_SECS" DEFAULT_SCAN_INTERVAL_SECS);
  batch_size := number_from var "SCANNER_BATCH_SIZE" DEFAULT_BATCH_SIZE;
  max_batches_per_cycle := number_from var "SCANNER_MAX_BATCHES_PER_CYCLE" 10
|}.

Definition with_scan_interval (interval : Z) (c : t) : t := c <| scan_interval := interval |>.
Definition with_batch_size (size : Z) (c : t) : t := c <| batch_size := size |>.
Definition with_max_batches_per_cycle (max : Z) (c : t) : t := c <| max_batches_per_cycle := max |>.
End ScannerConfig.

Module MetricsSnapshot.
(** [struct MetricsSnapshot]. *)
Record t : Type := mk {
  files_discovered : Z;
  jobs_created : Z;
  duplicates_skipped : Z;
  scan_errors : Z;
  last_scan_duration_ms : Z;
  is_leader : bool
}.
End MetricsSnapshot.

Module ScannerMetrics.
(** [struct ScannerMetrics]: counters that wrap at 64 bits. *)
Record t : Type := mk {
  files_discovered : Z;
  jobs_created : Z;
  duplicates_skipped : Z;
  scan_errors : Z;
  last_scan_duration_ms : Z;
  is_leader : Z
}.
#[global] Instance t_eta : Settable t := fun r =>
  mk (files_discovered r) (jobs_created r) (duplicates_skipped r) (scan_errors r)
     (last_scan_duration_ms r) (is_leader r).

Definition new : t := mk 0 0 0 0 0 0.
Definition inc_files_discovered (count : Z) (m : t) : t :=
  m <| files_discovered := u64_add (files_discovered m) count |>.
Definition inc_jobs_created (count : Z) (m : t) : t := m <| jobs_created := u64_add (jobs_created m) count |>.
Definition inc_duplicates_skipped (count : Z) (m : t) : t :=
  m <| duplicates_skipped := u64_add (duplicates_skipped m) count |>.
Definition inc_scan_errors (m : t) : t := m <| scan_errors := u64_add (scan_errors m) 1 |>.
Definition set_last_scan_duration (duration_ms : Z) (m : t) : t := m <| last_scan_duration_ms := duration_ms |>.
Definition set_leader (leads : bool) (m : t) : t := m <| is_leader := if leads then 1 else 0 |>.
Definition snapshot (m : t) : MetricsSnapshot.t :=
  MetricsSnapshot.mk (files_discovered m) (jobs_created m) (duplicates_skipped m) (scan_errors m)
    (last_scan_duration_ms m) (is_leader m =? 1).
End ScannerMetrics.

Module ScanStats.
(** [struct ScanStats]. *)
Record t : Type := mk { files_discovered : Z; jobs_created : Z; duplicates_skipped : Z }.
Definition default : t := mk 0 0 0.
Definition add (a b : t) : t :=
  mk (u64_add (files_discovered a) (files_discovered b)) (u64_add (jobs_created a) (jobs_created b))
     (u64_add (duplicates_skipped a) (duplicates_skipped b)).
End ScanStats.

(** [slice::chunks(n)]: pieces of [n] elements, the last one possibly shorter. *)
Fixpoint chunks_from {A} (n : nat) (l : list A) (fuel : nat) : list (list A) :=
  match fuel, l with
  | _, [] => []
  | O, _ => []
  | Datatypes.S fuel', _ => take n l :: chunks_from n (drop n l) fuel'
  end.
Definition chunks {A} (n : Z) (l : list A) : list (list A) := chunks_from (Z.to_nat n) l (length l).

(** The storage factory and the backends it creates. *)
Class SourceStorage (R : Type) := {
  Backend : Type;
  create : string -> R -> StorageResult Backend * R;
  list_objects : Backend -> string -> R -> StorageResult (list ObjectMetadata.t) * R;
  metadata : Backend -> string -> R -> StorageResult ObjectMetadata.t * R }.

(** A listing fits in memory: its length is a [usize]. *)
Class SourceStorageLaws (R : Type) `{SourceStorage R} := {
  list_objects_len b p r files r' :
    list_objects b p r = (Ok files, r') -> Z.of_nat (length files) < u64_mod }.

Module Scanner.

(** [struct Scanner]; its metrics and the state of the storage are the private state
    [Private]. *)
Record t : Type := mk {
  pod_id : string;
  tikv : TikvClient.t;
  lock_manager : LockManager.t;
  config : ScannerConfig.t
}.

Definition new (pod_id : string) (tikv : TikvClient.t) (config : ScannerConfig.t) : t :=
  mk pod_id tikv (LockManager.new tikv pod_id) config.

Record Private (R : Type) : Type := mkPrivate { metrics : ScannerMetrics.t; storage : R }.
#[global] Arguments mkPrivate {R} metrics storage.
#[global] Arguments metrics {R} p.
#[global] Arguments storage {R} p.
#[global] Instance Private_eta R : Settable (Private R) := fun r => mkPrivate (metrics r) (storage r).

Section Ops.
Context {S : Type} `{TransactionClient S}.
Context `{Codec BatchSpec.t, Codec BatchStatus.t, Codec WorkUnit.t, Codec LockRecord.t}.
Context {R : Type} `{SourceStorage R}.
Context (file_hash : string -> Z -> string -> string).
Abbreviation Tikv := (M S TikvError.t).
Abbreviation Scan := (Act (Private R) S TikvError.t).

Definition count (f : ScannerMetrics.t -> ScannerMetrics.t) : Scan unit :=
  modify (fun p => p <| metrics := f (metrics p) |>).

(** [Scanner::try_become_leader]; the lock's renewal task is that of the guard. *)
Definition try_become_leader (busy_msg : string) (c : t) : Scan (option LockGuard.t) :=
  let scan_interval_secs := as_secs (ScannerConfig.scan_interval (config c)) in
  let ttl := secs (Z.max (scan_interval_secs * 3) 60) in
  r ← attempt (perform (LockManager.acquire_with_renewal busy_msg (lock_manager c) "scanner_lock" ttl));
  match r with
  | Ok guard => count (ScannerMetrics.set_leader true);; mret (Some guard)
  | Err (TikvError.LockAcquisitionFailed _) => count (ScannerMetrics.set_leader false);; mret None
  | Err e => raise e
  | Panic s => perform (panic s)
  end.

(** [Scanner::compute_file_hash]. *)
Definition compute_file_hash (m : ObjectMetadata.t) (config_hash : string) : string :=
  file_hash (ObjectMetadata.path m) (ObjectMetadata.size m) config_hash.

(** The hashes of one chunk that have a work unit. *)
Definition existing_of (chunk : list string) (results : list (option string)) : gset string :=
  list_to_set (omap (fun '(hash, result) => match result with Some _ => Some hash | None => None end)
                 (zip chunk results)).

(** [Scanner::check_existing_work_units]: the loop over the chunks. *)
Fixpoint check_chunks (c : t) (batch_id : string) (chunks : list (list string)) (existing : gset string)
  : Tikv (gset string) :=
  match chunks with
  | [] => mret existing
  | chunk :: rest =>
      results ← TikvClient.batch_get (tikv c) (WorkUnitKeys.unit batch_id <$> chunk);
      check_chunks c batch_id rest (existing ∪ existing_of chunk results)
  end.
Definition check_existing_work_units (c : t) (batch_id : string) (hashes : list string) : Tikv (gset string) :=
  match hashes with
  | [] => mret ∅
  | _ =>
      if ScannerConfig.batch_size (config c) =? 0 then panic "chunk size must be non-zero"
      else check_chunks c batch_id (chunks (ScannerConfig.batch_size (config c)) hashes) ∅
  end.

(** [Scanner::create_work_unit]. *)
Definition create_work_unit (created updated : Z) (batch_id source_url : string) (m : ObjectMetadata.t)
  (hash output_prefix config_hash : string) : WorkUnit.t :=
  let work_file := WorkFile.new source_url (ObjectMetadata.size m) in
  WorkUnit.with_id created updated hash batch_id [work_file] output_prefix config_hash.

(** [Scanner::get_pending_batches]: one index entry, *)
Definition pending_entry (c : t) (phase : BatchPhase.t) (key : string)
  : Tikv (option (string * BatchSpec.t * BatchStatus.t)) :=
  let batch_id := last_segment slash key in
  spec_data ← TikvClient.get (tikv c) (BatchKeys.spec batch_id);
  match spec_data with
  | None => mret None
  | Some d =>
      match decode d with
      | inl _ => mret None
      | inr spec =>
          if negb (String.eqb (BatchMetadata.namespace (BatchSpec.metadata spec))
                     (ScannerConfig.batch_namespace (config c))) then mret None
          else
            status_data ← TikvClient.get (tikv c) (BatchKeys.status batch_id);
            status ← match status_data with
              | Some d => match decode d with inr s => mret s | inl _ => t ← now; mret (BatchStatus.new t) end
              | None => t ← now; mret (BatchStatus.new t)
              end;
            match BatchStatus.phase status with
            | BatchPhase.Pending | BatchPhase.Discovering => mret (Some (batch_id, spec, status))
            | _ => ignore (TikvClient.delete (tikv c) (BatchIndexKeys.phase phase batch_id));; mret None
            end
      end
  end.

(** ... the entries of one phase, *)
Fixpoint pending_entries (c : t) (phase : BatchPhase.t) (keys : list string)
  (batches : list (string * BatchSpec.t * BatchStatus.t)) : Tikv (list (string * BatchSpec.t * BatchStatus.t)) :=
  match keys with
  | [] => mret batches
  | key :: rest =>
      b ← pending_entry c phase key;
      pending_entries c phase rest (match b with Some b => batches ++ [b] | None => batches end)
  end.

(** ... and the phases. *)
Definition INDEX_SCAN_LIMIT : Z := 1000.
Fixpoint pending_phases (c : t) (phases : list BatchPhase.t)
  (batches : list (string * BatchSpec.t * BatchStatus.t)) : Tikv (list (string * BatchSpec.t * BatchStatus.t)) :=
  match phases with
  | [] => mret batches
  | phase :: rest =>
      results ← TikvClient.scan (tikv c) (BatchIndexKeys.phase_prefix phase) INDEX_SCAN_LIMIT;
      batches ← pending_entries c phase (fst <$> results) batches;
      if ScannerConfig.max_batches_per_cycle (config c) <=? Z.of_nat (length batches)
      then mret batches
      else pending_phases c rest batches
  end.
Definition get_pending_batches (c : t) : Tikv (list (string * BatchSpec.t * BatchStatus.t)) :=
  pending_phases c [BatchPhase.Pending; BatchPhase.Discovering] [].

(** The path [scan_source_url] lists. *)
Definition path_for_list (source_url : string) : string :=
  match split_on "://" source_url with
  | Some (_, after_protocol) =>
      match split_once slash after_protocol with Some (_, path) => path | None => "" end
  | None => source_url
  end.

(** [Scanner::scan_source_url]. *)
Definition scan_source_url (source_url : string) (r : R) : StorageResult (list ObjectMetadata.t) * R :=
  match create source_url r with
  | (Ok storage, r) =>
      let path := path_for_list source_url in
      match list_objects storage path r with
      | (Ok files, r) =>
          match List.filter (fun m => negb (ObjectMetadata.is_dir m)) files with
          | [] =>
              match metadata storage path r with
              | (Ok m, r) => (Ok [m], r)
              | (Err (StorageError.NotFound _), r) => (Ok [], r)
              | (Err e, r) => (Err e, r)
              | (Panic s, r) => (Panic s, r)
              end
          | files => (Ok files, r)
          end
      | (Err e, r) => (Err e, r)
      | (Panic s, r) => (Panic s, r)
      end
  | (Err e, r) => (Err e, r)
  | (Panic s, r) => (Panic s, r)
  end.

(** [Scanner::save_batch_status]. *)
Definition save_batch_status (c : t) (batch_id : string) (status : BatchStatus.t) : Tikv unit :=
  TikvClient.put_record (tikv c) (BatchKeys.status batch_id) status.

(** [Scanner::initialize_discovery_phase]: the updated status. *)
Definition initialize_discovery_phase (c : t) (batch_id : string) (status : BatchStatus.t) (spec : BatchSpec.t)
  : Tikv BatchStatus.t :=
  if negb (bool_decide (BatchStatus.phase status = BatchPhase.Pending)) then mret status
  else
    t ← now;
    let status := BatchStatus.transition_to t BatchPhase.Discovering status in
    let total_sources := as_u32 (Z.of_nat (length (BatchJobSpec.sources (BatchSpec.spec spec)))) in
    let status := status <| BatchStatus.discovery_status := Some (DiscoveryStatus.new total_sources) |> in
    save_batch_status c batch_id status;;
    update_phase_index (tikv c) batch_id BatchPhase.Pending BatchPhase.Discovering;;
    mret status.

Definition sources_scanned (status : BatchStatus.t) : Z :=
  match BatchStatus.discovery_status status with Some d => DiscoveryStatus.sources_scanned d | None => 0 end.

(** [Scanner::finalize_batch_phase]. *)
Definition finalize_batch_phase (c : t) (batch_id : string) (status : BatchStatus.t)
  (total_sources jobs_created files_discovered : Z) : Tikv BatchStatus.t :=
  if sources_scanned status <? total_sources then mret status
  else if (jobs_created =? 0) && (files_discovered =? 0) then
    t ← now;
    let status := BatchStatus.transition_to t BatchPhase.Failed status
      <| BatchStatus.error := Some ("No files discovered from " +:+ dec total_sources +:+ " source(s)")%string |> in
    save_batch_status c batch_id status;;
    update_phase_index (tikv c) batch_id BatchPhase.Discovering BatchPhase.Failed;;
    mret status
  else
    t ← now;
    let status := BatchStatus.set_work_units_total t (as_u32 jobs_created) status in
    t ← now;
    let status := BatchStatus.transition_to t BatchPhase.Running status in
    save_batch_status c batch_id status;;
    update_phase_index (tikv c) batch_id BatchPhase.Discovering BatchPhase.Running;;
    mret status.

(** [Scanner::create_work_units_for_files]: the pairs of one chunk, *)
Fixpoint chunk_pairs (batch_id source_url output_prefix config_hash : string)
  (chunk : list (ObjectMetadata.t * string)) (units pendings : list (string * string))
  : Tikv (list (string * string) * list (string * string)) :=
  match chunk with
  | [] => mret (units, pendings)
  | (m, hash) :: rest =>
      created ← now;
      updated ← now;
      let work_unit := create_work_unit created updated batch_id source_url m hash output_prefix config_hash in
      unit_data ← of_sum TikvError.Serialization (encode work_unit);
      chunk_pairs batch_id source_url output_prefix config_hash rest
        (units ++ [(WorkUnitKeys.unit (WorkUnit.batch_id work_unit) (WorkUnit.id work_unit), unit_data)])
        (pendings ++ [(WorkUnitKeys.pending batch_id (WorkUnit.id work_unit), WorkUnit.batch_id work_unit)])
  end.

(** ... and the loop over the chunks. *)
Fixpoint create_chunks (c : t) (batch_id source_url output_prefix config_hash : string)
  (chunks : list (list (ObjectMetadata.t * string))) (created : Z) : Tikv Z :=
  match chunks with
  | [] => mret created
  | chunk :: rest =>
      pairs ← chunk_pairs batch_id source_url output_prefix config_hash chunk [] [];
      TikvClient.batch_put (tikv c) (pairs.1 ++ pairs.2);;
      create_chunks c batch_id source_url output_prefix config_hash rest
        (u64_add created (Z.of_nat (length chunk)))
  end.
Definition create_work_units_for_files (c : t) (batch_id source_url : string)
  (new_files : list (ObjectMetadata.t * string)) (output_prefix config_hash : string) : Tikv Z :=
  match new_files with
  | [] => mret 0
  | _ =>
      if ScannerConfig.batch_size (config c) =? 0 then panic "chunk size must be non-zero"
      else create_chunks c batch_id source_url output_prefix config_hash
             (chunks (ScannerConfig.batch_size (config c)) new_files) 0
  end.

(** The part of [process_single_source] after the listing. *)
Definition store_files (c : t) (batch_id source_url config_hash output_prefix : string)
  (files : list ObjectMetadata.t) : Tikv ScanStats.t :=
  let source_files_count := Z.of_nat (length files) in
  let file_hashes := (fun m => (m, compute_file_hash m config_hash)) <$> files in
  existing ← check_existing_work_units c batch_id (snd <$> file_hashes);
  let new_files := filter (fun fh : ObjectMetadata.t * string => fh.2 ∉ existing) file_hashes in
  let duplicates_skipped := source_files_count - Z.of_nat (length new_files) in
  jobs_created ← create_work_units_for_files c batch_id source_url new_files output_prefix config_hash;
  mret (ScanStats.mk source_files_count jobs_created duplicates_skipped).

(** [Scanner::process_single_source]. *)
Definition process_single_source (c : t) (batch_id source_url config_hash output_prefix : string)
  : Scan ScanStats.t :=
  files ← act_state (fun p =>
    let '(r, s) := scan_source_url source_url (storage p) in
    (map_err (fun e => TikvError.Other ("Failed to scan source: " +:+ StorageError.fmt e)%string) r,
     p <| storage := s |>));
  perform (store_files c batch_id source_url config_hash output_prefix files).

(** The status after a source was scanned. *)
Definition source_scanned (stats : ScanStats.t) (status : BatchStatus.t) : BatchStatus.t :=
  let n := as_u32 (ScanStats.files_discovered stats) in
  let status := status <| BatchStatus.files_total := u32_add (BatchStatus.files_total status) n |> in
  match BatchStatus.discovery_status status with
  | Some ds => status <| BatchStatus.discovery_status :=
                 Some (DiscoveryStatus.increment_scanned (DiscoveryStatus.add_files n ds)) |>
  | None => status
  end.

(** [Scanner::process_batch]: the loop over the sources. *)
Fixpoint process_sources (c : t) (batch_id : string) (spec : BatchSpec.t) (sources : list SourceUrl.t)
  (status : BatchStatus.t) (totals : ScanStats.t) : Scan (BatchStatus.t * ScanStats.t) :=
  match sources with
  | [] => mret (status, totals)
  | source :: rest =>
      result ← attempt (process_single_source c batch_id (SourceUrl.url source)
                          (BatchJobSpec.config (BatchSpec.spec spec)) (BatchJobSpec.output (BatchSpec.spec spec)));
      match result with
      | Ok stats =>
          let status := source_scanned stats status in
          perform (save_batch_status c batch_id status);;
          process_sources c batch_id spec rest status (ScanStats.add totals stats)
      | Err _ =>
          count ScannerMetrics.inc_scan_errors;;
          process_sources c batch_id spec rest status totals
      | Panic s => perform (panic s)
      end
  end.

Definition process_batch (c : t) (batch_id : string) (spec : BatchSpec.t) (status : BatchStatus.t)
  : Scan ScanStats.t :=
  if bool_decide (BatchStatus.phase status = BatchPhase.Running) then mret ScanStats.default
  else
    status ← perform (initialize_discovery_phase c batch_id status spec);
    let all := BatchJobSpec.sources (BatchSpec.spec spec) in
    r ← process_sources c batch_id spec (drop (Z.to_nat (sources_scanned status)) all) status ScanStats.default;
    let '(status, totals) := r in
    perform (finalize_batch_phase c batch_id status (as_u32 (Z.of_nat (length all)))
               (ScanStats.jobs_created totals) (ScanStats.files_discovered totals));;
    count (ScannerMetrics.inc_files_discovered (ScanStats.files_discovered totals));;
    count (ScannerMetrics.inc_jobs_created (ScanStats.jobs_created totals));;
    count (ScannerMetrics.inc_duplicates_skipped (ScanStats.duplicates_skipped totals));;
    mret totals.

(** [Scanner::scan_cycle]. *)
Fixpoint process_batches (c : t) (batches : list (string * BatchSpec.t * BatchStatus.t)) (totals : ScanStats.t)
  : Scan ScanStats.t :=
  match batches with
  | [] => mret totals
  | (batch_id, spec, status) :: rest =>
      r ← attempt (process_batch c batch_id spec status);
      match r with
      | Ok stats => process_batches c rest (ScanStats.add totals stats)
      | Err _ => count ScannerMetrics.inc_scan_errors;; process_batches c rest totals
      | Panic s => perform (panic s)
      end
  end.
Definition scan_cycle (c : t) : Scan ScanStats.t :=
  start ← perform now;
  batches ← perform (get_pending_batches c);
  match batches with
  | [] => mret ScanStats.default
  | _ =>
      total_stats ← process_batches c batches ScanStats.default;
      stop ← perform now;
      count (ScannerMetrics.set_last_scan_duration (as_u64 (Z.max 0 (stop - start) / ns_per_ms)));;
      mret total_stats
  end.

(** One round of [Scanner::run]: [true] when the shutdown signal ends the loop.
    [stop] says whether the signal is there before the round and [stop_asleep]
    whether it comes while the leader sleeps. *)
Definition run_round (busy_msg : string) (stop stop_asleep : bool) (c : t) : Scan bool :=
  if stop then mret true
  else
    leader ← attempt (try_become_leader busy_msg c);
    match leader with
    | Ok (Some guard) =>
        attempt (E' := TikvError.t) (scan_cycle c);;
        if stop_asleep then
          perform (LockGuard.drop true guard);; mret true
        else
          perform (sleep_for (ScannerConfig.scan_interval (config c)));;
          attempt (E' := TikvError.t) (perform (LockGuard.release guard));;
          mret false
    | Ok None => perform (sleep_for (ScannerConfig.scan_interval (config c)));; mret false
    | Err _ =>
        count ScannerMetrics.inc_scan_errors;;
        perform (sleep_for (ScannerConfig.scan_interval (config c)));; mret false
    | Panic s => perform (panic s)
    end.

End Ops.
End Scanner.

(** ** Lists *)
Lemma concat_chunks_from {A} n (l : list A) fuel :
  (0 < n)%nat -> (length l <= fuel)%nat -> concat (chunks_from n l fuel) = l.
Proof.
  intros Hn. revert l. induction fuel as [|fuel IH]; intros [|x l] Hl; cbn [chunks_from concat]; try done.
  - cbn in Hl. lia.
  - rewrite IH; [apply take_drop|]. rewrite length_drop. cbn in *. lia.
Qed.

Lemma concat_chunks {A} n (l : list A) : 0 < n -> concat (chunks n l) = l.
Proof. intros Hn. apply concat_chunks_from; [lia|done]. Qed.

(** What a batch of puts leaves under a key. *)
Lemma lookup_puts k pairs m :
  (exists v, (k, v) ∈ pairs /\ apply_writes (puts pairs) m !! k = Some v) \/
  ((forall v, (k, v) ∉ pairs) /\ apply_writes (puts pairs) m !! k = m !! k).
Proof.
  revert m. induction pairs as [|[j v] pairs IH]; intros m.
  { right. split; [intros v; apply not_elem_of_nil|done]. }
  change (apply_writes (puts ((j, v) :: pairs)) m) with (apply_writes (puts pairs) (<[j := v]> m)).
  destruct (IH (<[j := v]> m)) as [(v' & Hin & Hv')|[Hni Hm]].
  { left. exists v'. split; [by right|done]. }
  destruct (decide (j = k)) as [->|Hne].
  - left. exists v. split; [by left|]. by rewrite Hm, lookup_insert_eq.
  - right. rewrite Hm, lookup_insert_ne by done. split; [|done].
    intros v' [[= -> ->]|Hin]%elem_of_cons; [done|by apply (Hni v')].
Qed.

(** ** The work units a scan stores *)
Section Stored.
Import Scanner.
Context {S : Type} `{TransactionClientLaws S} `{!HealthyRuns S}.
Context `{LawfulCodec BatchSpec.t, LawfulCodec BatchStatus.t, LawfulCodec WorkUnit.t, Codec LockRecord.t}.
Context {R : Type} `{SourceStorageLaws R}.
Context (file_hash : string -> Z -> string -> string).
Context (c : Scanner.t) (Hc : client_ok (tikv c)) (Hsize : 0 < ScannerConfig.batch_size (config c)).

(** Stored work units stay as they are. *)
Definition keeps_units (m m' : gmap string string) : Prop :=
  forall b i v, m !! WorkUnitKeys.unit b i = Some v -> m' !! WorkUnitKeys.unit b i = Some v.

#[global] Instance keeps_units_preorder : PreOrder keeps_units.
Proof. split; [by intros m b i v|]. intros m1 m2 m3 H12 H23 b i v Hv. by apply H23, H12. Qed.

Lemma keeps_units_insert k v m : (forall b i, k <> WorkUnitKeys.unit b i) -> keeps_units m (<[k := v]> m).
Proof. intros Hk b i v' Hv. by rewrite lookup_insert_ne. Qed.

Lemma keeps_units_delete k m : (forall b i, k <> WorkUnitKeys.unit b i) -> keeps_units m (base.delete k m).
Proof. intros Hk b i v' Hv. by rewrite lookup_delete_ne. Qed.

(** A new unit of batch [b] is stored under [h] and queued. *)
Definition queued_at (b url h : string) (m : gmap string string) : Prop :=
  is_Some (m !! WorkUnitKeys.pending b h) /\
  exists u, unit_at (WorkUnitKeys.unit b h) m = Some u /\ unit_key u = WorkUnitKeys.unit b h /\
    WorkUnit.batch_id u = b /\ WorkUnit.primary_source u = Some url /\
    WorkUnit.is_claimable u = true /\ WorkUnit.attempts u = 0.

Lemma elem_of_existing_of b (m : gmap string string) chunk h :
  h ∈ existing_of chunk ((fun k => m !! k) <$> (WorkUnitKeys.unit b <$> chunk)) <->
  h ∈ chunk /\ is_Some (m !! WorkUnitKeys.unit b h).
Proof.
  unfold existing_of. rewrite elem_of_list_to_set. induction chunk as [|x chunk IH]; csimpl; [set_solver|].
  destruct (m !! WorkUnitKeys.unit b x) as [v|] eqn:Ex; csimpl.
  - rewrite !elem_of_cons, IH. split.
    + intros [->|[Hin Hs]]; [rewrite Ex; eauto|auto].
    + intros [[->|Hin] Hs]; auto.
  - rewrite IH, elem_of_cons. split; [by intros []; auto|].
    intros [[->|Hin] Hs]; [rewrite Ex in Hs; by destruct Hs|auto].
Qed.

Lemma wp_check_chunks b cs ex (Q : result TikvError.t (gset string) -> World S -> Prop) w :
  (forall E w', calm w w' ->
     (forall h, h ∈ E <-> h ∈ ex \/ h ∈ concat cs /\ is_Some (kv w !! WorkUnitKeys.unit b h)) -> Q (Ok E) w') ->
  (forall e w', faulted w w' -> Q (Err e) w') ->
  wp (check_chunks c b cs ex) Q w.
Proof.
  destruct Hc as [Hi _]. revert ex w. induction cs as [|chunk cs IH]; intros ex w HOk HErr; cbn [check_chunks].
  - wp_step. apply HOk; [done|]. intros h. cbn. set_solver.
  - wp_step. apply wp_batch_get; [done| |done]. intros w1 Hc1. assert (kv w1 = kv w) as Ek by kv_eq.
    apply IH; [|intros e w2 Hf2; apply HErr; split; [world|]; destruct Hf2; world].
    intros E w2 Hc2 HE. apply HOk; [world|]. intros h. rewrite HE, Ek, elem_of_union, elem_of_existing_of.
    cbn [concat]. rewrite elem_of_app. tauto.
Qed.

Lemma wp_check_existing b hs (Q : result TikvError.t (gset string) -> World S -> Prop) w :
  (forall E w', calm w w' -> (forall h, h ∈ hs -> h ∈ E <-> is_Some (kv w !! WorkUnitKeys.unit b h)) -> Q (Ok E) w') ->
  (forall e w', faulted w w' -> Q (Err e) w') ->
  wp (check_existing_work_units c b hs) Q w.
Proof.
  intros HOk HErr. unfold check_existing_work_units. destruct hs as [|h0 hs].
  { wp_step. apply HOk; [done|]. intros h Hh. by apply not_elem_of_nil in Hh. }
  destruct (Z.eqb_spec (ScannerConfig.batch_size (config c)) 0); [lia|].
  apply wp_check_chunks; [|done]. intros E w' Hcalm HE. apply HOk; [done|]. intros h Hh.
  rewrite HE, concat_chunks by done. set_solver.
Qed.

(** The pair that stores the unit of one file. *)
Definition makes (b url out cfg : string) (fh : ObjectMetadata.t * string) (pair : string * string) : Prop :=
  exists t1 t2, pair.1 = WorkUnitKeys.unit b fh.2 /\
    encode (create_work_unit t1 t2 b url fh.1 fh.2 out cfg) = inr pair.2.

Definition queue_pairs (b : string) (chunk : list (ObjectMetadata.t * string)) : list (string * string) :=
  (fun fh => (WorkUnitKeys.pending b fh.2, b)) <$> chunk.

Lemma wp_chunk_pairs b url out cfg chunk us ps (Q : result TikvError.t _ -> World S -> Prop) w :
  (forall us' w', calm w w' -> Forall2 (makes b url out cfg) chunk us' ->
     Q (Ok (us ++ us', ps ++ queue_pairs b chunk)) w') ->
  wp (chunk_pairs b url out cfg chunk us ps) Q w.
Proof.
  revert us ps w. induction chunk as [|[m h] chunk IH]; intros us ps w HQ; cbn [chunk_pairs].
  - wp_step. specialize (HQ [] w). rewrite !app_nil_r in HQ. by apply HQ.
  - do 4 wp_step.
    match goal with |- context [create_work_unit ?t1 ?t2] =>
      destruct (encode_total (create_work_unit t1 t2 b url m h out cfg)) as [d Hd] end.
    do 2 wp_step. rewrite Hd. apply IH. intros us' w2 Hc2 Hus. rewrite <- !app_assoc. apply HQ; [world|].
    constructor; [|done]. by do 2 eexists.
Qed.

Lemma made_unit b url out cfg fh pair (m : gmap string string) :
  makes b url out cfg fh pair -> m !! pair.1 = Some pair.2 ->
  exists u, unit_at pair.1 m = Some u /\ unit_key u = pair.1 /\ WorkUnit.batch_id u = b /\
    WorkUnit.primary_source u = Some url /\ WorkUnit.is_claimable u = true /\ WorkUnit.attempts u = 0.
Proof.
  intros (t1 & t2 & Hk & Hd) Hm. eexists. unfold unit_at. rewrite Hm, (decode_encode _ _ Hd).
  split; [reflexivity|]. rewrite Hk. done.
Qed.

(** One chunk: its files are queued, and no other key changes. *)
Lemma chunk_written b url out cfg chunk us (m : gmap string string) :
  Forall2 (makes b url out cfg) chunk us ->
  let m' := apply_writes (puts (us ++ queue_pairs b chunk)) m in
  (forall h, h ∈ chunk.*2 \/ queued_at b url h m -> queued_at b url h m') /\
  (forall k, (forall h, h ∈ chunk.*2 -> k <> WorkUnitKeys.unit b h /\ k <> WorkUnitKeys.pending b h) -> m' !! k = m !! k).
Proof.
  intros Hus m'.
  assert (forall k v, (k, v) ∈ us -> exists fh, fh ∈ chunk /\ makes b url out cfg fh (k, v)) as Hof.
  { intros k v Hin. apply list_elem_of_lookup in Hin as [i Hi].
    destruct (Forall2_lookup_r _ _ _ _ _ Hus Hi) as (fh & Hfh & Hm). exists fh. split; [|done].
    apply list_elem_of_lookup. by exists i. }
  assert (forall fh, fh ∈ chunk -> exists v, (WorkUnitKeys.unit b fh.2, v) ∈ us) as Hto.
  { intros fh Hin. apply list_elem_of_lookup in Hin as [i Hi].
    destruct (Forall2_lookup_l _ _ _ _ _ Hus Hi) as ([k v] & Hp & t1 & t2 & Hk & _). cbn in Hk. subst k.
    exists v. apply list_elem_of_lookup. by exists i. }
  assert (forall k v, (k, v) ∈ queue_pairs b chunk <-> exists h, h ∈ chunk.*2 /\ k = WorkUnitKeys.pending b h /\ v = b) as Hq.
  { intros k v. unfold queue_pairs. rewrite list_elem_of_fmap. split.
    - intros (fh & [= -> ->] & Hin). exists fh.2. split; [apply list_elem_of_fmap; eauto|done].
    - intros (h & Hh & -> & ->). apply list_elem_of_fmap in Hh as (fh & -> & Hin). eauto. }
  split.
  - intros h Hh. split.
    + destruct (lookup_puts (WorkUnitKeys.pending b h) (us ++ queue_pairs b chunk) m) as [(v & _ & Em)|[Hni Em]];
        [by exists v|].
      destruct Hh as [Hh|[Hs _]]; [|unfold m'; by rewrite Em].
      exfalso. apply (Hni b), elem_of_app. right. apply Hq. eauto.
    + destruct (lookup_puts (WorkUnitKeys.unit b h) (us ++ queue_pairs b chunk) m) as [(v & Hin & Em)|[Hni Em]].
      * apply elem_of_app in Hin as [Hin|Hin];
          [|apply Hq in Hin as (h' & _ & E & _); exfalso; symmetry in E; by apply pending_ne_unit in E].
        destruct (Hof _ _ Hin) as (fh & _ & Hm). exact (made_unit _ _ _ _ _ _ m' Hm Em).
      * destruct Hh as [Hh|[_ (u & Hu & Hrest)]].
        { apply list_elem_of_fmap in Hh as (fh & -> & Hin). destruct (Hto fh Hin) as [v Hv].
          exfalso. apply (Hni v), elem_of_app. by left. }
        exists u. split; [|done]. unfold unit_at in *. unfold m'. by rewrite Em.
  - intros k Hk. destruct (lookup_puts k (us ++ queue_pairs b chunk) m) as [(v & Hin & _)|[_ Em]]; [|exact Em].
    exfalso. apply elem_of_app in Hin as [Hin|Hin].
    + destruct (Hof _ _ Hin) as (fh & Hfh & t1 & t2 & E & _). cbn [fst] in E.
      destruct (Hk fh.2) as [Hk1 _]; [apply list_elem_of_fmap; eauto|]. by apply Hk1.
    + apply Hq in Hin as (h & Hh & -> & _). destruct (Hk h Hh) as [_ Hk2]. by apply Hk2.
Qed.

(** Only the keys of the units [hs] of [b] and of their queue entries may change. *)
Definition keys_only (b : string) (hs : list string) (m m' : gmap string string) : Prop :=
  forall k, (forall h, h ∈ hs -> k <> WorkUnitKeys.unit b h /\ k <> WorkUnitKeys.pending b h) -> m' !! k = m !! k.

Lemma keys_only_refl b hs m : keys_only b hs m m.
Proof. done. Qed.

Lemma keys_only_app b hs1 hs2 m m1 m2 :
  keys_only b hs1 m m1 -> keys_only b hs2 m1 m2 -> keys_only b (hs1 ++ hs2) m m2.
Proof.
  intros H1' H2' k Hk. rewrite H2', H1'; [done|..]; intros h Hh; apply Hk, elem_of_app; auto.
Qed.

Lemma keys_only_keeps b hs m m' :
  keys_only b hs m m' -> (forall h, h ∈ hs -> m !! WorkUnitKeys.unit b h = None) -> keeps_units m m'.
Proof.
  intros Ho Hn b' i v Hv. rewrite Ho; [done|]. intros h Hh. split.
  - intros E. rewrite E, (Hn h Hh) in Hv. done.
  - intros E. symmetry in E. by apply pending_ne_unit in E.
Qed.

Lemma wp_create_chunks b url out cfg cs n (Q : result TikvError.t Z -> World S -> Prop) w :
  is_u64 n ->
  (forall w', later w w' ->
     (forall h, h ∈ (concat cs).*2 \/ queued_at b url h (kv w) -> queued_at b url h (kv w')) ->
     keys_only b (concat cs).*2 (kv w) (kv w') -> Q (Ok (as_u64 (n + Z.of_nat (length (concat cs))))) w') ->
  (forall e w', later w w' -> ~ ready w -> keys_only b (concat cs).*2 (kv w) (kv w') -> Q (Err e) w') ->
  wp (create_chunks c b url out cfg cs n) Q w.
Proof.
  pose proof Hc as [Hi Hr]. revert n w. induction cs as [|chunk cs IH]; intros n w Hn HOk HErr; cbn [create_chunks].
  { wp_step. specialize (HOk w). cbn in HOk. rewrite Z.add_0_r, as_u64_id in HOk by done.
    apply HOk; [done| |apply keys_only_refl]. intros h [Hh|Hh]; [by apply not_elem_of_nil in Hh|done]. }
  wp_step. apply wp_chunk_pairs. intros us w1 Hc1 Hus. cbn [fst snd app].
  assert (kv w1 = kv w) as Ek1 by kv_eq.
  pose proof (chunk_written b url out cfg chunk us (kv w) Hus) as [Hq Hk]. cbn [concat].
  change (concat (chunk :: cs)) with (chunk ++ concat cs) in HOk, HErr. rewrite fmap_app in HOk, HErr. wp_step.
  apply wp_batch_put; [done|done| |].
  - intros w2 [Hl2 Hk2]. rewrite Ek1 in Hk2. apply IH; [apply as_u64_range| |].
    + intros w3 Hl3 Hq3 Hk3. rewrite Hk2 in Hq3, Hk3.
      replace (as_u64 (u64_add n (Z.of_nat (length chunk)) + Z.of_nat (length (concat cs))))
        with (as_u64 (n + Z.of_nat (length (chunk ++ concat cs)))).
      2: { rewrite length_app. unfold u64_add, as_u64. rewrite Zplus_mod_idemp_l. f_equal. lia. }
      apply HOk; [world| |by eapply keys_only_app].
      intros h Hh. apply Hq3. rewrite elem_of_app in Hh. destruct Hh as [[Hh|Hh]|Hh]; [right|by left|right]; apply Hq; auto.
    + intros e w3 Hl3 Hn3 Hk3. rewrite Hk2 in Hk3. apply HErr; [world|world|]. by eapply keys_only_app.
  - intros e w2 (Hl2 & Hn2 & Hk2). apply HErr; [world|world|]. rewrite Ek1 in Hk2.
    intros k Hkk. destruct Hk2 as [-> | ->]; [done|]. apply Hk. intros h Hh. apply Hkk, elem_of_app. by left.
Qed.

(** The files that are new to the store. *)
Definition new_hashes (b cfg : string) (files : list ObjectMetadata.t) (m : gmap string string) : list string :=
  filter (fun h => m !! WorkUnitKeys.unit b h = None) ((fun f => compute_file_hash file_hash f cfg) <$> files).

Lemma filter_snd {A B} (P : B -> Prop) `{!forall x, Decision (P x)} (f : A -> B) (l : list A) :
  (filter (fun p : A * B => P p.2) ((fun x => (x, f x)) <$> l)).*2 = filter P (f <$> l).
Proof.
  induction l as [|x l IH]; [done|]. rewrite !fmap_cons, !filter_cons. cbn.
  destruct (decide (P (f x))); cbn; by rewrite IH.
Qed.

Lemma filter_agree {A} (P P' : A -> Prop) `{!forall x, Decision (P x), !forall x, Decision (P' x)} (l : list A) :
  Forall (fun x => P x <-> P' x) l -> filter P l = filter P' l.
Proof.
  induction 1 as [|x l Hx _ IH]; [done|]. rewrite !filter_cons.
  destruct (decide (P x)), (decide (P' x)); try tauto; by rewrite IH.
Qed.

Lemma wp_store_files b url cfg out files (Q : result TikvError.t ScanStats.t -> World S -> Prop) w :
  Z.of_nat (length files) < u64_mod ->
  (let new := new_hashes b cfg files (kv w) in
   (forall w', later w w' -> (forall h, h ∈ new -> queued_at b url h (kv w')) -> keys_only b new (kv w) (kv w') ->
     Q (Ok (ScanStats.mk (Z.of_nat (length files)) (Z.of_nat (length new))
              (Z.of_nat (length files) - Z.of_nat (length new)))) w') /\
   (forall e w', later w w' -> ~ ready w -> keys_only b new (kv w) (kv w') -> Q (Err e) w')) ->
  wp (store_files file_hash c b url cfg out files) Q w.
Proof.
  intros Hlen [HOk HErr]. unfold store_files. wp_step. apply wp_check_existing.
  2: { intros e w1 [Hc1 Hn1]. apply HErr; [world|done|]. destruct Hc1 as [-> _]. apply keys_only_refl. }
  intros E w1 Hc1 HE. assert (kv w1 = kv w) as Ek1 by kv_eq.
  set (newf := filter _ _).
  assert (newf.*2 = new_hashes b cfg files (kv w)) as Enew.
  { etrans; [exact (filter_snd (fun h => h ∉ E) (fun f => compute_file_hash file_hash f cfg) files)|]. unfold new_hashes. apply filter_agree.
    assert (forall hs, (forall h, h ∈ hs -> h ∈ E <-> is_Some (kv w !! WorkUnitKeys.unit b h)) ->
      Forall (fun h => h ∉ E <-> kv w !! WorkUnitKeys.unit b h = None) hs) as Hall.
    { intros hs Hh. apply Forall_forall. intros h Hin. rewrite (Hh h Hin). split; [apply eq_None_not_Some|].
      by intros -> [? ?]. }
    apply Hall. intros h Hh. apply HE. rewrite <- list_fmap_compose. exact Hh. }
  assert (length newf = length (new_hashes b cfg files (kv w))) as Elen by (by rewrite <- Enew, length_fmap).
  assert (length (new_hashes b cfg files (kv w)) <= length files)%nat as Hle.
  { unfold new_hashes. etrans; [apply length_filter|]. by rewrite length_fmap. }
  rewrite Elen. wp_step. unfold create_work_units_for_files. destruct newf as [|f0 newf'] eqn:Ef.
  - wp_step. wp_step. cbn in Enew, Elen. rewrite <- Elen in HOk |- *. apply HOk; [world| |].
    + rewrite <- Enew. intros h Hh. by apply not_elem_of_nil in Hh.
    + rewrite Ek1. apply keys_only_refl.
  - destruct (Z.eqb_spec (ScannerConfig.batch_size (config c)) 0); [lia|]. rewrite <- Ef in *.
    apply wp_create_chunks; [done|..]; rewrite concat_chunks by done; rewrite ?Enew, ?Ek1.
    + intros w2 Hl2 Hq2 Hk2. wp_step. rewrite Elen, Z.add_0_l, as_u64_id by (unfold is_u64; lia).
      apply HOk; [world| |done]. auto.
    + intros e w2 Hl2 Hn2 Hk2. apply HErr; [world|world|done].
Qed.

Lemma scan_source_url_len url r files r' :
  scan_source_url url r = (Ok files, r') -> Z.of_nat (length files) < u64_mod.
Proof.
  unfold scan_source_url. destruct (create url r) as [[be| |] r1]; [|done..].
  destruct (list_objects be _ r1) as [[fs| |] r2] eqn:El; [|done..]. apply list_objects_len in El.
  pose proof (List.filter_length_le (fun m => negb (ObjectMetadata.is_dir m)) fs) as Hle.
  destruct (List.filter _ fs) as [|f fs']; [|intros [= <- _]; lia].
  destruct (metadata be _ r2) as [[m|[]|] r3]; intros [=]; subst; done.
Qed.

(** [process_single_source], by what the storage answered. *)
Lemma awp_process_single_source b url cfg out (Q : result TikvError.t ScanStats.t -> Private R -> World S -> Prop) p w :
  (forall files s, scan_source_url url (storage p) = (Ok files, s) ->
     let new := new_hashes b cfg files (kv w) in
     let p' := p <| storage := s |> in
     (forall w', later w w' -> (forall h, h ∈ new -> queued_at b url h (kv w')) -> keys_only b new (kv w) (kv w') ->
       Q (Ok (ScanStats.mk (Z.of_nat (length files)) (Z.of_nat (length new))
                (Z.of_nat (length files) - Z.of_nat (length new)))) p' w') /\
     (forall e w', later w w' -> ~ ready w -> keys_only b new (kv w) (kv w') -> Q (Err e) p' w')) ->
  (forall e s, scan_source_url url (storage p) = (Err e, s) ->
     Q (Err (TikvError.Other ("Failed to scan source: " +:+ StorageError.fmt e)%string)) (p <| storage := s |>) w) ->
  (forall e s, scan_source_url url (storage p) = (Panic e, s) -> Q (Panic e) (p <| storage := s |>) w) ->
  awp (process_single_source file_hash c b url cfg out) Q p w.
Proof.
  intros HOk HErr HPanic. unfold process_single_source. do 2 act_step.
  destruct (scan_source_url url (storage p)) as [[files|e|e] s] eqn:Es; cbn [map_err fst snd]; [|by apply HErr|by apply HPanic].
  act_step. apply wp_store_files; [by eapply scan_source_url_len|]. by apply HOk.
Qed.

(** ** Nothing a scan does changes a stored unit *)
Lemma new_hashes_None b cfg files m h : h ∈ new_hashes b cfg files m -> m !! WorkUnitKeys.unit b h = None.
Proof. by intros [? _]%list_elem_of_filter. Qed.

Lemma keeps_units_status b v m : keeps_units m (<[BatchKeys.status b := v]> m).
Proof. apply keeps_units_insert. intros. apply status_ne_unit. Qed.

Lemma wp_save_status_keeps b st (Q : result TikvError.t unit -> World S -> Prop) w :
  (forall r w', keeps_units (kv w) (kv w') -> Q r w') -> wp (save_batch_status c b st) Q w.
Proof.
  pose proof Hc as [Hi Hr]. intros HQ. destruct (encode_total st) as [d Hd].
  eapply wp_put_record; [done..| |].
  - intros w' [_ Ek]. apply HQ. rewrite Ek. apply keeps_units_status.
  - intros e w' (_ & _ & [Ek|Ek]); apply HQ; rewrite Ek; [done|apply keeps_units_status].
Qed.

Lemma wp_move_index_keeps b ph ph' (Q : result TikvError.t unit -> World S -> Prop) w :
  (forall r w', keeps_units (kv w) (kv w') -> Q r w') -> wp (update_phase_index (tikv c) b ph ph') Q w.
Proof.
  pose proof Hc as [Hi Hr]. intros HQ. unfold update_phase_index. destruct (decide _); [wp_step; by apply HQ|].
  assert (forall m, keeps_units m (<[BatchIndexKeys.phase ph' b := ""%string]> m)) as Hins.
  { intros m. apply keeps_units_insert. intros. apply phase_ne_unit. }
  assert (forall m, keeps_units m (base.delete (BatchIndexKeys.phase ph b) m)) as Hdel.
  { intros m. apply keeps_units_delete. intros. apply phase_ne_unit. }
  wp_step. apply wp_put; [done|done| |intros e w1 (_ & _ & [Ek1|Ek1]); apply HQ; by rewrite Ek1].
  intros w1 [_ Ek1]. apply wp_delete; [done|done| |].
  - intros w2 [_ Ek2]. apply HQ. rewrite Ek2, Ek1. etrans; [apply Hins|apply Hdel].
  - intros e w2 (_ & _ & [Ek2|Ek2]); apply HQ; rewrite Ek2, Ek1; [apply Hins|etrans; [apply Hins|apply Hdel]].
Qed.

(** [act_step] through the counters too. *)
Ltac scan_step := unfold count; act_step.

Lemma awp_process_sources_keeps b spec srcs st tot (Q : result TikvError.t _ -> Private R -> World S -> Prop) p w :
  (forall r p' w', keeps_units (kv w) (kv w') -> Q r p' w') ->
  awp (process_sources file_hash c b spec srcs st tot) Q p w.
Proof.
  revert st tot p w. induction srcs as [|src srcs IH]; intros st tot p w HQ; cbn [process_sources].
  { scan_step. by apply HQ. }
  do 2 scan_step.
  assert (forall p1 w1 st' tot', keeps_units (kv w) (kv w1) ->
    awp (process_sources file_hash c b spec srcs st' tot') Q p1 w1) as Hrest.
  { intros. apply IH. intros. apply HQ. by etrans. }
  apply awp_process_single_source.
  - intros files s _. cbn zeta. split; intros; (assert (keeps_units (kv w) (kv w')) as Hk;
      [eapply keys_only_keeps; [eassumption|intros h Hh; by eapply new_hashes_None]|]).
    + do 2 scan_step. apply wp_save_status_keeps. intros [] w2 Hk2; [apply Hrest|apply HQ|apply HQ]; by etrans.
    + do 2 scan_step. by apply Hrest.
  - intros e s _. do 2 scan_step. by apply Hrest.
  - intros e s _. by apply HQ.
Qed.

Lemma awp_process_batch_keeps b spec st (Q : result TikvError.t ScanStats.t -> Private R -> World S -> Prop) p w :
  (forall r p' w', keeps_units (kv w) (kv w') -> Q r p' w') ->
  awp (process_batch file_hash c b spec st) Q p w.
Proof.
  intros HQ. unfold process_batch. destruct (bool_decide _); [scan_step; by apply HQ|].
  do 2 scan_step.
  apply (wp_mono _ (fun _ w1 => keeps_units (kv w) (kv w1))).
  { unfold initialize_discovery_phase. destruct (negb _); [by wp_step|]. do 3 wp_step.
    match goal with H : calm w ?w1 |- _ => assert (kv w1 = kv w) as Ek1 by kv_eq end.
    apply wp_save_status_keeps. intros [] w2 Hk2; rewrite Ek1 in Hk2; [|done..]. wp_step.
    apply wp_move_index_keeps. intros [] w3 Hk3; [wp_step| |]; by etrans. }
  intros [st1|e|e] w1 Hk1; [|by apply HQ..]. scan_step. apply awp_process_sources_keeps.
  intros [[st2 tot]|e|e] p2 w2 Hk2; [|apply HQ; by etrans..]. do 2 scan_step.
  apply (wp_mono _ (fun _ w3 => keeps_units (kv w2) (kv w3))).
  { unfold finalize_batch_phase. destruct (_ <? _); [by wp_step|].
    destruct (_ && _); repeat (lazymatch goal with |- wp (mbind _ _) _ _ => wp_step | |- wp now _ _ => wp_step end);
      apply wp_save_status_keeps; (intros [] w3 Hk3;
      [|unfold keeps_units in *; world_facts; intros ? ? ? ?; apply Hk3; congruence..]).
    all: wp_step; apply wp_move_index_keeps; intros [] w4 Hk4; [wp_step|..];
      unfold keeps_units in *; world_facts; intros ? ? ? ?; apply Hk4, Hk3; congruence. }
  intros [st3|e|e] w3 Hk3; [|apply HQ; etrans; [exact Hk1|by etrans]..].
  repeat scan_step. apply HQ. etrans; [exact Hk1|by etrans].
Qed.

Lemma wp_pending_entries_keeps ph keys acc (Q : result TikvError.t _ -> World S -> Prop) w :
  (forall r w', keeps_units (kv w) (kv w') -> Q r w') -> wp (pending_entries c ph keys acc) Q w.
Proof.
  pose proof Hc as [Hi Hr]. revert acc w. induction keys as [|k keys IH]; intros acc w HQ; cbn [pending_entries].
  { wp_step. by apply HQ. }
  wp_step. apply (wp_mono _ (fun _ w1 => keeps_units (kv w) (kv w1))).
  2: { intros [o|e|e] w1 Hk1; [|by apply HQ..]. apply IH. intros. apply HQ. by etrans. }
  unfold pending_entry. wp_step. apply wp_get; [done| |intros e w1 [[-> _] _]; done].
  intros w1 [Ek1 _]. destruct (kv w !! _) as [d|]; [|wp_step; by rewrite Ek1].
  destruct (decode d); [wp_step; by rewrite Ek1|]. destruct (negb _); [wp_step; by rewrite Ek1|].
  wp_step. apply wp_get; [done| |intros e w2 [[-> _] _]; by rewrite Ek1].
  intros w2 [Ek2 _]. wp_step. apply (wp_mono _ (fun _ w3 => kv w3 = kv w2)).
  { destruct (kv w1 !! _) as [d'|]; [destruct (decode d')|]; repeat wp_step; kv_eq || done. }
  intros [st|e|e] w3 Ek3; [|by rewrite Ek3, Ek2, Ek1..].
  destruct (BatchStatus.phase st); try (wp_step; by rewrite Ek3, Ek2, Ek1).
  all: do 2 wp_step; apply wp_delete; [done|done|intros w4 [_ Ek4]|intros e w4 (_ & _ & [Ek4|Ek4])];
    repeat wp_step; rewrite Ek4, Ek3, Ek2, Ek1; try done; apply keeps_units_delete; intros; apply phase_ne_unit.
Qed.

Lemma wp_pending_phases_keeps phs acc (Q : result TikvError.t _ -> World S -> Prop) w :
  (forall r w', keeps_units (kv w) (kv w') -> Q r w') -> wp (pending_phases c phs acc) Q w.
Proof.
  pose proof Hc as [Hi Hr]. revert acc w. induction phs as [|ph phs IH]; intros acc w HQ; cbn [pending_phases].
  { wp_step. by apply HQ. }
  wp_step. apply wp_scan; [done| |intros e w1 [[Ek1 _] _]; apply HQ; by rewrite Ek1].
  intros w1 [Ek1 _]. wp_step. apply wp_pending_entries_keeps. intros [bs|e|e] w2 Hk2; rewrite Ek1 in Hk2; [|by apply HQ..].
  destruct (_ <=? _); [wp_step; by apply HQ|]. apply IH. intros. apply HQ. by etrans.
Qed.

Lemma awp_process_batches_keeps bs tot (Q : result TikvError.t _ -> Private R -> World S -> Prop) p w :
  (forall r p' w', keeps_units (kv w) (kv w') -> Q r p' w') -> awp (process_batches file_hash c bs tot) Q p w.
Proof.
  revert tot p w. induction bs as [|[[b spec] st] bs IH]; intros tot p w HQ; cbn [process_batches].
  { scan_step. by apply HQ. }
  do 2 scan_step. apply awp_process_batch_keeps. intros [stats|e|e] p1 w1 Hk1; [|do 2 scan_step|by apply HQ];
    apply IH; intros; apply HQ; by etrans.
Qed.

(** C15: a scan never touches a stored work unit.  Whatever batches, sources and files a
    [scan_cycle] meets, and whichever calls to the cluster or the storage fail on the way,
    every work unit that was stored before is stored after, byte for byte: a unit that a
    worker has claimed, completed or failed is not created again. *)
Theorem scan_keeps_units p (w : World S) r p' w' :
  scan_cycle file_hash c p w = ((r, p'), w') -> keeps_units (kv w) (kv w').
Proof.
  intros Ev. act_run Ev. unfold scan_cycle. do 2 scan_step. wp_step.
  match goal with H : calm w ?w1 |- _ => assert (kv w1 = kv w) as Ek1 by kv_eq end. rewrite <- Ek1.
  do 2 scan_step. apply wp_pending_phases_keeps. intros [bs|e|e] w2 Hk2; [|done..].
  destruct bs as [|b bs]; [by scan_step|]. scan_step. apply awp_process_batches_keeps.
  intros [tot|e|e] p3 w3 Hk3; [|by etrans..]. do 2 scan_step. wp_step. repeat scan_step.
  match goal with H : calm w3 ?w4 |- _ => assert (kv w4 = kv w3) as Ek4 by kv_eq end. rewrite Ek4. by etrans.
Qed.

(** The files of a source are queued.  When [process_single_source] succeeds, the files the
    storage listed are counted, each as created or as a duplicate; each file whose unit was
    missing now has a unit of this batch, unclaimed and never attempted, with its entry in
    the queue that workers claim from; the others keep theirs, and no other key of the
    store changes.  The unit's source is the URL that was scanned.  With every call to the
    cluster answered it fails only when the storage does. *)
Theorem source_files_queued b url cfg out p (w : World S) r p' w' files s :
  scan_source_url url (storage p) = (Ok files, s) ->
  process_single_source file_hash c b url cfg out p w = ((r, p'), w') ->
  (ready w -> is_Ok r = true) /\
  forall stats, r = Ok stats ->
    ScanStats.files_discovered stats = Z.of_nat (length files) /\
    ScanStats.jobs_created stats + ScanStats.duplicates_skipped stats = Z.of_nat (length files) /\
    (forall f, f ∈ files -> let h := compute_file_hash file_hash f cfg in
       match kv w !! WorkUnitKeys.unit b h with
       | None => queued_at b url h (kv w')
       | Some v => kv w' !! WorkUnitKeys.unit b h = Some v
       end) /\
    keys_only b (new_hashes b cfg files (kv w)) (kv w) (kv w').
Proof.
  intros Es Ev. act_run Ev. apply awp_process_single_source; rewrite Es; [|done..].
  intros files' s' [= <- <-]. cbn zeta. split; [|intros e w1 _ Hn _; by split; [intros Hw; destruct (Hn Hw)|]].
  intros w1 Hl Hq Hk. split; [done|]. intros stats [= <-]. cbn. split; [done|]. split; [lia|]. split; [|done].
  intros f Hf. destruct (kv w !! _) as [v|] eqn:Ev'.
  - apply (keys_only_keeps b (new_hashes b cfg files (kv w)) (kv w)); [done|by apply new_hashes_None|done].
  - apply Hq, list_elem_of_filter. split; [done|]. apply list_elem_of_fmap. eauto.
Qed.

(** ** Discovery of a whole batch, when every call is answered *)

(** The storage lists [F url] for every source, now and later. *)
Context (F : string -> list ObjectMetadata.t) (serves : R -> Prop).
Context (Hserves : forall url r, serves r -> exists r', scan_source_url url r = (Ok (F url), r') /\ serves r').

Definition found (srcs : list SourceUrl.t) : Z :=
  foldr (fun s n => Z.of_nat (length (F (SourceUrl.url s))) + n) 0 srcs.

Lemma found_nonneg srcs : 0 <= found srcs.
Proof. unfold found. induction srcs; cbn; lia. Qed.

(** The phase index is as it was. *)
Definition same_index (m m' : gmap string string) : Prop :=
  forall q b, m' !! BatchIndexKeys.phase q b = m !! BatchIndexKeys.phase q b.

Lemma pending_ne_phase b h q b' : WorkUnitKeys.pending b h <> BatchIndexKeys.phase q b'.
Proof. unfold WorkUnitKeys.pending, BatchIndexKeys.phase. rewrite !key_of_joined. intros E. cbv in E. discriminate E. Qed.

Lemma keys_only_index b hs m m' : keys_only b hs m m' -> same_index m m'.
Proof.
  intros Ho q b'. apply Ho. intros h _. split; intros E; [by apply phase_ne_unit in E|].
  symmetry in E. by apply pending_ne_phase in E.
Qed.

(** Every file of the sources has its unit. *)
Definition all_stored (b cfg : string) (srcs : list SourceUrl.t) (m : gmap string string) : Prop :=
  forall s f, s ∈ srcs -> f ∈ F (SourceUrl.url s) ->
    is_Some (m !! WorkUnitKeys.unit b (compute_file_hash file_hash f cfg)).

Lemma all_stored_keeps b cfg srcs m m' : keeps_units m m' -> all_stored b cfg srcs m -> all_stored b cfg srcs m'.
Proof. intros Hk Ha s f Hs Hf. destruct (Ha s f Hs Hf) as [v Hv]. exists v. by apply Hk. Qed.

(** One source, in a ready world. *)
Lemma ready_process_single_source b src cfg out (Q : result TikvError.t ScanStats.t -> Private R -> World S -> Prop) p w :
  ready w -> serves (storage p) ->
  (forall j p' w', ready w' -> serves (storage p') -> keeps_units (kv w) (kv w') -> same_index (kv w) (kv w') ->
     all_stored b cfg [src] (kv w') -> 0 <= j <= Z.of_nat (length (F (SourceUrl.url src))) ->
     Q (Ok (ScanStats.mk (Z.of_nat (length (F (SourceUrl.url src)))) j
              (Z.of_nat (length (F (SourceUrl.url src))) - j))) p' w') ->
  awp (process_single_source file_hash c b (SourceUrl.url src) cfg out) Q p w.
Proof.
  intros Hw Hs HQ. destruct (Hserves (SourceUrl.url src) _ Hs) as (s & Es & Hs').
  apply awp_process_single_source; rewrite Es; [|done..]. intros files s0 [= <- <-]. cbn zeta.
  split; [|by intros e w1 _ Hn _; destruct (Hn Hw)]. intros w1 Hl Hq Hk.
  assert (keeps_units (kv w) (kv w1)) as Hkeep by (eapply keys_only_keeps; [exact Hk|intros h; apply new_hashes_None]).
  apply HQ; [world|exact Hs'|done|by eapply keys_only_index| |].
  - intros s1 f ->%list_elem_of_singleton Hf. destruct (kv w !! WorkUnitKeys.unit b (compute_file_hash file_hash f cfg)) as [v|] eqn:Ev.
    { exists v. by apply Hkeep. }
    destruct (Hq (compute_file_hash file_hash f cfg)) as [_ (u & Hu & _)].
    { apply list_elem_of_filter. split; [done|]. apply list_elem_of_fmap. eauto. }
    unfold unit_at in Hu. destruct (kv w1 !! _); [by eexists|done].
  - split; [lia|]. apply inj_le. unfold new_hashes. etrans; [apply length_filter|]. by rewrite length_fmap.
Qed.

Lemma ready_save_status b st (Q : result TikvError.t unit -> World S -> Prop) w :
  ready w ->
  (forall d w', ready w' -> encode st = inr d -> kv w' = <[BatchKeys.status b := d]> (kv w) -> Q (Ok tt) w') ->
  wp (save_batch_status c b st) Q w.
Proof.
  pose proof Hc as [Hi Hr]. intros Hw HQ. destruct (encode_total st) as [d Hd].
  eapply wp_put_record; [done..| |].
  - intros w' [Hl Hk]. apply (HQ d); [world|done|done].
  - intros e w' (_ & Hn & _). by destruct (Hn Hw).
Qed.

Lemma same_index_status b d m : same_index m (<[BatchKeys.status b := d]> m).
Proof. intros q b'. apply lookup_insert_ne. intros E. by apply status_ne_phase in E. Qed.

(** Counters that stay below the 32-bit limit. *)
Definition tot_ok (t : ScanStats.t) : Prop :=
  0 <= ScanStats.jobs_created t /\ 0 <= ScanStats.duplicates_skipped t /\
  ScanStats.jobs_created t + ScanStats.duplicates_skipped t = ScanStats.files_discovered t.

Lemma ready_process_sources b spec srcs st ds tot (Q : result TikvError.t _ -> Private R -> World S -> Prop) p w :
  let cfg := BatchJobSpec.config (BatchSpec.spec spec) in
  ready w -> serves (storage p) ->
  BatchStatus.discovery_status st = Some ds -> 0 <= DiscoveryStatus.sources_scanned ds ->
  DiscoveryStatus.sources_scanned ds + Z.of_nat (length srcs) < u32_mod ->
  tot_ok tot -> ScanStats.files_discovered tot + found srcs < u32_mod ->
  (forall st' ds' tot' p' w', ready w' -> BatchStatus.phase st' = BatchStatus.phase st ->
     BatchStatus.discovery_status st' = Some ds' ->
     DiscoveryStatus.sources_scanned ds' = DiscoveryStatus.sources_scanned ds + Z.of_nat (length srcs) ->
     tot_ok tot' -> ScanStats.files_discovered tot' = ScanStats.files_discovered tot + found srcs ->
     keeps_units (kv w) (kv w') -> same_index (kv w) (kv w') -> all_stored b cfg srcs (kv w') ->
     Q (Ok (st', tot')) p' w') ->
  awp (process_sources file_hash c b spec srcs st tot) Q p w.
Proof.
  intros cfg. revert st ds tot p w. induction srcs as [|src srcs IH]; intros st ds tot p w Hw Hs Hds Hn0 Hn Ht Hf HQ;
    cbn [process_sources].
  { scan_step. apply (HQ st ds); try done; cbn; lia || (intros s f Hin; by apply not_elem_of_nil in Hin). }
  cbn [length found foldr] in Hn, Hf. fold (found srcs) in Hf. pose proof (found_nonneg srcs) as Hf0.
  do 2 scan_step. apply ready_process_single_source; [done..|]. intros j p1 w1 Hw1 Hs1 Hk1 Hx1 Ha1 Hj. do 2 scan_step.
  apply ready_save_status; [done|]. intros d w2 Hw2 _ Ek2. destruct Ht as (Ht1 & Ht2 & Ht3).
  unfold source_scanned at 1.
  match goal with |- awp (process_sources _ _ _ _ _ ?x _) _ _ _ => set (st1 := x) end.
  assert (exists ds1, BatchStatus.discovery_status st1 = Some ds1 /\ BatchStatus.phase st1 = BatchStatus.phase st /\
    DiscoveryStatus.sources_scanned ds1 = DiscoveryStatus.sources_scanned ds + 1) as (ds1 & Hds1 & Hp1 & Hn1).
  { unfold st1. cbn. rewrite Hds. eexists. split; [reflexivity|]. split; [done|].
    unfold DiscoveryStatus.increment_scanned, DiscoveryStatus.add_files, DiscoveryStatus.update_progress. cbn.
    destruct (0 <? DiscoveryStatus.total_sources ds) eqn:Et; cbn; rewrite ?Et; cbn; apply u32_add_small; lia. }
  assert (u32_mod < u64_mod) as Hmod by (by vm_compute).
  match goal with |- awp (process_sources _ _ _ _ _ _ ?x) _ _ _ => set (tot1 := x) end.
  assert (tot_ok tot1 /\ ScanStats.files_discovered tot1 = ScanStats.files_discovered tot + Z.of_nat (length (F (SourceUrl.url src))))
    as [Ht' Hf'].
  { unfold tot1, tot_ok, ScanStats.add. cbn. rewrite !u64_add_small by lia. lia. }
  apply (IH st1 ds1 tot1); [done|done|done|lia|lia|done|lia|].
  intros st' ds' tot' p' w' Hw' Hp' Hds' Hn' Ht'' Hf'' Hk' Hx' Ha'. rewrite Ek2 in Hk', Hx'.
  apply (HQ st' ds'); [done|congruence|done|cbn [length]; lia|done|cbn [found foldr]; fold (found srcs); lia|..].
  - etrans; [exact Hk1|]. etrans; [apply keeps_units_status|exact Hk'].
  - intros q b'. by rewrite Hx', same_index_status.
  - intros s f Hin Hff. apply elem_of_cons in Hin as [->|Hin]; [|by apply (Ha' s f)].
    eapply (all_stored_keeps b cfg [src]); [|exact Ha1|by left|done].
    etrans; [apply keeps_units_status|exact Hk'].
Qed.

(** A move of the phase index and the status before it, for the units and the index. *)
Lemma keeps_units_move b p q d m :
  keeps_units m (base.delete (BatchIndexKeys.phase p b)
    (<[BatchIndexKeys.phase q b := ""%string]> (<[BatchKeys.status b := d]> m))).
Proof.
  etrans; [apply keeps_units_status|]. etrans; [apply keeps_units_insert|apply keeps_units_delete];
    intros; apply phase_ne_unit.
Qed.

Lemma moved_other b p q o d (m : gmap string string) : o <> q ->
  m !! BatchIndexKeys.phase o b = None ->
  base.delete (BatchIndexKeys.phase p b)
    (<[BatchIndexKeys.phase q b := ""%string]> (<[BatchKeys.status b := d]> m)) !! BatchIndexKeys.phase o b = None.
Proof.
  intros Ho Hm. apply lookup_delete_None. right. rewrite lookup_insert_ne by (intros [? _]%phase_inj; congruence).
  by rewrite same_index_status.
Qed.

Lemma ready_initialize b spec st (Q : result TikvError.t BatchStatus.t -> World S -> Prop) w :
  ready w -> BatchStatus.phase st = BatchPhase.Pending ->
  (forall st' w', ready w' -> BatchStatus.phase st' = BatchPhase.Discovering ->
     BatchStatus.discovery_status st' =
       Some (DiscoveryStatus.new (as_u32 (Z.of_nat (length (BatchJobSpec.sources (BatchSpec.spec spec)))))) ->
     keeps_units (kv w) (kv w') -> kv w' !! BatchIndexKeys.phase BatchPhase.Pending b = None -> Q (Ok st') w') ->
  wp (initialize_discovery_phase c b st spec) Q w.
Proof.
  intros Hw Hp HQ. unfold initialize_discovery_phase. rewrite bool_decide_true by done. cbn [negb].
  wp_step. apply ready_now; [done|]. intros t w1 Hw1 E1. wp_step. apply ready_save_status; [done|].
  intros d w2 Hw2 Hd E2. wp_step. apply ready_update_phase_index; [done..|]. intros w3 Hw3 E3. wp_step.
  apply HQ; [done|exact (transition_phase t BatchPhase.Discovering st)|done|rewrite E3, E2, E1; apply keeps_units_move|rewrite E3; apply lookup_delete_eq].
Qed.

(** The end of discovery, in the phase [q] of the last status. *)
Lemma ready_conclude b st q (Q : result TikvError.t BatchStatus.t -> World S -> Prop) w :
  ready w -> BatchStatus.phase st = q -> q <> BatchPhase.Discovering -> q <> BatchPhase.Pending ->
  kv w !! BatchIndexKeys.phase BatchPhase.Pending b = None ->
  (forall w', ready w' -> keeps_units (kv w) (kv w') -> status_at b (kv w') = Some st ->
     is_Some (kv w' !! BatchIndexKeys.phase (BatchStatus.phase st) b) ->
     kv w' !! BatchIndexKeys.phase BatchPhase.Pending b = None ->
     kv w' !! BatchIndexKeys.phase BatchPhase.Discovering b = None -> Q (Ok st) w') ->
  wp (save_batch_status c b st;; update_phase_index (tikv c) b BatchPhase.Discovering q;; mret st) Q w.
Proof.
  intros Hw <- Hd Hp Hpend HQ. wp_step. apply ready_save_status; [done|]. intros d w1 Hw1 Hd1 E1. wp_step.
  apply ready_update_phase_index; [done|by apply not_eq_sym|done|]. intros w2 Hw2 E2. wp_step. rewrite E1 in E2.
  destruct (moved_store b BatchPhase.Discovering st d (kv w) Hd1 (not_eq_sym Hd)) as (Hm1 & Hm2 & Hm3).
  rewrite <- E2 in Hm1, Hm2, Hm3. apply HQ; [done|rewrite E2; apply keeps_units_move|done|done| |done].
  rewrite E2. apply moved_other; [by apply not_eq_sym|done].
Qed.

Lemma ready_finalize b st ds n j f (Q : result TikvError.t BatchStatus.t -> World S -> Prop) w :
  ready w -> BatchStatus.discovery_status st = Some ds -> n <= DiscoveryStatus.sources_scanned ds ->
  0 <= j <= f -> f < u32_mod -> kv w !! BatchIndexKeys.phase BatchPhase.Pending b = None ->
  (forall st' w', ready w' -> keeps_units (kv w) (kv w') -> status_at b (kv w') = Some st' ->
     BatchStatus.phase st' = (if f =? 0 then BatchPhase.Failed else BatchPhase.Running) ->
     (f <> 0 -> BatchStatus.work_units_total st' = j) ->
     is_Some (kv w' !! BatchIndexKeys.phase (BatchStatus.phase st') b) ->
     kv w' !! BatchIndexKeys.phase BatchPhase.Pending b = None ->
     kv w' !! BatchIndexKeys.phase BatchPhase.Discovering b = None -> Q (Ok st') w') ->
  wp (finalize_batch_phase c b st n j f) Q w.
Proof.
  intros Hw Hds Hn Hj Hf Hpend HQ. unfold finalize_batch_phase, sources_scanned. rewrite Hds.
  destruct (Z.ltb_spec (DiscoveryStatus.sources_scanned ds) n); [lia|].
  destruct (Z.eqb_spec f 0) as [->|Hf0].
  - assert (j = 0) as -> by lia. cbn [Z.eqb andb]. wp_step. apply ready_now; [done|]. intros t w1 Hw1 E1.
    assert (forall e, BatchStatus.phase (BatchStatus.transition_to t BatchPhase.Failed st <| BatchStatus.error := e |>)
      = BatchPhase.Failed) as Hp by (intros e; exact (transition_phase t BatchPhase.Failed st)).
    apply ready_conclude; [done|apply Hp|done..|by rewrite E1|]. rewrite E1. intros w2 Hw2 Hk2 Hs2 Hi2 Hp2 Hd2.
    by apply HQ.
  - rewrite andb_false_r. wp_step. apply ready_now; [done|]. intros t0 w0 Hw0 E0. wp_step.
    apply ready_now; [done|]. intros t w1 Hw1 E1. rewrite E0 in E1.
    apply ready_conclude; [done|apply transition_phase|done..|by rewrite E1|]. rewrite E1.
    intros w2 Hw2 Hk2 Hs2 Hi2 Hp2 Hd2. apply HQ; try done; [apply transition_phase|]. intros _.
    etrans; [|apply as_u32_id; unfold is_u32; lia].
    unfold BatchStatus.transition_to, BatchStatus.set_work_units_total. cbn.
    by destruct (BatchStatus.started_at st).
Qed.

(** Discovery completes.  With every call answered and every source listed, [process_batch] of
    a pending batch succeeds and discovery is over: every file of every source has a work
    unit, no stored unit was changed, the counts returned add up to the files listed, and
    the batch is [Running] with the number of units created or, if there are no files,
    [Failed]; the phase index lists the batch there and no longer as [Pending] or
    [Discovering]. *)
Theorem discovery_completes b spec st p (w : World S) :
  let srcs := BatchJobSpec.sources (BatchSpec.spec spec) in
  ready w -> serves (storage p) -> BatchStatus.phase st = BatchPhase.Pending ->
  Z.of_nat (length srcs) < u32_mod -> found srcs < u32_mod ->
  exists tot p' w' st', process_batch file_hash c b spec st p w = ((Ok tot, p'), w') /\
    all_stored b (BatchJobSpec.config (BatchSpec.spec spec)) srcs (kv w') /\ keeps_units (kv w) (kv w') /\
    ScanStats.files_discovered tot = found srcs /\
    ScanStats.jobs_created tot + ScanStats.duplicates_skipped tot = found srcs /\
    status_at b (kv w') = Some st' /\
    BatchStatus.phase st' = (if found srcs =? 0 then BatchPhase.Failed else BatchPhase.Running) /\
    (found srcs <> 0 -> BatchStatus.work_units_total st' = ScanStats.jobs_created tot) /\
    is_Some (kv w' !! BatchIndexKeys.phase (BatchStatus.phase st') b) /\
    kv w' !! BatchIndexKeys.phase BatchPhase.Pending b = None /\
    kv w' !! BatchIndexKeys.phase BatchPhase.Discovering b = None.
Proof.
  intros srcs Hw Hs Hp Hlen Hfound. pose proof (found_nonneg srcs) as Hf0.
  destruct (process_batch file_hash c b spec st p w) as [[r p'] w'] eqn:Ev.
  match goal with |- exists tot p' w' st', (?a, ?b', ?c') = _ /\ @?P tot p' w' st' =>
    cut (exists tot st', r = Ok tot /\ P tot b' c' st') end.
  { intros (tot & st' & -> & HP). by exists tot, p', w', st'. }
  act_run Ev. unfold process_batch. rewrite Hp. cbn [bool_decide]. rewrite bool_decide_false by done.
  do 2 scan_step. apply ready_initialize; [done..|]. intros st1 w1 Hw1 Hp1 Hds1 Hk1 Hpend1. scan_step.
  change (Z.to_nat (sources_scanned st1)) with (Z.to_nat (sources_scanned st1)).
  assert (sources_scanned st1 = 0) as -> by (unfold sources_scanned; by rewrite Hds1). cbn [Z.to_nat drop].
  apply (ready_process_sources b spec srcs st1 _ ScanStats.default _ p w1 Hw1 Hs Hds1); cbn; [done|lia|done|lia|].
  intros st2 ds2 tot p2 w2 Hw2 Hp2 Hds2 Hn2 (Ht1 & Ht2 & Ht3) Hf2 Hk2 Hx2 Ha2. rewrite Z.add_0_l in Hf2. do 2 scan_step.
  apply (ready_finalize b st2 ds2); [done|done| |lia|lia|by rewrite Hx2|].
  { fold srcs. rewrite as_u32_id by (unfold is_u32; lia). lia. }
  intros st3 w3 Hw3 Hk3 Hst3 Hp3 Ht3' Hi3 Hpe3 Hd3. repeat scan_step.
  rewrite Hf2 in Hp3, Ht3'. exists tot, st3. split; [done|].
  split; [by eapply all_stored_keeps|]. split; [etrans; [exact Hk1|by etrans]|].
  split; [done|]. split; [lia|]. done.
Qed.

End Stored.

(** ** A concrete storage: one file per source, [flaky] sources fail once *)
Module SimSource.
Record t : Type := mk { flaky : list string }.

Definition object (path : string) : list ObjectMetadata.t :=
  if String.eqb path "" then [] else [ObjectMetadata.new path 1].

Definition sim_create (url : string) (r : t) : StorageResult string * t :=
  if existsb (String.eqb url) (flaky r)
  then (Err (StorageError.NetworkError "reset"), mk (List.filter (fun u => negb (String.eqb u url)) (flaky r)))
  else (Ok url, r).

#[export] Instance ops : SourceStorage t := {
  Backend := string;
  create := sim_create;
  list_objects _ path r := (Ok (object path), r);
  metadata _ path r := (Err (StorageError.NotFound path), r) }.

#[export] Instance laws : SourceStorageLaws t.
Proof.
  split. intros b p r files r' [= <- _]. unfold object. by destruct (String.eqb p "").
Qed.

Lemma serves_all url r :
  flaky r = [] -> exists r', Scanner.scan_source_url url r = (Ok (object (Scanner.path_for_list url)), r') /\ flaky r' = [].
Proof.
  intros Hr. exists r. split; [|done]. unfold Scanner.scan_source_url. cbn. unfold sim_create. rewrite Hr. cbn.
  unfold object. by destruct (String.eqb _ _).
Qed.
End SimSource.

Section Witnesses.
Import Scanner Sim SimSource.

Local Instance scan_spec_codec : Codec BatchSpec.t := Wire.codec_of_wire _ (H := BatchSpec.wire).
Local Instance scan_spec_lawful : LawfulCodec BatchSpec.t := Wire.lawful_of_wire _ (H := BatchSpec.wire).
Local Instance scan_status_codec : Codec BatchStatus.t := Wire.codec_of_wire _ (H := BatchStatus.wire).
Local Instance scan_status_lawful : LawfulCodec BatchStatus.t := Wire.lawful_of_wire _ (H := BatchStatus.wire).
Local Instance scan_unit_codec : Codec WorkUnit.t := Wire.codec_of_wire _ (H := WorkUnit.wire).
Local Instance scan_unit_lawful : LawfulCodec WorkUnit.t := Wire.lawful_of_wire _ (H := WorkUnit.wire).

Definition sim_scanner : Scanner.t := Scanner.new "pod-1" sim_client ScannerConfig.default.
Definition sim_hash (path : string) (size : Z) (cfg : string) : string := path.
Definition two_sources : BatchSpec.t := BatchSpec.new 0 "b" ["s3://in/a.bag"; "s3://in/d.bag"]%string "s3://out".
Definition two_submitted : gmap string string :=
  kv (BatchController.submit_batch sim_controller two_sources (sim_world ∅ [])).2.
Definition idle (flaky : list string) : Private SimSource.t := mkPrivate ScannerMetrics.new (SimSource.mk flaky).

(** The unit of one file exists and is being processed; a call fails late in the cycle. *)
Definition busy_unit : WorkUnit.t :=
  WorkUnit.with_id 0 0 "a.bag" "jobs:b" [] "s3://out" "default" <| WorkUnit.status := WorkUnitStatus.Processing |>.
Definition busy_store : gmap string string := stored_unit busy_unit ∪ two_submitted.

Lemma scan_keeps_units_witness :
  let w := sim_world busy_store (replicate 60 None ++ [Some ("region error"%string, true)]) in
  unit_at (unit_key busy_unit) (kv (scan_cycle sim_hash sim_scanner (idle []) w).2) = Some busy_unit.
Proof.
  intros w. unfold unit_at.
  pose proof (scan_keeps_units sim_hash sim_scanner sim_client_ok eq_refl (idle []) w _ _ _
    (eq_trans (surjective_pairing _) (f_equal (fun x => (x, _)) (surjective_pairing _))) "jobs:b" "a.bag") as Hk.
  change (unit_key busy_unit) with (WorkUnitKeys.unit "jobs:b" "a.bag").
  destruct (kv w !! WorkUnitKeys.unit "jobs:b" "a.bag") as [d|] eqn:Ed; [|vm_compute in Ed; discriminate Ed].
  rewrite (Hk d eq_refl). revert Ed. vm_compute. intros [= <-]. reflexivity.
Defined.

Lemma source_files_queued_witness :
  let x := process_single_source sim_hash sim_scanner "jobs:b" "s3://in/d.bag" "default" "s3://out" (idle [])
             (sim_world busy_store []) in
  queued_at "jobs:b" "s3://in/d.bag" "d.bag" (kv x.2).
Proof.
  intros x.
  assert (scan_source_url "s3://in/d.bag" (storage (idle [])) = (Ok [ObjectMetadata.new "d.bag" 1], SimSource.mk []))
    as Es by (vm_compute; reflexivity).
  assert (exists stats, x.1.1 = Ok stats) as [stats Ex] by (eexists; vm_compute; reflexivity).
  destruct (source_files_queued sim_hash sim_scanner sim_client_ok eq_refl "jobs:b" "s3://in/d.bag" "default" "s3://out"
    (idle []) (sim_world busy_store []) _ _ _ [ObjectMetadata.new "d.bag" 1] (SimSource.mk []) Es
    (eq_trans (surjective_pairing x) (f_equal (fun y => (y, _)) (surjective_pairing _)))) as [_ Hall].
  destruct (Hall stats Ex) as (_ & _ & Hf & _).
  specialize (Hf (ObjectMetadata.new "d.bag" 1)). cbn zeta in Hf.
  assert (kv (sim_world busy_store []) !! WorkUnitKeys.unit "jobs:b" "d.bag" = None) as En by (vm_compute; reflexivity).
  change (compute_file_hash sim_hash _ _) with "d.bag"%string in Hf. rewrite En in Hf. apply Hf. by left.
Defined.

Lemma discovery_completes_witness :
  exists st', status_at "jobs:b" (kv (process_batch sim_hash sim_scanner "jobs:b" two_sources (BatchStatus.new 0)
      (idle []) (sim_world two_submitted [])).2) = Some st' /\
    BatchStatus.phase st' = BatchPhase.Running /\ BatchStatus.work_units_total st' = 2.
Proof.
  destruct (discovery_completes sim_hash sim_scanner sim_client_ok eq_refl (fun url => object (path_for_list url))
    (fun r => flaky r = []) serves_all "jobs:b" two_sources (BatchStatus.new 0) (idle []) (sim_world two_submitted [])
    (sim_world_ready _) eq_refl eq_refl ltac:(vm_compute; reflexivity) ltac:(vm_compute; reflexivity))
    as (tot & p' & w' & st' & E & _ & _ & _ & _ & Hst & Hp & Ht & _).
  exists st'. rewrite E. split; [exact Hst|]. split; [rewrite Hp; vm_compute; reflexivity|].
  rewrite Ht by (vm_compute; discriminate).
  assert ((process_batch sim_hash sim_scanner "jobs:b" two_sources (BatchStatus.new 0) (idle [])
    (sim_world two_submitted [])).1.1 = Ok (ScanStats.mk 2 2 0)) as E2 by (vm_compute; reflexivity).
  rewrite E in E2. injection E2 as ->. reflexivity.
Defined.

(** A source that fails once is never scanned again.  Its batch has two sources; the first
    one cannot be listed in the first cycle.  [sources_scanned] is then 1, and the next
    cycle skips that many sources from the front: it lists the second source again, counts
    it as the second scanned one, and starts the batch with no unit for the first source and
    a total of 0 units. *)
Example failed_source_skipped :
  let x1 := scan_cycle sim_hash sim_scanner (idle ["s3://in/a.bag"%string]) (sim_world two_submitted []) in
  let x2 := scan_cycle sim_hash sim_scanner x1.1.2 x1.2 in
  x1.1.1 = Ok (ScanStats.mk 1 1 0) /\ x2.1.1 = Ok (ScanStats.mk 1 0 1) /\
  kv x2.2 !! WorkUnitKeys.unit "jobs:b" "a.bag" = None /\
  is_Some (kv x2.2 !! WorkUnitKeys.unit "jobs:b" "d.bag") /\
  (fun st => (BatchStatus.phase st, BatchStatus.work_units_total st)) <$> status_at "jobs:b" (kv x2.2)
    = Some (BatchPhase.Running, 0).
Proof. cbv zeta. split; [vm_compute; reflexivity|]. repeat split; vm_compute; by try eexists. Qed.

End Witnesses.
