(* ===== verification/Worker.v ===== *)
(** * The worker (worker/, heartbeat.rs, slot_pool.rs and shutdown.rs of
    crates/roboflow-distributed/src)

    A worker claims a unit, runs the configured processor on it under a slot, reports the
    outcome, and beats its heart; [Coordinator] is its loop.  The processor, the
    collector of statistics and the JSON functions are parameters.  The validators are those
    of crates/roboflow-core/src/config.rs.  The loop waits for each unit it processes, so one
    round is one [loop_round]; the heartbeat task runs between operations. *)
From S2P Require Import Prelude Codec TikvError Circuit Lifecycle Keys Env Effects Schema Client WorkUnit Batch Controller Reaper Storage Actor.
Local Open Scope Z_scope.

(** ** Configuration *)
Module validators.
(** [RoboflowError::parse(field, message)]. *)
Record error : Type := parse { field : string; message : string }.
Definition Result : Type := result error unit.

Definition positive (value : Z) (field : string) : Result :=
  if 0 <? value then Ok tt else Err (parse field ("must be greater than 0 (got " +:+ dec value +:+ ")")).
Definition non_negative (value : Z) (field : string) : Result :=
  if 0 <=? value then Ok tt else Err (parse field ("must be non-negative (got " +:+ dec value +:+ ")")).
Definition range (value min max : Z) (field : string) : Result :=
  if (min <=? value) && (value <=? max) then Ok tt
  else Err (parse field ("must be in range [" +:+ dec min +:+ ", " +:+ dec max +:+ "] (got " +:+ dec value +:+ ")")).
Definition range_exclusive (value min max : Z) (field : string) : Result :=
  if (min <=? value) && (value <? max) then Ok tt
  else Err (parse field ("must be in range [" +:+ dec min +:+ ", " +:+ dec max +:+ ") (got " +:+ dec value +:+ ")")).
Definition not_empty {A} (value : list A) (field : string) : Result :=
  match value with [] => Err (parse field "must not be empty") | _ => Ok tt end.
Definition not_empty_str (value field : string) : Result :=
  match value with EmptyString => Err (parse field "must not be empty") | _ => Ok tt end.
Definition starts_with (value prefix field : string) : Result :=
  if Prelude.starts_with value prefix then Ok tt
  else Err (parse field ("must start with '" +:+ prefix +:+ "' (got '" +:+ value +:+ "')")).
Definition port (value : Z) (field : string) : Result :=
  if 0 <? value then Ok tt else Err (parse field "must be a valid port (1-65535)").
Definition satisfies {A} (value : A) (predicate : A -> bool) (field message : string) : Result :=
  if predicate value then Ok tt else Err (parse field message).
Definition paired {A} (a b : option A) (field_a field_b : string) : Result :=
  if Bool.eqb (bool_decide (is_Some a)) (bool_decide (is_Some b)) then Ok tt
  else Err (parse field_a ("must be set together with '" +:+ field_b +:+ "' (one is set, other is not)")).
Definition at_least (value min : Z) (field : string) : Result :=
  if min <=? value then Ok tt
  else Err (parse field ("must be at least " +:+ dec min +:+ " (got " +:+ dec value +:+ ")")).
Definition at_most (value max : Z) (field : string) : Result :=
  if value <=? max then Ok tt
  else Err (parse field ("must be at most " +:+ dec max +:+ " (got " +:+ dec value +:+ ")")).

(** [a?; b]. *)
Definition and_then (a b : Result) : Result :=
  match a with Ok _ => b | r => r end.
Fixpoint all (checks : list Result) : Result :=
  match checks with [] => Ok tt | x :: xs => and_then x (all xs) end.
End validators.

Module WorkerConfig.
(** [struct WorkerConfig]. *)
Record t : Type := mk {
  max_concurrent_jobs : Z;
  poll_interval : Z;
  max_attempts : Z;
  job_timeout : Z;
  heartbeat_interval : Z;
  checkpoint_interval_frames : Z;
  checkpoint_interval_seconds : Z;
  checkpoint_async : bool;
  output_prefix : string;
  output_storage_url : option string;
  expected_workers : Z;
  merge_output_path : string;
  episodes_per_chunk : Z
}.
#[global] Instance t_eta : Settable t := fun r =>
  mk (max_concurrent_jobs r) (poll_interval r) (max_attempts r) (job_timeout r) (heartbeat_interval r)
     (checkpoint_interval_frames r) (checkpoint_interval_seconds r) (checkpoint_async r) (output_prefix r)
     (output_storage_url r) (expected_workers r) (merge_output_path r) (episodes_per_chunk r).

Definition default : t :=
  mk 1 (secs 5) 3 (secs 3600) (secs 30) 100 10 true "output/" None 1 "datasets/merged" 500.
Definition with_max_concurrent_jobs (max : Z) (c : t) : t := c <| max_concurrent_jobs := max |>.
Definition with_poll_interval (interval : Z) (c : t) : t := c <| poll_interval := interval |>.
Definition with_max_attempts (max : Z) (c : t) : t := c <| max_attempts := max |>.
Definition with_job_timeout (timeout : Z) (c : t) : t := c <| job_timeout := timeout |>.
Definition with_heartbeat_interval (interval : Z) (c : t) : t := c <| heartbeat_interval := interval |>.
Definition with_output_prefix (prefix : string) (c : t) : t := c <| output_prefix := prefix |>.
Definition with_output_storage_url (url : string) (c : t) : t := c <| output_storage_url := Some url |>.
Definition with_checkpoint_interval_frames (n : Z) (c : t) : t := c <| checkpoint_interval_frames := n |>.
Definition with_checkpoint_interval_seconds (n : Z) (c : t) : t := c <| checkpoint_interval_seconds := n |>.
Definition with_checkpoint_async (b : bool) (c : t) : t := c <| checkpoint_async := b |>.
Definition with_episodes_per_chunk (n : Z) (c : t) : t := c <| episodes_per_chunk := n |>.

(** [Validate for WorkerConfig]. *)
Definition validate (c : t) : validators.Result :=
  validators.all
    [validators.positive (max_concurrent_jobs c) "max_concurrent_jobs";
     validators.positive (max_attempts c) "max_attempts";
     validators.positive (expected_workers c) "expected_workers";
     validators.positive (as_secs (poll_interval c)) "poll_interval_secs";
     validators.positive (as_secs (job_timeout c)) "job_timeout_secs";
     validators.positive (as_secs (heartbeat_interval c)) "heartbeat_interval_secs";
     validators.non_negative (checkpoint_interval_frames c) "checkpoint_interval_frames";
     validators.non_negative (checkpoint_interval_seconds c) "checkpoint_interval_seconds";
     validators.not_empty_str (output_prefix c) "output_prefix";
     validators.not_empty_str (merge_output_path c) "merge_output_path"].
End WorkerConfig.

(** ** Slots, shutdown, registry *)
Module SlotPool.
Inductive SlotPoolError : Type := NoSlotsAvailable | PoolClosed.

(** [struct SlotPool]: the permits of its [tokio] semaphore. *)
Record t : Type := mk { permits : Z; closed : bool; max_slots : Z }.
#[global] Instance t_eta : Settable t := fun r => mk (permits r) (closed r) (max_slots r).

Definition new (slots : Z) : t := mk slots false slots.

(** [SlotPool::acquire]; [None] when it waits for a slot. *)
Definition acquire (p : t) : option (result SlotPoolError unit * t) :=
  if closed p then Some (Err PoolClosed, p)
  else if 0 <? permits p then Some (Ok tt, p <| permits := permits p - 1 |>)
  else None.
(** [SlotPool::try_acquire]: whether a guard was handed out. *)
Definition try_acquire (p : t) : bool * t :=
  if negb (closed p) && (0 <? permits p) then (true, p <| permits := permits p - 1 |>) else (false, p).
(** Dropping a [SlotGuard]. *)
Definition drop_guard (p : t) : t := p <| permits := permits p + 1 |>.
Definition available (p : t) : Z := permits p.
End SlotPool.

Module ShutdownHandler.
(** [struct ShutdownHandler]: the flag; [notified] says that the signal was broadcast. *)
Record t : Type := mk { shutdown_flag : bool; notified : bool }.
Definition new : t := mk false false.
Definition is_requested (h : t) : bool := shutdown_flag h.
(** [shutdown], and the handler of SIGTERM and SIGINT. *)
Definition shutdown (h : t) : t := mk true true.
End ShutdownHandler.

Module JobRegistry.
(** [struct JobRegistry]: the token of each job; a token is shared, so the cancelled
    ones are kept beside the map. *)
Record t : Type := mk { active_jobs : gmap string nat; cancelled : gset nat }.
#[global] Instance t_eta : Settable t := fun r => mk (active_jobs r) (cancelled r).

Definition default : t := mk ∅ ∅.
Definition register (job_id : string) (token : nat) (r : t) : t :=
  r <| active_jobs := <[job_id := token]> (active_jobs r) |>.
Definition unregister (job_id : string) (r : t) : t := r <| active_jobs := delete job_id (active_jobs r) |>.
Definition job_ids (r : t) : list string := (map_to_list (active_jobs r)).*1.
Definition cancel_job (job_id : string) (r : t) : t :=
  match active_jobs r !! job_id with
  | Some token => r <| cancelled := {[token]} ∪ cancelled r |>
  | None => r
  end.
Definition cancel_all (r : t) : t :=
  r <| cancelled := list_to_set (map_to_list (active_jobs r)).*2 ∪ cancelled r |>.
End JobRegistry.

(** ** Results and metrics *)
Module ProcessingResult.
(** [enum ProcessingResult]; [Stats] is [EpisodeStats]. *)
Inductive t (Stats : Type) : Type :=
| Success (episode_index frame_count : Z) (episode_stats : option Stats)
| Failed (error : string)
| Cancelled.
#[global] Arguments Success {Stats}.
#[global] Arguments Failed {Stats}.
#[global] Arguments Cancelled {Stats}.
End ProcessingResult.

Module WorkerMetrics.
(** [struct WorkerMetrics], and its snapshot. *)
Record t : Type := mk {
  jobs_claimed : Z;
  jobs_completed : Z;
  jobs_failed : Z;
  jobs_dead : Z;
  active_jobs : Z;
  processing_errors : Z;
  heartbeat_errors : Z
}.
#[global] Instance t_eta : Settable t := fun r =>
  mk (jobs_claimed r) (jobs_completed r) (jobs_failed r) (jobs_dead r) (active_jobs r)
     (processing_errors r) (heartbeat_errors r).

Definition new : t := mk 0 0 0 0 0 0 0.
Definition inc_jobs_claimed (m : t) : t := m <| jobs_claimed := u64_add (jobs_claimed m) 1 |>.
Definition inc_jobs_completed (m : t) : t := m <| jobs_completed := u64_add (jobs_completed m) 1 |>.
Definition inc_jobs_failed (m : t) : t := m <| jobs_failed := u64_add (jobs_failed m) 1 |>.
Definition inc_jobs_dead (m : t) : t := m <| jobs_dead := u64_add (jobs_dead m) 1 |>.
Definition inc_active_jobs (m : t) : t := m <| active_jobs := u64_add (active_jobs m) 1 |>.
Definition dec_active_jobs (m : t) : t := m <| active_jobs := as_u64 (active_jobs m - 1) |>.
Definition inc_processing_errors (m : t) : t := m <| processing_errors := u64_add (processing_errors m) 1 |>.
Definition inc_heartbeat_errors (m : t) : t := m <| heartbeat_errors := u64_add (heartbeat_errors m) 1 |>.
End WorkerMetrics.

(** ** The coordinator *)
Module Coordinator.

(** [struct Coordinator]; its metrics, slots and shutdown flag are the private state. *)
Record t : Type := mk {
  pod_id : string;
  tikv : TikvClient.t;
  config : WorkerConfig.t;
  batch_controller : BatchController.t
}.

Definition new (pod_id : string) (tikv : TikvClient.t) (config : WorkerConfig.t) : t :=
  mk pod_id tikv config (BatchController.with_client tikv).

Record Private : Type := mkPrivate {
  metrics : WorkerMetrics.t;
  slot_pool : SlotPool.t;
  shutdown_handler : ShutdownHandler.t
}.
#[global] Instance Private_eta : Settable Private := fun r =>
  mkPrivate (metrics r) (slot_pool r) (shutdown_handler r).

Definition initial (config : WorkerConfig.t) : Private :=
  mkPrivate WorkerMetrics.new (SlotPool.new (WorkerConfig.max_concurrent_jobs config)) ShutdownHandler.new.

Section Ops.
Context {S : Type} `{TransactionClient S}.
Context `{Codec BatchSpec.t, Codec BatchStatus.t, Codec WorkUnit.t, Codec HeartbeatRecord.t}.
Context {Stats : Type}.
(** The [WorkProcessor], and [record_episode_stats] of the [StatsCollector] if there is one. *)
Context (process : WorkUnit.t -> M S TikvError.t (ProcessingResult.t Stats)).
Context (record_stats : option (string -> Stats -> M S TikvError.t unit)).
Abbreviation Work := (Act Private S TikvError.t).

Definition count (f : WorkerMetrics.t -> WorkerMetrics.t) : Work unit :=
  modify (fun p => p <| metrics := f (metrics p) |>).

(** [Coordinator::claim_work]. *)
Definition claim_work (c : t) : Work (option WorkUnit.t) :=
  unit ← perform (BatchController.claim_work_unit (batch_controller c) (pod_id c));
  match unit with
  | Some unit =>
      count WorkerMetrics.inc_jobs_claimed;; count WorkerMetrics.inc_active_jobs;; mret (Some unit)
  | None => mret None
  end.

(** [Coordinator::complete_work], [fail_work]. *)
Definition complete_work (c : t) (batch_id unit_id : string) : Work unit :=
  done ← perform (BatchController.complete_work_unit (batch_controller c) batch_id unit_id);
  if done : bool then count WorkerMetrics.inc_jobs_completed;; count WorkerMetrics.dec_active_jobs
  else count WorkerMetrics.dec_active_jobs.
Definition fail_work (c : t) (batch_id unit_id error : string) : Work unit :=
  done ← perform (BatchController.fail_work_unit (batch_controller c) batch_id unit_id error);
  if done : bool then count WorkerMetrics.inc_jobs_failed;; count WorkerMetrics.dec_active_jobs
  else count WorkerMetrics.dec_active_jobs.

(** [Coordinator::send_heartbeat] and [send_heartbeat_inner]. *)
Definition send_heartbeat (c : t) : Work unit :=
  active ← asks (fun p => as_u32 (WorkerMetrics.active_jobs (metrics p)));
  total_processed ← asks (fun p => WorkerMetrics.jobs_completed (metrics p));
  stored ← perform (TikvClient.get_heartbeat (tikv c) (pod_id c));
  heartbeat ← perform (match stored with
    | Some h => mret h
    | None => t ← now; mret (HeartbeatRecord.new t (pod_id c))
    end);
  t ← perform now;
  let heartbeat := HeartbeatRecord.beat t heartbeat
    <| HeartbeatRecord.active_jobs := active |>
    <| HeartbeatRecord.total_processed := total_processed |>
    <| HeartbeatRecord.status := if 0 <? active then WorkerStatus.Busy else WorkerStatus.Idle |> in
  perform (TikvClient.update_heartbeat (tikv c) (pod_id c) heartbeat).

(** A tick of [spawn_heartbeat_task]. *)
Definition heartbeat_tick (c : t) : Work unit :=
  r ← attempt (E' := TikvError.t) (send_heartbeat c);
  match r with Ok _ => mret tt | _ => count WorkerMetrics.inc_heartbeat_errors end.

(** A failed report of an outcome is counted and returned. *)
Definition report (m : Work unit) : Work bool :=
  r ← attempt m;
  match r with
  | Ok _ => mret false
  | Err e => count WorkerMetrics.inc_processing_errors;; raise e
  | Panic s => perform (panic s)
  end.

(** [Coordinator::handle_execution_result]. *)
Definition handle_execution_result (c : t) (batch_id unit_id : string) (result : ProcessingResult.t Stats)
  : Work bool :=
  match result with
  | ProcessingResult.Success _ _ episode_stats =>
      match record_stats, episode_stats with
      | Some record, Some stats => perform (ignore (record batch_id stats))
      | _, _ => mret tt
      end;;
      report (complete_work c batch_id unit_id)
  | ProcessingResult.Failed error =>
      match split_on "shutdown" error with
      | Some _ => mret true
      | None => report (fail_work c batch_id unit_id error)
      end
  | ProcessingResult.Cancelled => mret false
  end.

(** The part of [Coordinator::process_work_unit] that runs while a slot is held. *)
Definition process_in_slot (c : t) (unit : WorkUnit.t) : Work bool :=
  result ← attempt (perform (process unit));
  match result with
  | Ok processing_result =>
      handle_execution_result c (WorkUnit.batch_id unit) (WorkUnit.id unit) processing_result
  | Err e =>
      report (fail_work c (WorkUnit.batch_id unit) (WorkUnit.id unit)
                ("Execution error: " +:+ TikvError.to_string e)%string)
  | Panic s => perform (panic s)
  end.

(** The slot guard is dropped whatever the result is. *)
Definition with_slot_released {A} (m : Work A) : Work A := fun p w =>
  let '((r, p), w) := m p w in ((r, p <| slot_pool := SlotPool.drop_guard (slot_pool p) |>), w).

(** [Coordinator::process_work_unit]: [None] when it waits for a slot that is never
    released, else whether the loop ends. *)
Definition process_work_unit (c : t) (unit : WorkUnit.t) : Work (option bool) :=
  stop ← asks (fun p => ShutdownHandler.is_requested (shutdown_handler p));
  if stop : bool then mret (Some true)
  else
    slot ← asks (fun p => SlotPool.acquire (slot_pool p));
    match slot with
    | None => mret None
    | Some (Ok _, pool) =>
        modify (fun p => p <| slot_pool := pool |>);;
        b ← with_slot_released (process_in_slot c unit);
        mret (Some b)
    | Some (_, _) => count WorkerMetrics.dec_active_jobs;; mret (Some false)
    end.

(** [Coordinator::wait_with_shutdown]; [signal] says whether the signal comes first. *)
Definition wait_with_shutdown (signal : bool) (duration : Z) : Work bool :=
  if signal then mret true else perform (sleep_for duration);; mret false.

(** One round of [Coordinator::run_main_loop]. *)
Definition loop_round (signal : bool) (c : t) : Work (option bool) :=
  active_count ← asks (fun p => WorkerMetrics.active_jobs (metrics p));
  if active_count <? WorkerConfig.max_concurrent_jobs (config c) then
    unit ← claim_work c;
    match unit with
    | Some unit => process_work_unit c unit
    | None =>
        b ← wait_with_shutdown signal (WorkerConfig.poll_interval (config c)); mret (Some b)
    end
  else b ← wait_with_shutdown signal (millis 100); mret (Some b).

End Ops.

(** [MissingWorkProcessor]. *)
Definition missing_processor {S Stats} (unit : WorkUnit.t) : M S TikvError.t (ProcessingResult.t Stats) :=
  mret (ProcessingResult.Failed ("No WorkProcessor configured for work unit " +:+ WorkUnit.id unit +:+
                                 " in batch " +:+ WorkUnit.batch_id unit)%string).

End Coordinator.

(** ** The heartbeat manager *)
Module HeartbeatConfig.
(** [struct HeartbeatConfig]; the job it tracks is part of the manager's private state. *)
Record t : Type := mk { interval : Z; stale_threshold : Z }.
#[global] Instance t_eta : Settable t := fun r => mk (interval r) (stale_threshold r).
Definition default : t := mk (secs 30) (secs 300).
Definition with_interval (i : Z) (c : t) : t := c <| interval := i |>.
Definition with_stale_threshold (s : Z) (c : t) : t := c <| stale_threshold := s |>.
End HeartbeatConfig.

Module HeartbeatMetrics.
(** [struct HeartbeatMetrics], and its snapshot. *)
Record t : Type := mk { updates_total : Z; errors_total : Z; last_success : Z; last_age_seconds : Z }.
#[global] Instance t_eta : Settable t := fun r =>
  mk (updates_total r) (errors_total r) (last_success r) (last_age_seconds r).
Definition new : t := mk 0 0 0 0.
Definition inc_updates (m : t) : t := m <| updates_total := u64_add (updates_total m) 1 |>.
Definition inc_errors (m : t) : t := m <| errors_total := u64_add (errors_total m) 1 |>.
Definition update_success (now : Z) (m : t) : t := m <| last_success := as_secs (Z.max 0 now) |>.
Definition update_age (age : Z) (m : t) : t := m <| last_age_seconds := age |>.
End HeartbeatMetrics.

Module HeartbeatManager.
(** [struct HeartbeatManager]. *)
Record t : Type := mk {
  pod_id : string;
  tikv : TikvClient.t;
  config : HeartbeatConfig.t;
  hostname : string;
  started_at : Z
}.

(** The tracked job, the metrics, and whether the background task was started. *)
Record Private : Type := mkPrivate {
  current_job : option string;
  metrics : HeartbeatMetrics.t;
  started : bool
}.
#[global] Instance Private_eta : Settable Private := fun r => mkPrivate (current_job r) (metrics r) (started r).

Section Ops.
Context {S : Type} `{TransactionClient S} `{Codec HeartbeatRecord.t}.
(** [serde_json]: the object of a worker's host name and start time; the insertion of text
    members, which leaves a value that is no object as it is; and [to_rfc3339]. *)
Context (describe : string -> string -> string) (insert_members : list (string * string) -> string -> string)
  (rfc3339 : Z -> string).
Abbreviation Beat := (Act Private S TikvError.t).
Abbreviation Tikv := (M S TikvError.t).

Definition record (f : HeartbeatMetrics.t -> HeartbeatMetrics.t) : Beat unit :=
  modify (fun p => p <| metrics := f (metrics p) |>).

(** The stored record, or a new one with the metadata [meta]. *)
Definition load (tikv : TikvClient.t) (pod_id : string) (meta : option string) : Tikv HeartbeatRecord.t :=
  stored ← TikvClient.get_heartbeat tikv pod_id;
  match stored with
  | Some h => mret h
  | None => t ← now; mret (HeartbeatRecord.new t pod_id <| HeartbeatRecord.metadata := meta |>)
  end.

(** [inc_updates] and [update_success]. *)
Definition succeeded : Beat unit :=
  record HeartbeatMetrics.inc_updates;; t ← perform now; record (HeartbeatMetrics.update_success t).

(** [HeartbeatManager::update_heartbeat]. *)
Definition update_heartbeat (m : t) : Beat unit :=
  job ← asks current_job;
  let active_jobs := match job with Some _ => 1 | None => 0 end in
  heartbeat ← perform (load (tikv m) (pod_id m) (Some (describe (hostname m) (rfc3339 (started_at m)))));
  t ← perform now;
  let heartbeat := HeartbeatRecord.beat t heartbeat
    <| HeartbeatRecord.active_jobs := active_jobs |>
    <| HeartbeatRecord.status := if 0 <? active_jobs then WorkerStatus.Busy else WorkerStatus.Idle |> in
  let heartbeat := match job, HeartbeatRecord.metadata heartbeat with
    | Some job_id, Some meta =>
        heartbeat <| HeartbeatRecord.metadata := Some (insert_members [("current_job"%string, job_id)] meta) |>
    | _, _ => heartbeat
    end in
  perform (TikvClient.update_heartbeat (tikv m) (pod_id m) heartbeat);;
  succeeded;;
  t ← perform now;
  record (HeartbeatMetrics.update_age (Z.max 0 (num_seconds (t - HeartbeatRecord.last_heartbeat heartbeat)))).

(** [update_heartbeat_inner]. *)
Definition update_heartbeat_inner (tikv : TikvClient.t) (pod_id : string) : Tikv unit :=
  heartbeat ← load tikv pod_id None;
  t ← now;
  TikvClient.update_heartbeat tikv pod_id
    (HeartbeatRecord.beat t heartbeat <| HeartbeatRecord.status := WorkerStatus.Idle |>).

(** A beat of the task that [start_background_task] spawns. *)
Definition background_tick (m : t) : Beat unit :=
  r ← attempt (E' := TikvError.t) (perform (update_heartbeat_inner (tikv m) (pod_id m)));
  match r with Ok _ => mret tt | _ => record HeartbeatMetrics.inc_errors end.

(** [HeartbeatManager::shutdown]. *)
Definition shutdown : Beat unit :=
  s ← asks started;
  if s : bool then mret tt
  else raise (TikvError.Other "Cannot shutdown heartbeat: no background task running").

(** [HeartbeatManager::graceful_shutdown]. *)
Definition graceful_shutdown (m : t) : Tikv unit :=
  heartbeat ← load (tikv m) (pod_id m) None;
  t ← now;
  let heartbeat := HeartbeatRecord.beat t heartbeat <| HeartbeatRecord.status := WorkerStatus.Draining |> in
  heartbeat ← match HeartbeatRecord.metadata heartbeat with
    | Some meta =>
        t ← now;
        mret (heartbeat <| HeartbeatRecord.metadata := Some (insert_members
          [("shutdown_at", rfc3339 t); ("reason", "graceful_shutdown")]%string meta) |>)
    | None => mret heartbeat
    end;
  TikvClient.update_heartbeat (tikv m) (pod_id m) heartbeat.

(** [HeartbeatManager::cleanup]. *)
Definition cleanup (m : t) : Tikv unit := TikvClient.delete (tikv m) (HeartbeatKeys.heartbeat (pod_id m)).

(** [HeartbeatManager::send_with_status]. *)
Definition send_with_status (m : t) (status : WorkerStatus.t) : Beat unit :=
  heartbeat ← perform (load (tikv m) (pod_id m) None);
  t ← perform now;
  perform (TikvClient.update_heartbeat (tikv m) (pod_id m)
    (HeartbeatRecord.beat t heartbeat <| HeartbeatRecord.status := status |>));;
  succeeded.

End Ops.
End HeartbeatManager.

(** ** A worker that beats keeps its units *)
Section Alive.
Import Coordinator ZombieReaper.
Context {S : Type} `{TransactionClientLaws S} `{!HealthyRuns S}.
Context `{Codec BatchSpec.t, Codec BatchStatus.t} `{LawfulCodec WorkUnit.t, LawfulCodec HeartbeatRecord.t}.

(** What a successful [send_heartbeat] leaves in the store. *)
Lemma awp_send_heartbeat c (Q : result TikvError.t unit -> Coordinator.Private -> World S -> Prop) p w :
  client_ok (Coordinator.tikv c) ->
  (forall h d w', later w w' -> encode h = inr d -> clock (env w) <= HeartbeatRecord.last_heartbeat h ->
     kv w' = <[HeartbeatKeys.heartbeat (pod_id c) := d]> (kv w) -> Q (Ok tt) p w') ->
  (forall e w', later w w' -> Q (Err e) p w') ->
  awp (send_heartbeat c) Q p w.
Proof.
  intros [Hi Hr] HOk HErr. unfold send_heartbeat. do 6 act_step.
  apply (wp_mono _ (fun r w1 => calm w w1 /\ forall s, r <> Panic s)).
  { apply wp_get_record; [done| |intros e w1 [Hc1 _]; by split].
    intros w1 Hc1. destruct (kv w !! _) as [d|]; [destruct (decode d)|]; by split. }
  intros [o|e|s] w1 [Hc1 Hp1]; [|apply HErr; world|by destruct (Hp1 s)].
  do 2 act_step. apply (wp_mono _ (fun r w2 => calm w1 w2 /\ exists h, r = Ok h)).
  { destruct o; repeat wp_step; (split; [world|by eexists]). }
  intros r w2 [Hc2 [h ->]]. do 2 act_step. wp_step. act_step.
  match goal with |- context [TikvClient.update_heartbeat _ _ ?x] =>
    destruct (encode_total x) as [d Hd]; eapply (wp_put_record _ Hi Hr) ; [exact Hd|..] end.
  - intros w4 [Hl4 Hk4]. eapply HOk; [world|exact Hd| |].
    + cbn. world_facts. lia.
    + rewrite Hk4. world_facts. congruence.
  - intros e w4 (Hl4 & _). apply HErr. world.
Qed.

(** A worker that beats is not reaped.  When a worker's [send_heartbeat] succeeded, and its record
    is still what it stored, a [reclaim_work_unit] of one of its units that ends within the
    reaper's threshold of the start of the heartbeat never reclaims the unit and leaves every stored
    unit as it is, whichever calls of the reaper fail. *)
Theorem beating_worker_not_reaped c z p (w : World S) p' w1 b i (w2 : World S) r w3 :
  client_ok (Coordinator.tikv c) -> client_ok (ZombieReaper.tikv z) ->
  send_heartbeat c p w = ((Ok tt, p'), w1) ->
  kv w2 !! HeartbeatKeys.heartbeat (pod_id c) = kv w1 !! HeartbeatKeys.heartbeat (pod_id c) ->
  reclaim_work_unit z b i (pod_id c) w2 = (r, w3) ->
  clock (env w3) - clock (env w) <= secs (stale_threshold_secs z) ->
  r <> Ok Reclaimed /\
  forall b' i', unit_at (WorkUnitKeys.unit b' i') (kv w3) = unit_at (WorkUnitKeys.unit b' i') (kv w2).
Proof.
  intros Hc Hz Eb Ek Er Hclock.
  assert (exists h d, kv w1 !! HeartbeatKeys.heartbeat (pod_id c) = Some d /\ decode d = inr h /\
    clock (env w) <= HeartbeatRecord.last_heartbeat h) as (h & d & Hd & Hdec & Hlast).
  { assert (forall r, r = Ok tt -> (send_heartbeat c p w) = ((r, p'), w1) -> exists h d,
      kv w1 !! HeartbeatKeys.heartbeat (pod_id c) = Some d /\ decode d = inr h /\
      clock (env w) <= HeartbeatRecord.last_heartbeat h) as Hgen; [|by apply (Hgen (Ok tt))].
    intros r0 Hr0 E0. revert Hr0. act_run E0. apply awp_send_heartbeat; [done| |done].
    intros h d w' _ Hd Hl Hk _. exists h, d. rewrite Hk, lookup_insert_eq. split; [done|].
    split; [by apply decode_encode|done]. }
  assert (forall w', clock (env w') <= clock (env w3) -> ~ owner_gone z (pod_id c) w2 w') as Hgone.
  { intros w' Hw'. unfold owner_gone. rewrite Ek, Hd, Hdec. intros (t & Ht & Hs).
    unfold HeartbeatRecord.is_stale in Hs. apply Z.ltb_lt in Hs. lia. }
  remember (clock (env w3)) as lim eqn:El in Hgone. assert (clock (env w3) <= lim) as Hlim by lia. clear El Hclock.
  revert Hlim. wp_run Er. apply wp_reclaim_work_unit; [done|..].
  - intros w' _ Hg _ Hl. by destruct (Hgone w' Hl).
  - intros r' w' _ Hr' Hk _. split; [by destruct Hr' as [-> | ->]|].
    intros. destruct Hk as [-> | ->]; [done|apply unit_at_delete_empty].
  - intros w' _ Hk Hl. split; [done|]. intros. destruct Hk as [-> |[-> |[Hg _]]];
      [done|apply unit_at_delete_empty|by destruct (Hgone w' Hl)].
  - intros e w' [[Hk _] _] _. split; [done|]. intros. by rewrite Hk.
Qed.

End Alive.

(** ** The loop *)
Section Loop.
Import Coordinator.
Context {S : Type} `{TransactionClientLaws S} `{!HealthyRuns S}.
Context `{Codec BatchSpec.t, Codec BatchStatus.t} `{LawfulCodec WorkUnit.t, LawfulCodec HeartbeatRecord.t}.
Context {Stats : Type}.
Context (process : WorkUnit.t -> M S TikvError.t (ProcessingResult.t Stats)).
Context (record_stats : option (string -> Stats -> M S TikvError.t unit)).
Context (c : Coordinator.t).

Abbreviation round := (loop_round process record_stats).
Abbreviation max_jobs := (WorkerConfig.max_concurrent_jobs (config c)).
Definition active (p : Private) : Z := WorkerMetrics.active_jobs (metrics p).

Ltac work_step := unfold count, report; act_step.

Lemma awp_any {A} (m : M S TikvError.t A) (Q : result TikvError.t A -> Private -> World S -> Prop) p w :
  (forall r w', Q r p w') -> awp (perform m) Q p w.
Proof. intros HQ. act_step. unfold wp. apply HQ. Qed.

(** The slots are back and the active jobs within the limit. *)
Definition worker_ok (p : Private) : Prop :=
  0 <= active p <= max_jobs /\ slot_pool p = SlotPool.new max_jobs.

(** What the handling of a claimed unit may do to the private state: the active count
    stays or is one less, and the slots and the flag stay. *)
Definition settles (p p' : Private) : Prop :=
  (active p' = active p \/ active p' = as_u64 (active p - 1)) /\ slot_pool p' = slot_pool p /\
  shutdown_handler p' = shutdown_handler p.

Lemma awp_complete_settles b i (Q : result TikvError.t unit -> Private -> World S -> Prop) p w :
  (forall r p' w', settles p p' -> Q r p' w') -> awp (complete_work c b i) Q p w.
Proof.
  intros HQ. unfold complete_work. work_step. apply awp_any. intros [[]|e|s] w'; repeat work_step;
    apply HQ; unfold settles, active; cbn; auto.
Qed.

Lemma awp_fail_settles b i err (Q : result TikvError.t unit -> Private -> World S -> Prop) p w :
  (forall r p' w', settles p p' -> Q r p' w') -> awp (fail_work c b i err) Q p w.
Proof.
  intros HQ. unfold fail_work. work_step. apply awp_any. intros [[]|e|s] w'; repeat work_step;
    apply HQ; unfold settles, active; cbn; auto.
Qed.

Lemma awp_report_settles (m : Act Private S TikvError.t unit) (Q : result TikvError.t bool -> Private -> World S -> Prop) p w :
  (forall Q', (forall r p' w', settles p p' -> Q' r p' w') -> awp m Q' p w) ->
  (forall r p' w', settles p p' -> Q r p' w') -> awp (report m) Q p w.
Proof.
  intros Hm HQ. do 2 work_step. apply Hm. intros [[]|e|s] p' w' Hs; repeat work_step; by apply HQ.
Qed.

Lemma settles_refl p : settles p p.
Proof. unfold settles. auto. Qed.

Lemma awp_process_in_slot u (Q : result TikvError.t bool -> Private -> World S -> Prop) p w :
  (forall r p' w', settles p p' -> Q r p' w') -> awp (process_in_slot process record_stats c u) Q p w.
Proof.
  intros HQ. unfold process_in_slot. do 2 work_step. apply awp_any. intros [[ei fc st|err|]|e|s] w1; cbv beta iota.
  - unfold handle_execution_result. work_step. apply (awp_mono _ (fun _ p' _ => p' = p)).
    { destruct record_stats, st; try (by work_step); by apply awp_any. }
    intros [[]|e|s] p' w2 ->; [|apply HQ, settles_refl..].
    apply awp_report_settles; [|done]. intros Q' HQ'. by apply awp_complete_settles.
  - unfold handle_execution_result. destruct (split_on _ err); [work_step; apply HQ, settles_refl|].
    apply awp_report_settles; [|done]. intros Q' HQ'. by apply awp_fail_settles.
  - unfold handle_execution_result. work_step. apply HQ, settles_refl.
  - apply awp_report_settles; [|done]. intros Q' HQ'. by apply awp_fail_settles.
  - apply HQ, settles_refl.
Qed.

Lemma awp_slot_released {A} (m : Act Private S TikvError.t A) (Q : result TikvError.t A -> Private -> World S -> Prop) p w :
  awp m (fun r p' w' => Q r (p' <| slot_pool := SlotPool.drop_guard (slot_pool p') |>) w') p w ->
  awp (with_slot_released m) Q p w.
Proof. unfold awp, with_slot_released. by destruct (m p w) as [[r p'] w']. Qed.

(** One round keeps the invariant and never waits for a slot. *)
Lemma awp_round_ok signal (Q : result TikvError.t (option bool) -> Private -> World S -> Prop) p w :
  max_jobs < u64_mod -> worker_ok p ->
  (forall r p' w', worker_ok p' -> r <> Ok None -> Q r p' w') -> awp (round signal c) Q p w.
Proof.
  intros Hmax [Hact Hslots] HQ. unfold loop_round. do 2 work_step.
  assert (worker_ok p) as Hok by done.
  destruct (Z.ltb_spec (WorkerMetrics.active_jobs (metrics p)) max_jobs) as [Hlt|Hge]; fold (active p) in *.
  2: { unfold wait_with_shutdown. work_step. destruct signal; [repeat work_step; by apply HQ|].
       work_step. apply awp_any. intros [] w'; repeat work_step; by apply HQ. }
  unfold claim_work. do 2 work_step. apply awp_any. intros [[u|]|e|s] w1; cbv beta iota.
  2: { work_step. unfold wait_with_shutdown. work_step. destruct signal; [repeat work_step; by apply HQ|].
       work_step. apply awp_any. intros [] w'; repeat work_step; by apply HQ. }
  2,3: by apply HQ.
  do 5 work_step.
  match goal with |- awp _ _ ?x _ => set (p1 := x) end.
  assert (active p1 = active p + 1 /\ slot_pool p1 = slot_pool p) as [Ha1 Hs1].
  { split; [|done]. unfold p1, active. cbn. apply u64_add_small; unfold active in *; lia. }
  assert (worker_ok p1) as Hok1 by (unfold worker_ok; rewrite Ha1, Hs1; split; [lia|done]).
  unfold process_work_unit. do 2 work_step. destruct (ShutdownHandler.is_requested _); [work_step; by apply HQ|].
  do 2 work_step. rewrite Hs1, Hslots. unfold SlotPool.acquire. cbn [SlotPool.closed SlotPool.new].
  destruct (Z.ltb_spec 0 (SlotPool.permits (SlotPool.new max_jobs))) as [_|Hneg]; [|cbn in Hneg; lia]. cbv beta iota.
  do 3 work_step. apply awp_slot_released.
  match goal with |- awp _ _ ?x _ => set (p2 := x) end.
  apply awp_process_in_slot. intros r p3 w3 (Ha3 & Hs3 & Hh3).
  assert (worker_ok (p3 <| slot_pool := SlotPool.drop_guard (slot_pool p3) |>)) as Hok3.
  { split.
    - change (active p2) with (active p1) in Ha3. rewrite Ha1 in Ha3. change (0 <= active p3 <= max_jobs).
      destruct Ha3 as [-> | ->]; [lia|]. rewrite as_u64_id by (unfold is_u64; lia). lia.
    - cbn. rewrite Hs3. unfold p2. cbn. unfold SlotPool.drop_guard, SlotPool.new, set_field. cbn. f_equal. lia. }
  destruct r as [b|e|s]; [work_step|..]; by apply HQ.
Qed.

(** What may happen to a worker: rounds of its loop in whatever state the cluster is,
    heartbeats, and the shutdown signal. *)
Inductive worker_step : Private -> Private -> Prop :=
| step_round signal p (w : World S) r p' w' : round signal c p w = ((r, p'), w') -> worker_step p p'
| step_beat p (w : World S) r p' w' : heartbeat_tick c p w = ((r, p'), w') -> worker_step p p'
| step_signal p : worker_step p (p <| shutdown_handler := ShutdownHandler.shutdown (shutdown_handler p) |>).

(** Heartbeats touch one counter. *)
Lemma awp_beat_keeps (Q : result TikvError.t unit -> Private -> World S -> Prop) p w :
  client_ok (tikv c) ->
  (forall r p' w', active p' = active p -> slot_pool p' = slot_pool p -> Q r p' w') ->
  awp (heartbeat_tick c) Q p w.
Proof.
  intros Hc HQ. unfold heartbeat_tick. do 2 work_step. apply awp_send_heartbeat; [done|..];
    intros; repeat work_step; by apply HQ.
Qed.

Lemma step_worker_ok p p' : client_ok (tikv c) -> max_jobs < u64_mod -> worker_step p p' -> worker_ok p -> worker_ok p'.
Proof.
  intros Hc Hmax Hs Hok. destruct Hs as [signal p w r p' w' E|p w r p' w' E|p].
  - act_run E. apply awp_round_ok; [done..|]. by intros.
  - act_run E. apply awp_beat_keeps; [done|]. intros r1 p1 w1 Ha Hsl. unfold worker_ok. by rewrite Ha, Hsl.
  - exact Hok.
Qed.

(** A worker stays within its limit.  Whatever the cluster answers, whatever the processor
    does and whenever the shutdown signal comes, the number of active jobs of a worker is at
    most [max_concurrent_jobs] and never wraps below zero, its slots are all free between rounds, and
    no round waits forever for a slot. *)
Theorem worker_within_limit p :
  client_ok (tikv c) -> 0 <= max_jobs < u64_mod -> rtc worker_step (initial (config c)) p ->
  0 <= active p <= max_jobs /\ SlotPool.available (slot_pool p) = max_jobs /\
  forall signal (w : World S) r p' w', round signal c p w = ((r, p'), w') -> r <> Ok None.
Proof.
  intros Hc Hmax Hr.
  assert (worker_ok p) as Hok.
  { assert (worker_ok (initial (config c))) as H0' by (split; [cbn; lia|done]).
    induction Hr as [|x y z' Hs _ IH]; [done|]. apply IH. eapply step_worker_ok; [done|lia|done|done]. }
  pose proof Hok as [Ha Hs]. split; [done|]. split; [by rewrite Hs|].
  intros signal w r p' w' E. act_run E. apply awp_round_ok; [lia|done|]. by intros.
Qed.

(** At the limit a round only waits. *)
Lemma full_round_waits signal p (w : World S) r p' w' :
  active p = max_jobs -> round signal c p w = ((r, p'), w') ->
  r = Ok (Some signal) /\ p' = p /\ kv w' = kv w.
Proof.
  intros Hfull E. act_run E. unfold loop_round. do 2 work_step. fold (active p). rewrite Hfull, Z.ltb_irrefl.
  unfold wait_with_shutdown. work_step. destruct signal; [repeat work_step; done|]. do 2 work_step. wp_step.
  repeat work_step. split; [done|]. split; [done|]. kv_eq.
Qed.

Lemma full_forever p p' : client_ok (tikv c) -> rtc worker_step p p' -> active p = max_jobs -> active p' = max_jobs.
Proof.
  intros Hc Hr. induction Hr as [|x y z Hs _ IH]; [done|]. intros Hx. apply IH.
  destruct Hs as [signal x w r x' w' E|x w r x' w' E|x].
  - by destruct (full_round_waits _ _ _ _ _ _ Hx E) as (_ & -> & _).
  - act_run E. apply awp_beat_keeps; [done|]. intros; congruence.
  - exact Hx.
Qed.

(** A cancelled job is never given back.  When a unit that a worker claimed as its last
    free job comes back from the processor as cancelled, the round ends normally without releasing it;
    from then on, whatever happens, no round of the worker claims or changes anything. *)
Theorem cancelled_jobs_starve_worker signal p (w : World S) u w1 w2 r p' w' p'' sig' (w3 : World S) r' p3 w4 :
  client_ok (tikv c) -> max_jobs < u64_mod -> worker_ok p -> active p + 1 = max_jobs ->
  ShutdownHandler.is_requested (shutdown_handler p) = false ->
  BatchController.claim_work_unit (batch_controller c) (pod_id c) w = (Ok (Some u), w1) ->
  process u w1 = (Ok ProcessingResult.Cancelled, w2) ->
  round signal c p w = ((r, p'), w') -> rtc worker_step p' p'' ->
  round sig' c p'' w3 = ((r', p3), w4) ->
  r = Ok (Some false) /\ kv w' = kv w2 /\ r' = Ok (Some sig') /\ p3 = p'' /\ kv w4 = kv w3.
Proof.
  intros Hc Hmax [Ha Hsl] Hlast Hno Ecl Epr E Hr E'.
  assert (r = Ok (Some false) /\ kv w' = kv w2 /\ active p' = max_jobs) as (-> & Hk & Hfull).
  { act_run E. unfold loop_round. do 2 work_step. fold (active p).
    destruct (Z.ltb_spec (active p) max_jobs); [|lia]. unfold claim_work. do 3 work_step. unfold wp. rewrite Ecl. cbn [fst snd].
    do 5 work_step. unfold process_work_unit. do 2 work_step. cbn [shutdown_handler set_field]. 
    match goal with |- context [ShutdownHandler.is_requested ?h] => change h with (shutdown_handler p) end. rewrite Hno.
    do 2 work_step. match goal with |- context [SlotPool.acquire ?h] => change h with (slot_pool p) end. rewrite Hsl.
    unfold SlotPool.acquire. cbn [SlotPool.closed SlotPool.new].
    destruct (Z.ltb_spec 0 (SlotPool.permits (SlotPool.new max_jobs))) as [_|Hneg]; [|cbn in Hneg; lia]. cbv beta iota.
    do 3 work_step. apply awp_slot_released. unfold process_in_slot. do 3 work_step. unfold wp. rewrite Epr.
    cbn [fst snd]. unfold handle_execution_result. do 2 work_step. split; [done|]. split; [done|]. unfold active. cbn. rewrite <- Hlast.
    apply u64_add_small; unfold active in *; lia. }
  split; [done|]. split; [done|]. by eapply full_round_waits; [eapply full_forever|].
Qed.

(** ** The outcome of a round *)

(** A collector of statistics leaves the units alone. *)
Definition collector_ok : Prop :=
  forall record b s (w : World S) r w', record_stats = Some record -> record b s w = (r, w') ->
    (ready w -> ready w') /\ (forall k, unit_at k (kv w') = unit_at k (kv w)) /\ (forall x, r <> Panic x).

Lemma awp_report_ok (m : Act Private S TikvError.t unit) (Q : result TikvError.t bool -> Private -> World S -> Prop) p w :
  awp m (fun r p' w' => r = Ok tt /\ Q (Ok false) p' w') p w -> awp (report m) Q p w.
Proof.
  intros Hm. do 2 work_step. eapply awp_mono; [exact Hm|]. intros r p' w' [-> HQ]. by work_step.
Qed.

(** Reports of a stored unit, when every call is answered. *)
Lemma ready_complete_work u (w : World S) (Q : result TikvError.t unit -> Private -> World S -> Prop) p :
  client_ok (BatchController.client (batch_controller c)) -> ready w -> unit_at (unit_key u) (kv w) = Some u ->
  (forall t w', unit_at (unit_key u) (kv w') = Some (WorkUnit.complete t u) ->
     Q (Ok tt) (p <| metrics := WorkerMetrics.dec_active_jobs (WorkerMetrics.inc_jobs_completed (metrics p)) |>) w') ->
  awp (complete_work c (WorkUnit.batch_id u) (WorkUnit.id u)) Q p w.
Proof.
  intros Hc Hw Hu HQ. unfold complete_work. do 2 work_step. apply wp_complete_work_unit; [done|..]; fold (unit_key u).
  - intros Hn. unfold unit_at in Hu. by rewrite Hn in Hu.
  - intros u1 t bytes w1 Hu1 Hb [_ Hk]. rewrite Hu in Hu1. injection Hu1 as <-. repeat work_step.
    apply (HQ t). rewrite Hk. unfold unit_key at 1. rewrite (unit_at_insert _ _ _ _ _ _ Hb). by rewrite decide_True.
  - intros e w1 _ [?|[_ ?]]; [done|congruence].
Qed.

Lemma ready_fail_work u err (w : World S) (Q : result TikvError.t unit -> Private -> World S -> Prop) p :
  client_ok (BatchController.client (batch_controller c)) -> ready w -> unit_at (unit_key u) (kv w) = Some u ->
  (forall t w', unit_at (unit_key u) (kv w') = Some (WorkUnit.fail t err u) ->
     Q (Ok tt) (p <| metrics := WorkerMetrics.dec_active_jobs (WorkerMetrics.inc_jobs_failed (metrics p)) |>) w') ->
  awp (fail_work c (WorkUnit.batch_id u) (WorkUnit.id u) err) Q p w.
Proof.
  intros Hc Hw Hu HQ. unfold fail_work. do 2 work_step. apply wp_fail_work_unit; [done|..]; fold (unit_key u).
  - intros Hn. unfold unit_at in Hu. by rewrite Hn in Hu.
  - intros u1 t bytes w1 Hu1 Hb [_ Hk]. rewrite Hu in Hu1. injection Hu1 as <-. repeat work_step.
    apply (HQ t). rewrite Hk. unfold failed_store, unit_key at 1.
    destruct (decide _); [unfold unit_at; rewrite lookup_insert_ne by apply pending_ne_unit; fold (unit_at (unit_key u))|];
      rewrite ?lookup_insert_eq; unfold unit_key; rewrite ?(decode_encode _ _ Hb); try done.
    rewrite (unit_at_insert _ _ _ _ _ _ Hb). by rewrite decide_True.
  - intros e w1 _ [?|[_ ?]]; [done|congruence].
Qed.

(** C16: the outcome of a round.  A round that claims the unit [u], with every later call answered, does
    with it what the processor's result says: after a success the unit is stored complete, after a
    failure failed (or dead), and the worker's count of active jobs is what it was; after a
    failure whose text contains [shutdown] the loop ends, and after a cancellation it goes
    on, with the unit still stored as processing by this worker and still counted as
    active. *)
Theorem worker_round_outcome signal p (w : World S) u w1 res w2 r p' w' :
  client_ok (BatchController.client (batch_controller c)) -> collector_ok -> max_jobs < u64_mod ->
  worker_ok p -> active p < max_jobs -> ShutdownHandler.is_requested (shutdown_handler p) = false ->
  units_wf (kv w) ->
  BatchController.claim_work_unit (batch_controller c) (pod_id c) w = (Ok (Some u), w1) ->
  process u w1 = (Ok res, w2) -> ready w2 -> unit_at (unit_key u) (kv w2) = unit_at (unit_key u) (kv w1) ->
  round signal c p w = ((r, p'), w') ->
  let stored := unit_at (unit_key u) (kv w') in
  let kept := stored = Some u /\ WorkUnit.status u = WorkUnitStatus.Processing /\
              WorkUnit.owner u = Some (pod_id c) /\ active p' = active p + 1 in
  match res with
  | ProcessingResult.Success _ _ _ =>
      r = Ok (Some false) /\ (exists t, stored = Some (WorkUnit.complete t u)) /\ active p' = active p
  | ProcessingResult.Failed err =>
      match split_on "shutdown" err with
      | Some _ => r = Ok (Some true) /\ kept
      | None => r = Ok (Some false) /\ (exists t, stored = Some (WorkUnit.fail t err u)) /\ active p' = active p
      end
  | ProcessingResult.Cancelled => r = Ok (Some false) /\ kept
  end.
Proof.
  intros Hc Hcol Hmax [Ha Hsl] Hlt Hno Hwf Ecl Epr Hw2 Hsame E.
  assert (unit_at (unit_key u) (kv w2) = Some u /\ WorkUnit.status u = WorkUnitStatus.Processing /\
    WorkUnit.owner u = Some (pod_id c)) as (Hu2 & Hst & Ho).
  { assert (claims (pod_id c) (kv w) (kv w1) u) as Hcl.
    { pose proof Ecl as Ecl'. wp_run_eq Ecl'. apply wp_claim_work_unit; [done|..]; [|done..].
      intros u0 w0 _ Hcl [= ->]. exact Hcl. }
    destruct (claims_effect _ _ _ _ Hwf Hcl) as (_ & _ & Hu1 & Hst & Ho & _). by rewrite Hsame. }
  act_run E. unfold loop_round. do 2 work_step. fold (active p).
  destruct (Z.ltb_spec (active p) max_jobs); [|lia]. unfold claim_work. do 3 work_step. unfold wp. rewrite Ecl. cbn [fst snd].
  do 5 work_step. match goal with |- awp _ _ ?x _ => set (p1 := x) end.
  assert (active p1 = active p + 1) as Ha1 by (unfold p1, active; cbn; apply u64_add_small; unfold active in *; lia).
  assert (slot_pool p1 = slot_pool p /\ shutdown_handler p1 = shutdown_handler p) as [Hs1 Hh1] by done.
  unfold process_work_unit. do 2 work_step. rewrite Hh1, Hno. do 2 work_step. rewrite Hs1, Hsl.
  unfold SlotPool.acquire. cbn [SlotPool.closed SlotPool.new].
  destruct (Z.ltb_spec 0 (SlotPool.permits (SlotPool.new max_jobs))) as [_|Hneg]; [|cbn in Hneg; lia]. cbv beta iota.
  do 3 work_step. apply awp_slot_released. match goal with |- awp _ _ ?x _ => set (p2 := x) end.
  assert (as_u64 (active p2 - 1) = active p) as Hdec.
  { change (active p2) with (active p1). rewrite Ha1. rewrite as_u64_id by (unfold is_u64; lia). lia. }
  unfold process_in_slot. do 3 work_step. unfold wp. rewrite Epr. cbn [fst snd]. unfold handle_execution_result.
  destruct res as [ei fc st|err|]; [..|by do 2 work_step].
  - work_step. apply (awp_mono _ (fun r p3 w3 => r = Ok tt /\ p3 = p2 /\ ready w3 /\ unit_at (unit_key u) (kv w3) = Some u)).
    { unfold collector_ok in Hcol. destruct record_stats as [rec|], st as [st|]; try (by work_step).
      work_step. wp_step. unfold wp. destruct (rec (WorkUnit.batch_id u) st w2) as [r3 w3] eqn:Er.
      destruct (Hcol rec _ _ _ _ _ eq_refl Er) as (Hr3 & Hk3 & Hp3). cbn.
      destruct r3 as [[]|e|x]; [| |by destruct (Hp3 x)]; (split; [done|]; split; [done|]; split; [auto|by rewrite Hk3]). }
    intros r3 p3 w3 (-> & -> & Hw3 & Hu3). apply awp_report_ok, ready_complete_work; [done..|].
    intros t w4 Hu4. split; [done|]. work_step. split; [done|]. split; [by exists t|]. exact Hdec.
  - destruct (split_on "shutdown" err) eqn:Esh; [by do 2 work_step|].
    apply awp_report_ok, ready_fail_work; [done..|]. intros t w4 Hu4. split; [done|]. work_step.
    split; [done|]. split; [by exists t|]. exact Hdec.
Qed.

End Loop.

(** ** Witnesses *)
Section Witnesses.
Import Coordinator Sim.

Local Instance work_spec_codec : Codec BatchSpec.t := Wire.codec_of_wire _ (H := BatchSpec.wire).
Local Instance work_status_codec : Codec BatchStatus.t := Wire.codec_of_wire _ (H := BatchStatus.wire).
Local Instance work_unit_codec : Codec WorkUnit.t := Wire.codec_of_wire _ (H := WorkUnit.wire).
Local Instance work_unit_lawful : LawfulCodec WorkUnit.t := Wire.lawful_of_wire _ (H := WorkUnit.wire).
Local Instance work_beat_codec : Codec HeartbeatRecord.t := Wire.codec_of_wire _ (H := HeartbeatRecord.wire).
Local Instance work_beat_lawful : LawfulCodec HeartbeatRecord.t := Wire.lawful_of_wire _ (H := HeartbeatRecord.wire).

Definition sim_worker : Coordinator.t := Coordinator.new "w1" sim_client WorkerConfig.default.
Definition fresh_worker : Private := initial WorkerConfig.default.
Definition answers (r : ProcessingResult.t unit) (u : WorkUnit.t) : M Sim.t TikvError.t (ProcessingResult.t unit) := mret r.
Definition run_once (r : ProcessingResult.t unit) := loop_round (answers r) None false sim_worker.
Definition one_unit : World Sim.t := sim_world (queued [sim_unit "u1"]) [].
Definition claimed := BatchController.claim_work_unit (batch_controller sim_worker) "w1" one_unit.

(** The worker has beaten; the reaper then looks at the unit it claimed. *)
Lemma beating_worker_not_reaped_witness :
  let x := send_heartbeat sim_worker fresh_worker claimed.2 in
  (ZombieReaper.reclaim_work_unit sim_reaper "jobs:b" "u1" "w1" x.2).1 <> Ok Reclaimed.
Proof.
  intros x.
  assert (x = ((Ok tt, fresh_worker), x.2)) as E.
  { apply (pair_of_fst x (Ok tt, fresh_worker)). vm_compute. reflexivity. }
  refine (proj1 (beating_worker_not_reaped sim_worker sim_reaper fresh_worker claimed.2 fresh_worker x.2 "jobs:b" "u1"
    x.2 _ _ sim_client_ok sim_client_ok E eq_refl (surjective_pairing _) _)).
  vm_compute. discriminate.
Defined.

Lemma claimed_ok : exists u, claimed = (Ok (Some u), claimed.2).
Proof. eexists. apply pair_of_fst. vm_compute. reflexivity. Qed.

Lemma fresh_ok : worker_ok sim_worker fresh_worker.
Proof. split; [vm_compute; split; discriminate|reflexivity]. Qed.

Lemma worker_within_limit_witness :
  let x := run_once ProcessingResult.Cancelled fresh_worker one_unit in
  active x.1.2 = 1 /\ active x.1.2 <= 1.
Proof.
  intros x. split; [vm_compute; reflexivity|].
  refine (proj2 (proj1 (worker_within_limit (answers ProcessingResult.Cancelled) None sim_worker x.1.2 sim_client_ok _ _)));
    [vm_compute; by split; [discriminate|]|].
  apply rtc_once, (step_round (answers ProcessingResult.Cancelled) None sim_worker false fresh_worker one_unit x.1.1 x.1.2 x.2).
  transitivity (x.1, x.2); [apply surjective_pairing|]. by rewrite <- (surjective_pairing x.1).
Defined.

(** A second unit is queued; the worker never takes it. *)
Lemma cancelled_jobs_starve_worker_witness :
  let x := run_once ProcessingResult.Cancelled fresh_worker one_unit in
  let w2 := sim_world (queued [sim_unit "u2"]) [] in
  let y := run_once ProcessingResult.Cancelled x.1.2 w2 in
  kv y.2 = kv w2.
Proof.
  intros x w2 y. destruct claimed_ok as [u Eu].
  refine (proj2 (proj2 (proj2 (proj2 (cancelled_jobs_starve_worker (answers ProcessingResult.Cancelled) None sim_worker
    false fresh_worker one_unit u claimed.2 claimed.2 x.1.1 x.1.2 x.2 x.1.2 false w2 y.1.1 y.1.2 y.2
    sim_client_ok eq_refl fresh_ok eq_refl eq_refl Eu eq_refl _ _ _))))).
  - transitivity (x.1, x.2); [apply surjective_pairing|]. by rewrite <- (surjective_pairing x.1).
  - apply rtc_refl.
  - transitivity (y.1, y.2); [apply surjective_pairing|]. by rewrite <- (surjective_pairing y.1).
Defined.

Lemma worker_round_outcome_witness :
  let x := run_once (ProcessingResult.Success 0 10 None) fresh_worker one_unit in
  exists t u, unit_at (WorkUnitKeys.unit "jobs:b" "u1") (kv x.2) = Some (WorkUnit.complete t u) /\ active x.1.2 = 0.
Proof.
  intros x. destruct claimed_ok as [u Eu].
  assert (unit_key u = WorkUnitKeys.unit "jobs:b" "u1") as Ekey.
  { assert (match claimed.1 with Ok (Some u) => unit_key u = WorkUnitKeys.unit "jobs:b" "u1" | _ => False end) as Hk
      by (vm_compute; reflexivity). by rewrite Eu in Hk. }
  assert (ready claimed.2) as Hready by (split; vm_compute; reflexivity).
  assert (run_once (ProcessingResult.Success 0 10 None) fresh_worker one_unit = ((x.1.1, x.1.2), x.2)) as Ex.
  { transitivity (x.1, x.2); [apply surjective_pairing|]. by rewrite <- (surjective_pairing x.1). }
  destruct (worker_round_outcome (answers (ProcessingResult.Success 0 10 None)) None sim_worker false fresh_worker one_unit
    u claimed.2 (ProcessingResult.Success 0 10 None) claimed.2 _ _ _ sim_client_ok ltac:(done) eq_refl fresh_ok eq_refl eq_refl
    queued_one_wf Eu eq_refl Hready eq_refl Ex) as (_ & (t & Ht) & Ha).
  exists t, u. rewrite <- Ekey. split; [exact Ht|exact Ha].
Defined.

End Witnesses.
