(* ===== verification/Executor.v ===== *)
(** * The pipeline executor

    crates/roboflow-executor: stages with dependencies are put into an order when a
    pipeline is built (pipeline.rs), and run in waves, by a scheduler that takes a
    slot for each task (scheduler.rs, resource.rs) or by an executor that spawns the
    tasks of a wave (executor.rs).  pipeline_executor.rs runs frames through a
    transformer and a processor, under one of the policies of policy/.

    Tasks, transformers and processors are parameters: traits that other crates
    implement.  The order in which a hash map is iterated is a parameter too.  A
    [Vec] that is only pushed to and popped from is kept with its end first. *)
From Stdlib Require Import QArith.
From S2P Require Import Prelude.
From stdpp Require Import pretty.
#[local] Open Scope Z_scope.

Abbreviation StageId := Z (only parsing).
Abbreviation PartitionId := Z (only parsing).
Abbreviation TaskId := Z (only parsing).

(** [HashMap] iteration: some order of the entries. *)
Class IterOrder := {
  iter : forall {A : Type}, gmap Z A -> list (Z * A);
  iter_perm : forall A (m : gmap Z A), iter m ≡ₚ map_to_list m }.

Definition unwrap_None {E A} : result E A := Panic "called `Option::unwrap()` on a `None` value".

Module TaskStatus.
Inductive t := Success | Failed | Cancelled.
End TaskStatus.

(** Without its metrics. *)
Module TaskResult.
Record t := mk { outputs : list string; status : TaskStatus.t }.
End TaskResult.

Module TaskContext.
Record t := mk { task_id : TaskId; stage_id : StageId; partition : PartitionId }.
End TaskContext.

(** [dyn Stage]; [run] is [create_task] for a partition and [execute] in a context.  Tasks are
    documented to be deterministic. *)
Module Stage.
Record t := mk {
  id : StageId;
  name : string;
  partition_count : Z;
  dependencies : list StageId;
  run : PartitionId -> TaskContext.t -> result string TaskResult.t }.
End Stage.

Module PipelineError.
Inductive t :=
| DuplicateStage (id : StageId)
| CyclicDependency
| InvalidDependency (dependent dependency : StageId).

Definition stage_text (id : StageId) : string := "Stage(" +:+ pretty id +:+ ")".
Definition to_string (e : t) : string :=
  match e with
  | DuplicateStage id => "duplicate stage ID: " +:+ stage_text id
  | CyclicDependency => "cyclic dependency detected"
  | InvalidDependency a b =>
      "invalid dependency: stage " +:+ stage_text a +:+ " depends on non-existent stage " +:+ stage_text b
  end.
End PipelineError.

Module Pipeline.
Record t := mk {
  stages : gmap Z Stage.t;
  dependencies : gmap Z (list StageId);
  topological_order : list StageId }.

Definition empty : t := mk ∅ ∅ [].
Definition get_stage (p : t) (id : StageId) : option Stage.t := stages p !! id.

Section Iter.
Context `{IterOrder}.

Definition ready_stages (p : t) (completed : gset Z) : list StageId :=
  List.filter (fun id =>
    if decide (id ∈ completed) then false
    else match dependencies p !! id with
         | Some deps => forallb (fun dep => bool_decide (dep ∈ completed)) deps
         | None => true
         end) (iter (stages p)).*1.

(** The loop that counts incoming edges. *)
Fixpoint count_deps (stages : gmap Z Stage.t) (stage_id : StageId) (deps : list StageId) (in_degree : gmap Z Z)
  : result PipelineError.t (gmap Z Z) :=
  match deps with
  | [] => Ok in_degree
  | dep :: deps' =>
      match stages !! dep with
      | Some _ =>
          match in_degree !! stage_id with
          | None => unwrap_None
          | Some n => count_deps stages stage_id deps' (<[stage_id := u64_add n 1]> in_degree)
          end
      | None => count_deps stages stage_id deps' in_degree
      end
  end.

Fixpoint count_edges (stages : gmap Z Stage.t) (l : list (Z * list StageId)) (in_degree : gmap Z Z)
  : result PipelineError.t (gmap Z Z) :=
  match l with
  | [] => Ok in_degree
  | (stage_id, deps) :: l' =>
      in_degree ← count_deps stages stage_id deps in_degree; count_edges stages l' in_degree
  end.

(** The loop over the stages that may depend on the one popped. *)
Fixpoint relax (stage_id : StageId) (l : list (Z * list StageId)) (in_degree : gmap Z Z) (queue : list StageId)
  : result PipelineError.t (gmap Z Z * list StageId) :=
  match l with
  | [] => Ok (in_degree, queue)
  | (id, deps) :: l' =>
      if decide (stage_id ∈ deps) then
        match in_degree !! id with
        | None => unwrap_None
        | Some n =>
            let count := as_u64 (n - 1) in
            relax stage_id l' (<[id := count]> in_degree) (if count =? 0 then id :: queue else queue)
        end
      else relax stage_id l' in_degree queue
  end.

(** [while let Some(stage_id) = queue.pop()]; [None] is a loop that is not finished. *)
Fixpoint drain (fuel : nat) (dependencies : gmap Z (list StageId)) (queue : list StageId) (in_degree : gmap Z Z)
    (result_ : list StageId) : option (result PipelineError.t (list StageId)) :=
  match queue with
  | [] => Some (Ok result_)
  | stage_id :: queue' =>
      match fuel with
      | O => None
      | S fuel' =>
          match relax stage_id (iter dependencies) in_degree queue' with
          | Ok (in_degree', queue'') => drain fuel' dependencies queue'' in_degree' (result_ ++ [stage_id])
          | Err e => Some (Err e)
          | Panic m => Some (Panic m)
          end
      end
  end.

Definition compute_topological_order (stages : gmap Z Stage.t) (dependencies : gmap Z (list StageId))
  : option (result PipelineError.t (list StageId)) :=
  match count_edges stages (iter dependencies) ((fun _ => 0) <$> stages) with
  | Err e => Some (Err e)
  | Panic m => Some (Panic m)
  | Ok in_degree =>
      let queue := reverse (List.filter (fun e => e.2 =? 0) (iter in_degree)).*1 in
      match drain (size stages) dependencies queue in_degree [] with
      | Some (Ok result_) =>
          if (length result_ =? size stages)%nat then Some (Ok result_) else Some (Err PipelineError.CyclicDependency)
      | r => r
      end
  end.
End Iter.
End Pipeline.

Module PipelineBuilder.
Record t := mk { stages : list Stage.t; dependencies : list (StageId * StageId) }.

Definition new : t := mk [] [].
Definition stage (s : Stage.t) (b : t) : t := mk (stages b ++ [s]) (dependencies b).
Definition dependency (dependent dependency : StageId) (b : t) : t :=
  mk (stages b) (dependencies b ++ [(dependent, dependency)]).

Fixpoint collect_stages (l : list Stage.t) (stage_map : gmap Z Stage.t) : result PipelineError.t (gmap Z Stage.t) :=
  match l with
  | [] => Ok stage_map
  | s :: l' =>
      match stage_map !! Stage.id s with
      | Some _ => Err (PipelineError.DuplicateStage (Stage.id s))
      | None => collect_stages l' (<[Stage.id s := s]> stage_map)
      end
  end.

Fixpoint collect_dependencies (stage_map : gmap Z Stage.t) (l : list (StageId * StageId)) (dep_map : gmap Z (list StageId))
  : result PipelineError.t (gmap Z (list StageId)) :=
  match l with
  | [] => Ok dep_map
  | (dependent, dependency) :: l' =>
      match stage_map !! dependent, stage_map !! dependency with
      | Some _, Some _ =>
          collect_dependencies stage_map l'
            (<[dependent := default [] (dep_map !! dependent) ++ [dependency]]> dep_map)
      | _, _ => Err (PipelineError.InvalidDependency dependent dependency)
      end
  end.

Definition build `{IterOrder} (b : t) : option (result PipelineError.t Pipeline.t) :=
  match collect_stages (stages b) ∅ with
  | Err e => Some (Err e)
  | Panic m => Some (Panic m)
  | Ok stage_map =>
      match collect_dependencies stage_map (dependencies b) ∅ with
      | Err e => Some (Err e)
      | Panic m => Some (Panic m)
      | Ok dep_map =>
          match Pipeline.compute_topological_order stage_map dep_map with
          | None => None
          | Some (Err e) => Some (Err e)
          | Some (Panic m) => Some (Panic m)
          | Some (Ok order) => Some (Ok (Pipeline.mk stage_map dep_map order))
          end
      end
  end.
End PipelineBuilder.

(** ** Slots

    [f64] quantities are rationals: they are only compared here. *)
Module ResourceRequest.
Record t := mk { cpu_cores : Q; memory_gb : Q; gpu_count : Z }.
Definition default : t := mk (1 # 2) (1 # 2) 0.
Definition new (cpu_cores memory_gb : Q) (gpu_count : Z) : t := mk cpu_cores memory_gb gpu_count.
Definition cpu_only (cores memory_gb : Q) : t := mk cores memory_gb 0.
Definition with_gpu (cores memory_gb : Q) (gpus : Z) : t := mk cores memory_gb gpus.
End ResourceRequest.

Module ResourceCapacity.
Record t := mk { cpu_cores : Q; memory_gb : Q; gpu_count : Z }.
Definition default : t := mk 1 1 0.
Definition new (cpu_cores memory_gb : Q) (gpu_count : Z) : t := mk cpu_cores memory_gb gpu_count.
Definition can_satisfy (c : t) (r : ResourceRequest.t) : bool :=
  Qle_bool (ResourceRequest.cpu_cores r) (cpu_cores c) &&
  Qle_bool (ResourceRequest.memory_gb r) (memory_gb c) &&
  (ResourceRequest.gpu_count r <=? gpu_count c).
End ResourceCapacity.

Module SlotState.
Inductive t := Free | Reserved | Busy | Draining.
#[global] Instance t_eq_dec : EqDecision t.
Proof. solve_decision. Defined.
End SlotState.

Module Slot.
Record t := mk { id : Z; worker_id : Z; state : SlotState.t; task_id : option TaskId; capacity : ResourceCapacity.t }.
#[global] Instance t_eta : Settable t := fun r => mk (id r) (worker_id r) (state r) (task_id r) (capacity r).
Definition is_free (s : t) : bool := bool_decide (state s = SlotState.Free).
End Slot.

(** [releases] are the slots of dropped guards whose release task has not run yet. *)
Module SlotPool.
Record t := mk { slots : list Slot.t; permits : Z; releases : list Z }.
#[global] Instance t_eta : Settable t := fun r => mk (slots r) (permits r) (releases r).

Definition with_capacity (worker_id num_slots : Z) (capacity : ResourceCapacity.t) : t :=
  mk ((fun i => Slot.mk i worker_id SlotState.Free None capacity) <$> seqZ 0 num_slots) num_slots [].
Definition new (worker_id num_slots : Z) : t := with_capacity worker_id num_slots ResourceCapacity.default.

(** The first slot that is free and large enough becomes busy. *)
Fixpoint take_slot (request : ResourceRequest.t) (task : TaskId) (l : list Slot.t) : option (Z * list Slot.t) :=
  match l with
  | [] => None
  | slot :: l' =>
      if Slot.is_free slot && ResourceCapacity.can_satisfy (Slot.capacity slot) request
      then Some (Slot.id slot, slot <| Slot.state := SlotState.Busy |> <| Slot.task_id := Some task |> :: l')
      else match take_slot request task l' with
           | Some (i, l'') => Some (i, slot :: l'')
           | None => None
           end
  end.

(** [None] waits for a permit.  The permit is given back in both cases, and once more when no slot was found. *)
Definition acquire (request : ResourceRequest.t) (task : TaskId) (p : t) : option (option Z * t) :=
  if permits p <=? 0 then None
  else
    let held := permits p - 1 in
    match take_slot request task (slots p) with
    | Some (i, slots') => Some (Some i, p <| slots := slots' |> <| permits := held + 1 |>)
    | None => Some (None, p <| permits := held + 1 + 1 |>)
    end.

Fixpoint free_slot (slot_id : Z) (l : list Slot.t) : list Slot.t :=
  match l with
  | [] => []
  | slot :: l' =>
      if Slot.id slot =? slot_id then slot <| Slot.state := SlotState.Free |> <| Slot.task_id := None |> :: l'
      else slot :: free_slot slot_id l'
  end.
Definition release (slot_id : Z) (p : t) : t :=
  p <| slots := free_slot slot_id (slots p) |> <| permits := permits p + 1 |>.

(** Dropping a guard spawns its release; the runtime runs some of them later. *)
Definition drop_guard (slot_id : Z) (p : t) : t := p <| releases := releases p ++ [slot_id] |>.
Definition run_releases (n : nat) (p : t) : t :=
  foldl (fun p i => release i p) (p <| releases := drop n (releases p) |>) (take n (releases p)).

Definition available (p : t) : Z := Z.of_nat (length (List.filter Slot.is_free (slots p))).
(** When the lock is free. *)
Definition total (p : t) : Z := permits p + Z.of_nat (length (List.filter (fun s => negb (Slot.is_free s)) (slots p))).
End SlotPool.

(** ** The scheduler *)

(** Why an execution ends early: it waits for ever, it is not finished within the fuel, or an error. *)
Inductive halt := Blocked | Unfinished | Failed (msg : string).

(** The tasks that ran, as stage and partition, and how many pending releases the
    runtime runs before each of the next acquisitions (all of them, when nothing is said). *)
Record Run := mkRun { pool : SlotPool.t; trace : list (StageId * PartitionId); schedule : list nat }.
#[global] Instance Run_eta : Settable Run := fun r => mkRun (pool r) (trace r) (schedule r).

Module StageScheduler.
Definition before_acquire (x : Run) : Run :=
  match schedule x with
  | [] => x <| pool := SlotPool.run_releases (length (SlotPool.releases (pool x))) (pool x) |>
  | n :: ns => x <| pool := SlotPool.run_releases n (pool x) |> <| schedule := ns |>
  end.

(** One task: every context says partition 0 and task 0. *)
Definition execute_task (stage : Stage.t) (partition : PartitionId) (x : Run) : result halt TaskResult.t * Run :=
  let x := before_acquire x in
  match SlotPool.acquire ResourceRequest.default 0 (pool x) with
  | None => (Err Blocked, x)
  | Some (None, p) => (Err (Failed "No available slots"), x <| pool := p |>)
  | Some (Some slot, p) =>
      let ctx := TaskContext.mk 0 (Stage.id stage) 0 in
      let x := x <| pool := SlotPool.drop_guard slot p |> <| trace := trace x ++ [(Stage.id stage, partition)] |> in
      match Stage.run stage partition ctx with
      | Ok r => (Ok r, x)
      | Err m => (Err (Failed m), x)
      | Panic m => (Panic m, x)
      end
  end.

Fixpoint execute_tasks (stage : Stage.t) (partitions : list PartitionId) (outputs : list string) (x : Run)
  : result halt (list string) * Run :=
  match partitions with
  | [] => (Ok outputs, x)
  | i :: partitions' =>
      match execute_task stage i x with
      | (Ok r, x') => execute_tasks stage partitions' (outputs ++ TaskResult.outputs r) x'
      | (Err e, x') => (Err e, x')
      | (Panic m, x') => (Panic m, x')
      end
  end.

Definition execute_stage (stage : Stage.t) (x : Run) : result halt (list string) * Run :=
  execute_tasks stage (seqZ 0 (Stage.partition_count stage)) [] x.

Fixpoint execute_ready (p : Pipeline.t) (ready : list StageId) (completed : gset Z)
    (stage_outputs : gmap Z (list string)) (x : Run)
  : result halt (gset Z * gmap Z (list string)) * Run :=
  match ready with
  | [] => (Ok (completed, stage_outputs), x)
  | stage_id :: ready' =>
      match Pipeline.get_stage p stage_id with
      | None => execute_ready p ready' completed stage_outputs x
      | Some stage =>
          match execute_stage stage x with
          | (Ok outputs, x') =>
              execute_ready p ready' ({[stage_id]} ∪ completed) (<[stage_id := outputs]> stage_outputs) x'
          | (Err e, x') => (Err e, x')
          | (Panic m, x') => (Panic m, x')
          end
      end
  end.

Section Iter.
Context `{IterOrder}.

Fixpoint execute_waves (fuel : nat) (p : Pipeline.t) (completed : gset Z) (stage_outputs : gmap Z (list string)) (x : Run)
  : result halt (gmap Z (list string)) * Run :=
  match Pipeline.ready_stages p completed with
  | [] => (Ok stage_outputs, x)
  | ready =>
      match fuel with
      | O => (Err Unfinished, x)
      | S fuel' =>
          match execute_ready p ready completed stage_outputs x with
          | (Ok (completed', stage_outputs'), x') => execute_waves fuel' p completed' stage_outputs' x'
          | (Err e, x') => (Err e, x')
          | (Panic m, x') => (Panic m, x')
          end
      end
  end.

(** Stages that no stage names in its own [dependencies]. *)
Definition terminal (p : Pipeline.t) (id : StageId) : bool :=
  negb (existsb (fun s => bool_decide (id ∈ Stage.dependencies s)) (iter (Pipeline.stages p)).*2).

(** [PipelineResult] is the pair of both kinds of outputs. *)
Definition execute_pipeline (p : Pipeline.t) (x : Run)
  : result halt (gmap Z (list string) * list string) * Run :=
  match execute_waves (size (Pipeline.stages p)) p ∅ ∅ x with
  | (Ok stage_outputs, x') =>
      let final_outputs :=
        List.filter (terminal p) (iter (Pipeline.stages p)).*1 ≫= fun id => default [] (stage_outputs !! id) in
      (Ok (stage_outputs, final_outputs), x')
  | (Err e, x') => (Err e, x')
  | (Panic m, x') => (Panic m, x')
  end.
End Iter.
End StageScheduler.

(** ** The executor that spawns tasks *)
Module StageExecutor.
Record t := mk { max_concurrent : Z; task_id_counter : Z; execute_id_counter : Z }.
#[global] Instance t_eta : Settable t := fun r => mk (max_concurrent r) (task_id_counter r) (execute_id_counter r).

Definition new (max_concurrent : Z) : t := mk max_concurrent 0 0.

(** Without the duration. *)
Record ExecuteResult := mkResult { execute_id : Z; stages_completed : Z; tasks_completed : Z }.

Section Spawn.
(** [Display] of the [JoinError] of a task that panicked. *)
Context (join_error : string -> string).

(** The handles are awaited in order; the tasks have all been spawned before. *)
Fixpoint await_handles (handles : list (result string TaskResult.t)) (task_count : Z) : result halt Z :=
  match handles with
  | [] => Ok task_count
  | Ok _ :: handles' => await_handles handles' (u64_add task_count 1)
  | Err e :: _ => Err (Failed e)
  | Panic m :: _ => Err (Failed ("Task panicked: " +:+ join_error m))
  end.

(** The task of each partition gets the next identifier; a task waits for a permit, of
    which there are [max_concurrent]. *)
Definition execute_stage (stage : Stage.t) (e : t) : result halt Z * t :=
  let partitions := seqZ 0 (Stage.partition_count stage) in
  let handles := (fun i => Stage.run stage i (TaskContext.mk (as_u64 (task_id_counter e + i)) (Stage.id stage) i)) <$> partitions in
  let e' := e <| task_id_counter := as_u64 (task_id_counter e + Stage.partition_count stage) |> in
  if (max_concurrent e =? 0) && (0 <? Stage.partition_count stage) then (Err Blocked, e')
  else (await_handles handles 0, e').

(** [join_all] over the stages of a wave. *)
Fixpoint join_all (p : Pipeline.t) (ready : list StageId) (e : t) : list (result halt Z) * t :=
  match ready with
  | [] => ([], e)
  | stage_id :: ready' =>
      match Pipeline.get_stage p stage_id with
      | Some stage =>
          let '(r, e') := execute_stage stage e in
          let '(rs, e'') := join_all p ready' e' in (r :: rs, e'')
      | None => join_all p ready' e
      end
  end.

Fixpoint collect (results : list (StageId * result halt Z)) (completed : gset Z) (total_tasks : Z)
  : result halt (gset Z * Z) :=
  match results with
  | [] => Ok (completed, total_tasks)
  | (stage_id, Ok task_count) :: results' =>
      collect results' ({[stage_id]} ∪ completed) (u64_add total_tasks task_count)
  | (_, Err e) :: _ => Err e
  | (_, Panic m) :: _ => Panic m
  end.

Context `{IterOrder}.

(** A stage of the wave that never ends keeps [join_all] waiting. *)
Definition is_blocked (r : result halt Z) : bool := match r with Err Blocked => true | _ => false end.

Fixpoint waves (fuel : nat) (p : Pipeline.t) (completed : gset Z) (total_tasks : Z) (e : t)
  : result halt (gset Z * Z) * t :=
  match Pipeline.ready_stages p completed with
  | [] => (Ok (completed, total_tasks), e)
  | ready =>
      match fuel with
      | O => (Err Unfinished, e)
      | S fuel' =>
          let '(results, e') := join_all p ready e in
          if existsb is_blocked results then (Err Blocked, e')
          else
            match collect (zip ready results) completed total_tasks with
            | Ok (completed', total') => waves fuel' p completed' total' e'
            | Err err => (Err err, e')
            | Panic m => (Panic m, e')
            end
      end
  end.

Definition execute (p : Pipeline.t) (e : t) : result halt ExecuteResult * t :=
  let execute_id := execute_id_counter e in
  let e := e <| execute_id_counter := u64_add execute_id 1 |> in
  match waves (size (Pipeline.stages p)) p ∅ 0 e with
  | (Ok (completed, total_tasks), e') => (Ok (mkResult execute_id (Z.of_nat (size completed)) total_tasks), e')
  | (Err err, e') => (Err err, e')
  | (Panic m, e') => (Panic m, e')
  end.
End Spawn.
End StageExecutor.

(** ** Frames under a policy *)

(** [ExecutionPolicy]; rayon's [collect] keeps the order of the items. *)
Class ExecutionPolicy (P : Type) := {
  execute_batch : forall {F R : Type}, P -> list F -> (F -> R) -> list R;
  execute_batch_fallible : forall {F R : Type}, P -> list F -> (F -> result string R) -> list (result string R);
  policy_name : P -> string;
  parallelism : P -> Z }.

Class PolicyLaws (P : Type) `{ExecutionPolicy P} := {
  execute_batch_map : forall F R (p : P) (items : list F) (f : F -> R), execute_batch p items f = f <$> items }.

Module SequentialPolicy.
Inductive t := mk.
#[global] Instance policy : ExecutionPolicy t := {|
  execute_batch := fun _ _ _ items processor => processor <$> items;
  execute_batch_fallible := fun _ _ _ items processor => processor <$> items;
  policy_name := fun _ => "sequential";
  parallelism := fun _ => 1 |}.
#[global] Instance laws : PolicyLaws t.
Proof. by split. Qed.
End SequentialPolicy.

Module ParallelPolicy.
(** [into_par_iter().map(f).collect()] of rayon. *)
Class Rayon := { par_map_collect : forall {F R : Type}, (F -> R) -> list F -> list R }.
Class RayonLaws `{Rayon} := { par_map_ordered : forall F R (f : F -> R) items, par_map_collect f items = f <$> items }.

Record t := mk { num_threads : Z }.
Definition new (num_threads : Z) : result string t :=
  if negb (0 <? num_threads) then Panic "num_threads must be > 0" else Ok (mk num_threads).

#[global] Instance policy `{Rayon} : ExecutionPolicy t := {|
  execute_batch := fun _ _ _ items processor => par_map_collect processor items;
  execute_batch_fallible := fun _ _ _ items processor => par_map_collect processor items;
  policy_name := fun _ => "parallel";
  parallelism := num_threads |}.
#[global] Instance laws `{RayonLaws} : PolicyLaws t.
Proof. split. intros. apply par_map_ordered. Qed.
End ParallelPolicy.

Module FrameForProcessing.
Record t := mk { index : Z; timestamp : Z; episode_index : Z; data : list Z }.
#[global] Instance t_eta : Settable t := fun r => mk (index r) (timestamp r) (episode_index r) (data r).
End FrameForProcessing.

Module ProcessedFrameOutput.
Record t := mk { index : Z; should_write : bool; data : list Z }.
End ProcessedFrameOutput.

(** Without the figures in floating point. *)
Module PipelineExecutorStats.
Record t := mk { frames_processed : Z; frames_written : Z; frames_errored : Z }.
#[global] Instance t_eta : Settable t := fun r => mk (frames_processed r) (frames_written r) (frames_errored r).
Definition default : t := mk 0 0 0.
End PipelineExecutorStats.

Class FrameProcessor (W : Type) := {
  process : FrameForProcessing.t -> W -> result string ProcessedFrameOutput.t * W;
  start_episode_of : Z -> W -> result string unit * W;
  finish_episode_of : W -> result string unit * W;
  finalize_of : W -> result string PipelineExecutorStats.t * W }.

Module NoOpTransformer.
Definition transform (_ : FrameForProcessing.t) : result string (list Z) := Ok [].
End NoOpTransformer.

Module EpisodeStrategy.
Inductive t := Single | GapBased (threshold_ns : Z) | FrameCount (max_frames : Z).
End EpisodeStrategy.

Module PipelineExecutorConfig.
Record t := mk {
  frame_interval_ns : Z;
  max_frames : option Z;
  episode_strategy : EpisodeStrategy.t;
  topic_mappings : gmap string string }.
Definition default : t := mk 33333333 None EpisodeStrategy.Single ∅.
Definition with_fps (fps : Z) : result string t :=
  if fps =? 0 then Panic "attempt to divide by zero"
  else Ok (mk (1000000000 / fps) None EpisodeStrategy.Single ∅).
End PipelineExecutorConfig.

Module PipelineExecutor.
Section Executor.
Context {W P : Type} `{FrameProcessor W} `{ExecutionPolicy P}.

Record t := mk {
  processor : W;
  transformer : FrameForProcessing.t -> result string (list Z);
  config : PipelineExecutorConfig.t;
  policy : P;
  stats : PipelineExecutorStats.t;
  episode_index : Z;
  episode_started : bool }.
#[global] Instance t_eta : Settable t := fun r =>
  mk (processor r) (transformer r) (config r) (policy r) (stats r) (episode_index r) (episode_started r).

Definition with_transformer (w : W) (tr : FrameForProcessing.t -> result string (list Z))
    (cfg : PipelineExecutorConfig.t) (p : P) : t := mk w tr cfg p PipelineExecutorStats.default 0 false.
Definition new (w : W) (cfg : PipelineExecutorConfig.t) (p : P) : t := with_transformer w NoOpTransformer.transform cfg p.

(** A call of the processor. *)
Definition call {A} (f : W -> result string A * W) (e : t) : result string A * t :=
  let '(r, w) := f (processor e) in (r, e <| processor := w |>).

Definition start_episode (index : Z) (e : t) : result string unit * t :=
  let '(r, e) := if episode_started e && negb (episode_index e =? index) then call finish_episode_of e else (Ok tt, e) in
  match r with
  | Ok tt => call (start_episode_of index) (e <| episode_index := index |> <| episode_started := true |>)
  | r => (r, e)
  end.

Definition finish_episode (e : t) : result string unit * t :=
  if episode_started e then
    match call finish_episode_of e with
    | (Ok tt, e') => (Ok tt, e' <| episode_started := false |>)
    | r => r
    end
  else (Ok tt, e).

Definition errored (e : t) : t :=
  e <| stats := stats e <| PipelineExecutorStats.frames_errored := u64_add (PipelineExecutorStats.frames_errored (stats e)) 1 |> |>.

(** The body of the loop over the transformed frames; a panic of the processor unwinds. *)
Definition process_frame (frame : FrameForProcessing.t) (transform_result : result string (list Z)) (e : t)
  : result string unit * t :=
  let e := e <| stats := stats e <| PipelineExecutorStats.frames_processed := u64_add (PipelineExecutorStats.frames_processed (stats e)) 1 |> |> in
  match transform_result with
  | Ok bytes =>
      match call (process (frame <| FrameForProcessing.data := bytes |>)) e with
      | (Ok output, e) =>
          if ProcessedFrameOutput.should_write output then
            (Ok tt, e <| stats := stats e <| PipelineExecutorStats.frames_written := u64_add (PipelineExecutorStats.frames_written (stats e)) 1 |> |>)
          else (Ok tt, e)
      | (Err _, e) => (Ok tt, errored e)
      | (Panic m, e) => (Panic m, e)
      end
  | Err _ => (Ok tt, errored e)
  | Panic m => (Panic m, e)
  end.

Fixpoint process_frames (l : list (FrameForProcessing.t * result string (list Z))) (e : t) : result string unit * t :=
  match l with
  | [] => (Ok tt, e)
  | (frame, r) :: l' =>
      match process_frame frame r e with
      | (Ok tt, e') => process_frames l' e'
      | r => r
      end
  end.

(** A panic of the transformer unwinds before any frame is processed. *)
Fixpoint transform_panic (l : list (FrameForProcessing.t * result string (list Z))) : option string :=
  match l with
  | [] => None
  | (_, Panic m) :: _ => Some m
  | _ :: l' => transform_panic l'
  end.

Definition process_batch (frames : list FrameForProcessing.t) (e : t) : result string unit * t :=
  match (if episode_started e then (Ok tt, e) else start_episode 0 e) with
  | (Ok tt, e) =>
      if match PipelineExecutorConfig.max_frames (config e) with
         | Some max => max <=? PipelineExecutorStats.frames_processed (stats e)
         | None => false
         end then (Ok tt, e)
      else
        let transformed := execute_batch (policy e) frames (fun frame => (frame, transformer e frame)) in
        match transform_panic transformed with
        | Some m => (Panic m, e)
        | None => process_frames transformed e
        end
  | r => r
  end.

Definition finalize (e : t) : result string PipelineExecutorStats.t * t :=
  let '(r, e) := if episode_started e then call finish_episode_of e else (Ok tt, e) in
  match r with
  | Panic m => (Panic m, e)
  | _ => match call finalize_of e with (Ok _, e) => (Ok (stats e), e) | r => r end
  end.

Definition frame_count (e : t) : Z := PipelineExecutorStats.frames_processed (stats e).
End Executor.
Arguments t : clear implicits.
End PipelineExecutor.
