(* ===== verification/ExecutorLaws.v ===== *)
(** * What the pipeline executor guarantees

    [build] puts the stages into an order that respects every dependency, or names
    what is wrong with them; the schedulers run the tasks of a stage after those of
    the stages it depends on, each once, and finish every pipeline that was built. *)
From S2P Require Import Prelude Executor.
#[local] Open Scope Z_scope.

(** ** Dependency graphs *)

(** [x] depends on [y]. *)
Definition depends (deps : gmap Z (list Z)) (x y : Z) : Prop := exists l, deps !! x = Some l /\ y ∈ l.

(** Every element of [l] comes after what it depends on. *)
Definition in_order (deps : gmap Z (list Z)) (l : list Z) : Prop :=
  forall i x, l !! i = Some x -> forall y, depends deps x y -> y ∈ take i l.

Definition cyclic (deps : gmap Z (list Z)) : Prop := exists x, tc (depends deps) x x.

(** A stage names the same dependency twice. *)
Definition repeated (deps : gmap Z (list Z)) : Prop := exists x l, deps !! x = Some l /\ ~ NoDup l.

(** A finite set in which everything has a successor contains a cycle. *)
Lemma finite_cycle (R : Z -> Z -> Prop) (S : gset Z) x :
  x ∈ S -> (forall y, y ∈ S -> exists z, z ∈ S /\ R y z) -> exists y, tc R y y.
Proof.
  intros Hx HS.
  assert (forall n (T : gset Z) x, size (S ∖ T) = n -> x ∈ S -> x ∉ T -> (forall t, t ∈ T -> tc R t x) -> exists y, tc R y y) as H.
  { induction n as [|n IH]; intros T x0 Hn Hx0 HT Hpath.
    - apply size_empty_inv in Hn. set_solver.
    - destruct (HS x0 Hx0) as (z & Hz & Hr). destruct (decide (z = x0)) as [->|]; [exists x0; by apply tc_once|].
      destruct (decide (z ∈ T)) as [HzT|HzT]; [exists z; eapply tc_r; eauto|].
      apply (IH ({[x0]} ∪ T) z).
      + assert (S ∖ T = {[x0]} ∪ (S ∖ ({[x0]} ∪ T))) as E.
        { apply set_eq. intros y. destruct (decide (y = x0)); set_solver. }
        rewrite E, size_union, size_singleton in Hn by set_solver. lia.
      + done.
      + set_solver.
      + intros t [->%elem_of_singleton|Ht]%elem_of_union; [by apply tc_once|]. eapply tc_r; eauto. }
  apply (H (size (S ∖ ∅)) ∅ x); [done|done|set_solver|set_solver].
Qed.

(** ** Counting edges *)
Section Graph.
Context {stages : gmap Z Stage.t} {deps : gmap Z (list Z)}.
(** What [collect_dependencies] checks. *)
Context (Hdom : forall x l, deps !! x = Some l -> is_Some (stages !! x) /\ forall y, y ∈ l -> is_Some (stages !! y)).
Context (Hsmall : forall x l, deps !! x = Some l -> Z.of_nat (length l) < u64_mod).

Lemma depends_stages x y : depends deps x y -> is_Some (stages !! x) /\ is_Some (stages !! y).
Proof using Hdom. clear Hsmall. intros (l & Hl & Hy). destruct (Hdom x l Hl). auto. Qed.

Definition deps_of (x : Z) : list Z := default [] (deps !! x).

Lemma depends_deps_of x y : depends deps x y <-> y ∈ deps_of x.
Proof.
  unfold depends, deps_of. split; [intros (l & -> & ?); done|]. destruct (deps !! x); [eauto|]. intros []%elem_of_nil.
Qed.

(** How many dependencies of [x] are in [done]. *)
Definition seen (done : list Z) (x : Z) : nat := length (filter (fun d => d ∈ deps_of x) done).

Lemma seen_le done x : NoDup done -> (seen done x <= length (deps_of x))%nat.
Proof.
  intros Hn. apply submseteq_length, NoDup_submseteq; [by apply NoDup_filter|].
  intros y [? _]%list_elem_of_filter. done.
Qed.

Lemma seen_all done x : NoDup done -> seen done x = length (deps_of x) ->
  NoDup (deps_of x) /\ forall y, depends deps x y -> y ∈ done.
Proof.
  intros Hn Hl. assert (filter (fun d => d ∈ deps_of x) done ≡ₚ deps_of x) as Hp.
  { apply submseteq_length_Permutation; [|unfold seen in Hl; lia].
    apply NoDup_submseteq; [by apply NoDup_filter|]. intros y [? _]%list_elem_of_filter. done. }
  split; [rewrite <-Hp; by apply NoDup_filter|].
  intros y Hy%depends_deps_of. rewrite <-Hp in Hy. by apply list_elem_of_filter in Hy as [].
Qed.

Lemma seen_snoc done s x : seen (done ++ [s]) x = (seen done x + if decide (s ∈ deps_of x) then 1 else 0)%nat.
Proof.
  unfold seen. rewrite filter_app, length_app. f_equal. rewrite filter_cons. by destruct (decide _).
Qed.

(** Without repetitions, an unmet dependency is an element outside [done]. *)
Lemma seen_lt done x : NoDup (deps_of x) -> (seen done x < length (deps_of x))%nat ->
  exists y, depends deps x y /\ y ∉ done.
Proof.
  intros Hn Hlt. destruct (decide (Forall (fun y => y ∈ done) (deps_of x))) as [Hall|Hex].
  - exfalso. assert (length (deps_of x) <= seen done x)%nat; [|lia].
    apply submseteq_length, NoDup_submseteq; [done|]. intros y Hy. apply list_elem_of_filter. split; [done|].
    rewrite Forall_forall in Hall. auto.
  - apply not_Forall_Exists, Exists_exists in Hex as (y & Hy & Hnot); [|apply _]. exists y.
    split; [by apply depends_deps_of|done].
Qed.

Lemma count_deps_ok x l (m : gmap Z Z) n :
  (forall y, y ∈ l -> is_Some (stages !! y)) -> m !! x = Some n -> 0 <= n -> n + Z.of_nat (length l) < u64_mod ->
  Pipeline.count_deps stages x l m = Ok (<[x := n + Z.of_nat (length l)]> m).
Proof.
  revert m n. induction l as [|y l IH]; intros m n Hy Hm H0 Hlt; cbn.
  - f_equal. replace (n + Z.of_nat 0) with n by lia. by rewrite insert_id.
  - destruct (Hy y ltac:(left)) as [s ->]. rewrite Hm, u64_add_small by (cbn in Hlt; lia).
    rewrite (IH _ (n + 1)); [|intros; apply Hy; by right|apply lookup_insert_eq|lia|cbn in Hlt; lia].
    f_equal. rewrite insert_insert_eq. f_equal. cbn. lia.
Qed.

Lemma count_edges_ok l (m : gmap Z Z) :
  NoDup l.*1 -> (forall x d, (x, d) ∈ l -> deps !! x = Some d) -> (forall x, x ∈ l.*1 -> m !! x = Some 0) ->
  exists m', Pipeline.count_edges stages l m = Ok m' /\
    forall x, m' !! x = if decide (x ∈ l.*1) then Some (Z.of_nat (length (deps_of x))) else m !! x.
Proof.
  revert m. induction l as [|[x d] l IH]; intros m Hn Hl Hm.
  - exists m. split; [done|]. intros x. rewrite decide_False; [done|apply not_elem_of_nil].
  - apply NoDup_cons in Hn as [Hx Hn]. pose proof (Hl x d ltac:(left)) as Hd. cbn -[length].
    rewrite (count_deps_ok x d m 0); [|intros y Hy; by eapply Hdom|apply Hm; left|lia|apply Hsmall in Hd; lia].
    cbn [mbind result_bind].
    destruct (IH (<[x := 0 + Z.of_nat (length d)]> m) Hn) as (m' & E & Hm').
    { intros y e Hy. apply Hl. by right. }
    { intros y Hy. rewrite lookup_insert_ne by (intros ->; done). apply Hm. by right. }
    exists m'. split; [done|]. intros y. rewrite Hm'. destruct (decide (y = x)) as [->|Hne].
    + rewrite decide_False by done. rewrite lookup_insert_eq, decide_True by left. f_equal.
      unfold deps_of. rewrite Hd. cbn. lia.
    + destruct (decide (y ∈ l.*1)); [by rewrite decide_True by by right|].
      rewrite lookup_insert_ne by done. rewrite decide_False; [done|]. cbn. rewrite elem_of_cons. naive_solver.
Qed.

(** A round of the main loop decrements the stages that depend on [s]. *)
Lemma relax_ok s l (m : gmap Z Z) q :
  NoDup l.*1 ->
  (forall x d, (x, d) ∈ l -> s ∈ d -> exists n, m !! x = Some n /\ 1 <= n < u64_mod) ->
  exists m' new, Pipeline.relax s l m q = Ok (m', new ++ q) /\ NoDup new /\
    (forall x, x ∈ new <-> exists d, (x, d) ∈ l /\ s ∈ d /\ m !! x = Some 1) /\
    (forall x, (exists d, (x, d) ∈ l /\ s ∈ d) -> m' !! x = Z.pred <$> m !! x) /\
    (forall x, ~ (exists d, (x, d) ∈ l /\ s ∈ d) -> m' !! x = m !! x).
Proof.
  revert m q. induction l as [|[x d] l IH]; intros m q Hn Hl.
  - exists m, []. split_and!; [done|constructor| |..].
    + intros x. split; [intros []%elem_of_nil|intros (d & []%elem_of_nil & _)].
    + intros x (d & []%elem_of_nil & _).
    + done.
  - apply NoDup_cons in Hn as [Hx Hn]. cbn [Pipeline.relax].
    assert (forall y e, (y, e) ∈ l -> y <> x) as Hne.
    { intros y e Hy ->. apply Hx. apply list_elem_of_fmap. by exists (x, e). }
    destruct (decide (s ∈ d)) as [Hs|Hs].
    + destruct (Hl x d ltac:(left) Hs) as (n & Hm & Hn1). rewrite Hm, as_u64_id by (unfold is_u64; lia).
      destruct (IH (<[x := n - 1]> m) (if n - 1 =? 0 then x :: q else q) Hn) as (m' & new & E & Hnew & Hin & Hdec & Hkeep).
      { intros y e Hy He. rewrite lookup_insert_ne by (symmetry; eauto). eapply Hl; [by right|done]. }
      assert (x ∉ new) as Hxn.
      { intros (e & Hy & _)%Hin. by apply (Hne x e). }
      assert (m' !! x = Some (n - 1)) as Hmx.
      { rewrite Hkeep; [apply lookup_insert_eq|]. intros (e & Hy & _). by apply (Hne x e). }
      exists m', (new ++ if n - 1 =? 0 then [x] else []). split_and!.
      * rewrite E. f_equal. f_equal. destruct (n - 1 =? 0); by rewrite <-?app_assoc, ?app_nil_r.
      * apply NoDup_app. split; [done|]. split; [|destruct (n - 1 =? 0); repeat constructor; set_solver].
        intros y Hy. destruct (n - 1 =? 0); set_solver.
      * intros y. rewrite elem_of_app, Hin. split.
        -- intros [(e & He & Hse & Hy)|Hy].
           ++ exists e. rewrite lookup_insert_ne in Hy by (symmetry; eauto). split_and!; [by right|done|done].
           ++ destruct (Z.eqb_spec (n - 1) 0); [|set_solver]. apply list_elem_of_singleton in Hy as ->. exists d.
              split_and!; [left|done|]. rewrite Hm. f_equal. lia.
        -- intros (e & [[= -> ->]|He]%elem_of_cons & Hse & Hy).
           ++ right. rewrite Hm in Hy. injection Hy as ->. cbn. apply list_elem_of_singleton. done.
           ++ left. exists e. rewrite lookup_insert_ne by (symmetry; eauto). done.
      * intros y (e & [[= -> ->]|He]%elem_of_cons & Hse); [by rewrite Hmx, Hm|].
        rewrite Hdec, lookup_insert_ne by (eauto || (symmetry; eauto)). done.
      * intros y Hy. destruct (decide (y = x)) as [->|Hyx]; [exfalso; apply Hy; exists d; split; [left|done]|].
        rewrite Hkeep, lookup_insert_ne; [done|done|]. intros (e & He & Hse). apply Hy. exists e. split; [by right|done].
    + destruct (IH m q Hn) as (m' & new & E & Hnew & Hin & Hdec & Hkeep).
      { intros y e Hy He. eapply Hl; [by right|done]. }
      assert (forall y, (exists e, (y, e) ∈ (x, d) :: l /\ s ∈ e) <-> exists e, (y, e) ∈ l /\ s ∈ e) as Hiff.
      { intros y. split; [intros (e & [[= -> ->]|He]%elem_of_cons & Hse); [done|eauto]|].
        intros (e & He & Hse). exists e. split; [by right|done]. }
      exists m', new. split_and!; [done|done| | |].
      * intros y. rewrite Hin. split.
        -- intros (e & He & Hse & Hy). exists e. split_and!; [by right|done|done].
        -- intros (e & [[= -> ->]|He]%elem_of_cons & Hse & Hy); [done|eauto].
      * intros y Hy%Hiff. by apply Hdec.
      * intros y Hy. apply Hkeep. by rewrite <-Hiff.
Qed.

Lemma in_order_snoc l s : in_order deps l -> (forall y, depends deps s y -> y ∈ l) -> in_order deps (l ++ [s]).
Proof.
  intros Ho Hs i x Hx y Hy. apply lookup_app_Some in Hx as [Hx|[Hle Hx]].
  - rewrite take_app_le by (apply lookup_lt_Some in Hx; lia). eauto.
  - apply list_lookup_singleton_Some in Hx as [Hi ->]. rewrite take_app_ge by done. apply elem_of_app. left. auto.
Qed.

(** ** The main loop *)
Record drained (done q : list Z) (m : gmap Z Z) : Prop := {
  dr_nodup : NoDup (done ++ q);
  dr_stages : forall x, x ∈ done ++ q -> is_Some (stages !! x);
  dr_degree : forall x, is_Some (stages !! x) -> m !! x = Some (Z.of_nat (length (deps_of x)) - Z.of_nat (seen done x));
  dr_zero : forall x, is_Some (stages !! x) -> (x ∈ done ++ q <-> seen done x = length (deps_of x));
  dr_order : in_order deps done }.

Lemma nodup_stages l : NoDup l -> (forall x, x ∈ l -> is_Some (stages !! x)) -> (length l <= size stages)%nat.
Proof.
  intros Hn Hl. rewrite <-(size_dom (D:=gset Z)), <-(size_list_to_set (C:=gset Z) l Hn).
  apply subseteq_size. intros x Hx%elem_of_list_to_set. by apply elem_of_dom, Hl.
Qed.

Lemma deps_small x : Z.of_nat (length (deps_of x)) < u64_mod.
Proof. unfold deps_of. destruct (deps !! x) eqn:E; [by eapply Hsmall|done]. Qed.

Context `{IterOrder}.

Lemma iter_lookup {A} (m : gmap Z A) x d : (x, d) ∈ iter m <-> m !! x = Some d.
Proof. by rewrite iter_perm, elem_of_map_to_list. Qed.
Lemma iter_NoDup {A} (m : gmap Z A) : NoDup (iter m).*1.
Proof. rewrite iter_perm. apply NoDup_fst_map_to_list. Qed.

Lemma drained_step done s q m : drained done (s :: q) m ->
  exists m' new, Pipeline.relax s (iter deps) m q = Ok (m', new ++ q) /\ drained (done ++ [s]) (new ++ q) m'.
Proof.
  intros [Hn Hst Hdeg Hzero Ho]. apply NoDup_app in Hn as Hn'. destruct Hn' as (Hnd & Hdisj & [Hsq Hnq]%NoDup_cons).
  assert (s ∉ done) as Hsd by (intros Hs; apply (Hdisj s Hs); left).
  assert (NoDup (done ++ [s])) as Hn2.
  { apply NoDup_app. split_and!; [done|intros x Hx ->%list_elem_of_singleton; done|apply NoDup_singleton]. }
  assert (is_Some (stages !! s)) as Hss by (apply Hst, elem_of_app; right; left).
  assert (seen done s = length (deps_of s)) as Hseen by (apply Hzero; [done|apply elem_of_app; right; left]).
  assert (forall x, s ∈ deps_of x <-> exists d, (x, d) ∈ iter deps /\ s ∈ d) as Hin.
  { intros x. rewrite <-depends_deps_of. unfold depends. split; intros (d & Hd & Hs'); exists d; by rewrite iter_lookup in *. }
  assert (forall x, s ∈ deps_of x -> is_Some (stages !! x) /\ (seen done x + 1 <= length (deps_of x))%nat) as Hdep.
  { intros x Hx. split; [apply depends_deps_of in Hx; by apply depends_stages in Hx as []|]. pose proof (seen_le (done ++ [s]) x Hn2) as Hle.
    rewrite seen_snoc, decide_True in Hle; done. }
  destruct (relax_ok s (iter deps) m q (iter_NoDup deps)) as (m' & new & E & Hnew & Hinew & Hdec & Hkeep).
  { intros x d Hd Hs'. assert (s ∈ deps_of x) as Hx by (apply Hin; eauto). destruct (Hdep x Hx) as [Hx1 Hx2].
    eexists. split; [by apply Hdeg|]. pose proof (deps_small x). lia. }
  assert (forall x, x ∈ new <-> s ∈ deps_of x /\ (seen done x + 1 = length (deps_of x))%nat) as Hnew'.
  { intros x. rewrite Hinew. split.
    - intros (d & Hd & Hs' & Hm). assert (s ∈ deps_of x) as Hx by (apply Hin; eauto). split; [done|].
      destruct (Hdep x Hx) as [Hx1 _]. rewrite (Hdeg x Hx1) in Hm. injection Hm as Hm. lia.
    - intros [Hx Hl]. destruct (Hdep x Hx) as [Hx1 _]. apply Hin in Hx as (d & Hd & Hs'). exists d. split_and!; [done..|].
      rewrite (Hdeg x Hx1). f_equal. lia. }
  assert (forall x, x ∈ new -> x ∉ done ++ s :: q) as Hfresh.
  { intros x [Hx Hl]%Hnew' Hold. apply Hzero in Hold; [lia|by apply Hdep]. }
  exists m', new. split; [done|]. split.
  - rewrite <-app_assoc. cbn. rewrite (Permutation_app_comm new q), app_comm_cons, app_assoc.
    apply NoDup_app. split_and!; [done| |done]. intros x Hx Hx'. by apply (Hfresh x Hx').
  - intros x. rewrite !elem_of_app, list_elem_of_singleton. intros [[Hx| ->]|[Hx|Hx]]; [..|].
    + apply Hst, elem_of_app. by left.
    + done.
    + by apply Hdep, Hnew'.
    + apply Hst, elem_of_app. right. by right.
  - intros x Hx. rewrite seen_snoc. destruct (decide (s ∈ deps_of x)) as [Hs'|Hs'].
    + rewrite Hdec by by apply Hin. rewrite (Hdeg x Hx). cbn. f_equal. lia.
    + rewrite Hkeep by by rewrite <-Hin. rewrite (Hdeg x Hx). f_equal. lia.
  - intros x Hx. rewrite seen_snoc, !elem_of_app, list_elem_of_singleton, Hnew'.
    pose proof (Hzero x Hx) as Hz. rewrite elem_of_app, elem_of_cons in Hz.
    destruct (decide (s ∈ deps_of x)) as [Hs'|Hs'].
    + destruct (Hdep x Hs'). split; [|by naive_solver].
      intros [[?|?]|[[? ?]|?]]; [..|]; try lia; assert (seen done x = length (deps_of x)) by tauto; lia.
    + rewrite Nat.add_0_r. tauto.
  - apply in_order_snoc; [done|]. by apply seen_all.
Qed.

Lemma drain_ok fuel done q m :
  drained done q m -> (size stages - length done <= fuel)%nat ->
  exists done' m', Pipeline.drain fuel deps q m done = Some (Ok done') /\ drained done' [] m'.
Proof.
  revert done q m. induction fuel as [|fuel IH]; intros done [|s q] m Hd Hf; [by exists done, m| |by exists done, m|].
  - pose proof (nodup_stages _ (dr_nodup _ _ _ Hd) (dr_stages _ _ _ Hd)) as Hl. rewrite length_app in Hl. cbn in Hl. lia.
  - destruct (drained_step done s q m Hd) as (m' & new & E & Hd'). cbn. rewrite E.
    apply IH; [done|]. rewrite length_app. cbn. lia.
Qed.

Lemma NoDup_filter_fst {A B} (f : A * B -> bool) l : NoDup l.*1 -> NoDup (List.filter f l).*1.
Proof.
  induction l as [|x l IH]; [done|]. cbn. intros [Hx Hn]%NoDup_cons. destruct (f x); [|by apply IH]. cbn.
  apply NoDup_cons. split; [|by apply IH]. intros (y & Ey & Hy)%list_elem_of_fmap. apply Hx, list_elem_of_fmap.
  exists y. split; [done|]. apply list_elem_of_In in Hy. apply filter_In in Hy as [Hy _]. by apply list_elem_of_In.
Qed.

(** ** The order *)
Lemma compute_order :
  exists r, Pipeline.compute_topological_order stages deps = Some r /\
    match r with
    | Ok order => NoDup order /\ (forall x, x ∈ order <-> is_Some (stages !! x)) /\ in_order deps order
    | Err PipelineError.CyclicDependency => cyclic deps \/ repeated deps
    | _ => False
    end.
Proof.
  unfold Pipeline.compute_topological_order.
  destruct (count_edges_ok (iter deps) ((fun _ => 0) <$> stages) (iter_NoDup deps)) as (m & -> & Hm).
  { intros x d. by rewrite iter_lookup. }
  { intros x ([y d] & -> & Hd%iter_lookup)%list_elem_of_fmap. cbn. rewrite lookup_fmap.
    by destruct (Hdom y d Hd) as [[s ->] _]. }
  assert (forall x, m !! x = (fun _ => Z.of_nat (length (deps_of x))) <$> stages !! x) as Hm'.
  { intros x. rewrite Hm, lookup_fmap. destruct (decide (x ∈ (iter deps).*1)) as [Hx|Hx].
    - apply list_elem_of_fmap in Hx as ([y d] & -> & Hd%iter_lookup). cbn. by destruct (Hdom y d Hd) as [[s ->] _].
    - unfold deps_of. destruct (deps !! x) as [d|] eqn:Ed; [|by destruct (stages !! x)].
      exfalso. apply Hx, list_elem_of_fmap. exists (x, d). by rewrite iter_lookup. }
  set (q := reverse _).
  assert (forall x, x ∈ q <-> is_Some (stages !! x) /\ deps_of x = []) as Hq.
  { intros x. unfold q. rewrite elem_of_reverse, list_elem_of_fmap. split.
    - intros ([y n] & -> & Hy%list_elem_of_In). apply filter_In in Hy as [Hy%list_elem_of_In%iter_lookup Hn]. cbn in *.
      rewrite Hm' in Hy. apply fmap_Some in Hy as (s & -> & ->). split; [done|]. apply nil_length_inv. lia.
    - intros [[s Hs] Hnil]. exists (x, 0). split; [done|]. apply list_elem_of_In, filter_In. split; [|done].
      apply list_elem_of_In, iter_lookup. by rewrite Hm', Hs, Hnil. }
  destruct (drain_ok (size stages) [] q m) as (done & m' & -> & [Hn Hst _ Hz Ho]).
  { split.
    - cbn. unfold q. rewrite reverse_Permutation. apply NoDup_filter_fst, iter_NoDup.
    - cbn. intros x Hx. by apply Hq in Hx as [].
    - intros x [s Hs]. rewrite Hm', Hs. cbn. f_equal. lia.
    - intros x Hx. cbn. rewrite Hq. unfold seen. cbn. split; [intros [_ ->]; done|]. intros Hl. split; [done|].
      apply nil_length_inv. lia.
    - intros i x Hi. done. }
  { cbn. lia. }
  rewrite app_nil_r in *. destruct (Nat.eqb_spec (length done) (size stages)) as [Hl|Hl]; (eexists; split; [done|]).
  - split_and!; [done| |done]. intros x. split; [apply Hst|]. intros Hx.
    destruct (decide (x ∈ done)) as [|Hnot]; [done|exfalso].
    assert (length (x :: done) <= size stages)%nat; [|cbn in *; lia].
    apply nodup_stages; [by constructor|]. intros y [->|Hy]%elem_of_cons; [done|by apply Hst].
  - destruct (decide (Forall (fun x => NoDup (deps_of x)) (elements (dom stages)))) as [Hnd|Hnd].
    + left. rewrite Forall_forall in Hnd.
      destruct (decide (dom stages ∖ list_to_set done = ∅)) as [Hemp|[x Hx]%set_choose_L].
      { exfalso. apply Hl. rewrite <-(size_list_to_set (C:=gset Z) done Hn), <-(size_dom (D:=gset Z)).
        f_equal. apply set_eq. intros x. rewrite elem_of_list_to_set, elem_of_dom. split; [apply Hst|].
        intros Hx%elem_of_dom. destruct (decide (x ∈ done)); [done|]. set_solver. }
      apply (finite_cycle _ (dom stages ∖ list_to_set done) x Hx).
      intros y Hy. apply elem_of_difference in Hy as [Hy Hyd]. rewrite elem_of_list_to_set in Hyd.
      destruct (seen_lt done y) as (z & Hz' & Hzd); [by apply Hnd, elem_of_elements| |].
      { pose proof (seen_le done y Hn). apply elem_of_dom in Hy. pose proof (Hz y Hy). assert (seen done y <> length (deps_of y)) by tauto. lia. }
      exists z. split; [|done]. apply elem_of_difference. rewrite elem_of_list_to_set. split; [|done].
      apply elem_of_dom. by apply depends_stages in Hz' as [].
    + right. apply not_Forall_Exists, Exists_exists in Hnd as (x & _ & Hx); [|apply _].
      assert (~ NoDup (deps_of x)) as Hx' by exact Hx. exists x. unfold deps_of in Hx'.
      destruct (deps !! x) as [l|]; [by exists l|]. destruct Hx'. apply NoDup_nil_2.
Qed.
End Graph.

(** ** Building a pipeline *)
Definition ids (b : PipelineBuilder.t) : list Z := Stage.id <$> PipelineBuilder.stages b.
(** [x] occurs at two places of [l]. *)
Definition twice {A} (x : A) (l : list A) : Prop := exists l1 l2 l3, l = l1 ++ x :: l2 ++ x :: l3.

Lemma twice_here {A} (x : A) l : x ∈ l -> twice x (x :: l).
Proof. intros (l1&l2&->)%list_elem_of_split. by exists [], l1, l2. Qed.

Lemma twice_cons {A} (x y : A) l : twice x l -> twice x (y :: l).
Proof. intros (l1&l2&l3&->). by exists (y :: l1), l2, l3. Qed.

Lemma collect_stages_spec l (m : gmap Z Stage.t) :
  match PipelineBuilder.collect_stages l m with
  | Ok m' =>
      (forall s, s ∈ l -> m' !! Stage.id s = Some s) /\ (forall x s, m !! x = Some s -> m' !! x = Some s) /\
      (forall x s, m' !! x = Some s -> m !! x = Some s \/ Stage.id s = x) /\
      (forall x, is_Some (m' !! x) <-> is_Some (m !! x) \/ x ∈ Stage.id <$> l)
  | Err (PipelineError.DuplicateStage x) => is_Some (m !! x) /\ x ∈ Stage.id <$> l \/ twice x (Stage.id <$> l)
  | _ => False
  end.
Proof.
  revert m. induction l as [|s l IH]; intros m; cbn [PipelineBuilder.collect_stages].
  - split_and!; [intros s []%elem_of_nil|done|auto|]. intros x. cbn. rewrite elem_of_nil. tauto.
  - destruct (m !! Stage.id s) as [s'|] eqn:Es; [left; split; [done|left]|].
    specialize (IH (<[Stage.id s := s]> m)). destruct (PipelineBuilder.collect_stages l _) as [m'|[x| |]|]; [|..|done|done|done].
    + destruct IH as (Hl & Hk & Ho & Hd). split_and!.
      * intros s' [->|Hs']%elem_of_cons; [apply Hk, lookup_insert_eq|auto].
      * intros x s' Hx. apply Hk. rewrite lookup_insert_ne; [done|congruence].
      * intros x s' Hx. destruct (Ho x s' Hx) as [Hx'|]; [|by right].
        apply lookup_insert_Some in Hx' as [[<- <-]|[_ ?]]; auto.
      * intros x. rewrite Hd, lookup_insert_is_Some. cbn. rewrite elem_of_cons. destruct (decide (Stage.id s = x)); naive_solver.
    + cbn. destruct IH as [[Hx Hin]|Hn]; [|right; by apply twice_cons].
      rewrite lookup_insert_is_Some in Hx. destruct Hx as [<-|[_ Hx]]; [right; by apply twice_here|].
      left. split; [done|by right].
Qed.

Lemma collect_dependencies_spec stages l (m : gmap Z (list Z)) :
  match PipelineBuilder.collect_dependencies stages l m with
  | Ok m' =>
      (forall x, default [] (m' !! x) = default [] (m !! x) ++ (filter (fun e => e.1 = x) l).*2) /\
      (forall x, is_Some (m' !! x) -> is_Some (m !! x) \/ x ∈ l.*1) /\
      (forall x y, (x, y) ∈ l -> is_Some (stages !! x) /\ is_Some (stages !! y))
  | Err (PipelineError.InvalidDependency x y) => (x, y) ∈ l /\ (stages !! x = None \/ stages !! y = None)
  | _ => False
  end.
Proof.
  revert m. induction l as [|[a b] l IH]; intros m; cbn [PipelineBuilder.collect_dependencies].
  - split_and!; [intros x; cbn; by rewrite app_nil_r|auto|intros x y []%elem_of_nil].
  - destruct (stages !! a) eqn:Ea; [|split; [left|by left]]. destruct (stages !! b) eqn:Eb; [|split; [left|by right]].
    specialize (IH (<[a := default [] (m !! a) ++ [b]]> m)).
    destruct (PipelineBuilder.collect_dependencies stages l _) as [m'|[| |x y]|]; [|done|done| |done].
    + destruct IH as (Hm & Hk & Hl). split_and!.
      * intros x. rewrite Hm, filter_cons. destruct (decide (a = x)) as [->|Hne].
        -- rewrite lookup_insert_eq, decide_True by done. cbn. by rewrite <-app_assoc.
        -- rewrite lookup_insert_ne, decide_False by done. done.
      * intros x Hx. destruct (Hk x Hx) as [Hx'|Hx']; [|right; by right].
        rewrite lookup_insert_is_Some in Hx'. destruct Hx' as [<-|[_ ?]]; [right; left|by left].
      * intros x y [[= -> ->]|Hxy]%elem_of_cons; [by rewrite Ea, Eb|auto].
    + destruct IH as [Hin Hnone]. split; [by right|done].
Qed.

Section Build.
Context `{IterOrder}.

(** A pipeline with its stages under their identifiers, and an order of them. *)
Record built (b : PipelineBuilder.t) (p : Pipeline.t) : Prop := {
  bu_get : forall s, s ∈ PipelineBuilder.stages b -> Pipeline.get_stage p (Stage.id s) = Some s;
  bu_id : forall x s, Pipeline.get_stage p x = Some s -> Stage.id s = x;
  bu_ids : forall x, is_Some (Pipeline.get_stage p x) <-> x ∈ ids b;
  bu_deps : forall x y, depends (Pipeline.dependencies p) x y <-> (x, y) ∈ PipelineBuilder.dependencies b;
  bu_deps_ids : forall x y, (x, y) ∈ PipelineBuilder.dependencies b -> x ∈ ids b /\ y ∈ ids b;
  bu_nodup : NoDup (Pipeline.topological_order p);
  bu_order : forall x, x ∈ Pipeline.topological_order p <-> x ∈ ids b;
  bu_in_order : in_order (Pipeline.dependencies p) (Pipeline.topological_order p) }.

Lemma build_spec b :
  Z.of_nat (length (PipelineBuilder.dependencies b)) < u64_mod ->
  exists r, PipelineBuilder.build b = Some r /\
    match r with
    | Ok p => built b p
    | Err (PipelineError.DuplicateStage x) => twice x (ids b)
    | Err (PipelineError.InvalidDependency x y) =>
        (x, y) ∈ PipelineBuilder.dependencies b /\ (x ∉ ids b \/ y ∉ ids b)
    | Err PipelineError.CyclicDependency =>
        (exists x, tc (fun x y => (x, y) ∈ PipelineBuilder.dependencies b) x x) \/ ~ NoDup (PipelineBuilder.dependencies b)
    | Panic _ => False
    end.
Proof.
  intros Hsmall. unfold PipelineBuilder.build.
  pose proof (collect_stages_spec (PipelineBuilder.stages b) ∅) as Hs.
  destruct (PipelineBuilder.collect_stages _ ∅) as [m|[x| |]|]; [|..|done|done|done].
  2: { eexists. split; [done|]. destruct Hs as [[[? Hx] _]|Hs]; [by rewrite lookup_empty in Hx|done]. }
  destruct Hs as (Hget & _ & Hor & Hids).
  assert (forall x, is_Some (m !! x) <-> x ∈ ids b) as Hids'.
  { intros x. rewrite Hids, lookup_empty. split; [intros [[? ?]|?]; done|auto]. }
  pose proof (collect_dependencies_spec m (PipelineBuilder.dependencies b) ∅) as Hd.
  destruct (PipelineBuilder.collect_dependencies _ _ ∅) as [d|[| |x y]|]; [|done|done| |done].
  2: { eexists. split; [done|]. destruct Hd as [Hin Hnone]. split; [done|]. rewrite <-!Hids', <-!eq_None_not_Some. done. }
  destruct Hd as (Hdeps & Hkeys & Hstages).
  assert (forall x, default [] (d !! x) = (filter (fun e => e.1 = x) (PipelineBuilder.dependencies b)).*2) as Hdeps'.
  { intros x. by rewrite Hdeps, lookup_empty. }
  assert (forall x y, depends d x y <-> (x, y) ∈ PipelineBuilder.dependencies b) as Hedge.
  { intros x y. rewrite depends_deps_of. unfold deps_of. rewrite Hdeps', list_elem_of_fmap. split.
    - intros ([a c] & -> & [<- Hin]%list_elem_of_filter). done.
    - intros Hin. exists (x, y). by rewrite list_elem_of_filter. }
  edestruct (compute_order (stages := m) (deps := d)) as (r & -> & Hr).
  { intros x l Hl. destruct (Hkeys x) as [[? Hx]|([a c] & -> & Hin)%list_elem_of_fmap]; [by rewrite Hl|by rewrite lookup_empty in Hx|].
    split; [by apply (Hstages a c)|]. intros y Hy. apply (Hstages a y), Hedge. by exists l. }
  { intros x l Hl. eapply Z.le_lt_trans; [|exact Hsmall]. apply inj_le.
    specialize (Hdeps' x). rewrite Hl in Hdeps'. cbn in Hdeps'. rewrite Hdeps', length_fmap. apply length_filter. }
  destruct r as [order|[| |]|]; [|done| |done|done]; (eexists; split; [done|]).
  - destruct Hr as (Hn & Hin & Ho). split; [done| |done|done| |done| |done].
    + intros x s Hx. destruct (Hor x s Hx) as [Hx'|]; [by rewrite lookup_empty in Hx'|done].
    + intros x y Hxy. rewrite <-!Hids'. by apply Hstages.
    + intros x. by rewrite Hin, Hids'.
  - destruct Hr as [[x Hx]|(x & l & Hl & Hn)].
    + left. exists x. refine (tc_congruence id _ x x _ Hx). intros y z. apply Hedge.
    + right. intros Hnb. apply Hn. specialize (Hdeps' x). rewrite Hl in Hdeps'. cbn in Hdeps'. rewrite Hdeps'.
      apply NoDup_fmap_2_strong; [|by apply NoDup_filter].
      intros [a c] [a' c'] [<- _]%list_elem_of_filter [E _]%list_elem_of_filter. cbn in *. congruence.
Qed.

(** C19: what [build] does, for fewer than 2^64 dependencies.  It ends without panicking.  A pipeline it
    returns holds the stages and the dependencies given, and its order lists every stage once, after
    everything it depends on.  An error names an identifier that two of the stages given have, or a
    dependency given of which one of the two named stages was not given, or says that the
    dependencies are cyclic, and then there is a cycle or a dependency given twice. *)
Theorem build_outcome b :
  Z.of_nat (length (PipelineBuilder.dependencies b)) < u64_mod ->
  exists r, PipelineBuilder.build b = Some r /\
    match r with
    | Ok p =>
        (forall s, s ∈ PipelineBuilder.stages b -> Pipeline.get_stage p (Stage.id s) = Some s) /\
        (forall x y, depends (Pipeline.dependencies p) x y <-> (x, y) ∈ PipelineBuilder.dependencies b) /\
        NoDup (Pipeline.topological_order p) /\ (forall x, x ∈ Pipeline.topological_order p <-> x ∈ ids b) /\
        in_order (Pipeline.dependencies p) (Pipeline.topological_order p)
    | Err (PipelineError.DuplicateStage x) => twice x (ids b)
    | Err (PipelineError.InvalidDependency x y) =>
        (x, y) ∈ PipelineBuilder.dependencies b /\ (x ∉ ids b \/ y ∉ ids b)
    | Err PipelineError.CyclicDependency =>
        (exists x, tc (fun x y => (x, y) ∈ PipelineBuilder.dependencies b) x x) \/ ~ NoDup (PipelineBuilder.dependencies b)
    | Panic _ => False
    end.
Proof.
  intros Hsmall. destruct (build_spec b Hsmall) as ([p|[| |]|] & -> & Hr); (eexists; split; [done|]); [|done..].
  by destruct Hr.
Qed.
End Build.

(** ** Waves *)
Section Waves.
Context `{IterOrder} {b : PipelineBuilder.t} {p : Pipeline.t} (Hb : built b p).

Lemma ready_iff completed x :
  x ∈ Pipeline.ready_stages p completed <->
  x ∈ ids b /\ (x ∉ completed) /\ forall y, depends (Pipeline.dependencies p) x y -> y ∈ completed.
Proof.
  unfold Pipeline.ready_stages. rewrite list_elem_of_In, filter_In, <-list_elem_of_In, list_elem_of_fmap.
  rewrite <-(bu_ids _ _ Hb). unfold Pipeline.get_stage.
  assert ((exists e, x = e.1 /\ e ∈ iter (Pipeline.stages p)) <-> is_Some (Pipeline.stages p !! x)) as ->.
  { split; [intros ([y s] & -> & Hy%iter_lookup); by exists s|]. intros [s Hs]. exists (x, s). by rewrite iter_lookup. }
  destruct (decide (x ∈ completed)) as [Hx|Hx]; [naive_solver|].
  unfold depends. destruct (Pipeline.dependencies p !! x) as [d|].
  - rewrite forallb_forall. setoid_rewrite bool_decide_eq_true. setoid_rewrite <-list_elem_of_In. naive_solver.
  - naive_solver.
Qed.

Lemma ready_NoDup completed : NoDup (Pipeline.ready_stages p completed).
Proof. unfold Pipeline.ready_stages. apply NoDup_ListNoDup, List.NoDup_filter, NoDup_ListNoDup, iter_NoDup. Qed.

(** As long as a stage is missing, one is ready. *)
Lemma ready_progress completed : Pipeline.ready_stages p completed = [] -> forall x, x ∈ ids b -> x ∈ completed.
Proof.
  intros Hr x Hx. apply (bu_order _ _ Hb), list_elem_of_lookup in Hx as [i Hi]. revert i x Hi.
  induction i as [i IH] using lt_wf_ind. intros x Hi. destruct (decide (x ∈ completed)) as [|Hn]; [done|exfalso].
  assert (x ∈ Pipeline.ready_stages p completed) as Hin; [|rewrite Hr in Hin; by apply elem_of_nil in Hin].
  apply ready_iff. split_and!; [apply (bu_order _ _ Hb); by eapply list_elem_of_lookup_2|done|].
  intros y Hy. pose proof (bu_in_order _ _ Hb i x Hi y Hy) as Hin.
  apply list_elem_of_lookup in Hin as [j Hj]. apply lookup_take_Some in Hj as [Hj Hlt]. eauto.
Qed.

(** The stages completed so far, in the order of their completion. *)
Record history (done : list Z) (completed : gset Z) : Prop := {
  hi_nodup : NoDup done;
  hi_ids : forall x, x ∈ done -> x ∈ ids b;
  hi_order : in_order (Pipeline.dependencies p) done;
  hi_completed : completed = list_to_set done }.

Lemma history_nil : history [] ∅.
Proof. split; [constructor|intros x []%elem_of_nil|intros i x Hi; done|done]. Qed.

Lemma history_snoc done completed s :
  history done completed -> s ∈ ids b -> s ∉ done -> (forall y, depends (Pipeline.dependencies p) s y -> y ∈ done) ->
  history (done ++ [s]) ({[s]} ∪ completed).
Proof.
  intros [Hn Hi Ho ->] Hs Hnot Hd. split.
  - apply NoDup_app. split_and!; [done|intros x Hx ->%list_elem_of_singleton; done|apply NoDup_singleton].
  - intros x [Hx| ->%list_elem_of_singleton]%elem_of_app; auto.
  - by apply in_order_snoc.
  - rewrite list_to_set_app_L. cbn. set_solver.
Qed.

Lemma history_all done completed : history done completed -> Pipeline.ready_stages p completed = [] ->
  forall x, x ∈ done <-> x ∈ ids b.
Proof.
  intros Hh Hr x. split; [apply Hh|]. intros Hx. pose proof (ready_progress completed Hr x Hx) as Hc.
  rewrite (hi_completed _ _ Hh) in Hc. by apply elem_of_list_to_set in Hc.
Qed.

Lemma ids_nodup_size l : NoDup l -> (forall x, x ∈ l -> x ∈ ids b) -> (length l <= size (Pipeline.stages p))%nat.
Proof.
  intros Hn Hl. apply nodup_stages; [done|]. intros x Hx. by apply (bu_ids _ _ Hb), Hl.
Qed.
End Waves.

(** ** The scheduler *)

(** The tasks of a stage, as the scheduler runs them. *)
Definition tasks (s : Stage.t) : list (Z * Z) := (fun i => (Stage.id s, i)) <$> seqZ 0 (Stage.partition_count s).
Definition tasks_of (p : Pipeline.t) (x : Z) : list (Z * Z) :=
  match Pipeline.get_stage p x with Some s => tasks s | None => [] end.

(** [out] are the outputs of the tasks of [s], in the order of the partitions. *)
Definition stage_output (s : Stage.t) (out : list string) : Prop :=
  exists rs, Forall2 (fun i r => Stage.run s i (TaskContext.mk 0 (Stage.id s) 0) = Ok r) (seqZ 0 (Stage.partition_count s)) rs /\
    out = concat (TaskResult.outputs <$> rs).

Lemma execute_task_spec s i x r x' :
  StageScheduler.execute_task s i x = (r, x') ->
  match r with
  | Ok res => trace x' = trace x ++ [(Stage.id s, i)] /\ Stage.run s i (TaskContext.mk 0 (Stage.id s) 0) = Ok res
  | Err Unfinished => False
  | _ => trace x' = trace x \/ trace x' = trace x ++ [(Stage.id s, i)]
  end.
Proof.
  unfold StageScheduler.execute_task.
  assert (trace (StageScheduler.before_acquire x) = trace x) as Et by (unfold StageScheduler.before_acquire; by destruct (schedule x)).
  destruct (SlotPool.acquire _ _ _) as [[[slot|] q]|].
  - destruct (Stage.run s i _) as [res|m|m]; intros [= <- <-]; cbn; rewrite Et; auto.
  - intros [= <- <-]. cbn. auto.
  - intros [= <- <-]. auto.
Qed.

Lemma execute_tasks_spec s l out x r x' :
  StageScheduler.execute_tasks s l out x = (r, x') ->
  match r with
  | Ok out' => trace x' = trace x ++ ((fun i => (Stage.id s, i)) <$> l) /\
      exists rs, Forall2 (fun i r => Stage.run s i (TaskContext.mk 0 (Stage.id s) 0) = Ok r) l rs /\
        out' = out ++ concat (TaskResult.outputs <$> rs)
  | Err Unfinished => False
  | _ => exists l1, l1 `prefix_of` l /\ trace x' = trace x ++ ((fun i => (Stage.id s, i)) <$> l1)
  end.
Proof.
  revert out x. induction l as [|i l IH]; intros out x; cbn [StageScheduler.execute_tasks].
  - intros [= <- <-]. cbn. rewrite app_nil_r. split; [done|]. exists []. cbn. by rewrite app_nil_r.
  - destruct (StageScheduler.execute_task s i x) as [r1 x1] eqn:E1. apply execute_task_spec in E1.
    assert (forall t : list (Z * Z), t = trace x \/ t = trace x ++ [(Stage.id s, i)] ->
      exists l1, l1 `prefix_of` i :: l /\ t = trace x ++ ((fun i => (Stage.id s, i)) <$> l1)) as Hpre.
    { intros t [-> | ->]; [exists []; split; [apply prefix_nil|by rewrite app_nil_r]|].
      exists [i]. split; [apply prefix_cons, prefix_nil|done]. }
    destruct r1 as [res|[| |m]|m]; [|intros [= <- <-]; by eauto|done|intros [= <- <-]; by eauto|intros [= <- <-]; by eauto].
    destruct E1 as [Et Er]. intros E%IH. rewrite Et in E.
    destruct r as [out'|[| |m]|m]; [|..|done| |].
    + destruct E as (Ht & rs & Hrs & ->). split; [by rewrite Ht, <-app_assoc|].
      exists (res :: rs). split; [by constructor|]. cbn. by rewrite <-app_assoc.
    + destruct E as (l1 & Hl1 & Ht). exists (i :: l1). split; [by apply prefix_cons|]. by rewrite Ht, <-app_assoc.
    + destruct E as (l1 & Hl1 & Ht). exists (i :: l1). split; [by apply prefix_cons|]. by rewrite Ht, <-app_assoc.
    + destruct E as (l1 & Hl1 & Ht). exists (i :: l1). split; [by apply prefix_cons|]. by rewrite Ht, <-app_assoc.
Qed.

Section Scheduler.
Context `{IterOrder} {b : PipelineBuilder.t} {p : Pipeline.t} (Hb : built b p).

(** What a run has done when the stages [done] are complete. *)
Record ran (t0 : list (Z * Z)) (done : list Z) (completed : gset Z) (outs : gmap Z (list string)) (x : Run) : Prop := {
  ra_history : history (b := b) (p := p) done completed;
  ra_trace : trace x = t0 ++ (done ≫= tasks_of p);
  ra_outs : forall s, s ∈ done -> exists st out, Pipeline.get_stage p s = Some st /\ outs !! s = Some out /\ stage_output st out }.

(** A run that stopped inside a stage that was ready. *)
Definition stopped (t0 : list (Z * Z)) (x : Run) : Prop :=
  exists done rest s, NoDup done /\ in_order (Pipeline.dependencies p) done /\
    trace x = t0 ++ (done ≫= tasks_of p) ++ rest /\ s ∈ ids b /\ (s ∉ done) /\
    (forall y, depends (Pipeline.dependencies p) s y -> y ∈ done) /\ rest `prefix_of` tasks_of p s.

Lemma execute_ready_spec t0 ready done completed outs x r x' :
  ran t0 done completed outs x -> NoDup ready ->
  (forall s, s ∈ ready -> s ∈ ids b /\ (s ∉ done) /\ forall y, depends (Pipeline.dependencies p) s y -> y ∈ done) ->
  StageScheduler.execute_ready p ready completed outs x = (r, x') ->
  match r with
  | Ok (completed', outs') => ran t0 (done ++ ready) completed' outs' x'
  | Err Unfinished => False
  | _ => stopped t0 x'
  end.
Proof.
  revert done completed outs x. induction ready as [|s ready IH]; intros done completed outs x Hran Hn Hr; cbn [StageScheduler.execute_ready].
  - intros [= <- <-]. by rewrite app_nil_r.
  - apply NoDup_cons in Hn as [Hs Hn]. destruct (Hr s ltac:(left)) as (Hid & Hsd & Hdep).
    pose proof Hid as Hid'. apply (bu_ids _ _ Hb) in Hid' as [st Est]. rewrite Est.
    destruct Hran as [Hh Ht Ho]. assert (tasks_of p s = tasks st) as Etask by (unfold tasks_of; by rewrite Est).
    destruct (StageScheduler.execute_stage st x) as [r1 x1] eqn:E1. apply execute_tasks_spec in E1.
    assert ((exists l1, l1 `prefix_of` seqZ 0 (Stage.partition_count st) /\ trace x1 = trace x ++ ((fun i => (Stage.id st, i)) <$> l1)) ->
      stopped t0 x1) as Hstop.
    { intros (l1 & [l2 Hl] & Ht1). exists done, ((fun i => (Stage.id st, i)) <$> l1), s.
      split_and!; [apply Hh|apply Hh|by rewrite Ht1, Ht, app_assoc|done|done|done|].
      rewrite Etask. unfold tasks. rewrite Hl, fmap_app. by apply prefix_app_r. }
    destruct r1 as [out|[| |m]|m]; [|intros [= <- <-]; by apply Hstop|done|intros [= <- <-]; by apply Hstop|intros [= <- <-]; by apply Hstop].
    destruct E1 as (Ht1 & rs & Hrs & ->). intros E. replace (done ++ s :: ready) with ((done ++ [s]) ++ ready) by (by rewrite <-app_assoc).
    eapply IH; [|exact Hn| |exact E].
    + split; [by apply history_snoc| |].
      * rewrite Ht1, Ht, bind_app. cbn. rewrite app_nil_r, app_assoc. by rewrite Etask.
      * intros s' [Hs'| ->%list_elem_of_singleton]%elem_of_app.
        -- destruct (Ho s' Hs') as (st' & out & Est' & Eo & Hout). exists st', out. split_and!; [done| |done].
           rewrite lookup_insert_ne; [done|]. intros ->. done.
        -- exists st, (concat (TaskResult.outputs <$> rs)). split_and!; [done|apply lookup_insert_eq|]. by exists rs.
    + intros s' Hs'. destruct (Hr s' ltac:(by right)) as (? & ? & Hd). split_and!; [done| |].
      * rewrite elem_of_app, list_elem_of_singleton. intros [?| ->]; done.
      * intros y Hy. apply elem_of_app. left. auto.
Qed.

Lemma execute_waves_spec t0 fuel done completed outs x r x' :
  ran t0 done completed outs x -> (size (Pipeline.stages p) - length done <= fuel)%nat ->
  StageScheduler.execute_waves fuel p completed outs x = (r, x') ->
  match r with
  | Ok outs' => exists done' completed', ran t0 done' completed' outs' x' /\ (forall s, s ∈ done' <-> s ∈ ids b)
  | Err Unfinished => False
  | _ => stopped t0 x'
  end.
Proof.
  revert done completed outs x. induction fuel as [|fuel IH]; intros done completed outs x Hran Hf; cbn [StageScheduler.execute_waves];
    destruct (Pipeline.ready_stages p completed) as [|s ready] eqn:Er.
  1,3: intros [= <- <-]; exists done, completed; split; [done|]; eapply history_all; [exact Hb|apply Hran|done].
  all: assert (forall s', s' ∈ s :: ready -> s' ∈ ids b /\ (s' ∉ done) /\
         forall y, depends (Pipeline.dependencies p) s' y -> y ∈ done) as Hready by
       (intros s'; rewrite <-Er, (ready_iff Hb), (hi_completed _ _ (ra_history _ _ _ _ _ Hran));
        setoid_rewrite elem_of_list_to_set; done).
  - exfalso. assert (length (s :: done) <= size (Pipeline.stages p))%nat; [|cbn in *; lia].
    destruct (Hready s ltac:(left)) as (Hs & Hsd & _). apply (ids_nodup_size Hb).
    + apply NoDup_cons. split; [done|apply Hran].
    + intros x0 [-> |Hx]%elem_of_cons; [done|by apply (ra_history _ _ _ _ _ Hran)].
  - destruct (StageScheduler.execute_ready p (s :: ready) completed outs x) as [r1 x1] eqn:E1.
    eapply execute_ready_spec in E1; [|exact Hran|rewrite <-Er; apply ready_NoDup|exact Hready].
    destruct r1 as [[completed' outs']|[| |m]|m]; [|by intros [= <- <-]|done|by intros [= <- <-]..].
    intros E. eapply IH; [exact E1| |exact E]. rewrite length_app. cbn. lia.
Qed.
End Scheduler.

Section Pipelines.
Context `{IterOrder}.

Lemma built_pipeline b p :
  Z.of_nat (length (PipelineBuilder.dependencies b)) < u64_mod -> PipelineBuilder.build b = Some (Ok p) -> built b p.
Proof. intros Hs E. destruct (build_spec b Hs) as (r & Er & Hr). rewrite Er in E. by injection E as ->. Qed.

Lemma built_from b p : built b p -> forall x st, Pipeline.get_stage p x = Some st -> st ∈ PipelineBuilder.stages b.
Proof.
  intros Hb x st Hx. pose proof (proj1 (bu_ids _ _ Hb x) ltac:(eauto)) as (st' & -> & Hst)%list_elem_of_fmap.
  rewrite (bu_get _ _ Hb st' Hst) in Hx. by injection Hx as <-.
Qed.

Lemma execute_pipeline_spec b p x r x' : built b p -> StageScheduler.execute_pipeline p x = (r, x') ->
  match r with
  | Ok (outs, _) => exists done completed, ran (b := b) (p := p) (trace x) done completed outs x' /\ (forall s, s ∈ done <-> s ∈ ids b)
  | Err Unfinished => False
  | _ => stopped (b := b) (p := p) (trace x) x'
  end.
Proof.
  intros Hb. unfold StageScheduler.execute_pipeline.
  destruct (StageScheduler.execute_waves _ p ∅ ∅ x) as [r1 x1] eqn:E1.
  apply (execute_waves_spec Hb (trace x) _ []) in E1; [| |cbn; lia].
  2: { split; [apply history_nil|by rewrite app_nil_r|intros s []%elem_of_nil]. }
  destruct r1 as [outs|[| |m]|m]; [|by intros [= <- <-]|done|by intros [= <- <-]..].
  intros [= <- <-]. done.
Qed.

(** C18: the scheduler respects the dependencies.  Whatever the tasks do, however late the slots of finished tasks are
    given back, and with whatever pool: the tasks that have run when
    [execute_pipeline] returns are all the tasks of some stages, one stage after the other, each after the
    stages it depends on and none twice, and then some of the first tasks of one further
    stage, whose dependencies are complete.  When it returns a result, all stages of the
    pipeline are complete and the result holds the outputs of each.  It always ends, but
    for waiting for a slot. *)
Theorem pipeline_respects_dependencies b p x r x' :
  Z.of_nat (length (PipelineBuilder.dependencies b)) < u64_mod -> PipelineBuilder.build b = Some (Ok p) ->
  StageScheduler.execute_pipeline p x = (r, x') ->
  exists done rest, trace x' = trace x ++ (done ≫= tasks_of p) ++ rest /\ NoDup done /\
    in_order (Pipeline.dependencies p) done /\
    match r with
    | Ok (outs, _) => rest = [] /\ (forall s, s ∈ done <-> s ∈ ids b) /\
        forall st, st ∈ PipelineBuilder.stages b -> exists out, outs !! Stage.id st = Some out /\ stage_output st out
    | Err Unfinished => False
    | _ => exists s, s ∈ ids b /\ (s ∉ done) /\ (forall y, depends (Pipeline.dependencies p) s y -> y ∈ done) /\
        rest `prefix_of` tasks_of p s
    end.
Proof.
  intros Hs E Hx. pose proof (built_pipeline b p Hs E) as Hb. apply (execute_pipeline_spec b) in Hx; [|done].
  assert (stopped (b := b) (p := p) (trace x) x' ->
    exists done rest, trace x' = trace x ++ (done ≫= tasks_of p) ++ rest /\ NoDup done /\
      in_order (Pipeline.dependencies p) done /\
      exists s, s ∈ ids b /\ (s ∉ done) /\ (forall y, depends (Pipeline.dependencies p) s y -> y ∈ done) /\
        rest `prefix_of` tasks_of p s) as Hstop by (intros (done & rest & s & ?); exists done, rest; naive_solver).
  destruct r as [[outs fin]|[| |m]|m]; [|by apply Hstop|done|by apply Hstop..].
  destruct Hx as (done & completed & [Hh Ht Ho] & Hall). exists done, [].
  rewrite app_nil_r. split_and!; [done|apply Hh|apply Hh|done|done|].
  intros st Hst. destruct (Ho (Stage.id st)) as (st' & out & Est & Eo & Hout).
  { apply Hall, list_elem_of_fmap. eauto. }
  rewrite (bu_get _ _ Hb st Hst) in Est. injection Est as <-. eauto.
Qed.
End Pipelines.

(** ** Slots given back in time *)

(** A pool with a slot, each of them large enough and free, or about to be released. *)
Record prompt (q : SlotPool.t) : Prop := {
  pr_permits : 0 < SlotPool.permits q;
  pr_slots : SlotPool.slots q <> [];
  pr_ids : NoDup (Slot.id <$> SlotPool.slots q);
  pr_large : forall s, s ∈ SlotPool.slots q -> ResourceCapacity.can_satisfy (Slot.capacity s) ResourceRequest.default = true;
  pr_free : forall s, s ∈ SlotPool.slots q -> Slot.is_free s = true \/ Slot.id s ∈ SlotPool.releases q }.

Lemma free_slot_ids i l : Slot.id <$> SlotPool.free_slot i l = Slot.id <$> l.
Proof. induction l as [|s l IH]; [done|]. cbn. destruct (Slot.id s =? i); [done|]. cbn. by rewrite IH. Qed.

Lemma free_slot_elem i l s : NoDup (Slot.id <$> l) -> s ∈ SlotPool.free_slot i l ->
  exists s0, s0 ∈ l /\ Slot.id s0 = Slot.id s /\ Slot.capacity s0 = Slot.capacity s /\
    (Slot.is_free s0 = true -> Slot.is_free s = true) /\ (Slot.id s = i -> Slot.is_free s = true).
Proof.
  intros Hn Hs. induction l as [|s1 l IH]; [by apply elem_of_nil in Hs|].
  cbn in Hn. apply NoDup_cons in Hn as [H1 Hn]. cbn in Hs. destruct (Z.eqb_spec (Slot.id s1) i) as [<-|Hne].
  - apply elem_of_cons in Hs as [->|Hs]; [exists s1; split_and!; by (left || done)|].
    exists s. split_and!; [by right|done|done|done|]. intros E. destruct H1. rewrite <-E. by apply list_elem_of_fmap_2.
  - apply elem_of_cons in Hs as [->|Hs]; [exists s1; split_and!; by (left || done)|].
    destruct (IH Hn Hs) as (s0 & Hs0 & ?). exists s0. split; [by right|done].
Qed.

Lemma release_prompt i rs q : prompt (q <| SlotPool.releases := i :: rs |>) ->
  prompt (SlotPool.release i (q <| SlotPool.releases := rs |>)).
Proof.
  intros [Hp Hs Hn Hl Hf]. cbn in *. split; cbn.
  - lia.
  - intros E. apply Hs. apply (fmap_nil_inv Slot.id). rewrite <-(free_slot_ids i), E. done.
  - by rewrite free_slot_ids.
  - intros s (s0 & Hs0 & _ & <- & _)%free_slot_elem; auto.
  - intros s (s0 & Hs0 & Eid & _ & Hfr & Hi)%free_slot_elem; [|done].
    destruct (Hf s0 Hs0) as [?|Hin]; [auto|]. rewrite Eid in Hin. apply elem_of_cons in Hin as [?|?]; auto.
Qed.

Lemma run_all_prompt q : prompt q ->
  let q' := SlotPool.run_releases (length (SlotPool.releases q)) q in prompt q' /\ SlotPool.releases q' = [].
Proof.
  intros Hq. unfold SlotPool.run_releases. rewrite firstn_all, drop_all.
  assert (forall rs q, prompt (q <| SlotPool.releases := rs |>) ->
    prompt (foldl (fun p i => SlotPool.release i p) (q <| SlotPool.releases := [] |>) rs) /\
    SlotPool.releases (foldl (fun p i => SlotPool.release i p) (q <| SlotPool.releases := [] |>) rs) = []) as Hf.
  { clear. induction rs as [|i rs IH]; intros q Hq; [done|]. cbn [foldl].
    apply release_prompt in Hq. destruct q as [sl pe re].
    apply (IH (SlotPool.release i (SlotPool.mk sl pe []))). exact Hq. }
  apply Hf. by destruct q.
Qed.

Lemma acquire_prompt q : prompt q -> SlotPool.releases q = [] ->
  exists i q', SlotPool.acquire ResourceRequest.default 0 q = Some (Some i, q') /\ prompt (SlotPool.drop_guard i q').
Proof.
  intros [Hp Hs Hn Hl Hf] Hr. unfold SlotPool.acquire. destruct (Z.leb_spec (SlotPool.permits q) 0); [lia|].
  destruct (SlotPool.slots q) as [|s l] eqn:El; [done|]. cbn [SlotPool.take_slot].
  destruct (Hf s ltac:(left)) as [Hfree|Hin]; [|rewrite Hr in Hin; by apply elem_of_nil in Hin].
  rewrite Hfree, (Hl s ltac:(left)). cbn [andb]. eexists _, _. split; [done|]. split; cbn.
  - lia.
  - done.
  - done.
  - intros s' [->|Hs']%elem_of_cons; [exact (Hl s ltac:(left))|apply Hl; by right].
  - rewrite Hr. intros s' [->|Hs']%elem_of_cons; [right; left|]. destruct (Hf s' ltac:(by right)) as [?|Hin]; [by left|].
    rewrite Hr in Hin. by apply elem_of_nil in Hin.
Qed.

Lemma new_prompt worker_id n : 0 < n -> prompt (SlotPool.new worker_id n).
Proof.
  intros Hn. assert (Slot.id <$> SlotPool.slots (SlotPool.new worker_id n) = seqZ 0 n) as Ei.
  { cbn. rewrite <-list_fmap_compose. apply list_fmap_id. }
  split.
  - done.
  - intros E. rewrite E in Ei. apply (f_equal length) in Ei. rewrite length_seqZ in Ei. cbn in Ei. lia.
  - rewrite Ei. apply NoDup_seqZ.
  - intros s (i & -> & _)%list_elem_of_fmap. done.
  - intros s (i & -> & _)%list_elem_of_fmap. by left.
Qed.

Section Live.
Context `{IterOrder} {b : PipelineBuilder.t} {p : Pipeline.t} (Hb : built b p).
Context (Hrun : forall st i, st ∈ PipelineBuilder.stages b -> 0 <= i < Stage.partition_count st ->
  exists r, Stage.run st i (TaskContext.mk 0 (Stage.id st) 0) = Ok r).
Context (Hfrom : forall x st, Pipeline.get_stage p x = Some st -> st ∈ PipelineBuilder.stages b).

(** Releases run before the next acquisition. *)
Definition timely (x : Run) : Prop := schedule x = [] /\ prompt (pool x).

Lemma execute_tasks_live st l out x :
  (forall i, i ∈ l -> exists r, Stage.run st i (TaskContext.mk 0 (Stage.id st) 0) = Ok r) -> timely x ->
  exists out' x', StageScheduler.execute_tasks st l out x = (Ok out', x') /\ timely x'.
Proof.
  revert out x. induction l as [|i l IH]; intros out x Hl [Hs Hp]; [by exists out, x|].
  destruct (Hl i ltac:(left)) as [r Hr]. destruct (run_all_prompt (pool x) Hp) as [Hq Hre].
  destruct (acquire_prompt _ Hq Hre) as (slot & q & Eq & Hq').
  cbn [StageScheduler.execute_tasks]. unfold StageScheduler.execute_task, StageScheduler.before_acquire.
  rewrite Hs. cbn. rewrite Eq, Hr. apply IH; [|done]. intros j Hj. apply Hl. by right.
Qed.

Lemma execute_ready_live ready completed outs x : timely x ->
  exists r x', StageScheduler.execute_ready p ready completed outs x = (Ok r, x') /\ timely x'.
Proof.
  revert completed outs x. induction ready as [|s ready IH]; intros completed outs x Hx; [by eexists _, _|].
  cbn [StageScheduler.execute_ready]. destruct (Pipeline.get_stage p s) as [st|] eqn:Es; [|by apply IH].
  destruct (execute_tasks_live st (seqZ 0 (Stage.partition_count st)) [] x) as (out & x' & E & Hx'); [|done|].
  { intros i Hi%elem_of_seqZ. apply Hrun; [by eapply Hfrom|lia]. }
  unfold StageScheduler.execute_stage. rewrite E. by apply IH.
Qed.

Lemma execute_waves_live fuel completed outs x : timely x ->
  exists r x', StageScheduler.execute_waves fuel p completed outs x = (r, x') /\ (r = Err Unfinished \/ is_Ok r = true).
Proof.
  revert completed outs x. induction fuel as [|fuel IH]; intros completed outs x Hx; cbn [StageScheduler.execute_waves];
    destruct (Pipeline.ready_stages p completed) as [|s ready]; [by eauto 6..|].
  destruct (execute_ready_live (s :: ready) completed outs x Hx) as ([c o] & x' & -> & Hx'). by apply IH.
Qed.

Lemma timely_completes x : timely x -> is_Ok (StageScheduler.execute_pipeline p x).1 = true.
Proof.
  intros Hx. destruct (StageScheduler.execute_pipeline p x) as [r x'] eqn:E.
  pose proof (execute_pipeline_spec b p x r x' Hb E) as Hspec.
  unfold StageScheduler.execute_pipeline in E.
  destruct (execute_waves_live (size (Pipeline.stages p)) ∅ ∅ x Hx) as (r1 & x1 & E1 & Hr). rewrite E1 in E.
  destruct Hr as [-> | Hok]; [by injection E as <- <-|]. destruct r1; try done. by injection E as <- <-.
Qed.
End Live.

Section Completion.
Context `{IterOrder}.

(** C20: a pipeline completes.  If every task succeeds and the slots of finished tasks are
    given back before the next one is asked for, a pool with at least one slot is enough
    for every pipeline that [build] accepts. *)
Theorem pipeline_completes b p worker_id num_slots tr :
  Z.of_nat (length (PipelineBuilder.dependencies b)) < u64_mod -> PipelineBuilder.build b = Some (Ok p) -> 0 < num_slots ->
  (forall st i, st ∈ PipelineBuilder.stages b -> 0 <= i < Stage.partition_count st ->
    exists r, Stage.run st i (TaskContext.mk 0 (Stage.id st) 0) = Ok r) ->
  exists outs fin x', StageScheduler.execute_pipeline p (mkRun (SlotPool.new worker_id num_slots) tr []) = (Ok (outs, fin), x').
Proof.
  intros Hs E Hn Hrun. pose proof (built_pipeline b p Hs E) as Hb.
  pose proof (timely_completes Hb Hrun) as Hlive.
  specialize (Hlive (built_from b p Hb) (mkRun (SlotPool.new worker_id num_slots) tr [])).
  destruct (StageScheduler.execute_pipeline _ _) as [[[outs fin]| |] x']; [by eexists _, _, _|..];
    (discriminate Hlive; split; [done|by apply new_prompt]).
Qed.
End Completion.

(** ** The semaphore of the pool

    The permit of an acquisition is given back at once, so that the semaphore does not
    count free slots: using a slot adds a permit, and so does finding none. *)
Theorem permits_only_grow request task q i q' :
  SlotPool.acquire request task q = Some (i, q') ->
  match i with
  | Some slot => SlotPool.permits (SlotPool.release slot q') = SlotPool.permits q + 1
  | None => SlotPool.permits q' = SlotPool.permits q + 1 /\ SlotPool.slots q' = SlotPool.slots q
  end.
Proof.
  unfold SlotPool.acquire. destruct (_ <=? _); [done|]. destruct (SlotPool.take_slot _ _ _) as [[slot l]|]; intros [= <- <-]; cbn; lia || (split; [lia|done]).
Qed.

(** ** The spawning executor *)
Section Spawn.
Context (join_error : string -> string) `{IterOrder} {b : PipelineBuilder.t} {p : Pipeline.t} (Hb : built b p).
Context (Hrun : forall x st i ctx, Pipeline.get_stage p x = Some st -> exists r, Stage.run st i ctx = Ok r).
Import StageExecutor.

(** The number of tasks of some stages. *)
Definition task_total (l : list Z) : Z := Z.of_nat (length (l ≫= tasks_of p)).

Lemma task_total_app l1 l2 : task_total (l1 ++ l2) = task_total l1 + task_total l2.
Proof. unfold task_total. rewrite bind_app, length_app. lia. Qed.

Lemma await_handles_ok hs n : Forall (fun h => is_Ok h = true) hs -> 0 <= n -> n + Z.of_nat (length hs) < u64_mod ->
  await_handles join_error hs n = Ok (n + Z.of_nat (length hs)).
Proof.
  intros Hh. revert n. induction Hh as [|h hs Hh _ IH]; intros n H0 Hlt; cbn; [f_equal; lia|].
  destruct h; [|done..]. cbn [length] in Hlt. rewrite u64_add_small, IH by lia. f_equal. lia.
Qed.

Lemma spawn_stage_ok x st e : Pipeline.get_stage p x = Some st -> max_concurrent e <> 0 -> task_total [x] < u64_mod ->
  exists e', execute_stage join_error st e = (Ok (task_total [x]), e') /\ max_concurrent e' = max_concurrent e.
Proof.
  intros Hx Hm Hlt. unfold execute_stage. apply Z.eqb_neq in Hm as ->. cbn [andb].
  eexists (e <| task_id_counter := _ |>). split; [|done]. f_equal.
  assert (task_total [x] = Z.of_nat (length (seqZ 0 (Stage.partition_count st)))) as Et.
  { unfold task_total. cbn. rewrite app_nil_r. unfold tasks_of, tasks. by rewrite Hx, length_fmap. }
  rewrite Et in *. set (hs := _ <$> _). replace (length (seqZ 0 (Stage.partition_count st))) with (length hs) in * by apply length_fmap.
  rewrite await_handles_ok; [f_equal; lia| |lia|lia].
  apply Forall_fmap, Forall_forall. intros i _. cbn.
  destruct (Hrun x st i (TaskContext.mk (as_u64 (task_id_counter e + i)) (Stage.id st) i) Hx) as [r ->]. done.
Qed.

Lemma join_all_ok ready e : (forall x, x ∈ ready -> x ∈ ids b) -> max_concurrent e <> 0 -> task_total ready < u64_mod ->
  exists e', join_all join_error p ready e = ((fun x => Ok (task_total [x])) <$> ready, e') /\ max_concurrent e' = max_concurrent e.
Proof.
  revert e. induction ready as [|x ready IH]; intros e Hr Hm Hlt; [by exists e|].
  pose proof (Hr x ltac:(left)) as [st Hst]%(bu_ids _ _ Hb). cbn [join_all]. rewrite Hst.
  pose proof (task_total_app [x] ready) as Ea. cbn [app] in Ea.
  assert (0 <= task_total [x] /\ 0 <= task_total ready) by (unfold task_total; lia).
  destruct (spawn_stage_ok x st e Hst Hm) as (e1 & -> & Hm1); [lia|].
  destruct (IH e1) as (e2 & -> & Hm2); [intros; apply Hr; by right|congruence|lia|]. exists e2. split; [done|congruence].
Qed.

Lemma collect_ok ready completed n : 0 <= n -> n + task_total ready < u64_mod ->
  collect (zip ready ((fun x => Ok (task_total [x])) <$> ready)) completed n = Ok (list_to_set ready ∪ completed, n + task_total ready).
Proof.
  revert completed n. induction ready as [|x ready IH]; intros completed n H0 Hlt; cbn [fmap list_fmap zip zip_with collect].
  - cbn. f_equal. f_equal; [set_solver|]. unfold task_total. cbn. lia.
  - pose proof (task_total_app [x] ready) as Ea. cbn [app] in Ea.
    assert (0 <= task_total [x] /\ 0 <= task_total ready) by (unfold task_total; lia).
    rewrite u64_add_small, IH by lia. f_equal. f_equal; [set_solver|lia].
Qed.

Lemma history_app done completed ready : history (b := b) (p := p) done completed -> NoDup ready ->
  (forall s, s ∈ ready -> s ∈ ids b /\ (s ∉ done) /\ forall y, depends (Pipeline.dependencies p) s y -> y ∈ done) ->
  history (b := b) (p := p) (done ++ ready) (list_to_set ready ∪ completed).
Proof.
  revert done completed. induction ready as [|s ready IH]; intros done completed Hh Hn Hr.
  - rewrite app_nil_r. cbn. by rewrite union_empty_l_L.
  - apply NoDup_cons in Hn as [Hs Hn]. destruct (Hr s ltac:(left)) as (Hid & Hsd & Hdep).
    replace (done ++ s :: ready) with ((done ++ [s]) ++ ready) by (by rewrite <-app_assoc).
    replace (list_to_set (s :: ready) ∪ completed) with (list_to_set ready ∪ ({[s]} ∪ completed)) by (cbn; set_solver).
    apply IH; [by apply history_snoc|done|]. intros s' Hs'. destruct (Hr s' ltac:(by right)) as (? & ? & Hd).
    split_and!; [done|rewrite elem_of_app, list_elem_of_singleton; intros [?| ->]; done|].
    intros y Hy. apply elem_of_app. left. auto.
Qed.

Lemma waves_ok fuel done completed e :
  history (b := b) (p := p) done completed -> max_concurrent e <> 0 -> (size (Pipeline.stages p) - length done <= fuel)%nat ->
  (forall l, NoDup l -> (forall x, x ∈ l -> x ∈ ids b) -> task_total l < u64_mod) ->
  exists done' completed' e', waves join_error fuel p completed (task_total done) e = (Ok (completed', task_total done'), e') /\
    history (b := b) (p := p) done' completed' /\ (forall x, x ∈ done' <-> x ∈ ids b).
Proof.
  intros Hh Hm Hf Hsmall. revert done completed e Hh Hm Hf.
  induction fuel as [|fuel IH]; intros done completed e Hh Hm Hf; cbn [waves];
    destruct (Pipeline.ready_stages p completed) as [|s ready] eqn:Er.
  1,3: exists done, completed, e; split_and!; [done|done|]; by eapply history_all.
  all: assert (forall s', s' ∈ s :: ready -> s' ∈ ids b /\ (s' ∉ done) /\
         forall y, depends (Pipeline.dependencies p) s' y -> y ∈ done) as Hready by
       (intros s'; rewrite <-Er, (ready_iff Hb), (hi_completed _ _ Hh);
        setoid_rewrite elem_of_list_to_set; done).
  - exfalso. assert (length (s :: done) <= size (Pipeline.stages p))%nat; [|cbn in *; lia].
    destruct (Hready s ltac:(left)) as (Hs & Hsd & _). apply (ids_nodup_size Hb).
    + apply NoDup_cons. split; [done|apply Hh].
    + intros x0 [-> |Hx]%elem_of_cons; [done|by apply Hh].
  - assert (NoDup (s :: ready)) as Hn by (rewrite <-Er; apply ready_NoDup).
    pose proof (history_app done completed (s :: ready) Hh Hn Hready) as Hh'.
    pose proof (Hsmall (done ++ s :: ready) (hi_nodup _ _ Hh') (hi_ids _ _ Hh')) as Hlt. rewrite task_total_app in Hlt.
    assert (0 <= task_total done /\ 0 <= task_total (s :: ready)) by (unfold task_total; lia).
    destruct (join_all_ok (s :: ready) e) as (e' & -> & Hm'); [apply Hready|done|lia|].
    match goal with |- context [existsb is_blocked ?l] => assert (existsb is_blocked l = false) as -> end.
    { apply not_true_iff_false. rewrite existsb_exists. intros (r & (x & -> & _)%list_elem_of_In%list_elem_of_fmap & ?). done. }
    rewrite collect_ok, <-task_total_app by lia.
    destruct (IH (done ++ s :: ready) _ e' Hh') as (d & c & e'' & E & ? & ?); [congruence|rewrite length_app; cbn; lia|].
    by exists d, c, e''.
Qed.

Lemma spawn_completes e : max_concurrent e <> 0 -> task_total (Pipeline.topological_order p) < u64_mod ->
  exists e', execute join_error p e =
    (Ok (mkResult (execute_id_counter e) (Z.of_nat (length (Pipeline.topological_order p))) (task_total (Pipeline.topological_order p))), e').
Proof.
  intros Hm Hlt. unfold execute.
  assert (forall l, NoDup l -> (forall x, x ∈ l -> x ∈ ids b) -> task_total l <= task_total (Pipeline.topological_order p)) as Hle.
  { intros l Hn Hl. assert (l ⊆+ Pipeline.topological_order p) as [k Hk]%submseteq_Permutation.
    { apply NoDup_submseteq; [done|]. intros x Hx. by apply (bu_order _ _ Hb), Hl. }
    unfold task_total. rewrite Hk, bind_app, length_app. lia. }
  destruct (waves_ok (size (Pipeline.stages p)) [] ∅ (e <| execute_id_counter := u64_add (execute_id_counter e) 1 |>))
    as (dn & completed & e' & E & Hh & Hall); [apply history_nil|done|cbn; lia| |].
  { intros l Hn Hl. eapply Z.le_lt_trans; [by apply Hle|done]. }
  change (task_total []) with 0 in E. rewrite E. exists e'. f_equal. f_equal.
  assert (dn ≡ₚ Pipeline.topological_order p) as Hp.
  { apply NoDup_Permutation; [apply Hh|apply (bu_nodup _ _ Hb)|]. intros x. by rewrite Hall, (bu_order _ _ Hb). }
  f_equal; [|unfold task_total; by rewrite Hp].
  rewrite (hi_completed _ _ Hh), size_list_to_set by apply Hh. by rewrite Hp.
Qed.
End Spawn.

Section SpawnTheorem.
Context (join_error : string -> string) `{IterOrder}.

(** The spawning executor completes.  When every task succeeds and the concurrency limit is not zero, every
    pipeline that [build] accepts is executed to the end, and the result counts every stage
    and every task once. *)
Theorem executor_completes b p e :
  Z.of_nat (length (PipelineBuilder.dependencies b)) < u64_mod -> PipelineBuilder.build b = Some (Ok p) ->
  (forall x st i ctx, Pipeline.get_stage p x = Some st -> exists r, Stage.run st i ctx = Ok r) ->
  StageExecutor.max_concurrent e <> 0 -> Z.of_nat (length (Pipeline.topological_order p ≫= tasks_of p)) < u64_mod ->
  exists e', StageExecutor.execute join_error p e =
    (Ok (StageExecutor.mkResult (StageExecutor.execute_id_counter e) (Z.of_nat (length (Pipeline.topological_order p)))
           (Z.of_nat (length (Pipeline.topological_order p ≫= tasks_of p)))), e').
Proof. intros Hs E Hrun Hm Hlt. exact (spawn_completes join_error (built_pipeline b p Hs E) Hrun e Hm Hlt). Qed.
End SpawnTheorem.

(** ** Frames *)
Section Frames.
Context {W : Type} `{FrameProcessor W}.
Import PipelineExecutor.

(** The same executor with another policy. *)
Definition repolicy {P1 P2} (q : P2) (e : t W P1) : t W P2 :=
  mk (processor e) (transformer e) (config e) q (stats e) (episode_index e) (episode_started e).
Definition repolicied {P1 P2 A} (q : P2) (o : result string A * t W P1) : result string A * t W P2 :=
  (o.1, repolicy q o.2).

Lemma call_repolicy {P1 P2 A} (q : P2) (f : W -> result string A * W) (e : t W P1) :
  call f (repolicy q e) = repolicied q (call f e).
Proof. unfold call, repolicied. cbn. by destruct (f (processor e)). Qed.

Lemma start_episode_repolicy {P1 P2} (q : P2) i (e : t W P1) : start_episode i (repolicy q e) = repolicied q (start_episode i e).
Proof.
  unfold start_episode. cbn [repolicy episode_started episode_index].
  destruct (episode_started e && _).
  - rewrite call_repolicy. destruct (call finish_episode_of e) as [[[]|m|m] e1]; [|done..].
    unfold repolicied at 1. cbn [fst snd]. by rewrite <-(call_repolicy q).
  - by rewrite <-(call_repolicy q).
Qed.

Lemma process_frame_repolicy {P1 P2} (q : P2) f r (e : t W P1) : process_frame f r (repolicy q e) = repolicied q (process_frame f r e).
Proof.
  unfold process_frame. destruct r as [bytes|m|m]; [|done..].
  set (e1 := e <| stats := _ |>). change (repolicy q e <| stats := _ |>) with (repolicy q e1). rewrite call_repolicy.
  destruct (call _ e1) as [[out|m|m] e2]; unfold repolicied; cbn [fst snd]; [|done..].
  by destruct (ProcessedFrameOutput.should_write out).
Qed.

Lemma process_frames_repolicy {P1 P2} (q : P2) l (e : t W P1) : process_frames l (repolicy q e) = repolicied q (process_frames l e).
Proof.
  revert e. induction l as [|[f r] l IH]; intros e; [done|]. cbn. rewrite process_frame_repolicy.
  destruct (process_frame f r e) as [[[]|m|m] e1]; [apply IH|done..].
Qed.

(** The policy does not matter: with any two policies that keep the order of the items,
    such as the sequential one and the parallel one, [process_batch] calls the processor alike and ends with the
    same result and the same statistics. *)
Theorem policies_agree {P1 P2 : Type} `{PolicyLaws P1, PolicyLaws P2} (q : P2) frames (e : t W P1) :
  process_batch frames (repolicy q e) =
    ((process_batch frames e).1, repolicy q (process_batch frames e).2).
Proof.
  change ((?a, repolicy q ?b)) with (repolicied q (process_batch frames e)).
  unfold process_batch. rewrite start_episode_repolicy. cbn [repolicy episode_started].
  assert (forall e1 : t W P1,
    (if match PipelineExecutorConfig.max_frames (config (repolicy q e1)) with
        | Some max => max <=? PipelineExecutorStats.frames_processed (stats (repolicy q e1)) | None => false end
     then (Ok tt, repolicy q e1)
     else match transform_panic (execute_batch (policy (repolicy q e1)) frames (fun f => (f, transformer (repolicy q e1) f))) with
          | Some m => (Panic m, repolicy q e1)
          | None => process_frames (execute_batch (policy (repolicy q e1)) frames (fun f => (f, transformer (repolicy q e1) f))) (repolicy q e1)
          end) = repolicied q
    (if match PipelineExecutorConfig.max_frames (config e1) with
        | Some max => max <=? PipelineExecutorStats.frames_processed (stats e1) | None => false end
     then (Ok tt, e1)
     else match transform_panic (execute_batch (policy e1) frames (fun f => (f, transformer e1 f))) with
          | Some m => (Panic m, e1)
          | None => process_frames (execute_batch (policy e1) frames (fun f => (f, transformer e1 f))) e1
          end)) as Hrest.
  { intros e1. rewrite !execute_batch_map. cbn [repolicy config stats transformer].
    destruct (PipelineExecutorConfig.max_frames (config e1)) as [mx|]; [destruct (mx <=? _); [done|]|];
      (destruct (transform_panic _); [done|]; apply process_frames_repolicy). }
  destruct (episode_started e); [apply Hrest|].
  destruct (start_episode 0 e) as [[[]|m|m] e1]; [apply Hrest|done..].
Qed.

(** The no-op transformer erases the frames: without a transformer, what the processor does depends on
    the number of the frames, their times and indices, but not on their data. *)
Theorem noop_transformer_erases_data {P : Type} `{PolicyLaws P} frames (e : t W P) :
  transformer e = NoOpTransformer.transform ->
  process_batch frames e = process_batch ((fun f => f <| FrameForProcessing.data := [] |>) <$> frames) e.
Proof.
  intros Ht. unfold process_batch.
  assert (forall e1 : t W P, transformer e1 = NoOpTransformer.transform ->
    transform_panic (execute_batch (policy e1) frames (fun f => (f, transformer e1 f))) = None /\
    transform_panic (execute_batch (policy e1) ((fun f => f <| FrameForProcessing.data := [] |>) <$> frames) (fun f => (f, transformer e1 f))) = None /\
    process_frames (execute_batch (policy e1) frames (fun f => (f, transformer e1 f))) e1 =
    process_frames (execute_batch (policy e1) ((fun f => f <| FrameForProcessing.data := [] |>) <$> frames) (fun f => (f, transformer e1 f))) e1) as Hall.
  { intros e1 ->. rewrite !execute_batch_map, <-list_fmap_compose. generalize e1. clear e1 Ht.
    set (step := fun f => (f, NoOpTransformer.transform f)). set (erase := step ∘ _).
    induction frames as [|f frames IH]; intros e1; [done|]. destruct (IH e1) as (Hp1 & Hp2 & _). split_and!; [exact Hp1|exact Hp2|].
    change (match process_frame f (Ok []) e1 with (Ok tt, e') => process_frames (step <$> frames) e' | r => r end =
            match process_frame f (Ok []) e1 with (Ok tt, e') => process_frames (erase <$> frames) e' | r => r end).
    destruct (process_frame f _ e1) as [[[]|m|m] e2]; [apply IH|done..]. }
  assert (match (if episode_started e then (Ok tt, e) else start_episode 0 e) with
    | (Ok _, e1) => transformer e1 = NoOpTransformer.transform | _ => True end) as Hkeep.
  { unfold start_episode, call. destruct (episode_started e); [done|]. cbn.
    by destruct (start_episode_of 0 (processor e)) as [[| |] w]. }
  destruct (if episode_started e then _ else _) as [[[]|m|m] e1]; [|done..].
  destruct (match PipelineExecutorConfig.max_frames (config e1) with Some _ => _ | None => _ end); [done|].
  by destruct (Hall e1 Hkeep) as (-> & -> & ?).
Qed.
End Frames.

(** ** Witnesses *)
Section Witnesses.

#[local] Instance map_order : IterOrder := {| iter := fun A m => map_to_list m; iter_perm := fun A m => Permutation_refl _ |}.

(** Four stages in a diamond; stage [2] has two partitions. *)
Definition sim_stage (id partitions : Z) : Stage.t :=
  Stage.mk id "stage" partitions [] (fun _ _ => Ok (TaskResult.mk ["out"] TaskStatus.Success)).
Definition diamond : PipelineBuilder.t :=
  PipelineBuilder.mk [sim_stage 4 1; sim_stage 1 1; sim_stage 2 2; sim_stage 3 1] [(2, 1); (3, 1); (4, 2); (4, 3)].

Definition built_of (b : PipelineBuilder.t) : Pipeline.t :=
  match PipelineBuilder.build b with Some (Ok p) => p | _ => Pipeline.empty end.
Definition fresh_run (slots : Z) (schedule : list nat) : Run := mkRun (SlotPool.new 0 slots) [] schedule.

Lemma diamond_built : PipelineBuilder.build diamond = Some (Ok (built_of diamond)).
Proof. vm_compute. reflexivity. Qed.

Lemma build_outcome_witness :
  in_order (Pipeline.dependencies (built_of diamond)) (Pipeline.topological_order (built_of diamond)).
Proof.
  destruct (build_outcome diamond eq_refl) as (r & E & Hr). rewrite diamond_built in E. injection E as <-. apply Hr.
Defined.

(** A dependency given twice makes an acyclic pipeline cyclic. *)
Example repeated_dependency_rejected :
  PipelineBuilder.build (PipelineBuilder.mk [sim_stage 1 1; sim_stage 2 1] [(2, 1); (2, 1)]) =
    Some (Err PipelineError.CyclicDependency) /\
  is_Ok (default (Err PipelineError.CyclicDependency)
    (PipelineBuilder.build (PipelineBuilder.mk [sim_stage 1 1; sim_stage 2 1] [(2, 1)]))) = true.
Proof. split; vm_compute; reflexivity. Qed.

Lemma pipeline_respects_dependencies_witness :
  exists dn rest, trace (StageScheduler.execute_pipeline (built_of diamond) (fresh_run 1 [])).2 =
    [] ++ (dn ≫= tasks_of (built_of diamond)) ++ rest /\ NoDup dn /\ in_order (Pipeline.dependencies (built_of diamond)) dn.
Proof.
  destruct (StageScheduler.execute_pipeline (built_of diamond) (fresh_run 1 [])) as [r x'] eqn:E.
  destruct (pipeline_respects_dependencies diamond (built_of diamond) (fresh_run 1 []) r x' eq_refl diamond_built E)
    as (dn & rest & Ht & Hn & Ho & _). exists dn, rest. exact (conj Ht (conj Hn Ho)).
Defined.

Lemma pipeline_completes_witness :
  exists outs fin x', StageScheduler.execute_pipeline (built_of diamond) (fresh_run 1 []) = (Ok (outs, fin), x').
Proof.
  apply (pipeline_completes diamond (built_of diamond) 0 1 []); [reflexivity|exact diamond_built|lia|].
  intros st i Hst _. repeat (apply elem_of_cons in Hst as [->|Hst]; [eexists; reflexivity|]). by apply elem_of_nil in Hst.
Defined.

(** With one slot, the second task of a stage finds no slot when the release of the first has not run yet. *)
Example late_release_fails_pipeline :
  (StageScheduler.execute_pipeline (built_of (PipelineBuilder.mk [sim_stage 1 2] [])) (fresh_run 1 [0; 0]%nat)).1 =
    Err (Failed "No available slots").
Proof. vm_compute. reflexivity. Qed.

(** The dependencies given to the builder do not make a stage an inner one: all outputs are final. *)
Example inner_outputs_final :
  match (StageScheduler.execute_pipeline (built_of diamond) (fresh_run 1 [])).1 with
  | Ok (_, fin) => length fin = 5%nat
  | _ => False
  end.
Proof. vm_compute. reflexivity. Qed.

(** A task whose result says that it failed counts as completed. *)
Example failed_status_ignored :
  let failing := Stage.mk 1 "failing" 1 [] (fun _ _ => Ok (TaskResult.mk [] TaskStatus.Failed)) in
  is_Ok (StageScheduler.execute_pipeline (built_of (PipelineBuilder.mk [failing] [])) (fresh_run 1 [])).1 = true /\
  (StageExecutor.execute id (built_of (PipelineBuilder.mk [failing] [])) (StageExecutor.new 1)).1 =
    Ok (StageExecutor.mkResult 0 1 1).
Proof. split; vm_compute; reflexivity. Qed.

Lemma executor_completes_witness :
  exists e', StageExecutor.execute id (built_of diamond) (StageExecutor.new 2) = (Ok (StageExecutor.mkResult 0 4 5), e').
Proof.
  refine (executor_completes id diamond (built_of diamond) (StageExecutor.new 2) eq_refl diamond_built _ _ _).
  - intros x st i ctx Hst.
    pose proof (built_from diamond _ (built_pipeline diamond _ eq_refl diamond_built) x st Hst) as Hin.
    repeat (apply elem_of_cons in Hin as [->|Hin]; [eexists; reflexivity|]). by apply elem_of_nil in Hin.
  - discriminate.
  - vm_compute. reflexivity.
Defined.

(** A processor that keeps the data it is given. *)
#[local] Instance keeper : FrameProcessor (list (list Z)) := {|
  process := fun f w => (Ok (ProcessedFrameOutput.mk (FrameForProcessing.index f) true (FrameForProcessing.data f)),
                         w ++ [FrameForProcessing.data f]);
  start_episode_of := fun _ w => (Ok tt, w);
  finish_episode_of := fun w => (Ok tt, w);
  finalize_of := fun w => (Ok PipelineExecutorStats.default, w) |}.
#[local] Instance threads : ParallelPolicy.Rayon := {| ParallelPolicy.par_map_collect := fun F R f items => f <$> items |}.
#[local] Instance threads_laws : ParallelPolicy.RayonLaws.
Proof. split. reflexivity. Defined.

Definition sim_frames : list FrameForProcessing.t :=
  [FrameForProcessing.mk 0 0 0 [1; 2]; FrameForProcessing.mk 1 5 0 [3]].
Definition sim_executor : PipelineExecutor.t (list (list Z)) SequentialPolicy.t :=
  PipelineExecutor.new [] (PipelineExecutorConfig.mk 33333333 (Some 1) EpisodeStrategy.Single ∅) SequentialPolicy.mk.

Lemma policies_agree_witness :
  PipelineExecutor.process_batch sim_frames (repolicy (ParallelPolicy.mk 4) sim_executor) =
    ((PipelineExecutor.process_batch sim_frames sim_executor).1,
     repolicy (ParallelPolicy.mk 4) (PipelineExecutor.process_batch sim_frames sim_executor).2).
Proof. apply (policies_agree (ParallelPolicy.mk 4) sim_frames sim_executor). Defined.

Lemma noop_transformer_erases_data_witness :
  PipelineExecutor.process_batch sim_frames sim_executor =
  PipelineExecutor.process_batch ((fun f => f <| FrameForProcessing.data := [] |>) <$> sim_frames) sim_executor.
Proof. apply (noop_transformer_erases_data sim_frames sim_executor). reflexivity. Defined.

(** Without a transformer the processor is given two empty frames, although at most one was to be processed. *)
Example frames_arrive_empty :
  PipelineExecutor.processor (PipelineExecutor.process_batch sim_frames sim_executor).2 = [[]; []] /\
  PipelineExecutor.frame_count (PipelineExecutor.process_batch sim_frames sim_executor).2 = 2.
Proof. split; reflexivity. Qed.
End Witnesses.
