(* ===== verification/FramePool.v ===== *)
(** * The frame pool

    crates/roboflow-media/src/video/arena.rs: one allocation is divided into at most 64
    slots of equal size.  A 64-bit mask has a bit for every free slot; threads take
    and return slots by atomic operations on it, without a lock.

    The methods are functions of the pool for a thread that runs alone; [thread_step]
    is one atomic access of a thread, and [pool_step] lets any thread go on.  The
    weak exchange may fail without reason: that is an argument.  So is the address
    the global allocator returns (0 is null). *)
From S2P Require Import Prelude.
#[local] Open Scope Z_scope.

(** [u64::trailing_zeros], [u64::count_ones] and [!] on [u64]. *)
Definition free_slots (mask : Z) : list Z := List.filter (Z.testbit mask) (seqZ 0 64).
Definition trailing_zeros (x : Z) : Z := default 64 (head (free_slots x)).
Definition count_ones (x : Z) : Z := Z.of_nat (length (free_slots x)).
Definition u64_not (x : Z) : Z := Z.lxor u64_max x.

Module FramePoolConfig.
Record t := mk { width : Z; height : Z; bytes_per_pixel : Z; slot_count : Z }.
Definition default : t := mk 640 480 3 64.
Definition slot_size (c : t) : Z := as_u64 (as_u64 (width c * height c) * bytes_per_pixel c).
(** The fields are [u32] values. *)
Definition wf (c : t) : Prop := is_u32 (width c) /\ is_u32 (height c) /\ is_u32 (bytes_per_pixel c) /\ is_u32 (slot_count c).
End FramePoolConfig.

Module FramePoolError.
Inductive t :=
| InvalidConfig (msg : string)
| AllocationFailed (msg : string)
| PoolExhausted.
Definition to_string (e : t) : string :=
  match e with
  | InvalidConfig m => "Invalid pool configuration: " +:+ m
  | AllocationFailed m => "Memory allocation failed: " +:+ m
  | PoolExhausted => "Frame pool exhausted"
  end.
End FramePoolError.

Module OwnedSlot.
Record t := mk { data_ptr : Z; data_size : Z; index : Z; width : Z; height : Z }.
End OwnedSlot.

Module PoolStats.
Record t := mk { slot_count : Z; free_count : Z; used_count : Z; alloc_count : Z; slot_size : Z; width : Z; height : Z }.
End PoolStats.

Module FramePool.
Record t := mk {
  base_ptr : Z;
  layout_size : Z;
  slot_size : Z;
  slot_count : Z;
  width : Z;
  height : Z;
  free_mask : Z;
  in_use : list bool;
  alloc_count : Z }.
#[global] Instance t_eta : Settable t := fun r =>
  mk (base_ptr r) (layout_size r) (slot_size r) (slot_count r) (width r) (height r) (free_mask r) (in_use r) (alloc_count r).

(** [Layout::from_size_align(size, 64)]: the size rounded up must fit into an [isize]. *)
Definition layout_ok (size : Z) : bool := size <=? i64_max - 63.

Definition new (alloc : Z -> Z) (c : FramePoolConfig.t) : result FramePoolError.t t :=
  if (FramePoolConfig.width c =? 0) || (FramePoolConfig.height c =? 0)
  then Err (FramePoolError.InvalidConfig "Width and height must be non-zero")
  else if FramePoolConfig.slot_count c =? 0
  then Err (FramePoolError.InvalidConfig "Slot count must be non-zero")
  else if FramePoolConfig.bytes_per_pixel c =? 0
  then Err (FramePoolError.InvalidConfig "Bytes per pixel must be non-zero")
  else if 64 <? FramePoolConfig.slot_count c
  then Err (FramePoolError.InvalidConfig "Slot count must be <= 64")
  else
    let slot_size := FramePoolConfig.slot_size c in
    let total_size := slot_size * FramePoolConfig.slot_count c in
    if u64_max <? total_size then Err (FramePoolError.InvalidConfig "Total pool size overflow")
    else if negb (layout_ok total_size)
    then Err (FramePoolError.InvalidConfig "invalid parameters to Layout::from_size_align")
    else
      let base_ptr := if total_size =? 0 then 0 else alloc total_size in
      if negb (total_size =? 0) && (base_ptr =? 0)
      then Err (FramePoolError.AllocationFailed "Failed to allocate memory")
      else
        let free_mask := if FramePoolConfig.slot_count c =? 64 then u64_max
                         else Z.shiftl 1 (FramePoolConfig.slot_count c) - 1 in
        Ok (mk base_ptr total_size slot_size (FramePoolConfig.slot_count c) (FramePoolConfig.width c)
              (FramePoolConfig.height c) free_mask
              (replicate (Z.to_nat (FramePoolConfig.slot_count c)) false) 0).

(** ** The atomic accesses *)

(** [free_mask.compare_exchange_weak]. *)
Definition exchange (spurious : bool) (current new : Z) (p : t) : bool * t :=
  if negb spurious && (free_mask p =? current) then (true, p <| free_mask := new |>) else (false, p).
(** [in_use[i].store(b)]; [None] is the panic of an index out of bounds. *)
Definition store_in_use (i : Z) (b : bool) (p : t) : option t :=
  match in_use p !! Z.to_nat i with
  | Some _ => Some (p <| in_use := <[Z.to_nat i := b]> (in_use p) |>)
  | None => None
  end.
Definition count_alloc (p : t) : t := p <| alloc_count := u64_add (alloc_count p) 1 |>.
(** [free_mask.fetch_or(1u64 << i)]. *)
Definition set_free (i : Z) (p : t) : t := p <| free_mask := Z.lor (free_mask p) (Z.shiftl 1 i) |>.
(** The mask without its lowest bit. *)
Definition without_bit (mask i : Z) : Z := Z.land mask (u64_not (Z.shiftl 1 i)).

(** ** The methods *)
Definition out_of_bounds {A} : result string A := Panic "index out of bounds".

Fixpoint acquire_loop (attempts : nat) (spurious : list bool) (p : t) : result string (option Z) * t :=
  match attempts with
  | O => (Ok None, p)
  | S attempts' =>
      let mask := free_mask p in
      let free_bit := trailing_zeros mask in
      if slot_count p <=? free_bit then (Ok None, p)
      else
        match exchange (default false (head spurious)) mask (without_bit mask free_bit) p with
        | (true, p') =>
            match store_in_use free_bit true p' with
            | Some p'' => (Ok (Some free_bit), count_alloc p'')
            | None => (out_of_bounds, p')
            end
        | (false, p') => acquire_loop attempts' (tail spurious) p'
        end
  end.

Definition try_acquire_slot (spurious : list bool) (p : t) : result string (option Z) * t :=
  acquire_loop (Z.to_nat (slot_count p)) spurious p.

Definition slot_ptr (p : t) (i : Z) : Z := base_ptr p + i * slot_size p.

Definition acquire (spurious : list bool) (p : t) : result string (option OwnedSlot.t) * t :=
  match try_acquire_slot spurious p with
  | (Ok None, p') => (Ok None, p')
  | (Ok (Some slot_index), p') =>
      (Ok (Some (OwnedSlot.mk (slot_ptr p slot_index) (slot_size p) slot_index (width p) (height p))), p')
  | (Err e, p') => (Err e, p')
  | (Panic m, p') => (Panic m, p')
  end.

Definition release (index : Z) (p : t) : result string unit * t :=
  if slot_count p <=? index then (Ok tt, p)
  else match store_in_use index false p with
       | Some p' => (Ok tt, set_free index p')
       | None => (out_of_bounds, p)
       end.

Definition free_count (p : t) : Z := count_ones (free_mask p).
Definition used_count (p : t) : Z := as_u32 (slot_count p - free_count p).

(** [Drop for OwnedSlot]. *)
Definition drop_slot (s : OwnedSlot.t) (p : t) : result string unit * t := release (OwnedSlot.index s) p.

(** [AtomicFramePool] wraps a pool; its slots hold a guard that releases them. *)
Definition stats (p : t) : PoolStats.t :=
  PoolStats.mk (slot_count p) (free_count p) (used_count p) (alloc_count p) (slot_size p) (width p) (height p).

(** ** Threads *)

(** Where a thread is in [try_acquire_slot], while it has a slot, and in [release].  A
    thread of the program that wants several slots at once is several of these. *)
Inductive thread :=
| Idle
| Loading (attempt : Z)
| Exchanging (attempt mask : Z)
| Marking (slot : Z)
| Counting (slot : Z)
| Holding (slot : Z)
| Unmarking (slot : Z)
| Freeing (slot : Z).
#[global] Instance thread_eq_dec : EqDecision thread.
Proof. solve_decision. Defined.

(** One access; [None] is a panic. *)
Definition thread_step (spurious : bool) (p : t) (th : thread) : option (thread * t) :=
  match th with
  | Idle => Some (Loading 0, p)
  | Loading attempt =>
      if slot_count p <=? attempt then Some (Idle, p)
      else if slot_count p <=? trailing_zeros (free_mask p) then Some (Idle, p)
      else Some (Exchanging attempt (free_mask p), p)
  | Exchanging attempt mask =>
      match exchange spurious mask (without_bit mask (trailing_zeros mask)) p with
      | (true, p') => Some (Marking (trailing_zeros mask), p')
      | (false, p') => Some (Loading (attempt + 1), p')
      end
  | Marking i => p' ← store_in_use i true p; Some (Counting i, p')
  | Counting i => Some (Holding i, count_alloc p)
  | Holding i => if slot_count p <=? i then Some (Idle, p) else Some (Unmarking i, p)
  | Unmarking i => p' ← store_in_use i false p; Some (Freeing i, p')
  | Freeing i => Some (Idle, set_free i p)
  end.

Inductive pool_step : t * list thread -> t * list thread -> Prop :=
| step_thread p ts k spurious th th' p' :
    ts !! k = Some th -> thread_step spurious p th = Some (th', p') ->
    pool_step (p, ts) (p', <[k := th']> ts).
End FramePool.

(** ** Bits *)

Lemma elem_of_free_slots m i : i ∈ free_slots m <-> 0 <= i < 64 /\ Z.testbit m i = true.
Proof.
  unfold free_slots. rewrite list_elem_of_In, List.filter_In, <-list_elem_of_In, elem_of_seqZ. split; intros []; split; done || lia.
Qed.

Lemma free_slots_NoDup m : NoDup (free_slots m).
Proof. apply NoDup_ListNoDup, List.NoDup_filter, NoDup_ListNoDup, NoDup_seqZ. Qed.

Lemma u64_max_bits i : 0 <= i -> Z.testbit u64_max i = (i <? 64).
Proof.
  intros Hi. replace u64_max with (Z.ones 64) by reflexivity. rewrite Z.testbit_ones_nonneg by lia. done.
Qed.

Lemma one_bit i j : 0 <= i -> 0 <= j -> Z.testbit (Z.shiftl 1 i) j = (j =? i).
Proof.
  intros Hi Hj. rewrite Z.shiftl_1_l, Z.pow2_bits_eqb by lia. apply Z.eqb_sym.
Qed.

Lemma without_bit_spec m i j : 0 <= i -> 0 <= j < 64 ->
  Z.testbit (FramePool.without_bit m i) j = Z.testbit m j && negb (j =? i).
Proof.
  intros Hi Hj. unfold FramePool.without_bit, u64_not. rewrite Z.land_spec, Z.lxor_spec, u64_max_bits, one_bit by lia.
  destruct (Z.ltb_spec j 64); [|lia]. by destruct (_ =? _), (Z.testbit m j).
Qed.

(** Taking a bit out and putting one back, as lists of free slots. *)
Lemma free_slots_without m i : i ∈ free_slots m -> free_slots m ≡ₚ i :: free_slots (FramePool.without_bit m i).
Proof.
  intros Hi. pose proof (proj1 (elem_of_free_slots _ _) Hi) as [Hr Hb].
  apply NoDup_Permutation; [apply free_slots_NoDup|constructor; [|apply free_slots_NoDup]|].
  - rewrite elem_of_free_slots. intros [_ Hf]. rewrite without_bit_spec, Z.eqb_refl, andb_false_r in Hf by lia. done.
  - intros j. rewrite elem_of_cons, !elem_of_free_slots. split.
    + intros [Hj Ht]. destruct (Z.eqb_spec j i) as [->|Hne]; [by left|right]. split; [done|].
      rewrite without_bit_spec, Ht by lia. by destruct (Z.eqb_spec j i).
    + intros [->|[Hj Ht]]; [done|]. split; [done|]. rewrite without_bit_spec in Ht by lia. by apply andb_prop in Ht as [].
Qed.

Lemma free_slots_with m i : 0 <= i < 64 -> i ∉ free_slots m -> free_slots (Z.lor m (Z.shiftl 1 i)) ≡ₚ i :: free_slots m.
Proof.
  intros Hi Hn. apply NoDup_Permutation; [apply free_slots_NoDup|constructor; [done|apply free_slots_NoDup]|].
  intros j. rewrite elem_of_cons, !elem_of_free_slots, Z.lor_spec. split.
  - intros [Hj Ht]. rewrite one_bit in Ht by lia. destruct (Z.eqb_spec j i) as [->|Hne]; [by left|right].
    by rewrite orb_false_r in Ht.
  - intros [->|[Hj Ht]]; (split; [lia|]); [rewrite one_bit, Z.eqb_refl by lia; apply orb_true_r|by rewrite Ht].
Qed.

Lemma trailing_zeros_free m : trailing_zeros m < 64 -> trailing_zeros m ∈ free_slots m.
Proof. unfold trailing_zeros. destruct (free_slots m); cbn; [lia|]. intros _. left. Qed.

(** The lowest bit is the first. *)
Lemma filter_head_le (f : Z -> bool) a n i : i ∈ List.filter f (seqZ a n) -> default 64 (head (List.filter f (seqZ a n))) <= i.
Proof.
  destruct (Z.le_gt_cases n 0) as [Hn|Hn]; [rewrite seqZ_nil by done; by intros ?%elem_of_nil|].
  replace n with (Z.of_nat (Z.to_nat n)) by lia. generalize (Z.to_nat n) as k. clear Hn. intros k. revert a.
  induction k as [|k IH]; intros a; [rewrite seqZ_nil by lia; by intros ?%elem_of_nil|].
  rewrite Nat2Z.inj_succ, seqZ_cons, Z.pred_succ by lia. cbn [List.filter]. destruct (f a); cbn [head default]; [|apply IH].
  rewrite elem_of_cons, list_elem_of_In, List.filter_In, <-list_elem_of_In, elem_of_seqZ. cbn. intros [->|[]]; lia.
Qed.

Lemma trailing_zeros_least m i : i ∈ free_slots m -> trailing_zeros m <= i.
Proof. apply filter_head_le. Qed.

Lemma trailing_zeros_none m n : n <= trailing_zeros m -> (forall i, i ∈ free_slots m -> i < n) -> free_slots m = [].
Proof.
  unfold trailing_zeros. destruct (free_slots m) as [|i l]; [done|]. cbn. intros Hn Hi.
  specialize (Hi i ltac:(left)). lia.
Qed.

(** A fresh mask has a bit for every slot. *)
Lemma fresh_mask n : 0 < n <= 64 ->
  free_slots (if n =? 64 then u64_max else Z.shiftl 1 n - 1) ≡ₚ seqZ 0 n.
Proof.
  intros Hn. replace (if n =? 64 then u64_max else Z.shiftl 1 n - 1) with (Z.ones n).
  - apply NoDup_Permutation; [apply free_slots_NoDup|apply NoDup_seqZ|]. intros i.
    rewrite elem_of_free_slots, elem_of_seqZ. split.
    + intros [Hi Ht]. rewrite Z.testbit_ones_nonneg in Ht by lia. lia.
    + intros Hi. split; [lia|]. rewrite Z.testbit_ones_nonneg by lia. lia.
  - destruct (Z.eqb_spec n 64) as [->|_]; [done|]. rewrite Z.ones_equiv, Z.shiftl_1_l. lia.
Qed.

#[local] Opaque free_slots trailing_zeros.

(** ** The invariant *)
Module Arena.
Import FramePool.

(** The slot a thread has taken out of the mask. *)
Definition owns (th : thread) : option Z :=
  match th with
  | Marking i | Counting i | Holding i | Unmarking i | Freeing i => Some i
  | _ => None
  end.
Definition owned (ts : list thread) : list Z := omap owns ts.

(** The slot whose flag the thread has set. *)
Definition marked (th : thread) : option Z :=
  match th with Counting i | Holding i | Unmarking i => Some i | _ => None end.

(** An exchange is only tried for a slot that the mask read had. *)
Definition thread_ok (n : Z) (th : thread) : Prop :=
  match th with Exchanging _ mask => trailing_zeros mask < n | _ => True end.

(** What never changes. *)
Definition same_pool (p q : t) : Prop :=
  base_ptr p = base_ptr q /\ layout_size p = layout_size q /\ slot_size p = slot_size q /\ slot_count p = slot_count q.

Record pool_ok (p : t) (ts : list thread) : Prop := {
  ok_count : 0 < slot_count p <= 64;
  ok_flags : Z.of_nat (length (in_use p)) = slot_count p;
  ok_size : slot_size p * slot_count p = layout_size p;
  ok_slots : free_slots (free_mask p) ++ owned ts ≡ₚ seqZ 0 (slot_count p);
  ok_threads : Forall (thread_ok (slot_count p)) ts;
  ok_marks : forall k th i, ts !! k = Some th -> marked th = Some i -> in_use p !! Z.to_nat i = Some true }.

Lemma owned_insert ts k th th' : ts !! k = Some th ->
  exists rest, owned ts ≡ₚ option_list (owns th) ++ rest /\ owned (<[k := th']> ts) ≡ₚ option_list (owns th') ++ rest.
Proof.
  intros Hk. exists (owned (take k ts) ++ owned (drop (S k) ts)). unfold owned.
  rewrite <-(take_drop_middle ts k th Hk) at 1.
  rewrite insert_take_drop by (by eapply lookup_lt_Some).
  rewrite !omap_app. cbn. split; (destruct (owns _); cbn; [|done]); by rewrite <-Permutation_middle.
Qed.

Lemma owned_elem ts k th i : ts !! k = Some th -> owns th = Some i -> i ∈ owned ts.
Proof. intros Hk Ho. apply list_elem_of_omap. exists th. split; [by eapply list_elem_of_lookup_2|done]. Qed.

Lemma owned_unique ts j k a b i : NoDup (owned ts) -> ts !! j = Some a -> ts !! k = Some b ->
  owns a = Some i -> owns b = Some i -> j = k.
Proof.
  revert j k. induction ts as [|x ts IH]; intros j k Hn Hj Hk Ha Hb; [done|].
  unfold owned in Hn. cbn in Hn. destruct j as [|j], k as [|k]; cbn in Hj, Hk; [done|..].
  - injection Hj as ->. rewrite Ha in Hn. apply NoDup_cons in Hn as [Hn _]. by destruct Hn; eapply owned_elem.
  - injection Hk as ->. rewrite Hb in Hn. apply NoDup_cons in Hn as [Hn _]. by destruct Hn; eapply owned_elem.
  - f_equal. eapply IH; eauto. destruct (owns x); [by apply NoDup_cons in Hn as []|done].
Qed.

Lemma ok_owned_NoDup p ts : pool_ok p ts -> NoDup (owned ts).
Proof.
  intros H. pose proof (NoDup_seqZ 0 (slot_count p)) as Hn. rewrite <-(ok_slots _ _ H) in Hn. by apply NoDup_app in Hn as (_ & _ & Hn).
Qed.

Lemma ok_owned_range p ts i : pool_ok p ts -> i ∈ owned ts -> 0 <= i < slot_count p /\ i ∉ free_slots (free_mask p).
Proof.
  intros H Hi. assert (Hs : i ∈ seqZ 0 (slot_count p)).
  { rewrite <-(ok_slots _ _ H). apply elem_of_app. by right. }
  apply elem_of_seqZ in Hs. split; [lia|]. intros Hf.
  pose proof (NoDup_seqZ 0 (slot_count p)) as Hn. rewrite <-(ok_slots _ _ H) in Hn. apply NoDup_app in Hn as (_ & Hn & _).
  by apply (Hn i).
Qed.

Lemma ok_free_range p ts i : pool_ok p ts -> i ∈ free_slots (free_mask p) -> 0 <= i < slot_count p.
Proof.
  intros H Hi. assert (Hs : i ∈ seqZ 0 (slot_count p)).
  { rewrite <-(ok_slots _ _ H). apply elem_of_app. by left. }
  apply elem_of_seqZ in Hs. lia.
Qed.

Lemma store_in_use_ok p ts i b : pool_ok p ts -> i ∈ owned ts ->
  store_in_use i b p = Some (p <| in_use := <[Z.to_nat i := b]> (in_use p) |>).
Proof.
  intros H Hi. apply (ok_owned_range _ _ _ H) in Hi as [Hi _]. unfold store_in_use.
  destruct (lookup_lt_is_Some_2 (in_use p) (Z.to_nat i)) as [x ->]; [|done]. pose proof (ok_flags _ _ H). lia.
Qed.

(** Slots and flags after a thread has moved. *)
Lemma slots_moved p ts k th th' m' : pool_ok p ts -> ts !! k = Some th ->
  free_slots m' ++ option_list (owns th') ≡ₚ free_slots (free_mask p) ++ option_list (owns th) ->
  free_slots m' ++ owned (<[k := th']> ts) ≡ₚ seqZ 0 (slot_count p).
Proof.
  intros H Hk Hm. destruct (owned_insert ts k th th' Hk) as (rest & H1 & H2).
  rewrite H2, (assoc_L (++)), Hm, <-(assoc_L (++)), <-H1. apply (ok_slots _ _ H).
Qed.

Lemma marks_kept p ts k th th' : pool_ok p ts -> ts !! k = Some th ->
  (forall i, marked th' = Some i -> in_use p !! Z.to_nat i = Some true) ->
  forall j a i, <[k := th']> ts !! j = Some a -> marked a = Some i -> in_use p !! Z.to_nat i = Some true.
Proof.
  intros H Hk Hm j a i Hj Ha. destruct (decide (j = k)) as [->|Hne].
  - rewrite list_lookup_insert_eq in Hj by (by eapply lookup_lt_Some). injection Hj as <-. by apply Hm.
  - rewrite list_lookup_insert_ne in Hj by done. by eapply (ok_marks _ _ H).
Qed.

Lemma marked_owns th i : marked th = Some i -> owns th = Some i.
Proof. by destruct th. Qed.

Lemma marks_stored p ts k th th' i b : pool_ok p ts -> ts !! k = Some th -> owns th = Some i -> owns th' = Some i ->
  (marked th' = Some i -> b = true) ->
  forall j a i', <[k := th']> ts !! j = Some a -> marked a = Some i' ->
    <[Z.to_nat i := b]> (in_use p) !! Z.to_nat i' = Some true.
Proof.
  intros H Hk Ho Ho' Hb j a i' Hj Ha.
  pose proof (ok_owned_range _ _ _ H (owned_elem _ _ _ _ Hk Ho)) as [Hi _].
  destruct (decide (j = k)) as [->|Hne].
  - rewrite list_lookup_insert_eq in Hj by (by eapply lookup_lt_Some). injection Hj as <-.
    pose proof (marked_owns _ _ Ha) as Hoo. rewrite Ho' in Hoo. injection Hoo as <-. rewrite (Hb Ha).
    apply list_lookup_insert_eq. pose proof (ok_flags _ _ H). lia.
  - rewrite list_lookup_insert_ne in Hj by done.
    assert (i' <> i).
    { intros ->. apply Hne. eapply owned_unique; eauto using marked_owns, ok_owned_NoDup. }
    pose proof (ok_owned_range _ _ _ H (owned_elem _ _ _ _ Hj (marked_owns _ _ Ha))) as [Hi' _].
    rewrite list_lookup_insert_ne by lia. by eapply (ok_marks _ _ H).
Qed.

Lemma moved_ok p p' ts k th th' : pool_ok p ts -> ts !! k = Some th ->
  same_pool p' p -> length (in_use p') = length (in_use p) ->
  free_slots (free_mask p') ++ option_list (owns th') ≡ₚ free_slots (free_mask p) ++ option_list (owns th) ->
  thread_ok (slot_count p) th' ->
  (forall j a i, <[k := th']> ts !! j = Some a -> marked a = Some i -> in_use p' !! Z.to_nat i = Some true) ->
  pool_ok p' (<[k := th']> ts) /\ same_pool p' p.
Proof.
  intros H Hk Hs Hl Hf Ht Hm. split; [|done]. destruct Hs as (_ & H2 & H3 & H4). split.
  - rewrite H4. apply (ok_count _ _ H).
  - rewrite H4, Hl. apply (ok_flags _ _ H).
  - rewrite H2, H3, H4. apply (ok_size _ _ H).
  - rewrite H4. by eapply slots_moved.
  - rewrite H4. apply Forall_insert; [apply (ok_threads _ _ H)|done].
  - exact Hm.
Qed.

(** A move that changes no more than the count. *)
Lemma quiet_ok p p' ts k th th' : pool_ok p ts -> ts !! k = Some th ->
  same_pool p' p -> in_use p' = in_use p -> free_mask p' = free_mask p -> owns th' = owns th ->
  thread_ok (slot_count p) th' -> (forall i, marked th' = Some i -> in_use p !! Z.to_nat i = Some true) ->
  pool_ok p' (<[k := th']> ts) /\ same_pool p' p.
Proof.
  intros H Hk Hs Hu Hf Ho Ht Hm. eapply moved_ok; [done|done|done|by rewrite Hu|by rewrite Hf, Ho|done|].
  rewrite Hu. by eapply marks_kept.
Qed.

Lemma stored_ok p ts k th th' i b : pool_ok p ts -> ts !! k = Some th -> owns th = Some i -> owns th' = Some i ->
  thread_ok (slot_count p) th' -> (marked th' = Some i -> b = true) ->
  pool_ok (p <| in_use := <[Z.to_nat i := b]> (in_use p) |>) (<[k := th']> ts) /\
  same_pool (p <| in_use := <[Z.to_nat i := b]> (in_use p) |>) p.
Proof.
  intros H Hk Ho Ho' Ht Hb. eapply moved_ok; [done|done|done| |by rewrite Ho, Ho'|done|].
  - apply length_insert.
  - by eapply marks_stored.
Qed.

Lemma taken_ok p ts k a mask : pool_ok p ts -> ts !! k = Some (Exchanging a mask) -> free_mask p = mask ->
  pool_ok (p <| free_mask := without_bit mask (trailing_zeros mask) |>) (<[k := Marking (trailing_zeros mask)]> ts) /\
  same_pool (p <| free_mask := without_bit mask (trailing_zeros mask) |>) p.
Proof.
  intros H Hk <-. pose proof (proj1 (Forall_lookup _ _) (ok_threads _ _ H) _ _ Hk) as Ht. cbn in Ht.
  assert (Hf : trailing_zeros (free_mask p) ∈ free_slots (free_mask p)).
  { apply trailing_zeros_free. pose proof (ok_count _ _ H). lia. }
  eapply moved_ok; [done|done|done|done| |done|by apply (marks_kept p _ _ _ _ H Hk)].
  cbn. rewrite app_nil_r. rewrite (free_slots_without _ _ Hf). by rewrite Permutation_app_comm.
Qed.

Lemma freed_ok p ts k i : pool_ok p ts -> ts !! k = Some (Freeing i) ->
  pool_ok (set_free i p) (<[k := Idle]> ts) /\ same_pool (set_free i p) p.
Proof.
  intros H Hk. pose proof (ok_owned_range _ _ i H (owned_elem _ _ _ _ Hk eq_refl)) as [Hi Hn].
  eapply moved_ok; [done|done|done|done| |done|by apply (marks_kept p _ _ _ _ H Hk)].
  cbn. pose proof (ok_count _ _ H). rewrite app_nil_r, (free_slots_with _ _ (conj (proj1 Hi) (Z.lt_le_trans _ _ _ (proj2 Hi) (proj2 (ok_count _ _ H)))) Hn).
  by rewrite Permutation_app_comm.
Qed.

(** Every access succeeds and keeps the invariant. *)
Lemma thread_step_ok p ts k th spurious : pool_ok p ts -> ts !! k = Some th ->
  exists th' p', thread_step spurious p th = Some (th', p') /\ pool_ok p' (<[k := th']> ts) /\ same_pool p' p.
Proof.
  intros H Hk. destruct th as [|a|a mask|i|i|i|i|i]; cbn [thread_step].
  - eexists _, _. split; [done|]. by eapply quiet_ok.
  - destruct (_ <=? a); [eexists _, _; split; [done|]; by eapply quiet_ok|].
    destruct (Z.leb_spec (slot_count p) (trailing_zeros (free_mask p))); eexists _, _; (split; [done|]);
      [by eapply quiet_ok|]. eapply quiet_ok; try done.
  - unfold exchange. destruct (negb spurious && _) eqn:E; eexists _, _; (split; [done|]); [|by eapply quiet_ok].
    apply andb_prop in E as [_ E%Z.eqb_eq]. by eapply taken_ok.
  - rewrite (store_in_use_ok _ _ _ true H (owned_elem _ _ _ _ Hk eq_refl)). eexists _, _. split; [done|]. by eapply stored_ok.
  - eexists _, _. split; [done|]. eapply quiet_ok; try done. intros i' [= <-]. by eapply (ok_marks _ _ H).
  - destruct (Z.leb_spec (slot_count p) i); eexists _, _; (split; [done|]).
    + pose proof (ok_owned_range _ _ i H (owned_elem _ _ _ _ Hk eq_refl)). lia.
    + eapply quiet_ok; try done. intros i' [= <-]. by eapply (ok_marks _ _ H).
  - rewrite (store_in_use_ok _ _ _ false H (owned_elem _ _ _ _ Hk eq_refl)). eexists _, _. split; [done|]. by eapply stored_ok.
  - eexists _, _. split; [done|]. by apply freed_ok.
Qed.

Lemma new_ok alloc c p n : FramePoolConfig.wf c -> new alloc c = Ok p -> pool_ok p (replicate n Idle).
Proof.
  intros (_ & _ & _ & Hc & _). unfold new.
  repeat (match goal with |- (if ?b then Err _ else _) = _ -> _ => destruct b eqn:? end; [done|]). cbv zeta.
  repeat (match goal with |- (if ?b then Err _ else _) = _ -> _ => destruct b eqn:? end; [done|]).
  intros [= <-]. assert (Hn : 0 < FramePoolConfig.slot_count c <= 64) by lia. split; cbn.
  - done.
  - rewrite length_replicate. lia.
  - done.
  - replace (owned (replicate n Idle)) with (@nil Z) by (unfold owned; by induction n).
    rewrite app_nil_r. by apply fresh_mask.
  - by apply Forall_replicate.
  - intros k th i Hk Hm. apply lookup_replicate in Hk as [-> _]. done.
Qed.

Lemma pool_steps_ok p ts p' ts' : rtc pool_step (p, ts) (p', ts') -> pool_ok p ts -> pool_ok p' ts' /\ same_pool p' p.
Proof.
  intros Hr. remember (p, ts) as x eqn:Ex. remember (p', ts') as y eqn:Ey. revert p ts Ex.
  induction Hr as [x|x z y Hs Hr IH]; intros p ts -> Hok; [by injection Ey as -> ->|].
  inversion Hs as [? ? k sp th th1 p1 Hk Hth]; subst.
  destruct (thread_step_ok p ts k th sp Hok Hk) as (th2 & p2 & E & Hok' & Hs'). rewrite Hth in E. injection E as <- <-.
  destruct (IH eq_refl p1 (<[k := th1]> ts) eq_refl Hok') as [? (? & ? & ? & ?)]. destruct Hs' as (? & ? & ? & ?).
  split; [done|]. split_and!; congruence.
Qed.

Lemma ok_counts p ts : pool_ok p ts -> free_count p + Z.of_nat (length (owned ts)) = slot_count p.
Proof.
  intros H. unfold free_count, count_ones. pose proof (Permutation_length (ok_slots _ _ H)) as Hl.
  rewrite length_app, length_seqZ in Hl. pose proof (ok_count _ _ H). lia.
Qed.

(** ** A method is a run of accesses *)
Definition thread_rel (x y : t * thread) : Prop := exists spurious, thread_step spurious x.1 x.2 = Some (y.2, y.1).

Lemma thread_run_pool p th p' th' ts k : rtc thread_rel (p, th) (p', th') -> ts !! k = Some th ->
  rtc pool_step (p, ts) (p', <[k := th']> ts).
Proof.
  intros Hr. remember (p, th) as x eqn:Ex. remember (p', th') as y eqn:Ey. revert p th ts Ex.
  induction Hr as [x|x [p1 th1] y [sp Hs] Hr IH]; intros p th ts -> Hk.
  - injection Ey as -> ->. by rewrite list_insert_id.
  - eapply rtc_l; [by eapply step_thread|]. rewrite <-(list_insert_insert_eq ts k th' th1).
    eapply IH; [done|done|]. apply list_lookup_insert_eq. by eapply lookup_lt_Some.
Qed.

Definition outcome (r : option Z) : thread := match r with Some i => Holding i | None => Idle end.

Lemma acquire_loop_run n spurious p : Z.of_nat n <= slot_count p -> Z.of_nat (length (in_use p)) = slot_count p -> 0 < slot_count p <= 64 ->
  exists r p', acquire_loop n spurious p = (Ok r, p') /\
    rtc thread_rel (p, Loading (slot_count p - Z.of_nat n)) (p', outcome r) /\
    match r with
    | Some i => i = trailing_zeros (free_mask p) /\ i < slot_count p
    | None => slot_count p <= trailing_zeros (free_mask p) \/ n = 0%nat \/ spurious <> []
    end.
Proof.
  revert spurious p. induction n as [|n IH]; intros sp p Hn Hl Hc; cbn [acquire_loop].
  { eexists _, _. split; [done|]. split; [|by right; left]. apply rtc_once. exists false. cbn [fst snd thread_step].
    by rewrite (proj2 (Z.leb_le _ _)) by lia. }
  assert (Hload : (slot_count p <=? slot_count p - Z.of_nat (S n)) = false) by (apply Z.leb_gt; lia).
  destruct (Z.leb_spec (slot_count p) (trailing_zeros (free_mask p))) as [Hz|Hz].
  { eexists _, _. split; [done|]. split; [|by left]. apply rtc_once. exists false. cbn [fst snd thread_step].
    rewrite Hload. by destruct (Z.leb_spec (slot_count p) (trailing_zeros (free_mask p))); [|lia]. }
  assert (Hstep : thread_rel (p, Loading (slot_count p - Z.of_nat (S n))) (p, Exchanging (slot_count p - Z.of_nat (S n)) (free_mask p))).
  { exists false. cbn [fst snd thread_step]. rewrite Hload. by destruct (Z.leb_spec (slot_count p) (trailing_zeros (free_mask p))); [lia|]. }
  unfold exchange. rewrite Z.eqb_refl, andb_true_r. destruct (negb (default false (head sp))) eqn:E.
  - destruct (lookup_lt_is_Some_2 (in_use p) (Z.to_nat (trailing_zeros (free_mask p)))) as [b Hb].
    { assert (trailing_zeros (free_mask p) ∈ free_slots (free_mask p)) as [? _]%elem_of_free_slots by (apply trailing_zeros_free; lia). lia. }
    unfold store_in_use. cbn. rewrite Hb. eexists _, _. split; [done|]. split; [|done].
    eapply rtc_l; [exact Hstep|]. eapply (rtc_l _ _ (_, _)). { exists false. cbn [fst snd thread_step]. unfold exchange. by rewrite Z.eqb_refl. }
    eapply (rtc_l _ _ (_, _)). { exists false. cbn [fst snd thread_step]. unfold store_in_use. cbn. by rewrite Hb. }
    apply rtc_once. by exists false.
  - destruct sp as [|s sp]; [done|]. destruct (IH sp p) as (r & p' & Hr & Hrun & Hres); [lia|done|done|].
    exists r, p'. cbn [tail]. split; [done|]. split.
    + eapply rtc_l; [exact Hstep|]. eapply rtc_l; [|exact Hrun]. exists true. cbn.
      by replace (slot_count p - Z.of_nat (S n) + 1) with (slot_count p - Z.of_nat n) by lia.
    + destruct r; [done|]. right. by right.
Qed.

(** [acquire] alone.  On a pool in any reachable state, a call that no other thread disturbs and whose
    exchanges do not fail returns the lowest free slot, or nothing when no slot is free; it does so by the
    accesses of [thread_step], so that the guarantees for interleaved threads hold for it. *)
Theorem lone_acquire_outcome p ts k : pool_ok p ts -> ts !! k = Some Idle ->
  exists r p', try_acquire_slot [] p = (Ok r, p') /\ rtc pool_step (p, ts) (p', <[k := outcome r]> ts) /\
    match r with
    | Some i => i ∈ free_slots (free_mask p) /\ forall j, j ∈ free_slots (free_mask p) -> i <= j
    | None => free_slots (free_mask p) = []
    end.
Proof.
  intros H Hk. pose proof (ok_count _ _ H) as Hc. unfold try_acquire_slot.
  destruct (acquire_loop_run (Z.to_nat (slot_count p)) [] p) as (r & p' & E & Hrun & Hres);
    [lia|apply (ok_flags _ _ H)|done|]. exists r, p'. split; [done|]. split.
  - replace (slot_count p - Z.of_nat (Z.to_nat (slot_count p))) with 0 in Hrun by lia.
    eapply thread_run_pool; [|done]. eapply rtc_l; [|exact Hrun]. by exists false.
  - destruct r as [i|].
    + destruct Hres as [-> Hlt]. split; [apply trailing_zeros_free; lia|apply trailing_zeros_least].
    + destruct Hres as [Hz|[Hz|Hz]]; [|lia|done]. apply (trailing_zeros_none _ _ Hz).
      intros i Hi. by apply (ok_free_range p ts i H).
Qed.

(** C21: slots are exclusive.  From a new pool, however any number of threads interleave their accesses in acquiring
    and dropping slots, spurious failures of the weak exchange included: two threads never hold the same slot, nor overlapping
    memory; every slot lies inside the allocation and is marked as used; no access is out of bounds; and the free slots
    and those taken by the threads add up to all slots, so that none is ever lost. *)
Theorem frame_slots_exclusive alloc c p0 n p ts :
  FramePoolConfig.wf c -> new alloc c = Ok p0 -> rtc pool_step (p0, replicate n Idle) (p, ts) ->
  (forall j k a b, j <> k -> ts !! j = Some (Holding a) -> ts !! k = Some (Holding b) ->
     a <> b /\ (slot_ptr p a + slot_size p <= slot_ptr p b \/ slot_ptr p b + slot_size p <= slot_ptr p a)) /\
  (forall k a, ts !! k = Some (Holding a) ->
     base_ptr p0 <= slot_ptr p a /\ slot_ptr p a + slot_size p <= base_ptr p0 + layout_size p0 /\
     in_use p !! Z.to_nat a = Some true) /\
  (forall k th spurious, ts !! k = Some th -> is_Some (thread_step spurious p th)) /\
  free_count p + Z.of_nat (length (owned ts)) = slot_count p0.
Proof.
  intros Hw Hnew Hrun. destruct (pool_steps_ok _ _ _ _ Hrun (new_ok alloc c p0 n Hw Hnew)) as [H (Hb & Hl & Hs & Hc)].
  assert (Hsize : 0 <= slot_size p0).
  { pose proof (as_u64_range (as_u64 (FramePoolConfig.width c * FramePoolConfig.height c) * FramePoolConfig.bytes_per_pixel c)) as [Hz _].
    revert Hnew. unfold new.
    repeat (match goal with |- (if ?b then Err _ else _) = _ -> _ => destruct b end; [done|]). by intros [= <-]. }
  pose proof (ok_size _ _ H) as Hsz. unfold slot_ptr. split_and!.
  - intros j k a b Hne Hj Hk. assert (a <> b).
    { intros ->. apply Hne. eapply owned_unique; eauto using ok_owned_NoDup. }
    split; [done|]. rewrite Hs. destruct (Z.lt_total a b) as [?|[?|?]]; [left|done|right]; nia.
  - intros k a Hk. pose proof (ok_owned_range _ _ a H (owned_elem _ _ _ _ Hk eq_refl)) as [Ha _].
    rewrite <-Hb, <-Hl, <-Hsz. split_and!; [rewrite Hs; nia|rewrite Hs; nia|]. by eapply (ok_marks _ _ H).
  - intros k th sp Hk. destruct (thread_step_ok p ts k th sp H Hk) as (th' & p' & -> & _). by eexists.
  - rewrite <-Hc. by apply ok_counts.
Qed.
End Arena.

(** ** Concrete runs *)
Section Witnesses.
Import FramePool Arena.

(** Which thread moves, and whether its exchange fails without reason. *)
Fixpoint exec (moves : list (nat * bool)) (x : t * list thread) : option (t * list thread) :=
  match moves with
  | [] => Some x
  | (k, spurious) :: moves' =>
      th ← x.2 !! k; r ← thread_step spurious x.1 th; exec moves' (r.2, <[k := r.1]> x.2)
  end.

Lemma exec_pool_run moves x y : exec moves x = Some y -> rtc pool_step x y.
Proof.
  revert x. induction moves as [|[k sp] moves IH]; intros [p ts]; cbn; [by intros [= ->]|].
  destruct (ts !! k) as [th|] eqn:Hk; [|done]. cbn. destruct (thread_step sp p th) as [[th' p']|] eqn:Hs; [|done]. cbn.
  intros E. eapply rtc_l; [by eapply step_thread|]. by apply IH.
Qed.

Definition sim_config : FramePoolConfig.t := FramePoolConfig.mk 4 2 3 2.
Definition sim_pool : t := mk 4096 48 24 2 4 2 3 [false; false] 0.
Definition turns (k n : nat) : list (nat * bool) := replicate n (k, false).

(** Two threads interleave; the second loses its first exchange and gets the other slot. *)
Definition sim_moves : list (nat * bool) := turns 0 2 ++ turns 1 2 ++ turns 0 3 ++ turns 1 5.
Definition sim_end : t * list thread := default (sim_pool, []) (exec sim_moves (sim_pool, replicate 2 Idle)).

Lemma sim_config_wf : FramePoolConfig.wf sim_config.
Proof. repeat split; discriminate || reflexivity. Qed.

Lemma frame_slots_exclusive_witness :
  sim_end.2 = [Holding 0; Holding 1] /\
  (slot_ptr sim_end.1 0 + slot_size sim_end.1 <= slot_ptr sim_end.1 1 \/
   slot_ptr sim_end.1 1 + slot_size sim_end.1 <= slot_ptr sim_end.1 0).
Proof.
  split; [vm_compute; reflexivity|].
  destruct (frame_slots_exclusive (fun _ => 4096) sim_config sim_pool 2 sim_end.1 sim_end.2 sim_config_wf) as (Hx & _).
  - vm_compute. reflexivity.
  - apply (exec_pool_run sim_moves). vm_compute. reflexivity.
  - apply (Hx 0%nat 1%nat 0 1); [discriminate|vm_compute; reflexivity..].
Defined.

Lemma sim_pool_ok : pool_ok sim_pool [Idle].
Proof. apply (new_ok (fun _ => 4096) sim_config sim_pool 1); [apply sim_config_wf|vm_compute; reflexivity]. Qed.

Lemma lone_acquire_outcome_witness :
  exists r p', try_acquire_slot [] sim_pool = (Ok r, p') /\ r = Some 0.
Proof.
  destruct (lone_acquire_outcome sim_pool [Idle] 0 sim_pool_ok eq_refl) as (r & p' & E & _ & _).
  exists r, p'. split; [exact E|]. vm_compute in E. by injection E as <- _.
Defined.

(** A call that keeps losing its exchange gives up after as many attempts as there are slots, although slots are free: here
    another thread takes slot 0 before the first exchange and returns it before the second. *)
Example free_slots_missed :
  exec (turns 0 2 ++ turns 1 5 ++ turns 0 2 ++ turns 1 3 ++ turns 0 2) (sim_pool, replicate 2 Idle) =
    Some (sim_pool <| alloc_count := 1 |>, [Idle; Idle]).
Proof. vm_compute. reflexivity. Qed.

(** The size of a slot wraps; a pool whose size wraps to 0 is made without memory, and its slots are at the null pointer. *)
Example wrapped_pool_has_null_slots :
  match new (fun _ => 4096) (FramePoolConfig.mk (2 ^ 31) (2 ^ 31) 4 1) with
  | Ok p => exists s p', acquire [] p = (Ok (Some s), p') /\ OwnedSlot.data_ptr s = 0
  | _ => False
  end.
Proof. vm_compute. eexists _, _. split; reflexivity. Qed.
End Witnesses.
