(* ===== verification/Fragment.v ===== *)
(** * Fragment encoding

    crates/roboflow-media/src/video/fragment.rs: [FragmentEncoder] collects frames in
    memory and encodes them to a temporary file whenever a threshold is reached, so
    that memory stays bounded; [finalize] puts the fragments together or moves them
    to an output directory.

    [VideoEncoder] and the composer drive FFmpeg and are a class, like the system calls on
    files; [VideoLaws] says which frames a file shows, as a record of what was encoded
    into it.  [f64] arithmetic is that of [SpecFloat], which is exact. *)
From Corelib Require Import SpecFloat.
From S2P Require Import Prelude Floats Storage.
From stdpp Require Import pretty.
#[local] Open Scope Z_scope.

(** [RoboflowError], as far as it occurs here. *)
Inductive RoboflowError := EncodeError (codec message : string) | Other (message : string).
Definition encode_error {A} (message : string) : result RoboflowError A := Err (EncodeError "FragmentEncoder" message).

(** [format!("{:04}", n)]. *)
Definition padded4 (n : nat) : string :=
  let s := pretty (N.of_nat n) in
  String.concat "" (replicate (4 - String.length s) "0"%string) +:+ s.

(** [Path::join] and [Path::parent] (of a path that does not end in a slash). *)
Definition ends_with_slash (s : string) : bool := String.prefix "/" (string_rev s).
Definition join (dir name : string) : string :=
  if starts_with name "/" then name
  else if String.eqb dir "" || ends_with_slash dir then dir +:+ name
  else dir +:+ "/" +:+ name.
Fixpoint before_last_slash (s : string) : option string :=
  match s with
  | EmptyString => None
  | String c s' =>
      match before_last_slash s' with
      | Some d => Some (String c d)
      | None => if Ascii.eqb c "/" then Some ""%string else None
      end
  end.
Definition parent (path : string) : option string :=
  if String.eqb path "" || String.eqb path "/" then None
  else match before_last_slash path with
       | Some d => Some (if String.eqb d "" then "/"%string else d)
       | None => Some ""%string
       end.

(** What the encoder uses of [VideoEncoder], [RsmpegVideoComposer], [TempDir] and [std::fs]. *)
Class VideoBackend (W : Type) := {
  Encoder : Type;
  encoder_new : string -> W -> result RoboflowError Encoder * W;
  encoder_frame : string -> Z -> Z -> Encoder -> W -> result RoboflowError Encoder * W;
  encoder_finalize : Encoder -> W -> result RoboflowError unit * W;
  compose : list string -> string -> W -> result RoboflowError unit * W;
  tempdir : W -> (string + string) * W;
  remove_tempdir : string -> W -> W;
  create_dir_all : string -> W -> (string + unit) * W;
  rename : string -> string -> W -> (string + unit) * W;
  file_len : string -> W -> (string + Z) * W }.

Module FragmentConfig.
Record t := mk { max_frames : option Z; max_memory_bytes : option Z; max_duration_secs : option spec_float }.
Definition new : t := mk None None None.
Definition with_max_frames (frames : Z) : result RoboflowError t :=
  if negb (0 <? frames) then Panic "max_frames must be positive" else Ok (mk (Some frames) None None).
Definition with_max_memory (bytes : Z) : result RoboflowError t :=
  if negb (0 <? bytes) then Panic "max_memory_bytes must be positive" else Ok (mk None (Some bytes) None).
Definition with_max_duration (secs : spec_float) : result RoboflowError t :=
  if negb (SFltb (f64_of 0) secs) then Panic "max_duration_secs must be positive" else Ok (mk None None (Some secs)).
End FragmentConfig.

Module FragmentOutputConfig.
Inductive t := SingleFile (path : string) | MultipleFragments (dir prefix : string).
End FragmentOutputConfig.

Module FragmentEncodingResult.
Record t := mk { output_path : option string; fragment_paths : list string; frames_encoded : Z; bytes_written : Z; fragments : Z }.
End FragmentEncodingResult.

Module FragmentEncoder.
Record t := mk {
  output_config : FragmentOutputConfig.t;
  fragment_config : FragmentConfig.t;
  width : Z;
  height : Z;
  fps : Z;
  frame_buffer : list string;
  frame_count : Z;
  total_frames : Z;
  fragment_paths : list string;
  temp_dir : string;
  finalized : bool }.
#[global] Instance t_eta : Settable t := fun r =>
  mk (output_config r) (fragment_config r) (width r) (height r) (fps r) (frame_buffer r) (frame_count r) (total_frames r)
    (fragment_paths r) (temp_dir r) (finalized r).

Definition buffered_bytes (e : t) : Z := foldr (fun f n => u64_add (str_len f) n) 0 (frame_buffer e).
Definition buffered_frames (e : t) : Z := frame_count e.
Definition fragment_count (e : t) : Z := Z.of_nat (length (fragment_paths e)).
Definition dimensions (e : t) : Z * Z := (width e, height e).

Definition should_flush (e : t) : bool :=
  if match FragmentConfig.max_frames (fragment_config e) with Some m => m <=? frame_count e | None => false end then true
  else if match FragmentConfig.max_memory_bytes (fragment_config e) with Some m => m <=? buffered_bytes e | None => false end then true
  else match FragmentConfig.max_duration_secs (fragment_config e) with
       | Some d => (0 <? fps e) && f64_ge (f64_div (f64_of (frame_count e)) (f64_of (fps e))) d
       | None => false
       end.

(** The path of the [i]th fragment. *)
Definition fragment_path (e : t) (i : nat) : string := join (temp_dir e) ("fragment_" +:+ padded4 i +:+ ".mp4").

Section Ops.
Context {W : Type} `{VideoBackend W}.

Definition new (fps : Z) (output : FragmentOutputConfig.t) (config : FragmentConfig.t) (w : W) : result RoboflowError t * W :=
  if fps =? 0 then (encode_error "fps must be positive for duration-based flush calculations", w)
  else match tempdir w with
       | (inl e, w') => (encode_error ("Failed to create temp dir: " +:+ e), w')
       | (inr dir, w') => (Ok (mk output config 0 0 fps [] 0 0 [] dir false), w')
       end.

Fixpoint encode_all (frames : list string) (wd h : Z) (enc : Encoder) (w : W) : result RoboflowError Encoder * W :=
  match frames with
  | [] => (Ok enc, w)
  | d :: frames' =>
      match encoder_frame d wd h enc w with
      | (Ok enc', w') => encode_all frames' wd h enc' w'
      | (Err e, w') => (Err e, w')
      | (Panic m, w') => (Panic m, w')
      end
  end.

Definition flush_fragment (e : t) (w : W) : result RoboflowError unit * t * W :=
  match frame_buffer e with
  | [] => (Ok tt, e, w)
  | frames =>
      let path := fragment_path e (length (fragment_paths e)) in
      match encoder_new path w with
      | (Err err, w) => (Err err, e, w)
      | (Panic m, w) => (Panic m, e, w)
      | (Ok enc, w) =>
          match encode_all frames (width e) (height e) enc w with
          | (Err err, w) => (Err err, e, w)
          | (Panic m, w) => (Panic m, e, w)
          | (Ok enc, w) =>
              match encoder_finalize enc w with
              | (Err err, w) => (Err err, e, w)
              | (Panic m, w) => (Panic m, e, w)
              | (Ok tt, w) =>
                  (Ok tt, e <| frame_buffer := [] |> <| frame_count := 0 |> <| fragment_paths := fragment_paths e ++ [path] |>, w)
              end
          end
      end
  end.

Definition encode_frame (rgb_data : string) (wd h : Z) (e : t) (w : W) : result RoboflowError bool * t * W :=
  if finalized e then (encode_error "Cannot encode frame after finalization", e, w)
  else if (wd =? 0) || (h =? 0) then (encode_error "Frame dimensions cannot be zero", e, w)
  else
    let expected_size := as_u64 (as_u64 (wd * h) * 3) in
    if negb (str_len rgb_data =? expected_size) then
      (encode_error ("RGB data size mismatch: got " +:+ pretty (str_len rgb_data) +:+ " bytes, expected " +:+ pretty expected_size
                     +:+ " bytes for " +:+ pretty wd +:+ "x" +:+ pretty h), e, w)
    else
      let e := if width e =? 0 then e <| width := wd |> <| height := h |> else e in
      if negb (wd =? width e) || negb (h =? height e) then
        (encode_error ("Frame dimension mismatch: expected " +:+ pretty (width e) +:+ "x" +:+ pretty (height e)
                       +:+ ", got " +:+ pretty wd +:+ "x" +:+ pretty h), e, w)
      else
        let e := e <| frame_buffer := frame_buffer e ++ [rgb_data] |> <| frame_count := u32_add (frame_count e) 1 |>
                   <| total_frames := u64_add (total_frames e) 1 |> in
        if should_flush e then
          match flush_fragment e w with
          | (Ok tt, e, w) => (Ok true, e, w)
          | (Err err, e, w) => (Err err, e, w)
          | (Panic m, e, w) => (Panic m, e, w)
          end
        else (Ok false, e, w).

(** A system call whose error is reported with a prefix. *)
Definition reported {A} (prefix : string) (op : W -> (string + A) * W) (w : W) : result RoboflowError A * W :=
  match op w with
  | (inl e, w') => (encode_error (prefix +:+ e), w')
  | (inr a, w') => (Ok a, w')
  end.

Definition create_parent (path : string) (w : W) : result RoboflowError unit * W :=
  match parent path with
  | Some d => reported "Failed to create output directory: " (create_dir_all d) w
  | None => (Ok tt, w)
  end.

Definition single_fragment (source path : string) (frames : Z) (w : W) : result RoboflowError FragmentEncodingResult.t * W :=
  match create_parent path w with
  | (Err e, w) => (Err e, w)
  | (Panic m, w) => (Panic m, w)
  | (Ok tt, w) =>
      match reported "Failed to rename output file: " (rename source path) w with
      | (Err e, w) => (Err e, w)
      | (Panic m, w) => (Panic m, w)
      | (Ok tt, w) =>
          match reported "Failed to get output file metadata: " (file_len path) w with
          | (Err e, w) => (Err e, w)
          | (Panic m, w) => (Panic m, w)
          | (Ok n, w) => (Ok (FragmentEncodingResult.mk (Some path) [path] frames n 1), w)
          end
      end
  end.

Definition several_fragments (sources : list string) (path : string) (frames : Z) (w : W)
  : result RoboflowError FragmentEncodingResult.t * W :=
  match create_parent path w with
  | (Err e, w) => (Err e, w)
  | (Panic m, w) => (Panic m, w)
  | (Ok tt, w) =>
      match compose sources path w with
      | (Err e, w) => (Err e, w)
      | (Panic m, w) => (Panic m, w)
      | (Ok tt, w) =>
          match reported "Failed to get output file metadata: " (file_len path) w with
          | (Err e, w) => (Err e, w)
          | (Panic m, w) => (Panic m, w)
          | (Ok n, w) =>
              (Ok (FragmentEncodingResult.mk (Some path) sources frames n (Z.of_nat (length sources))), w)
          end
      end
  end.

Definition fragment_dest (dir prefix : string) (i : nat) : string := join dir (prefix +:+ "_" +:+ padded4 i +:+ ".mp4").

(** The loop that moves the fragments. *)
Fixpoint move_fragments (dir prefix : string) (i : nat) (sources final_paths : list string) (total_bytes : Z) (w : W)
  : result RoboflowError (list string * Z) * W :=
  match sources with
  | [] => (Ok (final_paths, total_bytes), w)
  | source :: sources' =>
      let dest := fragment_dest dir prefix i in
      match reported "Failed to move fragment file: " (rename source dest) w with
      | (Err e, w) => (Err e, w)
      | (Panic m, w) => (Panic m, w)
      | (Ok tt, w) =>
          match reported ("Failed to get fragment file metadata for " +:+ dest +:+ ": ") (file_len dest) w with
          | (Err e, w) => (Err e, w)
          | (Panic m, w) => (Panic m, w)
          | (Ok n, w) => move_fragments dir prefix (S i) sources' (final_paths ++ [dest]) (u64_add total_bytes n) w
          end
      end
  end.

Definition multiple_fragments (dir prefix : string) (sources : list string) (frames : Z) (w : W)
  : result RoboflowError FragmentEncodingResult.t * W :=
  match reported "Failed to create output directory: " (create_dir_all dir) w with
  | (Err e, w) => (Err e, w)
  | (Panic m, w) => (Panic m, w)
  | (Ok tt, w) =>
      match move_fragments dir prefix 0 sources [] 0 w with
      | (Err e, w) => (Err e, w)
      | (Panic m, w) => (Panic m, w)
      | (Ok (final_paths, total_bytes), w) =>
          (Ok (FragmentEncodingResult.mk None final_paths frames total_bytes (Z.of_nat (length sources))), w)
      end
  end.

(** [finalize] consumes the encoder, and with it the temporary directory. *)
Definition finalize (e : t) (w : W) : result RoboflowError FragmentEncodingResult.t * W :=
  let '(r, w) :=
    if finalized e then (encode_error "Encoder already finalized", w)
    else
      match flush_fragment (e <| finalized := true |>) w with
      | (Err err, _, w) => (Err err, w)
      | (Panic m, _, w) => (Panic m, w)
      | (Ok tt, e, w) =>
          match output_config e with
          | FragmentOutputConfig.SingleFile path =>
              match fragment_paths e with
              | [] => (encode_error "No frames encoded", w)
              | [source] => single_fragment source path (total_frames e) w
              | sources => several_fragments sources path (total_frames e) w
              end
          | FragmentOutputConfig.MultipleFragments dir prefix =>
              multiple_fragments dir prefix (fragment_paths e) (total_frames e) w
          end
      end in
  (r, remove_tempdir (temp_dir e) w).
End Ops.
End FragmentEncoder.

(** ** Names of fragments are distinct *)
Fixpoint skip_zeros (s : string) : string :=
  match s with String "0" s' => skip_zeros s' | _ => s end.

Lemma skip_zeros_app n s : skip_zeros (String.concat "" (replicate n "0"%string) +:+ s) = skip_zeros s.
Proof. induction n as [|[|n] IH]; [done|done|exact IH]. Qed.

Lemma pretty_char_zero d : (d < 10)%N -> pretty_N_char d = "0"%char -> d = 0%N.
Proof.
  intros Hd. assert (d ∈ (N.of_nat <$> seq 0 10)) as He.
  { apply list_elem_of_fmap. exists (N.to_nat d). split; [lia|]. apply elem_of_seq. lia. }
  repeat (apply elem_of_cons in He as [->|He]; [done|]). by apply elem_of_nil in He.
Qed.

Lemma pretty_go_nonzero (x : N) s : (0 < x)%N -> exists c t, pretty_N_go x s = String c t /\ c <> "0"%char.
Proof.
  revert s. induction (N.lt_wf_0 x) as [x _ IH]; intros s Hx. rewrite pretty_N_go_step by lia.
  destruct (decide (0 < x `div` 10)%N) as [Hd|Hd].
  - apply IH; [|done]. apply N.div_lt; lia.
  - assert (x `div` 10 = 0)%N as Hz by (by apply N.le_0_r, N.nlt_ge). rewrite Hz, pretty_N_go_0. eexists _, _. split; [done|].
    intros E. apply pretty_char_zero in E; [|apply N.mod_lt; lia].
    pose proof (N.div_mod x 10 ltac:(lia)). lia.
Qed.

Lemma skip_zeros_pretty n : skip_zeros (pretty (N.of_nat n)) = if (n =? 0)%nat then ""%string else pretty (N.of_nat n).
Proof.
  destruct (Nat.eqb_spec n 0) as [->|Hn]; [done|]. unfold pretty, pretty_N. rewrite decide_False by lia.
  destruct (pretty_go_nonzero (N.of_nat n) "") as (c & t & -> & Hc); [lia|]. cbn.
  destruct c as [[] [] [] [] [] [] [] []]; done.
Qed.

Lemma pretty_nonempty n : n <> 0%nat -> pretty (N.of_nat n) <> ""%string.
Proof.
  intros Hn. unfold pretty, pretty_N. rewrite decide_False by lia.
  by destruct (pretty_go_nonzero (N.of_nat n) "") as (c & t & -> & _); [lia|].
Qed.

Lemma padded4_inj a b : padded4 a = padded4 b -> a = b.
Proof.
  unfold padded4. intros E. apply (f_equal skip_zeros) in E. rewrite !skip_zeros_app, !skip_zeros_pretty in E.
  destruct (Nat.eqb_spec a 0) as [Ha|Ha], (Nat.eqb_spec b 0) as [Hb|Hb]; [congruence|..].
  - by destruct (pretty_nonempty b Hb).
  - by destruct (pretty_nonempty a Ha).
  - apply (inj pretty) in E. lia.
Qed.

Lemma string_app_inj_r (a b s : string) : a +:+ s = b +:+ s -> a = b.
Proof.
  intros E. assert (H : String.length a = String.length b).
  { apply (f_equal String.length) in E. rewrite !string_length_app in E. lia. }
  revert b H E. induction a as [|c a IH]; intros [|c' b]; cbn; try done. intros [= H] [= -> E]. f_equal. by apply IH.
Qed.

Lemma join_inj dir a b : starts_with a "/" = starts_with b "/" -> join dir a = join dir b -> a = b.
Proof.
  unfold join. intros ->. destruct (starts_with b "/"); [done|].
  destruct (_ || _); intros E; [by apply string_app_inv_l in E|]. by apply string_app_inv_l, string_app_inv_l in E.
Qed.

Lemma numbered_inj dir prefix i j : starts_with (prefix +:+ padded4 i +:+ ".mp4") "/" = starts_with (prefix +:+ padded4 j +:+ ".mp4") "/" ->
  join dir (prefix +:+ padded4 i +:+ ".mp4") = join dir (prefix +:+ padded4 j +:+ ".mp4") -> i = j.
Proof.
  intros Hs E. apply (join_inj _ _ _ Hs), string_app_inv_l, string_app_inj_r in E. by apply padded4_inj.
Qed.

(** ** What the backend promises *)

(** A path in a directory. *)
Definition inside (dir p : string) : Prop := exists name, starts_with name "/" = false /\ p = join dir name.

(** [video w p]: the frames that were encoded into the file at [p].  The composer ends a source at an error of
    [read_packet] as at its end (composer.rs:154), so after a success the destination shows a beginning
    of each source, and all of it only where the state is [sound]: no read of a finished file fails. *)
Class VideoLaws (W : Type) `{VideoBackend W} := {
  video : W -> string -> option (list string);
  sound : W -> Prop;
  (** Files other than those named are left alone. *)
  leaves (touched : list string) (w w' : W) : Prop := (forall p, p ∉ touched -> video w' p = video w p) /\ (sound w -> sound w');
  encoder_path : Encoder -> string;
  encoder_frames : Encoder -> list string;
  encoder_new_law : forall path w r w', encoder_new path w = (r, w') -> leaves [path] w w' /\
    forall e, r = Ok e -> encoder_path e = path /\ encoder_frames e = [];
  encoder_frame_law : forall d wd h e w r w', encoder_frame d wd h e w = (r, w') -> leaves [encoder_path e] w w' /\
    forall e', r = Ok e' -> encoder_path e' = encoder_path e /\ encoder_frames e' = encoder_frames e ++ [d];
  encoder_finalize_law : forall e w r w', encoder_finalize e w = (r, w') -> leaves [encoder_path e] w w' /\
    (r = Ok tt -> video w' (encoder_path e) = Some (encoder_frames e));
  compose_law : forall sources dest w r w', compose sources dest w = (r, w') -> leaves [dest] w w' /\
    (r = Ok tt -> forall vs, Forall2 (fun p v => video w p = Some v) sources vs ->
      exists cut, Forall2 prefix cut vs /\ video w' dest = Some (concat cut) /\ (sound w -> cut = vs));
  tempdir_law : forall w r w', tempdir w = (r, w') -> leaves [] w w';
  remove_tempdir_law : forall dir w p, ~ inside dir p -> video (remove_tempdir dir w) p = video w p;
  create_dir_all_law : forall d w r w', create_dir_all d w = (r, w') -> leaves [] w w';
  rename_law : forall a b w r w', rename a b w = (r, w') -> leaves [a; b] w w' /\
    (r = inr tt -> video w' b = video w a);
  file_len_law : forall p w r w', file_len p w = (r, w') -> leaves [] w w' }.

Section Laws.
Import FragmentEncoder.
Context {W : Type} `{VideoLaws W}.
(** What is known to imply that no read fails. *)
Context (trusted : Prop).

(** The paths show the videos. *)
Definition shows (w : W) (paths : list string) (vs : list (list string)) : Prop := Forall2 (fun p v => video w p = Some v) paths vs.

Lemma shows_same w w' paths vs : (forall p, p ∈ paths -> video w' p = video w p) -> shows w paths vs -> shows w' paths vs.
Proof.
  intros Hp Hs. induction Hs as [|p v paths vs Hv Hs IH]; constructor.
  - rewrite Hp; [done|left].
  - apply IH. intros q Hq. apply Hp. by right.
Qed.

Lemma shows_kept w w' touched paths vs : leaves touched w w' -> (forall p, p ∈ paths -> p ∉ touched) ->
  shows w paths vs -> shows w' paths vs.
Proof. intros [Hl _] Hp. apply shows_same. auto. Qed.

Lemma leaves_trans touched w1 w2 w3 : leaves touched w1 w2 -> leaves touched w2 w3 ->
  leaves touched w1 w3.
Proof. intros [H1 S1] [H2 S2]. split; [|auto]. intros p Hp. by rewrite H2, H1. Qed.

Lemma leaves_refl touched w : leaves touched w w.
Proof. done. Qed.

(** The [i]th fragment is at the [i]th path. *)
Definition fragment_paths_of (dir : string) (n : nat) : list string :=
  (fun i => join dir ("fragment_" +:+ padded4 i +:+ ".mp4")) <$> seq 0 n.

Lemma fragment_path_fresh dir n i : (n <= i)%nat -> join dir ("fragment_" +:+ padded4 i +:+ ".mp4") ∉ fragment_paths_of dir n.
Proof.
  intros Hi. unfold fragment_paths_of. rewrite list_elem_of_fmap. intros (j & E & Hj%elem_of_seq).
  assert (i = j); [|lia]. by apply (numbered_inj dir "fragment_"); [vm_compute|].
Qed.

(** What has been encoded and what waits are the frames taken, in order. *)
Record encoder_ok (e : t) (w : W) (frames : list string) : Prop := {
  ok_paths : fragment_paths e = fragment_paths_of (temp_dir e) (length (fragment_paths e));
  ok_shown : exists vs, shows w (fragment_paths e) vs /\ concat vs ++ frame_buffer e = frames;
  ok_trusted : trusted -> sound w;
  ok_total : total_frames e = as_u64 (Z.of_nat (length frames)) }.

Lemma encode_all_spec fs wd h enc w r w' : encode_all fs wd h enc w = (r, w') ->
  leaves [encoder_path enc] w w' /\
  forall enc', r = Ok enc' -> encoder_path enc' = encoder_path enc /\ encoder_frames enc' = encoder_frames enc ++ fs.
Proof.
  revert enc w. induction fs as [|d fs IH]; intros enc w; cbn.
  { intros [= <- <-]. split; [done|]. intros ? [= <-]. by rewrite app_nil_r. }
  destruct (encoder_frame d wd h enc w) as [[enc1|err|m] w1] eqn:E; apply encoder_frame_law in E as [Hl Hok];
    [|by intros [= <- <-]..].
  destruct (Hok enc1 eq_refl) as [Hp Hf]. intros (Hl2 & Hok2)%IH. rewrite Hp in Hl2. split; [by eapply leaves_trans|].
  intros enc' (Hp2 & Hf2)%Hok2. split; [congruence|]. by rewrite Hf2, Hf, <-app_assoc.
Qed.

(** A flush that fails changes no fragment and keeps the buffer; one that succeeds empties it into the next fragment. *)
Lemma flush_fragment_spec e w fs r e' w' : encoder_ok e w fs -> flush_fragment e w = (r, e', w') ->
  encoder_ok e' w' fs /\ temp_dir e' = temp_dir e /\ output_config e' = output_config e /\ finalized e' = finalized e /\
  (r = Ok tt -> frame_buffer e' = []).
Proof.
  intros [Hp (vs & Hs & Hc) Hsd Ht]. unfold flush_fragment. destruct (frame_buffer e) as [|d ds] eqn:Eb.
  { intros [= <- <- <-]. split_and!; try done. split; [done| |done|done]. exists vs. by rewrite Eb. }
  set (path := fragment_path e _).
  assert (Hfresh : forall p, p ∈ fragment_paths e -> p ∉ [path]).
  { intros p Hin ->%list_elem_of_singleton. rewrite Hp in Hin. unfold path, fragment_path in Hin. by eapply fragment_path_fresh in Hin. }
  assert (Hkeep : forall w1, leaves [path] w w1 -> encoder_ok e w1 fs).
  { intros w1 Hl. split; [done| |by intros ?%Hsd%(proj2 Hl)|done]. exists vs. rewrite Eb. split; [by eapply shows_kept|done]. }
  destruct (encoder_new path w) as [[enc|err|m] w1] eqn:E1; apply encoder_new_law in E1 as [Hl1 H1];
    [|by intros [= <- <- <-]; split_and!; [apply Hkeep|..]..].
  destruct (H1 enc eq_refl) as [Hpath Hf].
  destruct (encode_all (d :: ds) _ _ enc w1) as [[enc2|err|m] w2] eqn:E2; apply encode_all_spec in E2 as [Hl2 H2];
    rewrite Hpath in Hl2; pose proof (leaves_trans _ _ _ _ Hl1 Hl2) as Hl12; [|by intros [= <- <- <-]; split_and!; [apply Hkeep|..]..].
  destruct (H2 enc2 eq_refl) as [Hpath2 Hf2]. rewrite Hpath in Hpath2. rewrite Hf in Hf2.
  destruct (encoder_finalize enc2 w2) as [[[]|err|m] w3] eqn:E3; apply encoder_finalize_law in E3 as [Hl3 H3];
    rewrite Hpath2 in Hl3; pose proof (leaves_trans _ _ _ _ Hl12 Hl3) as Hl123; [|by intros [= <- <- <-]; split_and!; [apply Hkeep|..]..].
  intros [= <- <- <-]. split_and!; try done. split; [| |by intros ?%Hsd%(proj2 Hl123)|done].
  - cbn. rewrite length_app, Nat.add_1_r. unfold fragment_paths_of. rewrite seq_S, fmap_app. cbn.
    fold (fragment_paths_of (temp_dir e) (length (fragment_paths e))). by rewrite <-Hp.
  - exists (vs ++ [d :: ds]). cbn. split; [|by rewrite concat_app, app_nil_r; cbn; rewrite app_nil_r].
    apply Forall2_app; [by eapply shows_kept|]. constructor; [|constructor]. rewrite <-Hpath2, H3, Hf2 by done. done.
Qed.

(** Whether [encode_frame] takes the frame (it may still fail to flush). *)
Definition accepted (d : string) (wd h : Z) (e : t) : bool :=
  negb (finalized e) && negb ((wd =? 0) || (h =? 0)) && (str_len d =? as_u64 (as_u64 (wd * h) * 3)) &&
  ((width e =? 0) || (wd =? width e) && (h =? height e)).

Lemma encode_frame_spec d wd h e w fs r e' w' : encoder_ok e w fs -> encode_frame d wd h e w = (r, e', w') ->
  encoder_ok e' w' (if accepted d wd h e then fs ++ [d] else fs) /\
  temp_dir e' = temp_dir e /\ output_config e' = output_config e /\ finalized e' = finalized e /\
  (r = Ok true -> frame_buffer e' = []) /\ (r = Ok false -> should_flush e' = false).
Proof.
  intros Hok. pose proof Hok as [Hp (vs & Hs & Hc) Hsd Ht]. unfold encode_frame, accepted. destruct (finalized e) eqn:Ef; [by intros [= <- <- <-]; split_and!|].
  destruct ((wd =? 0) || (h =? 0)) eqn:Ez; [by intros [= <- <- <-]; split_and!|]. cbn [negb andb].
  destruct (str_len d =? _) eqn:El; [|by intros [= <- <- <-]; split_and!]. cbn [negb andb].
  set (e1 := if width e =? 0 then _ else e).
  assert (Hacc : negb (wd =? width e1) || negb (h =? height e1) = negb ((width e =? 0) || (wd =? width e) && (h =? height e))).
  { unfold e1. destruct (width e =? 0); cbn; [by rewrite !Z.eqb_refl|]. by rewrite negb_andb. }
  assert (H1 : fragment_paths e1 = fragment_paths e /\ temp_dir e1 = temp_dir e /\ output_config e1 = output_config e /\
    finalized e1 = false /\ frame_buffer e1 = frame_buffer e /\ total_frames e1 = total_frames e).
  { unfold e1. by destruct (width e =? 0). }
  destruct H1 as (Hp1 & Ht1 & Ho1 & Hf1 & Hb1 & Hn1). rewrite Hacc.
  destruct ((width e =? 0) || _); cbn [negb].
  2:{ intros [= <- <- <-]. split_and!; try done. split; [by rewrite Hp1, Ht1| |done|by rewrite Hn1]. exists vs. by rewrite Hp1, Hb1. }
  set (e2 := e1 <| frame_buffer := _ |> <| frame_count := _ |> <| total_frames := _ |>).
  assert (H2 : encoder_ok e2 w (fs ++ [d])).
  { split; cbn; [by rewrite Hp1, Ht1| |done|].
    - exists vs. rewrite Hp1, Hb1. split; [done|]. by rewrite app_assoc, Hc.
    - rewrite Hn1, Ht, length_app. unfold u64_add, as_u64. rewrite Zplus_mod_idemp_l. f_equal. cbn. lia. }
  destruct (should_flush e2) eqn:Es.
  - destruct (flush_fragment e2 w) as [[[[]|err|m] e3] w3] eqn:E3; apply (flush_fragment_spec _ _ _ _ _ _ H2) in E3
      as (Hok3 & Ht3 & Ho3 & Hf3 & Hb3); cbn in Ht3, Ho3, Hf3; intros [= <- <- <-]; split_and!; try done; try congruence.
    intros _. by apply Hb3.
  - intros [= <- <- <-]. split_and!; try done.
Qed.

(** ** Sequences of calls *)
Inductive op := Encode (d : string) (wd h : Z) | Flush.

(** The encoder, the world and the frames taken after some calls, whatever they returned. *)
Fixpoint run (ops : list op) (e : t) (w : W) (fs : list string) : t * W * list string :=
  match ops with
  | [] => (e, w, fs)
  | Encode d wd h :: ops' =>
      let fs' := if accepted d wd h e then fs ++ [d] else fs in
      let '(_, e', w') := encode_frame d wd h e w in run ops' e' w' fs'
  | Flush :: ops' => let '(_, e', w') := flush_fragment e w in run ops' e' w' fs
  end.

Lemma run_spec ops e w fs e' w' fs' : encoder_ok e w fs -> run ops e w fs = (e', w', fs') ->
  encoder_ok e' w' fs' /\ temp_dir e' = temp_dir e /\ output_config e' = output_config e.
Proof.
  revert e w fs. induction ops as [|[d wd h|] ops IH]; intros e w fs Hok; cbn; [by intros [= <- <- <-]|..].
  - destruct (encode_frame d wd h e w) as [[r e1] w1] eqn:E. apply (encode_frame_spec _ _ _ _ _ _ _ _ _ Hok) in E
      as (H1 & Ht & Ho & _). intros (? & ? & ?)%IH; [|done]. split_and!; [done|congruence..].
  - destruct (flush_fragment e w) as [[r e1] w1] eqn:E. apply (flush_fragment_spec _ _ _ _ _ _ Hok) in E
      as (H1 & Ht & Ho & _). intros (? & ? & ?)%IH; [|done]. split_and!; [done|congruence..].
Qed.

(** ** Putting the fragments together *)
Lemma reported_spec {A} prefix (g : W -> (string + A) * W) w r w' : reported prefix g w = (r, w') ->
  exists s, g w = (s, w') /\ forall a, r = Ok a -> s = inr a.
Proof. unfold reported. destruct (g w) as [[e|a] w1]; intros [= <- <-]; eexists; split; try done. by intros ? [= <-]. Qed.

Lemma create_parent_spec path w r w' : create_parent path w = (r, w') -> leaves [] w w'.
Proof.
  unfold create_parent. destruct (parent path); [|by intros [= <- <-]].
  intros (x & E & _)%reported_spec. by apply create_dir_all_law in E.
Qed.

Lemma leaves_none w w' p : leaves [] w w' -> video w' p = video w p.
Proof. intros [Hl _]. apply Hl. by intros ?%elem_of_nil. Qed.

Lemma dest_inj dir prefix i j : fragment_dest dir prefix i = fragment_dest dir prefix j -> i = j.
Proof.
  unfold fragment_dest. intros E. apply join_inj in E; [|destruct prefix as [|c p]; [done|by destruct c as [[] [] [] [] [] [] [] []]]].
  by apply string_app_inv_l, string_app_inv_l, string_app_inj_r, padded4_inj in E.
Qed.

Lemma move_fragments_spec temp dir prefix sources i finals n w ps b w' vs vf :
  (forall j, ~ inside temp (fragment_dest dir prefix j)) -> NoDup sources ->
  (forall s, s ∈ sources -> inside temp s) ->
  (forall p, p ∈ finals -> exists j, (j < i)%nat /\ p = fragment_dest dir prefix j) ->
  shows w sources vs -> shows w finals vf ->
  move_fragments dir prefix i sources finals n w = (Ok (ps, b), w') ->
  shows w' ps (vf ++ vs) /\ forall p, p ∈ ps -> exists j, p = fragment_dest dir prefix j.
Proof.
  intros Hout. revert i finals n w vs vf. induction sources as [|s ss IH]; intros i finals n w vs vf Hnd Hsrc Hfin Hvs Hvf; cbn.
  { intros [= <- <- <-]. inversion Hvs; subst. rewrite app_nil_r. split; [done|]. intros p Hp. destruct (Hfin p Hp) as (j & _ & ->). eauto. }
  inversion Hvs as [|? v ? vs' Hv Hvs']; subst. apply NoDup_cons in Hnd as [Hns Hnd].
  set (dest := fragment_dest dir prefix i). pose proof (Hsrc s ltac:(left)) as Hs.
  destruct (reported _ (rename s dest) w) as [[[]|err|m] w1] eqn:E1; try done.
  apply reported_spec in E1 as (r1 & E1 & Hr1). specialize (Hr1 tt eq_refl) as ->. apply rename_law in E1 as [Hl1 Hv1].
  specialize (Hv1 eq_refl). rewrite Hv in Hv1.
  destruct (reported _ (file_len dest) w1) as [[k|err|m] w2] eqn:E2; try done.
  apply reported_spec in E2 as (r2 & E2 & _). apply file_len_law in E2 as Hl2.
  intros E. destruct (IH (S i) (finals ++ [dest]) (u64_add n k) w2 vs' (vf ++ [v]) Hnd) as [Hps Hd].
  - intros q Hq. apply Hsrc. by right.
  - intros p [Hp| ->%list_elem_of_singleton]%elem_of_app; [destruct (Hfin p Hp) as (j & Hj & ->); exists j; split; [lia|done]|].
    exists i. split; [lia|done].
  - eapply (shows_kept w1); [exact Hl2|by intros ? _ ?%elem_of_nil|]. eapply (shows_kept w); [exact Hl1| |done].
    intros q Hq. rewrite elem_of_cons, list_elem_of_singleton. intros [->|Hqd]; [done|].
    apply (Hout i). fold dest. rewrite <-Hqd. apply Hsrc. by right.
  - apply Forall2_app; [|by constructor; [rewrite (leaves_none w1 w2)|constructor]].
    eapply (shows_kept w1); [exact Hl2|by intros ? _ ?%elem_of_nil|]. eapply (shows_kept w); [exact Hl1| |done].
    intros q Hq. destruct (Hfin q Hq) as (j & Hj & ->). rewrite elem_of_cons, list_elem_of_singleton.
    intros [Hx|Hx%dest_inj]; [|lia]. apply (Hout j). by rewrite Hx.
  - done.
  - split; [|done]. by rewrite <-app_assoc in Hps.
Qed.

(** The output is not put into the temporary directory. *)
Definition output_outside (temp : string) (o : FragmentOutputConfig.t) : Prop :=
  match o with
  | FragmentOutputConfig.SingleFile path => ~ inside temp path
  | FragmentOutputConfig.MultipleFragments dir prefix => forall i, ~ inside temp (fragment_dest dir prefix i)
  end.

(** The output shows the frames.  A single file that was composed of several fragments may lack frames at the end
    of fragments, but not when reads do not fail. *)
Definition delivered (o : FragmentOutputConfig.t) (r : FragmentEncodingResult.t) (w : W) (fs : list string) : Prop :=
  FragmentEncodingResult.frames_encoded r = as_u64 (Z.of_nat (length fs)) /\
  match o with
  | FragmentOutputConfig.SingleFile path =>
      FragmentEncodingResult.output_path r = Some path /\
      exists vs cut, concat vs = fs /\ Forall2 prefix cut vs /\ video w path = Some (concat cut) /\ (trusted -> cut = vs)
  | FragmentOutputConfig.MultipleFragments _ _ =>
      exists vs, shows w (FragmentEncodingResult.fragment_paths r) vs /\ concat vs = fs
  end.

Lemma single_fragment_spec source path n w r w' v : video w source = Some v ->
  single_fragment source path n w = (Ok r, w') ->
  FragmentEncodingResult.output_path r = Some path /\ FragmentEncodingResult.frames_encoded r = n /\ video w' path = Some v.
Proof.
  intros Hv. unfold single_fragment. destruct (create_parent path w) as [[[]|err|m] w1] eqn:E1; try done. apply create_parent_spec in E1.
  destruct (reported _ (rename source path) w1) as [[[]|err|m] w2] eqn:E2; try done.
  apply reported_spec in E2 as (x & E2 & Hx). rewrite (Hx tt eq_refl) in E2. apply rename_law in E2 as [_ E2]. specialize (E2 eq_refl).
  destruct (reported _ (file_len path) w2) as [[k|err|m] w3] eqn:E3; try done.
  apply reported_spec in E3 as (y & E3 & _). apply file_len_law in E3. intros [= <- <-].
  split_and!; [done|done|]. by rewrite (leaves_none w2 w3), E2, (leaves_none w w1).
Qed.

Lemma several_fragments_spec sources path n w r w' vs : shows w sources vs ->
  several_fragments sources path n w = (Ok r, w') ->
  FragmentEncodingResult.output_path r = Some path /\ FragmentEncodingResult.frames_encoded r = n /\
  exists cut, Forall2 prefix cut vs /\ video w' path = Some (concat cut) /\ (sound w -> cut = vs).
Proof.
  intros Hv. unfold several_fragments. destruct (create_parent path w) as [[[]|err|m] w1] eqn:E1; try done. apply create_parent_spec in E1.
  destruct (compose sources path w1) as [[[]|err|m] w2] eqn:E2; try done. apply compose_law in E2 as [_ E2].
  destruct (reported _ (file_len path) w2) as [[k|err|m] w3] eqn:E3; try done.
  apply reported_spec in E3 as (y & E3 & _). apply file_len_law in E3. intros [= <- <-].
  split_and!; [done|done|]. rewrite (leaves_none w2 w3) by done. destruct (E2 eq_refl vs) as (cut & Hc & Hd & Hw).
  { eapply (shows_kept w); [exact E1|by intros ? _ ?%elem_of_nil|done]. }
  exists cut. split_and!; [done..|]. intros Hsd. apply Hw. by apply E1.
Qed.

Lemma fragment_paths_NoDup dir n : NoDup (fragment_paths_of dir n).
Proof.
  unfold fragment_paths_of. induction n as [|n IH]; [constructor|]. rewrite seq_S, fmap_app. apply NoDup_app. split_and!; [done| |by apply NoDup_singleton].
  intros p Hp ->%list_elem_of_singleton. by eapply fragment_path_fresh in Hp.
Qed.

Lemma multiple_fragments_spec temp dir prefix sources n w r w' vs :
  (forall j, ~ inside temp (fragment_dest dir prefix j)) -> NoDup sources ->
  (forall s, s ∈ sources -> inside temp s) -> shows w sources vs ->
  multiple_fragments dir prefix sources n w = (Ok r, w') ->
  FragmentEncodingResult.frames_encoded r = n /\ shows w' (FragmentEncodingResult.fragment_paths r) vs /\
  forall p, p ∈ FragmentEncodingResult.fragment_paths r -> exists j, p = fragment_dest dir prefix j.
Proof.
  intros Hout Hnd Hsrc Hv. unfold multiple_fragments.
  destruct (reported _ (create_dir_all dir) w) as [[[]|err|m] w1] eqn:E1; try done.
  apply reported_spec in E1 as (x & E1 & _). apply create_dir_all_law in E1.
  destruct (move_fragments dir prefix 0 sources [] 0 w1) as [[[ps b]|err|m] w2] eqn:E2; try done. intros [= <- <-].
  apply (move_fragments_spec temp dir prefix sources 0 [] 0 w1 ps b w2 vs []) in E2 as [Hps Hd]; try done.
  - by intros p ?%elem_of_nil.
  - eapply (shows_kept w); [exact E1|by intros ? _ ?%elem_of_nil|done].
  - constructor.
Qed.

Lemma finalize_delivers e w fs r w' : encoder_ok e w fs -> output_outside (temp_dir e) (output_config e) ->
  finalize e w = (Ok r, w') -> delivered (output_config e) r w' fs.
Proof.
  intros Hok Hout. unfold finalize. destruct (finalized e); [done|].
  assert (Hok1 : encoder_ok (e <| finalized := true |>) w fs) by (destruct Hok; by split).
  destruct (flush_fragment (e <| finalized := true |>) w) as [[[[]|err|m] e1] w1] eqn:E1; try done.
  apply (flush_fragment_spec _ _ _ _ _ _ Hok1) in E1 as ([Hp (vs & Hs & Hc) Hsd Ht] & Htmp & Ho & _ & Hb). cbn in Htmp, Ho.
  rewrite (Hb eq_refl), app_nil_r in Hc. rewrite Ho. unfold delivered, output_outside in *.
  destruct (output_config e) as [path|dir prefix].
  - set (res := match fragment_paths e1 with [] => _ | _ => _ end). destruct res as [r2 w2] eqn:Er. intros [= -> <-].
    assert (Hres : FragmentEncodingResult.output_path r = Some path /\
      FragmentEncodingResult.frames_encoded r = total_frames e1 /\
      exists cut, Forall2 prefix cut vs /\ video w2 path = Some (concat cut) /\ (trusted -> cut = vs)).
    { unfold res in Er. destruct (fragment_paths e1) as [|p [|q ps]] eqn:Ep; [done|..].
      - inversion Hs as [|? v ? vs' Hv Hvs]; subst. inversion Hvs; subst.
        destruct (single_fragment_spec _ _ _ _ _ _ _ Hv Er) as (H1 & H2 & H3). split_and!; [done..|]. exists [v]. cbn. rewrite app_nil_r.
        split_and!; [by repeat constructor|done|done].
      - destruct (several_fragments_spec _ _ _ _ _ _ _ Hs Er) as (H1 & H2 & cut & H3 & H4 & H5). split_and!; [done..|].
        exists cut. split_and!; [done..|]. intros ?%Hsd. auto. }
    destruct Hres as (H1 & H2 & cut & H3 & H4 & H5). rewrite H2, Ht. split_and!; [done|done|]. exists vs, cut. by rewrite remove_tempdir_law.
  - destruct (multiple_fragments _ _ _ _ w1) as [r2 w2] eqn:Er. intros [= -> <-].
    apply (multiple_fragments_spec (temp_dir e) _ _ _ _ _ _ _ vs Hout) in Er as (H1 & H2 & H3).
    + rewrite H1, Ht. split; [done|]. exists vs. split; [|done]. apply (shows_same w2); [|done].
      intros p Hin. apply remove_tempdir_law. destruct (H3 p Hin) as [j ->]. apply Hout.
    + rewrite Hp. apply fragment_paths_NoDup.
    + intros s Hin. rewrite Hp, Htmp in Hin. unfold fragment_paths_of in Hin. apply list_elem_of_fmap in Hin as (i & -> & _).
      exists ("fragment_" +:+ padded4 i +:+ ".mp4"). split; [vm_compute; reflexivity|done].
    + done.
Qed.

Lemma new_encoder_ok fps o c w e w' : (trusted -> sound w) -> new fps o c w = (Ok e, w') -> encoder_ok e w' [] /\ output_config e = o /\ fragment_config e = c.
Proof.
  intros Hsd. unfold new. destruct (fps =? 0); [done|]. destruct (tempdir w) as [[err|dir] w1] eqn:Et; [done|]. intros [= <- <-].
  split; [|done]. split; [done| | |done]; [exists []; split; [constructor|done]|]. intros ?%Hsd. apply tempdir_law in Et as [_ Et]. auto.
Qed.

(** The buffer is bounded.  When [encode_frame] returns without an error, the frames that wait in memory are fewer
    than [max_frames], less than [max_memory_bytes], and below [max_duration_secs], whichever of these are set
    and positive. *)
Theorem fragment_buffer_bounded d wd h e w fs b e' w' : encoder_ok e w fs -> encode_frame d wd h e w = (Ok b, e', w') ->
  frame_buffer e' = [] \/
  (forall m, FragmentConfig.max_frames (fragment_config e') = Some m -> buffered_frames e' < m) /\
  (forall m, FragmentConfig.max_memory_bytes (fragment_config e') = Some m -> buffered_bytes e' < m) /\
  (forall d, FragmentConfig.max_duration_secs (fragment_config e') = Some d -> 0 < fps e' ->
     f64_ge (f64_div (f64_of (buffered_frames e')) (f64_of (FragmentEncoder.fps e'))) d = false).
Proof.
  intros Hok E. apply (encode_frame_spec _ _ _ _ _ _ _ _ _ Hok) in E as (_ & _ & _ & _ & Ht & Hf).
  destruct b; [left; by apply Ht|right]. specialize (Hf eq_refl). unfold should_flush, buffered_frames in *.
  destruct (FragmentConfig.max_frames _) as [m1|], (FragmentConfig.max_memory_bytes _) as [m2|], (FragmentConfig.max_duration_secs _) as [m3|];
    repeat match type of Hf with context [if ?x <=? ?y then true else _] => destruct (Z.leb_spec x y); [done|] end;
    split_and!; intros ? [= <-]; try done.
  all: intros Hfps%Z.ltb_lt; by rewrite Hfps in Hf.
Qed.
End Laws.



(** ** A backend *)
Module SimVideo.
(** The videos by path, and how many frames of a file can be read, where that is not all of them. *)
Record W : Type := mkW { videos : gmap string (list string); bad : gmap string nat }.
Definition on_videos (f : gmap string (list string) -> gmap string (list string)) (w : W) : W := mkW (f (videos w)) (bad w).

Definition under (dir p : string) : bool :=
  match Prelude.strip_prefix (dir +:+ "/") p with Some name => negb (starts_with name "/") && String.eqb (join dir name) p | None => false end.
Definition read (w : W) (p : string) : list string :=
  let v := default [] (videos w !! p) in match bad w !! p with Some n => take n v | None => v end.

#[global] Instance backend : VideoBackend W := {|
  Encoder := string * list string;
  encoder_new := fun path w => (Ok (path, []), w);
  encoder_frame := fun d _ _ enc w => (Ok (enc.1, enc.2 ++ [d]), w);
  encoder_finalize := fun enc w => (Ok tt, on_videos <[enc.1 := enc.2]> w);
  compose := fun sources dest w => (Ok tt, on_videos <[dest := sources ≫= read w]> w);
  tempdir := fun w => (inr "/tmp/encoder"%string, w);
  remove_tempdir := fun dir => on_videos (filter (fun pv => under dir pv.1 = false));
  create_dir_all := fun _ w => (inr tt, w);
  rename := fun a b w => (inr tt, on_videos (fun m => match m !! a with Some v => <[b := v]> (delete a m) | None => delete b m end) w);
  file_len := fun p w => (inr (Z.of_nat (length (default [] (videos w !! p)))), w) |}.

Lemma sim_compose (w : W) sources vs : Forall2 (fun p v => videos w !! p = Some v) sources vs ->
  exists cut, Forall2 prefix cut vs /\ sources ≫= read w = concat cut /\ (bad w = ∅ -> cut = vs).
Proof.
  induction 1 as [|p v sources vs Hv _ (cut & Hc & E & Hw)]; [by exists []|]. exists (read w p :: cut).
  split_and!; [constructor; [|done]|cbn; by rewrite <-E|].
  - unfold read. rewrite Hv. cbn. destruct (bad w !! p) as [k|]; [|done]. exists (drop k v). by rewrite take_drop.
  - intros Hb. rewrite (Hw Hb). unfold read. by rewrite Hv, Hb, lookup_empty.
Qed.

#[global] Instance laws : VideoLaws W.
Proof.
  refine {| video := fun w p => videos w !! p; sound w := bad w = ∅; encoder_path := fst; encoder_frames := snd |}; cbn.
  - intros path w r w' [= <- <-]. split; [done|]. by intros e [= <-].
  - intros d wd h e w r w' [= <- <-]. split; [done|]. by intros e' [= <-].
  - intros [q fs] w r w' [= <- <-]. cbn. split; [|intros _; apply lookup_insert_eq].
    split; [|done]. intros p Hp. apply lookup_insert_ne. intros ->. apply Hp. left.
  - intros sources dest w r w' [= <- <-]. split.
    + split; [|done]. intros p Hp. apply lookup_insert_ne. intros ->. apply Hp. left.
    + intros _ vs Hvs. destruct (sim_compose w sources vs Hvs) as (cut & Hc & E & Hw). exists cut. split_and!; [done| |done].
      cbn. rewrite lookup_insert_eq. by f_equal.
  - by intros w r w' [= <- <-].
  - intros dir w p Hp. cbn. destruct (videos w !! p) as [v|] eqn:E.
    + apply map_lookup_filter_Some. split; [done|]. cbn. unfold under.
      destruct (Prelude.strip_prefix (dir +:+ "/") p) as [name|]; [|done]. destruct (starts_with name "/") eqn:En; [done|].
      destruct (String.eqb_spec (join dir name) p) as [Hj|]; [|done]. destruct Hp. by exists name.
    + apply map_lookup_filter_None. by left.
  - by intros d w r w' [= <- <-].
  - intros a b w r w' [= <- <-]. cbn. split.
    + split; [|done]. intros p Hp. rewrite !not_elem_of_cons in Hp. destruct Hp as (Ha & Hb & _).
      destruct (videos w !! a); rewrite ?lookup_insert_ne by done; by apply lookup_delete_ne.
    + intros _. destruct (videos w !! a); [apply lookup_insert_eq|apply lookup_delete_eq].
  - by intros p w r w' [= <- <-].
Defined.
End SimVideo.

Section Witnesses.
Import FragmentEncoder.

Definition sim_output : FragmentOutputConfig.t := FragmentOutputConfig.SingleFile "/out/video.mp4".
Definition two_frames : FragmentConfig.t := FragmentConfig.mk (Some 2) None None.
Definition sim_encoder : t := (mk sim_output two_frames 0 0 30 [] 0 0 [] "/tmp/encoder" false).
(** Three frames of one pixel, one of the wrong size. *)
Definition sim_ops : list op := [Encode "abc" 1 1; Encode "xy" 1 1; Encode "def" 1 1; Encode "ghi" 1 1].
Definition empty_disk : SimVideo.W := SimVideo.mkW ∅ ∅.
Definition sim_run := run (W := SimVideo.W) sim_ops sim_encoder empty_disk [].

Lemma outside_out : ~ inside "/tmp/encoder" "/out/video.mp4".
Proof. intros (name & Hn & E). unfold join in E. by rewrite Hn in E. Qed.

Lemma sim_sound : sound empty_disk.
Proof. reflexivity. Qed.

Lemma sim_new : new (W := SimVideo.W) 30 sim_output two_frames empty_disk = (Ok sim_encoder, empty_disk).
Proof. reflexivity. Qed.


Lemma fragment_buffer_bounded_witness :
  let '(r, e', _) := encode_frame (W := SimVideo.W) "abc" 1 1 sim_encoder empty_disk in r = Ok false /\ (frame_buffer e' = [] \/ buffered_frames e' < 2).
Proof.
  destruct (encode_frame (W := SimVideo.W) "abc" 1 1 sim_encoder empty_disk) as [[r e'] w'] eqn:E.
  assert (r = Ok false) as -> by (vm_compute in E; by injection E as <- _). split; [done|].
  destruct (fragment_buffer_bounded True "abc" 1 1 sim_encoder empty_disk [] false e' w' (proj1 (new_encoder_ok True _ _ _ _ _ _ (fun _ => sim_sound) sim_new)) E)
    as [Hb|(Hm & _)]; [by left|right]. apply Hm. vm_compute in E. by injection E as <- _.
Defined.

(** In the single-file mode the paths returned are those of temporary files, which are gone when [finalize] returns. *)
Example single_file_returns_removed_fragments :
  match finalize sim_run.1.1 sim_run.1.2 with
  | (Ok r, w') => FragmentEncodingResult.fragment_paths r = ["/tmp/encoder/fragment_0000.mp4"; "/tmp/encoder/fragment_0001.mp4"]%string /\
      (fun p => SimVideo.videos w' !! p) <$> FragmentEncodingResult.fragment_paths r = [None; None]
  | _ => False
  end.
Proof. vm_compute. split; reflexivity. Qed.

(** Without any frame the other mode succeeds. *)
Example no_frames_is_no_error :
  is_Ok (finalize (W := SimVideo.W) (sim_encoder <| output_config := FragmentOutputConfig.MultipleFragments "/out" "video" |>) empty_disk).1 = true.
Proof. reflexivity. Qed.

(** A fragment whose last frame cannot be read back when it is composed: [finalize] succeeds, reports three frames, and the
    file shows two. *)
Example unreadable_frame_is_lost :
  let '(e, w, fs) := run (W := SimVideo.W) sim_ops sim_encoder (SimVideo.mkW ∅ {[ "/tmp/encoder/fragment_0000.mp4"%string := 1%nat ]}) [] in
  match finalize e w with
  | (Ok r, w') => FragmentEncodingResult.frames_encoded r = 3 /\ SimVideo.videos w' !! "/out/video.mp4"%string = Some ["abc"; "ghi"]%string
  | _ => False
  end.
Proof. vm_compute. split; reflexivity. Qed.
End Witnesses.
