(* ===== verification/Streaming.v ===== *)
(** * Reading an object in chunks

    crates/roboflow-storage/src/streaming.rs: [StreamingOssReader] reads an object through
    range requests of a fixed size and keeps the last chunk.  The object store is an
    argument: a request returns bytes or fails.  Bytes are a [list Z]; sizes and offsets
    are [u64] and [usize] values, which have the same width. *)
From S2P Require Import Prelude.
From stdpp Require Import pretty.
#[local] Open Scope Z_scope.

Abbreviation bytes := (list Z) (only parsing).
Definition len (b : bytes) : Z := Z.of_nat (length b).
(** [&b[start..start + n]], in range. *)
Definition slice (b : bytes) (start n : Z) : bytes := take (Z.to_nat n) (drop (Z.to_nat start) b).

Module StreamingOssReader.
Record t := mk {
  object_size : Z;
  position : Z;
  chunk_size : Z;
  current_buffer : option bytes;
  buffer_offset : Z }.
#[global] Instance t_eta : Settable t := fun r =>
  mk (object_size r) (position r) (chunk_size r) (current_buffer r) (buffer_offset r).

Definition new (object_size chunk_size : Z) : t := mk object_size 0 chunk_size None 0.

Section Store.
(** [get_range(start..end)]; [S] is the store and the connection to it. *)
Context {S : Type} (get_range : Z -> Z -> S -> (string + bytes) * S).

Definition fetch_chunk_at (start : Z) (r : t) (s : S) : result string bytes * S :=
  let end_ := Z.min (u64_add start (chunk_size r)) (object_size r) in
  match get_range start end_ s with
  | (inl e, s') => (Err ("Failed to fetch range: " +:+ e), s')
  | (inr chunk, s') => (Ok chunk, s')
  end.

Definition needs_fetch (r : t) : bool :=
  match current_buffer r with
  | None => true
  | Some buffer => u64_add (buffer_offset r) (len buffer) <=? position r
  end.

Definition ensure_buffer (r : t) (s : S) : result string unit * t * S :=
  if needs_fetch r then
    if object_size r <=? position r then (Ok tt, r, s)
    else
      match fetch_chunk_at (position r) r s with
      | (Ok chunk, s') => (Ok tt, r <| buffer_offset := position r |> <| current_buffer := Some chunk |>, s')
      | (Err e, s') => (Err e, r, s')
      | (Panic m, s') => (Panic m, r, s')
      end
  else (Ok tt, r, s).

Definition buffer_position (r : t) : Z :=
  if position r <? buffer_offset r then 0 else position r - buffer_offset r.

(** [read] into a buffer of [n] bytes: the bytes that were copied. *)
Definition read (n : Z) (r : t) (s : S) : result string bytes * t * S :=
  if object_size r <=? position r then (Ok [], r, s)
  else
    match ensure_buffer r s with
    | (Err e, r, s) => (Err e, r, s)
    | (Panic m, r, s) => (Panic m, r, s)
    | (Ok tt, r, s) =>
        match current_buffer r with
        | None => (Ok [], r, s)
        | Some buffer =>
            let buf_pos := buffer_position r in
            let remaining := as_u64 (len buffer - buf_pos) in
            let to_read := Z.min remaining n in
            if 0 <? to_read then
              if len buffer <? buf_pos + to_read then (Panic "range end index out of range for slice", r, s)
              else (Ok (slice buffer buf_pos to_read), r <| position := u64_add (position r) to_read |>, s)
            else (Ok [], r, s)
        end
    end.
End Store.

Definition seek_to (offset : Z) (r : t) : result string unit * t :=
  if object_size r <? offset then
    (Err ("Seek offset " +:+ pretty offset +:+ " exceeds object size " +:+ pretty (object_size r)), r)
  else (Ok tt, r <| position := offset |> <| current_buffer := None |> <| buffer_offset := 0 |>).
End StreamingOssReader.

(** ** The contract: a cursor over the object *)
Inductive op := Read (n : Z) | Seek (offset : Z).
Inductive outcome := Data (b : bytes) | Moved | Failed (e : string).

Section Cursor.
Context (object : bytes).

(** A read returns bytes from the cursor on, at most as many as asked for, and none only at the end or when none
    were asked for; a call that fails does not move. *)
Inductive cursor_step : Z -> op -> outcome -> Z -> Prop :=
| cursor_read pos n k :
    0 <= k <= n -> pos + k <= Z.max pos (len object) -> (k = 0 -> n = 0 \/ len object <= pos) ->
    cursor_step pos (Read n) (Data (slice object pos k)) (pos + k)
| cursor_read_fails pos n e : cursor_step pos (Read n) (Failed e) pos
| cursor_seek pos offset : offset <= len object -> cursor_step pos (Seek offset) Moved offset
| cursor_seek_fails pos offset e : len object < offset -> cursor_step pos (Seek offset) (Failed e) pos.

Inductive cursor_run : Z -> list (op * outcome) -> Z -> Prop :=
| cursor_done pos : cursor_run pos [] pos
| cursor_more pos o x pos' l pos'' : cursor_step pos o x pos' -> cursor_run pos' l pos'' -> cursor_run pos ((o, x) :: l) pos''.
End Cursor.

Section Refinement.
Import StreamingOssReader.
Context {S : Type} (get_range : Z -> Z -> S -> (string + bytes) * S) (object : bytes).
(** A request that succeeds returns the range of the object. *)
Hypothesis get_range_exact : forall a b s chunk s',
  0 <= a <= b -> b <= len object -> get_range a b s = (inr chunk, s') -> chunk = slice object a (b - a).

(** What a caller sees of a call; a panic is nothing a cursor does. *)
Definition call (o : op) (r : t) (s : S) : option outcome * t * S :=
  match o with
  | Read n =>
      match read get_range n r s with
      | (Ok b, r, s) => (Some (Data b), r, s)
      | (Err e, r, s) => (Some (Failed e), r, s)
      | (Panic _, r, s) => (None, r, s)
      end
  | Seek offset =>
      match seek_to offset r with
      | (Ok tt, r) => (Some Moved, r, s)
      | (Err e, r) => (Some (Failed e), r, s)
      | (Panic _, r) => (None, r, s)
      end
  end.

Fixpoint calls (ops : list op) (r : t) (s : S) : option (list (op * outcome)) * t * S :=
  match ops with
  | [] => (Some [], r, s)
  | o :: ops' =>
      match call o r s with
      | (None, r, s) => (None, r, s)
      | (Some x, r, s) => let '(l, r, s) := calls ops' r s in (cons (o, x) <$> l, r, s)
      end
  end.

(** The buffer holds bytes of the object around the position. *)
Record reader_ok (r : t) : Prop := {
  ok_size : object_size r = len object;
  ok_fits : len object + chunk_size r < u64_mod;
  ok_chunk : 0 < chunk_size r;
  ok_pos : 0 <= position r <= len object;
  ok_buffer : forall b, current_buffer r = Some b -> 0 <= buffer_offset r <= position r /\ position r <= buffer_offset r + len b <= len object /\
    b = slice object (buffer_offset r) (len b) }.

Lemma len_nonneg b : 0 <= len b.
Proof. unfold len. lia. Qed.

Lemma len_slice b a n : 0 <= a -> 0 <= n -> a + n <= len b -> len (slice b a n) = n.
Proof. unfold len, slice. intros. rewrite length_take, length_drop. lia. Qed.

Lemma slice_slice b a n a' n' : 0 <= a -> 0 <= n -> 0 <= a' -> 0 <= n' -> a' + n' <= n ->
  slice (slice b a n) a' n' = slice b (a + a') n'.
Proof.
  intros. unfold slice. rewrite skipn_firstn_comm, drop_drop, take_take.
  replace (Z.to_nat (a + a')) with (Z.to_nat a + Z.to_nat a')%nat by lia. f_equal. lia.
Qed.

Lemma ensure_buffer_spec r s x r' s' : reader_ok r -> position r < object_size r -> ensure_buffer get_range r s = (x, r', s') ->
  reader_ok r' /\ position r' = position r /\
  match x with
  | Ok _ => exists b, current_buffer r' = Some b /\ position r' < buffer_offset r' + len b
  | Err _ => True
  | Panic _ => False
  end.
Proof.
  intros H Hp. pose proof (ok_pos _ H) as Hpos. pose proof (ok_fits _ H) as Hfits. pose proof (ok_chunk _ H) as Hc. pose proof (ok_size _ H) as Hsz.
  unfold ensure_buffer. destruct (needs_fetch r) eqn:En.
  - destruct (Z.leb_spec (object_size r) (position r)); [lia|]. unfold fetch_chunk_at.
    rewrite u64_add_small by lia. set (b := Z.min _ _).
    destruct (get_range (position r) b s) as [[e|chunk] s1] eqn:E; intros [= <- <- <-]; [done|].
    apply get_range_exact in E as ->; [|lia|lia]. assert (Hl : len (slice object (position r) (b - position r)) = b - position r) by (apply len_slice; lia).
    split_and!; [|done|].
    + split; cbn; try done; try lia. intros ? [= <-]. rewrite Hl. split_and!; lia || done.
    + eexists. split; [done|]. cbn. lia.
  - intros [= <- <- <-]. split_and!; [done|done|]. unfold needs_fetch in En. destruct (current_buffer r) as [b|] eqn:Eb; [|done].
    exists b. split; [done|]. destruct (ok_buffer _ H b Eb) as (H1 & H2 & _). rewrite u64_add_small in En by (pose proof (len_nonneg b); lia). lia.
Qed.

(** A call is a step of the cursor. *)
Lemma call_spec o r s x r' s' : reader_ok r -> (forall n, o = Read n -> 0 <= n) -> (forall k, o = Seek k -> 0 <= k) -> call o r s = (x, r', s') ->
  reader_ok r' /\ exists y, x = Some y /\ cursor_step object (position r) o y (position r').
Proof.
  intros H Hn Hk. pose proof (ok_pos _ H) as Hpos. pose proof (ok_size _ H) as Hsz. destruct o as [n|k]; cbn [call].
  - specialize (Hn n eq_refl). unfold read. destruct (Z.leb_spec (object_size r) (position r)) as [He|He].
    { intros [= <- <- <-]. split; [done|]. eexists. split; [done|].
      pose proof (cursor_read object (position r) n 0 ltac:(lia) ltac:(lia) ltac:(lia)) as Hs. by rewrite Z.add_0_r in Hs. }
    destruct (ensure_buffer get_range r s) as [[u r1] s1] eqn:E. apply ensure_buffer_spec in E as (H1 & Hp1 & Hu); [|done|done].
    destruct u as [[]|e|m]; [|intros [= <- <- <-]; rewrite Hp1; split; [done|]; eexists; split; [done|constructor]|done].
    destruct Hu as (b & Eb & Hb). rewrite Eb. destruct (ok_buffer _ H1 b Eb) as (H2 & H3 & Hslice).
    pose proof (ok_fits _ H1). pose proof (ok_chunk _ H1). pose proof (len_nonneg b).
    assert (Ep : buffer_position r1 = position r1 - buffer_offset r1) by (unfold buffer_position; destruct (Z.ltb_spec (position r1) (buffer_offset r1)); lia).
    rewrite Ep, as_u64_id by (split; lia). set (k := Z.min _ n). assert (Hkk : 0 <= k) by lia.
    destruct (Z.ltb_spec 0 k) as [Hk0|Hk0].
    + destruct (Z.ltb_spec (len b) (position r1 - buffer_offset r1 + k)) as [Hov|Hov]; [lia|].
      intros [= <- <- <-]. rewrite (u64_add_small (position r1) k) by lia. split.
      * destruct H1. split; cbn; try done; try lia. intros b' Hb'. rewrite Eb in Hb'. injection Hb' as <-. split_and!; lia || done.
      * eexists. split; [done|]. rewrite Hslice, slice_slice by lia.
        replace (buffer_offset r1 + (position r1 - buffer_offset r1)) with (position r1) by lia. cbn.
        rewrite Hp1. apply cursor_read; lia.
    + intros [= <- <- <-]. split; [done|]. eexists. split; [done|]. rewrite Hp1.
      pose proof (cursor_read object (position r) n 0 ltac:(lia) ltac:(lia) ltac:(lia)) as Hs. by rewrite Z.add_0_r in Hs.
  - specialize (Hk k eq_refl). unfold seek_to. destruct (Z.ltb_spec (object_size r) k) as [He|He]; intros [= <- <- <-].
    + split; [done|]. eexists. split; [done|]. constructor. lia.
    + split; [|eexists; split; [done|]; cbn; constructor; lia]. destruct H. split; cbn; try done; lia.
Qed.

(** C27: the reader is a cursor over the object.  Whatever reads and seeks are made on a new reader with a positive chunk
    size, and whichever requests to the store fail: no call panics, and what the calls return is what
    a cursor over the object returns. *)
Theorem stream_reader_refines_cursor ops chunk s l r s' :
  0 < chunk -> len object + chunk < u64_mod ->
  Forall (fun o => match o with Read n => 0 <= n | Seek k => 0 <= k end) ops ->
  calls ops (new (len object) chunk) s = (l, r, s') ->
  exists trace, l = Some trace /\ cursor_run object 0 trace (position r).
Proof.
  intros Hc Hf Hops. assert (H : reader_ok (new (len object) chunk)).
  { split; cbn; try done. pose proof (len_nonneg object). lia. }
  change 0 with (position (new (len object) chunk)). revert H l. generalize (new (len object) chunk) as r0. revert s.
  induction Hops as [|o ops Ho Hops IH]; intros s r0 H l; cbn.
  { intros [= <- <- <-]. eexists. split; [done|constructor]. }
  destruct (call o r0 s) as [[x r1] s1] eqn:E. apply call_spec in E as (H1 & y & -> & Hs); [|done|by intros n ->|by intros k ->].
  destruct (calls ops r1 s1) as [[l1 r2] s2] eqn:E1. intros [= <- <- <-]. destruct (IH _ _ H1 _ E1) as (tr & -> & Hr).
  eexists. split; [done|]. by econstructor.
Qed.

(** Reading to the end with a buffer of [n] bytes; [None] is a loop that is not finished. *)
Fixpoint read_to_end (fuel : nat) (n : Z) (r : t) (s : S) (acc : bytes) : option (result string bytes) :=
  match fuel with
  | O => None
  | Datatypes.S fuel' =>
      match read get_range n r s with
      | (Ok [], _, _) => Some (Ok acc)
      | (Ok b, r, s) => read_to_end fuel' n r s (acc ++ b)
      | (Err e, _, _) => Some (Err e)
      | (Panic m, _, _) => Some (Panic m)
      end
  end.

Hypothesis get_range_answers : forall a b s, 0 <= a <= b -> b <= len object -> exists chunk s', get_range a b s = (inr chunk, s').

Lemma read_answers n r s : reader_ok r -> exists x r' s', read get_range n r s = (x, r', s') /\ forall e, x <> Err e.
Proof.
  intros H. pose proof (ok_pos _ H). pose proof (ok_fits _ H). pose proof (ok_chunk _ H). pose proof (ok_size _ H). unfold read.
  destruct (Z.leb_spec (object_size r) (position r)); [by eexists _, _, _|]. unfold ensure_buffer, fetch_chunk_at.
  rewrite u64_add_small by lia.
  destruct (get_range_answers (position r) (Z.min (position r + chunk_size r) (object_size r)) s) as (chunk & s1 & ->); [lia|lia|].
  destruct (needs_fetch r), (Z.leb_spec (object_size r) (position r)); try lia; cbn [current_buffer set_field];
    repeat case_match; by eexists _, _, _.
Qed.

Lemma slice_app (b : bytes) a n : 0 <= a -> 0 <= n -> slice b 0 a ++ slice b a n = slice b 0 (a + n).
Proof.
  intros. unfold slice. rewrite !drop_0. replace (Z.to_nat (a + n)) with (Z.to_nat a + Z.to_nat n)%nat by lia. by rewrite take_take_drop.
Qed.

Lemma read_to_end_from fuel n r s : reader_ok r -> 0 < n -> len object - position r < Z.of_nat fuel ->
  read_to_end fuel n r s (slice object 0 (position r)) = Some (Ok object).
Proof.
  revert r s. induction fuel as [|fuel IH]; intros r s H Hn Hf; [pose proof (ok_pos _ H); lia|]. cbn [read_to_end].
  destruct (call (Read n) r s) as [[x r1] s1] eqn:E.
  destruct (call_spec (Read n) r s x r1 s1 H) as (H1 & y & -> & Hs); [intros n' E'; injection E' as <-; lia|done|exact E|].
  cbn in E. destruct (read_answers n r s H) as ([b|e|m] & r2 & s2 & Er & Hne); rewrite Er in E |- *; [|by destruct (Hne e)|done].
  injection E as <- -> ->. inversion Hs as [? ? k Hk Hle Hz Epos Eo Ed Epos'| | |]; subst.
  pose proof (ok_pos _ H) as Hpos. pose proof (ok_pos _ H1) as Hpos1.
  assert (Hlen : len (slice object (position r) k) = k) by (apply len_slice; lia).
  destruct (slice object (position r) k) as [|b0 bs] eqn:Eb.
  - unfold len in Hlen. cbn in Hlen. destruct (Hz ltac:(lia)) as [?|Hend]; [lia|]. f_equal. f_equal. unfold slice. rewrite drop_0.
    apply take_ge. unfold len in *. lia.
  - rewrite <-Eb, slice_app by lia. replace (position r + k) with (position r1) by done. apply IH; [done|done|].
    unfold len in Hlen at 1. cbn in Hlen. lia.
Qed.

(** Reading to the end terminates with the object.  When the store answers, reading a new reader with any positive buffer size
    until a read returns nothing takes at most one read per byte and one more, and yields exactly the object. *)
Theorem stream_reads_object chunk n s :
  0 < chunk -> len object + chunk < u64_mod -> 0 < n ->
  read_to_end (Datatypes.S (length object)) n (new (len object) chunk) s [] = Some (Ok object).
Proof.
  intros Hc Hf Hn. apply (read_to_end_from _ n (new (len object) chunk)); [|done|unfold len; cbn; lia].
  split; cbn; try done. pose proof (len_nonneg object). lia.
Qed.
End Refinement.

Section Witnesses.
(** A store that fails on its second request. *)
Definition sim_range (a b : Z) (requests : Z) : (string + bytes) * Z :=
  (if requests =? 1 then inl "timeout"%string else inr (slice [10; 20; 30; 40; 50] a (b - a)), requests + 1).
Definition sim_reads : list op := [Read 1; Read 5; Read 5; Read 5; Seek 9; Seek 1; Read 1].

Lemma stream_reader_refines_cursor_witness :
  exists trace r s, calls sim_range sim_reads (StreamingOssReader.new 5 2) 0 = (Some trace, r, s) /\
    cursor_run [10; 20; 30; 40; 50] 0 trace (StreamingOssReader.position r) /\
    trace.*2 = [Data [10]; Data [20]; Failed "Failed to fetch range: timeout"; Data [30; 40];
                Failed "Seek offset 9 exceeds object size 5"; Moved; Data [20]].
Proof.
  destruct (calls sim_range sim_reads (StreamingOssReader.new 5 2) 0) as [[l r] s'] eqn:E.
  destruct (stream_reader_refines_cursor sim_range [10; 20; 30; 40; 50]) with (ops := sim_reads) (chunk := 2) (s := 0) (l := l) (r := r) (s' := s')
    as (trace & -> & Hr).
  - intros a b s chunk s1 _ _. unfold sim_range. destruct (s =? 1); [discriminate|]. by intros [= <- _].
  - lia.
  - reflexivity.
  - repeat constructor; discriminate.
  - exact E.
  - exists trace, r, s'. split; [done|]. split; [done|]. vm_compute in E. by injection E as <- _ _.
Defined.

Lemma stream_reads_object_witness :
  read_to_end (fun a b (_ : unit) => (inr (slice [1; 2; 3] a (b - a)), tt)) 4 2 (StreamingOssReader.new 3 2) tt [] = Some (Ok [1; 2; 3]).
Proof.
  apply (stream_reads_object (fun a b (_ : unit) => (inr (slice [1; 2; 3] a (b - a)), tt)) [1; 2; 3]).
  - by intros a b s chunk s' _ _ [= <- _].
  - intros a b s _ _. by eexists _, _.
  - lia.
  - reflexivity.
  - lia.
Defined.
End Witnesses.
