(* ===== verification/Stats.v ===== *)
(** * Episode statistics (crates/roboflow-distributed/src/stats/)

    Workers record the statistics of each episode they convert; the finalizer reads
    the summary of a batch.  [StatsCollector] is the trait, with the two collectors of
    the source as instances: one in TiKV, one in memory.  [f32] arithmetic is that of
    [SpecFloat].  [serde_json] is a parameter: it writes a number that is not finite as
    [null] and does not read that back as [f32], so the law it is used under
    ([StatsJson]) is for finite statistics. *)
From Corelib Require Import SpecFloat.
From stdpp Require Import pretty.
From S2P Require Import Prelude Codec TikvError Circuit Keys Env Effects Schema Client.
#[local] Open Scope Z_scope.

(** ** [f32] *)
Abbreviation f32 := spec_float.
Definition f32_add : f32 -> f32 -> f32 := SFadd 24 128.
Definition f32_sub : f32 -> f32 -> f32 := SFsub 24 128.
Definition f32_mul : f32 -> f32 -> f32 := SFmul 24 128.
Definition f32_div : f32 -> f32 -> f32 := SFdiv 24 128.
Definition f32_sqrt : f32 -> f32 := SFsqrt 24 128.
Definition f32_zero : f32 := S754_zero false.
(** [n as f32]. *)
Definition f32_of (n : Z) : f32 := binary_normalize 24 128 n 0 false.
(** [f32::min], [f32::max]: the other number when one is not a number.  Between the two
    zeros either may come back; here it is the first. *)
Definition f32_min (x y : f32) : f32 :=
  match x, y with S754_nan, _ => y | _, S754_nan => x | _, _ => if SFltb y x then y else x end.
Definition f32_max (x y : f32) : f32 :=
  match x, y with S754_nan, _ => y | _, S754_nan => x | _, _ => if SFltb x y then y else x end.

Definition f32_is_finite (x : f32) : bool :=
  match x with S754_zero _ | S754_finite _ _ _ => true | _ => false end.

#[global] Instance f32_eq_dec : EqDecision f32.
Proof. solve_decision. Defined.

Definition index_out_of_bounds {E A} : result E A := Panic "index out of bounds".

(** ** Data (types.rs) *)
Module FeatureStats.
(** [struct FeatureStats]. *)
Record t : Type := mk { min : list f32; max : list f32; mean : list f32; std : list f32 }.

Definition empty (dim : nat) : t :=
  mk (replicate dim f32_zero) (replicate dim f32_zero) (replicate dim f32_zero) (replicate dim f32_zero).

Definition dim (s : t) : nat := length (min s).

#[global] Instance t_eq_dec : EqDecision t.
Proof. solve_decision. Defined.

(** All vectors have the dimension of the feature. *)
Definition wf (s : t) : Prop :=
  length (max s) = dim s /\ length (mean s) = dim s /\ length (std s) = dim s.

Definition finite (s : t) : bool :=
  forallb f32_is_finite (min s ++ max s ++ mean s ++ std s).
End FeatureStats.

Module EpisodeStats.
(** [struct EpisodeStats]. *)
Record t : Type := mk {
  episode_index : Z;
  frame_count : Z;
  feature_stats : gmap string FeatureStats.t;
  task_indices : list Z;
  recorded_at : option Z
}.

#[global] Instance t_eta : Settable t := fun r =>
  mk (episode_index r) (frame_count r) (feature_stats r) (task_indices r) (recorded_at r).

(** [EpisodeStats::new] at the timestamp [now]. *)
Definition new (now episode_index frame_count : Z) : t := mk episode_index frame_count ∅ [] (Some now).

(** [EpisodeStats::add_feature]. *)
Definition add_feature (name : string) (stats : FeatureStats.t) (e : t) : bool * t :=
  if (FeatureStats.dim stats =? 0)%nat then (false, e)
  else (true, e <| feature_stats := <[name := stats]> (feature_stats e) |>).

Definition finite (e : t) : Prop := map_Forall (fun _ s => FeatureStats.finite s = true) (feature_stats e).
Definition wf (e : t) : Prop := map_Forall (fun _ s => FeatureStats.wf s) (feature_stats e).
End EpisodeStats.

Module BatchStatsSummary.
(** [struct BatchStatsSummary]. *)
Record t : Type := mk {
  batch_id : string;
  total_episodes : Z;
  total_frames : Z;
  episodes : gmap Z EpisodeStats.t;
  global_stats : gmap string FeatureStats.t
}.

#[global] Instance t_eta : Settable t := fun r =>
  mk (batch_id r) (total_episodes r) (total_frames r) (episodes r) (global_stats r).

Definition new (batch_id : string) : t := mk batch_id 0 0 ∅ ∅.

(** [BatchStatsSummary::add_episode]. *)
Definition add_episode (stats : EpisodeStats.t) (s : t) : t :=
  s <| total_frames := u64_add (total_frames s) (EpisodeStats.frame_count stats) |>
    <| total_episodes := u64_add (total_episodes s) 1 |>
    <| episodes := <[EpisodeStats.episode_index stats := stats]> (episodes s) |>.

(** [for i in 0..dim { xs[i] = f(xs[i], ys[i]); }]. *)
Fixpoint update_dims {E} (f : f32 -> f32 -> f32) (dim : nat) (xs ys : list f32) : result E (list f32) :=
  match dim, xs, ys with
  | O, _, _ => Ok xs
  | S dim', x :: xs', y :: ys' => rest ← update_dims f dim' xs' ys'; mret (f x y :: rest)
  | _, _, _ => index_out_of_bounds
  end.

(** The second moments an episode's deviations stand for. *)
Definition second_moments (count : Z) (std : list f32) : list f32 :=
  (fun s => if 1 <? count then f32_mul (f32_mul s s) (f32_of (count - 1)) else f32_zero) <$> std.

(** The loop that combines means and second moments. *)
Fixpoint welford_dims {E} (count_a count_b total_count : Z) (dim : nat) (mean m2 mean_b m2_b : list f32)
  : result E (list f32 * list f32) :=
  match dim, mean_b, mean, m2, m2_b with
  | O, _, _, _, _ => Ok (mean, m2)
  | S dim', mb :: mean_b', m :: mean', v :: m2', vb :: m2_b' =>
      let delta := f32_sub mb m in
      let m' := f32_add m (f32_div (f32_mul delta (f32_of count_b)) (f32_of total_count)) in
      let v' := f32_add v (f32_add vb
        (f32_div (f32_mul (f32_mul (f32_mul delta delta) (f32_of count_a)) (f32_of count_b))
                 (f32_of total_count))) in
      rest ← welford_dims count_a count_b total_count dim' mean' m2' mean_b' m2_b';
      mret (m' :: rest.1, v' :: rest.2)
  | _, _, _, _, _ => index_out_of_bounds
  end.

(** The variables of the loop over the remaining episodes. *)
Record acc : Type := mkAcc {
  total_count : Z; global_min : list f32; global_max : list f32; mean : list f32; m2 : list f32 }.

Definition combine {E} (dim : nat) (a : acc) (e : Z * FeatureStats.t) : result E acc :=
  let '(count_b, stats) := e in
  let count_a := total_count a in
  let total := u64_add count_a count_b in
  gmin ← update_dims f32_min dim (global_min a) (FeatureStats.min stats);
  gmax ← update_dims f32_max dim (global_max a) (FeatureStats.max stats);
  mm ← welford_dims count_a count_b total dim (mean a) (m2 a) (FeatureStats.mean stats)
         (second_moments count_b (FeatureStats.std stats));
  mret (mkAcc total gmin gmax mm.1 mm.2).

Fixpoint combine_all {E} (dim : nat) (a : acc) (l : list (Z * FeatureStats.t)) : result E acc :=
  match l with
  | [] => mret a
  | e :: l' => a' ← combine dim a e; combine_all dim a' l'
  end.

(** [BatchStatsSummary::aggregate_feature_stats]. *)
Definition aggregate_feature_stats {E} (stats_with_counts : list (Z * FeatureStats.t))
  : result E (option FeatureStats.t) :=
  match stats_with_counts with
  | [] => mret None
  | (first_count, first_stats) :: rest =>
      let dim := FeatureStats.dim first_stats in
      if (dim =? 0)%nat then mret None
      else if negb (forallb (fun e => (FeatureStats.dim e.2 =? dim)%nat) stats_with_counts) then mret None
      else
        a ← combine_all dim
              (mkAcc first_count (FeatureStats.min first_stats) (FeatureStats.max first_stats)
                 (FeatureStats.mean first_stats) (second_moments first_count (FeatureStats.std first_stats)))
              rest;
        let std := (fun v => if 1 <? total_count a then f32_sqrt (f32_div v (f32_of (total_count a - 1)))
                             else f32_zero) <$> m2 a in
        mret (Some (FeatureStats.mk (global_min a) (global_max a) (mean a) std))
  end.

Section Global.
Context `{!HashOrder Z, !HashOrder string}.

(** [feature_values.entry(name).or_default().push((frame_count, stats))]. *)
Definition push_value (frame_count : Z) (m : gmap string (list (Z * FeatureStats.t)))
  (e : string * FeatureStats.t) : gmap string (list (Z * FeatureStats.t)) :=
  <[e.1 := default [] (m !! e.1) ++ [(frame_count, e.2)]]> m.

Definition collect_values (episodes : list EpisodeStats.t) : gmap string (list (Z * FeatureStats.t)) :=
  foldl (fun m ep => foldl (push_value (EpisodeStats.frame_count ep)) m
                       (hash_iter (EpisodeStats.feature_stats ep))) ∅ episodes.

Fixpoint aggregate_all {E} (l : list (string * list (Z * FeatureStats.t)))
  (global : gmap string FeatureStats.t) : result E (gmap string FeatureStats.t) :=
  match l with
  | [] => mret global
  | (name, values) :: l' =>
      a ← aggregate_feature_stats values;
      aggregate_all l' (match a with Some s => <[name := s]> global | None => global end)
  end.

(** [BatchStatsSummary::calculate_global_stats]. *)
Definition calculate_global_stats {E} (s : t) : result E t :=
  g ← aggregate_all (hash_iter (collect_values ((hash_iter (episodes s)).*2))) ∅;
  mret (s <| global_stats := g |>).
End Global.

End BatchStatsSummary.

(** ** Keys (keys.rs) *)

(** [str::rfind], and the text after the match. *)
Fixpoint after_last (sub s : string) : option string :=
  match s with
  | String _ s' =>
      match after_last sub s' with
      | Some r => Some r
      | None => Prelude.strip_prefix sub s
      end
  | EmptyString => Prelude.strip_prefix sub s
  end.

(** [usize::from_str]. *)
Definition digit (c : ascii) : option Z :=
  let n := Z.of_nat (nat_of_ascii c) in if (48 <=? n) && (n <=? 57) then Some (n - 48) else None.
Fixpoint parse_digits (s : string) (acc : Z) : option Z :=
  match s with
  | EmptyString => Some acc
  | String c s' =>
      match digit c with
      | Some d => if 10 * acc + d <=? u64_max then parse_digits s' (10 * acc + d) else None
      | None => None
      end
  end.
Definition parse_usize (s : string) : option Z :=
  match s with
  | EmptyString => None
  | String c s' =>
      if Ascii.eqb c "+" then (if String.eqb s' "" then None else parse_digits s' 0) else parse_digits s 0
  end.

(** [str::ends_with]. *)
Fixpoint ends_with (s suffix : string) : bool :=
  String.eqb s suffix || match s with EmptyString => false | String _ s' => ends_with s' suffix end.

Module StatsKeys.
Definition STATS_PREFIX : string := "stats/".
Definition SEPARATOR : string := "/".
Definition BATCH_META_SUFFIX : string := "/meta".

Definition batch_meta (batch_id : string) : string := STATS_PREFIX +:+ batch_id +:+ BATCH_META_SUFFIX.
Definition episode (batch_id : string) (episode_index : Z) : string :=
  STATS_PREFIX +:+ batch_id +:+ SEPARATOR +:+ "episode/" +:+ pretty episode_index.
Definition batch_prefix (batch_id : string) : string := STATS_PREFIX +:+ batch_id +:+ SEPARATOR.

Definition parse_episode_index (key : string) : option Z :=
  match after_last "/episode/" key with Some s => parse_usize s | None => None end.
Definition is_batch_meta (key : string) : bool := ends_with key BATCH_META_SUFFIX.
Definition is_episode_key (key : string) : bool := contains "/episode/" key && negb (ends_with key "/meta").
End StatsKeys.

(** [u64::to_be_bytes], [u64::from_be_bytes]. *)
Fixpoint to_be (n : nat) (x : Z) : string :=
  match n with
  | O => ""
  | S n' => String (ascii_of_nat (Z.to_nat (x / 256 ^ Z.of_nat n' mod 256))) (to_be n' x)
  end.
Definition to_be_bytes : Z -> string := to_be 8.
Fixpoint from_be (s : string) (acc : Z) : Z :=
  match s with EmptyString => acc | String c s' => from_be s' (256 * acc + Z.of_nat (nat_of_ascii c)) end.
Definition from_be_bytes (s : string) : option Z :=
  if (String.length s =? 8)%nat then Some (from_be s 0) else None.

(** ** The collectors *)

(** [trait StatsCollector] over the state [W]. *)
Class StatsCollector (W : Type) := {
  record_episode_stats : string -> EpisodeStats.t -> W -> result TikvError.t unit * W;
  get_batch_stats : string -> W -> result TikvError.t (option BatchStatsSummary.t) * W;
  delete_batch_stats : string -> W -> result TikvError.t unit * W;
  is_healthy : W -> bool
}.

Module TiKVStatsCollector.
Definition MAX_SCAN_LIMIT : Z := 100000.

Section Ops.
Context {S : Type} `{TransactionClient S}.
Context `{!HashOrder Z, !HashOrder string}.
Context `{Codec EpisodeStats.t}.
Abbreviation Tikv := (M S TikvError.t).

(** [increment_episode_count]. *)
Definition increment_episode_count (c : TikvClient.t) (batch_id : string) : Tikv Z :=
  let key := StatsKeys.batch_meta batch_id in
  value ← TikvClient.get c key;
  current ← match value with
            | Some v =>
                match from_be_bytes v with
                | Some n => mret n
                | None => throw (TikvError.Deserialization "Invalid episode count: expected 8 bytes")
                end
            | None => mret 0
            end;
  let next := u64_add current 1 in
  TikvClient.put c key (to_be_bytes next);;
  mret next.

(** [record_episode_stats]. *)
Definition record_episode_stats (c : TikvClient.t) (batch_id : string) (stats : EpisodeStats.t) : Tikv unit :=
  let key := StatsKeys.episode batch_id (EpisodeStats.episode_index stats) in
  value ← of_sum (fun e => TikvError.Serialization ("Failed to serialize episode stats: " +:+ e)) (encode stats);
  TikvClient.put c key value;;
  increment_episode_count c batch_id;;
  mret tt.

(** The loop of [get_batch_stats]. *)
Definition add_entry (summary : BatchStatsSummary.t) (kv : string * string) : BatchStatsSummary.t :=
  let '(key, value) := kv in
  if StatsKeys.is_batch_meta key then summary
  else if StatsKeys.is_episode_key key then
    match decode (A:=EpisodeStats.t) value with
    | inr episode_stats => BatchStatsSummary.add_episode episode_stats summary
    | inl _ => summary
    end
  else summary.

(** [get_batch_stats]. *)
Definition get_batch_stats (c : TikvClient.t) (batch_id : string) : Tikv (option BatchStatsSummary.t) :=
  kvs ← TikvClient.scan c (StatsKeys.batch_prefix batch_id) MAX_SCAN_LIMIT;
  match kvs with
  | [] => mret None
  | _ =>
      let summary := foldl add_entry (BatchStatsSummary.new batch_id) kvs in
      summary ← lift (BatchStatsSummary.calculate_global_stats summary);
      mret (Some summary)
  end.

Fixpoint delete_all (c : TikvClient.t) (kvs : list (string * string)) : Tikv unit :=
  match kvs with
  | [] => mret tt
  | (key, _) :: kvs' => TikvClient.delete c key;; delete_all c kvs'
  end.

(** [delete_batch_stats]. *)
Definition delete_batch_stats (c : TikvClient.t) (batch_id : string) : Tikv unit :=
  kvs ← TikvClient.scan c (StatsKeys.batch_prefix batch_id) MAX_SCAN_LIMIT;
  match kvs with
  | [] => mret tt
  | _ => delete_all c kvs
  end.

(** The trait's implementation by the client [c]. *)
Definition collector (c : TikvClient.t) : StatsCollector (World S) :=
  Build_StatsCollector _ (record_episode_stats c) (get_batch_stats c) (delete_batch_stats c)
    (fun _ => TikvClient.inner c).
End Ops.
End TiKVStatsCollector.

Module InMemoryStatsCollector.
(** [struct InMemoryStatsCollector]. *)
Definition t : Type := gmap string BatchStatsSummary.t.
Definition new : t := ∅.
Definition clear (s : t) : t := ∅.
Definition batch_count (s : t) : nat := size s.

Definition record_episode_stats (batch_id : string) (stats : EpisodeStats.t) (s : t) : result TikvError.t unit * t :=
  let batch := default (BatchStatsSummary.new batch_id) (s !! batch_id) in
  (Ok tt, <[batch_id := BatchStatsSummary.add_episode stats batch]> s).
Definition get_batch_stats (batch_id : string) (s : t) : result TikvError.t (option BatchStatsSummary.t) * t :=
  (Ok (s !! batch_id), s).
Definition delete_batch_stats (batch_id : string) (s : t) : result TikvError.t unit * t := (Ok tt, delete batch_id s).

#[global] Instance collector : StatsCollector t :=
  Build_StatsCollector _ record_episode_stats get_batch_stats delete_batch_stats (fun _ => true).
End InMemoryStatsCollector.

(** ** The order on [f32] *)

(** [SFcompare] orders numbers by this triple. *)
Definition rank (x : f32) : Z * Z * Z :=
  match x with
  | S754_infinity true => (-2, 0, 0)
  | S754_finite true m e => (-1, - e, Zneg m)
  | S754_zero _ | S754_nan => (0, 0, 0)
  | S754_finite false m e => (1, e, Zpos m)
  | S754_infinity false => (2, 0, 0)
  end.
Definition rank_le (a b : Z * Z * Z) : Prop :=
  a.1.1 < b.1.1 \/ a.1.1 = b.1.1 /\ (a.1.2 < b.1.2 \/ a.1.2 = b.1.2 /\ a.2 <= b.2).

Definition is_num (x : f32) : bool := match x with S754_nan => false | _ => true end.

Lemma SFcompare_rank x y : is_num x = true -> is_num y = true ->
  match SFcompare x y with
  | Some Lt => rank_le (rank x) (rank y) /\ ~ rank_le (rank y) (rank x)
  | Some Eq => rank_le (rank x) (rank y) /\ rank_le (rank y) (rank x)
  | Some Gt => ~ rank_le (rank x) (rank y) /\ rank_le (rank y) (rank x)
  | None => False
  end.
Proof.
  intros Hx Hy. unfold rank_le.
  destruct x as [sx|sx| |sx mx ex], y as [sy|sy| |sy my ey]; try done;
    try destruct sx; try destruct sy; cbn; try lia.
  all: destruct (Z.compare_spec ex ey); cbn; try lia.
  all: change (Pos.compare_cont Eq mx my) with (mx ?= my)%positive.
  all: destruct (Pos.compare_spec mx my); cbn; lia.
Qed.

Lemma SFleb_rank x y : is_num x = true -> is_num y = true -> SFleb x y = true <-> rank_le (rank x) (rank y).
Proof.
  intros Hx Hy. pose proof (SFcompare_rank x y Hx Hy) as Hc. unfold SFleb.
  destruct (SFcompare x y) as [[]|]; try done; split; intros; try done; tauto.
Qed.

Lemma SFltb_rank x y : is_num x = true -> is_num y = true -> SFltb x y = true <-> ~ rank_le (rank y) (rank x).
Proof.
  intros Hx Hy. pose proof (SFcompare_rank x y Hx Hy) as Hc. unfold SFltb.
  destruct (SFcompare x y) as [[]|]; try done; split; intros; try done; tauto.
Qed.

Lemma SFleb_trans x y z :
  is_num x = true -> is_num y = true -> is_num z = true ->
  SFleb x y = true -> SFleb y z = true -> SFleb x z = true.
Proof. intros Hx Hy Hz. rewrite !SFleb_rank by done. unfold rank_le. lia. Qed.

Lemma f32_min_spec x y : is_num x = true -> is_num y = true ->
  is_num (f32_min x y) = true /\ SFleb (f32_min x y) x = true /\ SFleb (f32_min x y) y = true.
Proof.
  intros Hx Hy. assert (f32_min x y = if SFltb y x then y else x) as -> by (by destruct x, y).
  pose proof (SFltb_rank y x Hy Hx) as Hr. unfold rank_le in Hr.
  destruct (SFltb y x); rewrite !SFleb_rank by done; unfold rank_le; (split; [done|]).
  - destruct Hr as [Hr _]. specialize (Hr eq_refl). lia.
  - split; [lia|]. destruct Hr as [_ Hr]. lia.
Qed.

Lemma f32_max_spec x y : is_num x = true -> is_num y = true ->
  is_num (f32_max x y) = true /\ SFleb x (f32_max x y) = true /\ SFleb y (f32_max x y) = true.
Proof.
  intros Hx Hy. assert (f32_max x y = if SFltb x y then y else x) as -> by (by destruct x, y).
  pose proof (SFltb_rank x y Hx Hy) as Hr. unfold rank_le in Hr.
  destruct (SFltb x y); rewrite !SFleb_rank by done; unfold rank_le; (split; [done|]).
  - destruct Hr as [Hr _]. specialize (Hr eq_refl). lia.
  - split; [lia|]. destruct Hr as [_ Hr]. lia.
Qed.

(** ** Aggregation *)
Section Aggregation.
Import BatchStatsSummary.

Abbreviation all_num l := (forallb is_num l = true).
(** Pointwise order of vectors of numbers. *)
Definition vec_le (xs ys : list f32) : Prop := Forall2 (fun x y => SFleb x y = true) xs ys.

Lemma all_num_cons x l : all_num (x :: l) <-> is_num x = true /\ all_num l.
Proof. apply andb_true_iff. Qed.

Lemma SFleb_refl x : is_num x = true -> SFleb x x = true.
Proof. intros Hx. rewrite SFleb_rank by done. unfold rank_le. lia. Qed.

Lemma vec_le_refl xs : all_num xs -> vec_le xs xs.
Proof.
  induction xs as [|x xs IH]; [constructor|]. intros [Hx Hxs]%all_num_cons.
  constructor; [by apply SFleb_refl|by apply IH].
Qed.

Lemma vec_le_trans xs ys zs : all_num xs -> all_num ys -> all_num zs ->
  vec_le xs ys -> vec_le ys zs -> vec_le xs zs.
Proof.
  intros Hx Hy Hz H1. revert zs Hx Hy Hz. induction H1 as [|x y xs ys Hxy H1 IH];
    intros zs Hx Hy Hz H2; inversion H2 as [|? z ? zs' Hyz H2']; subst; [constructor|].
  apply all_num_cons in Hx as [], Hy as [], Hz as [].
  constructor; [by apply (SFleb_trans x y z)|by apply IH].
Qed.

Lemma update_dims_ok {E} f dim xs ys :
  length xs = dim -> length ys = dim -> update_dims (E:=E) f dim xs ys = Ok (zip_with f xs ys).
Proof.
  revert xs ys. induction dim as [|dim IH]; intros [|x xs] [|y ys]; cbn; try done.
  intros [=] [=]. by rewrite IH.
Qed.

Lemma zip_min_spec xs ys : length xs = length ys -> all_num xs -> all_num ys ->
  all_num (zip_with f32_min xs ys) /\ vec_le (zip_with f32_min xs ys) xs /\ vec_le (zip_with f32_min xs ys) ys.
Proof.
  revert ys. induction xs as [|x xs IH]; intros [|y ys]; cbn [zip_with length]; try done;
    [by repeat constructor|].
  intros [=] [Hx Hxs]%all_num_cons [Hy Hys]%all_num_cons. rewrite all_num_cons.
  destruct (f32_min_spec x y) as (? & ? & ?); [done..|]. destruct (IH ys) as (? & ? & ?); [done..|].
  repeat split; try done; by constructor.
Qed.

Lemma zip_max_spec xs ys : length xs = length ys -> all_num xs -> all_num ys ->
  all_num (zip_with f32_max xs ys) /\ vec_le xs (zip_with f32_max xs ys) /\ vec_le ys (zip_with f32_max xs ys).
Proof.
  revert ys. induction xs as [|x xs IH]; intros [|y ys]; cbn [zip_with length]; try done;
    [by repeat constructor|].
  intros [=] [Hx Hxs]%all_num_cons [Hy Hys]%all_num_cons. rewrite all_num_cons.
  destruct (f32_max_spec x y) as (? & ? & ?); [done..|]. destruct (IH ys) as (? & ? & ?); [done..|].
  repeat split; try done; by constructor.
Qed.

Lemma welford_dims_ok {E} ca cb tc dim mean m2 mean_b m2_b :
  length mean = dim -> length m2 = dim -> length mean_b = dim -> length m2_b = dim ->
  exists mean' m2', welford_dims (E:=E) ca cb tc dim mean m2 mean_b m2_b = Ok (mean', m2')
    /\ length mean' = dim /\ length m2' = dim.
Proof.
  revert mean m2 mean_b m2_b. induction dim as [|dim IH];
    intros [|m mean] [|v m2] [|mb mean_b] [|vb m2_b]; cbn [welford_dims length]; try done;
    [by eauto|].
  intros [=] [=] [=] [=]. destruct (IH mean m2 mean_b m2_b) as (m' & v' & E' & ? & ?); [done..|].
  rewrite E'. do 2 eexists. split; [reflexivity|]. cbn. by split; f_equal.
Qed.

(** The statistics the aggregation is given: vectors of the dimension, with extrema that
    are numbers. *)
Definition regular (dim : nat) (s : FeatureStats.t) : Prop :=
  FeatureStats.wf s /\ FeatureStats.dim s = dim /\ all_num (FeatureStats.min s) /\ all_num (FeatureStats.max s).

Definition acc_ok (dim : nat) (a : acc) : Prop :=
  length (global_min a) = dim /\ length (global_max a) = dim /\ length (mean a) = dim /\ length (m2 a) = dim /\
  all_num (global_min a) /\ all_num (global_max a).

Definition covers (a : acc) (lo hi : list f32) : Prop := vec_le (global_min a) lo /\ vec_le hi (global_max a).

Lemma combine_spec {E} dim a n s : acc_ok dim a -> regular dim s ->
  exists a', combine (E:=E) dim a (n, s) = Ok a' /\ acc_ok dim a' /\
    covers a' (global_min a) (global_max a) /\ covers a' (FeatureStats.min s) (FeatureStats.max s).
Proof.
  intros (L1 & L2 & L3 & L4 & N1 & N2) ((W1 & W2 & W3) & D & M1 & M2).
  unfold FeatureStats.dim in *. unfold combine. rewrite !update_dims_ok by congruence. cbn.
  destruct (welford_dims_ok (E:=E) (total_count a) n (u64_add (total_count a) n) dim (mean a) (m2 a)
    (FeatureStats.mean s) (second_moments n (FeatureStats.std s))) as (m' & v' & E' & Hm & Hv);
    [congruence..|unfold second_moments; rewrite length_fmap; congruence|].
  rewrite E'. cbn. eexists. split; [reflexivity|].
  destruct (zip_min_spec (global_min a) (FeatureStats.min s)) as (? & ? & ?); [congruence|done..|].
  destruct (zip_max_spec (global_max a) (FeatureStats.max s)) as (? & ? & ?); [congruence|done..|].
  unfold acc_ok, covers. cbn. rewrite !length_zip_with.
  repeat split; try done; try lia.
Qed.

Lemma covers_trans dim a b lo hi :
  acc_ok dim a -> acc_ok dim b -> all_num lo -> all_num hi ->
  covers b (global_min a) (global_max a) -> covers a lo hi -> covers b lo hi.
Proof.
  intros (_ & _ & _ & _ & A1 & A2) (_ & _ & _ & _ & B1 & B2) Hlo Hhi [] [].
  split; eapply vec_le_trans; [..|done|done| | | |done|done]; done.
Qed.

Lemma combine_all_spec {E} dim a l : acc_ok dim a -> Forall (fun e => regular dim e.2) l ->
  exists a', combine_all (E:=E) dim a l = Ok a' /\ acc_ok dim a' /\
    covers a' (global_min a) (global_max a) /\
    Forall (fun e => covers a' (FeatureStats.min e.2) (FeatureStats.max e.2)) l.
Proof.
  intros Ha Hl. revert a Ha. induction Hl as [|[n s] l Hs Hl IH]; intros a Ha; cbn [combine_all].
  - exists a. destruct Ha as (L1 & L2 & L3 & L4 & N1 & N2).
    repeat split; try done; by apply vec_le_refl.
  - destruct (combine_spec (E:=E) dim a n s Ha Hs) as (a1 & E1 & Ha1 & C1 & C2).
    destruct (IH a1 Ha1) as (a2 & E2 & Ha2 & C3 & C4). exists a2. rewrite E1. cbn. split; [done|].
    split; [done|]. destruct Ha as (L1 & L2 & L3 & L4 & N1 & N2). destruct Hs as (_ & _ & ? & ?).
    split; [by apply (covers_trans dim a1)|]. constructor; [by apply (covers_trans dim a1)|done].
Qed.

(** Aggregation is total and its extrema are extrema.  For a feature whose episodes
    report well-formed statistics, [aggregate_feature_stats] does not panic.  It returns
    nothing exactly when there is no episode, the first has dimension 0 or two dimensions
    differ; otherwise the result is well-formed, of that dimension, and in every dimension
    its minimum is at most, and its maximum at least, that of each episode. *)
Theorem aggregate_outcome {E} (l : list (Z * FeatureStats.t)) :
  Forall (fun e => FeatureStats.wf e.2 /\ all_num (FeatureStats.min e.2) /\ all_num (FeatureStats.max e.2)) l ->
  match l with
  | [] => aggregate_feature_stats (E:=E) l = Ok None
  | (_, s0) :: _ =>
      if (FeatureStats.dim s0 =? 0)%nat || existsb (fun e => negb (FeatureStats.dim e.2 =? FeatureStats.dim s0)%nat) l
      then aggregate_feature_stats (E:=E) l = Ok None
      else exists s, aggregate_feature_stats (E:=E) l = Ok (Some s)
        /\ FeatureStats.wf s /\ FeatureStats.dim s = FeatureStats.dim s0
        /\ Forall (fun e => vec_le (FeatureStats.min s) (FeatureStats.min e.2)
                            /\ vec_le (FeatureStats.max e.2) (FeatureStats.max s)) l
  end.
Proof.
  intros Hl. destruct l as [|[n0 s0] rest]; [done|]. unfold aggregate_feature_stats.
  destruct (Nat.eqb_spec (FeatureStats.dim s0) 0) as [|Hd]; [done|]. cbn [orb].
  set (L := (n0, s0) :: rest) in *. set (dim := FeatureStats.dim s0) in *.
  assert (existsb (fun e => negb (FeatureStats.dim e.2 =? dim)%nat) L =
          negb (forallb (fun e => (FeatureStats.dim e.2 =? dim)%nat) L)) as ->.
  { clear. induction L as [|x L IH]; [done|]. cbn. rewrite IH. by destruct (_ =? _)%nat. }
  destruct (forallb _ L) eqn:Hall; cbn [negb]; [|done].
  rewrite forallb_forall in Hall.
  assert (Forall (fun e => regular dim e.2) L) as Hreg.
  { apply Forall_forall. intros e He. rewrite Forall_forall in Hl. destruct (Hl e He) as (? & ? & ?).
    apply list_elem_of_In in He. apply Hall, Nat.eqb_eq in He. unfold regular. tauto. }
  apply Forall_cons in Hreg as [H0 Hrest]. cbn [snd] in H0.
  edestruct (combine_all_spec (E:=E) dim (mkAcc n0 (FeatureStats.min s0) (FeatureStats.max s0)
    (FeatureStats.mean s0) (second_moments n0 (FeatureStats.std s0))) rest) as (a & Ea & Ha & C0 & Cr); [|done|].
  { destruct H0 as ((? & ? & ?) & ? & ? & ?). unfold second_moments, acc_ok. cbn. rewrite length_fmap. done. }
  rewrite Ea. cbn. eexists. split; [reflexivity|]. destruct Ha as (L1 & L2 & L3 & L4 & N1 & N2).
  unfold FeatureStats.wf, FeatureStats.dim. cbn. rewrite length_fmap. repeat split; try congruence.
  constructor; [exact C0|exact Cr].
Qed.

(** Two episodes without frames make the mean of every feature they share not a number:
    the weight of the second is [0 / 0]. *)
Lemma empty_episodes_poison_mean :
  let one := FeatureStats.mk [f32_of 1] [f32_of 1] [f32_of 1] [f32_zero] in
  aggregate_feature_stats (E:=unit) [(0, one); (0, one); (100, one)] =
  Ok (Some (FeatureStats.mk [f32_of 1] [f32_of 1] [S754_nan] [S754_nan])).
Proof. vm_compute. reflexivity. Qed.

End Aggregation.

(** ** Keys *)

Lemma digit_char d : (d < 10)%N -> digit (pretty_N_char d) = Some (Z.of_N d).
Proof.
  intros Hd. assert (d = 0 \/ d = 1 \/ d = 2 \/ d = 3 \/ d = 4 \/ d = 5 \/ d = 6 \/ d = 7 \/ d = 8 \/ d = 9)%N
    as Hc by lia. destruct_or! Hc; subst d; reflexivity.
Qed.

(** The digits of [x] in front of [s] are read before [s]. *)
Lemma parse_digits_go x s : Z.of_N x <= u64_max -> parse_digits (pretty_N_go x s) 0 = parse_digits s (Z.of_N x).
Proof.
  revert s. induction (N.lt_wf_0 x) as [x _ IH]. intros s Hx.
  destruct (decide (x = 0)%N) as [->|Hn]; [by rewrite pretty_N_go_0|].
  rewrite pretty_N_go_step by lia.
  assert (x `mod` 10 < 10)%N by (apply N.mod_lt; lia).
  assert (x = 10 * (x `div` 10) + x `mod` 10)%N as Hx' by (apply N.div_mod; lia).
  assert (x `div` 10 < x)%N as Hlt by (apply N.div_lt; lia).
  specialize (IH _ Hlt). revert IH Hlt Hx' H. generalize (x `div` 10)%N (x `mod` 10)%N. intros q r IH Hlt Hx' H.
  rewrite IH by lia. cbn [parse_digits]. rewrite digit_char by done.
  assert (10 * Z.of_N q + Z.of_N r = Z.of_N x) as -> by lia.
  by destruct (Z.leb_spec (Z.of_N x) u64_max); [|lia].
Qed.

Lemma pretty_pos p : pretty (Zpos p) = pretty_N_go (Npos p) "".
Proof. reflexivity. Qed.

(** Digits come first in the text of a number, and last. *)
Lemma pretty_go_first x : exists d s, (0 < x)%N -> (d < 10)%N /\ forall t, pretty_N_go x t = String (pretty_N_char d) s +:+ t.
Proof.
  induction (N.lt_wf_0 x) as [x _ IH]. destruct (decide (x = 0)%N) as [->|Hn]; [by exists 0%N, ""%string|].
  assert (x `mod` 10 < 10)%N by (apply N.mod_lt; lia).
  destruct (decide (x < 10)%N) as [Hs|Hl].
  - exists (x `mod` 10)%N, ""%string. intros _. split; [done|]. intros t. rewrite pretty_N_go_step by lia.
    rewrite N.div_small by done. by rewrite pretty_N_go_0.
  - destruct (IH (x `div` 10)%N) as (d & s & Hd); [apply N.div_lt; lia|].
    assert (0 < x `div` 10)%N as Hp by (apply N.div_str_pos; lia).
    destruct (Hd Hp) as [Hd1 Hd2]. exists d, (s +:+ String (pretty_N_char (x `mod` 10)) "")%string.
    intros _. split; [done|]. intros t. rewrite pretty_N_go_step, Hd2 by lia.
    rewrite !string_app_cons, string_app_assoc. done.
Qed.

Lemma pretty_go_last x : (0 < x)%N -> exists s d, (d < 10)%N /\ forall t, pretty_N_go x t = s +:+ String (pretty_N_char d) t.
Proof.
  intros Hx. destruct (pretty_go_first (x `div` 10)) as (d0 & s0 & H0).
  assert (x `mod` 10 < 10)%N by (apply N.mod_lt; lia).
  destruct (decide (x < 10)%N) as [Hs|Hl].
  - exists ""%string, (x `mod` 10)%N. split; [done|]. intros t. rewrite pretty_N_go_step by lia.
    rewrite N.div_small by done. by rewrite pretty_N_go_0.
  - destruct H0 as [_ H0]; [apply N.div_str_pos; lia|].
    exists (String (pretty_N_char d0) s0), (x `mod` 10)%N. split; [done|]. intros t.
    by rewrite pretty_N_go_step, H0 by lia.
Qed.

Lemma parse_usize_pretty i : is_u64 i -> parse_usize (pretty i) = Some i.
Proof.
  intros [Hi1 Hi2]. destruct i as [|p|p]; [reflexivity| |lia]. rewrite pretty_pos.
  destruct (pretty_go_first (Npos p)) as (d & s & H0). destruct H0 as [Hd H0]; [lia|].
  pose proof (parse_digits_go (Npos p) "") as Hp. rewrite H0, string_app_nil_r in Hp |- *. unfold parse_usize.
  destruct (Ascii.eqb_spec (pretty_N_char d) "+") as [E|_].
  { apply (f_equal digit) in E. by rewrite digit_char in E. }
  apply Hp. unfold u64_max. lia.
Qed.


Lemma pretty_go_slash_free x s : slash_free (pretty_N_go x s) = slash_free s.
Proof.
  revert s. induction (N.lt_wf_0 x) as [x _ IH]. intros s.
  destruct (decide (x = 0)%N) as [->|Hn]; [by rewrite pretty_N_go_0|].
  rewrite pretty_N_go_step by lia. rewrite IH by (apply N.div_lt; lia). cbn.
  destruct (Ascii.eqb_spec (pretty_N_char (x `mod` 10)) slash) as [E|]; [|done].
  apply (f_equal digit) in E. rewrite digit_char in E by (apply N.mod_lt; lia). done.
Qed.

Lemma pretty_slash_free i : 0 <= i -> slash_free (pretty i) = true.
Proof. intros Hi. destruct i as [|p|p]; [done| |lia]. by rewrite pretty_pos, pretty_go_slash_free. Qed.

Lemma strip_prefix_slash p q s : slash_free s = true -> Prelude.strip_prefix (p +:+ String slash q) s = None.
Proof.
  intros Hs. destruct (Prelude.strip_prefix _ s) as [t|] eqn:E; [|done].
  apply strip_prefix_Some in E. rewrite string_app_assoc in E. by apply free_of_no_sep in E.
Qed.

Lemma after_last_slash sub s : slash_free s = true -> after_last (String slash sub) s = None.
Proof.
  induction s as [|a s IH]; [done|]. intros Hs. pose proof Hs as Hs'.
  cbn in Hs. apply andb_true_iff in Hs as [_ Hs]. cbn [after_last]. rewrite IH by done.
  exact (strip_prefix_slash "" sub _ Hs').
Qed.

Lemma after_last_episode p s : slash_free s = true -> after_last "/episode/" (p +:+ "/episode/" +:+ s) = Some s.
Proof.
  intros Hs. induction p as [|a p IH].
  - rewrite string_app_nil_l. assert (Prelude.strip_prefix "/episode/" (String "/" s) = None) as Hp
      by exact (strip_prefix_slash "episode" "" s Hs).
    pose proof (after_last_slash "episode/" s Hs) as Ha.
    unfold slash in *. rewrite !string_app_cons, string_app_nil_l. cbn [after_last]. rewrite Ha, Hp. reflexivity.
  - rewrite string_app_cons. cbn [after_last]. by rewrite IH.
Qed.

Lemma episode_key_split b i : StatsKeys.episode b i = ("stats/" +:+ b) +:+ "/episode/" +:+ pretty i.
Proof. unfold StatsKeys.episode, StatsKeys.STATS_PREFIX, StatsKeys.SEPARATOR. by rewrite !string_app_assoc. Qed.

(** An episode key gives its index back. *)
Theorem episode_key_round_trip b i : is_u64 i -> StatsKeys.parse_episode_index (StatsKeys.episode b i) = Some i.
Proof.
  intros Hi. unfold StatsKeys.parse_episode_index. rewrite episode_key_split.
  rewrite after_last_episode by (apply pretty_slash_free; destruct Hi; lia). by apply parse_usize_pretty.
Qed.

Lemma ends_with_Some s suf : ends_with s suf = true -> exists p, s = p +:+ suf.
Proof.
  induction s as [|a s IH]; cbn [ends_with]; intros [E|E]%orb_true_iff; try done.
  1, 2: apply String.eqb_eq in E as <-; by exists ""%string.
  destruct (IH E) as [p ->]. by exists (String a p).
Qed.

(** A text that ends in a digit does not end in ["/meta"]. *)
Fixpoint last_char (s : string) : option ascii :=
  match s with
  | EmptyString => None
  | String c s' => match last_char s' with Some d => Some d | None => Some c end
  end.

Lemma last_char_app p c : last_char (p +:+ String c "") = Some c.
Proof. induction p as [|a p IH]; [done|]. rewrite string_app_cons. cbn [last_char]. by rewrite IH. Qed.

Lemma pretty_last p i : 0 <= i -> exists d, digit d <> None /\ last_char (p +:+ pretty i) = Some d.
Proof.
  intros Hi. assert (exists s d, (d < 10)%N /\ pretty i = s +:+ String (pretty_N_char d) "") as (s & d & Hd & ->).
  { destruct i as [|q|q]; [by exists ""%string, 0%N| |lia].
    destruct (pretty_go_last (Npos q)) as (s & d & Hd & Hp); [lia|]. exists s, d. by rewrite pretty_pos. }
  exists (pretty_N_char d). rewrite digit_char by done. split; [done|]. by rewrite <- string_app_assoc, last_char_app.
Qed.

Lemma episode_not_meta b i : 0 <= i -> ends_with (StatsKeys.episode b i) "/meta" = false.
Proof.
  intros Hi. destruct (ends_with _ _) eqn:E; [|done]. apply ends_with_Some in E as [p E].
  apply (f_equal last_char) in E. change "/meta"%string with ("/met" +:+ "a")%string in E.
  rewrite <- string_app_assoc, last_char_app in E.
  rewrite episode_key_split, <- !string_app_assoc in E.
  match type of E with last_char (?q +:+ _) = _ => destruct (pretty_last q i Hi) as (d & Hd & Hl) end.
  rewrite Hl in E. by injection E as ->.
Qed.

Lemma contains_app sub p s : contains sub (p +:+ sub +:+ s) = true.
Proof.
  induction p as [|a p IH].
  - rewrite string_app_nil_l. destruct (sub +:+ s) as [|c r] eqn:E; cbn [contains]; rewrite <- E, starts_with_app; done.
  - rewrite string_app_cons. cbn [contains]. rewrite IH. apply orb_true_r.
Qed.

Lemma is_episode_key_episode b i : 0 <= i -> StatsKeys.is_episode_key (StatsKeys.episode b i) = true.
Proof.
  intros Hi. unfold StatsKeys.is_episode_key. rewrite episode_not_meta by done.
  rewrite episode_key_split, contains_app. done.
Qed.

Lemma ends_with_app p s : ends_with (p +:+ s) s = true.
Proof.
  induction p as [|a p IH]; [rewrite string_app_nil_l; destruct s; cbn [ends_with]; by rewrite String.eqb_refl|].
  rewrite string_app_cons. cbn [ends_with]. rewrite IH. apply orb_true_r.
Qed.

Lemma is_batch_meta_meta b : StatsKeys.is_batch_meta (StatsKeys.batch_meta b) = true.
Proof. unfold StatsKeys.is_batch_meta, StatsKeys.batch_meta. rewrite <- string_app_assoc. apply ends_with_app. Qed.

Lemma episode_key_inj b i j : StatsKeys.episode b i = StatsKeys.episode b j -> i = j.
Proof. rewrite !episode_key_split. intros E%string_app_inv_l%string_app_inv_l. by apply (inj pretty) in E. Qed.

Lemma episode_ne_meta b i : 0 <= i -> StatsKeys.episode b i <> StatsKeys.batch_meta b.
Proof.
  intros Hi E. pose proof (episode_not_meta b i Hi) as H0. rewrite E in H0.
  pose proof (is_batch_meta_meta b) as H1. unfold StatsKeys.is_batch_meta, StatsKeys.BATCH_META_SUFFIX in H1. congruence.
Qed.

(** The keys of a batch lie in the range of its prefix. *)
Definition batch_range (b k : string) : bool :=
  in_range (StatsKeys.batch_prefix b) (scan_end (StatsKeys.batch_prefix b)) k.

Lemma episode_in_range b i : batch_range b (StatsKeys.episode b i) = true.
Proof.
  apply in_prefix_range_iff. exists ("episode/" +:+ pretty i). split; [|reflexivity].
  unfold StatsKeys.batch_prefix, StatsKeys.episode. by rewrite !string_app_assoc.
Qed.

Lemma meta_in_range b : batch_range b (StatsKeys.batch_meta b) = true.
Proof.
  apply in_prefix_range_iff. exists "meta"%string. split; [|reflexivity].
  unfold StatsKeys.batch_prefix, StatsKeys.batch_meta. by rewrite !string_app_assoc.
Qed.

(** [from_be_bytes] inverts [to_be_bytes]. *)
Lemma from_to_be n x acc : from_be (to_be n x) acc = acc * 256 ^ Z.of_nat n + x mod 256 ^ Z.of_nat n.
Proof.
  revert acc. induction n as [|n IH]; intros acc.
  - cbn. rewrite Z.mod_1_r. lia.
  - cbn [to_be from_be]. rewrite IH. rewrite nat_ascii_embedding; cycle 1.
    { pose proof (Z.mod_pos_bound (x / 256 ^ Z.of_nat n) 256). lia. }
    rewrite Nat2Z.inj_succ, Z.pow_succ_r by lia.
    set (B := 256 ^ Z.of_nat n). assert (0 < B) by (apply Z.pow_pos_nonneg; lia).
    rewrite Z2Nat.id by (apply Z.mod_pos_bound; lia).
    rewrite (Z.mul_comm 256 B), (Z.rem_mul_r x B 256) by lia. ring.
Qed.

Lemma to_be_length n x : String.length (to_be n x) = n.
Proof. induction n as [|n IH]; cbn; [done|]. by rewrite IH. Qed.

Lemma from_to_be_bytes x : from_be_bytes (to_be_bytes x) = Some (as_u64 x).
Proof.
  unfold from_be_bytes, to_be_bytes. rewrite to_be_length. cbn [Nat.eqb]. rewrite from_to_be.
  unfold as_u64, u64_mod. do 2 f_equal.
Qed.

(** ** The two collectors *)

(** What is relied on of [serde_json]. *)
Class StatsJson `{Codec EpisodeStats.t} := {
  stats_encode_total : forall x : EpisodeStats.t, exists b, encode x = inr b;
  stats_decode_encode : forall (x : EpisodeStats.t) b, EpisodeStats.finite x -> encode x = inr b -> decode b = inr x
}.

(** A worker records its episodes one after the other. *)
Fixpoint record_all {W} `{StatsCollector W} (b : string) (es : list EpisodeStats.t) (w : W)
  : result TikvError.t unit * W :=
  match es with
  | [] => (Ok tt, w)
  | e :: es' =>
      match record_episode_stats b e w with
      | (Ok _, w') => record_all b es' w'
      | r => r
      end
  end.

(** *** The summary does not depend on the order of the episodes *)
Definition summarise (s : BatchStatsSummary.t) (es : list EpisodeStats.t) : BatchStatsSummary.t :=
  foldl (fun s e => BatchStatsSummary.add_episode e s) s es.

Lemma u64_add_swap a b c : u64_add (u64_add a b) c = u64_add (u64_add a c) b.
Proof. unfold u64_add, as_u64. rewrite !Z.add_mod_idemp_l by done. f_equal. lia. Qed.

Lemma add_episode_swap x y s :
  EpisodeStats.episode_index x <> EpisodeStats.episode_index y ->
  BatchStatsSummary.add_episode x (BatchStatsSummary.add_episode y s) =
  BatchStatsSummary.add_episode y (BatchStatsSummary.add_episode x s).
Proof.
  intros Hxy. unfold BatchStatsSummary.add_episode, set_field. cbn. f_equal; [apply u64_add_swap|].
  by apply insert_insert_ne.
Qed.

Lemma summarise_perm es es' s :
  es ≡ₚ es' -> NoDup (EpisodeStats.episode_index <$> es) -> summarise s es = summarise s es'.
Proof.
  intros Hp. revert s. induction Hp as [|x l l' Hp IH|x y l|l1 l2 l3 H1 IH1 H2 IH2]; intros s Hn.
  - done.
  - cbn in Hn |- *. apply IH. by inversion Hn.
  - cbn in Hn |- *. f_equal. apply add_episode_swap.
    apply NoDup_cons in Hn as [Hn _]. set_solver.
  - rewrite IH1 by done. apply IH2. by rewrite <- H1.
Qed.

Lemma summarise_episodes es s n : BatchStatsSummary.total_episodes s = as_u64 n ->
  BatchStatsSummary.total_episodes (summarise s es) = as_u64 (n + Z.of_nat (length es)).
Proof.
  revert s n. induction es as [|e es IH]; intros s n Hs; [cbn; by rewrite Z.add_0_r|].
  cbn [summarise foldl]. rewrite (IH _ (n + 1)); [f_equal; cbn; lia|].
  cbn. rewrite Hs. unfold u64_add, as_u64. by rewrite Z.add_mod_idemp_l.
Qed.

Lemma summarise_frames es s n : BatchStatsSummary.total_frames s = as_u64 n ->
  BatchStatsSummary.total_frames (summarise s es) =
  as_u64 (n + foldr (fun e n => EpisodeStats.frame_count e + n) 0 es).
Proof.
  revert s n. induction es as [|e es IH]; intros s n Hs; [cbn; by rewrite Z.add_0_r|].
  cbn [summarise foldl]. rewrite (IH _ (n + EpisodeStats.frame_count e)); [f_equal; cbn; lia|].
  cbn. rewrite Hs. unfold u64_add, as_u64. by rewrite Z.add_mod_idemp_l.
Qed.

Lemma summarise_lookup_other es s i : i ∉ (EpisodeStats.episode_index <$> es) ->
  BatchStatsSummary.episodes (summarise s es) !! i = BatchStatsSummary.episodes s !! i.
Proof.
  revert s. induction es as [|e es IH]; intros s Hi; [done|]. cbn in Hi |- *.
  apply not_elem_of_cons in Hi as [Hi1 Hi2]. fold (summarise (BatchStatsSummary.add_episode e s) es).
  rewrite IH by done. cbn. by apply lookup_insert_ne.
Qed.

Lemma summarise_lookup es s e : NoDup (EpisodeStats.episode_index <$> es) -> e ∈ es ->
  BatchStatsSummary.episodes (summarise s es) !! EpisodeStats.episode_index e = Some e.
Proof.
  revert s. induction es as [|e' es IH]; intros s Hn He; [by apply not_elem_of_nil in He|].
  cbn in Hn. apply NoDup_cons in Hn as [Hn1 Hn2]. cbn. fold (summarise (BatchStatsSummary.add_episode e' s) es).
  apply elem_of_cons in He as [->|He]; [|by apply IH].
  rewrite summarise_lookup_other by done. cbn. apply lookup_insert_eq.
Qed.

Lemma record_all_memory b es (s : InMemoryStatsCollector.t) :
  record_all b es s =
  (Ok tt, if decide (es = []) then s else <[b := summarise (default (BatchStatsSummary.new b) (s !! b)) es]> s).
Proof.
  revert s. induction es as [|e es IH]; intros s; [done|].
  cbn [record_all record_episode_stats InMemoryStatsCollector.collector].
  unfold InMemoryStatsCollector.record_episode_stats. rewrite IH. f_equal. unfold InMemoryStatsCollector.t in *.
  destruct es as [|e' es]; [done|]. rewrite !decide_False by done.
  rewrite lookup_insert_eq, insert_insert_eq. done.
Qed.

Section Collectors.
Context {S : Type} `{TransactionClientLaws S} `{!HealthyRuns S}.
Context `{!HashOrder Z, !HashOrder string}.
Context `{StatsJson}.
Context (c : TikvClient.t) (Hc : client_ok c) (b : string).

(** The episode an entry of the store counts for. *)
Definition entry_episode (kv : string * string) : option EpisodeStats.t :=
  if StatsKeys.is_batch_meta kv.1 then None
  else if StatsKeys.is_episode_key kv.1 then
    match decode (A:=EpisodeStats.t) kv.2 with inr e => Some e | inl _ => None end
  else None.

Lemma add_entry_episode s kv :
  TiKVStatsCollector.add_entry s kv =
  match entry_episode kv with Some e => BatchStatsSummary.add_episode e s | None => s end.
Proof.
  destruct kv as [k v]. unfold entry_episode, TiKVStatsCollector.add_entry. cbn [fst snd].
  destruct (StatsKeys.is_batch_meta k); [done|]. destruct (StatsKeys.is_episode_key k); [|done].
  by destruct (decode v).
Qed.

Lemma foldl_add_entry kvs s :
  foldl TiKVStatsCollector.add_entry s kvs = summarise s (omap entry_episode kvs).
Proof.
  revert s. induction kvs as [|kv kvs IH]; intros s; [done|]. cbn [foldl].
  rewrite IH, add_entry_episode. cbn. by destruct (entry_episode kv).
Qed.

(** The entries of the batch, and the episodes among them. *)
Definition batch_entries (m : gmap string string) : list (string * string) :=
  filter (fun e => batch_range b e.1 = true) (map_to_list m).
Definition view (m : gmap string string) : list EpisodeStats.t := omap entry_episode (batch_entries m).

#[local] Instance view_proper : Proper (Permutation ==> Permutation)
  (fun l => omap entry_episode (filter (fun e => batch_range b e.1 = true) l)).
Proof. intros l l' ->. done. Qed.

Lemma view_cons k v m : m !! k = None ->
  view (<[k := v]> m) ≡ₚ
  (if batch_range b k then match entry_episode (k, v) with Some e => [e] | None => [] end else []) ++ view m.
Proof.
  intros Hk. unfold view, batch_entries. rewrite (view_proper _ _ (map_to_list_insert _ k v Hk)).
  rewrite filter_cons. cbn [fst]. destruct (batch_range b k); case_decide; try done.
  cbn [omap list_omap]. by destruct (entry_episode (k, v)).
Qed.

Lemma view_delete k v m : m !! k = Some v -> (forall v, entry_episode (k, v) = None) -> view m ≡ₚ view (base.delete k m).
Proof.
  intros Hk Hn. pose proof (view_cons k v (base.delete k m) (lookup_delete_eq m k)) as Hv.
  rewrite insert_delete_id in Hv by done. rewrite Hn in Hv. by destruct (batch_range b k).
Qed.

Lemma view_insert_None k v m : (forall v, entry_episode (k, v) = None) -> view (<[k := v]> m) ≡ₚ view m.
Proof.
  intros Hn. destruct (m !! k) as [v'|] eqn:Hk.
  - rewrite (view_delete k v' m Hk Hn), <- insert_delete_eq.
    rewrite (view_cons _ _ _ (lookup_delete_eq m k)), Hn. by destruct (batch_range b k).
  - rewrite (view_cons _ _ _ Hk), Hn. by destruct (batch_range b k).
Qed.

(** The store holds the statistics of [es] and nothing else under the batch. *)
Record holds (es : list EpisodeStats.t) (m : gmap string string) : Prop := {
  holds_view : view m ≡ₚ es;
  holds_meta : forall v, m !! StatsKeys.batch_meta b = Some v -> is_Some (from_be_bytes v);
  holds_dom : forall k, batch_range b k = true -> is_Some (m !! k) ->
    k = StatsKeys.batch_meta b \/ exists e, e ∈ es /\ k = StatsKeys.episode b (EpisodeStats.episode_index e);
  holds_counted : es <> [] -> is_Some (m !! StatsKeys.batch_meta b)
}.

Definition recorded (e : EpisodeStats.t) (v : string) (n : Z) (m : gmap string string) : gmap string string :=
  <[StatsKeys.batch_meta b := to_be_bytes n]> (<[StatsKeys.episode b (EpisodeStats.episode_index e) := v]> m).

Lemma holds_recorded es m e v n :
  holds es m -> 0 <= EpisodeStats.episode_index e -> EpisodeStats.finite e -> encode e = inr v ->
  EpisodeStats.episode_index e ∉ (EpisodeStats.episode_index <$> es) ->
  holds (e :: es) (recorded e v n m).
Proof.
  intros [Hv Hm Hd _] Hi Hf Ev Hfresh. set (k := StatsKeys.episode b (EpisodeStats.episode_index e)).
  assert (m !! k = None) as Hk.
  { apply eq_None_not_Some. intros Hs. destruct (Hd k (episode_in_range _ _) Hs) as [E|(e' & He & E)].
    - by apply episode_ne_meta in E.
    - apply episode_key_inj in E. apply Hfresh. rewrite E. apply list_elem_of_fmap. eauto. }
  split; unfold recorded; fold k.
  - rewrite view_insert_None.
    + rewrite (view_cons _ _ _ Hk). unfold k at 1. rewrite episode_in_range.
      unfold entry_episode, StatsKeys.is_batch_meta. cbn [fst snd].
      unfold k. rewrite episode_not_meta, is_episode_key_episode by done.
      rewrite (stats_decode_encode e v Hf Ev). cbn. by rewrite Hv.
    + intros v'. unfold entry_episode. cbn [fst]. by rewrite is_batch_meta_meta.
  - rewrite lookup_insert_eq. intros ? [= <-]. rewrite from_to_be_bytes. by eexists.
  - intros k' Hr. destruct (decide (k' = StatsKeys.batch_meta b)) as [->|Hne]; [by left|].
    rewrite lookup_insert_ne by done. destruct (decide (k' = k)) as [->|Hne'].
    + intros _. right. exists e. split; [set_solver|done].
    + rewrite lookup_insert_ne by done. intros Hs. destruct (Hd k' Hr Hs) as [?|(e' & ? & ?)]; [by left|].
      right. exists e'. split; [set_solver|done].
  - intros _. rewrite lookup_insert_eq. by eexists.
Qed.

(** One recording, with every call answered. *)
Lemma record_ready e v (w : World S) :
  ready w -> encode e = inr v -> 0 <= EpisodeStats.episode_index e ->
  (forall v, kv w !! StatsKeys.batch_meta b = Some v -> is_Some (from_be_bytes v)) ->
  exists n w', TiKVStatsCollector.record_episode_stats c b e w = (Ok tt, w') /\ ready w' /\
    kv w' = recorded e v n (kv w).
Proof.
  intros Hw Ev Hi Hm. destruct Hc as [Hin Hr].
  destruct (TiKVStatsCollector.record_episode_stats c b e w) as [r w'] eqn:E.
  assert (r = Ok tt /\ ready w' /\ exists n, kv w' = recorded e v n (kv w)) as (-> & Hw' & n & Hkv);
    [|exists n, w'; done].
  wp_run E. unfold TiKVStatsCollector.record_episode_stats. do 2 wp_step. rewrite Ev.
  wp_step. apply wp_put; [done..| |by intros e1 w1 (_ & Hn & _)]. intros w1 [L1 K1].
  wp_step. unfold TiKVStatsCollector.increment_episode_count. wp_step.
  apply wp_get; [done| |].
  2: { intros e1 w2 [_ Hn]. by destruct Hn; world. }
  intros w2 C2. rewrite K1, lookup_insert_ne by (by apply episode_ne_meta).
  assert (forall n w3, calm w1 w3 -> wp (
    (fun current => TikvClient.put c (StatsKeys.batch_meta b) (to_be_bytes (u64_add current 1));;
       mret (u64_add current 1)) n)
    (fun (r : result TikvError.t Z) w' => match r with
       | Ok _ => (Ok tt : result TikvError.t unit) = Ok tt /\ ready w' /\ exists n, kv w' = recorded e v n (kv w)
       | _ => False end) w3) as Hput.
  { intros n w3 C3. wp_step. apply wp_put; [done..| |].
    - intros w4 [L4 K4]. wp_step. split; [done|]. split; [world|]. eexists. rewrite K4.
      destruct C3 as [-> _]. rewrite K1. reflexivity.
    - intros e1 w4 (_ & Hn & _). destruct Hn. world. }
  destruct (kv w !! StatsKeys.batch_meta b) as [v0|] eqn:Ek.
  - destruct (Hm v0 eq_refl) as [n0 En]. rewrite En. eapply wp_mono; [apply (Hput n0 w2 C2)|]. by intros [] ?.
  - eapply wp_mono; [apply (Hput 0 w2 C2)|]. by intros [] ?.
Qed.

#[local] Instance tikv_collector : StatsCollector (World S) := TiKVStatsCollector.collector c.

Definition recordable (es : list EpisodeStats.t) : Prop :=
  Forall (fun e => 0 <= EpisodeStats.episode_index e /\ EpisodeStats.finite e) es /\
  NoDup (EpisodeStats.episode_index <$> es).

Lemma record_all_holds es old (w : World S) :
  ready w -> holds old (kv w) -> recordable (es ++ old) ->
  exists w', record_all b es w = (Ok tt, w') /\ ready w' /\ holds (rev es ++ old) (kv w').
Proof.
  revert old w. induction es as [|e es IH]; intros old w Hw Hh [Hf Hn]; [by exists w|].
  cbn [record_all record_episode_stats tikv_collector TiKVStatsCollector.collector].
  apply Forall_cons in Hf as [[Hi Hfe] Hf]. cbn [fmap list_fmap app] in Hn. apply NoDup_cons in Hn as [He Hn].
  destruct (stats_encode_total e) as [v Ev].
  destruct (record_ready e v w Hw Ev Hi (holds_meta _ _ Hh)) as (n & w1 & E1 & Hw1 & K1). rewrite E1.
  rewrite fmap_app, not_elem_of_app in He. destruct He as [He1 He2].
  assert (holds (e :: old) (kv w1)) as Hh1 by (rewrite K1; by apply holds_recorded).
  assert (es ++ e :: old ≡ₚ e :: es ++ old) as Hp by (by rewrite <- Permutation_middle).
  destruct (IH (e :: old) w1 Hw1 Hh1) as (w2 & E2 & Hw2 & Hh2).
  - split; [rewrite Hp; by constructor|]. rewrite Hp. cbn. constructor; [|done].
    rewrite fmap_app, not_elem_of_app. done.
  - exists w2. rewrite E2. split; [done|]. split; [done|].
    cbn [rev]. by rewrite <- app_assoc.
Qed.

Lemma sublist_fmap' {A B} (f : A -> B) l k : l `sublist_of` k -> f <$> l `sublist_of` f <$> k.
Proof. induction 1; cbn; by constructor. Qed.

(** A batch with fewer episodes than the scan limit is scanned whole. *)
Lemma holds_size es m : holds es m -> (length (batch_entries m) <= 1 + length es)%nat.
Proof.
  intros [_ _ Hd _]. rewrite <- (length_fmap fst).
  transitivity (length (StatsKeys.batch_meta b :: ((fun e => StatsKeys.episode b (EpisodeStats.episode_index e)) <$> es)));
    [|cbn; by rewrite length_fmap].
  apply submseteq_length, NoDup_submseteq.
  - eapply sublist_NoDup; [apply (NoDup_fst_map_to_list m)|]. apply sublist_fmap', sublist_filter.
  - intros k. rewrite list_elem_of_fmap. intros ([k' v] & -> & He). unfold batch_entries in He.
    apply list_elem_of_filter in He as [Hr He]. apply elem_of_map_to_list in He.
    destruct (Hd k' Hr) as [->|(e & He' & ->)]; [by eexists|set_solver|].
    apply list_elem_of_further. apply list_elem_of_fmap. eauto.
Qed.

Lemma get_batch_ready es (w : World S) :
  ready w -> holds es (kv w) -> es <> [] -> Z.of_nat (length es) < TiKVStatsCollector.MAX_SCAN_LIMIT -> NoDup (EpisodeStats.episode_index <$> es) ->
  (TiKVStatsCollector.get_batch_stats c b w).1 =
  (g ← BatchStatsSummary.calculate_global_stats (summarise (BatchStatsSummary.new b) es); mret (Some g)).
Proof.
  intros Hw Hh Hne Hlen Hnd. destruct Hc as [Hin Hr].
  change (wp (TiKVStatsCollector.get_batch_stats c b) (fun r _ => r =
    (g ← BatchStatsSummary.calculate_global_stats (summarise (BatchStatsSummary.new b) es); mret (Some g))) w).
  unfold TiKVStatsCollector.get_batch_stats. wp_step. apply wp_scan; [done| |by intros e w1 [_ ?]].
  intros w1 C1.
  assert (kv_scan (StatsKeys.batch_prefix b) (scan_end (StatsKeys.batch_prefix b)) TiKVStatsCollector.MAX_SCAN_LIMIT (kv w)
    ≡ₚ batch_entries (kv w)) as Hp.
  { unfold kv_scan. rewrite take_ge; [apply merge_sort_Permutation|].
    rewrite merge_sort_Permutation. pose proof (holds_size _ _ Hh) as Hs. unfold batch_entries, batch_range in Hs.
    unfold TiKVStatsCollector.MAX_SCAN_LIMIT in *. lia. }
  destruct (kv_scan _ _ _ _) as [|kv1 kvs] eqn:Es.
  { destruct (holds_counted _ _ Hh Hne) as [v Hv].
    assert ((StatsKeys.batch_meta b, v) ∈ batch_entries (kv w)) as He; [|rewrite <- Hp in He; by apply not_elem_of_nil in He].
    unfold batch_entries. apply list_elem_of_filter. split; [apply meta_in_range|by apply elem_of_map_to_list]. }
  rewrite <- Es. rewrite foldl_add_entry.
  assert (omap entry_episode (kv_scan (StatsKeys.batch_prefix b) (scan_end (StatsKeys.batch_prefix b))
    TiKVStatsCollector.MAX_SCAN_LIMIT (kv w)) ≡ₚ es) as Hv.
  { rewrite Es, Hp. apply (holds_view _ _ Hh). }
  rewrite (summarise_perm _ _ _ (symmetry Hv)) by done.
  wp_step. wp_step. unfold wp. cbn. by destruct (BatchStatsSummary.calculate_global_stats _).
Qed.

Lemma holds_empty m : (forall k, batch_range b k = true -> m !! k = None) -> holds [] m.
Proof.
  intros Hm. assert (batch_entries m = []) as He.
  { destruct (batch_entries m) as [|[k v] l] eqn:E; [done|].
    assert ((k, v) ∈ batch_entries m) as He by (rewrite E; left).
    apply list_elem_of_filter in He as [Hr He]. apply elem_of_map_to_list in He. by rewrite Hm in He. }
  split; [unfold view; by rewrite He| | |done].
  - intros v Hv. by rewrite Hm in Hv by apply meta_in_range.
  - intros k Hr [v Hv]. by rewrite Hm in Hv.
Qed.

(** C32: the collector in TiKV refines the one in memory.  Let episodes with distinct
    indices, finite statistics and fewer than the scan limit be recorded into a batch
    that has no statistics yet, with every call answered.  Both collectors take them all;
    the summary read back from TiKV is the one kept in memory, with the global
    statistics added. *)
Theorem collectors_agree es (w : World S) :
  ready w -> (forall k, batch_range b k = true -> kv w !! k = None) ->
  es <> [] -> Z.of_nat (length es) < TiKVStatsCollector.MAX_SCAN_LIMIT -> recordable es ->
  exists w' s' sm, record_all b es w = (Ok tt, w') /\
    record_all b es InMemoryStatsCollector.new = (Ok tt, s') /\
    get_batch_stats b s' = (Ok (Some sm), s') /\
    (get_batch_stats b w').1 = (g ← BatchStatsSummary.calculate_global_stats sm; mret (Some g)) /\
    BatchStatsSummary.total_episodes sm = as_u64 (Z.of_nat (length es)) /\
    BatchStatsSummary.total_frames sm = as_u64 (foldr (fun e n => EpisodeStats.frame_count e + n) 0 es) /\
    forall e, e ∈ es -> BatchStatsSummary.episodes sm !! EpisodeStats.episode_index e = Some e.
Proof.
  intros Hw Hfresh Hne Hlen Hrec.
  destruct (record_all_holds es [] w Hw (holds_empty _ Hfresh)) as (w' & E & Hw' & Hh); [by rewrite app_nil_r|].
  rewrite app_nil_r in Hh. destruct Hrec as [Hf Hn].
  set (sm := summarise (BatchStatsSummary.new b) es).
  exists w', (<[b := sm]> InMemoryStatsCollector.new), sm. split; [done|].
  split; [rewrite record_all_memory; by destruct es|].
  split; [cbn; unfold InMemoryStatsCollector.get_batch_stats, InMemoryStatsCollector.t; by rewrite lookup_insert_eq|]. split.
  - cbn. unfold sm. rewrite (summarise_perm es (rev es)); [|apply Permutation_rev|done].
    apply get_batch_ready; [done..| | |].
    + intros Er. apply (f_equal length) in Er. rewrite length_rev in Er. by destruct es.
    + by rewrite length_rev.
    + by rewrite <- Permutation_rev.
  - split; [by apply (summarise_episodes es _ 0)|]. split; [by apply (summarise_frames es _ 0)|].
    intros e He. by apply summarise_lookup.
Qed.
End Collectors.

(** ** Concrete instances *)
Module StatsExamples.

Definition f32_wire : Wire.Wire f32.
Proof.
  refine (Wire.wire_iso (fun x => match x with
    | S754_zero s => (0, s, 1%positive, 0) | S754_infinity s => (1, s, 1%positive, 0)
    | S754_nan => (2, false, 1%positive, 0) | S754_finite s m e => (3, s, m, e) end)
    (fun '(t, s, m, e) => if t =? 0 then S754_zero s else if t =? 1 then S754_infinity s
       else if t =? 2 then S754_nan else S754_finite s m e) _); [|by intros []].
  repeat apply Wire.wire_prod; (apply Wire.wire_Z || apply Wire.wire_bool || apply Wire.wire_positive).
Defined.

Definition feature_wire : Wire.Wire FeatureStats.t.
Proof.
  refine (Wire.wire_iso (fun s => (FeatureStats.min s, FeatureStats.max s, FeatureStats.mean s, FeatureStats.std s))
    (fun '(a, b, c, d) => FeatureStats.mk a b c d) _); [|by intros []].
  repeat apply Wire.wire_prod; apply Wire.wire_list, f32_wire.
Defined.

Definition episode_wire : Wire.Wire EpisodeStats.t.
Proof.
  refine (Wire.wire_iso (fun s => (EpisodeStats.episode_index s, EpisodeStats.frame_count s,
      EpisodeStats.feature_stats s, EpisodeStats.task_indices s, EpisodeStats.recorded_at s))
    (fun '(a, b, c, d, e) => EpisodeStats.mk a b c d e) _); [|by intros []].
  repeat apply Wire.wire_prod; (apply Wire.wire_Z || apply Wire.wire_list, Wire.wire_Z
    || apply Wire.wire_gmap, feature_wire || apply Wire.wire_option, Wire.wire_Z).
Defined.

#[export] Instance episode_codec : Codec EpisodeStats.t := @Wire.codec_of_wire _ episode_wire.
#[export] Instance episode_json : StatsJson.
Proof.
  pose proof (@Wire.lawful_of_wire _ episode_wire) as [Ht Hd].
  split; [exact Ht|]. intros x b _. apply Hd.
Qed.
#[export] Instance order_Z : HashOrder Z := list_order Z.
#[export] Instance order_string : HashOrder string := list_order string.

Definition joint (x : Z) : FeatureStats.t :=
  FeatureStats.mk [f32_of x] [f32_of (x + 1)] [f32_of x] [f32_zero].
Definition episode (i frames : Z) : EpisodeStats.t :=
  (EpisodeStats.add_feature "action" (joint i) (EpisodeStats.new 0 i frames)).2.

End StatsExamples.
Section Witnesses.
Import StatsExamples Sim.

Lemma aggregate_outcome_witness :
  exists s, BatchStatsSummary.aggregate_feature_stats (E:=unit) [(10, joint 3); (20, joint 1)] = Ok (Some s)
  /\ FeatureStats.wf s /\ FeatureStats.dim s = 1%nat
  /\ Forall (fun e => vec_le (FeatureStats.min s) (FeatureStats.min e.2)
                      /\ vec_le (FeatureStats.max e.2) (FeatureStats.max s)) [(10, joint 3); (20, joint 1)].
Proof.
  apply (aggregate_outcome (E:=unit) [(10, joint 3); (20, joint 1)]).
  repeat constructor.
Defined.

Lemma collectors_agree_witness :
  exists w' s' sm,
    @record_all _ (TiKVStatsCollector.collector sim_client) "b" [episode 0 10; episode 1 20] (sim_world ∅ []) = (Ok tt, w') /\
    record_all "b" [episode 0 10; episode 1 20] InMemoryStatsCollector.new = (Ok tt, s') /\
    get_batch_stats "b" s' = (Ok (Some sm), s') /\
    (@get_batch_stats _ (TiKVStatsCollector.collector sim_client) "b" w').1 =
      (g ← BatchStatsSummary.calculate_global_stats sm; mret (Some g)) /\
    BatchStatsSummary.total_episodes sm = 2 /\ BatchStatsSummary.total_frames sm = 30 /\
    forall e, e ∈ [episode 0 10; episode 1 20] ->
      BatchStatsSummary.episodes sm !! EpisodeStats.episode_index e = Some e.
Proof.
  apply (collectors_agree sim_client sim_client_ok "b"
    [episode 0 10; episode 1 20] (sim_world ∅ [])).
  - apply sim_world_ready.
  - done.
  - done.
  - reflexivity.
  - split; [|by apply (bool_decide_unpack _); vm_compute].
    repeat constructor; try done; apply (bool_decide_unpack _); vm_compute; done.
Defined.

(** An episode recorded a second time, as after a retried work unit: the counter in TiKV
    and the totals in memory count it twice, the summary read from TiKV once. *)
Example rerecorded_episode :
  let es := [episode 0 10; episode 0 10] in
  let w := (@record_all _ (TiKVStatsCollector.collector sim_client) "b" es (sim_world ∅ [])).2 in
  let s := (record_all "b" es InMemoryStatsCollector.new).2 in
  from_be_bytes (default ""%string (kv w !! StatsKeys.batch_meta "b")) = Some 2 /\
  (BatchStatsSummary.total_episodes <$> (s !! "b")) = Some 2 /\
  match (@get_batch_stats _ (TiKVStatsCollector.collector sim_client) "b" w).1 with
  | Ok (Some g) => BatchStatsSummary.total_episodes g = 1 /\ BatchStatsSummary.total_frames g = 10
  | _ => False
  end.
Proof. vm_compute. done. Qed.
End Witnesses.
