(* ===== verification/Metadata.v ===== *)
(** * Dataset metadata (crates/roboflow-distributed/src/metadata/)

    Workers register the tasks and features of the episodes they convert and store a
    partial record per episode; the finalizer reads them and writes the LeRobot files.
    [keys.rs], [types.rs], [registry.rs] and [submitter.rs] are here, validation and
    assembly in [MetadataAssembly].

    Records are [bincode].  That of [FeatureSpec] follows the attributes of the struct:
    [skip_serializing_if] leaves a field out, and a format without field names cannot
    tell.  The encoding of the primitive fields is a parameter ([Bincode]). *)
From stdpp Require Import pretty.
From S2P Require Import Prelude Codec TikvError Circuit Keys Env Effects Schema Client Episode Stats.
#[local] Open Scope Z_scope.

(** ** Keys *)
Definition METADATA_PREFIX : string := "/roboflow/v1/batch".

Module MetadataKeys.
Definition task_counter (batch_id : string) : string := METADATA_PREFIX +:+ "/" +:+ batch_id +:+ "/task_counter".
Definition task (batch_id task_hash : string) : string :=
  METADATA_PREFIX +:+ "/" +:+ batch_id +:+ "/tasks/" +:+ task_hash.
Definition task_prefix (batch_id : string) : string := METADATA_PREFIX +:+ "/" +:+ batch_id +:+ "/tasks/".
Definition feature (batch_id feature_name : string) : string :=
  METADATA_PREFIX +:+ "/" +:+ batch_id +:+ "/features/" +:+ feature_name.
Definition feature_prefix (batch_id : string) : string := METADATA_PREFIX +:+ "/" +:+ batch_id +:+ "/features/".
Definition episode_metadata (batch_id : string) (episode_index : Z) : string :=
  METADATA_PREFIX +:+ "/" +:+ batch_id +:+ "/metadata/episode/" +:+ EpisodeAllocation.padded 6 episode_index.
Definition episode_metadata_prefix (batch_id : string) : string :=
  METADATA_PREFIX +:+ "/" +:+ batch_id +:+ "/metadata/episode/".
End MetadataKeys.

(** ** Types *)
Module VideoInfo.
(** [struct VideoInfo]. *)
Record t : Type := mk { codec : string; fps : Z; profile : option string; crf : option Z }.
#[global] Instance t_eq_dec : EqDecision t.
Proof. solve_decision. Defined.
End VideoInfo.

Module FeatureSpec.
(** [struct FeatureSpec]. *)
Record t : Type := mk {
  dtype : string;
  shape : list Z;
  names : option (list string);
  video_info : option VideoInfo.t
}.
#[global] Instance t_eq_dec : EqDecision t.
Proof. solve_decision. Defined.

(** [is_compatible], [num_elements] (the product wraps), [is_video], [is_state]. *)
Definition is_compatible (s other : t) : bool :=
  String.eqb (dtype s) (dtype other) && bool_decide (shape s = shape other).
Definition num_elements (s : t) : Z := foldl (fun n d => as_u64 (n * d)) 1 (shape s).
Definition is_video (s : t) : bool := String.eqb (dtype s) "video".
Definition is_state (s : t) : bool :=
  (String.eqb (dtype s) "float32" || String.eqb (dtype s) "float64" ||
   String.eqb (dtype s) "int32" || String.eqb (dtype s) "int64") && (length (shape s) =? 1)%nat.
End FeatureSpec.

Module FeatureShape.
(** [struct FeatureShape]. *)
Record t : Type := mk { dtype : string; shape : list Z; is_video : bool }.

(** [FeatureShape::to_spec]. *)
Definition to_spec (s : t) : FeatureSpec.t := {|
  FeatureSpec.dtype := dtype s;
  FeatureSpec.shape := shape s;
  FeatureSpec.names := None;
  FeatureSpec.video_info := if is_video s then Some (VideoInfo.mk "libx264" 30 None None) else None
|}.
End FeatureShape.

Module TaskEntry.
(** [struct TaskEntry]. *)
Record t : Type := mk { task_index : Z; task : string }.
End TaskEntry.

Module PartialEpisodeMetadata.
(** [struct PartialEpisodeMetadata]. *)
Record t : Type := mk {
  episode_index : Z;
  length : Z;
  tasks : list string;
  feature_shapes : gmap string FeatureShape.t;
  parquet_path : string;
  video_paths : gmap string string;
  stats : gmap string FeatureStats.t;
  recorded_at : option Z
}.
(** [PartialEpisodeMetadata::new] at the time [now]. *)
Definition new (now episode_index : Z) : t := mk episode_index 0 [] ∅ "" ∅ ∅ (Some now).
End PartialEpisodeMetadata.

(** ** The encoding of a feature specification *)

(** [bincode]'s encoding of the fields; an [Option] is a [bool] and the value, if any.
    There is nothing to read at the end of the input. *)
Class Bincode := {
  bin_bool :: Wire.Wire bool;
  bin_string :: Wire.Wire string;
  bin_u32 :: Wire.Wire Z;
  bin_shape :: Wire.Wire (list Z);
  bin_names :: Wire.Wire (list string);
  bin_eof : Wire.get (A:=bool) "" = None
}.

Section FeatureCodec.
Context `{Bincode}.

(** A field with [skip_serializing_if = "Option::is_none"]. *)
Definition put_unless_none {A} (put_value : A -> string -> string) (o : option A) (rest : string) : string :=
  match o with Some x => Wire.put true (put_value x rest) | None => rest end.

Definition put_video_info (v : VideoInfo.t) (rest : string) : string :=
  Wire.put (VideoInfo.codec v) (Wire.put (VideoInfo.fps v)
    (put_unless_none Wire.put (VideoInfo.profile v) (put_unless_none Wire.put (VideoInfo.crf v) rest))).

Definition put_feature_spec (s : FeatureSpec.t) (rest : string) : string :=
  Wire.put (FeatureSpec.dtype s) (Wire.put (FeatureSpec.shape s)
    (put_unless_none Wire.put (FeatureSpec.names s)
      (put_unless_none put_video_info (FeatureSpec.video_info s) rest))).

(** The derived [Deserialize] reads every field. *)
Definition get_option {A} (get_value : string -> option (A * string)) (s : string) : option (option A * string) :=
  match Wire.get (A:=bool) s with
  | Some (true, r) => match get_value r with Some (x, r') => Some (Some x, r') | None => None end
  | Some (false, r) => Some (None, r)
  | None => None
  end.

Definition get_video_info (s : string) : option (VideoInfo.t * string) :=
  match Wire.get (A:=string) s with
  | Some (codec, s) =>
      match Wire.get (A:=Z) s with
      | Some (fps, s) =>
          match get_option (Wire.get (A:=string)) s with
          | Some (profile, s) =>
              match get_option (Wire.get (A:=Z)) s with
              | Some (crf, s) => Some (VideoInfo.mk codec fps profile crf, s)
              | None => None
              end
          | None => None
          end
      | None => None
      end
  | None => None
  end.

Definition get_feature_spec (s : string) : option (FeatureSpec.t * string) :=
  match Wire.get (A:=string) s with
  | Some (dtype, s) =>
      match Wire.get (A:=list Z) s with
      | Some (shape, s) =>
          match get_option (Wire.get (A:=list string)) s with
          | Some (names, s) =>
              match get_option get_video_info s with
              | Some (video_info, s) => Some (FeatureSpec.mk dtype shape names video_info, s)
              | None => None
              end
          | None => None
          end
      | None => None
      end
  | None => None
  end.

(** [bincode::serialize] and [bincode::deserialize], which accepts trailing bytes. *)
#[export] Instance feature_spec_codec : Codec FeatureSpec.t := {
  encode s := inr (put_feature_spec s "");
  decode d := match get_feature_spec d with Some (s, _) => inr s | None => inl "io error: unexpected end of file"%string end
}.
End FeatureCodec.

(** [format!("{:016x}", h)]. *)
Definition hex_digit (d : Z) : ascii :=
  ascii_of_nat (Z.to_nat (if d <? 10 then 48 + d else 87 + d)).
Fixpoint hex (n : nat) (x : Z) : string :=
  match n with O => "" | S n' => String (hex_digit (x / 16 ^ Z.of_nat n' mod 16)) (hex n' x) end.

(** [TikvClient::begin_optimistic]. *)
Definition client_begin_optimistic {S} `{TransactionClient S} (c : TikvClient.t) : M S TikvError.t Txn :=
  TikvClient.require_inner c;; rpc begin_optimistic.

(** ** The registry *)
Module DatasetMetadataRegistry.

(** [struct DatasetMetadataRegistry]. *)
Record t : Type := mk { tikv : TikvClient.t; batch_id : string }.

Section Ops.
Context {S : Type} `{TransactionClient S}.
Context `{Codec (Z * Z), Codec TaskEntry.t, Codec FeatureSpec.t, Codec PartialEpisodeMetadata.t}.
(** [DefaultHasher] over the text of a task, and [{:?}] of a specification. *)
Context (default_hash : string -> Z) (debug_spec : FeatureSpec.t -> string).
Abbreviation Tikv := (M S TikvError.t).

Definition hash_task (task : string) : string := hex 16 (default_hash task).

Definition task_key (r : t) (task : string) : string := MetadataKeys.task (batch_id r) (hash_task task).
Definition counter_key (r : t) : string := MetadataKeys.task_counter (batch_id r).

(** The read of the counter at the top of the loop of [register_task]. *)
Definition read_counter (r : t) : Tikv Z :=
  counter_data ← TikvClient.get (tikv r) (counter_key r);
  match counter_data with
  | Some d => p ← of_sum TikvError.Deserialization (decode (A:=Z * Z) d); mret p.1
  | None => mret 0
  end.

(** The rest of the loop's body: [None] is [continue]. *)
Definition register_round (r : t) (task : string) (current : Z) : Tikv (option Z) :=
  let entry := TaskEntry.mk current task in
  txn ← client_begin_optimistic (tikv r);
  counter ← of_sum TikvError.Serialization (encode (u64_add current 1, 0));
  txn ← rpc (txn_put txn (counter_key r) counter);
  data ← of_sum TikvError.Serialization (encode entry);
  txn ← rpc (txn_put txn (task_key r task) data);
  committed ← try_ (rpc (txn_commit txn));
  match committed with
  | Ok _ => mret (Some current)
  | Err _ => mret None
  | Panic s => panic s
  end.

(** The loop, for [rounds] rounds: [None] is a loop that goes on. *)
Fixpoint register_loop (r : t) (task : string) (rounds : nat) : Tikv (option Z) :=
  match rounds with
  | O => mret None
  | Datatypes.S rounds' =>
      current ← read_counter r;
      done ← register_round r task current;
      match done with Some i => mret (Some i) | None => register_loop r task rounds' end
  end.

(** [register_task]. *)
Definition register_task (rounds : nat) (r : t) (task : string) : Tikv (option Z) :=
  existing ← TikvClient.get (tikv r) (task_key r task);
  match existing with
  | Some data => entry ← of_sum TikvError.Deserialization (decode data); mret (Some (TaskEntry.task_index entry))
  | None => register_loop r task rounds
  end.

(** [register_tasks], the loop of [submit_episode] too. *)
Fixpoint register_tasks (rounds : nat) (r : t) (tasks : list string) : Tikv (option (list Z)) :=
  match tasks with
  | [] => mret (Some [])
  | task :: tasks' =>
      index ← register_task rounds r task;
      match index with
      | Some i =>
          indices ← register_tasks rounds r tasks';
          mret (match indices with Some l => Some (i :: l) | None => None end)
      | None => mret None
      end
  end.

(** [register_feature]. *)
Definition register_feature (r : t) (name : string) (spec : FeatureSpec.t) : Tikv unit :=
  let key := MetadataKeys.feature (batch_id r) name in
  existing ← TikvClient.get (tikv r) key;
  match existing with
  | Some data =>
      existing ← of_sum TikvError.Deserialization (decode data);
      if negb (FeatureSpec.is_compatible existing spec)
      then throw (TikvError.Other ("Feature '" +:+ name +:+ "' spec mismatch: existing " +:+
             debug_spec existing +:+ " vs new " +:+ debug_spec spec))
      else mret tt
  | None =>
      data ← of_sum TikvError.Serialization (encode spec);
      TikvClient.put (tikv r) key data
  end.

(** [get_feature]. *)
Definition get_feature (r : t) (name : string) : Tikv (option FeatureSpec.t) :=
  TikvClient.get_record (tikv r) (MetadataKeys.feature (batch_id r) name).

(** [store_episode_metadata], [get_episode_metadata]. *)
Definition store_episode_metadata (r : t) (metadata : PartialEpisodeMetadata.t) : Tikv unit :=
  TikvClient.put_record (tikv r)
    (MetadataKeys.episode_metadata (batch_id r) (PartialEpisodeMetadata.episode_index metadata)) metadata.
Definition get_episode_metadata (r : t) (episode_index : Z) : Tikv (option PartialEpisodeMetadata.t) :=
  TikvClient.get_record (tikv r) (MetadataKeys.episode_metadata (batch_id r) episode_index).

(** [filter_map(|(_, value)| bincode::deserialize(&value).ok())]. *)
Definition decoded {A} `{Codec A} (pairs : list (string * string)) : list A :=
  omap (fun e => match decode e.2 with inr x => Some x | inl _ => None end) pairs.

(** [sort_by_key], which is stable. *)
Definition index_le {A} (index : A -> Z) (a b : A) : Prop := index a <= index b.
#[global] Instance index_le_dec {A} (index : A -> Z) a b : Decision (index_le index a b).
Proof. unfold index_le. apply _. Defined.
#[global] Instance index_le_trans {A} (index : A -> Z) : Transitive (index_le index).
Proof. unfold index_le. intros a b c. lia. Qed.
#[global] Instance index_le_total {A} (index : A -> Z) : Total (index_le index).
Proof. unfold index_le. intros a b. lia. Qed.
Definition sort_by_key {A} (index : A -> Z) (l : list A) : list A := merge_sort (index_le index) l.

(** [scan_episode_metadata], [scan_tasks]. *)
Definition scan_episode_metadata (r : t) : Tikv (list PartialEpisodeMetadata.t) :=
  pairs ← TikvClient.scan (tikv r) (MetadataKeys.episode_metadata_prefix (batch_id r)) 100000;
  mret (sort_by_key PartialEpisodeMetadata.episode_index (decoded pairs)).
Definition scan_tasks (r : t) : Tikv (list TaskEntry.t) :=
  pairs ← TikvClient.scan (tikv r) (MetadataKeys.task_prefix (batch_id r)) 10000;
  mret (sort_by_key TaskEntry.task_index (decoded pairs)).

(** [scan_features]; [rsplit('/').next()] is the text after the last slash. *)
Fixpoint collect_features (pairs : list (string * string)) (features : gmap string FeatureSpec.t)
  : Tikv (gmap string FeatureSpec.t) :=
  match pairs with
  | [] => mret features
  | (key, value) :: pairs' =>
      spec ← of_sum TikvError.Deserialization (decode value);
      collect_features pairs' (<[last_segment slash key := spec]> features)
  end.
Definition scan_features (r : t) : Tikv (gmap string FeatureSpec.t) :=
  pairs ← TikvClient.scan (tikv r) (MetadataKeys.feature_prefix (batch_id r)) 1000;
  collect_features pairs ∅.

(** [cleanup]. *)
Fixpoint delete_keys (r : t) (pairs : list (string * string)) : Tikv unit :=
  match pairs with
  | [] => mret tt
  | (key, _) :: pairs' => TikvClient.delete (tikv r) key;; delete_keys r pairs'
  end.
Fixpoint clean_prefixes (r : t) (prefixes : list string) : Tikv unit :=
  match prefixes with
  | [] => mret tt
  | prefix :: prefixes' =>
      pairs ← TikvClient.scan (tikv r) prefix 100000;
      delete_keys r pairs;;
      clean_prefixes r prefixes'
  end.
Definition cleanup (r : t) : Tikv unit :=
  clean_prefixes r [MetadataKeys.task_prefix (batch_id r); MetadataKeys.feature_prefix (batch_id r);
                    MetadataKeys.episode_metadata_prefix (batch_id r)];;
  TikvClient.delete (tikv r) (counter_key r).

End Ops.
End DatasetMetadataRegistry.

(** ** The submitter *)
Module SubmissionResult.
(** [struct SubmissionResult]. *)
Record t : Type := mk { episode_index : Z; task_indices : list Z }.
End SubmissionResult.

Module MetadataSubmitter.
Section Ops.
Context {S : Type} `{TransactionClient S}.
Context `{!HashOrder string}.
Context `{Codec (Z * Z), Codec TaskEntry.t, Codec FeatureSpec.t, Codec PartialEpisodeMetadata.t}.
Context (default_hash : string -> Z) (debug_spec : FeatureSpec.t -> string).
Abbreviation Tikv := (M S TikvError.t).
Import DatasetMetadataRegistry.

Fixpoint register_features (r : t) (shapes : list (string * FeatureShape.t)) : Tikv unit :=
  match shapes with
  | [] => mret tt
  | (name, shape) :: shapes' =>
      register_feature debug_spec r name (FeatureShape.to_spec shape);;
      register_features r shapes'
  end.

(** [submit_episode]; [None] when a registration is still retrying. *)
Definition submit_episode (rounds : nat) (r : t) (episode_index frame_count : Z) (tasks : list string)
  (feature_shapes : gmap string FeatureShape.t) (parquet_path : string) (video_paths : gmap string string)
  (stats : gmap string FeatureStats.t) : Tikv (option SubmissionResult.t) :=
  task_indices ← register_tasks default_hash rounds r tasks;
  match task_indices with
  | None => mret None
  | Some task_indices =>
      register_features r (hash_iter feature_shapes);;
      t ← now;
      let metadata := PartialEpisodeMetadata.mk episode_index frame_count tasks feature_shapes parquet_path
        video_paths stats (Some (num_seconds t)) in
      store_episode_metadata r metadata;;
      mret (Some (SubmissionResult.mk episode_index task_indices))
  end.

(** [submit_episode_with_stats]. *)
Definition submit_episode_with_stats (rounds : nat) (r : t) (episode_index : Z) (episode_stats : EpisodeStats.t)
  (feature_shapes : gmap string FeatureShape.t) (parquet_path : string) (video_paths : gmap string string)
  : Tikv (option SubmissionResult.t) :=
  let tasks := (fun idx => "task_" +:+ pretty idx)%string <$> EpisodeStats.task_indices episode_stats in
  submit_episode rounds r episode_index (EpisodeStats.frame_count episode_stats) tasks feature_shapes
    parquet_path video_paths (EpisodeStats.feature_stats episode_stats).

End Ops.

(** [extract_feature_shapes]. *)
Definition extract_feature_shapes `{!HashOrder string} (state_dims : gmap string Z)
  (image_shapes : gmap string (Z * Z)) : gmap string FeatureShape.t :=
  let shapes := foldl (fun m e => <[e.1 := FeatureShape.mk "float32" [e.2] false]> m) ∅ (hash_iter state_dims) in
  foldl (fun m e => <[e.1 := FeatureShape.mk "video" [e.2.1; e.2.2; 3] true]> m) shapes (hash_iter image_shapes).
End MetadataSubmitter.

(** ** Keys differ *)
Section KeyLaws.
Variable b : string.

Lemma task_key_inj h h' : MetadataKeys.task b h = MetadataKeys.task b h' -> h = h'.
Proof. unfold MetadataKeys.task. by intros E%string_app_inv_l%string_app_inv_l%string_app_inv_l%string_app_inv_l. Qed.

Lemma feature_key_inj f g : MetadataKeys.feature b f = MetadataKeys.feature b g -> f = g.
Proof. unfold MetadataKeys.feature. by intros E%string_app_inv_l%string_app_inv_l%string_app_inv_l%string_app_inv_l. Qed.

Lemma task_ne_counter h : MetadataKeys.task b h <> MetadataKeys.task_counter b.
Proof. unfold MetadataKeys.task, MetadataKeys.task_counter. by intros E%string_app_inv_l%string_app_inv_l%string_app_inv_l. Qed.

Lemma feature_ne_counter f : MetadataKeys.feature b f <> MetadataKeys.task_counter b.
Proof. unfold MetadataKeys.feature, MetadataKeys.task_counter. by intros E%string_app_inv_l%string_app_inv_l%string_app_inv_l. Qed.

Lemma feature_ne_task f h : MetadataKeys.feature b f <> MetadataKeys.task b h.
Proof. unfold MetadataKeys.feature, MetadataKeys.task. by intros E%string_app_inv_l%string_app_inv_l%string_app_inv_l. Qed.

Lemma episode_ne_task i h : MetadataKeys.episode_metadata b i <> MetadataKeys.task b h.
Proof. unfold MetadataKeys.episode_metadata, MetadataKeys.task. by intros E%string_app_inv_l%string_app_inv_l%string_app_inv_l. Qed.

Lemma episode_ne_feature i f : MetadataKeys.episode_metadata b i <> MetadataKeys.feature b f.
Proof. unfold MetadataKeys.episode_metadata, MetadataKeys.feature. by intros E%string_app_inv_l%string_app_inv_l%string_app_inv_l. Qed.
End KeyLaws.

(** ** Task indices *)
Section Tasks.
Import DatasetMetadataRegistry.
Context {S : Type} `{TransactionClientLaws S} `{!HealthyRuns S}.
Context `{LawfulCodec (Z * Z)} `{LawfulCodec TaskEntry.t}.
Context (default_hash : string -> Z).
Context (r : DatasetMetadataRegistry.t) (Hr : client_ok (tikv r)).

(** The next index is [n], every stored task has an index below it, no two have the same,
    and a task is stored under its hash. *)
Record task_inv (m : gmap string string) (n : Z) : Prop := {
  inv_next : 0 <= n;
  inv_counter : match m !! counter_key r with
                | Some d => exists v, decode d = inr (n, v)
                | None => n = 0
                end;
  inv_below : forall h d, m !! MetadataKeys.task (batch_id r) h = Some d ->
    exists e, decode d = inr e /\ 0 <= TaskEntry.task_index e < n;
  inv_unique : forall h h' d d' e e', m !! MetadataKeys.task (batch_id r) h = Some d ->
    m !! MetadataKeys.task (batch_id r) h' = Some d' -> decode d = inr e -> decode d' = inr e' ->
    TaskEntry.task_index e = TaskEntry.task_index e' -> h = h';
  inv_text : forall h d e, m !! MetadataKeys.task (batch_id r) h = Some d -> decode d = inr e ->
    hash_task default_hash (TaskEntry.task e) = h
}.

(** The stored index of a task. *)
Definition task_index_of (task : string) (m : gmap string string) : option Z :=
  match m !! task_key default_hash r task with
  | Some d => match decode (A:=TaskEntry.t) d with inr e => Some (TaskEntry.task_index e) | inl _ => None end
  | None => None
  end.

(** The keys other than the counter and the task's own. *)
Definition elsewhere (task : string) (m m' : gmap string string) : Prop :=
  forall k, k <> counter_key r -> k <> task_key default_hash r task -> m' !! k = m !! k.

Definition registered (task : string) (n : Z) (m m' : gmap string string) : Prop :=
  exists cd td, encode (u64_add n 1, 0) = inr cd /\ encode (TaskEntry.mk n task) = inr td /\
    m' = <[task_key default_hash r task := td]> (<[counter_key r := cd]> m).

Lemma task_key_ne_counter task : task_key default_hash r task <> counter_key r.
Proof. apply task_ne_counter. Qed.

Lemma registered_inv task n m m' : task_inv m n -> n + 1 < u64_mod -> registered task n m m' ->
  task_inv m' (n + 1) /\ task_index_of task m' = Some n /\ elsewhere task m m'.
Proof.
  intros [Hn Hc Hb Hu Hx] Hlt (cd & td & Ec & Et & ->). rewrite u64_add_small in Ec by lia. apply decode_encode in Ec, Et.
  assert (forall h d e, <[task_key default_hash r task := td]> (<[counter_key r := cd]> m) !!
      MetadataKeys.task (batch_id r) h = Some d -> decode d = inr e ->
      (h = hash_task default_hash task /\ TaskEntry.task_index e = n /\ TaskEntry.task e = task) \/
      (h <> hash_task default_hash task /\ m !! MetadataKeys.task (batch_id r) h = Some d)) as Hl.
  { intros h d e. destruct (decide (h = hash_task default_hash task)) as [->|Hh].
    - unfold task_key. rewrite lookup_insert_eq. intros [= <-]. rewrite Et. intros [= <-]. by left.
    - rewrite lookup_insert_ne; [|by intros E%task_key_inj].
      rewrite lookup_insert_ne; [|intros E; symmetry in E; by apply task_ne_counter in E]. by right. }
  repeat split.
  - lia.
  - rewrite lookup_insert_ne by apply task_key_ne_counter. rewrite lookup_insert_eq. by exists 0.
  - intros h d Hd. destruct (decide (h = hash_task default_hash task)) as [->|Hh].
    + unfold task_key in Hd. rewrite lookup_insert_eq in Hd. injection Hd as <-. rewrite Et.
      eexists. split; [done|]. cbn. lia.
    + unfold task_key in Hd. rewrite lookup_insert_ne in Hd; [|by intros E%task_key_inj].
      rewrite lookup_insert_ne in Hd; [|intros E; symmetry in E; by apply task_ne_counter in E].
      destruct (Hb h d Hd) as (e & He & ?). exists e. split; [done|]. lia.
  - intros h h' d d' e e' Hd Hd' He He' E.
    destruct (Hl h d e Hd He) as [(-> & Ei & _)|[Hh Hm]],
      (Hl h' d' e' Hd' He') as [(-> & Ei' & _)|[Hh' Hm']]; [done|..].
    + destruct (Hb h' d' Hm') as (e2 & E2 & ?). assert (e2 = e') as -> by congruence. lia.
    + destruct (Hb h d Hm) as (e2 & E2 & ?). assert (e2 = e) as -> by congruence. lia.
    + by eapply Hu.
  - intros h d e Hd He. destruct (Hl h d e Hd He) as [(-> & _ & ->)|[_ Hm]]; [done|by eapply Hx].
  - unfold task_index_of. rewrite lookup_insert_eq, Et. done.
  - intros k Hk1 Hk2. rewrite !lookup_insert_ne by done. done.
Qed.

Lemma wp_begin_optimistic (Q : result TikvError.t Txn -> World S -> Prop) w :
  (forall t w', calm w w' -> buffered t = [] -> Q (Ok t) w') -> (forall e w', faulted w w' -> Q (Err e) w') ->
  wp (client_begin_optimistic (tikv r)) Q w.
Proof.
  intros HOk HErr. unfold client_begin_optimistic. wp_step. apply wp_require_inner; [apply Hr|].
  wp_step; [by apply HOk|apply HErr; fault].
Qed.

(** One round: the transaction is applied, fails without a trace, or its commit reports an
    error and was applied or not. *)
Lemma wp_register_round task n (Q : result TikvError.t (option Z) -> World S -> Prop) w :
  (forall w', later w w' -> registered task n (kv w) (kv w') -> Q (Ok (Some n)) w') ->
  (forall w', later w w' -> ~ ready w -> kv w' = kv w \/ registered task n (kv w) (kv w') -> Q (Ok None) w') ->
  (forall e w', faulted w w' -> Q (Err e) w') ->
  wp (register_round default_hash r task n) Q w.
Proof.
  intros HOk HNone HErr. unfold register_round. wp_step.
  apply wp_begin_optimistic; [intros t0 w1 C1 B1|exact HErr].
  destruct (encode_total (u64_add n 1, 0)) as [cd Ec]. destruct (encode_total (TaskEntry.mk n task)) as [td Et].
  do 2 wp_step. rewrite Ec. wp_step. wp_step; [|apply HErr; fault].
  do 2 wp_step. rewrite Et. wp_step. wp_step; [|apply HErr; fault].
  do 2 wp_step. wp_step; wp_step.
  - apply HOk; [world|]. exists cd, td. split; [done|]. split; [done|]. kv_eq.
  - apply HNone; [world|world|]. match goal with Hd : kv _ = _ \/ _ |- _ => destruct Hd end.
    + right. exists cd, td. split; [done|]. split; [done|]. kv_eq.
    + left. kv_eq.
Qed.

Lemma wp_read_counter n (Q : result TikvError.t Z -> World S -> Prop) w :
  task_inv (kv w) n -> (forall w', calm w w' -> Q (Ok n) w') -> (forall e w', faulted w w' -> Q (Err e) w') ->
  wp (read_counter r) Q w.
Proof.
  intros Hi HOk HErr. unfold read_counter. wp_step. apply wp_get; [apply Hr| |exact HErr].
  intros w1 C1. pose proof (inv_counter _ _ Hi) as Hc. destruct (kv w !! counter_key r) as [d|].
  - destruct Hc as [v Ed]. do 2 wp_step. rewrite Ed. wp_step. by apply HOk.
  - wp_step. subst n. by apply HOk.
Qed.

Lemma elsewhere_trans task m1 m2 m3 : elsewhere task m1 m2 -> elsewhere task m2 m3 -> elsewhere task m1 m3.
Proof. intros He1 He2 k Hk1 Hk2. by rewrite He2, He1. Qed.

(** What is true after some rounds, whatever they returned. *)
Definition progressed (task : string) (n : Z) (rounds : nat) (m m' : gmap string string) : Prop :=
  exists n', n <= n' <= n + Z.of_nat rounds /\ task_inv m' n' /\ elsewhere task m m'.

Lemma wp_register_loop task rounds n (Q : result TikvError.t (option Z) -> World S -> Prop) w :
  task_inv (kv w) n -> n + Z.of_nat rounds < u64_mod ->
  (forall i w', later w w' -> progressed task n rounds (kv w) (kv w') -> task_index_of task (kv w') = Some i ->
     (ready w -> i = n) -> Q (Ok (Some i)) w') ->
  (forall w', later w w' -> progressed task n rounds (kv w) (kv w') -> (ready w -> rounds = 0%nat) -> Q (Ok None) w') ->
  (forall e w', later w w' -> progressed task n rounds (kv w) (kv w') -> ~ ready w -> Q (Err e) w') ->
  wp (register_loop default_hash r task rounds) Q w.
Proof.
  revert n w. induction rounds as [|rounds IH]; intros n w Hi Hlt HOk HNone HErr; cbn [register_loop].
  - wp_step. apply HNone; [world| |done]. exists n. split; [lia|]. split; [done|]. by intros k.
  - pose proof (inv_next _ _ Hi) as Hn.
    assert (forall e w', faulted w w' -> Q (Err e) w') as HF.
    { intros e w' [[K L] Hnr]. apply HErr; [done| |done]. rewrite K. exists n.
      split; [lia|]. split; [done|]. by intros k. }
    wp_step. apply (wp_read_counter n); [done| |exact HF]. intros w1 C1.
    assert (task_inv (kv w1) n) as Hi1 by (by destruct C1 as [-> _]).
    wp_step. apply wp_register_round; [| |intros e w2 F2; apply HF; fault].
    + intros w2 L2 Hreg. destruct (registered_inv task n (kv w1) (kv w2) Hi1 ltac:(lia) Hreg) as (Hi2 & Ht & He). wp_step.
      apply HOk; [world| |done|done]. exists (n + 1). split; [lia|]. split; [done|].
      destruct C1 as [K1 _]. by rewrite <- K1.
    + intros w2 L2 Hnr Hkv.
      assert (exists n2, n <= n2 <= n + 1 /\ task_inv (kv w2) n2 /\ elsewhere task (kv w) (kv w2)) as (n2 & Hn2 & Hi2 & He2).
      { destruct C1 as [K1 _]. rewrite <- K1. destruct Hkv as [->|Hreg].
        - exists n. split; [lia|]. split; [done|]. by intros k.
        - exists (n + 1). split; [lia|]. destruct (registered_inv task n (kv w1) (kv w2) Hi1 ltac:(lia) Hreg) as (? & _ & ?). done. }
      assert (~ ready w) as Hnr' by world.
      assert (forall w', progressed task n2 rounds (kv w2) (kv w') -> progressed task n (Datatypes.S rounds) (kv w) (kv w')) as Hp.
      { intros w' (n' & Hn' & Hi' & He'). exists n'. split; [lia|]. split; [done|]. by eapply elsewhere_trans. }
      apply (IH n2); [done|lia| | |].
      * intros i w' L' P' T' _. apply HOk; [world|by apply Hp|done|done].
      * intros w' L' P' _. apply HNone; [world|by apply Hp|done].
      * intros e w' L' P' _. apply HErr; [world|by apply Hp|done].
Qed.

Lemma task_inv_lookup n task m d : task_inv m n -> m !! task_key default_hash r task = Some d ->
  exists e, decode d = inr e /\ task_index_of task m = Some (TaskEntry.task_index e).
Proof.
  intros Hi Hd. destruct (inv_below _ _ Hi _ _ Hd) as (e & He & _). exists e. split; [done|].
  unfold task_index_of. by rewrite Hd, He.
Qed.

(** The outcome of a registration. *)
Definition register_post (rounds : nat) (task : string) (n : Z) (w : World S)
  (res : result TikvError.t (option Z)) (w' : World S) : Prop :=
  progressed task n rounds (kv w) (kv w') /\
  (is_Some (task_index_of task (kv w)) -> kv w' = kv w) /\
  match res with
  | Ok (Some i) =>
      task_index_of task (kv w') = Some i /\ (task_index_of task (kv w) = None -> ready w -> i = n)
  | Ok None | Err _ => ~ ready w
  | Panic _ => False
  end.

Lemma wp_register_task rounds task n (w : World S) :
  task_inv (kv w) n -> n + Z.of_nat rounds < u64_mod -> (0 < rounds)%nat ->
  wp (register_task default_hash rounds r task)
     (fun res w' => later w w' /\ register_post rounds task n w res w') w.
Proof.
  intros Hi Hlt Hrounds. unfold register_task. wp_step.
  assert (forall w', kv w' = kv w -> progressed task n rounds (kv w) (kv w')) as Hsame.
  { intros w1 ->. exists n. pose proof (inv_next _ _ Hi). split; [lia|]. split; [done|]. by intros k. }
  apply wp_get; [apply Hr| |].
  2: { intros e w1 [[K1 L1] Hnr]. split; [done|]. split; [by apply Hsame|]. done. }
  intros w1 [K1 L1]. unfold register_post. destruct (kv w !! task_key default_hash r task) as [d|] eqn:Ed.
  - destruct (task_inv_lookup n task (kv w) d Hi Ed) as (e & He & Ht). do 2 wp_step. rewrite He. wp_step.
    split; [done|]. split; [by apply Hsame|]. split; [done|]. rewrite K1, Ht. done.
  - assert (task_index_of task (kv w) = None) as Ht by (unfold task_index_of; by rewrite Ed).
    apply (wp_register_loop task rounds n); [by rewrite K1|done|..]; rewrite K1, ?Ht.
    + intros i w2 L2 P2 T2 Hn. split; [world|]. split; [done|]. split; [by intros []|].
      split; [done|]. intros _ Hw. apply Hn. by apply L1.
    + intros w2 L2 P2 Hz. split; [world|]. split; [done|]. split; [by intros []|]. intros Hw.
      assert (rounds = 0%nat) by (by apply Hz, L1). lia.
    + intros e w2 L2 P2 Hnr. split; [world|]. split; [done|]. split; [by intros []|]. intros Hw. by apply Hnr, L1.
Qed.

(** Registered tasks have indices of their own.  [register_task], started from a
    registry with distinct indices below the counter, keeps it so whatever calls fail, and
    leaves every other key alone.  An index it returns is the one stored for the task; a
    task already stored keeps its index and nothing is written.  With every call answered
    one round is enough: there is no error, and a new task gets the counter's value. *)
Theorem register_task_outcome rounds task n (w : World S) res w' :
  task_inv (kv w) n -> n + Z.of_nat rounds < u64_mod -> (0 < rounds)%nat ->
  register_task default_hash rounds r task w = (res, w') ->
  progressed task n rounds (kv w) (kv w') /\
  (is_Some (task_index_of task (kv w)) -> kv w' = kv w) /\
  match res with
  | Ok (Some i) =>
      task_index_of task (kv w') = Some i /\ (task_index_of task (kv w) = None -> ready w -> i = n)
  | Ok None | Err _ => ~ ready w
  | Panic _ => False
  end.
Proof. intros Hi Hlt Hrounds E. wp_run E. eapply wp_mono; [by eapply wp_register_task|]. by intros ? ? [_ ?]. Qed.

(** Registration keeps the index of every task that has one. *)
Lemma register_post_stable rounds task n (w w' : World S) res t i :
  task_inv (kv w) n -> register_post rounds task n w res w' -> task_index_of t (kv w) = Some i ->
  task_index_of t (kv w') = Some i.
Proof.
  intros Hi ((n' & _ & Hi' & He) & Hsame & _) Ht.
  destruct (kv w !! task_key default_hash r task) as [d|] eqn:Ed.
  - destruct (task_inv_lookup n task (kv w) d Hi Ed) as (e & _ & Hj). rewrite Hsame; [done|by eexists].
  - unfold task_index_of in *. rewrite He; [done|apply task_key_ne_counter|].
    intros E. by rewrite E, Ed in Ht.
Qed.

(** Two workers can be given the same index.  The counter is read outside the transaction
    that advances it, and that transaction only writes: when another worker's whole
    registration falls between the read and the beginning of the transaction, nothing
    conflicts, and both tasks are stored under the index that was read. *)
Theorem stale_counter_duplicates a b n (w w1 : World S) :
  task_inv (kv w) n -> n + 1 < u64_mod -> ready w ->
  hash_task default_hash a <> hash_task default_hash b ->
  task_index_of a (kv w) = None -> task_index_of b (kv w) = None ->
  register_task default_hash 1 r b w = (Ok (Some n), w1) ->
  exists w2, register_round default_hash r a n w1 = (Ok (Some n), w2) /\
    task_index_of a (kv w2) = Some n /\ task_index_of b (kv w2) = Some n.
Proof.
  intros Hi Hn Hw Hab Ha Hb E.
  assert (later w w1 /\ task_index_of b (kv w1) = Some n) as [L1 Hb1].
  { pose proof (wp_register_task 1 b n w Hi) as Hwp. unfold wp in Hwp. rewrite E in Hwp.
    destruct Hwp as (L1 & _ & _ & Hb1 & _); [lia..|]. done. }
  destruct (register_round default_hash r a n w1) as [res w2] eqn:E2. exists w2.
  assert (res = Ok (Some n) /\ registered a n (kv w1) (kv w2)) as [-> Hreg].
  { wp_run E2. apply wp_register_round; [by intros w3 _ ?| |].
    - intros w3 _ Hnr _. destruct Hnr. world.
    - intros e w3 [_ Hnr]. destruct Hnr. world. }
  split; [done|]. destruct Hreg as (cd & td & _ & Et & ->). apply decode_encode in Et.
  unfold task_index_of in *. rewrite lookup_insert_eq, Et. split; [done|].
  rewrite lookup_insert_ne; [|unfold task_key; by intros E3%task_key_inj].
  rewrite lookup_insert_ne; [done|]. intros E3. symmetry in E3. by apply task_key_ne_counter in E3.
Qed.

(** *** Several tasks *)
Lemma wp_register_tasks rounds tasks n (w : World S) :
  task_inv (kv w) n -> n + Z.of_nat (length tasks * rounds) < u64_mod -> (0 < rounds)%nat ->
  wp (register_tasks default_hash rounds r tasks)
     (fun res w' => later w w' /\
        (exists n', n <= n' <= n + Z.of_nat (length tasks * rounds) /\ task_inv (kv w') n') /\
        (forall t i, task_index_of t (kv w) = Some i -> task_index_of t (kv w') = Some i) /\
        (forall k, k <> counter_key r -> (forall t, k <> task_key default_hash r t) -> kv w' !! k = kv w !! k) /\
        match res with
        | Ok (Some l) => (fun t => task_index_of t (kv w')) <$> tasks = Some <$> l
        | Ok None | Err _ => ~ ready w
        | Panic _ => False
        end) w.
Proof.
  revert n w. induction tasks as [|task tasks IH]; intros n w Hi Hlt Hrounds; cbn [register_tasks].
  - wp_step. split; [world|]. split; [exists n; pose proof (inv_next _ _ Hi); split; [lia|done]|]. done.
  - cbn [length] in Hlt. wp_step. eapply wp_mono; [apply (wp_register_task rounds task n w Hi); [lia|done]|].
    intros res w1 [L1 Hpost]. pose proof (register_post_stable rounds task n w w1 res) as Hstable.
    pose proof Hpost as ((n1 & Hn1 & Hi1 & He1) & _ & Hres).
    assert (exists n', n <= n' <= n + Z.of_nat (length (task :: tasks) * rounds) /\ task_inv (kv w1) n') as Hex.
    { exists n1. split; [cbn [length]; lia|done]. }
    assert (forall k, k <> counter_key r -> (forall t, k <> task_key default_hash r t) -> kv w1 !! k = kv w !! k) as Hk1.
    { intros k Hk Hkt. by apply He1. }
    destruct res as [[i|]|e|msg]; [|wp_step; by eauto 10|by eauto 10|done].
    destruct Hres as [Hti _]. wp_step.
    eapply wp_mono; [apply (IH n1 w1 Hi1); [lia|done]|].
    intros res2 w2 (L2 & (n2 & Hn2 & Hi2) & Hst2 & Hk2 & Hres2).
    assert (forall t j, task_index_of t (kv w) = Some j -> task_index_of t (kv w2) = Some j) as Hst.
    { intros t j Ht. by apply Hst2, Hstable. }
    assert (exists n', n <= n' <= n + Z.of_nat (length (task :: tasks) * rounds) /\ task_inv (kv w2) n') as Hex2.
    { exists n2. split; [cbn [length]; lia|done]. }
    assert (forall k, k <> counter_key r -> (forall t, k <> task_key default_hash r t) -> kv w2 !! k = kv w !! k) as Hk3.
    { intros k Hk Hkt. by rewrite Hk2, Hk1. }
    destruct res2 as [[l|]|e|msg]; [wp_step|wp_step|..]; (split; [world|]; split; [done|]; split; [done|];
      split; [done|]); [|world|world|done].
    cbn. f_equal; [by apply Hst2|done].
Qed.

(** *** Reading the tasks back *)
Lemma hex_range n x : free_of byte_ff (hex n x) = true.
Proof.
  induction n as [|n IH]; cbn [hex free_of]; [done|]. rewrite IH, andb_true_r.
  apply negb_true_iff, Ascii.eqb_neq. intros E. apply (f_equal nat_of_ascii) in E.
  assert (nat_of_ascii byte_ff = 255%nat) as E2 by reflexivity. rewrite E2 in E.
  pose proof (Z.mod_pos_bound (x / 16 ^ Z.of_nat n) 16) as Hd. unfold hex_digit in E.
  rewrite nat_ascii_embedding in E; destruct (Z.ltb_spec (x / 16 ^ Z.of_nat n mod 16) 10); lia.
Qed.

Definition task_range (k : string) : bool :=
  in_range (MetadataKeys.task_prefix (batch_id r)) (scan_end (MetadataKeys.task_prefix (batch_id r))) k.

Lemma task_range_key k : task_range k = true -> exists h, k = MetadataKeys.task (batch_id r) h.
Proof.
  intros (h & -> & _)%in_prefix_range_iff. exists h. unfold MetadataKeys.task, MetadataKeys.task_prefix.
  by rewrite !string_app_assoc.
Qed.

Lemma task_key_range task : task_range (task_key default_hash r task) = true.
Proof.
  apply in_prefix_range_iff. exists (hash_task default_hash task). split; [|apply ltb_byte_ff, hex_range].
  unfold task_key, MetadataKeys.task, MetadataKeys.task_prefix. by rewrite !string_app_assoc.
Qed.

Definition task_entries (m : gmap string string) : list (string * string) :=
  filter (fun e => task_range e.1 = true) (map_to_list m).

Lemma decoded_entry (m : gmap string string) n k d : task_inv m n -> (k, d) ∈ task_entries m ->
  exists h e, k = MetadataKeys.task (batch_id r) h /\ m !! k = Some d /\ decode d = inr e /\
    0 <= TaskEntry.task_index e < n.
Proof.
  intros Hi He. apply list_elem_of_filter in He as [Hk He]. apply elem_of_map_to_list in He. cbn [fst] in Hk.
  destruct (task_range_key _ Hk) as [h ->]. destruct (inv_below _ _ Hi h d He) as (e & Hd & Hlt).
  exists h, e. done.
Qed.

(** There are at most as many entries as indices. *)
Lemma task_entries_length m n : task_inv m n -> Z.of_nat (length (task_entries m)) <= n.
Proof.
  intros Hi. pose proof (inv_next _ _ Hi) as Hn.
  set (f (kd : string * string) := match decode (A:=TaskEntry.t) kd.2 with inr e => TaskEntry.task_index e | inl _ => -1 end).
  assert (NoDup (f <$> task_entries m)) as Hnd.
  { apply NoDup_fmap_2_strong; [|apply NoDup_filter, NoDup_map_to_list].
    intros [k d] [k' d'] He He' E. unfold f in E. cbn [snd] in E.
    destruct (decoded_entry m n k d Hi He) as (h & e & -> & Hm & Hd & _).
    destruct (decoded_entry m n k' d' Hi He') as (h' & e' & -> & Hm' & Hd' & _).
    rewrite Hd, Hd' in E. assert (h = h') as -> by (by eapply (inv_unique _ _ Hi)).
    f_equal. congruence. }
  assert (length (f <$> task_entries m) <= length (seqZ 0 n))%nat as Hl.
  { apply submseteq_length, NoDup_submseteq; [done|]. intros i. rewrite list_elem_of_fmap.
    intros ([k d] & -> & He). destruct (decoded_entry m n k d Hi He) as (h & e & -> & Hm & Hd & Hlt).
    unfold f. cbn [snd]. rewrite Hd. apply elem_of_seqZ. lia. }
  rewrite length_fmap, length_seqZ in Hl. lia.
Qed.

Lemma elem_of_decoded {A} `{Codec A} pairs (x : A) :
  x ∈ decoded pairs <-> exists kd, kd ∈ pairs /\ decode kd.2 = inr x.
Proof.
  unfold decoded. rewrite list_elem_of_omap. split; intros (kd & Hk & E); exists kd; (split; [done|]).
  - destruct (decode kd.2); congruence.
  - by rewrite E.
Qed.

(** [scan_tasks] returns the stored tasks in the order of their indices. *)
Lemma wp_scan_tasks n (Q : result TikvError.t (list TaskEntry.t) -> World S -> Prop) w :
  task_inv (kv w) n -> n <= 10000 ->
  (forall l w', calm w w' -> StronglySorted (index_le TaskEntry.task_index) l ->
     (forall e, e ∈ l <-> exists h d, task_range (MetadataKeys.task (batch_id r) h) = true /\
        kv w !! MetadataKeys.task (batch_id r) h = Some d /\ decode d = inr e) -> Q (Ok l) w') ->
  (forall e w', faulted w w' -> Q (Err e) w') ->
  wp (scan_tasks r) Q w.
Proof.
  intros Hi Hn HOk HErr. unfold scan_tasks. wp_step. apply wp_scan; [apply Hr| |exact HErr].
  intros w1 C1. wp_step. apply HOk; [done| |].
  - apply (StronglySorted_merge_sort (index_le TaskEntry.task_index)).
  - intros e. unfold sort_by_key. rewrite merge_sort_Permutation, elem_of_decoded.
    pose proof (task_entries_length _ _ Hi) as Hl.
    split.
    + intros ([k d] & Hk & Hd). apply elem_of_kv_scan in Hk as [Hk Hrg].
      destruct (task_range_key k Hrg) as [h ->]. by exists h, d.
    + intros (h & d & Hrg & Hm & Hd). exists (MetadataKeys.task (batch_id r) h, d). split; [|done].
      apply elem_of_kv_scan_all; [|done]. unfold task_entries, task_range in Hl. lia.
Qed.

(** The map the assembler builds of the tasks. *)
Definition task_map (tasks : list TaskEntry.t) : gmap string Z :=
  foldl (fun m t => <[TaskEntry.task t := TaskEntry.task_index t]> m) ∅ tasks.

Lemma task_map_lookup tasks task i (m : gmap string Z) :
  (forall e, e ∈ tasks -> TaskEntry.task e = task -> TaskEntry.task_index e = i) ->
  (m !! task = Some i \/ exists e, e ∈ tasks /\ TaskEntry.task e = task) ->
  foldl (fun m t => <[TaskEntry.task t := TaskEntry.task_index t]> m) m tasks !! task = Some i.
Proof.
  revert m. induction tasks as [|e tasks IH]; intros m Hall Hex; cbn [foldl].
  - destruct Hex as [?|(e & He & _)]; [done|by apply not_elem_of_nil in He].
  - apply IH; [intros e' He'; apply Hall; by right|].
    destruct (decide (TaskEntry.task e = task)) as [<-|Hne].
    + left. rewrite lookup_insert_eq. f_equal. apply Hall; [left|done].
    + rewrite lookup_insert_ne by done. destruct Hex as [?|(e' & [->|He']%elem_of_cons & ?)]; [by left|done|].
      right. by exists e'.
Qed.

End Tasks.

(** ** What an operation leaves alone *)
Section Frames.
Context {S : Type} `{TransactionClientLaws S} `{!HealthyRuns S}.

(** [m] does not change the keys [P]. *)
Definition keeps {E A} (P : string -> Prop) (m : M S E A) : Prop :=
  forall w, wp m (fun _ w' => forall k, P k -> kv w' !! k = kv w !! k) w.

Lemma keeps_then {E A B} P (m : M S E A) (f : A -> M S E B) :
  keeps P m -> (forall a, keeps P (f a)) -> keeps P (m ≫= f).
Proof.
  intros Hm Hf w. wp_step. eapply wp_mono; [exact (Hm w)|]. intros [a|e|s] w1 H1'; [|done..].
  eapply wp_mono; [exact (Hf a w1)|]. intros ? w2 H2' k Hk. by rewrite H2', H1'.
Qed.

Lemma keeps_ret {E A} P (a : A) : keeps (E:=E) P (mret a).
Proof. intros w. by wp_step. Qed.

Lemma keeps_throw {E A} P (e : E) : keeps (A:=A) P (throw e).
Proof. intros w. by wp_step. Qed.

Lemma keeps_of_sum {E A} P (f : string -> E) (x : string + A) : keeps P (of_sum f x).
Proof. intros w. by wp_step. Qed.

Context (c : TikvClient.t) (Hc : client_ok c).

Lemma keeps_get P k : keeps P (TikvClient.get c k).
Proof.
  intros w. apply wp_get; [apply Hc| |].
  - intros w' [-> _]. done.
  - intros e w' [[-> _] _]. done.
Qed.

Lemma keeps_put (P : string -> Prop) k v : ~ P k -> keeps P (TikvClient.put c k v).
Proof.
  intros Hk w. apply wp_put; [apply Hc..| |].
  - intros w' [_ ->] k' Hk'. apply lookup_insert_ne. congruence.
  - intros e w' (_ & _ & [->| ->]) k' Hk'; [done|]. apply lookup_insert_ne. congruence.
Qed.
End Frames.
Create HintDb frames.
#[global] Hint Resolve keeps_then keeps_ret keeps_throw keeps_of_sum keeps_get keeps_put : frames.

(** ** Features *)
Section Features.
Import DatasetMetadataRegistry.
Context {S : Type} `{TransactionClientLaws S} `{!HealthyRuns S}.
Context `{LawfulCodec (Z * Z)} `{LawfulCodec TaskEntry.t} `{Codec PartialEpisodeMetadata.t}.
Context `{Bincode} `{!HashOrder string}.
Context (default_hash : string -> Z) (debug_spec : FeatureSpec.t -> string).
Context (r : DatasetMetadataRegistry.t) (Hr : client_ok (tikv r)).
Abbreviation fkey f := (MetadataKeys.feature (batch_id r) f).

(** A specification without video information does not read back: its last field was
    left out. *)
Lemma stateful_spec_unreadable s :
  FeatureSpec.video_info s = None -> exists e, decode (A:=FeatureSpec.t) (put_feature_spec s "") = inl e.
Proof.
  intros Hv. cbn. unfold get_feature_spec, put_feature_spec. rewrite !Wire.get_put. rewrite Hv.
  unfold get_option. destruct (FeatureSpec.names s) as [ns|]; cbn [put_unless_none].
  - rewrite !Wire.get_put, bin_eof. by eexists.
  - rewrite bin_eof. by eexists.
Qed.

(** One that has every optional field does. *)
Lemma full_spec_readable d sh ns codec fps prof crf :
  let s := FeatureSpec.mk d sh (Some ns) (Some (VideoInfo.mk codec fps (Some prof) (Some crf))) in
  decode (put_feature_spec s "") = inr s.
Proof.
  intros s. unfold s. cbn. unfold get_feature_spec, put_feature_spec, get_option, get_video_info. cbn.
  unfold put_video_info, get_option. cbn. repeat (rewrite Wire.get_put; cbn). done.
Qed.

Lemma keeps_register_round (P : string -> Prop) task n :
  ~ P (counter_key r) -> ~ P (task_key default_hash r task) -> keeps P (register_round (S:=S) default_hash r task n).
Proof.
  intros Hc Ht w.
  assert (forall w', registered default_hash r task n (kv w) (kv w') -> forall k, P k -> kv w' !! k = kv w !! k) as Hreg.
  { intros w' (cd & td & _ & _ & ->) k Hk. by rewrite !lookup_insert_ne by congruence. }
  apply wp_register_round; [done|..].
  - intros w' _. apply Hreg.
  - intros w' _ _ [->|?]; [done|]. by apply Hreg.
  - intros e w' [[-> _] _]. done.
Qed.

Lemma keeps_register_task (P : string -> Prop) rounds task :
  ~ P (counter_key r) -> ~ P (task_key default_hash r task) ->
  keeps P (register_task (S:=S) default_hash rounds r task).
Proof.
  intros Hc Ht. unfold register_task. apply keeps_then; [by apply keeps_get|]. intros [d|]; [by eauto with frames|].
  induction rounds as [|rounds IH]; cbn [register_loop]; [apply keeps_ret|].
  apply keeps_then.
  - unfold read_counter. apply keeps_then; [by apply keeps_get|]. intros [d|]; eauto with frames.
  - intros n. apply keeps_then; [by apply keeps_register_round|]. intros [i|]; [apply keeps_ret|apply IH].
Qed.

Lemma keeps_register_tasks (P : string -> Prop) rounds tasks :
  ~ P (counter_key r) -> (forall t, ~ P (task_key default_hash r t)) ->
  keeps P (register_tasks (S:=S) default_hash rounds r tasks).
Proof.
  intros Hc Ht. induction tasks as [|t tasks IH]; cbn [register_tasks]; [apply keeps_ret|].
  apply keeps_then; [by apply keeps_register_task|]. intros [i|]; [|apply keeps_ret].
  apply keeps_then; [apply IH|]. intros a. apply keeps_ret.
Qed.

Lemma keeps_register_feature (P : string -> Prop) f s :
  ~ P (fkey f) -> keeps P (register_feature (S:=S) debug_spec r f s).
Proof.
  intros Hf. unfold register_feature. apply keeps_then; [by apply keeps_get|]. intros [d|].
  - apply keeps_then; [apply keeps_of_sum|]. intros s'. destruct (negb _); eauto with frames.
  - apply keeps_then; [apply keeps_of_sum|]. intros d. by apply keeps_put.
Qed.

Lemma keeps_register_features (P : string -> Prop) l :
  (forall f, f ∈ l.*1 -> ~ P (fkey f)) -> keeps P (MetadataSubmitter.register_features (S:=S) debug_spec r l).
Proof.
  induction l as [|[f s] l IH]; intros Hl; cbn [MetadataSubmitter.register_features]; [apply keeps_ret|].
  apply keeps_then; [apply keeps_register_feature, Hl; left|]. intros _. apply IH. intros g Hg. apply Hl. by right.
Qed.

(** A feature stored without video information. *)
Definition stuck (f : string) (m : gmap string string) : Prop :=
  exists s, FeatureSpec.video_info s = None /\ m !! fkey f = Some (put_feature_spec s "").

Lemma stuck_register_feature f s (w : World S) : stuck f (kv w) ->
  wp (register_feature debug_spec r f s) (fun res _ => res <> Ok tt) w.
Proof.
  intros (s0 & Hv & Hd). unfold register_feature. wp_step. apply wp_get; [apply Hr| |done].
  intros w1 _. rewrite Hd. destruct (stateful_spec_unreadable s0 Hv) as [e He]. do 2 wp_step. by rewrite He.
Qed.

Lemma stuck_register_features f l (w : World S) : stuck f (kv w) -> f ∈ l.*1 ->
  wp (MetadataSubmitter.register_features debug_spec r l) (fun res _ => res <> Ok tt) w.
Proof.
  revert w. induction l as [|[g s] l IH]; intros w Hst Hf; cbn [MetadataSubmitter.register_features];
    [by apply not_elem_of_nil in Hf|].
  wp_step. destruct (decide (f = g)) as [->|Hne].
  - eapply wp_mono; [by apply stuck_register_feature|]. by intros [[]|e|m] w1 Hres.
  - cbn in Hf. apply elem_of_cons in Hf as [?|Hf]; [done|].
    eapply wp_mono; [apply (keeps_register_feature (fun k => k = fkey f)); by intros ?%feature_key_inj|].
    intros [[]|e|m] w1 Hk; [|done..]. apply IH; [|done].
    destruct Hst as (s0 & Hv & Hd). exists s0. split; [done|]. by rewrite Hk.
Qed.

Lemma fresh_register_features f sh l (w : World S) :
  kv w !! fkey f = None -> NoDup l.*1 -> (f, sh) ∈ l -> FeatureShape.is_video sh = false ->
  wp (MetadataSubmitter.register_features debug_spec r l) (fun res w' => res = Ok tt -> stuck f (kv w')) w.
Proof.
  revert w. induction l as [|[g s] l IH]; intros w Hn Hnd Hf Hsh; cbn [MetadataSubmitter.register_features];
    [by apply not_elem_of_nil in Hf|].
  cbn in Hnd. apply NoDup_cons in Hnd as [Hg Hnd]. wp_step.
  apply elem_of_cons in Hf as [[= -> ->]|Hf].
  - unfold register_feature. wp_step. apply wp_get; [apply Hr| |done]. intros w1 [K1 _]. rewrite Hn.
    do 2 wp_step. apply wp_put; [apply Hr..| |done]. intros w2 [_ K2].
    eapply wp_mono; [apply (keeps_register_features (fun k => k = fkey g) l)|].
    { intros f Hf ?%feature_key_inj. by subst. }
    intros res w3 Hk _. exists (FeatureShape.to_spec s). unfold FeatureShape.to_spec at 1. cbn. rewrite Hsh.
    split; [done|]. by rewrite Hk, K2, lookup_insert_eq.
  - assert (f <> g) as Hne. { intros ->. apply Hg. apply list_elem_of_fmap. by exists (g, sh). }
    eapply wp_mono; [apply (keeps_register_feature (fun k => k = fkey f)); by intros ?%feature_key_inj|].
    intros [[]|e|m] w1 Hk; [|done..]. apply IH; [|done..]. by rewrite Hk.
Qed.

Lemma hash_iter_elem {A} (m : gmap string A) k x : m !! k = Some x -> (k, x) ∈ hash_iter m.
Proof. intros. rewrite hash_iter_perm. by apply elem_of_map_to_list. Qed.

Lemma hash_iter_NoDup {A} (m : gmap string A) : NoDup (hash_iter m).*1.
Proof. rewrite hash_iter_perm. apply NoDup_fst_map_to_list. Qed.

Abbreviation submit := (MetadataSubmitter.submit_episode (S:=S) default_hash debug_spec).

Lemma tasks_keep_feature rounds tasks f :
  keeps (S:=S) (fun k => k = fkey f) (register_tasks default_hash rounds r tasks).
Proof.
  apply keeps_register_tasks; [intros E; symmetry in E; by apply feature_ne_counter in E|].
  intros t E. symmetry in E. by apply feature_ne_task in E.
Qed.

(** The first submission of a feature without video information stores it unreadable. *)
Lemma first_submission f sh rounds i n tasks shapes pq vp st (w : World S) :
  kv w !! fkey f = None -> shapes !! f = Some sh -> FeatureShape.is_video sh = false ->
  wp (submit rounds r i n tasks shapes pq vp st)
     (fun res w' => forall x, res = Ok (Some x) -> stuck f (kv w')) w.
Proof.
  intros Hn Hf Hsh. unfold MetadataSubmitter.submit_episode. wp_step.
  eapply wp_mono; [apply (tasks_keep_feature rounds tasks f)|]. intros [[l|]|e|m] w1 Hk1; [|by wp_step|done..].
  wp_step. eapply wp_mono; [apply (fresh_register_features f sh); [by rewrite Hk1|apply hash_iter_NoDup
    |by apply hash_iter_elem|done]|].
  intros [[]|e|m] w2 Hst; [|done..]. specialize (Hst eq_refl).
  do 2 wp_step. wp_step. unfold store_episode_metadata, TikvClient.put_record.
  match goal with Hc : calm w2 ?w3 |- _ => assert (stuck f (kv w3)) as Hst3 by (by destruct Hc as [-> _]) end.
  do 2 wp_step. destruct (encode _) as [e|d]; [done|].
  eapply wp_mono; [apply (keeps_put (tikv r) Hr (fun k => k = fkey f))|].
  { intros E. by apply episode_ne_feature in E. }
  intros [[]|e|m] w4 Hk4; [|done..]. wp_step. intros _ _. destruct Hst3 as (s0 & Hv & Hd).
  exists s0. split; [done|]. by rewrite Hk4.
Qed.

(** A feature without video information can be submitted once.  When an episode whose
    shapes include a new, non-video feature has been submitted, every later submission
    whose shapes include it fails, whoever makes it and whatever the new shape is: the
    stored specification cannot be decoded. *)
Theorem state_feature_submitted_once f sh rounds i n tasks shapes pq vp st (w : World S) x w1
  rounds' i' n' tasks' shapes' pq' vp' st' (w2 : World S) res w3 :
  kv w !! fkey f = None -> shapes !! f = Some sh -> FeatureShape.is_video sh = false ->
  submit rounds r i n tasks shapes pq vp st w = (Ok (Some x), w1) ->
  kv w2 !! fkey f = kv w1 !! fkey f -> is_Some (shapes' !! f) ->
  submit rounds' r i' n' tasks' shapes' pq' vp' st' w2 = (res, w3) ->
  forall y, res <> Ok (Some y).
Proof.
  intros Hn Hf Hsh E1 Hk [sh' Hf'] E2.
  pose proof (first_submission f sh rounds i n tasks shapes pq vp st w Hn Hf Hsh) as H1'.
  unfold wp in H1'. rewrite E1 in H1'. specialize (H1' x eq_refl) as (s0 & Hv & Hd).
  assert (stuck f (kv w2)) as Hst by (exists s0; by rewrite Hk).
  wp_run E2. unfold MetadataSubmitter.submit_episode. wp_step.
  eapply wp_mono; [apply (tasks_keep_feature rounds' tasks' f)|]. intros [[l|]|e|m] w4 Hk4; [|by wp_step|done..].
  wp_step. eapply wp_mono; [apply (stuck_register_features f)|].
  - exists s0. split; [done|]. rewrite Hk4 by done. by rewrite Hk.
  - apply list_elem_of_fmap. exists (f, sh'). split; [done|by apply hash_iter_elem].
  - by intros [[]|e|m] w5 Hres.
Qed.

(** With every call answered, the first registration of a feature succeeds. *)
Lemma register_feature_new f s (w : World S) : ready w -> kv w !! fkey f = None ->
  exists w', register_feature debug_spec r f s w = (Ok tt, w') /\ kv w' = <[fkey f := put_feature_spec s ""]> (kv w).
Proof.
  intros Hw Hn. destruct (register_feature debug_spec r f s w) as [res w'] eqn:E. exists w'.
  assert (res = Ok tt /\ kv w' = <[fkey f := put_feature_spec s ""]> (kv w)) as [-> ?]; [|done].
  wp_run E. unfold register_feature. wp_step. apply wp_get; [apply Hr| |by intros e w1 [_ ?]].
  intros w1 [K1 L1]. rewrite Hn. do 2 wp_step. apply wp_put; [apply Hr..| |].
  - intros w2 [_ ->]. by rewrite K1.
  - intros e w2 (_ & Hnr & _). by destruct Hnr; apply L1.
Qed.

End Features.

(** ** Concrete instances *)
Module MetadataExamples.
#[export] Instance bincode : Bincode.
Proof.
  refine {| bin_bool := Wire.wire_bool; bin_string := Wire.wire_string; bin_u32 := Wire.wire_Z;
    bin_shape := @Wire.wire_list Z Wire.wire_Z; bin_names := @Wire.wire_list string Wire.wire_string |}.
  reflexivity.
Defined.
Definition task_wire : Wire.Wire TaskEntry.t.
Proof.
  refine (Wire.wire_iso (fun e => (TaskEntry.task_index e, TaskEntry.task e)) (fun '(a, b) => TaskEntry.mk a b) _);
    [|by intros []].
  apply Wire.wire_prod; [apply Wire.wire_Z|apply Wire.wire_string].
Defined.
Definition shape_wire : Wire.Wire FeatureShape.t.
Proof.
  refine (Wire.wire_iso (fun s => (FeatureShape.dtype s, FeatureShape.shape s, FeatureShape.is_video s))
    (fun '(a, b, c) => FeatureShape.mk a b c) _); [|by intros []].
  repeat apply Wire.wire_prod; (apply Wire.wire_string || apply Wire.wire_list, Wire.wire_Z || apply Wire.wire_bool).
Defined.
Definition partial_wire : Wire.Wire PartialEpisodeMetadata.t.
Proof.
  refine (Wire.wire_iso (fun m => (PartialEpisodeMetadata.episode_index m, PartialEpisodeMetadata.length m,
      PartialEpisodeMetadata.tasks m, PartialEpisodeMetadata.feature_shapes m, PartialEpisodeMetadata.parquet_path m,
      PartialEpisodeMetadata.video_paths m, PartialEpisodeMetadata.stats m, PartialEpisodeMetadata.recorded_at m))
    (fun '(a, b, c, d, e, f, g, h) => PartialEpisodeMetadata.mk a b c d e f g h) _); [|by intros []].
  repeat apply Wire.wire_prod; (apply Wire.wire_Z || apply Wire.wire_string
    || apply Wire.wire_list, Wire.wire_string || apply Wire.wire_gmap, shape_wire
    || apply Wire.wire_gmap, Wire.wire_string || apply Wire.wire_gmap, StatsExamples.feature_wire
    || apply Wire.wire_option, Wire.wire_Z).
Defined.
#[export] Instance counter_codec : Codec (Z * Z) := @Wire.codec_of_wire _ (Wire.wire_prod _ _).
#[export] Instance counter_lawful : LawfulCodec (Z * Z) := @Wire.lawful_of_wire _ (Wire.wire_prod _ _).
#[export] Instance task_codec : Codec TaskEntry.t := @Wire.codec_of_wire _ task_wire.
#[export] Instance task_lawful : LawfulCodec TaskEntry.t := @Wire.lawful_of_wire _ task_wire.
#[export] Instance partial_codec : Codec PartialEpisodeMetadata.t := @Wire.codec_of_wire _ partial_wire.
#[export] Instance partial_lawful : LawfulCodec PartialEpisodeMetadata.t := @Wire.lawful_of_wire _ partial_wire.
#[export] Instance order_string : HashOrder string := list_order string.

(** A hash that adds up the bytes. *)
Fixpoint byte_sum (s : string) : Z :=
  match s with EmptyString => 0 | String c s' => Z.of_nat (nat_of_ascii c) + byte_sum s' end.
Definition registry : DatasetMetadataRegistry.t := DatasetMetadataRegistry.mk sim_client "b".
Definition state_shape : FeatureShape.t := FeatureShape.mk "float32" [7] false.
End MetadataExamples.

Section Witnesses.
Import DatasetMetadataRegistry MetadataExamples Sim.

Lemma empty_task_inv : task_inv byte_sum registry ∅ 0.
Proof. split; try done. Qed.

(** The commit of the first round is reported as failed after it took effect: the task is
    stored again, under the next index. *)
Lemma register_task_outcome_witness :
  let w := sim_world ∅ [None; None; None; None; None; None; None; Some ("timeout"%string, true)] in
  let '(res, w') := register_task byte_sum 3 registry "pick" w in
  res = Ok (Some 1) /\ progressed byte_sum registry "pick" 0 3 (kv w) (kv w').
Proof.
  cbv zeta. pose proof (register_task_outcome byte_sum registry sim_client_ok 3 "pick" 0
    (sim_world ∅ [None; None; None; None; None; None; None; Some ("timeout"%string, true)]) _ _
    empty_task_inv eq_refl ltac:(lia) (surjective_pairing _)) as Hp.
  destruct (register_task _ _ _ _ _) as [res w'] eqn:E. split; [|exact (proj1 Hp)].
  apply (f_equal fst) in E. cbn [fst] in E. rewrite <- E. vm_compute. reflexivity.
Defined.

Lemma state_feature_submitted_once_witness :
  let submit := MetadataSubmitter.submit_episode (S:=Sim.t) byte_sum (fun _ => ""%string) 1 registry in
  let shapes : gmap string FeatureShape.t := {["action" := state_shape]} in
  let w1 := (submit 0 10 [] shapes ""%string ∅ ∅ (sim_world ∅ [])).2 in
  let '(res, _) := submit 1 20 [] shapes ""%string ∅ ∅ w1 in
  match res with Err (TikvError.Deserialization _) => True | _ => False end /\ forall y, res <> Ok (Some y).
Proof.
  cbv zeta. set (shapes := {["action"%string := state_shape]} : gmap string FeatureShape.t).
  destruct (MetadataSubmitter.submit_episode byte_sum (fun _ => ""%string) 1 registry 0 10 [] shapes ""%string ∅ ∅
    (sim_world ∅ [])) as [r1 w1] eqn:E1.
  destruct (MetadataSubmitter.submit_episode byte_sum (fun _ => ""%string) 1 registry 1 20 [] shapes ""%string ∅ ∅ w1)
    as [r2 w2] eqn:E2. cbn [snd].
  assert (r1 = Ok (Some (SubmissionResult.mk 0 []))) as Hr1.
  { apply (f_equal fst) in E1. cbn [fst] in E1. rewrite <- E1. vm_compute. reflexivity. }
  rewrite E2. subst r1. split.
  - apply (f_equal snd) in E1. cbn [snd] in E1. subst w1. apply (f_equal fst) in E2. cbn [fst] in E2. subst r2.
    vm_compute. done.
  - by apply (state_feature_submitted_once byte_sum (fun _ => ""%string) registry sim_client_ok "action" state_shape
      1 0 10 [] shapes ""%string ∅ ∅ (sim_world ∅ []) (SubmissionResult.mk 0 []) w1
      1 1 20 [] shapes ""%string ∅ ∅ w1 r2 w2).
Defined.
End Witnesses.

(** ** Cleanup *)
Section Cleanup.
Import DatasetMetadataRegistry.
Context {S : Type} `{TransactionClientLaws S} `{!HealthyRuns S}.
Context (r : DatasetMetadataRegistry.t) (Hr : client_ok (tikv r)).

Definition prefixes : list string :=
  [MetadataKeys.task_prefix (batch_id r); MetadataKeys.feature_prefix (batch_id r);
   MetadataKeys.episode_metadata_prefix (batch_id r)].
Definition under (p k : string) : bool := in_range p (scan_end p) k.

(** [m'] is [m] without the keys [gone]. *)
Definition without (gone : string -> bool) (m m' : gmap string string) : Prop :=
  forall k, m' !! k = if gone k then None else m !! k.

Lemma wp_delete_keys pairs (w : World S) : ready w ->
  wp (delete_keys r pairs) (fun res w' => res = Ok tt /\ ready w' /\
    without (fun k => bool_decide (k ∈ pairs.*1)) (kv w) (kv w')) w.
Proof.
  revert w. induction pairs as [|[k v] pairs IH]; intros w Hw; cbn [delete_keys].
  - wp_step. split; [done|]. split; [done|]. intros k. by rewrite bool_decide_false by apply not_elem_of_nil.
  - wp_step. apply wp_delete; [apply Hr..| |by intros e w1 (_ & ? & _)]. intros w1 [L1 K1].
    eapply wp_mono; [apply IH; world|]. intros res w2 (-> & Hw2 & Hwo). split; [done|]. split; [done|].
    intros j. rewrite Hwo, K1. cbn [fmap list_fmap fst]. repeat case_bool_decide; [done|set_solver| |].
    + assert (j = k) as -> by set_solver. apply lookup_delete_eq.
    + apply lookup_delete_ne. set_solver.
Qed.

Definition scannable (p : string) (m : gmap string string) : Prop :=
  (length (filter (fun e => under p e.1 = true) (map_to_list m)) <= Z.to_nat 100000)%nat.

Lemma scannable_without p gone m m' : without gone m m' -> scannable p m -> scannable p m'.
Proof.
  intros Hwo. unfold scannable. intros Hm. etrans; [|exact Hm].
  apply submseteq_length, NoDup_submseteq; [apply NoDup_filter, NoDup_map_to_list|].
  intros [k v]. rewrite !list_elem_of_filter, !elem_of_map_to_list, Hwo. cbn. by destruct (gone k); intros [].
Qed.

Lemma wp_clean_prefixes ps (w : World S) : ready w -> Forall (fun p => scannable p (kv w)) ps ->
  wp (clean_prefixes r ps) (fun res w' => res = Ok tt /\ ready w' /\
    without (fun k => existsb (fun p => under p k) ps) (kv w) (kv w')) w.
Proof.
  revert w. induction ps as [|p ps IH]; intros w Hw Hs; cbn [clean_prefixes].
  - wp_step. split; [done|]. split; [done|]. by intros k.
  - apply Forall_cons in Hs as [Hp Hs]. wp_step. apply wp_scan; [apply Hr| |by intros e w1 [_ ?]].
    intros w1 C1. wp_step. eapply wp_mono; [apply wp_delete_keys; world|].
    intros res w2 (-> & Hw2 & Hwo2). destruct C1 as [K1 _]. rewrite K1 in Hwo2.
    eapply wp_mono; [apply IH; [done|]|].
    { eapply Forall_impl; [exact Hs|]. intros q Hq. by eapply scannable_without. }
    intros res' w3 (-> & Hw3 & Hwo3). split; [done|]. split; [done|]. intros k. rewrite Hwo3, Hwo2. cbn [existsb].
    destruct (existsb _ ps); [by rewrite orb_true_r|]. rewrite orb_false_r. case_bool_decide as Hk.
    + apply list_elem_of_fmap in Hk as ([k' v] & -> & Hk). apply elem_of_kv_scan in Hk as [_ Hk].
      unfold under. cbn [fst]. by rewrite Hk.
    + destruct (under p k) eqn:Eu; [|done]. destruct (kv w !! k) as [v|] eqn:Ek; [|done].
      destruct Hk. apply list_elem_of_fmap. exists (k, v). split; [done|].
      apply elem_of_kv_scan_all; [exact Hp|done].
Qed.

(** Cleanup removes the batch and nothing else.  With every call answered and at most
    100,000 keys per prefix, [cleanup] succeeds, and afterwards exactly the task counter
    and the keys under the three prefixes of the batch are gone. *)
Theorem cleanup_effect (w : World S) :
  ready w -> Forall (fun p => scannable p (kv w)) prefixes ->
  exists w', cleanup r w = (Ok tt, w') /\
    without (fun k => bool_decide (k = counter_key r) || existsb (fun p => under p k) prefixes) (kv w) (kv w').
Proof.
  intros Hw Hs. destruct (cleanup r w) as [res w'] eqn:E. exists w'.
  assert (res = Ok tt /\ without (fun k => bool_decide (k = counter_key r) || existsb (fun p => under p k) prefixes)
    (kv w) (kv w')) as [-> ?]; [|done].
  wp_run E. unfold cleanup. wp_step. eapply wp_mono; [by apply wp_clean_prefixes|].
  intros ? w1 (-> & Hw1 & Hwo). apply wp_delete; [apply Hr..| |by intros e w2 (_ & ? & _)].
  intros w2 [_ K2]. split; [done|]. intros k. rewrite K2. case_bool_decide as Hk; cbn [orb].
  - subst k. apply lookup_delete_eq.
  - rewrite lookup_delete_ne by done. apply Hwo.
Qed.
End Cleanup.
