(* ===== verification/MetadataAssembly.v ===== *)
(** * Validation and assembly of dataset metadata

    [metadata/validation.rs] and [metadata/assembler.rs] of
    crates/roboflow-distributed/src: what the finalizer does with the records of
    [Metadata].  [serde_json]'s texts and the storage writer are parameters. *)
From stdpp Require Import pretty.
From S2P Require Import Prelude Codec TikvError Circuit Keys Env Effects Schema Client Episode Stats Metadata.
#[local] Open Scope Z_scope.

(** ** Validation *)

(** [{:?}] of a [Vec<usize>]. *)
Definition debug_usizes (l : list Z) : string := "[" +:+ String.concat ", " (pretty <$> l) +:+ "]".

Module ValidationError.
(** [enum ValidationError]. *)
Inductive t : Type :=
| MissingEpisode (episode_index : Z)
| FeatureSpecMismatch (feature_name : string) (expected found : FeatureSpec.t)
| MissingFeature (episode_index : Z) (feature_name : string)
| InconsistentFrameCount (episode_index metadata_frames stats_frames : Z)
| InvalidFeatureShape (episode_index : Z) (feature_name : string) (shape : list Z)
| MissingVideoFile (episode_index : Z) (camera : string)
| MissingParquetFile (episode_index : Z).

(** [Display]. *)
Definition to_string (debug_spec : FeatureSpec.t -> string) (e : t) : string :=
  match e with
  | MissingEpisode i => "Missing metadata for episode " +:+ pretty i
  | FeatureSpecMismatch f expected found =>
      "Feature spec mismatch for '" +:+ f +:+ "': expected " +:+ debug_spec expected +:+ ", found " +:+ debug_spec found
  | MissingFeature i f => "Episode " +:+ pretty i +:+ " missing feature '" +:+ f +:+ "'"
  | InconsistentFrameCount i m s =>
      "Episode " +:+ pretty i +:+ " has inconsistent frame count: metadata=" +:+ pretty m +:+ ", stats=" +:+ pretty s
  | InvalidFeatureShape i f shape =>
      "Episode " +:+ pretty i +:+ " has invalid shape for feature '" +:+ f +:+ "': " +:+ debug_usizes shape
  | MissingVideoFile i camera => "Episode " +:+ pretty i +:+ " missing video file for camera '" +:+ camera +:+ "'"
  | MissingParquetFile i => "Episode " +:+ pretty i +:+ " missing parquet file"
  end.
End ValidationError.

Module ValidationWarning.
(** [enum ValidationWarning]. *)
Inductive t : Type :=
| EmptyEpisode (episode_index : Z)
| DuplicateTask (task : string) (indices : list Z)
| SparseFeature (feature_name : string) (present_count total_count : Z)
| MissingStats (episode_index : Z) (feature_name : string).

(** [Display]. *)
Definition to_string (w : t) : string :=
  match w with
  | EmptyEpisode i => "Episode " +:+ pretty i +:+ " is empty (no frames)"
  | DuplicateTask task indices => "Task '" +:+ task +:+ "' appears at multiple indices: " +:+ debug_usizes indices
  | SparseFeature f present total => "Feature '" +:+ f +:+ "' only present in " +:+ pretty present +:+ "/" +:+ pretty total +:+ " episodes"
  | MissingStats i f => "Episode " +:+ pretty i +:+ " missing stats for feature '" +:+ f +:+ "'"
  end.
End ValidationWarning.

Module ValidationSummary.
(** [struct ValidationSummary]. *)
Record t : Type := mk {
  total_episodes : Z; total_frames : Z; feature_count : Z; task_count : Z; video_count : Z }.
Definition default : t := mk 0 0 0 0 0.
End ValidationSummary.

Module ValidationResult.
(** [struct ValidationResult]. *)
Record t : Type := mk {
  valid : bool;
  errors : list ValidationError.t;
  warnings : list ValidationWarning.t;
  summary : ValidationSummary.t
}.
#[global] Instance t_eta : Settable t := fun r => mk (valid r) (errors r) (warnings r) (summary r).

Definition new : t := mk true [] [] ValidationSummary.default.
Definition add_error (error : ValidationError.t) (r : t) : t :=
  r <| valid := false |> <| errors := errors r ++ [error] |>.
Definition add_warning (warning : ValidationWarning.t) (r : t) : t :=
  r <| warnings := warnings r ++ [warning] |>.
Definition merge (other r : t) : t :=
  r <| valid := valid r && valid other |> <| errors := errors r ++ errors other |>
    <| warnings := warnings r ++ warnings other |>.
End ValidationResult.

Module MetadataValidator.
Import ValidationResult.
Section Validate.
Context `{!HashOrder string}.
Abbreviation Episode := PartialEpisodeMetadata.t.
Abbreviation index := PartialEpisodeMetadata.episode_index.
Abbreviation shapes := PartialEpisodeMetadata.feature_shapes.

(** The gaps. *)
Definition check_gaps (sorted : list Episode) (r : t) : t :=
  let max_index := match list.last sorted with Some e => index e | None => 0 end in
  let expected_count := u64_add max_index 1 in
  if Z.of_nat (length sorted) =? expected_count then r
  else
    let present : gset Z := list_to_set (index <$> sorted) in
    foldl (fun r i => if bool_decide (i ∈ present) then r else add_error (ValidationError.MissingEpisode i) r)
      r (seqZ 0 (max_index + 1)).

(** The union of the features; a specification other than the first is an error. *)
Definition collect_feature (acc : gmap string FeatureSpec.t * t) (e : string * FeatureShape.t)
  : gmap string FeatureSpec.t * t :=
  let '(all_features, r) := acc in
  let '(name, shape) := e in
  let spec := FeatureShape.to_spec shape in
  match all_features !! name with
  | Some existing =>
      if negb (FeatureSpec.is_compatible existing spec)
      then (all_features, add_error (ValidationError.FeatureSpecMismatch name existing spec) r)
      else (all_features, r)
  | None => (<[name := spec]> all_features, r)
  end.

Definition collect_features (sorted : list Episode) (r : t) : gmap string FeatureSpec.t * t :=
  foldl (fun acc e => foldl collect_feature acc (hash_iter (shapes e))) (∅, r) sorted.

(** The warnings of one episode. *)
Definition contains_feature (name : string) (e : Episode) : bool := bool_decide (is_Some (shapes e !! name)).

Definition check_episode (sorted : list Episode) (all_features : gmap string FeatureSpec.t) (r : t) (e : Episode) : t :=
  let r := if PartialEpisodeMetadata.length e =? 0
           then add_warning (ValidationWarning.EmptyEpisode (index e)) r else r in
  let r := foldl (fun r name =>
      if contains_feature name e then r
      else add_warning (ValidationWarning.SparseFeature name
             (Z.of_nat (length (filter (fun e => contains_feature name e = true) sorted)))
             (Z.of_nat (length sorted))) r) r (hash_iter all_features).*1 in
  foldl (fun r name =>
      if bool_decide (is_Some (PartialEpisodeMetadata.stats e !! name)) then r
      else add_warning (ValidationWarning.MissingStats (index e) name) r) r (hash_iter (shapes e)).*1.

Definition sum_u64 (l : list Z) : Z := foldl u64_add 0 l.

(** [MetadataValidator::validate_episodes]. *)
Definition validate_episodes (episodes : list Episode) : t :=
  match episodes with
  | [] => add_error (ValidationError.MissingEpisode 0) new
  | _ =>
      let sorted := DatasetMetadataRegistry.sort_by_key index episodes in
      let r := check_gaps sorted new in
      let '(all_features, r) := collect_features sorted r in
      let r := foldl (check_episode sorted all_features) r sorted in
      r <| summary := {|
        ValidationSummary.total_episodes := Z.of_nat (length sorted);
        ValidationSummary.total_frames := sum_u64 (PartialEpisodeMetadata.length <$> sorted);
        ValidationSummary.feature_count := Z.of_nat (size all_features);
        ValidationSummary.task_count := Z.of_nat (size (list_to_set (mjoin (PartialEpisodeMetadata.tasks <$> sorted)) : gset string));
        ValidationSummary.video_count := sum_u64 ((fun e => Z.of_nat (size (PartialEpisodeMetadata.video_paths e))) <$> sorted)
      |} |>
  end.

(** [MetadataValidator::validate_tasks]. *)
Definition validate_tasks (tasks : list (Z * string)) : t :=
  let task_to_indices : gmap string (list Z) :=
    foldl (fun m e => <[e.2 := default [] (m !! e.2) ++ [e.1]]> m) ∅ tasks in
  foldl (fun r e => if (1 <? length e.2)%nat then add_warning (ValidationWarning.DuplicateTask e.1 e.2) r else r)
    new (hash_iter task_to_indices).

End Validate.
End MetadataValidator.

(** ** Assembly *)
Module MetadataAssemblyError.
(** [enum MetadataAssemblyError]. *)
Inductive t : Type :=
| TiKvError (e : string)
| Storage (e : string)
| Serialization (e : string)
| NoEpisodes.
(** [Display] and [From<TikvError>]. *)
Definition to_string (e : t) : string :=
  match e with
  | TiKvError e => "TiKV error: " +:+ e
  | Storage e => "Storage error: " +:+ e
  | Serialization e => "Serialization error: " +:+ e
  | NoEpisodes => "No episodes found in registry"
  end.
Definition from_tikv (e : TikvError.t) : t := TiKvError (TikvError.to_string e).
End MetadataAssemblyError.

(** The lines and files that are written. *)
Module TaskInfo.
Record t : Type := mk { task_index : Z; task : string }.
End TaskInfo.
Module EpisodeInfo.
Record t : Type := mk { episode_index : Z; length : Z; tasks : list Z }.
End EpisodeInfo.
Module EpisodeStatsEntry.
(** The JSON object of a feature has the four vectors. *)
Record t : Type := mk { episode_index : Z; stats : gmap string FeatureStats.t }.
End EpisodeStatsEntry.
Module FeatureJson.
(** The JSON object of a feature in [info.json]. *)
Record t : Type := mk { dtype : string; shape : list Z; names : option (list string) }.
End FeatureJson.
Module LerobotInfo.
(** [struct LerobotInfo]. *)
Record t : Type := mk {
  name : string;
  codebase_version : string;
  robot_type : option string;
  total_episodes : Z;
  total_frames : Z;
  fps : Z;
  features : gmap string FeatureJson.t
}.
End LerobotInfo.

Module GlobalMetadataAssembler.
Import DatasetMetadataRegistry.

(** [struct GlobalMetadataAssembler]; the storage is in the parameters. *)
Record t : Type := mk {
  registry : DatasetMetadataRegistry.t;
  batch_id : string;
  output_prefix : string
}.

Section Ops.
Context {S : Type} `{TransactionClient S}.
Context `{!HashOrder string, !HashOrder Z}.
Context `{Codec TaskEntry.t, Codec FeatureSpec.t, Codec PartialEpisodeMetadata.t}.
(** [storage.writer(path)], [Write::write_all], [Write::flush]. *)
Context {Writer : Type} (storage_writer : string -> M S string Writer)
  (write_all : string -> Writer -> M S string Writer) (flush : Writer -> M S string unit).
(** [serde_json::to_string_pretty] and [to_string]. *)
Context (info_text : LerobotInfo.t -> string + string) (episode_text : EpisodeInfo.t -> string + string)
  (task_text : TaskInfo.t -> string + string) (stats_text : EpisodeStatsEntry.t -> string + string).
Abbreviation Asm := (M S MetadataAssemblyError.t).
Abbreviation Episode := PartialEpisodeMetadata.t.

(** The end of every [write_*]. *)
Definition write_file (path content : string) : Asm unit :=
  writer ← map_err_m MetadataAssemblyError.Storage (storage_writer path);
  writer ← map_err_m MetadataAssemblyError.Storage (write_all content writer);
  map_err_m MetadataAssemblyError.Storage (flush writer).

(** The loop over the lines of a [jsonl] file. *)
Fixpoint lines_of {A} (text : A -> string + string) (l : list A) : Asm (list string) :=
  match l with
  | [] => mret []
  | x :: l' =>
      line ← of_sum MetadataAssemblyError.Serialization (text x);
      lines ← lines_of text l';
      mret (line :: lines)
  end.

Definition write_jsonl {A} (a : t) (file : string) (text : A -> string + string) (l : list A) : Asm unit :=
  lines ← lines_of text l;
  write_file (output_prefix a +:+ "/meta/" +:+ file) (String.concat (String "010" "") lines).

(** [aggregate_statistics]; the timestamp is not used. *)
Definition aggregate_statistics (a : t) (now : Z) (episodes : list Episode) : Asm BatchStatsSummary.t :=
  let summary := foldl (fun s e =>
      let ep_stats := foldl (fun x f => (EpisodeStats.add_feature f.1 f.2 x).2)
        (EpisodeStats.new now (PartialEpisodeMetadata.episode_index e) (PartialEpisodeMetadata.length e))
        (hash_iter (PartialEpisodeMetadata.stats e)) in
      BatchStatsSummary.add_episode ep_stats s)
    (BatchStatsSummary.new (batch_id a)) episodes in
  lift (BatchStatsSummary.calculate_global_stats summary).

(** The features object of [info.json]. *)
Definition feature_json (spec : FeatureSpec.t) : FeatureJson.t :=
  if FeatureSpec.is_video spec
  then FeatureJson.mk "video" (FeatureSpec.shape spec) (Some ["height"; "width"; "channel"]%string)
  else FeatureJson.mk (FeatureSpec.dtype spec) (FeatureSpec.shape spec) None.

Definition features_json (features : gmap string FeatureSpec.t) : gmap string FeatureJson.t :=
  <["task_index"%string := FeatureJson.mk "int64" [1] None]>
  (<["index"%string := FeatureJson.mk "int64" [1] None]>
  (<["episode_index"%string := FeatureJson.mk "int64" [1] None]>
  (<["timestamp"%string := FeatureJson.mk "float64" [1] (Some ["timestamp"%string])]>
  (feature_json <$> features)))).

(** [write_info_json]. *)
Definition lerobot_info (episodes : list Episode) (features : gmap string FeatureSpec.t) (dataset_name : string)
  (robot_type : option string) (fps : Z) : LerobotInfo.t := {|
  LerobotInfo.name := dataset_name;
  LerobotInfo.codebase_version := "v2.1";
  LerobotInfo.robot_type := robot_type;
  LerobotInfo.total_episodes := Z.of_nat (length episodes);
  LerobotInfo.total_frames := MetadataValidator.sum_u64 (PartialEpisodeMetadata.length <$> episodes);
  LerobotInfo.fps := fps;
  LerobotInfo.features := features_json features
|}.

Definition write_info_json (a : t) (episodes : list Episode) (features : gmap string FeatureSpec.t)
  (dataset_name : string) (robot_type : option string) (fps : Z) : Asm unit :=
  content ← of_sum MetadataAssemblyError.Serialization
              (info_text (lerobot_info episodes features dataset_name robot_type fps));
  write_file (output_prefix a +:+ "/meta/info.json") content.

(** Resolves the task descriptions of an episode to indices. *)
Definition episode_info (tasks : gmap string Z) (e : Episode) : EpisodeInfo.t :=
  EpisodeInfo.mk (PartialEpisodeMetadata.episode_index e) (PartialEpisodeMetadata.length e)
    (omap (fun t => tasks !! t) (PartialEpisodeMetadata.tasks e)).

Definition scan_err (what : string) (e : TikvError.t) : MetadataAssemblyError.t :=
  MetadataAssemblyError.TiKvError ("Failed to scan " +:+ what +:+ ": " +:+ TikvError.to_string e).

(** [write_episodes_jsonl]. *)
Definition write_episodes_jsonl (a : t) (episodes : list Episode) : Asm unit :=
  tasks ← map_err_m (scan_err "tasks") (scan_tasks (registry a));
  write_jsonl a "episodes.jsonl" episode_text (episode_info (task_map tasks) <$> episodes).

(** [write_tasks_jsonl]. *)
Definition write_tasks_jsonl (a : t) (tasks : list TaskInfo.t) : Asm unit :=
  write_jsonl a "tasks.jsonl" task_text tasks.

(** [write_episodes_stats_jsonl]. *)
Definition stats_entry (e : Episode) : EpisodeStatsEntry.t :=
  EpisodeStatsEntry.mk (PartialEpisodeMetadata.episode_index e) (PartialEpisodeMetadata.stats e).
Definition write_episodes_stats_jsonl (a : t) (episodes : list Episode) : Asm unit :=
  write_jsonl a "episodes_stats.jsonl" stats_text (stats_entry <$> episodes).

(** [assemble_and_write]. *)
Definition assemble_and_write (a : t) (dataset_name : string) (robot_type : option string) (fps : Z) : Asm unit :=
  episodes ← map_err_m (scan_err "episodes") (scan_episode_metadata (registry a));
  match episodes with
  | [] => throw MetadataAssemblyError.NoEpisodes
  | _ =>
      task_entries ← map_err_m (scan_err "tasks") (scan_tasks (registry a));
      let tasks := (fun e => TaskInfo.mk (TaskEntry.task_index e) (TaskEntry.task e)) <$> task_entries in
      features ← map_err_m (scan_err "features") (scan_features (registry a));
      time ← now;
      aggregate_statistics a (num_seconds time) episodes;;
      write_info_json a episodes features dataset_name robot_type fps;;
      write_episodes_jsonl a episodes;;
      write_tasks_jsonl a tasks;;
      write_episodes_stats_jsonl a episodes
  end.

End Ops.
End GlobalMetadataAssembler.

(** ** What validation accepts *)
Section Validation.
Import MetadataValidator ValidationResult.
Context `{!HashOrder string}.
Abbreviation Episode := PartialEpisodeMetadata.t.
Abbreviation index := PartialEpisodeMetadata.episode_index.
Abbreviation shapes := PartialEpisodeMetadata.feature_shapes.

Lemma foldl_valid {A} (f : t -> A -> t) l r : (forall r x, valid (f r x) = valid r) -> valid (foldl f r l) = valid r.
Proof. intros Hf. revert r. induction l as [|x l IH]; intros r; cbn; [done|]. by rewrite IH, Hf. Qed.

Lemma check_episode_valid sorted fs r e : valid (check_episode sorted fs r e) = valid r.
Proof.
  unfold check_episode. rewrite foldl_valid by (intros; by case_bool_decide).
  rewrite foldl_valid by (intros; by destruct (contains_feature _ _)). by destruct (_ =? 0).
Qed.

Lemma missing_valid (present : gset Z) l r :
  valid (foldl (fun r i => if bool_decide (i ∈ present) then r else add_error (ValidationError.MissingEpisode i) r) r l) = true
  <-> valid r = true /\ forall i, i ∈ l -> i ∈ present.
Proof.
  revert r. induction l as [|i l IH]; intros r; cbn [foldl].
  - split; [intros ?; split; [done|]; intros i ?%not_elem_of_nil; done|by intros []].
  - rewrite IH. case_bool_decide as Hi.
    + set_solver.
    + split; [by intros []|]. intros [_ Ha]. destruct Hi. apply Ha. left.
Qed.

(** Two shapes of a feature agree. *)
Definition agree (s1 s2 : FeatureShape.t) : Prop :=
  FeatureShape.dtype s1 = FeatureShape.dtype s2 /\ FeatureShape.shape s1 = FeatureShape.shape s2.

Lemma compatible_iff s1 s2 :
  FeatureSpec.is_compatible (FeatureShape.to_spec s1) (FeatureShape.to_spec s2) = true <-> agree s1 s2.
Proof.
  unfold FeatureSpec.is_compatible, agree. cbn. rewrite andb_true_iff, String.eqb_eq, bool_decide_eq_true. done.
Qed.

(** The features seen so far are specifications of shapes. *)
Lemma collect_feature_valid l (m : gmap string FeatureShape.t) r :
  valid (foldl collect_feature (FeatureShape.to_spec <$> m, r) l).2 = true <->
  valid r = true /\
  (forall f s s0, (f, s) ∈ l -> m !! f = Some s0 -> agree s0 s) /\
  (forall f s s', (f, s) ∈ l -> (f, s') ∈ l -> agree s s').
Proof.
  revert m r. induction l as [|[f s] l IH]; intros m r; cbn [foldl].
  - split; [|by intros []]. intros ?. split; [done|]. split; intros ? ? ? ?%not_elem_of_nil; done.
  - unfold collect_feature at 2. rewrite lookup_fmap. destruct (m !! f) as [s0|] eqn:Em; cbn [fmap option_fmap option_map].
    + pose proof (compatible_iff s0 s) as Hc. destruct (FeatureSpec.is_compatible _ _); cbn [negb].
      * assert (agree s0 s) as Ha by (by apply Hc). rewrite IH. split.
        -- intros (? & H1 & H2). split; [done|]. split.
           ++ intros g s1 s2 [[= -> ->]|?]%elem_of_cons Hm; [congruence|by eapply H1].
           ++ assert (forall s', (f, s') ∈ l -> agree s s') as Hf.
              { intros s' Hs'. destruct (H1 _ _ _ Hs' Em), Ha. split; congruence. }
              intros g s1 s2 [?|H3]%elem_of_cons [?|H4]%elem_of_cons; simplify_eq;
                [done|by apply Hf|destruct (Hf _ H3); by split|by eapply H2].
        -- intros (? & H1 & H2). split; [done|]. split; intros; [eapply H1|eapply H2]; try done; by right.
      * split; [by intros [? _]%IH|]. intros (_ & H1 & _). exfalso.
        assert (false = true) as [=]. apply Hc, (H1 f); [left|done].
    + rewrite <- fmap_insert, IH. split.
      * intros (? & H1 & H2). split; [done|].
        assert (forall s', (f, s') ∈ l -> agree s s') as Hf.
        { intros s' Hs'. by apply (H1 f); [|rewrite lookup_insert_eq]. }
        split.
        -- intros g s1 s2 [[= -> ->]|H3]%elem_of_cons Hm; [congruence|]. apply (H1 g); [done|].
           rewrite lookup_insert_ne; [done|]. intros <-. congruence.
        -- intros g s1 s2 [?|H3]%elem_of_cons [?|H4]%elem_of_cons; simplify_eq;
             [done|by apply Hf|destruct (Hf _ H3); by split|by eapply H2].
      * intros (? & H1 & H2). split; [done|]. split.
        -- intros g s1 s2 H3 Hm. destruct (decide (f = g)) as [->|Hne].
           ++ rewrite lookup_insert_eq in Hm. injection Hm as <-. apply (H2 g); [left|by right].
           ++ rewrite lookup_insert_ne in Hm by done. apply (H1 g); [by right|done].
        -- intros g s1 s2 H3 H4. apply (H2 g); by right.
Qed.

(** Every feature has one type and shape in the whole dataset. *)
Definition consistent (eps : list Episode) : Prop :=
  forall e1 e2 f s1 s2, e1 ∈ eps -> e2 ∈ eps -> shapes e1 !! f = Some s1 -> shapes e2 !! f = Some s2 -> agree s1 s2.

Lemma collect_features_flat eps acc :
  foldl (fun acc e => foldl collect_feature acc (hash_iter (shapes e))) acc eps =
  foldl collect_feature acc (mjoin ((fun e => hash_iter (shapes e)) <$> eps)).
Proof. revert acc. induction eps as [|e eps IH]; intros acc; cbn; [done|]. by rewrite IH, foldl_app. Qed.

Lemma collect_features_valid eps r :
  valid (collect_features eps r).2 = true <-> valid r = true /\ consistent eps.
Proof.
  unfold collect_features. rewrite collect_features_flat.
  rewrite <- (fmap_empty FeatureShape.to_spec), collect_feature_valid.
  assert (forall f s, (f, s) ∈ mjoin ((fun e => hash_iter (shapes e)) <$> eps) <-> exists e, e ∈ eps /\ shapes e !! f = Some s) as Hin.
  { intros f s. rewrite list_elem_of_join. split.
    - intros (l & Hl & (e & -> & He)%list_elem_of_fmap). rewrite hash_iter_perm in Hl.
      apply elem_of_map_to_list in Hl. by exists e.
    - intros (e & He & Hs). exists (hash_iter (shapes e)). split; [by apply hash_iter_elem|].
      apply list_elem_of_fmap. by exists e. }
  split.
  - intros (? & _ & H2). split; [done|]. intros e1 e2 f s1 s2 H3 H4 H5 H6. apply (H2 f); apply Hin; eauto.
  - intros (? & Hc). split; [done|]. split; [done|]. intros f s s' (e1 & ? & ?)%Hin (e2 & ? & ?)%Hin.
    by apply (Hc e1 e2 f).
Qed.

(** *** The sequence of indices *)
Lemma last_is_max {A} (f : A -> Z) l x :
  StronglySorted (DatasetMetadataRegistry.index_le f) l -> list.last l = Some x -> forall y, y ∈ l -> f y <= f x.
Proof.
  intros Hs. induction Hs as [|a l Hs IH Ha]; [done|]. intros Hl y Hy.
  destruct l as [|b l].
  - injection Hl as ->. apply elem_of_cons in Hy as [->|Hy%not_elem_of_nil]; [lia|done].
  - change (list.last (b :: l) = Some x) in Hl. apply elem_of_cons in Hy as [->|Hy]; [|by apply IH].
    assert (x ∈ b :: l) as Hx by (by apply last_Some_elem_of). rewrite Forall_forall in Ha. by apply Ha in Hx.
Qed.

(** Distinct indices from 0 to [m] are all there exactly when there are [m + 1] of them. *)
Lemma complete_iff (l : list Z) m :
  NoDup l -> (forall i, i ∈ l -> 0 <= i <= m) -> m ∈ l ->
  (Z.of_nat (length l) = m + 1 <-> l ≡ₚ seqZ 0 (Z.of_nat (length l))) /\
  ((forall i, 0 <= i <= m -> i ∈ l) <-> Z.of_nat (length l) = m + 1).
Proof.
  intros Hnd Hb Hm. pose proof (Hb m Hm) as Hm0.
  assert (l ⊆+ seqZ 0 (m + 1)) as Hsub.
  { apply NoDup_submseteq; [done|]. intros i Hi%Hb. apply elem_of_seqZ. lia. }
  assert (Z.of_nat (length l) = m + 1 -> l ≡ₚ seqZ 0 (m + 1)) as Hperm.
  { intros E. apply submseteq_length_Permutation; [done|]. rewrite length_seqZ. lia. }
  split; split.
  - intros E. rewrite E. by apply Hperm.
  - intros Hp. rewrite Hp in Hm. apply elem_of_seqZ in Hm.
    apply submseteq_length in Hsub. rewrite length_seqZ in Hsub. lia.
  - intros Hall. assert (seqZ 0 (m + 1) ⊆+ l) as Hsup.
    { apply NoDup_submseteq; [apply NoDup_seqZ|]. intros i Hi%elem_of_seqZ. apply Hall. lia. }
    apply submseteq_length in Hsub, Hsup. rewrite length_seqZ in Hsub, Hsup. lia.
  - intros E i Hi. rewrite (Hperm E). apply elem_of_seqZ. lia.
Qed.

Lemma check_gaps_valid eps r :
  eps <> [] -> NoDup (index <$> eps) -> Forall (fun e => 0 <= index e /\ index e + 1 < u64_mod) eps ->
  valid (check_gaps (DatasetMetadataRegistry.sort_by_key index eps) r) = true <->
  valid r = true /\ (index <$> eps) ≡ₚ seqZ 0 (Z.of_nat (length eps)).
Proof.
  intros Hne Hnd Hb. unfold check_gaps. set (sorted := DatasetMetadataRegistry.sort_by_key index eps).
  assert (sorted ≡ₚ eps) as Hp by apply merge_sort_Permutation.
  assert (length sorted = length eps) as Hlen by (by rewrite Hp).
  destruct (list.last sorted) as [x|] eqn:El.
  2: { apply last_None in El. rewrite El in Hp. by apply Permutation_nil_l in Hp. }
  assert (x ∈ eps) as Hx by (rewrite <- Hp; by apply last_Some_elem_of).
  assert (forall i, i ∈ (index <$> eps) -> 0 <= i <= index x) as Hbnd.
  { intros i (e & -> & He)%list_elem_of_fmap. rewrite Forall_forall in Hb. destruct (Hb e He). split; [done|].
    apply (last_is_max index sorted x); [apply (StronglySorted_merge_sort (DatasetMetadataRegistry.index_le index))
      |done|by rewrite Hp]. }
  rewrite Forall_forall in Hb. destruct (Hb x Hx) as [Hx0 Hx1].
  destruct (complete_iff (index <$> eps) (index x) Hnd Hbnd) as [H1 H2]; [apply list_elem_of_fmap; eauto|].
  rewrite length_fmap in H1, H2. rewrite u64_add_small by lia. rewrite Hlen.
  destruct (Z.eqb_spec (Z.of_nat (length eps)) (index x + 1)) as [E|E]; [tauto|].
  rewrite missing_valid. split; intros [Hv Ha]; (split; [done|]).
  - exfalso. apply E, H2. intros i Hi. specialize (Ha i). rewrite elem_of_seqZ, elem_of_list_to_set in Ha.
    rewrite <- Hp. apply Ha. lia.
  - exfalso. tauto.
Qed.

Lemma validate_valid eps : eps <> [] ->
  let sorted := DatasetMetadataRegistry.sort_by_key index eps in
  valid (validate_episodes eps) = valid (collect_features sorted (check_gaps sorted new)).2.
Proof.
  intros Hne sorted. unfold validate_episodes. fold sorted.
  destruct (collect_features sorted (check_gaps sorted new)) as [fs r]. destruct eps as [|e eps]; [done|].
  cbn [snd]. rewrite <- (foldl_valid (check_episode sorted fs) sorted r) by (intros; apply check_episode_valid). done.
Qed.

(** C33: validation accepts complete and consistent datasets.  For episodes with distinct
    indices, [validate_episodes] reports no error exactly when there is an episode, the
    indices are 0, 1, ... without a gap, and every feature has the same type and shape
    wherever it occurs. *)
Theorem valid_iff_complete eps :
  NoDup (index <$> eps) -> Forall (fun e => 0 <= index e /\ index e + 1 < u64_mod) eps ->
  valid (validate_episodes eps) = true <->
  eps <> [] /\ (index <$> eps) ≡ₚ seqZ 0 (Z.of_nat (length eps)) /\ consistent eps.
Proof.
  intros Hnd Hb. destruct (decide (eps = [])) as [->|Hne]; [split; [done|by intros []]|].
  rewrite validate_valid, collect_features_valid, check_gaps_valid by done.
  assert (consistent (DatasetMetadataRegistry.sort_by_key index eps) <-> consistent eps) as ->.
  { assert (forall e, e ∈ DatasetMetadataRegistry.sort_by_key index eps <-> e ∈ eps) as He.
    { intros e. unfold DatasetMetadataRegistry.sort_by_key. by rewrite merge_sort_Permutation. }
    unfold consistent. split; intros Hc e1 e2 f s1 s2 ? ?; apply Hc; by apply He. }
  split; [intros [[_ ?] ?]; done|intros (_ & ? & ?); done].
Qed.
End Validation.

(** A repeated episode hides a missing one: indices 0, 0 and 2 pass. *)
Lemma duplicate_hides_gap `{!HashOrder string} :
  let ep i := PartialEpisodeMetadata.new 0 i in
  ValidationResult.valid (MetadataValidator.validate_episodes [ep 0; ep 0; ep 2]) = true.
Proof.
  cbv zeta. rewrite validate_valid by done. apply collect_features_valid. split; [reflexivity|].
  intros e1 e2 f s1 s2 He1 _ Hs1. exfalso. unfold DatasetMetadataRegistry.sort_by_key in He1.
  rewrite merge_sort_Permutation in He1.
  repeat (apply elem_of_cons in He1 as [->|He1]; [done|]). by apply not_elem_of_nil in He1.
Qed.

(** ** Submitted tasks and the assembled dataset *)
Record Submission : Type := mkSubmission {
  sub_episode : Z; sub_frames : Z; sub_tasks : list string; sub_shapes : gmap string FeatureShape.t;
  sub_parquet : string; sub_videos : gmap string string; sub_stats : gmap string FeatureStats.t }.

Section Assembly.
Import DatasetMetadataRegistry GlobalMetadataAssembler.
Context {S : Type} `{TransactionClientLaws S} `{!HealthyRuns S}.
Context `{LawfulCodec (Z * Z)} `{LawfulCodec TaskEntry.t} `{Codec PartialEpisodeMetadata.t}.
Context `{Bincode} `{!HashOrder string}.
Context (default_hash : string -> Z) (debug_spec : FeatureSpec.t -> string).
Context (r : DatasetMetadataRegistry.t) (Hr : client_ok (tikv r)).

(** Workers submit their episodes one after the other. *)
Fixpoint submit_all (rounds : nat) (subs : list Submission) : M S TikvError.t (option (list SubmissionResult.t)) :=
  match subs with
  | [] => mret (Some [])
  | s :: subs' =>
      x ← MetadataSubmitter.submit_episode default_hash debug_spec rounds r (sub_episode s) (sub_frames s)
            (sub_tasks s) (sub_shapes s) (sub_parquet s) (sub_videos s) (sub_stats s);
      xs ← submit_all rounds subs';
      mret (match x, xs with Some x, Some xs => Some (x :: xs) | _, _ => None end)
  end.

Definition task_count (subs : list Submission) : nat := sum_list ((fun s => length (sub_tasks s)) <$> subs).

(** The keys of the tasks. *)
Definition task_part (k : string) : Prop := k = counter_key r \/ exists h, k = MetadataKeys.task (DatasetMetadataRegistry.batch_id r) h.

Lemma task_part_inv m m' n :
  (forall k, task_part k -> m' !! k = m !! k) -> task_inv default_hash r m n -> task_inv default_hash r m' n.
Proof.
  intros Hk [Hn Hc Hb Hu Hx]. split; [done|..].
  - rewrite Hk by (by left). done.
  - intros h d. rewrite Hk by (right; by exists h). apply Hb.
  - intros h h' d d' e e'. rewrite !Hk by (right; eauto). apply Hu.
  - intros h d e. rewrite Hk by (right; by exists h). apply Hx.
Qed.

Lemma task_part_index m m' t :
  (forall k, task_part k -> m' !! k = m !! k) -> task_index_of default_hash r t m' = task_index_of default_hash r t m.
Proof. intros Hk. unfold task_index_of. rewrite Hk; [done|]. right. by eexists. Qed.

Lemma wp_submit rounds n s (w : World S) :
  task_inv default_hash r (kv w) n -> n + Z.of_nat (length (sub_tasks s) * rounds) < u64_mod -> (0 < rounds)%nat ->
  wp (MetadataSubmitter.submit_episode default_hash debug_spec rounds r (sub_episode s) (sub_frames s)
        (sub_tasks s) (sub_shapes s) (sub_parquet s) (sub_videos s) (sub_stats s))
     (fun res w' => forall x, res = Ok (Some x) ->
        (exists n', n <= n' <= n + Z.of_nat (length (sub_tasks s) * rounds) /\ task_inv default_hash r (kv w') n') /\
        (forall t i, task_index_of default_hash r t (kv w) = Some i -> task_index_of default_hash r t (kv w') = Some i) /\
        (fun t => task_index_of default_hash r t (kv w')) <$> sub_tasks s = Some <$> SubmissionResult.task_indices x) w.
Proof.
  intros Hi Hlt Hrounds. unfold MetadataSubmitter.submit_episode. wp_step.
  eapply wp_mono; [by eapply wp_register_tasks|].
  intros [[l|]|e|m] w1 (_ & (n1 & Hn1 & Hi1) & Hst & _ & Hres); [|by wp_step|done..].
  wp_step. eapply wp_mono; [apply (keeps_register_features debug_spec r Hr task_part)|].
  { intros f _ [E|[h E]]; [by apply feature_ne_counter in E|by apply feature_ne_task in E]. }
  intros [[]|e|m] w2 Hk2; [|done..]. do 2 wp_step. wp_step.
  unfold store_episode_metadata, TikvClient.put_record. do 2 wp_step. destruct (encode _) as [e|d]; [done|].
  eapply wp_mono; [apply (keeps_put (tikv r) Hr task_part)|].
  { intros [E|[h E]]; [|by apply episode_ne_task in E].
    unfold counter_key, MetadataKeys.episode_metadata, MetadataKeys.task_counter in E.
    by apply string_app_inv_l, string_app_inv_l, string_app_inv_l in E. }
  intros [[]|e|m] w4 Hk4; [|done..]. wp_step. intros x [= <-].
  assert (forall k, task_part k -> kv w4 !! k = kv w1 !! k) as Hk.
  { intros k Hk. rewrite Hk4 by done. match goal with Hc : calm w2 _ |- _ => destruct Hc as [-> _] end. by apply Hk2. }
  split; [exists n1; split; [done|by eapply task_part_inv]|]. split.
  - intros t i Ht. rewrite (task_part_index (kv w1)) by done. by apply Hst.
  - cbn. rewrite <- Hres. apply list_fmap_ext. intros ? t _. by apply task_part_index.
Qed.

Lemma wp_submit_all rounds n subs (w : World S) :
  task_inv default_hash r (kv w) n -> n + Z.of_nat (task_count subs * rounds) < u64_mod -> (0 < rounds)%nat ->
  wp (submit_all rounds subs)
     (fun res w' => forall xs, res = Ok (Some xs) ->
        (exists n', n <= n' <= n + Z.of_nat (task_count subs * rounds) /\ task_inv default_hash r (kv w') n') /\
        (forall t i, task_index_of default_hash r t (kv w) = Some i -> task_index_of default_hash r t (kv w') = Some i) /\
        Forall2 (fun s x => (fun t => task_index_of default_hash r t (kv w')) <$> sub_tasks s
                            = Some <$> SubmissionResult.task_indices x) subs xs) w.
Proof.
  revert n w. induction subs as [|s subs IH]; intros n w Hi Hlt Hrounds; cbn [submit_all].
  - wp_step. intros xs [= <-]. split; [exists n; split; [cbn; lia|done]|]. split; [done|constructor].
  - assert (task_count (s :: subs) = length (sub_tasks s) + task_count subs)%nat as Ec by done. rewrite Ec in *.
    wp_step. eapply wp_mono; [apply (wp_submit rounds n s w); [done|lia|done]|].
    intros [ox|e|m] w1 Hpost; [|done..]. wp_step. destruct ox as [x|].
    2: { assert (wp (submit_all rounds subs) (fun _ _ => True) w1) as HT by done. eapply wp_mono; [exact HT|].
         intros [xs|e|m] w2 _; [wp_step; done|done..]. }
    destruct (Hpost x eq_refl) as ((n1 & Hn1 & Hi1) & Hst1 & Hx).
    eapply wp_mono; [apply (IH n1 w1 Hi1); [lia|done]|].
    intros [oxs|e|m] w2 Hpost2; [|done..]. wp_step. destruct oxs as [xs|]; [|done].
    intros ys [= <-]. destruct (Hpost2 xs eq_refl) as ((n2 & Hn2 & Hi2) & Hst2 & Hxs).
    split; [exists n2; split; [lia|done]|]. split; [intros t i Ht; by apply Hst2, Hst1|].
    constructor; [|done]. apply list_eq. intros j. apply (f_equal (fun l => l !! j)) in Hx.
    rewrite !list_lookup_fmap in *. destruct (sub_tasks s !! j) as [t|] eqn:Et; cbn in *; [|done].
    destruct (SubmissionResult.task_indices x !! j) as [i|]; cbn in *; [|done].
    injection Hx as Hx. by rewrite (Hst2 _ _ Hx).
Qed.

(** No stored task has the hash of [t] but [t] itself. *)
Definition collision_free (m : gmap string string) (t : string) : Prop :=
  forall h d e, m !! MetadataKeys.task (DatasetMetadataRegistry.batch_id r) h = Some d -> decode d = inr e ->
    hash_task default_hash (TaskEntry.task e) = hash_task default_hash t -> TaskEntry.task e = t.

Lemma resolved tasks m n t i :
  collision_free m t -> task_inv default_hash r m n ->
  (forall e, e ∈ tasks <-> exists h d, task_range r (MetadataKeys.task (DatasetMetadataRegistry.batch_id r) h) = true /\
     m !! MetadataKeys.task (DatasetMetadataRegistry.batch_id r) h = Some d /\ decode d = inr e) ->
  task_index_of default_hash r t m = Some i -> task_map tasks !! t = Some i.
Proof.
  intros Hinj Hi Hall Ht. unfold task_index_of in Ht.
  destruct (m !! task_key default_hash r t) as [d|] eqn:Ed; [|done].
  destruct (decode d) as [|e] eqn:Ee; [done|]. injection Ht as <-.
  apply task_map_lookup.
  - intros e' (h & d' & _ & Hd' & He')%Hall <-.
    pose proof (inv_text _ _ _ _ Hi h d' e' Hd' He') as <-. unfold task_key in Ed. congruence.
  - right. exists e. split.
    + apply Hall. exists (hash_task default_hash t), d. split; [apply task_key_range|done].
    + apply (Hinj _ d e Ed Ee). exact (inv_text _ _ _ _ Hi _ d e Ed Ee).
Qed.

(** The dataset names the tasks that were submitted.  After any series of successful
    submissions (with at most 10,000 task registrations in all), reading the tasks back
    succeeds when the calls are answered, and the entry of [episodes.jsonl] for each
    submitted episode lists exactly the task indices its submission returned, provided
    no other stored task has the hash of a submitted one. *)
Theorem submitted_tasks_resolve rounds n subs xs (w w1 : World S) :
  task_inv default_hash r (kv w) n -> (0 < rounds)%nat ->
  n + Z.of_nat (task_count subs * rounds) <= 10000 ->
  submit_all rounds subs w = (Ok (Some xs), w1) -> ready w1 ->
  (forall s t, s ∈ subs -> t ∈ sub_tasks s -> collision_free (kv w1) t) ->
  exists tasks w2, scan_tasks r w1 = (Ok tasks, w2) /\
    Forall2 (fun s x => forall e, PartialEpisodeMetadata.tasks e = sub_tasks s ->
      EpisodeInfo.tasks (episode_info (task_map tasks) e) = SubmissionResult.task_indices x) subs xs.
Proof.
  intros Hi Hrounds Hlt E Hw Hinj.
  pose proof (wp_submit_all rounds n subs w Hi ltac:(unfold u64_mod; lia) Hrounds) as Hwp. unfold wp in Hwp.
  rewrite E in Hwp. destruct (Hwp xs eq_refl) as ((n1 & Hn1 & Hi1) & _ & Hxs). cbn [fst snd] in *.
  destruct (scan_tasks r w1) as [res w2] eqn:Es.
  assert (exists tasks, res = Ok tasks /\ forall t i, collision_free (kv w1) t ->
    task_index_of default_hash r t (kv w1) = Some i -> task_map tasks !! t = Some i) as (tasks & -> & Hres).
  { wp_run Es. eapply (wp_scan_tasks default_hash r Hr n1); [done|lia| |by intros e w3 [_ ?]].
    intros l w3 _ _ Hl. exists l. split; [done|]. intros t i Hf Ht. by apply (resolved l (kv w1) n1 t i). }
  exists tasks, w2. split; [done|]. apply Forall2_same_length_lookup_2; [by eapply Forall2_length|].
  intros j s x Hs Hx e He. cbn. rewrite He. pose proof (Forall2_lookup_lr _ _ _ _ _ _ Hxs Hs Hx) as Hsx.
  assert (forall t, t ∈ sub_tasks s -> collision_free (kv w1) t) as Hfree.
  { intros t. apply Hinj. by eapply list_elem_of_lookup_2. }
  clear - Hsx Hres Hfree. cbv beta in Hsx. revert Hsx. generalize (SubmissionResult.task_indices x).
  induction (sub_tasks s) as [|t ts IH]; intros [|i ix] Hsx; [done|discriminate Hsx|discriminate Hsx|].
  rewrite !fmap_cons in Hsx. assert (Ht := f_equal head Hsx). assert (Hts := f_equal tail Hsx).
  cbn [head tail] in Ht, Hts. injection Ht as Ht. cbn. rewrite (Hres t i) by (try apply Hfree; (left || done)).
  f_equal. apply IH; [|done]. intros t' Ht'. apply Hfree. by right.
Qed.

(** *** Features that cannot be read back stop the assembly *)
Definition feature_range (k : string) : bool :=
  in_range (MetadataKeys.feature_prefix (DatasetMetadataRegistry.batch_id r))
    (scan_end (MetadataKeys.feature_prefix (DatasetMetadataRegistry.batch_id r))) k.

Lemma collect_features_bad pairs k d fs (w : World S) :
  (k, d) ∈ pairs -> (exists e, decode (A:=FeatureSpec.t) d = inl e) ->
  wp (DatasetMetadataRegistry.collect_features pairs fs) (fun res _ => exists e, res = Err e) w.
Proof.
  intros Hin [e He]. revert fs w. induction pairs as [|[k' d'] pairs IH]; intros fs w;
    cbn [DatasetMetadataRegistry.collect_features]; [by apply not_elem_of_nil in Hin|].
  do 2 wp_step. apply elem_of_cons in Hin as [[= <- <-]|Hin].
  - rewrite He. by eexists.
  - destruct (decode d') as [e'|s']; [by eexists|]. by apply IH.
Qed.

Context {Writer : Type} (storage_writer : string -> M S string Writer)
  (write_all : string -> Writer -> M S string Writer) (flush : Writer -> M S string unit).
Context (info_text : LerobotInfo.t -> string + string) (episode_text : EpisodeInfo.t -> string + string)
  (task_text : TaskInfo.t -> string + string) (stats_text : EpisodeStatsEntry.t -> string + string).
Context `{!HashOrder Z}.

(** A batch with a registered feature that carries no video information, such as every
    state or action vector, is not assembled: with up to 1000 features
    [assemble_and_write] returns an error and writes no file, whatever the storage does. *)
Theorem state_features_stop_assembly a f name robot fps (w : World S) :
  registry a = r -> stuck r f (kv w) -> free_of byte_ff f = true ->
  (length (filter (fun e => feature_range e.1 = true) (map_to_list (kv w))) <= 1000)%nat ->
  exists e w', assemble_and_write storage_writer write_all flush info_text episode_text task_text stats_text
    a name robot fps w = (Err e, w') /\ kv w' = kv w.
Proof.
  intros Ha (s & Hv & Hd) Hff Hlen.
  destruct (assemble_and_write _ _ _ _ _ _ _ a name robot fps w) as [res w'] eqn:E.
  assert ((exists e, res = Err e) /\ kv w' = kv w) as [[e ->] ?]; [|by exists e, w'].
  wp_run E. unfold assemble_and_write. rewrite Ha. wp_step. wp_step.
  unfold scan_episode_metadata. wp_step. apply wp_scan; [apply Hr| |].
  2: { intros e w1 [[K _] _]. split; [by eexists|done]. }
  intros w1 [K1 _]. wp_step. cbn [map_err].
  destruct (sort_by_key _ _) as [|e0 eps]; [wp_step; by eauto|].
  wp_step. wp_step. unfold scan_tasks. wp_step. apply wp_scan; [apply Hr| |].
  2: { intros e w2 [[K _] _]. split; [by eexists|congruence]. }
  intros w2 [K2 _]. wp_step. cbn [map_err]. wp_step. wp_step. unfold scan_features. wp_step.
  apply wp_scan; [apply Hr| |].
  2: { intros e w3 [[K _] _]. split; [by eexists|congruence]. }
  intros w3 [K3 _].
  assert (kv w2 = kv w) as -> by congruence.
  assert ((MetadataKeys.feature (DatasetMetadataRegistry.batch_id r) f, put_feature_spec s "") ∈
    kv_scan (MetadataKeys.feature_prefix (DatasetMetadataRegistry.batch_id r))
      (scan_end (MetadataKeys.feature_prefix (DatasetMetadataRegistry.batch_id r))) 1000 (kv w)) as Hin.
  { apply elem_of_kv_scan_all; [exact Hlen|]. split; [done|]. apply in_prefix_range_iff.
    exists f. split; [|by apply ltb_byte_ff].
    unfold MetadataKeys.feature, MetadataKeys.feature_prefix. by rewrite !string_app_assoc. }
  assert (wp (DatasetMetadataRegistry.collect_features (kv_scan
      (MetadataKeys.feature_prefix (DatasetMetadataRegistry.batch_id r))
      (scan_end (MetadataKeys.feature_prefix (DatasetMetadataRegistry.batch_id r))) 1000 (kv w)) ∅)
    (fun res w' => (exists e, res = Err e) /\ kv w' = kv w3) w3) as Hcf.
  { unfold wp. split; [by apply (collect_features_bad _ _ _ _ w3 Hin), stateful_spec_unreadable|].
    generalize (kv_scan (MetadataKeys.feature_prefix (DatasetMetadataRegistry.batch_id r))
      (scan_end (MetadataKeys.feature_prefix (DatasetMetadataRegistry.batch_id r))) 1000 (kv w)) as l.
    generalize (∅ : gmap string FeatureSpec.t). clear. intros fs l. revert fs. induction l as [|[k d] l IH]; intros fs;
      cbn [DatasetMetadataRegistry.collect_features]; [done|].
    unfold mbind, M_bind at 1, of_sum. destruct (decode d); [done|]. apply IH. }
  eapply wp_mono; [exact Hcf|]. intros res' w4 [[e ->] K4]. cbn [map_err]. split; [by eexists|congruence].
Qed.
End Assembly.

Section Witnesses.
Import MetadataExamples Sim.
Abbreviation ep i := (PartialEpisodeMetadata.mk i 10 [] {["action"%string := state_shape]} "" ∅ ∅ None).

Lemma valid_iff_complete_witness :
  ValidationResult.valid (MetadataValidator.validate_episodes [ep 1; ep 0]) = true <->
  [ep 1; ep 0] <> [] /\ (PartialEpisodeMetadata.episode_index <$> [ep 1; ep 0]) ≡ₚ seqZ 0 2 /\ consistent [ep 1; ep 0].
Proof.
  apply (valid_iff_complete [ep 1; ep 0]).
  - apply (bool_decide_unpack _). vm_compute. done.
  - repeat constructor; vm_compute; done.
Defined.

Definition two_subs : list Submission :=
  [mkSubmission 0 10 ["pick"; "place"] ∅ "" ∅ ∅; mkSubmission 1 20 ["place"; "push"] ∅ "" ∅ ∅]%string.

Lemma submitted_tasks_resolve_witness :
  let '(res, w1) := submit_all (S:=Sim.t) byte_sum (fun _ => ""%string) registry 1 two_subs (sim_world ∅ []) in
  res = Ok (Some [SubmissionResult.mk 0 [0; 1]; SubmissionResult.mk 1 [1; 2]]) /\
  exists tasks w2, DatasetMetadataRegistry.scan_tasks registry w1 = (Ok tasks, w2) /\
    Forall2 (fun s x => forall e, PartialEpisodeMetadata.tasks e = sub_tasks s ->
      EpisodeInfo.tasks (GlobalMetadataAssembler.episode_info (task_map tasks) e) = SubmissionResult.task_indices x)
      two_subs [SubmissionResult.mk 0 [0; 1]; SubmissionResult.mk 1 [1; 2]].
Proof.
  destruct (submit_all byte_sum (fun _ => ""%string) registry 1 two_subs (sim_world ∅ [])) as [res w1] eqn:E.
  assert (res = Ok (Some [SubmissionResult.mk 0 [0; 1]; SubmissionResult.mk 1 [1; 2]])) as Hres.
  { apply (f_equal fst) in E. cbn [fst] in E. rewrite <- E. vm_compute. reflexivity. }
  split; [done|]. subst res.
  assert (task_inv byte_sum registry (kv (sim_world ∅ [])) 0) as HI by exact empty_task_inv.
  apply (submitted_tasks_resolve byte_sum (fun _ => ""%string) registry sim_client_ok 1 0 two_subs
    [SubmissionResult.mk 0 [0; 1]; SubmissionResult.mk 1 [1; 2]] (sim_world ∅ []) w1 HI ltac:(lia)
    ltac:(vm_compute; discriminate) E).
  - apply (f_equal snd) in E. cbn [snd] in E. rewrite <- E. split; vm_compute; reflexivity.
  - intros s t Hs Ht h d e Hd He Hh.
    assert (map_Forall (fun k d => negb (starts_with k (MetadataKeys.task_prefix "b")) || match decode (A:=TaskEntry.t) d with
      | inr e => bool_decide (TaskEntry.task e ∈ ["pick"; "place"; "push"]%string) | inl _ => true end = true) (kv w1)) as Hall.
    { apply (f_equal snd) in E. cbn [snd] in E. rewrite <- E. apply (bool_decide_unpack _). vm_compute. exact I. }
    specialize (Hall _ _ Hd). cbv beta in Hall. rewrite He in Hall.
    assert (starts_with (MetadataKeys.task "b" h) (MetadataKeys.task_prefix "b") = true) as Hsw by reflexivity.
    cbn [DatasetMetadataRegistry.batch_id registry] in Hall. rewrite Hsw in Hall. cbn [negb orb] in Hall. apply bool_decide_eq_true in Hall. revert Hh.
    assert (t = "pick" \/ t = "place" \/ t = "push")%string as Ht3.
    { clear - Hs Ht. unfold two_subs in Hs.
      repeat (apply elem_of_cons in Hs as [->|Hs]; [cbn in Ht; repeat (apply elem_of_cons in Ht as [->|Ht]; [by auto|]);
        by apply not_elem_of_nil in Ht|]). by apply not_elem_of_nil in Hs. }
    assert (TaskEntry.task e = "pick" \/ TaskEntry.task e = "place" \/ TaskEntry.task e = "push")%string as He3.
    { clear - Hall. repeat (apply elem_of_cons in Hall as [->|Hall]; [by auto|]). by apply not_elem_of_nil in Hall. }
    clear - Ht3 He3. destruct_or! He3; destruct_or! Ht3; rewrite He3; subst t; vm_compute; done.
Defined.
End Witnesses.
