(* ===== verification/Image.v ===== *)
(** * Images

    crates/roboflow-media/src/frame.rs ([ImageData], [AudioData]) and
    crates/roboflow-media/src/image/format.rs: image formats are recognised by their
    first bytes and the dimensions are read from a JPEG or PNG header without decoding.
    A byte is a number; an index outside a slice panics. *)
From S2P Require Import Prelude.

Abbreviation byte := Z (only parsing).
Definition is_byte (b : Z) : Prop := 0 <= b < 256.

(** [data[i]]. *)
Definition index {E} (data : list byte) (i : nat) : result E Z :=
  match data !! i with Some b => Ok b | None => Panic "index out of bounds" end.

(** [u16::from_be_bytes], [u32::from_be_bytes]. *)
Definition u16_be (a b : byte) : Z := 256 * a + b.
Definition u32_be (a b c d : byte) : Z := 16777216 * a + 65536 * b + 256 * c + d.

(** The multiplications of sizes are in [usize]. *)
Definition usize_mul (a b : Z) : Z := as_u64 (a * b).

Module ImageDataError.
(** [enum ImageDataError]. *)
Inductive t : Type := SizeMismatch (width height expected_size actual_size : Z).
End ImageDataError.

Module ImageData.
(** [struct ImageData]. *)
Record t : Type := mk {
  width : Z; height : Z; data : list byte; original_timestamp : Z; is_encoded : bool; is_depth : bool }.

Definition len (data : list byte) : Z := Z.of_nat (length data).

(** [pixel_count], [rgb_size], [validate], [is_rgb]. *)
Definition pixel_count (i : t) : Z := usize_mul (width i) (height i).
Definition rgb_size (i : t) : Z := usize_mul (pixel_count i) 3.
Definition validate (i : t) : bool := if is_encoded i then true else len (data i) =? rgb_size i.
Definition is_rgb (i : t) : bool := negb (is_encoded i) && (len (data i) =? rgb_size i).

Definition new_rgb (width height : Z) (data : list byte) : result ImageDataError.t t :=
  let expected_size := usize_mul (usize_mul width height) 3 in
  if negb (len data =? expected_size) then Err (ImageDataError.SizeMismatch width height expected_size (len data))
  else Ok (mk width height data 0 false false).
Definition new (width height : Z) (data : list byte) : t := mk width height data 0 false false.
Definition with_timestamp (width height : Z) (data : list byte) (timestamp : Z) : t :=
  mk width height data timestamp false false.
Definition encoded (width height : Z) (data : list byte) : t := mk width height data 0 true false.
Definition depth (width height : Z) (data : list byte) : t := mk width height data 0 false true.
End ImageData.

(** Samples are not looked at. *)
Module AudioData.
Record t (F : Type) : Type := mk { samples : list F; sample_rate : Z; channels : Z; original_timestamp : Z }.
Arguments mk {F}.
Arguments samples {F}.
Arguments sample_rate {F}.
Arguments channels {F}.
Arguments original_timestamp {F}.
Definition new {F} (samples : list F) (sample_rate channels original_timestamp : Z) : t F :=
  mk samples sample_rate channels original_timestamp.
Definition validate {F} (a : t F) : bool :=
  if (sample_rate a =? 0) || (channels a =? 0) then false
  else Z.of_nat (length (samples a)) mod channels a =? 0.
Definition frames {F} (a : t F) : Z := if 0 <? channels a then Z.of_nat (length (samples a)) / channels a else 0.
End AudioData.

(** [str::to_lowercase] on ASCII. *)
Definition lower_char (c : ascii) : ascii :=
  let n := nat_of_ascii c in if (65 <=? n)%nat && (n <=? 90)%nat then ascii_of_nat (n + 32) else c.
Fixpoint to_lowercase (s : string) : string :=
  match s with EmptyString => EmptyString | String c s' => String (lower_char c) (to_lowercase s') end.

Module ImageFormat.
(** [enum ImageFormat]. *)
Inductive t : Type := Rgb8 | Bgr8 | Gray8 | Jpeg | Png | Unknown.
#[global] Instance t_eq_dec : EqDecision t.
Proof. solve_decision. Defined.

(** [from_ros_format]. *)
Definition from_ros_format (s : string) : t :=
  let s := to_lowercase s in
  if existsb (String.eqb s) ["rgb8"; "rgba8"]%string then Rgb8
  else if existsb (String.eqb s) ["bgr8"; "bgra8"]%string then Bgr8
  else if existsb (String.eqb s) ["mono8"; "gray8"]%string then Gray8
  else if existsb (String.eqb s) ["jpeg"; "jpg"; "jpe"; "jfif"]%string then Jpeg
  else if String.eqb s "png" then Png
  else if existsb (String.eqb s) ["avi"; "h264"; "hevc"]%string then Jpeg
  else Unknown.

(** [from_magic_bytes]. *)
Definition from_magic_bytes (data : list byte) : t :=
  match data with
  | b0 :: b1 :: b2 :: b3 :: _ =>
      if (b0 =? 0xFF) && (b1 =? 0xD8) && (b2 =? 0xFF) then Jpeg
      else if (b0 =? 0x89) && (b1 =? 0x50) && (b2 =? 0x4E) && (b3 =? 0x47) then Png
      else Unknown
  | _ => Unknown
  end.

(** [detect], [is_compressed], [is_encoded], [supports_passthrough]. *)
Definition detect (data : list byte) (ros_format : string) : t :=
  let from_magic := from_magic_bytes data in
  if negb (bool_decide (from_magic = Unknown)) then from_magic else from_ros_format ros_format.
Definition is_compressed (f : t) : bool := match f with Jpeg | Png => true | _ => false end.
Definition is_encoded (f : t) : bool := match f with Jpeg | Png => true | _ => false end.
Definition supports_passthrough (f : t) : bool := match f with Jpeg => true | _ => false end.

(** [while i < len - 1 && data[i + 1] == 0xFF { i += 1 }]. *)
Fixpoint skip_padding (fuel : nat) (data : list byte) (i : nat) : nat :=
  match fuel with
  | O => i
  | S fuel' =>
      if (i <? length data - 1)%nat && bool_decide (data !! (i + 1)%nat = Some 0xFF)
      then skip_padding fuel' data (i + 1) else i
  end.

(** The loop over the segments: [None] when the fuel is used up. *)
Fixpoint jpeg_scan {E} (fuel : nat) (data : list byte) (i : nat) : option (result E (option (Z * Z))) :=
  match fuel with
  | O => None
  | S fuel' =>
      if negb (i <? length data - 8)%nat then Some (Ok None)
      else if negb (bool_decide (data !! i = Some 0xFF)) then jpeg_scan fuel' data (i + 1)
      else
        let i := skip_padding (length data) data i in
        match data !! (i + 1)%nat with
        | None => Some (Panic "index out of bounds")
        | Some marker =>
            if (marker =? 0xC0) || (marker =? 0xC2) then
              if (length data <? i + 10)%nat then Some (Ok None)
              else Some (
                h1 ← index data (i + 5); h2 ← index data (i + 6);
                w1 ← index data (i + 7); w2 ← index data (i + 8);
                mret (Some (u16_be w1 w2, u16_be h1 h2)))
            else if (length data <? i + 4)%nat then Some (Ok None)
            else
              match data !! (i + 2)%nat, data !! (i + 3)%nat with
              | Some l1, Some l2 => jpeg_scan fuel' data (i + 2 + Z.to_nat (u16_be l1 l2))
              | _, _ => Some (Panic "index out of bounds")
              end
        end
  end.

(** [jpeg_dimensions]; the fuel is enough ([jpeg_scan_total]). *)
Definition jpeg_dimensions {E} (data : list byte) : result E (option (Z * Z)) :=
  match data with
  | b0 :: b1 :: _ :: _ :: _ =>
      if negb (b0 =? 0xFF) || negb (b1 =? 0xD8) then Ok None
      else default (Panic "out of fuel") (jpeg_scan (length data) data 2)
  | _ => Ok None
  end.

Definition PNG_SIGNATURE : list byte := [0x89; 0x50; 0x4E; 0x47; 0x0D; 0x0A; 0x1A; 0x0A].
Definition IHDR : list byte := [0x49; 0x48; 0x44; 0x52].

(** [png_dimensions]. *)
Definition png_dimensions (data : list byte) : option (Z * Z) :=
  if (length data <? 24)%nat then None
  else if negb (bool_decide (take 8 data = PNG_SIGNATURE)) then None
  else if negb (bool_decide (take 4 (drop 12 data) = IHDR)) then None
  else
    match drop 16 data with
    | w0 :: w1 :: w2 :: w3 :: h0 :: h1 :: h2 :: h3 :: _ =>
        let width := u32_be w0 w1 w2 w3 in
        let height := u32_be h0 h1 h2 h3 in
        if (width =? 0) || (height =? 0) then None else Some (width, height)
    | _ => None
    end.

(** [extract_dimensions]. *)
Definition extract_dimensions {E} (f : t) (data : list byte) : result E (option (Z * Z)) :=
  match f with
  | Jpeg => jpeg_dimensions data
  | Png => Ok (png_dimensions data)
  | _ => Ok None
  end.
End ImageFormat.

(** [detect_jpeg], [detect_png], [detect_image_format], [can_passthrough]. *)
Definition detect_jpeg (data : list byte) : bool :=
  match data with b0 :: b1 :: b2 :: _ :: _ => (b0 =? 0xFF) && (b1 =? 0xD8) && (b2 =? 0xFF) | _ => false end.
Definition detect_png (data : list byte) : bool :=
  bool_decide (take 8 data = ImageFormat.PNG_SIGNATURE).
Definition detect_image_format (data : list byte) : ImageFormat.t :=
  if detect_jpeg data then ImageFormat.Jpeg
  else if detect_png data then ImageFormat.Png
  else ImageFormat.Unknown.
Definition can_passthrough (data : list byte) : bool := detect_jpeg data.

(** ** Reading headers *)
Section Headers.
Import ImageFormat.

Lemma skip_padding_spec fuel data i :
  (i < length data)%nat -> data !! i = Some 0xFF -> (length data <= fuel + i)%nat ->
  let i' := skip_padding fuel data i in
  (i <= i' < length data)%nat /\ data !! i' = Some 0xFF /\
  (i' = (length data - 1)%nat \/ exists b, data !! (i' + 1)%nat = Some b /\ b <> 0xFF).
Proof.
  revert i. induction fuel as [|fuel IH]; intros i Hi Hd Hf; cbn [skip_padding]; [lia|].
  destruct (Nat.ltb_spec i (length data - 1)) as [Hlt|Hge]; cbn [andb].
  - case_bool_decide as Hb.
    + destruct (IH (i + 1)%nat) as (? & ? & ?); [lia|done|lia|]. cbn zeta. split; [lia|done].
    + cbn zeta. split; [lia|]. split; [done|]. right.
      destruct (lookup_lt_is_Some_2 data (i + 1)) as [b Eb]; [lia|]. exists b. split; [done|]. congruence.
  - cbn zeta. split; [lia|]. split; [done|]. left. lia.
Qed.

(** The dimensions come from a start-of-frame marker. *)
Definition frame_header (data : list byte) (w h : Z) : Prop :=
  exists i m h1 h2 w1 w2, data !! i = Some 0xFF /\ data !! (i + 1)%nat = Some m /\ (m = 0xC0 \/ m = 0xC2) /\
    data !! (i + 5)%nat = Some h1 /\ data !! (i + 6)%nat = Some h2 /\
    data !! (i + 7)%nat = Some w1 /\ data !! (i + 8)%nat = Some w2 /\
    w = u16_be w1 w2 /\ h = u16_be h1 h2.

Definition jpeg_post {E} (data : list byte) (r : result E (option (Z * Z))) : Prop :=
  match r with
  | Ok None => True
  | Ok (Some (w, h)) => frame_header data w h
  | Err _ => False
  | Panic _ => list.last data = Some 0xFF
  end.

Lemma index_byte_ok {E} (data : list byte) i b : data !! i = Some b -> index (E:=E) data i = Ok b.
Proof. unfold index. by intros ->. Qed.

(** The loop ends and its result is as stated. *)
Lemma jpeg_scan_total {E} fuel data i :
  (length data < fuel + i + 8)%nat \/ (0 < fuel /\ length data <= fuel + i)%nat ->
  (0 < fuel)%nat -> exists r, jpeg_scan (E:=E) fuel data i = Some r /\ jpeg_post data r.
Proof.
  revert i. induction fuel as [|fuel IH]; intros i Hf Hpos; [lia|]. clear Hpos.
  cbn [jpeg_scan]. destruct (Nat.ltb_spec i (length data - 8)) as [Hi|Hi]; cbn [negb]; [|by eexists].
  assert (0 < fuel)%nat as Hpos by lia.
  case_bool_decide as Hb; cbn [negb]; [|apply IH; lia].
  destruct (skip_padding_spec (length data) data i) as (Hi1 & Hb1 & Hnext); [lia|done|lia|].
  set (j := skip_padding (length data) data i) in *.
  destruct (data !! (j + 1)%nat) as [m|] eqn:Em.
  2: { eexists. split; [done|]. cbn. rewrite last_lookup. destruct Hnext as [Hj|(b & ? & _)]; [|congruence].
       replace (pred (length data)) with j by lia. done. }
  destruct ((m =? 0xC0) || (m =? 0xC2)) eqn:Hm.
  - destruct (Nat.ltb_spec (length data) (j + 10)); [by eexists|].
    destruct (lookup_lt_is_Some_2 data (j + 5)) as [h1 E1]; [lia|].
    destruct (lookup_lt_is_Some_2 data (j + 6)) as [h2 E2]; [lia|].
    destruct (lookup_lt_is_Some_2 data (j + 7)) as [w1 E3]; [lia|].
    destruct (lookup_lt_is_Some_2 data (j + 8)) as [w2 E4]; [lia|].
    eexists. split; [reflexivity|]. rewrite (index_byte_ok _ _ _ E1). cbn. rewrite (index_byte_ok _ _ _ E2). cbn.
    rewrite (index_byte_ok _ _ _ E3). cbn. rewrite (index_byte_ok _ _ _ E4). cbn.
    exists j, m, h1, h2, w1, w2. repeat (split; [done|]). split; [|done].
    apply orb_true_iff in Hm as [?%Z.eqb_eq|?%Z.eqb_eq]; auto.
  - destruct (Nat.ltb_spec (length data) (j + 4)); [by eexists|].
    destruct (lookup_lt_is_Some_2 data (j + 2)) as [l1 E1]; [lia|].
    destruct (lookup_lt_is_Some_2 data (j + 3)) as [l2 E2]; [lia|].
    rewrite E1, E2. apply IH; [lia|done].
Qed.

(** What reading a JPEG header can do.  On any bytes [jpeg_dimensions] ends.  If it
    returns dimensions, they are the big-endian numbers after a baseline or progressive
    start-of-frame marker in the data; it panics only on data that ends in the byte 0xFF. *)
Theorem jpeg_dimensions_outcome {E} data : jpeg_post data (jpeg_dimensions (E:=E) data).
Proof.
  unfold jpeg_dimensions. destruct data as [|b0 [|b1 [|b2 [|b3 data]]]]; [done..|].
  destruct (negb (b0 =? 255) || negb (b1 =? 216)); [done|].
  destruct (jpeg_scan_total (E:=E) (length (b0 :: b1 :: b2 :: b3 :: data)) (b0 :: b1 :: b2 :: b3 :: data) 2)
    as (r & -> & Hr); [cbn; lia|cbn; lia|]. exact Hr.
Qed.

(** A few bytes that look like the start of a JPEG file and go on with padding crash the
    reader. *)
Lemma jpeg_padding_panics {E} :
  from_magic_bytes ([0xFF; 0xD8] ++ replicate 10 0xFF) = Jpeg /\
  jpeg_dimensions (E:=E) ([0xFF; 0xD8] ++ replicate 10 0xFF) = Panic "index out of bounds".
Proof. split; reflexivity. Qed.

(** *** Well-formed files *)

(** A segment that is skipped: its marker and its contents. *)
Definition segment (s : Z * list byte) : list byte :=
  let n := 2 + Z.of_nat (length s.2) in 0xFF :: s.1 :: n / 256 :: n mod 256 :: s.2.
Definition skipped (s : Z * list byte) : Prop :=
  s.1 <> 0xFF /\ s.1 <> 0xC0 /\ s.1 <> 0xC2 /\ 2 + Z.of_nat (length s.2) < 65536.
Definition start_of_frame (m l1 l2 precision h1 h2 w1 w2 : byte) : list byte :=
  [0xFF; m; l1; l2; precision; h1; h2; w1; w2].

Lemma lookup_after {A} (pre rest : list A) n k : n = (length pre + k)%nat -> (pre ++ rest) !! n = rest !! k.
Proof. intros ->. rewrite lookup_app_r by lia. f_equal. lia. Qed.

Lemma skip_padding_none fuel data i b :
  data !! (i + 1)%nat = Some b -> b <> 0xFF -> skip_padding fuel data i = i.
Proof.
  intros Hb Hne. destruct fuel; cbn [skip_padding]; [done|].
  rewrite (bool_decide_false _) by congruence. by rewrite andb_false_r.
Qed.

Lemma jpeg_scan_segments {E} segs fuel pre m l1 l2 p h1 h2 w1 w2 x tail :
  Forall skipped segs -> m = 0xC0 \/ m = 0xC2 ->
  let data := pre ++ mjoin (segment <$> segs) ++ start_of_frame m l1 l2 p h1 h2 w1 w2 ++ x :: tail in
  (length segs < fuel)%nat ->
  jpeg_scan (E:=E) fuel data (length pre) = Some (Ok (Some (u16_be w1 w2, u16_be h1 h2))).
Proof.
  intros Hs Hm. revert fuel pre. induction Hs as [|[mk pl] segs (Hn1 & Hn2 & Hn3 & Hlen) Hs IH]; intros fuel pre data Hf;
    (destruct fuel as [|fuel]; [cbn in Hf; lia|]); cbn [jpeg_scan].
  - assert (data = pre ++ start_of_frame m l1 l2 p h1 h2 w1 w2 ++ x :: tail) as Ed by done.
    assert (length data = length pre + 10 + length tail)%nat as El by (rewrite Ed, !length_app; cbn; lia).
    destruct (Nat.ltb_spec (length pre) (length data - 8)); [|lia]. cbn [negb].
    assert (forall k, data !! (length pre + k)%nat = (start_of_frame m l1 l2 p h1 h2 w1 w2 ++ x :: tail) !! k) as Hk.
    { intros k. rewrite Ed. by apply lookup_after. }
    pose proof (Hk 0%nat) as H0. rewrite Nat.add_0_r in H0. rewrite H0. cbn [lookup list_lookup app start_of_frame].
    rewrite bool_decide_true by done. cbn [negb].
    assert (data !! (length pre + 1)%nat = Some m) as H1 by apply Hk.
    rewrite (skip_padding_none _ _ _ m H1) by lia. rewrite H1.
    assert ((m =? 0xC0) || (m =? 0xC2) = true) as -> by (destruct Hm as [-> | ->]; done).
    destruct (Nat.ltb_spec (length data) (length pre + 10)); [lia|].
    rewrite (index_byte_ok data (length pre + 5) h1) by apply Hk. cbn.
    rewrite (index_byte_ok data (length pre + 6) h2) by apply Hk. cbn.
    rewrite (index_byte_ok data (length pre + 7) w1) by apply Hk. cbn.
    rewrite (index_byte_ok data (length pre + 8) w2) by apply Hk. done.
  - cbn [fst snd] in *. set (rest := mjoin (segment <$> segs) ++ start_of_frame m l1 l2 p h1 h2 w1 w2 ++ x :: tail).
    assert (data = pre ++ segment (mk, pl) ++ rest) as Ed by (unfold data, rest; cbn; by rewrite <- !app_assoc).
    assert (length data = length pre + 4 + length pl + length rest)%nat as El by (rewrite Ed, !length_app; cbn; lia).
    assert (10 <= length rest)%nat as Hr by (unfold rest; rewrite !length_app; cbn; lia).
    destruct (Nat.ltb_spec (length pre) (length data - 8)); [|lia]. cbn [negb].
    assert (forall k, data !! (length pre + k)%nat = (segment (mk, pl) ++ rest) !! k) as Hk.
    { intros k. rewrite Ed. by apply lookup_after. }
    pose proof (Hk 0%nat) as H0. rewrite Nat.add_0_r in H0. rewrite H0.
    change ((segment (mk, pl) ++ rest) !! 0%nat) with (Some 0xFF). rewrite bool_decide_true by done. cbn [negb].
    assert (data !! (length pre + 1)%nat = Some mk) as H1 by apply Hk.
    rewrite (skip_padding_none _ _ _ mk H1) by lia. rewrite H1.
    assert ((mk =? 0xC0) || (mk =? 0xC2) = false) as -> by lia.
    destruct (Nat.ltb_spec (length data) (length pre + 4)); [lia|].
    set (n := 2 + Z.of_nat (length pl)) in *.
    assert (data !! (length pre + 2)%nat = Some (n / 256)) as -> by apply Hk.
    assert (data !! (length pre + 3)%nat = Some (n mod 256)) as -> by apply Hk.
    assert (u16_be (n / 256) (n mod 256) = n) as -> by (unfold u16_be; pose proof (Z.div_mod n 256); lia).
    specialize (IH fuel (pre ++ segment (mk, pl))). cbn zeta in IH. fold rest in IH.
    rewrite <- app_assoc, <- Ed in IH. rewrite length_app in IH.
    replace (length pre + 2 + Z.to_nat n)%nat with (length pre + length (segment (mk, pl)))%nat; [|cbn; lia].
    apply IH. cbn in Hf. lia.
Qed.

(** The dimensions of a JPEG file are found.  In a file that consists of the start
    marker, any number of segments other than frame headers, and a baseline or progressive
    frame header, followed by more bytes, [jpeg_dimensions] returns the width and the
    height of that header. *)
Theorem jpeg_dimensions_found {E} segs m l1 l2 p h1 h2 w1 w2 x tail :
  Forall skipped segs -> m = 0xC0 \/ m = 0xC2 ->
  jpeg_dimensions (E:=E)
    ([0xFF; 0xD8] ++ mjoin (segment <$> segs) ++ start_of_frame m l1 l2 p h1 h2 w1 w2 ++ x :: tail) =
  Ok (Some (u16_be w1 w2, u16_be h1 h2)).
Proof.
  intros Hs Hm.
  pose proof (jpeg_scan_segments (E:=E) segs (length ([0xFF; 0xD8] ++ mjoin (segment <$> segs) ++
    start_of_frame m l1 l2 p h1 h2 w1 w2 ++ x :: tail)) [0xFF; 0xD8] m l1 l2 p h1 h2 w1 w2 x tail Hs Hm) as Hscan.
  cbn zeta in Hscan. assert (length segs <= length (mjoin (segment <$> segs)))%nat as Hl.
  { clear. induction segs as [|s segs IH]; [cbn; lia|].
    rewrite fmap_cons. change (mjoin (segment s :: (segment <$> segs))) with (segment s ++ mjoin (segment <$> segs)).
    rewrite length_app. cbn [length segment]. lia. }
  set (data := [0xFF; 0xD8] ++ _) in *. unfold jpeg_dimensions.
  assert (length segs < length data)%nat as Hlt by (unfold data; rewrite !length_app; cbn [length]; lia).
  assert (exists b2 b3 d, data = 0xFF :: 0xD8 :: b2 :: b3 :: d) as (b2 & b3 & d & Ed).
  { unfold data. destruct segs as [|s segs]; cbn; by eauto. }
  specialize (Hscan Hlt). cbn [length] in Hscan. rewrite Ed in Hscan |- *. cbn [Z.eqb Pos.eqb negb orb]. by rewrite Hscan.
Qed.

(** A PNG header gives its dimensions back. *)
Lemma png_dimensions_found l0 l1 l2 l3 w0 w1 w2 w3 h0 h1 h2 h3 tail :
  u32_be w0 w1 w2 w3 <> 0 -> u32_be h0 h1 h2 h3 <> 0 ->
  png_dimensions (PNG_SIGNATURE ++ [l0; l1; l2; l3] ++ IHDR ++ [w0; w1; w2; w3; h0; h1; h2; h3] ++ tail) =
  Some (u32_be w0 w1 w2 w3, u32_be h0 h1 h2 h3).
Proof.
  intros Hw Hh. unfold png_dimensions. cbn -[u32_be].
  destruct (Z.eqb_spec (u32_be w0 w1 w2 w3) 0); [done|]. destruct (Z.eqb_spec (u32_be h0 h1 h2 h3) 0); done.
Qed.

(** The two detections differ on the PNG signature only. *)
Lemma detections_agree data : detect_image_format data <> Unknown -> from_magic_bytes data = detect_image_format data.
Proof.
  unfold detect_image_format, from_magic_bytes, detect_jpeg, detect_png.
  destruct data as [|b0 [|b1 [|b2 [|b3 data]]]]; try (case_bool_decide as Hb; [discriminate Hb|done]).
  destruct ((b0 =? 255) && (b1 =? 216) && (b2 =? 255)); [done|].
  case_bool_decide as Hb; [|done]. unfold PNG_SIGNATURE in Hb. cbn in Hb. by simplify_eq.
Qed.
End Headers.

Lemma jpeg_dimensions_found_witness :
  ImageFormat.jpeg_dimensions (E:=unit)
    ([0xFF; 0xD8] ++ mjoin (segment <$> [(0xE0, [74; 70; 73; 70; 0]); (0xDB, replicate 65 1)])
      ++ start_of_frame 0xC0 0 17 8 1 224 2 128 ++ 3 :: [0xFF; 0xD9]) = Ok (Some (640, 480)).
Proof.
  apply (jpeg_dimensions_found (E:=unit) [(0xE0, [74; 70; 73; 70; 0]); (0xDB, replicate 65 1)]
    0xC0 0 17 8 1 224 2 128 3 [0xFF; 0xD9]); [|by left].
  repeat constructor; cbn; lia.
Defined.
