(* ===== verification/DatasetPipeline.v ===== *)
(** * The dataset pipeline (crates/roboflow-pipeline/src/executor.rs)

    [DatasetPipelineExecutor] turns a stream of timestamped messages into frames for a
    [FormatWriter], and cuts the stream into episodes.  The writer is a class, any
    implementation of it; [Logged] records the calls made to one.  [CodecValue] is
    [robocodec]'s, with the variants the code names.  The f64 figures of the statistics
    are left out. *)
From Corelib Require Import SpecFloat.
From stdpp Require Import pretty.
From S2P Require Import Prelude Stats Alignment Image Executor.
#[local] Open Scope Z_scope.

#[local] Set Warnings "-register-all".

(** ** Messages *)

(** [robocodec::CodecValue]; [Other] stands for the variants the code does not look into. *)
Inductive CodecValue : Type :=
| Int8 (n : Z) | Int16 (n : Z) | Int32 (n : Z) | Int64 (n : Z)
| UInt8 (n : Z) | UInt16 (n : Z) | UInt32 (n : Z) | UInt64 (n : Z)
| Float32 (x : f32) | Float64 (x : spec_float)
| CString (s : string) | Bytes (b : list byte)
| Array (l : list CodecValue)
| Struct (fields : gmap string CodecValue)
| Other.

Module TimestampedMessage.
(** [struct TimestampedMessage]. *)
Record t : Type := mk { topic : string; log_time : Z; data : CodecValue }.
End TimestampedMessage.

(** [x as f32] of an [f64]. *)
Definition f32_of_f64 (x : spec_float) : f32 :=
  match x with S754_finite s m e => binary_normalize 24 128 (cond_Zopp s (Zpos m)) e s | _ => x end.

(** [extract_u32] (formats/common/message_utils.rs). *)
Definition extract_u32 (v : CodecValue) : option Z :=
  match v with
  | UInt32 n => Some n
  | UInt64 n => if n <=? u32_max then Some n else None
  | Int32 n => if 0 <=? n then Some n else None
  | Int64 n => if (0 <=? n) && (n <=? u32_max) then Some n else None
  | _ => None
  end.

(** The elements of an array that are bytes. *)
Definition byte_of (v : CodecValue) : option byte :=
  match v with
  | UInt8 b => Some b
  | Int8 b => if 0 <=? b then Some b else None
  | UInt16 b | UInt32 b | UInt64 b => if b <=? 255 then Some b else None
  | Int16 b | Int32 b | Int64 b => if (0 <=? b) && (b <=? 255) then Some b else None
  | _ => None
  end.
(** ... and in a nested array. *)
Definition inner_byte_of (v : CodecValue) : option byte :=
  match v with UInt8 b => Some b | Int8 b => if 0 <=? b then Some b else None | _ => None end.

Fixpoint nested_bytes (arr : list CodecValue) : option (list byte) :=
  match arr with
  | [] => None
  | Array inner :: arr' =>
      match omap inner_byte_of inner with [] => nested_bytes arr' | bytes => Some bytes end
  | _ :: arr' => nested_bytes arr'
  end.

(** [extract_image_bytes]. *)
Definition extract_image_bytes (map : gmap string CodecValue) : option (list byte) :=
  match map !! "data"%string with
  | Some (Bytes b) => Some b
  | Some (Array arr) => match omap byte_of arr with [] => nested_bytes arr | bytes => Some bytes end
  | _ => None
  end.

(** [is_camera_info_topic], and [is_camera_info_message] of the executor. *)
Definition has_key (k : string) (map : gmap string CodecValue) : bool := bool_decide (is_Some (map !! k)).
Definition is_camera_info_message (data : CodecValue) : bool :=
  match data with Struct map => has_key "K" map && has_key "D" map | _ => false end.

(** ** Frames (formats/common/base.rs) *)
Module AlignedFrame.
(** [struct AlignedFrame]. *)
Record t : Type := mk {
  frame_index : Z;
  timestamp : Z;
  images : gmap string ImageData.t;
  states : gmap string (list f32);
  actions : gmap string (list f32);
  timestamps : gmap string Z;
  audio : gmap string (AudioData.t f32)
}.
#[global] Instance t_eta : Settable t := fun r =>
  mk (frame_index r) (timestamp r) (images r) (states r) (actions r) (timestamps r) (audio r).

Definition new (frame_index timestamp : Z) : t := mk frame_index timestamp ∅ ∅ ∅ ∅ ∅.
Definition add_image (feature : string) (data : ImageData.t) (f : t) : t := f <| images := <[feature := data]> (images f) |>.
Definition add_state (feature : string) (values : list f32) (f : t) : t := f <| states := <[feature := values]> (states f) |>.
Definition add_action (feature : string) (values : list f32) (f : t) : t := f <| actions := <[feature := values]> (actions f) |>.
Definition add_timestamp (feature : string) (ts : Z) (f : t) : t := f <| timestamps := <[feature := ts]> (timestamps f) |>.
Definition add_audio (feature : string) (data : AudioData.t f32) (f : t) : t := f <| audio := <[feature := data]> (audio f) |>.
Definition is_empty (f : t) : bool :=
  bool_decide (images f = ∅) && bool_decide (states f = ∅) && bool_decide (actions f = ∅)
  && bool_decide (dom (audio f) = ∅).
End AlignedFrame.

Module WriterStats.
(** [struct WriterStats], without its duration. *)
Record t : Type := mk { frames_written : Z; images_encoded : Z; state_records : Z; output_bytes : Z }.
End WriterStats.

(** [trait FormatWriter] (core/traits.rs): what the executor calls.  Errors are their text;
    the statistics of an episode are dropped. *)
Class FormatWriter (W : Type) := {
  write_frame : AlignedFrame.t -> W -> result string unit * W;
  start_episode : option Z -> W -> result string Z * W;
  finish_episode : W -> result string unit * W;
  finalize : W -> result string WriterStats.t * W
}.

(** ** Configuration *)
Module EpisodeStrategy.
(** [enum EpisodeStrategy]. *)
Inductive t : Type := Single | GapBased (threshold_ns : Z) | FrameCount (max_frames : Z).
Definition default : t := Single.
End EpisodeStrategy.

Module DatasetPipelineConfig.
(** [struct DatasetPipelineConfig]. *)
Record t : Type := mk {
  streaming : StreamingConfig.t;
  max_frames : option Z;
  episode_strategy : EpisodeStrategy.t;
  topic_mappings : gmap string string
}.
#[global] Instance t_eta : Settable t := fun r =>
  mk (streaming r) (max_frames r) (episode_strategy r) (topic_mappings r).

Definition with_fps (fps : Z) : panics t :=
  s ← StreamingConfig.with_fps fps; mret (mk s None EpisodeStrategy.default ∅).
Definition with_max_frames (max : Z) (c : t) : t := c <| max_frames := Some max |>.
Definition with_episode_strategy (s : EpisodeStrategy.t) (c : t) : t := c <| episode_strategy := s |>.
Definition with_topic_mapping (topic feature : string) (c : t) : t :=
  c <| topic_mappings := <[topic := feature]> (topic_mappings c) |>.
Definition with_topic_mappings (mappings : gmap string string) (c : t) : t := c <| topic_mappings := mappings |>.
Definition get_feature_name (topic : string) (c : t) : string :=
  match topic_mappings c !! topic with
  | Some mapped => mapped
  | None => let s := dots topic in if starts_with s "." then trim_start_char "." s else s
  end.
End DatasetPipelineConfig.

Module DatasetPipelineStats.
(** [struct DatasetPipelineStats], without duration and rate. *)
Record t : Type := mk {
  frames_written : Z; episodes_written : Z; messages_processed : Z; policy_name : string }.
#[global] Instance t_eta : Settable t := fun r =>
  mk (frames_written r) (episodes_written r) (messages_processed r) (policy_name r).
Definition default : t := mk 0 0 0 "".
End DatasetPipelineStats.

Module ExecutorState.
(** [struct ExecutorState], without the start time. *)
Record t : Type := mk {
  message_buffer : gmap Z (list TimestampedMessage.t);
  current_timestamp_ns : option Z;
  end_timestamp_ns : option Z;
  last_timestamp_ns : option Z;
  frame_index : Z;
  episode_index : Z;
  frames_in_episode : Z;
  episode_started : bool;
  processed_camera_info : gset string
}.
#[global] Instance t_eta : Settable t := fun r =>
  mk (message_buffer r) (current_timestamp_ns r) (end_timestamp_ns r) (last_timestamp_ns r) (frame_index r)
     (episode_index r) (frames_in_episode r) (episode_started r) (processed_camera_info r).
Definition new : t := mk ∅ None None None 0 0 0 false ∅.
End ExecutorState.

(** A method of the executor: state passing with errors. *)
Definition Run (X A : Type) : Type := X -> result string A * X.
#[global] Instance Run_ret X : MRet (Run X) := fun A a x => (Ok a, x).
#[global] Instance Run_bind X : MBind (Run X) := fun A B f m x =>
  match m x with
  | (Ok a, x') => f a x'
  | (Err e, x') => (Err e, x')
  | (Panic s, x') => (Panic s, x')
  end.
Definition run_panics {X A} (r : panics A) : Run X A := fun x =>
  (match r with Ok a => Ok a | Err e => match e with end | Panic s => Panic s end, x).

Inductive WriterCall : Type :=
| StartEpisode (task_index : option Z)
| WriteFrame (frame : AlignedFrame.t)
| FinishEpisode
| Finalize.

(** A writer with the log of the calls made to it. *)
Record Logged (W : Type) : Type := mkLogged { inner : W; log : list WriterCall }.
Arguments mkLogged {W}.
Arguments inner {W}.
Arguments log {W}.
Definition logged {W A} (c : WriterCall) (f : W -> result string A * W) (w : Logged W) : result string A * Logged W :=
  let '(r, i) := f (inner w) in (r, mkLogged i (log w ++ [c])).
#[global] Instance logged_writer W `{FormatWriter W} : FormatWriter (Logged W) := {
  write_frame f := logged (WriteFrame f) (write_frame f);
  start_episode t := logged (StartEpisode t) (start_episode t);
  finish_episode := logged FinishEpisode finish_episode;
  finalize := logged Finalize finalize }.

(** The order of calls a writer expects: episode 0, 1, ... each opened, filled and finished,
    the frames not empty and numbered 0, 1, ... through the episodes, then [finalize].
    Both counters are those of the calls; the indices are [usize]. *)
Inductive Phase : Type := Idle (episode frame : Z) | Open (episode frame : Z) | Done (episodes frames : Z).
Definition next_phase (p : Phase) (c : WriterCall) : option Phase :=
  match p, c with
  | Idle e k, StartEpisode (Some i) => if i =? as_u64 e then Some (Open e k) else None
  | Open e k, WriteFrame f =>
      if (AlignedFrame.frame_index f =? as_u64 k) && negb (AlignedFrame.is_empty f) then Some (Open e (k + 1)) else None
  | Open e k, FinishEpisode => Some (Idle (e + 1) k)
  | Idle e k, Finalize => Some (Done e k)
  | _, _ => None
  end.
Definition phase (calls : list WriterCall) : option Phase :=
  foldl (fun o c => o ≫= fun p => next_phase p c) (Some (Idle 0 0)) calls.

Lemma phase_snoc calls c : phase (calls ++ [c]) = phase calls ≫= fun p => next_phase p c.
Proof. unfold phase. by rewrite foldl_app. Qed.

Definition panic {X A} (msg : string) : Run X A := fun x => (Panic msg, x).

Module DatasetPipelineExecutor.
Import ExecutorState.

Section Executor.
Context {W P : Type} `{FormatWriter W} `{ExecutionPolicy P} `{!HashOrder Z}.

(** [struct DatasetPipelineExecutor]. *)
Record Exec : Type := mkExec {
  writer : W;
  config : DatasetPipelineConfig.t;
  policy : P;
  stats : DatasetPipelineStats.t;
  state : ExecutorState.t
}.
#[global] Instance Exec_eta : Settable Exec := fun r => mkExec (writer r) (config r) (policy r) (stats r) (state r).

Definition new (writer : W) (config : DatasetPipelineConfig.t) (policy : P) : Exec :=
  mkExec writer config policy DatasetPipelineStats.default ExecutorState.new.

Definition gets {A} (f : Exec -> A) : Run Exec A := fun x => (Ok (f x), x).
Definition set_state (f : ExecutorState.t -> ExecutorState.t) : Run Exec unit := fun x => (Ok tt, x <| state := f (state x) |>).
Definition set_stats (f : DatasetPipelineStats.t -> DatasetPipelineStats.t) : Run Exec unit :=
  fun x => (Ok tt, x <| stats := f (stats x) |>).
(** A call of the writer. *)
Definition call {A} (f : W -> result string A * W) : Run Exec A := fun x =>
  let '(r, w) := f (writer x) in (r, x <| writer := w |>).

(** [finish_episode]. *)
Definition finish_episode : Run Exec unit :=
  started ← gets (fun x => episode_started (state x));
  if negb started then mret tt
  else
    call DatasetPipeline.finish_episode;;
    set_stats (fun s => s <| DatasetPipelineStats.episodes_written := u64_add (DatasetPipelineStats.episodes_written s) 1 |>);;
    set_state (fun s => s <| episode_started := false |>).

(** [start_episode]. *)
Definition start_episode (index : Z) : Run Exec unit :=
  s ← gets state;
  (if episode_started s && negb (episode_index s =? index) then finish_episode else mret tt);;
  set_state (fun s => s <| episode_index := index |> <| frames_in_episode := 0 |> <| episode_started := true |>);;
  call (DatasetPipeline.start_episode (Some index));;
  mret tt.

(** [write_frame]. *)
Definition write_frame (frame : AlignedFrame.t) : Run Exec unit :=
  call (DatasetPipeline.write_frame frame);;
  set_stats (fun s => s <| DatasetPipelineStats.frames_written := u64_add (DatasetPipelineStats.frames_written s) 1 |>);;
  set_state (fun s => s <| frame_index := u64_add (frame_index s) 1 |>);;
  if bool_decide (AlignedFrame.images frame = ∅) then mret tt
  else set_state (fun s => s <| frames_in_episode := u64_add (frames_in_episode s) 1 |>).

(** The numbers of an array, as [f32]. *)
Definition number (v : CodecValue) : option f32 :=
  match v with
  | Float32 n => Some n
  | Float64 n => Some (f32_of_f64 n)
  | Int32 n | Int64 n | UInt32 n | UInt64 n => Some (f32_of n)
  | _ => None
  end.

Definition add_values (feature_name : string) (arr : list CodecValue) (frame : AlignedFrame.t) : AlignedFrame.t :=
  match omap number arr with
  | [] => frame
  | values =>
      if String.eqb feature_name "action" || contains ".action" feature_name
      then AlignedFrame.add_action feature_name values frame
      else AlignedFrame.add_state feature_name values frame
  end.

(** The feature name of a message: [None] is an unmapped topic. *)
Definition feature_of (c : DatasetPipelineConfig.t) (topic : string) : option string :=
  if bool_decide (DatasetPipelineConfig.topic_mappings c = ∅) then Some (trim_start_char "." (dots topic))
  else DatasetPipelineConfig.topic_mappings c !! topic.

Definition image_error (e : ImageDataError.t) : string :=
  match e with ImageDataError.SizeMismatch w h expected actual =>
    "Invalid image data: Size mismatch: " +:+ pretty w +:+ "x" +:+ pretty h +:+ " expects " +:+
    pretty expected +:+ " bytes, got " +:+ pretty actual end.

(** [process_message_for_frame]. *)
Definition process_message_for_frame (c : DatasetPipelineConfig.t) (frame : AlignedFrame.t) (msg : TimestampedMessage.t)
  : result string AlignedFrame.t :=
  match feature_of c (TimestampedMessage.topic msg) with
  | None => Ok frame
  | Some feature_name =>
      match TimestampedMessage.data msg with
      | Array arr => Ok (add_values feature_name arr frame)
      | Struct map =>
          if has_key "K" map && has_key "D" map then Ok frame
          else
            match map !! "format"%string, extract_image_bytes map with
            | Some (CString _), Some image_bytes =>
                dims ← ImageFormat.extract_dimensions (ImageFormat.from_magic_bytes image_bytes) image_bytes;
                let '(width, height) := default (0, 0) dims in
                Ok (AlignedFrame.add_image feature_name (ImageData.encoded width height image_bytes) frame)
            | _, _ =>
                match map !! "width"%string ≫= extract_u32, map !! "height"%string ≫= extract_u32, extract_image_bytes map with
                | Some width, Some height, Some image_bytes =>
                    let expected_rgb_size := usize_mul (usize_mul width height) 3 in
                    image ← (if ImageData.len image_bytes <? expected_rgb_size
                             then Ok (ImageData.encoded width height image_bytes)
                             else map_err image_error (ImageData.new_rgb width height image_bytes));
                    Ok (AlignedFrame.add_image feature_name image frame)
                | _, _, _ =>
                    match map !! "position"%string with
                    | Some (Array position_arr) => Ok (add_values feature_name position_arr frame)
                    | _ => Ok frame
                    end
                end
            end
      | _ => Ok frame
      end
  end.

(** The loop of [messages_to_frame]. *)
Fixpoint add_messages (c : DatasetPipelineConfig.t) (frame : AlignedFrame.t) (messages : list TimestampedMessage.t)
  : result string AlignedFrame.t :=
  match messages with
  | [] => Ok frame
  | msg :: messages' => frame ← process_message_for_frame c frame msg; add_messages c frame messages'
  end.

(** [messages_to_frame]. *)
Definition messages_to_frame (c : DatasetPipelineConfig.t) (frame_index : Z) (messages : list TimestampedMessage.t)
  (timestamp_ns : Z) : result string (option AlignedFrame.t) :=
  frame ← add_messages c (AlignedFrame.new frame_index timestamp_ns) messages;
  Ok (if AlignedFrame.is_empty frame then None else Some frame).

(** The [match] on its result. *)
Definition write_messages (messages : list TimestampedMessage.t) (timestamp : Z) : Run Exec unit :=
  x ← gets id;
  match messages_to_frame (config x) (frame_index (state x)) messages timestamp with
  | Ok (Some frame) => write_frame frame
  | Ok None | Err _ => mret tt
  | Panic s => panic s
  end.

(** [keys().filter(f).min()]. *)
Definition min_key {A} (f : Z -> bool) (m : gmap Z A) : option Z :=
  foldr (fun k o => if f k then Some (match o with Some j => Z.min k j | None => k end) else o)
    None (map_to_list m).*1.

(** The next timestamp: within the window, or the next buffered one. *)
Definition next_timestamp {A} (timestamp completion_window : Z) (m : gmap Z A) : option Z :=
  match min_key (fun t => (timestamp <=? t) && (saturating_sub t timestamp <=? completion_window)) m with
  | Some t => Some t
  | None => min_key (fun t => timestamp <? t) m
  end.

(** [process_complete_frames]: the loop runs at most once more than there are buffered
    timestamps ([complete_frames_enough]). *)
Fixpoint complete_frames (fuel : nat) (completion_window : Z) : Run Exec unit :=
  match fuel with
  | O => panic "out of fuel"
  | S fuel' =>
      s ← gets state;
      match current_timestamp_ns s with
      | None => mret tt
      | Some timestamp =>
          match message_buffer s !! timestamp with
          | Some messages =>
              set_state (fun s => s <| message_buffer := base.delete timestamp (message_buffer s) |>);;
              write_messages messages timestamp;;
              set_state (fun s => s <| current_timestamp_ns := next_timestamp timestamp completion_window (message_buffer s) |>);;
              complete_frames fuel' completion_window
          | None =>
              set_state (fun s => s <| current_timestamp_ns := min_key (fun t => timestamp <? t) (message_buffer s) |>)
          end
      end
  end.

Definition process_complete_frames : Run Exec unit :=
  x ← gets id;
  run_panics (StreamingConfig.frame_interval_ns (DatasetPipelineConfig.streaming (config x)));;
  complete_frames (2 + size (message_buffer (state x)))
    (StreamingConfig.completion_window_ns (DatasetPipelineConfig.streaming (config x))).

(** The two episode boundaries of [process_message]. *)
Definition gap_boundary (x : Exec) (log_time : Z) : bool :=
  match DatasetPipelineConfig.episode_strategy (config x), last_timestamp_ns (state x) with
  | EpisodeStrategy.GapBased threshold_ns, Some last_ts => (last_ts <? log_time) && (threshold_ns <? log_time - last_ts)
  | _, _ => false
  end.
Definition count_boundary (x : Exec) : bool :=
  match DatasetPipelineConfig.episode_strategy (config x) with
  | EpisodeStrategy.FrameCount max_frames => max_frames <=? frames_in_episode (state x)
  | _ => false
  end.
Definition next_episode : Run Exec unit :=
  finish_episode;;
  s ← gets state;
  start_episode (u64_add (episode_index s) 1).

(** The rest of [process_message]: buffering. *)
Definition buffer_message (msg : TimestampedMessage.t) : Run Exec unit :=
  x ← gets id;
  frame_interval_ns ← run_panics (StreamingConfig.frame_interval_ns (DatasetPipelineConfig.streaming (config x)));
  if frame_interval_ns =? 0 then panic "attempt to divide by zero"
  else
    let aligned := TimestampedMessage.log_time msg / frame_interval_ns * frame_interval_ns in
    set_state (fun s => s
      <| message_buffer := <[aligned := default [] (message_buffer s !! aligned) ++ [msg]]> (message_buffer s) |>
      <| current_timestamp_ns := match current_timestamp_ns s with None => Some aligned | t => t end |>
      <| end_timestamp_ns := Some (Z.max aligned (default 0 (end_timestamp_ns s))) |>);;
    process_complete_frames.

(** [process_message]. *)
Definition process_message (msg : TimestampedMessage.t) : Run Exec unit :=
  set_stats (fun s => s <| DatasetPipelineStats.messages_processed := u64_add (DatasetPipelineStats.messages_processed s) 1 |>);;
  x ← gets id;
  if match DatasetPipelineConfig.max_frames (config x) with
     | Some max => max <=? DatasetPipelineStats.frames_written (stats x)
     | None => false
     end
  then mret tt
  else
    (if episode_started (state x) then mret tt else start_episode 0);;
    x ← gets id;
    (if gap_boundary x (TimestampedMessage.log_time msg) then next_episode else mret tt);;
    x ← gets id;
    (if count_boundary x then next_episode else mret tt);;
    set_state (fun s => s <| last_timestamp_ns := Some (TimestampedMessage.log_time msg) |>);;
    s ← gets state;
    if is_camera_info_message (TimestampedMessage.data msg) then
      if bool_decide (TimestampedMessage.topic msg ∈ processed_camera_info s) then mret tt
      else
        set_state (fun s => s <| processed_camera_info := {[TimestampedMessage.topic msg]} ∪ processed_camera_info s |>);;
        buffer_message msg
    else buffer_message msg.

(** [process_messages]. *)
Fixpoint process_messages (messages : list TimestampedMessage.t) : Run Exec unit :=
  match messages with
  | [] => mret tt
  | msg :: messages' => process_message msg;; process_messages messages'
  end.

(** [finalize]. *)
Fixpoint flush_remaining (remaining : list (Z * list TimestampedMessage.t)) : Run Exec unit :=
  match remaining with
  | [] => mret tt
  | (timestamp, messages) :: remaining' =>
      (match messages with [] => mret tt | _ => write_messages messages timestamp end);;
      flush_remaining remaining'
  end.

Definition finalize : Run Exec DatasetPipelineStats.t :=
  x ← gets id;
  let remaining := hash_iter (message_buffer (state x)) in
  set_state (fun s => s <| message_buffer := ∅ |>);;
  flush_remaining remaining;;
  finish_episode;;
  writer_stats ← call DatasetPipeline.finalize;
  set_stats (fun s => s <| DatasetPipelineStats.frames_written := WriterStats.frames_written writer_stats |>
                        <| DatasetPipelineStats.policy_name := Executor.policy_name (policy x) |>);;
  gets stats.

(** [frame_count], [episode_index], [policy_name]. *)
Definition frame_count (x : Exec) : Z := DatasetPipelineStats.frames_written (stats x).
Definition episode_index (x : Exec) : Z := ExecutorState.episode_index (state x).
Definition policy_name (x : Exec) : string := Executor.policy_name (policy x).

(** ** The executor without its buffer

    [buffer_message] that writes the message at once; [process_message] with it. *)
Definition direct_buffer (msg : TimestampedMessage.t) : Run Exec unit :=
  x ← gets id;
  frame_interval_ns ← run_panics (StreamingConfig.frame_interval_ns (DatasetPipelineConfig.streaming (config x)));
  if frame_interval_ns =? 0 then panic "attempt to divide by zero"
  else
    let aligned := TimestampedMessage.log_time msg / frame_interval_ns * frame_interval_ns in
    set_state (fun s => s <| end_timestamp_ns := Some (Z.max aligned (default 0 (end_timestamp_ns s))) |>);;
    write_messages [msg] aligned.

Definition prepare (msg : TimestampedMessage.t) : Run Exec bool :=
  set_stats (fun s => s <| DatasetPipelineStats.messages_processed := u64_add (DatasetPipelineStats.messages_processed s) 1 |>);;
  x ← gets id;
  if match DatasetPipelineConfig.max_frames (config x) with
     | Some max => max <=? DatasetPipelineStats.frames_written (stats x)
     | None => false
     end
  then mret false
  else
    (if episode_started (state x) then mret tt else start_episode 0);;
    x ← gets id;
    (if gap_boundary x (TimestampedMessage.log_time msg) then next_episode else mret tt);;
    x ← gets id;
    (if count_boundary x then next_episode else mret tt);;
    set_state (fun s => s <| last_timestamp_ns := Some (TimestampedMessage.log_time msg) |>);;
    s ← gets state;
    if is_camera_info_message (TimestampedMessage.data msg) then
      if bool_decide (TimestampedMessage.topic msg ∈ processed_camera_info s) then mret false
      else
        set_state (fun s => s <| processed_camera_info := {[TimestampedMessage.topic msg]} ∪ processed_camera_info s |>);;
        mret true
    else mret true.

Definition direct_message (msg : TimestampedMessage.t) : Run Exec unit :=
  go ← prepare msg;
  if (go : bool) then direct_buffer msg else mret tt.
Fixpoint direct_messages (messages : list TimestampedMessage.t) : Run Exec unit :=
  match messages with
  | [] => mret tt
  | msg :: messages' => direct_message msg;; direct_messages messages'
  end.

(** ** Methods that do not look at the buffer *)
Definition put (b : gmap Z (list TimestampedMessage.t)) (c : option Z) (x : Exec) : Exec :=
  x <| state := state x <| message_buffer := b |> <| current_timestamp_ns := c |> |>.
(** Nothing is buffered and no timestamp is awaited, as in a new executor and after every message that
    was processed without an error; a [write_frame] that fails leaves its timestamp behind. *)
Definition settled (x : Exec) : Prop :=
  message_buffer (state x) = ∅ /\ current_timestamp_ns (state x) = None.

Lemma put_own x : put (message_buffer (state x)) (current_timestamp_ns (state x)) x = x.
Proof. by destruct x as [w c p st []]. Qed.
Lemma settled_put x : settled x -> put ∅ None x = x.
Proof. intros [Hb Hc]. rewrite <- (put_own x) at 2. by rewrite Hb, Hc. Qed.

Definition blind {A} (m : Run Exec A) : Prop :=
  forall b c x, m (put b c x) = ((m x).1, put b c (m x).2).

Lemma blind_keeps {A} (m : Run Exec A) x : blind m ->
  put (message_buffer (state x)) (current_timestamp_ns (state x)) (m x).2 = (m x).2.
Proof.
  intros Hm. pose proof (Hm (message_buffer (state x)) (current_timestamp_ns (state x)) x) as E.
  rewrite put_own in E. by rewrite E at 2.
Qed.
Lemma blind_settled {A} (m : Run Exec A) x : blind m -> settled x -> settled (m x).2.
Proof. intros Hm [Hb Hc]. rewrite <- (blind_keeps m x Hm), Hb, Hc. by destruct ((m x).2) as [? ? ? ? []]. Qed.

Lemma blind_ret {A} (a : A) : blind (mret a).
Proof. done. Qed.
Lemma blind_panic {A} s : blind (panic (A := A) s).
Proof. done. Qed.
Lemma blind_bind {A B} (m : Run Exec A) (f : A -> Run Exec B) : blind m -> (forall a, blind (f a)) -> blind (m ≫= f).
Proof.
  intros Hm Hf b c x. unfold mbind, Run_bind. rewrite Hm. destruct (m x) as [[a|e|s] x']; simpl; [apply Hf|done..].
Qed.
Lemma blind_gets {A} (f : Exec -> A) : (forall b c x, f (put b c x) = f x) -> blind (gets f).
Proof. intros Hf b c x. unfold gets. by rewrite Hf. Qed.
Lemma blind_call {A} (f : W -> result string A * W) : blind (call f).
Proof. intros b c' [w c p st s]. unfold call; simpl. by destruct (f w). Qed.
Lemma blind_set_stats f : blind (set_stats f).
Proof. by intros b c' [w c p st s]. Qed.
Lemma blind_set_state (f : ExecutorState.t -> ExecutorState.t) :
  (forall b c s, f (s <| message_buffer := b |> <| current_timestamp_ns := c |>)
           = f s <| message_buffer := b |> <| current_timestamp_ns := c |>) -> blind (set_state f).
Proof. intros Hf b c' [w c p st s]. unfold set_state, put; simpl. by rewrite Hf. Qed.
Lemma blind_run_panics {A} (r : panics A) : blind (run_panics r).
Proof. done. Qed.
(** A method that depends on the executor only through what [put] keeps. *)
Lemma blind_with {A B} (g : Exec -> B) (f : B -> Run Exec A) :
  (forall x, blind (f (g x))) -> (forall b c x, f (g (put b c x)) = f (g x)) -> blind (gets g ≫= f).
Proof. intros Hb Hf b c x. unfold mbind, Run_bind, gets; simpl. rewrite Hf. apply Hb. Qed.

End Executor.
Arguments Exec : clear implicits.
Arguments mkExec {W P}.

Create HintDb blind.
#[export] Hint Resolve blind_ret blind_panic blind_call blind_set_stats blind_run_panics : blind.
Ltac blind_tac :=
  repeat first
    [ solve [auto with blind]
    | apply blind_set_state; solve [by intros ? ? []]
    | apply blind_gets; solve [by intros ? ? [? ? ? ? []]]
    | apply blind_with; [intros ?|solve [by intros ? ? [? ? ? ? []]]]
    | apply blind_bind; [|intros ?]
    | match goal with
      | |- blind (if ?b then _ else _) => destruct b
      | |- blind (match ?b with _ => _ end) => destruct b
      end ].

Section Direct.
Context {W P : Type} `{FormatWriter W} `{ExecutionPolicy P} `{!HashOrder Z}.


Lemma blind_finish : blind (finish_episode (W := W) (P := P)).
Proof. unfold finish_episode. blind_tac. Qed.
#[local] Hint Resolve blind_finish : blind.
Lemma blind_start i : blind (start_episode (W := W) (P := P) i).
Proof. unfold start_episode. blind_tac. Qed.
#[local] Hint Resolve blind_start : blind.
Lemma blind_next : blind (next_episode (W := W) (P := P)).
Proof. unfold next_episode. blind_tac. Qed.
#[local] Hint Resolve blind_next : blind.
Lemma blind_write_frame f : blind (write_frame (W := W) (P := P) f).
Proof. unfold write_frame. blind_tac. Qed.
#[local] Hint Resolve blind_write_frame : blind.
Lemma blind_write_messages ms t : blind (write_messages (W := W) (P := P) ms t).
Proof. unfold write_messages. blind_tac. Qed.
#[local] Hint Resolve blind_write_messages : blind.
Lemma blind_prepare m : blind (prepare (W := W) (P := P) m).
Proof. unfold prepare. blind_tac. Qed.
Lemma blind_direct_buffer m : blind (direct_buffer (W := W) (P := P) m).
Proof. unfold direct_buffer. blind_tac. Qed.

(** One round of the loop. *)
Lemma complete_frames_S fuel w t ms (x : Exec W P) :
  current_timestamp_ns (state x) = Some t -> message_buffer (state x) !! t = Some ms ->
  complete_frames (S fuel) w x
  = (write_messages ms t;;
     set_state (fun s => s <| current_timestamp_ns := next_timestamp t w (message_buffer s) |>);;
     complete_frames fuel w) (x <| state := state x <| message_buffer := base.delete t (message_buffer (state x)) |> |>).
Proof.
  intros Hc Hb. cbn [complete_frames]. unfold gets, mbind at 1, Run_bind at 1. rewrite Hc, Hb.
  unfold set_state at 1, mbind at 1, Run_bind at 1. done.
Qed.
Lemma complete_frames_done fuel w (x : Exec W P) :
  current_timestamp_ns (state x) = None -> complete_frames (S fuel) w x = (Ok tt, x).
Proof. intros Hc. cbn [complete_frames]. unfold gets, mbind at 1, Run_bind at 1. by rewrite Hc. Qed.

Lemma complete_frames_miss fuel w t (x : Exec W P) :
  current_timestamp_ns (state x) = Some t -> message_buffer (state x) !! t = None ->
  complete_frames (S fuel) w x
  = set_state (fun s => s <| current_timestamp_ns := min_key (fun t' => t <? t') (message_buffer s) |>) x.
Proof. intros Hc Hb. cbn [complete_frames]. unfold gets, mbind at 1, Run_bind at 1. by rewrite Hc, Hb. Qed.

(** The fuel of [process_complete_frames] is enough: more of it gives the same. *)
Lemma complete_frames_enough fuel w (x : Exec W P) :
  (size (message_buffer (state x)) < fuel)%nat -> complete_frames (S fuel) w x = complete_frames fuel w x.
Proof.
  revert x. induction fuel as [|fuel IH]; intros x Hf; [lia|].
  destruct (current_timestamp_ns (state x)) as [t|] eqn:Ec; [|by rewrite !complete_frames_done].
  destruct (message_buffer (state x) !! t) as [ms|] eqn:Eb.
  2: { by erewrite !complete_frames_miss by done. }
  erewrite !complete_frames_S by done. set (x1 := x <| state := _ |>).
  pose proof (blind_keeps _ x1 (blind_write_messages ms t)) as E.
  unfold mbind, Run_bind. destruct (write_messages ms t x1) as [[u|e|m] y]; [|done..].
  cbn [fst snd set_state] in *. apply IH. rewrite <- E.
  change (size (base.delete t (message_buffer (state x))) < fuel)%nat.
  rewrite map_size_delete, Eb. pose proof (map_size_ne_0_lookup_2 (message_buffer (state x)) t (mk_is_Some _ _ Eb)). lia.
Qed.

(** [process_message] is [prepare], then buffering. *)
Lemma process_message_prepare msg (x : Exec W P) :
  process_message msg x = (go ← prepare msg; if (go : bool) then buffer_message msg else mret tt) x.
Proof.
  unfold process_message, prepare, mbind, Run_bind, set_stats, set_state, gets, mret, Run_ret; simpl.
  repeat (case_match; simplify_eq; simpl; try done).
Qed.

Lemma put_put b c b' c' (x : Exec W P) : put b c (put b' c' x) = put b c x.
Proof. by destruct x as [? ? ? ? []]. Qed.

(** ... on one buffered message: it is written, and the buffer is empty again. *)
Lemma complete_frames_one fuel w t msg (x : Exec W P) :
  complete_frames (S (S fuel)) w (put {[t := [msg]]} (Some t) x)
  = let '(r, y) := write_messages [msg] t x in
    (r, match r with Ok _ => put ∅ None y | _ => put ∅ (Some t) y end).
Proof.
  erewrite complete_frames_S by (try apply lookup_singleton_eq; done).
  replace (_ <| state := _ |>) with (put ∅ (Some t) x).
  2: { destruct x as [? ? ? ? []]. unfold put. cbn. by rewrite delete_singleton_eq. }
  unfold mbind, Run_bind. rewrite (blind_write_messages [msg] t ∅ (Some t) x).
  destruct (write_messages [msg] t x) as [[[]|e|m] y]; [|done..]. cbn [fst snd].
  unfold set_state. rewrite complete_frames_done by done. by destruct y as [? ? ? ? []].
Qed.

Lemma process_complete_frames_Ok i (x : Exec W P) :
  StreamingConfig.frame_interval_ns (DatasetPipelineConfig.streaming (config x)) = Ok i ->
  process_complete_frames x
  = complete_frames (2 + size (message_buffer (state x))) (StreamingConfig.completion_window_ns (DatasetPipelineConfig.streaming (config x))) x.
Proof. intros Hi. unfold process_complete_frames, mbind, Run_bind, gets, run_panics. cbn. by rewrite Hi. Qed.

Lemma buffer_is_direct msg (x : Exec W P) : settled x ->
  direct_buffer msg x = ((buffer_message msg x).1, put ∅ None (buffer_message msg x).2)
  /\ message_buffer (state (buffer_message msg x).2) = ∅
  /\ forall u, (buffer_message msg x).1 = Ok u -> settled (buffer_message msg x).2.
Proof.
  intros Hx. unfold direct_buffer, buffer_message, gets, mbind, Run_bind, run_panics. cbn.
  destruct (StreamingConfig.frame_interval_ns _) as [i|[]|m] eqn:Ei; cbn; [|by rewrite settled_put by done; destruct Hx].
  destruct (i =? 0); cbn; [by rewrite settled_put by done; destruct Hx|].
  set (t := _ / i * i).
  set (x1 := x <| state := state x <| end_timestamp_ns := _ |> |>).
  assert (Hx1 : settled x1) by (destruct x as [? ? ? ? []]; exact Hx).
  replace (x <| state := state x <| message_buffer := _ |> <| current_timestamp_ns := _ |> <| end_timestamp_ns := _ |> |>)
    with (put {[t := [msg]]} (Some t) x1).
  2: { destruct Hx as [-> ->]. by destruct x as [? ? ? ? []]. }
  rewrite (process_complete_frames_Ok i) by done.
  replace (2 + _)%nat with 3%nat by (cbn; by rewrite map_size_singleton).
  rewrite complete_frames_one.
  pose proof (blind_keeps _ x1 (blind_write_messages [msg] t)) as E. destruct Hx1 as [Hb Hc]. rewrite Hb, Hc in E.
  destruct (write_messages [msg] t x1) as [[u|e|m] y]; cbn [fst snd] in *; (split_and!; [by rewrite put_put, E|done|by intros]).
Qed.

Lemma process_is_direct msg (x : Exec W P) : settled x ->
  direct_message msg x = ((process_message msg x).1, put ∅ None (process_message msg x).2)
  /\ message_buffer (state (process_message msg x).2) = ∅
  /\ forall u, (process_message msg x).1 = Ok u -> settled (process_message msg x).2.
Proof.
  intros Hx. rewrite process_message_prepare. unfold direct_message, mbind, Run_bind.
  pose proof (blind_settled _ x (blind_prepare msg) Hx) as Hy.
  destruct (prepare msg x) as [[[]|e|m] y]; cbn [fst snd] in *;
    [by apply buffer_is_direct|(rewrite settled_put by done; by destruct Hy)..].
Qed.

Lemma processes_are_direct messages (x : Exec W P) : settled x ->
  direct_messages messages x = ((process_messages messages x).1, put ∅ None (process_messages messages x).2)
  /\ message_buffer (state (process_messages messages x).2) = ∅
  /\ forall u, (process_messages messages x).1 = Ok u -> settled (process_messages messages x).2.
Proof.
  revert x. induction messages as [|msg messages IH]; intros x Hx; cbn [direct_messages process_messages].
  { rewrite settled_put by done. by destruct Hx. }
  destruct (process_is_direct msg x Hx) as (E&Hb&Hs). unfold mbind, Run_bind. rewrite E.
  destruct (process_message msg x) as [[u|e|m] y]; cbn [fst snd] in *; [|done..].
  specialize (Hs u eq_refl). rewrite settled_put by done. by apply IH.
Qed.

(** C14: The buffer of the executor has no effect on a run of [process_messages], which ends at the first error.
    On any writer, policy and configuration, from an executor that buffers nothing and awaits no timestamp
    (as a new one, or one whose last run succeeded), it has the result, the calls of the writer, the counters and all
    other state of [direct_messages], which writes every message as a frame of its own when it arrives:
    the alignment to the frame interval only rounds the frame's timestamp, and the completion window changes
    nothing.  When it succeeds the final states are equal, and again nothing is buffered or
    awaited; when it fails the buffer is empty too, and the states can differ only in the timestamp that
    is still awaited. *)
Theorem executor_is_direct messages (x : Exec W P) : settled x ->
  (process_messages messages x).1 = (direct_messages messages x).1
  /\ (exists awaited, (process_messages messages x).2 = put ∅ awaited (direct_messages messages x).2)
  /\ forall u, (process_messages messages x).1 = Ok u ->
       (process_messages messages x).2 = (direct_messages messages x).2 /\ settled (process_messages messages x).2.
Proof.
  intros Hx. destruct (processes_are_direct messages x Hx) as (E&Hb&Hs). rewrite E. cbn [fst snd]. split_and!; [done| |].
  - exists (current_timestamp_ns (state (process_messages messages x).2)). by rewrite put_put, <-Hb, put_own.
  - intros u Hu. specialize (Hs u Hu). by rewrite settled_put.
Qed.

End Direct.
Section Protocol.
Context {W P : Type} `{FormatWriter W} `{ExecutionPolicy P} `{!HashOrder Z}.
#[local] Abbreviation X := (Exec (Logged W) P).
#[local] Abbreviation run := (Run X).

Definition calls (x : X) : list WriterCall := log (writer x).

Lemma calls_put b c x : calls (put b c x) = calls x.
Proof. by destruct x as [? ? ? ? []]. Qed.

(** [m] ends in [post], or fails after calls in order. *)
Definition orderly {A} (m : run A) (post : A -> X -> Prop) (x : X) : Prop :=
  match m x with (Ok a, y) => post a y | (_, y) => is_Some (phase (calls y)) end.

Lemma orderly_bind {A B} (m : run A) (f : A -> run B) post x :
  orderly m (fun a => orderly (f a) post) x -> orderly (m ≫= f) post x.
Proof. unfold orderly, mbind, Run_bind. by destruct (m x) as [[a|e|s] y]. Qed.
Lemma orderly_mono {A} (m : run A) (post post' : A -> X -> Prop) x :
  orderly m post x -> (forall a y, post a y -> post' a y) -> orderly m post' x.
Proof. unfold orderly. destruct (m x) as [[a|e|s] y]; auto. Qed.
Lemma orderly_if {A} (b : bool) (m m' : run A) post x :
  (b = true -> orderly m post x) -> (b = false -> orderly m' post x) -> orderly (if b then m else m') post x.
Proof. destruct b; auto. Qed.
(** A call of the writer moves the phase, also when it fails. *)
Lemma orderly_call {A} c (f : W -> result string A * W) (post : A -> X -> Prop) x p :
  (phase (calls x) ≫= fun q => next_phase q c) = Some p ->
  (forall a w, phase (log w) = Some p -> post a (x <| writer := w |>)) ->
  orderly (call (logged c f)) post x.
Proof.
  intros Hc Hpost. unfold orderly, call, logged.
  assert (Hl : phase (calls x ++ [c]) = Some p) by by rewrite phase_snoc.
  destruct (f (inner (writer x))) as [[a|e|s] i]; cbn; [by apply Hpost|change (is_Some (phase (calls x ++ [c]))); by rewrite Hl..].
Qed.

(** The counters agree with [e] finished episodes and [k] frames, within the limit. *)
Record counted (limit : option Z) (e k : Z) (x : X) : Prop := {
  ct_limit : DatasetPipelineConfig.max_frames (config x) = limit;
  ct_episodes : DatasetPipelineStats.episodes_written (stats x) = as_u64 e;
  ct_index : frame_index (state x) = as_u64 k;
  ct_frames : DatasetPipelineStats.frames_written (stats x) = as_u64 k;
  ct_pos : 0 <= k;
  ct_within : match limit with Some max => k <= max < u64_mod | None => True end }.
Record opened (limit : option Z) (e k : Z) (x : X) : Prop := {
  op_started : episode_started (state x) = true;
  op_index : ExecutorState.episode_index (state x) = as_u64 e;
  op_phase : phase (calls x) = Some (Open e k);
  op_counted : counted limit e k x }.
Record idle (limit : option Z) (e k : Z) (x : X) : Prop := {
  id_started : episode_started (state x) = false;
  id_phase : phase (calls x) = Some (Idle e k);
  id_counted : counted limit e k x }.

Lemma as_u64_succ n : u64_add (as_u64 n) 1 = as_u64 (n + 1).
Proof. unfold u64_add, as_u64. by rewrite Zplus_mod_idemp_l. Qed.

Lemma orderly_finish limit e k x : opened limit e k x ->
  orderly finish_episode (fun _ y => idle limit (e + 1) k y /\ ExecutorState.episode_index (state y) = as_u64 e) x.
Proof.
  intros [Ho Hi Hp []]. apply orderly_bind. unfold orderly at 1, gets. rewrite Ho. cbn [negb].
  apply orderly_bind. eapply orderly_call; [by rewrite Hp|]. intros _ w Hw. unfold orderly; cbn.
  split; [|done]. split; [done..|]. split; try done. cbn. rewrite <- as_u64_succ. congruence.
Qed.

Lemma orderly_start limit e k x : idle limit e k x ->
  orderly (start_episode (as_u64 e)) (fun _ y => opened limit e k y) x.
Proof.
  intros [Ho Hp []]. apply orderly_bind. unfold orderly at 1, gets. rewrite Ho. cbn [andb].
  apply orderly_bind. unfold orderly at 1; cbn. apply orderly_bind. unfold orderly at 1, set_state.
  apply orderly_bind. eapply orderly_call; [unfold calls in *; cbn; rewrite Hp; cbn; by rewrite Z.eqb_refl|].
  intros _ w Hw. unfold orderly; cbn. by repeat split.
Qed.

Lemma orderly_next limit e k x : opened limit e k x -> orderly next_episode (fun _ y => opened limit (e + 1) k y) x.
Proof.
  intros Hx. apply orderly_bind. eapply orderly_mono; [by apply orderly_finish|].
  intros _ y [Hy Hi]. apply orderly_bind. unfold orderly at 1, gets. rewrite Hi, as_u64_succ. by apply orderly_start.
Qed.

Lemma orderly_write_frame limit e k f x : opened limit e k x ->
  match limit with Some max => k < max | None => True end ->
  AlignedFrame.frame_index f = as_u64 k -> AlignedFrame.is_empty f = false ->
  orderly (write_frame f) (fun _ y => opened limit e (k + 1) y) x.
Proof.
  intros [Ho Hi Hp []] Hl Hf He. apply orderly_bind.
  eapply orderly_call; [by rewrite Hp; cbn; rewrite Hf, Z.eqb_refl, He|]. intros _ w Hw.
  assert (Hk : match limit with Some max => k + 1 <= max < u64_mod | None => True end) by (destruct limit; [lia|done]).
  unfold orderly, mbind, Run_bind, set_stats, set_state; cbn.
  destruct (bool_decide _); cbn; (split; [done..|]; split; cbn; rewrite <- ?as_u64_succ; try (done || congruence || lia)).
Qed.

(** A frame keeps its index. *)
Lemma frame_keeps_index c f m f' : process_message_for_frame c f m = Ok f' ->
  AlignedFrame.frame_index f' = AlignedFrame.frame_index f.
Proof.
  unfold process_message_for_frame, add_values, mbind, result_bind. intros E.
  repeat (case_match; simplify_eq; try done).
Qed.
Lemma frame_index_of c i ms t f : messages_to_frame c i ms t = Ok (Some f) ->
  AlignedFrame.frame_index f = i /\ AlignedFrame.is_empty f = false.
Proof.
  unfold messages_to_frame, mbind, result_bind. intros E.
  assert (Hi : forall g h, add_messages c g ms = Ok h -> AlignedFrame.frame_index h = AlignedFrame.frame_index g).
  { clear. induction ms as [|m ms IH]; intros g h E; cbn in E; [by simplify_eq|].
    destruct (process_message_for_frame c g m) as [g'|e|s] eqn:Eg; [|done..].
    cbn in E. rewrite (IH _ _ E). by eapply frame_keeps_index. }
  destruct (add_messages _ _ _) as [h|e|s] eqn:Eh; [|done..]. apply Hi in Eh.
  destruct (AlignedFrame.is_empty h) eqn:Ee; by simplify_eq.
Qed.

(** Room for one more frame. *)
Definition room (limit : option Z) (k : Z) : Prop := match limit with Some max => k < max | None => True end.

Lemma orderly_write_messages limit e k ms t x : opened limit e k x -> room limit k ->
  orderly (write_messages ms t) (fun _ y => exists k', opened limit e k' y) x.
Proof.
  intros Hx Hl. apply orderly_bind. unfold orderly at 1, gets. cbn [id].
  destruct (messages_to_frame _ _ _ _) as [[f|]|er|s] eqn:Ef.
  - apply frame_index_of in Ef as [Hi He]. destruct Hx as [Ho Hx Hp []]. eapply orderly_mono.
    + eapply orderly_write_frame; [by split|done|congruence|done].
    + intros ? y Hy. by exists (k + 1).
  - unfold orderly; cbn; eauto.
  - unfold orderly; cbn; eauto.
  - unfold orderly, panic. destruct Hx as [_ _ -> _]. done.
Qed.

(** An executor between two messages. *)
Definition steady (limit : option Z) (x : X) : Prop :=
  idle limit 0 0 x \/ exists e k, opened limit e k x.

Lemma steady_phase limit x : steady limit x -> is_Some (phase (calls x)).
Proof. intros [[_ -> _]|(e & k & [_ _ -> _])]; done. Qed.

(** A change outside of what the predicates read. *)
Lemma opened_change limit e k x y : opened limit e k x -> calls y = calls x -> config y = config x ->
  episode_started (state y) = episode_started (state x) ->
  ExecutorState.episode_index (state y) = ExecutorState.episode_index (state x) ->
  frame_index (state y) = frame_index (state x) ->
  DatasetPipelineStats.episodes_written (stats y) = DatasetPipelineStats.episodes_written (stats x) ->
  DatasetPipelineStats.frames_written (stats y) = DatasetPipelineStats.frames_written (stats x) -> opened limit e k y.
Proof. intros [Ho Hi Hp []] Hc Hg Hs Hei Hfi Hew Hfw. split; [congruence..|]. split; congruence. Qed.

Definition has_room (x : X) : Prop :=
  match DatasetPipelineConfig.max_frames (config x) with
  | Some max => DatasetPipelineStats.frames_written (stats x) < max
  | None => True
  end.
Lemma counted_room limit e k x : counted limit e k x -> has_room x -> room limit k.
Proof.
  intros [Hl _ _ Hf Hk Hw] Hr. unfold has_room in Hr. rewrite Hl in Hr. unfold room. destruct limit as [max|]; [|done].
  rewrite Hf in Hr. unfold as_u64 in Hr. rewrite Z.mod_small in Hr; lia.
Qed.

Lemma orderly_boundary limit e k (b : bool) x : opened limit e k x ->
  orderly (if b then next_episode else mret tt) (fun _ y => exists e', opened limit e' k y) x.
Proof.
  intros Hx. destruct b; [|unfold orderly; cbn; eauto].
  eapply orderly_mono; [by apply orderly_next|]. intros ? y Hy. by exists (e + 1).
Qed.

Lemma orderly_prepare limit msg x : steady limit x ->
  orderly (prepare msg) (fun go y => steady limit y /\ (go = true -> exists e k, opened limit e k y /\ room limit k)) x.
Proof.
  intros Hx. unfold prepare. apply orderly_bind. unfold orderly at 1, set_stats. cbn beta iota.
  set (x1 := x <| stats := _ |>).
  assert (Hx1 : steady limit x1).
  { destruct Hx as [[Ho Hp []]|(e & k & Hx)]; [left; by repeat split|right; exists e, k; by eapply opened_change]. }
  apply orderly_bind. unfold orderly at 1, gets. cbn [id]. apply orderly_if; [intros _; by split|]. intros Hr.
  assert (Hroom : has_room x1).
  { unfold has_room. case_match; [|done]. apply Z.leb_gt in Hr. done. }
  apply orderly_bind.
  apply (orderly_mono _ (fun _ y => exists e k, opened limit e k y /\ room limit k)).
  { destruct Hx1 as [Hi|(e & k & Hi)].
    - pose proof (counted_room _ _ _ _ (id_counted _ _ _ _ Hi) Hroom). rewrite (id_started _ _ _ _ Hi).
      eapply orderly_mono; [by apply (orderly_start limit 0 0)|]. intros ? y Hy. by exists 0, 0.
    - rewrite (op_started _ _ _ _ Hi). unfold orderly; cbn. exists e, k. split; [done|].
      eapply counted_room; [apply Hi|done]. }
  intros [] y (e & k & Hy & Hk). apply orderly_bind. unfold orderly at 1. cbn beta iota. apply orderly_bind.
  eapply orderly_mono; [by eapply orderly_boundary|]. clear e Hy y. intros ? y (e & Hy).
  apply orderly_bind. unfold orderly at 1. cbn beta iota. apply orderly_bind.
  eapply orderly_mono; [by eapply orderly_boundary|]. clear e Hy y. intros ? y (e & Hy).
  assert (Hgo : forall z, opened limit e k z -> steady limit z /\ (true = true -> exists e k, opened limit e k z /\ room limit k)).
  { intros z Hz. split; [right|]; eauto. }
  unfold orderly, mbind, Run_bind, set_state, mret, Run_ret; cbn.
  repeat case_match; simplify_eq; cbn; try (apply Hgo; by eapply opened_change).
  all: split; [|done]; right; exists e, k; by eapply opened_change.
Qed.

Lemma orderly_direct limit msg x : steady limit x -> orderly (direct_message msg) (fun _ y => steady limit y) x.
Proof.
  intros Hx. apply orderly_bind. eapply orderly_mono; [by apply orderly_prepare|]. intros [] y [Hs Hy]; [|done].
  destruct (Hy eq_refl) as (e & k & Ho & Hk). unfold direct_buffer. apply orderly_bind. unfold orderly at 1, gets. cbn [id].
  apply orderly_bind. unfold orderly at 1, run_panics. destruct (StreamingConfig.frame_interval_ns _) as [i|[]|m];
    [|by eapply steady_phase].
  cbn beta iota. apply orderly_if; intros _; [by eapply steady_phase|]. cbn zeta.
  apply orderly_bind. unfold orderly at 1, set_state. cbn beta iota.
  eapply orderly_mono; [eapply orderly_write_messages; [by eapply opened_change|done]|].
  intros ? z [k' Hz]. right. by exists e, k'.
Qed.

Lemma orderly_process limit msg x : steady limit x -> settled x ->
  orderly (process_message msg) (fun _ y => steady limit y /\ settled y) x.
Proof.
  intros Hs Hx. destruct (process_is_direct msg x Hx) as (E&_&Hok). pose proof (orderly_direct limit msg x Hs) as Ho.
  unfold orderly in *. rewrite E in Ho. destruct (process_message msg x) as [[u|e|m] y]; cbn [fst snd] in *; [|done..].
  specialize (Hok u eq_refl). by rewrite settled_put in Ho.
Qed.
Lemma orderly_processes limit messages x : steady limit x -> settled x ->
  orderly (process_messages messages) (fun _ y => steady limit y /\ settled y) x.
Proof.
  revert x. induction messages as [|msg messages IH]; intros x Hs Hx; [done|]. cbn [process_messages].
  apply orderly_bind. eapply orderly_mono; [by apply orderly_process|]. intros ? y [Hy Hz]. by apply IH.
Qed.

(** The calls are complete: every episode finished, the writer finalized. *)
Definition complete (limit : option Z) (episodes : Z) (x : X) : Prop :=
  exists e k, phase (calls x) = Some (Done e k) /\ episodes = as_u64 e
    /\ match limit with Some max => k <= max | None => True end.

Lemma orderly_finalize limit x : steady limit x -> settled x ->
  orderly finalize (fun s y => complete limit (DatasetPipelineStats.episodes_written s) y) x.
Proof.
  intros Hs [Hb _]. apply orderly_bind. unfold orderly at 1, gets at 1. cbn [id]. rewrite Hb.
  replace (hash_iter ∅) with (@nil (Z * list TimestampedMessage.t)).
  2: { symmetry. apply Permutation_nil. by rewrite hash_iter_perm, map_to_list_empty. }
  apply orderly_bind. unfold orderly at 1, set_state. cbn beta iota. set (x1 := x <| state := _ |>).
  apply orderly_bind. unfold orderly at 1. cbn [flush_remaining mret Run_ret]. apply orderly_bind.
  apply (orderly_mono _ (fun _ y => exists e k, idle limit e k y)).
  - destruct Hs as [[Ho Hp []]|(e & k & Hi)].
    + unfold orderly, finish_episode, mbind, Run_bind, gets. replace (episode_started (state x1)) with false.
      exists 0, 0. by repeat split.
    + eapply orderly_mono; [eapply (orderly_finish limit e k); by eapply opened_change|].
      intros ? y [Hy _]. by exists (e + 1), k.
  - intros ? y (e & k & [Ho Hp []]). apply orderly_bind. eapply orderly_call; [by rewrite Hp|].
    intros ws w Hw. unfold orderly; cbn. exists e, k. split; [done|]. split; [done|]. destruct limit; [lia|done].
Qed.

(** C13: The executor keeps the writer's protocol.  From a new executor, on any messages, the
    calls made to the writer are in order, also up to a call that fails: episodes 0, 1, 2, ...
    each started, given frames and finished before the next, no frame outside an episode,
    every frame with content and numbered consecutively through the episodes; and when
    processing succeeds and [finalize] does, every episode is finished, the writer is
    finalized last, the statistics count the episodes, and no more than [max_frames] frames
    were written. *)
Theorem writer_protocol messages (w : W) (config : DatasetPipelineConfig.t) (policy : P) :
  match DatasetPipelineConfig.max_frames config with Some max => 0 <= max < u64_mod | None => True end ->
  match process_messages messages (new (mkLogged w []) config policy) with
  | (Ok _, x) =>
      match finalize x with
      | (Ok stats, y) =>
          exists episodes frames, phase (calls y) = Some (Done episodes frames)
            /\ DatasetPipelineStats.episodes_written stats = as_u64 episodes
            /\ match DatasetPipelineConfig.max_frames config with Some max => frames <= max | None => True end
      | (_, y) => is_Some (phase (calls y))
      end
  | (_, x) => is_Some (phase (calls x))
  end.
Proof.
  intros Hm. set (x0 := new _ _ _).
  assert (Hs : steady (DatasetPipelineConfig.max_frames config) x0) by (left; by repeat split).
  pose proof (orderly_processes _ messages x0 Hs (conj eq_refl eq_refl)) as Hp. unfold orderly in Hp.
  destruct (process_messages messages x0) as [[u|e|m] x]; [|done..]. destruct Hp as [Hx Hd].
  exact (orderly_finalize _ x Hx Hd).
Qed.

End Protocol.
End DatasetPipelineExecutor.

(** ** Examples *)
Module PipelineExamples.
Import DatasetPipelineExecutor.

(** The [MockWriter] of the executor's tests. *)
Record MockWriter : Type := mkMock { frame_count : Z; episodes_started : Z; episodes_finished : Z }.
#[export] Instance MockWriter_writer : FormatWriter MockWriter := {
  write_frame _ m := (Ok tt, mkMock (frame_count m + 1) (episodes_started m) (episodes_finished m));
  start_episode _ m := (Ok (episodes_started m), mkMock (frame_count m) (episodes_started m + 1) (episodes_finished m));
  finish_episode m := (Ok tt, mkMock (frame_count m) (episodes_started m) (episodes_finished m + 1));
  finalize m := (Ok (WriterStats.mk (frame_count m) 0 0 0), m) }.
#[export] Instance Z_order : HashOrder Z := list_order Z.

(** 30 frames per second, a gap of one second ends an episode, at most three frames. *)
Definition gaps : DatasetPipelineConfig.t :=
  DatasetPipelineConfig.mk (StreamingConfig.mk 30 100000000 ∅) (Some 3) (EpisodeStrategy.GapBased 1000000000) ∅.
Definition joint (t : Z) : TimestampedMessage.t := TimestampedMessage.mk "/joint" t (Array [Int32 1; CString "x"; UInt32 2]).
(** Two messages of one frame interval, one two seconds later, one over the limit. *)
Definition stream : list TimestampedMessage.t := [joint 10; joint 20; joint 2000000020; joint 2000000040].

Definition start : Exec (Logged MockWriter) SequentialPolicy.t :=
  new (mkLogged (mkMock 0 0 0) []) gaps SequentialPolicy.mk.

Lemma executor_is_direct_witness :
  calls (direct_messages stream start).2 = calls (process_messages stream start).2
  /\ settled (process_messages stream start).2.
Proof.
  destruct (executor_is_direct stream start (conj eq_refl eq_refl)) as (_&_&H).
  destruct (H tt) as [E Hs]; [vm_compute; reflexivity|]. split; [by rewrite E|done].
Defined.

(** A writer whose first frame fails.  The executor goes on to await the timestamp of that frame, so the
    next message is held back until a third one arrives. *)
Record BadStart : Type := mkBad { failed : bool; written : list Z }.
#[local] Instance BadStart_writer : FormatWriter BadStart := {
  write_frame f w := if failed w then (Ok tt, mkBad true (written w ++ [AlignedFrame.timestamp f])) else (Err "disk full", mkBad true (written w));
  start_episode _ w := (Ok 0, w);
  finish_episode w := (Ok tt, w);
  finalize w := (Ok (WriterStats.mk (Z.of_nat (length (written w))) 0 0 0), w) }.
Definition frames_of (x : Exec BadStart SequentialPolicy.t) : list Z := written (writer x).

Example message_held_after_error :
  let x0 := new (mkBad false []) gaps SequentialPolicy.mk in
  let x1 := (process_message (joint 10) x0).2 in
  let x2 := (process_message (joint 100000000) x1).2 in
  let x3 := (process_message (joint 200000000) x2).2 in
  (process_message (joint 10) x0).1 = Err "disk full" /\ ExecutorState.current_timestamp_ns (state x1) = Some 0 /\
  frames_of x2 = [] /\ frames_of x3 = [99999999; 199999998] /\
  frames_of (direct_message (joint 100000000) (direct_message (joint 10) x0).2).2 = [99999999].
Proof. vm_compute. split_and!; reflexivity. Qed.

Lemma writer_protocol_witness :
  phase (calls (process_messages stream start).2) = Some (Open 1 3)
  /\ match process_messages stream start with
     | (Ok _, x) =>
         match finalize x with
         | (Ok stats, y) =>
             exists episodes frames, phase (calls y) = Some (Done episodes frames)
               /\ DatasetPipelineStats.episodes_written stats = as_u64 episodes /\ frames <= 3
         | (_, y) => is_Some (phase (calls y))
         end
     | (_, x) => is_Some (phase (calls x))
     end.
Proof.
  split; [vm_compute; reflexivity|]. apply (writer_protocol stream (mkMock 0 0 0) gaps SequentialPolicy.mk). by cbn.
Defined.

(** Two messages of the same frame interval make two frames. *)
Example one_interval_two_frames :
  let x := (process_messages [joint 10; joint 20] start).2 in
  (fun c => match c with WriteFrame f => Some (AlignedFrame.timestamp f) | _ => None end) <$> calls x
  = [None; Some 0; Some 0].
Proof. vm_compute. reflexivity. Qed.
End PipelineExamples.
