(* ===== verification/VideoFrame.v ===== *)
(** * Video frames (crates/roboflow-media/src/video/frame.rs, image/decode.rs and the frame
    buffers of video/dataset_encode.rs)

    Frames, their validation, the buffers that collect frames of one size, the zero-copy
    [FrameBuffer], 16-bit depth frames, and the preparation of images for a video.  An arena
    slot is its bytes.  [decode_compressed_image], the image decoders behind image/backend.rs,
    is a parameter. *)
From S2P Require Import Prelude Image.
#[local] Open Scope Z_scope.

Module VideoEncoderError.
(** [enum VideoEncoderError]; [Io] carries the text of the error. *)
Inductive t : Type :=
| Io (e : string)
| FfmpegNotFound
| FfmpegFailed (status : Z) (stderr : string)
| NoFrames
| InconsistentFrameSizes
| InvalidFrameData (msg : string)
| Encoding (msg : string)
| FrameError (msg : string)
| InitializationError (msg : string)
| FinalizationError (msg : string)
| FinalizedError (msg : string).
End VideoEncoderError.

Module FrameFormat.
(** [enum FrameFormat]. *)
Inductive t : Type := Rgb24 | Nv12 | Yuv420p | Jpeg.
#[global] Instance t_eq_dec : EqDecision t.
Proof. solve_decision. Defined.
Definition default : t := Rgb24.
End FrameFormat.

Module PixelFormat.
(** [enum PixelFormat]. *)
Inductive t : Type := Rgb24 | Nv12 | Yuv420p | Jpeg.
#[global] Instance t_eq_dec : EqDecision t.
Proof. solve_decision. Defined.
Definition default : t := Rgb24.
End PixelFormat.

(** [usize::checked_mul]. *)
Definition checked_mul64 (a b : Z) : option Z := if a * b <=? u64_max then Some (a * b) else None.
Definition usize_add (a b : Z) : Z := as_u64 (a + b).
Definition len (data : list byte) : Z := Z.of_nat (length data).

(** [data[0] != 0xFF || data[1] != 0xD8 || data[2] != 0xFF]. *)
Definition jpeg_header (data : list byte) : bool :=
  match data with b0 :: b1 :: b2 :: _ => (b0 =? 255) && (b1 =? 216) && (b2 =? 255) | _ => false end.

Definition invalid {A} : result VideoEncoderError.t A := Err (VideoEncoderError.InvalidFrameData "Invalid frame data").
Definition ok_or_invalid {A} (o : option A) : result VideoEncoderError.t A :=
  match o with Some a => Ok a | None => invalid end.

Module FrameBuffer.
(** [enum FrameBufferInner], [struct FrameBuffer]. *)
Inductive Inner : Type := Arena (slot : list byte) | Owned (data : list byte).
Record t : Type := mk { inner : Inner; format : PixelFormat.t; width : Z; height : Z; len : Z }.
#[global] Instance t_eta : Settable t := fun r => mk (inner r) (format r) (width r) (height r) (len r).

Definition from_arena (slot : list byte) (format : PixelFormat.t) (width height len : Z) : t :=
  mk (Arena slot) format width height len.
Definition from_owned (data : list byte) (format : PixelFormat.t) (width height : Z) : t :=
  mk (Owned data) format width height (VideoFrame.len data).
Definition rgb24 (width height : Z) (data : list byte) : t := from_owned data PixelFormat.Rgb24 width height.
Definition nv12 (width height : Z) (data : list byte) : t := from_owned data PixelFormat.Nv12 width height.

(** The bytes behind the buffer; [data], [capacity]. *)
Definition bytes (b : t) : list byte := match inner b with Arena slot => slot | Owned data => data end.
Definition data (b : t) : list byte := take (Z.to_nat (Z.min (len b) (VideoFrame.len (bytes b)))) (bytes b).
Definition capacity (b : t) : Z := VideoFrame.len (bytes b).
(** A write through [data_mut]: [f] on the slice, which keeps its length. *)
Definition data_mut (f : list byte -> list byte) (b : t) : t :=
  let n := Z.to_nat (Z.min (len b) (VideoFrame.len (bytes b))) in
  let bs := f (take n (bytes b)) ++ drop n (bytes b) in
  b <| inner := match inner b with Arena _ => Arena bs | Owned _ => Owned bs end |>.
Definition is_empty (b : t) : bool := len b =? 0.
Definition set_format (f : PixelFormat.t) (b : t) : t := b <| format := f |>.
Definition set_len (n : Z) (b : t) : t := b <| len := Z.min n (capacity b) |>.
Definition is_arena (b : t) : bool := match inner b with Arena _ => true | Owned _ => false end.

(** [expected_size], [validate]. *)
Definition expected_size (b : t) : Z :=
  let w := width b in let h := height b in
  match format b with
  | PixelFormat.Rgb24 => usize_mul (usize_mul w h) 3
  | PixelFormat.Nv12 => usize_add (usize_mul w h) (usize_mul (usize_mul (w / 2) (h / 2)) 2)
  | PixelFormat.Yuv420p => usize_add (usize_mul w h) (usize_mul (usize_mul (w / 2) (h / 2)) 2)
  | PixelFormat.Jpeg => len b
  end.
Definition validate (b : t) : result VideoEncoderError.t unit :=
  if negb (len b =? expected_size b) && negb (bool_decide (format b = PixelFormat.Jpeg))
  then Err (VideoEncoderError.InvalidFrameData "Invalid frame buffer size")
  else if bool_decide (format b = PixelFormat.Jpeg) then
    if VideoFrame.len (data b) <? 4 then Err (VideoEncoderError.InvalidFrameData "Empty JPEG data")
    else if negb (jpeg_header (data b)) then Err (VideoEncoderError.InvalidFrameData "Invalid JPEG header")
    else Ok tt
  else Ok tt.

(** [Clone]. *)
Definition clone (b : t) : t := from_owned (data b) (format b) (width b) (height b).
End FrameBuffer.

Definition frame_format (f : PixelFormat.t) : FrameFormat.t :=
  match f with
  | PixelFormat.Rgb24 => FrameFormat.Rgb24
  | PixelFormat.Nv12 => FrameFormat.Nv12
  | PixelFormat.Yuv420p => FrameFormat.Yuv420p
  | PixelFormat.Jpeg => FrameFormat.Jpeg
  end.

Module VideoFrame.
(** [enum VideoFrameInner], [struct VideoFrame]. *)
Inductive Inner : Type := Owned (data : list byte) | Shared (buffer : FrameBuffer.t).
Record t : Type := mk { width : Z; height : Z; inner : Inner; format : FrameFormat.t }.

Definition new (width height : Z) (data : list byte) : t := mk width height (Owned data) FrameFormat.Rgb24.
Definition from_nv12 (width height : Z) (y_plane uv_plane : list byte) : t :=
  mk width height (Owned (y_plane ++ uv_plane)) FrameFormat.Nv12.
Definition from_yuv420p (width height : Z) (y_plane u_plane v_plane : list byte) : t :=
  mk width height (Owned (y_plane ++ u_plane ++ v_plane)) FrameFormat.Yuv420p.
Definition from_jpeg (width height : Z) (jpeg_data : list byte) : t := mk width height (Owned jpeg_data) FrameFormat.Jpeg.
Definition from_arc_frame_buffer (buffer : FrameBuffer.t) : t :=
  mk (FrameBuffer.width buffer) (FrameBuffer.height buffer) (Shared buffer) (frame_format (FrameBuffer.format buffer)).

Definition data (f : t) : list byte := match inner f with Owned d => d | Shared b => FrameBuffer.data b end.
Definition is_shared (f : t) : bool := match inner f with Shared _ => true | Owned _ => false end.
Definition is_jpeg (f : t) : bool := bool_decide (format f = FrameFormat.Jpeg).
Definition is_nv12 (f : t) : bool := bool_decide (format f = FrameFormat.Nv12).
Definition is_yuv420p (f : t) : bool := bool_decide (format f = FrameFormat.Yuv420p).
Definition is_rgb24 (f : t) : bool := bool_decide (format f = FrameFormat.Rgb24).

(** [data.get(..n)] and [data.get(n..)]. *)
Definition y_plane (f : t) : option (list byte) :=
  let y_size := usize_mul (width f) (height f) in
  if is_nv12 f && (y_size <=? len (data f)) then Some (take (Z.to_nat y_size) (data f)) else None.
Definition uv_plane (f : t) : option (list byte) :=
  let y_size := usize_mul (width f) (height f) in
  if is_nv12 f && (y_size <=? len (data f)) then Some (drop (Z.to_nat y_size) (data f)) else None.

(** [expected_size]: the RGB24 product is taken in [u32]. *)
Definition expected_size (f : t) : Z :=
  let w := width f in let h := height f in
  match format f with
  | FrameFormat.Rgb24 => as_u32 (as_u32 (w * h) * 3)
  | FrameFormat.Nv12 => usize_add (usize_mul w h) (usize_mul (usize_mul (w / 2) (h / 2)) 2)
  | FrameFormat.Yuv420p => usize_add (usize_mul w h) (usize_mul (usize_mul (w / 2) (h / 2)) 2)
  | FrameFormat.Jpeg => len (data f)
  end.

Definition odd_dimensions (f : t) : bool := negb (width f mod 2 =? 0) || negb (height f mod 2 =? 0).

(** [validate]. *)
Definition validate (f : t) : result VideoEncoderError.t unit :=
  let d := data f in
  match format f with
  | FrameFormat.Jpeg =>
      if len d <? 4 then Err (VideoEncoderError.InvalidFrameData "Empty JPEG data")
      else if negb (jpeg_header d) then Err (VideoEncoderError.InvalidFrameData "Invalid JPEG header")
      else Ok tt
  | FrameFormat.Rgb24 =>
      expected ← ok_or_invalid (checked_mul64 (width f) (height f) ≫= fun size => checked_mul64 size 3);
      if negb (len d =? expected) then invalid else Ok tt
  | FrameFormat.Nv12 =>
      if odd_dimensions f then invalid
      else
        y_size ← ok_or_invalid (checked_mul64 (width f) (height f));
        uv_size ← ok_or_invalid (checked_mul64 (width f / 2) (height f / 2) ≫= fun size => checked_mul64 size 2);
        expected ← ok_or_invalid (checked_add64 y_size uv_size);
        if negb (len d =? expected) then invalid else Ok tt
  | FrameFormat.Yuv420p =>
      if odd_dimensions f then invalid
      else
        y_size ← ok_or_invalid (checked_mul64 (width f) (height f));
        uv_size ← ok_or_invalid (checked_mul64 (width f / 2) (height f / 2));
        expected ← ok_or_invalid (checked_add64 y_size uv_size ≫= fun size => checked_add64 size uv_size);
        if negb (len d =? expected) then invalid else Ok tt
  end.

(** [Clone] shares a shared buffer and copies owned data. *)
Definition clone (f : t) : t := mk (width f) (height f) (inner f) (format f).
End VideoFrame.

(** [FrameBuffer::to_video_frame]. *)
Definition to_video_frame (b : FrameBuffer.t) : VideoFrame.t :=
  VideoFrame.mk (FrameBuffer.width b) (FrameBuffer.height b) (VideoFrame.Owned (FrameBuffer.data b))
    (frame_format (FrameBuffer.format b)).

Module DepthFrame.
(** [struct DepthFrame]. *)
Record t : Type := mk { width : Z; height : Z; data : list byte }.
Definition new (width height : Z) (data : list byte) : t := mk width height data.
Definition expected_size (f : t) : Z := as_u32 (as_u32 (width f * height f) * 2).
Definition validate (f : t) : result VideoEncoderError.t unit :=
  if negb (len (data f) =? expected_size f)
  then Err (VideoEncoderError.InvalidFrameData "Invalid depth frame size") else Ok tt.
End DepthFrame.

(** ** Buffers of frames of one size

    [VideoFrameBuffer] and [DepthFrameBuffer] have the same code, over the frame's
    dimensions and its [validate]. *)
Class Sized (F : Type) := {
  frame_width : F -> Z;
  frame_height : F -> Z;
  frame_validate : F -> result VideoEncoderError.t unit }.
#[global] Instance VideoFrame_sized : Sized VideoFrame.t :=
  {| frame_width := VideoFrame.width; frame_height := VideoFrame.height; frame_validate := VideoFrame.validate |}.
#[global] Instance DepthFrame_sized : Sized DepthFrame.t :=
  {| frame_width := DepthFrame.width; frame_height := DepthFrame.height; frame_validate := DepthFrame.validate |}.

Module SizedBuffer.
Section SizedBuffer.
Context {F : Type} `{Sized F}.
Record t : Type := mk { frames : list F; width : option Z; height : option Z }.

Definition new : t := mk [] None None.

(** [add_frame]: the buffer is unchanged on an error. *)
Definition add_frame (frame : F) (b : t) : result VideoEncoderError.t t :=
  _ ← frame_validate frame;
  match width b, height b with
  | Some w, Some h =>
      if negb (w =? frame_width frame) || negb (h =? frame_height frame)
      then Err VideoEncoderError.InconsistentFrameSizes
      else Ok (mk (frames b ++ [frame]) (width b) (height b))
  | None, None => Ok (mk (frames b ++ [frame]) (Some (frame_width frame)) (Some (frame_height frame)))
  | _, _ => Ok (mk (frames b ++ [frame]) (width b) (height b))
  end.
Definition len (b : t) : Z := Z.of_nat (length (frames b)).
Definition is_empty (b : t) : bool := match frames b with [] => true | _ => false end.
Definition clear (b : t) : t := mk [] None None.
Definition dimensions (b : t) : option (Z * Z) :=
  match width b, height b with Some w, Some h => Some (w, h) | _, _ => None end.
End SizedBuffer.
Arguments t : clear implicits.
End SizedBuffer.
Abbreviation VideoFrameBuffer := (SizedBuffer.t VideoFrame.t).
Abbreviation DepthFrameBuffer := (SizedBuffer.t DepthFrame.t).

(** ** Decoding (image/decode.rs) *)
Definition JPEG_MAGIC : list byte := [255; 216; 255].
Definition PNG_MAGIC : list byte := [137; 80; 78; 71; 13; 10; 26; 10].

Section Decode.
(** [decode_compressed_image(data, format).ok()], as width, height and RGB data. *)
Variable decode_compressed_image : list byte -> ImageFormat.t -> option (Z * Z * list byte).

(** [data.starts_with(prefix)]. *)
Definition has_prefix (prefix data : list byte) : bool := bool_decide (take (length prefix) data = prefix).

(** [a.or_else(b)], for the [if let] chains. *)
Definition or_else {A} (a b : option A) : option A := match a with Some x => Some x | None => b end.

(** [try_decode_payload]. *)
Definition try_decode_payload (data : list byte) : option (Z * Z * list byte) :=
  match data with
  | [] => None
  | _ =>
      or_else (if has_prefix JPEG_MAGIC data then decode_compressed_image data ImageFormat.Jpeg else None)
      (or_else (if has_prefix PNG_MAGIC data then decode_compressed_image data ImageFormat.Png else None)
      (or_else (decode_compressed_image data ImageFormat.Jpeg)
               (decode_compressed_image data ImageFormat.Png)))
  end.

(** [data.windows(n).position(pattern)]. *)
Fixpoint find_magic (pattern data : list byte) : option nat :=
  if has_prefix pattern data then Some O
  else match data with [] => None | _ :: data' => S <$> find_magic pattern data' end.

(** [decode_image_to_rgb]. *)
Definition decode_image_to_rgb (img : ImageData.t) : option (Z * Z * list byte) :=
  let data := ImageData.data img in
  or_else (try_decode_payload data)
  (or_else (if 8 <? len data then try_decode_payload (drop 8 data) else None)
  (or_else (if 4 <? len data then try_decode_payload (drop 4 data) else None)
  (if 4 <? len data then
     or_else (find_magic JPEG_MAGIC data ≫= fun pos => try_decode_payload (drop pos data))
             (find_magic [137; 80; 78; 71] data ≫= fun pos => try_decode_payload (drop pos data))
   else None))).

(** [decode_to_rgb]. *)
Definition decode_to_rgb (img : ImageData.t) : option (Z * Z * list byte) :=
  if ImageData.is_encoded img then decode_image_to_rgb img
  else Some (ImageData.width img, ImageData.height img, ImageData.data img).

(** ** Images to frames (video/dataset_encode.rs) *)

(** What the parallel [map] of [build_frame_buffer_static] makes of an image:
    [Ok(None)] and [Err(())] are both skipped. *)
Definition decoded (img : ImageData.t) : result unit (option (Z * Z * list byte)) :=
  if (ImageData.width img =? 0) || (ImageData.height img =? 0) then Ok None
  else if ImageData.is_encoded img then
    match decode_image_to_rgb img with Some r => Ok (Some r) | None => Err tt end
  else Ok (Some (ImageData.width img, ImageData.height img, ImageData.data img)).

(** [buffer.add_frame(VideoFrame::new(...)).is_err()] and the count of skipped images. *)
Definition add_or_skip (img : Z * Z * list byte) (s : VideoFrameBuffer * Z) : VideoFrameBuffer * Z :=
  let '(width, height, rgb_data) := img in
  match SizedBuffer.add_frame (VideoFrame.new width height rgb_data) s.1 with
  | Ok buffer => (buffer, s.2)
  | _ => (s.1, u64_add s.2 1)
  end.

Fixpoint collect_decoded (results : list (result unit (option (Z * Z * list byte)))) (s : VideoFrameBuffer * Z)
  : VideoFrameBuffer * Z :=
  match results with
  | [] => s
  | Ok (Some img) :: results' => collect_decoded results' (add_or_skip img s)
  | _ :: results' => collect_decoded results' (s.1, u64_add s.2 1)
  end.

Fixpoint collect_images (images : list ImageData.t) (s : VideoFrameBuffer * Z) : VideoFrameBuffer * Z :=
  match images with
  | [] => s
  | img :: images' =>
      if (ImageData.width img =? 0) || (ImageData.height img =? 0) then collect_images images' (s.1, u64_add s.2 1)
      else
        let prepared := if ImageData.is_encoded img then decode_image_to_rgb img
                        else Some (ImageData.width img, ImageData.height img, ImageData.data img) in
        match prepared with
        | Some r => collect_images images' (add_or_skip r s)
        | None => collect_images images' (s.1, u64_add s.2 1)
        end
  end.

(** [build_frame_buffer_static], with the number of rayon's threads. *)
Definition build_frame_buffer_static (num_threads : Z) (images : list ImageData.t) : VideoFrameBuffer * Z :=
  let encoded_count := Z.of_nat (length (List.filter ImageData.is_encoded images)) in
  if (10 <? encoded_count) && (1 <? num_threads)
  then collect_decoded (decoded <$> images) (SizedBuffer.new, 0)
  else collect_images images (SizedBuffer.new, 0).
End Decode.

(** ** Validation *)
Definition even (n : Z) : Prop := n mod 2 = 0.

(** What a frame of each format has to be. *)
Definition well_formed (f : VideoFrame.t) : Prop :=
  let w := VideoFrame.width f in let h := VideoFrame.height f in let d := VideoFrame.data f in
  match VideoFrame.format f with
  | FrameFormat.Rgb24 => len d = w * h * 3
  | FrameFormat.Nv12 | FrameFormat.Yuv420p => even w /\ even h /\ 2 * len d = 3 * (w * h)
  | FrameFormat.Jpeg => 4 <= len d /\ jpeg_header d = true
  end.

Lemma checked_mul64_small a b : a * b <= u64_max -> checked_mul64 a b = Some (a * b).
Proof. unfold checked_mul64. intros. by rewrite (proj2 (Z.leb_le _ _)). Qed.
Lemma checked_add64_small a b : a + b <= u64_max -> checked_add64 a b = Some (a + b).
Proof. unfold checked_add64. intros. by rewrite (proj2 (Z.leb_le _ _)). Qed.
Lemma checked_add64_twice a b : 0 <= b ->
  (checked_add64 a b ≫= fun s => checked_add64 s b) = if a + b + b <=? u64_max then Some (a + b + b) else None.
Proof.
  intros. unfold checked_add64. destruct (Z.leb_spec (a + b) u64_max); [done|].
  destruct (Z.leb_spec (a + b + b) u64_max); [lia|done].
Qed.

Lemma size_check d n : (if negb (len d =? n) then invalid else Ok tt) = Ok tt <-> len d = n.
Proof. destruct (Z.eqb_spec (len d) n); cbn; split; done. Qed.
Lemma odd_dimensions_spec f : VideoFrame.odd_dimensions f = false <-> even (VideoFrame.width f) /\ even (VideoFrame.height f).
Proof.
  unfold VideoFrame.odd_dimensions, even.
  destruct (Z.eqb_spec (VideoFrame.width f mod 2) 0), (Z.eqb_spec (VideoFrame.height f mod 2) 0); cbn; split; naive_solver.
Qed.

(** The chroma planes are half of the luma plane. *)
Lemma half_area w h : even w -> even h -> 0 <= w -> 0 <= h -> 4 * (w / 2 * (h / 2)) = w * h /\ 0 <= w / 2 * (h / 2).
Proof.
  unfold even. intros Hw Hh Pw Ph. apply Z_div_exact_full_2 in Hw, Hh; [|done..].
  assert (0 <= w / 2) by (apply Z.div_pos; lia). assert (0 <= h / 2) by (apply Z.div_pos; lia). split; nia.
Qed.

(** [validate] accepts exactly the well-formed frames.  For every frame whose dimensions
    are [u32] values and whose data fits in memory: RGB24 data has three bytes a pixel; NV12
    and YUV420P frames have even dimensions and one and a half bytes a pixel; JPEG data has
    at least four bytes and starts with the marker. *)
Theorem validate_iff_well_formed f :
  is_u32 (VideoFrame.width f) -> is_u32 (VideoFrame.height f) -> len (VideoFrame.data f) <= u64_max ->
  VideoFrame.validate f = Ok tt <-> well_formed f.
Proof.
  unfold is_u32, VideoFrame.validate, well_formed. set (w := VideoFrame.width f). set (h := VideoFrame.height f).
  set (d := VideoFrame.data f). intros Hw Hh Hd.
  assert (Ha : 0 <= w * h <= u64_max) by (unfold u64_max, u64_mod, u32_mod in *; nia).
  assert (Hyuv : even w -> even h -> let q := w / 2 * (h / 2) in 4 * q = w * h /\ 0 <= q).
  { intros. apply half_area; (done || lia). }
  destruct (VideoFrame.format f).
  - rewrite checked_mul64_small by lia. cbn. unfold checked_mul64.
    destruct (Z.leb_spec (w * h * 3) u64_max); cbn; [apply size_check|]. split; [done|lia].
  - destruct (VideoFrame.odd_dimensions f) eqn:Eo.
    { split; [done|]. intros (? & ? & _). by rewrite (proj2 (odd_dimensions_spec f)) in Eo. }
    apply odd_dimensions_spec in Eo as [Ew Eh]. destruct (Hyuv Ew Eh) as [Hq Hp].
    rewrite checked_mul64_small by lia. cbn. rewrite checked_mul64_small by lia. cbn. rewrite checked_mul64_small by lia. cbn.
    unfold checked_add64. destruct (Z.leb_spec (w * h + w / 2 * (h / 2) * 2) u64_max); cbn.
    + rewrite size_check. fold w h in Ew, Eh. split; [intros; repeat split; try done; lia|intros (_ & _ & ?); lia].
    + split; [done|intros (_ & _ & ?); lia].
  - destruct (VideoFrame.odd_dimensions f) eqn:Eo.
    { split; [done|]. intros (? & ? & _). by rewrite (proj2 (odd_dimensions_spec f)) in Eo. }
    apply odd_dimensions_spec in Eo as [Ew Eh]. destruct (Hyuv Ew Eh) as [Hq Hp].
    rewrite checked_mul64_small by lia. cbn. rewrite checked_mul64_small by lia. cbn.
    rewrite checked_add64_twice by done. destruct (Z.leb_spec (w * h + w / 2 * (h / 2) + w / 2 * (h / 2)) u64_max); cbn.
    + rewrite size_check. fold w h in Ew, Eh. split; [intros; repeat split; try done; lia|intros (_ & _ & ?); lia].
    + split; [done|intros (_ & _ & ?); lia].
  - destruct (Z.ltb_spec (len d) 4); cbn; [split; [done|lia]|]. destruct (jpeg_header d); cbn; split; naive_solver.
Qed.

Lemma validate_iff_well_formed_witness :
  let f := VideoFrame.from_nv12 2 2 [16; 16; 16; 16] [128; 128] in
  well_formed f /\ VideoFrame.validate (VideoFrame.from_nv12 2 2 [16; 16; 16; 16] [128]) <> Ok tt.
Proof.
  split.
  - apply validate_iff_well_formed; [split; [done|reflexivity]..|done|reflexivity].
  - rewrite validate_iff_well_formed; [|split; [done|reflexivity]..|done].
    intros (_ & _ & E). vm_compute in E. done.
Defined.

(** The size a depth frame has to have is taken modulo [2^32]. *)
Theorem huge_depth_frame_valid : DepthFrame.validate (DepthFrame.new 65536 65536 []) = Ok tt.
Proof. reflexivity. Qed.
(** An RGB24 frame that is valid need not have its [expected_size]. *)
Theorem expected_size_wraps f :
  VideoFrame.width f = 65536 -> VideoFrame.height f = 65536 -> VideoFrame.format f = FrameFormat.Rgb24 ->
  VideoFrame.expected_size f = 0.
Proof. intros Hw Hh Hf. unfold VideoFrame.expected_size. by rewrite Hf, Hw, Hh. Qed.

(** ** Buffers hold valid frames of one size *)
Section Buffers.
Context {F : Type} `{Sized F}.

Inductive BufferOp : Type := Add (frame : F) | Clear.
Definition buffer_step (op : BufferOp) (b : SizedBuffer.t F) : SizedBuffer.t F :=
  match op with
  | Add f => match SizedBuffer.add_frame f b with Ok b' => b' | _ => b end
  | Clear => SizedBuffer.clear b
  end.

Record uniform (b : SizedBuffer.t F) : Prop := {
  un_dimensions : match SizedBuffer.dimensions b with
                  | Some (w, h) => Forall (fun f => frame_width f = w /\ frame_height f = h) (SizedBuffer.frames b)
                  | None => b = SizedBuffer.new
                  end;
  un_valid : Forall (fun f => frame_validate f = Ok tt) (SizedBuffer.frames b) }.

Lemma uniform_new : uniform SizedBuffer.new.
Proof. by split. Qed.
Lemma uniform_add f b b' : uniform b -> SizedBuffer.add_frame f b = Ok b' -> uniform b'.
Proof.
  intros [Hd Hv] E. unfold SizedBuffer.add_frame, mbind, result_bind in E.
  destruct (frame_validate f) as [[]|e|m] eqn:Ef; [|done..].
  destruct b as [fs [w|] [h|]]; cbn in *; try discriminate Hd.
  - destruct (Z.eqb_spec w (frame_width f)), (Z.eqb_spec h (frame_height f)); cbn in E; simplify_eq.
    split; cbn; apply Forall_app; by repeat constructor.
  - simplify_eq. injection Hd as ->. split; cbn; by repeat constructor.
Qed.

(** A frame buffer holds valid frames of one size.  After any sequence of [add_frame] and
    [clear] from a new buffer, every buffered frame passed [validate], and all have the
    dimensions the buffer reports; it reports none only when it is empty. *)
Theorem buffer_stays_uniform ops : uniform (foldl (fun b op => buffer_step op b) SizedBuffer.new ops).
Proof.
  induction ops as [|op ops IH] using rev_ind; [exact uniform_new|]. rewrite foldl_app. cbn.
  set (b := foldl _ _ ops) in *. destruct op as [f|]; cbn; [|exact uniform_new].
  destruct (SizedBuffer.add_frame f b) eqn:E; [by eapply uniform_add|done..].
Qed.

(** A frame is refused exactly when it is invalid or of another size. *)
Lemma add_frame_outcome f b : uniform b ->
  is_Ok (SizedBuffer.add_frame f b)
  = is_Ok (frame_validate f) &&
    match SizedBuffer.dimensions b with Some (w, h) => (w =? frame_width f) && (h =? frame_height f) | None => true end.
Proof.
  intros [Hd _]. unfold SizedBuffer.add_frame, mbind, result_bind. destruct (frame_validate f) as [u|e|m]; [|done..].
  destruct b as [fs [w|] [h|]]; cbn in *; try done. by destruct (w =? frame_width f), (h =? frame_height f).
Qed.
Lemma add_frame_len f b b' : SizedBuffer.add_frame f b = Ok b' -> SizedBuffer.frames b' = SizedBuffer.frames b ++ [f].
Proof. unfold SizedBuffer.add_frame, mbind, result_bind. intros. repeat case_match; by simplify_eq. Qed.
End Buffers.

(** ** Preparing images *)
Section Prepare.
Variable decode : list byte -> ImageFormat.t -> option (Z * Z * list byte).

(** The image a payload decodes to comes from a decoder, on the payload itself. *)
Lemma payload_from_decoder data r : try_decode_payload decode data = Some r -> exists fmt, decode data fmt = Some r.
Proof. unfold try_decode_payload, or_else. intros. repeat case_match; simplify_eq; eauto. Qed.

(** A decoded image is the decoding of part of the data.  What [decode_image_to_rgb] returns
    for an image is what the JPEG or the PNG decoder makes of the data from some position on;
    and it returns something whenever a decoder accepts the whole data, the data after an
    8-byte or a 4-byte header, or the data from the first JPEG or PNG marker on. *)
Theorem decode_image_outcome img :
  match decode_image_to_rgb decode img with
  | Some r => exists pos fmt, decode (drop pos (ImageData.data img)) fmt = Some r
  | None => forall pos fmt,
      (pos = O \/ pos = 8%nat \/ pos = 4%nat \/ find_magic JPEG_MAGIC (ImageData.data img) = Some pos
       \/ find_magic [137; 80; 78; 71] (ImageData.data img) = Some pos) ->
      (fmt = ImageFormat.Jpeg \/ fmt = ImageFormat.Png) ->
      4 < len (ImageData.data img) -> (pos < length (ImageData.data img))%nat ->
      decode (drop pos (ImageData.data img)) fmt = None
  end.
Proof.
  assert (Hpos : forall d r, try_decode_payload decode d = Some r ->
    forall pos, d = drop pos (ImageData.data img) -> exists pos fmt, decode (drop pos (ImageData.data img)) fmt = Some r).
  { intros d r Hr pos ->. destruct (payload_from_decoder _ _ Hr) as [fmt Hf]. eauto. }
  assert (Hnone : forall d fmt, try_decode_payload decode d = None -> (0 < length d)%nat ->
    (fmt = ImageFormat.Jpeg \/ fmt = ImageFormat.Png) -> decode d fmt = None).
  { intros d fmt Hd Hl Hf. unfold try_decode_payload, or_else in Hd. destruct d as [|x d]; [cbn in Hl; lia|].
    repeat case_match; simplify_eq; naive_solver. }
  unfold decode_image_to_rgb, or_else. set (d := ImageData.data img) in *.
  destruct (try_decode_payload decode d) as [r|] eqn:E0; [by eapply (Hpos _ _ E0 O)|].
  destruct (if 8 <? len d then try_decode_payload decode (drop 8 d) else None) as [r|] eqn:E8.
  { destruct (8 <? len d); [|done]. by eapply (Hpos _ _ E8 8%nat). }
  destruct (if 4 <? len d then try_decode_payload decode (drop 4 d) else None) as [r|] eqn:E4.
  { destruct (4 <? len d); [|done]. by eapply (Hpos _ _ E4 4%nat). }
  destruct (Z.ltb_spec 4 (len d)); [|intros; lia].
  destruct (find_magic JPEG_MAGIC d ≫= _) as [r|] eqn:Ej.
  { destruct (find_magic JPEG_MAGIC d) as [pos|]; [|done]. by eapply (Hpos _ _ Ej pos). }
  destruct (find_magic [137; 80; 78; 71] d ≫= _) as [r|] eqn:Ep.
  { destruct (find_magic [137; 80; 78; 71] d) as [pos|]; [|done]. by eapply (Hpos _ _ Ep pos). }
  intros pos fmt Hw Hf _ Hl. assert (Hlen : (0 < length (drop pos d))%nat) by (rewrite length_drop; lia).
  apply Hnone; [|done..]. destruct Hw as [->|[->|[->|[Hm|Hm]]]]; [done| |done|by rewrite Hm in Ej|by rewrite Hm in Ep].
  unfold len in *. destruct (Z.ltb_spec 8 (Z.of_nat (length d))); [done|lia].
Qed.

Lemma collect_agree images s :
  collect_decoded (decoded decode <$> images) s = collect_images decode images s.
Proof.
  revert s. induction images as [|img images IH]; intros s; [done|]. cbn [fmap list_fmap collect_decoded collect_images].
  unfold decoded at 1. destruct (_ || _); [apply IH|].
  destruct (ImageData.is_encoded img); [|apply IH]. destruct (decode_image_to_rgb decode img); apply IH.
Qed.

(** Frames and skipped images so far. *)
Definition accounted (s : VideoFrameBuffer * Z) (n : Z) : Prop :=
  uniform s.1 /\ 0 <= s.2 /\ SizedBuffer.len s.1 + s.2 = n.
Lemma accounted_skip s n : accounted s n -> n < u64_max -> accounted (s.1, u64_add s.2 1) (n + 1).
Proof.
  unfold accounted, SizedBuffer.len, u64_max. cbn [fst snd]. intros (Hu & Hs & Hn) Hb.
  rewrite u64_add_small by lia. split; [done|lia].
Qed.
Lemma accounted_frame img s n : accounted s n -> n < u64_max -> accounted (add_or_skip img s) (n + 1).
Proof.
  intros Ha Hb. destruct img as [[w h] d]. unfold add_or_skip.
  destruct (SizedBuffer.add_frame _ _) as [b|e|m] eqn:E; [|by apply accounted_skip..].
  destruct Ha as (Hu & Hs & Hn). split; [by eapply uniform_add|]. split; [done|]. unfold SizedBuffer.len in *. cbn [fst snd].
  rewrite (add_frame_len _ _ _ E), length_app. cbn [length]. lia.
Qed.
Lemma accounted_collect images s n : accounted s n -> n + Z.of_nat (length images) <= u64_max ->
  accounted (collect_images decode images s) (n + Z.of_nat (length images)).
Proof.
  revert s n. induction images as [|img images IH]; intros s n Ha Hb; cbn [length collect_images] in *.
  { by rewrite Z.add_0_r. }
  replace (n + Z.of_nat (S (length images))) with ((n + 1) + Z.of_nat (length images)) by lia.
  assert (Hn : n < u64_max) by lia. assert (Hb' : n + 1 + Z.of_nat (length images) <= u64_max) by lia.
  destruct (_ || _); [apply IH; [by apply accounted_skip|done]|].
  destruct (if ImageData.is_encoded img then _ else _); (apply IH; [|done]); [by apply accounted_frame|by apply accounted_skip].
Qed.

(** Preparing images gives the same frames with one thread and with many, and loses none:
    the buffer that [build_frame_buffer_static] makes does not depend on the number of
    threads, holds valid frames of one size, and its frames and the skipped images together
    are all the images. *)
Theorem frame_buffer_accounts_images threads images : Z.of_nat (length images) <= u64_max ->
  let '(buffer, skipped) := build_frame_buffer_static decode threads images in
  (forall threads', build_frame_buffer_static decode threads' images = (buffer, skipped))
  /\ uniform buffer /\ SizedBuffer.len buffer + skipped = Z.of_nat (length images).
Proof.
  intros Hl. assert (Hb : forall n, build_frame_buffer_static decode n images = collect_images decode images (SizedBuffer.new, 0)).
  { intros n. unfold build_frame_buffer_static. destruct (_ && _); [apply collect_agree|done]. }
  rewrite Hb. pose proof (accounted_collect images (SizedBuffer.new, 0) 0 ltac:(split; [exact uniform_new|done]) Hl) as (Hu & Hs & Hn).
  destruct (collect_images _ _ _) as [b k]. done.
Qed.

End Prepare.

(** Two raw images of a size, one of another, one without dimensions. *)
Definition two_by_one (d : list byte) : ImageData.t := ImageData.new 2 1 d.
Definition sample_images : list ImageData.t :=
  [two_by_one [1; 2; 3; 4; 5; 6]; two_by_one [6; 5; 4; 3; 2; 1]; ImageData.new 1 1 [9; 9; 9]; ImageData.encoded 0 0 []].
Lemma frame_buffer_accounts_images_witness :
  (build_frame_buffer_static (fun _ _ => None) 4 sample_images).2 = 2
  /\ SizedBuffer.len (build_frame_buffer_static (fun _ _ => None) 4 sample_images).1 + 2 = 4.
Proof.
  pose proof (frame_buffer_accounts_images (fun _ _ => None) 4 sample_images ltac:(vm_compute; discriminate)) as H.
  destruct (build_frame_buffer_static (fun _ _ => None) 4 sample_images) as [b k] eqn:E.
  assert (Hk : k = 2) by (vm_compute in E; injection E; auto). subst k. split; [done|]. apply H.
Defined.
