(* ===== verification/Convert.v ===== *)
(** * The colour conversion stage (crates/roboflow-media/src/video/convert.rs)

    Converters over the conversions of simd/mod.rs, with or without reuse of the frame's
    buffer, and what a worker of the convert pool makes of a command; the queues of the pool
    are in WorkerPool.v.  [Arc::try_unwrap] succeeds when the buffer has one owner, a field of
    the decoded frame here. *)
From S2P Require Import Prelude Image Color VideoFrame.
#[local] Open Scope Z_scope.

(** [io::Error]: the text of a conversion error, or of the worker's own. *)
Inductive ConvertError : Type := Conversion (e : stop) | Failed (msg : string).
Abbreviation io := (result ConvertError).

Module DecodedFrame.
(** [struct DecodedFrame] (decode.rs): the buffer, and whether it has one owner. *)
Record t : Type := mk { buffer : FrameBuffer.t; exclusive : bool }.
Definition new (b : FrameBuffer.t) : t := mk b true.
Definition from_arc (b : FrameBuffer.t) (exclusive : bool) : t := mk b exclusive.
Definition width (f : t) : Z := FrameBuffer.width (buffer f).
Definition height (f : t) : Z := FrameBuffer.height (buffer f).
Definition data (f : t) : list byte := FrameBuffer.data (buffer f).
Definition into_buffer (f : t) : FrameBuffer.t := buffer f.
End DecodedFrame.

(** [enum FrameData]. *)
Inductive FrameData : Type :=
| Nv12 (y_plane uv_plane : list byte)
| Yuv420p (y_plane u_plane v_plane : list byte).

Module ConvertedFrame.
(** [struct ConvertedFrame]. *)
Record t : Type := mk { width : Z; height : Z; format : FrameFormat.t; data : FrameData }.
Definition to_video_frame (f : t) : VideoFrame.t :=
  match data f with
  | Nv12 y uv => VideoFrame.from_nv12 (width f) (height f) y uv
  | Yuv420p y u v => VideoFrame.from_yuv420p (width f) (height f) y u v
  end.
End ConvertedFrame.

Module ConvertedFrameZeroCopy.
(** [enum ConvertedFrameZeroCopy]. *)
Inductive t : Type := InPlace (buffer : FrameBuffer.t) | Owned (frame : ConvertedFrame.t) (width height : Z).
Definition to_video_frame (f : t) : VideoFrame.t :=
  match f with
  | InPlace b => VideoFrame.from_arc_frame_buffer b
  | Owned frame _ _ => ConvertedFrame.to_video_frame frame
  end.
End ConvertedFrameZeroCopy.

Module TargetFormat.
(** [enum TargetFormat]. *)
Inductive t : Type := Nv12 | Yuv420p.
Definition default : t := Nv12.
End TargetFormat.

(** The two counters: frames converted, frames failed. *)
Abbreviation Counts := (Z * Z)%type.

Section Converter.
Context (arch : ConversionStrategy.Arch).

(** [SimdNv12Converter]. *)
Definition nv12_convert (frame : DecodedFrame.t) : io ConvertedFrame.t :=
  '(y_plane, uv_plane) ← map_err Conversion
     (simd.rgb_to_nv12 arch (DecodedFrame.data frame) (DecodedFrame.width frame) (DecodedFrame.height frame));
  Ok (ConvertedFrame.mk (DecodedFrame.width frame) (DecodedFrame.height frame) FrameFormat.Nv12 (Nv12 y_plane uv_plane)).

Definition nv12_allocated (buffer : FrameBuffer.t) (width height : Z) : io ConvertedFrameZeroCopy.t :=
  '(y_plane, uv_plane) ← map_err Conversion (simd.rgb_to_nv12 arch (FrameBuffer.data buffer) width height);
  Ok (ConvertedFrameZeroCopy.InPlace (FrameBuffer.from_owned (y_plane ++ uv_plane) PixelFormat.Nv12 width height)).

Definition nv12_convert_zero_copy (frame : DecodedFrame.t) : io ConvertedFrameZeroCopy.t :=
  let width := DecodedFrame.width frame in
  let height := DecodedFrame.height frame in
  let buffer := DecodedFrame.into_buffer frame in
  if bool_decide (FrameBuffer.format buffer = PixelFormat.Rgb24) && DecodedFrame.exclusive frame then
    '(new_len, slice) ← map_err Conversion (simd.rgb_to_nv12_in_place arch (FrameBuffer.data buffer) width height);
    Ok (ConvertedFrameZeroCopy.InPlace
          (FrameBuffer.set_len new_len (FrameBuffer.set_format PixelFormat.Nv12 (FrameBuffer.data_mut (fun _ => slice) buffer))))
  else nv12_allocated buffer width height.

(** [SimdYuv420pConverter]. *)
Definition yuv420p_convert (frame : DecodedFrame.t) : io ConvertedFrame.t :=
  '(y_plane, u_plane, v_plane) ← map_err Conversion
     (simd.rgb_to_yuv420p arch (DecodedFrame.data frame) (DecodedFrame.width frame) (DecodedFrame.height frame));
  Ok (ConvertedFrame.mk (DecodedFrame.width frame) (DecodedFrame.height frame) FrameFormat.Yuv420p (Yuv420p y_plane u_plane v_plane)).
Definition yuv420p_convert_zero_copy (frame : DecodedFrame.t) : io ConvertedFrameZeroCopy.t :=
  let width := DecodedFrame.width frame in
  let height := DecodedFrame.height frame in
  '(y_plane, u_plane, v_plane) ← map_err Conversion
     (simd.rgb_to_yuv420p arch (FrameBuffer.data (DecodedFrame.into_buffer frame)) width height);
  Ok (ConvertedFrameZeroCopy.InPlace (FrameBuffer.from_owned (y_plane ++ u_plane ++ v_plane) PixelFormat.Yuv420p width height)).

(** [dyn ColorSpaceConverter]. *)
Definition convert (target : TargetFormat.t) : DecodedFrame.t -> io ConvertedFrame.t :=
  match target with TargetFormat.Nv12 => nv12_convert | TargetFormat.Yuv420p => yuv420p_convert end.
Definition convert_zero_copy (target : TargetFormat.t) : DecodedFrame.t -> io ConvertedFrameZeroCopy.t :=
  match target with TargetFormat.Nv12 => nv12_convert_zero_copy | TargetFormat.Yuv420p => yuv420p_convert_zero_copy end.

(** ** A command of the pool *)
Record ConvertCommand : Type := mkCommand { sequence : Z; camera_id : string; frames : list DecodedFrame.t }.
Record ConvertResult : Type := mkResult {
  res_sequence : Z; res_camera_id : string; res_frames : io (list ConvertedFrameZeroCopy.t) }.
(** [ConvertResult::to_video_frames]. *)
Definition to_video_frames (r : ConvertResult) : io (list VideoFrame.t) :=
  match res_frames r with
  | Ok frames => Ok (ConvertedFrameZeroCopy.to_video_frame <$> frames)
  | Err e => Err e
  | Panic m => Panic m
  end.

(** The per-frame loop: the frames converted so far, whether all were, and the counters.
    [None] is a panic of the thread. *)
Fixpoint convert_each (f : DecodedFrame.t -> io ConvertedFrameZeroCopy.t) (frames : list DecodedFrame.t)
  (done : list ConvertedFrameZeroCopy.t) (c : Counts) : panics (list ConvertedFrameZeroCopy.t * bool * Counts) :=
  match frames with
  | [] => Ok (done, true, c)
  | frame :: frames' =>
      match f frame with
      | Ok converted => convert_each f frames' (done ++ [converted]) (u64_add c.1 1, c.2)
      | Err _ => Ok (done, false, (c.1, u64_add c.2 1))
      | Panic m => Panic m
      end
  end.

Definition same_dimensions (frames : list DecodedFrame.t) : bool :=
  match frames with
  | [] => true
  | f0 :: _ => forallb (fun f => (DecodedFrame.width f =? DecodedFrame.width f0) && (DecodedFrame.height f =? DecodedFrame.height f0)) frames
  end.

Definition batch_frames (width height : Z) (planes : list (Plane * Plane)) : list ConvertedFrameZeroCopy.t :=
  (fun '(y, uv) => ConvertedFrameZeroCopy.InPlace (FrameBuffer.from_owned (y ++ uv) PixelFormat.Nv12 width height)) <$> planes.

Definition convert_frames (target : TargetFormat.t) (zero_copy : bool) (frames : list DecodedFrame.t) (c : Counts)
  : panics (list ConvertedFrameZeroCopy.t * bool * Counts) :=
  match frames, target with
  | f0 :: _ :: _, TargetFormat.Nv12 =>
      if zero_copy then
        let width := DecodedFrame.width f0 in
        let height := DecodedFrame.height f0 in
        if same_dimensions frames then
          match simd.rgb_batch_to_nv12 arch (DecodedFrame.data <$> frames) width height with
          | Ok batch_result =>
              Ok (batch_frames width height batch_result, true, (as_u64 (c.1 + Z.of_nat (length batch_result)), c.2))
          | Err _ => convert_each (convert_zero_copy target) frames [] c
          | Panic m => Panic m
          end
        else convert_each (convert_zero_copy target) frames [] c
      else
        convert_each (fun frame => converted ← convert target frame;
          Ok (ConvertedFrameZeroCopy.Owned converted (DecodedFrame.width frame) (DecodedFrame.height frame))) frames [] c
  | _, _ =>
      convert_each (fun frame =>
        if zero_copy then convert_zero_copy target frame
        else converted ← convert target frame;
             Ok (ConvertedFrameZeroCopy.Owned converted (DecodedFrame.width frame) (DecodedFrame.height frame))) frames [] c
  end.

(** One turn of [convert_worker_loop]. *)
Definition process_command (target : TargetFormat.t) (zero_copy : bool) (cmd : ConvertCommand) (c : Counts)
  : panics (ConvertResult * Counts) :=
  '(converted_frames, all_ok, c) ← convert_frames target zero_copy (frames cmd) c;
  Ok (mkResult (sequence cmd) (camera_id cmd)
        (if (all_ok : bool) then Ok converted_frames else Err (Failed "Frame conversion failed")), c).
End Converter.

(** ** Every path gives the same picture *)
Section Paths.
Context (arch : ConversionStrategy.Arch).

(** The bytes a frame converts to on the processor [arch]: the luma plane, then the chroma planes with the
    rounding of that processor's code. *)
Definition picture (target : TargetFormat.t) (d : list byte) (w h : Z) : list byte :=
  match target with
  | TargetFormat.Nv12 => y_table d w h ++ uv_table (mean arch) d w h
  | TargetFormat.Yuv420p =>
      y_table d w h ++ chroma_table (mean arch) chroma_u d w h ++ chroma_table (mean arch) chroma_v d w h
  end.
Definition target_format (target : TargetFormat.t) : FrameFormat.t :=
  match target with TargetFormat.Nv12 => FrameFormat.Nv12 | TargetFormat.Yuv420p => FrameFormat.Yuv420p end.

(** A decoded RGB frame with [u32] dimensions whose length is that of its data. *)
Record convertible (f : DecodedFrame.t) : Prop := {
  cv_format : FrameBuffer.format (DecodedFrame.buffer f) = PixelFormat.Rgb24;
  cv_width : is_u32 (DecodedFrame.width f);
  cv_height : is_u32 (DecodedFrame.height f);
  cv_image : image (DecodedFrame.data f) (DecodedFrame.width f) (DecodedFrame.height f) }.

(** The frame to encode shows the decoded frame. *)
Record shows (target : TargetFormat.t) (f : DecodedFrame.t) (v : VideoFrame.t) : Prop := {
  sh_width : VideoFrame.width v = DecodedFrame.width f;
  sh_height : VideoFrame.height v = DecodedFrame.height f;
  sh_format : VideoFrame.format v = target_format target;
  sh_data : VideoFrame.data v = picture target (DecodedFrame.data f) (DecodedFrame.width f) (DecodedFrame.height f) }.

(** What the scalar code makes of the same frame: the same luma, and chroma within one. *)
Definition near_scalar (target : TargetFormat.t) (d : list byte) (w h : Z) (data : list byte) : Prop :=
  match target with
  | TargetFormat.Nv12 => exists y uv uv',
      scalar.rgb_to_nv12_scalar d w h (zeroes (w * h), zeroes (w / 2 * (h / 2) * 2)) = Ok (y, uv) /\ data = y ++ uv' /\ close uv' uv
  | TargetFormat.Yuv420p => exists y u v u' v',
      scalar.rgb_to_yuv420p_scalar d w h (zeroes (w * h), zeroes (w / 2 * (h / 2)), zeroes (w / 2 * (h / 2))) = Ok (y, u, v) /\
      data = y ++ u' ++ v' /\ close u' u /\ close v' v
  end.

Lemma picture_near_scalar target d w h : image d w h -> near_scalar target d w h (picture target d w h).
Proof.
  intros Him. pose proof (halves Him). pose proof (dims_le Him). assert (1 < w) by lia.
  destruct target; cbn [near_scalar picture].
  - do 3 eexists. split_and!; [apply (scalar_nv12 Him)|done|]. apply table_Forall2; [lia|]. intros. apply (means_close arch ConversionStrategy.OtherArch).
  - do 5 eexists. split_and!; [apply (scalar_yuv420p Him)|done|apply (chroma_close arch ConversionStrategy.OtherArch)..]; done.
Qed.

Lemma picture_len target d w h : image d w h -> 2 * len (picture target d w h) = 3 * (w * h).
Proof.
  intros Him. pose proof (halves Him) as [Hw Hh]. pose proof (dims_le Him) as (_ & _ & _ & Pw & Ph).
  assert (Pw2 : 0 <= w / 2) by (apply Z.div_pos; lia). assert (Ph2 : 0 <= h / 2) by (apply Z.div_pos; lia).
  unfold picture, len. destruct target; rewrite !length_app, !Nat2Z.inj_add; unfold y_table, uv_table, chroma_table;
    rewrite !length_table by nia; nia.
Qed.
Lemma shown_valid target f v : convertible f -> shows target f v -> VideoFrame.validate v = Ok tt.
Proof.
  intros [_ Hw Hh Him] [Ew Eh Ef Ed]. pose proof (picture_len target _ _ _ Him) as Hl.
  pose proof (dims_le Him) as (_ & _ & Hfit & Pw & Ph).
  apply validate_iff_well_formed; rewrite ?Ew, ?Eh; try done; [rewrite Ed; unfold u64_max; nia|].
  unfold well_formed. rewrite Ef, Ew, Eh, Ed. destruct Him. destruct target; by repeat split.
Qed.

Lemma from_owned_data d p w h : FrameBuffer.data (FrameBuffer.from_owned d p w h) = d.
Proof. unfold FrameBuffer.data, FrameBuffer.bytes; cbn. unfold len. rewrite Z.min_id, Nat2Z.id. by rewrite take_ge. Qed.
(** The data of a buffer that was rewritten in place. *)
Lemma in_place_data b s k p : 0 <= k <= Z.of_nat (length s) ->
  FrameBuffer.data (FrameBuffer.set_len k (FrameBuffer.set_format p (FrameBuffer.data_mut (fun _ => s) b))) = take (Z.to_nat k) s.
Proof.
  assert (Ht : forall (l : list byte), 0 <= k <= Z.of_nat (length s) ->
    take (Z.to_nat (Z.min (Z.min k (len (s ++ l))) (len (s ++ l)))) (s ++ l) = take (Z.to_nat k) s).
  { intros l Hl. unfold len. rewrite length_app. rewrite Z.min_l, Z.min_l by lia. by rewrite take_app_le by lia. }
  intros Hk. destruct b as [[d|d] fm w h l]; exact (Ht _ Hk).
Qed.
#[local] Abbreviation width_of := DecodedFrame.width.
#[local] Abbreviation height_of := DecodedFrame.height.

(** One frame, by each method. *)
Lemma convert_shows target f : convertible f ->
  exists z, convert arch target f = Ok z /\ shows target f (ConvertedFrame.to_video_frame z).
Proof.
  intros [_ _ _ Him]. destruct target; cbn [convert]; unfold nv12_convert, yuv420p_convert.
  - rewrite (nv12_ok Him). eexists. by repeat split.
  - rewrite (yuv420p_ok Him). eexists. by repeat split.
Qed.
Lemma zero_copy_shows target f : convertible f ->
  exists z, convert_zero_copy arch target f = Ok z /\ shows target f (ConvertedFrameZeroCopy.to_video_frame z).
Proof.
  intros [Hf _ _ Him]. destruct target; cbn [convert_zero_copy].
  - unfold nv12_convert_zero_copy, DecodedFrame.into_buffer. rewrite Hf. cbn [bool_decide decide_rel andb].
    destruct (DecodedFrame.exclusive f).
    + destruct (nv12_interleaves_yuv420p arch _ _ _ [] Him) as (y & u & v & _ & En & Ei).
      rewrite app_nil_r in Ei. change (FrameBuffer.data (DecodedFrame.buffer f)) with (DecodedFrame.data f). rewrite Ei.
      eexists. split; [done|]. rewrite (nv12_ok Him) in En. injection En as <- <-.
      split; [done..|]. cbn [VideoFrame.data ConvertedFrameZeroCopy.to_video_frame VideoFrame.from_arc_frame_buffer VideoFrame.inner].
      pose proof (picture_len TargetFormat.Nv12 _ _ _ Him) as Hl. unfold picture, len in *. set (w := width_of f) in *. set (h := height_of f) in *.
      pose proof (dims_le Him) as (_ & _ & _ & Pw & Ph). fold w h in Pw, Ph.
      assert (E : w * h + w * h / 2 = Z.of_nat (length (y_table (DecodedFrame.data f) w h ++ uv_table (mean arch) (DecodedFrame.data f) w h))).
      { assert (w * h / 2 * 2 = w * h) by (destruct (halves Him) as [<- _]; rewrite <- Z.mul_assoc, (Z.mul_comm 2), Z.mul_assoc, Z.div_mul; lia). lia. }
      rewrite in_place_data, E, Nat2Z.id, app_assoc; [by rewrite take_app_length|].
      rewrite E, app_assoc, !length_app. lia.
    + unfold nv12_allocated. change (FrameBuffer.data (DecodedFrame.buffer f)) with (DecodedFrame.data f).
      rewrite (nv12_ok Him). eexists. split; [done|]. split; [done..|]. apply from_owned_data.
  - unfold yuv420p_convert_zero_copy, DecodedFrame.into_buffer. change (FrameBuffer.data (DecodedFrame.buffer f)) with (DecodedFrame.data f).
    rewrite (yuv420p_ok Him). eexists. split; [done|]. split; [done..|]. apply from_owned_data.
Qed.
Definition shown (target : TargetFormat.t) (f : DecodedFrame.t) (z : ConvertedFrameZeroCopy.t) : Prop :=
  shows target f (ConvertedFrameZeroCopy.to_video_frame z).

Lemma convert_each_shown target g frames acc (c : Counts) : is_u64 c.1 ->
  Forall (fun f => exists z, g f = Ok z /\ shown target f z) frames ->
  exists zs, convert_each g frames acc c = Ok (acc ++ zs, true, (as_u64 (c.1 + Z.of_nat (length frames)), c.2))
    /\ Forall2 (shown target) frames zs.
Proof.
  intros Hc Hf. revert acc c Hc. induction Hf as [|f frames (z & Ez & Hz) _ IH]; intros acc c Hc.
  { exists []. cbn. rewrite app_nil_r, Z.add_0_r, as_u64_id by done. by destruct c. }
  cbn [convert_each]. rewrite Ez. destruct (IH (acc ++ [z]) (u64_add c.1 1, c.2)) as (zs & E & Hzs); [apply as_u64_range|].
  exists (z :: zs). rewrite E, <- app_assoc. split; [|by constructor]. cbn [app fst snd length]. do 3 f_equal.
  unfold u64_add, as_u64. rewrite Zplus_mod_idemp_l. f_equal. lia.
Qed.

(** A batch of frames of the same dimensions. *)
Lemma batch_shown f0 frames : Forall convertible frames ->
  Forall (fun f => width_of f = width_of f0 /\ height_of f = height_of f0) frames ->
  exists ps, simd.rgb_batch_to_nv12 arch (DecodedFrame.data <$> frames) (width_of f0) (height_of f0) = Ok ps
    /\ length ps = length frames
    /\ Forall2 (shown TargetFormat.Nv12) frames (batch_frames (width_of f0) (height_of f0) ps).
Proof.
  intros Hc Hd. set (w := width_of f0) in *. set (h := height_of f0) in *.
  assert (Him : forall f, f ∈ frames -> image (DecodedFrame.data f) w h).
  { intros f Hf. rewrite Forall_forall in Hc, Hd. destruct (Hd f Hf) as [<- <-]. by apply Hc. }
  assert (Hi : Forall (fun data => image data w h) (DecodedFrame.data <$> frames)).
  { apply Forall_fmap, Forall_forall. exact Him. }
  destruct (batch_converts_each arch _ w h Hi) as [-> _].
  rewrite (mapM_ok _ (fun d => (y_table d w h, uv_table (mean arch) d w h))).
  2: { intros d Hin. rewrite Forall_forall in Hi. by apply nv12_ok, Hi. }
  eexists. split; [done|]. split; [by rewrite !length_fmap|]. unfold batch_frames. rewrite <- !list_fmap_compose.
  apply Forall2_fmap_r, Forall_Forall2_diag, Forall_forall. intros f Hf. rewrite Forall_forall in Hd. destruct (Hd f Hf) as [Ew Eh].
  split; [done..|]. cbn. unfold VideoFrame.data; cbn. rewrite from_owned_data, <- Ew, <- Eh. done.
Qed.

Lemma same_dimensions_spec f0 frames : same_dimensions (f0 :: frames) = true ->
  Forall (fun f => width_of f = width_of f0 /\ height_of f = height_of f0) (f0 :: frames).
Proof.
  unfold same_dimensions. rewrite forallb_forall. intros H. apply Forall_forall. intros f Hf.
  specialize (H f (proj1 (list_elem_of_In _ _) Hf)). apply andb_prop in H as [Hw Hh]. lia.
Qed.

(** C30: Every conversion path of a processor shows the same picture.  For a command of decoded RGB frames of
    even dimensions, the worker answers with one frame per input, in order, each with the input's
    dimensions, in the target format, and accepted by [VideoFrame::validate]; its bytes depend only on the input
    and the processor's chroma rounding, whether the worker reuses the frame's buffer (with or without other
    owners of it), converts frames one by one or as a batch.  The luma bytes are those of the scalar
    reference on every processor, and the chroma bytes differ from it by at most one.  All frames are
    counted as converted, none as failed. *)
Theorem conversion_paths_agree target zero_copy cmd c :
  Forall convertible (frames cmd) -> is_u64 c.1 ->
  exists r vs, process_command arch target zero_copy cmd c
      = Ok (r, (as_u64 (c.1 + Z.of_nat (length (frames cmd))), c.2))
    /\ res_sequence r = sequence cmd /\ res_camera_id r = camera_id cmd
    /\ to_video_frames r = Ok vs
    /\ Forall2 (fun f v => shows target f v /\ VideoFrame.validate v = Ok tt
         /\ near_scalar target (DecodedFrame.data f) (DecodedFrame.width f) (DecodedFrame.height f) (VideoFrame.data v)) (frames cmd) vs.
Proof.
  intros Hf Hc.
  assert (H : exists zs, convert_frames arch target zero_copy (frames cmd) c
      = Ok (zs, true, (as_u64 (c.1 + Z.of_nat (length (frames cmd))), c.2)) /\ Forall2 (shown target) (frames cmd) zs).
  { assert (Hz : Forall (fun f => exists z, convert_zero_copy arch target f = Ok z /\ shown target f z) (frames cmd)).
    { eapply Forall_impl; [exact Hf|]. apply zero_copy_shows. }
    assert (Ho : Forall (fun f => exists z, (converted ← convert arch target f;
        Ok (ConvertedFrameZeroCopy.Owned converted (width_of f) (height_of f))) = Ok z /\ shown target f z) (frames cmd)).
    { eapply Forall_impl; [exact Hf|]. intros f Hv. destruct (convert_shows target f Hv) as (z & -> & Hs). by eexists. }
    unfold convert_frames. destruct zero_copy.
    - destruct (frames cmd) as [|f0 [|f1 fs]] eqn:Efs; [by apply (convert_each_shown _ _ _ [])..|].
      destruct target; [|by apply (convert_each_shown _ _ _ [])].
      destruct (same_dimensions _) eqn:Es; [|by apply (convert_each_shown _ _ _ [])].
      destruct (batch_shown f0 _ Hf (same_dimensions_spec _ _ Es)) as (ps & -> & Hl & Hs). rewrite Hl. eauto.
    - destruct (frames cmd) as [|f0 [|f1 fs]], target; by apply (convert_each_shown _ _ _ []). }
  destruct H as (zs & E & Hs). unfold process_command. rewrite E. cbn.
  exists (mkResult (sequence cmd) (camera_id cmd) (Ok zs)). exists (ConvertedFrameZeroCopy.to_video_frame <$> zs).
  split_and!; [done..|]. apply Forall2_fmap_r. clear E.
  induction Hs as [|f z fs zs Hz _ IH]; [constructor|]. apply Forall_cons in Hf as [Hv Hf].
  constructor; [|by apply IH]. split_and!; [exact Hz|by eapply shown_valid|].
  rewrite (sh_data _ _ _ Hz). apply picture_near_scalar, Hv.
Qed.
End Paths.

(** ** Example: two 2 by 2 frames, one with another owner. *)
Definition grey (exclusive : bool) : DecodedFrame.t :=
  DecodedFrame.from_arc (FrameBuffer.rgb24 2 2 (replicate 12 128)) exclusive.
Lemma grey_convertible e : convertible (grey e).
Proof.
  assert (E : DecodedFrame.data (grey e) = replicate 12 128) by (destruct e; reflexivity).
  split; [done|split; done..|]. rewrite E. split; try (vm_compute; reflexivity). by apply Forall_replicate.
Qed.
Lemma conversion_paths_agree_witness :
  exists r vs, process_command sim_avx2 TargetFormat.Nv12 true (mkCommand 7 "cam" [grey true; grey false]) (0, 0) = Ok (r, (2, 0))
    /\ to_video_frames r = Ok vs /\ length vs = 2%nat.
Proof.
  destruct (conversion_paths_agree sim_avx2 TargetFormat.Nv12 true (mkCommand 7 "cam" [grey true; grey false]) (0, 0))
    as (r & vs & E & _ & _ & Ev & Hs);
    [constructor; [apply grey_convertible|constructor; [apply grey_convertible|constructor]]|split; done|].
  exists r, vs. split; [exact E|]. split; [exact Ev|]. symmetry. exact (Forall2_length _ _ _ Hs).
Defined.
