(* ===== verification/WorkerPool.v ===== *)
(** * Worker pools and ordered delivery (crates/roboflow-media/src/video/decode.rs, convert.rs)

    The decode pool and the convert pool are the same machine: a bounded channel of commands,
    worker threads, and a bounded channel of results.  [Step] has one rule for each thing a
    thread can do, so that a run is an interleaving of the threads; [work] is what a worker
    makes of a command.  The channels have a capacity of at least one.  [FifoCollector] puts
    the results back into the order of the commands.  Results carry the command they answer,
    which the code does not store, and the commands submitted, the results received and the
    results dropped are recorded, for the statements only. *)
From S2P Require Import Prelude Image VideoFrame Convert.
#[local] Open Scope Z_scope.

(** ** The pool *)
Module Pool.
Section Pool.
Context {Cmd Res : Type} (work : Cmd -> Res -> Prop) (pending_capacity completed_capacity : nat).

(** Where a worker's loop is: at [cmd_rx.recv()], working, at [result_tx.send(res)], or over. *)
Inductive Worker : Type := Waiting | Busy (c : Cmd) | Sending (c : Cmd) (r : Res) | Exited.

Record t : Type := mk {
  pending : list Cmd;
  workers : list Worker;
  completed : list (Cmd * Res);
  in_flight : Z;
  open : bool;           (** [cmd_tx] is not dropped *)
  listening : bool;      (** [result_rx] is not dropped *)
  submitted : list Cmd;
  received : list (Cmd * Res);
  dropped : list (Cmd * Res)
}.
#[global] Instance t_eta : Settable t := fun r =>
  mk (pending r) (workers r) (completed r) (in_flight r) (open r) (listening r) (submitted r) (received r) (dropped r).

(** [new]: all workers at their first [recv]. *)
Definition new (worker_count : nat) : t := mk [] (replicate worker_count Waiting) [] 0 true true [] [] [].

Definition set_worker (i : nat) (w : Worker) (p : t) : t := p <| workers := <[i := w]> (workers p) |>.

(** What a worker thread does. *)
Inductive WorkerStep (p : t) : t -> Prop :=
| take_command i c rest :
    workers p !! i = Some Waiting -> pending p = c :: rest ->
    WorkerStep p (set_worker i (Busy c) (p <| pending := rest |> <| in_flight := as_u64 (in_flight p + 1) |>))
| finish_command i c r :
    workers p !! i = Some (Busy c) -> work c r ->
    WorkerStep p (set_worker i (Sending c r) (p <| in_flight := as_u64 (in_flight p - 1) |>))
| send_result i c r :
    workers p !! i = Some (Sending c r) -> listening p = true -> (length (completed p) < completed_capacity)%nat ->
    WorkerStep p (set_worker i Waiting (p <| completed := completed p ++ [(c, r)] |>))
| send_fails i c r :
    workers p !! i = Some (Sending c r) -> listening p = false ->
    WorkerStep p (set_worker i Exited (p <| dropped := dropped p ++ [(c, r)] |>))
| channel_closed i :
    workers p !! i = Some Waiting -> open p = false -> pending p = [] ->
    WorkerStep p (set_worker i Exited p).

(** What the owner of the pool does: [submit], [recv] or [try_recv], the start of
    [shutdown], dropping the pool. *)
Inductive OwnerStep (p : t) : t -> Prop :=
| submit c :
    open p = true -> (length (pending p) < pending_capacity)%nat ->
    OwnerStep p (p <| pending := pending p ++ [c] |> <| submitted := submitted p ++ [c] |>)
| recv cr rest :
    completed p = cr :: rest -> listening p = true ->
    OwnerStep p (p <| completed := rest |> <| received := received p ++ [cr] |>)
| close : OwnerStep p (p <| open := false |>)
| hang_up : OwnerStep p (p <| listening := false |>).

Definition Step (p q : t) : Prop := WorkerStep p q \/ OwnerStep p q.

(** [pending_count] of [stats]. *)
Definition pending_count (p : t) : Z := as_u64 (Z.of_nat (length (pending p)) + in_flight p).

(** Commands being worked on, results being sent. *)
Definition busy_of (w : Worker) : option Cmd := match w with Busy c => Some c | _ => None end.
Definition sending_of (w : Worker) : option (Cmd * Res) := match w with Sending c r => Some (c, r) | _ => None end.
Definition busy (p : t) : list Cmd := omap busy_of (workers p).
Definition sending (p : t) : list (Cmd * Res) := omap sending_of (workers p).
Definition answered (p : t) : list (Cmd * Res) := sending p ++ completed p ++ received p ++ dropped p.

(** ** No command is lost or answered twice *)
Lemma omap_worker {A} (f : Worker -> option A) l i w v : l !! i = Some w ->
  exists rest, omap f l ≡ₚ option_list (f w) ++ rest /\ omap f (<[i := v]> l) ≡ₚ option_list (f v) ++ rest.
Proof.
  intros Hi. exists (omap f (take i l) ++ omap f (drop (S i) l)).
  pose proof (lookup_lt_Some _ _ _ Hi) as Hlt.
  assert (Ho : forall x, omap f (take i l ++ x :: drop (S i) l) ≡ₚ option_list (f x) ++ omap f (take i l) ++ omap f (drop (S i) l)).
  { intros x. rewrite omap_app. cbn [omap list_omap]. destruct (f x); cbn; [by rewrite <- Permutation_middle|done]. }
  split; [|rewrite insert_take_drop by done; apply Ho]. rewrite <- (take_drop_middle l i w Hi) at 1. apply Ho.
Qed.

Record conserved (p : t) : Prop := {
  cs_commands : submitted p ≡ₚ pending p ++ busy p ++ (answered p).*1;
  cs_work : Forall (fun cr => work cr.1 cr.2) (answered p);
  cs_flight : in_flight p = as_u64 (Z.of_nat (length (busy p)));
  cs_pending : (length (pending p) <= pending_capacity)%nat;
  cs_completed : (length (completed p) <= completed_capacity)%nat }.

Lemma conserved_new n : conserved (new n).
Proof.
  assert (Hb : forall {A} (f : Worker -> option A), f Waiting = None -> omap f (replicate n Waiting) = []).
  { intros A f Hf. induction n as [|n IH]; [done|]. cbn. by rewrite Hf. }
  split; unfold answered, busy, sending; cbn; rewrite ?(Hb _ _ eq_refl); cbn; (done || lia || constructor).
Qed.

Lemma as_u64_pred n : as_u64 (as_u64 (n + 1) - 1) = as_u64 n.
Proof. unfold as_u64. rewrite Zminus_mod_idemp_l. f_equal. lia. Qed.
Lemma as_u64_next n : as_u64 (as_u64 n + 1) = as_u64 (n + 1).
Proof. unfold as_u64. by rewrite Zplus_mod_idemp_l. Qed.

Lemma conserved_worker p q : conserved p -> WorkerStep p q -> conserved q.
Proof.
  intros [Hc Hw Hf Hp Hd] Hs. unfold answered, busy, sending in *. destruct Hs as [i c rest Hi Hr|i c r Hi Hr|i c r Hi Hl Hr|i c r Hi Hl|i Hi Ho Hr].
  - destruct (omap_worker busy_of _ i _ (Busy c) Hi) as (B & Eb & Eb'). destruct (omap_worker sending_of _ i _ (Busy c) Hi) as (S & Es & Es').
    cbn in Eb, Eb', Es, Es'. split; unfold answered, busy, sending; cbn.
    + rewrite Es', Eb', Hc, Hr, Eb, Es. cbn. solve_Permutation.
    + by rewrite Es', <- Es.
    + rewrite Eb', Hf, Eb. cbn [length]. rewrite as_u64_next. f_equal. lia.
    + rewrite Hr in Hp. cbn in Hp. lia.
    + done.
  - destruct (omap_worker busy_of _ i _ (Sending c r) Hi) as (B & Eb & Eb'). destruct (omap_worker sending_of _ i _ (Sending c r) Hi) as (S & Es & Es').
    cbn in Eb, Eb', Es, Es'. split; unfold answered, busy, sending; cbn.
    + rewrite Es', Eb', Hc, Eb, Es. cbn. solve_Permutation.
    + rewrite Es', Es in *. cbn. by constructor.
    + rewrite Eb', Hf, Eb. cbn [length]. rewrite Nat2Z.inj_succ. apply as_u64_pred.
    + done.
    + done.
  - destruct (omap_worker busy_of _ i _ Waiting Hi) as (B & Eb & Eb'). destruct (omap_worker sending_of _ i _ Waiting Hi) as (S & Es & Es').
    cbn in Eb, Eb', Es, Es'. split; unfold answered, busy, sending; cbn.
    + rewrite Es', Eb', Hc, Eb, Es. cbn. rewrite !fmap_app. cbn. solve_Permutation.
    + rewrite Es', Es in *. cbn in *. apply Forall_cons in Hw as [Hw1 Hw]. rewrite !Forall_app in *. by repeat split; try apply Hw; repeat constructor.
    + rewrite Eb', Hf, Eb. done.
    + done.
    + rewrite length_app. cbn. lia.
  - destruct (omap_worker busy_of _ i _ Exited Hi) as (B & Eb & Eb'). destruct (omap_worker sending_of _ i _ Exited Hi) as (S & Es & Es').
    cbn in Eb, Eb', Es, Es'. split; unfold answered, busy, sending; cbn.
    + rewrite Es', Eb', Hc, Eb, Es. cbn. rewrite !fmap_app. cbn. solve_Permutation.
    + rewrite Es', Es in *. cbn in *. apply Forall_cons in Hw as [Hw1 Hw]. rewrite !Forall_app in *. by repeat split; try apply Hw; repeat constructor.
    + rewrite Eb', Hf, Eb. done.
    + done.
    + done.
  - destruct (omap_worker busy_of _ i _ Exited Hi) as (B & Eb & Eb'). destruct (omap_worker sending_of _ i _ Exited Hi) as (S & Es & Es').
    cbn in Eb, Eb', Es, Es'. split; unfold answered, busy, sending; cbn.
    + rewrite Es', Eb', Hc, Eb, Es. done.
    + by rewrite Es', <- Es.
    + rewrite Eb', Hf, Eb. done.
    + done.
    + done.
Qed.

Lemma conserved_owner p q : conserved p -> OwnerStep p q -> conserved q.
Proof.
  intros [Hc Hw Hf Hp Hd] Hs. destruct Hs as [c Ho Hl|cr rest Hr Hl| |]; unfold answered, busy, sending in *;
    (split; unfold answered, busy, sending; cbn; [| |done| |]); try done.
  - rewrite Hc. solve_Permutation.
  - rewrite length_app. cbn. lia.
  - rewrite Hc, Hr, !fmap_app. cbn. rewrite ?fmap_app. cbn. solve_Permutation.
  - rewrite Hr in Hw. rewrite !Forall_app in *. rewrite Forall_cons in Hw. rewrite Forall_singleton. tauto.
  - rewrite Hr in Hd. cbn in Hd. lia.
Qed.

Lemma conserved_run p q : rtc Step p q -> conserved p -> conserved q.
Proof.
  induction 1 as [|p q r [Hs|Hs] _ IH]; [done|intros Hp; apply IH; by eapply conserved_worker|].
  intros Hp; apply IH; by eapply conserved_owner.
Qed.


(** ** Shutdown *)

(** Commands and results that wait for the workers or the owner. *)
Definition outstanding (p : t) : nat := length (pending p) + length (busy p) + length (sending p) + length (completed p).
Definition exited_of (w : Worker) : bool := match w with Exited => true | _ => false end.
(** All joins of [shutdown] return. *)
Definition finished (p : t) : Prop := Forall (fun w => w = Exited) (workers p).
Definition live_of (w : Worker) : option unit := match w with Exited => None | _ => Some tt end.
(** Every step of a worker makes this smaller. *)
Definition work_left (p : t) : nat :=
  3 * length (pending p) + 2 * length (busy p) + length (sending p) + length (omap live_of (workers p)).

Lemma worker_length {A} (f : Worker -> option A) l i w v : l !! i = Some w ->
  (length (omap f (<[i := v]> l)) + length (option_list (f w)) = length (omap f l) + length (option_list (f v)))%nat.
Proof.
  intros Hi. destruct (omap_worker f l i w v Hi) as (rest & E & E'). rewrite E, E', !length_app. lia.
Qed.

Ltac count_workers Hi v :=
  pose proof (worker_length busy_of _ _ _ v Hi); pose proof (worker_length sending_of _ _ _ v Hi);
  pose proof (worker_length live_of _ _ _ v Hi).

Lemma step_accounts p q : WorkerStep p q -> listening p = true ->
  outstanding q = outstanding p /\ (work_left q < work_left p)%nat /\ listening q = true /\ open q = open p
  /\ length (workers q) = length (workers p).
Proof.
  intros Hs Hl. destruct Hs as [i c rest Hi Hr|i c r Hi Hr|i c r Hi Hl' Hr|i c r Hi Hl'|i Hi Ho Hr];
    [count_workers Hi (Busy c)|count_workers Hi (Sending c r)|count_workers Hi Waiting|congruence|count_workers Hi Exited];
    unfold outstanding, work_left, busy, sending; cbn in *; rewrite length_insert, ?length_app, ?Hr; cbn; repeat split; done || lia.
Qed.

(** A worker that has exited has seen the channel closed and empty. *)
Definition seen_closed (p : t) : Prop :=
  listening p = true -> Exited ∈ workers p -> open p = false /\ pending p = [].

Lemma elem_of_set_worker (i : nat) (w v : Worker) (l : list Worker) : v ∈ <[i := w]> l -> v = w \/ v ∈ l.
Proof.
  intros (j & Hj)%list_elem_of_lookup. destruct (decide (i = j)) as [<-|Hne].
  - apply list_lookup_insert_Some in Hj. naive_solver.
  - rewrite list_lookup_insert_ne in Hj by done. right. by eapply list_elem_of_lookup_2.
Qed.

Lemma seen_closed_step p q : Step p q -> seen_closed p -> seen_closed q.
Proof.
  unfold seen_closed. intros [Hs|Hs] Hp.
  - destruct Hs as [i c rest Hi Hr|i c r Hi Hr|i c r Hi Hl' Hr|i c r Hi Hl'|i Hi Ho Hr]; cbn; intros Hl He;
      try congruence; [| | |done]; apply elem_of_set_worker in He as [He|He]; try done; destruct (Hp Hl He) as [-> Hn]; [congruence|done..].
  - destruct Hs as [c Ho Hl|cr rest Hr Hl| |]; cbn; intros Hl' He; try congruence; destruct (Hp Hl' He); [congruence|done..].
Qed.

Lemma worker_count p q : Step p q -> length (workers q) = length (workers p).
Proof. intros [[]|[]]; cbn; by rewrite ?length_insert. Qed.

#[local] Instance finished_dec p : Decision (finished p).
Proof. apply Forall_dec. intros w. destruct w; solve [by left|by right]. Defined.

Lemma finished_nothing p : finished p -> busy p = [] /\ sending p = [].
Proof.
  unfold finished, busy, sending. induction 1 as [|w l -> _ IH]; [done|]. cbn. apply IH.
Qed.

Lemma shutdown_progress p : (forall c, exists r, work c r) -> listening p = true -> open p = false ->
  (outstanding p <= completed_capacity)%nat -> ~ finished p -> exists q, WorkerStep p q.
Proof.
  intros Ht Hl Ho Hc Hn. apply not_Forall_Exists in Hn; [|intros w; destruct w; solve [by left|by right]].
  apply Exists_exists in Hn as (w & Hw & Hne). apply list_elem_of_lookup in Hw as [i Hi]. destruct w as [|c|c r|]; [| | |by destruct Hne].
  - destruct (pending p) as [|c rest] eqn:Ep; eexists; [by eapply channel_closed|by eapply take_command].
  - destruct (Ht c) as [r Hr]. eexists. by eapply finish_command.
  - eexists. eapply send_result; [done..|]. destruct (omap_worker sending_of _ i _ Waiting Hi) as (S & E & _).
    unfold outstanding, sending in Hc. rewrite E, length_app in Hc. cbn in Hc. lia.
Qed.

Lemma worker_run_accounts p q : rtc WorkerStep p q -> listening p = true ->
  outstanding q = outstanding p /\ listening q = true /\ open q = open p /\ length (workers q) = length (workers p).
Proof.
  induction 1 as [|p q r Hs _ IH]; intros Hl; [done|]. destruct (step_accounts _ _ Hs Hl) as (E & _ & Hq & Eo & Ew).
  destruct (IH Hq) as (E' & Hr & Eo' & Ew'). split_and!; congruence.
Qed.

Lemma shutdown_finishes p : (forall c, exists r, work c r) -> listening p = true -> open p = false ->
  (outstanding p <= completed_capacity)%nat -> exists q, rtc WorkerStep p q /\ finished q.
Proof.
  intros Ht. induction p as [p IH] using (Wf_nat.induction_ltof1 _ work_left). intros Hl Ho Hc.
  destruct (decide (finished p)) as [Hf|Hf]; [by exists p|].
  destruct (shutdown_progress p Ht Hl Ho Hc Hf) as [q Hs]. destruct (step_accounts _ _ Hs Hl) as (E & Hm & Hq & Eo & _).
  destruct (IH q Hm Hq) as (r & Hr & Hfr); [congruence|lia|]. exists r. split; [by eapply rtc_l|done].
Qed.

Lemma seen_closed_run p q : rtc Step p q -> seen_closed p -> seen_closed q.
Proof. induction 1 as [|p q r Hs _ IH]; [done|]. intros Hp. by apply IH, (seen_closed_step p). Qed.
Lemma worker_count_run p q : rtc Step p q -> length (workers q) = length (workers p).
Proof. induction 1 as [|p q r Hs _ IH]; [done|]. by rewrite IH, (worker_count p q). Qed.

(** C23: [shutdown] returns exactly when the unread results fit.  After [shutdown] has closed the command
    channel of a pool of at least one worker, with nobody receiving: if the queued commands,
    those in the workers and the unread results together are no more than the capacity of
    the result channel, then from every point of every interleaving of the workers all of
    them exit, after finitely many steps; if they are more, no interleaving lets all
    workers exit, and [shutdown] waits for ever. *)
Theorem shutdown_returns_iff n p : (0 < n)%nat -> (forall c, exists r, work c r) ->
  rtc Step (new n) p -> listening p = true -> open p = false ->
  ((outstanding p <= completed_capacity)%nat ->
     forall q, rtc WorkerStep p q -> (exists r, rtc WorkerStep q r /\ finished r)
       /\ forall k r, nsteps WorkerStep k q r -> (k <= work_left q)%nat) /\
  ((completed_capacity < outstanding p)%nat -> forall q, rtc WorkerStep p q -> ~ finished q).
Proof.
  intros Hn Ht Hrun Hl Ho. split; intros Hc q Hq; destruct (worker_run_accounts _ _ Hq Hl) as (E & Hlq & Eo & Ew).
  - rewrite <- E in Hc. rewrite Ho in Eo. split; [by apply shutdown_finishes|].
    intros k r Hk. clear -Hk Hlq. induction Hk as [|k q q' r Hs _ IH]; [lia|].
    destruct (step_accounts _ _ Hs Hlq) as (_ & Hm & Hq' & _). specialize (IH Hq'). lia.
  - intros Hfin. destruct (finished_nothing q Hfin) as [Eb Es].
    assert (Hrq : rtc Step (new n) q) by (etrans; [exact Hrun|]; eapply rtc_subrel; [|exact Hq]; by left).
    assert (Hsc : seen_closed q).
    { eapply seen_closed_run; [exact Hrq|]. intros _ (Hx & _)%elem_of_replicate. done. }
    pose proof (worker_count_run _ _ Hrq) as Hw. cbn in Hw. rewrite length_replicate in Hw.
    destruct (workers q) as [|w ws] eqn:Ews; [cbn in Hw; lia|].
    destruct (Hsc Hlq) as [_ Ep].
    { unfold finished in Hfin. rewrite Ews in *. apply Forall_cons in Hfin as [-> _]. left. }
    destruct (conserved_run _ _ Hrq (conserved_new n)) as [_ _ _ _ Hd].
    rewrite <- E in Hc. unfold outstanding in Hc. rewrite Ep, Eb, Es in Hc. cbn in Hc. lia.
Qed.

End Pool.
Arguments Worker : clear implicits.
Arguments t : clear implicits.
End Pool.

(** ** The FIFO collector (decode.rs) *)
Module FifoCollector.
Section Fifo.
Context {R : Type} (sequence : R -> Z).

(** [struct FifoCollector]; the [BTreeMap] is only looked up by key. *)
Record t : Type := mk { buffer : gmap Z R; next_expected : Z; max_buffer_size : Z }.

Definition new : t := mk ∅ 0 256.
Definition push (r : R) (c : t) : t := mk (<[sequence r := r]> (buffer c)) (next_expected c) (max_buffer_size c).
Definition pop (c : t) : option R * t :=
  match buffer c !! next_expected c with
  | Some r => (Some r, mk (base.delete (next_expected c) (buffer c)) (u64_add (next_expected c) 1) (max_buffer_size c))
  | None => (None, c)
  end.
Definition buffer_size (c : t) : Z := Z.of_nat (size (buffer c)).
Definition has_ready (c : t) : bool := bool_decide (is_Some (buffer c !! next_expected c)).

(** [out]: the results popped; [pushed]: the results pushed. *)
Record ordered (pushed out : list R) (c : t) : Prop := {
  or_out : sequence <$> out = seqZ 0 (Z.of_nat (length out));
  or_next : next_expected c = as_u64 (Z.of_nat (length out));
  or_keys : map_Forall (fun k r => sequence r = k) (buffer c);
  or_all : pushed ≡ₚ out ++ (map_to_list (buffer c)).*2 }.

Lemma ordered_new : ordered [] [] new.
Proof. split; cbn; [done..|]. by rewrite map_to_list_empty. Qed.

Lemma ordered_push pushed out c r : ordered pushed out c -> sequence r ∉ sequence <$> pushed ->
  ordered (pushed ++ [r]) out (push r c).
Proof.
  intros [Ho Hn Hk Ha] Hr.
  assert (Hb : buffer c !! sequence r = None).
  { destruct (buffer c !! sequence r) as [r'|] eqn:E; [|done]. destruct Hr. rewrite Ha, fmap_app. apply elem_of_app. right.
    rewrite <- (Hk _ _ E). apply list_elem_of_fmap_2. apply (list_elem_of_fmap_2 snd _ (sequence r, r')). by apply elem_of_map_to_list. }
  split; cbn; [done..| |].
  - by apply map_Forall_insert.
  - rewrite map_to_list_insert by done. cbn. rewrite Ha. solve_Permutation.
Qed.

Lemma ordered_pop pushed out c r c' : ordered pushed out c -> pop c = (Some r, c') ->
  NoDup (sequence <$> pushed) -> Forall (fun r => 0 <= sequence r < u64_mod) pushed -> ordered pushed (out ++ [r]) c'.
Proof.
  intros [Ho Hn Hk Ha] E Hd Hr. unfold pop in E. destruct (buffer c !! next_expected c) as [r'|] eqn:Eb; [|done].
  injection E as -> <-. pose proof (Hk _ _ Eb) as Hs. cbn in Hs.
  assert (Hall : (map_to_list (buffer c)).*2 ≡ₚ r :: (map_to_list (base.delete (next_expected c) (buffer c))).*2).
  { rewrite <- (insert_delete_id _ _ _ Eb) at 1. rewrite map_to_list_insert by apply lookup_delete_eq. done. }
  assert (Hlen : Z.of_nat (length out) < u64_mod).
  { destruct (decide (Z.of_nat (length out) < u64_mod)) as [|Hge]; [done|exfalso].
    (* the result that is popped would be in [out] already *)
    rewrite Ha, Hall, fmap_app in Hd. apply NoDup_app in Hd as (_ & Hd & _). apply (Hd (sequence r)); [|left].
    rewrite Ho. apply elem_of_seqZ. rewrite Hs, Hn. pose proof (as_u64_range (Z.of_nat (length out))) as Hx. unfold is_u64 in Hx. lia. }
  rewrite Hn, as_u64_id in Hs by (unfold is_u64; lia). split; cbn.
  - rewrite fmap_app, Ho, length_app. cbn. rewrite Nat2Z.inj_add, seqZ_app by lia. cbn. by rewrite Hs.
  - rewrite Hn, length_app. unfold u64_add, as_u64. rewrite Zplus_mod_idemp_l. f_equal. cbn. lia.
  - by apply map_Forall_delete.
  - rewrite Ha, Hall. solve_Permutation.
Qed.

(** Nothing is held back: the next result, when it was pushed, is the one popped. *)
Lemma ordered_ready pushed out c r : ordered pushed out c -> r ∈ pushed -> sequence r = Z.of_nat (length out) ->
  Z.of_nat (length out) < u64_mod -> exists c', pop c = (Some r, c').
Proof.
  intros [Ho Hn Hk Ha] Hr Hs Hl. rewrite Ha in Hr. apply elem_of_app in Hr as [Hr|Hr].
  - exfalso. apply (list_elem_of_fmap_2 sequence) in Hr. rewrite Ho, elem_of_seqZ in Hr. lia.
  - apply list_elem_of_fmap in Hr as ([k r'] & -> & Hm). apply elem_of_map_to_list in Hm. cbn in *.
    pose proof (Hk _ _ Hm) as Ek. cbn in Ek. unfold pop. rewrite Hn, as_u64_id by (unfold is_u64; lia).
    rewrite <- Hs, Ek, Hm. by eexists.
Qed.
End Fifo.
Arguments t : clear implicits.
End FifoCollector.

(** ** A stage: a pool whose results go through a collector *)
Module Stage.
Section Stage.
Context {Cmd Res : Type} (work : Cmd -> Res -> Prop) (pending_capacity completed_capacity : nat).
Context (cmd_sequence : Cmd -> Z) (res_sequence : Res -> Z).
(** A worker copies the number of the command into the result. *)
Hypothesis work_keeps_sequence : forall c r, work c r -> res_sequence r = cmd_sequence c.

Record t : Type := mk {
  pool : Pool.t Cmd Res;
  collector : FifoCollector.t Res;
  out : list Res
}.
Definition new (worker_count : nat) : t := mk (Pool.new worker_count) FifoCollector.new [].

(** Commands are numbered as they are submitted ([next_sequence.fetch_add]); a result that is
    received is pushed; [pop] delivers it. *)
Inductive Step (s : t) : t -> Prop :=
| worker p : Pool.WorkerStep work completed_capacity (pool s) p -> Step s (mk p (collector s) (out s))
| submit c : Pool.open (pool s) = true -> (length (Pool.pending (pool s)) < pending_capacity)%nat ->
    cmd_sequence c = as_u64 (Z.of_nat (length (Pool.submitted (pool s)))) ->
    Step s (mk (pool s <| Pool.pending := Pool.pending (pool s) ++ [c] |> <| Pool.submitted := Pool.submitted (pool s) ++ [c] |>)
              (collector s) (out s))
| recv_push cr rest : Pool.completed (pool s) = cr :: rest -> Pool.listening (pool s) = true ->
    Step s (mk (pool s <| Pool.completed := rest |> <| Pool.received := Pool.received (pool s) ++ [cr] |>)
              (FifoCollector.push res_sequence cr.2 (collector s)) (out s))
| pop r c' : FifoCollector.pop (collector s) = (Some r, c') -> Step s (mk (pool s) c' (out s ++ [r]))
| close : Step s (mk (pool s <| Pool.open := false |>) (collector s) (out s)).

Lemma pool_step s s' : Step s s' -> rtc (Pool.Step work pending_capacity completed_capacity) (pool s) (pool s').
Proof.
  destruct 1; cbn; [apply rtc_once; by left| | |done|]; (apply rtc_once; right); [by constructor|by apply Pool.recv|apply Pool.close].
Qed.

Definition numbered (p : Pool.t Cmd Res) : Prop :=
  forall i c, Pool.submitted p !! i = Some c -> cmd_sequence c = as_u64 (Z.of_nat i).

Record inv (s : t) : Prop := {
  in_pool : Pool.conserved work pending_capacity completed_capacity (pool s);
  in_numbered : numbered (pool s);
  in_few : Z.of_nat (length (Pool.submitted (pool s))) <= u64_mod ->
           FifoCollector.ordered res_sequence (Pool.received (pool s)).*2 (out s) (collector s) }.

Lemma inv_new n : inv (new n).
Proof.
  split; [apply Pool.conserved_new|intros i c Hi; cbn in Hi; by rewrite lookup_nil in Hi|].
  intros _. apply FifoCollector.ordered_new.
Qed.

(** The numbers of the answers are those of commands, each once. *)
Lemma answers_numbered p : Pool.conserved work pending_capacity completed_capacity p -> numbered p ->
  Z.of_nat (length (Pool.submitted p)) <= u64_mod ->
  NoDup (res_sequence <$> (Pool.answered p).*2) /\ Forall (fun r => 0 <= res_sequence r < u64_mod) (Pool.answered p).*2.
Proof.
  intros [Hc Hw _ _ _] Hn Hl.
  assert (E : res_sequence <$> (Pool.answered p).*2 = cmd_sequence <$> (Pool.answered p).*1).
  { rewrite <- !list_fmap_compose. apply list_fmap_ext. intros i [c r] Hi. cbn.
    apply work_keeps_sequence. rewrite Forall_forall in Hw. apply (Hw (c, r)). by eapply list_elem_of_lookup_2. }
  assert (Es : cmd_sequence <$> Pool.submitted p = seqZ 0 (Z.of_nat (length (Pool.submitted p)))).
  { apply list_eq. intros i. rewrite list_lookup_fmap. destruct (Pool.submitted p !! i) as [c|] eqn:Ei; cbn.
    - pose proof (lookup_lt_Some _ _ _ Ei). rewrite (Hn _ _ Ei), as_u64_id by (unfold is_u64; lia).
      symmetry. apply lookup_seqZ. lia.
    - apply lookup_ge_None in Ei. symmetry. apply lookup_ge_None. rewrite length_seqZ. lia. }
  split.
  - rewrite E. assert (Hd : NoDup (cmd_sequence <$> Pool.submitted p)) by (rewrite Es; apply NoDup_seqZ).
    rewrite Hc, !fmap_app in Hd. by apply NoDup_app in Hd as (_ & _ & Hd); apply NoDup_app in Hd as (_ & _ & Hd).
  - apply Forall_fmap, Forall_forall. intros [c r] Hin. cbn. rewrite Forall_forall in Hw.
    rewrite (work_keeps_sequence c r) by apply (Hw (c, r) Hin).
    assert (Hc' : c ∈ Pool.submitted p).
    { rewrite Hc, !elem_of_app. right; right. by apply (list_elem_of_fmap_2 fst _ (c, r)). }
    apply list_elem_of_lookup in Hc' as [i Hi]. rewrite (Hn _ _ Hi). apply as_u64_range.
Qed.

Lemma received_numbered p : Pool.conserved work pending_capacity completed_capacity p -> numbered p ->
  Z.of_nat (length (Pool.submitted p)) <= u64_mod ->
  NoDup (res_sequence <$> (Pool.received p).*2) /\ Forall (fun r => 0 <= res_sequence r < u64_mod) (Pool.received p).*2.
Proof.
  intros Hc Hn Hl. destruct (answers_numbered p Hc Hn Hl) as [Hd Hf]. unfold Pool.answered in *.
  rewrite !fmap_app in Hd. rewrite !fmap_app, !Forall_app in Hf.
  apply NoDup_app in Hd as (_ & _ & Hd). apply NoDup_app in Hd as (_ & _ & Hd). apply NoDup_app in Hd as (Hd & _ & _). tauto.
Qed.

Lemma inv_step s s' : Step s s' -> inv s -> inv s'.
Proof.
  intros Hs [Hp Hn Hf]. pose proof (Pool.conserved_run _ _ _ _ _ (pool_step _ _ Hs) Hp) as Hp'.
  split; [done| |].
  - destruct Hs as [p Hs|c Ho Hl Hc|cr rest Hc Hl|r c' E|]; cbn in *; try done.
    + by destruct Hs.
    + intros i c' Hi. apply lookup_app_Some in Hi as [Hi|[Hi Hj]]; [by apply Hn|].
      apply list_lookup_singleton_Some in Hj as [Hj <-]. rewrite Hc. do 2 f_equal. lia.
  - intros Hl'. assert (Hl : Z.of_nat (length (Pool.submitted (pool s))) <= u64_mod).
    { destruct Hs as [p Hs| | | |]; cbn in *; try done; [by destruct Hs|]. rewrite length_app in Hl'. lia. }
    specialize (Hf Hl). destruct Hs as [p Hs|c Ho Hl2 Hc|cr rest Hc Hl2|r c' E|]; cbn in *; try done.
    + by destruct Hs.
    + rewrite fmap_app. cbn. apply FifoCollector.ordered_push; [done|].
      destruct (received_numbered _ Hp' Hn Hl') as [Hd _]. cbn in Hd. rewrite !fmap_app in Hd. cbn in Hd.
      apply NoDup_app in Hd as (_ & Hd & _). intros Hin. apply (Hd _ Hin). left.
    + destruct (received_numbered _ Hp Hn Hl) as [Hd Hr]. by eapply FifoCollector.ordered_pop.
Qed.

Lemma inv_run s s' : rtc Step s s' -> inv s -> inv s'.
Proof. induction 1 as [|s s' s'' Hs _ IH]; [done|]. intros Hi. by apply IH, (inv_step s). Qed.

(** The command a result answers is the one with its number. *)
Lemma received_answers s r i : inv s -> Z.of_nat (length (Pool.submitted (pool s))) <= u64_mod ->
  r ∈ (Pool.received (pool s)).*2 -> res_sequence r = Z.of_nat i -> exists c, Pool.submitted (pool s) !! i = Some c /\ work c r.
Proof.
  intros [[Hc Hw _ _ _] Hn _] Hl Hr Hs. apply list_elem_of_fmap in Hr as ([c r'] & -> & Hin). cbn in *.
  assert (Ha : (c, r') ∈ Pool.answered (pool s)) by (unfold Pool.answered; rewrite !elem_of_app; tauto).
  assert (Hcr : work c r') by (rewrite Forall_forall in Hw; by apply (Hw (c, r'))). exists c. split; [|done].
  assert (Hin' : c ∈ Pool.submitted (pool s)).
  { rewrite Hc, !elem_of_app. right; right. by apply (list_elem_of_fmap_2 fst _ (c, r')). }
  apply list_elem_of_lookup in Hin' as [j Hj]. pose proof (lookup_lt_Some _ _ _ Hj).
  pose proof (Hn _ _ Hj) as En. rewrite as_u64_id in En by (unfold is_u64; lia).
  rewrite (work_keeps_sequence _ _ Hcr), En in Hs. by replace i with j by lia.
Qed.

(** Everything is received, and the collector has nothing to give. *)
Definition quiescent (s : t) : Prop :=
  Pool.pending (pool s) = [] /\ Pool.busy (pool s) = [] /\ Pool.sending (pool s) = [] /\ Pool.completed (pool s) = []
  /\ Pool.dropped (pool s) = [] /\ FifoCollector.pop (collector s) = (None, collector s).

(** C22: A stage delivers one result for each command, in the order of the commands.  In every
    interleaving of submissions, worker threads, receives and pops, with any number of workers
    finishing in any order, the results delivered so far are the answers to the first commands
    submitted, in their order; and once everything is received and nothing can be popped, every
    command has been answered. *)
Theorem stage_delivers_in_order n s : rtc Step (new n) s -> Z.of_nat (length (Pool.submitted (pool s))) <= u64_mod ->
  Forall2 work (take (length (out s)) (Pool.submitted (pool s))) (out s)
  /\ (quiescent s -> length (out s) = length (Pool.submitted (pool s))).
Proof.
  intros Hrun Hl. pose proof (inv_run _ _ Hrun (inv_new n)) as Hi. destruct (in_few _ Hi Hl) as [Ho Hn Hk Ha].
  destruct (in_pool _ Hi) as [Hc Hw _ _ _].
  assert (Hsub : (length (out s) <= length (Pool.submitted (pool s)))%nat).
  { apply (f_equal length) in Ho. apply Permutation_length in Ha, Hc. unfold Pool.answered in Hc.
    rewrite !length_app, !length_fmap in *. rewrite !length_app in Hc. lia. }
  split.
  - apply Forall2_same_length_lookup_2; [rewrite length_take; lia|]. intros i c r Hci Hri.
    pose proof (lookup_lt_Some _ _ _ Hri) as Hlt.
    assert (Hs : res_sequence r = Z.of_nat i).
    { apply (f_equal (lookup i)) in Ho. rewrite list_lookup_fmap, Hri, lookup_seqZ_lt in Ho by lia. cbn in Ho. injection Ho. lia. }
    assert (Hr : r ∈ (Pool.received (pool s)).*2) by (rewrite Ha, elem_of_app; left; by eapply list_elem_of_lookup_2).
    destruct (received_answers s r i Hi Hl Hr Hs) as (c' & Hc' & Hwk).
    rewrite lookup_take_lt in Hci by lia. congruence.
  - intros (Ep & Eb & Es & Ed & Edr & Epop). destruct (decide (length (out s) = length (Pool.submitted (pool s)))) as [|Hne]; [done|exfalso].
    destruct (lookup_lt_is_Some_2 (Pool.submitted (pool s)) (length (out s))) as [c Hci]; [lia|].
    assert (Hin : c ∈ (Pool.received (pool s)).*1).
    { pose proof (list_elem_of_lookup_2 _ _ _ Hci) as Hin. rewrite Hc, Ep, Eb in Hin. unfold Pool.answered in Hin.
      rewrite Es, Ed, Edr, app_nil_r in Hin. exact Hin. }
    apply list_elem_of_fmap in Hin as ([c' r] & -> & Hin). cbn in *.
    assert (Hwk : work c' r).
    { rewrite Forall_forall in Hw. apply (Hw (c', r)). unfold Pool.answered. rewrite !elem_of_app. tauto. }
    pose proof (in_numbered _ Hi _ _ Hci) as En. rewrite as_u64_id in En by (unfold is_u64; lia).
    rewrite <- (work_keeps_sequence _ _ Hwk) in En.
    destruct (FifoCollector.ordered_ready res_sequence _ _ _ r (in_few _ Hi Hl)) as [c2 E2];
      [by apply (list_elem_of_fmap_2 snd _ (c', r))|done|lia|]. congruence.
Qed.

End Stage.
Arguments t : clear implicits.
End Stage.

(** ** Decoding (decode.rs) *)
Module Decode.
(** [struct DecodePoolConfig], the limits. *)
Record Limits : Type := mkLimits { max_width : Z; max_height : Z; max_bytes : Z }.
Definition default_limits : Limits := mkLimits 7680 4320 (100 * 1024 * 1024).
Record DecodeCommand : Type := mkCommand { sequence : Z; camera_id : string; image : ImageData.t }.
(** [io::Error]; the texts with figures are left out. *)
Inductive DecodeError : Type := WidthExceeded | HeightExceeded | SizeExceeded | InvalidData (e : string).
Record DecodeResult : Type := mkResult {
  res_sequence : Z; res_camera_id : string; res_frame : result DecodeError (option DecodedFrame.t) }.

Section Decoders.
(** [zune_jpeg]: the RGB data, and the width and height of [info()]; the [image] crate. *)
Variable jpeg_decoder : list byte -> result string (list byte * option (Z * Z)).
Variable load_from_memory : list byte -> result string (Z * Z * list byte).

(** The three checks, before decoding and after it. *)
Definition check_size (l : Limits) (width height bytes : Z) : result DecodeError unit :=
  if (0 <? max_width l) && (max_width l <? width) then Err WidthExceeded
  else if (0 <? max_height l) && (max_height l <? height) then Err HeightExceeded
  else if (0 <? max_bytes l) && (max_bytes l <? bytes) then Err SizeExceeded
  else Ok tt.

(** The RGB picture. *)
Definition to_rgb (l : Limits) (img : ImageData.t) : result DecodeError (Z * Z * list byte) :=
  if ImageData.is_encoded img then
    if jpeg_header (ImageData.data img) then
      '(rgb_data, info) ← map_err InvalidData (jpeg_decoder (ImageData.data img));
      match info with
      | None => Err (InvalidData "No JPEG info")
      | Some (width, height) => check_size l width height (len rgb_data);; Ok (width, height, rgb_data)
      end
    else
      '(width, height, rgb_data) ← map_err InvalidData (load_from_memory (ImageData.data img));
      check_size l width height (len rgb_data);; Ok (width, height, rgb_data)
  else
    check_size l (ImageData.width img) (ImageData.height img)
      (saturating_mul64 (saturating_mul64 (ImageData.width img) (ImageData.height img)) 3);;
    Ok (ImageData.width img, ImageData.height img, ImageData.data img).

(** The buffer, in the slot [pool.acquire()] gave or owned; and whether it fell back. *)
Definition store (slot : option (list byte)) (width height : Z) (data : list byte) : FrameBuffer.t * bool :=
  match slot with
  | Some s =>
      if len data <=? len s
      then (FrameBuffer.from_arena (data ++ drop (length data) s) PixelFormat.Rgb24 width height (len data), false)
      else (FrameBuffer.rgb24 width height data, true)
  | None => (FrameBuffer.rgb24 width height data, true)
  end.

(** [decode_image]. *)
Definition decode_image (l : Limits) (slot : option (list byte)) (cmd : DecodeCommand)
  : result DecodeError (option DecodedFrame.t) :=
  if (ImageData.width (image cmd) =? 0) || (ImageData.height (image cmd) =? 0) then Ok None
  else
    '(width, height, data) ← to_rgb l (image cmd);
    Ok (Some (DecodedFrame.new (store slot width height data).1)).

(** One turn of [worker_loop]: [fallback] and the statistics apart. *)
Definition answer (l : Limits) (slot : option (list byte)) (cmd : DecodeCommand) : DecodeResult :=
  mkResult (sequence cmd) (camera_id cmd) (decode_image l slot cmd).
(** What a worker makes of a command, with whatever slot the arena has. *)
Definition decodes (l : Limits) (cmd : DecodeCommand) (r : DecodeResult) : Prop := exists slot, r = answer l slot cmd.

Lemma store_data slot w h d : let b := (store slot w h d).1 in
  FrameBuffer.data b = d /\ FrameBuffer.width b = w /\ FrameBuffer.height b = h /\ FrameBuffer.format b = PixelFormat.Rgb24
  /\ FrameBuffer.len b = len d.
Proof.
  unfold store. destruct slot as [s|]; [|split; [apply from_owned_data|done]].
  destruct (Z.leb_spec (len d) (len s)); [|split; [apply from_owned_data|done]]. split; [|done]. unfold FrameBuffer.data; cbn. unfold len in *. rewrite length_app, length_drop.
  rewrite Z.min_l, Nat2Z.id by lia. by rewrite take_app_length.
Qed.

Lemma check_size_ok l w h n : check_size l w h n = Ok tt ->
  (0 < max_width l -> w <= max_width l) /\ (0 < max_height l -> h <= max_height l) /\ (0 < max_bytes l -> n <= max_bytes l).
Proof.
  unfold check_size. destruct (Z.ltb_spec 0 (max_width l)), (Z.ltb_spec (max_width l) w), (Z.ltb_spec 0 (max_height l)),
    (Z.ltb_spec (max_height l) h), (Z.ltb_spec 0 (max_bytes l)), (Z.ltb_spec (max_bytes l) n); cbn; intros; done || lia.
Qed.

Lemma to_rgb_checked l img w h d : to_rgb l img = Ok (w, h, d) ->
  exists n, check_size l w h n = Ok tt /\ (ImageData.is_encoded img = true -> n = len d).
Proof.
  unfold to_rgb. destruct (ImageData.is_encoded img); [destruct (jpeg_header _)|].
  - destruct (jpeg_decoder _) as [[rgb [[w' h']|]]|e|m]; cbn; try done.
    destruct (check_size l w' h' (len rgb)) as [[]|e|m] eqn:E; cbn; intros; simplify_eq; eauto.
  - destruct (load_from_memory _) as [[[w' h'] rgb]|e|m]; cbn; try done.
    destruct (check_size l w' h' (len rgb)) as [[]|e|m] eqn:E; cbn; intros; simplify_eq; eauto.
  - destruct (check_size _ _ _ _) as [[]|e|m] eqn:E; cbn; intros; simplify_eq. by eexists.
Qed.

(** A decoded frame is the picture, within the limits, wherever it is stored.  When decoding gives
    a frame, the frame holds the picture's RGB bytes and dimensions, which are within the
    configured maxima, and gives the same through an arena slot of any size and content as
    through an allocation of its own; a picture out of the limits is refused. *)
Theorem decoded_frame_is_picture l slot cmd :
  match decode_image l slot cmd with
  | Ok (Some f) =>
      exists w h d, to_rgb l (image cmd) = Ok (w, h, d)
        /\ DecodedFrame.width f = w /\ DecodedFrame.height f = h /\ DecodedFrame.data f = d
        /\ (0 < max_width l -> w <= max_width l) /\ (0 < max_height l -> h <= max_height l)
        /\ (ImageData.is_encoded (image cmd) = true -> 0 < max_bytes l -> len d <= max_bytes l)
  | Ok None => ImageData.width (image cmd) = 0 \/ ImageData.height (image cmd) = 0
  | Err e => to_rgb l (image cmd) = Err e
  | Panic m => to_rgb l (image cmd) = Panic m
  end.
Proof.
  unfold decode_image. destruct (_ || _) eqn:E0; [apply orb_prop in E0; lia|].
  destruct (to_rgb l (image cmd)) as [[[w h] d]|e|m] eqn:E; cbn; [|done..].
  destruct (store_data slot w h d) as (Ed & Ew & Eh & _). exists w, h, d. split_and!; try done.
  all: destruct (to_rgb_checked l (image cmd) w h d E) as (n & Hn & En); apply check_size_ok in Hn as (? & ? & ?); try done.
  intros He. rewrite <- (En He). done.
Qed.

Lemma answer_keeps_sequence l c r : decodes l c r -> res_sequence r = sequence c.
Proof. by intros [slot ->]. Qed.
Lemma answer_total l c : exists r, decodes l c r.
Proof. exists (answer l None c). by exists None. Qed.

(** [recv_ordered]: the result received goes into the buffer, and the least of it out. *)
Definition recv_ordered (received : DecodeResult) (buffer : gmap Z DecodeResult) : option DecodeResult * gmap Z DecodeResult :=
  let buffer := <[res_sequence received := received]> buffer in
  match foldr (fun k o => Some (match o with Some j => Z.min k j | None => k end)) None (map_to_list buffer).*1 with
  | Some min_seq => (buffer !! min_seq, base.delete min_seq buffer)
  | None => (None, buffer)
  end.
(** It does not put results in order: with nothing buffered, what comes in goes out. *)
Theorem recv_ordered_passes_through r : recv_ordered r ∅ = (Some r, ∅).
Proof.
  unfold recv_ordered. rewrite insert_empty, map_to_list_singleton. cbn.
  by rewrite lookup_singleton_eq, delete_singleton_eq.
Qed.
End Decoders.
End Decode.

(** ** Examples: decoding two pixels *)
Module PoolExamples.
Import Decode.
Definition no_jpeg (d : list byte) : result string (list byte * option (Z * Z)) := Err "not a JPEG".
Definition no_image (d : list byte) : result string (Z * Z * list byte) := Err "unsupported".
Definition pixel (n b : Z) : DecodeCommand := mkCommand n "cam" (ImageData.new 1 1 [b; b; b]).
Abbreviation pixels := (decodes no_jpeg no_image default_limits).
Abbreviation answer_of := (answer no_jpeg no_image default_limits None).

(** One step of a run, then the state evaluated. *)
Ltac advance tac :=
  eapply rtc_l; [tac|match goal with |- rtc _ ?s _ => let s' := eval vm_compute in s in change s with s' end].

(** Two workers; the second finishes first. *)
Lemma two_pixels_run : exists s,
  rtc (Stage.Step pixels 2 2 sequence res_sequence) (Stage.new 2) s
  /\ Pool.submitted (Stage.pool s) = [pixel 0 10; pixel 1 20] /\ Stage.out s = [answer_of (pixel 0 10); answer_of (pixel 1 20)]
  /\ (Pool.received (Stage.pool s)).*1 = [pixel 1 20; pixel 0 10].
Proof.
  eexists. split.
  - advance ltac:(eapply (Stage.submit _ _ _ _ _ _ (pixel 0 10)); [vm_compute; reflexivity|vm_compute; lia|vm_compute; reflexivity]).
    advance ltac:(eapply (Stage.submit _ _ _ _ _ _ (pixel 1 20)); [vm_compute; reflexivity|vm_compute; lia|vm_compute; reflexivity]).
    advance ltac:(apply Stage.worker; eapply (Pool.take_command _ _ _ 0%nat); vm_compute; reflexivity).
    advance ltac:(apply Stage.worker; eapply (Pool.take_command _ _ _ 1%nat); vm_compute; reflexivity).
    advance ltac:(apply Stage.worker; eapply (Pool.finish_command _ _ _ 1%nat); [vm_compute; reflexivity|by exists None]).
    advance ltac:(apply Stage.worker; eapply (Pool.send_result _ _ _ 1%nat); [vm_compute; reflexivity..|vm_compute; lia]).
    advance ltac:(apply Stage.worker; eapply (Pool.finish_command _ _ _ 0%nat); [vm_compute; reflexivity|by exists None]).
    advance ltac:(apply Stage.worker; eapply (Pool.send_result _ _ _ 0%nat); [vm_compute; reflexivity..|vm_compute; lia]).
    advance ltac:(eapply Stage.recv_push; vm_compute; reflexivity).
    advance ltac:(eapply Stage.recv_push; vm_compute; reflexivity).
    advance ltac:(eapply Stage.pop; vm_compute; reflexivity).
    advance ltac:(eapply Stage.pop; vm_compute; reflexivity). apply rtc_refl.
  - by vm_compute.
Qed.
Lemma stage_delivers_in_order_witness :
  exists s, rtc (Stage.Step pixels 2 2 sequence res_sequence) (Stage.new 2) s
    /\ Forall2 pixels [pixel 0 10; pixel 1 20] (Stage.out s).
Proof.
  destruct two_pixels_run as (s & Hr & Hs & Ho & _). exists s. split; [done|].
  destruct (Stage.stage_delivers_in_order pixels 2 2 sequence res_sequence (answer_keeps_sequence _ _ _) 2 s Hr) as [H _];
    [rewrite Hs; vm_compute; discriminate|]. rewrite Hs, Ho in H. rewrite Ho. exact H.
Defined.

(** One worker and room for one result: with one unread result and one command, [shutdown] hangs. *)
Lemma crowded_run : exists p,
  rtc (Pool.Step pixels 1 1) (Pool.new 1) p /\ Pool.listening p = true /\ Pool.open p = false /\ Pool.outstanding p = 2%nat.
Proof.
  eexists. split; [|split; [|split]].
  - advance ltac:(right; eapply (Pool.submit _ _ (pixel 0 10)); [vm_compute; reflexivity|vm_compute; lia]).
    advance ltac:(left; eapply (Pool.take_command _ _ _ 0%nat); vm_compute; reflexivity).
    advance ltac:(left; eapply (Pool.finish_command _ _ _ 0%nat); [vm_compute; reflexivity|by exists None]).
    advance ltac:(left; eapply (Pool.send_result _ _ _ 0%nat); [vm_compute; reflexivity..|vm_compute; lia]).
    advance ltac:(right; eapply (Pool.submit _ _ (pixel 1 20)); [vm_compute; reflexivity|vm_compute; lia]).
    advance ltac:(right; apply Pool.close). apply rtc_refl.
  - by vm_compute.
  - by vm_compute.
  - by vm_compute.
Qed.
Lemma shutdown_returns_iff_witness :
  (exists p, rtc (Pool.Step pixels 1 1) (Pool.new 1) p /\ forall q, rtc (Pool.WorkerStep pixels 1) p q -> ~ Pool.finished q)
  /\ exists q, rtc (Pool.WorkerStep pixels 1) ((Pool.new 1) <| Pool.open := false |>) q /\ Pool.finished q.
Proof.
  split.
  - destruct crowded_run as (p & Hr & Hl & Ho & Hc). exists p. split; [done|].
    apply (Pool.shutdown_returns_iff pixels 1 1 1 p ltac:(lia) (answer_total _ _ _) Hr Hl Ho). rewrite Hc. lia.
  - assert (Hr : rtc (Pool.Step pixels 1 1) (Pool.new 1) ((Pool.new 1) <| Pool.open := false |>))
      by (apply rtc_once; right; apply Pool.close).
    destruct (Pool.shutdown_returns_iff pixels 1 1 1 _ ltac:(lia) (answer_total _ _ _) Hr eq_refl eq_refl) as [H _].
    apply (H ltac:(cbn; lia) _ (rtc_refl _ _)).
Defined.
End PoolExamples.
