(* ===== verification/Lerobot.v ===== *)
(** * The LeRobot v2.1 writer (crates/roboflow-dataset/src/formats/lerobot)

    Frames, Parquet columns, metadata and the writer itself, over a file system that maps
    paths to what was written there.  Any operation on files can fail: the [n]th one fails
    when [faults n] says so.  FFmpeg ([VideoEncoder], [RsmpegVideoComposer]), polars and the
    image decoders are classes; a JSON file is the value it was made from.  Log output, times
    and the video profile are left out. *)
From Corelib Require Import SpecFloat.
From stdpp Require Import pretty.
From S2P Require Import Prelude Floats Stats Episode Storage Fragment Image VideoFrame DatasetPipeline.
#[local] Open Scope Z_scope.

(** ** Configuration (lerobot/config.rs) *)
Module FlushingConfig.
(** [struct FlushingConfig]. *)
Record t : Type := mk { max_frames_per_chunk : Z; max_memory_bytes : Z; incremental_video_encoding : bool }.
#[global] Instance t_eta : Settable t := fun r => mk (max_frames_per_chunk r) (max_memory_bytes r) (incremental_video_encoding r).
Definition default : t := mk 1000 (2 * 1024 * 1024 * 1024) true.
Definition unlimited : t := mk 0 0 false.
Definition should_flush (frame_count memory_bytes : Z) (c : t) : bool :=
  if (0 <? max_frames_per_chunk c) && (max_frames_per_chunk c <=? frame_count) then true
  else if (0 <? max_memory_bytes c) && (max_memory_bytes c <=? memory_bytes) then true
  else false.
Definition is_limited (c : t) : bool := (0 <? max_frames_per_chunk c) || (0 <? max_memory_bytes c).
End FlushingConfig.

Module LerobotConfig.
(** [struct LerobotConfig], what the writer reads of it. *)
Record t : Type := mk {
  name : string; fps : Z; robot_type : option string; codec : string;
  flushing : FlushingConfig.t; finalize_metadata_in_coordinator : bool }.
#[global] Instance t_eta : Settable t := fun r =>
  mk (name r) (fps r) (robot_type r) (codec r) (flushing r) (finalize_metadata_in_coordinator r).
End LerobotConfig.

(** ** Frames (writer/frame.rs) *)
Definition timestamp_sec (f : AlignedFrame.t) : spec_float := f64_div (f64_of (AlignedFrame.timestamp f)) (f64_of 1000000000).

Module LerobotFrame.
(** [struct LerobotFrame]. *)
Record t : Type := mk {
  episode_index : Z;
  frame_index : Z;
  index : Z;
  timestamp : spec_float;
  observation_state : option (list f32);
  action : option (list f32);
  task_index : option Z;
  image_frames : gmap string (string * spec_float)
}.
Abbreviation padded := EpisodeAllocation.padded.

(** [from_aligned_frame]: of several states or actions, the first the map iterates over. *)
Definition from_aligned_frame `{!HashOrder string} (frame : AlignedFrame.t) (episode_index : Z) : t :=
  mk episode_index (AlignedFrame.frame_index frame) (AlignedFrame.frame_index frame) (timestamp_sec frame)
    (snd <$> List.find (fun '(k, _) => contains "observation" k || contains "state" k) (hash_iter (AlignedFrame.states frame)))
    (snd <$> head (hash_iter (AlignedFrame.actions frame)))
    None
    (map_imap (fun camera _ => Some ("videos/chunk-000/" +:+ camera +:+ "/episode_" +:+ padded 6 episode_index +:+ ".mp4",
                                     timestamp_sec frame)) (AlignedFrame.images frame)).
End LerobotFrame.

(** ** Parquet columns (writer/parquet.rs) *)
Inductive Values : Type :=
| I64s (v : list Z) | F64s (v : list spec_float) | F32s (v : list f32) | Strs (v : list string).
Record Series : Type := series { column : string; values : Values }.
Definition height (s : Series) : nat :=
  match values s with I64s v => length v | F64s v => length v | F32s v => length v | Strs v => length v end.

Section Columns.
Context `{!HashOrder string}.
Implicit Types frames : list LerobotFrame.t.

(** The camera names, in the order of their first occurrence. *)
Definition add_camera (cameras : list string) (camera : string) : list string :=
  if bool_decide (camera ∈ cameras) then cameras else cameras ++ [camera].
Definition cameras_of frames : list string :=
  foldl (fun cameras f => foldl add_camera cameras (hash_iter (LerobotFrame.image_frames f)).*1) [] frames.

Definition state_dim frames : option Z :=
  head (omap (fun f => Z.of_nat ∘ length <$> LerobotFrame.observation_state f) frames).

(** The state of the loop: states, actions, the last of each, and the references of the cameras. *)
Record Rows : Type := mkRows {
  observation_state : list (list f32);
  action : list (list f32);
  last_action : option (list f32);
  last_state : option (list f32);
  image_paths : gmap string (list string);
  image_timestamps : gmap string (list spec_float)
}.

Definition reference (chunk_index episode_index : Z) (f : LerobotFrame.t) (camera : string) : string * spec_float :=
  match LerobotFrame.image_frames f !! camera with
  | Some r => r
  | None => ("videos/chunk-" +:+ LerobotFrame.padded 3 chunk_index +:+ "/" +:+ camera +:+ "/episode_"
               +:+ LerobotFrame.padded 6 episode_index +:+ ".mp4", LerobotFrame.timestamp f)
  end.

Definition add_row (cameras : list string) (dim chunk_index episode_index : Z) (r : Rows) (f : LerobotFrame.t) : Rows :=
  let state :=
    match LerobotFrame.observation_state f with
    | Some s => s
    | None => match last_state r with Some s => s | None => replicate (Z.to_nat dim) f32_zero end
    end in
  let act := match LerobotFrame.action f with Some a => Some a | None => last_action r end in
  let refs := reference chunk_index episode_index f in
  mkRows (observation_state r ++ [state])
    (action r ++ [match act with Some a => a | None => replicate (Z.to_nat dim) f32_zero end])
    (match act with Some a => Some a | None => last_action r end)
    (match LerobotFrame.observation_state f with Some s => Some s | None => last_state r end)
    (foldl (fun m camera => alter (fun paths => paths ++ [(refs camera).1]) camera m) (image_paths r) cameras)
    (foldl (fun m camera => alter (fun ts => ts ++ [(refs camera).2]) camera m) (image_timestamps r) cameras).

Definition no_rows (cameras : list string) : Rows :=
  mkRows [] [] None None (list_to_map ((fun c => (c, [])) <$> cameras)) (list_to_map ((fun c => (c, [])) <$> cameras)).

(** A column of a list of vectors: [v.get(i).copied().unwrap_or(0.0)]. *)
Definition component (i : Z) (rows : list (list f32)) : list f32 := (fun v => default f32_zero (v !! Z.to_nat i)) <$> rows.
Definition components (prefix : string) (dim : Z) (rows : list (list f32)) : list Series :=
  (fun i => series (prefix +:+ pretty i) (F32s (component i rows))) <$> seqZ 0 dim.
Definition action_dim (rows : list (list f32)) : Z :=
  match List.find (fun v => negb (bool_decide (v = []))) rows with Some v => Z.of_nat (length v) | None => 14 end.

(** The columns that [write_episode_parquet_with_chunk] makes of at least one frame. *)
Definition episode_columns frames (episode_index chunk_index : Z) : result string (list Series) :=
  match state_dim frames with
  | None => Err "Cannot determine state dimension: no frame has observation_state"%string
  | Some dim =>
      let cameras := cameras_of frames in
      let r := foldl (add_row cameras dim chunk_index episode_index) (no_rows cameras) frames in
      Ok ([ series "episode_index" (I64s (as_i64 ∘ LerobotFrame.episode_index <$> frames));
            series "frame_index" (I64s (as_i64 ∘ LerobotFrame.frame_index <$> frames));
            series "index" (I64s (as_i64 ∘ LerobotFrame.index <$> frames));
            series "timestamp" (F64s (LerobotFrame.timestamp <$> frames)) ]
          ++ components "observation.state." dim (observation_state r)
          ++ components "action." (action_dim (action r)) (action r)
          ++ [ series "task_index" (I64s ((fun f => default 0 (as_i64 <$> LerobotFrame.task_index f)) <$> frames)) ]
          ++ (cameras ≫= fun camera =>
                 option_list ((fun p => series (camera +:+ "_path") (Strs p)) <$> image_paths r !! camera)
                 ++ option_list ((fun t => series (camera +:+ "_timestamp") (F64s t)) <$> image_timestamps r !! camera)))
  end.
End Columns.

(** ** Statistics (common/parquet_base.rs, writer/stats.rs) *)
Definition INFINITY : f32 := S754_infinity false.
Definition NEG_INFINITY : f32 := S754_infinity true.

(** One row into the accumulators; a longer row is cut, a shorter one leaves the rest. *)
Definition fold_row (f : f32 -> f32 -> f32) (acc row : list f32) : list f32 :=
  imap (fun i a => match row !! i with Some v => f a v | None => a end) acc.
Definition calculate_stats (rows : list (list f32)) : option FeatureStats.t :=
  match rows with
  | [] | [] :: _ => None
  | first :: _ =>
      let dim := length first in
      let sum := foldl (fold_row f32_add) (replicate dim f32_zero) rows in
      let sum_sq := foldl (fold_row (fun a v => f32_add a (f32_mul v v))) (replicate dim f32_zero) rows in
      let n := f32_of (Z.of_nat (length rows)) in
      let mean := (fun s => f32_div s n) <$> sum in
      Some (FeatureStats.mk
        (foldl (fold_row f32_min) (replicate dim INFINITY) rows)
        (foldl (fold_row f32_max) (replicate dim NEG_INFINITY) rows)
        mean
        (zip_with (fun q m => f32_sqrt (f32_max (f32_sub (f32_div q n) (f32_mul m m)) f32_zero)) sum_sq mean))
  end.

(** ** Metadata (lerobot/metadata.rs) *)
Record EpisodeInfo : Type := episode_info { ep_index : Z; ep_length : Z; ep_tasks : list Z }.
Record TaskInfo : Type := task_info { ti_index : Z; ti_task : string }.
Record EpisodeStatsEntry : Type := episode_stats { st_index : Z; st_stats : gmap string FeatureStats.t }.
(** A feature of info.json: a vector of float32, or a video. *)
Inductive Feature : Type := VectorFeature (dim : Z) | VideoFeature (height width fps : Z) (codec : string).
Record LerobotInfo : Type := lerobot_info {
  info_name : string; info_robot_type : string; total_episodes : Z; info_total_frames : Z; info_fps : Z;
  features : gmap string Feature; video_codec : string }.

Module MetadataCollector.
(** [struct MetadataCollector]. *)
Record t : Type := mk {
  episodes : list EpisodeInfo;
  tasks : gmap string Z;
  episode_stats : list EpisodeStatsEntry;
  image_shapes : gmap string (Z * Z);
  state_dims : gmap string Z;
  total_frames : Z
}.
#[global] Instance t_eta : Settable t := fun r =>
  mk (episodes r) (tasks r) (episode_stats r) (image_shapes r) (state_dims r) (total_frames r).
Definition new : t := mk [] ∅ [] ∅ ∅ 0.
Definition add_episode (index length : Z) (tasks : list Z) (m : t) : t :=
  m <| episodes := episodes m ++ [episode_info index length tasks] |> <| total_frames := u64_add (total_frames m) length |>.
Definition register_task (task : string) (m : t) : Z * t :=
  match tasks m !! task with
  | Some i => (i, m)
  | None => let i := Z.of_nat (size (tasks m)) in (i, m <| tasks := <[task := i]> (tasks m) |>)
  end.
Definition update_image_shape (camera : string) (width height : Z) (m : t) : t :=
  m <| image_shapes := <[camera := (width, height)]> (image_shapes m) |>.
Definition update_state_dim (feature : string) (dim : Z) (m : t) : t :=
  m <| state_dims := <[feature := dim]> (state_dims m) |>.
Definition add_episode_stats (index : Z) (stats : gmap string FeatureStats.t) (m : t) : t :=
  m <| episode_stats := episode_stats m ++ [Lerobot.episode_stats index stats] |>.

(** The features of info.json: a camera of the same name replaces a vector. *)
Definition features_of (config : LerobotConfig.t) (m : t) : gmap string Feature :=
  ((fun '(w, h) => VideoFeature h w (LerobotConfig.fps config) (LerobotConfig.codec config)) <$> image_shapes m)
  ∪ (match state_dims m !! "action"%string with Some d => {[ "action"%string := VectorFeature d ]} | None => ∅ end
     ∪ match state_dims m !! "observation.state"%string with
       | Some d => {[ "observation.state"%string := VectorFeature d ]} | None => ∅ end).
Definition info (config : LerobotConfig.t) (m : t) : LerobotInfo :=
  lerobot_info (LerobotConfig.name config) (default "unknown"%string (LerobotConfig.robot_type config))
    (Z.of_nat (length (episodes m))) (total_frames m) (LerobotConfig.fps config) (features_of config m) (LerobotConfig.codec config).
(** The lines of tasks.jsonl, sorted by index. *)
Definition task_le (a b : TaskInfo) : Prop := ti_index a <= ti_index b.
#[global] Instance task_le_dec a b : Decision (task_le a b).
Proof. unfold task_le. apply _. Defined.
Definition task_lines (m : t) : list TaskInfo :=
  merge_sort task_le ((fun '(task, i) => task_info i task) <$> map_to_list (tasks m)).
End MetadataCollector.

(** [calculate_episode_stats] (writer/stats.rs). *)
Definition calculate_episode_stats (frames : list LerobotFrame.t) (episode_index : Z) (m : MetadataCollector.t)
  : MetadataCollector.t :=
  match frames with
  | [] => m
  | _ =>
      let add k rows (stats : gmap string FeatureStats.t) :=
        match calculate_stats rows with Some s => <[k := s]> stats | None => stats end in
      MetadataCollector.add_episode_stats episode_index
        (add "action"%string (omap LerobotFrame.action frames)
          (add "observation.state"%string (omap LerobotFrame.observation_state frames) ∅)) m
  end.

(** ** Files *)

(** FFmpeg and polars: [encode_video] is [VideoEncoder] created for a path, given the frames
    and finalized, with the bytes it wrote; on an error the flag says whether the file was
    touched.  [compose_videos] is [RsmpegVideoComposer::compose] on several files, of what it reads of
    them; [cut_short] is what it reads of a video when an error comes before the end, which it takes for
    the end (composer.rs:154).
    [data_frame_error] is the error of [DataFrame::new], [parquet_size] the size [fs::metadata] reports,
    [decode_compressed_image] the image decoders. *)
Class Media := {
  Video : Type;
  encode_video : Z -> string -> list VideoFrame.t -> result (string * bool) (Video * Z);
  compose_videos : list Video -> result string Video;
  cut_short : Video -> Video;
  data_frame_error : list Series -> option string;
  parquet_size : list Series -> Z;
  decode_compressed_image : list byte -> ImageFormat.t -> option (Z * Z * list byte);
  num_threads : Z
}.

Inductive Content (V : Type) : Type :=
| ParquetFile (columns : list Series)
| VideoFile (v : V)
| InfoJson (i : LerobotInfo)
| EpisodesJsonl (l : list EpisodeInfo)
| TasksJsonl (l : list TaskInfo)
| StatsJsonl (l : list EpisodeStatsEntry)
| IntrinsicJson (camera : string)
| ExtrinsicJson (camera : string)
| Broken.
Arguments ParquetFile {V}.
Arguments VideoFile {V}.
Arguments InfoJson {V}.
Arguments EpisodesJsonl {V}.
Arguments TasksJsonl {V}.
Arguments StatsJsonl {V}.
Arguments IntrinsicJson {V}.
Arguments ExtrinsicJson {V}.
Arguments Broken {V}.

(** [EncodeStats] (video/dataset_encode.rs). *)
Record EncodeStats : Type := encode_stats { es_images : Z; es_skipped : Z; es_failed : Z; es_bytes : Z }.
Definition no_stats : EncodeStats := encode_stats 0 0 0 0.

Definition DEFAULT_EPISODES_PER_CHUNK : Z := 500.

Module LerobotWriter.
(** [struct LerobotWriter]; of the camera calibration the names of the cameras. *)
Record t : Type := mk {
  output_prefix : string;
  output_dir : string;
  config : LerobotConfig.t;
  episode_index : Z;
  segment_index : Z;
  session_id : string;
  pending_segments : gmap string (list string);
  episodes_per_chunk : Z;
  frame_data : list LerobotFrame.t;
  image_buffers : gmap string (list ImageData.t);
  metadata : MetadataCollector.t;
  camera_intrinsics : gset string;
  camera_extrinsics : gset string;
  total_frames : Z;
  images_encoded : Z;
  skipped_frames : Z;
  initialized : bool;
  output_bytes : Z;
  failed_encodings : Z;
  images_since_flush : Z
}.
#[global] Instance t_eta : Settable t := fun r =>
  mk (output_prefix r) (output_dir r) (config r) (episode_index r) (segment_index r) (session_id r) (pending_segments r)
    (episodes_per_chunk r) (frame_data r) (image_buffers r) (metadata r) (camera_intrinsics r) (camera_extrinsics r)
    (total_frames r) (images_encoded r) (skipped_frames r) (initialized r) (output_bytes r) (failed_encodings r)
    (images_since_flush r).

(** The fields the constructors set. *)
Definition fresh (output_prefix output_dir session_id : string) (config : LerobotConfig.t) : t :=
  mk output_prefix output_dir config 0 0 session_id ∅ DEFAULT_EPISODES_PER_CHUNK [] ∅ MetadataCollector.new ∅ ∅ 0 0 0 true 0 0 0.

Section Writer.
Context `{Media} `{!HashOrder string}.

(** The writer and the disk. *)
Record World : Type := mkWorld {
  writer : t;
  files : gmap string (Content Video);
  faults : nat -> option string;
  clock : nat
}.
#[global] Instance World_eta : Settable World := fun r => mkWorld (writer r) (files r) (faults r) (clock r).
Abbreviation M := (Run World).

Definition get : M t := fun x => (Ok (writer x), x).
Definition modify (f : t -> t) : M unit := fun x => (Ok tt, x <| writer := f (writer x) |>).
Definition fail {A} (e : string) : M A := fun x => (Err e, x).
Definition lift {A} (r : panics A) : M A := run_panics r.

(** [if let Err(e) = m { log }]. *)
Definition attempt (m : M unit) : M unit := fun x =>
  match m x with (Panic s, y) => (Panic s, y) | (_, y) => (Ok tt, y) end.

(** Whether [m] succeeds. *)
Definition succeeds (m : M unit) : M bool := fun x =>
  match m x with (Ok _, y) => (Ok true, y) | (Err _, y) => (Ok false, y) | (Panic s, y) => (Panic s, y) end.

(** A file operation: it fails, or it has its effect. *)
Definition disk (f : gmap string (Content Video) -> gmap string (Content Video)) : M unit := fun x =>
  match faults x (clock x) with
  | Some e => (Err e, x <| clock := S (clock x) |>)
  | None => (Ok tt, x <| files := f (files x) |> <| clock := S (clock x) |>)
  end.
Definition create_dir_all (path : string) : M unit := disk id.
Definition store (path : string) (c : Content Video) : M unit := disk (<[path := c]>).
(** A file that is created and then written. *)
Definition create_and_write (path : string) (c : Content Video) : M unit :=
  store path Broken;; store path c.
Definition read_file (path : string) : M (Content Video) := fun x =>
  match faults x (clock x), files x !! path with
  | Some e, _ => (Err e, x <| clock := S (clock x) |>)
  | None, None => (Err "No such file or directory"%string, x <| clock := S (clock x) |>)
  | None, Some c => (Ok c, x <| clock := S (clock x) |>)
  end.
(** [fs::copy]. *)
Definition copy (from to : string) : M unit := c ← read_file from; store to c.
Definition under (dir path : string) : bool := starts_with path (dir +:+ "/").

(** ** Constructors *)
Definition is_cloud (s : string) : bool :=
  starts_with s "s3://" || starts_with s "oss://" || starts_with s "S3://" || starts_with s "OSS://".
Definition make_dirs (dir : string) : M unit :=
  create_dir_all (join dir "data/chunk-000");; create_dir_all (join dir "videos/chunk-000");;
  create_dir_all (join dir "meta");; create_dir_all (join dir "parameters").
(** [new_local]: it turns the limit on frames off. *)
Definition new_local (dir session_id : string) (config : LerobotConfig.t) : M unit :=
  if is_cloud dir then fail "output_dir appears to be a cloud storage URL"
  else
    make_dirs dir;;
    let config := if 0 <? FlushingConfig.max_frames_per_chunk (LerobotConfig.flushing config)
                  then config <| LerobotConfig.flushing := LerobotConfig.flushing config <| FlushingConfig.max_frames_per_chunk := 0 |> |>
                  else config in
    modify (fun _ => fresh "" dir session_id config).
(** [new_internal], which the builder calls. *)
Definition new_internal (output_prefix local_buffer session_id : string) (config : LerobotConfig.t) : M unit :=
  make_dirs local_buffer;;
  modify (fun _ => fresh output_prefix local_buffer session_id config).

(** ** Chunks *)
Definition chunk_index (w : t) : panics Z :=
  if episodes_per_chunk w =? 0 then Panic "attempt to divide by zero"
  else Ok (as_u32 (episode_index w / episodes_per_chunk w)).
Definition chunk_dir (sub : string) (w : t) : panics string :=
  match chunk_index w with
  | Ok c => Ok (join (join (output_dir w) sub) ("chunk-" +:+ EpisodeAllocation.padded 3 c))
  | Err e => Err e
  | Panic m => Panic m
  end.

(** ** Adding frames *)
Definition add_frame (frame : LerobotFrame.t) (w : t) : t :=
  let meta := match LerobotFrame.observation_state frame with
              | Some s => MetadataCollector.update_state_dim "observation.state" (Z.of_nat (length s)) (metadata w)
              | None => metadata w end in
  let meta := match LerobotFrame.action frame with
              | Some a => MetadataCollector.update_state_dim "action" (Z.of_nat (length a)) meta
              | None => meta end in
  w <| metadata := meta |> <| frame_data := frame_data w ++ [frame] |>.
(** [add_image], [add_image_arc]. *)
Definition add_image (camera : string) (data : ImageData.t) (w : t) : t :=
  w <| metadata := MetadataCollector.update_image_shape camera (ImageData.width data) (ImageData.height data) (metadata w) |>
    <| image_buffers := <[camera := default [] (image_buffers w !! camera) ++ [data]]> (image_buffers w) |>
    <| images_since_flush := u64_add (images_since_flush w) 1 |>.
Definition set_episode_index (index : Z) (w : t) : t := w <| episode_index := index |>.
Definition set_episodes_per_chunk (count : Z) (w : t) : t := w <| episodes_per_chunk := count |>.
Definition register_task (task : string) (w : t) : Z * t :=
  let '(i, m) := MetadataCollector.register_task task (metadata w) in (i, w <| metadata := m |>).
Definition set_camera_intrinsics (camera : string) (w : t) : t := w <| camera_intrinsics := {[camera]} ∪ camera_intrinsics w |>.
Definition set_camera_extrinsics (camera : string) (w : t) : t := w <| camera_extrinsics := {[camera]} ∪ camera_extrinsics w |>.
Definition frame_count (w : t) : Z := u64_add (total_frames w) (Z.of_nat (length (frame_data w))).

(** [start_episode] of the writer itself. *)
Definition start_episode : M unit :=
  w ← get;
  d ← lift (chunk_dir "data" w); create_dir_all d;;
  v ← lift (chunk_dir "videos" w); create_dir_all v.

(** ** Parquet *)
Definition write_episode_parquet : M unit :=
  w ← get;
  d ← lift (chunk_dir "data" w); create_dir_all d;;
  c ← lift (chunk_index w);
  match frame_data w with
  | [] => mret tt
  | _ =>
      columns ← (fun x => (episode_columns (frame_data w) (episode_index w) c, x));
      match data_frame_error columns with
      | Some e => fail e
      | None =>
          create_and_write (join (output_dir w) ("data/chunk-" +:+ EpisodeAllocation.padded 3 c +:+ "/episode_"
            +:+ EpisodeAllocation.padded 6 (episode_index w) +:+ ".parquet")) (ParquetFile columns);;
          modify (fun w => w <| output_bytes := u64_add (output_bytes w) (parquet_size columns) |>)
      end
  end.

(** ** Videos *)
Definition build_frames (images : list ImageData.t) : VideoFrameBuffer * Z :=
  build_frame_buffer_static decode_compressed_image num_threads images.
Definition camera_data (w : t) : list (string * list ImageData.t) := hash_iter (image_buffers w).
Definition all_empty (w : t) : bool := forallb (fun '(_, images) => bool_decide (images = [])) (map_to_list (image_buffers w)).
Definition encode (w : t) : list VideoFrame.t -> result (string * bool) (Video * Z) :=
  encode_video (LerobotConfig.fps (config w)) (LerobotConfig.codec (config w)).
Definition add_stats (s : EncodeStats) (w : t) : t :=
  w <| images_encoded := u64_add (images_encoded w) (es_images s) |>
    <| skipped_frames := u64_add (skipped_frames w) (es_skipped s) |>
    <| failed_encodings := u64_add (failed_encodings w) (es_failed s) |>
    <| output_bytes := u64_add (output_bytes w) (es_bytes s) |>.
Definition clear_buffers (w : t) : t := w <| image_buffers := (fun _ => []) <$> image_buffers w |>.

(** The loop of [encode_videos_sequential] (video/dataset_encode.rs); [videos_dir] is a chunk's. *)
Fixpoint encode_sequential (w : t) (videos_dir : string) (cameras : list (string * list ImageData.t)) (s : EncodeStats)
  : M EncodeStats :=
  match cameras with
  | [] => mret s
  | (camera, images) :: cameras' =>
      let '(buffer, skipped) := build_frames images in
      let s := encode_stats (es_images s) (u64_add (es_skipped s) skipped) (es_failed s) (es_bytes s) in
      if SizedBuffer.is_empty buffer then encode_sequential w videos_dir cameras' s
      else
        create_dir_all (join videos_dir camera);;
        let path := join (join videos_dir camera) ("episode_" +:+ EpisodeAllocation.padded 6 (episode_index w) +:+ ".mp4") in
        match encode w (SizedBuffer.frames buffer) with
        | Ok (v, bytes) =>
            store path (VideoFile v);;
            encode_sequential w videos_dir cameras'
              (encode_stats (u64_add (es_images s) (SizedBuffer.len buffer)) (es_skipped s) (es_failed s) (u64_add (es_bytes s) bytes))
        | Err (e, touched) => (if (touched : bool) then store path Broken else mret tt);; fail e
        | Panic m => panic m
        end
  end.
(** [encode_videos]; [encode_videos_parallel] runs the same steps camera by camera on several threads. *)
Definition encode_videos : M EncodeStats :=
  w ← get;
  if bool_decide (image_buffers w = ∅) then mret no_stats
  else
    v ← lift (chunk_dir "videos" w); create_dir_all v;;
    encode_sequential w v (List.filter (fun '(_, images) => negb (bool_decide (images = []))) (camera_data w)) no_stats.

(** One camera of [flush_video_segment]: a video that cannot be encoded is counted. *)
Fixpoint flush_cameras (w : t) (segment_dir : string) (cameras : list (string * list ImageData.t))
  (s : EncodeStats) (segments : list (string * string)) : M (EncodeStats * list (string * string)) :=
  match cameras with
  | [] => mret (s, segments)
  | (camera, images) :: cameras' =>
      if bool_decide (images = []) then flush_cameras w segment_dir cameras' s segments
      else
        let '(buffer, skipped) := build_frames images in
        let s := encode_stats (es_images s) (u64_add (es_skipped s) skipped) (es_failed s) (es_bytes s) in
        if SizedBuffer.is_empty buffer then flush_cameras w segment_dir cameras' s segments
        else
          create_dir_all (join segment_dir camera);;
          let path := join (join segment_dir camera) "segment.mp4" in
          match encode w (SizedBuffer.frames buffer) with
          | Ok (v, bytes) =>
              written ← succeeds (store path (VideoFile v));
              if (written : bool) then flush_cameras w segment_dir cameras'
                  (encode_stats (u64_add (es_images s) (SizedBuffer.len buffer)) (es_skipped s) (es_failed s) (u64_add (es_bytes s) bytes))
                  (segments ++ [(path, camera)])
              else flush_cameras w segment_dir cameras'
                  (encode_stats (es_images s) (es_skipped s) (u64_add (es_failed s) 1) (es_bytes s)) segments
          | Err (e, touched) =>
              (if (touched : bool) then attempt (store path Broken) else mret tt);;
              flush_cameras w segment_dir cameras'
                (encode_stats (es_images s) (es_skipped s) (u64_add (es_failed s) 1) (es_bytes s)) segments
          | Panic m => panic m
          end
  end.

Definition track_segment (m : gmap string (list string)) (s : string * string) : gmap string (list string) :=
  <[s.2 := default [] (m !! s.2) ++ [s.1]]> m.

(** [flush_video_segment]. *)
Definition flush_video_segment : M unit :=
  w ← get;
  if all_empty w then mret tt
  else
    let segment_dir := join (join (join (output_dir w) "temp") (session_id w))
                            ("segment_" +:+ EpisodeAllocation.padded 4 (segment_index w)) in
    create_dir_all segment_dir;;
    '(s, segments) ← flush_cameras w segment_dir (camera_data w) no_stats [];
    modify (fun w =>
      clear_buffers (add_stats s w <| pending_segments := foldl track_segment (pending_segments w) segments |>)
        <| images_since_flush := 0 |> <| segment_index := u32_add (segment_index w) 1 |>).

(** [estimate_memory_bytes]. *)
Definition estimate_memory_bytes (w : t) : Z :=
  foldr (fun img n => u64_add (ImageData.len (ImageData.data img)) n) (usize_mul (Z.of_nat (length (frame_data w))) 512)
    (mjoin (map_to_list (image_buffers w)).*2).

(** ** Episodes *)

(** [finish_episode]: nothing for an empty episode. *)
Definition finish_episode (task_index : option Z) : M unit :=
  w ← get;
  match frame_data w with
  | [] => mret tt
  | _ =>
      write_episode_parquet;;
      s ← encode_videos;
      modify (add_stats s);;
      modify (fun w =>
        let n := Z.of_nat (length (frame_data w)) in
        let meta := calculate_episode_stats (frame_data w) (episode_index w) (metadata w) in
        let meta := MetadataCollector.add_episode (episode_index w) n (option_list task_index) meta in
        clear_buffers (w <| metadata := meta |> <| total_frames := u64_add (total_frames w) n |> <| frame_data := [] |>)
          <| segment_index := u32_add (segment_index w) 1 |>)
  end.

(** [merge_pending_segments]: the temporary directory of [tempfile] is left out; the copies
    of the segments in it are the values read. *)
Fixpoint read_segments (segments : list string) : M (list (Content Video)) :=
  match segments with
  | [] => mret []
  | s :: segments' => c ← read_file s; cs ← read_segments segments'; mret (c :: cs)
  end.
Definition as_video (c : Content Video) : option Video := match c with VideoFile v => Some v | _ => None end.
(** What the composer reads of its sources. *)
Fixpoint compose_reads (vs : list Video) : M (list Video) :=
  match vs with
  | [] => mret []
  | v :: vs' =>
      v ← (fun x => (Ok (match faults x (clock x) with Some _ => cut_short v | None => v end), x <| clock := S (clock x) |>));
      vs' ← compose_reads vs';
      mret (v :: vs')
  end.
(** [compose]: one source is copied. *)
Definition compose (cs : list (Content Video)) : M (Content Video) :=
  match cs with
  | [] => fail "compose requires at least one source"
  | [c] => mret c
  | _ => match mapM as_video cs with
         | Some vs => vs ← compose_reads vs; v ← ((fun x => (compose_videos vs, x)) : M Video); mret (VideoFile v)
         | None => fail "failed to open source"
         end
  end.
Definition final_path (w : t) (chunk : Z) (camera : string) : string :=
  let path := "videos/chunk-" +:+ EpisodeAllocation.padded 3 chunk +:+ "/" +:+ camera +:+ "/episode_"
                +:+ EpisodeAllocation.padded 6 (episode_index w) +:+ ".mp4" in
  join (output_dir w) (if String.eqb (output_prefix w) "" then path else output_prefix w +:+ "/" +:+ path).
Fixpoint merge_cameras (w : t) (chunk : Z) (pending : list (string * list string)) : M unit :=
  match pending with
  | [] => mret tt
  | (camera, segments) :: pending' =>
      (match segments with
       | [] => mret tt
       | _ =>
           cs ← read_segments segments;
           composed ← compose cs;
           create_dir_all (default "" (parent (final_path w chunk camera)));;
           store (final_path w chunk camera) composed
       end);;
      merge_cameras w chunk pending'
  end.
Definition merge_pending_segments : M unit :=
  w ← get;
  if bool_decide (pending_segments w = ∅) then mret tt
  else
    c ← lift (chunk_index w);
    merge_cameras w c (hash_iter (pending_segments w));;
    let temp_dir := join (join (output_dir w) "temp") (session_id w) in
    attempt (disk (filter (fun '(path, _) => under temp_dir path = false)));;
    modify (fun w => w <| pending_segments := ∅ |>).

(** [MetadataCollector::write_all], [CameraParamsWriter::write]. *)
Definition write_all : M unit :=
  w ← get;
  let meta := join (output_dir w) "meta" in
  create_dir_all meta;;
  store (join meta "info.json") (InfoJson (MetadataCollector.info (config w) (metadata w)));;
  create_and_write (join meta "episodes.jsonl") (EpisodesJsonl (MetadataCollector.episodes (metadata w)));;
  (if bool_decide (MetadataCollector.tasks (metadata w) = ∅) then mret tt
   else create_and_write (join meta "tasks.jsonl") (TasksJsonl (MetadataCollector.task_lines (metadata w))));;
  create_and_write (join meta "episodes_stats.jsonl") (StatsJsonl (MetadataCollector.episode_stats (metadata w))).
Fixpoint write_cameras (dir suffix : string) (json : string -> Content Video) (cameras : list string) : M unit :=
  match cameras with
  | [] => mret tt
  | camera :: cameras' => store (join dir (camera +:+ suffix)) (json camera);; write_cameras dir suffix json cameras'
  end.
Definition write_camera_parameters : M unit :=
  w ← get;
  if bool_decide (camera_intrinsics w = ∅) && bool_decide (camera_extrinsics w = ∅) then mret tt
  else
    let dir := join (output_dir w) "parameters" in
    create_dir_all dir;;
    write_cameras dir "_intrinsic.json" IntrinsicJson (elements (camera_intrinsics w));;
    write_cameras dir "_extrinsic.json" ExtrinsicJson (elements (camera_extrinsics w)).

(** ** [DatasetWriter] *)
Definition write_frame (frame : AlignedFrame.t) : M unit :=
  w ← get;
  if negb (initialized w) then fail "Writer not initialized. Use builder().build() to create an initialized writer."
  else
    modify (add_frame (LerobotFrame.from_aligned_frame frame (episode_index w)));;
    modify (fun w => foldl (fun w '(camera, data) => add_image camera data w) w (hash_iter (AlignedFrame.images frame)));;
    w ← get;
    if FlushingConfig.should_flush (images_since_flush w) (estimate_memory_bytes w) (LerobotConfig.flushing (config w))
    then attempt flush_video_segment
    else mret tt.

Definition finalize : M WriterStats.t :=
  w ← get;
  (if negb (all_empty w) then flush_video_segment else mret tt);;
  w ← get;
  (match frame_data w with
   | [] => mret tt
   | _ =>
       write_episode_parquet;;
       modify (fun w =>
         let n := Z.of_nat (length (frame_data w)) in
         let meta := MetadataCollector.add_episode (episode_index w) n [] (metadata w) in
         w <| total_frames := u64_add (total_frames w) n |>
           <| metadata := calculate_episode_stats (frame_data w) (episode_index w) meta |>)
   end);;
  merge_pending_segments;;
  write_camera_parameters;;
  w ← get;
  (if LerobotConfig.finalize_metadata_in_coordinator (config w) then mret tt else write_all);;
  w ← get;
  mret (WriterStats.mk (total_frames w) (images_encoded w) (usize_mul (total_frames w) 2) (output_bytes w)).

(** The inherent [finalize], which consumes the writer. *)
Definition finalize_owned : M Z :=
  w ← get;
  (match frame_data w with [] => mret tt | _ => finish_episode None end);;
  merge_pending_segments;;
  w ← get;
  (if LerobotConfig.finalize_metadata_in_coordinator (config w) then mret tt else write_all);;
  w ← get;
  mret (total_frames w).

(** ** Builder (writer/builder.rs)

    Of the storage only whether one is set. *)
Record Builder : Type := mkBuilder {
  b_output_dir : option string;
  b_storage : bool;
  b_output_prefix : option string;
  b_local_buffer : option string;
  b_config : option LerobotConfig.t
}.
Definition validate_not_cloud_url (dir : string) : bool :=
  let lower := to_lowercase dir in
  negb (starts_with lower "s3://" || starts_with lower "oss://") && negb (is_cloud dir).
Definition build (session_id : string) (b : Builder) : M unit :=
  match b_config b with
  | None => fail "Parse error in 'LerobotWriterBuilder': config is required"
  | Some config =>
      if b_storage b then
        match b_local_buffer b with
        | None => fail "Parse error in 'LerobotWriterBuilder': local_buffer is required"
        | Some local_buffer => new_internal (default ""%string (b_output_prefix b)) local_buffer session_id config
        end
      else
        match b_output_dir b with
        | None => fail "Parse error in 'LerobotWriterBuilder': output_dir is required"
        | Some dir =>
            if negb (validate_not_cloud_url dir) then fail "output_dir cannot be a cloud storage URL"
            else new_internal (default ""%string (b_output_prefix b)) dir session_id config
        end
  end.

(** ** [FormatWriter] (format_writer_impl.rs, with [LerobotWriterTrait]) *)
#[global] Instance format_writer : FormatWriter World := {
  DatasetPipeline.write_frame := write_frame;
  DatasetPipeline.start_episode _ :=
    modify (fun w => w <| episode_index := Z.of_nat (length (frame_data w)) |>);; w ← get; mret (episode_index w);
  DatasetPipeline.finish_episode := w ← get; finish_episode (Some (episode_index w));
  DatasetPipeline.finalize := finalize }.

End Writer.
Arguments World {_}.
End LerobotWriter.
