(* ===== verification/LerobotLaws.v ===== *)
(** * What the LeRobot writer stores

    The columns of an episode's Parquet file are a table that forward-fills missing values;
    an episode written in segments is stored whole; and the episodes of one writer share
    their index, so that a later one replaces an earlier one. *)
From Corelib Require Import SpecFloat.
From stdpp Require Import pretty.
From S2P Require Import Prelude Floats Stats Episode Storage Fragment Image VideoFrame DatasetPipeline Lerobot.
#[local] Open Scope Z_scope.

(** ** Columns *)
Section Columns.
Context `{!HashOrder string}.
Implicit Types frames : list LerobotFrame.t.

(** The last value known at row [k]. *)
Definition held {A} (xs : list (option A)) (k : nat) : option A := last (omap id (take (S k) xs)).

Lemma held_snoc {A} (xs : list (option A)) x : held (xs ++ [x]) (length xs) = match x with Some a => Some a | None => last (omap id xs) end.
Proof.
  unfold held. rewrite take_ge by (rewrite length_app; cbn; lia). rewrite omap_app. destruct x as [a|]; cbn.
  - by rewrite last_snoc.
  - by rewrite app_nil_r.
Qed.
Lemma held_before {A} (xs : list (option A)) x k : (k < length xs)%nat -> held (xs ++ [x]) k = held xs k.
Proof. intros Hk. unfold held. by rewrite take_app_le by lia. Qed.

Lemma Ok_inj {E A} (a b : A) : Ok a = Ok b :> result E A -> a = b.
Proof. by intros [= ->]. Qed.

(** The rows after some frames. *)
Record rows_of (cameras : list string) (dim c e : Z) frames (r : Rows) : Prop := {
  ro_states : length (observation_state r) = length frames;
  ro_state : forall k, (k < length frames)%nat -> observation_state r !! k
     = Some (default (replicate (Z.to_nat dim) f32_zero) (held (LerobotFrame.observation_state <$> frames) k));
  ro_actions : length (action r) = length frames;
  ro_action : forall k, (k < length frames)%nat -> action r !! k
     = Some (default (replicate (Z.to_nat dim) f32_zero) (held (LerobotFrame.action <$> frames) k));
  ro_last_state : last_state r = last (omap id (LerobotFrame.observation_state <$> frames));
  ro_last_action : last_action r = last (omap id (LerobotFrame.action <$> frames));
  ro_paths : forall camera, camera ∈ cameras -> image_paths r !! camera = Some ((fun f => (reference c e f camera).1) <$> frames);
  ro_times : forall camera, camera ∈ cameras -> image_timestamps r !! camera = Some ((fun f => (reference c e f camera).2) <$> frames) }.

Lemma alter_all {A} (g : string -> A) (cameras : list string) (m : gmap string (list A)) camera l :
  NoDup cameras -> camera ∈ cameras -> m !! camera = Some l ->
  foldl (fun m c => alter (fun ps => ps ++ [g c]) c m) m cameras !! camera = Some (l ++ [g camera]).
Proof.
  assert (Hnot : forall cs (m : gmap string (list A)), camera ∉ cs ->
    foldl (fun m c => alter (fun ps => ps ++ [g c]) c m) m cs !! camera = m !! camera).
  { induction cs as [|c cs IH]; intros m' Hn; [done|]. cbn. apply not_elem_of_cons in Hn as [Hc Hn]. rewrite IH by done.
    by rewrite lookup_alter_ne. }
  revert m. induction cameras as [|c cs IH]; intros m' Hd Hin Hm; [by apply not_elem_of_nil in Hin|].
  apply NoDup_cons in Hd as [Hc Hd]. cbn. destruct (decide (c = camera)) as [->|Hne].
  - rewrite Hnot by done. by rewrite lookup_alter_eq, Hm.
  - apply IH; [done| |by rewrite lookup_alter_ne]. apply elem_of_cons in Hin as [->|]; [done|done].
Qed.

Lemma snoc_lookup {A} (l : list A) a n v : length l = n -> (forall k, (k < n)%nat -> l !! k = Some (v k)) -> a = v n ->
  forall k, (k < S n)%nat -> (l ++ [a]) !! k = Some (v k).
Proof.
  intros Hl Hv -> k Hk. destruct (decide (k = n)) as [->|]; [by rewrite list_lookup_middle|].
  rewrite lookup_app_l by lia. apply Hv. lia.
Qed.

Lemma rows_snoc cameras dim c e frames f r : NoDup cameras -> rows_of cameras dim c e frames r ->
  rows_of cameras dim c e (frames ++ [f]) (add_row cameras dim c e r f).
Proof.
  intros Hd [Hs1 Hs2 Ha1 Ha2 Hls Hla Hp Ht]. unfold add_row.
  assert (Hst : forall {A} (g : LerobotFrame.t -> option A) (z : A) l, length l = length frames ->
    (forall k, (k < length frames)%nat -> l !! k = Some (default z (held (g <$> frames) k))) ->
    forall k, (k < length (frames ++ [f]))%nat ->
    (l ++ [match g f with Some a => a | None => default z (last (omap id (g <$> frames))) end]) !! k
      = Some (default z (held (g <$> (frames ++ [f])) k))).
  { intros A g z l Hl Hk k Hlt. rewrite length_app in Hlt. cbn in Hlt. rewrite fmap_app. cbn.
    apply (snoc_lookup l _ (length frames) (fun k => default z (held ((g <$> frames) ++ [g f]) k))); [done| | |lia].
    - intros k' Hk'. rewrite held_before by (rewrite length_fmap; lia). by apply Hk.
    - rewrite <- (length_fmap g frames) at 1. rewrite held_snoc. by destruct (g f). }
  assert (Hlast : forall {A} (g : LerobotFrame.t -> option A), match g f with Some a => Some a | None => last (omap id (g <$> frames)) end
     = last (omap id (g <$> (frames ++ [f])))).
  { intros A g. rewrite fmap_app, omap_app. cbn. destruct (g f); cbn; [by rewrite last_snoc|by rewrite app_nil_r]. }
  split; cbn [observation_state action last_state last_action image_paths image_timestamps].
  - rewrite !length_app. cbn. lia.
  - intros k Hk. rewrite <- (Hst _ LerobotFrame.observation_state _ _ Hs1 Hs2 k Hk). do 3 f_equal. rewrite Hls. by destruct (LerobotFrame.observation_state f), (last _).
  - rewrite !length_app. cbn. lia.
  - intros k Hk. rewrite <- (Hst _ LerobotFrame.action _ _ Ha1 Ha2 k Hk). do 3 f_equal. rewrite Hla. by destruct (LerobotFrame.action f), (last _).
  - rewrite Hls. apply Hlast.
  - rewrite Hla, <- (Hlast _ LerobotFrame.action). destruct (LerobotFrame.action f); [done|]. by case_match.
  - intros camera Hc. rewrite fmap_app. apply (alter_all (fun c0 => (reference c e f c0).1)); auto.
  - intros camera Hc. rewrite fmap_app. apply (alter_all (fun c0 => (reference c e f c0).2)); auto.
Qed.

Lemma rows_all cameras dim c e frames : NoDup cameras ->
  rows_of cameras dim c e frames (foldl (add_row cameras dim c e) (no_rows cameras) frames).
Proof.
  intros Hd. induction frames as [|f frames IH] using rev_ind.
  - assert (Hm : forall A camera, camera ∈ cameras -> (list_to_map ((fun c => (c, [])) <$> cameras) : gmap string (list A)) !! camera = Some []).
    { intros A camera Hc. apply elem_of_list_to_map_1.
      { by replace (_.*1) with cameras by (clear; induction cameras; cbn; by f_equal). }
      by apply (list_elem_of_fmap_2 (fun c => (c, []))). }
    split; cbn; try done; try (intros; lia); intros; by apply Hm.
  - rewrite foldl_app. by apply rows_snoc.
Qed.

Lemma cameras_NoDup frames : NoDup (cameras_of frames).
Proof.
  assert (Ha : forall cs l, NoDup l -> NoDup (foldl add_camera l cs)).
  { induction cs as [|c cs IH]; intros l Hl; [done|]. cbn. apply IH. unfold add_camera. case_bool_decide; [done|].
    apply NoDup_app. split_and!; [done| |apply NoDup_singleton]. intros x Hx ->%list_elem_of_singleton. done. }
  unfold cameras_of. generalize (NoDup_nil_2 (A := string)). generalize (@nil string).
  induction frames as [|f frames IH]; intros l Hl; [done|]. cbn. by apply IH, Ha.
Qed.

(** The names of the columns. *)
Definition fixed_names : list string := ["episode_index"; "frame_index"; "index"; "timestamp"; "task_index"]%string.
Lemma last_char_suffix (a b : string) c : last_char b = Some c -> last_char (a +:+ b) = Some c.
Proof. intros Hb. induction a as [|x a IH]; [by rewrite string_app_nil_l|]. rewrite string_app_cons. cbn. by rewrite IH. Qed.
Lemma camera_column camera x : x ∈ [camera +:+ "_path"; camera +:+ "_timestamp"] ->
  (x ∉ fixed_names) /\ (last_char x = Some "h"%char \/ last_char x = Some "p"%char).
Proof.
  rewrite !elem_of_cons. intros [->|[->|Hn]]; [| |by apply not_elem_of_nil in Hn].
  - assert (Hl : last_char (camera +:+ "_path") = Some "h"%char) by by apply last_char_suffix. split; [|by left].
    intros Hin. apply (list_elem_of_fmap_2 last_char) in Hin. rewrite Hl in Hin. cbn in Hin. rewrite !elem_of_cons in Hin.
    repeat (destruct Hin as [Hin|Hin]; [discriminate Hin|]). by apply not_elem_of_nil in Hin.
  - assert (Hl : last_char (camera +:+ "_timestamp") = Some "p"%char) by by apply last_char_suffix. split; [|by right].
    intros Hin. unfold fixed_names in Hin. rewrite !elem_of_cons in Hin.
    destruct Hin as [E|[E|[E|[E|[E|E]]]]]; [| | | | |by apply not_elem_of_nil in E];
      pose proof (f_equal last_char E) as E'; rewrite Hl in E'; try discriminate E'.
    apply (f_equal String.length) in E. rewrite string_length_app in E. cbn in E. lia.
Qed.

Lemma components_NoDup p n rows : NoDup (column <$> components p n rows).
Proof.
  unfold components. rewrite <- list_fmap_compose. apply NoDup_fmap_2_strong; [|apply NoDup_seqZ].
  intros i j _ _ E. cbn in E. apply string_app_inv_l in E. by apply (inj pretty) in E.
Qed.
Lemma components_elem p n rows x : x ∈ (column <$> components p n rows) -> exists i, 0 <= i /\ x = p +:+ pretty i.
Proof.
  unfold components. rewrite <- list_fmap_compose. intros (i & -> & Hi)%list_elem_of_fmap. apply elem_of_seqZ in Hi. exists i. split; [lia|done].
Qed.
Lemma cameras_columns_NoDup (g : string -> list Series) (cameras : list string) :
  NoDup cameras -> (forall c, c ∈ cameras -> column <$> g c = [c +:+ "_path"; c +:+ "_timestamp"]) ->
  NoDup (column <$> (cameras ≫= g)).
Proof.
  intros Hd Hg. induction cameras as [|c cs IH]; [constructor|]. apply NoDup_cons in Hd as [Hc Hd]. cbn.
  rewrite fmap_app, (Hg c) by constructor. assert (Hg' : forall c, c ∈ cs -> column <$> g c = [c +:+ "_path"; c +:+ "_timestamp"]).
  { intros c' Hc'. apply Hg. by constructor. }
  apply NoDup_app. split_and!; [| |by apply IH].
  - apply NoDup_cons. split; [|apply NoDup_singleton]. rewrite list_elem_of_singleton. intros E%string_app_inv_l. done.
  - intros x Hx (s & -> & Hs)%list_elem_of_fmap. apply list_elem_of_bind in Hs as (c' & Hs & Hc').
    apply (list_elem_of_fmap_2 column) in Hs. rewrite (Hg' _ Hc') in Hs. assert (c <> c') by congruence.
    rewrite !elem_of_cons in Hx, Hs. pose proof (last_char_suffix c "_path" _ eq_refl). pose proof (last_char_suffix c' "_path" _ eq_refl).
    pose proof (last_char_suffix c "_timestamp" _ eq_refl). pose proof (last_char_suffix c' "_timestamp" _ eq_refl).
    destruct Hx as [Hx|[Hx|[]%not_elem_of_nil]]; destruct Hs as [Hs|[Hs|[]%not_elem_of_nil]]; rewrite Hx in Hs;
      first [by apply string_app_inj_r in Hs|congruence].
Qed.

Lemma fixed_NoDup : NoDup fixed_names.
Proof. apply (bool_decide_unpack _). reflexivity. Qed.

(** No two columns have a name in common. *)
Lemma columns_NoDup frames e c cols : episode_columns frames e c = Ok cols -> NoDup (column <$> cols).
Proof.
  unfold episode_columns. destruct (state_dim frames) as [dim|]; [|done]. intros [= <-].
  pose proof (rows_all (cameras_of frames) dim c e frames (cameras_NoDup frames)) as Hrows. set (r := foldl _ _ _) in *.
  set (g := fun camera => _ ++ _). rewrite !fmap_cons, !fmap_app, fmap_cons. cbn [column].
  assert (Hg : forall c, c ∈ cameras_of frames -> column <$> g c = [c +:+ "_path"; c +:+ "_timestamp"]).
  { intros camera Hc. unfold g. by rewrite (ro_paths _ _ _ _ _ _ Hrows _ Hc), (ro_times _ _ _ _ _ _ Hrows _ Hc). }
  assert (Hx : forall x, x ∈ (column <$> (cameras_of frames ≫= g)) ->
     (x ∉ fixed_names) /\ (last_char x = Some "h"%char \/ last_char x = Some "p"%char)).
  { intros x (s & -> & Hs)%list_elem_of_fmap. apply list_elem_of_bind in Hs as (c' & Hs & Hc').
    apply (list_elem_of_fmap_2 column) in Hs. rewrite (Hg _ Hc') in Hs. by eapply camera_column. }
  set (obs := column <$> components "observation.state." _ _). set (act := column <$> components "action." _ _).
  set (cams := column <$> _) in *.
  match goal with |- NoDup ?l => assert (l ≡ₚ fixed_names ++ (obs ++ act) ++ cams) as -> by (unfold fixed_names; solve_Permutation) end.
  apply NoDup_app; split_and!; [exact fixed_NoDup| |apply NoDup_app; split_and!].
  - intros x Hf. rewrite !elem_of_app. intros [[Ho|Ha]|Hc]; [| |by apply Hx in Hc as [? _]].
    + apply components_elem in Ho as (i & Hi & ->). unfold fixed_names in Hf. rewrite !elem_of_cons in Hf.
      repeat (destruct Hf as [Hf|Hf]; [discriminate Hf|]). by apply not_elem_of_nil in Hf.
    + apply components_elem in Ha as (i & Hi & ->). unfold fixed_names in Hf. rewrite !elem_of_cons in Hf.
      repeat (destruct Hf as [Hf|Hf]; [discriminate Hf|]). by apply not_elem_of_nil in Hf.
  - apply NoDup_app; split_and!; [apply components_NoDup| |apply components_NoDup].
    intros x Ho Ha. apply components_elem in Ho as (i & Hi & ->). apply components_elem in Ha as (j & Hj & E). discriminate E.
  - intros x Hoa Hc. apply Hx in Hc as [_ Hc].
    assert (exists p i, 0 <= i /\ x = p +:+ pretty i) as (p & i & Hi & ->).
    { apply elem_of_app in Hoa as [(i & ?)%components_elem|(i & ?)%components_elem]; eauto. }
    destruct (pretty_last p i Hi) as (d & Hd & Hl). rewrite Hl in Hc. by destruct Hc as [[= ->]|[= ->]].
  - by apply cameras_columns_NoDup; [apply cameras_NoDup|].
Qed.

(** Every column has one entry per frame. *)
Lemma columns_height frames e c cols : episode_columns frames e c = Ok cols -> Forall (fun s => height s = length frames) cols.
Proof.
  unfold episode_columns. destruct (state_dim frames) as [dim|]; [|done]. intros E. apply Ok_inj in E as <-.
  pose proof (rows_all (cameras_of frames) dim c e frames (cameras_NoDup frames)) as [Hs1 _ Ha1 _ _ _ Hp Ht]. set (r := foldl _ _ _) in *.
  assert (Hcomp : forall p n rows, length rows = length frames -> Forall (fun s => height s = length frames) (components p n rows)).
  { intros p n rows Hl. apply Forall_fmap, Forall_forall. intros i _. cbn. unfold component. by rewrite length_fmap. }
  rewrite !Forall_app. split_and!; [|by apply Hcomp|by apply Hcomp| |].
  - repeat constructor; unfold height; cbn; by rewrite length_fmap.
  - repeat constructor; unfold height; cbn; by rewrite length_fmap.
  - apply Forall_forall. intros s Hs. apply list_elem_of_bind in Hs as (camera & Hs & Hc). rewrite (Hp _ Hc), (Ht _ Hc) in Hs.
    cbn in Hs. apply elem_of_cons in Hs as [->|Hs]; [by unfold height; cbn; rewrite length_fmap|].
    apply list_elem_of_singleton in Hs as ->. unfold height; cbn. by rewrite length_fmap.
Qed.
Lemma state_dim_None frames : state_dim frames = None <-> omap LerobotFrame.observation_state frames = [].
Proof.
  unfold state_dim. induction frames as [|f frames IH]; [done|]. cbn. by destruct (LerobotFrame.observation_state f).
Qed.
Lemma columns_made frames e c : omap LerobotFrame.observation_state frames <> [] -> exists cols, episode_columns frames e c = Ok cols.
Proof.
  intros Hne. unfold episode_columns. destruct (state_dim frames) as [dim|] eqn:Ed; [eauto|]. by apply state_dim_None in Ed.
Qed.

(** The columns of an episode are a table with the last known values.  For frames of which at
    least one has a state, the columns have different names and every one has one entry per
    frame (which [DataFrame::new] requires); the entry of component [i] of the state in row [k] is that of the last state
    known by then, and zero before the first or beyond its length; the same for actions; and
    without a state anywhere the episode is refused. *)
Theorem columns_hold_last_values frames e c :
  match episode_columns frames e c with
  | Ok cols =>
      NoDup (column <$> cols) /\ Forall (fun s => height s = length frames) cols
      /\ exists dim, state_dim frames = Some dim
         /\ forall i, 0 <= i < dim -> exists v,
              series ("observation.state." +:+ pretty i) (F32s v) ∈ cols
              /\ forall k, (k < length frames)%nat -> v !! k
                   = Some (default f32_zero (held (LerobotFrame.observation_state <$> frames) k ≫= lookup (Z.to_nat i)))
  | Err _ => omap LerobotFrame.observation_state frames = []
  | Panic _ => False
  end.
Proof.
  destruct (decide (omap LerobotFrame.observation_state frames = [])) as [Hz|Hne].
  { unfold episode_columns. by rewrite (proj2 (state_dim_None frames)). }
  destruct (columns_made frames e c Hne) as [cols E]. rewrite E. split; [by eapply columns_NoDup|]. split; [by eapply columns_height|].
  unfold episode_columns in E. destruct (state_dim frames) as [dim|]; [|done]. apply Ok_inj in E as <-.
  pose proof (rows_all (cameras_of frames) dim c e frames (cameras_NoDup frames)) as [_ Hs2 _ _ _ _ _ _]. set (r := foldl _ _ _) in *.
  exists dim. split; [done|]. intros i Hi. exists (component i (observation_state r)). split.
  - rewrite !elem_of_app. right; left. unfold components. apply list_elem_of_fmap. exists i. split; [done|]. apply elem_of_seqZ. lia.
  - intros k Hk. unfold component. rewrite list_lookup_fmap, (Hs2 k Hk). cbn.
    destruct (held _ k) as [v|]; cbn; [done|]. f_equal. destruct (replicate _ _ !! _) eqn:El; [|done].
    by apply lookup_replicate in El as [-> _].
Qed.
End Columns.

(** ** Paths *)
Definition plain (s : string) : Prop := s <> ""%string /\ slash_free s = true.

Lemma pretty_Z_nat n : pretty (Z.of_nat n) = pretty (N.of_nat n).
Proof. by destruct n. Qed.
Lemma padded_padded4 n : EpisodeAllocation.padded 4 (Z.of_nat n) = padded4 n.
Proof. unfold EpisodeAllocation.padded, padded4. by rewrite pretty_Z_nat. Qed.

Lemma starts_slash_cons c s : starts_with (String c s) "/" = Ascii.eqb "/" c.
Proof.
  unfold starts_with. change (Prelude.strip_prefix "/" (String c s)) with (if Ascii.eqb "/" c then Some s else None).
  by destruct (Ascii.eqb "/" c).
Qed.
Lemma starts_slash_free s : slash_free s = true -> starts_with s "/" = false.
Proof.
  destruct s as [|c s]; [done|]. intros H. rewrite starts_slash_cons. apply andb_prop in H as [H _].
  destruct (Ascii.eqb_spec "/" c) as [<-|]; [|done]. done.
Qed.
Lemma starts_slash_app a b : a <> ""%string -> starts_with (a +:+ b) "/" = starts_with a "/".
Proof. destruct a as [|c a]; [done|]. intros _. by rewrite string_app_cons, !starts_slash_cons. Qed.

(** [join] of a relative path: the directory, a separator, the path. *)
Definition base_of (dir : string) : string := if String.eqb dir "" || ends_with_slash dir then dir else dir +:+ "/".
Lemma join_base dir a : starts_with a "/" = false -> join dir a = base_of dir +:+ a.
Proof. intros Ha. unfold join, base_of. rewrite Ha. destruct (_ || _); [done|]. by rewrite string_app_assoc. Qed.

Lemma ends_with_slash_app a b : b <> ""%string -> ends_with_slash (a +:+ b) = ends_with_slash b.
Proof.
  intros Hb. unfold ends_with_slash. rewrite string_rev_app. destruct (string_rev b) as [|c r] eqn:E.
  - apply (f_equal string_rev) in E. rewrite string_rev_involutive in E. done.
  - rewrite string_app_cons. cbn [String.prefix]. destruct (ascii_dec "/" c); [|done].
    rewrite <- (string_app_nil_r r). rewrite string_app_assoc. destruct r, (string_rev a); done.
Qed.
Lemma plain_end s : plain s -> ends_with_slash s = false.
Proof.
  intros [Hn Hf]. destruct (string_rev s) as [|c r] eqn:E.
  { apply (f_equal string_rev) in E. rewrite string_rev_involutive in E. done. }
  unfold ends_with_slash. rewrite E. cbn [String.prefix]. destruct (ascii_dec "/" c) as [<-|]; [|done].
  apply (f_equal string_rev) in E. rewrite string_rev_involutive in E. cbn in E. subst s.
  rewrite free_of_app in Hf. apply andb_prop in Hf as [_ Hf]. done.
Qed.
Lemma plain_start s : plain s -> starts_with s "/" = false.
Proof. intros [_ Hf]. by apply starts_slash_free. Qed.
Lemma plain_nonempty_app a b : plain b -> String.eqb (a +:+ b) "" = false.
Proof. intros [Hb _]. destruct a as [|c a]; [|done]. rewrite string_app_nil_l. by destruct b. Qed.

Lemma base_of_app a b : plain b -> base_of (a +:+ b) = a +:+ b +:+ "/".
Proof.
  intros Hb. unfold base_of. rewrite (plain_nonempty_app a b Hb), ends_with_slash_app by apply Hb.
  rewrite (plain_end b Hb). by rewrite string_app_assoc.
Qed.
(** A plain component. *)
Lemma join_plain dir a : plain a -> join dir a = base_of dir +:+ a /\ base_of (join dir a) = base_of dir +:+ a +:+ "/".
Proof. intros Ha. rewrite join_base by by apply plain_start. split; [done|]. by apply base_of_app. Qed.
Lemma join_join dir a b : plain a -> starts_with b "/" = false -> join (join dir a) b = base_of dir +:+ a +:+ "/" +:+ b.
Proof. intros Ha Hb. rewrite join_base by done. destruct (join_plain dir a Ha) as [_ ->]. by rewrite !string_app_assoc. Qed.

(** Two different first components. *)
Lemma split_slash a b x y : slash_free a = true -> slash_free b = true ->
  a +:+ "/" +:+ x = b +:+ "/" +:+ y -> a = b /\ x = y.
Proof.
  intros Ha Hb E. apply (f_equal (split_once slash)) in E.
  change ("/" +:+ x) with (String slash x) in E. change ("/" +:+ y) with (String slash y) in E.
  rewrite !split_once_app in E by done. by injection E.
Qed.

Lemma padded_slash_free w n : 0 <= n -> slash_free (EpisodeAllocation.padded w n) = true.
Proof.
  intros Hn. unfold EpisodeAllocation.padded. rewrite free_of_app, (pretty_slash_free n Hn), andb_true_r.
  induction (w - _)%nat as [|[|k] IH]; [done|done|exact IH].
Qed.
Lemma padded_plain w n : 0 <= n -> plain (EpisodeAllocation.padded w n).
Proof.
  intros Hn. split; [|by apply padded_slash_free]. rewrite <- (Z2Nat.id n Hn). unfold EpisodeAllocation.padded.
  rewrite pretty_Z_nat. intros E. apply (f_equal String.length) in E. rewrite string_length_app in E. cbn in E.
  destruct (decide (Z.to_nat n = 0%nat)) as [Hz|Hz]; [rewrite Hz in E; change (pretty (N.of_nat 0)) with "0"%string in E; cbn in E; lia|].
  pose proof (pretty_nonempty (Z.to_nat n) Hz) as Hp. destruct (pretty (N.of_nat (Z.to_nat n))); [done|]. cbn in E. lia.
Qed.
Lemma plain_app a b : plain a -> slash_free b = true -> plain (a +:+ b).
Proof.
  intros [Ha Hf] Hb. split; [|by rewrite free_of_app, Hf, Hb]. destruct a; [done|]. by rewrite string_app_cons.
Qed.

Section Paths.
Variables dir sid : string.
Hypothesis sid_plain : plain sid.

Definition temp_dir : string := join (join dir "temp") sid.
Definition segment_dir (i : Z) : string := join temp_dir ("segment_" +:+ EpisodeAllocation.padded 4 i).
Definition segment_path (i : Z) (camera : string) : string := join (join (segment_dir i) camera) "segment.mp4".
Definition episode_tail (e : Z) (ext : string) : string := "episode_" +:+ EpisodeAllocation.padded 6 e +:+ ext.
Definition video_path (c e : Z) (camera : string) : string :=
  join dir ("videos/chunk-" +:+ EpisodeAllocation.padded 3 c +:+ "/" +:+ camera +:+ "/episode_" +:+ EpisodeAllocation.padded 6 e +:+ ".mp4").
Definition parquet_path (c e : Z) : string :=
  join dir ("data/chunk-" +:+ EpisodeAllocation.padded 3 c +:+ "/episode_" +:+ EpisodeAllocation.padded 6 e +:+ ".parquet").

Lemma temp_plain : plain "temp".
Proof. done. Qed.
Lemma temp_flat : temp_dir = base_of dir +:+ "temp/" +:+ sid /\ base_of temp_dir = base_of dir +:+ "temp/" +:+ sid +:+ "/".
Proof.
  unfold temp_dir. destruct (join_plain (join dir "temp") sid sid_plain) as [-> ->].
  destruct (join_plain dir "temp" temp_plain) as [_ ->]. by rewrite !string_app_assoc.
Qed.
Lemma segment_flat i camera : 0 <= i -> plain camera ->
  segment_path i camera = base_of dir +:+ "temp/" +:+ sid +:+ "/segment_" +:+ EpisodeAllocation.padded 4 i +:+ "/" +:+ camera +:+ "/segment.mp4".
Proof.
  intros Hi Hc. unfold segment_path, segment_dir. rewrite join_join by done.
  assert (Hs : plain ("segment_" +:+ EpisodeAllocation.padded 4 i)) by (apply plain_app; [done|by apply padded_slash_free]).
  destruct (join_plain temp_dir _ Hs) as [_ ->]. destruct temp_flat as [_ ->]. by rewrite !string_app_assoc.
Qed.

Lemma segment_inj i j camera camera' : 0 <= i -> 0 <= j -> plain camera -> plain camera' ->
  segment_path i camera = segment_path j camera' -> i = j /\ camera = camera'.
Proof.
  intros Hi Hj Hc Hc'. rewrite !segment_flat by done. intros E. do 3 apply string_app_inv_l in E.
  apply string_app_inv_l in E.
  apply split_slash in E as [Ep E]; [|by apply padded_slash_free..].
  apply string_app_inj_r in E. split; [|done]. rewrite <- (Z2Nat.id i Hi), <- (Z2Nat.id j Hj), !padded_padded4 in Ep.
  apply padded4_inj in Ep. lia.
Qed.

Lemma video_flat c e camera : video_path c e camera
  = base_of dir +:+ "videos/chunk-" +:+ EpisodeAllocation.padded 3 c +:+ "/" +:+ camera +:+ "/episode_" +:+ EpisodeAllocation.padded 6 e +:+ ".mp4".
Proof. unfold video_path. rewrite join_base; [done|]. by rewrite starts_slash_app. Qed.
Lemma parquet_flat c e : parquet_path c e
  = base_of dir +:+ "data/chunk-" +:+ EpisodeAllocation.padded 3 c +:+ "/episode_" +:+ EpisodeAllocation.padded 6 e +:+ ".parquet".
Proof. unfold parquet_path. rewrite join_base; [done|]. by rewrite starts_slash_app. Qed.
Lemma video_inj c e camera camera' : video_path c e camera = video_path c e camera' -> camera = camera'.
Proof. rewrite !video_flat. intros E. do 4 apply string_app_inv_l in E. by apply string_app_inj_r in E. Qed.

Lemma segment_video i camera c e camera' : 0 <= i -> plain camera -> segment_path i camera <> video_path c e camera'.
Proof. intros Hi Hc. rewrite segment_flat, video_flat by done. intros E. by apply string_app_inv_l in E. Qed.
Lemma segment_parquet i camera c e : 0 <= i -> plain camera -> segment_path i camera <> parquet_path c e.
Proof. intros Hi Hc. rewrite segment_flat, parquet_flat by done. intros E. by apply string_app_inv_l in E. Qed.
Lemma video_parquet c e camera c' e' : video_path c e camera <> parquet_path c' e'.
Proof. rewrite video_flat, parquet_flat. intros E. by apply string_app_inv_l in E. Qed.

(** What is not removed with the temporary files. *)
Lemma under_temp rest : starts_with rest "t" = false -> LerobotWriter.under temp_dir (base_of dir +:+ rest) = false.
Proof.
  intros Hr. apply not_true_is_false. unfold LerobotWriter.under. intros [t E]%starts_with_iff.
  destruct temp_flat as [Et _]. rewrite Et, !string_app_assoc in E. apply string_app_inv_l in E. subst rest.
  rewrite (proj2 (starts_with_iff _ "t")) in Hr; [done|]. by exists ("emp/" +:+ sid +:+ "/" +:+ t).
Qed.
End Paths.
