(* ===== verification/LerobotEpisode.v ===== *)
(** * An episode of the LeRobot writer

    Whatever the flush limits, an episode of well-formed images is stored whole: the segments
    flushed while it was recorded and what was left in the buffers make the videos, and the
    table has all frames.  A second episode of the same writer takes the place of the first. *)
From Corelib Require Import SpecFloat.
From stdpp Require Import pretty.
From S2P Require Import Prelude Floats Stats Episode Storage Fragment Image VideoFrame DatasetPipeline Lerobot LerobotLaws.
#[local] Open Scope Z_scope.

(** ** What is relied on

    FFmpeg, as the encoder and the composer drive it: [shows codec v fs] says that the video has a picture
    for each of the frames, in order.  Frames of one size that the codec supports are encoded; videos
    of one codec and one such size, read to their ends, are concatenated.  Nothing is assumed of
    videos that are cut short.  A data frame is made of columns of one height with different names. *)
Definition sized (w h : Z) (f : VideoFrame.t) : Prop :=
  VideoFrame.width f = w /\ VideoFrame.height f = h /\ VideoFrame.validate f = Ok tt.
Class MediaLaws `{Media} := {
  supported : Z -> string -> Z -> Z -> Prop;
  shows : string -> Video -> list VideoFrame.t -> Prop;
  encode_shows : forall fps codec w h fs, supported fps codec w h -> fs <> [] -> Forall (sized w h) fs ->
    exists v n, encode_video fps codec fs = Ok (v, n) /\ shows codec v fs;
  compose_shows : forall fps codec w h vs fss, supported fps codec w h -> (2 <= length vs)%nat ->
    Forall2 (shows codec) vs fss -> Forall (sized w h) (mjoin fss) ->
    exists v, compose_videos vs = Ok v /\ shows codec v (mjoin fss);
  data_frame_ok : forall cols n, Forall (fun s => height s = n) cols -> NoDup (column <$> cols) -> data_frame_error cols = None }.

(** ** Images of one size *)

(** A raw RGB image of the given size. *)
Definition shot (w h : Z) (i : ImageData.t) : Prop :=
  ImageData.is_encoded i = false /\ ImageData.width i = w /\ ImageData.height i = h
  /\ len (ImageData.data i) = w * h * 3.
Definition positive (w h : Z) : Prop := 0 < w < u32_mod /\ 0 < h < u32_mod /\ w * h * 3 <= u64_max.
(** Its frame. *)
Definition picture (i : ImageData.t) : VideoFrame.t := VideoFrame.new (ImageData.width i) (ImageData.height i) (ImageData.data i).

Lemma picture_sized w h i : positive w h -> shot w h i -> sized w h (picture i).
Proof.
  intros (Hw & Hh & Hp) (_ & Ew & Eh & El). split; [done|]. split; [done|].
  unfold is_u32. apply validate_iff_well_formed; unfold picture, VideoFrame.new, VideoFrame.data; cbn; rewrite ?Ew, ?Eh, ?El; unfold is_u32; try lia.
Qed.

Lemma collect_shots decode w h images b : positive w h -> Forall (shot w h) images ->
  (SizedBuffer.frames b = [] /\ b = SizedBuffer.new \/ SizedBuffer.width b = Some w /\ SizedBuffer.height b = Some h) ->
  exists b', collect_images decode images (b, 0) = (b', 0)
    /\ SizedBuffer.frames b' = SizedBuffer.frames b ++ (picture <$> images).
Proof.
  intros Hp Hs. pose proof Hp as (Hw & Hh & _). revert b. induction Hs as [|i images Hi Hs IH]; intros b Hb.
  { exists b. by rewrite app_nil_r. }
  pose proof (picture_sized w h i Hp Hi) as (Pw & Ph & Pv). destruct Hi as (Ei & <- & <- & El).
  cbn [collect_images]. rewrite Ei. destruct (Z.eqb_spec (ImageData.width i) 0); [lia|].
  destruct (Z.eqb_spec (ImageData.height i) 0); [lia|]. cbn [orb]. unfold add_or_skip. cbn [fst snd]. fold (picture i).
  assert (Ha : exists b1, SizedBuffer.add_frame (picture i) b = Ok b1 /\ SizedBuffer.frames b1 = SizedBuffer.frames b ++ [picture i]
     /\ SizedBuffer.width b1 = Some (ImageData.width i) /\ SizedBuffer.height b1 = Some (ImageData.height i)).
  { unfold SizedBuffer.add_frame. cbn [frame_validate VideoFrame_sized frame_width frame_height]. rewrite Pv. cbn.
    destruct Hb as [[_ ->]|[-> ->]]; cbn; [by eexists|]. rewrite !Z.eqb_refl. cbn. by eexists. }
  destruct Ha as (b1 & -> & Hf & Hbw & Hbh). destruct (IH b1) as (b' & Eb & Hb'); [by right|].
  exists b'. split; [done|]. by rewrite Hb', Hf, <- app_assoc.
Qed.
Lemma build_shots decode n w h images : positive w h -> Forall (shot w h) images ->
  exists b, build_frame_buffer_static decode n images = (b, 0) /\ SizedBuffer.frames b = picture <$> images.
Proof.
  intros Hp Hs. destruct (collect_shots decode w h images SizedBuffer.new Hp Hs) as (b & Eb & Hb); [by left|].
  exists b. split; [|done]. unfold build_frame_buffer_static. destruct (_ && _); [|done]. by rewrite collect_agree.
Qed.

(** ** Runs without faults *)
Section Runs.
Context `{MediaLaws} `{!HashOrder string}.
Import LerobotWriter.
Implicit Types (fs : gmap string (Content Video)) (x : World).

Definition quiet x : Prop := forall n, faults x n = None.
(** [m] returns [a] and leaves the writer and the files as given. *)
Definition evals {A} (m : Run World A) (w : t) fs (a : A) (w' : t) fs' : Prop :=
  forall x, writer x = w -> files x = fs -> quiet x -> exists y, m x = (Ok a, y) /\ writer y = w' /\ files y = fs' /\ quiet y.

Lemma evals_bind {A B} (m : Run World A) (k : A -> Run World B) w fs a w1 fs1 b w2 fs2 :
  evals m w fs a w1 fs1 -> evals (k a) w1 fs1 b w2 fs2 -> evals (m ≫= k) w fs b w2 fs2.
Proof.
  intros Hm Hk x Hw Hf Hq. destruct (Hm x Hw Hf Hq) as (y & Ey & Hw1 & Hf1 & Hq1).
  destruct (Hk y Hw1 Hf1 Hq1) as (z & Ez & Hz). exists z. split; [|done]. unfold mbind, Run_bind. by rewrite Ey.
Qed.
Lemma evals_ret {A} (a : A) w fs : evals (mret a) w fs a w fs.
Proof. intros x Hw Hf Hq. by exists x. Qed.
Lemma evals_result {A} (r : result string A) a w fs : r = Ok a -> evals (fun x => (r, x)) w fs a w fs.
Proof. intros -> x Hw Hf Hq. by exists x. Qed.
Lemma evals_get w fs : evals get w fs w w fs.
Proof. intros x <- Hf Hq. by exists x. Qed.
Lemma evals_modify f w fs : evals (modify f) w fs tt (f w) fs.
Proof. intros x <- Hf Hq. by eexists. Qed.
Lemma evals_lift {A} (a : A) w fs : evals (lift (Ok a)) w fs a w fs.
Proof. intros x Hw Hf Hq. by exists x. Qed.
Lemma evals_disk f w fs : evals (disk f) w fs tt w (f fs).
Proof. intros x <- <- Hq. unfold disk. rewrite Hq. by eexists. Qed.
Lemma evals_store p c w fs : evals (store p c) w fs tt w (<[p := c]> fs).
Proof. apply evals_disk. Qed.
Lemma evals_dir p w fs : evals (create_dir_all p) w fs tt w fs.
Proof. apply (evals_disk id). Qed.
Lemma evals_create p c w fs : evals (create_and_write p c) w fs tt w (<[p := c]> fs).
Proof. eapply evals_bind; [apply evals_store|]. cbn. rewrite <- (insert_insert_eq fs p c Broken). apply evals_store. Qed.
Lemma evals_read p c w fs : fs !! p = Some c -> evals (read_file p) w fs c w fs.
Proof. intros Hc x <- <- Hq. unfold read_file. rewrite Hq, Hc. by eexists. Qed.
Lemma evals_attempt m w fs w' fs' : evals m w fs tt w' fs' -> evals (attempt m) w fs tt w' fs'.
Proof. intros Hm x Hw Hf Hq. destruct (Hm x Hw Hf Hq) as (y & Ey & Hy). exists y. split; [|done]. unfold attempt. by rewrite Ey. Qed.
Lemma evals_succeeds m w fs w' fs' : evals m w fs tt w' fs' -> evals (succeeds m) w fs true w' fs'.
Proof. intros Hm x Hw Hf Hq. destruct (Hm x Hw Hf Hq) as (y & Ey & Hy). exists y. split; [|done]. unfold succeeds. by rewrite Ey. Qed.

(** ** Flushing *)
Variables dir sid : string.
Variable cfg : LerobotConfig.t.
Hypothesis sid_plain : plain sid.

Abbreviation codec := (LerobotConfig.codec cfg).
Abbreviation seg_dir := (segment_dir dir sid).
Abbreviation seg_path := (segment_path dir sid).

(** Images of one camera that make a video. *)
Definition filmed (camera : string) (images : list ImageData.t) : Prop :=
  plain camera /\ exists w h, positive w h /\ supported (LerobotConfig.fps cfg) codec w h /\ Forall (shot w h) images.
Definition recorded fs (p : string) (images : list ImageData.t) : Prop :=
  exists v, fs !! p = Some (VideoFile v) /\ shows codec v (picture <$> images).

Lemma recorded_same fs fs' p images : fs' !! p = fs !! p -> recorded fs p images -> recorded fs' p images.
Proof. intros E (v & Hv & Hs). exists v. by rewrite E. Qed.

Lemma filmed_encode w camera images : config w = cfg -> filmed camera images -> images <> [] ->
  exists b v n, build_frames images = (b, 0) /\ SizedBuffer.is_empty b = false
    /\ encode w (SizedBuffer.frames b) = Ok (v, n) /\ shows codec v (picture <$> images).
Proof.
  intros Hc (_ & wd & ht & Hp & Hsup & Hs) Hne.
  destruct (build_shots decode_compressed_image num_threads wd ht images Hp Hs) as (b & Eb & Hf).
  destruct (encode_shows (LerobotConfig.fps cfg) codec wd ht (picture <$> images)) as (v & n & Ev & Hv); [done|by destruct images| |].
  { apply Forall_fmap. eapply Forall_impl; [done|]. intros i. by apply picture_sized. }
  exists b, v, n. split_and!; [done| | |done].
  - unfold SizedBuffer.is_empty. rewrite Hf. by destruct images.
  - unfold encode. by rewrite Hf, Hc.
Qed.

(** The cameras that have images. *)
Definition busy (cams : list (string * list ImageData.t)) : list (string * list ImageData.t) := filter (fun p => p.2 <> []) cams.

Lemma evals_flush_cameras w0 i cams s segs w fs : 0 <= i -> config w0 = cfg -> NoDup cams.*1 ->
  Forall (fun p => filmed p.1 p.2) (busy cams) ->
  exists s' fs', evals (flush_cameras w0 (seg_dir i) cams s segs) w fs (s', segs ++ ((fun p => (seg_path i p.1, p.1)) <$> busy cams)) w fs'
    /\ (forall p, (forall c, plain c -> p <> seg_path i c) -> fs' !! p = fs !! p)
    /\ (forall c, plain c -> c ∉ cams.*1 -> fs' !! seg_path i c = fs !! seg_path i c)
    /\ Forall (fun p => recorded fs' (seg_path i p.1) p.2) (busy cams).
Proof.
  intros Hi Hc. revert s segs w fs. induction cams as [|[c images] cams IH]; intros s segs w fs Hd Hg.
  { exists s, fs. rewrite app_nil_r. split_and!; [apply evals_ret|done..|constructor]. }
  apply NoDup_cons in Hd as [Hcn Hd]. cbn [flush_cameras]. destruct (bool_decide_reflect (images = [])) as [->|Hne].
  { destruct (IH s segs w fs Hd Hg) as (s' & fs' & He & Ho & Hcs & Hr). exists s', fs'. split_and!; [done..| |done].
    intros c' Hp Hn. apply Hcs; [done|]. cbn in Hn. set_solver. }
  assert (Eb : busy ((c, images) :: cams) = (c, images) :: busy cams) by by apply filter_cons_True.
  rewrite Eb in Hg |- *. apply Forall_cons in Hg as [Hf Hg]. pose proof Hf as [Hpl _]. cbn in Hpl.
  destruct (filmed_encode w0 c images Hc Hf Hne) as (b & v & n & -> & -> & -> & Hv).
  set (s1 := encode_stats (u64_add _ _) _ _ _).
  destruct (IH s1 (segs ++ [(seg_path i c, c)]) w (<[seg_path i c := VideoFile v]> fs) Hd Hg) as (s' & fs' & He & Ho & Hcs & Hr).
  exists s', fs'. split_and!.
  - eapply evals_bind; [apply evals_dir|]. eapply evals_bind; [apply evals_succeeds, evals_store|]. cbn.
    rewrite <- app_assoc in He. exact He.
  - intros p Hp. rewrite Ho by done. apply lookup_insert_ne. intros E. by apply (Hp c).
  - intros c' Hp Hn. cbn in Hn. apply not_elem_of_cons in Hn as [Hne' Hn]. rewrite Hcs by done. apply lookup_insert_ne.
    intros [_ E]%segment_inj; [done|done..].
  - constructor; [|done]. exists v. split; [|done]. cbn [fst]. rewrite Hcs by done. apply lookup_insert_eq.
Qed.

Lemma track_all (g : string -> string) (l : list (string * list ImageData.t)) m c : NoDup l.*1 ->
  default [] (foldl track_segment m ((fun p => (g p.1, p.1)) <$> l) !! c)
  = default [] (m !! c) ++ (if bool_decide (c ∈ l.*1) then [g c] else []).
Proof.
  revert m. induction l as [|[a images] l IH]; intros m Hd; [cbn; by rewrite app_nil_r|].
  apply NoDup_cons in Hd as [Ha Hd]. cbn [fmap list_fmap foldl fst]. rewrite IH by done. unfold track_segment. cbn [fst snd].
  destruct (decide (a = c)) as [->|Hne].
  - rewrite lookup_insert_eq. rewrite bool_decide_eq_false_2 by done. rewrite bool_decide_eq_true_2 by by left. cbn.
    by rewrite app_nil_r.
  - rewrite lookup_insert_ne by done. f_equal.
    rewrite (bool_decide_ext (c ∈ l.*1) (c ∈ a :: l.*1)); [done|]. rewrite elem_of_cons. naive_solver.
Qed.

(** The images of a camera in some frames. *)
Definition camera_images (c : string) (frames : list AlignedFrame.t) : list ImageData.t :=
  omap (fun f => AlignedFrame.images f !! c) frames.
Definition all_filmed (frames : list AlignedFrame.t) : Prop :=
  forall c, camera_images c frames <> [] -> filmed c (camera_images c frames).

(** ** The state of a recording *)
Definition settings (w : t) :=
  (output_dir w, session_id w, output_prefix w, config w, episode_index w, episodes_per_chunk w, initialized w, total_frames w,
   camera_intrinsics w, camera_extrinsics w, MetadataCollector.episodes (metadata w), MetadataCollector.total_frames (metadata w)).
Definition buffered (w : t) (c : string) : list ImageData.t := default [] (image_buffers w !! c).

(** A segment: its file and the images in it. *)
Record segment_of fs (n : Z) (c : string) (s : string * list ImageData.t) : Prop := {
  so_path : exists i, 0 <= i < n /\ s.1 = seg_path i c;
  so_images : s.2 <> [];
  so_file : recorded fs s.1 s.2 }.

Record recording (frames : list AlignedFrame.t) (w : t) fs : Prop := {
  rc_settings : settings w = (dir, sid, ""%string, cfg, 0, DEFAULT_EPISODES_PER_CHUNK, true, 0, ∅, ∅, [], 0);
  rc_frames : frame_data w = (fun f => LerobotFrame.from_aligned_frame f 0) <$> frames;
  rc_segment : 0 <= segment_index w;
  rc_cameras : forall c, exists segs, default [] (pending_segments w !! c) = segs.*1
    /\ Forall (segment_of fs (segment_index w) c) segs
    /\ mjoin segs.*2 ++ buffered w c = camera_images c frames }.

Lemma filmed_part frames w fs c : recording frames w fs -> all_filmed frames -> buffered w c <> [] -> filmed c (buffered w c).
Proof.
  intros Hr Hf Hb. destruct (rc_cameras _ _ _ Hr c) as (segs & _ & _ & Ei). destruct (Hf c) as (Hp & wd & ht & Hpos & Hsup & Hs).
  { rewrite <- Ei. by intros [_ ?]%app_eq_nil. }
  split; [done|]. exists wd, ht. split_and!; [done..|]. rewrite <- Ei in Hs. by apply Forall_app in Hs as [_ Hs].
Qed.

Lemma camera_data_NoDup w : NoDup (camera_data w).*1.
Proof. unfold camera_data. rewrite hash_iter_perm. apply NoDup_fst_map_to_list. Qed.
Lemma camera_data_elem w c images : (c, images) ∈ camera_data w <-> image_buffers w !! c = Some images.
Proof. unfold camera_data. rewrite hash_iter_perm. apply elem_of_map_to_list. Qed.
Lemma busy_NoDup cams : NoDup cams.*1 -> NoDup (busy cams).*1.
Proof.
  unfold busy. induction cams as [|p cams IH]; [done|]. rewrite fmap_cons. intros [Hp Hd]%NoDup_cons. rewrite filter_cons. case_decide; [|by apply IH].
  apply NoDup_cons. split; [|by apply IH]. intros (q & E & [_ Hq]%list_elem_of_filter)%list_elem_of_fmap. apply Hp. rewrite E.
  by apply list_elem_of_fmap_2.
Qed.
Lemma busy_elem w c images : (c, images) ∈ busy (camera_data w) <-> buffered w c = images /\ images <> [].
Proof.
  unfold busy, buffered. rewrite list_elem_of_filter, camera_data_elem. cbn. split.
  - by intros [? ->].
  - destruct (image_buffers w !! c); cbn; [by intros [-> ?]|]. by intros [<- ?].
Qed.
Lemma all_empty_iff w : all_empty w = true <-> forall c, buffered w c = [].
Proof.
  unfold all_empty. rewrite forallb_forall. split.
  - intros Hall c. unfold buffered. destruct (image_buffers w !! c) as [images|] eqn:E; [|done].
    specialize (Hall (c, images)). rewrite <- list_elem_of_In, elem_of_map_to_list in Hall. by apply bool_decide_eq_true_1 in Hall.
  - intros Hc [c images]. rewrite <- list_elem_of_In, elem_of_map_to_list. intros E. specialize (Hc c). unfold buffered in Hc.
    rewrite E in Hc. by apply bool_decide_eq_true_2.
Qed.

Lemma recording_dir frames w fs : recording frames w fs ->
  output_dir w = dir /\ session_id w = sid /\ output_prefix w = ""%string /\ config w = cfg
  /\ episode_index w = 0 /\ episodes_per_chunk w = DEFAULT_EPISODES_PER_CHUNK /\ initialized w = true.
Proof. intros [Hs _ _ _]. unfold settings in Hs. by injection Hs. Qed.

Lemma segment_of_later fs fs' n n' c s : n <= n' -> plain c ->
  (forall i, 0 <= i < n -> fs' !! seg_path i c = fs !! seg_path i c) -> segment_of fs n c s -> segment_of fs' n' c s.
Proof.
  intros Hn Hc Hsame [(i & Hi & Ep) Hne Hf]. split; [exists i; split; [lia|done]|done|].
  eapply recorded_same; [|done]. rewrite Ep. by apply Hsame.
Qed.
(** A camera with segments has images. *)
Lemma segments_plain frames w fs c segs : all_filmed frames -> Forall (segment_of fs (segment_index w) c) segs ->
  mjoin segs.*2 ++ buffered w c = camera_images c frames -> segs <> [] -> plain c.
Proof.
  intros Hf Hs Ei Hne. apply Hf. rewrite <- Ei. destruct Hs as [|s segs [_ Hi _] _]; [done|]. cbn. by destruct s.2.
Qed.

Lemma flush_keeps frames w fs : recording frames w fs -> all_filmed frames -> segment_index w + 1 < u32_mod ->
  exists w' fs', evals flush_video_segment w fs tt w' fs' /\ recording frames w' fs'
    /\ segment_index w' <= segment_index w + 1 /\ all_empty w' = true.
Proof.
  intros Hr Hf Hn. unfold flush_video_segment. destruct (all_empty w) eqn:Ea.
  { exists w, fs. split_and!; [|done|lia|done]. eapply evals_bind; [apply evals_get|]. cbn. rewrite Ea. apply evals_ret. }
  pose proof (recording_dir _ _ _ Hr) as (Hdir & Hsid & _ & Hcfg & _). pose proof (rc_segment _ _ _ Hr) as Hi.
  destruct (evals_flush_cameras w (segment_index w) (camera_data w) no_stats [] w fs Hi Hcfg (camera_data_NoDup w)) as (s & fs' & He & Ho & _ & Hrec).
  { apply Forall_forall. intros [c images] [<- Hne]%busy_elem. by eapply filmed_part. }
  eexists _, fs'. split; [|split; [split|]].
  - eapply evals_bind; [apply evals_get|]. cbn. rewrite Ea, Hdir, Hsid. eapply evals_bind; [apply evals_dir|].
    eapply evals_bind; [exact He|]. cbn [app]. apply evals_modify.
  - apply (rc_settings _ _ _ Hr).
  - apply (rc_frames _ _ _ Hr).
  - cbn. rewrite u32_add_small; lia.
  - intros c. destruct (rc_cameras _ _ _ Hr c) as (segs & Ep & Hs & Ei). cbn.
    exists (segs ++ if bool_decide (c ∈ (busy (camera_data w)).*1) then [(seg_path (segment_index w) c, buffered w c)] else []).
    rewrite (track_all (seg_path (segment_index w))).
    2: apply busy_NoDup, camera_data_NoDup.
    assert (Hb : c ∈ (busy (camera_data w)).*1 <-> buffered w c <> []).
    { rewrite list_elem_of_fmap. split; [intros ([c' images] & -> & [<- ?]%busy_elem); done|].
      intros Hne. exists (c, buffered w c). split; [done|]. by apply busy_elem. }
    split_and!.
    + rewrite fmap_app, Ep. f_equal. by case_bool_decide.
    + apply Forall_app. split.
      * destruct segs as [|s0 segs]; [constructor|]. assert (Hpl : plain c) by by eapply segments_plain.
        eapply Forall_impl; [done|]. intros s'. apply segment_of_later; [rewrite u32_add_small; lia|done|].
        intros i Hi'. apply Ho. intros c' Hp' [E _]%segment_inj; [lia|done|lia|done..].
      * case_bool_decide as Hc; [|constructor]. apply Hb in Hc. constructor; [|constructor]. split; cbn; [|done|].
        { exists (segment_index w). rewrite u32_add_small by lia. split; [lia|done]. }
        apply (proj1 (Forall_forall _ _) Hrec (c, buffered w c)). by apply busy_elem.
    + rewrite fmap_app, join_app. unfold buffered at 2. cbn. rewrite lookup_fmap.
      assert (Hz : default [] ((fun _ => []) <$> image_buffers w !! c) = [] :> list ImageData.t) by by destruct (image_buffers w !! c).
      rewrite Hz, app_nil_r. rewrite <- Ei. f_equal. case_bool_decide as Hc; cbn; [by rewrite app_nil_r|].
      destruct (buffered w c) eqn:E; [done|]. destruct Hc. by apply Hb.
  - split; [cbn; rewrite u32_add_small; lia|]. apply all_empty_iff. intros c. unfold buffered. cbn. rewrite lookup_fmap.
    by destruct (image_buffers w !! c).
Qed.

(** ** Frames *)
Abbreviation add_images := (foldl (fun w '(camera, data) => add_image camera data w)).
Lemma add_images_same l w : let w' := add_images w l in
  settings w' = settings w /\ frame_data w' = frame_data w /\ segment_index w' = segment_index w
  /\ pending_segments w' = pending_segments w.
Proof. revert w. induction l as [|[c d] l IH]; intros w; [done|]. cbn. by destruct (IH (add_image c d w)) as (-> & -> & -> & ->). Qed.
Lemma add_images_buffered l w c : NoDup l.*1 ->
  buffered (add_images w l) c = buffered w c ++ option_list ((list_to_map l : gmap string ImageData.t) !! c).
Proof.
  revert w. induction l as [|[a d] l IH]; intros w Hd; [cbn; by rewrite app_nil_r|].
  apply NoDup_cons in Hd as [Ha Hd]. cbn [foldl list_to_map fst snd]. cbn in Ha. rewrite IH by done. unfold buffered, add_image. cbn.
  destruct (decide (a = c)) as [->|Hne].
  - rewrite !lookup_insert_eq, not_elem_of_list_to_map_1 by done. cbn. by rewrite app_nil_r.
  - by rewrite !lookup_insert_ne.
Qed.
Lemma hash_list_to_map {A} (m : gmap string A) : list_to_map (hash_iter m) = m.
Proof.
  assert (Hn : NoDup (hash_iter m).*1) by (rewrite hash_iter_perm; apply NoDup_fst_map_to_list).
  rewrite (list_to_map_proper _ (map_to_list m)); [apply list_to_map_to_list|done|apply hash_iter_perm].
Qed.

Lemma camera_images_snoc c frames f : camera_images c (frames ++ [f]) = camera_images c frames ++ option_list (AlignedFrame.images f !! c).
Proof. unfold camera_images. rewrite omap_app. cbn. by destruct (_ !! c). Qed.

Lemma frame_keeps frames f w fs : recording frames w fs -> all_filmed (frames ++ [f]) -> segment_index w + 1 < u32_mod ->
  exists w' fs', evals (write_frame f) w fs tt w' fs' /\ recording (frames ++ [f]) w' fs' /\ segment_index w' <= segment_index w + 1.
Proof.
  intros Hr Hf Hn. pose proof (recording_dir _ _ _ Hr) as (_ & _ & _ & _ & He & _ & Hi).
  set (w1 := add_frame (LerobotFrame.from_aligned_frame f (episode_index w)) w).
  set (w2 := add_images w1 (hash_iter (AlignedFrame.images f))).
  assert (H1 : settings w1 = settings w /\ image_buffers w1 = image_buffers w /\ segment_index w1 = segment_index w
     /\ pending_segments w1 = pending_segments w).
  { unfold w1, add_frame. by destruct (LerobotFrame.observation_state _), (LerobotFrame.action _). }
  destruct H1 as (S1 & B1 & I1 & P1). destruct (add_images_same (hash_iter (AlignedFrame.images f)) w1) as (S2 & F2 & I2 & P2). fold w2 in S2, F2, I2, P2.
  assert (Hr2 : recording (frames ++ [f]) w2 fs).
  { split.
    - rewrite S2, S1. apply (rc_settings _ _ _ Hr).
    - rewrite F2. unfold w1. cbn. by rewrite (rc_frames _ _ _ Hr), fmap_app, He.
    - rewrite I2, I1. apply (rc_segment _ _ _ Hr).
    - intros c. destruct (rc_cameras _ _ _ Hr c) as (segs & Ep & Hs & Ei). exists segs. rewrite P2, P1, I2, I1. split_and!; [done..|].
      unfold w2. rewrite add_images_buffered by (rewrite hash_iter_perm; apply NoDup_fst_map_to_list).
      rewrite hash_list_to_map, camera_images_snoc, <- Ei, <- app_assoc. unfold buffered. by rewrite B1. }
  assert (Hev : forall w' fs', evals (if FlushingConfig.should_flush (images_since_flush w2) (estimate_memory_bytes w2)
      (LerobotConfig.flushing (config w2)) then attempt flush_video_segment else mret tt) w2 fs tt w' fs' ->
    evals (write_frame f) w fs tt w' fs').
  { intros w' fs' Hk. eapply evals_bind; [apply evals_get|]. cbn. rewrite Hi. cbn. eapply evals_bind; [apply evals_modify|].
    eapply evals_bind; [apply evals_modify|]. eapply evals_bind; [apply evals_get|]. exact Hk. }
  destruct (FlushingConfig.should_flush (images_since_flush w2) (estimate_memory_bytes w2) (LerobotConfig.flushing (config w2))) eqn:Ef.
  - destruct (flush_keeps _ _ _ Hr2 Hf) as (w' & fs' & He' & Hr' & Hi' & _); [by rewrite I2, I1|]. rewrite I2, I1 in Hi'.
    exists w', fs'. split; [|done]. by apply Hev, evals_attempt.
  - exists w2, fs. split; [|split; [done|rewrite I2, I1; lia]]. apply Hev, evals_ret.
Qed.

Fixpoint write_frames (frames : list AlignedFrame.t) : Run World unit :=
  match frames with [] => mret tt | f :: frames' => write_frame f;; write_frames frames' end.

Lemma all_filmed_prefix frames more : all_filmed (frames ++ more) -> all_filmed frames.
Proof.
  intros Hf c Hne. unfold camera_images in *. destruct (Hf c) as (Hp & wd & ht & Hpos & Hsup & Hs).
  { unfold camera_images. rewrite omap_app. by intros [? _]%app_eq_nil. }
  split; [done|]. exists wd, ht. split_and!; [done..|]. unfold camera_images in Hs. rewrite omap_app in Hs. by apply Forall_app in Hs as [Hs _].
Qed.

Lemma frames_keep frames before w fs : recording before w fs -> all_filmed (before ++ frames) ->
  segment_index w <= Z.of_nat (length before) -> Z.of_nat (length (before ++ frames)) + 1 < u32_mod ->
  exists w' fs', evals (write_frames frames) w fs tt w' fs' /\ recording (before ++ frames) w' fs'
    /\ segment_index w' <= Z.of_nat (length (before ++ frames)).
Proof.
  revert before w fs. induction frames as [|f frames IH]; intros before w fs Hr Hf Hi Hn.
  { rewrite app_nil_r. exists w, fs. split; [apply evals_ret|done]. }
  rewrite cons_middle, app_assoc in Hf, Hn |- *. rewrite !length_app in Hn. cbn [length] in Hn.
  destruct (frame_keeps before f w fs Hr) as (w1 & fs1 & He1 & Hr1 & Hi1); [by eapply all_filmed_prefix|lia|].
  destruct (IH (before ++ [f]) w1 fs1 Hr1 Hf) as (w' & fs' & He' & Hr' & Hi').
  { rewrite length_app. cbn. lia. }
  { rewrite !length_app. cbn. lia. }
  exists w', fs'. split; [|done]. eapply evals_bind; [exact He1|exact He'].
Qed.

(** ** Finalizing *)
Abbreviation v_path := (video_path dir 0 0).
Abbreviation p_path := (parquet_path dir 0 0).

Lemma recording_chunk frames w fs : recording frames w fs -> chunk_index w = Ok 0.
Proof. intros Hr. destruct (recording_dir _ _ _ Hr) as (_ & _ & _ & _ & He & Hc & _). unfold chunk_index. by rewrite He, Hc. Qed.

Lemma parquet_written frames w fs cols : recording frames w fs -> frames <> [] -> episode_columns (frame_data w) 0 0 = Ok cols ->
  evals write_episode_parquet w fs tt (w <| output_bytes := u64_add (output_bytes w) (parquet_size cols) |>) (<[p_path := ParquetFile cols]> fs).
Proof.
  intros Hr Hne Ec. pose proof (recording_dir _ _ _ Hr) as (Hdir & _ & _ & _ & He & _). pose proof (recording_chunk _ _ _ Hr) as Hc.
  unfold write_episode_parquet. eapply evals_bind; [apply evals_get|]. cbn beta. unfold chunk_dir. rewrite Hc.
  eapply evals_bind; [apply evals_lift|]. eapply evals_bind; [apply evals_dir|]. eapply evals_bind; [apply evals_lift|]. cbn beta.
  destruct (frame_data w) as [|f0 fs0] eqn:Ef.
  { rewrite (rc_frames _ _ _ Hr) in Ef. by destruct frames. }
  rewrite <- Ef. eapply evals_bind; [apply evals_result; rewrite He, Ef; exact Ec|]. cbn beta.
  rewrite (data_frame_ok cols (length (frame_data w))); [|rewrite Ef; by eapply columns_height|by eapply columns_NoDup].
  rewrite He, Hdir. eapply evals_bind; [apply evals_create|]. cbn beta. apply (evals_modify (fun w => w <| output_bytes := _ |>)).
Qed.

Definition pictures (l : list (list ImageData.t)) : list (list VideoFrame.t) := (fun images : list ImageData.t => picture <$> images : list VideoFrame.t) <$> l.

Lemma segments_read segs n c w fs : Forall (segment_of fs n c) segs ->
  exists vs : list Video, evals (read_segments segs.*1) w fs (VideoFile <$> vs) w fs /\ Forall2 (shows codec) vs (pictures segs.*2).
Proof.
  induction 1 as [|s segs [_ _ (v & Hv & Hs)] _ (vs & He & Hvs)]; [exists []; split; [apply evals_ret|constructor]|].
  exists (v :: vs). split; [|by constructor]. cbn [fmap list_fmap read_segments]. eapply evals_bind; [by apply evals_read|].
  eapply evals_bind; [exact He|]. apply evals_ret.
Qed.

Lemma mapM_videos (vs : list Video) : mapM as_video (VideoFile <$> vs) = Some vs.
Proof. induction vs as [|v vs IH]; [done|]. cbn. by rewrite IH. Qed.
Lemma pictures_join (l : list (list ImageData.t)) : mjoin (pictures l) = picture <$> mjoin l.
Proof.
  induction l as [|i l IH]; [done|]. change (mjoin (pictures (i :: l))) with ((picture <$> i) ++ mjoin (pictures l)).
  change (mjoin (i :: l)) with (i ++ mjoin l). by rewrite fmap_app, IH.
Qed.

(** Without a fault the sources are read to their ends. *)
Lemma evals_reads (vs : list Video) w fs : evals (compose_reads vs) w fs vs w fs.
Proof.
  induction vs as [|v vs IH]; [apply evals_ret|]. cbn [compose_reads]. eapply (evals_bind _ _ _ _ v w fs).
  { intros x Hw Hf Hq. eexists. by rewrite (Hq (clock x)). }
  eapply evals_bind; [exact IH|]. apply evals_ret.
Qed.

Lemma composed (vs : list Video) imgss c w fs : vs <> [] -> Forall2 (shows codec) vs (pictures imgss) -> filmed c (mjoin imgss) ->
  exists v, evals (compose (VideoFile <$> vs)) w fs (VideoFile v) w fs /\ shows codec v (picture <$> mjoin imgss).
Proof.
  intros Hne Hv (_ & wd & ht & Hpos & Hsup & Hs). destruct vs as [|v1 [|v2 vs]]; [done| |].
  - exists v1. split; [apply evals_ret|]. rewrite <- pictures_join. inversion Hv as [|? ? ? ? Hv1 Hn E1 E2]. inversion Hn. cbn. by rewrite app_nil_r.
  - destruct (compose_shows (LerobotConfig.fps cfg) codec wd ht (v1 :: v2 :: vs) _ Hsup ltac:(cbn; lia) Hv) as (v & Ev & Hsv).
    { rewrite pictures_join. apply Forall_fmap. eapply Forall_impl; [done|]. intros i. by apply picture_sized. }
    exists v. split; [|by rewrite <- pictures_join]. unfold compose. cbn [fmap list_fmap].
    change (VideoFile v1 :: VideoFile v2 :: (VideoFile <$> vs)) with (VideoFile <$> (v1 :: v2 :: vs)). rewrite mapM_videos.
    eapply evals_bind; [apply evals_reads|]. eapply evals_bind; [by apply evals_result|]. apply evals_ret.
Qed.

(** The segments of some cameras, each with its images. *)
Definition segments_known fs (n : Z) (l : list (string * list string)) (imgs : string -> list ImageData.t) : Prop :=
  Forall (fun p => exists segs, p.2 = segs.*1 /\ Forall (segment_of fs n p.1) segs /\ mjoin segs.*2 = imgs p.1
    /\ (segs <> [] -> filmed p.1 (imgs p.1))) l.

Lemma segments_known_store fs n l imgs p d : (forall i c, 0 <= i -> plain c -> seg_path i c <> p) ->
  segments_known fs n l imgs -> segments_known (<[p := d]> fs) n l imgs.
Proof.
  intros Hp Hk. eapply Forall_impl; [exact Hk|]. intros q (segs & Ep & Hs & Ei & Hf). exists segs. split_and!; [done| |done..].
  destruct segs as [|s segs]; [constructor|]. assert (Hpl : plain q.1) by by apply Hf.
  eapply Forall_impl; [exact Hs|]. intros s'. apply segment_of_later; [lia|done|]. intros i Hi. apply lookup_insert_ne.
  intros E. symmetry in E. by apply Hp in E; [|lia|].
Qed.

Lemma merge_keeps l n imgs w fs : NoDup l.*1 -> segments_known fs n l imgs ->
  output_dir w = dir -> output_prefix w = ""%string -> episode_index w = 0 ->
  exists fs', evals (merge_cameras w 0 l) w fs tt w fs'
    /\ (forall p, (forall c, p <> v_path c) -> fs' !! p = fs !! p)
    /\ (forall c, c ∉ l.*1 -> fs' !! v_path c = fs !! v_path c)
    /\ Forall (fun p => p.2 <> [] -> recorded fs' (v_path p.1) (imgs p.1)) l.
Proof.
  intros Hd Hk Hdir Hpre He. revert fs Hk. induction l as [|[c paths] l IH]; intros fs Hk.
  { exists fs. split_and!; [apply evals_ret|done..|constructor]. }
  apply NoDup_cons in Hd as [Hc Hd]. apply Forall_cons in Hk as [(segs & Ep & Hs & Ei & Hf) Hk]. cbn in Ep, Hs, Ei, Hf, Hc.
  destruct segs as [|s segs].
  { subst paths. destruct (IH Hd fs Hk) as (fs' & He' & Ho & Hn & Hr). exists fs'. split_and!.
    - cbn. eapply evals_bind; [apply evals_ret|exact He'].
    - done.
    - intros c' Hn'. cbn in Hn'. apply Hn. set_solver.
    - by constructor. }
  destruct (segments_read (s :: segs) n c w fs Hs) as (vs & Hv & Hsh).
  destruct (composed vs ((s :: segs).*2) c w fs) as (v & Ev & Hsv); [by inversion Hsh|done|rewrite Ei; by apply Hf|]. rewrite Ei in Hsv.
  assert (Efp : final_path w 0 c = v_path c) by (unfold final_path; by rewrite Hdir, Hpre, He).
  destruct (IH Hd _ (segments_known_store fs n l imgs (v_path c) (VideoFile v) (fun i c' Hi Hc' => segment_video dir sid sid_plain i c' 0 0 c Hi Hc') Hk)) as (fs' & He' & Ho & Hn & Hr).
  exists fs'. split_and!.
  - subst paths. cbn [merge_cameras fmap list_fmap]. eapply evals_bind; [|exact He'].
    eapply evals_bind; [exact Hv|]. cbn beta. eapply evals_bind; [exact Ev|]. cbn beta. rewrite Efp.
    eapply evals_bind; [apply evals_dir|]. apply evals_store.
  - intros p Hp. rewrite Ho by done. apply lookup_insert_ne. intros E. by apply (Hp c).
  - intros c' Hn'. cbn in Hn'. apply not_elem_of_cons in Hn' as [Hne Hn']. rewrite Hn by done. apply lookup_insert_ne.
    intros E%video_inj. done.
  - constructor; [|done]. intros _. cbn. exists v. split; [|done]. rewrite Hn by done. apply lookup_insert_eq.
Qed.

(** What neither the removal of the temporary files nor the metadata touches. *)
Definition kept (p : string) : Prop :=
  exists rest, p = base_of dir +:+ rest /\ starts_with rest "t" = false /\ starts_with rest "m" = false.
Lemma video_kept c : kept (v_path c).
Proof. rewrite video_flat. eexists. split; [reflexivity|done]. Qed.
Lemma parquet_kept : kept p_path.
Proof. rewrite parquet_flat. eexists. split; [reflexivity|done]. Qed.
Lemma kept_filter p fs : kept p -> filter (fun '(path, _) => under (temp_dir dir sid) path = false) fs !! p = fs !! p.
Proof.
  intros (rest & -> & Hr & _). pose proof (under_temp dir sid sid_plain rest Hr) as Hu.
  destruct (fs !! _) as [d|] eqn:E; [by apply map_lookup_filter_Some_2|]. apply map_lookup_filter_None_2. by left.
Qed.
Lemma kept_meta p name : kept p -> starts_with name "/" = false -> p <> join (join dir "meta") name.
Proof.
  intros (rest & -> & _ & Hr) Hn. rewrite join_join by done. intros E%string_app_inv_l. subst rest.
  rewrite (proj2 (starts_with_iff _ "m")) in Hr; [done|]. by exists ("eta/" +:+ name).
Qed.

Definition info_path : string := join (join dir "meta") "info.json".
Lemma meta_file_inj a b : starts_with a "/" = false -> starts_with b "/" = false -> a <> b -> join (join dir "meta") a <> join (join dir "meta") b.
Proof. intros Ha Hb Hne. rewrite !join_join by done. intros E. by do 3 apply string_app_inv_l in E. Qed.

Lemma evals_write_all w fs : output_dir w = dir -> exists fs', evals write_all w fs tt w fs'
  /\ (forall p, kept p -> fs' !! p = fs !! p)
  /\ fs' !! info_path = Some (InfoJson (MetadataCollector.info (config w) (metadata w))).
Proof.
  intros Hdir. set (j := join (join dir "meta")).
  assert (Hw : forall fs1, exists fs', evals
    ((if bool_decide (MetadataCollector.tasks (metadata w) = ∅) then mret tt
      else create_and_write (j "tasks.jsonl"%string) (TasksJsonl (MetadataCollector.task_lines (metadata w)))) : Run World unit) w fs1 tt w fs'
    /\ forall p, p <> j "tasks.jsonl"%string -> fs' !! p = fs1 !! p).
  { intros fs1. case_bool_decide; [exists fs1; split; [apply evals_ret|done]|]. eexists. split; [apply evals_create|].
    intros p Hp. by rewrite lookup_insert_ne. }
  destruct (Hw (<[j "episodes.jsonl"%string := EpisodesJsonl (MetadataCollector.episodes (metadata w))]>
    (<[j "info.json"%string := InfoJson (MetadataCollector.info (config w) (metadata w))]> fs))) as (fs1 & He & Ho).
  eexists. split; [|split].
  - eapply evals_bind; [apply evals_get|]. cbn zeta beta. rewrite Hdir. fold j. eapply evals_bind; [apply evals_dir|].
    eapply evals_bind; [apply evals_store|]. eapply evals_bind; [apply evals_create|]. eapply evals_bind; [exact He|]. apply evals_create.
  - intros p Hp. rewrite lookup_insert_ne by (intros E; by apply (kept_meta p "episodes_stats.jsonl" Hp)).
    rewrite Ho by by apply kept_meta. rewrite !lookup_insert_ne; [done| |]; intros E; symmetry in E; revert E; by apply kept_meta.
  - unfold info_path. fold j. rewrite lookup_insert_ne by (intros E; symmetry in E; revert E; by apply meta_file_inj).
    rewrite Ho by by apply meta_file_inj. rewrite lookup_insert_ne by (intros E; symmetry in E; revert E; by apply meta_file_inj).
    apply lookup_insert_eq.
Qed.

Lemma evals_merge w fs n imgs : output_dir w = dir -> session_id w = sid -> output_prefix w = ""%string -> episode_index w = 0 ->
  chunk_index w = Ok 0 -> segments_known fs n (hash_iter (pending_segments w)) imgs ->
  exists fs', evals merge_pending_segments w fs tt (w <| pending_segments := ∅ |>) fs' /\ fs' !! p_path = fs !! p_path
    /\ forall c, default [] (pending_segments w !! c) <> [] -> recorded fs' (v_path c) (imgs c).
Proof.
  intros Hdir Hsid Hpre He Hc Hk. unfold merge_pending_segments. destruct (bool_decide_reflect (pending_segments w = ∅)) as [E|E].
  { exists fs. split_and!; [|done|].
    - eapply evals_bind; [apply evals_get|]. cbn beta. rewrite bool_decide_eq_true_2 by done.
      replace (w <| pending_segments := ∅ |>) with w by (destruct w; cbn in *; by subst). apply evals_ret.
    - intros c. by rewrite E, lookup_empty. }
  destruct (merge_keeps (hash_iter (pending_segments w)) n imgs w fs) as (fs' & Hm & Ho & _ & Hr); [|done..|].
  { rewrite hash_iter_perm. apply NoDup_fst_map_to_list. }
  eexists. split; [|split].
  - eapply evals_bind; [apply evals_get|]. cbn beta. rewrite bool_decide_eq_false_2 by done. rewrite Hc.
    eapply evals_bind; [apply evals_lift|]. eapply evals_bind; [exact Hm|]. cbn zeta beta. rewrite Hdir, Hsid. fold (temp_dir dir sid).
    eapply evals_bind; [apply evals_attempt, evals_disk|]. apply (evals_modify (fun w => w <| pending_segments := ∅ |>)).
  - rewrite kept_filter by apply parquet_kept. apply Ho. intros c Ep. symmetry in Ep. by apply video_parquet in Ep.
  - intros c Hne. destruct (pending_segments w !! c) as [paths|] eqn:Ec; [|done]. cbn in Hne.
    eapply recorded_same; [apply kept_filter, video_kept|].
    apply (proj1 (Forall_forall _ _) Hr (c, paths)); [|done]. rewrite hash_iter_perm. by apply elem_of_map_to_list.
Qed.

(** After the last flush every image is in a segment. *)
Lemma recording_known frames w fs : recording frames w fs -> all_filmed frames -> all_empty w = true ->
  segments_known fs (segment_index w) (hash_iter (pending_segments w)) (fun c => camera_images c frames)
  /\ forall c, camera_images c frames <> [] -> default [] (pending_segments w !! c) <> [].
Proof.
  intros Hr Hf Ha. pose proof (proj1 (all_empty_iff w) Ha) as Hb. split.
  - apply Forall_forall. intros [c paths] Hp. rewrite hash_iter_perm in Hp. apply elem_of_map_to_list in Hp. cbn [fst snd].
    destruct (rc_cameras _ _ _ Hr c) as (segs & Ep & Hs & Ei). rewrite Hp in Ep. rewrite Hb, app_nil_r in Ei. exists segs.
    split_and!; [done..|]. intros Hne. apply Hf. rewrite <- Ei. destruct Hs as [|s segs [_ Hi _] _]; [done|]. cbn. by destruct s.2.
  - intros c Hne. destruct (rc_cameras _ _ _ Hr c) as (segs & Ep & _ & Ei). rewrite Hb, app_nil_r in Ei. rewrite Ep. intros Ez.
    apply Hne. rewrite <- Ei. by destruct segs.
Qed.

(** The table and the statistics of the episode. *)
Definition account (w : t) : t :=
  let n := Z.of_nat (length (frame_data w)) in
  let meta := MetadataCollector.add_episode (episode_index w) n [] (metadata w) in
  w <| total_frames := u64_add (total_frames w) n |> <| metadata := calculate_episode_stats (frame_data w) (episode_index w) meta |>.

Lemma episode_stats_same frames e m : MetadataCollector.episodes (calculate_episode_stats frames e m) = MetadataCollector.episodes m
  /\ MetadataCollector.total_frames (calculate_episode_stats frames e m) = MetadataCollector.total_frames m.
Proof. by destruct frames. Qed.

Lemma flush_rest frames w fs : recording frames w fs -> all_filmed frames -> segment_index w + 1 < u32_mod ->
  exists w' fs', evals (if negb (all_empty w) then flush_video_segment else mret tt) w fs tt w' fs' /\ recording frames w' fs' /\ all_empty w' = true.
Proof.
  intros Hr Hf Hn. destruct (all_empty w) eqn:Ea; cbn; [exists w, fs; split; [apply evals_ret|done]|].
  destruct (flush_keeps _ _ _ Hr Hf Hn) as (w' & fs' & ? & ? & _ & ?). by exists w', fs'.
Qed.

Lemma evals_metadata w fs : output_dir w = dir -> config w = cfg ->
  exists fs', evals (if LerobotConfig.finalize_metadata_in_coordinator (config w) then mret tt else write_all) w fs tt w fs'
    /\ (forall p, kept p -> fs' !! p = fs !! p)
    /\ (LerobotConfig.finalize_metadata_in_coordinator cfg = false -> fs' !! info_path = Some (InfoJson (MetadataCollector.info cfg (metadata w)))).
Proof.
  intros Hdir Hcfg. rewrite Hcfg. destruct (LerobotConfig.finalize_metadata_in_coordinator cfg); [exists fs; split; [apply evals_ret|done]|].
  destruct (evals_write_all w fs Hdir) as (fs' & ? & ? & Hi). exists fs'. split_and!; [done..|]. intros _. by rewrite Hi, Hcfg.
Qed.

(** The table is written and the episode counted. *)
Lemma evals_table frames w fs : recording frames w fs -> omap LerobotFrame.observation_state (frame_data w) <> [] ->
  exists cols w', episode_columns (frame_data w) 0 0 = Ok cols
    /\ evals (match frame_data w with [] => mret tt | _ => write_episode_parquet;; modify account end) w fs tt w' (<[p_path := ParquetFile cols]> fs)
    /\ (exists b, w' = account (w <| output_bytes := b |>)).
Proof.
  intros Hr Hst. destruct (columns_made _ 0 0 Hst) as [cols Ec]. assert (Hne : frames <> []).
  { intros ->. by rewrite (rc_frames _ _ _ Hr) in Hst. }
  eexists cols, _. split; [done|]. split; [|by eexists].
  destruct (frame_data w) as [|f0 l] eqn:Efd; [done|]. rewrite <- Efd in Ec.
  eapply evals_bind; [by eapply parquet_written|]. apply (evals_modify account).
Qed.

Lemma account_counts frames w fs b : recording frames w fs -> Z.of_nat (length frames) < u32_mod ->
  let w' := account (w <| output_bytes := b |>) in
  total_frames w' = Z.of_nat (length frames) /\ total_episodes (MetadataCollector.info cfg (metadata w')) = 1
  /\ info_total_frames (MetadataCollector.info cfg (metadata w')) = Z.of_nat (length frames).
Proof.
  intros Hr Hlen. pose proof (rc_settings _ _ _ Hr) as Hset. unfold settings in Hset. injection Hset as _ _ _ _ _ _ _ Ht _ _ Hme Hmt.
  cbn. rewrite (proj1 (episode_stats_same _ _ _)), (proj2 (episode_stats_same _ _ _)). cbn. rewrite Hme, Hmt, Ht.
  rewrite (rc_frames _ _ _ Hr), length_fmap. unfold u64_mod, u32_mod in *. rewrite u64_add_small by (unfold u64_mod; lia). split_and!; [lia|done|lia].
Qed.

Lemma evals_finalize frames w0 fs0 : recording frames w0 fs0 -> all_filmed frames ->
  omap LerobotFrame.observation_state (frame_data w0) <> [] ->
  segment_index w0 + 1 < u32_mod -> Z.of_nat (length frames) < u32_mod ->
  exists stats w' fs' cols, evals finalize w0 fs0 stats w' fs' /\ WriterStats.frames_written stats = Z.of_nat (length frames)
    /\ episode_columns ((fun f => LerobotFrame.from_aligned_frame f 0) <$> frames) 0 0 = Ok cols /\ fs' !! p_path = Some (ParquetFile cols)
    /\ (forall c, camera_images c frames <> [] -> recorded fs' (v_path c) (camera_images c frames))
    /\ (LerobotConfig.finalize_metadata_in_coordinator cfg = false -> exists i, fs' !! info_path = Some (InfoJson i)
          /\ total_episodes i = 1 /\ info_total_frames i = Z.of_nat (length frames)).
Proof.
  intros Hr0 Hf Hst Hn Hlen. destruct (flush_rest _ _ _ Hr0 Hf Hn) as (w & fs1 & Hfl & Hr & Ha).
  rewrite (rc_frames _ _ _ Hr0), <- (rc_frames _ _ _ Hr) in Hst.
  destruct (evals_table _ _ _ Hr Hst) as (cols & w2 & Ec & Htab & b & Ew2).
  pose proof (account_counts _ _ _ b Hr Hlen) as (Ct & Ce & Cf). rewrite <- Ew2 in Ct, Ce, Cf.
  pose proof (recording_dir _ _ _ Hr) as (Hdir & Hsid & Hpre & Hcfg & He & Hchunk & _). pose proof (rc_settings _ _ _ Hr) as Hset.
  unfold settings in Hset. injection Hset as _ _ _ _ _ _ _ _ Hci Hce _ _.
  destruct (recording_known _ _ _ Hr Hf Ha) as [Hk Hpend].
  assert (Hsame : output_dir w2 = dir /\ session_id w2 = sid /\ output_prefix w2 = ""%string /\ episode_index w2 = 0 /\ config w2 = cfg
    /\ camera_intrinsics w2 = ∅ /\ camera_extrinsics w2 = ∅ /\ pending_segments w2 = pending_segments w /\ chunk_index w2 = Ok 0).
  { rewrite Ew2. split_and!; try done. unfold chunk_index. cbn. by rewrite He, Hchunk. }
  destruct Hsame as (D2 & S2 & P2 & E2 & C2 & I2 & X2 & Q2 & K2).
  destruct (evals_merge w2 (<[p_path := ParquetFile cols]> fs1) (segment_index w) (fun c => camera_images c frames) D2 S2 P2 E2 K2) as (fs3 & Hmg & Hp3 & Hv3).
  { rewrite Q2. eapply segments_known_store; [|exact Hk]. intros i c Hi Hc. by apply segment_parquet. }
  set (w3 := w2 <| pending_segments := ∅ |>) in Hmg.
  destruct (evals_metadata w3 fs3 D2 C2) as (fs4 & Hwa & Hk4 & Hi4).
  eexists _, w3, fs4, cols. split; [|split_and!].
  - eapply evals_bind; [apply evals_get|]. cbn beta. eapply evals_bind; [exact Hfl|]. eapply evals_bind; [apply evals_get|]. cbn beta.
    eapply evals_bind; [exact Htab|]. eapply evals_bind; [exact Hmg|]. eapply (evals_bind _ _ _ _ tt w3 fs3).
    { eapply evals_bind; [apply evals_get|]. cbn beta. change (camera_intrinsics w3) with (camera_intrinsics w2).
      change (camera_extrinsics w3) with (camera_extrinsics w2). rewrite I2, X2. apply evals_ret. }
    eapply evals_bind; [apply evals_get|]. eapply evals_bind; [exact Hwa|]. eapply evals_bind; [apply evals_get|]. apply evals_ret.
  - exact Ct.
  - by rewrite <- (rc_frames _ _ _ Hr).
  - rewrite Hk4 by apply parquet_kept. rewrite Hp3. apply lookup_insert_eq.
  - intros c Hc. eapply recorded_same; [apply Hk4, video_kept|]. apply Hv3. rewrite Q2. by apply Hpend.
  - intros Hco. eexists. split; [by apply Hi4|]. done.
Qed.

Lemma fresh_recording fs : recording [] (fresh "" dir sid cfg) fs.
Proof. split; [done..|]. intros c. exists []. by split_and!. Qed.
Lemma evals_make_dirs w fs : evals (make_dirs dir) w fs tt w fs.
Proof. unfold make_dirs. do 3 (eapply evals_bind; [apply evals_dir|]; cbn beta). apply evals_dir. Qed.

(** The builder, for a local directory. *)
Definition local_builder : Builder := mkBuilder (Some dir) false None None (Some cfg).

(** C6: An episode is stored whole, however it was flushed.  A writer is built for a local directory, given fewer than
    2^32 - 1 frames and finalized, without a fault of the disk; at least one frame has a state, and each camera's
    images are raw, well formed and of one size that the codec supports; FFmpeg encodes such frames and
    concatenates such videos.  Then, for every choice of the flush limits, [finalize] succeeds and reports all
    frames; the Parquet file holds the columns of all frames; and the video of each camera shows all its images
    in the order of the frames, those of flushed segments and those left in the buffers.  Unless the
    configuration leaves the metadata to the coordinator, info.json counts one episode with all frames. *)
Theorem episode_stored_whole frames x :
  validate_not_cloud_url dir = true -> quiet x -> all_filmed frames -> Z.of_nat (length frames) + 1 < u32_mod ->
  omap LerobotFrame.observation_state ((fun f => LerobotFrame.from_aligned_frame f 0) <$> frames) <> [] ->
  exists stats y cols, (build sid local_builder;; write_frames frames;; finalize) x = (Ok stats, y)
    /\ WriterStats.frames_written stats = Z.of_nat (length frames)
    /\ episode_columns ((fun f => LerobotFrame.from_aligned_frame f 0) <$> frames) 0 0 = Ok cols
    /\ files y !! p_path = Some (ParquetFile cols)
    /\ (forall c, camera_images c frames <> [] -> recorded (files y) (v_path c) (camera_images c frames))
    /\ (LerobotConfig.finalize_metadata_in_coordinator cfg = false -> exists i, files y !! info_path = Some (InfoJson i)
          /\ total_episodes i = 1 /\ info_total_frames i = Z.of_nat (length frames)).
Proof.
  intros Hl Hq Hf Hn Hst.
  destruct (frames_keep frames [] _ _ (fresh_recording (files x)) Hf) as (w1 & fs1 & He1 & Hr1 & Hi1); [done|cbn; lia|]. cbn in Hi1, Hr1.
  destruct (evals_finalize frames w1 fs1 Hr1 Hf) as (stats & w' & fs' & cols & Hfin & Hrest); [by rewrite (rc_frames _ _ _ Hr1)|lia..|].
  assert (He : evals (build sid local_builder;; write_frames frames;; finalize) (writer x) (files x) stats w' fs').
  { eapply evals_bind; [|eapply evals_bind; [exact He1|exact Hfin]]. unfold build. cbn. rewrite Hl. cbn. eapply evals_bind; [apply evals_make_dirs|].
    apply (evals_modify (fun _ => fresh "" dir sid cfg)). }
  destruct (He x eq_refl eq_refl Hq) as (y & Ey & _ & <- & _). exists stats, y, cols. split; [exact Ey|]. exact Hrest.
Qed.
End Runs.

(** ** Episodes of one writer *)
Section Episodes.
Context `{Media} `{!HashOrder string}.
Import LerobotWriter.

(** The same episode over again: after an episode is finished the next one has index 0, and
    its files take the place of the earlier ones. *)
Theorem next_episode_is_zero o (x y : World) :
  DatasetPipeline.finish_episode x = (Ok tt, y) -> exists z, DatasetPipeline.start_episode o y = (Ok 0, z) /\ episode_index (writer z) = 0.
Proof.
  intros E. assert (Hd : frame_data (writer y) = []).
  { cbn in E. unfold mbind, Run_bind, get in E. unfold finish_episode in E. unfold mbind, Run_bind, get in E.
    destruct (frame_data (writer x)) as [|f l] eqn:Ef; [by injection E as <-|].
    destruct (write_episode_parquet x) as [[u|e|m] x1]; [|done..]. destruct (encode_videos x1) as [[s|e|m] x2]; [|done..].
    unfold modify in E. by injection E as <-. }
  eexists. split; cbn; unfold mbind, Run_bind, modify, get; cbn; by rewrite ?Hd.
Qed.
End Episodes.

(** A concrete encoder: a video is its frames. *)
Module LerobotExamples.
Import LerobotWriter.
Definition frames_media : Media := {|
  Video := list VideoFrame.t;
  encode_video _ _ fs := Ok (fs, Z.of_nat (length fs));
  compose_videos vs := Ok (mjoin vs);
  cut_short v := take 1 v;
  data_frame_error cols :=
    if bool_decide (NoDup (column <$> cols)) && forallb (fun s => (height s =? default 0 (height <$> head cols))%nat) cols then None
    else Some "invalid columns"%string;
  parquet_size cols := Z.of_nat (length cols);
  decode_compressed_image _ _ := None;
  num_threads := 4 |}.
#[local] Existing Instance frames_media.
#[local] Instance order : HashOrder string := list_order string.

Lemma frames_media_laws : MediaLaws.
Proof.
  refine {| supported _ _ _ _ := True; shows _ v fs := v = fs |}.
  - intros. by eexists _, _.
  - intros fps codec w h vs fss _ _ Hv _. exists (mjoin vs). split; [done|]. f_equal. by induction Hv as [|v fs vs fss -> _ ->].
  - intros cols n Hh Hd. cbn. rewrite bool_decide_eq_true_2 by done. cbn.
    destruct (forallb _ cols) eqn:E; [done|]. exfalso. apply not_true_iff_false in E. apply E. apply forallb_forall.
    intros s Hs. apply Nat.eqb_eq. rewrite (proj1 (List.Forall_forall _ _) Hh s Hs). by destruct Hh as [|a l <- _].
Defined.
#[local] Existing Instance frames_media_laws.

(** A one-pixel image. *)
Definition pixel (n : Z) : ImageData.t := ImageData.new 1 1 [n; n; n].
Definition shot_frame (n : Z) : AlignedFrame.t :=
  AlignedFrame.add_state "observation.state" [f32_of n] (AlignedFrame.add_image "top" (pixel n) (AlignedFrame.new n n)).
Definition three : list AlignedFrame.t := [shot_frame 0; shot_frame 1; shot_frame 2].

(** A flush every two images. *)
Definition cfg : LerobotConfig.t := LerobotConfig.mk "set" 30 None "libx264" (FlushingConfig.mk 2 0 true) false.
Definition disk0 : World := mkWorld (fresh "" "" "" cfg) ∅ (fun _ => None) 0.

Lemma three_filmed : all_filmed cfg three.
Proof.
  intros c Hc. destruct (decide (c = "top"%string)) as [->|Hne].
  - split; [done|]. exists 1, 1. split; [by unfold positive|]. split; [done|]. repeat constructor.
  - destruct Hc. unfold three, camera_images. cbn -[lookup insert]. by rewrite !lookup_insert_ne.
Qed.

Definition show_video (c : option (Content Video)) : option (list (list byte)) :=
  match c with Some (VideoFile v) => Some (VideoFrame.data <$> (v : list VideoFrame.t)) | _ => None end.
Definition video_of (y : World) : option (list (list byte)) := show_video (files y !! video_path "out" 0 0 "top").

Lemma episode_stored_whole_witness : exists stats y,
  (build "s" (local_builder "out" cfg);; write_frames three;; finalize) disk0 = (Ok stats, y)
  /\ WriterStats.frames_written stats = 3 /\ video_of y = Some [[0; 0; 0]; [1; 1; 1]; [2; 2; 2]].
Proof.
  assert (Hp : plain "s") by done. assert (Hq : quiet disk0) by (intros n; reflexivity).
  assert (Hn : Z.of_nat (length three) + 1 < u32_mod) by (vm_compute; reflexivity).
  assert (Hs : omap LerobotFrame.observation_state ((fun f => LerobotFrame.from_aligned_frame f 0) <$> three) <> []) by (vm_compute; discriminate).
  destruct (episode_stored_whole "out" "s" cfg Hp three disk0 eq_refl Hq three_filmed Hn Hs) as (stats & y & cols & E & Hw & _ & _ & Hv & _).
  exists stats, y. split; [exact E|]. split; [exact Hw|]. destruct (Hv "top"%string) as (v & Ev & Hshow); [vm_compute; discriminate|].
  unfold video_of. rewrite Ev. cbn in Hshow. subst v. reflexivity.
Defined.

(** A read that fails while the segments are merged: the video loses a frame, and [finalize] reports all three. *)
Definition bad_read (n : nat) : World := mkWorld (fresh "" "" "" cfg) ∅ (fun k => if (k =? n)%nat then Some "Input/output error"%string else None) 0.
Example unreadable_segment_is_cut :
  let '(r, y) := (build "s" (local_builder "out" cfg);; write_frames three;; finalize) (bad_read 15) in
  match r with Ok stats => WriterStats.frames_written stats = 3 | _ => False end /\ video_of y = Some [[0; 0; 0]; [2; 2; 2]].
Proof. vm_compute. split; reflexivity. Qed.

(** Through [FormatWriter], with an episode: the images after the last flush are lost, because
    the segments are merged over the video that [finish_episode] made. *)
Definition through_episode : Run World WriterStats.t :=
  build "s" (local_builder "out" cfg);; DatasetPipeline.start_episode None;; write_frames three;; DatasetPipeline.finish_episode;; finalize.
Example episode_video_overwritten : video_of (through_episode disk0).2 = Some [[0; 0; 0]; [1; 1; 1]].
Proof. vm_compute. reflexivity. Qed.

(** Two episodes: the files of the second replace those of the first. *)
Definition two_episodes : Run World WriterStats.t :=
  build "s" (local_builder "out" (cfg <| LerobotConfig.flushing := FlushingConfig.unlimited |>));;
  DatasetPipeline.start_episode None;; write_frames three;; DatasetPipeline.finish_episode;;
  DatasetPipeline.start_episode None;; write_frames [shot_frame 7];; DatasetPipeline.finish_episode;; finalize.
Example second_episode_overwrites :
  video_of (two_episodes disk0).2 = Some [[7; 7; 7]]
  /\ (exists cols, files (two_episodes disk0).2 !! parquet_path "out" 0 0 = Some (ParquetFile cols) /\ height <$> head cols = Some 1%nat)
  /\ total_frames (writer (two_episodes disk0).2) = 4.
Proof. split; [vm_compute; reflexivity|]. split; [eexists; split; [vm_compute; reflexivity|reflexivity]|vm_compute; reflexivity]. Qed.
End LerobotExamples.
