(* ===== verification/FileSystem.v ===== *)
(** * Paths, files and directories

    What the storage code uses of [std::path] and [std::fs], on Linux.  A path is the
    sequence of its components, which is what [PathBuf] compares.  The file system is a
    tree of names that lead to directories, to inodes or to symbolic links, the bytes of the
    inodes, and the outcomes of the coming system calls; an open file is an inode, so it survives
    renaming and removal of its name.  There are no hard links. *)
From S2P Require Import Prelude Storage.
Local Open Scope string_scope.
Local Open Scope Z_scope.
Local Open Scope list_scope.

(** ** Paths *)
Inductive Component := RootDir | CurDir | ParentDir | Normal (name : string).
#[global] Instance Component_eq : EqDecision Component.
Proof. solve_decision. Defined.

Abbreviation Path := (list Component).

Definition component (s : string) : list Component :=
  if String.eqb s "" || String.eqb s "." then []
  else if String.eqb s ".." then [ParentDir] else [Normal s].

(** [Path::components]: repeated slashes and inner dots vanish, a leading dot stays. *)
Definition path_components (p : string) : Path :=
  let names := split_char slash p in
  let rest := mjoin (component <$> names) in
  if starts_with p "/" then RootDir :: rest
  else if bool_decide (head names = Some ".") then CurDir :: rest else rest.

(** [PathBuf::push] of one component. *)
Definition push (p : Path) (c : Component) : Path :=
  match c, p with
  | RootDir, _ => [RootDir]
  | CurDir, _ :: _ => p
  | _, _ => p ++ [c]
  end.

(** [Path::parent]; [PathBuf::pop] fails when there is none. *)
Definition path_parent (p : Path) : option Path :=
  match last p with
  | None | Some RootDir => None
  | Some _ => Some (take (length p - 1) p)
  end.

Definition as_os_str (c : Component) : string :=
  match c with RootDir => "/" | CurDir => "." | ParentDir => ".." | Normal s => s end.

(** [Path::display] of a path that was pushed together. *)
Definition display (p : Path) : string :=
  match p with
  | RootDir :: rest => "/" +:+ String.concat "/" (as_os_str <$> rest)
  | _ => String.concat "/" (as_os_str <$> p)
  end.

(** The names from the root of the tree that a path leads to. *)
Definition step (dir : list string) (c : Component) : list string :=
  match c with
  | RootDir => []
  | CurDir => dir
  | ParentDir => take (length dir - 1) dir
  | Normal s => dir ++ [s]
  end.
Definition resolve (cwd : list string) (p : Path) : list string := foldl step cwd p.

(** ** Files *)
Inductive IoError :=
| NotFound | NotADirectory | IsADirectory | AlreadyExists | DirectoryNotEmpty
| InvalidInput (msg : string) | UnexpectedEof | Failure (msg : string).
#[global] Instance IoError_eq : EqDecision IoError.
Proof. solve_decision. Defined.

Definition io_fmt (e : IoError) : string :=
  match e with
  | NotFound => "No such file or directory (os error 2)"
  | NotADirectory => "Not a directory (os error 20)"
  | IsADirectory => "Is a directory (os error 21)"
  | AlreadyExists => "File exists (os error 17)"
  | DirectoryNotEmpty => "Directory not empty (os error 39)"
  | UnexpectedEof => "failed to fill whole buffer"
  | InvalidInput msg | Failure msg => msg
  end.

Inductive Node := File (ino : nat) | Dir.
#[global] Instance Node_eq : EqDecision Node.
Proof. solve_decision. Defined.

(** [outcomes] are those of the coming calls, [mtimes] the modification times they
    report; [dir_len] is the size reported for a directory; [links] are the symbolic links
    with their targets, at names that are not in [nodes]. *)
Record FS := mkFS {
  nodes : gmap (list string) Node;
  inodes : gmap nat string;
  next_ino : nat;
  cwd : list string;
  dir_len : Z;
  outcomes : list outcome;
  mtimes : list (option Z);
  links : gmap (list string) Path }.
#[global] Instance FS_eta : Settable FS := fun s =>
  mkFS (nodes s) (inodes s) (next_ino s) (cwd s) (dir_len s) (outcomes s) (mtimes s) (links s).

Definition node (fs : FS) (p : list string) : option Node :=
  match p with [] => Some Dir | _ => nodes fs !! p end.
Definition bytes_at (fs : FS) (i : nat) : string := default "" (inodes fs !! i).

(** What is at a path: nothing, a directory, or a file with its bytes. *)
Definition view (fs : FS) (p : list string) : option (option string) :=
  match node fs p with
  | None => None
  | Some Dir => Some None
  | Some (File i) => Some (Some (bytes_at fs i))
  end.

(** Lookup as the kernel does it: every directory on the way must be one. *)
Fixpoint descend (fs : FS) (dir names : list string) : result IoError (option Node) :=
  match names with
  | [] => Ok (node fs dir)
  | n :: names' =>
      match node fs dir with
      | Some Dir => descend fs (dir ++ [n]) names'
      | Some (File _) => Err NotADirectory
      | None => Err NotFound
      end
  end.

(** The names from the root of the tree that a path leads to: a symbolic link on the way is replaced by its target, one
    at the end only where the call follows it.  [budget] more links are followed. *)
Fixpoint walk (budget : nat) (ls : gmap (list string) Path) (follow : bool) (dir : list string) (p : Path) {struct budget}
    : result IoError (list string) :=
  (fix go (dir : list string) (p : Path) {struct p} : result IoError (list string) :=
     match p with
     | [] => Ok dir
     | Normal name :: p' =>
         match ls !! (dir ++ [name]) with
         | Some target =>
             if negb follow && bool_decide (p' = []) then Ok (dir ++ [name])
             else match budget with
                  | O => Err (Failure "Too many levels of symbolic links (os error 40)")
                  | S budget' => walk budget' ls follow dir (target ++ p')
                  end
         | None => go (dir ++ [name]) p'
         end
     | c :: p' => go (step dir c) p'
     end) dir p.
Definition max_links : nat := 40.
Definition locate (fs : FS) (follow : bool) (p : Path) : result IoError (list string) := walk max_links (links fs) follow (cwd fs) p.
Definition find (fs : FS) (p : Path) : result IoError (option Node) := q ← locate fs true p; descend fs [] q.

(** Computations on the file system. *)
Definition IO (E A : Type) : Type := FS -> result E A * FS.
#[global] Instance IO_ret E : MRet (IO E) := fun A a s => (Ok a, s).
#[global] Instance IO_bind E : MBind (IO E) := fun A B f m s =>
  match m s with
  | (Ok a, s') => f a s'
  | (Err e, s') => (Err e, s')
  | (Panic m, s') => (Panic m, s')
  end.
Definition io_throw {E A} (e : E) : IO E A := fun s => (Err e, s).
Definition io_lift {E A} (r : result E A) : IO E A := fun s => (r, s).
Definition io_map_err {E E' A} (f : E -> E') (m : IO E A) : IO E' A := fun s => (map_err f (m s).1, (m s).2).
(** The result as a value, for a [match] on it. *)
Definition io_try {E E' A} (m : IO E A) : IO E' (result E A) := fun s => (Ok (m s).1, (m s).2).

(** A system call: it fails for an outside reason, or runs. *)
Definition syscall {A} (f : FS -> result IoError A * FS) : IO IoError A := fun fs =>
  match outcomes fs with
  | Failed e _ :: os => (Err (Failure e), fs <| outcomes := os |>)
  | os => f (fs <| outcomes := tail os |>)
  end.

(** A call that only looks at the node a path leads to. *)
Definition on_node {A} (p : Path) (f : Node -> FS -> result IoError A * FS) : IO IoError A :=
  syscall (fun fs =>
    match find fs p with
    | Ok (Some n) => f n fs
    | Ok None => (Err NotFound, fs)
    | Err e => (Err e, fs)
    | Panic m => (Panic m, fs)
    end).

Record FileMeta := mkMeta { meta_dir : bool; meta_len : Z; meta_modified : option Z }.

(** [fs::metadata]. *)
Definition fs_metadata (p : Path) : IO IoError FileMeta :=
  on_node p (fun n fs =>
    (Ok (match n with
         | Dir => mkMeta true (dir_len fs) (default None (head (mtimes fs)))
         | File i => mkMeta false (str_len (bytes_at fs i)) (default None (head (mtimes fs)))
         end), fs <| mtimes := tail (mtimes fs) |>)).

(** [Path::exists], [is_dir] and [is_file] answer false on an error. *)
Definition path_is (test : FileMeta -> bool) {E} (p : Path) : IO E bool := fun fs =>
  match fs_metadata p fs with (Ok m, fs') => (Ok (test m), fs') | (_, fs') => (Ok false, fs') end.
Definition path_exists {E} := path_is (fun _ => true) (E := E).
Definition path_is_dir {E} := path_is meta_dir (E := E).
Definition path_is_file {E} := path_is (fun m => negb (meta_dir m)) (E := E).

(** [File::open] for reading; directories can be opened, but not read. *)
Definition file_open (p : Path) : IO IoError Node := on_node p (fun n fs => (Ok n, fs)).
Definition read_to_end (h : Node) : IO IoError string :=
  syscall (fun fs => match h with File i => (Ok (bytes_at fs i), fs) | Dir => (Err IsADirectory, fs) end).
(** [seek] to [start], then [read_exact] of [n] bytes. *)
Definition file_seek (start : Z) : IO IoError unit :=
  syscall (fun fs => (if start <=? i64_max then Ok tt else Err (InvalidInput "Invalid argument (os error 22)"), fs)).
Definition file_read_exact (h : Node) (start n : Z) : IO IoError string :=
  if n =? 0 then mret ""
  else syscall (fun fs =>
    match h with
    | Dir => (Err IsADirectory, fs)
    | File i =>
        if start + n <=? str_len (bytes_at fs i)
        then (Ok (String.substring (Z.to_nat start) (Z.to_nat n) (bytes_at fs i)), fs)
        else (Err UnexpectedEof, fs)
    end).

Definition set_bytes (i : nat) (d : string) (fs : FS) : FS := fs <| inodes := <[i := d]> (inodes fs) |>.
Definition new_file (p : list string) (fs : FS) : FS :=
  fs <| nodes := <[p := File (next_ino fs)]> (nodes fs) |> <| inodes := <[next_ino fs := ""]> (inodes fs) |>
     <| next_ino := S (next_ino fs) |>.
Definition set_node (p : list string) (n : Node) (fs : FS) : FS := fs <| nodes := <[p := n]> (nodes fs) |>.
Definition del_node (p : list string) (fs : FS) : FS := fs <| nodes := delete p (nodes fs) |>.
Definition del_link (p : list string) (fs : FS) : FS := fs <| links := delete p (links fs) |>.
Definition is_link (fs : FS) (p : list string) : bool := bool_decide (is_Some (links fs !! p)).

(** What is at a path whose last name need not exist, and the names it leads to. *)
Definition entry (fs : FS) (follow : bool) (p : Path) : result IoError (option Node * list string) :=
  q ← locate fs follow p; o ← descend fs [] q; Ok (o, q).
Definition on_entry {A} (follow : bool) (p : Path) (f : option Node -> list string -> FS -> result IoError A * FS) : IO IoError A :=
  syscall (fun fs =>
    match entry fs follow p with
    | Ok (o, q) => f o q fs
    | Err e => (Err e, fs)
    | Panic m => (Panic m, fs)
    end).

(** [File::create]: an existing file is truncated, that of a symbolic link too. *)
Definition file_create (p : Path) : IO IoError nat :=
  on_entry true p (fun o q fs =>
    match o with
    | Some Dir => (Err IsADirectory, fs)
    | Some (File i) => (Ok i, set_bytes i "" fs)
    | None => (Ok (next_ino fs), new_file q fs)
    end).
(** Of a symbolic link, the link is removed. *)
Definition remove_file (p : Path) : IO IoError unit :=
  on_entry false p (fun o q fs =>
    match o with
    | Some Dir => (Err IsADirectory, fs)
    | Some (File _) => (Ok tt, del_node q fs)
    | None => if is_link fs q then (Ok tt, del_link q fs) else (Err NotFound, fs)
    end).
Definition fs_create_dir (p : Path) : IO IoError unit :=
  on_entry false p (fun o q fs =>
    match o with
    | Some _ => (Err AlreadyExists, fs)
    | None => if is_link fs q then (Err AlreadyExists, fs) else (Ok tt, set_node q Dir fs)
    end).

(** The last name of a path below [dir]. *)
Definition child_of (dir q : list string) : option string :=
  match last q with
  | Some x => if bool_decide (q = dir ++ [x]) then Some x else None
  | None => None
  end.
Definition children (fs : FS) (dir : list string) : list string :=
  omap (fun kv => child_of dir kv.1) (map_to_list (nodes fs)) ++ omap (fun kv => child_of dir kv.1) (map_to_list (links fs)).

Definition remove_dir (p : Path) : IO IoError unit :=
  on_entry false p (fun o q fs =>
    match o with
    | Some Dir =>
        if bool_decide (q = []) then (Err (Failure "Device or resource busy (os error 16)"), fs)
        else if bool_decide (children fs q = []) then (Ok tt, del_node q fs) else (Err DirectoryNotEmpty, fs)
    | Some (File _) => (Err NotADirectory, fs)
    | None => (Err (if is_link fs q then NotADirectory else NotFound), fs)
    end).

(** [fs::rename] of a file, the only case here; the file or symbolic link that had the new name is replaced. *)
Definition rename_entry (from to : Path) : IO IoError unit := fun fs =>
  match entry fs false from, entry fs false to with
  | Err e, _ | _, Err e => (Err e, fs)
  | Panic m, _ | _, Panic m => (Panic m, fs)
  | Ok (None, a), _ => (Err (if is_link fs a then Failure "the renamed files are not links" else NotFound), fs)
  | Ok (Some (File _), _), Ok (Some Dir, _) => (Err IsADirectory, fs)
  | Ok (Some (File i), a), Ok (_, b) => (Ok tt, set_node b (File i) (del_link b (del_node a fs)))
  | Ok (Some Dir, _), Ok _ => (Err (Failure "the renamed files are not directories"), fs)
  end.
Definition fs_rename (from to : Path) : IO IoError unit := syscall (rename_entry from to).

(** [fs::create_dir_all]; an error is dropped where there is a directory.  The argument of
    [create_dirs] is the path, last component first. *)
Definition unless_dir (p : Path) (e : IoError) : IO IoError unit :=
  is_dir ← path_is_dir p; if is_dir : bool then mret tt else io_throw e.
Fixpoint create_dirs (rev_path : list Component) : IO IoError unit :=
  match rev_path with
  | [] => mret tt
  | c :: above =>
      let p := reverse rev_path in
      r ← io_try (fs_create_dir p);
      match r with
      | Ok _ => mret tt
      | Err NotFound =>
          match c with
          | RootDir => io_throw (Failure "failed to create whole tree")
          | _ =>
              create_dirs above;;
              r ← io_try (fs_create_dir p);
              match r with Ok _ => mret tt | Err e => unless_dir p e | Panic m => io_lift (Panic m) end
          end
      | Err e => unless_dir p e
      | Panic m => io_lift (Panic m)
      end
  end.
Definition fs_create_dir_all (p : Path) : IO IoError unit := create_dirs (reverse p).

(** ** Writing

    An open file has a position; a hole before it reads as zero bytes. *)
Definition zeros (n : nat) : string := String.concat "" (replicate n (String "000" "")).
Definition write_at (off : nat) (d c : string) : string :=
  String.substring 0 off c +:+ zeros (off - String.length c) +:+ d
    +:+ String.substring (off + String.length d) (String.length c) c.

(** [write_all] on a file: the error, if any, and how many bytes were written. *)
Definition put (i : nat) (off : nat) (d : string) (fs : FS) : option IoError * nat * FS :=
  let fs' := fs <| outcomes := tail (outcomes fs) |> in
  match outcomes fs with
  | Failed e n :: _ =>
      let k := Nat.min n (String.length d) in
      (Some (Failure e), k, set_bytes i (write_at off (String.substring 0 k d) (bytes_at fs i)) fs')
  | _ => (None, String.length d, set_bytes i (write_at off d (bytes_at fs i)) fs')
  end.

(** [BufWriter<File>] with the default capacity. *)
Module BufWriter.
Record t := mk { inner : nat; offset : nat; buf : string }.
#[global] Instance t_eta : Settable t := fun w => mk (inner w) (offset w) (buf w).
Definition capacity : Z := 8192.
Definition new (i : nat) : t := mk i 0 "".

(** Operations on the writer and the file system; the writer survives an error. *)
Definition Op (A : Type) : Type := t * FS -> result IoError A * (t * FS).

(** [flush_buf] keeps what was not written. *)
Definition flush (s : t * FS) : result IoError unit * (t * FS) :=
  let '(w, fs) := s in
  if String.eqb (buf w) "" then (Ok tt, (w, fs))
  else
    let '(e, n, fs') := put (inner w) (offset w) (buf w) fs in
    let w' := w <| offset := (offset w + n)%nat |>
                <| buf := String.substring n (String.length (buf w) - n) (buf w) |> in
    (match e with None => Ok tt | Some e => Err e end, (w', fs')).

Definition write_all (d : string) (s : t * FS) : result IoError unit * (t * FS) :=
  let '(w, fs) := s in
  if str_len (buf w) + str_len d <? capacity then (Ok tt, (w <| buf := buf w +:+ d |>, fs))
  else
    let '(r, (w, fs)) :=
      if capacity <? str_len (buf w) + str_len d then flush (w, fs) else (Ok tt, (w, fs)) in
    match r with
    | Ok _ =>
        if capacity <=? str_len d then
          let '(e, n, fs') := put (inner w) (offset w) d fs in
          (match e with None => Ok tt | Some e => Err e end, (w <| offset := (offset w + n)%nat |>, fs'))
        else (Ok tt, (w <| buf := buf w +:+ d |>, fs))
    | Err e => (Err e, (w, fs))
    | Panic m => (Panic m, (w, fs))
    end.

(** Dropping the writer flushes it and ignores the error; so does [into_inner] when its
    own flush failed. *)
Definition drop (s : t * FS) : FS := (flush s).2.2.
Definition into_inner (s : t * FS) : result IoError nat * FS :=
  match flush s with
  | (Ok _, (w, fs)) => (Ok (inner w), fs)
  | (Err e, s') => (Err e, drop s')
  | (Panic m, s') => (Panic m, s'.2)
  end.
End BufWriter.

(** [fs::copy]; the destination is truncated before the source is read. *)
Definition copy_bytes (i o : nat) : IO IoError Z := fun fs =>
  match put o 0 (bytes_at fs i) fs with
  | (None, _, fs') => (Ok (str_len (bytes_at fs i)), fs')
  | (Some e, _, fs') => (Err e, fs')
  end.
Definition fs_copy (from to : Path) : IO IoError Z :=
  h ← file_open from;
  match h with
  | Dir => io_throw (InvalidInput "the source path is neither a regular file nor a symlink to a regular file")
  | File i => o ← file_create to; copy_bytes i o
  end.

(** [File::sync_all]. *)
Definition sync_all : IO IoError unit := syscall (fun fs => (Ok tt, fs)).
