(* ===== verification/FileSystemLaws.v ===== *)
(** * What the calls of the file system leave alone

    [frame P D fs fs'] relates two states of the file system between which only paths in
    [P] changed, apart from directories that were created at paths in [D].  [spec P D m Q]
    is the corresponding specification of a computation: whatever fails, it stays in its
    frame, and a result satisfies [Q].  The rules below cover every call, so the frame of
    an operation is found by applying them. *)
From S2P Require Import Prelude Storage FileSystem.
Local Open Scope string_scope.
Local Open Scope Z_scope.
Local Open Scope list_scope.

(** ** Well-formed trees

    Without symbolic links; [FileSystemLinks] says when links make no difference. *)
Record wf (fs : FS) : Prop := {
  wf_top : nodes fs !! [] = None;
  wf_tree p x n : node fs (p ++ [x]) = Some n -> node fs p = Some Dir;
  wf_ino p i : node fs p = Some (File i) -> (i < next_ino fs)%nat;
  wf_inj p q i : node fs p = Some (File i) -> node fs q = Some (File i) -> p = q;
  wf_links : links fs = ∅ }.

(** Every name of the open file [i] is in [P]. *)
Definition owned (P : list string -> Prop) (fs : FS) (i : nat) : Prop :=
  (i < next_ino fs)%nat /\ forall q, node fs q = Some (File i) -> P q.

Record frame (P D : list string -> Prop) (fs fs' : FS) : Prop := {
  frame_wf : wf fs';
  frame_cwd : cwd fs' = cwd fs;
  frame_next : (next_ino fs <= next_ino fs')%nat;
  frame_view p : P p \/ view fs' p = view fs p \/ (D p /\ view fs p = None /\ view fs' p = Some None);
  frame_owned i : owned P fs i -> owned P fs' i }.

Lemma frame_refl P D fs : wf fs -> frame P D fs fs.
Proof. intros Hw. split; auto. Qed.

Lemma frame_trans P D fs1 fs2 fs3 : frame P D fs1 fs2 -> frame P D fs2 fs3 -> frame P D fs1 fs3.
Proof.
  intros F1 F2. split.
  - apply F2.
  - rewrite (frame_cwd _ _ _ _ F2). apply F1.
  - pose proof (frame_next _ _ _ _ F1). pose proof (frame_next _ _ _ _ F2). lia.
  - intros p. destruct (frame_view _ _ _ _ F1 p) as [?|[E1|(?&E1&E1')]]; [by left|..];
      destruct (frame_view _ _ _ _ F2 p) as [?|[E2|(?&E2&E2')]]; try (by left);
      right; first [left; congruence | right; repeat split; congruence].
  - intros i. eauto using frame_owned.
Qed.

Lemma frame_mono (P D P' D' : list string -> Prop) fs fs' : (forall p, P p -> P' p) -> (forall p, D p -> D' p) ->
  (forall i, owned P' fs i -> owned P' fs' i) -> frame P D fs fs' -> frame P' D' fs fs'.
Proof.
  intros HP HD Ho F. split; try apply F; [|done].
  intros p. destruct (frame_view _ _ _ _ F p) as [?|[?|(?&?&?)]]; auto.
Qed.

(** Two states with the same tree. *)
Definition same_tree (fs fs' : FS) : Prop :=
  nodes fs' = nodes fs /\ inodes fs' = inodes fs /\ next_ino fs' = next_ino fs /\ cwd fs' = cwd fs /\ links fs' = links fs.

Lemma same_node fs fs' p : same_tree fs fs' -> node fs' p = node fs p.
Proof. intros (E&_). unfold node. by rewrite E. Qed.

Lemma same_view fs fs' p : same_tree fs fs' -> view fs' p = view fs p.
Proof. intros H. unfold view, bytes_at. rewrite (same_node _ _ _ H). by destruct H as (_&->&_). Qed.

Lemma same_wf fs fs' : same_tree fs fs' -> wf fs -> wf fs'.
Proof.
  intros H Hw. split.
  - destruct H as (->&_). apply Hw.
  - intros p x n. rewrite !(same_node _ _ _ H). apply Hw.
  - intros p i. rewrite (same_node _ _ _ H). destruct H as (_&_&->&_). apply Hw.
  - intros p q i. rewrite !(same_node _ _ _ H). apply Hw.
  - destruct H as (_&_&_&_&->). apply Hw.
Qed.

Lemma same_frame P D fs fs' : wf fs -> same_tree fs fs' -> frame P D fs fs'.
Proof.
  intros Hw H. split.
  - by eapply same_wf.
  - apply H.
  - destruct H as (_&_&->&_). lia.
  - intros p. right; left. by apply same_view.
  - intros i [Hi Ho]. split; [by destruct H as (_&_&->&_)|]. intros q. rewrite (same_node _ _ _ H). apply Ho.
Qed.

Lemma frame_same_l P D fs fs1 fs2 : same_tree fs fs1 -> frame P D fs1 fs2 -> frame P D fs fs2.
Proof.
  intros H F. split; try apply F.
  - rewrite (frame_cwd _ _ _ _ F). apply H.
  - pose proof (frame_next _ _ _ _ F) as E. by destruct H as (_&_&<-&_).
  - intros p. rewrite <- (same_view _ _ p H). apply F.
  - intros i [Hi Ho]. apply F. split; [by destruct H as (_&_&->&_)|]. intros q. rewrite (same_node _ _ _ H). apply Ho.
Qed.

(** ** Changes of the tree *)
Lemma node_insert p n fs q : p <> [] -> node (set_node p n fs) q = if bool_decide (q = p) then Some n else node fs q.
Proof.
  intros Hp. unfold node. destruct q as [|x q]; cbn -[lookup insert].
  - by rewrite bool_decide_false.
  - case_bool_decide as E; [subst; apply lookup_insert_eq|]. by apply lookup_insert_ne.
Qed.

Lemma node_delete p fs q : p <> [] -> node (del_node p fs) q = if bool_decide (q = p) then None else node fs q.
Proof.
  intros Hp. unfold node. destruct q as [|x q]; cbn -[lookup delete].
  - by rewrite bool_decide_false.
  - case_bool_decide as E; [subst; apply lookup_delete_eq|]. by apply lookup_delete_ne.
Qed.

Lemma node_del_link p fs q : node (del_link p fs) q = node fs q.
Proof. done. Qed.

Lemma set_bytes_frame P D fs i d : wf fs -> owned P fs i -> frame P D fs (set_bytes i d fs).
Proof.
  intros Hw [Hi Ho]. split.
  - split; apply Hw.
  - done.
  - cbn. lia.
  - intros p. unfold view, bytes_at. change (node (set_bytes i d fs) p) with (node fs p).
    destruct (node fs p) as [[j|]|] eqn:En; [|by right; left..].
    destruct (decide (j = i)) as [->|Hn]; [left; by apply Ho|]. right; left.
    cbn. rewrite lookup_insert_ne by congruence. done.
  - intros j. done.
Qed.

Lemma snoc_ne (d : list string) x : d <> d ++ [x].
Proof. intros E%(f_equal length). rewrite length_app in E. cbn in E. lia. Qed.

(** A new directory, a new file, a removed leaf, a moved file. *)
Lemma set_dir_frame (P D : list string -> Prop) fs d x : wf fs -> node fs (d ++ [x]) = None -> node fs d = Some Dir ->
  P (d ++ [x]) \/ D (d ++ [x]) -> frame P D fs (set_node (d ++ [x]) Dir fs).
Proof.
  intros Hw Hn Hd HP. assert (d ++ [x] <> []) as Hne by (by destruct d).
  pose proof (fun q => node_insert (d ++ [x]) Dir fs q Hne) as E. split.
  - split.
    + cbn. rewrite lookup_insert_ne by done. apply Hw.
    + intros p y n. rewrite !E. case_bool_decide as E1; case_bool_decide as E2; try done.
      * apply app_inj_2 in E1 as [-> _]; [done|done].
      * apply Hw.
    + intros p i. rewrite E. case_bool_decide; [done|]. apply Hw.
    + intros p q i. rewrite !E. repeat case_bool_decide; try done. apply Hw.
    + apply Hw.
  - done.
  - cbn. lia.
  - intros p. destruct (decide (p = d ++ [x])) as [->|Hp].
    + destruct HP as [HP|HD]; [by left|]. right; right. unfold view. rewrite Hn, E, bool_decide_true by done. done.
    + right; left. unfold view. rewrite E, bool_decide_false by done. done.
  - intros i [Hi Ho]. split; [done|]. intros q. rewrite E. case_bool_decide; [done|]. apply Ho.
Qed.

Lemma new_file_node fs d x q : node (new_file (d ++ [x]) fs) q =
  if bool_decide (q = d ++ [x]) then Some (File (next_ino fs)) else node fs q.
Proof.
  rewrite <- node_insert by (by destruct d). done.
Qed.

Lemma new_file_frame (P D : list string -> Prop) fs d x : wf fs -> node fs (d ++ [x]) = None -> node fs d = Some Dir ->
  P (d ++ [x]) -> frame P D fs (new_file (d ++ [x]) fs) /\ owned P (new_file (d ++ [x]) fs) (next_ino fs).
Proof.
  intros Hw Hn Hd HP. pose proof (new_file_node fs d x) as E.
  assert (forall q j, q <> d ++ [x] -> node fs q = Some (File j) -> j <> next_ino fs) as Hold.
  { intros q j _ Hj%Hw. lia. }
  split; [split|].
  - split.
    + cbn. rewrite lookup_insert_ne by (by destruct d). apply Hw.
    + intros p y n. rewrite !E. case_bool_decide as E1; case_bool_decide as E2.
      * apply app_inj_2 in E1 as [-> _]; [|done]. by apply snoc_ne in E2.
      * apply app_inj_2 in E1 as [-> _]; done.
      * intros Hp%Hw. subst. by rewrite Hn in Hp.
      * apply Hw.
    + intros p i. rewrite E. cbn. case_bool_decide; [intros [= <-]; lia|]. intros Hp%Hw. lia.
    + intros p q i. rewrite !E. repeat case_bool_decide; subst; try done; [intros [= <-] Hq|intros Hq [= <-]|apply Hw];
        exfalso; by eapply Hold.
    + apply Hw.
  - done.
  - cbn. lia.
  - intros p. destruct (decide (p = d ++ [x])) as [->|Hp]; [by left|]. right; left. unfold view.
    rewrite E, bool_decide_false by done. destruct (node fs p) as [[j|]|] eqn:Ej; [|done..].
    unfold bytes_at. cbn. rewrite lookup_insert_ne; [done|]. pose proof (Hold p j Hp Ej). congruence.
  - intros i [Hi Ho]. split; [cbn; lia|]. intros q. rewrite E. case_bool_decide; [by subst|]. apply Ho.
  - split; [cbn; lia|]. intros q. rewrite E. case_bool_decide; [by subst|]. intros Hq%Hw. lia.
Qed.

Lemma del_node_frame (P D : list string -> Prop) fs p : wf fs -> p <> [] -> (forall x, node fs (p ++ [x]) = None) -> P p ->
  frame P D fs (del_node p fs).
Proof.
  intros Hw Hne Hleaf HP. pose proof (fun q => node_delete p fs q Hne) as E. split.
  - split.
    + cbn. rewrite lookup_delete_ne by done. apply Hw.
    + intros q y n. rewrite !E. case_bool_decide; case_bool_decide; subst; try done; [by rewrite Hleaf|apply Hw].
    + intros q i. rewrite E. case_bool_decide; [done|]. apply Hw.
    + intros q q' i. rewrite !E. repeat case_bool_decide; try done. apply Hw.
    + apply Hw.
  - done.
  - cbn. lia.
  - intros q. destruct (decide (q = p)) as [->|Hp]; [by left|]. right; left. unfold view.
    rewrite E, bool_decide_false by done. done.
  - intros i [Hi Ho]. split; [done|]. intros q. rewrite E. case_bool_decide; [done|]. apply Ho.
Qed.

Lemma file_leaf fs p i x : wf fs -> node fs p = Some (File i) -> node fs (p ++ [x]) = None.
Proof. intros Hw Hp. destruct (node fs (p ++ [x])) eqn:E; [|done]. apply Hw in E. congruence. Qed.

(** Moving a file within [P]. *)
Lemma move_frame (P D : list string -> Prop) fs a d x i : wf fs -> node fs a = Some (File i) ->
  node fs (d ++ [x]) <> Some Dir -> node fs d = Some Dir -> P a -> P (d ++ [x]) ->
  frame P D fs (set_node (d ++ [x]) (File i) (del_link (d ++ [x]) (del_node a fs))).
Proof.
  intros Hw Ha Hb Hd Pa Pb. assert (a <> []) as Hna by (by intros ->).
  assert (d ++ [x] <> []) as Hne by (by destruct d).
  assert (forall q, node (set_node (d ++ [x]) (File i) (del_link (d ++ [x]) (del_node a fs))) q =
    if bool_decide (q = d ++ [x]) then Some (File i) else if bool_decide (q = a) then None else node fs q) as E.
  { intros q. rewrite node_insert by done. rewrite node_del_link. by rewrite node_delete by done. }
  split.
  - split.
    + cbn. rewrite lookup_insert_ne, lookup_delete_ne by done. apply Hw.
    + intros p y n. rewrite !E. case_bool_decide as E1.
      { apply app_inj_2 in E1 as [-> _]; [|done]. intros _.
        rewrite bool_decide_false by apply snoc_ne.
        case_bool_decide as E3; [subst; congruence|done]. }
      case_bool_decide; [done|]. intros Hp%Hw. rewrite bool_decide_false by congruence.
      rewrite bool_decide_false by congruence. done.
    + intros p j. rewrite E. repeat case_bool_decide; [intros [= <-]; by eapply Hw|done|apply Hw].
    + intros p q j. rewrite !E. repeat case_bool_decide; subst; try done; [intros [= <-] Hq|intros Hq [= <-]|apply Hw];
        exfalso; eauto using wf_inj.
    + cbn. by rewrite (wf_links fs Hw), delete_empty.
  - done.
  - cbn. lia.
  - intros q. destruct (decide (q = a)) as [->|]; [by left|]. destruct (decide (q = d ++ [x])) as [->|]; [by left|].
    right; left. unfold view. rewrite E, !bool_decide_false by done. done.
  - intros j [Hj Ho]. split; [done|]. intros q. rewrite E. repeat case_bool_decide; subst; [done..|apply Ho].
Qed.

(** ** Lookup *)
Lemma resolve_app c p q : resolve c (p ++ q) = resolve (resolve c p) q.
Proof. apply foldl_app. Qed.

Lemma resolve_push c p k : resolve c (push p k) = step (resolve c p) k.
Proof. destruct k, p; cbn [push]; try done; by rewrite resolve_app. Qed.

Lemma descend_Ok fs names dir o : descend fs dir names = Ok o ->
  node fs (dir ++ names) = o /\ forall d x, names = d ++ [x] -> node fs (dir ++ d) = Some Dir.
Proof.
  revert dir. induction names as [|n names IH]; intros dir; cbn.
  - intros [= <-]. rewrite app_nil_r. split; [done|]. by intros [] ?.
  - destruct (node fs dir) as [[]|] eqn:En; [done| |done]. intros [E1 E2]%IH. rewrite <- app_assoc in E1.
    split; [done|]. intros [|y d] x; cbn; intros [= <- Ed].
    + by rewrite app_nil_r.
    + apply E2 in Ed. by rewrite <- app_assoc in Ed.
Qed.

(** Where no link is in the way, a path leads where its names say. *)
Lemma walk_straight budget ls follow p : forall dir, (forall k, k `prefix_of` p -> k <> [] -> ls !! resolve dir k = None) ->
  walk budget ls follow dir p = Ok (resolve dir p).
Proof.
  assert (forall dir, (forall k, k `prefix_of` p -> k <> [] -> ls !! resolve dir k = None) ->
    (fix go (dir : list string) (p : Path) {struct p} : result IoError (list string) :=
     match p with
     | [] => Ok dir
     | Normal name :: p' =>
         match ls !! (dir ++ [name]) with
         | Some target =>
             if negb follow && bool_decide (p' = []) then Ok (dir ++ [name])
             else match budget with
                  | O => Err (Failure "Too many levels of symbolic links (os error 40)")
                  | S budget' => walk budget' ls follow dir (target ++ p')
                  end
         | None => go (dir ++ [name]) p'
         end
     | c :: p' => go (step dir c) p'
     end) dir p = Ok (resolve dir p)) as H; [|by destruct budget].
  induction p as [|k p IH]; intros dir Hk; [done|].
  assert (forall k', k' `prefix_of` p -> k' <> [] -> ls !! resolve (step dir k) k' = None) as Hk'.
  { intros k' Hp _. apply (Hk (k :: k')); [by apply prefix_cons|done]. }
  destruct k as [| | |name]; try exact (IH _ Hk').
  assert (ls !! (dir ++ [name]) = None) as -> by (apply (Hk [Normal name]); [by apply prefix_cons, prefix_nil|done]).
  exact (IH _ Hk').
Qed.

Lemma locate_eq fs follow p : links fs = ∅ -> locate fs follow p = Ok (resolve (cwd fs) p).
Proof. intros E. unfold locate. apply walk_straight. intros k _ _. rewrite E. apply lookup_empty. Qed.

Lemma find_eq fs p : links fs = ∅ -> find fs p = descend fs [] (resolve (cwd fs) p).
Proof. intros E. unfold find. by rewrite locate_eq. Qed.

Lemma entry_eq fs follow p : links fs = ∅ -> entry fs follow p =
  match find fs p with Ok o => Ok (o, resolve (cwd fs) p) | Err e => Err e | Panic m => Panic m end.
Proof. intros E. unfold entry. rewrite find_eq, locate_eq by done. done. Qed.

Lemma no_link fs p : links fs = ∅ -> is_link fs p = false.
Proof. intros E. unfold is_link. rewrite E, lookup_empty. apply bool_decide_false. by intros [? ?]. Qed.

Lemma find_Ok fs p o : wf fs -> find fs p = Ok o ->
  node fs (resolve (cwd fs) p) = o /\ forall d x, resolve (cwd fs) p = d ++ [x] -> node fs d = Some Dir.
Proof. intros Hw. rewrite find_eq by apply Hw. intros H%descend_Ok. apply H. Qed.

Lemma node_prefix fs a b n : wf fs -> node fs (a ++ b) = Some n -> b <> [] -> node fs a = Some Dir.
Proof.
  intros Hw. revert n. induction b as [|x b IH] using rev_ind; [done|]. intros n Hn _.
  rewrite app_assoc in Hn. apply Hw in Hn. destruct b as [|y b]; [by rewrite app_nil_r in Hn|]. by eapply IH.
Qed.

(** When the directory is there, lookup finds the node. *)
Lemma descend_dir fs b dir : wf fs -> (b = [] \/ exists b' x, b = b' ++ [x] /\ node fs (dir ++ b') = Some Dir) ->
  descend fs dir b = Ok (node fs (dir ++ b)).
Proof.
  intros Hw. revert dir. induction b as [|n b IH]; intros dir Hb; cbn; [by rewrite app_nil_r|].
  destruct Hb as [?|(b'&x&E&Hd)]; [done|]. destruct b' as [|y b']; injection E as -> ->.
  - rewrite app_nil_r in Hd. by rewrite Hd.
  - assert (node fs dir = Some Dir) as -> by (by eapply node_prefix).
    rewrite IH, <- app_assoc; [done|]. right. exists b', x. by rewrite <- app_assoc.
Qed.

Lemma find_dir fs p d x : wf fs -> resolve (cwd fs) p = d ++ [x] -> node fs d = Some Dir ->
  find fs p = Ok (node fs (d ++ [x])).
Proof. intros Hw E Hd. rewrite find_eq, E by apply Hw. apply (descend_dir fs (d ++ [x]) [] Hw). right. by exists d, x. Qed.

Lemma find_node fs p n : wf fs -> node fs (resolve (cwd fs) p) = Some n -> find fs p = Ok (Some n).
Proof.
  intros Hw Hn. destruct (resolve (cwd fs) p) as [|x d _] eqn:E using rev_ind.
  - rewrite find_eq, E by apply Hw. cbn. by rewrite <- Hn.
  - rewrite (find_dir fs p d x), Hn; [done..|]. by eapply Hw.
Qed.

(** ** Specifications *)
Section Specs.
Context (c : list string) (P D : list string -> Prop).

Definition spec {E A} (pre : FS -> Prop) (m : IO E A) (Q : A -> FS -> Prop) : Prop :=
  forall fs, wf fs -> cwd fs = c -> pre fs -> frame P D fs (m fs).2 /\ forall a, (m fs).1 = Ok a -> Q a (m fs).2.

(** The computation stays in its frame. *)
Definition confined {E A} (m : IO E A) : Prop := spec (fun _ => True) m (fun _ _ => True).

Lemma spec_bind {E A B} pre (m : IO E A) Q (f : A -> IO E B) R :
  spec pre m Q -> (forall a, spec (Q a) (f a) R) -> spec pre (m ≫= f) R.
Proof.
  intros Hm Hf fs Hw Hc Hp. destruct (Hm fs Hw Hc Hp) as [F HQ]. unfold mbind, IO_bind.
  destruct (m fs) as [[a|e|s] fs1]; cbn in *; [|done..].
  destruct (Hf a fs1) as [F' HR]; [by apply F|by rewrite (frame_cwd _ _ _ _ F)|by apply HQ|].
  split; [by eapply frame_trans|done].
Qed.

Lemma spec_ret {E A} (pre : FS -> Prop) (a : A) (Q : A -> FS -> Prop) : (forall fs, pre fs -> Q a fs) -> spec (E := E) pre (mret a) Q.
Proof. intros HQ fs Hw _ Hp. split; [by apply frame_refl|]. intros ? [= <-]. by apply HQ. Qed.

Lemma spec_weaken {E A} (pre : FS -> Prop) (m : IO E A) Q : confined m -> (forall a fs, Q a fs) -> spec pre m Q.
Proof. intros Hm HQ fs Hw Hc _. destruct (Hm fs Hw Hc I). auto. Qed.

Lemma spec_confined {E A} (m : IO E A) Q : spec (fun _ => True) m Q -> confined m.
Proof. intros Hm fs Hw Hc _. destruct (Hm fs Hw Hc I). auto. Qed.

Lemma confined_bind {E A B} (m : IO E A) (f : A -> IO E B) : confined m -> (forall a, confined (f a)) -> confined (m ≫= f).
Proof. intros Hm Hf. by eapply spec_bind. Qed.

Lemma confined_ret {E A} (a : A) : confined (E := E) (mret a).
Proof. by apply spec_ret. Qed.

Lemma confined_lift {E A} (r : result E A) : confined (io_lift r).
Proof. intros fs Hw _ _. split; [by apply frame_refl|done]. Qed.

Lemma confined_throw {E A} (e : E) : confined (A := A) (io_throw e).
Proof. apply (confined_lift (Err e)). Qed.

Lemma confined_try {E E' A} (m : IO E A) : confined m -> confined (E := E') (io_try m).
Proof. intros Hm fs Hw Hc _. destruct (Hm fs Hw Hc I). by split. Qed.

Lemma spec_map_err {E E' A} (f : E -> E') pre (m : IO E A) Q : spec pre m Q -> spec pre (io_map_err f m) Q.
Proof.
  intros Hm fs Hw Hc Hp. destruct (Hm fs Hw Hc Hp) as [F HQ]. split; [done|]. cbn.
  intros a. destruct (m fs) as [[a'|e|s] fs1]; cbn in *; try done. intros [= <-]. by apply HQ.
Qed.

Lemma confined_map_err {E E' A} (f : E -> E') (m : IO E A) : confined m -> confined (io_map_err f m).
Proof. apply spec_map_err. Qed.

Lemma spec_syscall {A} pre (f : FS -> result IoError A * FS) Q :
  (forall fs, wf fs -> cwd fs = c -> pre fs -> frame P D fs (f fs).2 /\ forall a, (f fs).1 = Ok a -> Q a (f fs).2) ->
  (forall fs fs', same_tree fs fs' -> pre fs -> pre fs') -> spec pre (syscall f) Q.
Proof.
  intros Hf Hpre fs Hw Hc Hp. unfold syscall.
  assert (forall os, same_tree fs (fs <| outcomes := os |>)) as Hs by (by intros os).
  assert (forall os, frame P D fs (f (fs <| outcomes := os |>)).2 /\
    forall a, (f (fs <| outcomes := os |>)).1 = Ok a -> Q a (f (fs <| outcomes := os |>)).2) as Hrun.
  { intros os. destruct (Hf (fs <| outcomes := os |>)) as [F HQ]; [by eapply same_wf|done|by eapply Hpre|].
    split; [by eapply frame_same_l|done]. }
  destruct (outcomes fs) as [|[|e n] os]; [apply Hrun..|]. split; [by apply same_frame|done].
Qed.

(** Calls that only look. *)
Lemma confined_on_node {A} p (f : Node -> FS -> result IoError A * FS) :
  (forall n fs, same_tree fs (f n fs).2) -> confined (on_node p f).
Proof.
  intros Hf. apply spec_syscall; [|done]. intros fs Hw _ _. split; [|done].
  destruct (find fs p) as [[n|]|e|s]; cbn; try by apply frame_refl. by apply same_frame.
Qed.

Lemma confined_metadata p : confined (fs_metadata p).
Proof. unfold fs_metadata. apply confined_on_node. by intros []. Qed.

Lemma confined_is test {E} p : confined (E := E) (path_is test p).
Proof.
  intros fs Hw Hc _. destruct (confined_metadata p fs Hw Hc I) as [F _]. unfold path_is.
  destruct (fs_metadata p fs) as [[]]; done.
Qed.

Lemma confined_open p : confined (file_open p).
Proof. unfold file_open. by apply confined_on_node. Qed.

Lemma confined_look {A} (f : FS -> result IoError A * FS) : (forall fs, (f fs).2 = fs) -> confined (syscall f).
Proof. intros Hf. apply spec_syscall; [|done]. intros fs Hw _ _. rewrite Hf. split; [by apply frame_refl|done]. Qed.

Lemma confined_read_exact h start n : confined (file_read_exact h start n).
Proof.
  unfold file_read_exact. destruct (n =? 0); [apply confined_ret|]. apply confined_look. intros fs.
  destruct h; [|done]. by case_match.
Qed.

(** Calls that change an entry. *)
Lemma spec_on_entry {A} follow p (f : option Node -> list string -> FS -> result IoError A * FS) Q :
  (forall fs o, wf fs -> cwd fs = c -> node fs (resolve c p) = o ->
     (forall d x, resolve c p = d ++ [x] -> node fs d = Some Dir) ->
     frame P D fs (f o (resolve c p) fs).2 /\ forall a, (f o (resolve c p) fs).1 = Ok a -> Q a (f o (resolve c p) fs).2) ->
  spec (fun _ => True) (on_entry follow p f) Q.
Proof.
  intros Hf. apply spec_syscall; [|done]. intros fs Hw Hc _.
  rewrite entry_eq by apply Hw. destruct (find fs p) as [o|e|s] eqn:Ef; [|split; [by apply frame_refl|done]..].
  apply find_Ok in Ef as [Eo Hd]; [|done]. rewrite Hc in *. by apply Hf.
Qed.

Lemma spec_create p : P (resolve c p) -> spec (fun _ => True) (file_create p) (fun i fs => owned P fs i).
Proof.
  intros HP. unfold file_create. apply spec_on_entry. intros fs [[i|]|] Hw Hc Eo Hd; cbn.
  - assert (owned P fs i) as Ho by (split; [by eapply Hw|]; intros q Hq; by rewrite (wf_inj fs Hw q (resolve c p) i)).
    split; [by apply set_bytes_frame|]. by intros a [= <-].
  - split; [by apply frame_refl|done].
  - destruct (resolve c p) as [|x d _] using rev_ind; [done|].
    destruct (new_file_frame P D fs d x) as [F Ho]; [done..|by eapply Hd|done|]. split; [done|]. by intros a [= <-].
Qed.

Lemma confined_remove_file p : P (resolve c p) -> confined (remove_file p).
Proof.
  intros HP. unfold remove_file. apply spec_on_entry. intros fs [[i|]|] Hw Hc Eo Hd; split; rewrite ?(no_link _ _ (wf_links fs Hw)); try done; cbn; try by apply frame_refl.
  apply del_node_frame; [done|by intros E; rewrite E in Eo| |done]. intros x. by eapply file_leaf.
Qed.

Lemma confined_create_dir p : P (resolve c p) \/ D (resolve c p) -> confined (fs_create_dir p).
Proof.
  intros HP. unfold fs_create_dir. apply spec_on_entry. intros fs [n|] Hw Hc Eo Hd; split; rewrite ?(no_link _ _ (wf_links fs Hw)); try done; cbn; try by apply frame_refl.
  destruct (resolve c p) as [|x d _] using rev_ind; [done|]. apply set_dir_frame; [done..|by eapply Hd|done].
Qed.

Lemma child_of_Some d q x : child_of d q = Some x -> q = d ++ [x].
Proof. unfold child_of. destruct (last q); [|done]. case_bool_decide; [|done]. by intros [= ->]. Qed.

Lemma children_nodes fs d : links fs = ∅ -> children fs d = omap (fun kv => child_of d kv.1) (map_to_list (nodes fs)).
Proof. intros E. unfold children. by rewrite E, map_to_list_empty, app_nil_r. Qed.

Lemma children_elem fs d x : links fs = ∅ -> x ∈ children fs d <-> is_Some (nodes fs !! (d ++ [x])).
Proof.
  intros El. rewrite children_nodes, list_elem_of_omap by done. split.
  - intros ([q n]&Hq%elem_of_map_to_list&Hc). cbn in Hc. unfold child_of in Hc.
    destruct (last q) as [y|]; [|done]. case_bool_decide; [|done]. injection Hc as ->. subst. by eexists.
  - intros [n Hn]. exists (d ++ [x], n). split; [by apply elem_of_map_to_list|]. cbn. unfold child_of.
    rewrite last_snoc. by rewrite bool_decide_true.
Qed.

Lemma node_snoc fs d x : node fs (d ++ [x]) = nodes fs !! (d ++ [x]).
Proof. by destruct d. Qed.

Lemma confined_remove_dir p : P (resolve c p) -> confined (remove_dir p).
Proof.
  intros HP. unfold remove_dir. apply spec_on_entry. intros fs [[i|]|] Hw Hc Eo Hd; split; try done; cbn; try by apply frame_refl.
  case_bool_decide as E; [by apply frame_refl|]. case_bool_decide as Ec; [|by apply frame_refl].
  apply del_node_frame; [done..| |done]. intros x. rewrite node_snoc.
  destruct (nodes fs !! _) eqn:Ex; [|done]. assert (x ∈ children fs (resolve c p)) as Hx by (apply children_elem; [apply Hw|done]).
  rewrite Ec in Hx. by apply not_elem_of_nil in Hx.
Qed.

Lemma confined_rename a b : P (resolve c a) -> P (resolve c b) -> confined (fs_rename a b).
Proof.
  intros Ha Hb. apply spec_syscall; [|done]. intros fs Hw Hc _. split; [|done].
  unfold rename_entry. rewrite !entry_eq by apply Hw.
  destruct (find fs a) as [[[i|]|]|e|s] eqn:Ea; destruct (find fs b) as [[[j|]|]|e'|s'] eqn:Eb; try by apply frame_refl.
  all: apply find_Ok in Ea as [Ea _]; [|done]; apply find_Ok in Eb as [Eb Hd]; [|done]; rewrite Hc in *; cbn;
    destruct (resolve c b) as [|x d _] using rev_ind; [done|]; apply move_frame; eauto; by rewrite Eb.
Qed.

(** The directories on the way to a path. *)
Definition on_the_way (p : Path) : Prop := forall q, q `prefix_of` p -> q <> [] -> P (resolve c q) \/ D (resolve c q).

Lemma confined_create_dirs rev_path : on_the_way (reverse rev_path) -> confined (create_dirs rev_path).
Proof.
  induction rev_path as [|k above IH]; intros Hway; [apply confined_ret|]. cbn [create_dirs].
  assert (confined (fs_create_dir (reverse (k :: above)))) as Hm by (apply confined_create_dir, Hway; [done|]; rewrite reverse_cons; by destruct (reverse above)).
  assert (forall e, confined (unless_dir (reverse (k :: above)) e)) as Hf.
  { intros e. apply confined_bind; [apply confined_is|]. intros []; [apply confined_ret|apply confined_throw]. }
  apply confined_bind; [by apply confined_try|]. intros [u|e|s]; [apply confined_ret| |apply confined_lift].
  destruct e; try apply Hf. destruct k; [apply confined_throw|..].
  all: apply confined_bind; [apply IH; intros q Hq; apply Hway; rewrite reverse_cons; by apply prefix_app_r|];
    intros _; apply confined_bind; [by apply confined_try|];
    intros [u|e|s]; [apply confined_ret|apply Hf|apply confined_lift].
Qed.

Lemma confined_create_dir_all p : on_the_way p -> confined (fs_create_dir_all p).
Proof. intros Hway. apply confined_create_dirs. by rewrite reverse_involutive. Qed.

(** Writing to an owned file. *)
Lemma put_frame i off d fs : wf fs -> owned P fs i -> frame P D fs (put i off d fs).2.
Proof.
  intros Hw Ho. unfold put. eapply (frame_same_l _ _ fs (fs <| outcomes := tail (outcomes fs) |>)); [done|].
  assert (forall os, wf (fs <| outcomes := os |>)) by (intros os; eapply same_wf; [|done]; done).
  destruct (outcomes fs) as [|[|e n] os]; apply set_bytes_frame; done.
Qed.

Lemma flush_frame w fs : wf fs -> owned P fs (BufWriter.inner w) ->
  frame P D fs (BufWriter.flush (w, fs)).2.2 /\ BufWriter.inner (BufWriter.flush (w, fs)).2.1 = BufWriter.inner w.
Proof.
  intros Hw Ho. unfold BufWriter.flush. destruct (String.eqb _ _); [split; [by apply frame_refl|done]|].
  pose proof (put_frame (BufWriter.inner w) (BufWriter.offset w) (BufWriter.buf w) fs Hw Ho) as F.
  destruct (put _ _ _ _) as [[e n] fs']. by split.
Qed.

Lemma write_all_frame d w fs : wf fs -> owned P fs (BufWriter.inner w) ->
  frame P D fs (BufWriter.write_all d (w, fs)).2.2 /\ BufWriter.inner (BufWriter.write_all d (w, fs)).2.1 = BufWriter.inner w.
Proof.
  intros Hw Ho. unfold BufWriter.write_all. destruct (_ <? _); [split; [by apply frame_refl|done]|].
  match goal with |- context [let '(_, _) := ?x in _] => assert (frame P D fs x.2.2 /\ BufWriter.inner x.2.1 = BufWriter.inner w) as Hx end.
  { destruct (_ <? _); [by apply flush_frame|split; [by apply frame_refl|done]]. }
  destruct (if _ : bool then _ else _) as [r [w1 fs1]]. cbn [fst snd] in Hx. destruct Hx as [F E].
  destruct r as [u|e|s]; [|done..]. destruct (_ <=? _); [|done].
  pose proof (put_frame (BufWriter.inner w1) (BufWriter.offset w1) d fs1 (frame_wf _ _ _ _ F)) as F'.
  rewrite E in F' at 1. specialize (F' (frame_owned _ _ _ _ F _ Ho)).
  destruct (put _ _ _ _) as [[e n] fs']. split; [by eapply frame_trans|done].
Qed.

Lemma into_inner_frame w fs : wf fs -> owned P fs (BufWriter.inner w) -> frame P D fs (BufWriter.into_inner (w, fs)).2.
Proof.
  intros Hw Ho. unfold BufWriter.into_inner. destruct (flush_frame w fs Hw Ho) as [F E].
  destruct (BufWriter.flush (w, fs)) as [[u|e|s] [w1 fs1]]; cbn [fst snd] in *; [done| |done].
  eapply frame_trans; [done|]. apply flush_frame; [apply F|]. rewrite E. by apply F.
Qed.

Lemma confined_copy a b : P (resolve c b) -> confined (fs_copy a b).
Proof.
  intros Hb. apply confined_bind; [apply confined_open|]. intros [i|]; [|apply confined_throw].
  eapply spec_bind; [by apply spec_create|]. intros o fs Hw _ Ho. unfold copy_bytes.
  pose proof (put_frame o 0 (bytes_at fs i) fs Hw Ho) as F. destruct (put _ _ _ _) as [[[e|] n] fs']; by split.
Qed.
End Specs.

(** ** What a writer has written *)
Lemma substring_past n m x : (String.length x <= n)%nat -> String.substring n m x = "".
Proof.
  revert n. induction x as [|a x IH]; intros n Hn; cbn in Hn; [by destruct n, m|].
  destruct n as [|n]; [lia|]. cbn. apply IH. lia.
Qed.

Lemma write_at_end d x : write_at (String.length x) d x = x +:+ d.
Proof.
  unfold write_at. rewrite substring_all, Nat.sub_diag, (substring_past (_ + _)) by lia. unfold zeros. cbn.
  by rewrite string_app_nil_r.
Qed.

(** The bytes in the file and in the buffer. *)
Definition holds (w : BufWriter.t) (fs : FS) (data : string) : Prop :=
  BufWriter.offset w = String.length (bytes_at fs (BufWriter.inner w)) /\
  bytes_at fs (BufWriter.inner w) +:+ BufWriter.buf w = data.

Lemma put_Ok i off d fs n fs' : put i off d fs = (None, n, fs') ->
  n = String.length d /\ bytes_at fs' i = write_at off d (bytes_at fs i).
Proof.
  unfold put. destruct (outcomes fs) as [|[|e k] os]; intros [= <- <-]; (split; [done|]); unfold bytes_at, set_bytes; cbn;
    by rewrite lookup_insert_eq.
Qed.

Lemma flush_Ok w fs data w' fs' u : holds w fs data -> BufWriter.flush (w, fs) = (Ok u, (w', fs')) ->
  holds w' fs' data /\ BufWriter.buf w' = "" /\ BufWriter.inner w' = BufWriter.inner w.
Proof.
  intros [Ho Hd]. unfold BufWriter.flush. destruct (String.eqb_spec (BufWriter.buf w) ""); [by intros [= <- <- <-]|].
  destruct (put _ _ _ _) as [[[e|] k] fs1] eqn:Ep; [done|]. apply put_Ok in Ep as [-> Eb]. intros [= _ <- <-].
  rewrite Ho, write_at_end, Hd in Eb. cbn. rewrite Nat.sub_diag, substring_past by lia. unfold holds. cbn. rewrite Eb.
  rewrite string_app_nil_r. repeat split; try done. by rewrite <- Hd, string_length_app, Ho.
Qed.

Lemma write_all_Ok d w fs data w' fs' u : holds w fs data -> BufWriter.write_all d (w, fs) = (Ok u, (w', fs')) ->
  holds w' fs' (data +:+ d) /\ BufWriter.inner w' = BufWriter.inner w.
Proof.
  intros Hh. assert (forall w1 fs1, holds w1 fs1 data -> holds (w1 <| BufWriter.buf := BufWriter.buf w1 +:+ d |>) fs1 (data +:+ d)) as Hbuf.
  { intros w1 fs1 [Ho Hd]. split; [done|]. cbn. by rewrite <- string_app_assoc, Hd. }
  unfold BufWriter.write_all. destruct (_ <? _); [intros [= _ <- <-]; by split; [apply Hbuf|]|].
  destruct (if _ : bool then _ else _) as [r [w1 fs1]] eqn:Ex. destruct r as [v|e|m]; [|done..].
  assert (holds w1 fs1 data /\ BufWriter.inner w1 = BufWriter.inner w /\ (BufWriter.buf w1 = "" \/ str_len (BufWriter.buf w1) + str_len d <= BufWriter.capacity))
    as (Hh1&Ei&Hb).
  { destruct (Z.ltb_spec BufWriter.capacity (str_len (BufWriter.buf w) + str_len d)).
    - apply (flush_Ok w fs data) in Ex as (?&?&?); auto.
    - injection Ex as _ <- <-. auto. }
  destruct (Z.leb_spec BufWriter.capacity (str_len d)) as [Hbig|]; [|intros [= _ <- <-]; split; [by apply Hbuf|done]].
  assert (BufWriter.buf w1 = "") as Hb0.
  { destruct Hb as [|Hb]; [done|]. assert (str_len (BufWriter.buf w1) <= 0) as Hz by (pose proof (str_len_nonneg d); lia).
    unfold str_len in Hz. by destruct (BufWriter.buf w1); [|cbn in Hz; lia]. }
  destruct (put _ _ _ _) as [[[e|] k] fs2] eqn:Ep; [done|]. apply put_Ok in Ep as [-> Eb]. intros [= _ <- <-].
  destruct Hh1 as [Ho Hd]. rewrite Hb0, string_app_nil_r in Hd. rewrite Ho, write_at_end, Hd in Eb.
  unfold holds. cbn. rewrite Hb0, Eb, Ho, Hd, string_app_nil_r, string_length_app. done.
Qed.

(** ** Renaming *)
Definition moved (a b : list string) (i : nat) (fs : FS) (x : result IoError unit * FS) : Prop :=
  match x with
  | (Ok _, fs') =>
      view fs' b = Some (Some (bytes_at fs i)) /\ view fs' a = None /\
      forall p, p <> a -> p <> b -> view fs' p = view fs p
  | (_, fs') => same_tree fs fs'
  end.

Lemma rename_entry_moves a b fs i : wf fs -> node fs (resolve (cwd fs) a) = Some (File i) ->
  resolve (cwd fs) a <> resolve (cwd fs) b ->
  moved (resolve (cwd fs) a) (resolve (cwd fs) b) i fs (rename_entry a b fs).
Proof.
  intros Hw Ha Hab. unfold rename_entry. rewrite !entry_eq, (find_node fs a _ Hw Ha) by apply Hw. destruct (find fs b) as [o|e|m] eqn:Eb; [|done..].
  apply find_Ok in Eb as [Eb _]; [|done]. assert (o = Some Dir \/ resolve (cwd fs) b <> []) as [->|Hb]; [|done|].
  { destruct (resolve (cwd fs) b); [left; by rewrite <- Eb|by right]. }
  assert (resolve (cwd fs) a <> []) as Hna by (intros E; by rewrite E in Ha).
  assert (forall q, node (set_node (resolve (cwd fs) b) (File i) (del_link (resolve (cwd fs) b) (del_node (resolve (cwd fs) a) fs))) q =
    if bool_decide (q = resolve (cwd fs) b) then Some (File i) else if bool_decide (q = resolve (cwd fs) a) then None else node fs q) as E.
  { intros q. rewrite node_insert by done. rewrite node_del_link. by rewrite node_delete by done. }
  destruct o as [[j|]|]; [|done|]; unfold moved, view.
  all: rewrite !E, bool_decide_true by done; (split; [done|]); rewrite bool_decide_false, bool_decide_true by done;
    (split; [done|]); intros p H1 H2; rewrite E, !bool_decide_false by done; done.
Qed.

Lemma rename_moves a b fs i : wf fs -> node fs (resolve (cwd fs) a) = Some (File i) ->
  resolve (cwd fs) a <> resolve (cwd fs) b ->
  moved (resolve (cwd fs) a) (resolve (cwd fs) b) i fs (fs_rename a b fs).
Proof.
  intros Hw Ha Hab. assert (forall os, moved (resolve (cwd fs) a) (resolve (cwd fs) b) i fs (rename_entry a b (fs <| outcomes := os |>))) as Hrun.
  { intros os. assert (wf (fs <| outcomes := os |>)) as Hw' by (eapply same_wf; [|done]; done).
    exact (rename_entry_moves a b (fs <| outcomes := os |>) i Hw' Ha Hab). }
  unfold fs_rename, syscall. destruct (outcomes fs) as [|[|e n] os]; [apply Hrun..|done].
Qed.

Create HintDb frames.
#[export] Hint Resolve confined_ret confined_lift confined_throw confined_is confined_open confined_metadata
  confined_read_exact confined_remove_file confined_create_dir confined_remove_dir confined_copy confined_create_dir_all : frames.
#[export] Hint Extern 1 (confined _ _ _ (path_exists _)) => apply confined_is : frames.
#[export] Hint Extern 1 (confined _ _ _ (path_is_dir _)) => apply confined_is : frames.
#[export] Hint Extern 1 (confined _ _ _ (path_is_file _)) => apply confined_is : frames.

(** Follow the binds and branches of a computation. *)
Ltac frames :=
  repeat match goal with
         | |- confined _ _ _ (_ ≫= _) => apply confined_bind; [|intros ?]
         | |- confined _ _ _ (let x := _ in _) => cbv zeta
         | |- confined _ _ _ (io_map_err _ _) => apply confined_map_err
         | |- confined _ _ _ (io_try _) => apply confined_try
         | |- confined _ _ _ (if ?b then _ else _) => destruct b
         | |- confined _ _ _ (match ?x with _ => _ end) => destruct x
         end; eauto with frames.
