(* ===== verification/FileSystemLinks.v ===== *)
(** * Symbolic links elsewhere

    [agrees c F m]: where no symbolic link is at a name in [F], the computation [m] does
    what it does in the file system without its links, and leaves the links alone.  The
    rules below cover every call on paths whose way is in [F], so the theorems about file
    systems without links hold where the links are elsewhere. *)
From S2P Require Import Prelude Storage FileSystem FileSystemLaws.
Local Open Scope string_scope.
Local Open Scope Z_scope.
Local Open Scope list_scope.

Create HintDb links.

Definition unlinked (fs : FS) : FS := fs <| links := ∅ |>.
Definition relink {A : Type} (ls : gmap (list string) Path) (x : A * FS) : A * FS := (x.1, x.2 <| links := ls |>).

Lemma unlinked_view fs p : view (unlinked fs) p = view fs p.
Proof. done. Qed.

Lemma unlinked_relinked fs ls : unlinked (fs <| links := ls |>) = unlinked fs.
Proof. done. Qed.

Lemma unlinked_wf fs : wf fs -> wf (unlinked fs).
Proof. intros Hw. split; try apply Hw. done. Qed.

Section Agreement.
Context (c : list string) (F : list string -> Prop).

(** No link is at a name in [F]. *)
Definition clear (fs : FS) : Prop := cwd fs = c /\ forall q, F q -> links fs !! q = None.

(** The way of a path is in [F]. *)
Definition straight (p : Path) : Prop := forall k, k `prefix_of` p -> k <> [] -> F (resolve c k).

Definition agrees {E A} (m : IO E A) (Q : A -> Prop) : Prop := forall fs, clear fs ->
  m fs = relink (links fs) (m (unlinked fs)) /\ cwd (m fs).2 = c /\ forall a, (m fs).1 = Ok a -> Q a.

Abbreviation agrees' m := (agrees m (fun _ => True)).

Lemma unlinked_clear fs : clear fs -> clear (unlinked fs).
Proof. intros [Hc _]. split; [done|]. intros q _. apply lookup_empty. Qed.

Lemma agrees_links {E A} (m : IO E A) Q fs : agrees m Q -> clear fs -> links (m fs).2 = links fs.
Proof. intros Hm Hc. by destruct (Hm fs Hc) as [-> _]. Qed.

Lemma agrees_clear {E A} (m : IO E A) Q fs : agrees m Q -> clear fs -> clear (m fs).2.
Proof.
  intros Hm Hc. split; [by apply (Hm fs Hc)|]. rewrite (agrees_links m Q) by done. apply Hc.
Qed.

Lemma agrees_unlinked {E A} (m : IO E A) Q fs : agrees m Q -> clear fs -> unlinked (m fs).2 = (m (unlinked fs)).2.
Proof.
  intros Hm Hc. pose proof (agrees_links m Q (unlinked fs) Hm (unlinked_clear fs Hc)) as E'.
  destruct (Hm fs Hc) as [-> _]. destruct (m (unlinked fs)) as [r [n i x w d o t l]]. cbn in E'. by subst.
Qed.

(** ** Sequencing *)
Lemma agrees_bind {E A B} (m : IO E A) Q (f : A -> IO E B) R :
  agrees m Q -> (forall a, Q a -> agrees (f a) R) -> agrees (m ≫= f) R.
Proof.
  intros Hm Hf fs Hc. pose proof (agrees_clear m Q fs Hm Hc) as Hc1. pose proof (agrees_unlinked m Q fs Hm Hc) as Eu.
  pose proof (agrees_links m Q fs Hm Hc) as El. destruct (Hm fs Hc) as (E1&Hcwd&HQ). unfold mbind, IO_bind.
  destruct (m fs) as [r fs1]. destruct (m (unlinked fs)) as [r' fs2]. injection E1 as -> E1. cbn [fst snd] in *. subst fs2.
  destruct r' as [a|e|s]; [|by rewrite E1; split_and!..].
  destruct (Hf a (HQ a eq_refl) fs1 Hc1) as (->&H). by rewrite El in *.
Qed.

Lemma agrees_seq {E A B} (m : IO E A) (f : A -> IO E B) R : agrees' m -> (forall a, agrees (f a) R) -> agrees (m ≫= f) R.
Proof. intros Hm Hf. by eapply agrees_bind. Qed.

Lemma agrees_post {E A} (m : IO E A) (Q R : A -> Prop) : agrees m Q -> (forall a, Q a -> R a) -> agrees m R.
Proof. intros Hm HQ fs Hc. destruct (Hm fs Hc) as (?&?&?). auto. Qed.

(** A computation that does not look at the links. *)
Lemma agrees_blind {E A} (m : IO E A) (Q : A -> Prop) :
  (forall fs, m fs = relink (links fs) (m (unlinked fs)) /\ cwd (m fs).2 = cwd fs /\ forall a, (m fs).1 = Ok a -> Q a) -> agrees m Q.
Proof. intros Hm fs [Hc _]. destruct (Hm fs) as (?&->&?). auto. Qed.

Lemma agrees_lift {E A} (r : result E A) (Q : A -> Prop) : (forall a, r = Ok a -> Q a) -> agrees (io_lift r) Q.
Proof. intros HQ. apply agrees_blind. intros []. auto. Qed.

Lemma agrees_ret {E A} (a : A) (Q : A -> Prop) : Q a -> agrees (E := E) (mret a) Q.
Proof. intros HQ. apply (agrees_lift (Ok a)). by intros ? [= <-]. Qed.

Lemma agrees_throw {E A} (e : E) (Q : A -> Prop) : agrees (io_throw e) Q.
Proof. by apply (agrees_lift (Err e)). Qed.

Lemma agrees_map_err {E E' A} (f : E -> E') (m : IO E A) Q : agrees m Q -> agrees (io_map_err f m) Q.
Proof.
  intros Hm fs Hc. destruct (Hm fs Hc) as (E1&Hcwd&HQ). unfold io_map_err. rewrite E1 in *. split_and!; [done..|].
  intros a Ha. apply HQ. cbn in *. destruct (m (unlinked fs)).1; simplify_eq/=; done.
Qed.

Lemma agrees_try {E E' A} (m : IO E A) Q : agrees m Q -> agrees (E := E') (io_try m) (fun _ => True).
Proof. intros Hm fs Hc. destruct (Hm fs Hc) as (E1&Hcwd&_). unfold io_try. by rewrite E1 in *. Qed.

Lemma agrees_syscall {A} (f : FS -> result IoError A * FS) Q : agrees f Q -> agrees (syscall f) Q.
Proof.
  intros Hf fs Hc. unfold syscall. change (outcomes (unlinked fs)) with (outcomes fs).
  assert (forall os, clear (fs <| outcomes := os |>)) as Hos by (by intros os).
  destruct (outcomes fs) as [|[|e n] os]; [apply (Hf _ (Hos _))..|]. split_and!; [done|apply Hc|done].
Qed.

(** ** Lookup *)
Lemma locate_straight fs follow p : clear fs -> straight p -> locate fs follow p = Ok (resolve c p).
Proof.
  intros [Hc Hl] Hp. unfold locate. rewrite Hc. apply walk_straight. intros k Hk Hne. by apply Hl, Hp.
Qed.

Lemma descend_unlinked fs dir names : descend (unlinked fs) dir names = descend fs dir names.
Proof. revert dir. induction names as [|n names IH]; intros dir; [done|]. cbn [descend]. by rewrite IH. Qed.

Lemma agrees_on_entry {A} follow p (f : option Node -> list string -> FS -> result IoError A * FS) Q :
  straight p -> (forall o, agrees (f o (resolve c p)) Q) -> agrees (on_entry follow p f) Q.
Proof.
  intros Hp Hf. apply agrees_syscall. intros fs Hc. unfold entry.
  rewrite !locate_straight by auto using unlinked_clear. cbn. rewrite descend_unlinked.
  destruct (descend fs [] (resolve c p)) as [o|e|m]; cbn; [by apply Hf|..].
  all: split_and!; [by destruct fs|apply Hc|done].
Qed.

Lemma agrees_on_node {A} p (f : Node -> FS -> result IoError A * FS) Q :
  straight p -> (forall n, agrees (f n) Q) -> agrees (on_node p f) Q.
Proof.
  intros Hp Hf. apply agrees_syscall. intros fs Hc. unfold find.
  rewrite !locate_straight by auto using unlinked_clear. cbn. rewrite descend_unlinked.
  destruct (descend fs [] (resolve c p)) as [[n|]|e|m]; cbn; [by apply Hf|..].
  all: split_and!; [by destruct fs|apply Hc|done].
Qed.

Lemma straight_at p : straight p -> p <> [] -> F (resolve c p).
Proof. intros Hp Hne. by apply Hp. Qed.

Lemma straight_push p x : straight p -> F (resolve c p ++ [x]) -> straight (push p (Normal x)).
Proof.
  intros Hp Hx k Hk Hne. assert (push p (Normal x) = p ++ [Normal x]) as E by (by destruct p). rewrite E in Hk.
  destruct Hk as [r Hr]. destruct r as [|y r _] using rev_ind.
  - rewrite app_nil_r in Hr. subst k. by rewrite resolve_app.
  - rewrite app_assoc in Hr. apply app_inj_tail in Hr as [-> _]. apply Hp; [by apply prefix_app_r|done].
Qed.

(** ** The calls *)
Lemma agrees_metadata p : straight p -> agrees' (fs_metadata p).
Proof. intros Hp. unfold fs_metadata. apply agrees_on_node; [done|]. intros n. apply agrees_blind. by intros []. Qed.

Lemma agrees_is test {E} p : straight p -> agrees (E := E) (path_is test p) (fun _ => True).
Proof.
  intros Hp fs Hc. unfold path_is. destruct (agrees_metadata p Hp fs Hc) as (E1&Hcwd&_).
  destruct (fs_metadata p fs) as [r fs1], (fs_metadata p (unlinked fs)) as [r' fs2]. injection E1 as -> ->. by destruct r'.
Qed.

Lemma agrees_open p : straight p -> agrees' (file_open p).
Proof. intros Hp. unfold file_open. apply agrees_on_node; [done|]. intros n. apply agrees_blind. by intros []. Qed.

Lemma agrees_look {A : Type} (f : FS -> result IoError A) : (forall fs, f (unlinked fs) = f fs) -> agrees' (syscall (fun fs => (f fs, fs))).
Proof. intros Hf. apply agrees_syscall, agrees_blind. intros fs. rewrite Hf. split_and!; try done. by destruct fs. Qed.

Lemma agrees_read_to_end h : agrees' (read_to_end h).
Proof. unfold read_to_end. apply agrees_syscall, agrees_blind. intros []. by destruct h. Qed.

Lemma agrees_read_exact h start n : agrees' (file_read_exact h start n).
Proof.
  unfold file_read_exact. destruct (n =? 0); [by apply agrees_ret|]. apply agrees_syscall, agrees_blind. intros fs.
  destruct h as [i|]; [|by destruct fs]. change (bytes_at (unlinked fs) i) with (bytes_at fs i). destruct (_ <=? _); by destruct fs.
Qed.

Lemma agrees_create p : straight p -> agrees' (file_create p).
Proof. intros Hp. unfold file_create. apply agrees_on_entry; [done|]. intros [[]|]; apply agrees_blind; by intros []. Qed.

(** The calls that ask whether the name itself is a link. *)
Lemma clear_no_link fs q : clear fs -> F q -> is_link fs q = false.
Proof. intros [_ Hl] Hq. apply bool_decide_false. rewrite Hl by done. by intros []. Qed.

Lemma agrees_unless_link {E A} q (f g : IO E A) Q : F q -> agrees g Q -> agrees (fun fs => if is_link fs q then f fs else g fs) Q.
Proof. intros Hq Hg fs Hc. rewrite !clear_no_link by auto using unlinked_clear. by apply Hg. Qed.

Lemma agrees_remove_file p : straight p -> F (resolve c p) -> agrees' (remove_file p).
Proof.
  intros Hp HF. unfold remove_file. apply agrees_on_entry; [done|].
  intros [[]|]; [..|by apply agrees_unless_link, agrees_throw]; apply agrees_blind; by intros [].
Qed.

Lemma agrees_create_dir p : straight p -> F (resolve c p) -> agrees' (fs_create_dir p).
Proof.
  intros Hp HF. unfold fs_create_dir. apply agrees_on_entry; [done|].
  intros [n|]; [|apply agrees_unless_link; [done|]]; apply agrees_blind; by intros [].
Qed.

Lemma children_clear fs q : clear fs -> (forall x, F (q ++ [x])) -> children fs q = children (unlinked fs) q.
Proof.
  intros [_ Hl] Hx. rewrite (children_nodes (unlinked fs)) by done. unfold children.
  enough (omap (fun kv => child_of q kv.1) (map_to_list (links fs)) = []) as -> by apply app_nil_r.
  apply elem_of_nil_inv. intros x ([k t]&Hk%elem_of_map_to_list&Hc)%list_elem_of_omap. cbn in Hc.
  apply child_of_Some in Hc as ->. by rewrite Hl in Hk.
Qed.

Lemma agrees_remove_dir p : straight p -> F (resolve c p) -> (forall x, F (resolve c p ++ [x])) -> agrees' (remove_dir p).
Proof.
  intros Hp HF Hx. unfold remove_dir. apply agrees_on_entry; [done|]. intros [[]|].
  - apply agrees_blind. by intros [].
  - intros fs Hc. rewrite (children_clear fs) by done. repeat case_bool_decide; split_and!; try apply Hc; by destruct fs.
  - intros fs Hc. rewrite !clear_no_link by auto using unlinked_clear. split_and!; [by destruct fs|apply Hc|done].
Qed.

(** Making the directories on the way. *)
Lemma agrees_create_dirs rev_path : straight (reverse rev_path) -> agrees' (create_dirs rev_path).
Proof.
  induction rev_path as [|k above IH]; intros Hway; [by apply agrees_ret|]. cbn [create_dirs].
  assert (reverse (k :: above) <> []) as Hne by (rewrite reverse_cons; by destruct (reverse above)).
  assert (agrees' (fs_create_dir (reverse (k :: above)))) as Hm by (apply agrees_create_dir; [done|by apply Hway]).
  assert (forall e, agrees' (unless_dir (reverse (k :: above)) e)) as Hf.
  { intros e. eapply agrees_bind; [by apply agrees_is|]. intros [] _; [by apply agrees_ret|apply agrees_throw]. }
  assert (straight (reverse above)) as Hway' by (intros q Hq; apply Hway; rewrite reverse_cons; by apply prefix_app_r).
  eapply agrees_bind; [by eapply agrees_try|]. intros [u|e|s] _; [by apply agrees_ret| |by apply agrees_lift].
  destruct e; try apply Hf. destruct k; [apply agrees_throw|..].
  all: eapply agrees_bind; [by apply IH|]; intros _ _; eapply agrees_bind; [by eapply agrees_try|];
    intros [u|e|s] _; [by apply agrees_ret|apply Hf|by apply agrees_lift].
Qed.

Lemma agrees_create_dir_all p : straight p -> agrees' (fs_create_dir_all p).
Proof. intros Hp. apply agrees_create_dirs. by rewrite reverse_involutive. Qed.

Lemma agrees_copy a b : straight a -> straight b -> agrees' (fs_copy a b).
Proof.
  intros Ha Hb. eapply agrees_bind; [by apply agrees_open|]. intros [i|] _; [|apply agrees_throw].
  eapply agrees_bind; [by apply agrees_create|]. intros o _. apply agrees_blind. intros fs. unfold copy_bytes, put.
  change (outcomes (unlinked fs)) with (outcomes fs). by destruct (outcomes fs) as [|[]].
Qed.
End Agreement.

(** ** Writing *)
Definition relink_writer {A : Type} (ls : gmap (list string) Path) (x : A * (BufWriter.t * FS)) : A * (BufWriter.t * FS) :=
  (x.1, (x.2.1, x.2.2 <| links := ls |>)).

Lemma put_relinked ls i off d fs : put i off d (fs <| links := ls |>) = relink ls (put i off d fs).
Proof. unfold put. change (outcomes (fs <| links := ls |>)) with (outcomes fs). by destruct (outcomes fs) as [|[]]. Qed.

Lemma flush_relinked ls w fs : BufWriter.flush (w, fs <| links := ls |>) = relink_writer ls (BufWriter.flush (w, fs)).
Proof.
  unfold BufWriter.flush. destruct (String.eqb _ _); [done|]. rewrite put_relinked. by destruct (put _ _ _ _) as [[e n] fs'].
Qed.

Lemma write_all_relinked ls d w fs : BufWriter.write_all d (w, fs <| links := ls |>) = relink_writer ls (BufWriter.write_all d (w, fs)).
Proof.
  assert (forall w1 fs1, let x := put (BufWriter.inner w1) (BufWriter.offset w1) d fs1 in
    put (BufWriter.inner w1) (BufWriter.offset w1) d (fs1 <| links := ls |>) = (x.1.1, x.1.2, x.2 <| links := ls |>)) as Hput.
  { intros w1 fs1 x. rewrite put_relinked. subst x. by destruct (put _ _ _ _) as [[e n] fs2]. }
  unfold BufWriter.write_all. destruct (_ <? _); [done|]. destruct (_ <? _); [rewrite flush_relinked; destruct (BufWriter.flush (w, fs)) as [[u|e|m] [w1 fs1]]; try done|].
  all: cbn -[put]; destruct (_ <=? _); [|done]; rewrite Hput; by destruct (put _ _ _ _) as [[e n] fs2].
Qed.

Lemma put_cwd i off d fs : cwd (put i off d fs).2 = cwd fs.
Proof. unfold put. by destruct (outcomes fs) as [|[]]. Qed.

Lemma flush_cwd w fs : cwd (BufWriter.flush (w, fs)).2.2 = cwd fs.
Proof.
  unfold BufWriter.flush. destruct (String.eqb _ _); [done|].
  pose proof (put_cwd (BufWriter.inner w) (BufWriter.offset w) (BufWriter.buf w) fs) as E. by destruct (put _ _ _ _) as [[e n] fs'].
Qed.

Lemma write_all_cwd d w fs : cwd (BufWriter.write_all d (w, fs)).2.2 = cwd fs.
Proof.
  assert (forall i off fs1, cwd fs1 = cwd fs -> cwd (put i off d fs1).2 = cwd fs) as Hput by (intros ??? <-; apply put_cwd).
  unfold BufWriter.write_all. destruct (_ <? _); [done|]. destruct (_ <? _).
  - pose proof (flush_cwd w fs) as E. destruct (BufWriter.flush (w, fs)) as [[u|e|m] [w1 fs1]]; [|done..]. destruct (_ <=? _); [|done].
    specialize (Hput (BufWriter.inner w1) (BufWriter.offset w1) fs1 E). by destruct (put _ _ _ _) as [[e n] fs2].
  - destruct (_ <=? _); [|done]. specialize (Hput (BufWriter.inner w) (BufWriter.offset w) fs eq_refl). by destruct (put _ _ _ _) as [[e n] fs2].
Qed.

#[export] Hint Resolve agrees_metadata agrees_is agrees_open agrees_read_to_end agrees_read_exact agrees_create agrees_remove_file agrees_create_dir
  agrees_create_dir_all agrees_copy agrees_throw : links.
#[export] Hint Extern 1 (agrees _ _ (path_exists _) _) => apply agrees_is : links.
#[export] Hint Extern 1 (agrees _ _ (path_is_dir _) _) => apply agrees_is : links.
#[export] Hint Extern 1 (agrees _ _ (path_is_file _) _) => apply agrees_is : links.

(** Follow the binds and branches of a computation. *)
Ltac links :=
  repeat match goal with
         | |- agrees _ _ (_ ≫= _) _ => apply agrees_seq; [|intros ?]
         | |- agrees _ _ (let x := _ in _) _ => cbv zeta
         | |- agrees _ _ (mret _) _ => by apply agrees_ret
         | |- agrees _ _ (io_lift _) _ => by apply agrees_lift
         | |- agrees _ _ (io_map_err _ _) _ => apply agrees_map_err
         | |- agrees _ _ (io_try _) _ => eapply agrees_try
         | |- agrees _ _ (if ?b then _ else _) _ => destruct b
         | |- agrees _ _ (match ?x with _ => _ end) _ => destruct x
         end; eauto with links.
