(* ===== verification/LocalStorage.v ===== *)
(** * Storage on the local file system

    [LocalStorage] of crates/roboflow-storage/src/local.rs over the file system of
    [FileSystem], and the streaming uploads of streaming_upload.rs.  A reader is the open
    file; a writer is a [BufWriter].  The [tempfile] crate is an argument of
    [put_multipart_stream]. *)
From stdpp Require Import pretty.
From S2P Require Import Prelude Storage Scanner Multipart FileSystem.
Local Open Scope string_scope.
Local Open Scope Z_scope.
Local Open Scope list_scope.

(** ** [normalize_path] and [normalize_root] *)
Fixpoint normalize_components (result : Path) (comps : list Component) : StorageResult Path :=
  match comps with
  | [] => Ok result
  | RootDir :: comps' => normalize_components (push [] RootDir) comps'
  | CurDir :: comps' => normalize_components result comps'
  | ParentDir :: comps' =>
      match path_parent result with
      | None => Err (StorageError.permission_denied "Path traversal detected: '..' escape attempt")
      | Some above => normalize_components above comps'
      end
  | Normal s :: comps' => normalize_components (push result (Normal s)) comps'
  end.

Definition root_component (acc : Path * bool) (c : Component) : Path * bool :=
  let '(result, skip_first_curdir) := acc in
  match c with
  | CurDir =>
      (if negb skip_first_curdir || negb (bool_decide (result = [])) then push result c else result, skip_first_curdir)
  | _ => (push result c, false)
  end.
Definition normalize_root (root : Path) : Path :=
  match (foldl root_component ([], true) root).1 with [] => [CurDir] | result => result end.

Definition normalize_path (path root : Path) : StorageResult Path :=
  result ← normalize_components [] path;
  let normalized_root := normalize_root root in
  if bool_decide (result = normalized_root) || bool_decide (normalized_root `prefix_of` result) then Ok result
  else Err (StorageError.permission_denied "Path traversal detected: access denied").

(** [Path::join]. *)
Definition path_join (root path : Path) : Path := foldl push root path.

(** [StorageError::Io], and the mapping of a missing file to [NotFound]. *)
Definition io_error (e : IoError) : StorageError.t := StorageError.Io (io_fmt e).
Definition not_found_or_io (p : Path) (e : IoError) : StorageError.t :=
  match e with NotFound => StorageError.not_found (display p) | _ => io_error e end.

Module LocalStorage.
Record t := mk { root : Path }.
Definition new (root : string) : t := mk (path_components root).

Definition full_path (s : t) (path : Path) : StorageResult Path := normalize_path (path_join (root s) path) (root s).

Definition ensure_parent (s : t) (path : Path) : IO StorageError.t unit :=
  match path_parent path with
  | None | Some [] => mret tt
  | Some parent =>
      let parent_path := match full_path s parent with Ok p => p | _ => root s end in
      io_map_err (fun e => StorageError.Other ("failed to create parent directories: " +:+ io_fmt e))
        (fs_create_dir_all parent_path)
  end.

(** ** [impl Storage] *)
Definition reader (s : t) (path : Path) : IO StorageError.t Node :=
  full ← io_lift (full_path s path);
  io_map_err (not_found_or_io full) (file_open full).

Definition writer (s : t) (path : Path) : IO StorageError.t BufWriter.t :=
  full ← io_lift (full_path s path);
  ensure_parent s full;;
  i ← io_map_err io_error (file_create full);
  mret (BufWriter.new i).

Definition exists_ (s : t) (path : Path) : IO StorageError.t bool :=
  match full_path s path with Ok p => path_exists p | _ => mret false end.

Definition size (s : t) (path : Path) : IO StorageError.t Z :=
  full ← io_lift (full_path s path);
  m ← io_map_err (not_found_or_io full) (fs_metadata full);
  mret (meta_len m).

Definition object_of (p : Path) (m : FileMeta) : ObjectMetadata.t :=
  ObjectMetadata.mk (display p) (meta_len m) (meta_modified m) None (meta_dir m).

Definition metadata (s : t) (path : Path) : IO StorageError.t ObjectMetadata.t :=
  full ← io_lift (full_path s path);
  m ← io_map_err (not_found_or_io full) (fs_metadata full);
  mret (object_of full m).

Definition delete (s : t) (path : Path) : IO StorageError.t unit :=
  full ← io_lift (full_path s path);
  io_map_err (not_found_or_io full) (remove_file full).

Definition copy (s : t) (from to : Path) : IO StorageError.t unit :=
  from_path ← io_lift (full_path s from);
  to_path ← io_lift (full_path s to);
  ensure_parent s to_path;;
  n ← io_map_err (not_found_or_io from_path) (fs_copy from_path to_path);
  mret tt.

Definition create_dir (s : t) (path : Path) : IO StorageError.t unit :=
  full ← io_lift (full_path s path);
  io_map_err io_error (fs_create_dir full).

Definition create_dir_all (s : t) (path : Path) : IO StorageError.t unit :=
  full ← io_lift (full_path s path);
  io_map_err io_error (fs_create_dir_all full).

Definition read_range (s : t) (path : Path) (start : Z) (end_ : option Z) : IO StorageError.t string :=
  full ← io_lift (full_path s path);
  end_ ← match end_ with
         | Some e => mret e
         | None => m ← io_map_err (not_found_or_io full) (fs_metadata full); mret (meta_len m)
         end;
  if end_ <? start then
    io_throw (StorageError.invalid_path ("start offset " +:+ pretty start +:+ " exceeds end offset " +:+ pretty end_))
  else
    let length := end_ - start in
    h ← io_map_err (not_found_or_io full) (file_open full);
    io_map_err io_error (file_seek start);;
    (if i64_max <? length then io_lift (Panic "capacity overflow") else mret tt);;
    io_map_err io_error (file_read_exact h start length).

(** [streaming_reader], [seekable_reader] and [reader_seekable] open the file likewise. *)
Definition streaming_reader (s : t) (path : Path) : IO StorageError.t Node :=
  full ← io_lift (full_path s path);
  io_map_err (not_found_or_io full) (file_open full).
Definition seekable_reader := reader.
Definition reader_seekable := reader.

(** ** Directories

    [order] is the order in which the system lists a directory. *)
Section Listing.
Context (order : list string -> list string).

Definition read_dir (p : Path) : IO IoError (list string) :=
  on_entry true p (fun o q fs =>
    match o with
    | Some Dir => (Ok (order (children fs q)), fs)
    | Some (File _) => (Err NotADirectory, fs)
    | None => (Err NotFound, fs)
    end).
(** The next entry of an open directory. *)
Definition next_entry : IO IoError unit := syscall (fun fs => (Ok tt, fs)).

Fixpoint io_fold {E A B} (f : A -> B -> IO E A) (acc : A) (l : list B) : IO E A :=
  match l with
  | [] => mret acc
  | x :: l' => acc' ← f acc x; io_fold f acc' l'
  end.

Definition list_entry (dir : Path) (results : list ObjectMetadata.t) (name : string)
    : IO StorageError.t (list ObjectMetadata.t) :=
  io_map_err io_error next_entry;;
  let path := push dir (Normal name) in
  m ← io_map_err io_error (fs_metadata path);
  mret (results ++ [object_of path m]).

Definition list_ (s : t) (prefix : Path) : IO StorageError.t (list ObjectMetadata.t) :=
  full ← io_lift (full_path s prefix);
  there ← path_exists full;
  if negb (there : bool) then mret []
  else
    m ← io_map_err io_error (fs_metadata full);
    if negb (meta_dir m) then mret [object_of full m]
    else
      entries ← io_map_err io_error (read_dir full);
      io_fold (list_entry full) [] entries.

(** The recursion follows the tree, [fuel] bounds its depth. *)
Fixpoint collect_files (fuel : nat) (dir : Path) (files : list Path) : IO IoError (list Path) :=
  match fuel with
  | O => io_lift (Panic "the tree is deeper than the fuel")
  | S fuel' =>
      is_file ← path_is_file dir;
      if is_file : bool then mret (files ++ [dir])
      else
        entries ← read_dir dir;
        io_fold (fun files name =>
          next_entry;;
          let path := push dir (Normal name) in
          is_dir ← path_is_dir path;
          if is_dir : bool then collect_files fuel' path files else mret (files ++ [path])) files entries
  end.

Definition delete_file (deleted_count : Z) (p : Path) : IO StorageError.t Z :=
  io_map_err (fun e => StorageError.Other ("failed to delete " +:+ display p +:+ ": " +:+ io_fmt e)) (remove_file p);;
  mret (u64_add deleted_count 1).

Fixpoint remove_empty_dirs (fuel : nat) (dir : Path) : IO StorageError.t unit :=
  match fuel with
  | O => io_lift (Panic "the tree is deeper than the fuel")
  | S fuel' =>
      is_dir ← path_is_dir dir;
      if is_dir : bool then
        entries ← io_try (read_dir dir);
        match entries with
        | Ok names =>
            io_fold (fun _ name =>
              e ← io_try next_entry;
              match e with Ok _ => remove_empty_dirs fuel' (push dir (Normal name)) | _ => mret tt end) tt names
        | _ => mret tt
        end;;
        r ← io_try (remove_dir dir); mret tt
      else mret tt
  end.

(** One more than the length of the longest path of the tree; a path that can be walked follows [max_links] symbolic links at most,
    with parts of at most that length between them. *)
Definition depth (fs : FS) : nat := (S (max_list (length <$> (map_to_list (nodes fs)).*1)) * (2 + max_links))%nat.

Definition delete_prefix (s : t) (prefix : Path) : IO StorageError.t Z :=
  full_prefix ← io_lift (full_path s prefix);
  there ← path_exists full_prefix;
  if negb (there : bool) then mret 0
  else fun fs =>
    (files_to_delete ← io_map_err (fun e => StorageError.Other ("failed to list files for deletion: " +:+ io_fmt e))
                         (collect_files (depth fs) full_prefix []);
     deleted_count ← io_fold delete_file 0 files_to_delete;
     remove_empty_dirs (depth fs) full_prefix;;
     mret deleted_count) fs.
End Listing.
End LocalStorage.

(** ** Streaming uploads *)
Module UploadStats.
Record t := mk { bytes_uploaded : Z; parts_count : Z; duration : Z }.
Definition new := mk.
Definition bytes (bytes_uploaded : Z) : t := mk bytes_uploaded 1 0.
End UploadStats.

(** [LocalMultipartUpload]; the time since its creation is an argument of [finish]. *)
Module LocalMultipartUpload.
Record t := mk {
  writer : BufWriter.t;
  target_path : Path;
  temp_path : Path;
  bytes_written : Z;
  finished : bool }.
#[global] Instance t_eta : Settable t := fun u =>
  mk (writer u) (target_path u) (temp_path u) (bytes_written u) (finished u).
Definition new (writer : BufWriter.t) (temp_path target_path : Path) : t := mk writer target_path temp_path 0 false.

Definition write (data : string) (s : t * FS) : StorageResult unit * (t * FS) :=
  let '(u, fs) := s in
  if finished u then (Err (StorageError.Other "Cannot write to finished upload"), (u, fs))
  else
    match BufWriter.write_all data (writer u, fs) with
    | (Ok _, (w, fs)) =>
        match BufWriter.flush (w, fs) with
        | (Ok _, (w, fs)) =>
            (Ok tt, (u <| writer := w |> <| bytes_written := u64_add (bytes_written u) (str_len data) |>, fs))
        | (Err e, (w, fs)) => (Err (io_error e), (u <| writer := w |>, fs))
        | (Panic m, (w, fs)) => (Panic m, (u <| writer := w |>, fs))
        end
    | (Err e, (w, fs)) => (Err (io_error e), (u <| writer := w |>, fs))
    | (Panic m, (w, fs)) => (Panic m, (u <| writer := w |>, fs))
    end.

Definition finish (duration : Z) (u : t) : IO StorageError.t UploadStats.t :=
  if finished u then fun fs => (Err (StorageError.Other "Upload already finished"), BufWriter.drop (writer u, fs))
  else
    io_map_err (fun e => StorageError.Other ("BufWriter error: " +:+ io_fmt e)) (fun fs => BufWriter.into_inner (writer u, fs));;
    io_map_err io_error sync_all;;
    match path_parent (target_path u) with
    | Some parent => io_map_err io_error (fs_create_dir_all parent)
    | None => mret tt
    end;;
    r ← io_try (fs_rename (temp_path u) (target_path u));
    match r with
    | Ok _ => mret (UploadStats.new (bytes_written u) 1 duration)
    | Err e => ignored ← io_try (remove_file (temp_path u)); io_throw (io_error e)
    | Panic m => io_lift (Panic m)
    end.

Definition abort (u : t) : IO StorageError.t unit :=
  if finished u then fun fs => (Err (StorageError.Other "Upload already finished"), BufWriter.drop (writer u, fs))
  else fun fs => io_map_err io_error (remove_file (temp_path u)) (BufWriter.drop (writer u, fs)).

(** The owner drops the upload, as after a failed [write]. *)
Definition drop (s : t * FS) : FS := BufWriter.drop (writer s.1, s.2).
End LocalMultipartUpload.

(** [CloudMultipartUpload] over [object_store::WriteMultipart]. *)
Module CloudMultipartUpload.
Section Upload.
Context {V : Type} `{WriteMultipartOps V}.
Record t := mk { upload : V; bytes_written : Z; chunks_written : Z; finished : bool }.
#[global] Instance t_eta : Settable t := fun u => mk (upload u) (bytes_written u) (chunks_written u) (finished u).
Definition new (upload : V) : t := mk upload 0 0 false.

Definition write (data : string) (u : t) : StorageResult unit * t :=
  if finished u then (Err (StorageError.Other "Cannot write to finished upload"), u)
  else (Ok tt, u <| upload := wm_write data (upload u) |>
                 <| bytes_written := u64_add (bytes_written u) (str_len data) |>
                 <| chunks_written := u64_add (chunks_written u) 1 |>).

Definition finish (duration : Z) (u : t) : StorageResult UploadStats.t * V :=
  if finished u then (Err (StorageError.Other "Upload already finished"), upload u)
  else match wm_finish (upload u) with
       | (inr _, v) => (Ok (UploadStats.new (bytes_written u) (chunks_written u) duration), v)
       | (inl e, v) => (Err (StorageError.Cloud ("Failed to complete upload: " +:+ e)), v)
       end.

Definition abort (u : t) : StorageResult unit * V :=
  if finished u then (Err (StorageError.Other "Upload already finished"), upload u)
  else match wm_abort (upload u) with
       | (inr _, v) => (Ok tt, v)
       | (inl e, v) => (Err (StorageError.Cloud ("Failed to abort upload: " +:+ e)), v)
       end.
End Upload.
End CloudMultipartUpload.

(** [StorageStreamingExt for LocalStorage].  [tempfile_in prefix dir] creates a file with a
    new name that starts with [prefix] in [dir], opens it and yields its path. *)
Section Streaming.
Context (tempfile_in : string -> Path -> IO IoError (nat * Path)).

Definition put_multipart_stream (s : LocalStorage.t) (path : Path) : IO StorageError.t LocalMultipartUpload.t :=
  target_path ← io_lift (LocalStorage.full_path s path);
  let temp_dir := default [CurDir] (path_parent target_path) in
  temp_file ← io_map_err io_error (tempfile_in ".tmp_upload_" temp_dir);
  mret (LocalMultipartUpload.new (BufWriter.new temp_file.1) temp_file.2 target_path).
End Streaming.
