(* ===== verification/LocalStorageLaws.v ===== *)
(** * Properties of the local storage

    Paths stay within the root ([full_path_inside]) and so does every operation, whatever
    fails ([operations_confined]). *)
From stdpp Require Import pretty.
From S2P Require Import Prelude Storage Scanner Multipart FileSystem FileSystemLaws FileSystemLinks LocalStorage.
Local Open Scope string_scope.
Local Open Scope Z_scope.
Local Open Scope list_scope.

(** ** Paths in normal form *)
Definition plain (q : Path) : Prop := exists names, q = Normal <$> names \/ q = RootDir :: (Normal <$> names).

Lemma plain_push q x : plain q -> plain (push q (Normal x)).
Proof. intros [names [->| ->]]; exists (names ++ [x]); rewrite fmap_app; [left|right]; by destruct names. Qed.

Lemma take_snoc {A} (l : list A) x : take (length (l ++ [x]) - 1) (l ++ [x]) = l.
Proof. rewrite length_app, Nat.add_sub. by rewrite take_app_length. Qed.

Lemma parent_snoc q k : k <> RootDir -> path_parent (q ++ [k]) = Some q.
Proof. intros Hk. unfold path_parent. rewrite last_snoc, take_snoc. by destruct k. Qed.

Lemma plain_parent q q' : plain q -> path_parent q = Some q' -> plain q' /\ exists x, q = q' ++ [Normal x].
Proof.
  intros [names Hq]. destruct names as [|x names _] using rev_ind; [by destruct Hq as [->| ->]|].
  rewrite fmap_app in Hq. destruct Hq as [->| ->].
  - cbn. rewrite parent_snoc by done. intros [= <-]. split; [|by exists x]. exists names. by left.
  - change (RootDir :: (Normal <$> names) ++ (Normal <$> [x])) with ((RootDir :: (Normal <$> names)) ++ [Normal x]).
    rewrite parent_snoc by done. intros [= <-]. split; [|by exists x]. exists names. by right.
Qed.

Lemma normalize_plain comps r q : plain r -> normalize_components r comps = Ok q -> plain q.
Proof.
  revert r. induction comps as [|[| | |x] comps IH]; intros r Hr; cbn [normalize_components].
  - by intros [= <-].
  - apply IH. exists []. by right.
  - by apply IH.
  - destruct (path_parent r) eqn:E; [|done]. apply IH. by eapply plain_parent.
  - by apply IH, plain_push.
Qed.

Lemma resolve_names c names : resolve c (Normal <$> names) = c ++ names.
Proof.
  revert c. induction names as [|x names IH]; intros c; [by rewrite app_nil_r|]. cbn. unfold resolve in IH.
  rewrite IH, <- app_assoc. done.
Qed.

Lemma resolve_normalize_root c root : resolve c (normalize_root root) = resolve c root.
Proof.
  assert (forall acc, resolve c (foldl root_component acc root).1 = foldl step (resolve c acc.1) root) as H.
  { induction root as [|k root IH]; intros [r b]; [done|]. cbn [foldl]. rewrite IH. f_equal. cbn [root_component].
    destruct k; cbn [fst]; rewrite ?resolve_push; try done. destruct (negb b || _); [by rewrite resolve_push|done]. }
  unfold normalize_root. specialize (H ([], true)).
  change (foldl step (resolve c ([], true).1) root) with (resolve c root) in H. rewrite <- H. by case_match.
Qed.

(** ** Where the paths of a storage lead *)
Definition inside (s : LocalStorage.t) (q : Path) : Prop := plain q /\ normalize_root (LocalStorage.root s) `prefix_of` q.

Lemma full_path_Ok s path q : LocalStorage.full_path s path = Ok q -> inside s q.
Proof.
  unfold LocalStorage.full_path, normalize_path. destruct (normalize_components _ _) as [r|e|m] eqn:E; [|done..].
  apply normalize_plain in E; [|by exists []; left]. cbn. repeat case_bool_decide; cbn; [..|done]; intros [= <-]; split; try done; by subst.
Qed.

Lemma normalize_root_nonempty root : normalize_root root <> [].
Proof. unfold normalize_root. by case_match. Qed.

Lemma plain_split q a b : plain q -> q = a ++ b -> a <> [] -> plain a /\ exists names, b = Normal <$> names.
Proof.
  intros [names [->| ->]] E Ha.
  - apply fmap_app_inv in E as (n1&n2&->&->&->). split; [by exists n1; left|by exists n2].
  - destruct a as [|k a]; [done|]. injection E as <- E. apply fmap_app_inv in E as (n1&n2&->&->&->).
    split; [by exists n1; right|by exists n2].
Qed.

Lemma inside_split s q : inside s q -> plain (normalize_root (LocalStorage.root s)) /\
  exists names, q = normalize_root (LocalStorage.root s) ++ (Normal <$> names) /\
    forall c, resolve c q = resolve c (LocalStorage.root s) ++ names.
Proof.
  intros [Hq [b E]]. destruct (plain_split _ _ _ Hq E) as [Hp [names ->]]; [apply normalize_root_nonempty|].
  split; [done|]. exists names. split; [done|]. intros c. by rewrite E, resolve_app, resolve_normalize_root, resolve_names.
Qed.

Section Confined.
Context (s : LocalStorage.t) (c : list string).

(** Below the root, and on the way to it. *)
Definition within (p : list string) : Prop := resolve c (LocalStorage.root s) `prefix_of` p.
Definition above (p : list string) : Prop := p `prefix_of` resolve c (LocalStorage.root s).

Lemma inside_within q : inside s q -> within (resolve c q).
Proof. intros (_&names&_&E)%inside_split. rewrite E. by eexists. Qed.

Lemma plain_prefix_resolve a b : plain b -> a `prefix_of` b -> a <> [] -> resolve c a `prefix_of` resolve c b.
Proof.
  intros Hb [r E] Ha. destruct (plain_split b a r Hb E Ha) as [_ [names ->]]. rewrite E, resolve_app, resolve_names.
  by eexists.
Qed.

Lemma inside_on_the_way q : inside s q -> on_the_way c within above q.
Proof.
  intros Hin k Hk Hne. destruct (inside_split s q Hin) as (Hp&_). destruct Hin as [Hq Hr].
  destruct (prefix_weak_total (normalize_root (LocalStorage.root s)) k q Hr Hk) as [H|H].
  - left. unfold within. rewrite <- (resolve_normalize_root c (LocalStorage.root s)). apply plain_prefix_resolve; [|done|apply normalize_root_nonempty].
    destruct Hk as [r E]. by destruct (plain_split q k r Hq E Hne).
  - right. unfold above. rewrite <- (resolve_normalize_root c (LocalStorage.root s)). by apply plain_prefix_resolve.
Qed.

(** A root as it was parsed. *)
Definition canonical (p : Path) : Prop := Forall (fun k => k <> RootDir /\ k <> CurDir) (tail p).

Lemma foldl_root_tail comps r : Forall (fun k => k <> RootDir /\ k <> CurDir) comps ->
  (foldl root_component (r, false) comps).1 = r ++ comps.
Proof.
  intros H. revert r. induction H as [|k comps [H1 H2] _ IH]; intros r; [by rewrite app_nil_r|].
  cbn [foldl]. destruct k; cbn [root_component push]; try done; rewrite IH; by destruct r; rewrite <- ?app_assoc.
Qed.

Lemma foldl_root_tail' comps : Forall (fun k => k <> RootDir /\ k <> CurDir) comps ->
  (foldl root_component ([], true) comps).1 = comps.
Proof.
  intros H. destruct H as [|k comps [H1 H2] H]; [done|]. cbn [foldl].
  destruct k; cbn [root_component push]; try done; by rewrite foldl_root_tail.
Qed.

Lemma root_on_the_way : canonical (LocalStorage.root s) -> plain (normalize_root (LocalStorage.root s)) ->
  on_the_way c within above (LocalStorage.root s).
Proof.
  unfold canonical. intros Hc Hp k Hk Hne. right. unfold above.
  assert (plain (tail (LocalStorage.root s)) \/ plain (LocalStorage.root s)) as Hor.
  { revert Hc Hp. unfold normalize_root. destruct (LocalStorage.root s) as [|[| | |x] root]; cbn [tail foldl root_component push]; intros Hc.
    - intros _. left. exists []. by left.
    - rewrite foldl_root_tail by done. by right.
    - cbn. rewrite foldl_root_tail' by done. destruct root; [|by left]. intros _. left. exists []. by left.
    - rewrite foldl_root_tail by done. by right.
    - rewrite foldl_root_tail by done. by right. }
  destruct Hor as [Ht|Ht]; [|by apply plain_prefix_resolve].
  destruct k as [|k0 k]; [done|]. destruct Hk as [r Er]. rewrite Er in Ht |- *. cbn in Ht. rewrite resolve_app.
  assert (exists names, r = Normal <$> names) as [names ->].
  { destruct k as [|k1 k]; [|by destruct (plain_split (k1 :: k ++ r) (k1 :: k) r)].
    destruct Ht as [names [E|E]]; [by exists names|]. cbn in E.
    exfalso. unfold canonical in Hc. rewrite Er, E in Hc. cbn in Hc. apply Forall_cons in Hc. tauto. }
  rewrite resolve_names. by eexists.
Qed.

Lemma path_components_canonical r : canonical (path_components r).
Proof.
  unfold canonical, path_components. set (rest := mjoin (component <$> split_char slash r)).
  assert (Forall (fun k => k <> RootDir /\ k <> CurDir) rest) as Hr.
  { apply Forall_forall. intros k (l&Hk&(x&->&_)%list_elem_of_fmap)%list_elem_of_join. unfold component in Hk.
    repeat case_match; apply list_elem_of_singleton in Hk || apply not_elem_of_nil in Hk; by subst. }
  destruct (starts_with r "/"); [done|]. case_bool_decide; [done|]. by apply Forall_tail.
Qed.

(** ** The operations *)
Context (Hcanon : canonical (LocalStorage.root s)).
Abbreviation stays := (confined c within above).

Lemma stays_full {A} path (k : Path -> IO StorageError.t A) :
  (forall q, inside s q -> stays (k q)) -> stays (q ← io_lift (LocalStorage.full_path s path); k q).
Proof.
  intros Hk fs Hw Hc _. unfold mbind, IO_bind, io_lift.
  destruct (LocalStorage.full_path s path) as [q|e|m] eqn:E; [|split; [by apply frame_refl|done]..].
  apply full_path_Ok in E. by apply Hk.
Qed.

Lemma stays_ensure_parent q : inside s q -> stays (LocalStorage.ensure_parent s q).
Proof.
  intros Hq. unfold LocalStorage.ensure_parent. destruct (path_parent q) as [[|k parent]|]; try apply confined_ret.
  apply confined_map_err, confined_create_dir_all. destruct (LocalStorage.full_path s _) as [p|e|m] eqn:E.
  - apply full_path_Ok in E. by apply inside_on_the_way.
  - apply root_on_the_way; [done|]. by destruct (inside_split s q Hq).
  - apply root_on_the_way; [done|]. by destruct (inside_split s q Hq).
Qed.

Lemma spec_writer path : spec c within above (fun _ => True) (LocalStorage.writer s path)
  (fun w fs => owned within fs (BufWriter.inner w)).
Proof.
  intros fs Hw Hc _. unfold LocalStorage.writer, mbind at 1, IO_bind at 1, io_lift.
  destruct (LocalStorage.full_path s path) as [q|e|m] eqn:E; [|split; [by apply frame_refl|done]..].
  apply full_path_Ok in E. revert fs Hw Hc. enough (spec c within above (fun _ => True)
    (LocalStorage.ensure_parent s q;; i ← io_map_err io_error (file_create q); mret (BufWriter.new i))
    (fun w fs => owned within fs (BufWriter.inner w))) as Hs by (intros fs Hw Hc; by apply Hs).
  eapply spec_bind; [by apply stays_ensure_parent|]. intros ?.
  eapply spec_bind; [by apply spec_map_err, spec_create, inside_within|]. intros i. by apply spec_ret.
Qed.

Lemma stays_fold {E A B} (f : A -> B -> IO E A) (acc : A) l : (forall a x, stays (f a x)) -> stays (LocalStorage.io_fold f acc l).
Proof. intros Hf. revert acc. induction l as [|x l IH]; intros acc; cbn; [apply confined_ret|]. by apply confined_bind. Qed.

Lemma within_push q x : within (resolve c q) -> within (resolve c (push q (Normal x))).
Proof. intros Hq. rewrite resolve_push. by apply prefix_app_r. Qed.

Section Listing.
Context (order : list string -> list string).

Lemma stays_read_dir q : stays (LocalStorage.read_dir order q).
Proof.
  unfold LocalStorage.read_dir. apply spec_on_entry. intros fs [[]|] Hw _ _ _; (split; [by apply frame_refl|done]).
Qed.
Lemma stays_next_entry : stays LocalStorage.next_entry.
Proof. by apply confined_look. Qed.
#[local] Hint Resolve stays_read_dir stays_next_entry : frames.

(** The files found below a directory. *)
Lemma spec_fold {E A B} (f : A -> B -> IO E A) (I : A -> Prop) (acc : A) l : I acc ->
  (forall a x, I a -> spec c within above (fun _ => True) (f a x) (fun a' _ => I a')) ->
  spec c within above (fun _ => True) (LocalStorage.io_fold f acc l) (fun a _ => I a).
Proof.
  intros Hacc Hf. revert acc Hacc. induction l as [|x l IH]; intros acc Hacc; cbn; [by apply spec_ret|].
  eapply spec_bind; [by apply Hf|]. intros a fs Hw Hc Ha. by apply IH.
Qed.

Lemma spec_pre {E A} (pre : FS -> Prop) (m : IO E A) Q : spec c within above (fun _ => True) m Q -> spec c within above pre m Q.
Proof. intros Hm fs Hw Hc _. by apply Hm. Qed.

Lemma spec_collect fuel q files : within (resolve c q) -> Forall (fun p => within (resolve c p)) files ->
  spec c within above (fun _ => True) (LocalStorage.collect_files order fuel q files)
    (fun l _ => Forall (fun p => within (resolve c p)) l).
Proof.
  revert q files. induction fuel as [|fuel IH]; intros q files Hq Hf; cbn [LocalStorage.collect_files].
  { intros fs Hw _ _. split; [by apply frame_refl|done]. }
  eapply spec_bind; [apply confined_is|]. intros []; [apply spec_ret; intros _ _; apply Forall_app; auto|].
  eapply spec_bind; [apply spec_pre, stays_read_dir|]. intros entries. apply spec_pre, spec_fold; [done|].
  intros fs' x Hfs'. eapply spec_bind; [apply stays_next_entry|]. intros ?.
  eapply spec_bind; [apply confined_is|]. intros []; [apply spec_pre, IH; [by apply within_push|done]|].
  apply spec_ret. intros _ _. apply Forall_app. split; [done|]. apply Forall_singleton. by apply within_push.
Qed.

Lemma stays_remove_empty_dirs fuel q : within (resolve c q) -> stays (LocalStorage.remove_empty_dirs order fuel q).
Proof.
  revert q. induction fuel as [|fuel IH]; intros q Hq; cbn [LocalStorage.remove_empty_dirs]; [apply confined_lift|].
  frames. apply stays_fold. intros _ x. frames. by apply IH, within_push.
Qed.

Lemma stays_delete_files l n : Forall (fun p => within (resolve c p)) l -> stays (LocalStorage.io_fold LocalStorage.delete_file n l).
Proof.
  intros Hl. revert n. induction Hl as [|q l Hq _ IH]; intros n; cbn; [apply confined_ret|].
  apply confined_bind; [|done]. unfold LocalStorage.delete_file. frames.
Qed.

Lemma stays_delete_prefix path : stays (LocalStorage.delete_prefix order s path).
Proof.
  apply stays_full. intros q Hq. frames. intros fs Hw Hc _.
  match goal with |- frame _ _ _ (?m fs).2 /\ _ => enough (stays m) as Hm by (by apply Hm) end.
  eapply spec_bind; [apply spec_map_err, spec_collect; [by apply inside_within|by constructor]|].
  intros files fs' Hw' Hc' Hfiles. apply (fun H => H fs' Hw' Hc' I). 
  apply confined_bind; [by apply stays_delete_files|]. intros n. apply confined_bind; [|frames].
  by apply stays_remove_empty_dirs, inside_within.
Qed.
End Listing.
End Confined.

(** ** Sequences of operations

    A client writes a file by taking the writer, writing the chunks and dropping it. *)
Fixpoint write_chunks (chunks : list string) (x : BufWriter.t * FS) : result IoError unit * (BufWriter.t * FS) :=
  match chunks with
  | [] => (Ok tt, x)
  | d :: chunks' =>
      match BufWriter.write_all d x with
      | (Ok _, x') => write_chunks chunks' x'
      | r => r
      end
  end.

Definition write_file (s : LocalStorage.t) (path : Path) (chunks : list string) (fs : FS) : StorageResult unit * FS :=
  match LocalStorage.writer s path fs with
  | (Ok w, fs1) =>
      let '(r, x) := write_chunks chunks (w, fs1) in (map_err io_error r, BufWriter.drop x)
  | (Err e, fs1) => (Err e, fs1)
  | (Panic m, fs1) => (Panic m, fs1)
  end.

Definition read_file (s : LocalStorage.t) (path : Path) : IO StorageError.t string :=
  h ← LocalStorage.reader s path; io_map_err io_error (read_to_end h).

Inductive op :=
| ReadFile (path : Path) | WriteFile (path : Path) (chunks : list string) | PathExists (path : Path) | Size (path : Path)
| Metadata (path : Path) | ListDir (prefix : Path) | Delete (path : Path) | Copy (from to : Path) | CreateDir (path : Path)
| CreateDirAll (path : Path) | DeletePrefix (prefix : Path) | ReadRange (path : Path) (start : Z) (end_ : option Z)
| OpenReader (path : Path).

Definition exec (order : list string -> list string) (s : LocalStorage.t) (fs : FS) (o : op) : FS :=
  match o with
  | ReadFile p => (read_file s p fs).2
  | WriteFile p chunks => (write_file s p chunks fs).2
  | PathExists p => (LocalStorage.exists_ s p fs).2
  | Size p => (LocalStorage.size s p fs).2
  | Metadata p => (LocalStorage.metadata s p fs).2
  | ListDir p => (LocalStorage.list_ order s p fs).2
  | Delete p => (LocalStorage.delete s p fs).2
  | Copy a b => (LocalStorage.copy s a b fs).2
  | CreateDir p => (LocalStorage.create_dir s p fs).2
  | CreateDirAll p => (LocalStorage.create_dir_all s p fs).2
  | DeletePrefix p => (LocalStorage.delete_prefix order s p fs).2
  | ReadRange p start end_ => (LocalStorage.read_range s p start end_ fs).2
  | OpenReader p => (LocalStorage.streaming_reader s p fs).2
  end.

Section Sequences.
Context (s : LocalStorage.t) (c : list string) (Hcanon : canonical (LocalStorage.root s)).
Abbreviation stays := (confined c (within s c) (above s c)).

Lemma write_chunks_frame P D chunks w fs : wf fs -> owned P fs (BufWriter.inner w) ->
  frame P D fs (write_chunks chunks (w, fs)).2.2 /\
  BufWriter.inner (write_chunks chunks (w, fs)).2.1 = BufWriter.inner w.
Proof.
  revert w fs. induction chunks as [|d chunks IH]; intros w fs Hw Ho; cbn [write_chunks]; [split; [by apply frame_refl|done]|].
  destruct (write_all_frame P D d w fs Hw Ho) as [F E].
  destruct (BufWriter.write_all d (w, fs)) as [[u|e|m] [w1 fs1]]; cbn [fst snd] in *; [|done..].
  destruct (IH w1 fs1) as [F' E']; [apply F|rewrite E; by apply F|]. split; [by eapply frame_trans|congruence].
Qed.

Lemma write_file_frame path chunks fs : wf fs -> cwd fs = c ->
  frame (within s c) (above s c) fs (write_file s path chunks fs).2.
Proof.
  intros Hw Hc. unfold write_file. destruct (spec_writer s c Hcanon path fs Hw Hc I) as [F Ho].
  destruct (LocalStorage.writer s path fs) as [[w|e|m] fs1]; cbn [fst snd] in *; [|done..].
  destruct (write_chunks_frame (within s c) (above s c) chunks w fs1 (frame_wf _ _ _ _ F) (Ho w eq_refl)) as [F1 E1].
  destruct (write_chunks chunks (w, fs1)) as [r [w2 fs2]]. cbn [fst snd] in *. unfold BufWriter.drop.
  eapply frame_trans; [by eapply frame_trans|]. apply flush_frame; [apply F1|]. rewrite E1. apply F1. by apply Ho.
Qed.

Lemma stays_list order path : stays (LocalStorage.list_ order s path).
Proof.
  apply stays_full. intros q Hq. frames; [apply stays_read_dir|]. apply stays_fold. intros l x. unfold LocalStorage.list_entry. frames.
  apply stays_next_entry.
Qed.

Lemma stays_copy a b : stays (LocalStorage.copy s a b).
Proof.
  apply stays_full. intros q Hq. apply stays_full. intros q' Hq'. apply confined_bind; [by apply stays_ensure_parent|].
  intros ?. frames. by apply confined_copy, inside_within.
Qed.

Lemma stays_read_range path start end_ : stays (LocalStorage.read_range s path start end_).
Proof.
  apply stays_full. intros q Hq. apply confined_bind; [frames|]. intros e. frames. by apply confined_look.
Qed.

Lemma exec_frame order o fs : wf fs -> cwd fs = c -> frame (within s c) (above s c) fs (exec order s fs o).
Proof.
  intros Hw Hc.
  enough (forall E A (m : IO E A), stays m -> frame (within s c) (above s c) fs (m fs).2) as Hs.
  { destruct o as [p|p chunks|p|p|p|p|p|a b|p|p|p|p start end_|p]; cbn [exec]; [|by apply write_file_frame|..]; apply Hs.
    - apply confined_bind; [apply stays_full; intros q Hq; frames|]. intros h. apply confined_map_err, confined_look. by intros ?; destruct h.
    - unfold LocalStorage.exists_. frames.
    - apply stays_full. intros q Hq. frames.
    - apply stays_full. intros q Hq. frames.
    - apply stays_list.
    - apply stays_full. intros q Hq. frames. by apply confined_remove_file, inside_within.
    - by apply stays_copy.
    - apply stays_full. intros q Hq. frames. apply confined_create_dir. left. by apply inside_within.
    - apply stays_full. intros q Hq. frames. apply confined_create_dir_all. by apply inside_on_the_way.
    - by apply stays_delete_prefix.
    - apply stays_read_range.
    - apply stays_full. intros q Hq. frames. }
  intros E A m Hm. by apply Hm.
Qed.
End Sequences.

Lemma operations_frame order r ops fs : wf fs ->
  frame (within (LocalStorage.new r) (cwd fs)) (above (LocalStorage.new r) (cwd fs)) fs (foldl (exec order (LocalStorage.new r)) fs ops).
Proof.
  intros Hw. generalize (eq_refl (cwd fs)). generalize (cwd fs) at 2 3 4 as c. intros c Hc. symmetry in Hc.
  revert fs Hw Hc. induction ops as [|o ops IH]; intros fs Hw Hc; [by apply frame_refl|]. cbn [foldl].
  assert (frame (within (LocalStorage.new r) c) (above (LocalStorage.new r) c) fs (exec order (LocalStorage.new r) fs o)) as F.
  { apply exec_frame; [apply path_components_canonical|done..]. }
  eapply frame_trans; [done|]. apply IH; [apply F|]. by rewrite (frame_cwd _ _ _ _ F).
Qed.

Lemma operations_wf order r fs ops : wf fs -> wf (foldl (exec order (LocalStorage.new r)) fs ops).
Proof. intros Hw. by eapply frame_wf, operations_frame. Qed.

(** ** Links elsewhere *)
Section Links.
Context (s : LocalStorage.t) (c : list string) (F : list string -> Prop).
Abbreviation agrees' m := (agrees c F m (fun _ => True)).

(** No link is on the way to [q], at it or below it. *)
Definition reaches (q : Path) : Prop := straight c F q /\ forall r, resolve c q `prefix_of` r -> F r.

Lemma reaches_push q x : reaches q -> reaches (push q (Normal x)).
Proof.
  intros [Hs Hb]. split; [apply straight_push; [done|]; apply Hb; by eexists|].
  intros r. rewrite resolve_push. intros [l ->]. apply Hb. exists ([x] ++ l). cbn [step]. by rewrite <- app_assoc.
Qed.

Lemma reaches_at q : reaches q -> F (resolve c q).
Proof. intros [_ Hb]. by apply Hb. Qed.

Lemma reaches_straight q : reaches q -> straight c F q.
Proof. by intros [? _]. Qed.
#[local] Hint Resolve reaches_at reaches_straight reaches_push : links.

Lemma agrees_full {A} path (k : Path -> IO StorageError.t A) :
  (forall q, LocalStorage.full_path s path = Ok q -> agrees' (k q)) -> agrees' (q ← io_lift (LocalStorage.full_path s path); k q).
Proof. intros Hk. by apply (agrees_bind c F _ (fun q => LocalStorage.full_path s path = Ok q)); [apply agrees_lift|]. Qed.

Lemma agrees_fold {E A B} (f : A -> B -> IO E A) (I : A -> Prop) (acc : A) l : I acc ->
  (forall a x, I a -> agrees c F (f a x) I) -> agrees c F (LocalStorage.io_fold f acc l) I.
Proof.
  intros Hacc Hf. revert acc Hacc. induction l as [|x l IH]; intros acc Hacc; cbn; [by apply agrees_ret|].
  eapply agrees_bind; [by apply Hf|]. done.
Qed.

Section Listing.
Context (order : list string -> list string).

Lemma agrees_read_dir q : reaches q -> agrees' (LocalStorage.read_dir order q).
Proof.
  intros Hq. unfold LocalStorage.read_dir. apply agrees_on_entry; [by apply Hq|]. intros [[i|]|]; try (apply agrees_blind; by intros []).
  intros fs Hc. rewrite (children_clear c F fs); [|done|intros x; apply Hq; by eexists]. split_and!; [by destruct fs|apply Hc|done].
Qed.

Lemma agrees_next_entry : agrees' LocalStorage.next_entry.
Proof. by apply (agrees_look c F (fun _ => Ok tt)). Qed.
#[local] Hint Resolve agrees_read_dir agrees_next_entry : links.

Lemma agrees_list path : (forall q, LocalStorage.full_path s path = Ok q -> reaches q) -> agrees' (LocalStorage.list_ order s path).
Proof.
  intros Hp. apply agrees_full. intros q Hq%Hp. links. apply agrees_fold; [done|]. intros l x _. unfold LocalStorage.list_entry. links.
Qed.

Lemma agrees_collect fuel q files : reaches q -> Forall reaches files ->
  agrees c F (LocalStorage.collect_files order fuel q files) (Forall reaches).
Proof.
  revert q files. induction fuel as [|fuel IH]; intros q files Hq Hf; cbn [LocalStorage.collect_files]; [by apply agrees_lift|].
  apply agrees_seq; [by apply agrees_is, Hq|]. intros []; [apply agrees_ret, Forall_app; auto|].
  apply agrees_seq; [by apply agrees_read_dir|]. intros entries. apply agrees_fold; [done|]. intros fls x Hfls.
  apply agrees_seq; [apply agrees_next_entry|]. intros _. apply agrees_seq; [by apply agrees_is, reaches_push|].
  intros []; [apply IH; [by apply reaches_push|done]|]. apply agrees_ret, Forall_app. split; [done|]. apply Forall_singleton. by apply reaches_push.
Qed.

Lemma agrees_remove_empty_dirs fuel q : reaches q -> agrees' (LocalStorage.remove_empty_dirs order fuel q).
Proof.
  revert q. induction fuel as [|fuel IH]; intros q Hq; cbn [LocalStorage.remove_empty_dirs]; [by apply agrees_lift|].
  links; [|apply agrees_remove_dir; [apply Hq|by apply reaches_at|intros x; apply Hq; by eexists]].
  apply agrees_fold; [done|]. intros _ x _. links.
Qed.

Lemma agrees_delete_files l n : Forall reaches l -> agrees' (LocalStorage.io_fold LocalStorage.delete_file n l).
Proof.
  intros Hl. revert n. induction Hl as [|q l Hq _ IH]; intros n; cbn; [by apply agrees_ret|].
  apply agrees_seq; [|done]. unfold LocalStorage.delete_file. links.
Qed.

Lemma agrees_delete_prefix path : (forall q, LocalStorage.full_path s path = Ok q -> reaches q) ->
  agrees' (LocalStorage.delete_prefix order s path).
Proof.
  intros Hp. apply agrees_full. intros q Hq%Hp. links. intros fs Hc.
  change (LocalStorage.depth (unlinked fs)) with (LocalStorage.depth fs).
  match goal with |- ?m fs = _ /\ _ => enough (agrees' m) as Hm by (by apply Hm) end.
  eapply agrees_bind; [by apply agrees_map_err, agrees_collect|]. intros files Hf.
  apply agrees_seq; [by apply agrees_delete_files|]. intros n. links. by apply agrees_remove_empty_dirs.
Qed.
End Listing.

(** ** All operations *)
Context (Hin : forall q, inside s q -> reaches q) (Hroot : plain (normalize_root (LocalStorage.root s)) -> straight c F (LocalStorage.root s)).

Lemma reaches_full path q : LocalStorage.full_path s path = Ok q -> reaches q.
Proof. intros E%full_path_Ok. by apply Hin. Qed.
#[local] Hint Resolve reaches_full : links.

Lemma agrees_ensure_parent q : inside s q -> agrees' (LocalStorage.ensure_parent s q).
Proof.
  intros Hq. unfold LocalStorage.ensure_parent. destruct (path_parent q) as [[|k parent]|]; try by apply agrees_ret.
  apply agrees_map_err, agrees_create_dir_all. destruct (LocalStorage.full_path s _) as [p|e|m] eqn:E; [by eapply reaches_straight, reaches_full|..].
  all: apply Hroot; by destruct (inside_split s q Hq).
Qed.
#[local] Hint Resolve agrees_ensure_parent full_path_Ok : links.

Lemma agrees_writer path : agrees' (LocalStorage.writer s path).
Proof. apply agrees_full. intros q Hq. links. Qed.

Lemma write_chunks_relinked ls chunks w fs :
  write_chunks chunks (w, fs <| links := ls |>) = relink_writer ls (write_chunks chunks (w, fs)).
Proof.
  revert w fs. induction chunks as [|d chunks IH]; intros w fs; cbn [write_chunks]; [done|]. rewrite write_all_relinked.
  destruct (BufWriter.write_all d (w, fs)) as [[u|e|m] [w1 fs1]]; [apply IH|done..].
Qed.

Lemma write_chunks_cwd chunks w fs : cwd (write_chunks chunks (w, fs)).2.2 = cwd fs.
Proof.
  revert w fs. induction chunks as [|d chunks IH]; intros w fs; cbn [write_chunks]; [done|]. pose proof (write_all_cwd d w fs) as E.
  destruct (BufWriter.write_all d (w, fs)) as [[u|e|m] [w1 fs1]]; [rewrite IH|..]; done.
Qed.

Lemma agrees_write_file path chunks : agrees' (write_file s path chunks).
Proof.
  intros fs Hc. unfold write_file. destruct (agrees_writer path fs Hc) as (E&Hcwd&_).
  destruct (LocalStorage.writer s path fs) as [r fs1], (LocalStorage.writer s path (unlinked fs)) as [r' fs2]. injection E as -> ->.
  destruct r' as [w|e|m]; [|done..]. rewrite write_chunks_relinked. 
  pose proof (write_chunks_cwd chunks w fs2) as Hc2.
  destruct (write_chunks chunks (w, fs2)) as [r [w3 fs3]]. unfold relink_writer, BufWriter.drop. cbn -[BufWriter.flush]. rewrite flush_relinked.
  split_and!; [done| |done].
  change (cwd (BufWriter.flush (w3, fs3)).2.2 = c). rewrite flush_cwd, <- Hcwd. exact Hc2.
Qed.

Lemma agrees_read_file path : agrees' (read_file s path).
Proof. apply agrees_seq; [apply agrees_full; intros q Hq; links|]. intros h. links. Qed.

Lemma agrees_exec order o fs : clear c F fs -> let fs' := exec order s fs o in
  unlinked fs' = exec order s (unlinked fs) o /\ links fs' = links fs /\ clear c F fs'.
Proof.
  intros Hc. enough (forall E A (m : IO E A), agrees' m -> unlinked (m fs).2 = (m (unlinked fs)).2 /\ links (m fs).2 = links fs /\ clear c F (m fs).2) as Hs.
  { destruct o as [p|p chunks|p|p|p|p|p|a b|p|p|p|p start end_|p]; cbn [exec]; [|apply Hs, agrees_write_file|..]; apply Hs.
    - apply agrees_read_file.
    - unfold LocalStorage.exists_. destruct (LocalStorage.full_path s p) eqn:E; links.
    - apply agrees_full. intros q Hq. links.
    - apply agrees_full. intros q Hq. links.
    - apply agrees_list. links.
    - apply agrees_full. intros q Hq%reaches_full. links.
    - apply agrees_full. intros q Hq. apply agrees_full. intros q' Hq'. pose proof (full_path_Ok _ _ _ Hq').
      apply reaches_full in Hq, Hq'. links.
    - apply agrees_full. intros q Hq%reaches_full. links.
    - apply agrees_full. intros q Hq. links.
    - apply agrees_delete_prefix. links.
    - apply agrees_full. intros q Hq. apply agrees_seq; [links|]. intros e. links. by apply agrees_look.
    - apply agrees_full. intros q Hq. links. }
  intros E A m Hm. split_and!; [by eapply agrees_unlinked|by eapply agrees_links|by eapply agrees_clear].
Qed.
End Links.

(** No symbolic link is at [d], below it or on the way to it. *)
Definition along (d q : list string) : Prop := q `prefix_of` d \/ d `prefix_of` q.
Definition free_of_links (fs : FS) (d : list string) : Prop := forall q, along d q -> links fs !! q = None.

Lemma inside_reaches s c q : inside s q -> reaches c (along (resolve c (LocalStorage.root s))) q.
Proof.
  intros Hq. split.
  - intros k Hk Hne. destruct (inside_on_the_way s c q Hq k Hk Hne); [by right|by left].
  - intros r Hr. right. etrans; [by apply inside_within|done].
Qed.

Lemma root_straight r c : plain (normalize_root (path_components r)) -> straight c (along (resolve c (path_components r))) (path_components r).
Proof.
  intros Hp k Hk Hne. destruct (root_on_the_way (LocalStorage.new r) c (path_components_canonical r) Hp k Hk Hne); [by right|by left].
Qed.

Lemma operations_unlinked order r ops fs : free_of_links fs (resolve (cwd fs) (path_components r)) ->
  let run fs := foldl (exec order (LocalStorage.new r)) fs ops in unlinked (run fs) = run (unlinked fs) /\ links (run fs) = links fs.
Proof.
  set (c := cwd fs). set (s := LocalStorage.new r). intros Hf. assert (clear c (along (resolve c (LocalStorage.root s))) fs) as Hc by (by split).
  clear Hf. clearbody c. cbn zeta. revert fs Hc. induction ops as [|o ops IH]; intros fs Hc; [done|]. cbn [foldl].
  destruct (agrees_exec s c _ (inside_reaches s c) (root_straight r c) order o fs Hc) as (<-&<-&Hc'). by apply IH.
Qed.

(** C11: Whatever fails, no sequence of operations of a local storage changes anything
    outside its root, where no symbolic link is at the root, below it or on the way to it: a path
    that is not below the root keeps what it had, unless it is a directory on the way to the root
    that was missing and was created; links elsewhere stay. *)
Theorem operations_confined order r fs ops : wf (unlinked fs) ->
  let root := resolve (cwd fs) (path_components r) in
  let fs' := foldl (exec order (LocalStorage.new r)) fs ops in
  free_of_links fs root ->
  wf (unlinked fs') /\ links fs' = links fs /\
  forall p, root `prefix_of` p \/ view fs' p = view fs p \/
            (p `prefix_of` root /\ view fs p = None /\ view fs' p = Some None).
Proof.
  intros Hw root fs' Hf. destruct (operations_unlinked order r ops fs Hf) as [Eu El]. fold fs' in Eu, El.
  pose proof (operations_frame order r ops (unlinked fs) Hw) as F. rewrite <- Eu in F.
  split_and!; [apply F|done|]. exact (frame_view _ _ _ _ F).
Qed.

(** ** Which paths are accepted *)
Lemma normalize_resolves comps r q c : plain r -> normalize_components r comps = Ok q -> resolve c q = foldl step (resolve c r) comps.
Proof.
  revert r. induction comps as [|[| | |x] comps IH]; intros r Hr; cbn [normalize_components foldl].
  - by intros [= <-].
  - intros E. apply (IH (push [] RootDir)) in E; [done|]. exists []. by right.
  - by apply IH.
  - destruct (path_parent r) as [r'|] eqn:Ep; [|done]. destruct (plain_parent _ _ Hr Ep) as [Hr' [x ->]]. intros E%IH; [|done].
    rewrite E, resolve_app. f_equal. cbn. by rewrite take_snoc.
  - intros E%IH; [|by apply plain_push]. by rewrite E, resolve_push.
Qed.

(** A path that is accepted leads where its components say, starting at the root, to a
    place below the root; it has no dots left.  Refusals are [PermissionDenied]. *)
Theorem full_path_inside r path c : let s := LocalStorage.new r in
  match LocalStorage.full_path s path with
  | Ok q =>
      resolve c q = resolve c (path_join (path_components r) path) /\
      (exists names, resolve c q = resolve c (path_components r) ++ names) /\
      (forall k, k ∈ q -> k <> CurDir /\ k <> ParentDir)
  | Err e => exists m, e = StorageError.PermissionDenied m
  | Panic _ => False
  end.
Proof.
  intros s. destruct (LocalStorage.full_path s path) as [q|e|m] eqn:E.
  - pose proof (full_path_Ok _ _ _ E) as Hin. destruct (inside_split s q Hin) as (_&names&_&Er). split_and!.
    + revert E. unfold LocalStorage.full_path, normalize_path. destruct (normalize_components _ _) as [r'|e|m] eqn:En; [|done..].
      cbn. case_match; [|done]. intros [= <-]. apply (normalize_resolves _ [] _ c) in En; [done|]. exists []. by left.
    + by exists names.
    + destruct Hin as [[l [->| ->]] _]; intros k Hk; [|apply elem_of_cons in Hk as [->|Hk]; [done|]];
        apply list_elem_of_fmap in Hk as (x&->&_); done.
  - revert E. unfold LocalStorage.full_path, normalize_path. assert (forall comps r e, normalize_components r comps = Err e ->
      exists m, e = StorageError.PermissionDenied m) as Hn.
    { induction comps as [|[| | |x] comps IH]; intros r' e'; cbn; try done; eauto. destruct (path_parent r'); [eauto|]. intros [= <-]. by eexists. }
    destruct (normalize_components _ _) as [r'|e'|m] eqn:En; cbn; [case_match; [done|]; intros [= <-]; by eexists| |done].
    intros [= <-]. by eapply Hn.
  - revert E. unfold LocalStorage.full_path, normalize_path. assert (forall comps r m, normalize_components r comps <> Panic m) as Hn.
    { induction comps as [|[| | |x] comps IH]; intros r' m'; cbn; try done; eauto. destruct (path_parent r'); [eauto|done]. }
    destruct (normalize_components _ _) as [r'|e'|m'] eqn:En; cbn; [by case_match|done|by apply Hn in En].
Qed.

(** A storage whose root is not in normal form refuses every path. *)
Theorem unusable_root r path q : ~ plain (normalize_root (path_components r)) ->
  LocalStorage.full_path (LocalStorage.new r) path <> Ok q.
Proof. intros Hr E%full_path_Ok. destruct (inside_split _ _ E) as [Hp _]. by apply Hr. Qed.

Example current_directory_refused path q :
  LocalStorage.full_path (LocalStorage.new ".") path <> Ok q /\ LocalStorage.full_path (LocalStorage.new "") path <> Ok q.
Proof. split; apply unusable_root; by intros [[|x l] [H|H]]. Qed.

Example parent_directory_refused path q :
  LocalStorage.full_path (LocalStorage.new "../datasets") path <> Ok q /\
  LocalStorage.full_path (LocalStorage.new "/data/x/..") path <> Ok q.
Proof. split; apply unusable_root; intros [[|x [|y [|z l]]] [H|H]]; done. Qed.
