(* ===== verification/LocalUpload.v ===== *)
(** * Streaming uploads

    The uploads of crates/roboflow-storage/src/streaming_upload.rs as their clients use
    them: create, write the chunks, finish.  On the local file system the target has its
    old contents or all of the new ones, whatever fails ([upload_atomic]); in the cloud an
    upload that finished holds all that was written ([cloud_upload_complete]). *)
From S2P Require Import Prelude Storage Multipart FileSystem FileSystemLaws LocalStorage LocalStorageLaws.
Local Open Scope string_scope.
Local Open Scope Z_scope.
Local Open Scope list_scope.

(** What the documentation of [tempfile] says: a new file in the directory, with a name
    that starts with the prefix; nothing else changes. *)
Class TempFiles (tempfile_in : string -> Path -> IO IoError (nat * Path)) : Prop := {
  tempfile_ok prefix dir fs i p fs' : wf fs -> tempfile_in prefix dir fs = (Ok (i, p), fs') ->
    exists name, starts_with name prefix = true /\ node fs (resolve (cwd fs) dir) = Some Dir /\
      node fs (resolve (cwd fs) dir ++ [name]) = None /\ resolve (cwd fs) p = resolve (cwd fs) dir ++ [name] /\
      i = next_ino fs /\ same_tree (new_file (resolve (cwd fs) dir ++ [name]) fs) fs';
  tempfile_err prefix dir fs r fs' : wf fs -> tempfile_in prefix dir fs = (r, fs') ->
    match r with Ok _ => True | _ => same_tree fs fs' end }.

(** The chunks in turn; the first error ends the upload. *)
Fixpoint write_parts (chunks : list string) (x : LocalMultipartUpload.t * FS)
    : StorageResult unit * (LocalMultipartUpload.t * FS) :=
  match chunks with
  | [] => (Ok tt, x)
  | d :: chunks' =>
      match LocalMultipartUpload.write d x with
      | (Ok _, x') => write_parts chunks' x'
      | r => r
      end
  end.

Definition upload tempfile_in (s : LocalStorage.t) (path : Path) (chunks : list string) (duration : Z)
    : IO StorageError.t UploadStats.t := fun fs =>
  match put_multipart_stream tempfile_in s path fs with
  | (Ok u, fs1) =>
      match write_parts chunks (u, fs1) with
      | (Ok _, (u, fs2)) => LocalMultipartUpload.finish duration u fs2
      | (Err e, x) => (Err e, LocalMultipartUpload.drop x)
      | (Panic m, x) => (Panic m, LocalMultipartUpload.drop x)
      end
  | (Err e, fs1) => (Err e, fs1)
  | (Panic m, fs1) => (Panic m, fs1)
  end.

(** ** Writing leaves the names alone *)
Lemma put_nodes i off d fs : nodes (put i off d fs).2 = nodes fs.
Proof. unfold put. by destruct (outcomes fs) as [|[]]. Qed.

Lemma flush_nodes x : nodes (BufWriter.flush x).2.2 = nodes x.2.
Proof.
  destruct x as [w fs]. unfold BufWriter.flush. destruct (String.eqb _ _); [done|].
  pose proof (put_nodes (BufWriter.inner w) (BufWriter.offset w) (BufWriter.buf w) fs) as E.
  by destruct (put _ _ _ _) as [[]].
Qed.

Lemma write_all_nodes d x : nodes (BufWriter.write_all d x).2.2 = nodes x.2.
Proof.
  destruct x as [w fs]. unfold BufWriter.write_all. destruct (_ <? _); [done|].
  match goal with |- context [let '(_, _) := ?y in _] => assert (nodes y.2.2 = nodes fs) as Hy end.
  { destruct (_ <? _); [apply (flush_nodes (w, fs))|done]. }
  destruct (if _ : bool then _ else _) as [r [w1 fs1]]. cbn [fst snd] in *.
  destruct r; [|done..]. destruct (_ <=? _); [|done].
  pose proof (put_nodes (BufWriter.inner w1) (BufWriter.offset w1) d fs1) as E.
  destruct (put _ _ _ _) as [[]]. cbn [fst snd] in *. congruence.
Qed.

Lemma nodes_node fs fs' p : nodes fs' = nodes fs -> node fs' p = node fs p.
Proof. intros E. unfold node. by rewrite E. Qed.

(** ** An upload under way *)
Section Uploading.
Context (fs0 : FS) (temp : list string) (target : Path) (Hw0 : wf fs0) (Hnew : node fs0 temp = None).

(** Only the temporary file changed since [fs0], which did not have it. *)
Abbreviation only_temp := (frame (eq temp) (fun _ => False) fs0).

Record uploading (u : LocalMultipartUpload.t) (fs : FS) (data : string) : Prop := {
  up_frame : only_temp fs;
  up_node : node fs temp = Some (File (BufWriter.inner (LocalMultipartUpload.writer u)));
  up_owned : owned (eq temp) fs (BufWriter.inner (LocalMultipartUpload.writer u));
  up_temp : resolve (cwd fs0) (LocalMultipartUpload.temp_path u) = temp;
  up_target : LocalMultipartUpload.target_path u = target;
  up_holds : holds (LocalMultipartUpload.writer u) fs data;
  up_buf : BufWriter.buf (LocalMultipartUpload.writer u) = "";
  up_open : LocalMultipartUpload.finished u = false;
  up_bytes : LocalMultipartUpload.bytes_written u = as_u64 (str_len data) }.

Lemma u64_add_as a b : u64_add (as_u64 a) b = as_u64 (a + b).
Proof. apply Zplus_mod_idemp_l. Qed.

(** A chunk is written, or the upload can only be dropped. *)
Lemma write_uploading u fs data d : uploading u fs data ->
  match LocalMultipartUpload.write d (u, fs) with
  | (Ok _, (u', fs')) => uploading u' fs' (data +:+ d)
  | (_, x) => only_temp (LocalMultipartUpload.drop x)
  end.
Proof.
  intros [F Hn Ho Ht Hg Hh Hb Hf Hl]. unfold LocalMultipartUpload.write. rewrite Hf.
  set (w := LocalMultipartUpload.writer u) in *.
  destruct (write_all_frame (eq temp) (fun _ => False) d w fs (frame_wf _ _ _ _ F) Ho) as [F1 E1].
  pose proof (write_all_nodes d (w, fs)) as N1.
  assert (forall w' fs', frame (eq temp) (fun _ => False) fs fs' -> BufWriter.inner w' = BufWriter.inner w -> only_temp (BufWriter.drop (w', fs'))) as Hdrop.
  { intros w' fs' F' E'. eapply frame_trans; [by eapply frame_trans|]. apply flush_frame; [apply F'|]. rewrite E'. by apply F'. }
  destruct (BufWriter.write_all d (w, fs)) as [[v|e|m] [w1 fs1]] eqn:Ew; cbn [fst snd] in *; [|by apply Hdrop..].
  apply (write_all_Ok d w fs data) in Ew as [Hh1 _]; [|done].
  destruct (flush_frame (eq temp) (fun _ => False) w1 fs1 (frame_wf _ _ _ _ F1)) as [F2 E2]; [rewrite E1; by apply F1|].
  pose proof (flush_nodes (w1, fs1)) as N2.
  destruct (BufWriter.flush (w1, fs1)) as [[v'|e|m] [w2 fs2]] eqn:Ef; cbn [fst snd] in *.
  - apply (flush_Ok w1 fs1 (data +:+ d)) in Ef as (Hh2&Hb2&_); [|done]. split; cbn; try done.
    + eapply frame_trans; [|done]. by eapply frame_trans.
    + rewrite E2, E1. by rewrite (nodes_node fs fs2) by congruence.
    + rewrite E2, E1. by apply F2, F1.
    + rewrite Hl, u64_add_as, str_len_app. done.
  - apply (Hdrop w2 fs2); [by eapply frame_trans|by rewrite E2, E1].
  - apply (Hdrop w2 fs2); [by eapply frame_trans|by rewrite E2, E1].
Qed.

Lemma write_parts_uploading chunks u fs data : uploading u fs data ->
  match write_parts chunks (u, fs) with
  | (Ok _, (u', fs')) => uploading u' fs' (data +:+ joined chunks)
  | (_, x) => only_temp (LocalMultipartUpload.drop x)
  end.
Proof.
  revert u fs data. induction chunks as [|d chunks IH]; intros u fs data Hu; cbn [write_parts joined].
  - by rewrite string_app_nil_r.
  - pose proof (write_uploading u fs data d Hu) as Hw.
    destruct (LocalMultipartUpload.write d (u, fs)) as [[v|e|m] [u1 fs1]]; [|done..].
    rewrite <- string_app_assoc. by apply IH.
Qed.

(** ** Finishing it *)
Lemma only_temp_same fs fs' : only_temp fs -> same_tree fs fs' -> only_temp fs'.
Proof. intros F H. eapply frame_trans; [done|]. apply same_frame; [apply F|done]. Qed.

(** The directory of the target is there, so nothing is created on the way to it. *)
Definition target_dir_ready : Prop :=
  plain target /\ forall parent, path_parent target = Some parent -> node fs0 (resolve (cwd fs0) parent) = Some Dir.

Lemma make_parent_same P fs parent : target_dir_ready -> only_temp fs -> path_parent target = Some parent ->
  frame P (fun _ => False) fs (fs_create_dir_all parent fs).2.
Proof.
  intros [Hp Hd] F Hparent. destruct (plain_parent _ _ Hp Hparent) as [Hpp _]. apply Hd in Hparent.
  assert (confined (cwd fs0) P (fun p => p `prefix_of` resolve (cwd fs0) parent) (fs_create_dir_all parent)) as Hc.
  { apply confined_create_dir_all. intros q Hq Hne. right. by apply plain_prefix_resolve. }
  destruct (Hc fs (frame_wf _ _ _ _ F) (frame_cwd _ _ _ _ F) I) as [F' _]. split; try apply F'.
  intros p. destruct (frame_view _ _ _ _ F' p) as [?|[?|(Hpre&E1&E2)]]; [by left|by right; left|]. exfalso.
  assert (node fs0 p = Some Dir) as Hdir.
  { destruct Hpre as [[|x r] E]; [by rewrite app_nil_r in E; rewrite <- E|]. rewrite E in Hparent. by eapply node_prefix. }
  destruct (frame_view _ _ _ _ F p) as [<-|[E|[[] _]]]; [by rewrite Hnew in Hdir|].
  rewrite E1 in E. unfold view in E. by rewrite Hdir in E.
Qed.

(** What the upload has done at the end. *)
Definition uploaded (data : string) (x : StorageResult UploadStats.t * FS) : Prop :=
  let q := resolve (cwd fs0) target in
  match x with
  | (Ok stats, fs') =>
      view fs' q = Some (Some data) /\ UploadStats.bytes_uploaded stats = as_u64 (str_len data) /\
      forall p, p <> q -> view fs' p = view fs0 p
  | (_, fs') => only_temp fs'
  end.

Lemma rename_uploaded u fs data duration : resolve (cwd fs0) (LocalMultipartUpload.temp_path u) = temp ->
  LocalMultipartUpload.target_path u = target -> LocalMultipartUpload.bytes_written u = as_u64 (str_len data) ->
  temp <> resolve (cwd fs0) target -> only_temp fs -> view fs temp = Some (Some data) ->
  uploaded data ((r ← io_try (fs_rename (LocalMultipartUpload.temp_path u) (LocalMultipartUpload.target_path u));
    match r with
    | Ok _ => mret (UploadStats.new (LocalMultipartUpload.bytes_written u) 1 duration)
    | Err e => ignored ← io_try (remove_file (LocalMultipartUpload.temp_path u)); io_throw (io_error e)
    | Panic m => io_lift (Panic m)
    end) fs).
Proof.
  intros Ht Hg Hl Hne F Hv. pose proof (frame_cwd _ _ _ _ F) as Hc.
  assert (exists i, node fs temp = Some (File i) /\ bytes_at fs i = data) as (i&Hn&Hi).
  { unfold view in Hv. destruct (node fs temp) as [[i|]|]; [|done..]. exists i. split; [done|]. by injection Hv. }
  pose proof (rename_moves (LocalMultipartUpload.temp_path u) target fs i (frame_wf _ _ _ _ F)) as Hm.
  rewrite Hc, Ht in Hm. specialize (Hm Hn Hne). rewrite Hg. unfold mbind, IO_bind, io_try.
  destruct (fs_rename (LocalMultipartUpload.temp_path u) target fs) as [[v|e|m] fs1]; cbn [fst snd moved] in *.
  - destruct Hm as (Eq&Et&Ep). cbn. rewrite Eq, Hi. repeat split; [done|]. intros p Hp.
    destruct (decide (p = temp)) as [->|Hpt].
    + rewrite Et. unfold view. by rewrite Hnew.
    + rewrite Ep by done. by destruct (frame_view _ _ _ _ F p) as [<-|[?|[[] _]]].
  - pose proof (only_temp_same _ _ F Hm) as F1.
    assert (confined (cwd fs0) (eq temp) (fun _ => False) (remove_file (LocalMultipartUpload.temp_path u))) as Hrm
      by (apply confined_remove_file; by rewrite Ht).
    destruct (Hrm fs1 (frame_wf _ _ _ _ F1) (frame_cwd _ _ _ _ F1) I) as [F2 _]. cbn. by eapply frame_trans.
  - by eapply only_temp_same.
Qed.

Lemma finish_uploading u fs data duration : target_dir_ready -> temp <> resolve (cwd fs0) target ->
  uploading u fs data -> uploaded data (LocalMultipartUpload.finish duration u fs).
Proof.
  intros Hd Hne [F Hn Ho Ht Hg Hh Hb Hf Hl]. unfold LocalMultipartUpload.finish. rewrite Hf.
  assert (view fs temp = Some (Some data)) as Hv.
  { unfold view. rewrite Hn. destruct Hh as [_ Hh]. rewrite Hb, string_app_nil_r in Hh. by rewrite Hh. }
  unfold mbind at 1, IO_bind at 1, io_map_err at 1. unfold BufWriter.into_inner, BufWriter.flush. rewrite Hb. cbn [fst snd map_err String.eqb].
  unfold mbind at 1, IO_bind at 1, io_map_err at 1.
  assert (same_tree fs (sync_all fs).2) as Hs by (unfold sync_all, syscall; by destruct (outcomes fs) as [|[]]).
  destruct (sync_all fs) as [[v|e|m] fs1]; cbn [fst snd map_err] in *; [|by eapply only_temp_same..].
  pose proof (only_temp_same _ _ F Hs) as F1. rewrite <- (same_view _ _ temp Hs) in Hv. clear F Hn Ho Hh Hs.
  rewrite Hg. destruct (path_parent target) as [parent|] eqn:Ep.
  - pose proof (make_parent_same (eq temp) fs1 parent Hd F1 Ep) as F2.
    pose proof (make_parent_same (fun _ => False) fs1 parent Hd F1 Ep) as F3.
    unfold mbind at 1, IO_bind at 1, io_map_err at 1.
    destruct (fs_create_dir_all parent fs1) as [[v'|e|m] fs2]; cbn [fst snd map_err] in *; [|by eapply frame_trans..].
    assert (only_temp fs2) as F4 by (by eapply frame_trans). rewrite <- Hg. apply rename_uploaded; try done.
    by destruct (frame_view _ _ _ _ F3 temp) as [[]|[->|[[] _]]].
  - unfold mbind at 1, IO_bind at 1. cbn [mret IO_ret]. rewrite <- Hg. by apply rename_uploaded.
Qed.
End Uploading.

Section Local.
Context (tempfile_in : string -> Path -> IO IoError (nat * Path)) `{!TempFiles tempfile_in}.

(** The new upload, or nothing. *)
Lemma start_uploading s path target fs : wf fs -> LocalStorage.full_path s path = Ok target ->
  match put_multipart_stream tempfile_in s path fs with
  | (Ok u, fs1) =>
      exists d name, starts_with name ".tmp_upload_" = true /\ node fs (d ++ [name]) = None /\
        uploading fs (d ++ [name]) target u fs1 "" /\ target_dir_ready fs target
  | (_, fs1) => same_tree fs fs1
  end.
Proof.
  intros Hw Hf. unfold put_multipart_stream, mbind, IO_bind, io_lift, io_map_err. rewrite Hf.
  destruct (tempfile_in _ _ fs) as [[[i p]|e|m] fs1] eqn:Et; cbn [fst snd map_err].
  2,3: by apply tempfile_err in Et.
  apply tempfile_ok in Et as (name&Hname&Hdir&Hn&Hp&->&Hsame); [|done].
  set (d := resolve (cwd fs) (default [CurDir] (path_parent target))) in *.
  destruct (new_file_frame (eq (d ++ [name])) (fun _ => False) fs d name Hw Hn Hdir eq_refl) as [F Ho].
  assert (frame (eq (d ++ [name])) (fun _ => False) fs fs1) as F1
    by (eapply frame_trans; [done|]; apply same_frame; [apply F|done]).
  exists d, name. split; [done|]. split; [done|]. split.
  - split; cbn; try done.
    + rewrite (same_node _ _ _ Hsame), new_file_node. by rewrite bool_decide_true.
    + destruct Ho as [Ho1 Ho2]. destruct Hsame as (H1&H2&H3&_). split; [by rewrite H3|]. intros q. unfold node. rewrite H1. apply Ho2.
    + split; cbn; unfold bytes_at; destruct Hsame as (_&->&_); cbn; by rewrite lookup_insert_eq.
  - destruct (full_path_Ok _ _ _ Hf) as [Hplain _]. split; [done|]. intros parent Hpar. unfold d in Hdir. by rewrite Hpar in Hdir.
Qed.

(** C10: A streaming upload to the local file system is atomic, whatever fails, in a tree without
    symbolic links: when it finishes, the target holds all the chunks and nothing else changed; when it does not,
    the target has its old contents and nothing changed but that a temporary file may be
    left. *)
Theorem upload_atomic s path target chunks duration fs : wf fs ->
  LocalStorage.full_path s path = Ok target ->
  (forall d x, resolve (cwd fs) target = d ++ [x] -> starts_with x ".tmp_upload_" = false) ->
  let q := resolve (cwd fs) target in
  match upload tempfile_in s path chunks duration fs with
  | (Ok stats, fs') =>
      view fs' q = Some (Some (joined chunks)) /\
      UploadStats.bytes_uploaded stats = as_u64 (str_len (joined chunks)) /\
      forall p, p <> q -> view fs' p = view fs p
  | (_, fs') =>
      forall p, view fs' p = view fs p \/
        (view fs p = None /\ exists d name, p = d ++ [name] /\ starts_with name ".tmp_upload_" = true)
  end.
Proof.
  intros Hw Hf Hq q. unfold upload. pose proof (start_uploading s path target fs Hw Hf) as Hs.
  destruct (put_multipart_stream tempfile_in s path fs) as [[u|e|m] fs1]; [|intros p; left; by apply same_view..].
  destruct Hs as (d&name&Hname&Hn&Hu&Hd). assert (d ++ [name] <> q) as Hne.
  { intros E. rewrite (Hq d name) in Hname by done. done. }
  assert (forall fs', frame (eq (d ++ [name])) (fun _ => False) fs fs' -> forall p, view fs' p = view fs p \/
    (view fs p = None /\ exists d name, p = d ++ [name] /\ starts_with name ".tmp_upload_" = true)) as Hkeep.
  { intros fs' F p. destruct (frame_view _ _ _ _ F p) as [<-|[?|[[] _]]]; [|by left]. right. unfold view. rewrite Hn. eauto. }
  pose proof (write_parts_uploading fs (d ++ [name]) target chunks u fs1 "" Hu) as Hparts.
  destruct (write_parts chunks (u, fs1)) as [[v|e|m] [u2 fs2]]; [|by apply Hkeep..].
  pose proof (finish_uploading fs (d ++ [name]) target Hw Hn u2 fs2 (joined chunks) duration Hd Hne Hparts) as Hfin.
  destruct (LocalMultipartUpload.finish duration u2 fs2) as [[stats|e|m] fs3]; [done|by apply Hkeep..].
Qed.
End Local.

(** ** In the cloud *)
Section Cloud.
Context {V : Type} `{WriteMultipartLaws V}.

Fixpoint cloud_parts (chunks : list string) (u : CloudMultipartUpload.t (V := V)) : StorageResult unit * CloudMultipartUpload.t :=
  match chunks with
  | [] => (Ok tt, u)
  | d :: chunks' => match CloudMultipartUpload.write d u with (Ok _, u') => cloud_parts chunks' u' | r => r end
  end.

Lemma cloud_parts_written chunks u : CloudMultipartUpload.finished u = false ->
  let '(r, u') := cloud_parts chunks u in
  r = Ok tt /\ wm_written (CloudMultipartUpload.upload u') = wm_written (CloudMultipartUpload.upload u) +:+ joined chunks /\
  CloudMultipartUpload.finished u' = false /\
  as_u64 (CloudMultipartUpload.bytes_written u') = as_u64 (CloudMultipartUpload.bytes_written u + str_len (joined chunks)) /\
  as_u64 (CloudMultipartUpload.chunks_written u') = as_u64 (CloudMultipartUpload.chunks_written u + Z.of_nat (length chunks)).
Proof.
  revert u. induction chunks as [|d chunks IH]; intros u Hf; cbn [cloud_parts joined length].
  - rewrite string_app_nil_r. change (str_len "") with 0. cbn. by rewrite !Z.add_0_r.
  - unfold CloudMultipartUpload.write. rewrite Hf. 
    match goal with |- context [cloud_parts chunks ?u1] => specialize (IH u1 Hf); destruct (cloud_parts chunks u1) as [r u'] end.
    destruct IH as (->&Hw&Hf'&Hb&Hn). cbn in Hw, Hb, Hn.
    rewrite Hw, Hb, Hn, wm_write_appends, string_app_assoc, str_len_app. repeat split; [done|..].
    + unfold u64_add, as_u64. rewrite Zplus_mod_idemp_l. f_equal. lia.
    + unfold u64_add, as_u64. rewrite Zplus_mod_idemp_l. f_equal. lia.
Qed.

(** An upload to the cloud accepts every chunk, and when it finishes, the object is made
    of all of them. *)
Theorem cloud_upload_complete (v : V) chunks duration : wm_written v = "" ->
  let '(r, u) := cloud_parts chunks (CloudMultipartUpload.new v) in
  r = Ok tt /\
  match CloudMultipartUpload.finish duration u with
  | (Ok stats, v') => wm_stored v' = Some (joined chunks) /\
      as_u64 (UploadStats.bytes_uploaded stats) = as_u64 (str_len (joined chunks)) /\
      as_u64 (UploadStats.parts_count stats) = as_u64 (Z.of_nat (length chunks))
  | (Err e, _) => StorageError.is_retryable e = true
  | (Panic _, _) => False
  end.
Proof.
  intros Hv. pose proof (cloud_parts_written chunks (CloudMultipartUpload.new v) eq_refl) as Hp.
  destruct (cloud_parts chunks _) as [r u]. destruct Hp as (->&Hw&Hf&Hb&Hn). split; [done|].
  unfold CloudMultipartUpload.finish. rewrite Hf. destruct (wm_finish _) as [[e|[]] v'] eqn:Ef; cbn; [done|].
  apply wm_finish_ok in Ef. cbn in Hw. rewrite Hv in Hw. rewrite Ef, Hw. cbn in Hb, Hn. done.
Qed.
End Cloud.
