(* ===== verification/LocalRoundtrip.v ===== *)
(** * What the local storage does when nothing fails

    With every system call answered: a written file is read back ([write_read]), and a range
    of it is that part of its bytes ([read_range_outcome]). *)
From stdpp Require Import pretty.
From S2P Require Import Prelude Storage FileSystem FileSystemLaws FileSystemLinks LocalStorage LocalStorageLaws LocalUpload.
Local Open Scope string_scope.
Local Open Scope Z_scope.
Local Open Scope list_scope.

(** ** Lookup without files on the way *)
Definition no_file (fs : FS) (p : list string) : Prop := forall i, node fs p <> Some (File i).

Lemma descend_no_files fs names x dir : wf fs -> (forall k, k `prefix_of` names -> no_file fs (dir ++ k)) ->
  (descend fs dir (names ++ [x]) = Ok (node fs (dir ++ names ++ [x])) /\ node fs (dir ++ names) = Some Dir) \/
  (descend fs dir (names ++ [x]) = Err NotFound /\ node fs (dir ++ names) = None).
Proof.
  intros Hw Hno. destruct (node fs (dir ++ names)) as [[i|]|] eqn:En.
  - exfalso. by apply (Hno names (reflexivity _) i).
  - left. split; [|done]. apply descend_dir; [done|]. right. by exists names, x.
  - right. split; [|done]. revert dir Hno En. induction names as [|y names IH]; intros dir Hno En; cbn.
    + rewrite app_nil_r in En. by rewrite En.
    + destruct (node fs dir) as [[i|]|] eqn:Ed; [|apply IH|done].
      * exfalso. apply (Hno [] (prefix_nil _) i). by rewrite app_nil_r.
      * intros k Hk. rewrite <- app_assoc. apply Hno. by apply prefix_cons.
      * by rewrite <- app_assoc.
Qed.

Lemma find_no_files fs p d x : wf fs -> resolve (cwd fs) p = d ++ [x] -> (forall k, k `prefix_of` d -> no_file fs k) ->
  (find fs p = Ok (node fs (d ++ [x])) /\ node fs d = Some Dir) \/ (find fs p = Err NotFound /\ node fs d = None).
Proof. intros Hw E Hno. rewrite find_eq, E by apply Hw. by apply (descend_no_files fs d x []). Qed.

(** ** Creating directories *)

Lemma quiet_syscall {A} (f : FS -> result IoError A * FS) fs : outcomes fs = [] ->
  syscall f fs = f (fs <| outcomes := [] |>).
Proof. intros E. unfold syscall. by rewrite E. Qed.

Lemma FS_eta_id fs : outcomes fs = [] -> fs <| outcomes := [] |> = fs.
Proof. destruct fs. cbn. by intros ->. Qed.

Lemma quiet_run {A} (f : FS -> result IoError A * FS) fs : outcomes fs = [] -> syscall f fs = f fs.
Proof. intros E. by rewrite quiet_syscall, FS_eta_id. Qed.

Lemma is_dir_quiet {E} fs p : wf fs -> outcomes fs = [] -> node fs (resolve (cwd fs) p) = Some Dir ->
  path_is_dir (E := E) p fs = (Ok true, fs <| mtimes := tail (mtimes fs) |>).
Proof.
  intros Hw Hq Hn. unfold path_is_dir, path_is, fs_metadata, on_node. rewrite quiet_run by done.
  by rewrite (find_node fs p Dir).
Qed.

(** One directory is made, or is there. *)
Definition made (q : list string) (x : result IoError unit * FS) : Prop :=
  x.1 = Ok tt /\ outcomes x.2 = [] /\ node x.2 q = Some Dir.

Lemma mkdir_missing fs p d x : wf fs -> outcomes fs = [] -> resolve (cwd fs) p = d ++ [x] ->
  (forall k, k `prefix_of` d -> no_file fs k) -> node fs d = None -> fs_create_dir p fs = (Err NotFound, fs).
Proof.
  intros Hw Hq E Hno Hd. unfold fs_create_dir, on_entry. rewrite quiet_run, entry_eq by (done || apply Hw).
  by destruct (find_no_files fs p d x Hw E Hno) as [[_ ?]|[-> _]]; [congruence|].
Qed.

Lemma mkdir_made fs p d x (other : IO IoError unit) : wf fs -> outcomes fs = [] -> resolve (cwd fs) p = d ++ [x] ->
  node fs d = Some Dir -> no_file fs (d ++ [x]) ->
  made (d ++ [x]) ((r ← io_try (fs_create_dir p);
    match r with
    | Ok _ => mret tt
    | Err NotFound => other
    | Err e => unless_dir p e
    | Panic m => io_lift (Panic m)
    end) fs).
Proof.
  intros Hw Hq E Hd Hno. unfold mbind, IO_bind, io_try, fs_create_dir, on_entry. rewrite quiet_run, entry_eq by (done || apply Hw).
  rewrite (find_dir fs p d x), E, no_link by (done || apply Hw). destruct (node fs (d ++ [x])) as [[i|]|] eqn:En; cbn [fst snd].
  - exfalso. by apply (Hno i).
  - unfold unless_dir, mbind, IO_bind. rewrite is_dir_quiet; [by split_and!|done..|by rewrite E].
  - split; [done|]. split; [done|]. cbn [snd]. cbn. change (node (set_node (d ++ [x]) Dir fs) (d ++ [x]) = Some Dir).
    rewrite node_insert by (by destruct d). by rewrite bool_decide_true.
Qed.

Lemma mkdir_again_made fs p d x : wf fs -> outcomes fs = [] -> resolve (cwd fs) p = d ++ [x] ->
  node fs d = Some Dir -> no_file fs (d ++ [x]) ->
  made (d ++ [x]) ((r ← io_try (fs_create_dir p);
    match r with Ok _ => mret tt | Err e => unless_dir p e | Panic m => io_lift (Panic m) end) fs).
Proof.
  intros Hw Hq E Hd Hno. pose proof (mkdir_made fs p d x (unless_dir p NotFound) Hw Hq E Hd Hno) as Hm.
  revert Hm. unfold mbind, IO_bind, io_try. by destruct (fs_create_dir p fs) as [[u|[]|m] fs'].
Qed.

(** What [create_dir_all] leaves alone: it makes directories on the way. *)
Lemma create_all_frame P fs p : wf fs -> plain p ->
  frame P (fun q => q `prefix_of` resolve (cwd fs) p) fs (fs_create_dir_all p fs).2.
Proof.
  intros Hw Hp. assert (confined (cwd fs) P (fun q => q `prefix_of` resolve (cwd fs) p) (fs_create_dir_all p)) as Hc.
  { apply confined_create_dir_all. intros k Hk Hne. right. by apply plain_prefix_resolve. }
  by apply Hc.
Qed.

Lemma no_file_frame D fs fs' p : frame (fun _ => False) D fs fs' -> no_file fs p -> no_file fs' p.
Proof.
  intros F Hno i Hi. destruct (frame_view _ _ _ _ F p) as [[]|[E|(_&_&E)]]; unfold view in E; rewrite Hi in E; [|done].
  destruct (node fs p) as [[j|]|] eqn:En; try done. by apply (Hno j).
Qed.

Lemma create_all_made base names fs : wf fs -> outcomes fs = [] -> (base = [RootDir] \/ base = []) ->
  node fs (resolve (cwd fs) base) = Some Dir ->
  (forall k, k `prefix_of` names -> no_file fs (resolve (cwd fs) base ++ k)) ->
  made (resolve (cwd fs) base ++ names) (fs_create_dir_all (base ++ (Normal <$> names)) fs).
Proof.
  intros Hw Hq Hb Hbase. unfold fs_create_dir_all. induction names as [|x names IH] using rev_ind; intros Hno.
  - rewrite !app_nil_r. destruct Hb as [->| ->]; [|by split_and!]. cbn [reverse rev_append create_dirs]. 
    unfold mbind at 1, IO_bind at 1, io_try, fs_create_dir, on_entry. rewrite quiet_run, entry_eq by (done || apply Hw).
    rewrite (find_node fs [RootDir] Dir) by done. cbn [fst snd]. unfold unless_dir, mbind, IO_bind.
    rewrite is_dir_quiet by done. by split_and!.
  - set (b := resolve (cwd fs) base) in *. rewrite fmap_app, !app_assoc. cbn [fmap list_fmap]. rewrite reverse_app. cbn [reverse rev_append app create_dirs].
    change (rev_append (reverse (base ++ (Normal <$> names))) [Normal x]) with (reverse (Normal x :: reverse (base ++ (Normal <$> names)))).
    set (p := reverse (Normal x :: reverse (base ++ (Normal <$> names)))).
    assert (p = (base ++ (Normal <$> names)) ++ [Normal x]) as Hp by (unfold p; rewrite reverse_cons, reverse_involutive; done).
    assert (resolve (cwd fs) p = (b ++ names) ++ [x]) as E.
    { rewrite Hp, !resolve_app, resolve_names. done. }
    assert (forall k, k `prefix_of` names -> no_file fs (b ++ k)) as Hno' by (intros k Hk; apply Hno; by apply prefix_app_r).
    assert (no_file fs ((b ++ names) ++ [x])) as Hx by (rewrite <- app_assoc; apply Hno; done).
    destruct (node fs (b ++ names)) as [[i|]|] eqn:En.
    { exfalso. by apply (Hno' names (reflexivity _) i). }
    { by apply mkdir_made. }
    specialize (IH Hno'). pose proof (create_all_frame (fun _ => False) fs (base ++ (Normal <$> names)) Hw) as F.
    unfold mbind at 1, IO_bind at 1, io_try at 1. rewrite (mkdir_missing fs p (b ++ names) x); try done.
    2:{ intros k Hk. destruct (decide (b `prefix_of` k)) as [[r ->]|Hbk]; [apply Hno'; by eapply prefix_app_inv|].
        intros i Hi. destruct (prefix_weak_total b k (b ++ names)) as [?|[r Hr]]; [by apply prefix_app_r|done|done|].
        destruct r as [|y r]; [apply Hbk; by rewrite Hr, app_nil_r|].
        assert (node fs k = Some Dir); [|congruence]. eapply (node_prefix fs k (y :: r)); [done| |done]. rewrite <- Hr. exact Hbase. }
    cbn [fst snd]. unfold mbind at 1, IO_bind at 1. unfold fs_create_dir_all in F.
    destruct (create_dirs (reverse (base ++ (Normal <$> names))) fs) as [r fs1]. destruct IH as (Hr&Hq1&Hd1). cbn [fst snd] in *. subst r.
    assert (plain (base ++ (Normal <$> names))) as Hpl by (destruct Hb as [->| ->]; exists names; auto).
    specialize (F Hpl). apply mkdir_again_made; [apply F|done|by rewrite (frame_cwd _ _ _ _ F)|done|by eapply no_file_frame].
Qed.

(** ** Absolute roots *)
Lemma push_names p l : foldl push p (Normal <$> l) = p ++ (Normal <$> l).
Proof.
  revert p. induction l as [|x l IH]; intros p; [by rewrite app_nil_r|]. cbn. rewrite IH. by destruct p; rewrite <- ?app_assoc.
Qed.

Lemma normalize_names r l : normalize_components r (Normal <$> l) = Ok (r ++ (Normal <$> l)).
Proof.
  revert r. induction l as [|x l IH]; intros r; [by rewrite app_nil_r|]. cbn. rewrite IH. by destruct r; rewrite <- ?app_assoc.
Qed.

Definition absolute (l : list string) : Path := RootDir :: (Normal <$> l).

Lemma resolve_absolute c l : resolve c (absolute l) = l.
Proof. unfold absolute. cbn. apply (resolve_names []). Qed.

Lemma absolute_plain l : plain (absolute l).
Proof. exists l. by right. Qed.

Lemma absolute_snoc l x : absolute (l ++ [x]) = absolute l ++ [Normal x].
Proof. unfold absolute. by rewrite fmap_app. Qed.

Lemma normalize_root_absolute l : normalize_root (absolute l) = absolute l.
Proof.
  unfold normalize_root, absolute. cbn [foldl root_component push app]. rewrite foldl_root_tail; [done|].
  apply Forall_fmap, Forall_forall. done.
Qed.

Section Absolute.
Context (s : LocalStorage.t) (rn : list string) (Hroot : LocalStorage.root s = absolute rn).

Lemma full_path_absolute l : LocalStorage.full_path s (absolute (rn ++ l)) = Ok (absolute (rn ++ l)).
Proof.
  unfold LocalStorage.full_path, normalize_path, path_join. rewrite Hroot, normalize_root_absolute.
  change (foldl push (absolute rn) (absolute (rn ++ l))) with (foldl push [RootDir] (Normal <$> (rn ++ l))).
  rewrite push_names. cbn [app normalize_components push]. rewrite normalize_names. cbn [mbind result_bind].
  rewrite (bool_decide_true (absolute rn `prefix_of` _)), orb_true_r; [done|].
  unfold absolute. rewrite fmap_app. by exists (Normal <$> l).
Qed.

Lemma full_path_names l : LocalStorage.full_path s (Normal <$> l) = Ok (absolute (rn ++ l)).
Proof.
  rewrite <- full_path_absolute. unfold LocalStorage.full_path, path_join. f_equal. rewrite Hroot, push_names.
  change (foldl push (absolute rn) (absolute (rn ++ l))) with (foldl push [RootDir] (Normal <$> (rn ++ l))).
  by rewrite push_names, fmap_app.
Qed.

(** ** Writing with every call answered *)
Lemma put_quiet i off d fs : outcomes fs = [] -> put i off d fs = (None, String.length d, set_bytes i (write_at off d (bytes_at fs i)) fs).
Proof. intros E. unfold put. rewrite E. by rewrite FS_eta_id. Qed.

Lemma flush_quiet w fs : outcomes fs = [] -> exists w' fs', BufWriter.flush (w, fs) = (Ok tt, (w', fs')) /\ outcomes fs' = [].
Proof.
  intros E. unfold BufWriter.flush. destruct (String.eqb _ _); [by eexists _, _|]. rewrite put_quiet by done.
  by eexists _, _.
Qed.

Lemma write_all_quiet d w fs : outcomes fs = [] -> exists w' fs', BufWriter.write_all d (w, fs) = (Ok tt, (w', fs')) /\ outcomes fs' = [].
Proof.
  intros E. unfold BufWriter.write_all. destruct (_ <? _); [by eexists _, _|].
  assert (exists w1 fs1, (if BufWriter.capacity <? str_len (BufWriter.buf w) + str_len d then BufWriter.flush (w, fs) else (Ok tt, (w, fs)))
    = (Ok tt, (w1, fs1)) /\ outcomes fs1 = []) as (w1&fs1&->&E1).
  { destruct (_ <? _); [by apply flush_quiet|by eexists _, _]. }
  destruct (_ <=? _); [|by eexists _, _]. rewrite put_quiet by done. by eexists _, _.
Qed.

Lemma write_chunks_quiet chunks w fs data : outcomes fs = [] -> holds w fs data -> exists w' fs',
  write_chunks chunks (w, fs) = (Ok tt, (w', fs')) /\ outcomes fs' = [] /\ holds w' fs' (data +:+ joined chunks) /\
  BufWriter.inner w' = BufWriter.inner w /\ nodes fs' = nodes fs.
Proof.
  revert w fs data. induction chunks as [|d chunks IH]; intros w fs data E Hh; cbn [write_chunks joined].
  - exists w, fs. by rewrite string_app_nil_r.
  - destruct (write_all_quiet d w fs E) as (w1&fs1&Ew&E1). pose proof (write_all_nodes d (w, fs)) as N. rewrite Ew in N |- *.
    apply (write_all_Ok d w fs data) in Ew as [Hh1 Ei]; [|done]. destruct (IH w1 fs1 (data +:+ d)) as (w2&fs2&->&E2&Hh2&Ei2&N2); [done..|].
    exists w2, fs2. rewrite <- string_app_assoc. cbn in N. split_and!; try done; congruence.
Qed.

Lemma create_quiet fs p d x : wf fs -> outcomes fs = [] -> resolve (cwd fs) p = d ++ [x] -> node fs d = Some Dir ->
  node fs (d ++ [x]) <> Some Dir -> exists i fs', file_create p fs = (Ok i, fs') /\ outcomes fs' = [] /\
    node fs' (d ++ [x]) = Some (File i) /\ bytes_at fs' i = "".
Proof.
  intros Hw Hq E Hd Hn. unfold file_create, on_entry. rewrite quiet_run, entry_eq by (done || apply Hw). rewrite (find_dir fs p d x), E by done.
  destruct (node fs (d ++ [x])) as [[i|]|] eqn:En; [|done|].
  - exists i, (set_bytes i "" fs). split_and!; try done. unfold bytes_at. cbn. by rewrite lookup_insert_eq.
  - eexists _, _. split; [done|]. split; [done|]. rewrite new_file_node, bool_decide_true by done. split; [done|].
    unfold bytes_at. cbn. by rewrite lookup_insert_eq.
Qed.

(** The parent directories are made. *)
Lemma ensure_parent_quiet l x fs : wf fs -> outcomes fs = [] -> (forall k, k `prefix_of` rn ++ l -> no_file fs k) ->
  exists fs', LocalStorage.ensure_parent s (absolute (rn ++ l ++ [x])) fs = (Ok tt, fs') /\ outcomes fs' = [] /\
    node fs' (rn ++ l) = Some Dir /\ forall P, frame P (fun q => q `prefix_of` rn ++ l) fs fs'.
Proof.
  intros Hw Hq Hno. unfold LocalStorage.ensure_parent. rewrite app_assoc, absolute_snoc, parent_snoc by done.
  destruct (absolute (rn ++ l)) as [|k parent] eqn:Ea; [done|]. rewrite <- Ea, full_path_absolute.
  pose proof (create_all_made [RootDir] (rn ++ l) fs Hw Hq (or_introl eq_refl) eq_refl Hno) as (Hr&Hq1&Hd).
  assert (forall P, frame P (fun q => q `prefix_of` rn ++ l) fs (fs_create_dir_all (absolute (rn ++ l)) fs).2) as F.
  { intros P. pose proof (create_all_frame P fs (absolute (rn ++ l)) Hw (absolute_plain _)) as F. by rewrite resolve_absolute in F. }
  change ([RootDir] ++ (Normal <$> (rn ++ l))) with (absolute (rn ++ l)) in *. cbn [resolve foldl step app] in Hd.
  unfold io_map_err. destruct (fs_create_dir_all (absolute (rn ++ l)) fs) as [r fs1]. cbn [fst snd] in *. subst r.
  exists fs1. by split_and!.
Qed.

Lemma writer_quiet l x fs : wf fs -> outcomes fs = [] -> (forall k, k `prefix_of` rn ++ l -> no_file fs k) ->
  node fs (rn ++ l ++ [x]) <> Some Dir ->
  exists i fs', LocalStorage.writer s (Normal <$> (l ++ [x])) fs = (Ok (BufWriter.new i), fs') /\ outcomes fs' = [] /\
    node fs' (rn ++ l ++ [x]) = Some (File i) /\ bytes_at fs' i = "" /\
    frame (eq (rn ++ l ++ [x])) (fun q => q `prefix_of` rn ++ l) fs fs' /\ owned (eq (rn ++ l ++ [x])) fs' i.
Proof.
  intros Hw Hq Hno Hn. unfold LocalStorage.writer, mbind, IO_bind, io_lift. rewrite full_path_names.
  destruct (ensure_parent_quiet l x fs Hw Hq Hno) as (fs1&->&Hq1&Hd1&F).
  assert (node fs1 ((rn ++ l) ++ [x]) <> Some Dir) as Hn1.
  { rewrite <- app_assoc. intros Hc. destruct (frame_view _ _ _ _ (F (fun _ => False)) (rn ++ l ++ [x])) as [[]|[E|(Hp&_)]].
    - unfold view in E. rewrite Hc in E. by destruct (node fs (rn ++ l ++ [x])) as [[]|].
    - apply prefix_length in Hp. rewrite !length_app in Hp. cbn in Hp. lia. }
  specialize (F (eq (rn ++ l ++ [x]))). pose proof (frame_wf _ _ _ _ F) as Hw1.
  assert (resolve (cwd fs1) (absolute (rn ++ l ++ [x])) = (rn ++ l) ++ [x]) as Er by (by rewrite resolve_absolute, app_assoc).
  destruct (create_quiet fs1 (absolute (rn ++ l ++ [x])) (rn ++ l) x Hw1 Hq1 Er Hd1 Hn1) as (i&fs2&Ec&Hq2&Hf2&Hb2).
  pose proof (spec_create (cwd fs1) (eq (rn ++ l ++ [x])) (fun q => q `prefix_of` rn ++ l) (absolute (rn ++ l ++ [x]))
    (eq_sym (resolve_absolute _ _)) fs1 Hw1 eq_refl I) as [F2 Ho]. unfold io_map_err. rewrite Ec in F2, Ho |- *. cbn [fst snd map_err] in *.
  exists i, fs2. rewrite <- app_assoc in Hf2. split_and!; try done; [by eapply frame_trans|by apply Ho].
Qed.
End Absolute.

(** Without links. *)
Lemma write_read_unlinked r rn l x chunks fs : path_components r = absolute rn -> wf fs -> outcomes fs = [] ->
  (forall k i, k `prefix_of` rn ++ l -> node fs k <> Some (File i)) -> node fs (rn ++ l ++ [x]) <> Some Dir ->
  let s := LocalStorage.new r in
  let path := Normal <$> (l ++ [x]) in
  exists fs', write_file s path chunks fs = (Ok tt, fs') /\ (read_file s path fs').1 = Ok (joined chunks) /\
    forall p, p <> rn ++ l ++ [x] -> view fs' p = view fs p \/
      (p `prefix_of` rn ++ l /\ view fs p = None /\ view fs' p = Some None).
Proof.
  intros Hr Hw Hq Hno Hn s path.
  destruct (writer_quiet s rn Hr l x fs) as (i&fs1&Ew&Hq1&Hf1&Hb1&F1&Ho); [done|done|by intros k Hk i; apply Hno|done|].
  unfold write_file, path. rewrite Ew.
  assert (holds (BufWriter.new i) fs1 "") as Hh by (split; cbn; by rewrite Hb1).
  destruct (write_chunks_frame (eq (rn ++ l ++ [x])) (fun q => q `prefix_of` rn ++ l) chunks (BufWriter.new i) fs1 (frame_wf _ _ _ _ F1) Ho) as [F2 _].
  destruct (write_chunks_quiet chunks (BufWriter.new i) fs1 "" Hq1 Hh) as (w2&fs2&Ec&Hq2&Hh2&Ei&N2). rewrite Ec in F2 |- *. cbn [fst snd] in F2.
  destruct (flush_frame (eq (rn ++ l ++ [x])) (fun q => q `prefix_of` rn ++ l) w2 fs2 (frame_wf _ _ _ _ F2)) as [F3 _];
    [rewrite Ei; by apply F2|].
  destruct (flush_quiet w2 fs2 Hq2) as (w3&fs3&Ef&Hq3). pose proof (flush_nodes (w2, fs2)) as N3. unfold BufWriter.drop. rewrite Ef in F3, N3 |- *.
  apply (flush_Ok w2 fs2 ("" +:+ joined chunks)) in Ef as (Hh3&Hb3&Ei3); [|done]. cbn [fst snd map_err] in *. destruct Hh3 as [_ Hd3].
  rewrite Hb3, string_app_nil_r, Ei3, Ei in Hd3. cbn in Hd3.
  assert (frame (eq (rn ++ l ++ [x])) (fun q => q `prefix_of` rn ++ l) fs fs3) as F by (eapply frame_trans; [by eapply frame_trans|done]).
  exists fs3. split; [done|]. split.
  - unfold read_file, LocalStorage.reader, mbind, IO_bind, io_lift, io_map_err. rewrite (full_path_names s rn Hr).
    unfold file_open, on_node. rewrite quiet_run by done. rewrite (find_node fs3 _ (File i)); [|apply F|].
    + cbn [fst snd map_err]. unfold read_to_end. rewrite quiet_run by done. cbn. by rewrite Hd3.
    + rewrite resolve_absolute. rewrite (nodes_node fs1 fs3) by congruence. done.
  - intros p Hp. destruct (frame_view _ _ _ _ F p) as [<-|[?|?]]; [done|by left|by right].
Qed.

(** C29: With every call answered, writing a file below an absolute root succeeds
    when no file is in the way and no symbolic link is at the root, below it or on the way to it,
    reading it gives the chunks back, and nothing else changes but that missing directories on the way
    are created. *)
Theorem write_read r rn l x chunks fs : path_components r = absolute rn -> wf (unlinked fs) -> free_of_links fs rn -> outcomes fs = [] ->
  (forall k i, k `prefix_of` rn ++ l -> node fs k <> Some (File i)) -> node fs (rn ++ l ++ [x]) <> Some Dir ->
  let s := LocalStorage.new r in
  let path := Normal <$> (l ++ [x]) in
  exists fs', write_file s path chunks fs = (Ok tt, fs') /\ (read_file s path fs').1 = Ok (joined chunks) /\
    links fs' = links fs /\
    forall p, p <> rn ++ l ++ [x] -> view fs' p = view fs p \/
      (p `prefix_of` rn ++ l /\ view fs p = None /\ view fs' p = Some None).
Proof.
  intros Hr Hw Hf Hq Hno Hn s path. set (c := cwd fs).
  assert (resolve c (path_components r) = rn) as Er by (rewrite Hr; apply resolve_absolute).
  pose proof (inside_reaches s c) as Hin. pose proof (root_straight r c) as Hroot. change (LocalStorage.root s) with (path_components r) in Hin. rewrite Er in Hin, Hroot.
  assert (clear c (along rn) fs) as Hc by (by split).
  destruct (write_read_unlinked r rn l x chunks (unlinked fs) Hr Hw Hq Hno Hn) as (fs'&E&Hread&Hview).
  pose proof (agrees_write_file s c (along rn) Hin Hroot path chunks) as Ha.
  pose proof (agrees_clear c _ _ _ fs Ha Hc) as Hc'. pose proof (agrees_unlinked c _ _ _ fs Ha Hc) as Eu.
  pose proof (agrees_links c _ _ _ fs Ha Hc) as El. destruct (Ha fs Hc) as [Ew _].
  change (write_file s path chunks (unlinked fs) = (Ok (), fs')) in E. rewrite E in Ew, Eu.
  destruct (write_file s path chunks fs) as [res fs1]. cbn [snd] in *. exists fs1. injection Ew as -> _.
  destruct (agrees_read_file s c (along rn) Hin path fs1 Hc') as [-> _]. rewrite Eu. split_and!; [done..|].
  intros p Hp. rewrite <- (unlinked_view fs1 p), Eu. exact (Hview p Hp).
Qed.

Lemma substring_zero n x : String.substring n 0 x = "".
Proof. revert n. induction x as [|a x IH]; intros [|n]; cbn; auto. Qed.

(** The bytes of a range within a file, with every call answered; without an end the range
    goes to the end of the file. *)
Theorem read_range_outcome r rn l i start end_ fs : path_components r = absolute rn -> wf fs -> outcomes fs = [] ->
  node fs (rn ++ l) = Some (File i) ->
  let data := bytes_at fs i in
  let stop := default (str_len data) end_ in
  0 <= start <= stop -> stop <= str_len data -> str_len data <= i64_max ->
  (LocalStorage.read_range (LocalStorage.new r) (Normal <$> l) start end_ fs).1 =
    Ok (String.substring (Z.to_nat start) (Z.to_nat (stop - start)) data).
Proof.
  intros Hr Hw Hq Hn data stop Hs He Hmax.
  assert (forall fs', same_tree fs fs' -> outcomes fs' = [] -> find fs' (absolute (rn ++ l)) = Ok (Some (File i)) /\ bytes_at fs' i = data) as Hfind.
  { intros fs' H _. split; [|unfold bytes_at; by destruct H as (_&->&_)].
    apply find_node; [by eapply same_wf|]. rewrite resolve_absolute. by rewrite (same_node _ _ _ H). }
  assert (forall fs', same_tree fs fs' -> outcomes fs' = [] ->
    ((if stop <? start then io_throw (StorageError.invalid_path ("start offset " +:+ pretty start +:+ " exceeds end offset " +:+ pretty stop))
      else
        h ← io_map_err (not_found_or_io (absolute (rn ++ l))) (file_open (absolute (rn ++ l)));
        io_map_err io_error (file_seek start);;
        (if i64_max <? stop - start then io_lift (Panic "capacity overflow") else mret tt);;
        io_map_err io_error (file_read_exact h start (stop - start))) fs').1 =
    Ok (String.substring (Z.to_nat start) (Z.to_nat (stop - start)) data)) as Htail.
  { intros fs' H Hq'. destruct (Hfind fs' H Hq') as [Ef Eb]. destruct (Z.ltb_spec stop start); [lia|].
    unfold mbind, IO_bind, io_map_err, file_open, on_node. rewrite quiet_run, Ef by done. cbn [fst snd map_err].
    unfold file_seek. rewrite quiet_run by done. destruct (Z.leb_spec start i64_max); [|lia]. cbn [fst snd map_err].
    destruct (Z.ltb_spec i64_max (stop - start)); [lia|]. cbn [mret IO_ret fst snd]. unfold mret, IO_ret, file_read_exact.
    destruct (Z.eqb_spec (stop - start) 0) as [E|]; [rewrite E; by rewrite substring_zero|].
    rewrite quiet_run, Eb by done. destruct (Z.leb_spec (start + (stop - start)) (str_len data)); [done|lia]. }
  unfold LocalStorage.read_range, mbind at 1, IO_bind at 1, io_lift at 1. rewrite (full_path_names (LocalStorage.new r) rn Hr).
  destruct end_ as [e|]; [by apply Htail|].
  unfold mbind at 1, IO_bind at 1, mbind at 1, IO_bind at 1, io_map_err at 1, fs_metadata, on_node.
  destruct (Hfind fs) as [Ef Eb]; [done..|]. rewrite quiet_run, Ef by done. cbn [fst snd map_err]. unfold mret at 1, IO_ret at 1. cbn [meta_len].
  by apply Htail.
Qed.
