(* ===== verification/LocalDelete.v ===== *)
(** * Deleting a prefix

    [LocalStorage.delete_prefix] with every call answered: the recursion ends within its fuel,
    every file below the prefix is removed and counted, every directory below it goes, and
    nothing else changes ([delete_prefix_exact]). *)
From S2P Require Import Prelude Storage FileSystem FileSystemLaws FileSystemLinks LocalStorage LocalStorageLaws LocalUpload LocalRoundtrip.
Local Open Scope string_scope.
Local Open Scope Z_scope.
Local Open Scope list_scope.

(** ** Children *)
Lemma NoDup_omap_inj {A B} (f : A -> option B) l : NoDup l ->
  (forall x y z, x ∈ l -> y ∈ l -> f x = Some z -> f y = Some z -> x = y) -> NoDup (omap f l).
Proof.
  induction 1 as [|x l Hx Hl IH]; intros Hinj; [constructor|]. cbn.
  assert (NoDup (omap f l)) as Hn by (apply IH; intros; eapply Hinj; try done; by right).
  destruct (f x) as [z|] eqn:Ez; [|done]. constructor; [|done]. intros (y&Hy&Ey)%list_elem_of_omap.
  rewrite (Hinj x y z) in Hx; [done|by left|by right|done|done].
Qed.

Lemma children_NoDup fs d : links fs = ∅ -> NoDup (children fs d).
Proof.
  intros El. rewrite children_nodes by done.
  apply NoDup_omap_inj; [apply NoDup_map_to_list|]. intros [q n] [q' n'] x Hq%elem_of_map_to_list Hq'%elem_of_map_to_list.
  cbn. intros ->%child_of_Some ->%child_of_Some. congruence.
Qed.

(** ** Looking without changing *)
Definition still (fs fs' : FS) : Prop := same_tree fs fs' /\ outcomes fs' = [].

Lemma still_refl fs : outcomes fs = [] -> still fs fs.
Proof. by split. Qed.

Lemma still_trans fs1 fs2 fs3 : still fs1 fs2 -> still fs2 fs3 -> still fs1 fs3.
Proof. intros [(H1&H2&H3&H4&H5) _] [(H6&H7&H8&H9&H10) H]. split; [|done]. unfold same_tree. split_and!; congruence. Qed.

Definition node_meta (fs : FS) (n : Node) : FileMeta :=
  match n with
  | Dir => mkMeta true (dir_len fs) (default None (head (mtimes fs)))
  | File i => mkMeta false (str_len (bytes_at fs i)) (default None (head (mtimes fs)))
  end.

Lemma path_is_quiet test {E} fs p n : wf fs -> outcomes fs = [] -> node fs (resolve (cwd fs) p) = Some n ->
  exists fs', path_is test (E := E) p fs = (Ok (test (node_meta fs n)), fs') /\ still fs fs'.
Proof.
  intros Hw Hq Hn. unfold path_is, fs_metadata, on_node. rewrite quiet_run, (find_node fs p n) by done.
  eexists. split; [by destruct n|]. by split.
Qed.

Lemma path_is_missing test {E} fs p : wf fs -> outcomes fs = [] -> node fs (resolve (cwd fs) p) = None ->
  path_is test (E := E) p fs = (Ok false, fs).
Proof.
  intros Hw Hq Hn. unfold path_is, fs_metadata, on_node. rewrite quiet_run by done.
  destruct (find fs p) as [[m|]|e|m] eqn:Ef; try done. apply find_Ok in Ef as [Ef _]; [|done]. congruence.
Qed.

Lemma next_entry_quiet fs : outcomes fs = [] -> LocalStorage.next_entry fs = (Ok tt, fs).
Proof. intros Hq. unfold LocalStorage.next_entry. by rewrite quiet_run. Qed.

Section Delete.
Context (order : list string -> list string) (Horder : forall l, order l ≡ₚ l).

Lemma read_dir_quiet fs p : wf fs -> outcomes fs = [] -> node fs (resolve (cwd fs) p) = Some Dir ->
  LocalStorage.read_dir order p fs = (Ok (order (children fs (resolve (cwd fs) p))), fs).
Proof. intros Hw Hq Hn. unfold LocalStorage.read_dir, on_entry. by rewrite quiet_run, entry_eq, (find_node fs p Dir) by (done || apply Hw). Qed.

(** ** The files below a directory *)
Definition is_file (fs : FS) (q : list string) : Prop := exists i, node fs q = Some (File i).

(** [l] lists the files of [fs] that satisfy [below], each once. *)
Definition lists (fs : FS) (l : list Path) (below : list string -> Prop) : Prop :=
  NoDup (resolve (cwd fs) <$> l) /\ forall q, q ∈ resolve (cwd fs) <$> l <-> below q /\ is_file fs q.

Definition deep_enough (fuel : nat) (fs : FS) (d : list string) : Prop :=
  forall q, is_Some (node fs q) -> (length q < fuel + length d)%nat.

Lemma prefix_file fs d q : wf fs -> is_file fs d -> d `prefix_of` q -> is_Some (node fs q) -> q = d.
Proof.
  intros Hw [i Hd] [[|x r] ->] [n Hn]; [by rewrite app_nil_r|]. apply node_prefix in Hn; [congruence|done|done].
Qed.

Lemma lists_app fs l1 l2 (B1 B2 B : list string -> Prop) : (forall q, B q <-> B1 q \/ B2 q) -> (forall q, B1 q -> B2 q -> False) ->
  lists fs l1 B1 -> lists fs l2 B2 -> lists fs (l1 ++ l2) B.
Proof.
  intros HB Hdis [N1 E1] [N2 E2]. split.
  - rewrite fmap_app. apply NoDup_app. split_and!; [done| |done]. intros q Hq%E1 Hq2%E2. naive_solver.
  - intros q. rewrite fmap_app, elem_of_app, E1, E2, HB. naive_solver.
Qed.

Lemma still_lists fs fs' l B : still fs fs' -> lists fs' l B -> lists fs l B.
Proof.
  intros [H _] [N E]. pose proof H as (_&_&_&Hc&_). rewrite Hc in N, E. split; [done|]. intros q. rewrite E. unfold is_file. by setoid_rewrite (same_node _ _ _ H).
Qed.

Lemma still_wf fs fs' : still fs fs' -> wf fs -> wf fs'.
Proof. intros [H _]. by apply same_wf. Qed.

Lemma sibling_prefix (d : list string) x y q : d ++ [x] `prefix_of` q -> d ++ [y] `prefix_of` q -> x = y.
Proof. intros [r ->] [r' E]. rewrite <- !app_assoc in E. apply app_inv_head in E. by injection E. Qed.

#[local] Instance below_one_dec (d names : list string) q : Decision (exists y, y ∈ names /\ d ++ [y] `prefix_of` q).
Proof.
  destruct (decide (Exists (fun y => d ++ [y] `prefix_of` q) names)) as [H|H]; [left|right]; rewrite Exists_exists in H; naive_solver.
Defined.

Lemma below_children fs d q : wf fs -> is_file fs q -> node fs d = Some Dir ->
  d `prefix_of` q <-> exists x, x ∈ children fs d /\ d ++ [x] `prefix_of` q.
Proof.
  intros Hw [i Hq] Hd. split.
  - intros [[|x r] ->]; [rewrite app_nil_r in Hq; congruence|]. exists x. split; [|by exists r; rewrite <- app_assoc].
    apply children_elem; [apply Hw|]. rewrite <- node_snoc. destruct r as [|y r]; [by eexists|].
    exists Dir. apply (node_prefix fs (d ++ [x]) (y :: r) (File i)); [done| |done]. by rewrite <- app_assoc.
  - intros (x&_&Hx). etrans; [|done]. by apply prefix_app_r.
Qed.

Definition collect_entry (fuel : nat) (dir : Path) (files : list Path) (name : string) : IO IoError (list Path) :=
  LocalStorage.next_entry;;
  let path := push dir (Normal name) in
  is_dir ← path_is_dir path;
  if is_dir : bool then LocalStorage.collect_files order fuel path files else mret (files ++ [path]).

Definition collects (fs : FS) (m : IO IoError (list Path)) (files : list Path) (B : list string -> Prop) : Prop :=
  exists l fs', m fs = (Ok (files ++ l), fs') /\ still fs fs' /\ lists fs l B.

Lemma collect_entries fuel dir fs names files : wf fs -> outcomes fs = [] -> NoDup names ->
  (forall x, x ∈ names -> x ∈ children fs (resolve (cwd fs) dir)) ->
  (forall path files fs1, still fs fs1 -> is_Some (node fs (resolve (cwd fs) path)) ->
     resolve (cwd fs) dir `prefix_of` resolve (cwd fs) path -> length (resolve (cwd fs) path) = S (length (resolve (cwd fs) dir)) ->
     collects fs1 (LocalStorage.collect_files order fuel path files) files (fun q => resolve (cwd fs) path `prefix_of` q)) ->
  collects fs (LocalStorage.io_fold (collect_entry fuel dir) files names) files
    (fun q => exists x, x ∈ names /\ resolve (cwd fs) dir ++ [x] `prefix_of` q).
Proof.
  intros Hw Hq Hnd Hch Hrec. set (d := resolve (cwd fs) dir) in *.
  enough (forall fs1 files, still fs fs1 -> collects fs1 (LocalStorage.io_fold (collect_entry fuel dir) files names) files
    (fun q => exists x, x ∈ names /\ d ++ [x] `prefix_of` q)) as H by (apply H; by apply still_refl).
  induction Hnd as [|x names Hx Hnd IH]; intros fs1 fls Hs; cbn [LocalStorage.io_fold].
  { exists [], fs1. rewrite app_nil_r. split_and!; [done|by apply still_refl, Hs|]. split; [constructor|].
    intros q. split; [by intros ?%not_elem_of_nil|]. by intros [(y&?%not_elem_of_nil&_) _]. }
  pose proof (still_wf _ _ Hs Hw) as Hw1. pose proof Hs as [Hsame Hq1].
  assert (cwd fs1 = cwd fs) as Hc1 by apply Hsame.
  assert (resolve (cwd fs) (push dir (Normal x)) = d ++ [x]) as Er by (by rewrite resolve_push).
  assert (is_Some (node fs (d ++ [x]))) as [n Hn].
  { rewrite node_snoc. apply children_elem, Hch; [apply Hw|by left]. }
  assert (collects fs1 (collect_entry fuel dir fls x) fls (fun q => d ++ [x] `prefix_of` q)) as (l1&fs2&E1&Hs2&L1).
  { unfold collects, collect_entry, mbind, IO_bind. rewrite next_entry_quiet by done.
    assert (node fs1 (resolve (cwd fs1) (push dir (Normal x))) = Some n) as Hn1 by (by rewrite Hc1, Er, (same_node _ _ _ Hsame)).
    destruct (path_is_quiet meta_dir (E := IoError) fs1 _ n Hw1 Hq1 Hn1) as (fs2&E2&Hs2).
    unfold path_is_dir. rewrite E2. destruct n as [i|]; cbn [node_meta meta_dir].
    - exists [push dir (Normal x)], fs2. split_and!; [done|done|]. split; [apply NoDup_singleton|].
      intros q. cbn [fmap list_fmap]. rewrite list_elem_of_singleton, Hc1, Er. split.
      + intros ->. split; [done|]. exists i. by rewrite (same_node _ _ _ Hsame).
      + intros [Hp [j Hj]]. rewrite (same_node _ _ _ Hsame) in Hj. apply (prefix_file fs); [done|by exists i|done|by eexists].
    - destruct (Hrec (push dir (Normal x)) fls fs2) as (l&fs3&E3&Hs3&L3).
      + by eapply still_trans.
      + rewrite Er. by eexists.
      + rewrite Er. by apply prefix_app_r.
      + rewrite Er, length_app. cbn. lia.
      + exists l, fs3. rewrite Er in L3. split_and!; [done|by eapply still_trans|by eapply still_lists]. }
  unfold collects, mbind, IO_bind. rewrite E1.
  destruct (IH (fun y Hy => Hch y (list_elem_of_further _ _ _ Hy)) fs2 (fls ++ l1)) as (l2&fs3&E3&Hs3&L3).
  { by eapply still_trans. }
  exists (l1 ++ l2), fs3. rewrite E3, app_assoc. split_and!; [done|by eapply still_trans|].
  eapply (lists_app fs1 l1 l2 (fun q => d ++ [x] `prefix_of` q) (fun q => exists y, y ∈ names /\ d ++ [y] `prefix_of` q)); [| |done|by eapply still_lists].
  - intros q. setoid_rewrite elem_of_cons. naive_solver.
  - intros q H1 (y&Hy&H2). by rewrite (sibling_prefix d x y q H1 H2) in Hx.
Qed.

Lemma collect_quiet fuel dir files fs n : wf fs -> outcomes fs = [] -> node fs (resolve (cwd fs) dir) = Some n ->
  deep_enough fuel fs (resolve (cwd fs) dir) ->
  collects fs (LocalStorage.collect_files order fuel dir files) files (fun q => resolve (cwd fs) dir `prefix_of` q).
Proof.
  revert dir files fs n. induction fuel as [|fuel IH]; intros dir files fs n Hw Hq Hn Hdeep.
  { specialize (Hdeep (resolve (cwd fs) dir)). rewrite Hn in Hdeep. specialize (Hdeep ltac:(by eexists)). lia. }
  cbn [LocalStorage.collect_files]. unfold collects, mbind at 1, IO_bind at 1.
  destruct (path_is_quiet (fun m => negb (meta_dir m)) (E := IoError) fs dir n Hw Hq Hn) as (fs1&E1&Hs1).
  unfold path_is_file. rewrite E1. destruct n as [i|]; cbn [node_meta meta_dir negb].
  - exists [dir], fs1. split_and!; [done|done|]. split; [apply NoDup_singleton|]. intros q. cbn [fmap list_fmap]. rewrite list_elem_of_singleton.
    split; [intros ->; split; [done|by exists i]|]. intros [Hp [j Hj]]. apply (prefix_file fs); [done|by exists i|done|by eexists].
  - pose proof (still_wf _ _ Hs1 Hw) as Hw1. pose proof Hs1 as [Hsame1 Hq1]. assert (cwd fs1 = cwd fs) as Hc1 by apply Hsame1.
    assert (node fs1 (resolve (cwd fs1) dir) = Some Dir) as Hn1 by (by rewrite Hc1, (same_node _ _ _ Hsame1)).
    unfold mbind at 1, IO_bind at 1. rewrite read_dir_quiet by done.
    destruct (collect_entries fuel dir fs1 (order (children fs1 (resolve (cwd fs1) dir))) files) as (l&fs2&E2&Hs2&L2); try done.
    + rewrite Horder. apply children_NoDup, Hw1.
    + intros x. by rewrite Horder.
    + intros path fls fs2 Hs2 [m Hm] Hpre Hlen. pose proof Hs2 as [Hsame2 Hq2]. assert (cwd fs2 = cwd fs1) as Hc2 by apply Hsame2.
      rewrite <- Hc2. apply (IH path fls fs2 m); [by eapply still_wf|done|by rewrite Hc2, (same_node _ _ _ Hsame2)|].
      intros q. rewrite (same_node _ _ _ Hsame2), (same_node _ _ _ Hsame1), Hc2, Hlen, Hc1. intros Hq'. specialize (Hdeep q Hq'). lia.
    + exists l, fs2. split_and!; [done|by eapply still_trans|]. eapply still_lists; [done|]. destruct L2 as [N2 E2']. split; [done|].
      intros q. rewrite E2', <- Hc1. split; intros [Hb Hf]; (split; [|done]).
      * destruct Hb as (x&Hx&Hp). rewrite Horder in Hx. apply (below_children fs1 _ q Hw1 Hf Hn1). by exists x.
      * apply (below_children fs1 _ q Hw1 Hf Hn1) in Hb as (x&Hx&Hp). exists x. by rewrite Horder.
Qed.


(** ** Removing them *)

(** [fs'] is [fs] without the names in [gone]. *)
Record without (gone : list string -> Prop) (fs fs' : FS) : Prop := {
  wo_wf : wf fs';
  wo_quiet : outcomes fs' = [];
  wo_cwd : cwd fs' = cwd fs;
  wo_inodes : inodes fs' = inodes fs;
  wo_gone q : gone q -> node fs' q = None;
  wo_kept q : ~ gone q -> node fs' q = node fs q }.

Lemma still_without fs fs' : wf fs -> still fs fs' -> without (fun _ => False) fs fs'.
Proof.
  intros Hw [H Hq]. split; [by eapply same_wf|done|by destruct H as (_&_&_&->&_)|by destruct H as (_&->&_)|done|].
  intros q _. by apply same_node.
Qed.

Lemma without_trans (g1 g2 g : list string -> Prop) fs1 fs2 fs3 : (forall q, Decision (g2 q)) -> (forall q, g q <-> g1 q \/ g2 q) ->
  without g1 fs1 fs2 -> without g2 fs2 fs3 -> without g fs1 fs3.
Proof.
  intros Hdec Hg W1 W2. split.
  - apply W2.
  - apply W2.
  - rewrite (wo_cwd _ _ _ W2). apply W1.
  - rewrite (wo_inodes _ _ _ W2). apply W1.
  - intros q [H1|H2]%Hg; [|by apply W2]. destruct (Hdec q); [by apply W2|]. rewrite (wo_kept _ _ _ W2) by done. by apply W1.
  - intros q Hq. rewrite (wo_kept _ _ _ W2), (wo_kept _ _ _ W1); [done|..]; intros H; apply Hq, Hg; auto.
Qed.

Lemma without_view gone fs fs' p : without gone fs fs' -> ~ gone p -> view fs' p = view fs p.
Proof. intros W Hp. unfold view, bytes_at. by rewrite (wo_kept _ _ _ W p Hp), (wo_inodes _ _ _ W). Qed.

Lemma del_without fs p : wf fs -> outcomes fs = [] -> p <> [] -> (forall x, node fs (p ++ [x]) = None) ->
  without (eq p) fs (del_node p fs).
Proof.
  intros Hw Hq Hne Hleaf. split; try done.
  - apply (del_node_frame (fun _ => True) (fun _ => False)); done.
  - intros q <-. rewrite node_delete by done. by rewrite bool_decide_true.
  - intros q Hp. rewrite node_delete by done. by rewrite bool_decide_false by congruence.
Qed.

Lemma remove_file_quiet fs p i : wf fs -> outcomes fs = [] -> node fs (resolve (cwd fs) p) = Some (File i) ->
  exists fs', remove_file p fs = (Ok tt, fs') /\ without (eq (resolve (cwd fs) p)) fs fs'.
Proof.
  intros Hw Hq Hn. unfold remove_file, on_entry. rewrite quiet_run, entry_eq, (find_node fs p (File i)) by (done || apply Hw). eexists. split; [done|].
  apply del_without; [done|done|intros E; by rewrite E in Hn|]. intros x. by eapply file_leaf.
Qed.

Lemma remove_dir_quiet fs p : wf fs -> outcomes fs = [] -> node fs (resolve (cwd fs) p) = Some Dir -> resolve (cwd fs) p <> [] ->
  (forall x, node fs (resolve (cwd fs) p ++ [x]) = None) ->
  exists fs', remove_dir p fs = (Ok tt, fs') /\ without (eq (resolve (cwd fs) p)) fs fs'.
Proof.
  intros Hw Hq Hn Hne Hleaf. unfold remove_dir, on_entry. rewrite quiet_run, entry_eq, (find_node fs p Dir) by (done || apply Hw).
  rewrite bool_decide_false by done. rewrite bool_decide_true.
  - eexists. split; [done|]. by apply del_without.
  - apply elem_of_nil_inv. intros x [n Hx]%(children_elem fs _ _ (wf_links fs Hw)). rewrite <- node_snoc in Hx. congruence.
Qed.

Lemma delete_files_quiet l n fs : wf fs -> outcomes fs = [] -> NoDup (resolve (cwd fs) <$> l) ->
  (forall q, q ∈ resolve (cwd fs) <$> l -> is_file fs q) ->
  exists fs', LocalStorage.io_fold LocalStorage.delete_file n l fs = (Ok (Nat.iter (length l) (fun k => u64_add k 1) n), fs') /\
    without (fun q => q ∈ resolve (cwd fs) <$> l) fs fs'.
Proof.
  revert n fs. induction l as [|p l IH]; intros n fs Hw Hq Hnd Hf; cbn [LocalStorage.io_fold].
  { exists fs. split; [done|]. split; try done. by intros q ?%not_elem_of_nil. }
  rewrite fmap_cons in Hnd. apply NoDup_cons in Hnd as [Hp Hnd].
  destruct (Hf (resolve (cwd fs) p)) as [i Hi]; [by left|].
  destruct (remove_file_quiet fs p i Hw Hq Hi) as (fs1&E1&W1).
  unfold mbind, IO_bind at 1, LocalStorage.delete_file at 1, mbind, IO_bind at 1, io_map_err. rewrite E1. cbn [fst snd map_err mret IO_ret].
  destruct (IH (u64_add n 1) fs1) as (fs2&E2&W2).
  - apply W1.
  - apply W1.
  - by rewrite (wo_cwd _ _ _ W1).
  - rewrite (wo_cwd _ _ _ W1). intros q Hin. destruct (Hf q) as [j Hj]; [by right|]. exists j. rewrite (wo_kept _ _ _ W1); [done|].
    intros <-. done.
  - exists fs2. rewrite (wo_cwd _ _ _ W1) in W2. unfold mret, IO_ret. cbn [length]. rewrite E2, Nat.iter_succ_r. split; [done|].
    eapply (without_trans (eq (resolve (cwd fs) p)) (fun q => q ∈ resolve (cwd fs) <$> l)); [apply _| |done|done].
    intros q. cbn. rewrite elem_of_cons. naive_solver.
Qed.

(** ** Removing the directories *)
Definition empty_entry (fuel : nat) (dir : Path) (u : unit) (name : string) : IO StorageError.t unit :=
  e ← io_try LocalStorage.next_entry;
  match e with Ok _ => LocalStorage.remove_empty_dirs order fuel (push dir (Normal name)) | _ => mret tt end.

Definition no_files_below (fs : FS) (d : list string) : Prop := forall q, d `prefix_of` q -> ~ is_file fs q.

Definition removes (fs : FS) (m : IO StorageError.t unit) (gone : list string -> Prop) : Prop :=
  exists fs', m fs = (Ok tt, fs') /\ without gone fs fs'.

Lemma empty_entries fuel dir names : NoDup names ->
  (forall path fs, wf fs -> outcomes fs = [] -> node fs (resolve (cwd fs) path) = Some Dir -> resolve (cwd fs) path <> [] ->
     no_files_below fs (resolve (cwd fs) path) -> deep_enough fuel fs (resolve (cwd fs) path) ->
     removes fs (LocalStorage.remove_empty_dirs order fuel path) (fun q => resolve (cwd fs) path `prefix_of` q)) ->
  forall fs, wf fs -> outcomes fs = [] -> (forall x, x ∈ names -> x ∈ children fs (resolve (cwd fs) dir)) ->
  no_files_below fs (resolve (cwd fs) dir) -> deep_enough (S fuel) fs (resolve (cwd fs) dir) ->
  removes fs (LocalStorage.io_fold (empty_entry fuel dir) tt names)
    (fun q => exists x, x ∈ names /\ resolve (cwd fs) dir ++ [x] `prefix_of` q).
Proof.
  intros Hnd Hrec. induction Hnd as [|x names Hx Hnd IH]; intros fs Hw Hq Hch Hno Hdeep; cbn [LocalStorage.io_fold].
  { exists fs. split; [done|]. split; try done. by intros q (x&?%not_elem_of_nil&_). }
  set (d := resolve (cwd fs) dir) in *.
  assert (resolve (cwd fs) (push dir (Normal x)) = d ++ [x]) as Er by (by rewrite resolve_push).
  assert (node fs (d ++ [x]) = Some Dir) as Hn.
  { assert (x ∈ children fs d) as [[i|] Hn]%(children_elem fs _ _ (wf_links fs Hw)) by (apply Hch; by left); [|by rewrite node_snoc]. exfalso.
    apply (Hno (d ++ [x])); [by apply prefix_app_r|]. exists i. by rewrite node_snoc. }
  destruct (Hrec (push dir (Normal x)) fs Hw Hq) as (fs1&E1&W1).
  - by rewrite Er.
  - rewrite Er. by destruct d.
  - rewrite Er. intros q Hp. apply Hno. etrans; [|done]. by apply prefix_app_r.
  - rewrite Er. intros q Hs. specialize (Hdeep q Hs). rewrite length_app. cbn. lia.
  - rewrite Er in W1. unfold removes, mbind, IO_bind at 1, empty_entry at 1, mbind, IO_bind at 1, io_try.
    rewrite next_entry_quiet by done. cbn [fst snd]. rewrite E1.
    pose proof (wo_cwd _ _ _ W1) as Hc1.
    destruct (IH fs1) as (fs2&E2&W2).
    + apply W1.
    + apply W1.
    + intros y Hy. rewrite Hc1. apply children_elem; [apply (wo_wf _ _ _ W1)|]. rewrite <- node_snoc, (wo_kept _ _ _ W1), node_snoc.
      * apply children_elem, Hch; [apply Hw|by right].
      * intros Hp. apply (sibling_prefix d x y) in Hp as ->; done.
    + rewrite Hc1. intros q Hp [i Hi]. apply (Hno q Hp). exists i. rewrite (wo_kept _ _ _ W1) in Hi; [done|].
      intros Hg. by rewrite (wo_gone _ _ _ W1 q Hg) in Hi.
    + rewrite Hc1. intros q [m Hm]. apply Hdeep. exists m. rewrite (wo_kept _ _ _ W1) in Hm; [done|].
      intros Hg. by rewrite (wo_gone _ _ _ W1 q Hg) in Hm.
    + exists fs2. rewrite Hc1 in W2. split; [done|].
      refine (without_trans _ _ _ _ _ _ _ _ W1 W2).
      intros q. setoid_rewrite elem_of_cons. naive_solver.
Qed.

Lemma remove_dirs_quiet fuel dir fs : wf fs -> outcomes fs = [] -> node fs (resolve (cwd fs) dir) = Some Dir ->
  resolve (cwd fs) dir <> [] -> no_files_below fs (resolve (cwd fs) dir) -> deep_enough fuel fs (resolve (cwd fs) dir) ->
  removes fs (LocalStorage.remove_empty_dirs order fuel dir) (fun q => resolve (cwd fs) dir `prefix_of` q).
Proof.
  revert dir fs. induction fuel as [|fuel IH]; intros dir fs Hw Hq Hn Hne Hno Hdeep.
  { specialize (Hdeep (resolve (cwd fs) dir)). rewrite Hn in Hdeep. specialize (Hdeep ltac:(by eexists)). lia. }
  set (d := resolve (cwd fs) dir) in *. cbn [LocalStorage.remove_empty_dirs]. unfold removes, mbind at 1, IO_bind at 1.
  destruct (path_is_quiet meta_dir (E := StorageError.t) fs dir Dir Hw Hq Hn) as (fs1&E1&Hs1). unfold path_is_dir. rewrite E1. cbn [node_meta meta_dir].
  pose proof (still_without fs fs1 Hw Hs1) as W1. pose proof (wo_cwd _ _ _ W1) as Hc1.
  assert (forall q, node fs1 q = node fs q) as En1 by (intros q; apply (same_node fs fs1), Hs1).
  unfold mbind at 1, IO_bind at 1, mbind at 1, IO_bind at 1, io_try at 1.
  rewrite read_dir_quiet; [|apply W1|apply W1|by rewrite Hc1, En1]. cbn [fst snd]. rewrite Hc1. fold d.
  assert (removes fs1 (LocalStorage.io_fold (empty_entry fuel dir) tt (order (children fs1 d)))
    (fun q => exists x, x ∈ order (children fs1 d) /\ d ++ [x] `prefix_of` q)) as (fs2&E2&W2).
  { unfold d. rewrite <- Hc1. apply empty_entries; rewrite ?Hc1.
    - rewrite Horder. apply children_NoDup, (wo_wf _ _ _ W1).
    - intros path fs' Hw' Hq' Hn' Hne' Hno' Hdeep'. by apply IH.
    - apply W1.
    - apply W1.
    - intros x. by rewrite Horder.
    - intros q Hp. unfold is_file. rewrite En1. by apply Hno.
    - intros q. rewrite En1. apply Hdeep. }
  change (LocalStorage.io_fold _ () (order (children fs1 d)) fs1) with (LocalStorage.io_fold (empty_entry fuel dir) () (order (children fs1 d)) fs1).
  rewrite E2. pose proof (wo_cwd _ _ _ W2) as Hc2. rewrite Hc1 in Hc2.
  assert (forall q, (exists x, x ∈ order (children fs1 d) /\ d ++ [x] `prefix_of` q) -> q <> d) as Hnot.
  { intros q (x&_&Hp) ->. apply prefix_length in Hp. rewrite length_app in Hp. cbn in Hp. lia. }
  assert (node fs2 d = Some Dir) as Hn2 by (rewrite (wo_kept _ _ _ W2), En1; [done|]; intros H; by apply Hnot in H).
  destruct (remove_dir_quiet fs2 dir) as (fs3&E3&W3); [apply W2|apply W2|by rewrite Hc2|by rewrite Hc2| |].
  { rewrite Hc2. fold d. intros x. destruct (decide (x ∈ children fs1 d)) as [Hx|Hx].
    - apply W2. exists x. by rewrite Horder.
    - rewrite (wo_kept _ _ _ W2).
      + rewrite node_snoc. destruct (nodes fs1 !! (d ++ [x])) eqn:E; [|done]. exfalso. apply Hx, children_elem; [apply (wo_wf _ _ _ W1)|by eexists].
      + intros (y&Hy&Hp). rewrite Horder in Hy. apply (sibling_prefix d y x) in Hp as ->; done. }
  unfold mbind, IO_bind, io_try. rewrite E3. cbn [fst snd]. exists fs3. split; [done|]. rewrite Hc2 in W3. fold d in W3.
  assert (without (fun q => exists x, x ∈ order (children fs1 d) /\ d ++ [x] `prefix_of` q) fs fs2) as W12.
  { refine (without_trans _ _ _ _ _ _ _ _ W1 W2). naive_solver. }
  assert (without (fun q => (exists x, x ∈ order (children fs1 d) /\ d ++ [x] `prefix_of` q) \/ d = q) fs fs3) as W
    by (refine (without_trans _ (eq d) _ _ _ _ _ _ W12 W3); reflexivity).
  split; try apply W.
  + intros q [r ->]. destruct r as [|x r]; [rewrite app_nil_r; apply W; by right|].
    destruct (node fs (d ++ x :: r)) as [n|] eqn:E.
    * apply W. left. exists x. split; [|exists r; by rewrite <- app_assoc]. rewrite Horder. apply children_elem; [apply (wo_wf _ _ _ W1)|].
      rewrite <- node_snoc, En1. destruct r as [|y r]; [by eexists|]. exists Dir.
      apply (node_prefix fs (d ++ [x]) (y :: r) n); [done| |done]. by rewrite <- app_assoc.
    * destruct (decide (Exists (fun y => d ++ [y] `prefix_of` (d ++ x :: r)) (order (children fs1 d)))) as [H|H]; rewrite Exists_exists in H.
      -- apply W. left. naive_solver.
      -- rewrite (wo_kept _ _ _ W); [done|]. intros [?|E']; [naive_solver|]. apply (f_equal length) in E'. rewrite length_app in E'. cbn in E'. lia.
  + intros q Hp. apply W. intros [(x&_&Hx)|<-]; apply Hp; [|done]. etrans; [|exact Hx]. by apply prefix_app_r.
Qed.

(** ** The whole operation *)
Lemma depth_enough fs d : deep_enough (LocalStorage.depth fs) fs d.
Proof.
  intros q [n Hq]. unfold LocalStorage.depth. destruct q as [|x q]; [cbn; lia|].
  assert (length (x :: q) <= max_list (length <$> (map_to_list (nodes fs)).*1))%nat as Hl; [|cbn [length] in *; generalize max_links; intros k; nia].
  apply max_list_elem_of_le. apply list_elem_of_fmap. exists (x :: q). split; [done|].
  apply list_elem_of_fmap. exists (x :: q, n). split; [done|]. by apply elem_of_map_to_list.
Qed.

#[local] Opaque LocalStorage.depth.

Lemma count_iter k n : Nat.iter k (fun x => u64_add x 1) (as_u64 n) = as_u64 (n + Z.of_nat k).
Proof.
  induction k as [|k IH]; [by rewrite Z.add_0_r|]. cbn [Nat.iter nat_rect]. unfold Nat.iter in IH. rewrite IH, u64_add_as.
  f_equal. lia.
Qed.

(** The number of files below a directory. *)
Definition files_below (fs : FS) (d : list string) : nat :=
  size (filter (fun kv => d `prefix_of` kv.1 /\ kv.2 <> Dir) (nodes fs)).

Lemma lists_count fs l d : wf fs -> lists fs l (fun q => d `prefix_of` q) -> length l = files_below fs d.
Proof.
  intros Hw [N E]. unfold files_below. rewrite <- length_map_to_list, <- (length_fmap fst), <- (length_fmap (resolve (cwd fs)) l).
  apply Permutation_length, NoDup_Permutation; [done|apply NoDup_fst_map_to_list|]. intros q. rewrite E, list_elem_of_fmap. split.
  - intros [Hp [i Hi]]. exists (q, File i). split; [done|]. apply elem_of_map_to_list, map_lookup_filter_Some.
    split; [by destruct q|done].
  - intros ([q' n]&->&Hq). apply elem_of_map_to_list, map_lookup_filter_Some in Hq as [Hn [Hp Hd]]. cbn in *. split; [done|].
    destruct n as [i|]; [|done]. exists i. destruct q'; [by rewrite (wf_top fs Hw) in Hn|done].
Qed.

(** The files are gone; the directories go. *)
Lemma remove_rest full fs fs3 l n fuel : let d := resolve (cwd fs) full in
  d <> [] -> node fs d = Some n -> lists fs l (fun q => d `prefix_of` q) ->
  without (fun q => q ∈ resolve (cwd fs) <$> l) fs fs3 -> deep_enough fuel fs d ->
  removes fs3 (LocalStorage.remove_empty_dirs order fuel full) (fun q => n = Dir /\ d `prefix_of` q).
Proof.
  intros d Hne En L W Hdeep. pose proof (wo_cwd _ _ _ W) as Hc3.
  assert (forall q, is_Some (node fs3 q) -> node fs3 q = node fs q) as Hsub.
  { intros q [m Hm]. destruct (decide (q ∈ resolve (cwd fs) <$> l)) as [Hin|Hin]; [by rewrite (wo_gone _ _ _ W q Hin) in Hm|by apply W]. }
  destruct n as [i|].
  - exists fs3. destruct fuel as [|fuel]; [specialize (Hdeep d); rewrite En in Hdeep; specialize (Hdeep ltac:(by eexists)); lia|].
    cbn [LocalStorage.remove_empty_dirs]. unfold mbind, IO_bind, path_is_dir. rewrite path_is_missing; [|apply W|apply W|].
    + split; [done|]. split; try done; [apply W|apply W|]. by intros q [? _].
    + rewrite Hc3. apply W, L. split; [done|by exists i].
  - destruct (remove_dirs_quiet fuel full fs3) as (fs4&E4&W4); rewrite ?Hc3; try done; try apply W.
    + rewrite (wo_kept _ _ _ W); [done|]. intros Hin. apply L in Hin as [_ [i Hi]]. fold d in Hi. congruence.
    + intros q Hp [i Hi]. pose proof (Hsub q ltac:(by eexists)) as Eq.
      assert (q ∈ resolve (cwd fs) <$> l) as Hin by (apply L; split; [done|exists i; congruence]).
      by rewrite (wo_gone _ _ _ W q Hin) in Hi.
    + intros q Hs. apply Hdeep. by rewrite <- Hsub.
    + exists fs4. split; [done|]. rewrite Hc3 in W4. fold d in W4. split; try apply W4; [intros q [_ ?]; by apply W4|].
      intros q Hno. apply W4. intros Hp. by apply Hno.
Qed.

Lemma delete_prefix_quiet s path full fs : LocalStorage.full_path s path = Ok full -> wf fs -> outcomes fs = [] ->
  resolve (cwd fs) full <> [] -> exists fs',
  LocalStorage.delete_prefix order s path fs = (Ok (as_u64 (Z.of_nat (files_below fs (resolve (cwd fs) full)))), fs') /\
  without (fun q => resolve (cwd fs) full `prefix_of` q) fs fs'.
Proof.
  intros Hf Hw Hq Hne. set (d := resolve (cwd fs) full) in *. unfold LocalStorage.delete_prefix, mbind at 1, IO_bind at 1, io_lift. rewrite Hf.
  unfold mbind at 1, IO_bind at 1, path_exists. destruct (node fs d) as [n|] eqn:En.
  2:{ assert (forall q, d `prefix_of` q -> node fs q = None) as Hnone.
      { intros q [[|x r] ->]; [by rewrite app_nil_r|]. destruct (node fs (d ++ x :: r)) eqn:E; [|done]. apply node_prefix in E; [congruence|done|done]. }
      rewrite path_is_missing by done.
      exists fs. cbn. rewrite <- (lists_count fs [] d Hw); [|split; [constructor|]].
      - split; [done|]. split; try done.
      - intros q. split; [by intros ?%not_elem_of_nil|]. intros [Hp [i Hi]]. by rewrite Hnone in Hi. }
  destruct (path_is_quiet (fun _ => true) (E := StorageError.t) fs full n Hw Hq En) as (fs1&->&Hs1). cbn [negb].
  pose proof (still_without fs fs1 Hw Hs1) as W1. pose proof (wo_cwd _ _ _ W1) as Hc1. pose proof Hs1 as [Hsame1 Hq1].
  assert (resolve (cwd fs1) full = d) as Er1 by (by rewrite Hc1).
  destruct (collect_quiet (LocalStorage.depth fs1) full [] fs1 n) as (l&fs2&E2&Hs2&L2);
    [apply W1|done|by rewrite Er1, (same_node _ _ _ Hsame1)|apply depth_enough|].
  rewrite Er1 in L2. unfold mbind at 1, IO_bind at 1, io_map_err at 1. rewrite E2. cbn [fst snd map_err app].
  pose proof (still_trans _ _ _ Hs1 Hs2) as Hs. pose proof (still_without fs fs2 Hw Hs) as W2. pose proof (wo_cwd _ _ _ W2) as Hc2.
  assert (lists fs l (fun q => d `prefix_of` q)) as L by (by apply (still_lists fs fs1)). clear L2.
  destruct (delete_files_quiet l 0 fs2) as (fs3&E3&W3).
  { apply W2. } { apply W2. } { rewrite Hc2. apply L. }
  { rewrite Hc2. intros q [_ [i Hi]]%L. exists i. destruct Hs as [Hsame _]. by rewrite (same_node _ _ _ Hsame). }
  unfold mbind at 1, IO_bind at 1. rewrite E3. change 0 with (as_u64 0). rewrite count_iter, Z.add_0_l, (lists_count fs l d) by done.
  rewrite Hc2 in W3. assert (without (fun q => q ∈ resolve (cwd fs) <$> l) fs fs3) as W13
    by (refine (without_trans (fun _ => False) _ _ _ _ _ _ _ W2 W3); naive_solver).
  pose proof (wo_cwd _ _ _ W13) as Hc3. clear W3 E3.
  destruct (remove_rest full fs fs3 l n (LocalStorage.depth fs1)) as (fs4&E4&W4); [done..| |].
  { intros q [m Hm]. apply (depth_enough fs1). exists m. by rewrite (same_node _ _ _ Hsame1). }
  fold d in W4.
  unfold mbind, IO_bind. rewrite E4. exists fs4. split; [done|].
  assert (without (fun q => q ∈ resolve (cwd fs) <$> l \/ n = Dir /\ d `prefix_of` q) fs fs4) as W
    by (refine (without_trans _ _ _ _ _ _ _ _ W13 W4); reflexivity).
  split; try apply W.
  - intros q Hp. destruct (decide (n = Dir)) as [->|Hn]; [apply W; by right|]. destruct n as [i|]; [|done].
    destruct (decide (q = d)) as [->|Hqd].
    + apply W. left. apply L. split; [done|by exists i].
    + assert (node fs q = None) as E.
      { destruct (node fs q) eqn:E; [|done]. exfalso. apply Hqd. apply (prefix_file fs d q Hw); [by exists i|done|by eexists]. }
      rewrite (wo_kept _ _ _ W); [done|]. intros [[_ [j Hj]]%L|[? _]]; [congruence|done].
  - intros q Hp. apply W. intros [[? _]%L|[_ ?]]; by apply Hp.
Qed.
End Delete.

Lemma absolute_reaches c l : reaches c (along l) (absolute l).
Proof.
  split.
  - intros k Hk Hne. left. rewrite <- (resolve_absolute c l). by apply plain_prefix_resolve; [apply absolute_plain|..].
  - intros r. rewrite resolve_absolute. by right.
Qed.

(** C28: With every call answered, [delete_prefix] of a path of names below an absolute root, which is not the root
    of the file system itself, ends, returns the number of files below the prefix, and removes everything below the prefix and nothing
    else, in whatever order the system lists directories, where no symbolic link is at the prefix,
    below it or on the way to it; links elsewhere stay. *)
Theorem delete_prefix_exact order r rn l fs : (forall names, order names ≡ₚ names) ->
  path_components r = absolute rn -> rn ++ l <> [] -> wf (unlinked fs) -> free_of_links fs (rn ++ l) -> outcomes fs = [] -> exists fs',
  LocalStorage.delete_prefix order (LocalStorage.new r) (Normal <$> l) fs = (Ok (as_u64 (Z.of_nat (files_below fs (rn ++ l)))), fs') /\
  links fs' = links fs /\ forall p, view fs' p = if bool_decide (rn ++ l `prefix_of` p) then None else view fs p.
Proof.
  intros Ho Hr Hne Hw Hf Hq.
  destruct (delete_prefix_quiet order Ho (LocalStorage.new r) (Normal <$> l) (absolute (rn ++ l)) (unlinked fs)) as (fs'&E&W);
    [by apply full_path_names|done|done|by rewrite resolve_absolute|].
  rewrite resolve_absolute in E, W.
  destruct (agrees_delete_prefix (LocalStorage.new r) (cwd fs) (along (rn ++ l)) order (Normal <$> l)) with (fs := fs) as [-> _]; [|done|].
  { intros q. rewrite (full_path_names (LocalStorage.new r) rn) by done. intros [= <-]. apply absolute_reaches. }
  rewrite E. exists (fs' <| links := links fs |>). split_and!; [done..|]. intros p. change (view (fs' <| links := links fs |>) p) with (view fs' p).
  case_bool_decide as Hp.
  - unfold view. by rewrite (wo_gone _ _ _ W p Hp).
  - by rewrite (without_view _ _ _ _ W).
Qed.
