(* ===== verification/LocalExamples.v ===== *)
(** * Runs of the local storage

    Concrete trees at which the theorems on the local storage apply, and runs that show flaws
    of the code. *)
From S2P Require Import Prelude Storage Multipart FileSystem FileSystemLaws FileSystemLinks LocalStorage LocalStorageLaws LocalUpload LocalRoundtrip LocalDelete.
Local Open Scope string_scope.
Local Open Scope Z_scope.
Local Open Scope list_scope.

(** An empty tree, and one with two files in [/data]. *)
Definition empty_fs : FS := mkFS ∅ ∅ 0 [] 4096 [] [] ∅.

Lemma empty_wf cwd outcomes : wf (mkFS ∅ ∅ 0 cwd 4096 outcomes [] ∅).
Proof.
  assert (forall p n, node (mkFS ∅ ∅ 0 cwd 4096 outcomes [] ∅) p = Some n -> p = [] /\ n = Dir) as H.
  { intros [|x p] n; cbn; [by intros [= <-]|]. by rewrite lookup_empty. }
  split; [done|..].
  - intros p x n [E _]%H. by destruct p.
  - by intros p i [_ ?]%H.
  - by intros p q i [_ ?]%H.
  - done.
Qed.

Definition data_store : LocalStorage.t := LocalStorage.new "/data".
Definition file_a : Path := path_components "a".
Definition file_b : Path := path_components "sub/b".
Definition data_fs : FS := foldl (exec id data_store) empty_fs [WriteFile file_a ["old"]; WriteFile file_b ["other"]].

Lemma data_wf : wf data_fs.
Proof. apply (operations_wf id "/data" empty_fs). apply empty_wf. Qed.

(** With a directory outside the root and a link there. *)
Definition etc_fs : FS := foldl (exec id (LocalStorage.new "/etc")) data_fs [WriteFile (path_components "conf/net") ["up"]].
Definition linked_fs : FS := etc_fs <| links := {[ ["etc"; "old"] := absolute ["data"; "sub"] ]} |>.

Lemma linked_wf : wf (unlinked linked_fs).
Proof.
  unfold linked_fs. rewrite unlinked_relinked. apply unlinked_wf. apply (operations_wf id "/etc" data_fs), data_wf.
Qed.

Lemma linked_free l : free_of_links linked_fs ("data" :: l).
Proof. intros q Hq. apply lookup_singleton_ne. intros <-. by destruct Hq as [[r H]|[r H]]. Defined.

Lemma operations_confined_witness :
  view (foldl (exec id data_store) linked_fs [Delete file_a; DeletePrefix (path_components ".."); Copy file_b (path_components "../../etc/c")]) ["etc"; "c"]
    = view linked_fs ["etc"; "c"].
Proof.
  destruct (operations_confined id "/data" linked_fs
    [Delete file_a; DeletePrefix (path_components ".."); Copy file_b (path_components "../../etc/c")] linked_wf (linked_free [])) as (_&_&H).
  specialize (H ["etc"; "c"]). destruct H as [H|[H|[H _]]]; [exfalso|exact H|exfalso].
  - destruct H as [r H]. vm_compute in H. discriminate H.
  - destruct H as [r H]. vm_compute in H. discriminate H.
Defined.

Lemma write_read_witness :
  exists fs', write_file data_store (Normal <$> ["x"; "c"]) ["one"; "two"] linked_fs = (Ok tt, fs') /\
    (read_file data_store (Normal <$> ["x"; "c"]) fs').1 = Ok "onetwo".
Proof.
  destruct (write_read "/data" ["data"] ["x"] "c" ["one"; "two"] linked_fs eq_refl linked_wf (linked_free []) eq_refl) as (fs'&H1&H2&_).
  - intros k i Hk. assert (k = [] \/ k = ["data"] \/ k = ["data"; "x"]) as Hcase.
    { destruct Hk as [r Hr]. destruct k as [|a [|b [|c k]]]; cbn in Hr; [by left|..].
      - injection Hr as <- <-. right. by left.
      - injection Hr as <- <- <-. right. by right.
      - injection Hr as <- <- Hr. discriminate Hr. }
    destruct Hcase as [->|[->| ->]]; vm_compute; discriminate.
  - vm_compute. discriminate.
  - exists fs'. split; [exact H1|exact H2].
Defined.

Lemma delete_prefix_exact_witness :
  exists fs', LocalStorage.delete_prefix id data_store (Normal <$> ["sub"]) linked_fs = (Ok 1, fs') /\
    view fs' ["data"; "sub"; "b"] = None /\ view fs' ["data"; "a"] = Some (Some "old").
Proof.
  destruct (delete_prefix_exact id "/data" ["data"] ["sub"] linked_fs) as (fs'&H1&_&H2).
  - intros names. reflexivity.
  - reflexivity.
  - discriminate.
  - exact linked_wf.
  - exact (linked_free ["sub"]).
  - reflexivity.
  - exists fs'. split; [exact H1|]. rewrite !H2. split; vm_compute; reflexivity.
Defined.

(** ** Uploads *)

(** A [tempfile] that always picks the same name. *)
Definition sim_tempfile (prefix : string) (dir : Path) : IO IoError (nat * Path) := fun fs =>
  let q := resolve (cwd fs) dir in
  let name := prefix +:+ "Xb3" in
  if bool_decide (node fs q = Some Dir) && bool_decide (node fs (q ++ [name]) = None)
  then (Ok (next_ino fs, dir ++ [Normal name]), new_file (q ++ [name]) fs)
  else (Err NotFound, fs).

#[global] Instance sim_TempFiles : TempFiles sim_tempfile.
Proof.
  split.
  - intros prefix dir fs i p fs' _. unfold sim_tempfile. case_bool_decide as H1; [|done]. case_bool_decide as H2; [|done].
    intros [= <- <- <-]. exists (prefix +:+ "Xb3"). split_and!; [apply starts_with_app|done|done|by rewrite resolve_app|done|done].
  - intros prefix dir fs r fs' _. unfold sim_tempfile. case_match; intros [= <- <-]; done.
Qed.

Lemma upload_atomic_witness :
  match upload sim_tempfile data_store file_a ["new"; " data"] 0 data_fs with
  | (Ok stats, fs') => view fs' ["data"; "a"] = Some (Some "new data") /\ UploadStats.bytes_uploaded stats = 8
  | _ => False
  end.
Proof.
  assert (forall d x, resolve (cwd data_fs) (absolute ["data"; "a"]) = d ++ [x] -> starts_with x ".tmp_upload_" = false) as Hname.
  { intros d x H. change (["data"] ++ ["a"] = d ++ [x]) in H. apply app_inj_2 in H as [_ H]; [|reflexivity]. injection H as <-. reflexivity. }
  pose proof (upload_atomic sim_tempfile data_store file_a (absolute ["data"; "a"]) ["new"; " data"] 0 data_fs data_wf eq_refl Hname) as H.
  assert (exists stats fs', upload sim_tempfile data_store file_a ["new"; " data"] 0 data_fs = (Ok stats, fs')) as (stats&fs'&E)
    by (eexists _, _; vm_compute; reflexivity).
  rewrite E in H |- *. destruct H as (H1&H2&_). split; [exact H1|exact H2].
Defined.

(** ** Flaws *)

(** Paths are checked by their names only: through a symbolic link below the root, a file outside it
    is overwritten. *)
Example link_leads_outside :
  let fs := etc_fs <| links := {[ ["data"; "out"] := absolute ["etc"] ]} |> in
  let '(r, fs') := write_file data_store (path_components "out/conf/net") ["down"] fs in
  r = Ok tt /\ view fs ["etc"; "conf"; "net"] = Some (Some "up") /\ view fs' ["etc"; "conf"; "net"] = Some (Some "down").
Proof. vm_compute. auto. Qed.

(** [delete_prefix] follows a symbolic link to a directory: it deletes the files there, counts them, and
    removes the directories; the link itself stays. *)
Example delete_follows_links :
  let fs := etc_fs <| links := {[ ["data"; "sub"; "l"] := absolute ["etc"] ]} |> in
  let '(r, fs') := LocalStorage.delete_prefix id data_store (path_components "sub") fs in
  r = Ok 2 /\ view fs ["etc"; "conf"; "net"] = Some (Some "up") /\ view fs' ["etc"; "conf"; "net"] = None /\
  view fs' ["etc"; "conf"] = None /\ is_link fs' ["data"; "sub"; "l"] = true.
Proof. vm_compute. auto 6. Qed.

(** A link that leads to its own directory: the recursion ends when too many links would be followed, and the
    files it has found again under the longer names are missing when they are to be deleted. *)
Example delete_through_loop :
  let fs := data_fs <| links := {[ ["data"; "sub"; "l"] := absolute ["data"; "sub"] ]} |> in
  exists e, (LocalStorage.delete_prefix id data_store (path_components "sub") fs).1 = Err (StorageError.Other e).
Proof. eexists. vm_compute. reflexivity. Qed.

(** A relative root is joined to itself: the wrong directories are made and the file cannot
    be created. *)
Example relative_root_misses :
  let '(r, fs') := LocalStorage.writer (LocalStorage.new "data") (path_components "sub/f") empty_fs in
  r = Err (StorageError.Io "No such file or directory (os error 2)") /\
  view fs' ["data"; "data"; "sub"] = Some None /\ view fs' ["data"; "sub"] = None.
Proof. vm_compute. auto. Qed.

(** ... and a copy reports that its source is missing when it is there. *)
Example relative_copy_blames_source :
  let fs := (write_file (LocalStorage.new "data") (path_components "f") ["x"] empty_fs).2 in
  view fs ["data"; "f"] = Some (Some "x") /\
  (LocalStorage.copy (LocalStorage.new "data") (path_components "f") (path_components "sub/g") fs).1 =
    Err (StorageError.NotFound "data/f").
Proof. vm_compute. auto. Qed.

(** Copying a file onto itself empties it. *)
Example copy_onto_itself :
  let '(r, fs') := LocalStorage.copy data_store file_a file_a data_fs in
  r = Ok tt /\ view data_fs ["data"; "a"] = Some (Some "old") /\ view fs' ["data"; "a"] = Some (Some "").
Proof. vm_compute. auto. Qed.

(** A streaming upload fails when the directory of its target is missing, although
    [finish] would create it. *)
Theorem upload_needs_directory tempfile_in `{!TempFiles tempfile_in} s path target parent fs u fs' : wf fs ->
  LocalStorage.full_path s path = Ok target -> path_parent target = Some parent -> node fs (resolve (cwd fs) parent) = None ->
  put_multipart_stream tempfile_in s path fs <> (Ok u, fs').
Proof.
  intros Hw Hf Hp Hn E. pose proof (start_uploading tempfile_in s path target fs Hw Hf) as Hs. rewrite E in Hs.
  destruct Hs as (d&name&_&_&_&[_ Hd]). rewrite (Hd parent Hp) in Hn. done.
Qed.

(** When the file cannot be synced, the temporary file stays. *)
Example failed_upload_leaves_file :
  let '(r, fs') := upload sim_tempfile data_store file_a ["new"] 0 (data_fs <| outcomes := [Done; Failed "No space left" 0] |>) in
  r = Err (StorageError.Io "No space left") /\ view fs' ["data"; ".tmp_upload_Xb3"] = Some (Some "new") /\
  view fs' ["data"; "a"] = Some (Some "old").
Proof. vm_compute. auto. Qed.

(** A range longer than [isize::MAX] panics; the check before it never fires. *)
Example read_range_panics :
  (LocalStorage.read_range data_store file_a 0 (Some (2 ^ 63)) data_fs).1 = Panic "capacity overflow".
Proof. vm_compute. reflexivity. Qed.
