(* ===== verification/S3.v ===== *)
(** * Storage in S3-compatible object stores

    crates/roboflow-storage/src/s3.rs: configuration, the asynchronous backend, its
    synchronous wrapper and the buffering writer.  The [object_store] crate is a class with
    the documented behaviour of a store as laws; its normalisation of keys is the argument
    [key_of].  Waiting for a future is a call.  [upload_file] and [download_file] hand their
    work to the components of [Multipart] and [Streaming] and are not repeated here. *)
From stdpp Require Import pretty.
From S2P Require Import Prelude Storage Scanner.
Local Open Scope string_scope.
Local Open Scope Z_scope.
Local Open Scope list_scope.

(** ** Configuration *)
Module S3Config.
Record t := mk {
  bucket : string; endpoint : string; access_key_id : string; access_key_secret : string;
  region : option string; prefix : option string; use_internal_endpoint : bool; allow_http : bool }.
#[global] Instance t_eta : Settable t := fun c =>
  mk (bucket c) (endpoint c) (access_key_id c) (access_key_secret c) (region c) (prefix c) (use_internal_endpoint c) (allow_http c).

Definition new (bucket endpoint access_key_id access_key_secret : string) : t :=
  mk bucket endpoint access_key_id access_key_secret None None false false.

(** The characters of a byte string; [char::is_ascii_lowercase] and the like. *)
Definition chars (s : string) : list ascii := String.list_ascii_of_string s.
Definition between (lo hi c : ascii) : bool := (nat_of_ascii lo <=? nat_of_ascii c)%nat && (nat_of_ascii c <=? nat_of_ascii hi)%nat.
Definition is_ascii_lowercase : ascii -> bool := between "a" "z".
Definition is_ascii_digit : ascii -> bool := between "0" "9".
Definition is_ascii_alphanumeric (c : ascii) : bool := is_ascii_lowercase c || between "A" "Z" c || is_ascii_digit c.

(** [str::parse::<IpAddr>] of text without colons, so of an IPv4 address: four numbers
    of at most three digits, without leading zeros, up to 255. *)
Definition digits_value (s : string) : Z :=
  foldl (fun n c => 10 * n + (Z.of_nat (nat_of_ascii c) - 48)) 0 (chars s).
Definition is_octet (s : string) : bool :=
  negb (String.eqb s "") && (String.length s <=? 3)%nat && forallb is_ascii_digit (chars s) &&
  ((String.length s =? 1)%nat || negb (starts_with s "0")) && (digits_value s <=? 255).
Definition is_ip_addr (s : string) : bool :=
  match split_char "." s with [_; _; _; _] as parts => forallb is_octet parts | _ => false end.

Definition validate_bucket_name (c : t) : StorageResult unit :=
  let bucket := bucket c in
  if (str_len bucket <? 3) || (63 <? str_len bucket) then
    Err (StorageError.invalid_path
      ("Bucket name must be between 3 and 63 characters, got " +:+ pretty (str_len bucket) +:+ " characters"))
  else if negb (forallb (fun k => is_ascii_lowercase k || is_ascii_digit k || Ascii.eqb k "-" || Ascii.eqb k ".") (chars bucket)) then
    Err (StorageError.invalid_path "Bucket name can only contain lowercase letters, numbers, hyphens, and dots")
  else if match head (chars bucket) with Some first => negb (is_ascii_alphanumeric first) | None => false end then
    Err (StorageError.invalid_path "Bucket name must start with a letter or number")
  else if match last (chars bucket) with Some last => negb (is_ascii_alphanumeric last) | None => false end then
    Err (StorageError.invalid_path "Bucket name must end with a letter or number")
  else if is_ip_addr bucket then
    Err (StorageError.invalid_path "Bucket name cannot be formatted as an IP address")
  else Ok tt.

Definition with_prefix (prefix : string) (c : t) : t := c <| S3Config.prefix := Some prefix |>.
Definition with_region (region : string) (c : t) : t := c <| S3Config.region := Some region |>.
Definition with_internal_endpoint (c : t) : t := c <| use_internal_endpoint := true |>.
Definition with_allow_http (allow : bool) (c : t) : t := c <| allow_http := allow |>.

Definition full_key (c : t) (path : string) : string :=
  match prefix c with Some p => trim_end_char slash p +:+ "/" +:+ path | None => path end.

Definition endpoint_url (c : t) : string :=
  let base := endpoint c in
  if contains "://" base then base
  else if allow_http c then "http://" +:+ base else "https://" +:+ base.
End S3Config.

(** ** [object_store] *)
Inductive StoreError := StoreNotFound (text : string) | StoreOther (text : string).
Definition store_text (e : StoreError) : string := match e with StoreNotFound s | StoreOther s => s end.

(** [ObjectMeta]; [last_modified] in seconds since the epoch. *)
Record ObjectMeta := mkObject { location : string; object_size : Z; object_modified : Z }.

(** [get] answers with the beginning of a transfer, [bytes] reads it to its end. *)
Class ObjectStore (S : Type) := {
  GetResult : Type;
  get : string -> S -> result StoreError GetResult * S;
  bytes : GetResult -> S -> result StoreError string * S;
  put : string -> string -> S -> result StoreError unit * S;
  head_object : string -> S -> result StoreError ObjectMeta * S;
  list_with_delimiter : string -> S -> result StoreError (list ObjectMeta * list string) * S;
  delete_object : string -> S -> result StoreError unit * S;
  copy_object : string -> string -> S -> result StoreError unit * S;
  get_range : string -> Z -> Z -> S -> result StoreError string * S;
  list_stream : string -> S -> list (StoreError + ObjectMeta) * S;
  delete_stream : list string -> S -> list (StoreError + string) * S }.

(** What the store holds, and what the calls that succeed do to it. *)
Class ObjectStoreLaws (S : Type) `{ObjectStore S} := {
  objects : S -> gmap string string;
  get_ok k s g s1 d s2 : get k s = (Ok g, s1) -> bytes g s1 = (Ok d, s2) ->
    objects s !! k = Some d /\ objects s2 = objects s;
  put_ok k d s s' : put k d s = (Ok tt, s') -> objects s' = <[k := d]> (objects s);
  put_err k d s e s' : put k d s = (Err e, s') -> objects s' = objects s \/ objects s' = <[k := d]> (objects s);
  head_ok k s m s' : head_object k s = (Ok m, s') ->
    exists d, objects s !! k = Some d /\ object_size m = str_len d /\ objects s' = objects s;
  delete_ok k s s' : delete_object k s = (Ok tt, s') -> objects s' = delete k (objects s);
  copy_ok a b s s' : copy_object a b s = (Ok tt, s') ->
    exists d, objects s !! a = Some d /\ objects s' = <[b := d]> (objects s);
  range_ok k a b s d s' : get_range k a b s = (Ok d, s') ->
    exists c, objects s !! k = Some c /\ d = String.substring (Z.to_nat a) (Z.to_nat (Z.min b (str_len c) - a)) c /\ objects s' = objects s;
  list_ok p s l s' : list_stream p s = (l, s') -> objects s' = objects s;
  delete_stream_ok ks s l s' : delete_stream ks s = (l, s') -> Forall (fun r => exists k, r = inr k) l ->
    objects s' = filter (fun kv => kv.1 ∉ ks) (objects s) }.

(** A call whose errors are mapped. *)
Definition call {S A} (op : S -> result StoreError A * S) (f : StoreError -> StorageError.t) : SM S A := fun s =>
  (map_err f (op s).1, (op s).2).
Definition not_found_or_cloud (path : string) (e : StoreError) : StorageError.t :=
  match e with StoreNotFound _ => StorageError.not_found path | StoreOther text => StorageError.Cloud text end.
Definition cloud (msg : string) (e : StoreError) : StorageError.t := StorageError.Cloud (msg +:+ store_text e).

(** [chrono_to_system_time]: a time before the epoch cannot be represented and becomes
    the current one. *)
Definition chrono_to_system_time (now timestamp : Z) : Z := if timestamp <? 0 then now else secs timestamp.

Module AsyncS3Storage.
Section Ops.
Context {S : Type} `{ObjectStore S} (key_of : string -> string).

Definition path_to_key (c : S3Config.t) (path : string) : string := key_of (S3Config.full_key c path).

Definition convert_metadata (now : Z) (m : ObjectMeta) : ObjectMetadata.t :=
  ObjectMetadata.mk (location m) (object_size m) (Some (chrono_to_system_time now (object_modified m))) None false.

Definition read (c : S3Config.t) (path : string) : SM S string :=
  g ← call (get (path_to_key c path)) (not_found_or_cloud path);
  call (bytes g) (cloud "Failed to read bytes: ").

Definition write (c : S3Config.t) (path data : string) : SM S unit :=
  call (put (path_to_key c path) data) (cloud "Failed to write: ").

Definition exists_ (c : S3Config.t) (path : string) : SM S bool := fun s =>
  let '(r, s') := head_object (path_to_key c path) s in (Ok (is_Ok r), s').

Definition size (c : S3Config.t) (path : string) : SM S Z :=
  m ← call (head_object (path_to_key c path)) (not_found_or_cloud path); mret (object_size m).

Definition metadata (c : S3Config.t) (now : Z) (path : string) : SM S ObjectMetadata.t :=
  m ← call (head_object (path_to_key c path)) (not_found_or_cloud path); mret (convert_metadata now m).

Definition list_ (c : S3Config.t) (now : Z) (prefix : string) : SM S (list ObjectMetadata.t) :=
  r ← call (list_with_delimiter (path_to_key c prefix)) (cloud "Failed to list: ");
  mret ((convert_metadata now <$> r.1) ++ (ObjectMetadata.dir <$> r.2)).

Definition delete (c : S3Config.t) (path : string) : SM S unit :=
  call (delete_object (path_to_key c path)) (not_found_or_cloud path).

Definition copy (c : S3Config.t) (from to : string) : SM S unit :=
  call (copy_object (path_to_key c from) (path_to_key c to)) (not_found_or_cloud from).

Definition create_dir (path : string) : SM S unit := mret tt.
Definition create_dir_all (path : string) : SM S unit := mret tt.

Definition read_range (c : S3Config.t) (path : string) (start : Z) (end_ : option Z) : SM S string :=
  end_ ← match end_ with
         | Some e => mret e
         | None => m ← call (head_object (path_to_key c path)) (not_found_or_cloud path); mret (object_size m)
         end;
  if end_ <? start then
    sm_throw (StorageError.invalid_path ("start offset " +:+ pretty start +:+ " exceeds end offset " +:+ pretty end_))
  else call (get_range (path_to_key c path) start end_) (not_found_or_cloud path).
End Ops.
End AsyncS3Storage.

(** A writer that collects the data and puts it as one object; the put runs in a thread of
    its own, whose panic is an error here. *)
Module SyncS3Writer.
Record t := mk { buffer : string; key : string; uploaded : bool; max_buffer_size : Z }.
#[global] Instance t_eta : Settable t := fun w => mk (buffer w) (key w) (uploaded w) (max_buffer_size w).

Definition new (key : string) : t := mk "" key false (100 * 1024 * 1024).

Section Ops.
Context {S : Type} `{ObjectStore S}.

Definition upload (x : t * S) : StorageResult unit * (t * S) :=
  let '(w, s) := x in
  if uploaded w then (Ok tt, (w, s))
  else
    match put (key w) (buffer w) s with
    | (Ok _, s') => (Ok tt, (w <| buffer := "" |> <| uploaded := true |>, s'))
    | (Err e, s') => (Err (cloud "Failed to upload to S3: " e), (w <| buffer := "" |>, s'))
    | (Panic m, s') => (Err (StorageError.Other ("S3 upload thread panicked: " +:+ m)), (w <| buffer := "" |>, s'))
    end.

(** [Write::write] and [Write::flush]; the errors are [io::Error]s with these texts. *)
Definition write (data : string) (x : t * S) : result string Z * (t * S) :=
  let w := x.1 <| buffer := buffer x.1 +:+ data |> in
  if max_buffer_size w <? str_len (buffer w) then
    let '(r, x') := upload (w, x.2) in
    (_ ← map_err (fun e => "Upload failed: " +:+ StorageError.fmt e) r; Ok (str_len data), x')
  else (Ok (str_len data), (w, x.2)).

Definition flush (x : t * S) : result string unit * (t * S) :=
  let '(r, x') := upload x in (map_err (fun e => "Flush failed: " +:+ StorageError.fmt e) r, x').

Definition drop (x : t * S) : S :=
  if negb (uploaded x.1) && negb (String.eqb (buffer x.1) "") then (upload x).2.2 else x.2.
End Ops.
End SyncS3Writer.

(** The synchronous wrapper, where it does more than wait. *)
Module S3Storage.
Section Ops.
Context {S : Type} `{ObjectStore S} (key_of : string -> string).

Definition reader := AsyncS3Storage.read (S := S) key_of.
Definition writer (c : S3Config.t) (path : string) : SyncS3Writer.t := SyncS3Writer.new (AsyncS3Storage.path_to_key key_of c path).

Definition listed (r : StoreError + ObjectMeta) : option string := match r with inr m => Some (location m) | inl _ => None end.

Definition delete_prefix (c : S3Config.t) (prefix : string) : SM S Z := fun s =>
  let '(rs, s1) := list_stream (AsyncS3Storage.path_to_key key_of c prefix) s in
  let keys := omap listed rs in
  let count := Z.of_nat (length keys) in
  if count =? 0 then (Ok 0, s1)
  else let '(_, s2) := delete_stream keys s1 in (Ok count, s2).
End Ops.
End S3Storage.

(** ** Properties *)
Section Laws.
Context {S : Type} `{ObjectStoreLaws S} (key_of : string -> string).

(** What was written is read back, and nothing else changed. *)
Theorem s3_write_read c path data s s1 d s2 : AsyncS3Storage.write key_of c path data s = (Ok tt, s1) ->
  AsyncS3Storage.read key_of c path s1 = (Ok d, s2) ->
  d = data /\ objects s2 = <[AsyncS3Storage.path_to_key key_of c path := data]> (objects s).
Proof.
  unfold AsyncS3Storage.write, AsyncS3Storage.read, mbind, SM_bind, call.
  destruct (put _ _ s) as [[[]|e|m] s1'] eqn:Ep; try done. intros [= <-].
  destruct (get _ s1') as [[g|e|m] s2'] eqn:Eg; try done. cbn. destruct (bytes g s2') as [[d'|e|m] s3] eqn:Eb; try done. intros [= <- <-].
  apply put_ok in Ep. eapply get_ok in Eb as [Eb Es]; [|exact Eg]. clear Eg. rename Eb into Eg. rewrite Ep, lookup_insert_eq in Eg. injection Eg as <-. by rewrite Es.
Qed.

(** A range that was read is that part of the object; without an end it goes to the end. *)
Theorem s3_read_range c path start end_ s d s' : 0 <= start -> AsyncS3Storage.read_range key_of c path start end_ s = (Ok d, s') ->
  exists x, objects s !! AsyncS3Storage.path_to_key key_of c path = Some x /\
    d = String.substring (Z.to_nat start) (Z.to_nat (Z.min (default (str_len x) end_) (str_len x) - start)) x /\
    objects s' = objects s.
Proof.
  intros Hs. unfold AsyncS3Storage.read_range, mbind, SM_bind, call, mret, SM_ret, sm_throw.
  destruct end_ as [e|]; cbn [default].
  - destruct (e <? start); [done|]. destruct (get_range _ _ _ s) as [[d'|e'|m] s1] eqn:Er; try done. intros [= <- <-].
    apply range_ok in Er as (x&Hx&->&Es). exists x. by split_and!.
  - destruct (head_object _ s) as [[m|e'|m] s1] eqn:Eh; try done. cbn. destruct (object_size m <? start) eqn:El; [done|].
    destruct (get_range _ _ _ s1) as [[d'|e'|m'] s2] eqn:Er; try done. intros [= <- <-].
    apply head_ok in Eh as (x&Hx&Hm&Es). apply range_ok in Er as (y&Hy&->&Es'). rewrite Es in Hy.
    assert (y = x) as -> by congruence. exists x. rewrite Hm, Es'. by split_and!.
Qed.

(** Writing chunks one after the other. *)
Fixpoint write_pieces (chunks : list string) (x : SyncS3Writer.t * S) : result string unit * (SyncS3Writer.t * S) :=
  match chunks with
  | [] => (Ok tt, x)
  | d :: chunks' =>
      match SyncS3Writer.write d x with
      | (Ok _, x') => write_pieces chunks' x'
      | (Err e, x') => (Err e, x')
      | (Panic m, x') => (Panic m, x')
      end
  end.

Lemma write_pieces_buffered chunks w s : str_len (SyncS3Writer.buffer w +:+ joined chunks) <= SyncS3Writer.max_buffer_size w ->
  write_pieces chunks (w, s) = (Ok tt, (w <| SyncS3Writer.buffer := SyncS3Writer.buffer w +:+ joined chunks |>, s)).
Proof.
  revert w. induction chunks as [|d chunks IH]; intros w Hlen; cbn [write_pieces joined].
  - rewrite string_app_nil_r. by destruct w.
  - cbn [joined] in Hlen. rewrite !str_len_app in Hlen. pose proof (str_len_nonneg (joined chunks)). unfold SyncS3Writer.write. cbn.
    destruct (Z.ltb_spec (SyncS3Writer.max_buffer_size w) (str_len (SyncS3Writer.buffer w +:+ d))) as [Hbig|_].
    { rewrite str_len_app in Hbig. lia. }
    rewrite IH; cbn; [by rewrite string_app_assoc|]. rewrite !str_len_app. lia.
Qed.

(** A writer that is given at most its buffer's size and then flushed stores exactly
    what was written, under its key and nowhere else; when the flush fails, the store is as
    it was or holds that object. *)
Theorem s3_writer_stores c path chunks s : str_len (joined chunks) <= 100 * 1024 * 1024 ->
  let k := AsyncS3Storage.path_to_key key_of c path in
  let '(r, x) := write_pieces chunks (S3Storage.writer key_of c path, s) in
  r = Ok tt /\
  match SyncS3Writer.flush x with
  | (Ok _, (_, s')) => objects s' = <[k := joined chunks]> (objects s)
  | (Err _, (_, s')) => (exists m, (put k (joined chunks) s).1 = Panic m) \/ objects s' = objects s \/ objects s' = <[k := joined chunks]> (objects s)
  | (Panic _, _) => False
  end.
Proof.
  intros Hlen k. rewrite write_pieces_buffered by (cbn; by rewrite string_app_nil_l). cbn. rewrite string_app_nil_l. split; [done|].
  unfold SyncS3Writer.flush, SyncS3Writer.upload. cbn. fold k. destruct (put k (joined chunks) s) as [[[]|e|m] s'] eqn:Ep; cbn.
  - by apply put_ok in Ep.
  - right. by apply put_err in Ep.
  - left. by exists m.
Qed.

(** After a successful upload, what is written is accepted and never stored. *)
Theorem s3_writes_after_upload_lost data w s : SyncS3Writer.uploaded w = true ->
  let '(r, x) := SyncS3Writer.write data (w, s) in
  r = Ok (str_len data) /\ x.2 = s /\ SyncS3Writer.uploaded x.1 = true /\
  SyncS3Writer.flush x = (Ok tt, x) /\ SyncS3Writer.drop x = s.
Proof.
  intros Hu. unfold SyncS3Writer.write. cbn [fst snd]. set (w1 := w <| SyncS3Writer.buffer := _ |>).
  assert (SyncS3Writer.uploaded w1 = true) as Hu1 by done.
  assert (SyncS3Writer.upload (w1, s) = (Ok tt, (w1, s))) as Eu by (unfold SyncS3Writer.upload; by rewrite Hu1).
  assert (SyncS3Writer.flush (w1, s) = (Ok tt, (w1, s))) as Ef by (unfold SyncS3Writer.flush; by rewrite Eu).
  assert (SyncS3Writer.drop (w1, s) = s) as Ed by (unfold SyncS3Writer.drop; cbn [fst snd]; by rewrite Hu1).
  rewrite Eu. destruct (_ <? _); by split_and!.
Qed.

(** With every deletion answered, the listed objects are gone. *)
Theorem s3_delete_prefix c prefix s n s' : S3Storage.delete_prefix key_of c prefix s = (Ok n, s') ->
  let '(rs, s1) := list_stream (AsyncS3Storage.path_to_key key_of c prefix) s in
  let keys := omap S3Storage.listed rs in
  n = Z.of_nat (length keys) /\
  (Forall (fun r => exists k, r = inr k) (delete_stream keys s1).1 -> objects s' = filter (fun kv => kv.1 ∉ keys) (objects s)).
Proof.
  unfold S3Storage.delete_prefix. destruct (list_stream _ s) as [rs s1] eqn:El. cbn. set (keys := omap S3Storage.listed rs).
  apply list_ok in El. destruct (Z.eqb_spec (Z.of_nat (length keys)) 0) as [E|_].
  - intros [= <- <-]. split; [done|]. intros _. rewrite El. assert (keys = []) as -> by (destruct keys; [done|cbn in E; lia]).
    symmetry. apply map_filter_id. intros k x _. apply not_elem_of_nil.
  - destruct (delete_stream keys s1) as [rs' s2] eqn:Ed. intros [= <- <-]. split; [done|]. cbn. intros Hall.
    rewrite <- El. by eapply delete_stream_ok.
Qed.

(** The names of buckets that are accepted. *)
Theorem bucket_name_valid_iff c : S3Config.validate_bucket_name c = Ok tt <->
  3 <= str_len (S3Config.bucket c) <= 63 /\
  (forall k, k ∈ S3Config.chars (S3Config.bucket c) ->
     S3Config.is_ascii_lowercase k = true \/ S3Config.is_ascii_digit k = true \/ k = "-"%char \/ k = "."%char) /\
  (forall k, head (S3Config.chars (S3Config.bucket c)) = Some k -> S3Config.is_ascii_alphanumeric k = true) /\
  (forall k, last (S3Config.chars (S3Config.bucket c)) = Some k -> S3Config.is_ascii_alphanumeric k = true) /\
  S3Config.is_ip_addr (S3Config.bucket c) = false.
Proof.
  unfold S3Config.validate_bucket_name. set (b := S3Config.bucket c).
  assert (forallb (fun k => S3Config.is_ascii_lowercase k || S3Config.is_ascii_digit k || Ascii.eqb k "-" || Ascii.eqb k ".") (S3Config.chars b) = true <->
    forall k, k ∈ S3Config.chars b -> S3Config.is_ascii_lowercase k = true \/ S3Config.is_ascii_digit k = true \/ k = "-"%char \/ k = "."%char) as Hchars.
  { rewrite forallb_forall. setoid_rewrite <- list_elem_of_In. setoid_rewrite orb_true_iff. setoid_rewrite orb_true_iff.
    setoid_rewrite orb_true_iff. setoid_rewrite Ascii.eqb_eq. split; intros H1 k Hk; specialize (H1 k Hk); tauto. }
  destruct (Z.ltb_spec (str_len b) 3); [cbn; split; [done|lia]|]. destruct (Z.ltb_spec 63 (str_len b)); [cbn; split; [done|lia]|]. cbn [orb].
  destruct (forallb _ _) eqn:Ef; cbn [negb]; [|split; [done|]; intros (_&Hc&_); apply Hchars in Hc; congruence].
  assert (forall o : option ascii, (match o with Some k => negb (S3Config.is_ascii_alphanumeric k) | None => false end) = false <->
    forall k, o = Some k -> S3Config.is_ascii_alphanumeric k = true) as Ho.
  { intros [k|]; [rewrite negb_false_iff; naive_solver|naive_solver]. }
  rewrite <- Hchars, <- !Ho. destruct (match head _ with Some _ => _ | None => _ end); [by split; [|intros (_&_&?&_)]|].
  destruct (match last _ with Some _ => _ | None => _ end); [by split; [|intros (_&_&_&?&_)]|].
  destruct (S3Config.is_ip_addr b); [by split; [|intros (_&_&_&_&?)]|]. by split.
Qed.
End Laws.

(** ** A store in memory *)
Module MemoryStore.
Record t := mk { content : gmap string string; failing : list StoreError }.
#[global] Instance t_eta : Settable t := fun s => mk (content s) (failing s).

(** The coming calls of [put] fail with the errors in [failing]. *)
Definition put (k d : string) (s : t) : result StoreError unit * t :=
  match failing s with
  | e :: es => (Err e, s <| failing := es |>)
  | [] => (Ok tt, s <| content := <[k := d]> (content s) |>)
  end.
Definition found {A} (k : string) (f : string -> A) (s : t) : result StoreError A * t :=
  (match content s !! k with Some d => Ok (f d) | None => Err (StoreNotFound k) end, s).

#[global] Instance ops : ObjectStore t := {|
  S3.GetResult := string;
  S3.get k := found k id;
  S3.bytes d := fun s => (Ok d, s);
  S3.put := put;
  S3.head_object k := found k (fun d => mkObject k (str_len d) 0);
  S3.list_with_delimiter p := fun s => (Ok ([], []), s);
  S3.delete_object k := fun s => (Ok tt, s <| content := delete k (content s) |>);
  S3.copy_object a b := fun s =>
    match content s !! a with Some d => (Ok tt, s <| content := <[b := d]> (content s) |>) | None => (Err (StoreNotFound a), s) end;
  S3.get_range k a b := found k (fun d => String.substring (Z.to_nat a) (Z.to_nat (Z.min b (str_len d) - a)) d);
  S3.list_stream p := fun s =>
    (omap (fun kd => if starts_with kd.1 p then Some (inr (mkObject kd.1 (str_len kd.2) 0)) else None) (map_to_list (content s)), s);
  S3.delete_stream ks := fun s => (inr <$> ks, s <| content := filter (fun kv => kv.1 ∉ ks) (content s) |>) |}.

#[global] Instance laws : ObjectStoreLaws t.
Proof.
  refine {| objects := content |}; cbn.
  - intros k s g s1 d s2. unfold found. destruct (content s !! k) eqn:E; [|done]. intros [= <- <-]. by intros [= <- <-].
  - intros k d s s'. unfold put. destruct (failing s); [|done]. by intros [= <-].
  - intros k d s e s'. unfold put. destruct (failing s); [done|]. intros [= _ <-]. by left.
  - intros k s m s'. unfold found. destruct (content s !! k) as [d|] eqn:E; [|done]. intros [= <- <-]. by exists d.
  - intros k s s'. by intros [= <-].
  - intros a b s s'. destruct (content s !! a) as [d|] eqn:E; [|done]. intros [= <-]. by exists d.
  - intros k a b s d s'. unfold found. destruct (content s !! k) as [x|] eqn:E; [|done]. intros [= <- <-]. by exists x.
  - intros p s l s'. by intros [= _ <-].
  - intros ks s l s'. intros [= _ <-] _. done.
Defined.

Definition sim_config : S3Config.t := S3Config.with_prefix "datasets/" (S3Config.new "my-bucket" "oss.example.com" "key" "secret").
Definition sim_store : t := mk {[ "datasets/other" := "x" ]} [].
Definition flaky_store : t := mk ∅ [StoreOther "timeout"].

(** Data written after a flush is lost, although every call succeeds. *)
Example write_after_flush :
  let x0 := (S3Storage.writer id sim_config "f", sim_store) in
  let '(r1, x1) := write_pieces ["first"] x0 in
  let '(r2, x2) := SyncS3Writer.flush x1 in
  let '(r3, x3) := write_pieces [" second"] x2 in
  let '(r4, x4) := SyncS3Writer.flush x3 in
  (r1, r2, r3, r4) = (Ok tt, Ok tt, Ok tt, Ok tt) /\ content x4.2 !! "datasets/f" = Some "first".
Proof. vm_compute. auto. Qed.

(** A flush that failed can be repeated with success, which stores an empty object. *)
Example flush_retry_stores_nothing :
  let x0 := (S3Storage.writer id sim_config "f", flaky_store) in
  let '(_, x1) := write_pieces ["data"] x0 in
  let '(r2, x2) := SyncS3Writer.flush x1 in
  let '(r3, x3) := SyncS3Writer.flush x2 in
  r2 = Err "Flush failed: cloud storage error: Failed to upload to S3: timeout" /\ r3 = Ok tt /\
  content x3.2 !! "datasets/f" = Some "".
Proof. vm_compute. auto. Qed.

Lemma s3_writer_stores_witness :
  let '(r, x) := write_pieces ["one"; "two"] (S3Storage.writer id sim_config "f", sim_store) in
  r = Ok tt /\ match SyncS3Writer.flush x with
               | (Ok _, (_, s')) => objects s' = <["datasets/f" := "onetwo"]> (objects sim_store)
               | _ => True
               end.
Proof.
  pose proof (s3_writer_stores id sim_config "f" ["one"; "two"] sim_store ltac:(vm_compute; discriminate)) as Hs.
  destruct (write_pieces ["one"; "two"] _) as [r x]. destruct Hs as [Hr Hs]. split; [exact Hr|].
  destruct (SyncS3Writer.flush x) as [[u|e|m] [w s']]; [exact Hs|exact I|exact I].
Defined.
End MemoryStore.
