(* ===== verification/Core.v ===== *)
(** * Errors and registries of the core crate

    crates/roboflow-core/src: [error.rs] (categories, codes, texts, log fields) and
    [registry.rs] (registries as maps; their locks are never poisoned, because no code
    panics while holding one). *)
From stdpp Require Import pretty.
From S2P Require Import Prelude Image.
Local Open Scope string_scope.
Local Open Scope Z_scope.
Local Open Scope list_scope.

(** ** [error.rs] *)
Module ErrorCategory.
Inductive t := Parse | Schema | Runtime | Codec | Transform | Storage.
#[global] Instance t_eq : EqDecision t.
Proof. solve_decision. Defined.

Definition code_prefix (c : t) : Z :=
  match c with Parse => 1000 | Schema => 2000 | Runtime => 3000 | Codec => 4000 | Transform => 5000 | Storage => 6000 end.

Definition as_str (c : t) : string :=
  match c with
  | Parse => "PARSE" | Schema => "SCHEMA" | Runtime => "RUNTIME"
  | Codec => "CODEC" | Transform => "TRANSFORM" | Storage => "STORAGE"
  end.
End ErrorCategory.

Module RoboflowError.
Inductive t :=
| ParseError (context message : string)
| InvalidSchema (schema_name reason : string)
| TypeNotFound (type_name : string)
| BufferTooShort (requested available cursor_pos : Z)
| AlignmentError (expected actual : Z)
| LengthExceeded (length position buffer_len : Z)
| FieldDecodeError (field_name field_type : string) (cursor_pos : Z) (cause : string)
| Unsupported (feature : string)
| EncodeError (codec message : string)
| TransformError (transform_type message : string)
| CodecError (message : string)
| InvariantViolation (invariant : string)
| Other (msg : string)
| Timeout (msg : string)
| Storage (backend message : string) (retryable : bool).
#[global] Instance t_eq : EqDecision t.
Proof. solve_decision. Defined.

Definition parse := ParseError.
Definition invalid_schema := InvalidSchema.
Definition type_not_found := TypeNotFound.
Definition buffer_too_short := BufferTooShort.
Definition unsupported := Unsupported.
Definition encode := EncodeError.
Definition transform := TransformError.
Definition invariant_violation := InvariantViolation.
Definition timeout := Timeout.
Definition io := Other.
Definition storage := Storage.
Definition other := Other.
Definition config := ParseError.
Definition required (struct_name field_name : string) : t := ParseError struct_name (field_name +:+ " is required").

Definition is_retryable (e : t) : bool :=
  match e with Timeout _ => true | Storage _ _ retryable => retryable | _ => false end.

Definition category (e : t) : ErrorCategory.t :=
  match e with
  | ParseError _ _ => ErrorCategory.Parse
  | InvalidSchema _ _ => ErrorCategory.Schema
  | TypeNotFound _ => ErrorCategory.Schema
  | BufferTooShort _ _ _ => ErrorCategory.Runtime
  | AlignmentError _ _ => ErrorCategory.Runtime
  | LengthExceeded _ _ _ => ErrorCategory.Runtime
  | FieldDecodeError _ _ _ _ => ErrorCategory.Runtime
  | Unsupported _ => ErrorCategory.Codec
  | EncodeError _ _ => ErrorCategory.Codec
  | TransformError _ _ => ErrorCategory.Transform
  | CodecError _ => ErrorCategory.Runtime
  | InvariantViolation _ => ErrorCategory.Runtime
  | Other _ => ErrorCategory.Runtime
  | Timeout _ => ErrorCategory.Runtime
  | Storage _ _ _ => ErrorCategory.Storage
  end.

Definition code (e : t) : Z :=
  let base := ErrorCategory.code_prefix (category e) in
  match e with
  | ParseError _ _ => base + 1
  | InvalidSchema _ _ => base + 1
  | TypeNotFound _ => base + 2
  | BufferTooShort _ _ _ => base + 1
  | AlignmentError _ _ => base + 2
  | LengthExceeded _ _ _ => base + 3
  | FieldDecodeError _ _ _ _ => base + 4
  | Unsupported _ => base + 1
  | EncodeError _ _ => base + 2
  | TransformError _ _ => base + 1
  | CodecError _ => base + 6
  | InvariantViolation _ => base + 5
  | Other _ => base + 99
  | Timeout _ => base + 98
  | Storage _ _ _ => base + 1
  end.

Definition bool_to_string (b : bool) : string := if b then "true" else "false".

Definition log_fields (e : t) : list (string * string) :=
  match e with
  | ParseError context message => [("context", context); ("message", message)]
  | InvalidSchema schema_name reason => [("schema", schema_name); ("reason", reason)]
  | TypeNotFound type_name => [("type", type_name)]
  | BufferTooShort requested available cursor_pos =>
      [("requested", pretty requested); ("available", pretty available); ("cursor", pretty cursor_pos)]
  | AlignmentError expected actual => [("expected", pretty expected); ("actual", pretty actual)]
  | LengthExceeded length position buffer_len =>
      [("length", pretty length); ("position", pretty position); ("buffer_len", pretty buffer_len)]
  | FieldDecodeError field_name field_type cursor_pos cause =>
      [("field", field_name); ("type", field_type); ("cursor", pretty cursor_pos); ("cause", cause)]
  | Unsupported feature => [("feature", feature)]
  | EncodeError codec message => [("codec", codec); ("message", message)]
  | TransformError transform_type message => [("transform", transform_type); ("message", message)]
  | CodecError message => [("error", message)]
  | InvariantViolation invariant => [("invariant", invariant)]
  | Other msg => [("message", msg)]
  | Timeout msg => [("timeout", msg)]
  | Storage backend message retryable =>
      [("backend", backend); ("message", message); ("retryable", bool_to_string retryable)]
  end.

(** [Display]; a code has four digits, so that padding adds nothing. *)
Definition header (e : t) : string :=
  "[" +:+ ErrorCategory.as_str (category e) +:+ "-" +:+ pretty (code e) +:+ "] ".
Definition text (e : t) : string :=
  match e with
  | ParseError context message => "Parse error in '" +:+ context +:+ "': " +:+ message
  | InvalidSchema schema_name reason => "Invalid schema '" +:+ schema_name +:+ "': " +:+ reason
  | TypeNotFound type_name => "Type not found: '" +:+ type_name +:+ "'"
  | BufferTooShort requested available cursor_pos =>
      "Buffer too short: requested " +:+ pretty requested +:+ " bytes at position " +:+ pretty cursor_pos +:+
      ", but only " +:+ pretty available +:+ " bytes available"
  | AlignmentError expected actual =>
      "Alignment error: expected alignment of " +:+ pretty expected +:+ ", but position is " +:+ pretty actual
  | LengthExceeded length position buffer_len =>
      "Length " +:+ pretty length +:+ " exceeds buffer at position " +:+ pretty position +:+
      " (buffer length: " +:+ pretty buffer_len +:+ ")"
  | FieldDecodeError field_name field_type cursor_pos cause =>
      "Failed to decode field '" +:+ field_name +:+ "' (type: '" +:+ field_type +:+ "', cursor_pos: " +:+
      pretty cursor_pos +:+ "): " +:+ cause
  | Unsupported feature => "Unsupported feature: '" +:+ feature +:+ "'"
  | EncodeError codec message => codec +:+ " encode error: " +:+ message
  | TransformError transform_type message => "Transform error (" +:+ transform_type +:+ "): " +:+ message
  | CodecError message => "Format I/O error: " +:+ message
  | InvariantViolation invariant => "Invariant violation: " +:+ invariant
  | Other msg => msg
  | Timeout msg => "Timeout: " +:+ msg
  | Storage backend message _ => "Storage error (" +:+ backend +:+ "): " +:+ message
  end.
Definition fmt (e : t) : string := header e +:+ text e.

(** [From<std::io::Error>] and [From<robocodec::CodecError>], of the text of the error. *)
Definition from_io (err : string) : t := EncodeError "IO" err.
Definition from_codec (err : string) : t := CodecError err.

(** [mem::discriminant]. *)
Definition discriminant (e : t) : nat :=
  match e with
  | ParseError _ _ => 0 | InvalidSchema _ _ => 1 | TypeNotFound _ => 2 | BufferTooShort _ _ _ => 3
  | AlignmentError _ _ => 4 | LengthExceeded _ _ _ => 5 | FieldDecodeError _ _ _ _ => 6 | Unsupported _ => 7
  | EncodeError _ _ => 8 | TransformError _ _ => 9 | CodecError _ => 10 | InvariantViolation _ => 11
  | Other _ => 12 | Timeout _ => 13 | Storage _ _ _ => 14
  end%nat.
End RoboflowError.

(** The code of an error lies among those of its category, and tells the kind of error. *)
Theorem error_code_identifies e e' :
  ErrorCategory.code_prefix (RoboflowError.category e) < RoboflowError.code e < ErrorCategory.code_prefix (RoboflowError.category e) + 1000 /\
  (RoboflowError.code e = RoboflowError.code e' <-> RoboflowError.discriminant e = RoboflowError.discriminant e').
Proof.
  split; [destruct e; cbn; lia|]. destruct e; destruct e'; cbn; split; intros H; done.
Qed.

(** The text of an error begins with its code, so that errors of different kinds have
    different texts. *)
Theorem error_text_identifies e e' : RoboflowError.fmt e = RoboflowError.fmt e' -> RoboflowError.discriminant e = RoboflowError.discriminant e'.
Proof.
  intros H. apply error_code_identifies. revert H. unfold RoboflowError.fmt. generalize (RoboflowError.text e), (RoboflowError.text e').
  intros x y. destruct e; destruct e'; vm_compute; done.
Qed.

(** ** [registry.rs] *)
Module TypeRegistry.
Section Ops.
Context {T : Type}.
Definition t := gmap string T.
Definition new : t := ∅.
Definition register (name : string) (schema : T) (r : t) : result RoboflowError.t unit * t := (Ok tt, <[name := schema]> r).
Definition get (name : string) (r : t) : result RoboflowError.t (option T) := Ok (r !! name).
Definition contains (name : string) (r : t) : result RoboflowError.t bool := Ok (bool_decide (is_Some (r !! name))).
(** [keys] come in an order of the hash map. *)
Definition names (order : list string -> list string) (r : t) : result RoboflowError.t (list string) := Ok (order (map_to_list r).*1).
Definition remove (name : string) (r : t) : result RoboflowError.t bool * t := (Ok (bool_decide (is_Some (r !! name))), delete name r).
Definition clear (r : t) : result RoboflowError.t unit * t := (Ok tt, ∅).
Definition len (r : t) : result RoboflowError.t Z := Ok (Z.of_nat (size r)).
Definition is_empty (r : t) : result RoboflowError.t bool := n ← len r; mret (n =? 0).
End Ops.
Arguments t : clear implicits.
End TypeRegistry.

(** As [TypeRegistry], without errors.  [get_ref] is [get] under a guard. *)
Module FactoryRegistry.
Section Ops.
Context {V : Type}.
Definition t := gmap string V.
Definition new : t := ∅.
Definition register (name : string) (factory : V) (r : t) : t := <[name := factory]> r.
Definition get (name : string) (r : t) : option V := r !! name.
Definition get_ref (name : string) (r : t) : option V := r !! name.
Definition contains (name : string) (r : t) : bool := bool_decide (is_Some (r !! name)).
Definition names (order : list string -> list string) (r : t) : list string := order (map_to_list r).*1.
Definition remove (name : string) (r : t) : bool * t := (bool_decide (is_Some (r !! name)), delete name r).
Definition len (r : t) : Z := Z.of_nat (size r).
Definition is_empty (r : t) : bool := len r =? 0.
Definition clear (_ : t) : t := ∅.
End Ops.
Arguments t : clear implicits.
End FactoryRegistry.

(** A registry that is made when it is first used. *)
Module GlobalFactoryRegistry.
Section Ops.
Context {V : Type}.
Definition t := option (FactoryRegistry.t V).
Definition new : t := None.
Definition get_or_init (g : t) : FactoryRegistry.t V * t := let r := default FactoryRegistry.new g in (r, Some r).
Definition is_initialized (g : t) : bool := bool_decide (is_Some g).
End Ops.
Arguments t : clear implicits.
End GlobalFactoryRegistry.

Module Encoding.
Inductive t := Cdr | Protobuf | Json.
Definition from_str (s : string) : result unit t :=
  let s := to_lowercase s in
  if bool_decide (s ∈ ["cdr"; "ros1"; "ros2"]) then Ok Cdr
  else if bool_decide (s ∈ ["protobuf"; "proto"; "pb"]) then Ok Protobuf
  else if bool_decide (s = "json") then Ok Json
  else Err tt.
Definition fmt (e : t) : string := match e with Cdr => "cdr" | Protobuf => "protobuf" | Json => "json" end.
End Encoding.

Theorem encoding_print_parse e : Encoding.from_str (Encoding.fmt e) = Ok e.
Proof. by destruct e. Qed.

(** Registries are maps: a name has the schema registered last and not removed since. *)
Inductive registry_op (T : Type) := Register (name : string) (schema : T) | Remove (name : string) | Clear.
Arguments Register {T} name schema.
Arguments Remove {T} name.
Arguments Clear {T}.
Definition run_registry {T} (r : TypeRegistry.t T) (o : registry_op T) : TypeRegistry.t T :=
  match o with
  | Register name schema => (TypeRegistry.register name schema r).2
  | Remove name => (TypeRegistry.remove name r).2
  | Clear => (TypeRegistry.clear r).2
  end.
(** The last operation that concerns a name. *)
Fixpoint registered {T} (ops : list (registry_op T)) (name : string) : option T :=
  match ops with
  | [] => None
  | Register n schema :: ops' => if bool_decide (n = name) then Some schema else registered ops' name
  | Remove n :: ops' => if bool_decide (n = name) then None else registered ops' name
  | Clear :: _ => None
  end.

Definition run_factories {V} (r : FactoryRegistry.t V) (o : registry_op V) : FactoryRegistry.t V :=
  match o with
  | Register name factory => FactoryRegistry.register name factory r
  | Remove name => (FactoryRegistry.remove name r).2
  | Clear => FactoryRegistry.clear r
  end.

Theorem registry_latest {T} (ops : list (registry_op T)) name :
  TypeRegistry.get name (foldl run_registry TypeRegistry.new ops) = Ok (registered (reverse ops) name).
Proof.
  unfold TypeRegistry.t in *. induction ops as [|o ops IH] using rev_ind; [done|]. rewrite foldl_app, reverse_app. cbn. unfold TypeRegistry.get in *.
  injection IH as IH. unfold TypeRegistry.t in *. destruct o as [n x|n|]; cbn.
  - case_bool_decide as E; [subst; by rewrite lookup_insert_eq|]. by rewrite lookup_insert_ne, IH.
  - case_bool_decide as E; [subst; by rewrite lookup_delete_eq|]. by rewrite lookup_delete_ne, IH.
  - by rewrite lookup_empty.
Qed.

(** The two kinds of registry agree, and the global one starts empty. *)
Lemma factories_latest {V} (ops : list (registry_op V)) name :
  FactoryRegistry.get name (foldl run_factories (GlobalFactoryRegistry.get_or_init GlobalFactoryRegistry.new).1 ops) = registered (reverse ops) name.
Proof.
  pose proof (registry_latest ops name) as H. injection H as <-. done.
Qed.
