(* ===== verification/Retry.v ===== *)
(** * Retrying

    crates/roboflow-core/src/retry.rs, and [RetryingStorage] of crates/roboflow-storage/src/
    retry.rs, which is an instance of the same interface as the storage it wraps.
    [f64::powi], whose precision is not specified, and the clock are parameters. *)
From Corelib Require Import SpecFloat.
From S2P Require Import Prelude Floats Storage Scanner Core Cache CacheLaws.
Local Open Scope string_scope.
Local Open Scope Z_scope.
Local Open Scope list_scope.

Module RetryConfig.
Record t := mk {
  max_retries : Z;
  initial_backoff_ms : Z;
  max_backoff_ms : Z;
  backoff_multiplier : f64;
  jitter_enabled : bool;
  jitter_factor : f64 }.
#[global] Instance t_eta : Settable t := fun c =>
  mk (max_retries c) (initial_backoff_ms c) (max_backoff_ms c) (backoff_multiplier c) (jitter_enabled c) (jitter_factor c).

(** 0.15 is the double 5404319552844595 / 2^55. *)
Definition default : t := mk 5 100 30000 (f64_of 2) true (S754_finite false 5404319552844595 (-55)).
Definition new : t := default.
Definition with_max_retries (n : Z) (c : t) : t := c <| max_retries := n |>.
Definition with_initial_backoff_ms (ms : Z) (c : t) : t := c <| initial_backoff_ms := ms |>.
Definition with_max_backoff_ms (ms : Z) (c : t) : t := c <| max_backoff_ms := ms |>.
Definition with_backoff_multiplier (x : f64) (c : t) : t := c <| backoff_multiplier := x |>.
Definition with_jitter (enabled : bool) (c : t) : t := c <| jitter_enabled := enabled |>.
Definition with_jitter_factor (factor : f64) (c : t) : t := c <| jitter_factor := f64_clamp factor (f64_of 0) (f64_of 1) |>.

(** The reading of the clock in [nanos] is the number of nanoseconds since the epoch, 0
    before it.  The remainder by [2 * jitter_range] panics when this wraps to 0. *)
Section Backoff.
Context (powi : f64 -> Z -> f64).

Definition as_i32 (n : Z) : Z := (n + 2 ^ 31) mod 2 ^ 32 - 2 ^ 31.
(** [u64::saturating_add_signed]. *)
Definition saturating_add_signed (a b : Z) : Z := Z.max 0 (Z.min u64_max (a + b)).

Definition clamped_ms (c : t) (attempt : Z) : Z :=
  let base_ms := f64_mul (f64_of (initial_backoff_ms c)) (powi (backoff_multiplier c) (as_i32 attempt)) in
  f64_to_u64 (f64_clamp base_ms (f64_of 0) (f64_of (max_backoff_ms c))).
Definition jitter_range (c : t) (clamped : Z) : Z := f64_to_u64 (f64_mul (f64_of clamped) (jitter_factor c)).

Definition backoff_duration (c : t) (nanos attempt : Z) : panics Z :=
  let clamped := clamped_ms c attempt in
  if jitter_enabled c then
    let range := jitter_range c clamped in
    jitter ← (if 0 <? range then
                let divisor := as_u64 (2 * range) in
                if divisor =? 0 then Panic "attempt to calculate the remainder with a divisor of zero"
                else Ok (as_i64 (as_i64 (as_u64 nanos mod divisor) - as_i64 range))
              else Ok 0);
    Ok (millis (saturating_add_signed clamped jitter))
  else Ok (millis clamped).
End Backoff.
End RetryConfig.

(** [trait IsRetryableRef] and its instances. *)
Class IsRetryableRef (E : Type) := is_retryable_ref : E -> bool.
#[global] Instance roboflow_retryable : IsRetryableRef RoboflowError.t := RoboflowError.is_retryable.
#[global] Instance storage_retryable : IsRetryableRef StorageError.t := StorageError.is_retryable.

(** The clock of the process: [now] reads it, [sleep] waits. *)
Class Clock (K : Type) := { now : K -> Z * K; sleep : Z -> K -> K }.

Section Retry.
Context (powi : f64 -> Z -> f64) {K : Type} `{Clock K} {S E A : Type} `{IsRetryableRef E} (f : S -> result E A * S).

(** The loop from [attempt] on, with [remaining] attempts after this one. *)
Fixpoint retry_from (config : RetryConfig.t) (remaining : nat) (attempt : Z) (x : S * K) : result E A * (S * K) :=
  match f x.1 with
  | (Ok a, s) => (Ok a, (s, x.2))
  | (Panic m, s) => (Panic m, (s, x.2))
  | (Err err, s) =>
      if negb (is_retryable_ref err) then (Err err, (s, x.2))
      else
        match remaining with
        | O => (Err err, (s, x.2))
        | Datatypes.S remaining' =>
            let '(nanos, k) := now x.2 in
            match RetryConfig.backoff_duration powi config nanos attempt with
            | Ok backoff => retry_from config remaining' (attempt + 1) (s, sleep backoff k)
            | Err e => match e with end
            | Panic m => (Panic m, (s, k))
            end
        end
  end.

Definition retry_with_backoff (config : RetryConfig.t) : S * K -> result E A * (S * K) :=
  retry_from config (Z.to_nat (RetryConfig.max_retries config)) 0.
End Retry.

(** ** Properties *)

(** What the theorems assume of a configuration: its limit is an exact double and its
    jitter is at most the whole delay, as [with_jitter_factor] makes it. *)
Definition backoff_ok (c : RetryConfig.t) : Prop :=
  0 <= RetryConfig.max_retries c < u32_mod /\ 0 <= RetryConfig.max_backoff_ms c < 2 ^ 53 /\
  f64_lt (f64_of 1) (RetryConfig.jitter_factor c) = false.

(** A delay is never above the limit and its jitter, whatever [powi] computes and the
    clock shows, and computing it does not panic. *)
Lemma backoff_within powi c nanos attempt : backoff_ok c ->
  exists ms, RetryConfig.backoff_duration powi c nanos attempt = Ok (millis ms) /\
    0 <= ms <= RetryConfig.max_backoff_ms c + (if RetryConfig.jitter_enabled c then RetryConfig.max_backoff_ms c else 0) /\
    (RetryConfig.jitter_enabled c = false -> ms = RetryConfig.clamped_ms powi c attempt).
Proof.
  intros (_&Hmax&Hf). unfold RetryConfig.backoff_duration. set (cl := RetryConfig.clamped_ms powi c attempt).
  assert (0 <= cl <= RetryConfig.max_backoff_ms c) as Hcl by (by apply clamp_to_u64).
  destruct (RetryConfig.jitter_enabled c); [|exists cl; split_and!; (done || lia)].
  pose proof (mul_factor_le cl _ ltac:(lia) Hf) as Hr. fold (RetryConfig.jitter_range c cl) in Hr. set (r := RetryConfig.jitter_range c cl) in *.
  assert (2 ^ 53 < 2 ^ 63 /\ 2 ^ 63 < u64_mod /\ 2 ^ 53 + 2 ^ 53 < u64_max) as (B1&B2&B3) by done.
  destruct (Z.ltb_spec 0 r) as [Hr0|]; cbn [mbind result_bind].
  - assert (as_u64 (2 * r) = 2 * r) as -> by (apply as_u64_id; split; lia). destruct (Z.eqb_spec (2 * r) 0); [lia|]. cbn.
    pose proof (Z.mod_pos_bound (as_u64 nanos) (2 * r) ltac:(lia)) as Hm.
    rewrite (as_i64_id (as_u64 nanos mod (2 * r))), (as_i64_id r), as_i64_id by (unfold i64_min, i64_max; lia).
    eexists. split; [done|]. unfold RetryConfig.saturating_add_signed. split; [|done]. lia.
  - exists cl. cbn. unfold RetryConfig.saturating_add_signed. rewrite Z.add_0_r, Z.min_r, Z.max_r by lia. split_and!; (done || lia).
Qed.

Section Outcome.
Context (powi : f64 -> Z -> f64) {K : Type} `{Clock K} {S E A : Type} `{IsRetryableRef E} (f : S -> result E A * S).
Implicit Types (c : RetryConfig.t) (x y z : S * K).

(** Attempts that failed with an error worth retrying, each followed by its delay. *)
Inductive Retries c : Z -> list Z -> S * K -> S * K -> Prop :=
| Retries_done attempt x : Retries c attempt [] x x
| Retries_more attempt s k err s' nanos k' d ds z :
    f s = (Err err, s') -> is_retryable_ref err = true -> now k = (nanos, k') ->
    RetryConfig.backoff_duration powi c nanos attempt = Ok d ->
    Retries c (attempt + 1) ds (s', sleep d k') z -> Retries c attempt (d :: ds) (s, k) z.

Lemma retry_from_outcome c n attempt x : backoff_ok c ->
  let '(r, y) := retry_from powi f c n attempt x in
  exists ds z, Retries c attempt ds x z /\ (length ds <= n)%nat /\
    Forall (fun d => 0 <= d <= millis (2 * RetryConfig.max_backoff_ms c)) ds /\
    f z.1 = (r, y.1) /\ y.2 = z.2 /\ (forall err, r = Err err -> is_retryable_ref err = true -> length ds = n).
Proof.
  intros Hc. revert attempt x. induction n as [|n IH]; intros attempt [s k]; cbn [retry_from fst snd];
    destruct (f s) as [[a|err|m] s'] eqn:Ef;
    try (exists [], (s, k); split_and!; [constructor|cbn; lia|constructor|done|done|done]).
  all: destruct (is_retryable_ref err) eqn:Er; cbn [negb];
    [|exists [], (s, k); split_and!; [constructor|cbn; lia|constructor|done|done|intros ? [= <-]; congruence]].
  - exists [], (s, k). split_and!; [constructor|done|constructor|done|done|done].
  - destruct (now k) as [nanos k'] eqn:En. destruct (backoff_within powi c nanos attempt Hc) as (ms&Ed&Hms&_). rewrite Ed.
    specialize (IH (attempt + 1) (s', sleep (millis ms) k')). destruct (retry_from _ _ _ _ _ _) as [r y].
    destruct IH as (ds&z&Hrs&Hlen&Hall&Hz&Hk&Hlast). exists (millis ms :: ds), z. split_and!; try done.
    + by econstructor.
    + cbn. lia.
    + constructor; [|done]. destruct Hc as (_&Hmax&_). unfold millis, ns_per_ms. destruct (RetryConfig.jitter_enabled c); lia.
    + intros e E1 E2. cbn. by rewrite (Hlast e E1 E2).
Qed.
End Outcome.

(** C9: [retry_with_backoff] waits at most [max_retries] times, each time at most twice the
    limit, and ends; every attempt but the last failed with an error that can be retried,
    and the result is that of the last attempt, which is such an error only when all
    attempts were used. *)
Theorem retry_outcome powi {K} `{Clock K} {S E A} `{IsRetryableRef E} (f : S -> result E A * S) c (x : S * K) : backoff_ok c ->
  let '(r, y) := retry_with_backoff powi f c x in
  exists ds z, Retries powi f c 0 ds x z /\ Z.of_nat (length ds) <= RetryConfig.max_retries c /\
    Forall (fun d => 0 <= d <= millis (2 * RetryConfig.max_backoff_ms c)) ds /\
    f z.1 = (r, y.1) /\ y.2 = z.2 /\
    (forall err, r = Err err -> is_retryable_ref err = true -> Z.of_nat (length ds) = RetryConfig.max_retries c).
Proof.
  intros Hc. pose proof (retry_from_outcome powi f c (Z.to_nat (RetryConfig.max_retries c)) 0 x Hc) as Ho. unfold retry_with_backoff.
  destruct (retry_from _ _ _ _ _ _) as [r y]. destruct Ho as (ds&z&H1&H2&H3&H4&H5&H6). destruct Hc as (Hn&_).
  exists ds, z. split_and!; try done; [lia|]. intros err E1 E2. rewrite (H6 err E1 E2). lia.
Qed.

(** [with_jitter_factor] establishes its part of [backoff_ok]. *)
Lemma jitter_factor_clamped factor c : f64_lt (f64_of 1) (RetryConfig.jitter_factor (RetryConfig.with_jitter_factor factor c)) = false.
Proof.
  cbn [RetryConfig.with_jitter_factor RetryConfig.jitter_factor set_field]. unfold f64_clamp.
  destruct (f64_lt factor (f64_of 0)); [done|]. by destruct (f64_lt (f64_of 1) factor) eqn:E.
Qed.

Lemma default_ok : backoff_ok RetryConfig.default.
Proof. unfold backoff_ok. cbn. split_and!; try done; vm_compute; congruence. Qed.

(** ** [RetryingStorage] *)

(** The methods of the trait [Storage] besides those of [StorageOps]. *)
Class StorageMore (R : Type) := {
  metadata : string -> R -> StorageResult ObjectMetadata.t * R;
  list_ : string -> R -> StorageResult (list ObjectMetadata.t) * R;
  create_dir : string -> R -> StorageResult unit * R;
  create_dir_all : string -> R -> StorageResult unit * R;
  read_range : string -> Z -> option Z -> R -> StorageResult Stream * R;
  delete_prefix : string -> R -> StorageResult Z * R }.

(** The default methods of the trait. *)
Module StorageDefaults.
Section Ops.
Context {R : Type} `{StorageOps R}.

(** [read_exact] of the first [start] bytes of a stream; the end is ignored. *)
Definition skip (start : Z) (st : Stream) : StorageResult Stream :=
  let data := joined (chunks st) in
  if start <=? str_len data then Ok (mkStream [String.substring (Z.to_nat start) (String.length data - Z.to_nat start) data] (broken st))
  else match broken st with Some e => Err (StorageError.Io e) | None => Err (StorageError.Io "failed to fill whole buffer") end.

Definition read_range (path : string) (start : Z) (_end : option Z) : SM R Stream :=
  mbind (M := SM R) (fun st r => (skip start st, r)) (Cache.reader path).

Definition delete_prefix (prefix : string) : SM R Z :=
  sm_throw (StorageError.Other "delete_prefix not implemented for this storage type").
End Ops.
End StorageDefaults.

Module RetryingStorage.
Section Ops.
Context (powi : f64 -> Z -> f64) {K : Type} `{Clock K} {R : Type} `{StorageOps R, !StorageMore R} (config : RetryConfig.t).
Abbreviation retried f := (retry_with_backoff powi f config).
(** A call of the wrapped storage, without retries. *)
Definition direct {A} (f : R -> A * R) (x : R * K) : A * (R * K) := let '(a, r) := f x.1 in (a, (r, x.2)).

Definition reader (path : string) : SM (R * K) Stream := retried (Cache.reader path).
Definition writer (path : string) : SM (R * K) Writer := direct (Cache.writer path).
Definition exists_ (path : string) (x : R * K) : bool := Cache.exists_ path x.1.
Definition size (path : string) : SM (R * K) Z := retried (Cache.size path).
Definition metadata (path : string) : SM (R * K) ObjectMetadata.t := retried (Retry.metadata path).
Definition list_ (prefix : string) : SM (R * K) (list ObjectMetadata.t) := retried (Retry.list_ prefix).
Definition delete (path : string) : SM (R * K) unit := retried (Cache.delete path).
Definition copy (from to : string) : SM (R * K) unit := retried (Cache.copy from to).
Definition create_dir (path : string) : SM (R * K) unit := retried (Retry.create_dir path).
Definition create_dir_all (path : string) : SM (R * K) unit := retried (Retry.create_dir_all path).

(** It is a storage again; writers work on the wrapped one, and what is not overridden is
    the default. *)
#[global] Instance ops : StorageOps (R * K) := {|
  Cache.Writer := @Writer R _;
  Cache.reader := reader;
  Cache.writer := writer;
  Cache.write_all w d := direct (Cache.write_all w d);
  Cache.flush_writer w := direct (Cache.flush_writer w);
  Cache.exists_ := exists_;
  Cache.size := size;
  Cache.delete := delete;
  Cache.copy := copy |}.
#[global] Instance more : StorageMore (R * K) := {|
  Retry.metadata := metadata;
  Retry.list_ := list_;
  Retry.create_dir := create_dir;
  Retry.create_dir_all := create_dir_all;
  Retry.read_range := StorageDefaults.read_range;
  Retry.delete_prefix := StorageDefaults.delete_prefix |}.
End Ops.
End RetryingStorage.

(** ** What retrying gives *)

(** A failing call of a storage: the error it answers, and whether the operation took effect
    before the answer was lost. *)
Record Fault := mkFault { error : StorageError.t; took_effect : bool }.

(** A storage whose calls meet the coming faults. *)
Definition flaky {R A} (f : R -> StorageResult A * R) (x : R * list Fault) : StorageResult A * (R * list Fault) :=
  match x.2 with
  | e :: es => (Err (error e), (if took_effect e then (f x.1).2 else x.1, es))
  | [] => let '(a, r) := f x.1 in (a, (r, []))
  end.

(** An answer that ends the retries. *)
Definition settled {A} (a : StorageResult A) : Prop := forall e, a = Err e -> is_retryable_ref e = false.
Definition passing (e : Fault) : Prop := is_retryable_ref (error e) = true.

Section Faults.
Context (powi : f64 -> Z -> f64) {K : Type} `{Clock K} {R A : Type} (f : R -> StorageResult A * R).

(** The state that faulty attempts leave. *)
Definition left_by (es : list Fault) (r : R) : R := foldl (fun r e => if took_effect e then (f r).2 else r) r es.
(** Once it took effect, the operation answers the same again and changes nothing more. *)
Definition repeatable (r : R) : Prop := f (f r).2 = f r.

Lemma flaky_settles c n attempt r es (k : K) : backoff_ok c -> Forall passing es -> (length es <= n)%nat ->
  settled (f (left_by es r)).1 ->
  exists k', retry_from powi (flaky f) c n attempt ((r, es), k) = ((f (left_by es r)).1, (((f (left_by es r)).2, []), k')).
Proof.
  intros Hc Hes. revert n attempt r k. induction Hes as [|e es He Hes IH]; intros n attempt r k Hlen Hs.
  - exists k. destruct n; cbn [retry_from]; unfold flaky; cbn [fst snd left_by foldl] in *;
      destruct (f r) as [[a|e|m] r'] eqn:Ef; cbn [fst snd] in *; try done; by rewrite (Hs e eq_refl).
  - destruct n as [|n]; cbn in Hlen; [lia|]. cbn [retry_from]. unfold flaky at 1. cbn [fst snd]. rewrite He. cbn [negb].
    destruct (now k) as [nanos k']. destruct (backoff_within powi c nanos attempt Hc) as (ms&->&_). apply IH; [lia|exact Hs].
Qed.

Lemma left_by_early es r : Forall (fun e => took_effect e = false) es -> left_by es r = r.
Proof. induction 1 as [|e es He _ IH]; [done|]. cbn. by rewrite He. Qed.

Lemma left_by_done es r : repeatable r -> left_by es (f r).2 = (f r).2.
Proof. intros Hr. induction es as [|e es IH]; [done|]. cbn. rewrite Hr. by destruct (took_effect e). Qed.

Lemma left_by_repeatable es r : repeatable r -> f (left_by es r) = f r.
Proof.
  intros Hr. induction es as [|e es IH]; [done|]. cbn. destruct (took_effect e); [|done].
  fold (left_by es (f r).2). by rewrite left_by_done.
Qed.
End Faults.

(** The operations that are retried, for a storage of which every call may fail. *)
Section Hidden.
Context (powi : f64 -> Z -> f64) {K : Type} `{Clock K} {R : Type} `{StorageOps R, !StorageMore R}.
Let F : Type := R * list Fault.

#[local] Instance flaky_ops : StorageOps F := {|
  Cache.Writer := @Writer R _;
  Cache.reader path := flaky (Cache.reader path);
  Cache.writer path := flaky (Cache.writer path);
  Cache.write_all w d x := let '(a, r) := Cache.write_all w d x.1 in (a, (r, x.2));
  Cache.flush_writer w x := let '(a, r) := Cache.flush_writer w x.1 in (a, (r, x.2));
  Cache.exists_ path x := Cache.exists_ path x.1;
  Cache.size path := flaky (Cache.size path);
  Cache.delete path := flaky (Cache.delete path);
  Cache.copy a b := flaky (Cache.copy a b) |}.
#[local] Instance flaky_more : StorageMore F := {|
  Retry.metadata path := flaky (Retry.metadata path);
  Retry.list_ path := flaky (Retry.list_ path);
  Retry.create_dir path := flaky (Retry.create_dir path);
  Retry.create_dir_all path := flaky (Retry.create_dir_all path);
  Retry.read_range path a b := flaky (Retry.read_range path a b);
  Retry.delete_prefix path := flaky (Retry.delete_prefix path) |}.

(** With at most [max_retries] faults that can be retried, [op] answers as [inner] does in
    the state that the faulty attempts left, and has its effect there; when no fault came
    after the effect, or [inner] can be repeated, that is as [inner] in the first state. *)
Definition answers_as {A} (op : F * K -> StorageResult A * (F * K)) (inner : R -> StorageResult A * R) (c : RetryConfig.t) : Prop :=
  forall r es k, Forall passing es -> Z.of_nat (length es) <= RetryConfig.max_retries c ->
    (settled (inner (left_by inner es r)).1 ->
     exists k', op ((r, es), k) = ((inner (left_by inner es r)).1, (((inner (left_by inner es r)).2, []), k'))) /\
    (settled (inner r).1 -> Forall (fun e => took_effect e = false) es \/ repeatable inner r ->
     exists k', op ((r, es), k) = ((inner r).1, (((inner r).2, []), k'))).

Lemma retried_answers {A} (f : R -> StorageResult A * R) c : backoff_ok c -> answers_as (retry_with_backoff powi (flaky f) c) f c.
Proof.
  intros Hc r es k Hes Hlen. assert (length es <= Z.to_nat (RetryConfig.max_retries c))%nat as Hn by lia.
  split; [intros Hs; by apply flaky_settles|]. intros Hs Hw.
  assert (f (left_by f es r) = f r) as E.
  { destruct Hw as [Hw|Hw]; [by rewrite (left_by_early f es r Hw)|by apply left_by_repeatable]. }
  rewrite <-E in *. by apply flaky_settles.
Qed.

(** C8: [RetryingStorage] over a storage whose calls may fail before or after they took
    effect, when at most [max_retries] errors come in a row and all of them can be retried.
    Every retried operation answers as the wrapped storage does without faults, and has the
    same effect, when none of the faults came after the effect or when the operation of the
    wrapped storage can be repeated: once it took effect it answers the same again and
    changes nothing.  In any other case (a [delete] that took effect before it timed out) the
    answer and the effect are those of the wrapped storage in the state which the failed
    attempts left. *)
Theorem retrying_hides_faults c path to : backoff_ok c ->
  answers_as (RetryingStorage.reader powi c path) (Cache.reader path) c /\
  answers_as (RetryingStorage.size powi c path) (Cache.size path) c /\
  answers_as (RetryingStorage.metadata powi c path) (Retry.metadata path) c /\
  answers_as (RetryingStorage.list_ powi c path) (Retry.list_ path) c /\
  answers_as (RetryingStorage.delete powi c path) (Cache.delete path) c /\
  answers_as (RetryingStorage.copy powi c path to) (Cache.copy path to) c /\
  answers_as (RetryingStorage.create_dir powi c path) (Retry.create_dir path) c /\
  answers_as (RetryingStorage.create_dir_all powi c path) (Retry.create_dir_all path) c.
Proof. intros Hc. split_and!; by apply retried_answers. Qed.

(** A [delete] that took effect before its answer was lost: the retry finds nothing to
    delete, and the caller is told so. *)
Theorem late_fault_of_delete c path e r r' r'' k : backoff_ok c -> 1 <= RetryConfig.max_retries c -> is_retryable_ref e = true ->
  Cache.delete path r = (Ok tt, r') -> Cache.delete path r' = (Err (StorageError.NotFound path), r'') ->
  exists k', RetryingStorage.delete powi c path ((r, [mkFault e true]), k) = (Err (StorageError.NotFound path), ((r'', []), k')).
Proof.
  intros Hc Hn He E1 E2. destruct (retried_answers (Cache.delete path) c Hc r [mkFault e true] k) as [Ha _];
    [by repeat constructor|done|]. cbn in Ha. rewrite E1 in Ha. cbn in Ha. rewrite E2 in Ha. apply Ha. by intros ? [= <-].
Qed.
End Hidden.

(** What holds of the writers of a storage holds of the retrying one, so that the cache can
    work on top of it. *)
#[global] Instance retrying_laws powi {K} `{Clock K} {R} `{StorageLaws R, !StorageMore R} c : StorageLaws (H := RetryingStorage.ops powi c) (R * K).
Proof.
  refine {| w_path := @w_path R _ _ : @Writer (R * K) (RetryingStorage.ops powi c) -> string; w_data := @w_data R _ _;
            object p (x : R * K) := object p x.1 |}; cbn; unfold RetryingStorage.writer, RetryingStorage.direct.
  - intros p [r k] w x. destruct (Cache.writer p _) as [a r'] eqn:E. intros [= -> <-]. exact (writer_new _ _ _ _ E).
  - intros w d [r k] w' x. destruct (Cache.write_all w d _) as [a r'] eqn:E. intros [= -> <-]. exact (write_all_data _ _ _ _ _ E).
  - intros w [r k] x. destruct (Cache.flush_writer w _) as [a r'] eqn:E. intros [= -> <-]. exact (flush_object _ _ _ E).
Defined.

(** ** Flaws and witnesses *)

(** A storage that deletes prefixes loses this when it is wrapped, and a range has no end. *)
Theorem retrying_loses_overrides powi {K} `{Clock K} {R} `{StorageOps R, !StorageMore R} c prefix path start end_ (x : R * K) :
  Retry.delete_prefix (StorageMore := RetryingStorage.more powi c) prefix x =
    (Err (StorageError.Other "delete_prefix not implemented for this storage type"), x) /\
  Retry.read_range (StorageMore := RetryingStorage.more powi c) path start end_ x =
  Retry.read_range (StorageMore := RetryingStorage.more powi c) path start None x.
Proof. done. Qed.

Module RetryExamples.
(** A clock that remembers the delays. *)
#[global] Instance sim_clock : Clock (list Z) := {| now k := (7, k); sleep d k := k ++ [d] |}.
(** [powi] by repeated multiplication. *)
Definition sim_powi (x : f64) (n : Z) : f64 := Nat.iter (Z.to_nat n) (f64_mul x) (f64_of 1).
#[global] Instance sim_more : StorageMore SimRemote.t := {|
  Retry.metadata p r := (Err (StorageError.NotFound p), r);
  Retry.list_ p r := (Ok [], r);
  Retry.create_dir p r := (Ok tt, r);
  Retry.create_dir_all p r := (Ok tt, r);
  Retry.read_range p a b r := (Err (StorageError.NotFound p), r);
  Retry.delete_prefix p r := (Ok 0, r) |}.
Definition sim_objects : SimRemote.t := <["a" := mkStream ["data"] None]> ∅.
Definition steady : RetryConfig.t := RetryConfig.with_jitter false RetryConfig.new.

(** Delays double up to the limit. *)
Example delays_double :
  (fun n => RetryConfig.backoff_duration sim_powi steady 0 n) <$> [0; 1; 2; 3; 8; 9; 30] =
  (fun ms => Ok (millis ms)) <$> [100; 200; 400; 800; 25600; 30000; 30000].
Proof. vm_compute. reflexivity. Qed.

(** Doubling the range of the jitter can overflow to 0. *)
Example huge_jitter_panics :
  RetryConfig.backoff_duration sim_powi (RetryConfig.mk 1 (2 ^ 63) (2 ^ 63) (f64_of 2) true (f64_of 1)) 0 0 =
  Panic "attempt to calculate the remainder with a divisor of zero".
Proof. vm_compute. reflexivity. Qed.

Lemma steady_ok : backoff_ok steady.
Proof. unfold backoff_ok. split_and!; vm_compute; congruence. Qed.

Definition third_time (n : Z) : result StorageError.t Z * Z :=
  if n <? 2 then (Err (StorageError.Timeout "slow"), n + 1) else (Ok n, n).

Lemma retry_outcome_witness : exists ds, retry_with_backoff sim_powi third_time steady (0, []) = (Ok 2, (2, ds)) /\ ds = [millis 100; millis 200].
Proof.
  pose proof (retry_outcome sim_powi third_time steady (0, []) steady_ok) as Ho.
  destruct (retry_with_backoff _ _ _ _) as [r [n ds]] eqn:E. destruct Ho as (ws&z&_&_&_&Hz&_).
  assert (E' := E). vm_compute in E. injection E as <- <- <-. eexists. split; reflexivity.
Defined.

(** A store whose [delete] answers for a missing object as the trait asks. *)
#[local] Instance strict_ops : StorageOps SimRemote.t := {|
  Cache.Writer := @Writer SimRemote.t SimRemote.ops;
  Cache.reader := Cache.reader;
  Cache.writer := Cache.writer;
  Cache.write_all := Cache.write_all;
  Cache.flush_writer := Cache.flush_writer;
  Cache.exists_ := Cache.exists_;
  Cache.size := Cache.size;
  Cache.delete p r := (if bool_decide (is_Some (r !! p)) then Ok tt else Err (StorageError.NotFound p), base.delete p r);
  Cache.copy := Cache.copy |}.

Definition lost : Fault := mkFault (StorageError.Timeout "slow") true.
Definition refused : Fault := mkFault (StorageError.Cloud "busy") false.

Definition copy_object (p q : string) (m : gmap string Stream) : StorageResult unit * gmap string Stream :=
  (match m !! p with Some _ => Ok tt | None => Err (StorageError.NotFound p) end, match m !! p with Some st => <[q := st]> m | None => m end).

Lemma copy_object_again p q m : p <> q -> copy_object p q (copy_object p q m).2 = copy_object p q m.
Proof.
  intros Hpq. unfold copy_object. destruct (m !! p) as [st|] eqn:E; cbn; [|by rewrite E].
  rewrite lookup_insert_ne, E by done. by rewrite insert_insert_eq.
Qed.

(** The reading operations and [copy] of that store can be repeated. *)
Lemma strict_repeatable (r : SimRemote.t) p q : repeatable (Cache.reader p) r /\ repeatable (Cache.size p) r /\
  (p <> q -> repeatable (Cache.copy p q) r).
Proof. split_and!; [done|done|]. exact (copy_object_again p q r). Qed.

Example late_delete_reported_missing : exists k,
  RetryingStorage.delete (H0 := flaky_ops) sim_powi steady "a" ((sim_objects, [lost]), []) = (Err (StorageError.NotFound "a"), ((∅, []), k)).
Proof.
  apply (late_fault_of_delete (R := SimRemote.t) sim_powi steady "a" (StorageError.Timeout "slow") sim_objects ∅ ∅ []);
    [apply steady_ok|vm_compute; congruence|done|vm_compute; reflexivity..].
Qed.

Lemma retrying_hides_faults_witness :
  (exists k, RetryingStorage.reader (H0 := flaky_ops) sim_powi steady "a" ((sim_objects, [lost; refused]), []) =
     (Ok (mkStream ["data"] None), ((sim_objects, []), k))) /\
  (exists k, RetryingStorage.delete (H0 := flaky_ops) sim_powi steady "a" ((sim_objects, [refused; refused]), []) =
     (Ok tt, ((base.delete "a" sim_objects, []), k))).
Proof.
  destruct (retrying_hides_faults (K := list Z) (R := SimRemote.t) sim_powi steady "a" "b" steady_ok) as (Hr&_&_&_&Hd&_). split.
  - destruct (Hr sim_objects [lost; refused] []) as [_ Ha]; [by repeat constructor|vm_compute; congruence|].
    apply Ha; [intros e [=]|]. right. reflexivity.
  - destruct (Hd sim_objects [refused; refused] []) as [_ Ha]; [by repeat constructor|vm_compute; congruence|].
    apply Ha; [intros e [=]|]. left. by repeat constructor.
Defined.
End RetryExamples.
