(* ===== verification/Factory.v ===== *)
(** * Choosing a storage backend

    crates/roboflow-storage/src/factory.rs (configuration from the environment and from a
    file, backends from URLs) and config_file.rs.  The environment is a map.  The TOML
    parser and the construction of the S3 client are arguments. *)
From S2P Require Import Prelude Storage FileSystem FileSystemLaws LocalStorage LocalStorageLaws LocalRoundtrip S3.
Local Open Scope string_scope.
Local Open Scope Z_scope.
Local Open Scope list_scope.

(** ** [config_file.rs] *)
Module S3ConfigSection.
Record t := mk { access_key_id : option string; access_key_secret : option string; endpoint : option string; region : option string }.
End S3ConfigSection.

Module ConfigError.
Inductive t := HomeDirNotFound | ReadError (path : Path) (e : IoError) | ParseError (path : Path) (e : string).
Definition fmt (e : t) : string :=
  match e with
  | HomeDirNotFound => "HOME directory not found"
  | ReadError path e => "Failed to read config file " +:+ display path +:+ ": " +:+ io_fmt e
  | ParseError path e => "Failed to parse config file " +:+ display path +:+ ": " +:+ e
  end.
End ConfigError.

(** What [std::env::var] finds. *)
Abbreviation Env := (gmap string string).
(** [var(a).or_else(|_| var(b))]... *)
Fixpoint first_var (names : list string) (env : Env) : option string :=
  match names with
  | [] => None
  | n :: names' => match env !! n with Some v => Some v | None => first_var names' env end
  end.

Module RoboflowConfig.
Record t := mk { s3 : option S3ConfigSection.t }.

Section Load.
(** [str::from_utf8] succeeds; [toml::from_str]. *)
Context (is_utf8 : string -> bool) (from_toml : string -> result string t).

Definition load_from (path : Path) : IO ConfigError.t (option t) :=
  there ← path_exists path;
  if negb (there : bool) then mret None
  else
    contents ← io_map_err (ConfigError.ReadError path) (h ← file_open path; data ← read_to_end h;
      if is_utf8 data then mret data else io_throw (Failure "stream did not contain valid UTF-8"));
    io_try (fs_metadata path);;
    config ← io_lift (map_err (ConfigError.ParseError path) (from_toml contents));
    mret (Some config).

Definition DEFAULT_CONFIG_PATH : Path := path_components ".roboflow/config.toml".
Definition load_default (env : Env) : IO ConfigError.t (option t) :=
  match first_var ["HOME"; "USERPROFILE"] env with
  | None => io_throw ConfigError.HomeDirNotFound
  | Some home => load_from (path_join (path_components home) DEFAULT_CONFIG_PATH)
  end.
End Load.

Definition s3_access_key_id (c : t) : option string := s ← s3 c; S3ConfigSection.access_key_id s.
Definition s3_access_key_secret (c : t) : option string := s ← s3 c; S3ConfigSection.access_key_secret s.
Definition s3_endpoint (c : t) : option string := s ← s3 c; S3ConfigSection.endpoint s.
Definition s3_region (c : t) : option string := s ← s3 c; S3ConfigSection.region s.
End RoboflowConfig.

(** ** [factory.rs] *)
Module StorageConfig.
Record t := mk {
  oss_access_key_id : option string; oss_access_key_secret : option string; oss_endpoint : option string;
  aws_access_key_id : option string; aws_secret_access_key : option string; aws_region : option string;
  aws_endpoint_url : option string; local_buffer_dir : option string }.
#[global] Instance t_eta : Settable t := fun c =>
  mk (oss_access_key_id c) (oss_access_key_secret c) (oss_endpoint c) (aws_access_key_id c) (aws_secret_access_key c) (aws_region c)
     (aws_endpoint_url c) (local_buffer_dir c).

Definition default : t := mk None None None None None None None None.
Definition new : t := default.

Definition from_env (env : Env) : t :=
  mk (first_var ["OSS_ACCESS_KEY_ID"; "ALIYUN_ACCESS_KEY_ID"; "ALIYUN_OSS_ACCESS_KEY_ID"] env)
     (first_var ["OSS_ACCESS_KEY_SECRET"; "ALIYUN_ACCESS_KEY_SECRET"; "ALIYUN_OSS_ACCESS_KEY_SECRET"] env)
     (first_var ["OSS_ENDPOINT"; "ALIYUN_OSS_ENDPOINT"] env)
     (env !! "AWS_ACCESS_KEY_ID") (env !! "AWS_SECRET_ACCESS_KEY") (env !! "AWS_REGION") (env !! "AWS_ENDPOINT_URL")
     (env !! "ROBOFLOW_BUFFER_DIR").

(** [if x.is_none() { x = y }]. *)
Definition or_set (x y : option string) : option string := match x with Some v => Some v | None => y end.

Definition merge_with_config_file (config : option RoboflowConfig.t) (c : t) : t :=
  match config with
  | None => c
  | Some cfg =>
      c <| oss_access_key_id := or_set (oss_access_key_id c) (RoboflowConfig.s3_access_key_id cfg) |>
        <| oss_access_key_secret := or_set (oss_access_key_secret c) (RoboflowConfig.s3_access_key_secret cfg) |>
        <| oss_endpoint := or_set (oss_endpoint c) (RoboflowConfig.s3_endpoint cfg) |>
        <| aws_region := or_set (aws_region c) (RoboflowConfig.s3_region cfg) |>
  end.

Definition with_oss_credentials (id secret : string) (c : t) : t :=
  c <| oss_access_key_id := Some id |> <| oss_access_key_secret := Some secret |>.
Definition with_oss_endpoint (endpoint : string) (c : t) : t := c <| oss_endpoint := Some endpoint |>.
Definition with_aws_credentials (id secret : string) (c : t) : t :=
  c <| aws_access_key_id := Some id |> <| aws_secret_access_key := Some secret |>.
Definition with_aws_region (region : string) (c : t) : t := c <| aws_region := Some region |>.
Definition with_aws_endpoint_url (url : string) (c : t) : t := c <| aws_endpoint_url := Some url |>.
Definition with_oss_region (region : string) (c : t) : t := c <| aws_region := Some region |>.
Definition with_local_buffer_dir (dir : string) (c : t) : t := c <| local_buffer_dir := Some dir |>.

Definition get_oss_key_id (c : t) : option string := or_set (oss_access_key_id c) (aws_access_key_id c).
Definition get_oss_key_secret (c : t) : option string := or_set (oss_access_key_secret c) (aws_secret_access_key c).
Definition has_oss_credentials (c : t) : bool :=
  bool_decide (is_Some (get_oss_key_id c)) && bool_decide (is_Some (get_oss_key_secret c)).
Definition get_aws_endpoint_url (c : t) : option string := aws_endpoint_url c.
End StorageConfig.

(** The backends a factory makes. *)
Inductive Backend := LocalBackend (s : LocalStorage.t) | S3Backend (c : S3Config.t).

Module StorageFactory.
Section Create.
(** [AmazonS3Builder::build], and the runtime of the synchronous backend. *)
Context (build_client : S3Config.t -> result string unit) (build_runtime : result string unit).

Definition async_with_config (c : S3Config.t) : StorageResult S3Config.t :=
  _ ← S3Config.validate_bucket_name c;
  _ ← map_err (fun e => StorageError.Cloud ("Failed to create S3 client: " +:+ e)) (build_client c);
  Ok c.
Definition with_config (c : S3Config.t) : StorageResult S3Config.t :=
  c ← async_with_config c;
  _ ← map_err (fun e => StorageError.Other ("Failed to create tokio runtime: " +:+ e)) build_runtime;
  Ok c.

Definition ok_or (o : option string) (msg : string) : StorageResult string :=
  match o with Some x => Ok x | None => Err (StorageError.other msg) end.

(** Credentials, endpoint and region of an S3 URL. *)
Definition s3_config (config : StorageConfig.t) (bucket : string) (url_endpoint url_region : option string) : StorageResult S3Config.t :=
  key_id ← ok_or (StorageConfig.or_set (StorageConfig.aws_access_key_id config) (StorageConfig.oss_access_key_id config))
             "S3 credentials not found. Set AWS_ACCESS_KEY_ID or OSS_ACCESS_KEY_ID environment variable.";
  key_secret ← ok_or (StorageConfig.or_set (StorageConfig.aws_secret_access_key config) (StorageConfig.oss_access_key_secret config))
                 "S3 credentials not found. Set AWS_SECRET_ACCESS_KEY or OSS_ACCESS_KEY_SECRET environment variable.";
  let ep := default "s3.amazonaws.com" (StorageConfig.or_set url_endpoint (StorageConfig.aws_endpoint_url config)) in
  let region := default "us-east-1" (StorageConfig.or_set url_region (StorageConfig.aws_region config)) in
  Ok (S3Config.with_region region (S3Config.new bucket ep key_id key_secret)).

Definition local_root (path : string) : Path :=
  if contains "." path then match path_parent (path_components path) with Some p => p | None => path_components "." end
  else path_components path.

Definition create_from_url (config : StorageConfig.t) (url : StorageUrl.t) : StorageResult Backend :=
  match url with
  | StorageUrl.Local path => Ok (LocalBackend (LocalStorage.mk (local_root path)))
  | StorageUrl.S3 bucket _ url_endpoint url_region =>
      c ← s3_config config bucket url_endpoint url_region;
      let c := if starts_with (S3Config.endpoint c) "http://" then S3Config.with_allow_http true c else c in
      c ← with_config c;
      Ok (S3Backend c)
  end.
Definition create (config : StorageConfig.t) (url : string) : StorageResult Backend :=
  u ← StorageUrl.from_str url; create_from_url config u.

Definition create_async_from_url (config : StorageConfig.t) (url : StorageUrl.t) : StorageResult S3Config.t :=
  match url with
  | StorageUrl.S3 bucket _ url_endpoint url_region =>
      c ← s3_config config bucket url_endpoint url_region; async_with_config c
  | StorageUrl.Local _ =>
      Err (StorageError.other "Local filesystem is not supported by async storage. Use the sync Storage trait instead.")
  end.
Definition create_async (config : StorageConfig.t) (url : string) : StorageResult S3Config.t :=
  u ← StorageUrl.from_str url; create_async_from_url config u.

Definition create_seekable (url : string) : StorageResult Backend :=
  u ← StorageUrl.from_str url;
  match u with
  | StorageUrl.Local _ => Err (StorageError.other "Use create() and check for SeekableStorage support")
  | _ => Err (StorageError.other "Seekable storage only supported for local filesystem")
  end.
End Create.
End StorageFactory.

(** ** Properties *)

(** Values that are set win over the file, which fills the gaps of four of them. *)
Theorem merge_precedence cfg c : let m := StorageConfig.merge_with_config_file (Some cfg) c in
  (forall x, StorageConfig.oss_access_key_id c = Some x -> StorageConfig.oss_access_key_id m = Some x) /\
  (StorageConfig.oss_access_key_id c = None -> StorageConfig.oss_access_key_id m = RoboflowConfig.s3_access_key_id cfg) /\
  (forall x, StorageConfig.aws_region c = Some x -> StorageConfig.aws_region m = Some x) /\
  (StorageConfig.aws_region c = None -> StorageConfig.aws_region m = RoboflowConfig.s3_region cfg) /\
  StorageConfig.aws_access_key_id m = StorageConfig.aws_access_key_id c /\
  StorageConfig.merge_with_config_file (Some cfg) m = m.
Proof.
  destruct c as [[] [] [] ? ? [] ? ?]; destruct cfg as [[[[] [] [] []]|]]; cbn; split_and!; try done; intros; congruence.
Qed.

Section Outcome.
Context (build_client : S3Config.t -> result string unit) (build_runtime : result string unit).
Import StorageFactory.

(** The configuration of an S3 backend. *)
Record resolved (config : StorageConfig.t) (bucket : string) (ep region : option string) (c : S3Config.t) : Prop := {
  res_bucket : S3Config.bucket c = bucket;
  res_id : StorageConfig.or_set (StorageConfig.aws_access_key_id config) (StorageConfig.oss_access_key_id config) = Some (S3Config.access_key_id c);
  res_secret : StorageConfig.or_set (StorageConfig.aws_secret_access_key config) (StorageConfig.oss_access_key_secret config) =
    Some (S3Config.access_key_secret c);
  res_endpoint : S3Config.endpoint c = default "s3.amazonaws.com" (StorageConfig.or_set ep (StorageConfig.aws_endpoint_url config));
  res_region : S3Config.region c = Some (default "us-east-1" (StorageConfig.or_set region (StorageConfig.aws_region config)));
  res_prefix : S3Config.prefix c = None;
  res_internal : S3Config.use_internal_endpoint c = false }.

Lemma s3_config_Ok config bucket ep region c : s3_config config bucket ep region = Ok c <->
  resolved config bucket ep region c /\ S3Config.allow_http c = false.
Proof.
  unfold s3_config. split.
  - destruct (StorageConfig.or_set (StorageConfig.aws_access_key_id config) _) as [i|] eqn:Ei; [|done].
    destruct (StorageConfig.or_set (StorageConfig.aws_secret_access_key config) _) as [k|] eqn:Ek; [|done]. intros [= <-]. by split.
  - intros [[Hb Hi Hs He Hr Hp Hu] Ha]. rewrite Hi, Hs. cbn. rewrite <- He. destruct c; cbn in *. by subst.
Qed.

Lemma with_config_Ok c c' : with_config build_client build_runtime c = Ok c' <->
  c' = c /\ S3Config.validate_bucket_name c = Ok tt /\ build_client c = Ok tt /\ build_runtime = Ok tt.
Proof.
  unfold with_config, async_with_config. destruct (S3Config.validate_bucket_name c) as [[]|e|m]; cbn; [|by split; [|intros (_&?&_)]..].
  destruct (build_client c) as [[]|e|m]; cbn; [|by split; [|intros (_&_&?&_)]..].
  destruct build_runtime as [[]|e|m]; cbn; [|by split; [|intros (_&_&_&?)]..]. split; [by intros [= ->]|by intros (->&_)].
Qed.

(** For an S3 URL the factory makes a backend exactly when an access key with its
    secret is configured, the name of the bucket is valid and the client can be built;
    endpoint and region are those of the URL before those of the configuration before the
    defaults, and plain HTTP is allowed exactly for an endpoint that asks for it. *)
Theorem factory_s3_outcome config bucket key ep region b :
  create_from_url build_client build_runtime config (StorageUrl.S3 bucket key ep region) = Ok b <->
  exists c, b = S3Backend c /\ resolved config bucket ep region c /\
    S3Config.allow_http c = starts_with (S3Config.endpoint c) "http://" /\
    S3Config.validate_bucket_name c = Ok tt /\ build_client c = Ok tt /\ build_runtime = Ok tt.
Proof.
  cbn [create_from_url]. split.
  - destruct (s3_config config bucket ep region) as [c|e|m] eqn:Ec; [|done..]. cbn [mbind result_bind].
    apply s3_config_Ok in Ec as [Hr Ha]. destruct (starts_with (S3Config.endpoint c) "http://") eqn:Eh.
    + destruct (with_config _ _ _) as [c'|e|m] eqn:Ew; [|done..]. apply with_config_Ok in Ew as (->&Hv&Hb&Hrt). intros [= <-].
      exists (S3Config.with_allow_http true c). split_and!; try done. destruct Hr. by split.
    + destruct (with_config _ _ _) as [c'|e|m] eqn:Ew; [|done..]. apply with_config_Ok in Ew as (->&Hv&Hb&Hrt). intros [= <-].
      exists c. split_and!; try done. by rewrite Ha, Eh.
  - intros (c&->&Hr&Ha&Hv&Hb&Hrt).
    assert (s3_config config bucket ep region = Ok (S3Config.with_allow_http false c)) as ->.
    { apply s3_config_Ok. split; [|done]. destruct Hr. by split. }
    cbn [mbind result_bind]. change (S3Config.endpoint (S3Config.with_allow_http false c)) with (S3Config.endpoint c). rewrite <- Ha.
    assert ((if S3Config.allow_http c then S3Config.with_allow_http true (S3Config.with_allow_http false c)
             else S3Config.with_allow_http false c) = c) as -> by (destruct c as [? ? ? ? ? ? ? []]; done).
    assert (with_config build_client build_runtime c = Ok c) as ->; [|done]. by apply with_config_Ok.
Qed.

(** The storage made for the absolute path of a file with an extension finds the file
    under its name. *)
Theorem factory_finds_file config p l x : contains "." p = true -> path_components p = absolute (l ++ [x]) ->
  exists s, create_from_url build_client build_runtime config (StorageUrl.Local p) = Ok (LocalBackend s) /\
    LocalStorage.full_path s [Normal x] = Ok (absolute (l ++ [x])).
Proof.
  intros Hdot Hp. exists (LocalStorage.mk (absolute l)). split.
  - cbn. unfold local_root. rewrite Hdot, Hp. unfold path_parent. change (absolute (l ++ [x])) with ([RootDir] ++ (Normal <$> (l ++ [x]))).
    rewrite fmap_app. cbn [fmap list_fmap]. rewrite app_assoc, last_snoc, length_app. cbn [length].
    rewrite Nat.add_sub, take_app_length. done.
  - by apply (full_path_names (LocalStorage.mk (absolute l)) l eq_refl [x]).
Qed.

(** ** Flaws *)

(** The endpoint of the configuration file, and the one for OSS, have no effect. *)
Theorem oss_endpoint_ignored config e url :
  create_from_url build_client build_runtime (StorageConfig.with_oss_endpoint e config) url = create_from_url build_client build_runtime config url /\
  create_async_from_url build_client (StorageConfig.with_oss_endpoint e config) url = create_async_from_url build_client config url.
Proof. by destruct url. Qed.

(** The asynchronous backend is never allowed to use plain HTTP. *)
Theorem async_never_http config url c : create_async_from_url build_client config url = Ok c -> S3Config.allow_http c = false.
Proof.
  destruct url as [p|bucket key ep region]; cbn [create_async_from_url]; [done|].
  destruct (s3_config config bucket ep region) as [c'|e|m] eqn:Ec; [|done..]. apply s3_config_Ok in Ec as [_ Ha].
  cbn [mbind result_bind]. unfold async_with_config.
  destruct (S3Config.validate_bucket_name c') as [[]|e|m]; [|done..]. destruct (build_client c') as [[]|e|m]; [|done..]. by intros [= <-].
Qed.

(** A file in the current directory is accepted, and then every access is refused. *)
Theorem relative_file_unusable config : exists s, create build_client build_runtime config "recording.bag" = Ok (LocalBackend s) /\
  forall path q, LocalStorage.full_path s path <> Ok q.
Proof. exists (LocalStorage.new ""). split; [reflexivity|]. intros path q. apply current_directory_refused. Qed.

(** A directory with a dot anywhere in its path is taken for a file. *)
Example dotted_directory_misses config :
  create build_client build_runtime config "/data/v1.2/episodes" = Ok (LocalBackend (LocalStorage.new "/data/v1.2")).
Proof. reflexivity. Qed.

(** The AWS keys win over those of OSS, and a pair can be made of both. *)
Example keys_mixed :
  let config := StorageConfig.from_env {[ "OSS_ACCESS_KEY_ID" := "oss"; "OSS_ACCESS_KEY_SECRET" := "oss-secret"; "AWS_ACCESS_KEY_ID" := "aws" ]} in
  StorageConfig.get_oss_key_id config = Some "oss" /\
  exists c, s3_config config "bucket" None None = Ok c /\ S3Config.access_key_id c = "aws" /\ S3Config.access_key_secret c = "oss-secret".
Proof. split; [reflexivity|]. eexists. split; [reflexivity|]. done. Qed.
End Outcome.
