(* ===== verification/Composer.v ===== *)
(** * Concatenation of videos

    crates/roboflow-media/src/video/composer.rs.  FFmpeg is the class [Muxer]: a source
    opens as its streams and the coming results of [read_packet] (after the last one the
    end of the file is read); an output is written packet by packet.  Paths are UTF-8. *)
From stdpp Require Import pretty.
From S2P Require Import Prelude Storage Core.
Local Open Scope string_scope.
Local Open Scope Z_scope.
Local Open Scope list_scope.

(** ** Packets *)
(** [i64::saturating_add]. *)
Definition saturating_add_i64 (a b : Z) : Z := Z.max i64_min (Z.min i64_max (a + b)).
Definition AV_NOPTS_VALUE : Z := i64_min.

Record Packet := mkPacket { stream_index : Z; pts : Z; dts : Z; data : string }.
#[global] Instance Packet_eta : Settable Packet := fun p => mkPacket (stream_index p) (pts p) (dts p) (data p).
#[global] Instance Packet_eq : EqDecision Packet.
Proof. solve_decision. Defined.

(** [AVStream]: codec parameters and time base. *)
Record AVStream := mkStream { codecpar : string; time_base : Z * Z }.

(** [avcodec_parameters_alloc] and [avcodec_parameters_copy]. *)
Inductive copied := Copied (par : string) | NoMemory | CopyFailed (ret : Z).

Class Muxer (W : Type) := {
  Output : Type;
  fs_copy : string -> string -> W -> result string unit * W;
  path_exists : string -> W -> bool;
  open_input : string -> W -> result string (list AVStream * list (string + Packet)) * W;
  create_output : string -> W -> result string Output * W;
  copy_codecpar : AVStream -> W -> copied * W;
  new_stream : AVStream -> Output -> Z * Output;
  write_header : Output -> W -> result string Output * W;
  write_frame : Packet -> Output -> W -> result string Output * W;
  write_trailer : Output -> W -> result string unit * W }.

(** ** [RsmpegVideoComposer] *)
Module RsmpegVideoComposer.
Section Ops.
Context {W : Type} `{Muxer W}.

(** Computations on the outside world with the errors of the core crate. *)
Definition CM (A : Type) : Type := W -> result RoboflowError.t A * W.
#[local] Instance CM_ret : MRet CM := fun A a w => (Ok a, w).
#[local] Instance CM_bind : MBind CM := fun A B f m w =>
  match m w with (Ok a, w') => f a w' | (Err e, w') => (Err e, w') | (Panic m, w') => (Panic m, w') end.
Definition throw {A} (msg : string) : CM A := fun w => (Err (RoboflowError.other msg), w).
(** A call, with its error after a text. *)
Definition call {A} (msg : string) (op : W -> result string A * W) : CM A := fun w =>
  let '(r, w') := op w in (map_err (fun e => RoboflowError.other (msg +:+ e)) r, w').

(** [CString::new]. *)
Definition cstring (msg path : string) : CM unit :=
  if contains (String "000" "") path then throw msg else mret tt.

(** The streams of the output, and the mapping from those of the first source. *)
Fixpoint map_streams (streams : list AVStream) (mapping : list Z) (o : Output) : CM (list Z * Output) :=
  match streams with
  | [] => mret (mapping, o)
  | s :: streams' => fun w =>
      match copy_codecpar s w with
      | (NoMemory, w') => throw "failed to allocate codec parameters" w'
      | (CopyFailed ret, w') => throw ("avcodec_parameters_copy failed: error code " +:+ pretty ret) w'
      | (Copied par, w') =>
          let '(index, o') := new_stream (mkStream par (time_base s)) o in
          map_streams streams' (mapping ++ [index]) o' w'
      end
  end.

Record Offsets := mkOffsets { pts_offset : Z; dts_offset : Z; last_pts : Z; last_dts : Z }.
#[global] Instance Offsets_eta : Settable Offsets := fun r => mkOffsets (pts_offset r) (dts_offset r) (last_pts r) (last_dts r).

(** A packet of the source with its times moved and its stream mapped. *)
Definition shift (out_stream_idx : Z) (st : Offsets) (packet : Packet) : Packet * Offsets :=
  let '(packet, st) :=
    if pts packet =? AV_NOPTS_VALUE then (packet, st)
    else let p := saturating_add_i64 (pts packet) (pts_offset st) in (packet <| pts := p |>, st <| last_pts := p |>) in
  let '(packet, st) :=
    if dts packet =? AV_NOPTS_VALUE then (packet, st)
    else let d := saturating_add_i64 (dts packet) (dts_offset st) in (packet <| dts := d |>, st <| last_dts := d |>) in
  (packet <| stream_index := out_stream_idx |>, st).

(** [stream_mapping.get(stream_index as usize)]. *)
Definition mapped (mapping : list Z) (i : Z) : option Z := mapping !! Z.to_nat (as_u64 i).

(** [while let Ok(Some(packet)) = input_ctx.read_packet()]. *)
Fixpoint copy_packets (mapping : list Z) (reads : list (string + Packet)) (st : Offsets) (o : Output) : CM (Offsets * Output) :=
  match reads with
  | inr packet :: reads' =>
      match mapped mapping (stream_index packet) with
      | Some idx =>
          let '(packet, st) := shift idx st packet in
          mbind (M := CM) (copy_packets mapping reads' st) (call "failed to write frame: " (write_frame packet o))
      | None => copy_packets mapping reads' st o
      end
  | inl _ :: _ | [] => mret (st, o)
  end.

Definition next_source (st : Offsets) : Offsets :=
  st <| pts_offset := saturating_add_i64 (last_pts st) 1 |> <| dts_offset := saturating_add_i64 (last_dts st) 1 |>.

Fixpoint copy_sources (mapping : list Z) (file_idx : Z) (sources : list string) (st : Offsets) (o : Output) : CM Output :=
  match sources with
  | [] => mret o
  | source_path :: sources' =>
      cstring "source path contains null byte" source_path;;
      input ← call ("failed to open source " +:+ pretty file_idx +:+ " (" +:+ source_path +:+ "): ") (open_input source_path);
      r ← copy_packets mapping input.2 st o;
      copy_sources mapping (file_idx + 1) sources' (next_source r.1) r.2
  end.

Definition compose (sources : list string) (dest : string) : CM unit :=
  match sources with
  | [] => throw "compose requires at least one source"
  | [source] => call ("failed to copy " +:+ source +:+ ": ") (fs_copy source dest)
  | first :: _ =>
      cstring "destination path contains null byte" dest;;
      cstring "source path contains null byte" first;;
      first_input ← call "failed to open first source: " (open_input first);
      output_ctx ← call "failed to create output: " (create_output dest);
      m ← map_streams first_input.1 [] output_ctx;
      output_ctx ← call "failed to write header: " (write_header m.2);
      output_ctx ← copy_sources m.1 0 sources (mkOffsets 0 0 0 0) output_ctx;
      call "failed to write trailer: " (write_trailer output_ctx)
  end.

Fixpoint check_sources (i : Z) (sources : list string) : CM unit :=
  match sources with
  | [] => mret tt
  | source :: sources' => fun w =>
      if negb (path_exists source w) then throw ("source " +:+ pretty i +:+ " not found: " +:+ source) w
      else check_sources (i + 1) sources' w
  end.
Definition can_compose (sources : list string) : CM unit :=
  match sources with [] => throw "no sources to compose" | _ => check_sources 0 sources end.
End Ops.
End RsmpegVideoComposer.

(** ** What FFmpeg promises *)

(** The packets that [while let Ok(Some(packet))] sees. *)
Fixpoint until_error (reads : list (string + Packet)) : list Packet :=
  match reads with inr p :: reads' => p :: until_error reads' | _ => [] end.

(** What a muxer asks of a packet that is written after [prev]: decoding times increase within a
    stream, and no packet is shown before it is decoded. *)
Definition acceptable (prev : list Packet) (p : Packet) : Prop :=
  Forall (fun q => stream_index q = stream_index p -> dts q < dts p) prev /\ dts p <= pts p.

(** Every call may fail; the laws say what a success means, and that nothing fails in a [healthy] state that is
    not refused: a missing source, an output that cannot be created or whose format does not take the streams,
    a packet out of order.  A file that was opened may deliver only some of its packets, then an error. *)
Class MuxerLaws (W : Type) `{Muxer W} := {
  (** The streams and packets of the file at a path, the video at a path, what an output has got. *)
  file : W -> string -> option (list AVStream * list Packet);
  video : W -> string -> option (list Packet);
  o_path : Output -> string;
  o_streams : Output -> list AVStream;
  o_packets : Output -> list Packet;
  healthy : W -> Prop;
  creatable : W -> string -> Prop;
  muxable : string -> list AVStream -> Prop;
  (** Nothing changed but the file at [p]. *)
  kept_but (p : string) (w w' : W) : Prop :=
    (forall q, q <> p -> file w' q = file w q) /\ (healthy w -> healthy w') /\ (forall q, creatable w q -> creatable w' q);
  open_law p w :
    match open_input p w with
    | (Ok (ss, reads), w') =>
        (exists pks, file w p = Some (ss, pks) /\ until_error reads `prefix_of` pks /\ (healthy w -> until_error reads = pks)) /\
        forall q, kept_but q w w'
    | _ => healthy w -> file w p = None
    end;
  create_law p w :
    match create_output p w with
    | (Ok o, w') => o_path o = p /\ o_streams o = [] /\ o_packets o = [] /\ kept_but p w w'
    | _ => ~ (healthy w /\ creatable w p)
    end;
  copy_law s w :
    match copy_codecpar s w with
    | (Copied par, w') => par = codecpar s /\ forall q, kept_but q w w'
    | _ => ~ healthy w
    end;
  stream_law s o : exists o', new_stream s o = (Z.of_nat (length (o_streams o)), o') /\
    o_path o' = o_path o /\ o_streams o' = o_streams o ++ [s] /\ o_packets o' = o_packets o;
  header_law o w :
    match write_header o w with
    | (Ok o', w') => o_path o' = o_path o /\ o_packets o' = o_packets o /\ kept_but (o_path o) w w'
    | _ => ~ (healthy w /\ muxable (o_path o) (o_streams o))
    end;
  frame_law p o w :
    match write_frame p o w with
    | (Ok o', w') => o_path o' = o_path o /\ o_packets o' = o_packets o ++ [p] /\ kept_but (o_path o) w w'
    | _ => ~ (healthy w /\ acceptable (o_packets o) p)
    end;
  trailer_law o w :
    match write_trailer o w with
    | (Ok _, w') => video w' (o_path o) = Some (o_packets o)
    | _ => ~ healthy w
    end }.

Module C := RsmpegVideoComposer.

(** The packets of one source, and of all of them, as they are written. *)
Fixpoint shift_all (mapping : list Z) (pks : list Packet) (st : C.Offsets) : list Packet * C.Offsets :=
  match pks with
  | [] => ([], st)
  | p :: pks' =>
      match C.mapped mapping (stream_index p) with
      | Some idx =>
          let '(p', st1) := C.shift idx st p in
          let '(out, st2) := shift_all mapping pks' st1 in (p' :: out, st2)
      | None => shift_all mapping pks' st
      end
  end.
Fixpoint concatenated (mapping : list Z) (sources : list (list Packet)) (st : C.Offsets) : list Packet :=
  match sources with
  | [] => []
  | pks :: sources' => let '(out, st') := shift_all mapping pks st in out ++ concatenated mapping sources' (C.next_source st')
  end.

Definition no_nul (p : string) : Prop := contains (String "000" "") p = false.

(** [out] is accepted packet by packet after [prev]. *)
Fixpoint accepted (prev out : list Packet) : Prop :=
  match out with [] => True | p :: out' => acceptable prev p /\ accepted (prev ++ [p]) out' end.

Lemma accepted_app prev l1 l2 : accepted prev (l1 ++ l2) <-> accepted prev l1 /\ accepted (prev ++ l1) l2.
Proof.
  revert prev. induction l1 as [|p l1 IH]; intros prev; cbn; [rewrite app_nil_r; tauto|]. rewrite IH, <-app_assoc. cbn. tauto.
Qed.

Section Concatenate.
Context {W : Type} `{MuxerLaws W}.

Lemma kept_but_trans p (w1 w2 w3 : W) : kept_but p w1 w2 -> kept_but p w2 w3 -> kept_but p w1 w3.
Proof. intros (A1&A2&A3) (B1&B2&B3). split_and!; auto. intros q Hq. by rewrite B1, A1. Qed.

(** The packets of one source are written, moved and mapped; a failure is the muxer's. *)
Lemma copy_packets_all mapping reads st o w :
  let out := shift_all mapping (until_error reads) st in
  match C.copy_packets mapping reads st o w with
  | (Ok (st', o'), w') => st' = out.2 /\ o_path o' = o_path o /\ o_packets o' = o_packets o ++ out.1 /\ kept_but (o_path o) w w'
  | _ => ~ (healthy w /\ accepted (o_packets o) out.1)
  end.
Proof.
  revert st o w. induction reads as [|[e|p] reads IH]; intros st o w; cbn [C.copy_packets until_error shift_all fst snd mret C.CM_ret];
    [split_and!; [done|done|by rewrite app_nil_r|by split_and!]..|].
  destruct (C.mapped mapping (stream_index p)) as [idx|]; [|apply IH]. destruct (C.shift idx st p) as [p' st1].
  specialize (IH st1). destruct (shift_all mapping (until_error reads) st1) as [out st2]. cbn [fst snd accepted] in *.
  unfold mbind, C.CM_bind, C.call. pose proof (frame_law p' o w) as Hf.
  destruct (write_frame p' o w) as [[o1|e|m] w1]; cbn [map_err]; [|tauto..]. destruct Hf as (Hp&Hk&Hs).
  specialize (IH o1 w1). destruct (C.copy_packets mapping reads st1 o1 w1) as [[[st' o']|e|m] w2].
  - destruct IH as (->&Hp2&Hk2&Hs2). split_and!; [done|congruence|by rewrite Hk2, Hk, <-app_assoc|]. rewrite Hp in Hs2. by eapply kept_but_trans.
  - rewrite Hk in IH. intros (Hh&_&Ha). apply IH. split; [by apply Hs|done].
  - rewrite Hk in IH. intros (Hh&_&Ha). apply IH. split; [by apply Hs|done].
Qed.

(** The files at the paths hold [pkss]. *)
Definition holds_files (w : W) : list string -> list (list Packet) -> Prop :=
  Forall2 (fun p pks => exists ss, file w p = Some (ss, pks)).

Lemma holds_files_kept d w w' sources pkss : kept_but d w w' -> d ∉ sources -> holds_files w sources pkss -> holds_files w' sources pkss.
Proof.
  intros (Hk&_) Hd Hf. induction Hf as [|p pks sources pkss [ss Hp] Hr IH]; [constructor|].
  apply not_elem_of_cons in Hd as [Hne Hd]. constructor; [|by apply IH]. exists ss. by rewrite Hk.
Qed.

(** What is read of every source: all of it, or its beginning. *)
Definition read_of (w : W) (cut pkss : list (list Packet)) : Prop := Forall2 prefix cut pkss /\ (healthy w -> cut = pkss).

Lemma copy_sources_all mapping i sources pkss st o w : o_path o ∉ sources -> holds_files w sources pkss ->
  match C.copy_sources mapping i sources st o w with
  | (Ok o', w') => o_path o' = o_path o /\ kept_but (o_path o) w w' /\
      exists cut, read_of w cut pkss /\ o_packets o' = o_packets o ++ concatenated mapping cut st
  | _ => ~ (healthy w /\ Forall no_nul sources /\ accepted (o_packets o) (concatenated mapping pkss st))
  end.
Proof.
  intros Hdest Hsrc. revert i st o w Hdest Hsrc. revert pkss. induction sources as [|p sources IH]; intros pkss i st o w Hdest Hsrc;
    inversion Hsrc as [|? pks ? pkss' [ss Hss] Hrest]; subst; cbn [C.copy_sources concatenated].
  { split_and!; [done|by split_and!|]. exists []. rewrite app_nil_r. split; [split; [constructor|done]|done]. }
  apply not_elem_of_cons in Hdest as [Hpo Hdest]. unfold mbind, C.CM_bind at 1 2 3, C.cstring.
  destruct (contains (String "000" "") p) eqn:En.
  { cbn. intros (_&Hn&_). apply Forall_cons in Hn as [Hn _]. unfold no_nul in Hn. congruence. }
  cbn [mret C.CM_ret]. unfold C.call at 1. pose proof (open_law p w) as Ho.
  destruct (open_input p w) as [[[ss1 reads]|e|m] w1]; cbn [map_err fst snd]; [|intros (Hh&_); specialize (Ho Hh); congruence..].
  destruct Ho as [(pks1&Ef&Hpre&Hall) Hk1]. rewrite Hss in Ef. injection Ef as <- <-.
  pose proof (copy_packets_all mapping reads st o w1) as Hc. cbn zeta in Hc.
  destruct (C.copy_packets mapping reads st o w1) as [[[st' o2]|e|m] w2].
  2,3: intros (Hh&_&Ha); apply Hc; split; [by apply (Hk1 p)|]; rewrite (Hall Hh); destruct (shift_all mapping pks st) as [out st1];
       by apply accepted_app in Ha as [Ha _].
  destruct Hc as (->&Hp2&Hk2&Hs2). assert (kept_but (o_path o) w w2) as Hk by (eapply kept_but_trans; [apply Hk1|done]).
  assert (holds_files w2 sources pkss') as Hrest2 by (by eapply holds_files_kept).
  specialize (IH pkss' (i + 1) (C.next_source (shift_all mapping (until_error reads) st).2) o2 w2 ltac:(by rewrite Hp2) Hrest2).
  cbn [fst snd]. destruct (C.copy_sources mapping (i + 1) sources _ o2 w2) as [[o3|e|m] w3].
  2,3: intros (Hh&Hn&Ha); apply Forall_cons in Hn as [_ Hn]; apply IH; split_and!; [by apply Hk|done|]; rewrite Hk2, (Hall Hh) in *;
       destruct (shift_all mapping pks st) as [out st1]; by apply accepted_app in Ha as [_ Ha].
  destruct IH as (Hp3&Hk3&cut&[Hcut Hwhole]&Hk4). split_and!; [congruence|rewrite Hp2 in Hk3; by eapply kept_but_trans|].
  exists (until_error reads :: cut). split; [split; [by constructor|]|].
  - intros Hh. by rewrite (Hall Hh), Hwhole by (by apply Hk).
  - cbn [concatenated]. rewrite Hk4, Hk2. destruct (shift_all mapping (until_error reads) st) as [out st1]. cbn [fst snd]. by rewrite <-app_assoc.
Qed.

Lemma map_streams_all streams mapping o w :
  match C.map_streams streams mapping o w with
  | (Ok (mapping', o'), w') =>
      mapping' = mapping ++ (Z.of_nat <$> seq (length (o_streams o)) (length streams)) /\ o_path o' = o_path o /\
      o_streams o' = o_streams o ++ streams /\ o_packets o' = o_packets o /\ forall q, kept_but q w w'
  | _ => ~ healthy w
  end.
Proof.
  revert mapping o w. induction streams as [|s streams IH]; intros mapping o w; cbn [C.map_streams length seq fmap list_fmap].
  { by rewrite !app_nil_r. }
  pose proof (copy_law s w) as Hc. destruct (copy_codecpar s w) as [[par| |ret] w1]; [|done..]. destruct Hc as [-> Hk1].
  destruct (stream_law (mkStream (codecpar s) (time_base s)) o) as (o1&->&Hp1&Hn1&Hk2).
  specialize (IH (mapping ++ [Z.of_nat (length (o_streams o))]) o1 w1).
  destruct (C.map_streams streams _ o1 w1) as [[[mapping' o']|e|m] w2].
  2,3: intros Hh; apply IH; by apply (Hk1 "").
  destruct IH as (->&Hp&Hs&Hk&Hk3). rewrite Hn1, length_app, Nat.add_1_r, <-app_assoc in *. split_and!; try congruence; [done| |].
  - rewrite Hs. by destruct s.
  - intros q. eapply kept_but_trans; [apply Hk1|apply Hk3].
Qed.

(** The output has the packets of the sources one after the other; a failure is the muxer's. *)
Lemma compose_packets p1 p2 rest dest pkss ss1 pks1 w : dest ∉ p1 :: p2 :: rest ->
  file w p1 = Some (ss1, pks1) -> holds_files w (p1 :: p2 :: rest) pkss ->
  let mapping := Z.of_nat <$> seq 0 (length ss1) in
  match C.compose (p1 :: p2 :: rest) dest w with
  | (Ok _, w') => exists cut, read_of w cut pkss /\ video w' dest = Some (concatenated mapping cut (C.mkOffsets 0 0 0 0))
  | _ => ~ (healthy w /\ creatable w dest /\ muxable dest ss1 /\ Forall no_nul (dest :: p1 :: p2 :: rest) /\
            accepted [] (concatenated mapping pkss (C.mkOffsets 0 0 0 0)))
  end.
Proof.
  intros Hdest H1 Hsrc mapping. cbn [C.compose]. unfold mbind, C.CM_bind at 1 2 3 4 5 6 7, C.cstring.
  destruct (contains (String "000" "") dest) eqn:En.
  { cbn. intros (_&_&_&Hn&_). apply Forall_cons in Hn as [Hn _]. unfold no_nul in Hn. congruence. }
  cbn [mret C.CM_ret]. destruct (contains (String "000" "") p1) eqn:En1.
  { cbn. intros (_&_&_&Hn&_). apply Forall_cons in Hn as [_ Hn]. apply Forall_cons in Hn as [Hn _]. unfold no_nul in Hn. congruence. }
  cbn [mret C.CM_ret]. unfold C.call at 1. pose proof (open_law p1 w) as Ho.
  destruct (open_input p1 w) as [[[ss reads]|e|m] w1]; cbn [map_err fst snd]; [|intros (Hh&_); specialize (Ho Hh); congruence..].
  destruct Ho as [(pks&Ef&_) Hk1]. rewrite H1 in Ef. injection Ef as <- <-.
  unfold C.call at 1. pose proof (create_law dest w1) as Hc.
  destruct (create_output dest w1) as [[o2|e|m] w2]; cbn [map_err]; [|intros (Hh&Hcr&_); apply Hc; split; by apply (Hk1 dest)..].
  destruct Hc as (Hp2&Hn2&Hq2&Hk2). assert (kept_but dest w w2) as Kw2 by (eapply kept_but_trans; [apply Hk1|done]).
  pose proof (map_streams_all ss1 [] o2 w2) as Hm.
  destruct (C.map_streams ss1 [] o2 w2) as [[[mapping' o3]|e|m] w3]; cbn [fst snd]; [|intros (Hh&_); apply Hm; by apply Kw2..].
  destruct Hm as (->&Hp3&Hn3&Hq3&Hk3). rewrite Hn2 in Hn3 |- *. cbn [app length] in *. fold mapping.
  assert (kept_but dest w w3) as Kw3 by (eapply kept_but_trans; [done|apply Hk3]).
  unfold C.call at 1. pose proof (header_law o3 w3) as Hh4. rewrite Hp3, Hp2, Hn3 in Hh4.
  destruct (write_header o3 w3) as [[o4|e|m] w4]; cbn [map_err]; [|intros (Hh&_&Hmx&_); apply Hh4; split; [by apply Kw3|done]..].
  destruct Hh4 as (Hp4&Hq4&Hk4). assert (kept_but dest w w4) as Kw4 by (by eapply kept_but_trans).
  assert (holds_files w4 (p1 :: p2 :: rest) pkss) as Hsrc4 by (by eapply holds_files_kept).
  pose proof (copy_sources_all mapping 0 (p1 :: p2 :: rest) pkss (C.mkOffsets 0 0 0 0) o4 w4 ltac:(by rewrite Hp4) Hsrc4) as Hs.
  assert (o_packets o4 = []) as E0 by congruence. rewrite E0 in Hs.
  destruct (C.copy_sources mapping 0 (p1 :: p2 :: rest) _ o4 w4) as [[o5|e|m] w5].
  2,3: intros (Hh&_&_&Hn&Ha); apply Hs; apply Forall_cons in Hn as [_ Hn]; split_and!; [by apply Kw4|done..].
  destruct Hs as (Hp5&Hk5&cut&[Hcut Hwhole]&Hq5). unfold C.call. pose proof (trailer_law o5 w5) as Ht.
  destruct (write_trailer o5 w5) as [[[]|e|m] w6]; cbn [map_err];
    [|intros (Hh&_); apply Ht; apply Hk5; by apply Kw4..].
  exists cut. split; [split; [done|]; intros Hh; apply Hwhole; by apply Kw4|].
  rewrite Hp5, Hp4, Hq5 in Ht. exact Ht.
Qed.
End Concatenate.

(** ** Times *)

(** Times of sources that are moved one behind the other, from [off] on. *)
Fixpoint times (ls : list (list Z)) (off prev : Z) : list Z :=
  match ls with
  | [] => []
  | l :: ls' =>
      let out := (fun t => saturating_add_i64 t off) <$> l in
      let prev' := default prev (last out) in
      out ++ times ls' (saturating_add_i64 prev' 1) prev'
  end.
(** The sources keep their distances. *)
Definition spaced (out : list Z) (ls : list (list Z)) : Prop :=
  exists offs, length offs = length ls /\ out = mjoin (zip_with (fun o l => Z.add o <$> l) offs ls).

Definition increasing (l : list Z) : Prop := StronglySorted Z.lt l /\ Forall (fun t => 0 <= t) l.
Definition span (l : list Z) : Z := default 0 (last l) + 1.
Definition total_span (ls : list (list Z)) : Z := foldr (fun l n => span l + n) 0 ls.

Lemma sorted_last (l : list Z) t x : StronglySorted Z.lt l -> last l = Some x -> t ∈ l -> t <= x.
Proof.
  induction 1 as [|y l Hs IH Hall]; [done|]. intros Hl Ht. destruct l as [|z l].
  - cbn in Hl. injection Hl as ->. apply list_elem_of_singleton in Ht. lia.
  - change (last (y :: z :: l)) with (last (z :: l)) in Hl. apply elem_of_cons in Ht as [->|Ht]; [|by apply IH].
    rewrite Forall_forall in Hall. apply last_Some in Hl as [l' Hl]. specialize (Hall x). rewrite Hl in Hall.
    assert (y < x); [|lia]. apply Hall. apply elem_of_app. right. apply list_elem_of_here.
Qed.

Lemma span_pos l : increasing l -> 1 <= span l.
Proof.
  intros [_ Hn]. unfold span. destruct (last l) as [x|] eqn:E; cbn; [|lia]. rewrite Forall_forall in Hn.
  apply last_Some in E as [l' ->]. specialize (Hn x). assert (0 <= x); [|lia]. apply Hn. apply elem_of_app. right. apply list_elem_of_here.
Qed.

Lemma span_bound l t : increasing l -> t ∈ l -> 0 <= t < span l.
Proof.
  intros [Hs Hn] Ht. rewrite Forall_forall in Hn. split; [by apply Hn|]. unfold span.
  destruct (last l) as [x|] eqn:E; cbn; [pose proof (sorted_last l t x Hs E Ht); lia|].
  apply last_None in E. subst. by apply not_elem_of_nil in Ht.
Qed.

Lemma total_span_nonneg ls : Forall increasing ls -> 0 <= total_span ls.
Proof. induction 1 as [|l ls Hl Hls IH]; [done|]. change (total_span (l :: ls)) with (span l + total_span ls). pose proof (span_pos l Hl). lia. Qed.

(** Without overflow the moved times increase over all sources. *)
Lemma times_increase ls off prev : Forall increasing ls -> 0 <= prev <= off -> off <= prev + 1 -> off + total_span ls <= i64_max ->
  StronglySorted Z.lt (times ls off prev) /\ Forall (fun t => off <= t) (times ls off prev) /\ spaced (times ls off prev) ls.
Proof.
  intros Hls. revert off prev. induction Hls as [|l ls Hl Hls IH]; intros off prev Hp Ho Hb.
  { split; [constructor|]. split; [constructor|]. by exists []. }
  cbn [times]. cbn [total_span foldr] in Hb. fold (total_span ls) in Hb. pose proof (span_pos l Hl) as Hsp. pose proof (total_span_nonneg ls Hls) as Htn.
  assert (((fun t => saturating_add_i64 t off) <$> l) = Z.add off <$> l) as ->.
  { apply list_fmap_ext. intros i t Hi. apply list_elem_of_lookup_2 in Hi. pose proof (span_bound l t Hl Hi).
    unfold saturating_add_i64, i64_min in *. lia. }
  set (prev' := default prev (last (Z.add off <$> l))).
  assert (off <= prev' + 1 <= off + span l /\ prev' + 1 >= prev + 1 /\ forall t, t ∈ l -> off + t < prev' + 1) as (B1&B2&B3).
  { unfold prev'. rewrite fmap_last. unfold span in *. destruct (last l) as [x|] eqn:E; cbn.
    - assert (x ∈ l) as Hx by (apply last_Some in E as [l' ->]; apply elem_of_app; right; apply list_elem_of_here).
      pose proof (span_bound l x Hl Hx). split_and!; try lia. intros t Ht. pose proof (sorted_last l t x (proj1 Hl) E Ht). lia.
    - apply last_None in E. subst. cbn. split_and!; try lia. intros t Ht. by apply not_elem_of_nil in Ht. }
  assert (saturating_add_i64 prev' 1 = prev' + 1) as -> by (unfold saturating_add_i64, i64_min in *; lia).
  destruct (IH (prev' + 1) prev') as (H1&H2&(offs&Hlen&H3)); [lia..|]. split_and!.
  - apply StronglySorted_app_2; [..|done].
    + intros x y Hx Hy. apply list_elem_of_fmap in Hx as (t&->&Ht). rewrite Forall_forall in H2. specialize (H2 y Hy). specialize (B3 t Ht). lia.
    + destruct Hl as [Hs _]. clear -Hs. induction Hs as [|x l Hs IH Hall]; cbn; constructor; [done|].
      apply Forall_fmap. eapply Forall_impl; [exact Hall|]. cbn. intros. lia.
  - apply Forall_app. split; [|eapply Forall_impl; [exact H2|]; cbn; lia].
    apply Forall_fmap. apply Forall_forall. intros t Ht. cbn. pose proof (span_bound l t Hl Ht). lia.
  - exists (off :: offs). split; [cbn; lia|]. cbn. by rewrite H3.
Qed.

(** A field of the packets of every source. *)
Definition each {A} (f : Packet -> A) (pkss : list (list Packet)) : list (list A) := fmap (M := list) (fmap (M := list) f) pkss.

(** The packets of the output's [n] streams; those of other streams are left out. *)
Definition in_streams (n : nat) (p : Packet) : Prop := 0 <= stream_index p < Z.of_nat n.
#[global] Instance in_streams_dec n p : Decision (in_streams n p).
Proof. unfold in_streams. apply _. Defined.
Definition kept (n : nat) (pkss : list (list Packet)) : list (list Packet) := filter (in_streams n) <$> pkss.
(** [stream_index] is an [i32]. *)
Definition typed (p : Packet) : Prop := - 2 ^ 31 <= stream_index p < 2 ^ 31.
(** Times that are set, where no packet is shown before it is decoded. *)
Definition timed (p : Packet) : Prop := 0 <= dts p <= pts p.

Lemma mapped_spec n i : - 2 ^ 31 <= i < 2 ^ 31 -> Z.of_nat n < 2 ^ 32 ->
  C.mapped (Z.of_nat <$> seq 0 n) i = if bool_decide (0 <= i < Z.of_nat n) then Some i else None.
Proof.
  intros Hi Hn. unfold C.mapped. rewrite list_lookup_fmap. case_bool_decide as Hb.
  - rewrite as_u64_id by (unfold is_u64, u64_mod; lia). rewrite lookup_seq_lt by lia. cbn. f_equal. lia.
  - rewrite lookup_ge_None_2; [done|]. rewrite length_seq. unfold as_u64, u64_mod. destruct (decide (0 <= i)).
    + rewrite Z.mod_small by lia. lia.
    + rewrite <-(Z_mod_plus_full i 1), Z.mod_small by lia. lia.
Qed.

Section Fields.
Context (n : nat) (Hn : Z.of_nat n < 2 ^ 32).
#[local] Abbreviation mapping := (Z.of_nat <$> seq 0 n).

Lemma shift_all_kept pks st : Forall typed pks ->
  shift_all mapping pks st = shift_all mapping (filter (in_streams n) pks) st /\
  data <$> (shift_all mapping pks st).1 = data <$> filter (in_streams n) pks /\
  stream_index <$> (shift_all mapping pks st).1 = stream_index <$> filter (in_streams n) pks.
Proof.
  intros Hp. revert st. induction Hp as [|p pks Hi Hp IH]; intros st; cbn [shift_all]; [done|].
  rewrite filter_cons, mapped_spec by done. case_bool_decide as Hb; [rewrite decide_True by done|rewrite decide_False by done; apply IH].
  cbn [shift_all]. rewrite mapped_spec, bool_decide_true by done.
  unfold C.shift. destruct (pts p =? _), (dts _ =? _); cbn -[saturating_add_i64 shift_all seq];
    match goal with |- context [shift_all _ pks ?st1] => specialize (IH st1) end;
    destruct IH as (<-&IHd&IHi); destruct (shift_all _ pks _) as [out st2]; cbn [fst snd fmap list_fmap] in *; cbn -[fmap];
    by rewrite IHd, IHi.
Qed.

Lemma concatenated_kept pkss st : Forall (Forall typed) pkss ->
  concatenated mapping pkss st = concatenated mapping (kept n pkss) st /\
  data <$> concatenated mapping pkss st = mjoin (each data (kept n pkss)) /\
  stream_index <$> concatenated mapping pkss st = mjoin (each stream_index (kept n pkss)).
Proof.
  intros Hp. revert st. induction Hp as [|pks pkss Hi Hp IH]; intros st; [done|]. cbn [concatenated kept fmap list_fmap].
  destruct (shift_all_kept pks st Hi) as (<-&Hd&Hs). destruct (shift_all mapping pks st) as [out st1]. cbn [fst] in *.
  destruct (IH (C.next_source st1)) as (E&Hd2&Hs2). rewrite !fmap_app, Hd, Hs, Hd2, Hs2. split; [by rewrite E|done].
Qed.

Definition moved (st : C.Offsets) (p : Packet) : Packet :=
  p <| pts := saturating_add_i64 (pts p) (C.pts_offset st) |> <| dts := saturating_add_i64 (dts p) (C.dts_offset st) |>.

Lemma default_last {A} (a b x : A) l : default a (last (x :: l)) = default b (last (x :: l)).
Proof. revert x. induction l as [|y l IH]; intros x; [done|]. apply IH. Qed.

Definition ready (p : Packet) : Prop := in_streams n p /\ typed p /\ timed p.

Lemma shift_all_moved pks st : Forall ready pks ->
  shift_all mapping pks st =
  (moved st <$> pks, st <| C.last_pts := default (C.last_pts st) (last (pts <$> (moved st <$> pks))) |>
                        <| C.last_dts := default (C.last_dts st) (last (dts <$> (moved st <$> pks))) |>).
Proof.
  intros Hp. revert st. induction Hp as [|p pks (Hi&Ht&Hd) Hp IH]; intros st; cbn [shift_all]; [by destruct st|].
  unfold timed in Hd. rewrite mapped_spec, bool_decide_true by done. unfold C.shift, AV_NOPTS_VALUE, i64_min.
  rewrite (proj2 (Z.eqb_neq (pts p) _)) by lia. rewrite (proj2 (Z.eqb_neq (dts _) _)) by (cbn; lia). cbn -[saturating_add_i64 shift_all seq].
  rewrite IH. unfold moved. cbn -[saturating_add_i64 seq]. f_equal.
  destruct st as [po do lp ld], pks as [|q pks]; cbn -[saturating_add_i64]; [done|].
  by rewrite (default_last (saturating_add_i64 (pts p) po) lp), (default_last (saturating_add_i64 (dts p) do) ld).
Qed.

Lemma concatenated_times pkss st : Forall (Forall ready) pkss ->
  let out := concatenated mapping pkss st in
  pts <$> out = times (each pts pkss) (C.pts_offset st) (C.last_pts st) /\
  dts <$> out = times (each dts pkss) (C.dts_offset st) (C.last_dts st).
Proof.
  intros Hp out. unfold out. clear out. revert st. induction Hp as [|pks pkss Hc Hp IH]; intros st; [done|].
  cbn [concatenated each fmap list_fmap times]. rewrite shift_all_moved by done. rewrite !fmap_app.
  match goal with |- context [concatenated _ pkss ?st1] => destruct (IH st1) as (->&->) end.
  rewrite <- !list_fmap_compose. split_and!; f_equal; by apply list_fmap_ext.
Qed.

Lemma last_ordered (l : list Packet) : Forall (fun p => dts p <= pts p) l ->
  forall a b, a <= b -> default a (last (dts <$> l)) <= default b (last (pts <$> l)).
Proof. induction 1 as [|p l Hp Hl IH]; intros a b Hab; [done|]. destruct l as [|q l]; [done|]. by apply IH. Qed.

(** No packet is shown before it is decoded. *)
Lemma concatenated_ordered pkss st : Forall (Forall ready) pkss -> C.dts_offset st <= C.pts_offset st -> C.last_dts st <= C.last_pts st ->
  Forall (fun p => dts p <= pts p) (concatenated mapping pkss st).
Proof.
  intros Hp. revert st. induction Hp as [|pks pkss Hc Hp IH]; intros st Ho Hl; [constructor|].
  cbn [concatenated]. rewrite shift_all_moved by done.
  assert (Forall (fun p => dts p <= pts p) (moved st <$> pks)) as Hm.
  { apply Forall_fmap. eapply Forall_impl; [exact Hc|]. intros p (_&_&Ht). unfold timed in Ht. cbn. unfold saturating_add_i64. lia. }
  apply Forall_app. split; [done|]. pose proof (last_ordered _ Hm _ _ Hl). apply IH; cbn -[saturating_add_i64] in *; [|done].
  unfold saturating_add_i64. lia.
Qed.
End Fields.

Lemma accepted_sorted prev out : StronglySorted Z.lt (dts <$> (prev ++ out)) -> Forall (fun p => dts p <= pts p) out -> accepted prev out.
Proof.
  intros Hs Ho. revert prev Hs. induction Ho as [|p out Hp Ho IH]; intros prev Hs; cbn; [done|]. split.
  - split; [|done]. apply Forall_forall. intros q Hq _. rewrite fmap_app in Hs.
    apply (StronglySorted_app_1_elem_of Z.lt _ _ _ _ Hs); [by apply list_elem_of_fmap_2|left].
  - apply IH. by rewrite <-app_assoc.
Qed.

(** *** What holds of the files holds of what is read of them *)
Lemma prefix_sorted (l1 l2 : list Z) : l1 `prefix_of` l2 -> increasing l2 -> increasing l1 /\ span l1 <= span l2.
Proof.
  intros [k ->] Hl. assert (increasing l1) as H1.
  { destruct Hl as [Hs Hf]. apply Forall_app in Hf as [Hf _]. split; [|done]. by apply StronglySorted_app_1_l in Hs. }
  split; [done|]. unfold span at 1. destruct (last l1) as [x|] eqn:E; cbn.
  - apply last_Some in E as [l' ->]. pose proof (span_bound (( l' ++ [x]) ++ k) x Hl) as Hb.
    assert (0 <= x < span ((l' ++ [x]) ++ k)); [|lia]. apply Hb. rewrite !elem_of_app. left. right. apply list_elem_of_here.
  - by apply span_pos.
Qed.

Lemma prefixes_increasing (ls ls' : list (list Z)) : Forall2 prefix ls ls' -> Forall increasing ls' ->
  Forall increasing ls /\ total_span ls <= total_span ls'.
Proof.
  induction 1 as [|l l' ls ls' Hp Hr IH]; intros Hi; [done|]. apply Forall_cons in Hi as [Hl Hi]. destruct (IH Hi) as [? ?].
  destruct (prefix_sorted l l' Hp Hl) as [? ?]. split; [by constructor|]. unfold total_span in *. cbn [foldr]. lia.
Qed.

Lemma prefixes_kept n cut pkss : Forall2 prefix cut pkss -> Forall2 prefix (kept n cut) (kept n pkss).
Proof. induction 1 as [|l l' ls ls' [k ->] Hr IH]; cbn; constructor; [|done]. rewrite filter_app. by eexists. Qed.
Lemma prefixes_each {A} (f : Packet -> A) cut pkss : Forall2 prefix cut pkss -> Forall2 prefix (each f cut) (each f pkss).
Proof. induction 1 as [|l l' ls ls' [k ->] Hr IH]; cbn; constructor; [|done]. rewrite fmap_app. by eexists. Qed.
Lemma prefixes_Forall (P : Packet -> Prop) cut pkss : Forall2 prefix cut pkss -> Forall (Forall P) pkss -> Forall (Forall P) cut.
Proof.
  induction 1 as [|l l' ls ls' [k ->] Hr IH]; intros Hf; [constructor|]. apply Forall_cons in Hf as [Hl Hf]. apply Forall_app in Hl as [Hl _].
  constructor; auto.
Qed.
Lemma kept_ready n pkss : Forall (Forall typed) pkss -> Forall (Forall timed) (kept n pkss) -> Forall (Forall (ready n)) (kept n pkss).
Proof.
  intros Ht. induction Ht as [|l ls Hl Ht IH]; cbn; intros Hf; [constructor|]. apply Forall_cons in Hf as [Hk Hf]. constructor; [|by apply IH].
  rewrite Forall_forall in Hl, Hk. apply Forall_forall. intros p Hp. pose proof Hp as [Hi Hin]%list_elem_of_filter. split_and!; auto.
Qed.

Lemma concatenated_accepted n pkss : Z.of_nat n < 2 ^ 32 -> Forall (Forall typed) pkss -> Forall (Forall timed) (kept n pkss) ->
  Forall increasing (each dts (kept n pkss)) -> total_span (each dts (kept n pkss)) <= i64_max ->
  accepted [] (concatenated (Z.of_nat <$> seq 0 n) pkss (C.mkOffsets 0 0 0 0)).
Proof.
  intros Hn Hty Hf Hi Ht. destruct (concatenated_kept n Hn pkss (C.mkOffsets 0 0 0 0) Hty) as (->&_).
  pose proof (kept_ready _ _ Hty Hf) as Hr. apply accepted_sorted; [|by apply concatenated_ordered].
  destruct (concatenated_times _ Hn _ (C.mkOffsets 0 0 0 0) Hr) as (_&E). cbn [app]. rewrite E.
  by destruct (times_increase _ 0 0 Hi ltac:(lia) ltac:(lia) ltac:(cbn; lia)) as (?&_&_).
Qed.


(** ** A muxer in memory *)
Module MemoryMuxer.
(** Files are read as their packets, or up to a place where reading fails; [full] is a disk without space. *)
Record t := mk { files : gmap string (list AVStream * list Packet); bad : gmap string nat; full : bool; videos : gmap string (list Packet) }.
Record Out := mkOut { path : string; streams : list AVStream; packets : list Packet }.

#[global] Instance acceptable_dec prev p : Decision (acceptable prev p).
Proof. unfold acceptable. apply _. Defined.

Definition reads_of (w : t) (p : string) (pks : list Packet) : list (string + Packet) :=
  match bad w !! p with Some k => (inr <$> take k pks) ++ [inl "Invalid data"] | None => inr <$> pks end.

#[global] Instance ops : Muxer t := {|
  Output := Out;
  fs_copy a b := fun w =>
    match videos w !! a with
    | Some v => (Ok tt, mk (files w) (bad w) (full w) (<[b := v]> (videos w)))
    | None => (Err "No such file or directory (os error 2)", w)
    end;
  path_exists p := fun w => bool_decide (is_Some (files w !! p));
  open_input p := fun w => match files w !! p with Some (ss, pks) => (Ok (ss, reads_of w p pks), w) | None => (Err "No such file or directory", w) end;
  create_output p := fun w => (Ok (mkOut p [] []), w);
  copy_codecpar s := fun w => (Copied (codecpar s), w);
  new_stream s o := (Z.of_nat (length (streams o)), mkOut (path o) (streams o ++ [s]) (packets o));
  write_header o := fun w => (Ok o, w);
  write_frame p o := fun w =>
    if full w then (Err "No space left on device", w)
    else if bool_decide (acceptable (packets o) p) then (Ok (mkOut (path o) (streams o) (packets o ++ [p])), w)
    else (Err "Invalid argument", w);
  write_trailer o := fun w => (Ok tt, mk (files w) (bad w) (full w) (<[path o := packets o]> (videos w))) |}.

Lemma until_error_all pks : until_error (inr <$> pks) = pks.
Proof. induction pks as [|p pks IH]; cbn; [done|by rewrite IH]. Qed.
Lemma until_error_cut pks : until_error ((inr <$> pks) ++ [inl "Invalid data"]) = pks.
Proof. induction pks as [|p pks IH]; cbn; [done|by rewrite IH]. Qed.

#[global] Instance laws : MuxerLaws t.
Proof.
  refine {| file w p := files w !! p; video w p := videos w !! p; o_path := path; o_streams := streams; o_packets := packets;
            healthy w := bad w = ∅ /\ full w = false; creatable _ _ := True; muxable _ _ := True |}; cbn.
  - intros p w. destruct (files w !! p) as [[ss pks]|]; [|done]. split; [|by intros q]. exists pks. split; [done|]. unfold reads_of.
    destruct (bad w !! p) as [k|] eqn:E; [rewrite until_error_cut|by rewrite until_error_all].
    split; [exists (drop k pks); by rewrite take_drop|]. intros [Hb _]. by rewrite Hb, lookup_empty in E.
  - done.
  - done.
  - intros s o. by eexists.
  - done.
  - intros p o w. destruct (full w) eqn:Ef; [by intros [[_ ?] _]|]. case_bool_decide as Ha; [split_and!; try done; by intros []|by intros [_ ?]].
  - intros o w. apply lookup_insert_eq.
Defined.

Definition tick : AVStream := mkStream "h264" (1, 15360).
Definition frame (t : Z) (d : string) : Packet := mkPacket 0 t t d.
Definition world (bad : gmap string nat) (a b : list Packet) : t :=
  mk (<["a" := ([tick], a)]> (<["b" := ([tick], b)]> ∅)) bad false ∅.
Definition composed (w : t) : option (list (Z * Z * string)) :=
  let '(r, w) := C.compose ["a"; "b"] "out" w in
  match r, videos w !! "out" with Ok _, Some out => Some (map (fun p => (pts p, dts p, data p)) out) | _, _ => None end.

(** The second source begins one tick after the last packet of the first, not one frame. *)
Example joint_is_one_tick :
  composed (world ∅ [frame 0 "a0"; frame 512 "a1"] [frame 0 "b0"; frame 512 "b1"]) =
  Some [(0, 0, "a0"); (512, 512, "a1"); (513, 513, "b0"); (1025, 1025, "b1")].
Proof. vm_compute. reflexivity. Qed.

(** An error while reading a source ends it, and the composition succeeds. *)
Example read_error_loses_frames :
  composed (world {[ "a" := 1%nat ]} [frame 0 "a0"; frame 512 "a1"] [frame 0 "b0"]) = Some [(0, 0, "a0"); (1, 1, "b0")].
Proof. vm_compute. reflexivity. Qed.

(** With frames that are shown in another order than they are decoded, two get one time. *)
Example reordered_frames_collide :
  composed (world ∅ [mkPacket 0 2 0 "I"; mkPacket 0 4 1 "P"; mkPacket 0 3 2 "B"] [frame 0 "b0"]) =
  Some [(2, 0, "I"); (4, 1, "P"); (3, 2, "B"); (4, 3, "b0")].
Proof. vm_compute. reflexivity. Qed.

(** Packets of a stream that the first source does not have are left out. *)
Example other_streams_left_out :
  composed (world ∅ [frame 0 "a0"] [frame 0 "b0"; mkPacket 1 1 1 "sound"]) = Some [(0, 0, "a0"); (1, 1, "b0")].
Proof. vm_compute. reflexivity. Qed.

(** Packets that do not advance in time are refused. *)
Example repeated_time_refused : (C.compose ["a"; "b"] "out" (world ∅ [frame 0 "a0"; frame 0 "a1"] [])).1 =
  Err (RoboflowError.other "failed to write frame: Invalid argument").
Proof. vm_compute. reflexivity. Qed.

End MemoryMuxer.
