(* ===== verification/Mailbox.v ===== *)
(** * Threads with a mailbox

    A thread that is spawned with the receiving end of an unbounded channel, takes one
    command after the other and ends with a result, after which sending to it fails.  Its
    owner sends, and joins it.  The threads of [Concurrent] and [Workload] are of this
    kind; here is why their results do not depend on the interleaving. *)
From S2P Require Import Prelude.
Local Open Scope list_scope.

Section Mailbox.
(** [boot] is what the thread does before it receives, [handle] one command, [closed] what
    it does when the channel is closed and empty. *)
Context {L C R : Type} (boot : L + R) (handle : L -> C -> L + R) (closed : L -> R).

Inductive Worker := Spawned (queue : list C) | Running (l : L) (queue : list C) | Finished (r : R).

Definition send (c : C) (w : Worker) : bool * Worker :=
  match w with
  | Spawned q => (true, Spawned (q ++ [c]))
  | Running l q => (true, Running l (q ++ [c]))
  | Finished r => (false, Finished r)
  end.

Definition settle (x : L + R) (q : list C) : Worker := match x with inl l => Running l q | inr r => Finished r end.

(** A step of the thread while its owner holds the sender. *)
Inductive WorkerStep : Worker -> Worker -> Prop :=
| Step_boot q : WorkerStep (Spawned q) (settle boot q)
| Step_recv l c q : WorkerStep (Running l (c :: q)) (settle (handle l c) q).

(** A thread that is given all its commands at once. *)
Fixpoint run (l : L) (cs : list C) : L + R :=
  match cs with
  | [] => inl l
  | c :: cs' => match handle l c with inl l' => run l' cs' | inr r => inr r end
  end.
Definition run_boot (cs : list C) : L + R := match boot with inl l => run l cs | inr r => inr r end.
Definition exec (cs : list C) : R := match run_boot cs with inl l => closed l | inr r => r end.

(** What a join returns once no more commands come. *)
Definition join (w : Worker) : R :=
  match w with
  | Spawned q => exec q
  | Running l q => match run l q with inl l' => closed l' | inr r => r end
  | Finished r => r
  end.

(** The thread has been sent [cs]. *)
Definition serves (cs : list C) (w : Worker) : Prop :=
  match w with
  | Spawned q => cs = q
  | Running l q => exists p, cs = p ++ q /\ run_boot p = inl l
  | Finished r => exists p q, cs = p ++ q /\ run_boot p = inr r
  end.

Lemma run_app l p q : run l (p ++ q) = match run l p with inl l' => run l' q | inr r => inr r end.
Proof. revert l. induction p as [|c p IH]; intros l; cbn; [done|]. by destruct (handle l c). Qed.

Lemma run_boot_app p q : run_boot (p ++ q) = match run_boot p with inl l => run l q | inr r => inr r end.
Proof. unfold run_boot. destruct boot; [apply run_app|done]. Qed.

Lemma run_boot_snoc p l c : run_boot p = inl l -> run_boot (p ++ [c]) = handle l c.
Proof. intros E. rewrite run_boot_app, E. cbn. by destruct (handle l c). Qed.

Lemma serves_step cs w w' : serves cs w -> WorkerStep w w' -> serves cs w'.
Proof.
  intros Hs Hst. destruct Hst as [q|l c q]; cbn in Hs.
  - subst. unfold settle. destruct boot as [l|r] eqn:Eb; cbn; unfold run_boot; rewrite Eb; [by exists []|by exists [], q].
  - destruct Hs as (p&->&Hp). pose proof (run_boot_snoc p l c Hp) as Hc. unfold settle. destruct (handle l c) as [l'|r]; cbn.
    + exists (p ++ [c]). by rewrite <- app_assoc.
    + exists (p ++ [c]), q. by rewrite <- app_assoc.
Qed.

Lemma serves_send cs c w w' : serves cs w -> send c w = (true, w') -> serves (cs ++ [c]) w'.
Proof.
  destruct w as [q|l q|r]; cbn; [| |done].
  - by intros -> [= <-].
  - intros (p&->&Hp) [= <-]. exists p. by rewrite app_assoc.
Qed.

Lemma serves_join cs w : serves cs w -> join w = exec cs.
Proof.
  destruct w as [q|l q|r]; cbn; unfold exec.
  - by intros ->.
  - intros (p&->&Hp). by rewrite run_boot_app, Hp.
  - intros (p&q&->&Hp). by rewrite run_boot_app, Hp.
Qed.

(** A refused command changes nothing, and a thread that refused has ended. *)
Lemma send_refused cs c w w' : serves cs w -> send c w = (false, w') -> w' = w /\ exists r, w = Finished r /\ exec cs = r.
Proof.
  destruct w as [q|l q|r]; [done..|]. intros Hs [= <-]. split; [done|]. exists r. split; [done|]. by rewrite <- (serves_join _ _ Hs).
Qed.

(** Commands that come after the end are not looked at. *)
Lemma exec_ended cs cs' r : run_boot cs = inr r -> exec (cs ++ cs') = r.
Proof. intros E. unfold exec. by rewrite run_boot_app, E. Qed.

(** A thread that was told to end gets there by its own steps, whatever it does first. *)
Lemma join_reached w cs c : serves (cs ++ [c]) w -> (forall l, exists r, handle l c = inr r) ->
  rtc WorkerStep w (Finished (exec (cs ++ [c]))).
Proof.
  intros Hs Hc.
  assert (forall q l p, cs ++ [c] = p ++ q -> run_boot p = inl l -> rtc WorkerStep (Running l q) (Finished (exec (cs ++ [c])))) as Hrun.
  { induction q as [|x q IH]; intros l p E Hp.
    - rewrite app_nil_r in E. subst p. rewrite run_boot_app in Hp. destruct (run_boot cs) as [l0|]; [|done]. cbn in Hp.
      destruct (Hc l0) as [r Hr]. by rewrite Hr in Hp.
    - eapply rtc_l; [apply Step_recv|]. pose proof (run_boot_snoc p l x Hp) as Hx. unfold settle. destruct (handle l x) as [l'|r].
      + apply (IH l' (p ++ [x])); [by rewrite <- app_assoc|done].
      + rewrite E. change (x :: q) with ([x] ++ q). rewrite app_assoc, (exec_ended _ _ _ Hx). apply rtc_refl. }
  destruct w as [q|l q|r]; cbn in Hs.
  - subst q. eapply rtc_l; [apply Step_boot|]. unfold settle. destruct boot as [l|r] eqn:Eb.
    + apply (Hrun _ l []); [done|]. unfold run_boot. by rewrite Eb.
    + assert (run_boot [] = inr r) as Hr by (unfold run_boot; by rewrite Eb). rewrite <- (app_nil_l (cs ++ [c])), (exec_ended _ _ _ Hr). apply rtc_refl.
  - destruct Hs as (p&E&Hp). by apply (Hrun q l p).
  - destruct Hs as (p&q&->&Hp). rewrite (exec_ended _ _ _ Hp). apply rtc_refl.
Qed.

(** So does one that had ended before it was told to. *)
Lemma send_last cs c w : serves cs w ->
  join (send c w).2 = exec (cs ++ [c]) /\
  ((forall l, exists r, handle l c = inr r) -> rtc WorkerStep (send c w).2 (Finished (exec (cs ++ [c])))).
Proof.
  intros Hs. destruct (send c w) as [[] w'] eqn:Es; cbn.
  - assert (serves (cs ++ [c]) w') as Hs' by by eapply serves_send. split; [by apply serves_join|by apply join_reached].
  - destruct (send_refused _ _ _ _ Hs Es) as [-> (r&->&_)]. cbn. destruct Hs as (p&q&->&Hp).
    rewrite <- app_assoc, (exec_ended _ _ _ Hp). by split; [|intros _; apply rtc_refl].
Qed.
End Mailbox.
Arguments Worker : clear implicits.
Arguments Spawned {L C R} queue.
Arguments Running {L C R} l queue.
Arguments Finished {L C R} r.
