(* ===== verification/Concurrent.v ===== *)
(** * Encoding of several cameras at once

    [ConcurrentVideoEncoder] of crates/roboflow-media/src/video/concurrent.rs: an owner and
    a thread per camera.  A thread works on its own encoder and file, so that what it does
    between two commands is a function; the channel and the interleaving are those of
    [Mailbox].  [VideoEncoder] and the image decoder are parameters, and so are the
    outcomes of creating a directory and of spawning a thread. *)
From S2P Require Import Prelude Storage FileSystem Core Image VideoFrame Mailbox.
Local Open Scope string_scope.
Local Open Scope Z_scope.
Local Open Scope list_scope.

(** [VideoEncoder], with its configuration. *)
Class VideoEncoder (E : Type) := {
  VideoEncoderConfig : Type;
  encoder_new : VideoEncoderConfig -> string -> result RoboflowError.t E;
  encode_frame : list byte -> Z -> Z -> E -> result RoboflowError.t unit * E;
  encoder_finalize : E -> result RoboflowError.t Z }.

(** [usize] counters. *)
Abbreviation incr n := (u64_add n 1).

Module ConcurrentEncoderResult.
Record t := mk { camera : string; output_path : string; frames_encoded : Z; frames_skipped : Z }.
End ConcurrentEncoderResult.

Module EncodeCommand.
Inductive t := Frame (image : ImageData.t) | Flush | Abort.
End EncodeCommand.

Module ConcurrentVideoEncoder.
Section Ops.
Context (decode : ImageData.t -> option (Z * Z * list byte)) {E : Type} `{VideoEncoder E}.
Abbreviation ThreadResult := (result RoboflowError.t ConcurrentEncoderResult.t).

(** ** The thread of a camera *)
Record Local := mkLocal { frames_encoded : Z; frames_skipped : Z; width : Z; height : Z; encoder : option E }.
#[global] Instance Local_eta : Settable Local := fun l => mkLocal (frames_encoded l) (frames_skipped l) (width l) (height l) (encoder l).
Definition start : Local + ThreadResult := inl (mkLocal 0 0 0 0 None).

Definition skip (l : Local) : Local + ThreadResult := inl (l <| frames_skipped := incr (frames_skipped l) |>).

(** The encoder is made for the first frame. *)
Definition initialize (config : VideoEncoderConfig) (output_path : string) (w h : Z) (l : Local) : result RoboflowError.t Local :=
  if width l =? 0 then
    enc ← encoder_new config output_path;
    Ok (l <| width := w |> <| height := h |> <| encoder := Some enc |>)
  else Ok l.

Definition encode (rgb_data : list byte) (w h : Z) (l : Local) : Local + ThreadResult :=
  match encoder l with
  | Some enc =>
      match encode_frame rgb_data w h enc with
      | (Ok _, enc') => inl (l <| frames_encoded := incr (frames_encoded l) |> <| encoder := Some enc' |>)
      | (Err _, enc') => inl (l <| frames_skipped := incr (frames_skipped l) |> <| encoder := Some enc' |>)
      | (Panic m, _) => inr (Panic m)
      end
  | None => inl l
  end.

(** The end of the thread, after [Flush] or when the channel is closed. *)
Definition finish (camera output_path : string) (l : Local) : ThreadResult :=
  _ ← match encoder l with Some enc => encoder_finalize enc | None => Ok 0 end;
  Ok (ConcurrentEncoderResult.mk camera output_path (frames_encoded l) (frames_skipped l)).

Definition handle (config : VideoEncoderConfig) (camera output_path : string) (l : Local) (cmd : EncodeCommand.t) : Local + ThreadResult :=
  match cmd with
  | EncodeCommand.Frame image =>
      if negb (ImageData.is_encoded image) && ((ImageData.width image =? 0) || (ImageData.height image =? 0)) then skip l
      else
        match decode image with
        | None => skip l
        | Some (decoded_w, decoded_h, rgb_data) =>
            match initialize config output_path decoded_w decoded_h l with
            | Err e => inr (Err e)
            | Panic m => inr (Panic m)
            | Ok l =>
                if negb (decoded_w =? width l) || negb (decoded_h =? height l) then skip l
                else encode rgb_data decoded_w decoded_h l
            end
        end
  | EncodeCommand.Flush => inr (finish camera output_path l)
  | EncodeCommand.Abort => inr (Err (RoboflowError.other ("Camera " +:+ camera +:+ " encoding aborted")))
  end.

(** ** The owner *)
Abbreviation Thread := (Worker Local EncodeCommand.t ThreadResult).
Record t := mk { threads : gmap string Thread; camera_paths : gmap string string; video_config : VideoEncoderConfig; finalized : bool }.
#[global] Instance t_eta : Settable t := fun s => mk (threads s) (camera_paths s) (video_config s) (finalized s).

Definition new (config : VideoEncoderConfig) : t := mk ∅ ∅ config false.

Definition add_camera (mkdir spawn : result string unit) (camera output_path : string) (s : t) : result RoboflowError.t unit * t :=
  if finalized s then (Err (RoboflowError.other "Cannot add camera to finalized encoder"), s)
  else if bool_decide (is_Some (threads s !! camera)) then
    (Err (RoboflowError.other ("Camera '" +:+ camera +:+ "' already registered")), s)
  else
    let made :=
      match path_parent (path_components output_path) with
      | Some parent =>
          map_err (fun e => RoboflowError.other ("Failed to create directory '" +:+ display parent +:+ "': " +:+ e)) mkdir
      | None => Ok tt
      end in
    match (_ ← made; map_err (fun e => RoboflowError.other ("Failed to spawn encoder thread: " +:+ e)) spawn) with
    | Ok _ => (Ok tt, s <| threads := <[camera := Spawned []]> (threads s) |> <| camera_paths := <[camera := output_path]> (camera_paths s) |>)
    | Err e => (Err e, s)
    | Panic m => (Panic m, s)
    end.

Definition add_frame (camera : string) (image : ImageData.t) (s : t) : result RoboflowError.t unit * t :=
  if finalized s then (Err (RoboflowError.other "Cannot add frame to finalized encoder"), s)
  else
    match threads s !! camera with
    | None => (Err (RoboflowError.other ("Camera '" +:+ camera +:+ "' not registered. Call add_camera() first.")), s)
    | Some th =>
        match send (EncodeCommand.Frame image) th with
        | (true, th') => (Ok tt, s <| threads := <[camera := th']> (threads s) |>)
        | (false, _) => (Err (RoboflowError.other "Failed to send frame to encoder: sending on a disconnected channel"), s)
        end
    end.

(** The end of a camera's thread, told to flush, as it is reported. *)
Definition collect (s : t) (camera : string) (th : Thread) : ConcurrentEncoderResult.t :=
  let path := default "" (camera_paths s !! camera) in
  match join start (handle (video_config s) camera path) (finish camera path) (send EncodeCommand.Flush th).2 with
  | Ok r => r
  | Err _ | Panic _ => ConcurrentEncoderResult.mk camera path 0 0
  end.
(** [drain] iterates in an order of the hash map. *)
Definition finalize (order : list (string * Thread) -> list (string * Thread)) (s : t)
    : result RoboflowError.t (list ConcurrentEncoderResult.t) :=
  Ok ((fun ct => collect s ct.1 ct.2) <$> order (map_to_list (threads s))).

Definition abort (s : t) : t :=
  s <| threads := (fun th => (send EncodeCommand.Abort th).2) <$> threads s |> <| finalized := true |>.

Definition cameras (s : t) : list string := (map_to_list (threads s)).*1.
Definition is_finalized (s : t) : bool := finalized s.

(** ** Runs

    Calls of the owner and steps of the threads in any order; the log has the frames that
    [add_frame] accepted. *)
Inductive Runs (s0 : t) : list (string * ImageData.t) -> t -> Prop :=
| Runs_start : Runs s0 [] s0
| Runs_camera log s mkdir spawn camera path s' : Runs s0 log s -> add_camera mkdir spawn camera path s = (Ok tt, s') -> Runs s0 log s'
| Runs_frame log s camera image s' : Runs s0 log s -> add_frame camera image s = (Ok tt, s') -> Runs s0 (log ++ [(camera, image)]) s'
| Runs_thread log s camera th th' : Runs s0 log s -> threads s !! camera = Some th ->
    WorkerStep start (handle (video_config s) camera (default "" (camera_paths s !! camera))) th th' ->
    Runs s0 log (s <| threads := <[camera := th']> (threads s) |>).
End Ops.
End ConcurrentVideoEncoder.

(** ** Properties *)
Import ConcurrentVideoEncoder.

(** The frames accepted for a camera. *)
Definition frames_of {A} (camera : string) (log : list (string * A)) : list A :=
  (filter (fun ci => ci.1 = camera) log).*2.

Lemma frames_of_snoc {A} camera (log : list (string * A)) c i : frames_of camera (log ++ [(c, i)]) = frames_of camera log ++ (if decide (c = camera) then [i] else []).
Proof. unfold frames_of. rewrite filter_app, fmap_app. f_equal. rewrite filter_cons, filter_nil. cbn. by destruct (decide (c = camera)). Qed.

Section Laws.
Context (decode : ImageData.t -> option (Z * Z * list byte)) {E : Type} `{VideoEncoder E}.

(** A camera encoded alone: all its frames, then the end. *)
Definition commands (frames : list ImageData.t) : list EncodeCommand.t := (EncodeCommand.Frame <$> frames) ++ [EncodeCommand.Flush].
Definition alone (config : VideoEncoderConfig) (camera path : string) (frames : list ImageData.t) : result RoboflowError.t ConcurrentEncoderResult.t :=
  exec start (handle decode config camera path) (finish camera path) (commands frames).
Definition reported (camera path : string) (r : result RoboflowError.t ConcurrentEncoderResult.t) : ConcurrentEncoderResult.t :=
  match r with Ok r => r | _ => ConcurrentEncoderResult.mk camera path 0 0 end.

(** Every camera has its path, and its thread was sent the frames accepted for it. *)
Record running (config : VideoEncoderConfig) (log : list (string * ImageData.t)) (s : t) : Prop := {
  run_config : video_config s = config;
  run_open : finalized s = false;
  run_cameras camera : is_Some (threads s !! camera) <-> is_Some (camera_paths s !! camera);
  run_unknown camera : threads s !! camera = None -> frames_of camera log = [];
  run_serves camera th path : threads s !! camera = Some th -> camera_paths s !! camera = Some path ->
    serves start (handle decode config camera path) (EncodeCommand.Frame <$> frames_of camera log) th }.

(** A thread that took a step. *)
Lemma running_update config log log' camera th th' path s : running config log s ->
  threads s !! camera = Some th -> camera_paths s !! camera = Some path ->
  (forall c, c <> camera -> frames_of c log' = frames_of c log) ->
  serves start (handle decode config camera path) (EncodeCommand.Frame <$> frames_of camera log') th' ->
  running config log' (s <| threads := <[camera := th']> (threads s) |>).
Proof.
  intros [Hc Ho Hk Hu Hs] Hth Hp Hother Hnew. split; cbn; try done.
  - intros c. rewrite <- Hk. destruct (decide (c = camera)) as [->|Hne]; [rewrite lookup_insert_eq; by split; [rewrite Hth|]|by rewrite lookup_insert_ne].
  - intros c. destruct (decide (c = camera)) as [->|Hne]; [by rewrite lookup_insert_eq|]. rewrite lookup_insert_ne, Hother by done. apply Hu.
  - intros c x p. destruct (decide (c = camera)) as [->|Hne].
    + rewrite lookup_insert_eq. intros [= <-] Hp'. by assert (p = path) as -> by congruence.
    + rewrite lookup_insert_ne, Hother by done. apply Hs.
Qed.

Lemma runs_running config log s : Runs decode (new config) log s -> running config log s.
Proof.
  induction 1 as [|log s mkdir spawn camera path s' _ IH Hadd|log s camera image s' _ IH Hadd|log s camera th th' _ IH Hth Hst].
  - split; cbn; try done. intros camera. rewrite !lookup_empty. split; intros [? ?]; done.
  - unfold add_camera in Hadd. rewrite (run_open _ _ _ IH) in Hadd. destruct (bool_decide_reflect (is_Some (threads s !! camera))) as [|Hno]; [done|].
    destruct (mbind _ _) as [[]|e|m]; try done. injection Hadd as <-. apply eq_None_not_Some in Hno. destruct IH as [Hc Ho Hk Hu Hs].
    split; cbn; try done.
    + intros c. destruct (decide (c = camera)) as [->|Hne]; [rewrite !lookup_insert_eq; by split|]. by rewrite !lookup_insert_ne.
    + intros c. destruct (decide (c = camera)) as [->|Hne]; [by rewrite lookup_insert_eq|]. rewrite lookup_insert_ne by done. apply Hu.
    + intros c x p. destruct (decide (c = camera)) as [->|Hne].
      * rewrite !lookup_insert_eq. intros [= <-] [= <-]. cbn. by rewrite (Hu camera Hno).
      * rewrite !lookup_insert_ne by done. apply Hs.
  - unfold add_frame in Hadd. rewrite (run_open _ _ _ IH) in Hadd. destruct (threads s !! camera) as [th|] eqn:Eth; [|done].
    destruct (send _ th) as [[] th'] eqn:Es; [|done]. injection Hadd as <-.
    destruct (proj1 (run_cameras _ _ _ IH camera)) as [path Hp]; [by exists th|].
    eapply (running_update config log); try done.
    + intros c Hne. rewrite frames_of_snoc, decide_False by done. apply app_nil_r.
    + rewrite frames_of_snoc, decide_True, fmap_app by done. eapply serves_send; [|exact Es]. by apply (run_serves _ _ _ IH).
  - destruct (proj1 (run_cameras _ _ _ IH camera)) as [path Hp]; [by exists th|]. rewrite Hp, (run_config _ _ _ IH) in Hst.
    eapply (running_update config log); try done. eapply serves_step; [|exact Hst]. by apply (run_serves _ _ _ IH).
Qed.

(** ** Accounting *)

(** An encoder is there as soon as there are dimensions. *)
Definition local_ok (n : Z) (l : @Local E) : Prop :=
  as_u64 (frames_encoded l + frames_skipped l) = as_u64 n /\ (width l <> 0 -> is_Some (encoder l)).

Lemma as_u64_mod n : as_u64 (as_u64 n) = as_u64 n.
Proof. apply as_u64_id, as_u64_range. Qed.

Lemma count_left a b n : as_u64 (a + b) = as_u64 n -> as_u64 (incr a + b) = as_u64 (n + 1).
Proof.
  unfold u64_add, as_u64. intros Hn. rewrite Zplus_mod_idemp_l. replace (a + 1 + b) with (a + b + 1) by lia.
  by rewrite <- Zplus_mod_idemp_l, Hn, Zplus_mod_idemp_l.
Qed.
Lemma count_right a b n : as_u64 (a + b) = as_u64 n -> as_u64 (a + incr b) = as_u64 (n + 1).
Proof. rewrite !(Z.add_comm a). apply count_left. Qed.

Lemma skip_ok n l : local_ok n l -> match skip l with inl l' => local_ok (n + 1) l' | inr _ => False end.
Proof. intros [Hn Hw]. split; [by apply count_right|done]. Qed.

Lemma handle_frame_ok n config camera path l image : local_ok n l ->
  match handle decode config camera path l (EncodeCommand.Frame image) with
  | inl l' => local_ok (n + 1) l'
  | inr r => exists x, r = Err x \/ exists m, r = Panic m
  end.
Proof.
  intros Hl. cbn [handle]. destruct (_ && _); [by apply skip_ok|]. destruct (decode image) as [[[w h] rgb]|]; [|by apply skip_ok].
  assert (match initialize config path w h l with Ok l' => local_ok n l' /\ (w = width l' -> is_Some (encoder l')) | _ => True end) as Hi.
  { unfold initialize. destruct (Z.eqb_spec (width l) 0) as [|Hw0].
    - destruct (encoder_new config path); cbn; [|done..]. destruct Hl as [Hn _]. by split; [split|].
    - split; [done|]. intros _. by apply Hl. }
  destruct (initialize config path w h l) as [l1|e|m]; [|by exists e; left|exists (RoboflowError.Other ""); right; by exists m].
  destruct Hi as [Hl1 He1]. destruct (Z.eqb_spec w (width l1)) as [Hw|]; cbn [negb orb]; [|by apply skip_ok].
  destruct (h =? height l1); cbn [negb]; [|by apply skip_ok].
  unfold encode. destruct (He1 Hw) as [enc ->]. destruct Hl1 as [Hn1 _]. destruct (encode_frame rgb w h enc) as [[[]|e|m] enc'].
  - split; [by apply count_left|done].
  - split; [by apply count_right|done].
  - exists (RoboflowError.Other ""). right. by exists m.
Qed.

Lemma alone_accounts config camera path frames r : alone config camera path frames = Ok r ->
  ConcurrentEncoderResult.camera r = camera /\ ConcurrentEncoderResult.output_path r = path /\
  as_u64 (ConcurrentEncoderResult.frames_encoded r + ConcurrentEncoderResult.frames_skipped r) = as_u64 (Z.of_nat (length frames)).
Proof.
  assert (forall frames n l, local_ok n l -> match run (handle decode config camera path) l (EncodeCommand.Frame <$> frames) with
    | inl l' => local_ok (n + Z.of_nat (length frames)) l' | inr r => exists x, r = Err x \/ exists m, r = Panic m end) as Hrun.
  { clear. induction frames as [|i frames IH]; intros n l Hl; cbn [fmap list_fmap run length]; [by rewrite Z.add_0_r|].
    pose proof (handle_frame_ok n config camera path l i Hl) as Hh. destruct (handle _ _ _ _ l _) as [l'|r]; [|done].
    specialize (IH (n + 1) l' Hh). by replace (n + Z.of_nat (S (length frames))) with (n + 1 + Z.of_nat (length frames)) by lia. }
  unfold alone, exec, commands, run_boot, start. rewrite run_app.
  specialize (Hrun frames 0 (mkLocal 0 0 0 0 None)). destruct (run _ _ _) as [l'|r'].
  - destruct Hrun as [Hn _]; [by split|]. cbn [run handle]. unfold finish. destruct (match encoder l' with Some _ => _ | None => _ end); try done.
    intros [= <-]. by split_and!.
  - intros ->. destruct Hrun as (x&[?|[m ?]]); [by split|done..].
Qed.

(** Whatever the interleaving of the owner with the threads of the cameras, the encoder
    reports for every camera what encoding its accepted frames alone gives; every thread
    comes to its end once it is told to flush, and a camera that did not fail accounts for
    every frame as encoded or skipped. *)
Theorem concurrent_is_sequential order config log s : (forall l, order l ≡ₚ l) -> Runs decode (new config) log s ->
  exists rs, finalize decode order s = Ok rs /\
    rs ≡ₚ (fun cp => reported cp.1 cp.2 (alone config cp.1 cp.2 (frames_of cp.1 log))) <$> map_to_list (camera_paths s) /\
    (forall camera th path, threads s !! camera = Some th -> camera_paths s !! camera = Some path ->
      rtc (WorkerStep start (handle decode config camera path)) (send EncodeCommand.Flush th).2 (Finished (alone config camera path (frames_of camera log)))) /\
    (forall camera path r, alone config camera path (frames_of camera log) = Ok r ->
      as_u64 (ConcurrentEncoderResult.frames_encoded r + ConcurrentEncoderResult.frames_skipped r) = as_u64 (Z.of_nat (length (frames_of camera log)))).
Proof.
  intros Hord Hruns. apply runs_running in Hruns as [Hc Ho Hk Hu Hs].
  assert (forall camera th path, threads s !! camera = Some th -> camera_paths s !! camera = Some path ->
    join start (handle decode config camera path) (finish camera path) (send EncodeCommand.Flush th).2 = alone config camera path (frames_of camera log) /\
    rtc (WorkerStep start (handle decode config camera path)) (send EncodeCommand.Flush th).2 (Finished (alone config camera path (frames_of camera log)))) as Hflush.
  { intros camera th path Hth Hp. destruct (send_last _ _ (finish camera path) _ EncodeCommand.Flush _ (Hs camera th path Hth Hp)) as [Hj Hr].
    split; [exact Hj|]. apply Hr. intros l. by eexists. }
  eexists. split; [done|]. split; [|split].
  - rewrite Hord.
    assert (map_to_list (camera_paths s) ≡ₚ (fun ct => (ct.1, default "" (camera_paths s !! ct.1))) <$> map_to_list (threads s)) as ->.
    { apply NoDup_Permutation.
      - apply NoDup_map_to_list.
      - apply NoDup_fmap_2_strong; [|apply NoDup_map_to_list]. intros [c1 t1] [c2 t2] H1 H2 [= <- _].
        apply elem_of_map_to_list in H1, H2. congruence.
      - intros [c p]. rewrite elem_of_map_to_list, list_elem_of_fmap. split.
        + intros Hp. destruct (proj2 (Hk c)) as [th Hth]; [by exists p|]. exists (c, th). cbn. rewrite Hp. split; [done|by apply elem_of_map_to_list].
        + intros ([c' th]&[= -> ->]&Hth). apply elem_of_map_to_list in Hth. destruct (proj1 (Hk c')) as [p Hp]; [by exists th|]. cbn. by rewrite Hp. }
    rewrite <- list_fmap_compose. match goal with |- ?a ≡ₚ ?b => enough (a = b) as -> by done end. apply list_fmap_ext. intros i [camera th] Hi. cbn.
    apply list_elem_of_lookup_2, elem_of_map_to_list in Hi. destruct (proj1 (Hk camera)) as [path Hp]; [by exists th|]. rewrite Hp. cbn.
    unfold collect, reported. rewrite Hp, Hc. cbn. by rewrite (proj1 (Hflush camera th path Hi Hp)).
  - intros camera th path Hth Hp. by apply Hflush.
  - intros camera path r Hr. by apply alone_accounts in Hr as (_&_&?).
Qed.
End Laws.

(** ** Examples *)
Module ConcurrentExamples.
(** An encoder that keeps what it was given; the path "broken" cannot be opened. *)
#[global] Instance sim_encoder : VideoEncoder (list (list byte)) := {|
  VideoEncoderConfig := unit;
  encoder_new _ path := if String.eqb path "broken/v.mp4" then Err (RoboflowError.encode "VideoEncoder" "no device") else Ok [];
  encode_frame rgb w h e := (Ok tt, e ++ [rgb]);
  encoder_finalize e := Ok (Z.of_nat (length e)) |}.
Definition sim_decode (i : ImageData.t) : option (Z * Z * list byte) := Some (ImageData.width i, ImageData.height i, ImageData.data i).
Definition small (b : Z) : ImageData.t := ImageData.new 1 1 [b; b; b].
Definition wide (b : Z) : ImageData.t := ImageData.new 2 1 [b; b; b; b; b; b].

Definition with_cameras : t :=
  (add_camera (Ok tt) (Ok tt) "right" "broken/v.mp4" (add_camera (Ok tt) (Ok tt) "left" "out/v.mp4" (new (E := list (list byte)) tt)).2).2.
(** The second frame of the left camera has another size; the thread of the right camera
    runs only after its frame was accepted. *)
Definition log : list (string * ImageData.t) := [("left", small 1); ("right", small 2); ("left", wide 3)].
Definition fed : t := foldl (fun s ci => (add_frame ci.1 ci.2 s).2) with_cameras log.

Lemma fed_runs : Runs sim_decode (new (E := list (list byte)) tt) log fed.
Proof.
  assert (Runs sim_decode (new (E := list (list byte)) tt) [] with_cameras) as R0.
  { eapply (Runs_camera _ _ _ _ (Ok tt) (Ok tt) "right" "broken/v.mp4").
    - eapply (Runs_camera _ _ _ _ (Ok tt) (Ok tt) "left" "out/v.mp4"); [apply Runs_start|reflexivity].
    - reflexivity. }
  eapply (Runs_frame _ _ [("left", small 1); ("right", small 2)] _ "left" (wide 3)).
  - eapply (Runs_frame _ _ [("left", small 1)] _ "right" (small 2)).
    + eapply (Runs_frame _ _ [] _ "left" (small 1)); [exact R0|reflexivity].
    + reflexivity.
  - reflexivity.
Qed.

Lemma concurrent_is_sequential_witness : exists rs, finalize sim_decode id fed = Ok rs /\
  ConcurrentEncoderResult.mk "left" "out/v.mp4" 1 1 ∈ rs.
Proof.
  destruct (concurrent_is_sequential sim_decode (H := sim_encoder) id tt log fed (fun l => reflexivity l) fed_runs) as (rs&Hrs&Hperm&_).
  exists rs. split; [exact Hrs|]. rewrite Hperm. apply list_elem_of_fmap. exists ("left", "out/v.mp4"). split; [vm_compute; reflexivity|].
  apply elem_of_map_to_list. reflexivity.
Defined.

(** A camera whose encoder could not be opened is reported as a success without frames. *)
Example failed_camera_reported_empty :
  alone (H := sim_encoder) sim_decode tt "right" "broken/v.mp4" (frames_of "right" log) = Err (RoboflowError.encode "VideoEncoder" "no device") /\
  match finalize sim_decode id fed with Ok rs => ConcurrentEncoderResult.mk "right" "broken/v.mp4" 0 0 ∈ rs | _ => False end.
Proof.
  split; [vm_compute; reflexivity|]. unfold finalize. apply list_elem_of_fmap.
  exists ("right", Spawned [EncodeCommand.Frame (small 2)]). split; [vm_compute; reflexivity|]. apply elem_of_map_to_list. reflexivity.
Qed.
End ConcurrentExamples.
