(* ===== verification/Workload.v ===== *)
(** * Encoding workloads

    [EncodingWorkload] of crates/roboflow-media/src/video/workload/ (mod.rs, stream.rs,
    strategy.rs): streams with an encoding strategy each, a thread per stream.  As in
    [Concurrent], a thread is one of [Mailbox] and works on an encoder of its own; the
    standard and the fragment encoder are classes. *)
From Corelib Require Import SpecFloat.
From stdpp Require Import pretty.
From S2P Require Import Prelude Floats Storage Core Image Mailbox Concurrent.
Local Open Scope string_scope.
Local Open Scope Z_scope.
Local Open Scope list_scope.

(** ** strategy.rs *)
Module FragmentTriggers.
Record t := mk { frame_count : option Z; memory_bytes : option Z; duration_secs : option f64 }.
#[global] Instance t_eta : Settable t := fun x => mk (frame_count x) (memory_bytes x) (duration_secs x).
Definition new : t := mk None None None.
Definition by_frame_count (frames : Z) : t := mk (Some frames) None None.
Definition by_memory_bytes (bytes : Z) : t := mk None (Some bytes) None.
Definition by_duration_secs (secs : f64) : t := mk None None (Some secs).
Definition has_triggers (x : t) : bool :=
  bool_decide (is_Some (frame_count x)) || bool_decide (is_Some (memory_bytes x)) || bool_decide (is_Some (duration_secs x)).
Definition with_frame_count (frames : Z) (x : t) : t := x <| frame_count := Some frames |>.
Definition with_memory_bytes (bytes : Z) (x : t) : t := x <| memory_bytes := Some bytes |>.
Definition with_duration_secs (secs : f64) (x : t) : t := x <| duration_secs := Some secs |>.
End FragmentTriggers.

Module EncodingStrategy.
Inductive t := Standard | Fragment (triggers : FragmentTriggers.t) | Streaming (chunk_size : Z).
Definition default : t := Standard.
Definition standard : t := Standard.
Definition fragment_by_frames (frames : Z) : t := Fragment (FragmentTriggers.by_frame_count frames).
Definition fragment_by_memory (bytes : Z) : t := Fragment (FragmentTriggers.by_memory_bytes bytes).
Definition fragment_by_duration (secs : f64) : t := Fragment (FragmentTriggers.by_duration_secs secs).
Definition fragment (triggers : FragmentTriggers.t) : t := Fragment triggers.
Definition streaming (chunk_size : Z) : t := Streaming chunk_size.
Definition is_bounded_memory (s : t) : bool := match s with Fragment _ => true | _ => false end.
Definition is_streaming (s : t) : bool := match s with Streaming _ => true | _ => false end.
End EncodingStrategy.

(** ** stream.rs; a [StreamId] is its text *)
Module StreamOutput.
Inductive t := File (path : string) | Channel (chunk_size : Z).
Definition is_file (o : t) : bool := match o with File _ => true | _ => false end.
Definition path (o : t) : option string := match o with File p => Some p | _ => None end.
End StreamOutput.

Module StreamResult.
Record t := mk {
  id : string; output_path : option string; frames_encoded : Z; frames_skipped : Z; bytes_written : Z; fragments : Z;
  succeeded : bool; error : option string }.
Definition success (id : string) (output_path : option string) (frames_encoded frames_skipped bytes_written fragments : Z) : t :=
  mk id output_path frames_encoded frames_skipped bytes_written fragments true None.
Definition failure (id error : string) : t := mk id None 0 0 0 0 false (Some error).
Definition is_success (r : t) : bool := succeeded r.
Definition has_skipped_frames (r : t) : bool := 0 <? frames_skipped r.
End StreamResult.

Module FrameData.
Record t := mk { rgb_data : list byte; width : Z; height : Z }.
Definition expected_size (f : t) : Z := usize_mul (usize_mul (width f) (height f)) 3.
Definition validate (f : t) : result RoboflowError.t unit :=
  if Z.of_nat (length (rgb_data f)) =? expected_size f then Ok tt
  else Err (RoboflowError.encode "FrameData"
    ("RGB data size mismatch: got " +:+ pretty (Z.of_nat (length (rgb_data f))) +:+ " bytes, expected " +:+ pretty (expected_size f) +:+
     " bytes for " +:+ pretty (width f) +:+ "x" +:+ pretty (height f))).
End FrameData.

Module EncoderCommand.
Inductive t := Frame (frame : FrameData.t) | Finalize.
End EncoderCommand.

(** [FragmentEncoder] with a single output file: what [finalize] returns are the path, the
    bytes written and the number of fragments. *)
Class FragmentEncoding (F C : Type) := {
  fragment_new : C -> string -> FragmentTriggers.t -> result RoboflowError.t F;
  fragment_frame : list byte -> Z -> Z -> F -> result RoboflowError.t unit * F;
  fragment_finalize : F -> result RoboflowError.t (option string * Z * Z) }.

Module StreamConfig.
Section Config.
Context {C : Type}.
Record t := mk { id : string; output : StreamOutput.t; strategy : EncodingStrategy.t; encoder_config : option C }.
#[global] Instance t_eta : Settable t := fun c => mk (id c) (output c) (strategy c) (encoder_config c).
Definition new (id : string) (output : StreamOutput.t) : t := mk id output EncodingStrategy.default None.
Definition with_strategy (st : EncodingStrategy.t) (c : t) : t := c <| strategy := st |>.
Definition with_encoder_config (config : C) (c : t) : t := c <| encoder_config := Some config |>.
Definition file (id path : string) : t := new id (StreamOutput.File path).
Definition fragment (id path : string) (triggers : FragmentTriggers.t) : t :=
  with_strategy (EncodingStrategy.fragment triggers) (new id (StreamOutput.File path)).
End Config.
Arguments t : clear implicits.
End StreamConfig.

(** ** mod.rs *)
Module WorkloadConfig.
Section Config.
Context {C : Type}.
(** With the [video_config] of its [defaults]. *)
Record t := mk { video_config : C; thread_pool_size : option Z }.
#[global] Instance t_eta : Settable t := fun c => mk (video_config c) (thread_pool_size c).
Definition new (default : C) : t := mk default None.
Definition with_thread_pool_size (size : Z) (c : t) : t := c <| thread_pool_size := Some size |>.
Definition with_video_config (config : C) (c : t) : t := c <| video_config := config |>.
End Config.
Arguments t : clear implicits.
End WorkloadConfig.

Module WorkloadResult.
Record t := mk { streams : gmap string StreamResult.t; total_frames : Z; total_skipped : Z; total_bytes : Z; all_success : bool }.
#[global] Instance t_eta : Settable t := fun r => mk (streams r) (total_frames r) (total_skipped r) (total_bytes r) (all_success r).
Definition empty : t := mk ∅ 0 0 0 true.
Definition is_success (r : t) : bool := all_success r.
Definition get (id : string) (r : t) : option StreamResult.t := streams r !! id.
Definition stream_count (r : t) : Z := Z.of_nat (size (streams r)).
End WorkloadResult.

Module EncodingWorkload.
Section Ops.
Context {E F : Type} `{VideoEncoder E} `{!FragmentEncoding F VideoEncoderConfig}.
Abbreviation ThreadResult := (result RoboflowError.t StreamResult.t).

(** What a thread is spawned with. *)
Record Spec := mkSpec { stream_id : string; video_config : VideoEncoderConfig; stream_output : StreamOutput.t; stream_strategy : EncodingStrategy.t }.

(** The encoder of a thread, with the path of a standard one. *)
Inductive Coder := Plain (path : string) (enc : E) | Fragments (enc : F).
Record Local := mkLocal { frames_encoded : Z; frames_skipped : Z; dimensions : option (Z * Z); coder : Coder }.
#[global] Instance Local_eta : Settable Local := fun l => mkLocal (frames_encoded l) (frames_skipped l) (dimensions l) (coder l).

(** [encoder_thread] before its loop. *)
Definition started {A} (make : A -> Coder) (r : result RoboflowError.t A) : Local + ThreadResult :=
  match r with Ok e => inl (mkLocal 0 0 None (make e)) | Err e => inr (Err e) | Panic m => inr (Panic m) end.
Definition start (sp : Spec) : Local + ThreadResult :=
  match stream_output sp, stream_strategy sp with
  | StreamOutput.File path, EncodingStrategy.Standard => started (Plain path) (encoder_new (video_config sp) path)
  | StreamOutput.File path, EncodingStrategy.Fragment triggers => started Fragments (fragment_new (video_config sp) path triggers)
  | StreamOutput.Channel _, _ => inr (Ok (StreamResult.failure (stream_id sp) "Streaming mode not yet implemented"))
  | _, _ => inr (Ok (StreamResult.failure (stream_id sp) "Unsupported output/strategy combination"))
  end.

Definition code (rgb_data : list byte) (w h : Z) (c : Coder) : result RoboflowError.t unit * Coder :=
  match c with
  | Plain path enc => let '(r, enc') := encode_frame rgb_data w h enc in (r, Plain path enc')
  | Fragments enc => let '(r, enc') := fragment_frame rgb_data w h enc in (r, Fragments enc')
  end.

(** The end of the loop, by the command or because the channel is closed. *)
Definition finish (sp : Spec) (l : Local) : ThreadResult :=
  match match coder l with
        | Plain path enc => n ← encoder_finalize enc; Ok (Some path, n, 1)
        | Fragments enc => fragment_finalize enc
        end with
  | Ok (path, bytes, fragments) => Ok (StreamResult.success (stream_id sp) path (frames_encoded l) (frames_skipped l) bytes fragments)
  | Err e => Ok (StreamResult.failure (stream_id sp) (RoboflowError.fmt e))
  | Panic m => Panic m
  end.

Definition handle (sp : Spec) (l : Local) (cmd : EncoderCommand.t) : Local + ThreadResult :=
  match cmd with
  | EncoderCommand.Frame (FrameData.mk rgb_data w h) =>
      if match dimensions l with Some (w', h') => negb (w =? w') || negb (h =? h') | None => false end
      then inl (l <| frames_skipped := incr (frames_skipped l) |>)
      else
        let l := l <| dimensions := Some (w, h) |> in
        match code rgb_data w h (coder l) with
        | (Ok _, c) => inl (l <| frames_encoded := incr (frames_encoded l) |> <| coder := c |>)
        | (Err _, c) => inl (l <| frames_skipped := incr (frames_skipped l) |> <| coder := c |>)
        | (Panic m, _) => inr (Panic m)
        end
  | EncoderCommand.Finalize => inr (finish sp l)
  end.

(** ** The owner *)
Abbreviation Thread := (Worker Local EncoderCommand.t ThreadResult).
Record t := mk { config : WorkloadConfig.t VideoEncoderConfig; streams : gmap string (Spec * Thread); finalized : bool }.
#[global] Instance t_eta : Settable t := fun s => mk (config s) (streams s) (finalized s).
Definition new (config : WorkloadConfig.t VideoEncoderConfig) : t := mk config ∅ false.

Definition fail {A} (msg : string) : result RoboflowError.t A := Err (RoboflowError.encode "EncodingWorkload" msg).

Definition add_stream (spawn : result string unit) (c : StreamConfig.t VideoEncoderConfig) (s : t) : result RoboflowError.t unit * t :=
  if finalized s then (fail "Cannot add stream after finalization", s)
  else if bool_decide (is_Some (streams s !! StreamConfig.id c)) then (fail ("Stream '" +:+ StreamConfig.id c +:+ "' already exists"), s)
  else
    let sp := mkSpec (StreamConfig.id c) (default (WorkloadConfig.video_config (config s)) (StreamConfig.encoder_config c)) (StreamConfig.output c) (StreamConfig.strategy c) in
    match spawn with
    | Ok _ => (Ok tt, s <| streams := <[StreamConfig.id c := (sp, Spawned [])]> (streams s) |>)
    | Err e => (fail ("Failed to spawn encoder thread: " +:+ e), s)
    | Panic m => (Panic m, s)
    end.

Definition submit_frame (id : string) (rgb_data : list byte) (w h : Z) (s : t) : result RoboflowError.t unit * t :=
  if finalized s then (fail "Cannot submit frame after finalization", s)
  else
    match streams s !! id with
    | None => (fail ("Stream '" +:+ id +:+ "' not found"), s)
    | Some (sp, th) =>
        match send (EncoderCommand.Frame (FrameData.mk rgb_data w h)) th with
        | (true, th') => (Ok tt, s <| streams := <[id := (sp, th')]> (streams s) |>)
        | (false, _) => (fail ("Stream '" +:+ id +:+ "' worker thread disconnected"), s)
        end
    end.
Definition submit_frame_data (id : string) (f : FrameData.t) : t -> result RoboflowError.t unit * t :=
  submit_frame id (FrameData.rgb_data f) (FrameData.width f) (FrameData.height f).

Definition stream_count (s : t) : Z := Z.of_nat (size (streams s)).
Definition has_stream (id : string) (s : t) : bool := bool_decide (is_Some (streams s !! id)).

(** The result of a thread enters the result of the workload. *)
Definition collect (acc : WorkloadResult.t) (x : string * ThreadResult) : WorkloadResult.t :=
  let '(id, r) := x in
  match r with
  | Ok r =>
      acc <| WorkloadResult.total_frames := u64_add (WorkloadResult.total_frames acc) (StreamResult.frames_encoded r) |>
          <| WorkloadResult.total_skipped := u64_add (WorkloadResult.total_skipped acc) (StreamResult.frames_skipped r) |>
          <| WorkloadResult.total_bytes := u64_add (WorkloadResult.total_bytes acc) (StreamResult.bytes_written r) |>
          <| WorkloadResult.all_success := WorkloadResult.all_success acc && StreamResult.succeeded r |>
          <| WorkloadResult.streams := <[id := r]> (WorkloadResult.streams acc) |>
  | Err e =>
      acc <| WorkloadResult.all_success := false |>
          <| WorkloadResult.streams := <[id := StreamResult.failure id (RoboflowError.fmt e)]> (WorkloadResult.streams acc) |>
  | Panic _ =>
      acc <| WorkloadResult.all_success := false |>
          <| WorkloadResult.streams := <[id := StreamResult.failure id "Thread panicked"]> (WorkloadResult.streams acc) |>
  end.

Definition joined_result (x : string * (Spec * Thread)) : string * ThreadResult :=
  let '(id, (sp, th)) := x in (id, join (start sp) (handle sp) (finish sp) (send EncoderCommand.Finalize th).2).

(** [order] is an order of the hash map; an owned workload is finalized once. *)
Definition finalize (order : list (string * (Spec * Thread)) -> list (string * (Spec * Thread))) (s : t) : result RoboflowError.t WorkloadResult.t :=
  if finalized s then fail "Workload already finalized"
  else Ok (foldl collect WorkloadResult.empty (joined_result <$> order (map_to_list (streams s)))).

(** Calls of the owner and steps of the threads in any order; the log has the accepted
    frames. *)
Inductive Runs (s0 : t) : list (string * FrameData.t) -> t -> Prop :=
| Runs_start : Runs s0 [] s0
| Runs_stream log s spawn c s' : Runs s0 log s -> add_stream spawn c s = (Ok tt, s') -> Runs s0 log s'
| Runs_frame log s id f s' : Runs s0 log s -> submit_frame_data id f s = (Ok tt, s') -> Runs s0 (log ++ [(id, f)]) s'
| Runs_thread log s id sp th th' : Runs s0 log s -> streams s !! id = Some (sp, th) -> WorkerStep (start sp) (handle sp) th th' ->
    Runs s0 log (s <| streams := <[id := (sp, th')]> (streams s) |>).
End Ops.
End EncodingWorkload.

(** ** Properties *)
Import EncodingWorkload.

Section Laws.
Context {E F : Type} `{VideoEncoder E} `{!FragmentEncoding F VideoEncoderConfig}.
Implicit Types (sp : @Spec E _) (s : @EncodingWorkload.t E F _).

(** A stream encoded alone, and the entry of a thread's result. *)
Definition commands (frames : list FrameData.t) : list EncoderCommand.t := (EncoderCommand.Frame <$> frames) ++ [EncoderCommand.Finalize].
Definition alone sp (frames : list FrameData.t) : result RoboflowError.t StreamResult.t :=
  exec (start sp) (handle sp) (finish sp) (commands frames).
Definition entry (id : string) (r : result RoboflowError.t StreamResult.t) : StreamResult.t :=
  match r with
  | Ok r => r
  | Err e => StreamResult.failure id (RoboflowError.fmt e)
  | Panic _ => StreamResult.failure id "Thread panicked"
  end.

(** ** The results that are collected *)
Definition total (f : StreamResult.t -> Z) (m : gmap string StreamResult.t) : Z :=
  as_u64 (foldr Z.add 0 (f <$> (map_to_list m).*2)).

Record sums_up (acc : WorkloadResult.t) : Prop := {
  sum_frames : WorkloadResult.total_frames acc = total StreamResult.frames_encoded (WorkloadResult.streams acc);
  sum_skipped : WorkloadResult.total_skipped acc = total StreamResult.frames_skipped (WorkloadResult.streams acc);
  sum_bytes : WorkloadResult.total_bytes acc = total StreamResult.bytes_written (WorkloadResult.streams acc);
  sum_success : WorkloadResult.all_success acc = true <-> map_Forall (fun _ r => StreamResult.succeeded r = true) (WorkloadResult.streams acc) }.

Lemma total_insert f m id r : m !! id = None -> total f (<[id := r]> m) = u64_add (total f m) (f r).
Proof.
  intros Hno. unfold total, u64_add, as_u64. rewrite Zplus_mod_idemp_l. f_equal.
  assert (forall l1 l2, l1 ≡ₚ l2 -> foldr Z.add 0 l1 = foldr Z.add 0 l2) as Hp by (induction 1; cbn; lia).
  rewrite (Hp _ (f <$> ((id, r) :: map_to_list m).*2)) by (by rewrite map_to_list_insert). cbn. lia.
Qed.

Lemma collect_entry acc id r : WorkloadResult.streams (collect acc (id, r)) = <[id := entry id r]> (WorkloadResult.streams acc).
Proof. by destruct r. Qed.

Lemma total_failure f m id e : f (StreamResult.failure id e) = 0 -> m !! id = None -> total f (<[id := StreamResult.failure id e]> m) = total f m.
Proof. intros Hf Hno. rewrite total_insert, Hf by done. unfold u64_add. rewrite Z.add_0_r. apply as_u64_mod. Qed.

Lemma collect_sums_up acc id r : sums_up acc -> WorkloadResult.streams acc !! id = None -> sums_up (collect acc (id, r)).
Proof.
  intros [Hf Hk Hb Hs] Hno. destruct r as [r|e|m]; split; cbn; rewrite ?total_failure, ?total_insert, ?map_Forall_insert by done; try congruence.
  - rewrite andb_true_iff, Hs. tauto.
  - cbn. naive_solver.
  - cbn. naive_solver.
Qed.

Lemma collect_all l : NoDup l.*1 -> let acc := foldl collect WorkloadResult.empty l in
  sums_up acc /\ map_to_list (WorkloadResult.streams acc) ≡ₚ (fun x => (x.1, entry x.1 x.2)) <$> l.
Proof.
  induction l as [|[id r] l IH] using rev_ind; cbn.
  - intros _. split; [|by rewrite map_to_list_empty]. split; cbn; unfold total; rewrite ?map_to_list_empty; try done.
  - rewrite fmap_app, foldl_app. intros (Hnd&Hnew&_)%NoDup_app. destruct (IH Hnd) as [Hs Hp]. cbn [foldl].
    assert (WorkloadResult.streams (foldl collect WorkloadResult.empty l) !! id = None) as Hno.
    { apply eq_None_not_Some. intros [x Hx]. apply elem_of_map_to_list in Hx. rewrite Hp in Hx.
      apply list_elem_of_fmap in Hx as ([id' r']&[= -> ->]&Hin). cbn in Hnew. apply (Hnew id'); [|set_solver].
      apply list_elem_of_fmap. by exists (id', r'). }
    split; [by apply collect_sums_up|]. rewrite collect_entry, map_to_list_insert, Hp, fmap_app by done. cbn. apply Permutation_cons_append.
Qed.

(** ** The threads *)
Definition fed (log : list (string * FrameData.t)) s : Prop := finalized s = false /\
  (forall id, streams s !! id = None -> frames_of id log = []) /\
  forall id sp th, streams s !! id = Some (sp, th) -> serves (start sp) (handle sp) (EncoderCommand.Frame <$> frames_of id log) th.

Lemma fed_update log log' id sp th th' s : fed log s -> streams s !! id = Some (sp, th) ->
  (forall i, i <> id -> frames_of i log' = frames_of i log) ->
  serves (start sp) (handle sp) (EncoderCommand.Frame <$> frames_of id log') th' ->
  fed log' (s <| streams := <[id := (sp, th')]> (streams s) |>).
Proof.
  intros (Ho&Hu&Hs) Hth Hother Hnew. split_and!; cbn; [done|..].
  - intros i. destruct (decide (i = id)) as [->|Hne]; [by rewrite lookup_insert_eq|]. rewrite lookup_insert_ne, Hother by done. apply Hu.
  - intros i sp' x. destruct (decide (i = id)) as [->|Hne]; [rewrite lookup_insert_eq; by intros [= <- <-]|].
    rewrite lookup_insert_ne, Hother by done. apply Hs.
Qed.

Lemma runs_fed config log s : Runs (new config) log s -> fed log s.
Proof.
  induction 1 as [|log s spawn c s' _ IH Hadd|log s id f s' _ IH Hsub|log s id sp th th' _ IH Hth Hst].
  - by split_and!.
  - destruct IH as (Ho&Hu&Hs). unfold add_stream in Hadd. rewrite Ho in Hadd.
    destruct (bool_decide_reflect (is_Some (streams s !! StreamConfig.id c))) as [|Hno]; [done|]. destruct spawn; try done.
    injection Hadd as <-. apply eq_None_not_Some in Hno. split_and!; cbn; [done|..].
    + intros i. destruct (decide (i = StreamConfig.id c)) as [->|Hne]; [by rewrite lookup_insert_eq|]. rewrite lookup_insert_ne by done. apply Hu.
    + intros i sp x. destruct (decide (i = StreamConfig.id c)) as [->|Hne].
      * rewrite lookup_insert_eq. intros [= <- <-]. cbn. by rewrite (Hu _ Hno).
      * rewrite lookup_insert_ne by done. apply Hs.
  - unfold submit_frame_data, submit_frame in Hsub. rewrite (proj1 IH) in Hsub. destruct (streams s !! id) as [[sp th]|] eqn:Eth; [|done].
    destruct f as [d w h]. cbn in Hsub. destruct (send _ th) as [[] th'] eqn:Es; [|done]. injection Hsub as <-.
    eapply (fed_update log); [done..| |].
    + intros i Hne. rewrite frames_of_snoc, decide_False by done. apply app_nil_r.
    + rewrite frames_of_snoc, decide_True, fmap_app by done. eapply serves_send; [|exact Es]. by apply IH.
  - eapply (fed_update log); try done. eapply serves_step; [|exact Hst]. by apply IH.
Qed.

(** ** Accounting *)
Definition counts (n : Z) (l : @Local E F) : Prop := as_u64 (frames_encoded l + frames_skipped l) = as_u64 n.

Lemma handle_counts n sp l f : counts n l ->
  match handle sp l (EncoderCommand.Frame f) with inl l' => counts (n + 1) l' | inr r => exists m, r = Panic m end.
Proof.
  intros Hn. destruct f as [d w h]. cbn [handle]. destruct (match dimensions l with Some _ => _ | None => _ end); [by apply count_right|].
  cbn. destruct (code d w h (coder l)) as [[[]|e|m] c]; [by apply count_left|by apply count_right|by exists m].
Qed.

Lemma alone_counts sp frames r : alone sp frames = Ok r -> StreamResult.succeeded r = true ->
  as_u64 (StreamResult.frames_encoded r + StreamResult.frames_skipped r) = as_u64 (Z.of_nat (length frames)).
Proof.
  assert (forall frames n l, counts n l -> match run (handle sp) l (EncoderCommand.Frame <$> frames) with
    | inl l' => counts (n + Z.of_nat (length frames)) l' | inr r => exists m, r = Panic m end) as Hrun.
  { clear. induction frames as [|f frames IH]; intros n l Hl; cbn [fmap list_fmap run length]; [by rewrite Z.add_0_r|].
    pose proof (handle_counts n sp l f Hl) as Hh. destruct (handle sp l _) as [l'|r]; [|done].
    specialize (IH (n + 1) l' Hh). by replace (n + Z.of_nat (S (length frames))) with (n + 1 + Z.of_nat (length frames)) by lia. }
  assert (forall A (make : A -> @Coder E F) x, match started make x with inl l => counts 0 l | inr r => forall r', r = Ok r' -> False end) as Hst.
  { intros A make [a|e|m]; cbn; [done|intros ? [=]..]. }
  assert (match start sp with inl l => counts 0 l | inr r => forall r', r = Ok r' -> StreamResult.succeeded r' = false end) as Hstart.
  { unfold start. destruct (stream_output sp) as [path|k]; [destruct (stream_strategy sp)|]; try by intros ? [= <-].
    - match goal with |- context [started ?m ?x] => specialize (Hst _ m x); destruct (started m x) end; [done|intros r' ->; by destruct (Hst r')].
    - match goal with |- context [started ?m ?x] => specialize (Hst _ m x); destruct (started m x) end; [done|intros r' ->; by destruct (Hst r')]. }
  unfold alone, exec, commands, run_boot. destruct (start sp) as [l|r0]; [|intros -> Ht; by rewrite (Hstart r) in Ht].
  rewrite run_app. specialize (Hrun frames 0 l Hstart). destruct (run _ _ _) as [l'|r'].
  - cbn [run handle]. unfold finish. destruct (match coder l' with Plain _ _ => _ | Fragments _ => _ end) as [[[p b] k]|e|m]; [|by intros [= <-]..].
    intros [= <-] _. exact Hrun.
  - destruct Hrun as [m ->]. done.
Qed.

(** C24: Whatever the interleaving of the owner with the threads of the streams, the result
    of a workload has for every stream what encoding its accepted frames alone gives, with
    totals over these and success exactly when every stream succeeded; every thread ends
    once it is told to, and a stream that succeeded accounts for all its frames. *)
Theorem workload_is_sequential order config log s : (forall l, order l ≡ₚ l) -> Runs (new config) log s ->
  exists r, finalize order s = Ok r /\
    (forall id, WorkloadResult.get id r = (fun x : @Spec E _ * _ => entry id (alone x.1 (frames_of id log))) <$> streams s !! id) /\
    WorkloadResult.total_frames r = total StreamResult.frames_encoded (WorkloadResult.streams r) /\
    WorkloadResult.total_skipped r = total StreamResult.frames_skipped (WorkloadResult.streams r) /\
    WorkloadResult.total_bytes r = total StreamResult.bytes_written (WorkloadResult.streams r) /\
    (WorkloadResult.is_success r = true <-> forall id x, WorkloadResult.get id r = Some x -> StreamResult.is_success x = true) /\
    (forall id sp th, streams s !! id = Some (sp, th) ->
      rtc (WorkerStep (start sp) (handle sp)) (send EncoderCommand.Finalize th).2 (Finished (alone sp (frames_of id log)))) /\
    (forall id sp th x, streams s !! id = Some (sp, th) -> WorkloadResult.get id r = Some x -> StreamResult.is_success x = true ->
      as_u64 (StreamResult.frames_encoded x + StreamResult.frames_skipped x) = as_u64 (Z.of_nat (length (frames_of id log)))).
Proof.
  intros Hord Hruns. apply runs_fed in Hruns as (Ho&Hu&Hs).
  assert (forall id sp th, streams s !! id = Some (sp, th) -> joined_result (id, (sp, th)) = (id, alone sp (frames_of id log)) /\
    rtc (WorkerStep (start sp) (handle sp)) (send EncoderCommand.Finalize th).2 (Finished (alone sp (frames_of id log)))) as Hlast.
  { intros id sp th Hth. destruct (send_last _ _ (finish sp) _ EncoderCommand.Finalize _ (Hs id sp th Hth)) as [Hj Hr].
    split; [cbn; by rewrite Hj|]. apply Hr. intros l. by eexists. }
  unfold finalize. rewrite Ho. eexists. split; [done|].
  set (l := joined_result <$> order (map_to_list (streams s))).
  assert (NoDup l.*1) as Hnd.
  { unfold l. rewrite <- list_fmap_compose, Hord. rewrite (list_fmap_ext _ fst); [apply NoDup_fst_map_to_list|]. by intros _ [id [sp th]] _. }
  destruct (collect_all l Hnd) as [[Hf Hk Hb Hok] Hperm].
  assert (forall id x, WorkloadResult.get id (foldl collect WorkloadResult.empty l) = Some x <->
    exists sp th, streams s !! id = Some (sp, th) /\ x = entry id (alone sp (frames_of id log))) as Hget.
  { intros id x. unfold WorkloadResult.get. rewrite <- elem_of_map_to_list, Hperm, list_elem_of_fmap. unfold l. split.
    - intros ([id' r]&[= -> ->]&Hin). rewrite Hord in Hin. apply list_elem_of_fmap in Hin as ([i [sp th]]&Heq&Hin).
      apply elem_of_map_to_list in Hin. rewrite (proj1 (Hlast _ _ _ Hin)) in Heq. injection Heq as -> ->. by exists sp, th.
    - intros (sp&th&Hth&->). exists (id, alone sp (frames_of id log)). split; [done|]. rewrite Hord. apply list_elem_of_fmap. exists (id, (sp, th)).
      split; [by rewrite (proj1 (Hlast _ _ _ Hth))|by apply elem_of_map_to_list]. }
  split_and!; try done.
  - intros id. destruct (streams s !! id) as [[sp th]|] eqn:Eth; cbn.
    + apply Hget. by exists sp, th.
    + apply eq_None_not_Some. intros [x (sp&th&Hx&_)%Hget]. congruence.
  - intros id sp th Hth. by apply Hlast.
  - intros id sp th x Hth (sp'&th'&Hth'&->)%Hget Hx. assert (sp' = sp) as -> by congruence. unfold entry in Hx |- *.
    destruct (alone sp (frames_of id log)) as [r|e|m] eqn:Ea; [|done..]. by apply (alone_counts sp).
Qed.
End Laws.

(** ** Examples *)
Module WorkloadExamples.
(** An encoder that, as the one of the repository, refuses frames without pixels. *)
#[local] Instance strict_encoder : VideoEncoder (list (list byte)) := {|
  VideoEncoderConfig := unit;
  encoder_new _ _ := Ok [];
  encode_frame rgb w h e :=
    if (w =? 0) || (h =? 0) then (Err (RoboflowError.encode "VideoEncoder" "Frame dimensions cannot be zero"), e) else (Ok tt, e ++ [rgb]);
  encoder_finalize e := Ok (Z.of_nat (length e)) |}.
(** One that ends a fragment with every frame. *)
#[local] Instance strict_fragments : FragmentEncoding (string * list (list byte)) unit := {|
  fragment_new _ path _ := Ok (path, []);
  fragment_frame rgb w h e := (Ok tt, (e.1, e.2 ++ [rgb]));
  fragment_finalize e := Ok (Some e.1, Z.of_nat (length e.2), Z.of_nat (length e.2)) |}.
Abbreviation Workload := (@EncodingWorkload.t (list (list byte)) (string * list (list byte)) strict_encoder).

Definition pixel (b : Z) : FrameData.t := FrameData.mk [b; b; b] 1 1.
Definition nothing : FrameData.t := FrameData.mk [] 0 0.
Definition two_streams : Workload :=
  (add_stream (Ok tt) (StreamConfig.fragment "side" "side.mp4" (FragmentTriggers.by_frame_count 1))
    (add_stream (Ok tt) (StreamConfig.file "main" "main.mp4") (new (WorkloadConfig.new tt))).2).2.
Definition submitted (log : list (string * FrameData.t)) : Workload := foldl (fun s x => (submit_frame_data x.1 x.2 s).2) two_streams log.

Lemma two_streams_runs : Runs (new (WorkloadConfig.new tt)) [] two_streams.
Proof.
  eapply (Runs_stream _ _ _ (Ok tt) (StreamConfig.fragment "side" "side.mp4" (FragmentTriggers.by_frame_count 1))).
  - eapply (Runs_stream _ _ _ (Ok tt) (StreamConfig.file "main" "main.mp4")); [apply Runs_start|reflexivity].
  - reflexivity.
Qed.

Definition mixed : list (string * FrameData.t) := [("main", pixel 1); ("side", pixel 2); ("main", pixel 3)].
Lemma mixed_runs : Runs (new (WorkloadConfig.new tt)) mixed (submitted mixed).
Proof.
  eapply (Runs_frame _ [("main", pixel 1); ("side", pixel 2)] _ "main" (pixel 3)).
  - eapply (Runs_frame _ [("main", pixel 1)] _ "side" (pixel 2)).
    + eapply (Runs_frame _ [] _ "main" (pixel 1)); [exact two_streams_runs|reflexivity].
    + reflexivity.
  - reflexivity.
Qed.

Lemma workload_is_sequential_witness : exists r, finalize id (submitted mixed) = Ok r /\
  WorkloadResult.get "main" r = Some (StreamResult.success "main" (Some "main.mp4") 2 0 2 1) /\
  WorkloadResult.get "side" r = Some (StreamResult.success "side" (Some "side.mp4") 1 0 1 1).
Proof.
  destruct (workload_is_sequential (H := strict_encoder) id (WorkloadConfig.new tt) mixed (submitted mixed) (fun l => reflexivity l) mixed_runs) as (r&Hr&Hget&_).
  exists r. split; [exact Hr|]. split; [rewrite (Hget "main")|rewrite (Hget "side")]; vm_compute; reflexivity.
Defined.

(** A first frame without pixels is skipped, but fixes the dimensions: every later frame is
    skipped too, and the stream is reported as a success. *)
Example bad_first_frame_skips_all :
  let sp := mkSpec (H := strict_encoder) "main" tt (StreamOutput.File "main.mp4") EncodingStrategy.Standard in
  alone (H := strict_encoder) (F := string * list (list byte)) sp [nothing; pixel 1; pixel 2; pixel 3] = Ok (StreamResult.success "main" (Some "main.mp4") 0 4 0 1).
Proof. reflexivity. Qed.
End WorkloadExamples.
