(* ===== verification/Catalog.v ===== *)
(** * The catalogue (crates/roboflow-distributed/src/catalog/)

    Records of episodes, segments and uploads in TiKV: [key.rs], [schema.rs], [config.rs],
    [pool.rs] and [catalog_impl.rs].  The pool calls the transaction client directly, without
    the circuit breaker of [Client], whose state in a [World] it never looks at.  Records
    are [bincode], a codec; clock readings are arguments.  Connecting is not modelled. *)
From Corelib Require Import SpecFloat.
From stdpp Require Import pretty.
From S2P Require Import Prelude Floats Codec TikvError Circuit Env Effects Storage Core.
#[local] Open Scope string_scope.
#[local] Open Scope Z_scope.
#[local] Open Scope list_scope.

(** ** [key.rs] *)
Module key.
Module KeyNamespace.
Inductive t := Episode | Segment | Upload | Index.
Definition prefix (n : t) : string := match n with Episode => "ep" | Segment => "seg" | Upload => "up" | Index => "idx" end.
Definition byte_prefix (n : t) : Z := match n with Episode => 1 | Segment => 2 | Upload => 3 | Index => 4 end.
End KeyNamespace.

Module KeyBuilder.
Record t := mk { namespace : KeyNamespace.t; parts : list string }.
Definition new (namespace : KeyNamespace.t) : t := mk namespace [].
Definition push (part : string) (b : t) : t := mk (namespace b) (parts b ++ [part]).
(** The [parts] with a slash before each but the first. *)
Definition build (b : t) : string := "roboflow/" +:+ KeyNamespace.prefix (namespace b) +:+ "/" +:+ String.concat "/" (parts b).
Definition as_str : t -> string := build.
End KeyBuilder.

Module EpisodeKey.
Definition metadata (episode_id : string) : string :=
  KeyBuilder.build (KeyBuilder.push "meta" (KeyBuilder.push episode_id (KeyBuilder.new KeyNamespace.Episode))).
Definition prefix : string := "roboflow/" +:+ KeyNamespace.prefix KeyNamespace.Episode +:+ "/".
End EpisodeKey.

Module SegmentKey.
Definition metadata (segment_id : string) : string :=
  KeyBuilder.build (KeyBuilder.push "meta" (KeyBuilder.push segment_id (KeyBuilder.new KeyNamespace.Segment))).
Definition config_index (config_hash segment_id : string) : string :=
  KeyBuilder.build (KeyBuilder.push segment_id (KeyBuilder.push config_hash (KeyBuilder.push "config" (KeyBuilder.new KeyNamespace.Index)))).
Definition prefix : string := "roboflow/" +:+ KeyNamespace.prefix KeyNamespace.Segment +:+ "/".
End SegmentKey.

Module UploadKey.
Definition status (episode_id : string) : string :=
  KeyBuilder.build (KeyBuilder.push "status" (KeyBuilder.push episode_id (KeyBuilder.new KeyNamespace.Upload))).
Definition prefix : string := "roboflow/" +:+ KeyNamespace.prefix KeyNamespace.Upload +:+ "/".
End UploadKey.
End key.
Import key.

(** ** [schema.rs] *)

(** [Utc::now().timestamp_nanos_opt().unwrap_or(0)]. *)
Definition nanos_or_zero (now : Z) : Z := if bool_decide (i64_min <= now <= i64_max) then now else 0.

Module EpisodeMetadata.
Record t := mk {
  episode_id : string; segment_id : option string; dataset_name : string; frame_count : Z; total_bytes : Z;
  start_ns : Z; end_ns : Z; created_at : Z; labels : list string; update_version : Z }.
#[global] Instance t_eta : Settable t := fun e =>
  mk (episode_id e) (segment_id e) (dataset_name e) (frame_count e) (total_bytes e) (start_ns e) (end_ns e) (created_at e) (labels e) (update_version e).
Definition new (episode_id dataset_name : string) (frame_count total_bytes start_ns end_ns now : Z) : t :=
  mk episode_id None dataset_name frame_count total_bytes start_ns end_ns (nanos_or_zero now) [] 0.
Definition duration_ns (e : t) : Z := as_i64 (end_ns e - start_ns e).
Definition duration_secs (e : t) : f64 := f64_div (f64_of (duration_ns e)) (f64_of 1000000000).
Definition increment_version (e : t) : t := e <| update_version := u64_add (update_version e) 1 |>.
End EpisodeMetadata.

Module SegmentMetaData.
Record t := mk {
  segment_id : string; dataset_name : string; config_hash : string; storage_prefix : string; episode_ids : list string;
  total_frames : Z; total_bytes : Z; start_ns : Z; end_ns : Z; created_at : Z; update_version : Z }.
#[global] Instance t_eta : Settable t := fun s =>
  mk (segment_id s) (dataset_name s) (config_hash s) (storage_prefix s) (episode_ids s) (total_frames s) (total_bytes s) (start_ns s) (end_ns s)
     (created_at s) (update_version s).
Definition new (segment_id dataset_name config_hash storage_prefix : string) (now : Z) : t :=
  mk segment_id dataset_name config_hash storage_prefix [] 0 0 i64_max i64_min (nanos_or_zero now) 0.
Definition add_episode (id : string) (start end_ : Z) (s : t) : t :=
  s <| episode_ids := episode_ids s ++ [id] |> <| start_ns := Z.min (start_ns s) start |> <| end_ns := Z.max (end_ns s) end_ |>.
Definition contains_episode (id : string) (s : t) : bool := bool_decide (id ∈ episode_ids s).
(** [Vec::remove] of the first position. *)
Fixpoint remove_first (id : string) (l : list string) : option (list string) :=
  match l with
  | [] => None
  | x :: l' => if String.eqb x id then Some l' else cons x <$> remove_first id l'
  end.
Definition remove_episode (id : string) (s : t) : bool * t :=
  match remove_first id (episode_ids s) with Some l => (true, s <| episode_ids := l |>) | None => (false, s) end.
Definition episode_count (s : t) : Z := Z.of_nat (length (episode_ids s)).
Definition has_capacity (max_episodes : Z) (s : t) : bool := Z.of_nat (length (episode_ids s)) <? max_episodes.
Definition version_key (s : t) : Z * string := (update_version s, segment_id s).
Definition increment_version (s : t) : t := s <| update_version := u64_add (update_version s) 1 |>.
End SegmentMetaData.

Module UploadState.
Inductive t := Pending | InProgress | Complete | Failed.
End UploadState.

Module UploadStatus.
Record t := mk {
  episode_id : string; total_files : Z; uploaded_files : Z; failed_files : Z; uploaded_bytes : Z; status : UploadState.t;
  updated_at : Z; error : option string }.
Definition new (episode_id : string) (total_files now : Z) : t :=
  mk episode_id total_files 0 0 0 UploadState.Pending (nanos_or_zero now) None.
Definition is_complete (u : t) : bool := total_files u <=? u32_add (uploaded_files u) (failed_files u).
Definition is_successful (u : t) : bool := is_complete u && (failed_files u =? 0).
Definition progress (u : t) : f64 :=
  if total_files u =? 0 then f64_of 100
  else f64_mul (f64_div (f64_of (u32_add (uploaded_files u) (failed_files u))) (f64_of (total_files u))) (f64_of 100).
End UploadStatus.

(** ** [config.rs], with the environment as an argument *)
Module TiKVConfig.
Record t := mk { pd_endpoints : list string; connection_timeout : Z; ca_path : option string; cert_path : option string; key_path : option string }.
Definition parse_pd_endpoints (s : string) : list string := filter (fun x => x <> "") (trim <$> split_char "," s).
(** [parse_u64] is [str::parse]. *)
Definition default (parse_u64 : string -> option Z) (var : string -> option string) : t :=
  mk (parse_pd_endpoints (stdpp.option.default "host.docker.internal:2379" (var "ROBOFLOW_PD_ENDPOINTS")))
     (secs (stdpp.option.default 5 (x ← var "ROBOFLOW_TIKV_TIMEOUT_SECS"; parse_u64 x)))
     (var "ROBOFLOW_TIKV_CA_PATH") (var "ROBOFLOW_TIKV_CERT_PATH") (var "ROBOFLOW_TIKV_KEY_PATH").
Definition with_pd_endpoints (parse_u64 : string -> option Z) (var : string -> option string) (pd_endpoints : string) : t :=
  let c := default parse_u64 var in mk (parse_pd_endpoints pd_endpoints) (connection_timeout c) (ca_path c) (cert_path c) (key_path c).
Definition is_tls_enabled (c : t) : bool :=
  bool_decide (is_Some (ca_path c)) || bool_decide (is_Some (cert_path c)) || bool_decide (is_Some (key_path c)).
End TiKVConfig.

(** ** [pool.rs] *)

(** [Transaction::scan], which [Client] does not use, and the drop check of the transactions of
    [begin_optimistic]: what dropping one panics with that was neither committed nor rolled
    back, [None] if it only warns.  The library's default is to panic; the snapshots of
    client.rs ask for the warning. *)
Class TransactionScan (S : Type) `{TransactionClient S} := {
  drop_check : option string;
  txn_scan : Txn -> string -> string -> Z -> S -> (string + list (string * string)) * S }.
Class TransactionScanLaws (S : Type) `{TransactionScan S, !HealthyRuns S} := {
  law_txn_scan t lo hi n s : reads (txn_scan t lo hi n) (kv_scan lo hi n (apply_writes (buffered t) (committed s))) s;
  healthy_txn_scan t lo hi n s : healthy s -> (exists a, (txn_scan t lo hi n s).1 = inr a) /\ healthy (txn_scan t lo hi n s).2 }.

Module TiKVPool.
Section Ops.
Context {S : Type} `{TransactionScan S}.
Abbreviation CM := (M S RoboflowError.t).

(** A call of the client, its error behind a text. *)
Definition client_text (e : TikvError.t) : string := match e with TikvError.ClientError m => m | _ => "" end.
Definition call {A} (msg : string) (op : S -> (string + A) * S) : CM A :=
  map_err_m (fun e => RoboflowError.other (msg +:+ ": " +:+ client_text e)) (rpc op).

(** A call on an open transaction: the [?] on its error drops the transaction.  A [commit] that fails
    does not leave it open. *)
Definition dropped {A} (r : result RoboflowError.t A) : result RoboflowError.t A :=
  match r, drop_check with Err _, Some m => Panic m | _, _ => r end.
Definition in_txn {A} (msg : string) (op : S -> (string + A) * S) : CM A := fun w =>
  let '(r, w') := call msg op w in (dropped r, w').

Definition ping : CM unit :=
  txn ← call "TiKV health check failed" begin_optimistic;
  in_txn "TiKV health check failed" (txn_get txn "roboflow/health/ping");;
  call "TiKV health check failed" (txn_commit txn).

Definition get (key : string) : CM (option string) :=
  txn ← call "TiKV get failed" begin_optimistic;
  result ← in_txn "TiKV get failed" (txn_get txn key);
  call "TiKV get failed" (txn_commit txn);;
  mret result.

Definition put (key value : string) : CM unit :=
  txn ← call "TiKV put failed" begin_optimistic;
  txn ← in_txn "TiKV put failed" (txn_put txn key value);
  call "TiKV put failed" (txn_commit txn).

Fixpoint put_pairs (txn : Txn) (kvs : list (string * string)) : CM Txn :=
  match kvs with
  | [] => mret txn
  | (key, value) :: kvs' => txn ← in_txn "TiKV batch put failed" (txn_put txn key value); put_pairs txn kvs'
  end.
Definition batch_put (kvs : list (string * string)) : CM unit :=
  txn ← call "TiKV begin transaction failed" begin_optimistic;
  txn ← put_pairs txn kvs;
  call "TiKV commit failed" (txn_commit txn).

Definition delete (key : string) : CM unit :=
  txn ← call "TiKV delete failed" begin_optimistic;
  txn ← in_txn "TiKV delete failed" (txn_delete txn key);
  call "TiKV delete failed" (txn_commit txn).

(** The two scans differ in what they keep of a pair and in their errors. *)
Definition scan (msg prefix : string) (limit : Z) : CM (list (string * string)) :=
  txn ← call msg begin_optimistic;
  let scan_end := prefix +:+ String "000" "" in
  result ← in_txn msg (txn_scan txn prefix scan_end limit);
  call msg (txn_commit txn);;
  mret result.
Definition scan_prefix (prefix : string) (limit : Z) : CM (list string) := kvs ← scan "TiKV scan failed" prefix limit; mret kvs.*1.
Definition scan_prefix_values (prefix : string) (limit : Z) : CM (list string) := kvs ← scan "TiKV scan values failed" prefix limit; mret kvs.*2.

Definition put_if_not_exists (key value : string) : CM bool :=
  old ← get key;
  if bool_decide (is_Some old) then mret false else put key value;; mret true.
End Ops.
End TiKVPool.

(** ** [catalog_impl.rs] *)
Module TiKVCatalog.
Section Ops.
Context {S : Type} `{TransactionScan S}.
Context `{!Codec EpisodeMetadata.t, !Codec SegmentMetaData.t, !Codec UploadStatus.t}.
(** [String::from_utf8_lossy]. *)
Context (from_utf8_lossy : string -> string).
Abbreviation CM := (M S RoboflowError.t).

(** [encode] and [decode] of a kind of record. *)
Definition encoded {A} `{Codec A} (kind : string) (x : A) : CM string :=
  of_sum (fun e => RoboflowError.other ("Failed to encode " +:+ kind +:+ ": " +:+ e)) (encode x).
Definition decoded {A} `{Codec A} (kind : string) (b : string) : CM A :=
  of_sum (fun e => RoboflowError.other ("Failed to decode " +:+ kind +:+ ": " +:+ e)) (decode b).

(** The value of a key as a record. *)
Definition fetch {A} `{Codec A} (kind key : string) : CM (option A) :=
  value ← TiKVPool.get key;
  match value with Some b => x ← decoded kind b; mret (Some x) | None => mret None end.

Definition register_episode (episode : EpisodeMetadata.t) : CM unit :=
  value ← encoded "episode metadata" episode;
  TiKVPool.put (EpisodeKey.metadata (EpisodeMetadata.episode_id episode)) value.
Definition get_episode (episode_id : string) : CM (option EpisodeMetadata.t) := fetch "episode metadata" (EpisodeKey.metadata episode_id).
Definition episode_exists (episode_id : string) : CM bool :=
  value ← TiKVPool.get (EpisodeKey.metadata episode_id); mret (bool_decide (is_Some value)).
Definition update_episode (episode : EpisodeMetadata.t) : CM unit :=
  value ← encoded "episode metadata" episode;
  TiKVPool.put (EpisodeKey.metadata (EpisodeMetadata.episode_id episode)) value.
Definition delete_episode (episode_id : string) : CM unit := TiKVPool.delete (EpisodeKey.metadata episode_id).

Definition register_segment (segment : SegmentMetaData.t) : CM unit :=
  value ← encoded "segment metadata" segment;
  TiKVPool.batch_put
    [(SegmentKey.metadata (SegmentMetaData.segment_id segment), value);
     (SegmentKey.config_index (SegmentMetaData.config_hash segment) (SegmentMetaData.segment_id segment), "")].
Definition get_segment (segment_id : string) : CM (option SegmentMetaData.t) := fetch "segment metadata" (SegmentKey.metadata segment_id).

Fixpoint first_segment (keys : list string) : CM (option SegmentMetaData.t) :=
  match keys with
  | [] => mret None
  | key_bytes :: keys' =>
      match split_char "/" (from_utf8_lossy key_bytes) !! 5%nat with
      | Some segment_id =>
          segment ← get_segment segment_id;
          match segment with Some s => mret (Some s) | None => first_segment keys' end
      | None => first_segment keys'
      end
  end.
Definition get_segment_by_config (config_hash : string) : CM (option SegmentMetaData.t) :=
  keys ← TiKVPool.scan_prefix ("roboflow/idx/config/" +:+ config_hash +:+ "/") 100;
  first_segment keys.

Definition update_segment (segment : SegmentMetaData.t) : CM unit :=
  value ← encoded "segment metadata" segment;
  TiKVPool.put (SegmentKey.metadata (SegmentMetaData.segment_id segment)) value.
Definition delete_segment (segment_id : string) : CM unit :=
  segment ← get_segment segment_id;
  match segment with
  | Some segment =>
      TiKVPool.delete (SegmentKey.config_index (SegmentMetaData.config_hash segment) segment_id);;
      TiKVPool.delete (SegmentKey.metadata segment_id)
  | None => mret tt
  end.

Definition set_upload_status (status : UploadStatus.t) : CM unit :=
  value ← encoded "upload status" status;
  TiKVPool.put (UploadKey.status (UploadStatus.episode_id status)) value.
Definition get_upload_status (episode_id : string) : CM (option UploadStatus.t) := fetch "upload status" (UploadKey.status episode_id).
Definition delete_upload_status (episode_id : string) : CM unit := TiKVPool.delete (UploadKey.status episode_id).

Definition health_check : CM unit := TiKVPool.ping.
End Ops.
End TiKVCatalog.

(** ** What the operations of the pool do *)
Section Pool.
Context {S : Type} `{TC : TransactionClient S, !TransactionClientLaws S, !HealthyRuns S, TSc : !TransactionScan S, !TransactionScanLaws S}.
Import TiKVPool.

Lemma wp_in_txn {A} msg (op : S -> (string + A) * S) (Q : result RoboflowError.t A -> World S -> Prop) w :
  wp (rpc op) (fun r w' => match r with
                           | Ok a => Q (Ok a) w'
                           | Err e => (forall e', Q (Err e') w') /\ (forall m, drop_check = Some m -> Q (Panic m) w')
                           | Panic m => Q (Panic m) w' end) w ->
  wp (in_txn msg op) Q w.
Proof.
  unfold wp, in_txn, call, map_err_m. destruct (rpc op w) as [[a|e|m] w']; cbn; [done| |done].
  intros [He Hm]. unfold dropped. destruct drop_check as [m|] eqn:E; cbn; auto.
Qed.

Ltac pool := repeat (first [apply wp_in_txn|unfold call; wp_step]; cbn [map_err]).
(** A commit that failed, of a transaction without writes. *)
Ltac read_fault := apply faulted_intro; [world_facts; buffers_norm; destruct_or?; congruence|world_facts; lia|world].

(** The two ways to fail of an operation that only reads: nothing was written, and a panic is the
    drop check's. *)
Definition failing {A} (Q : result RoboflowError.t A -> World S -> Prop) (w : World S) : Prop :=
  (forall e w', faulted w w' -> Q (Err e) w') /\ (forall m w', drop_check = Some m -> faulted w w' -> Q (Panic m) w').
(** ... and of one that writes by [f]: after an error the write may have happened, not after a panic. *)
Definition failing_write {A} (f : gmap string string -> gmap string string) (Q : result RoboflowError.t A -> World S -> Prop) (w : World S) : Prop :=
  (forall e w', unsure f w w' -> Q (Err e) w') /\ (forall m w', drop_check = Some m -> faulted w w' -> Q (Panic m) w').

Ltac read_failed HF := first [apply HF; read_fault|split; intros; apply HF; first [done|read_fault]].
Ltac write_failed HF := first [apply HF; fault|split; intros; apply HF; first [done|fault]].

Lemma wp_pool_get k (Q : result RoboflowError.t (option string) -> World S -> Prop) w :
  (forall w', calm w w' -> Q (Ok (kv w !! k)) w') -> failing Q w -> wp (get k) Q w.
Proof.
  intros HOk HF. unfold get. pool; try read_failed HF.
  replace (apply_writes _ _ !! k) with (kv w !! k) by read_eq. apply HOk. split; [read_eq|world].
Qed.

Lemma wp_pool_ping (Q : result RoboflowError.t unit -> World S -> Prop) w :
  (forall w', calm w w' -> Q (Ok tt) w') -> failing Q w -> wp ping Q w.
Proof. intros HOk HF. unfold ping. pool; try read_failed HF. apply HOk. split; [read_eq|world]. Qed.

Lemma wp_pool_put k v (Q : result RoboflowError.t unit -> World S -> Prop) w :
  (forall w', wrote <[k := v]> w w' -> Q (Ok tt) w') -> failing_write <[k := v]> Q w -> wp (put k v) Q w.
Proof. intros HOk HF. unfold put. pool; try write_failed HF. apply HOk. split; [world|kv_eq]. Qed.

Lemma wp_pool_delete k (Q : result RoboflowError.t unit -> World S -> Prop) w :
  (forall w', wrote (base.delete k) w w' -> Q (Ok tt) w') -> failing_write (base.delete k) Q w -> wp (delete k) Q w.
Proof. intros HOk HF. unfold delete. pool; try write_failed HF. apply HOk. split; [world|kv_eq]. Qed.

(** All pairs are written, or none. *)
Lemma wp_put_pairs txn kvs (Q : result RoboflowError.t Txn -> World S -> Prop) w :
  (forall t w', calm w w' -> buffered t = buffered txn ++ ((fun '(k, v) => (k, Some v)) <$> kvs) -> Q (Ok t) w') ->
  failing Q w -> wp (put_pairs txn kvs) Q w.
Proof.
  revert txn w. induction kvs as [|[k v] kvs IH]; intros txn w HOk HF; cbn [put_pairs].
  - wp_step. apply HOk; [reflexivity|]. by rewrite app_nil_r.
  - pool; [|split; intros; apply HF; first [done|fault]]. apply IH; [|split; intros; apply HF; first [done|fault]].
    intros t2 w2 Hc Hb. apply HOk; [world|].
    rewrite Hb. match goal with H : buffered _ = _ ++ _ |- _ => rewrite H end. by rewrite <- app_assoc.
Qed.

Lemma wp_pool_batch_put kvs (Q : result RoboflowError.t unit -> World S -> Prop) w :
  let f := apply_writes ((fun '(k, v) => (k, Some v)) <$> kvs) in
  (forall w', wrote f w w' -> Q (Ok tt) w') -> failing_write f Q w -> wp (batch_put kvs) Q w.
Proof.
  intros f HOk HF. unfold batch_put. wp_step. unfold call at 1. do 2 (wp_step; cbn [map_err]); [|write_failed HF].
  wp_step. apply wp_put_pairs; [|split; intros; apply HF; first [done|fault|apply unsure_intro; [world_facts; lia|world|left; world_facts; congruence]]].
  intros t2 w2 Hc Hb. match goal with H : buffered _ = [] |- _ => rewrite H in Hb end. cbn [app] in Hb.
  pool; rewrite Hb in *.
  - apply HOk. split; [world|]. world_facts. unfold f. congruence.
  - apply HF. apply unsure_intro; [world_facts; lia|world|]. world_facts. unfold f. destruct_or!; [right|left]; congruence.
Qed.

Lemma wp_pool_scan msg p n (Q : result RoboflowError.t (list (string * string)) -> World S -> Prop) w :
  (forall w', calm w w' -> Q (Ok (kv_scan p (p +:+ String "000" "") n (kv w))) w') -> failing Q w ->
  wp (scan msg p n) Q w.
Proof.
  intros HOk HF. unfold scan. pool; [|read_failed HF].
  eapply wp_rpc_reads; [apply law_txn_scan|apply healthy_txn_scan|intros w2 Hc2 Hb2|intros e w2 Hc2 Hn2]; cbn [map_err];
    [|read_failed HF].
  pool; [|read_failed HF].
  replace (kv_scan p _ n (apply_writes _ _)) with (kv_scan p (p +:+ String "000" "") n (kv w)); [apply HOk; split; [read_eq|world]|].
  f_equal. read_eq.
Qed.
End Pool.

(** ** The catalogue as three maps *)
Record Catalogue := mkCatalogue {
  episodes : gmap string EpisodeMetadata.t; segments : gmap string SegmentMetaData.t; uploads : gmap string UploadStatus.t }.
#[global] Instance Catalogue_eta : Settable Catalogue := fun c => mkCatalogue (episodes c) (segments c) (uploads c).

Inductive op :=
| RegisterEpisode (e : EpisodeMetadata.t) | GetEpisode (id : string) | EpisodeExists (id : string)
| UpdateEpisode (e : EpisodeMetadata.t) | DeleteEpisode (id : string)
| RegisterSegment (s : SegmentMetaData.t) | GetSegment (id : string) | GetSegmentByConfig (hash : string) | UpdateSegment (s : SegmentMetaData.t) | DeleteSegment (id : string)
| SetUploadStatus (u : UploadStatus.t) | GetUploadStatus (id : string) | DeleteUploadStatus (id : string)
| HealthCheck.

Inductive answer :=
| Done | Exists (b : bool) | AnEpisode (o : option EpisodeMetadata.t) | ASegment (o : option SegmentMetaData.t) | AnUpload (o : option UploadStatus.t).

(** The answer of the maps, and the maps after the operation.  [get_segment_by_config] is the exception: it
    finds no segment, whatever the maps hold. *)
Definition spec (o : op) (c : Catalogue) : answer * Catalogue :=
  match o with
  | RegisterEpisode e | UpdateEpisode e => (Done, c <| episodes := <[EpisodeMetadata.episode_id e := e]> (episodes c) |>)
  | GetEpisode id => (AnEpisode (episodes c !! id), c)
  | EpisodeExists id => (Exists (bool_decide (is_Some (episodes c !! id))), c)
  | DeleteEpisode id => (Done, c <| episodes := delete id (episodes c) |>)
  | RegisterSegment s | UpdateSegment s => (Done, c <| segments := <[SegmentMetaData.segment_id s := s]> (segments c) |>)
  | GetSegment id => (ASegment (segments c !! id), c)
  | GetSegmentByConfig _ => (ASegment None, c)
  | DeleteSegment id => (Done, c <| segments := delete id (segments c) |>)
  | SetUploadStatus u => (Done, c <| uploads := <[UploadStatus.episode_id u := u]> (uploads c) |>)
  | GetUploadStatus id => (AnUpload (uploads c !! id), c)
  | DeleteUploadStatus id => (Done, c <| uploads := delete id (uploads c) |>)
  | HealthCheck => (Done, c)
  end.

(** *** Keys *)
Lemma app_inv_r (a b s : string) : a +:+ s = b +:+ s -> a = b.
Proof.
  revert b. induction a as [|x a IH]; intros [|y b] E; [done|apply (f_equal str_len) in E; rewrite !str_len_app in E; unfold str_len in E; cbn in E; lia..|].
  cbn in E. injection E as -> E. by rewrite (IH b E).
Qed.

#[global] Instance episode_key_inj : Inj (=) (=) EpisodeKey.metadata.
Proof. intros a b E. cbn in E. injection E as E. exact (app_inv_r a b _ E). Qed.
#[global] Instance segment_key_inj : Inj (=) (=) SegmentKey.metadata.
Proof. intros a b E. cbn in E. injection E as E. exact (app_inv_r a b _ E). Qed.
#[global] Instance upload_key_inj : Inj (=) (=) UploadKey.status.
Proof. intros a b E. cbn in E. injection E as E. exact (app_inv_r a b _ E). Qed.

(** The range of a prefix scan has no key but the prefix. *)
Lemma scan_range_single p k : in_range p (p +:+ String "000" "") k = true -> k = p.
Proof.
  intros Hk. destruct (in_range_prefix _ _ _ Hk) as [s ->]. apply andb_true_iff in Hk as [_ Hk]. unfold String.ltb in Hk.
  rewrite string_compare_app in Hk. destruct s as [|x s]; [by rewrite string_app_nil_r|]. rewrite string_compare_cons in Hk.
  change (N_of_ascii "000") with 0%N in Hk. destruct (N.compare_spec (N_of_ascii x) 0); [|lia|done]. by destruct s.
Qed.

Lemma split_char_part a s : slash_free a = true -> split_char "/" (a +:+ String "/" s) = a :: split_char "/" s.
Proof.
  induction a as [|x a IH]; [done|]. cbn [free_of]. intros [Hx Ha]%andb_true_iff. apply negb_true_iff in Hx.
  rewrite string_app_cons. cbn [split_char]. change (Ascii.eqb x "/" = false) in Hx. by rewrite Hx, (IH Ha).
Qed.

Lemma index_prefix_parts h : slash_free h = true -> split_char "/" ("roboflow/idx/config/" +:+ h +:+ "/") = ["roboflow"; "idx"; "config"; h; ""].
Proof.
  intros Hh. change ("roboflow/idx/config/" +:+ h +:+ "/") with ("roboflow" +:+ String "/" ("idx" +:+ String "/" ("config" +:+ String "/" (h +:+ String "/" "")))).
  by rewrite !split_char_part by done.
Qed.

(** Keys of different kinds differ. *)
Ltac other_key := cbn; discriminate.

Section Refinement.
Context `{LE : LawfulCodec EpisodeMetadata.t, LS : LawfulCodec SegmentMetaData.t, LU : LawfulCodec UploadStatus.t}.

(** The bytes of a key are those of a record. *)
Definition holds {A} `{Codec A} (o : option string) (x : option A) : Prop :=
  match o, x with Some b, Some a => encode a = inr b | None, None => True | _, _ => False end.
(** The store shows the catalogue. *)
Record represents (c : Catalogue) (m : gmap string string) : Prop := {
  rep_episodes id : holds (m !! EpisodeKey.metadata id) (episodes c !! id);
  rep_segments id : holds (m !! SegmentKey.metadata id) (segments c !! id);
  rep_uploads id : holds (m !! UploadKey.status id) (uploads c !! id) }.

Ltac rep := split; intros i; cbn -[EpisodeKey.metadata SegmentKey.metadata UploadKey.status SegmentKey.config_index].

(** A family of records is updated by its key. *)
Lemma holds_insert {A} `{Codec A} (k : string -> string) `{!Inj (=) (=) k} (m : gmap string string) (n : gmap string A) j b a i :
  (forall i, holds (m !! k i) (n !! i)) -> encode a = inr b -> holds (<[k j := b]> m !! k i) (<[j := a]> n !! i).
Proof.
  intros Hm Hb. destruct (decide (i = j)) as [->|Hne]; [by rewrite !lookup_insert_eq|].
  rewrite !lookup_insert_ne by (try done; by intros ?%(inj k)). apply Hm.
Qed.
Lemma holds_delete {A} `{Codec A} (k : string -> string) `{!Inj (=) (=) k} (m : gmap string string) (n : gmap string A) j i :
  (forall i, holds (m !! k i) (n !! i)) -> holds (delete (k j) m !! k i) (delete j n !! i).
Proof.
  intros Hm. destruct (decide (i = j)) as [->|Hne]; [by rewrite !lookup_delete_eq|].
  rewrite !lookup_delete_ne by (try done; by intros ?%(inj k)). apply Hm.
Qed.

Lemma represents_put_episode c m e b : represents c m -> encode e = inr b ->
  represents (c <| episodes := <[EpisodeMetadata.episode_id e := e]> (episodes c) |>) (<[EpisodeKey.metadata (EpisodeMetadata.episode_id e) := b]> m).
Proof. intros [He Hs Hu] Hb. rep; [by apply (holds_insert EpisodeKey.metadata)|rewrite lookup_insert_ne by other_key; auto..]. Qed.
Lemma represents_put_segment c m s b : represents c m -> encode s = inr b ->
  represents (c <| segments := <[SegmentMetaData.segment_id s := s]> (segments c) |>) (<[SegmentKey.metadata (SegmentMetaData.segment_id s) := b]> m).
Proof. intros [He Hs Hu] Hb. rep; [rewrite lookup_insert_ne by other_key; auto|by apply (holds_insert SegmentKey.metadata)|rewrite lookup_insert_ne by other_key; auto]. Qed.
Lemma represents_put_upload c m u b : represents c m -> encode u = inr b ->
  represents (c <| uploads := <[UploadStatus.episode_id u := u]> (uploads c) |>) (<[UploadKey.status (UploadStatus.episode_id u) := b]> m).
Proof. intros [He Hs Hu] Hb. rep; [rewrite lookup_insert_ne by other_key; auto..|by apply (holds_insert UploadKey.status)]. Qed.
Lemma represents_delete_episode c m id : represents c m -> represents (c <| episodes := delete id (episodes c) |>) (delete (EpisodeKey.metadata id) m).
Proof. intros [He Hs Hu]. rep; [by apply (holds_delete EpisodeKey.metadata)|rewrite lookup_delete_ne by other_key; auto..]. Qed.
Lemma represents_delete_segment c m id : represents c m -> represents (c <| segments := delete id (segments c) |>) (delete (SegmentKey.metadata id) m).
Proof. intros [He Hs Hu]. rep; [rewrite lookup_delete_ne by other_key; auto|by apply (holds_delete SegmentKey.metadata)|rewrite lookup_delete_ne by other_key; auto]. Qed.
Lemma represents_delete_upload c m id : represents c m -> represents (c <| uploads := delete id (uploads c) |>) (delete (UploadKey.status id) m).
Proof. intros [He Hs Hu]. rep; [rewrite lookup_delete_ne by other_key; auto..|by apply (holds_delete UploadKey.status)]. Qed.
(** The index is not part of the catalogue. *)
Lemma represents_put_index c m h id v : represents c m -> represents c (<[SegmentKey.config_index h id := v]> m).
Proof. intros [He Hs Hu]. rep; rewrite lookup_insert_ne by other_key; auto. Qed.
Lemma represents_delete_index c m h id : represents c m -> represents c (delete (SegmentKey.config_index h id) m).
Proof. intros [He Hs Hu]. rep; rewrite lookup_delete_ne by other_key; auto. Qed.

Context {S : Type} `{TC : TransactionClient S, !TransactionClientLaws S, !HealthyRuns S, TSc : !TransactionScan S, !TransactionScanLaws S}.
Import TiKVCatalog.
Context (from_utf8_lossy : string -> string).

(** A hash without slashes, which is text. *)
Definition op_ok (o : op) : Prop :=
  match o with
  | GetSegmentByConfig h =>
      slash_free h = true /\ from_utf8_lossy ("roboflow/idx/config/" +:+ h +:+ "/") = "roboflow/idx/config/" +:+ h +:+ "/"
  | _ => True
  end.

Definition exec (o : op) : M S RoboflowError.t answer :=
  match o with
  | RegisterEpisode e => register_episode e;; mret Done
  | GetEpisode id => x ← get_episode id; mret (AnEpisode x)
  | EpisodeExists id => x ← episode_exists id; mret (Exists x)
  | UpdateEpisode e => update_episode e;; mret Done
  | DeleteEpisode id => delete_episode id;; mret Done
  | RegisterSegment s => register_segment s;; mret Done
  | GetSegment id => x ← get_segment id; mret (ASegment x)
  | GetSegmentByConfig h => x ← get_segment_by_config from_utf8_lossy h; mret (ASegment x)
  | UpdateSegment s => update_segment s;; mret Done
  | DeleteSegment id => delete_segment id;; mret Done
  | SetUploadStatus u => set_upload_status u;; mret Done
  | GetUploadStatus id => x ← get_upload_status id; mret (AnUpload x)
  | DeleteUploadStatus id => delete_upload_status id;; mret Done
  | HealthCheck => health_check;; mret Done
  end.

(** The outcome of an operation whose specification is [(a, c')]. *)
Definition outcome {A} (c c' : Catalogue) (a : A) (w : World S) (r : result RoboflowError.t A) (w' : World S) : Prop :=
  later w w' /\
  match r with
  | Ok x => x = a /\ represents c' (kv w')
  | Err _ => ~ ready w /\ (represents c (kv w') \/ represents c' (kv w'))
  | Panic m => ~ ready w /\ drop_check = Some m /\ represents c (kv w')
  end.

Lemma outcome_bind {A B} c c' (a : A) (f : A -> B) (m : M S RoboflowError.t A) w :
  wp m (outcome c c' a w) w -> wp (x ← m; mret (f x)) (outcome c c' (f a) w) w.
Proof.
  intros Hm. wp_step. eapply wp_mono; [exact Hm|]. intros [x|e|msg] w' [Hl Ho]; [|split; done..].
  destruct Ho as [-> Hr]. wp_step. by split.
Qed.

Lemma outcome_panic {A} c c' (a : A) w w' m : represents c (kv w) -> drop_check = Some m -> faulted w w' -> outcome c c' a w (Panic m) w'.
Proof. intros Hr Hm [[Hkv Hl] Hn]. split; [done|]. split_and!; [done..|]. by rewrite Hkv. Qed.
Lemma outcome_fault {A} c c' (a : A) w : represents c (kv w) -> failing (outcome c c' a w) w.
Proof. intros Hr. split; intros; [|by apply outcome_panic]. destruct H2 as [[Hkv Hl] Hn]. split; [done|]. split; [done|]. left. by rewrite Hkv. Qed.
Lemma outcome_calm {A} c (a : A) w w' : represents c (kv w) -> calm w w' -> outcome c c a w (Ok a) w'.
Proof. intros Hr [Hkv Hl]. split; [done|]. split; [done|]. by rewrite Hkv. Qed.
Lemma outcome_wrote c c' f w w' : represents c' (f (kv w)) -> wrote f w w' -> outcome c c' tt w (Ok tt) w'.
Proof. intros Hr [Hl Hkv]. split; [done|]. split; [done|]. by rewrite Hkv. Qed.
Lemma outcome_unsure c c' f w : represents c (kv w) -> represents c' (f (kv w)) -> failing_write f (outcome c c' tt w) w.
Proof.
  intros Hr Hr'. split; intros; [|by apply outcome_panic]. destruct H2 as (Hl&Hn&Hkv). split; [done|]. split; [done|]. destruct Hkv as [-> | ->]; auto.
Qed.

Lemma wp_encoded {A} `{LawfulCodec A} kind (x : A) (Q : result RoboflowError.t string -> World S -> Prop) w :
  (forall b, encode x = inr b -> Q (Ok b) w) -> wp (encoded kind x) Q w.
Proof. intros HQ. unfold encoded. wp_step. destruct (encode_total x) as [b Hb]. rewrite Hb. by apply HQ. Qed.

Lemma outcome_store {A} `{LawfulCodec A} kind (x : A) k c c' w : represents c (kv w) ->
  (forall b, encode x = inr b -> represents c' (<[k := b]> (kv w))) ->
  wp (value ← encoded kind x; TiKVPool.put k value) (outcome c c' tt w) w.
Proof.
  intros Hr Hr'. wp_step. apply wp_encoded. intros b Hb. apply wp_pool_put; intros.
  - by eapply outcome_wrote; [apply Hr'|].
  - apply outcome_unsure; auto.
Qed.

Lemma outcome_delete k c c' w : represents c (kv w) -> represents c' (delete k (kv w)) -> wp (TiKVPool.delete k) (outcome c c' tt w) w.
Proof.
  intros Hr Hr'. apply wp_pool_delete; intros.
  - by eapply outcome_wrote; [exact Hr'|].
  - by apply outcome_unsure.
Qed.

Lemma wp_fetch {A} `{LawfulCodec A} kind k x (Q : result RoboflowError.t (option A) -> World S -> Prop) w : holds (kv w !! k) x ->
  (forall w', calm w w' -> Q (Ok x) w') -> failing Q w -> wp (fetch kind k) Q w.
Proof.
  intros Hx HOk HF. unfold fetch. wp_step. apply wp_pool_get; [|exact HF]. intros w' Hc.
  destruct (kv w !! k) as [b|], x as [a|]; try done; cbn in Hx.
  - unfold decoded. repeat wp_step. rewrite (decode_encode _ _ Hx). wp_step. by apply HOk.
  - wp_step. by apply HOk.
Qed.

Lemma outcome_fetch {A} `{LawfulCodec A} kind k (x : option A) c w : represents c (kv w) -> holds (kv w !! k) x ->
  wp (fetch kind k) (outcome c c x w) w.
Proof. intros Hr Hx. apply (wp_fetch kind k x); [done|intros; by apply outcome_calm|by apply outcome_fault]. Qed.

Lemma outcome_exists id c w : represents c (kv w) -> wp (episode_exists id) (outcome c c (bool_decide (is_Some (episodes c !! id))) w) w.
Proof.
  intros Hr. unfold episode_exists. wp_step. apply wp_pool_get; [|exact (outcome_fault c c _ w Hr)]. intros w' Hc. wp_step.
  assert (bool_decide (is_Some (kv w !! EpisodeKey.metadata id)) = bool_decide (is_Some (episodes c !! id))) as ->; [|by apply outcome_calm].
  pose proof (rep_episodes _ _ Hr id) as Hx. by destruct (kv w !! EpisodeKey.metadata id), (episodes c !! id).
Qed.

Lemma outcome_register_segment s c w : represents c (kv w) ->
  wp (register_segment s) (outcome c (c <| segments := <[SegmentMetaData.segment_id s := s]> (segments c) |>) tt w) w.
Proof.
  intros Hr. unfold register_segment. wp_step. apply wp_encoded. intros b Hb. 
  assert (represents (c <| segments := <[SegmentMetaData.segment_id s := s]> (segments c) |>) (apply_writes ((fun '(k, v) => (k, Some v)) <$>
    [(SegmentKey.metadata (SegmentMetaData.segment_id s), b);
     (SegmentKey.config_index (SegmentMetaData.config_hash s) (SegmentMetaData.segment_id s), "")]) (kv w))) as Hr'
    by exact (represents_put_index _ _ _ _ _ (represents_put_segment _ _ _ _ Hr Hb)).
  apply wp_pool_batch_put; intros.
  - by eapply outcome_wrote; [exact Hr'|].
  - by apply outcome_unsure.
Qed.

Lemma outcome_delete_segment id c w : represents c (kv w) ->
  wp (delete_segment id) (outcome c (c <| segments := delete id (segments c) |>) tt w) w.
Proof.
  intros Hr. unfold delete_segment, get_segment. wp_step.
  apply (wp_fetch _ _ (segments c !! id)); [by apply rep_segments| |exact (outcome_fault _ _ _ w Hr)]. intros w1 Hc1.
  assert (represents c (kv w1)) as Hr1 by (by destruct Hc1 as [-> _]).
  destruct (segments c !! id) as [s|] eqn:Es.
  - wp_step. apply wp_pool_delete.
    + intros w2 [Hl2 Hk2]. assert (represents c (kv w2)) as Hr2 by (rewrite Hk2; by apply represents_delete_index).
      eapply wp_mono; [apply outcome_delete; [exact Hr2|by apply represents_delete_segment]|].
      intros r w3 [Hl3 Ho]. assert (later w w2) as Hl by (etrans; [by apply calm_later|done]). split; [by etrans|].
      destruct r as [x|e|m]; [done|..]; (destruct Ho as [Hn Hor]; split; [by eapply later_not_ready|done]).
    + split.
      * intros e w2 (Hl2&Hn2&Hk2). split; [etrans; [by apply calm_later|done]|]. split; [by eapply later_not_ready; [apply calm_later|]|].
        left. destruct Hk2 as [-> | ->]; [done|by apply represents_delete_index].
      * intros m w2 Hm Hf. apply outcome_panic; [done..|]. split; [etrans; [exact Hc1|apply Hf]|].
        apply (later_not_ready w w1); [by apply calm_later|apply Hf].
  - wp_step. split; [by apply calm_later|]. split; [done|]. rewrite delete_id by done. by destruct c.
Qed.

(** No segment is ever found by its configuration: the scan cannot see the entries of the
    index, and the part it takes for the segment is not there. *)
Lemma outcome_by_config h c w : op_ok (GetSegmentByConfig h) -> represents c (kv w) ->
  wp (get_segment_by_config from_utf8_lossy h) (outcome c c None w) w.
Proof.
  intros [Hh Hu] Hr. unfold get_segment_by_config, TiKVPool.scan_prefix. do 2 wp_step. set (p := "roboflow/idx/config/" +:+ h +:+ "/") in *.
  apply wp_pool_scan; [|by destruct (outcome_fault (A := option SegmentMetaData.t) c c None w Hr); split]. intros w1 Hc. wp_step.
  assert (forall ks, Forall (fun k => k = p) ks -> wp (first_segment from_utf8_lossy ks) (outcome c c None w) w1) as Hall.
  { induction ks as [|k ks IH]; intros Hks; cbn [first_segment]; [wp_step; by apply outcome_calm|].
    apply Forall_cons in Hks as [-> Hks]. rewrite Hu, (index_prefix_parts h Hh : split_char "/" p = _). by apply IH. }
  apply Hall. apply Forall_forall. intros k ([k' v]&->&Hin)%list_elem_of_fmap. apply elem_of_kv_scan in Hin as [_ Hin].
  by apply scan_range_single in Hin.
Qed.

Lemma exec_outcome o c w : op_ok o -> represents c (kv w) -> wp (exec o) (outcome c (spec o c).2 (spec o c).1 w) w.
Proof.
  intros Ho Hr.
  destruct o; cbn [exec spec fst snd];
    match goal with |- wp _ (outcome _ _ (?f ?x) _) _ => eapply (outcome_bind c _ x f) | |- wp _ (outcome _ _ Done _) _ => apply (outcome_bind c _ tt (fun _ => Done)) end.
  - apply outcome_store; [done|]. intros. by apply represents_put_episode.
  - apply outcome_fetch; [done|]. by apply rep_episodes.
  - by apply outcome_exists.
  - apply outcome_store; [done|]. intros. by apply represents_put_episode.
  - apply outcome_delete; [done|]. by apply represents_delete_episode.
  - by apply outcome_register_segment.
  - apply outcome_fetch; [done|]. by apply rep_segments.
  - by apply outcome_by_config.
  - apply outcome_store; [done|]. intros. by apply represents_put_segment.
  - by apply outcome_delete_segment.
  - apply outcome_store; [done|]. intros. by apply represents_put_upload.
  - apply outcome_fetch; [done|]. by apply rep_uploads.
  - apply outcome_delete; [done|]. by apply represents_delete_upload.
  - apply wp_pool_ping; [intros; by apply outcome_calm|by apply outcome_fault].
Qed.

(** Several operations one after the other. *)
Fixpoint exec_all (os : list op) : M S RoboflowError.t (list answer) :=
  match os with [] => mret [] | o :: os' => a ← exec o; l ← exec_all os'; mret (a :: l) end.
Fixpoint spec_all (os : list op) (c : Catalogue) : list answer * Catalogue :=
  match os with
  | [] => ([], c)
  | o :: os' => let '(a, c1) := spec o c in let '(l, c2) := spec_all os' c1 in (a :: l, c2)
  end.

(** With every call answered, all of them answer as the maps. *)
Theorem catalog_session os c w : Forall op_ok os -> ready w -> represents c (kv w) ->
  wp (exec_all os) (fun r w' => r = Ok (spec_all os c).1 /\ represents (spec_all os c).2 (kv w')) w.
Proof.
  intros Hos. revert c w. induction Hos as [|o os Ho Hos IH]; intros c w Hw Hr; cbn [exec_all spec_all]; [by wp_step|].
  wp_step. eapply wp_mono; [by apply exec_outcome|]. clear Ho. intros [a|e|m] w1 [Hl Ho]; [|by destruct Ho..].
  destruct (spec o c) as [a' c1]. destruct Ho as [-> Hr1]. cbn [snd] in Hr1. wp_step. eapply wp_mono; [apply (IH c1); [by eapply later_ready|done]|].
  intros r w2 [-> Hr2]. wp_step. destruct (spec_all os c1) as [l c2]. done.
Qed.

(** C31: The catalogue behaves as three maps, its lookup by configuration apart.  An operation that succeeds answers
    as the maps do and leaves the store showing the updated maps; [get_segment_by_config], of a hash without slashes,
    answers that there is no segment, whatever the maps hold, and changes nothing.  An operation that returns an error does so
    because a call of the cluster failed, and leaves the store showing the maps before or after it.  An operation panics
    only by the drop check of the client, when a call on an open transaction fails, and then the store shows
    the maps before it. *)
Theorem catalog_refines_maps o c w r w' : op_ok o -> represents c (kv w) -> exec o w = (r, w') ->
  later w w' /\
  match r with
  | Ok a => a = (spec o c).1 /\ represents (spec o c).2 (kv w')
  | Err _ => ~ ready w /\ (represents c (kv w') \/ represents (spec o c).2 (kv w'))
  | Panic m => ~ ready w /\ drop_check = Some m /\ represents c (kv w')
  end.
Proof. intros Ho Hr E. exact (wp_elim (exec o) _ w r w' (exec_outcome o c w Ho Hr) E). Qed.

(** What the maps hold makes no difference to a lookup by configuration. *)
Theorem config_lookup_finds_nothing h c w r w' : op_ok (GetSegmentByConfig h) -> represents c (kv w) ->
  get_segment_by_config from_utf8_lossy h w = (r, w') -> match r with Ok x => x = None | _ => True end.
Proof.
  intros Ho Hr E. pose proof (wp_elim _ _ _ _ _ (outcome_by_config h c w Ho Hr) E) as [_ Hx]. destruct r; [apply Hx|done..].
Qed.

(** A failing read of an open transaction ends in a panic, not in the error that the operation builds. *)
Theorem failed_read_panics k m t s s' e w : drop_check = Some m ->
  begin_optimistic (env w) = (inr t, s) -> txn_get t k s = (inl e, s') -> (TiKVPool.get k w).1 = Panic m.
Proof.
  intros Hm E1 E2. unfold TiKVPool.get, TiKVPool.in_txn, TiKVPool.call, map_err_m, rpc, mbind, M_bind. rewrite E1. cbn.
  rewrite E2. cbn. unfold TiKVPool.dropped. by rewrite Hm.
Qed.
End Refinement.

(** ** Examples *)
Module CatalogExamples.
Import Wire Sim.
#[export] Instance sim_scan : TransactionScan Sim.t := {|
  drop_check := Some "Dropping an active transaction. Consider commit or rollback it.";
  txn_scan ws lo hi n s := Sim.answer (kv_scan lo hi n (apply_writes ws (Sim.store s))) s |}.
#[export] Instance sim_scan_laws : TransactionScanLaws Sim.t.
Proof.
  split.
  - intros ws lo hi n s r s'. apply Sim.answer_reads.
  - intros ws lo hi n s E. cbn in *. unfold Sim.answer. rewrite E. by eauto.
Qed.

#[export] Instance wire_episode : Wire.Wire EpisodeMetadata.t.
Proof.
  refine (Wire.wire_iso (fun e => (EpisodeMetadata.episode_id e, EpisodeMetadata.segment_id e, EpisodeMetadata.dataset_name e,
      EpisodeMetadata.frame_count e, EpisodeMetadata.total_bytes e, EpisodeMetadata.start_ns e, EpisodeMetadata.end_ns e,
      EpisodeMetadata.created_at e, EpisodeMetadata.labels e, EpisodeMetadata.update_version e))
    (fun '(a, b, c, d, e, f, g, h, i, j) => EpisodeMetadata.mk a b c d e f g h i j) _). by intros [].
Defined.
#[export] Instance wire_segment : Wire.Wire SegmentMetaData.t.
Proof.
  refine (Wire.wire_iso (fun s => (SegmentMetaData.segment_id s, SegmentMetaData.dataset_name s, SegmentMetaData.config_hash s,
      SegmentMetaData.storage_prefix s, SegmentMetaData.episode_ids s, SegmentMetaData.total_frames s, SegmentMetaData.total_bytes s,
      SegmentMetaData.start_ns s, SegmentMetaData.end_ns s, SegmentMetaData.created_at s, SegmentMetaData.update_version s))
    (fun '(a, b, c, d, e, f, g, h, i, j, k) => SegmentMetaData.mk a b c d e f g h i j k) _). by intros [].
Defined.
#[export] Instance wire_upload : Wire.Wire UploadStatus.t.
Proof.
  refine (Wire.wire_iso (fun u => (UploadStatus.episode_id u, UploadStatus.total_files u, UploadStatus.uploaded_files u, UploadStatus.failed_files u,
      UploadStatus.uploaded_bytes u,
      match UploadStatus.status u with UploadState.Pending => 0 | UploadState.InProgress => 1 | UploadState.Complete => 2 | UploadState.Failed => 3 end,
      UploadStatus.updated_at u, UploadStatus.error u))
    (fun '(a, b, c, d, e, f, g, h) => UploadStatus.mk a b c d e
      (match f with 0 => UploadState.Pending | 1 => UploadState.InProgress | 2 => UploadState.Complete | _ => UploadState.Failed end) g h) _).
  by intros [? ? ? ? ? [] ? ?].
Defined.

Definition sim (fs : list (option (string * bool))) : World Sim.t := mkWorld (Sim.mk ∅ 0 fs) (CircuitBreaker.new 0).
Definition segment (hash : string) : SegmentMetaData.t := SegmentMetaData.new "s1" "pick" hash "s3://bucket/s1" 7.
Definition nothing : Catalogue := mkCatalogue ∅ ∅ ∅.

Lemma nothing_represented fs : represents nothing (kv (sim fs)).
Proof. split; intros id; cbn; by rewrite !lookup_empty. Qed.

(** The commit is reported as failed after it took effect; a write of the transaction fails before it. *)
Lemma catalog_refines_maps_witness :
  (let '(r, w') := exec id (RegisterSegment (segment "h1")) (sim [None; None; None; Some ("timeout", true)]) in
   r = Err (RoboflowError.other "TiKV commit failed: timeout") /\
   (represents nothing (kv w') \/ represents (mkCatalogue ∅ {[ "s1" := segment "h1" ]} ∅) (kv w'))) /\
  (let '(r, w') := exec id (GetSegmentByConfig "h1") (sim [None; Some ("timeout", false)]) in
   r = Panic "Dropping an active transaction. Consider commit or rollback it." /\ represents nothing (kv w')).
Proof.
  split.
  - destruct (exec id _ _) as [r w'] eqn:E.
    pose proof (catalog_refines_maps id (RegisterSegment (segment "h1")) nothing _ r w' I (nothing_represented _) E) as [_ Ho].
    assert (r = Err (RoboflowError.other "TiKV commit failed: timeout")) as -> by (vm_compute in E; by injection E as <- _).
    split; [reflexivity|]. exact (proj2 Ho).
  - destruct (exec id _ _) as [r w'] eqn:E.
    pose proof (catalog_refines_maps id (GetSegmentByConfig "h1") nothing _ r w' (conj eq_refl eq_refl) (nothing_represented _) E) as [_ Ho].
    assert (r = Panic "Dropping an active transaction. Consider commit or rollback it.") as -> by (vm_compute in E; by injection E as <- _).
    split; [reflexivity|]. apply Ho.
Defined.

(** What is registered is found by its identifier, and not by its configuration. *)
Example config_lookup_misses :
  let w := (exec id (RegisterSegment (segment "h1")) (sim [])).2 in
  (exec id (GetSegment "s1") w).1 = Ok (ASegment (Some (segment "h1"))) /\
  (exec id (GetSegmentByConfig "h1") w).1 = Ok (ASegment None).
Proof. vm_compute. split; reflexivity. Qed.

(** A read that fails panics, where a failing [begin_optimistic] is answered with an error. *)
Example failed_get_panics :
  (exec id (GetEpisode "e") (sim [None; Some ("timeout", false)])).1 = Panic "Dropping an active transaction. Consider commit or rollback it." /\
  (exec id (GetEpisode "e") (sim [Some ("timeout", false)])).1 = Err (RoboflowError.other "TiKV get failed: timeout").
Proof. vm_compute. split; reflexivity. Qed.

(** A segment that was updated leaves the entry of its former configuration behind. *)
Example stale_index_entry :
  let w := (exec_all id [RegisterSegment (segment "h1"); UpdateSegment (segment "h2"); DeleteSegment "s1"] (sim [])).2 in
  kv w !! SegmentKey.config_index "h1" "s1" = Some "" /\ kv w !! SegmentKey.metadata "s1" = None.
Proof. vm_compute. split; reflexivity. Qed.

(** The sum of the files can wrap, and an upload is then not complete. *)
Example upload_count_wraps :
  UploadStatus.is_complete (UploadStatus.mk "e" u32_max u32_max 1 0 UploadState.InProgress 0 None) = false.
Proof. reflexivity. Qed.
End CatalogExamples.
